(* ===== verification/_CoqProject ===== *)
-Q . S2P
Prelude.v
SumTree.v
Cursor.v
CursorSeek.v
CursorMove.v
KeyedTree.v
TreeMap.v
TabStop.v
Subscription.v
Sorting.v
Hashing.v
Geometry.v
WindowPosition.v
BoundsTree.v
Scene.v
SceneBatches.v
ScenePaint.v
Text.v
SemanticVersion.v
RelPath.v
Utf8.v
LineLayout.v
ShapedLine.v
LineQueries.v
LineWrap.v
TextRun.v
LineWrapper.v
LineCache.v
ShapeText.v
Highlights.v
Actions.v
KeyContext.v
Keystroke.v
Keymap.v
DispatchTree.v
DispatchInvariant.v
DispatchReuse.v
DispatchKeys.v
EntityMap.v
EntityLife.v
EntityThreads.v
App.v
AppQueue.v
AppFlow.v
WindowTabs.v
Frame.v
DispatchFrame.v
FrameParts.v
FrameHover.v
FrameStates.v
FrameReuse.v
Drawable.v
FrameDraw.v
Anchored.v
Tooltips.v
Scroll.v
UniformList.v
Clicks.v
Accessibility.v
WindowKeys.v
WindowTimers.v
ThreadedDispatcher.v
ViewCache.v
Arena.v
ListState.v
ListItems.v
ListScroll.v
ListLayout.v
ListPrepaint.v
