(* ===== verification/Prelude.v ===== *)
(** * fc-gpui: a verification library of the framework's data structures and decision logic

    A shallow embedding of the parts of the repository that carry its own data
    structures, state machines and decisions, with the theorems that make them
    correct.  File names are relative to [src/].

    ** The program

    gpui is a GPU-accelerated user interface framework.  An application holds
    entities and a tree of elements; every frame the elements are laid out, painted
    into a scene and hit tested, and input is dispatched through the focused path of
    the tree.  The platform crates (gpui-linux, gpui-macos, gpui-windows, gpui-wgpu)
    provide windows, event loops, text and rendering.  Under the framework lies
    [sum_tree], a persistent B+ tree whose nodes cache summaries; ordered maps and
    sets are built on it, and so are the tab order of a frame and the items of a list.

    The parts modelled, and how they call one another ([A <- B]: B calls A):

    - the sum tree: [SumTree] <- [Cursor] <- [KeyedTree] <- [TreeMap], [TabStop],
      [ListState];
    - paths: [Text] <- [RelPath];
    - a frame: [Geometry] <- [BoundsTree] <- [Scene]; [TabStop], whose history a
      cached view replays; [DispatchTree], which a cached view moves to the next frame;
      [Arena], where elements live until the frame ends; [WindowPosition];
    - input: [Text] <- [KeyContext], [Keystroke], [Actions] <- [Keymap] <-
      [DispatchTree];
    - text: [Utf8], [LineLayout] <- [ShapedLine], [LineWrapper], [LineCache] <-
      [ShapeText], [Highlights];
    - the application: [EntityMap], [Subscription] <- [App]; [WindowTabs];
    - windows: [Frame], over the dispatch tree, the scene, the tab order and the caches of
      lines <- [Drawable], the elements and the cached views <- [FrameDraw], which draws a
      window, and [WindowKeys], its key events; [Anchored], an element; [Accessibility];
    - elements: [Scroll] <- [UniformList]; [Clicks] and [Tooltips];
    - lists: [ListState], whose items are a sum tree.

    The components meet at interfaces that are classes: the summaries and dimensions
    of a tree, the orders of keys, the order of a hash map ([HashOrder]), the sorts of
    the standard library ([Sorting]), the tables of characters ([Unicode]) and the
    platform that shapes text ([PlatformTextSystem]), and what a frame asks of its parts
    ([FrameTree], [FrameScene], [FrameTabs], [FrameText]); each class of laws has an
    instance, with which the witnesses compute.

    ** The files

    - Prelude (this file): the outcomes of Rust computations, the partial
      operations of arrays and options, the orders [Ord], [BTreeMap], and the generic
      lemmas.  Sorting: the sorts by a key, stable and unstable.  Hashing: the order in
      which a hash map is iterated.
    - SumTree: crates/sum_tree/src/sum_tree.rs, all of the operations of [SumTree]
      without a cursor.  [tree] is [Node], [push_tree_recursive] and [append] are the
      functions of those names; [from_iter] and [from_par_iter] are split into their
      loops.
    - Cursor: crates/sum_tree/src/cursor.rs.  [seek_loop] is the loop ['outer] of
      [seek_internal], over the class [SeekAggregate] with the three implementations
      of the code; [search_forward_loop] and [search_backward_loop] are those of the
      functions; then [FilterCursor], [Iter] and [SumTree::items].  CursorSeek and
      CursorMove: the theorems on cursors.
    - KeyedTree: [insert_or_replace], [remove], [edit] and [get] of sum_tree.rs.
    - TreeMap: crates/sum_tree/src/tree_map.rs, [TreeMap] and [TreeSet].
    - TabStop: crates/gpui/src/tab_stop.rs, and the replay of a range of a frame
      (window.rs).
    - Subscription: crates/gpui/src/subscription.rs.
    - Geometry: the part of crates/gpui/src/geometry.rs on points, sizes, bounds,
      corners and axes.  WindowPosition: platform/window_positioner.rs.
    - BoundsTree: crates/gpui/src/bounds_tree.rs.  Scene: crates/gpui/src/scene.rs,
      painting, replaying, finishing and the iterator of batches; SceneBatches and
      ScenePaint: the theorems on the scene.
    - Text: strings as lists of characters, with the operations of the standard library
      that the parsers use.  Utf8: those at byte offsets.
    - LineLayout: text_system/line_layout.rs without its caches.  ShapedLine:
      text_system/line.rs without painting, and the theorem on its cursor.
      LineQueries and LineWrap: the theorems on positions and on wrapping.
    - Highlights: [HighlightStyle], [combine_highlights] and [TextStyle] of style.rs, and
      [compute_runs] of elements/text.rs.
    - TextRun and LineWrapper: text_system/line_wrapper.rs.  LineCache: the caches of
      line_layout.rs.  ShapeText: text_system.rs.
    - Actions: the registry of crates/gpui/src/action.rs.
    - KeyContext: crates/gpui/src/keymap/context.rs, contexts and predicates, with
      their parsers and printers.  Keystroke: crates/gpui/src/platform/keystroke.rs.
      Keymap: crates/gpui/src/keymap.rs and keymap/binding.rs.
    - DispatchTree: crates/gpui/src/key_dispatch.rs; DispatchInvariant, DispatchReuse
      and DispatchKeys: the theorems on its shape, on moving a subtree and on
      keystrokes.
    - EntityMap: crates/gpui/src/app/entity_map.rs; EntityLife: its theorems.
      EntityThreads: the counters of handles, with threads as a step relation.
    - App: crates/gpui/src/app.rs and app/context.rs, updates, effects, observers and
      windows as far as the application changes them; AppQueue and AppFlow: its
      theorems.  WindowTabs: [SystemWindowTabController] of app.rs.
    - Frame: the frames of a window (crates/gpui/src/window.rs), hitboxes, the stacks that
      elements draw with, the states of elements, what is recorded and taken over from the
      frame before, transactions, mouse events.  DispatchFrame and FrameParts: the instances
      of its classes with the other components; FrameHover, FrameStates and FrameReuse: its
      theorems.
    - Drawable: crates/gpui/src/element.rs, the phases of an element, and view.rs, views and
      cached views.  ViewCache: the theorem on them.  FrameDraw: [draw] and what it calls in
      window.rs.
    - WindowKeys: key events, pending input and its timeout in window.rs; WindowTimers: the
      theorem on them.
    - Anchored: elements/anchored.rs.  Accessibility: window/a11y.rs, and the nodes that
      elements push and the requests that windows handle (element.rs, window.rs).
    - Scroll, Clicks and Tooltips: what elements/div.rs does with the wheel and the offset, with
      presses, drags and hovering, and with tooltips; the gestures and clicks of interactive.rs.
      UniformList: elements/uniform_list.rs.
    - SemanticVersion: crates/semantic_version/src/semantic_version.rs.  RelPath:
      crates/util/src/rel_path.rs, and [PathStyle] of paths.rs.
    - ThreadedDispatcher: crates/gpui/src/platform/threaded_dispatcher.rs, its queues and its
      threads as a step relation.
    - Arena: crates/gpui/src/arena.rs.
    - ListState: crates/gpui/src/elements/list.rs; ListItems, ListScroll, ListLayout and
      ListPrepaint: its theorems.

    ** What the theorems show

    - The tree ([append_correct], and [from_iter_correct] with it): the operations never panic, keep
      the tree well formed (uniform height, filled nodes, exact cached summaries) and
      act on the list of its items as their names say; the height stays within its type if
      the trees appended are lower than that, and need not otherwise ([height_overflow]).
    - Cursors ([seek_correct], and [slice_suffix_correct] with it): a seek lands where a linear scan
      would; slices, suffixes and summaries are the items and sums between.
    - Keyed trees, maps and sets ([map_updates_correct], and with it
      [keyed_operations_correct] and [map_queries_correct]): the operations refine those of a sorted association list.
    - The tab order ([tab_operations_refine]): the operations refine an abstract state
      with a plain list of nodes.
    - Subscriptions ([subscription_lifecycle]): the life of a subscriber.
    - The scene ([bounds_insert_correct], [scene_draw_correct], [scene_replay_correct]):
      an inserted quad is given the least order above those of the quads it intersects,
      with the shape of the tree as invariant; the batches of a finished scene draw
      every primitive once, above what it was painted over; a replayed range paints the
      same primitives in the same layers.
    - Text ([cursor_splits_correct], [wrapped_positions_correct] to
      [highlighted_text_correct]): the cursor of a line gives
      the pieces that splitting it gives; positions and indices are inverse; both ways
      of wrapping cut a line into rows, at the words where they can; truncation leaves
      room for its suffix and keeps the runs covering the text; no layout of older fonts survives
      in the caches, which stay within their budget, unless a window opens between the fonts
      and the next layout; a text's lines carry the styles of
      their bytes; highlights that overlap are combined into runs.
    - Keymap ([context_parse_correct] to [bindings_for_input_correct], [keymap_index_correct]
      and [keystroke_roundtrip]): when the parser of
      contexts returns; printing and parsing of contexts, predicates and keystrokes; the
      indices of the keymap; the bindings an input resolves to.
    - The dispatch tree ([dispatch_keys_correct], [dispatch_tree_invariant],
      [reuse_subtree_correct]): keystrokes typed are dispatched, kept pending or
      replayed, none lost; the nodes form a tree that every operation keeps; a reused
      subtree is the subtree of the frame before.
    - Entities ([entity_handles_safe], [handles_interleave_safely],
      [handles_make_progress]): a handle's entity is alive, counters are exact, and so
      they are when threads interleave, where no schedule of upgrades blocks.
    - The application ([enter_correct], [delivery_correct],
      [dispatch_global_action_correct], [update_errors], [window_tabs_correct]): nested
      updates flush the effects once, at the outermost; who is called for an effect, in
      which order and in which state, and which subscriptions survive; which errors and
      panics an update meets; the groups of tabs.
    - Windows ([pending_input_timed], [cached_views_replayed], [element_states_refine], [hit_test_correct],
      [mouse_dispatch_correct], [a11y_tree_correct], [transact_correct]): input that is kept
      pending has a timer, and only then, and is replayed when that is over; a cached view that
      is not rendered leaves what it left when it was last, with the conditions under which it
      may be taken over and the findings on what that misses; states of elements live as long
      as they are met in every frame, if no access nests in one of the same key; which hitboxes
      are hovered; the order in which listeners are called; and what a failed transaction gives
      up.  The tree for assistive technology is well formed, if no element takes the root's id.
      [tooltip_in_window] places tooltips, [anchored_in_window] anchored elements.
    - The arena ([arena_bounds], [arena_boxes_correct]): allocations are aligned, in
      bounds and apart, and a box is dereferenced only before its arena is cleared.
    - Elements ([click_correct], [tooltip_correct], [scroll_prepaint_correct],
      [uniform_list_correct]): which presses and releases make a click, and that it calls its
      listeners once; a tooltip waits exactly while a task does, and shows, stays and hides as
      the mouse moves; offsets stay in range, the item that was asked for is at the top or in
      view, and a uniform list draws what is in view.
    - Lists ([list_splice_correct], [list_layout_correct], [list_prepaint_correct]):
      edits keep the scroll position on its item; a layout fills the viewport with
      consecutive items; prepainting ends, and which sizes it trusts.
    - Versions and paths ([version_roundtrip], [rel_path_new_correct], [rel_path_roundtrip]):
      printing and parsing; a relative path is that of its names, resolved, and stays
      relative, with the paths for which this fails.
    - Threads ([run_until_idle_correct]): what is in flight is counted exactly, and goes on
      while a worker is left; what is queued while the main thread waits wakes it; and the
      schedules in which it is not woken ([asleep_stays], [no_worker_left]).

    ** Conventions

    A function that may panic returns an [outcome]; [Ok] rules out a panic and
    running out of fuel.  Mutable receivers are passed and returned; [Arc], [Rc] and
    [Box] are transparent where nothing is shared through them ([Arc::make_mut] copies,
    so that no alias sees a change).  Where sharing matters the state is explicit: the
    state that callbacks of a [SubscriberSet] and of the application reach is passed
    through every call, the windows' caches of lines share a state, and the counters of
    handles are a heap that threads step on.  Locks held for a whole operation are
    transparent.  Traits are classes of operations with the laws a theorem needs in a
    class of their own; every law class has instances.  Closures are functions; those of
    [retain] and of filters that the code types [FnMut] are pure predicates, except
    in Subscription and App.  Debug assertions are left out, but for that of
    [shape_line].

    Fuel: [from_iter] takes the number of items for the leaves and of nodes for the
    levels, since each iteration consumes one or halves them; [cursor_fuel] is twice
    the nodes and items plus the stack plus 3, since an iteration pushes or pops a
    node; the loops of the tab order take the number of nodes plus one; the search of
    a [BoundsTree] takes the number of nodes plus one, and the descent the number of
    nodes; the iterator of batches the number of primitives plus one; the parser of
    predicates twice the length plus two, since of two nested calls one at least
    consumes a character; the walks of a dispatch tree the number of nodes plus one,
    [pop_until] the depth of the stack, and [dispatch_key] and the flush the length of
    the input plus one; the loops of a list the number of items plus one; the iterator of
    [wrap_line] the number of characters plus one.  Each bound is proved enough.  There
    are two exceptions.  The parser of contexts: the theorem says on which inputs no
    bound is.  The application: a unit is spent on each nested call and each effect, and
    since effects may make effects for ever, its theorems are about flushes that end, and
    the witnesses run some.

    Bounds: a leaf or node holds at most 12 entries, and a cursor's stack 16 nodes
    ([STACK_CAPACITY]; pushing onto a full stack panics), so that theorems on cursors
    and lists ask for a tree of height below 16.  A node's height, a [u8], is a natural
    number: [append_correct] shows that it is at most [MAX_HEIGHT], 255, after appending trees
    below that; where no tree is appended to itself over and over, memory ends first.  Counts
    of entities and byte offsets are natural numbers.  The orders of a
    [BoundsTree] are [u32] and wrap, as the keymap's version and the clock of the line
    cache wrap at 2^64; addresses of the arena are [usize] and checked; lengths of
    decorations are [u32] and panic on overflow.  Pixels are integers: in the line
    wrapper in a unit of which a pixel is a whole number, in wrapped lines with
    comparisons doubled where the code halves.  [sort_unstable_by] and the sorts by a key
    are a class with the laws of the standard library, and a [BTreeMap] a sorted
    association list.  [PartialEq] agrees with [Ord].

    ** What is not modelled

    The platform crates, the renderer and the macros are input and output, foreign calls and
    code generation.  Styles are declarative builders, and layout is done by taffy, a library
    that the sources only call; so are tessellation (lyon) and the rasterisation of images.
    Executors and asynchronous contexts wrap an async runtime, of which tasks are opaque.  Painting a primitive scales
    and rounds floating point coordinates and calls the scene; the scene's own operations are
    modelled.  Colours are floating point; where their mixing matters it is a class.  The
    reports of missing glyphs (text_system.rs) are a channel to the client.  Floating point
    numbers are integers throughout, so that rounding, infinities and NaN are outside the
    theorems. *)

From stdpp Require Import base list option numbers sorting.

(** * Outcomes of Rust computations

    A Rust function either returns, panics, or (when the model iterates a loop
    with fuel) uses up the iterations it was given.  The two failures are kept
    apart, so that a theorem that concludes [Ok] rules both out. *)

Inductive outcome (A : Type) : Type :=
| Ok (a : A)
| Panic
| OutOfFuel.

Arguments Ok {A} a.
Arguments Panic {A}.
Arguments OutOfFuel {A}.

Definition obind {A B} (m : outcome A) (k : A -> outcome B) : outcome B :=
  match m with
  | Ok a => k a
  | Panic => Panic
  | OutOfFuel => OutOfFuel
  end.

Arguments obind {A B} !m k /.

Declare Scope rust_scope.
Delimit Scope rust_scope with rust.

Notation "'let!' x ':=' m 'in' k" := (obind m (fun x => k))
  (at level 10, x pattern, m at level 200, k at level 200,
   format "'[v' 'let!'  x  ':='  m  'in' '/' k ']'") : rust_scope.

Open Scope rust_scope.

(** The items of an option, as [extend] takes them. *)
Definition opt_list {A} (o : option A) : list A :=
  match o with Some a => [a] | None => [] end.

(** [Option::unwrap] and an index expression [v[i]]. *)
Definition unwrap {A} (o : option A) : outcome A :=
  match o with
  | Some a => Ok a
  | None => Panic
  end.

Definition index {A} (v : list A) (i : nat) : outcome A := unwrap (v !! i).

(** [usize] subtraction of one. *)
Definition usize_pred (n : nat) : outcome nat :=
  match n with 0 => Panic | Datatypes.S m => Ok m end.

(** [usize] subtraction, which panics below zero as overflow does. *)
Definition usize_sub (n m : nat) : outcome nat := if m <=? n then Ok (n - m) else Panic.

(** [ArrayVec<_, cap>]: [push], [extend] and [collect] panic beyond the
    capacity. *)
Definition array_push {A} (cap : nat) (v : list A) (a : A) : outcome (list A) :=
  if length v <? cap then Ok (v ++ [a]) else Panic.

Definition array_extend {A} (cap : nat) (v w : list A) : outcome (list A) :=
  if length v + length w <=? cap then Ok (v ++ w) else Panic.

Definition array_collect {A} (cap : nat) (w : list A) : outcome (list A) :=
  array_extend cap [] w.

(** A Rust [for] loop with an accumulator whose body may panic. *)
Fixpoint ofold {A B} (f : B -> A -> outcome B) (l : list A) (b : B) : outcome B :=
  match l with
  | [] => Ok b
  | a :: l => let! b := f b a in ofold f l b
  end.

(** [iter().map(f).collect()] for a function that may panic. *)
Fixpoint traverse {A B} (f : A -> outcome B) (l : list A) : outcome (list B) :=
  match l with
  | [] => Ok []
  | a :: l =>
      let! b := f a in
      let! l := traverse f l in
      Ok (b :: l)
  end.

(** [last_mut().unwrap()] followed by an update that also returns a value. *)
Fixpoint last_mut {A B} (f : A -> outcome (A * B)) (l : list A) : outcome (list A * B) :=
  match l with
  | [] => Panic
  | a :: l' =>
      match l' with
      | [] => let! (a', b) := f a in Ok ([a'], b)
      | _ :: _ => let! (l'', b) := last_mut f l' in Ok (a :: l'', b)
      end
  end.

(** [std::cmp::Ordering] is [comparison]; [Ordering::then] and [is_ge]. *)
Definition ordering_then (c d : comparison) : comparison :=
  match c with Eq => d | _ => c end.

Definition ordering_is_ge (c : comparison) : bool :=
  match c with Lt => false | _ => true end.

(** * Total orders

    [std::cmp::Ord] together with the [PartialEq] the standard library requires to
    agree with it: [a == b] exactly when [a.cmp(&b)] is [Equal]. *)

Class Ord (A : Type) := cmp : A -> A -> comparison.

Class OrdLaws (A : Type) `{Ord A} : Prop := {
  cmp_eq : forall a b : A, cmp a b = Eq <-> a = b;
  cmp_flip : forall a b : A, cmp b a = CompOpp (cmp a b);
  cmp_lt_trans : forall a b c : A, cmp a b = Lt -> cmp b c = Lt -> cmp a c = Lt;
}.

(** The operator [a == b]. *)
Definition eqb {A} `{Ord A} (a b : A) : bool :=
  match cmp a b with Eq => true | _ => false end.

(** The operator [a < b]. *)
Definition ltb {A} `{Ord A} (a b : A) : bool :=
  match cmp a b with Lt => true | _ => false end.

#[export] Instance nat_ord : Ord nat := Nat.compare.

#[export] Instance nat_ord_laws : OrdLaws nat.
Proof.
  split; unfold cmp, nat_ord; intros.
  - apply Nat.compare_eq_iff.
  - by rewrite Nat.compare_antisym.
  - apply Nat.compare_lt_iff in H, H0. apply Nat.compare_lt_iff. lia.
Qed.

#[export] Instance Z_ord : Ord Z := Z.compare.

#[export] Instance Z_ord_laws : OrdLaws Z.
Proof.
  split; unfold cmp, Z_ord; intros.
  - apply Z.compare_eq_iff.
  - by rewrite Z.compare_antisym.
  - apply (proj1 (Z.compare_lt_iff _ _)) in H, H0. apply Z.compare_lt_iff. lia.
Qed.

(** [#[derive(Ord)]] on [Option]: [None] comes first. *)
#[export] Instance option_ord {A} `{Ord A} : Ord (option A) := fun a b =>
  match a, b with
  | None, None => Eq
  | None, Some _ => Lt
  | Some _, None => Gt
  | Some a, Some b => cmp a b
  end.

#[export] Instance option_ord_laws {A} `{OrdLaws A} : OrdLaws (option A).
Proof.
  split; unfold cmp, option_ord.
  - intros [a|] [b|]; try done. rewrite cmp_eq. naive_solver.
  - intros [a|] [b|]; try done. apply cmp_flip.
  - intros [a|] [b|] [c|]; try done. apply cmp_lt_trans.
Qed.

(** Tuples and [#[derive(Ord)]] on structs: fields in order. *)
#[export] Instance prod_ord {A B} `{Ord A, Ord B} : Ord (A * B) := fun a b =>
  ordering_then (cmp a.1 b.1) (cmp a.2 b.2).

Section OrdFacts.
Context {A} `{OrdLaws A}.
Implicit Types a b c : A.

Lemma cmp_refl a : cmp a a = Eq.
Proof. by apply cmp_eq. Qed.

Lemma cmp_gt a b : cmp a b = Gt <-> cmp b a = Lt.
Proof. rewrite (cmp_flip a b). by destruct (cmp a b). Qed.

Lemma eqb_spec a b : eqb a b = true <-> a = b.
Proof. unfold eqb. rewrite <- cmp_eq. by destruct (cmp a b). Qed.

Lemma ltb_spec a b : ltb a b = true <-> cmp a b = Lt.
Proof. unfold ltb. by destruct (cmp a b). Qed.

Lemma cmp_lt_irrefl a : cmp a a <> Lt.
Proof. by rewrite cmp_refl. Qed.
End OrdFacts.

#[export] Instance prod_ord_laws {A B} `{OrdLaws A, OrdLaws B} : OrdLaws (A * B).
Proof.
  split; unfold cmp, prod_ord, ordering_then.
  - intros [a1 a2] [b1 b2]; simpl. destruct (cmp a1 b1) eqn:E.
    + apply cmp_eq in E as ->. rewrite cmp_eq. naive_solver.
    + split; [done|]. intros [= -> ->]. by rewrite cmp_refl in E.
    + split; [done|]. intros [= -> ->]. by rewrite cmp_refl in E.
  - intros [a1 a2] [b1 b2]; simpl. rewrite (cmp_flip a1 b1). destruct (cmp a1 b1); simpl; [|done..].
    apply cmp_flip.
  - intros [a1 a2] [b1 b2] [c1 c2]; simpl. intros Hab Hbc. destruct (cmp a1 b1) eqn:E; [| |done].
    + apply cmp_eq in E as ->. destruct (cmp b1 c1); [|done..]. by eapply cmp_lt_trans.
    + destruct (cmp b1 c1) eqn:E'; [| |done].
      * apply cmp_eq in E' as ->. by rewrite E.
      * by rewrite (cmp_lt_trans a1 b1 c1).
Qed.

(** Slices and vectors: lexicographic, a proper prefix first. *)
#[export] Instance list_ord {A} `{Ord A} : Ord (list A) :=
  fix go (l1 l2 : list A) : comparison :=
    match l1, l2 with
    | [], [] => Eq
    | [], _ :: _ => Lt
    | _ :: _, [] => Gt
    | a :: l1, b :: l2 => ordering_then (cmp a b) (go l1 l2)
    end.

#[export] Instance list_ord_laws {A} `{OrdLaws A} : OrdLaws (list A).
Proof.
  split; unfold cmp.
  - induction a as [|a l1 IH]; intros [|b l2]; simpl; try done.
    destruct (cmp a b) eqn:E; simpl; [|split; [done|]; intros [= -> ->]; by rewrite cmp_refl in E..].
    apply cmp_eq in E as ->. rewrite IH. naive_solver.
  - induction a as [|a l1 IH]; intros [|b l2]; simpl; try done.
    rewrite (cmp_flip a b). destruct (cmp a b); simpl; [apply IH|done..].
  - induction a as [|a l1 IH]; intros [|b l2] [|c l3]; simpl; try done.
    destruct (cmp a b) eqn:E; simpl; [| |done].
    + apply cmp_eq in E as ->. destruct (cmp b c); simpl; [|done..]. apply IH.
    + intros _. destruct (cmp b c) eqn:E'; simpl; [| |done]; intros E2.
      * apply cmp_eq in E' as ->. by rewrite E.
      * by rewrite (cmp_lt_trans a b c).
Qed.

(** [std::cmp::PartialEq], where its agreement with [Ord] is not a matter of
    course. *)
Class PartialEq (A : Type) := peq : A -> A -> bool.

Class PartialEqLaws (A : Type) `{Ord A, PartialEq A} : Prop :=
  peq_eqb : forall a b : A, peq a b = eqb a b.

(** * Lemmas on outcomes *)

Lemma index_Ok {A} (v : list A) i a : v !! i = Some a -> index v i = Ok a.
Proof. unfold index. by intros ->. Qed.

Lemma usize_sub_Ok n m : m <= n -> usize_sub n m = Ok (n - m).
Proof. intros H. unfold usize_sub. by rewrite (proj2 (Nat.leb_le _ _) H). Qed.

Lemma traverse_Ok {A B} (f : A -> outcome B) (g : A -> B) l : Forall (fun a => f a = Ok (g a)) l -> traverse f l = Ok (map g l).
Proof. induction 1 as [|a l Ha _ IH]; [done|]. cbn. by rewrite Ha, IH. Qed.

Lemma array_push_Ok {A} cap (v : list A) a :
  length v < cap -> array_push cap v a = Ok (v ++ [a]).
Proof.
  intros H. unfold array_push. by rewrite (proj2 (Nat.ltb_lt _ _) H).
Qed.

Lemma array_extend_Ok {A} cap (v w : list A) :
  length v + length w <= cap -> array_extend cap v w = Ok (v ++ w).
Proof.
  intros H. unfold array_extend. by rewrite (proj2 (Nat.leb_le _ _) H).
Qed.

Lemma array_collect_Ok {A} cap (w : list A) :
  length w <= cap -> array_collect cap w = Ok w.
Proof. intros H. unfold array_collect. by rewrite array_extend_Ok. Qed.

Lemma last_mut_snoc {A B} (f : A -> outcome (A * B)) l a :
  last_mut f (l ++ [a]) = (let! (a', b) := f a in Ok (l ++ [a'], b)).
Proof.
  induction l as [|x l IH]; [done|].
  simpl. destruct (l ++ [a]) eqn:E; [by destruct l|].
  rewrite IH. by destruct (f a) as [[]| |].
Qed.

Lemma ofold_app {A B} (f : B -> A -> outcome B) l1 l2 b :
  ofold f (l1 ++ l2) b = (let! b := ofold f l1 b in ofold f l2 b).
Proof.
  revert b. induction l1 as [|a l1 IH]; intros b; [done|].
  simpl. destruct (f b a); simpl; auto.
Qed.

(** What a computation returns, if it returns, satisfies [P]. *)
Definition returns {A} (P : A -> Prop) (m : outcome A) : Prop :=
  match m with Ok a => P a | Panic | OutOfFuel => True end.

Lemma returns_Ok {A} (P : A -> Prop) m a : returns P m -> m = Ok a -> P a.
Proof. by intros H ->. Qed.

Lemma returns_intro {A} (P : A -> Prop) m : (forall a, m = Ok a -> P a) -> returns P m.
Proof. intros H. destruct m; simpl; auto. Qed.

Lemma returns_weaken {A} (P Q : A -> Prop) m : (forall a, P a -> Q a) -> returns P m -> returns Q m.
Proof. intros H. destruct m; simpl; auto. Qed.

Lemma returns_bind {A B} (P : B -> Prop) (m : outcome A) (k : A -> outcome B) :
  returns (fun a => returns P (k a)) m -> returns P (obind m k).
Proof. by destruct m. Qed.

(** An invariant of a loop. *)
Lemma returns_ofold {A B} (P : B -> Prop) (f : B -> A -> outcome B) l b :
  P b -> (forall b a, P b -> returns P (f b a)) -> returns P (ofold f l b).
Proof.
  intros Hb Hf. revert b Hb. induction l as [|a l IH]; intros b Hb; [done|]. simpl.
  apply returns_bind. eapply returns_weaken; [|by apply Hf]. simpl. auto.
Qed.

(** * Lemmas on lists *)

Lemma list_snoc_inv {A} (l : list A) : l <> [] -> exists l' a, l = l' ++ [a].
Proof.
  intros H. destruct (exists_last H) as (l' & a & ->). eauto.
Qed.

Lemma Forall_snoc {A} (P : A -> Prop) l a : Forall P (l ++ [a]) <-> Forall P l /\ P a.
Proof. rewrite Forall_app, Forall_singleton. done. Qed.

Lemma Forall_weaken {A} (P Q : A -> Prop) l : (forall x, P x -> Q x) -> Forall P l -> Forall Q l.
Proof. induction 2; constructor; auto. Qed.

Lemma Forall_elem {A} (P : A -> Prop) l : Forall P l <-> forall x, x ∈ l -> P x.
Proof.
  split.
  - induction 1 as [|y l Hy _ IH]; intros x Hx; [by apply elem_of_nil in Hx|].
    apply elem_of_cons in Hx as [->|Hx]; auto.
  - induction l as [|y l IH]; intros H; constructor; [|apply IH; intros x Hx];
      apply H, elem_of_cons; auto.
Qed.

Lemma Forall_flat_map_elem {A B} (P : B -> Prop) (f : A -> list B) l :
  Forall P (flat_map f l) <-> Forall (fun x => Forall P (f x)) l.
Proof.
  induction l as [|x l IH]; simpl; [done|]. by rewrite Forall_app, IH, Forall_cons_iff.
Qed.

Lemma bfilter_all {A} (p : A -> bool) l : Forall (fun x => p x = true) l -> List.filter p l = l.
Proof. induction 1 as [|x l Hx _ IH]; simpl; [done|]. by rewrite Hx, IH. Qed.

Lemma bfilter_none {A} (p : A -> bool) l : Forall (fun x => p x = false) l -> List.filter p l = [].
Proof. induction 1 as [|x l Hx _ IH]; simpl; [done|]. by rewrite Hx. Qed.

Lemma bfilter_Forall {A} (p : A -> bool) l : Forall (fun x => p x = true) (List.filter p l).
Proof. induction l as [|x l IH]; simpl; [done|]. destruct (p x) eqn:E; auto. Qed.

Lemma bfilter_Forall_keep {A} (P : A -> Prop) (p : A -> bool) l : Forall P l -> Forall P (List.filter p l).
Proof. induction 1 as [|x l Hx _ IH]; simpl; [done|]. destruct (p x); auto. Qed.

(** * Automation *)

Create HintDb rust.
Create Rewrite HintDb rust.
#[export] Hint Rewrite @length_app @length_take @length_drop @length_fmap @Forall_app
  @fmap_app @length_map : rust.

(** Turns boolean comparisons of naturals in the context into propositions. *)
Ltac nat_bool :=
  repeat match goal with
  | H : (_ <? _) = true |- _ => apply Nat.ltb_lt in H
  | H : (_ <? _) = false |- _ => apply Nat.ltb_ge in H
  | H : (_ <=? _) = true |- _ => apply Nat.leb_le in H
  | H : (_ <=? _) = false |- _ => apply Nat.leb_gt in H
  | H : (_ =? _) = true |- _ => apply Nat.eqb_eq in H
  | H : (_ =? _) = false |- _ => apply Nat.eqb_neq in H
  end.

(** Case analysis on the boolean comparison the goal branches on. *)
Ltac case_nat :=
  match goal with
  | |- context [Nat.ltb ?a ?b] => let H := fresh "Hn" in destruct (Nat.ltb_spec a b) as [H|H]
  | |- context [Nat.leb ?a ?b] => let H := fresh "Hn" in destruct (Nat.leb_spec a b) as [H|H]
  | |- context [Nat.eqb ?a ?b] => let H := fresh "Hn" in destruct (Nat.eqb_spec a b) as [H|H]
  end.

(** * [BTreeMap]

    An ordered map of the standard library, as the association list of its
    entries in increasing order of keys. *)
Section BTreeMap.
Context {K V : Type} `{!Ord K}.

Fixpoint bt_insert (k : K) (v : V) (l : list (K * V)) : list (K * V) :=
  match l with
  | [] => [(k, v)]
  | (k', v') :: l' =>
      match cmp k k' with
      | Lt => (k, v) :: l
      | Eq => (k, v) :: l'
      | Gt => (k', v') :: bt_insert k v l'
      end
  end.

Definition bt_remove (k : K) (l : list (K * V)) : list (K * V) :=
  List.filter (fun p => negb (eqb p.1 k)) l.

Definition bt_extend (l l' : list (K * V)) : list (K * V) :=
  fold_left (fun l p => bt_insert p.1 p.2 l) l' l.

Definition bt_get (k : K) (l : list (K * V)) : option V :=
  option_map snd (List.find (fun p => eqb p.1 k) l).

Definition bt_sorted (l : list (K * V)) : Prop := StronglySorted (fun a b => cmp a.1 b.1 = Lt) l.

Context `{!OrdLaws K}.

(** Inserting a key greater than all others appends it. *)
Lemma bt_insert_last k v l :
  Forall (fun p => cmp p.1 k = Lt) l -> bt_insert k v l = l ++ [(k, v)].
Proof.
  induction 1 as [|[k' v'] l Hk _ IH]; [done|]. simpl in *.
  by rewrite (cmp_flip k' k), Hk, IH.
Qed.

Lemma bt_remove_absent k l : Forall (fun p => p.1 <> k) l -> bt_remove k l = l.
Proof.
  intros H. apply bfilter_all. eapply Forall_weaken; [|exact H]. intros p Hp.
  destruct (eqb p.1 k) eqn:E; [|done]. by apply eqb_spec in E.
Qed.

Lemma bt_remove_snoc k v l : Forall (fun p => cmp p.1 k = Lt) l -> bt_remove k (l ++ [(k, v)]) = l.
Proof.
  intros H. unfold bt_remove. rewrite List.filter_app. simpl.
  rewrite (proj2 (eqb_spec k k) eq_refl). simpl. rewrite app_nil_r. apply bt_remove_absent.
  eapply Forall_weaken; [|exact H]. intros p Hp E. cbn beta in Hp. by rewrite E, cmp_refl in Hp.
Qed.

Lemma bt_sorted_remove k l : bt_sorted l -> bt_sorted (bt_remove k l).
Proof.
  induction 1 as [|p l Hl IH Hp]; simpl; [constructor|]. destruct (negb _); [|done].
  apply SSorted_cons; [done|]. by apply bfilter_Forall_keep.
Qed.
End BTreeMap.
