(* ===== verification/SumTree.v ===== *)
(** * The B+ tree of [crates/sum_tree/src/sum_tree.rs]

    The traits [Summary], [Item], [Dimension] and [SeekTarget] as classes of
    operations (with the laws the tree relies on in separate classes), the node
    type, and every operation of [SumTree] that does not go through a cursor:
    [new], [from_summary], [from_item], [from_iter], [from_par_iter], [push],
    [append], [extend], [par_extend], [update_last], [first], [last], [extent].
    The theorems show that every operation keeps the tree well formed (uniform
    height, nodes neither empty nor over capacity, cached summaries equal to the
    sum over the items), never panics, and acts on the flattened item list the
    way its name says. *)

From stdpp Require Import base list option numbers.
From S2P Require Import Prelude.

#[local] Set Warnings "-register-all".

(** ** Traits *)

(** [trait Summary]: [zero] and [add_summary] with the context [Cx]. *)
Class Summary (Cx S : Type) := {
  zero : Cx -> S;
  add_summary : Cx -> S -> S -> S;
}.

(** [trait Item]. *)
Class Item (Cx T S : Type) := {
  summary : Cx -> T -> S;
}.

(** [trait Dimension]: a measure accumulated along the tree. *)
Class Dimension (Cx S D : Type) := {
  dim_zero : Cx -> D;
  dim_add_summary : Cx -> D -> S -> D;
}.

(** [Dimension::from_summary] *)
Definition dim_from_summary {Cx S D} `{Dimension Cx S D} (cx : Cx) (s : S) : D :=
  dim_add_summary cx (dim_zero cx) s.

(** [trait SeekTarget]: [cmp target cursor_location]. *)
Class SeekTarget (Cx D Target : Type) := {
  target_cmp : Cx -> Target -> D -> comparison;
}.

(** What the tree relies on: a semigroup with a left unit.  There is no right
    unit: [MapKey] of tree_map.rs replaces the accumulated key, so adding its
    zero on the right forgets the key. *)
Class SummaryLaws (Cx S : Type) `{Summary Cx S} : Prop := {
  add_summary_assoc : forall cx a b c,
    add_summary cx (add_summary cx a b) c = add_summary cx a (add_summary cx b c);
  add_summary_zero_l : forall cx a, add_summary cx (zero cx) a = a;
}.

(** A dimension is an action of the summaries. *)
Class DimensionLaws (Cx S D : Type) `{Summary Cx S, Dimension Cx S D} : Prop := {
  dim_add_add : forall cx d a b,
    dim_add_summary cx (dim_add_summary cx d a) b
    = dim_add_summary cx d (add_summary cx a b);
}.

(** [impl<T: Summary> Dimension<T> for T]: a summary is a dimension of itself. *)
#[export] Instance summary_dimension {Cx S} `{Summary Cx S} : Dimension Cx S S | 50 := {
  dim_zero cx := zero cx;
  dim_add_summary cx d s := add_summary cx d s;
}.

#[export] Instance summary_dimension_laws {Cx S} `{SummaryLaws Cx S} : DimensionLaws Cx S S | 50.
Proof. split. intros. apply add_summary_assoc. Qed.

(** [impl<T: Summary> Dimension<T> for ()] *)
#[export] Instance unit_dimension {Cx S} : Dimension Cx S unit | 10 := {
  dim_zero _ := tt;
  dim_add_summary _ _ _ := tt;
}.

#[export] Instance unit_dimension_laws {Cx S} `{Summary Cx S} : DimensionLaws Cx S unit | 10.
Proof. split. done. Qed.

(** [Dimensions(D1, D2, D3)]: dimensions accumulate componentwise. *)
#[export] Instance prod_dimension {Cx S D1 D2} `{Dimension Cx S D1, Dimension Cx S D2} :
    Dimension Cx S (D1 * D2) := {
  dim_zero cx := (dim_zero cx, dim_zero cx);
  dim_add_summary cx d s := (dim_add_summary cx d.1 s, dim_add_summary cx d.2 s);
}.

#[export] Instance prod_dimension_laws {Cx S D1 D2} `{Summary Cx S, Dimension Cx S D1,
    Dimension Cx S D2, !DimensionLaws Cx S D1, !DimensionLaws Cx S D2} :
  DimensionLaws Cx S (D1 * D2).
Proof. split. intros cx [d1 d2] a b. simpl. by rewrite !dim_add_add. Qed.

(** [enum Bias] *)
Inductive Bias := Left | Right.

Definition bias_invert (b : Bias) : Bias :=
  match b with Left => Right | Right => Left end.

Definition bias_eqb (a b : Bias) : bool :=
  match a, b with Left, Left | Right, Right => true | _, _ => false end.

(** ** Nodes *)

Definition TREE_BASE : nat := 6.

(** The capacity [2 * TREE_BASE] of every [ArrayVec] of a node. *)
Definition MAX_NODE : nat := 2 * TREE_BASE.

Arguments MAX_NODE : simpl never.
Arguments TREE_BASE : simpl never.

(** [u8::MAX]; the heights of nodes are [u8]. *)
Definition MAX_HEIGHT : nat := 255.

(** [struct SumTree] and [enum Node]; the [Arc] is transparent because nodes are
    only changed through [Arc::make_mut], that is, copied when shared.  Heights are
    only computed by adding one to that of a child ([from_child_trees], [from_iter] and
    [from_par_iter]), and are natural numbers here: [append_correct] shows that [append]
    stays within [MAX_HEIGHT] on trees below it, [from_iter_correct] that building does,
    and [height_overflow] that doubling a tree passes it. *)
Inductive tree (T S : Type) : Type :=
| Internal (height : nat) (s : S) (child_summaries : list S) (child_trees : list (tree T S))
| Leaf (s : S) (items : list T) (item_summaries : list S).

Arguments Internal {T S} height s child_summaries child_trees.
Arguments Leaf {T S} s items item_summaries.

Section Node.
Context {T S : Type}.
Implicit Types t : tree T S.

Definition is_leaf t : bool :=
  match t with Leaf _ _ _ => true | Internal _ _ _ _ => false end.

Definition node_height t : nat :=
  match t with Internal h _ _ _ => h | Leaf _ _ _ => 0 end.

Definition node_summary t : S :=
  match t with Internal _ s _ _ => s | Leaf s _ _ => s end.

Definition child_summaries t : list S :=
  match t with Internal _ _ css _ => css | Leaf _ _ sums => sums end.

(** Panics on a leaf. *)
Definition child_trees t : outcome (list (tree T S)) :=
  match t with Internal _ _ _ cts => Ok cts | Leaf _ _ _ => Panic end.

(** Panics on an internal node. *)
Definition node_items t : outcome (list T) :=
  match t with Leaf _ items _ => Ok items | Internal _ _ _ _ => Panic end.

Definition is_underflowing t : bool :=
  match t with
  | Internal _ _ _ cts => length cts <? TREE_BASE
  | Leaf _ items _ => length items <? TREE_BASE
  end.

Definition is_empty t : bool :=
  match t with
  | Internal _ _ _ _ => false
  | Leaf _ items _ => match items with [] => true | _ :: _ => false end
  end.

(** The items of the subtree, in order: the abstraction function. *)
Fixpoint to_list t : list T :=
  match t with
  | Leaf _ items _ => items
  | Internal _ _ _ cts => flat_map to_list cts
  end.

(** Number of children of the root node. *)
Definition arity t : nat :=
  match t with
  | Internal _ _ _ cts => length cts
  | Leaf _ items _ => length items
  end.

Fixpoint leftmost_leaf t : outcome (tree T S) :=
  match t with
  | Leaf _ _ _ => Ok t
  | Internal _ _ _ cts =>
      match cts with
      | [] => Panic
      | c :: _ => leftmost_leaf c
      end
  end.

Fixpoint rightmost_leaf t : outcome (tree T S) :=
  match t with
  | Leaf _ _ _ => Ok t
  | Internal _ _ _ cts =>
      (fix go (l : list (tree T S)) : outcome (tree T S) :=
         match l with
         | [] => Panic
         | c :: l' => match l' with [] => rightmost_leaf c | _ :: _ => go l' end
         end) cts
  end.

Definition first t : outcome (option T) :=
  let! leaf := leftmost_leaf t in
  let! items := node_items leaf in
  Ok (head items).

Definition last t : outcome (option T) :=
  let! leaf := rightmost_leaf t in
  let! items := node_items leaf in
  Ok (list.last items).
End Node.

(** ** Operations *)

Section Operations.
Context {Cx T S : Type} `{!Summary Cx S, !Item Cx T S} (cx : Cx).
Implicit Types t : tree T S.

(** [fn sum] *)
Definition sum (l : list S) : S := fold_left (add_summary cx) l (zero cx).

Definition new : tree T S := Leaf (zero cx) [] [].

Definition from_summary (s : S) : tree T S := Leaf s [] [].

(** [left.0.height() + 1], the two children and their summaries. *)
Definition from_child_trees (l r : tree T S) : tree T S :=
  let child_summaries := [node_summary l; node_summary r] in
  Internal (node_height l + 1) (sum child_summaries) child_summaries [l; r].

(** The [u8] subtraction [*height - other_node.height()]. *)
Definition height_sub (a b : nat) : outcome nat :=
  if b <=? a then Ok (a - b) else Panic.

(** [midpoint = (child_count + child_count % 2) / 2] *)
Definition midpoint (child_count : nat) : nat := (child_count + child_count mod 2) / 2.

(** Splits a sequence at the midpoint into two [ArrayVec]s. *)
Definition split_at_midpoint {A} (all : list A) (child_count : nat) : outcome (list A * list A) :=
  let! l := array_collect MAX_NODE (take (midpoint child_count) all) in
  let! r := array_collect MAX_NODE (drop (midpoint child_count) all) in
  Ok (l, r).

(** The end of the internal case of [push_tree_recursive]: the appended children
    are added to the node, which is split in two when they do not fit. *)
Definition add_children (height : nat) (s : S) (css : list S) (cts : list (tree T S))
    (summaries_to_append : list S) (trees_to_append : list (tree T S))
    : outcome (tree T S * option (tree T S)) :=
  let child_count := length cts + length trees_to_append in
  if MAX_NODE <? child_count then
    let! (left_summaries, right_summaries) :=
      split_at_midpoint (css ++ summaries_to_append) child_count in
    let! (left_trees, right_trees) :=
      split_at_midpoint (cts ++ trees_to_append) child_count in
    Ok (Internal height (sum left_summaries) left_summaries left_trees,
        Some (Internal height (sum right_summaries) right_summaries right_trees))
  else
    let! css := array_extend MAX_NODE css summaries_to_append in
    let! cts := array_extend MAX_NODE cts trees_to_append in
    Ok (Internal height s css cts, None).

(** [push_tree_recursive]: the updated [self] and the tree split off it. *)
Fixpoint push_tree_recursive (self other : tree T S) {struct self}
    : outcome (tree T S * option (tree T S)) :=
  match self with
  | Internal height s css cts =>
      let s := add_summary cx s (node_summary other) in
      let! height_delta := height_sub height (node_height other) in
      let! (css, cts, summaries_to_append, trees_to_append) :=
        (if height_delta =? 0 then
           let! other_trees := child_trees other in
           let! sa := array_extend MAX_NODE [] (child_summaries other) in
           let! ta := array_extend MAX_NODE [] other_trees in
           Ok (css, cts, sa, ta)
         else if (height_delta =? 1) && negb (is_underflowing other) then
           Ok (css, cts, [node_summary other], [other])
         else
           let! (cts, tree_to_append) := last_mut (fun c => push_tree_recursive c other) cts in
           let! last_tree := unwrap (list.last cts) in
           let! (css, _) := last_mut (fun _ => Ok (node_summary last_tree, tt)) css in
           match tree_to_append with
           | Some split_tree => Ok (css, cts, [node_summary split_tree], [split_tree])
           | None => Ok (css, cts, [], [])
           end) in
      add_children height s css cts summaries_to_append trees_to_append
  | Leaf s items sums =>
      let! other_items := node_items other in
      let child_count := length items + length other_items in
      if MAX_NODE <? child_count then
        let! (left_items, right_items) :=
          split_at_midpoint (items ++ other_items) child_count in
        let! (left_summaries, right_summaries) :=
          split_at_midpoint (sums ++ child_summaries other) child_count in
        Ok (Leaf (sum left_summaries) left_items left_summaries,
            Some (Leaf (sum right_summaries) right_items right_summaries))
      else
        let s := add_summary cx s (node_summary other) in
        let! items := array_extend MAX_NODE items other_items in
        let! sums := array_extend MAX_NODE sums (child_summaries other) in
        Ok (Leaf s items sums, None)
  end.

(** [append]; when [other] is taller its children are appended one by one. *)
Fixpoint append (self other : tree T S) {struct other} : outcome (tree T S) :=
  if is_empty self then Ok other
  else
    let! skip := (if is_leaf other
                  then let! items := node_items other in
                       Ok (match items with [] => true | _ :: _ => false end)
                  else Ok false) in
    if (skip : bool) then Ok self
    else if node_height self <? node_height other then
      match other with
      | Internal _ _ _ cts => ofold (fun self c => append self c) cts self
      | Leaf _ _ _ => Panic
      end
    else
      let! (self, split) := push_tree_recursive self other in
      match split with
      | Some split_tree => Ok (from_child_trees self split_tree)
      | None => Ok self
      end.

Definition push (self : tree T S) (item : T) : outcome (tree T S) :=
  let s := summary cx item in
  append self (Leaf s [item] [s]).

Definition from_item (item : T) : outcome (tree T S) := push new item.

(** The leaf built from one run of items, in [from_iter] and [from_par_iter]. *)
Definition collect_leaf (run : list T) : outcome (tree T S) :=
  let! items := array_collect MAX_NODE run in
  let! item_summaries := array_collect MAX_NODE (map (summary cx) items) in
  let! s0 := index item_summaries 0 in
  Ok (Leaf (fold_left (add_summary cx) (drop 1 item_summaries) s0) items item_summaries).

(** The first loop of [from_iter]: one leaf for each [2 * TREE_BASE] items. *)
Fixpoint from_iter_leaves (fuel : nat) (iter : list T) (nodes : list (tree T S))
    : outcome (list (tree T S)) :=
  match iter with
  | [] => Ok nodes
  | _ :: _ =>
      match fuel with
      | 0 => OutOfFuel
      | Datatypes.S fuel =>
          let! node := collect_leaf (take MAX_NODE iter) in
          from_iter_leaves fuel (drop MAX_NODE iter) (nodes ++ [node])
      end
  end.

(** The body of the loop over [nodes.drain(..)]: [parent_nodes] and
    [current_parent_node] after one more child. *)
Definition from_iter_child (height : nat)
    (acc : list (tree T S) * option (tree T S)) (child : tree T S)
    : outcome (list (tree T S) * option (tree T S)) :=
  let '(parent_nodes, current) := acc in
  let parent := match current with
                | Some p => p
                | None => Internal height (zero cx) [] []
                end in
  match parent with
  | Internal h s css cts =>
      let s := add_summary cx s (node_summary child) in
      let! css := array_push MAX_NODE css (node_summary child) in
      let! cts := array_push MAX_NODE cts child in
      let node := Internal h s css cts in
      if length cts =? MAX_NODE then Ok (parent_nodes ++ [node], None)
      else Ok (parent_nodes, Some node)
  | Leaf _ _ _ => Panic
  end.

(** [while nodes.len() > 1]: one level of parents per iteration. *)
Fixpoint from_iter_levels (fuel height : nat) (nodes : list (tree T S))
    : outcome (list (tree T S)) :=
  if 1 <? length nodes then
    match fuel with
    | 0 => OutOfFuel
    | Datatypes.S fuel =>
        let height := height + 1 in
        let! (parent_nodes, current) := ofold (from_iter_child height) nodes ([], None) in
        let parent_nodes := parent_nodes ++ option_list current in
        from_iter_levels fuel height parent_nodes
    end
  else Ok nodes.

Definition from_iter (iter : list T) : outcome (tree T S) :=
  let! nodes := from_iter_leaves (length iter) iter [] in
  let! nodes := from_iter_levels (length nodes) 0 nodes in
  match nodes with
  | [] => Ok new
  | _ :: _ => unwrap (list.last nodes)
  end.

(** [chunks(n)] of rayon: consecutive runs of [n] elements, the last one shorter. *)
Fixpoint chunks_fuel {A} (fuel n : nat) (l : list A) : list (list A) :=
  match fuel, l with
  | Datatypes.S fuel, _ :: _ => take n l :: chunks_fuel fuel n (drop n l)
  | _, _ => []
  end.

Definition chunks {A} (n : nat) (l : list A) : list (list A) := chunks_fuel (length l) n l.

Fixpoint omap_list {A B} (f : A -> outcome B) (l : list A) : outcome (list B) :=
  match l with
  | [] => Ok []
  | a :: l => let! b := f a in let! l := omap_list f l in Ok (b :: l)
  end.

(** The parent built from one run of nodes in [from_par_iter]. *)
Definition collect_internal (height : nat) (child_nodes : list (tree T S)) : outcome (tree T S) :=
  let! child_trees := array_collect MAX_NODE child_nodes in
  let! child_summaries := array_collect MAX_NODE (map node_summary child_trees) in
  let! s0 := index child_summaries 0 in
  Ok (Internal height (fold_left (add_summary cx) (drop 1 child_summaries) s0)
        child_summaries child_trees).

Fixpoint from_par_iter_levels (fuel height : nat) (nodes : list (tree T S))
    : outcome (list (tree T S)) :=
  if 1 <? length nodes then
    match fuel with
    | 0 => OutOfFuel
    | Datatypes.S fuel =>
        let height := height + 1 in
        let! nodes := omap_list (collect_internal height) (chunks MAX_NODE nodes) in
        from_par_iter_levels fuel height nodes
    end
  else Ok nodes.

Definition from_par_iter (iter : list T) : outcome (tree T S) :=
  let! nodes := omap_list collect_leaf (chunks MAX_NODE iter) in
  let! nodes := from_par_iter_levels (length nodes) 0 nodes in
  match nodes with
  | [] => Ok new
  | _ :: _ => unwrap (list.last nodes)
  end.

Definition extend (self : tree T S) (iter : list T) : outcome (tree T S) :=
  let! other := from_iter iter in append self other.

Definition par_extend (self : tree T S) (iter : list T) : outcome (tree T S) :=
  let! other := from_par_iter iter in append self other.

(** [update_last_recursive]: the updated tree and its summary, [None] for an
    empty leaf (the [unwrap] in the parent then panics). *)
Fixpoint update_last_recursive (f : T -> T) (self : tree T S) {struct self}
    : outcome (tree T S * option S) :=
  match self with
  | Internal h s css cts =>
      let! (cts, r) := last_mut (update_last_recursive f) cts in
      let! last_summary := unwrap r in
      let! (css, _) := last_mut (fun _ => Ok (last_summary, tt)) css in
      let s := sum css in
      Ok (Internal h s css cts, Some s)
  | Leaf s items sums =>
      match list.last items, list.last sums with
      | Some item, Some _ =>
          let item := f item in
          let items := removelast items ++ [item] in
          let sums := removelast sums ++ [summary cx item] in
          let s := sum sums in
          Ok (Leaf s items sums, Some s)
      | _, _ => Ok (Leaf s items sums, None)
      end
  end.

Definition update_last (self : tree T S) (f : T -> T) : outcome (tree T S) :=
  let! (self, _) := update_last_recursive f self in Ok self.

Definition extent {D} `{Dimension Cx S D} (self : tree T S) : D :=
  dim_add_summary cx (dim_zero cx) (node_summary self).
End Operations.

(** ** Well-formed trees *)

Section Invariant.
Context {Cx T S : Type} `{!Summary Cx S, !Item Cx T S} (cx : Cx).

(** The summary of a run of items. *)
Definition items_summary (l : list T) : S := sum cx (map (summary cx) l).

(** A non-empty node of height [h]. *)
Inductive wf_node : nat -> tree T S -> Prop :=
| wf_leaf items :
    items <> [] ->
    length items <= MAX_NODE ->
    wf_node 0 (Leaf (items_summary items) items (map (summary cx) items))
| wf_internal h cts :
    cts <> [] ->
    length cts <= MAX_NODE ->
    Forall (wf_node h) cts ->
    wf_node (Datatypes.S h)
      (Internal (Datatypes.S h) (sum cx (map node_summary cts)) (map node_summary cts) cts).

(** A tree: an empty leaf ([new], or [from_summary] with any summary), or a
    well-formed node. *)
Definition wf_tree (t : tree T S) : Prop :=
  (exists s, t = Leaf s [] []) \/ (exists h, wf_node h t).
End Invariant.

(** Rule induction through the nested list of children. *)
Lemma wf_node_rect {Cx T S} `{!Summary Cx S, !Item Cx T S} (cx : Cx)
    (P : nat -> tree T S -> Prop) :
  (forall items, items <> [] -> length items <= MAX_NODE ->
     P 0 (Leaf (items_summary cx items) items (map (summary cx) items))) ->
  (forall h cts, cts <> [] -> length cts <= MAX_NODE ->
     Forall (wf_node cx h) cts -> Forall (P h) cts ->
     P (Datatypes.S h) (Internal (Datatypes.S h) (sum cx (map node_summary cts))
                          (map node_summary cts) cts)) ->
  forall h t, wf_node cx h t -> P h t.
Proof.
  intros Hleaf Hint. fix IH 3. intros h t [items|h' cts Hne Hlen Hall].
  - by apply Hleaf.
  - apply Hint; [done..|].
    clear Hne Hlen. induction Hall; constructor; [by apply IH|assumption].
Qed.

(** ** Summaries of runs *)

Section Sums.
Context {Cx T S : Type} `{!Summary Cx S, !SummaryLaws Cx S, !Item Cx T S} (cx : Cx).

Lemma fold_add_summary (l : list S) a :
  l <> [] -> fold_left (add_summary cx) l a = add_summary cx a (sum cx l).
Proof.
  revert a. induction l as [|x l IH]; intros a H; [done|].
  unfold sum. simpl. rewrite add_summary_zero_l.
  destruct l as [|y l]; [done|].
  rewrite !IH by done. apply add_summary_assoc.
Qed.

Lemma sum_singleton (s : S) : sum cx [s] = s.
Proof. apply add_summary_zero_l. Qed.

Lemma sum_cons_fold s (l : list S) : sum cx (s :: l) = fold_left (add_summary cx) l s.
Proof. unfold sum. simpl. by rewrite add_summary_zero_l. Qed.

Lemma sum_app (l1 l2 : list S) :
  l2 <> [] -> sum cx (l1 ++ l2) = add_summary cx (sum cx l1) (sum cx l2).
Proof. intros H. unfold sum at 1. rewrite fold_left_app. by apply fold_add_summary. Qed.

Lemma items_summary_app (l1 l2 : list T) :
  l2 <> [] ->
  items_summary cx (l1 ++ l2) = add_summary cx (items_summary cx l1) (items_summary cx l2).
Proof.
  intros H. unfold items_summary. rewrite map_app. apply sum_app. by destruct l2.
Qed.

Lemma items_summary_singleton x : items_summary cx [x] = summary cx x.
Proof. apply sum_singleton. Qed.

Lemma wf_node_height h (t : tree T S) : wf_node cx h t -> node_height t = h.
Proof. by destruct 1. Qed.

Lemma wf_node_arity h (t : tree T S) : wf_node cx h t -> 0 < arity t <= MAX_NODE.
Proof. destruct 1 as [l|? l]; destruct l; simpl in *; naive_solver lia. Qed.

Lemma wf_node_nonempty h (t : tree T S) : wf_node cx h t -> to_list t <> [].
Proof.
  revert h t. refine (wf_node_rect cx _ _ _); [done|]. intros h cts Hne _ _ IH.
  destruct IH as [|c cts Hc _]; [done|]. simpl. by destruct (to_list c).
Qed.

Lemma wf_node_is_empty h (t : tree T S) : wf_node cx h t -> is_empty t = false.
Proof. by destruct 1 as [[]|]. Qed.

Lemma wf_tree_node h (t : tree T S) : wf_node cx h t -> wf_tree cx t.
Proof. right; eauto. Qed.

Lemma wf_tree_new : wf_tree cx (new cx : tree T S).
Proof. left; eexists; reflexivity. Qed.

Lemma wf_tree_is_empty (t : tree T S) : wf_tree cx t -> is_empty t = true <-> to_list t = [].
Proof.
  intros [[s ->]|[h Ht]]; [done|]. rewrite (wf_node_is_empty _ _ Ht).
  pose proof (wf_node_nonempty _ _ Ht). naive_solver.
Qed.

(** The cached summaries of children add up to the summary of their items. *)
Lemma sum_children (cts : list (tree T S)) :
  Forall (fun c => to_list c <> [] /\ node_summary c = items_summary cx (to_list c)) cts ->
  sum cx (map node_summary cts) = items_summary cx (flat_map to_list cts).
Proof.
  induction cts as [|c cts IH] using rev_ind; [done|].
  rewrite Forall_snoc. intros [Hcts [Hne Hc]].
  rewrite map_app, flat_map_app. simpl. rewrite app_nil_r.
  rewrite sum_app, items_summary_app by done.
  rewrite IH by done. simpl. by rewrite sum_singleton, Hc.
Qed.

Lemma wf_node_summary h (t : tree T S) :
  wf_node cx h t -> node_summary t = items_summary cx (to_list t).
Proof.
  revert h t. refine (wf_node_rect cx _ _ _); [done|]. intros h cts Hne Hlen Hwf IH.
  simpl. apply sum_children. rewrite Forall_forall in *. intros c Hc.
  split; [eapply wf_node_nonempty; eauto|auto].
Qed.

Lemma wf_children_summary h (cts : list (tree T S)) :
  Forall (wf_node cx h) cts ->
  sum cx (map node_summary cts) = items_summary cx (flat_map to_list cts).
Proof.
  intros H. apply sum_children. eapply Forall_impl; [|exact H].
  intros c Hc. split; [by eapply wf_node_nonempty|by eapply wf_node_summary].
Qed.

(** Builds an internal node from its children and the summary of its items. *)
Lemma wf_internal_intro h (cts : list (tree T S)) s css :
  Forall (wf_node cx h) cts -> cts <> [] -> length cts <= MAX_NODE ->
  css = map node_summary cts -> s = items_summary cx (flat_map to_list cts) ->
  wf_node cx (Datatypes.S h) (Internal (Datatypes.S h) s css cts).
Proof.
  intros Hwf Hne Hlen -> ->. rewrite <- (wf_children_summary h) by done.
  by constructor.
Qed.
End Sums.

(** ** Appending trees *)

Lemma midpoint_bounds n :
  MAX_NODE < n -> n <= 2 * MAX_NODE ->
  0 < midpoint n < n /\ midpoint n <= MAX_NODE /\ n - midpoint n <= MAX_NODE.
Proof.
  unfold midpoint, MAX_NODE, TREE_BASE. intros.
  pose proof (Nat.mod_upper_bound n 2 ltac:(lia)).
  pose proof (Nat.div_mod_eq (n + n mod 2) 2).
  pose proof (Nat.mod_upper_bound (n + n mod 2) 2 ltac:(lia)). lia.
Qed.

Lemma split_at_midpoint_Ok {A} (l : list A) :
  MAX_NODE < length l -> length l <= 2 * MAX_NODE ->
  exists l1 l2, split_at_midpoint l (length l) = Ok (l1, l2) /\ l = l1 ++ l2 /\
    l1 <> [] /\ l2 <> [] /\ length l1 <= MAX_NODE /\ length l2 <= MAX_NODE /\
    length l1 = midpoint (length l).
Proof.
  intros H1 H2. destruct (midpoint_bounds _ H1 H2) as ([Ha Hb] & Hc & Hd).
  exists (take (midpoint (length l)) l), (drop (midpoint (length l)) l).
  unfold split_at_midpoint. rewrite !array_collect_Ok; rewrite ?length_take, ?length_drop; try lia.
  simpl. rewrite take_drop. repeat split; try lia.
  - intros E. apply (f_equal length) in E. rewrite length_take in E. simpl in E. lia.
  - intros E. apply (f_equal length) in E. rewrite length_drop in E. simpl in E. lia.
Qed.

(** Splitting the images of a list splits it at the same place. *)
Lemma split_at_midpoint_map {A B} (f : A -> B) (l l1 l2 : list A) :
  split_at_midpoint l (length l) = Ok (l1, l2) ->
  split_at_midpoint (map f l) (length l) = Ok (map f l1, map f l2).
Proof.
  unfold split_at_midpoint, array_collect, array_extend. simpl.
  rewrite (firstn_map f), (skipn_map f), !length_map.
  do 2 (case_nat; simpl; [|done]). naive_solver.
Qed.

Section Append.
Context {Cx T S : Type} `{!Summary Cx S, !SummaryLaws Cx S, !Item Cx T S} (cx : Cx).
Implicit Types t c self other : tree T S.

(** What a push into a node of height [h] gives: the node, possibly split in
    two, holding the items [l]; [extra] bounds the number of new children. *)
Definition pushed (h : nat) (l : list T) (old extra : nat)
    (r : tree T S * option (tree T S)) : Prop :=
  wf_node cx h r.1 /\
  match r.2 with
  | None => to_list r.1 = l /\ arity r.1 <= old + extra
  | Some t => wf_node cx h t /\ to_list r.1 ++ to_list t = l /\ MAX_NODE < old + extra
  end.

Lemma add_children_ok h s cts ts old :
  Forall (wf_node cx h) (cts ++ ts) -> cts <> [] ->
  length cts <= MAX_NODE -> length ts <= MAX_NODE -> length cts = old ->
  s = items_summary cx (flat_map to_list (cts ++ ts)) ->
  exists r, add_children cx (Datatypes.S h) s (map node_summary cts) cts (map node_summary ts) ts = Ok r /\
    pushed (Datatypes.S h) (flat_map to_list (cts ++ ts)) old (length ts) r.
Proof.
  intros Hwf Hne Hc Ht <- Hs. unfold add_children. case_nat.
  - assert (Hmax := Hn). rewrite <- length_app in Hn |- *. rewrite <- map_app.
    destruct (split_at_midpoint_Ok (cts ++ ts)) as (l1 & l2 & E & El & H1 & H2 & Hl1 & Hl2 & _);
      [done|rewrite length_app; lia|].
    rewrite E, (split_at_midpoint_map _ _ _ _ E). simpl.
    eexists; split; [reflexivity|]. rewrite El in *.
    rewrite Forall_app in Hwf. destruct Hwf as [Hw1 Hw2]. unfold pushed. simpl.
    rewrite flat_map_app.
    split_and!; try done; by constructor.
  - rewrite !array_extend_Ok by (rewrite ?length_map; lia). simpl.
    eexists; split; [reflexivity|]. split; simpl.
    + apply wf_internal_intro; [done| |rewrite length_app; lia|by rewrite map_app|done].
      by destruct cts.
    + rewrite length_app. auto.
Qed.

Lemma push_leaf_ok items other h' :
  items <> [] -> length items <= MAX_NODE -> wf_node cx h' other -> h' <= 0 ->
  exists r,
    push_tree_recursive cx (Leaf (items_summary cx items) items (map (summary cx) items)) other = Ok r /\
    pushed 0 (items ++ to_list other) (length items) MAX_NODE r.
Proof.
  intros Hne Hlen [oi Hone Holen|] Hle; [|lia]. simpl. case_nat.
  - assert (Hmax := Hn). rewrite <- length_app in Hn |- *. rewrite <- map_app.
    destruct (split_at_midpoint_Ok (items ++ oi)) as (l1 & l2 & E & El & H1 & H2 & Hl1 & Hl2 & _);
      [done|rewrite length_app; lia|].
    rewrite E, (split_at_midpoint_map _ _ _ _ E). simpl.
    eexists; split; [reflexivity|]. rewrite El.
    split; simpl; [by constructor|]. split; [by constructor|]. split; [done|lia].
  - rewrite !array_extend_Ok by (rewrite ?length_map; lia). simpl.
    eexists; split; [reflexivity|]. rewrite <- items_summary_app, <- map_app by done.
    split; simpl; [|rewrite length_app; split; [done|lia]].
    constructor; [by destruct items|rewrite length_app; lia].
Qed.

Lemma set_last_summary (l : list (tree T S)) c c' :
  last_mut (fun _ => Ok (node_summary c', tt)) (map node_summary (l ++ [c]))
  = Ok (map node_summary (l ++ [c']), tt).
Proof. rewrite !map_app. simpl. by rewrite last_mut_snoc. Qed.

(** One level of [push_tree_recursive] when the tree goes into the last child. *)
Lemma push_last_child_ok h init c other rc k :
  Forall (wf_node cx h) (init ++ [c]) -> length (init ++ [c]) <= MAX_NODE ->
  to_list other <> [] -> node_summary other = items_summary cx (to_list other) ->
  push_tree_recursive cx c other = Ok rc ->
  pushed h (to_list c ++ to_list other) (arity c) k rc ->
  exists r,
    (let! (css, cts, sa, ta) :=
       (let! (cts, tree_to_append) :=
          last_mut (fun c => push_tree_recursive cx c other) (init ++ [c]) in
        let! last_tree := unwrap (list.last cts) in
        let! (css, _) := last_mut (fun _ => Ok (node_summary last_tree, tt))
                           (map node_summary (init ++ [c])) in
        match tree_to_append with
        | Some split_tree => Ok (css, cts, [node_summary split_tree], [split_tree])
        | None => Ok (css, cts, [], [])
        end) in
     add_children cx (Datatypes.S h)
       (add_summary cx (sum cx (map node_summary (init ++ [c]))) (node_summary other))
       css cts sa ta) = Ok r /\
    pushed (Datatypes.S h) (flat_map to_list (init ++ [c]) ++ to_list other)
      (length (init ++ [c])) 1 r.
Proof.
  intros Hwf Hlen Hone Hsum Hrc [Hwc Hres]. destruct rc as [c' split]; simpl in Hwc, Hres.
  rewrite last_mut_snoc, Hrc. simpl. rewrite last_snoc. simpl.
  rewrite set_last_summary. simpl.
  rewrite (wf_children_summary cx h) by done. rewrite Hsum, <- items_summary_app by done.
  rewrite Forall_snoc in Hwf. destruct Hwf as [Hinit Hc].
  assert (Hl : length (init ++ [c']) = length (init ++ [c])) by (by rewrite !length_app).
  destruct split as [t|]; simpl.
  - destruct Hres as (Hwt & Hitems & _).
    destruct (add_children_ok h
      (items_summary cx (flat_map to_list (init ++ [c]) ++ to_list other)) (init ++ [c']) [t]
      (length (init ++ [c]))) as (r & Hr & Hp); rewrite ?Hl; try done; rewrite ?Forall_app;
      [by rewrite !Forall_singleton|by destruct init|simpl; unfold MAX_NODE, TREE_BASE; lia|..].
    + f_equal. rewrite !flat_map_app. simpl. rewrite !app_nil_r, <- !app_assoc. by rewrite Hitems.
    + exists r. split; [done|]. revert Hp. rewrite !flat_map_app. simpl.
      by rewrite !app_nil_r, <- !app_assoc, Hitems.
  - destruct Hres as [Hitems _].
    destruct (add_children_ok h
      (items_summary cx (flat_map to_list (init ++ [c]) ++ to_list other)) (init ++ [c']) []
      (length (init ++ [c]))) as (r & Hr & Hp); rewrite ?Hl, ?app_nil_r; try done; rewrite ?Forall_app;
      [by rewrite !Forall_singleton|by destruct init|simpl; lia|..].
    + f_equal. rewrite !flat_map_app. simpl. rewrite !app_nil_r, <- !app_assoc. by rewrite Hitems.
    + exists r. split; [done|]. revert Hp. unfold pushed. rewrite !flat_map_app. simpl.
      rewrite !app_nil_r, <- !app_assoc, Hitems. destruct (r.2); intuition lia.
Qed.

(** The number of children a push of a tree of height [h'] can add. *)
Definition push_extra (h' h : nat) : nat := if h' <? h then 1 else MAX_NODE.

Lemma push_extra_lt h' h : h' < h -> push_extra h' h = 1.
Proof. unfold push_extra. case_nat; [done|lia]. Qed.

Lemma push_extra_ge h' h : h <= h' -> push_extra h' h = MAX_NODE.
Proof. unfold push_extra. case_nat; [lia|done]. Qed.

Lemma push_tree_recursive_ok h self :
  wf_node cx h self -> forall h' other, wf_node cx h' other -> h' <= h ->
  exists r, push_tree_recursive cx self other = Ok r /\
    pushed h (to_list self ++ to_list other) (arity self) (push_extra h' h) r.
Proof.
  revert h self. refine (wf_node_rect cx _ _ _).
  - intros items Hne Hlen h' other Ho Hle. rewrite push_extra_ge by lia.
    by eapply push_leaf_ok.
  - intros h cts Hne Hlen Hwf IH h' other Ho Hle.
    pose proof (wf_node_nonempty cx _ _ Ho) as Hone.
    pose proof (wf_node_summary cx _ _ Ho) as Hsum.
    pose proof (wf_node_height cx _ _ Ho) as Hh. cbn [push_tree_recursive to_list arity].
    rewrite Hh. unfold height_sub. case_nat; [|lia]. cbn [obind].
    case_nat; [|case_nat; [destruct (is_underflowing other) eqn:Hu|]]; simpl.
    + rewrite push_extra_ge by lia.
      destruct Ho as [|h0 ocs Hocs Holen How]; [lia|]. assert (h0 = h) as -> by lia. simpl.
      rewrite !array_extend_Ok by (rewrite ?length_map; simpl; lia). simpl.
      rewrite !(wf_children_summary cx h), <- items_summary_app, <- flat_map_app by done.
      edestruct (add_children_ok h) as (r & -> & Hp);
        [by rewrite Forall_app|done|done|exact Holen|reflexivity|reflexivity|].
      eexists; split; [done|]. revert Hp. unfold pushed. destruct (r.2); intuition lia.
    + rewrite push_extra_lt by lia.
      destruct (list_snoc_inv cts Hne) as (init & c & ->). rewrite !Forall_snoc in IH.
      destruct (proj2 IH h' other Ho ltac:(lia)) as (rc & Hrc & Hp).
      eapply push_last_child_ok; eauto.
    + rewrite push_extra_lt by lia.
      assert (h' = h) as -> by lia.
      rewrite (wf_children_summary cx h), Hsum, <- items_summary_app by done.
      edestruct (add_children_ok h (items_summary cx (flat_map to_list (cts ++ [other]))) cts [other]) as (r & Hr & Hp);
        [by apply Forall_snoc|done|done|simpl; unfold MAX_NODE, TREE_BASE; lia|reflexivity|reflexivity|].
      rewrite flat_map_app in Hp, Hr; simpl in Hp, Hr. rewrite app_nil_r in Hp, Hr.
      rewrite Hsum in Hr. eauto.
    + rewrite push_extra_lt by lia.
      destruct (list_snoc_inv cts Hne) as (init & c & ->). rewrite !Forall_snoc in IH.
      destruct (proj2 IH h' other Ho ltac:(lia)) as (rc & Hrc & Hp).
      eapply push_last_child_ok; eauto.
Qed.

Lemma from_child_trees_wf h l r :
  wf_node cx h l -> wf_node cx h r -> wf_node cx (Datatypes.S h) (from_child_trees cx l r).
Proof.
  intros Hl Hr. unfold from_child_trees. rewrite (wf_node_height cx _ _ Hl), Nat.add_1_r.
  apply (wf_internal cx h [l; r]); [done|unfold MAX_NODE, TREE_BASE; simpl; lia|].
  by repeat constructor.
Qed.

(** Height and arity of the result of appending a tree of height [h'] to one of
    height [h] and arity [a]: the height grows by at most one, and only when
    the root was full. *)
Definition append_shape (h a h' k a' : nat) : Prop :=
  k <= Datatypes.S (max h h') /\ (k = Datatypes.S (max h h') -> a' <= 2) /\
  (h' < h -> h <= k /\ (k = h -> a' <= a + 1) /\ (k = Datatypes.S h -> MAX_NODE <= a)).

(** What [append] promises for non-empty trees. *)
Definition appended (h : nat) (self : tree T S) (h' : nat) (l : list T) t : Prop :=
  exists k, wf_node cx k t /\ to_list t = to_list self ++ l /\
    append_shape h (arity self) h' k (arity t).

Lemma append_push_ok h self h' other :
  wf_node cx h self -> wf_node cx h' other -> h' <= h ->
  exists t, append cx self other = Ok t /\ appended h self h' (to_list other) t.
Proof.
  intros Hs Ho Hle. destruct (push_tree_recursive_ok _ _ Hs _ _ Ho Hle) as ([s' sp] & Hr & Hw & Hp).
  simpl in Hw, Hp.
  assert (E : append cx self other =
    Ok (match sp with Some t => from_child_trees cx s' t | None => s' end)).
  { pose proof (wf_node_height cx _ _ Hs). pose proof (wf_node_height cx _ _ Ho).
    assert (Hlt : (node_height self <? node_height other) = false) by (apply Nat.ltb_ge; lia).
    destruct Ho as [oi Hoi|]; cbn [append is_leaf node_items obind];
      rewrite (wf_node_is_empty cx _ _ Hs), Hlt, Hr; simpl; [destruct oi; [done|]|]; by destruct sp. }
  rewrite E. eexists; split; [reflexivity|].
  destruct sp as [t|].
  - destruct Hp as (Hwt & Hitems & Hmax). exists (Datatypes.S h). split; [by apply from_child_trees_wf|].
    simpl. rewrite app_nil_r. split; [done|]. unfold append_shape.
    split_and!; try lia. intros Hlt. rewrite push_extra_lt in Hmax by lia. lia.
  - destruct Hp as [Hitems Ha]. exists h. split_and!; try done. unfold append_shape.
    split_and!; try lia. intros Hlt. rewrite push_extra_lt in Ha by lia. lia.
Qed.

(** The loop over the children of a taller tree, all of height [h0]. *)
Lemma append_children_ok h0 cts self :
  Forall (wf_node cx h0) cts ->
  Forall (fun c => forall h self, wf_node cx h self ->
            exists t, append cx self c = Ok t /\ appended h self h0 (to_list c) t) cts ->
  forall k j, wf_node cx k self -> j + length cts <= MAX_NODE ->
  (k <= h0 \/ (k = Datatypes.S h0 /\ arity self <= j + 1) \/
   (k = Datatypes.S (Datatypes.S h0) /\ arity self <= 2 /\ MAX_NODE <= j)) ->
  exists t k', ofold (fun self c => append cx self c) cts self = Ok t /\ wf_node cx k' t /\
    to_list t = to_list self ++ flat_map to_list cts /\
    k' <= Datatypes.S (Datatypes.S h0) /\ (k' = Datatypes.S (Datatypes.S h0) -> arity t <= 2).
Proof.
  intros Hwf IH. revert self. induction cts as [|c cts IHc]; intros self k j Hs Hlen Hk.
  { exists self, k. simpl. rewrite app_nil_r. split_and!; try done; lia. }
  apply Forall_cons_iff in Hwf as [Hc Hwf]. apply Forall_cons_iff in IH as [IH1 IH2].
  destruct (IH1 k self Hs) as (t & Ht & k1 & Hw1 & Hi1 & Hsh). simpl. rewrite Ht. simpl.
  simpl in Hlen. destruct (IHc Hwf IH2 t k1 (Datatypes.S j) Hw1) as (t' & k' & -> & Hw' & Hi' & Hb);
    [lia| |].
  { destruct Hsh as (A & B & C). destruct Hk as [Hk|[[-> Hk]|(-> & Hk & Hj)]]; [|specialize (C ltac:(lia)); lia|lia].
    destruct (decide (k1 <= h0)); [by left|right; left]. split; [lia|].
    assert (k1 = Datatypes.S (max k h0)) by lia. specialize (B ltac:(done)). lia. }
  exists t', k'. rewrite Hi', Hi1, <- app_assoc. split_and!; [done..|apply Hb|apply Hb].
Qed.

Lemma append_node_ok h' other :
  wf_node cx h' other -> forall h self, wf_node cx h self ->
  exists t, append cx self other = Ok t /\ appended h self h' (to_list other) t.
Proof.
  revert h' other. refine (wf_node_rect cx _ _ _).
  - intros oi Hne Hlen h self Hs. eapply append_push_ok; [done|by constructor|lia].
  - intros h0 cts Hne Hlen Hwf IH h self Hs.
    destruct (decide (Datatypes.S h0 <= h)) as [Hge|Hlt].
    { eapply append_push_ok; [done|by constructor|done]. }
    cbn [append is_leaf obind node_height]. rewrite (wf_node_is_empty cx _ _ Hs).
    rewrite (wf_node_height cx _ _ Hs). case_nat; [|lia].
    destruct (append_children_ok h0 cts self Hwf IH h 0 Hs) as (t & k & -> & Hw & Hi & Hk & Ha);
      [lia|lia|].
    eexists; split; [done|]. exists k. split_and!; [done|done|]. unfold append_shape.
    split_and!; lia.
Qed.

(** The two cases of [wf_tree] combined. *)
Lemma append_tree_ok self other :
  wf_tree cx self -> wf_tree cx other ->
  exists t, append cx self other = Ok t /\ wf_tree cx t /\
    to_list t = to_list self ++ to_list other /\
    ((is_empty self = true /\ t = other) \/
     (is_empty other = true /\ t = self) \/
     exists h h', wf_node cx h self /\ wf_node cx h' other /\ appended h self h' (to_list other) t).
Proof.
  intros [[s ->]|[h Hs]] Ho.
  { exists other. split; [by destruct other|]. split; [done|]. split; [done|]. by left. }
  destruct Ho as [[s' ->]|[h' Ho]].
  { exists self. simpl. rewrite (wf_node_is_empty cx _ _ Hs), app_nil_r.
    split_and!; [done|right; eauto|done|right; left; done]. }
  destruct (append_node_ok _ _ Ho _ _ Hs) as (t & -> & Ha). pose proof Ha as (k & Hw & Hi & _).
  exists t. split_and!; [done|right; eauto|done|right; right; eauto 10].
Qed.

(** A well-formed tree whose cached summary is that of its items, also when it has
    none: a tree that [from_summary] did not build. *)
Definition summarized t : Prop := wf_tree cx t /\ node_summary t = items_summary cx (to_list t).

Lemma summarized_nonempty t : wf_tree cx t -> to_list t <> [] -> summarized t.
Proof.
  intros Hw Hne. split; [done|]. destruct Hw as [[s ->]|[h Hw]]; [done|]. by apply wf_node_summary with h.
Qed.

Lemma append_summarized self other :
  summarized self -> summarized other ->
  exists t, append cx self other = Ok t /\ summarized t /\ to_list t = to_list self ++ to_list other.
Proof.
  intros [Hs Es] [Ho Eo]. destruct (append_tree_ok _ _ Hs Ho) as (t & E & Hw & Hi & Hc).
  exists t. split; [done|]. split; [|done]. destruct Hc as [[_ ->]|[[_ ->]|(h & h' & Hn & _)]]; [done|done|].
  apply summarized_nonempty; [done|]. rewrite Hi. pose proof (wf_node_nonempty cx _ _ Hn). by destruct (to_list self).
Qed.

(** C1: [append] of two well-formed trees, empty or not, whose heights are below
    [u8::MAX], never panics: no index, capacity or subtraction fails, and no height that
    is computed overflows, since that of the result, which is the greatest, exceeds the
    larger of the two by at most one, and fits.  The result is well formed (its nodes of
    one height, filled within their capacity, with exact cached summaries) and its items
    are those of the first tree followed by those of the second. *)
Theorem append_correct self other :
  wf_tree cx self -> wf_tree cx other ->
  node_height self < MAX_HEIGHT -> node_height other < MAX_HEIGHT ->
  exists t, append cx self other = Ok t /\ wf_tree cx t /\
    to_list t = to_list self ++ to_list other /\
    node_height t <= Datatypes.S (max (node_height self) (node_height other)) /\ node_height t <= MAX_HEIGHT.
Proof.
  intros Hs Ho Bs Bo. destruct (append_tree_ok _ _ Hs Ho) as (t & Ht & Hw & Hi & Hcase).
  assert (node_height t <= Datatypes.S (max (node_height self) (node_height other))).
  { destruct Hcase as [[_ ->]|[[_ ->]|(h & h' & Hh & Hh' & k & Hk & _ & Hb & _)]]; [lia|lia|].
    rewrite (wf_node_height cx _ _ Hh), (wf_node_height cx _ _ Hh'), (wf_node_height cx _ _ Hk). done. }
  exists t. split_and!; [done..|lia].
Qed.
End Append.

(** ** Building trees from sequences *)

Lemma chunks_fuel_enough {A} fuel1 fuel2 n (l : list A) :
  0 < n -> length l <= fuel1 -> length l <= fuel2 ->
  chunks_fuel fuel1 n l = chunks_fuel fuel2 n l.
Proof.
  intros Hn. revert fuel2 l. induction fuel1 as [|f1 IH]; intros [|f2] [|x l] H1 H2; simpl in *; try lia; try done.
  f_equal. apply IH; rewrite length_drop; simpl; lia.
Qed.

Lemma chunks_cons {A} n (l : list A) :
  0 < n -> l <> [] -> chunks n l = take n l :: chunks n (drop n l).
Proof.
  intros Hn Hl. unfold chunks. destruct l as [|x l]; [done|].
  cbn [length chunks_fuel]. f_equal. apply chunks_fuel_enough; rewrite ?length_drop; simpl; lia.
Qed.

(** Induction over a list in runs of [n]. *)
Lemma chunks_ind {A} n (P : list A -> Prop) :
  0 < n -> P [] -> (forall l, l <> [] -> P (drop n l) -> P l) -> forall l, P l.
Proof.
  intros Hn Hnil Hstep l. remember (length l) as k eqn:E. revert l E.
  induction k as [k IH] using (well_founded_induction lt_wf). intros l ->.
  destruct l as [|x l]; [done|]. apply Hstep; [done|].
  eapply IH; [|reflexivity]. rewrite length_drop. simpl. lia.
Qed.

Lemma chunks_concat {A} n (l : list A) : 0 < n -> concat (chunks n l) = l.
Proof.
  intros Hn. revert l. refine (chunks_ind n _ Hn eq_refl _). intros l Hl IH.
  rewrite chunks_cons by done. simpl. by rewrite IH, take_drop.
Qed.

Lemma chunks_bounds {A} n (l : list A) :
  0 < n -> Forall (fun r => r <> [] /\ length r <= n) (chunks n l).
Proof.
  intros Hn. revert l. refine (chunks_ind n _ Hn (Forall_nil _) _). intros l Hl IH.
  rewrite chunks_cons by done. constructor; [|done].
  destruct l; [done|]. rewrite length_take. destruct n; [lia|]. simpl. split; [done|lia].
Qed.

Lemma chunks_length {A} n (l : list A) m :
  0 < n -> length l <= n * m -> length (chunks n l) <= m.
Proof.
  intros Hn. revert l m. refine (chunks_ind n _ Hn _ _); [simpl; lia|].
  intros l Hl IH m Hm. rewrite chunks_cons by done. simpl.
  destruct m as [|m]; [destruct l; simpl in *; [done|lia]|].
  apply le_n_S, IH. rewrite length_drop. nia.
Qed.

Lemma omap_list_Ok {A B} (f : A -> outcome B) (g : A -> B) l :
  Forall (fun a => f a = Ok (g a)) l -> omap_list f l = Ok (map g l).
Proof. induction 1 as [|a l Ha _ IH]; [done|]. simpl. by rewrite Ha, IH. Qed.

Section Build.
Context {Cx T S : Type} `{!Summary Cx S, !SummaryLaws Cx S, !Item Cx T S} (cx : Cx).

(** The leaf and the internal node built from a run of items or of nodes. *)
Definition leaf_of (run : list T) : tree T S :=
  Leaf (items_summary cx run) run (map (summary cx) run).

Definition node_of (h : nat) (run : list (tree T S)) : tree T S :=
  Internal h (sum cx (map node_summary run)) (map node_summary run) run.

Lemma collect_leaf_Ok (run : list T) :
  run <> [] -> length run <= MAX_NODE -> collect_leaf cx run = Ok (leaf_of run).
Proof.
  intros Hne Hlen. unfold collect_leaf.
  rewrite array_collect_Ok by done. simpl. rewrite array_collect_Ok by (by rewrite length_map). simpl.
  destruct run as [|x run]; [done|]. unfold leaf_of, items_summary. cbn. by rewrite add_summary_zero_l.
Qed.

Lemma collect_internal_Ok h (run : list (tree T S)) :
  run <> [] -> length run <= MAX_NODE -> collect_internal cx h run = Ok (node_of h run).
Proof.
  intros Hne Hlen. unfold collect_internal.
  rewrite array_collect_Ok by done. simpl. rewrite array_collect_Ok by (by rewrite length_map). simpl.
  destruct run as [|x run]; [done|]. unfold node_of, sum. cbn. by rewrite add_summary_zero_l.
Qed.

Lemma MAX_NODE_pos : 0 < MAX_NODE.
Proof. unfold MAX_NODE, TREE_BASE. lia. Qed.

Lemma take_MAX_NODE {A} (l : list A) :
  l <> [] -> take MAX_NODE l <> [] /\ length (take MAX_NODE l) <= MAX_NODE.
Proof. intros H. rewrite length_take. split; [by destruct l|lia]. Qed.

Lemma leaves_Ok (iter : list T) :
  omap_list (collect_leaf cx) (chunks MAX_NODE iter) = Ok (map leaf_of (chunks MAX_NODE iter)).
Proof.
  apply omap_list_Ok. eapply Forall_impl; [|apply chunks_bounds, MAX_NODE_pos].
  intros r [? ?]. by apply collect_leaf_Ok.
Qed.

Lemma from_iter_leaves_Ok fuel (iter : list T) nodes :
  length iter <= fuel ->
  from_iter_leaves cx fuel iter nodes = Ok (nodes ++ map leaf_of (chunks MAX_NODE iter)).
Proof.
  revert iter nodes. induction fuel as [|fuel IH]; intros [|x iter] nodes Hf; cbn in Hf; try lia;
    [by rewrite app_nil_r..|]. cbn [from_iter_leaves].
  rewrite collect_leaf_Ok by (by apply take_MAX_NODE). cbn [obind].
  rewrite (chunks_cons MAX_NODE (x :: iter)) by (done || apply MAX_NODE_pos).
  rewrite IH by (pose proof MAX_NODE_pos; rewrite length_drop; cbn [length]; lia).
  cbn [map]. by rewrite <- app_assoc.
Qed.

Lemma node_of_snoc h acc c :
  Internal h (add_summary cx (sum cx (map node_summary acc)) (node_summary c))
    (map node_summary acc ++ [node_summary c]) (acc ++ [c]) = node_of h (acc ++ [c]).
Proof.
  unfold node_of. rewrite map_app. simpl. rewrite sum_app by done. by rewrite sum_singleton.
Qed.

(** The children accumulated so far in the parent under construction. *)
Lemma from_iter_child_run h ps (run acc : list (tree T S)) :
  acc <> [] -> length acc < MAX_NODE -> length acc + length run <= MAX_NODE ->
  ofold (from_iter_child cx h) run (ps, Some (node_of h acc)) =
  Ok (if length (acc ++ run) =? MAX_NODE then (ps ++ [node_of h (acc ++ run)], None)
      else (ps, Some (node_of h (acc ++ run)))).
Proof.
  revert acc. induction run as [|c run IH]; intros acc Hne Hlt Hle.
  { simpl. rewrite app_nil_r. case_nat; [lia|done]. }
  simpl in Hle. cbn [ofold from_iter_child node_of].
  rewrite !array_push_Ok by (rewrite ?length_map; lia). cbn [obind].
  rewrite node_of_snoc.
  rewrite (app_assoc acc [c] run : acc ++ c :: run = _).
  destruct (Nat.eqb_spec (length (acc ++ [c])) MAX_NODE) as [E|E]; simpl.
  - rewrite length_app in E. simpl in E. destruct run; [|simpl in Hle; lia]. rewrite app_nil_r.
    rewrite (proj2 (Nat.eqb_eq _ _)); [done|rewrite length_app; simpl; lia].
  - rewrite length_app in E. simpl in E.
    apply IH; rewrite ?length_app; simpl; try lia. by destruct acc.
Qed.

Lemma from_iter_child_chunk h ps (run : list (tree T S)) :
  run <> [] -> length run <= MAX_NODE ->
  ofold (from_iter_child cx h) run (ps, None) =
  Ok (if length run =? MAX_NODE then (ps ++ [node_of h run], None) else (ps, Some (node_of h run))).
Proof.
  destruct run as [|c run]; [done|]. intros _ Hle. simpl in Hle.
  cbn [ofold from_iter_child]. rewrite !array_push_Ok by (apply MAX_NODE_pos). cbn [obind app length].
  destruct (Nat.eqb_spec 1 MAX_NODE); [done|].
  cbn [obind].
  apply (from_iter_child_run h ps run [c]); simpl; [done|unfold MAX_NODE, TREE_BASE in *; lia|lia].
Qed.

(** One level of [from_iter] is the chunking that [from_par_iter] does. *)
Lemma from_iter_level h (nodes ps : list (tree T S)) :
  exists ps' cur, ofold (from_iter_child cx h) nodes (ps, None) = Ok (ps', cur) /\
    ps' ++ option_list cur = ps ++ map (node_of h) (chunks MAX_NODE nodes).
Proof.
  revert nodes ps. refine (chunks_ind MAX_NODE _ MAX_NODE_pos _ _).
  { intros ps. exists ps, None. done. }
  intros nodes Hne IH ps. rewrite chunks_cons by (done || apply MAX_NODE_pos).
  assert (E0 : forall acc, ofold (from_iter_child cx h) nodes acc =
    ofold (from_iter_child cx h) (take MAX_NODE nodes ++ drop MAX_NODE nodes) acc)
    by (intros; by rewrite take_drop).
  rewrite E0, ofold_app.
  rewrite from_iter_child_chunk by (by apply take_MAX_NODE). cbn [obind].
  destruct (Nat.eqb_spec (length (take MAX_NODE nodes)) MAX_NODE) as [E|E].
  - destruct (IH (ps ++ [node_of h (take MAX_NODE nodes)])) as (ps' & cur & -> & Heq).
    exists ps', cur. split; [done|]. rewrite Heq. cbn [map]. by rewrite <- app_assoc.
  - rewrite length_take in E. rewrite (drop_ge nodes) by lia. simpl.
    eexists _, _. split; [done|]. done.
Qed.

Lemma levels_eq fuel h (nodes : list (tree T S)) :
  from_iter_levels cx fuel h nodes = from_par_iter_levels cx fuel h nodes.
Proof.
  revert h nodes. induction fuel as [|fuel IH]; intros h nodes; [done|]. simpl.
  destruct (1 <? length nodes); [|done].
  destruct (from_iter_level (h + 1) nodes []) as (ps & cur & -> & Heq). simpl in *.
  rewrite Heq, (omap_list_Ok _ (node_of (h + 1))); [apply IH|].
  eapply Forall_impl; [|apply chunks_bounds, MAX_NODE_pos].
  intros r [? ?]. by apply collect_internal_Ok.
Qed.

(** [from_iter], which fills one parent at a time, and the parallel
    [from_par_iter], which maps over chunks, build the same tree. *)
Theorem from_par_iter_from_iter (iter : list T) : from_par_iter cx iter = from_iter cx iter.
Proof.
  unfold from_par_iter, from_iter. rewrite leaves_Ok, from_iter_leaves_Ok by done. simpl.
  by rewrite levels_eq.
Qed.
End Build.

Section BuildCorrect.
Context {Cx T S : Type} `{!Summary Cx S, !SummaryLaws Cx S, !Item Cx T S} (cx : Cx).
Implicit Types t : tree T S.

Lemma flat_map_map_concat {A B} (f : B -> list A) (g : list A -> B) (ls : list (list A)) :
  (forall l, f (g l) = l) -> flat_map f (map g ls) = concat ls.
Proof. intros H. induction ls as [|l ls IH]; [done|]. simpl. by rewrite H, IH. Qed.

Lemma flat_map_node_of h (ls : list (list (tree T S))) :
  flat_map to_list (map (node_of cx h) ls) = flat_map to_list (concat ls).
Proof.
  induction ls as [|l ls IH]; [done|]. simpl. rewrite IH. by rewrite flat_map_app.
Qed.

Lemma Forall_concat {A} (P : A -> Prop) ls : Forall P (concat ls) -> Forall (Forall P) ls.
Proof. induction ls; simpl; [done|]. rewrite Forall_app. intros [? ?]. auto. Qed.

Lemma wf_parents h (nodes : list (tree T S)) :
  Forall (wf_node cx h) nodes ->
  Forall (wf_node cx (h + 1)) (map (node_of cx (h + 1)) (chunks MAX_NODE nodes)).
Proof.
  intros Hwf. rewrite <- (chunks_concat MAX_NODE nodes MAX_NODE_pos) in Hwf.
  apply Forall_concat in Hwf. pose proof (chunks_bounds MAX_NODE nodes MAX_NODE_pos) as Hb.
  rewrite Nat.add_1_r. rewrite Forall_map. rewrite Forall_forall in *.
  intros r Hr. apply wf_internal; [apply Hb, Hr|apply Hb, Hr|apply Hwf, Hr].
Qed.

Lemma wf_leaves (iter : list T) : Forall (wf_node cx 0) (map (leaf_of cx) (chunks MAX_NODE iter)).
Proof.
  pose proof (chunks_bounds MAX_NODE iter MAX_NODE_pos) as Hb.
  rewrite Forall_map. rewrite Forall_forall in *. intros r Hr.
  apply wf_leaf; apply Hb, Hr.
Qed.

(** The loop over levels ends with one root; [d] levels suffice for
    [MAX_NODE ^ d] nodes. *)
Lemma levels_ok fuel h (nodes : list (tree T S)) :
  Forall (wf_node cx h) nodes -> nodes <> [] -> length nodes <= fuel ->
  exists t k, from_iter_levels cx fuel h nodes = Ok [t] /\ wf_node cx k t /\
    to_list t = flat_map to_list nodes /\
    forall d, length nodes <= MAX_NODE ^ d -> k <= h + d.
Proof.
  revert h nodes. induction fuel as [|fuel IH]; intros h nodes Hwf Hne Hf.
  { destruct nodes; simpl in *; [done|lia]. }
  cbn [from_iter_levels]. case_nat; cycle 1.
  { destruct nodes as [|t [|]]; simpl in *; try done; try lia.
    apply Forall_cons_iff in Hwf as [Ht _]. exists t, h. rewrite app_nil_r. split_and!; try done. lia. }
  destruct (from_iter_level cx (h + 1) nodes []) as (ps & cur & -> & Heq). cbn [obind]. rewrite Heq.
  simpl app. set (nodes' := map _ _) in *.
  assert (Hlen : length nodes' <= fuel).
  { unfold nodes'. rewrite length_map. apply chunks_length; [apply MAX_NODE_pos|].
    unfold MAX_NODE, TREE_BASE. lia. }
  assert (Hne' : nodes' <> []).
  { unfold nodes'. rewrite chunks_cons by (done || apply MAX_NODE_pos). done. }
  destruct (IH (h + 1) nodes' (wf_parents _ _ Hwf) Hne' Hlen) as (t & k & -> & Hw & Hi & Hd).
  exists t, k. split_and!; try done.
  - rewrite Hi. unfold nodes'. rewrite flat_map_node_of. by rewrite chunks_concat by apply MAX_NODE_pos.
  - intros [|d] Hn'; [simpl in Hn'; lia|].
    assert (k <= h + 1 + d); [|lia]. apply Hd. unfold nodes'. rewrite length_map.
    apply chunks_length; [apply MAX_NODE_pos|done].
Qed.

(** [from_iter] on well-formed trees, with the bound on the height. *)
Lemma from_iter_ok (iter : list T) :
  exists t, from_iter cx iter = Ok t /\ wf_tree cx t /\ to_list t = iter /\
    forall d, length iter <= MAX_NODE ^ (d + 1) -> node_height t <= d.
Proof.
  unfold from_iter. rewrite from_iter_leaves_Ok by done. cbn [obind app].
  destruct iter as [|x iter].
  { exists (new cx). split_and!; [done|apply wf_tree_new|done|intros; simpl; lia]. }
  destruct (levels_ok (length (map (leaf_of cx) (chunks MAX_NODE (x :: iter)))) 0
    (map (leaf_of cx) (chunks MAX_NODE (x :: iter)))) as (t & k & -> & Hw & Hi & Hd).
  - apply wf_leaves.
  - rewrite chunks_cons by (done || apply MAX_NODE_pos). done.
  - done.
  - exists t. split_and!; [done|right; eauto| |].
    + rewrite Hi, flat_map_map_concat by done. apply chunks_concat, MAX_NODE_pos.
    + intros d Hlen. rewrite (wf_node_height cx _ _ Hw). apply Hd. rewrite length_map.
      apply chunks_length; [apply MAX_NODE_pos|]. rewrite Nat.add_1_r in Hlen. exact Hlen.
Qed.

(** [from_iter] builds a well-formed tree holding exactly the given items in
    order, without panicking or running out of fuel; at most [12 ^ 16] items give
    a tree of height below 16, which is the depth of the stack of a cursor. *)
Theorem from_iter_correct (iter : list T) :
  exists t, from_iter cx iter = Ok t /\ wf_tree cx t /\ to_list t = iter /\
    ((N.of_nat (length iter) <= 12 ^ 16)%N -> node_height t < 16).
Proof.
  destruct (from_iter_ok iter) as (t & Ht & Hw & Hi & Hd). exists t. split_and!; [done..|].
  intros Hlen. enough (node_height t <= 15) by lia. apply Hd.
  change (length iter <= 12 ^ 16). rewrite <- (Nat2N.id (12 ^ 16)), Nat2N.inj_pow. lia.
Qed.

Lemma push_ok t x :
  wf_tree cx t -> exists t', push cx t x = Ok t' /\ wf_tree cx t' /\ to_list t' = to_list t ++ [x].
Proof.
  intros Ht. unfold push.
  assert (Hx : wf_node cx 0 (Leaf (summary cx x) [x] [summary cx x])).
  { rewrite <- (items_summary_singleton cx x) at 1. apply (wf_leaf cx [x]); [done|].
    unfold MAX_NODE, TREE_BASE. simpl. lia. }
  destruct (append_tree_ok cx t _ Ht (wf_tree_node cx _ _ Hx)) as (t' & Ht' & Hw & Hi & _). eauto.
Qed.

Lemma extend_ok t iter :
  wf_tree cx t ->
  exists t', extend cx t iter = Ok t' /\ wf_tree cx t' /\ to_list t' = to_list t ++ iter.
Proof.
  intros Ht. unfold extend. destruct (from_iter_ok iter) as (o & -> & Ho & Hi & _). simpl.
  destruct (append_tree_ok cx t o Ht Ho) as (t' & Ht' & Hw & Hi' & _).
  exists t'. rewrite Hi', Hi. done.
Qed.

Lemma summarized_new : summarized cx (new cx).
Proof. split; [apply wf_tree_new|done]. Qed.

Lemma from_iter_summarized iter :
  exists t, from_iter cx iter = Ok t /\ summarized cx t /\ to_list t = iter.
Proof.
  destruct iter as [|x iter]; [exists (new cx); split_and!; [done|apply summarized_new|done]|].
  destruct (from_iter_ok (x :: iter)) as (t & E & Hw & Hi & _). exists t. split_and!; [done| |done].
  apply summarized_nonempty; [done|by rewrite Hi].
Qed.

Lemma extend_summarized t iter :
  summarized cx t ->
  exists t', extend cx t iter = Ok t' /\ summarized cx t' /\ to_list t' = to_list t ++ iter.
Proof.
  intros Ht. unfold extend. destruct (from_iter_summarized iter) as (o & -> & Ho & Hi). cbn [obind].
  destruct (append_summarized cx t o Ht Ho) as (t' & -> & Hw & Hi'). exists t'. by rewrite Hi', Hi.
Qed.

Lemma leftmost_leaf_ok h t :
  wf_node cx h t -> exists x l r, leftmost_leaf t = Ok (leaf_of cx (x :: l)) /\
    to_list t = x :: l ++ r.
Proof.
  revert h t. refine (wf_node_rect cx _ _ _).
  - intros [|x l] Hne _; [done|]. exists x, l, []. rewrite app_nil_r. done.
  - intros h cts Hne _ _ IH. destruct IH as [|c cts (x & l & r & Hl & Hi) _]; [done|].
    exists x, l, (r ++ flat_map to_list cts). split; [done|]. simpl. rewrite Hi. simpl.
    by rewrite <- app_assoc.
Qed.

Lemma rightmost_leaf_snoc h s css init c :
  rightmost_leaf (Internal h s css (init ++ [c]) : tree T S) = rightmost_leaf c.
Proof.
  simpl. induction init as [|i init IH]; [done|]. simpl.
  destruct (init ++ [c]) eqn:E; [by destruct init|]. done.
Qed.

Lemma rightmost_leaf_ok h t :
  wf_node cx h t -> exists x l r, rightmost_leaf t = Ok (leaf_of cx (l ++ [x])) /\
    to_list t = r ++ l ++ [x].
Proof.
  revert h t. refine (wf_node_rect cx _ _ _).
  - intros items Hne _. destruct (list_snoc_inv items Hne) as (l & x & ->).
    exists x, l, []. done.
  - intros h cts Hne _ _ IH. destruct (list_snoc_inv cts Hne) as (init & c & ->).
    apply Forall_snoc in IH as [_ (x & l & r & Hl & Hi)].
    exists x, l, (flat_map to_list init ++ r). rewrite rightmost_leaf_snoc. split; [done|].
    cbn [to_list]. rewrite flat_map_app. simpl. rewrite app_nil_r, Hi. by rewrite <- app_assoc.
Qed.

Lemma first_ok t : wf_tree cx t -> first t = Ok (head (to_list t)).
Proof.
  intros [[s ->]|[h Ht]]; [done|]. unfold first.
  destruct (leftmost_leaf_ok _ _ Ht) as (x & l & r & -> & ->). done.
Qed.

Lemma last_ok t : wf_tree cx t -> last t = Ok (list.last (to_list t)).
Proof.
  intros [[s ->]|[h Ht]]; [done|]. unfold last.
  destruct (rightmost_leaf_ok _ _ Ht) as (x & l & r & -> & ->). simpl.
  by rewrite app_assoc, !last_snoc.
Qed.

Lemma removelast_snoc {A} (l : list A) x : removelast (l ++ [x]) = l.
Proof. rewrite removelast_app by done. simpl. apply app_nil_r. Qed.

Lemma update_last_recursive_ok f h t :
  wf_node cx h t -> exists t' l x, update_last_recursive cx f t = Ok (t', Some (node_summary t')) /\
    wf_node cx h t' /\ to_list t = l ++ [x] /\ to_list t' = l ++ [f x].
Proof.
  revert h t. refine (wf_node_rect cx _ _ _).
  - intros items Hne Hlen. destruct (list_snoc_inv items Hne) as (l & x & ->).
    simpl. rewrite map_app. simpl. rewrite !last_snoc, !removelast_snoc.
    exists (leaf_of cx (l ++ [f x])), l, x. unfold leaf_of, items_summary. rewrite map_app.
    split_and!; try done. rewrite <- (map_app (summary cx) l [f x]).
    apply wf_leaf; [by destruct l|]. rewrite length_app in *. done.
  - intros h cts Hne Hlen Hwf IH. destruct (list_snoc_inv cts Hne) as (init & c & ->).
    apply Forall_snoc in IH as [_ (c' & l & x & Hu & Hw & Hi & Hi')].
    apply Forall_snoc in Hwf as [Hinit Hc].
    cbn [update_last_recursive]. rewrite last_mut_snoc, Hu. cbn [obind unwrap].
    rewrite set_last_summary. cbn [obind].
    exists (node_of cx (Datatypes.S h) (init ++ [c'])), (flat_map to_list init ++ l), x.
    split_and!; [done| |..].
    + apply wf_internal; [by destruct init|by rewrite length_app in *|by apply Forall_snoc].
    + cbn [to_list]. rewrite flat_map_app. simpl. rewrite app_nil_r, Hi. by rewrite app_assoc.
    + cbn [to_list node_of]. rewrite flat_map_app. simpl. rewrite app_nil_r, Hi'. by rewrite app_assoc.
Qed.

(** [push], [extend], [par_extend] and [update_last] keep a tree well formed
    without panicking and act on its end: they append the given items, and
    [update_last] applies the function to the last item (an empty tree is left
    as it is). *)
Theorem end_operations_correct t x iter f :
  wf_tree cx t ->
  (exists t', push cx t x = Ok t' /\ wf_tree cx t' /\ to_list t' = to_list t ++ [x]) /\
  (exists t', extend cx t iter = Ok t' /\ par_extend cx t iter = Ok t' /\ wf_tree cx t' /\
     to_list t' = to_list t ++ iter) /\
  (exists t', update_last cx t f = Ok t' /\ wf_tree cx t' /\
     to_list t' = match list.last (to_list t) with
                  | Some y => removelast (to_list t) ++ [f y]
                  | None => []
                  end).
Proof.
  intros Ht. split_and!; [by apply push_ok| |].
  - destruct (extend_ok t iter Ht) as (t' & He & Hw & Hi). exists t'. split_and!; try done.
    rewrite <- He. unfold par_extend, extend. f_equal.
    unfold from_par_iter, from_iter. rewrite leaves_Ok, from_iter_leaves_Ok by done. simpl.
    by rewrite levels_eq.
  - destruct Ht as [[s ->]|[h Ht]].
    { exists (Leaf s [] []). split_and!; [done|left; eauto|done]. }
    destruct (update_last_recursive_ok f _ _ Ht) as (t' & l & y & Hu & Hw & Hi & Hi').
    unfold update_last. rewrite Hu. exists t'. split_and!; [done|right; eauto|].
    by rewrite Hi', Hi, last_snoc, removelast_snoc.
Qed.

(** [first], [last] and [extent]: the ends of the tree are the ends of the
    item list, and the extent of a non-empty tree in any dimension is the
    dimension of all its items. *)
Theorem ends_and_extent_correct {D} `{!Dimension Cx S D} t :
  wf_tree cx t ->
  first t = Ok (head (to_list t)) /\ last t = Ok (list.last (to_list t)) /\
  (is_empty t = true <-> to_list t = []) /\
  (to_list t <> [] -> extent cx t = dim_from_summary (D := D) cx (items_summary cx (to_list t))).
Proof.
  intros Ht. split_and!; [by apply first_ok|by apply last_ok|by eapply wf_tree_is_empty|].
  destruct Ht as [[s ->]|[h Ht]]; [done|]. intros _. unfold extent.
  by rewrite (wf_node_summary cx _ _ Ht).
Qed.
End BuildCorrect.

Arguments append : simpl never.
Arguments push : simpl never.
Arguments from_iter : simpl never.

(** ** A concrete instance: trees of integers

    [IntegersSummary] and the dimensions [Count] and [Sum] of the tests of
    sum_tree.rs, used to evaluate the theorems on concrete trees. *)
Module Integers.

Record IntegersSummary := mkIntegersSummary {
  count : nat;
  total : nat;
  contains_even : bool;
  maximum : nat;
}.

#[export] Instance integers_summary : Summary unit IntegersSummary := {
  zero _ := mkIntegersSummary 0 0 false 0;
  add_summary _ a b :=
    mkIntegersSummary (count a + count b) (total a + total b)
      (contains_even a || contains_even b) (max (maximum a) (maximum b));
}.

#[export] Instance integers_summary_laws : SummaryLaws unit IntegersSummary.
Proof.
  split; intros; simpl; [f_equal; try lia; by rewrite orb_assoc|by destruct a].
Qed.

#[export] Instance integers_item : Item unit nat IntegersSummary := {
  summary _ n := mkIntegersSummary 1 n (Nat.even n) n;
}.

(** [Count] *)
#[export] Instance count_dimension : Dimension unit IntegersSummary nat := {
  dim_zero _ := 0;
  dim_add_summary _ d s := d + count s;
}.

#[export] Instance count_dimension_laws : DimensionLaws unit IntegersSummary nat.
Proof. split. intros. simpl. lia. Qed.

#[export] Instance count_target : SeekTarget unit nat nat := {
  target_cmp _ t d := Nat.compare t d;
}.

Definition sample : tree nat IntegersSummary :=
  match from_iter tt (seq 0 40) with Ok t => t | _ => new tt end.

Lemma sample_from_iter : from_iter tt (seq 0 40) = Ok sample.
Proof. vm_compute. reflexivity. Qed.

Lemma sample_wf : wf_tree tt sample.
Proof.
  destruct (from_iter_ok tt (seq 0 40)) as (t & E & Hw & _).
  rewrite sample_from_iter in E. by injection E as <-.
Qed.

Lemma sample_items : to_list sample = seq 0 40.
Proof. vm_compute. reflexivity. Qed.

Lemma append_correct_witness :
  node_height sample < MAX_HEIGHT /\
  exists t, append tt sample sample = Ok t /\ wf_tree tt t /\
    to_list t = seq 0 40 ++ seq 0 40 /\ node_height t <= 2 /\ node_height t <= MAX_HEIGHT.
Proof.
  assert (Hb : node_height sample < MAX_HEIGHT) by (apply Nat.ltb_lt; by vm_compute). split; [exact Hb|].
  rewrite <- sample_items. exact (append_correct tt sample sample sample_wf sample_wf Hb Hb).
Defined.

(** A tree that is appended to itself again and again, its nodes being shared, passes the
    heights that fit. *)
Section Doubled.
#[local] Instance no_summary : Summary unit unit := { zero _ := tt; add_summary _ _ _ := tt }.
#[local] Instance no_item : Item unit unit unit := { summary _ _ := tt }.

Fixpoint doubled (n : nat) (t : tree unit unit) : outcome (tree unit unit) :=
  match n with 0 => Ok t | Datatypes.S n => let! t := append tt t t in doubled n t end.

Example height_overflow :
  match doubled 1000 (Leaf tt [tt] [tt]) with Ok t => MAX_HEIGHT <? node_height t | _ => false end = true.
Proof. by vm_compute. Qed.
End Doubled.

Lemma from_iter_correct_witness :
  from_iter tt (seq 0 40) = Ok sample /\ to_list sample = seq 0 40 /\ node_height sample < 16.
Proof.
  destruct (from_iter_correct (S := IntegersSummary) tt (seq 0 40)) as (t & E & _ & Hi & Hh).
  rewrite sample_from_iter in E. injection E as <-.
  split; [exact sample_from_iter|]. split; [exact Hi|]. apply Hh. vm_compute. discriminate.
Defined.

Lemma from_par_iter_from_iter_witness : from_par_iter tt (seq 0 40) = Ok sample.
Proof.
  rewrite (from_par_iter_from_iter (S := IntegersSummary) tt (seq 0 40)). exact sample_from_iter.
Defined.

Lemma end_operations_correct_witness :
  exists t', push tt sample 7 = Ok t' /\ wf_tree tt t' /\ to_list t' = to_list sample ++ [7].
Proof. exact (proj1 (end_operations_correct tt sample 7 [1; 2] Nat.succ sample_wf)). Defined.

Lemma ends_and_extent_correct_witness :
  first sample = Ok (Some 0) /\ last sample = Ok (Some 39) /\ extent tt sample = 40.
Proof.
  destruct (ends_and_extent_correct (D := nat) tt sample sample_wf) as (H1 & H2 & _ & H4).
  rewrite H1, H2, H4; [|vm_compute; discriminate]. vm_compute. auto.
Defined.
End Integers.
