(* ===== verification/Cursor.v ===== *)
(** * Cursors over a [SumTree]: [crates/sum_tree/src/cursor.rs]

    [Cursor] with [seek], [seek_forward], [slice], [suffix], [summary], [next],
    [prev], [search_forward], [search_backward], [item], [item_summary],
    [next_item], [prev_item], [start], [end]; [FilterCursor]; [Iter]; the three
    implementations of [SeekAggregate]; [SumTree::items].  This file holds the
    definitions and the representation invariant of a cursor; the theorems on
    seeking are in CursorSeek, those on moving in CursorMove.

    A stack is a list whose head is the top ([stack.last()] in the code).  The
    loops of the code run with fuel [cursor_fuel]: an iteration pushes or pops
    one node, and no node of the tree is pushed twice in one call. *)

From stdpp Require Import base list option numbers.
From S2P Require Import Prelude SumTree.

(** The capacity of the stack, [ArrayVec<StackEntry, 16>]. *)
Definition STACK_CAPACITY : nat := 16.

Arguments STACK_CAPACITY : simpl never.

(** The slice expression [v[i..]]. *)
Definition slice_from {A} (v : list A) (i : nat) : outcome (list A) :=
  if i <=? length v then Ok (drop i v) else Panic.

(** The slice expression [v[..i]]. *)
Definition slice_to {A} (v : list A) (i : nat) : outcome (list A) :=
  if i <=? length v then Ok (take i v) else Panic.

(** Number of nodes of a tree, for the fuel of the loops. *)
Fixpoint node_count {T S} (t : tree T S) : nat :=
  match t with
  | Leaf _ _ _ => 1
  | Internal _ _ _ cts => 1 + list_sum (map node_count cts)
  end.

Record StackEntry (T S D : Type) := mkEntry {
  se_tree : tree T S;
  se_index : nat;
  se_position : D;
}.

Arguments mkEntry {T S D} _ _ _.
Arguments se_tree {T S D} _.
Arguments se_index {T S D} _.
Arguments se_position {T S D} _.

Record Cursor (T S D : Type) := mkCursor {
  c_tree : tree T S;
  c_stack : list (StackEntry T S D);
  c_position : D;
  did_seek : bool;
  at_end : bool;
}.

Arguments mkCursor {T S D} _ _ _ _ _.
Arguments c_tree {T S D} _.
Arguments c_stack {T S D} _.
Arguments c_position {T S D} _.
Arguments did_seek {T S D} _.
Arguments at_end {T S D} _.

(** [stack.push], which panics at the capacity. *)
Definition stack_push {T S D} (stack : list (StackEntry T S D)) (e : StackEntry T S D)
    : outcome (list (StackEntry T S D)) :=
  if length stack <? STACK_CAPACITY then Ok (e :: stack) else Panic.

Arguments stack_push : simpl never.

(** [trait SeekAggregate] *)
Class SeekAggregate (Cx T S A : Type) := {
  begin_leaf : A -> A;
  end_leaf : Cx -> A -> outcome A;
  push_item : Cx -> A -> T -> S -> outcome A;
  push_tree : Cx -> A -> tree T S -> S -> outcome A;
}.

(** [impl SeekAggregate for ()] *)
#[export] Instance unit_aggregate {Cx T S} : SeekAggregate Cx T S unit := {
  begin_leaf a := a;
  end_leaf _ a := Ok a;
  push_item _ a _ _ := Ok a;
  push_tree _ a _ _ := Ok a;
}.

(** [struct SliceSeekAggregate] *)
Record SliceSeekAggregate (T S : Type) := mkSlice {
  sl_tree : tree T S;
  leaf_items : list T;
  leaf_item_summaries : list S;
  leaf_summary : S;
}.

Arguments mkSlice {T S} _ _ _ _.
Arguments sl_tree {T S} _.
Arguments leaf_items {T S} _.
Arguments leaf_item_summaries {T S} _.
Arguments leaf_summary {T S} _.

#[export] Instance slice_aggregate {Cx T S} `{!Summary Cx S, !Item Cx T S} :
    SeekAggregate Cx T S (SliceSeekAggregate T S) := {
  begin_leaf a := a;
  end_leaf cx a :=
    let! t := append cx (sl_tree a) (Leaf (leaf_summary a) (leaf_items a) (leaf_item_summaries a)) in
    Ok (mkSlice t [] [] (zero cx));
  push_item cx a item s :=
    let! items := array_push MAX_NODE (leaf_items a) item in
    let! sums := array_push MAX_NODE (leaf_item_summaries a) s in
    Ok (mkSlice (sl_tree a) items sums (add_summary cx (leaf_summary a) s));
  push_tree cx a t _ :=
    let! t := append cx (sl_tree a) t in
    Ok (mkSlice t (leaf_items a) (leaf_item_summaries a) (leaf_summary a));
}.

(** [struct SummarySeekAggregate<D>(D)] *)
Record SummarySeekAggregate (O : Type) := mkSummaryAgg { agg_summary : O }.

Arguments mkSummaryAgg {O} _.
Arguments agg_summary {O} _.

#[export] Instance summary_aggregate {Cx T S O} `{!Dimension Cx S O} :
    SeekAggregate Cx T S (SummarySeekAggregate O) := {
  begin_leaf a := a;
  end_leaf _ a := Ok a;
  push_item cx a _ s := Ok (mkSummaryAgg (dim_add_summary cx (agg_summary a) s));
  push_tree cx a _ s := Ok (mkSummaryAgg (dim_add_summary cx (agg_summary a) s));
}.

(** [struct End]: greater than every position. *)
Inductive End := mkEnd.

#[export] Instance end_target {Cx D} : SeekTarget Cx D End := {
  target_cmp _ _ _ := Gt;
}.

Section Cursor.
Context {Cx T S D : Type}.
Context `{!Summary Cx S, !Item Cx T S, !Dimension Cx S D}.
Variable cx : Cx.
Implicit Types c : Cursor T S D.

Definition cursor_new (t : tree T S) : Cursor T S D :=
  mkCursor t [] (dim_zero cx) false (is_empty t).

Definition reset c : Cursor T S D :=
  mkCursor (c_tree c) [] (dim_zero cx) false (is_empty (c_tree c)).

Definition start c : D := c_position c.

Definition assert_did_seek c : outcome unit := if did_seek c then Ok tt else Panic.

Definition item c : outcome (option T) :=
  let! _ := assert_did_seek c in
  match c_stack c with
  | entry :: _ =>
      match se_tree entry with
      | Leaf _ items _ =>
          if se_index entry =? length items then Ok None
          else let! x := index items (se_index entry) in Ok (Some x)
      | Internal _ _ _ _ => Panic
      end
  | [] => Ok None
  end.

Definition item_summary c : outcome (option S) :=
  let! _ := assert_did_seek c in
  match c_stack c with
  | entry :: _ =>
      match se_tree entry with
      | Leaf _ _ item_summaries =>
          if se_index entry =? length item_summaries then Ok None
          else let! s := index item_summaries (se_index entry) in Ok (Some s)
      | Internal _ _ _ _ => Panic
      end
  | [] => Ok None
  end.

(** [Cursor::end] *)
Definition cursor_end c : outcome D :=
  let! o := item_summary c in
  match o with
  | Some s => Ok (dim_add_summary cx (start c) s)
  | None => Ok (start c)
  end.

(** The loop of [next_leaf] over the entries below the top. *)
Fixpoint next_leaf_loop (entries : list (StackEntry T S D)) : outcome (option (tree T S)) :=
  match entries with
  | [] => Ok None
  | entry :: entries =>
      let! cts := child_trees (se_tree entry) in
      let! n := usize_pred (length cts) in
      if se_index entry <? n then
        let! next := index cts (se_index entry + 1) in
        let! leaf := leftmost_leaf next in
        Ok (Some leaf)
      else next_leaf_loop entries
  end.

Definition next_leaf c : outcome (option (tree T S)) := next_leaf_loop (drop 1 (c_stack c)).

Definition next_item c : outcome (option T) :=
  let! _ := assert_did_seek c in
  match c_stack c with
  | entry :: _ =>
      let! items := node_items (se_tree entry) in
      let! n := usize_pred (length items) in
      if se_index entry =? n then
        let! leaf := next_leaf c in
        match leaf with
        | Some leaf =>
            let! items := node_items leaf in
            let! x := unwrap (head items) in
            Ok (Some x)
        | None => Ok None
        end
      else let! x := index items (se_index entry + 1) in Ok (Some x)
  | [] => if at_end c then Ok None else first (c_tree c)
  end.

(** The loop of [prev_leaf]. *)
Fixpoint prev_leaf_loop (entries : list (StackEntry T S D)) : outcome (option (tree T S)) :=
  match entries with
  | [] => Ok None
  | entry :: entries =>
      if se_index entry =? 0 then prev_leaf_loop entries
      else
        let! cts := child_trees (se_tree entry) in
        let! prev := index cts (se_index entry - 1) in
        let! leaf := rightmost_leaf prev in
        Ok (Some leaf)
  end.

Definition prev_leaf c : outcome (option (tree T S)) := prev_leaf_loop (drop 1 (c_stack c)).

Definition prev_item c : outcome (option T) :=
  let! _ := assert_did_seek c in
  match c_stack c with
  | entry :: _ =>
      if se_index entry =? 0 then
        let! leaf := prev_leaf c in
        match leaf with
        | Some leaf =>
            let! items := node_items leaf in
            let! x := unwrap (list.last items) in
            Ok (Some x)
        | None => Ok None
        end
      else
        let! items := node_items (se_tree entry) in
        let! x := index items (se_index entry - 1) in
        Ok (Some x)
  | [] => if at_end c then last (c_tree c) else Ok None
  end.

(** Enough iterations for any loop over a cursor: every iteration pushes or pops
    a node or moves past an item. *)
Definition cursor_fuel c : nat :=
  2 * node_count (c_tree c) + 2 * length (to_list (c_tree c)) + length (c_stack c) + 3.

(** *** Searching *)

Section Search.
Variable filter_node : S -> bool.

(** The inner loops of [search_forward]: index, entry position and cursor
    position after the children that the filter rejects. *)
Fixpoint skip_filtered (sums : list S) (ix : nat) (entry_position position : D) : nat * D * D :=
  match sums with
  | [] => (ix, entry_position, position)
  | s :: sums =>
      if filter_node s then (ix, entry_position, position)
      else skip_filtered sums (ix + 1)
             (dim_add_summary cx entry_position s) (dim_add_summary cx position s)
  end.

(** The outer loop of [search_forward]; the boolean of the result tells whether
    the function returned from within the loop. *)
Fixpoint search_forward_loop (fuel : nat) (stack : list (StackEntry T S D)) (position : D)
    (descend : bool) : outcome (list (StackEntry T S D) * D * bool) :=
  match stack with
  | [] => Ok ([], position, false)
  | entry :: below =>
      match fuel with
      | 0 => OutOfFuel
      | Datatypes.S fuel =>
          match se_tree entry with
          | Internal _ _ css cts =>
              let '(ix, entry_position) :=
                if descend then (se_index entry, se_position entry)
                else (se_index entry + 1, position) in
              let '(ix, entry_position, position) :=
                skip_filtered (drop ix css) ix entry_position position in
              let entry := mkEntry (se_tree entry) ix entry_position in
              match cts !! ix with
              | Some subtree =>
                  let! stack := stack_push (entry :: below) (mkEntry subtree 0 position) in
                  search_forward_loop fuel stack position true
              | None => search_forward_loop fuel below position false
              end
          | Leaf _ _ sums =>
              let! (ix, entry_position, position) :=
                (if descend then Ok (se_index entry, se_position entry, position)
                 else let! s := index sums (se_index entry) in
                      Ok (se_index entry + 1, dim_add_summary cx (se_position entry) s,
                          dim_add_summary cx position s)) in
              let '(ix, entry_position, position) :=
                skip_filtered (drop ix sums) ix entry_position position in
              if ix <? length sums then
                Ok (mkEntry (se_tree entry) ix entry_position :: below, position, true)
              else search_forward_loop fuel below position false
          end
      end
  end.

Definition search_forward c : outcome (Cursor T S D) :=
  let! (stack, descend, did_seek) :=
    (match c_stack c with
     | [] =>
         if at_end c then Ok ([], false, true)
         else let! st := stack_push [] (mkEntry (c_tree c) 0 (dim_zero cx)) in Ok (st, true, true)
     | stack => Ok (stack, false, did_seek c)
     end) in
  let! (stack, position, returned) :=
    search_forward_loop (cursor_fuel c) stack (c_position c) descend in
  if (returned : bool) then Ok (mkCursor (c_tree c) stack position did_seek (at_end c))
  else Ok (mkCursor (c_tree c) stack position did_seek
             (match stack with [] => true | _ :: _ => false end)).

(** The loop of [search_backward]. *)
Fixpoint search_backward_loop (fuel : nat) (stack : list (StackEntry T S D)) (position : D)
    (descending : bool) : outcome (list (StackEntry T S D) * D) :=
  match stack with
  | [] => Ok ([], position)
  | entry :: below =>
      match fuel with
      | 0 => OutOfFuel
      | Datatypes.S fuel =>
          let position := match below with
                          | parent :: _ => se_position parent
                          | [] => dim_zero cx
                          end in
          if negb descending && (se_index entry =? 0) then
            search_backward_loop fuel below position descending
          else
            let ix := if descending then se_index entry else se_index entry - 1 in
            let! before := slice_to (child_summaries (se_tree entry)) ix in
            let position := fold_left (dim_add_summary cx) before position in
            let entry := mkEntry (se_tree entry) ix position in
            let! s := index (child_summaries (se_tree entry)) ix in
            let descending := filter_node s in
            match se_tree entry with
            | Internal _ _ _ cts =>
                if descending then
                  let! t := index cts ix in
                  let! last_ix := usize_pred (length (child_summaries t)) in
                  let! stack := stack_push (entry :: below) (mkEntry t last_ix (dim_zero cx)) in
                  search_backward_loop fuel stack position descending
                else search_backward_loop fuel (entry :: below) position descending
            | Leaf _ _ _ =>
                if descending then Ok (entry :: below, position)
                else search_backward_loop fuel (entry :: below) position descending
            end
      end
  end.

Definition search_backward c : outcome (Cursor T S D) :=
  let at_end0 := if did_seek c then at_end c else true in
  let! (stack, position, at_end1) :=
    (if at_end0 then
       if is_empty (c_tree c) then Ok (c_stack c, dim_zero cx, true)
       else
         let! st := stack_push (c_stack c)
           (mkEntry (c_tree c) (length (child_summaries (c_tree c)))
              (dim_from_summary cx (node_summary (c_tree c)))) in
         Ok (st, dim_zero cx, false)
     else Ok (c_stack c, c_position c, at_end0)) in
  let! (stack, position) := search_backward_loop (cursor_fuel c) stack position false in
  Ok (mkCursor (c_tree c) stack position true at_end1).
End Search.

(** [Cursor::next] and [Cursor::prev] *)
Definition cursor_next c : outcome (Cursor T S D) := search_forward (fun _ => true) c.
Definition cursor_prev c : outcome (Cursor T S D) := search_backward (fun _ => true) c.

(** *** Seeking *)

Section Seek.
Context {Target A : Type} `{!SeekTarget Cx D Target, !SeekAggregate Cx T S A}.
Variables (target : Target) (bias : Bias).

(** The condition under which a child is passed over. *)
Definition passes (child_end : D) : bool :=
  match target_cmp cx target child_end with
  | Gt => true
  | Eq => bias_eqb bias Right
  | Lt => false
  end.

(** The loop over the remaining children of an internal node: index, entry
    position, cursor position, aggregate, and the child to descend into. *)
Fixpoint seek_trees (l : list (tree T S * S)) (ix : nat) (entry_position position : D) (agg : A)
    : outcome (nat * D * D * A * option (tree T S)) :=
  match l with
  | [] => Ok (ix, entry_position, position, agg, None)
  | (child_tree, child_summary) :: l =>
      let child_end := dim_add_summary cx position child_summary in
      if passes child_end then
        let! agg := push_tree cx agg child_tree child_summary in
        seek_trees l (ix + 1) child_end child_end agg
      else Ok (ix, entry_position, position, agg, Some child_tree)
  end.

(** The loop over the remaining items of a leaf: index, cursor position,
    aggregate, and whether it stopped at an item. *)
Fixpoint seek_items (l : list (T * S)) (ix : nat) (position : D) (agg : A)
    : outcome (nat * D * A * bool) :=
  match l with
  | [] => Ok (ix, position, agg, false)
  | (item, item_summary) :: l =>
      let child_end := dim_add_summary cx position item_summary in
      if passes child_end then
        let! agg := push_item cx agg item item_summary in
        seek_items l (ix + 1) child_end agg
      else Ok (ix, position, agg, true)
  end.

(** The loop ['outer] of [seek_internal]. *)
Fixpoint seek_loop (fuel : nat) (stack : list (StackEntry T S D)) (position : D)
    (ascending : bool) (agg : A) : outcome (list (StackEntry T S D) * D * A) :=
  match stack with
  | [] => Ok ([], position, agg)
  | entry :: below =>
      match fuel with
      | 0 => OutOfFuel
      | Datatypes.S fuel =>
          match se_tree entry with
          | Internal _ _ css cts =>
              let '(ix, entry_position) :=
                if ascending then (se_index entry + 1, position)
                else (se_index entry, se_position entry) in
              let! trees := slice_from cts ix in
              let! sums := slice_from css ix in
              let! (ix, entry_position, position, agg, stop) :=
                seek_trees (combine trees sums) ix entry_position position agg in
              match stop with
              | Some child_tree =>
                  let! stack := stack_push (mkEntry (se_tree entry) ix entry_position :: below)
                                  (mkEntry child_tree 0 position) in
                  seek_loop fuel stack position false agg
              | None => seek_loop fuel below position true agg
              end
          | Leaf _ items sums =>
              let agg := begin_leaf agg in
              let! its := slice_from items (se_index entry) in
              let! sms := slice_from sums (se_index entry) in
              let! (ix, position, agg, stopped) :=
                seek_items (combine its sms) (se_index entry) position agg in
              let! agg := end_leaf cx agg in
              if (stopped : bool) then
                Ok (mkEntry (se_tree entry) ix (se_position entry) :: below, position, agg)
              else seek_loop fuel below position true agg
          end
      end
  end.

(** [seek_internal]: the cursor, the aggregate, and whether the target was found. *)
Definition seek_internal c (agg : A) : outcome (Cursor T S D * A * bool) :=
  if ordering_is_ge (target_cmp cx target (c_position c)) then
    let! stack :=
      (if did_seek c then Ok (c_stack c)
       else stack_push (c_stack c) (mkEntry (c_tree c) 0 (dim_zero cx))) in
    let! (stack, position, agg) := seek_loop (cursor_fuel c) stack (c_position c) false agg in
    let c := mkCursor (c_tree c) stack position true
               (match stack with [] => true | _ :: _ => false end) in
    let! end_position :=
      (match bias with
       | Left =>
           let! o := item_summary c in
           match o with
           | Some s => Ok (dim_add_summary cx position s)
           | None => Ok position
           end
       | Right => Ok position
       end) in
    Ok (c, agg, match target_cmp cx target end_position with Eq => true | _ => false end)
  else Panic.
End Seek.

Definition seek {Target} `{!SeekTarget Cx D Target} c (pos : Target) (bias : Bias)
    : outcome (Cursor T S D * bool) :=
  let! (c, _, found) := seek_internal pos bias (reset c) tt in Ok (c, found).

Definition seek_forward {Target} `{!SeekTarget Cx D Target} c (pos : Target) (bias : Bias)
    : outcome (Cursor T S D * bool) :=
  let! (c, _, found) := seek_internal pos bias c tt in Ok (c, found).

(** [Cursor::slice]: the cursor and the traversed items as a tree. *)
Definition slice {Target} `{!SeekTarget Cx D Target} c (end_ : Target) (bias : Bias)
    : outcome (Cursor T S D * tree T S) :=
  let agg := mkSlice (new cx) [] [] (zero cx) in
  let! (c, agg, _) := seek_internal end_ bias c agg in Ok (c, sl_tree agg).

Definition suffix c : outcome (Cursor T S D * tree T S) := slice c mkEnd Right.

(** [Cursor::summary] *)
Definition cursor_summary {Target O} `{!SeekTarget Cx D Target, !Dimension Cx S O}
    c (end_ : Target) (bias : Bias) : outcome (Cursor T S D * O) :=
  let! (c, agg, _) := seek_internal end_ bias c (mkSummaryAgg (dim_zero cx)) in
  Ok (c, agg_summary agg).

(** *** Iteration *)

(** [impl Iterator for Cursor]: the item returned and the cursor after it. *)
Definition cursor_iter_next c : outcome (Cursor T S D * option T) :=
  let! c := (if did_seek c then Ok c else cursor_next c) in
  let! o := item c in
  match o with
  | Some x => let! c := cursor_next c in Ok (c, Some x)
  | None => Ok (c, None)
  end.

(** [struct FilterCursor] *)
Record FilterCursor := mkFilterCursor {
  fc_cursor : Cursor T S D;
  fc_filter_node : S -> bool;
}.

Definition filter_new (t : tree T S) (filter_node : S -> bool) : FilterCursor :=
  mkFilterCursor (cursor_new t) filter_node.

Definition filter_item (fc : FilterCursor) : outcome (option T) := item (fc_cursor fc).
Definition filter_item_summary (fc : FilterCursor) : outcome (option S) := item_summary (fc_cursor fc).
Definition filter_start (fc : FilterCursor) : D := start (fc_cursor fc).
Definition filter_end (fc : FilterCursor) : outcome D := cursor_end (fc_cursor fc).

Definition filter_next (fc : FilterCursor) : outcome FilterCursor :=
  let! c := search_forward (fc_filter_node fc) (fc_cursor fc) in
  Ok (mkFilterCursor c (fc_filter_node fc)).

Definition filter_prev (fc : FilterCursor) : outcome FilterCursor :=
  let! c := search_backward (fc_filter_node fc) (fc_cursor fc) in
  Ok (mkFilterCursor c (fc_filter_node fc)).

(** [impl Iterator for FilterCursor] *)
Definition filter_iter_next (fc : FilterCursor) : outcome (FilterCursor * option T) :=
  let! fc := (if did_seek (fc_cursor fc) then Ok fc else filter_next fc) in
  let! o := filter_item fc in
  match o with
  | Some x => let! fc := filter_next fc in Ok (fc, Some x)
  | None => Ok (fc, None)
  end.
End Cursor.

Arguments mkFilterCursor {T S D} _ _.
Arguments fc_cursor {T S D} _.
Arguments fc_filter_node {T S D} _ _.

(** [struct Iter]: a stack of nodes and indices, without positions. *)
Section Iter.
Context {T S : Type}.

Record Iter := mkIter {
  it_tree : tree T S;
  it_stack : list (StackEntry T S unit);
}.

Definition iter_new (t : tree T S) : Iter := mkIter t [].

(** The loop of [Iter::next]. *)
Fixpoint iter_loop (fuel : nat) (stack : list (StackEntry T S unit)) (descend : bool)
    : outcome (list (StackEntry T S unit) * option T) :=
  match stack with
  | [] => Ok ([], None)
  | entry :: below =>
      match fuel with
      | 0 => OutOfFuel
      | Datatypes.S fuel =>
          let ix := if descend then se_index entry else se_index entry + 1 in
          let entry := mkEntry (se_tree entry) ix tt in
          match se_tree entry with
          | Internal _ _ _ cts =>
              match cts !! ix with
              | Some subtree =>
                  let! stack := stack_push (entry :: below) (mkEntry subtree 0 tt) in
                  iter_loop fuel stack true
              | None => iter_loop fuel below false
              end
          | Leaf _ items _ =>
              match items !! ix with
              | Some x => Ok (entry :: below, Some x)
              | None => iter_loop fuel below false
              end
          end
      end
  end.

(** [Iter::next] *)
Definition iter_next (it : Iter) : outcome (Iter * option T) :=
  let! (stack, descend) :=
    (match it_stack it with
     | [] => let! st := stack_push [] (mkEntry (it_tree it) 0 tt) in Ok (st, true)
     | stack => Ok (stack, false)
     end) in
  let! (stack, x) :=
    iter_loop (2 * node_count (it_tree it) + length (it_stack it) + 3) stack descend in
  Ok (mkIter (it_tree it) stack, x).

(** [collect] of an [Iter]: [next] until it returns [None]. *)
Fixpoint iter_collect_loop (fuel : nat) (it : Iter) (acc : list T) : outcome (list T) :=
  match fuel with
  | 0 => OutOfFuel
  | Datatypes.S fuel =>
      let! (it, x) := iter_next it in
      match x with
      | Some x => iter_collect_loop fuel it (acc ++ [x])
      | None => Ok acc
      end
  end.

Definition iter_collect (t : tree T S) : outcome (list T) :=
  iter_collect_loop (length (to_list t) + 1) (iter_new t) [].
End Iter.

(** [SumTree::items]: the loop over a cursor with the dimension [()]. *)
Section Items.
Context {Cx T S : Type} `{!Summary Cx S, !Item Cx T S}.
Variable cx : Cx.

Fixpoint items_loop (fuel : nat) (c : Cursor T S unit) (acc : list T) : outcome (list T) :=
  match fuel with
  | 0 => OutOfFuel
  | Datatypes.S fuel =>
      let! o := item c in
      match o with
      | Some x => let! c := cursor_next cx c in items_loop fuel c (acc ++ [x])
      | None => Ok acc
      end
  end.

Definition items (t : tree T S) : outcome (list T) :=
  let! c := cursor_next cx (cursor_new cx t) in
  items_loop (length (to_list t) + 1) c [].
End Items.

(** ** The representation of a cursor *)

Lemma slice_from_Ok {A} (v : list A) i : i <= length v -> slice_from v i = Ok (drop i v).
Proof. intros Hi. unfold slice_from. case_nat; [done|lia]. Qed.

Lemma stack_push_Ok {T S D} (st : list (StackEntry T S D)) e :
  length st < STACK_CAPACITY -> stack_push st e = Ok (e :: st).
Proof. intros Hl. unfold stack_push. case_nat; [done|lia]. Qed.

Section Rep.
Context {Cx T S D : Type}.
Context `{!Summary Cx S, !SummaryLaws Cx S, !Item Cx T S, !Dimension Cx S D, !DimensionLaws Cx S D}.
Variable cx : Cx.

(** The dimension [d] advanced over a run of items. *)
Definition dim_items (d : D) (l : list T) : D :=
  fold_left (fun d x => dim_add_summary cx d (summary cx x)) l d.

(** The position of the start of item [i] of [l]. *)
Definition position_at (l : list T) (i : nat) : D := dim_items (dim_zero cx) (take i l).

(** [frames root st t pre post]: the entries [st] lead from [root] down to the
    subtree [t]; the items of [root] are [pre], those of [t], then [post].  The
    position of an entry is where its current child starts. *)
Inductive frames (root : tree T S) :
    list (StackEntry T S D) -> tree T S -> list T -> list T -> Prop :=
| frames_root : frames root [] root [] []
| frames_down st h cts ix t pre post :
    frames root st (node_of cx h cts) pre post ->
    cts !! ix = Some t ->
    frames root
      (mkEntry (node_of cx h cts) ix
         (dim_items (dim_zero cx) (pre ++ flat_map to_list (take ix cts))) :: st)
      t (pre ++ flat_map to_list (take ix cts)) (flat_map to_list (drop (Datatypes.S ix) cts) ++ post).

(** The stack of a cursor that stands on item [i]. *)
Definition at_leaf (root : tree T S) (stack : list (StackEntry T S D)) (i : nat) : Prop :=
  exists ix pos st pre post l,
    stack = mkEntry (leaf_of cx l) ix pos :: st /\
    frames root st (leaf_of cx l) pre post /\ ix < length l /\ i = length pre + ix.

(** A cursor that has been positioned: on item [i], or past the end. *)
Definition cursor_at (t : tree T S) (c : Cursor T S D) (i : nat) : Prop :=
  c_tree c = t /\ did_seek c = true /\ c_position c = position_at (to_list t) i /\
  ((i < length (to_list t) /\ at_leaf t (c_stack c) i /\ at_end c = false) \/
   (i = length (to_list t) /\ c_stack c = [] /\ at_end c = true)).

(** A cursor that [prev] has moved before the first item. *)
Definition cursor_before (t : tree T S) (c : Cursor T S D) : Prop :=
  c_tree c = t /\ did_seek c = true /\ c_position c = dim_zero cx /\
  c_stack c = [] /\ at_end c = false /\ to_list t <> [].

Lemma dim_items_app d l1 l2 : dim_items d (l1 ++ l2) = dim_items (dim_items d l1) l2.
Proof. apply fold_left_app. Qed.

Lemma dim_items_summary d l :
  l <> [] -> dim_items d l = dim_add_summary cx d (items_summary cx l).
Proof.
  induction l as [|x l IH] using rev_ind; intros Hne; [done|].
  rewrite dim_items_app. simpl. destruct l as [|y l].
  - simpl. by rewrite items_summary_singleton.
  - rewrite IH by done. rewrite items_summary_app by done.
    by rewrite items_summary_singleton, dim_add_add.
Qed.

Lemma dim_items_node d h (t : tree T S) :
  wf_node cx h t -> dim_add_summary cx d (node_summary t) = dim_items d (to_list t).
Proof.
  intros Ht. rewrite (wf_node_summary cx _ _ Ht), dim_items_summary; [done|].
  by eapply wf_node_nonempty.
Qed.

Lemma dim_items_children d h (cts : list (tree T S)) :
  Forall (wf_node cx h) cts ->
  fold_left (dim_add_summary cx) (map node_summary cts) d = dim_items d (flat_map to_list cts).
Proof.
  intros Hwf. revert d. induction Hwf as [|c cts Hc _ IH]; intros d; [done|].
  simpl. rewrite (dim_items_node _ _ _ Hc), IH. by rewrite dim_items_app.
Qed.

Lemma dim_items_map d (l : list T) :
  fold_left (dim_add_summary cx) (map (summary cx) l) d = dim_items d l.
Proof. revert d. induction l; simpl; intros; auto. Qed.

(** Splitting the items of a list of subtrees at one of them. *)
Lemma flat_map_split (cts : list (tree T S)) ix t :
  cts !! ix = Some t ->
  flat_map to_list cts =
    flat_map to_list (take ix cts) ++ to_list t ++ flat_map to_list (drop (Datatypes.S ix) cts).
Proof.
  intros H. rewrite <- (take_drop_middle _ _ _ H) at 1. by rewrite flat_map_app.
Qed.

Lemma frames_items root st t pre post :
  frames root st t pre post -> to_list root = pre ++ to_list t ++ post.
Proof.
  induction 1 as [|st h cts ix t pre post _ IH Ht]; [by rewrite app_nil_r|].
  rewrite IH. cbn [to_list node_of]. rewrite (flat_map_split _ _ _ Ht). by rewrite <- !app_assoc.
Qed.

(** The subtree under a stack is a well-formed node, lower by the depth. *)
Lemma frames_wf root H st t pre post :
  wf_node cx H root -> frames root st t pre post ->
  exists k, wf_node cx k t /\ k + length st = H.
Proof.
  intros Hroot. induction 1 as [|st h cts ix t pre post _ (k & Hk & E) Ht]; [eauto|].
  inversion Hk as [|k' cts' Hne Hlen Hall E1 E2]; subst.
  exists k'. split; [|simpl; lia]. exact (Forall_lookup_1 _ _ _ _ Hall Ht).
Qed.

Lemma frames_parent root H st h cts pre post :
  wf_node cx H root -> frames root st (node_of cx h cts) pre post ->
  exists k, h = Datatypes.S k /\ Forall (wf_node cx k) cts /\ cts <> [] /\
    h + length st = H.
Proof.
  intros Hroot Hf. destruct (frames_wf _ _ _ _ _ _ Hroot Hf) as (k & Hk & E).
  inversion Hk; subst. eauto 10.
Qed.

Lemma leaf_of_wf_inv k l : wf_node cx k (leaf_of cx l : tree T S) -> k = 0 /\ l <> [] /\ length l <= MAX_NODE.
Proof. inversion 1; subst. done. Qed.

Lemma node_count_height h (t : tree T S) : wf_node cx h t -> h + 1 <= node_count t.
Proof.
  revert h t. refine (wf_node_rect cx _ _ _); [simpl; lia|].
  intros h cts Hne _ _ IH. destruct IH as [|c cts Hc _]; [done|]. simpl. lia.
Qed.

Lemma take_app_split {A} (l1 l2 : list A) n :
  take (length l1 + n) (l1 ++ l2) = l1 ++ take n l2.
Proof. by rewrite take_app_add. Qed.

(** Reading positions through the frames of a stack. *)
Lemma position_at_frames root st t pre post n :
  frames root st t pre post -> n <= length (to_list t) ->
  position_at (to_list root) (length pre + n) = dim_items (dim_zero cx) (pre ++ take n (to_list t)).
Proof.
  intros Hf Hn. unfold position_at. rewrite (frames_items _ _ _ _ _ Hf), take_app_add.
  by rewrite take_app_le by done.
Qed.

Lemma at_leaf_bound root stack i : at_leaf root stack i -> i < length (to_list root).
Proof.
  intros (ix & pos & st & pre & post & l & -> & Hf & Hix & ->).
  rewrite (frames_items _ _ _ _ _ Hf), !length_app. simpl. lia.
Qed.

Lemma position_at_S l i x :
  l !! i = Some x -> position_at l (Datatypes.S i) = dim_add_summary cx (position_at l i) (summary cx x).
Proof.
  intros H. unfold position_at. rewrite (take_S_r _ _ _ H). by rewrite dim_items_app.
Qed.

Lemma position_at_add l i n :
  position_at l (i + n) = dim_items (position_at l i) (take n (drop i l)).
Proof. unfold position_at. by rewrite <- take_take_drop, dim_items_app. Qed.

Lemma position_at_ge l i : length l <= i -> position_at l i = dim_items (dim_zero cx) l.
Proof. intros H. unfold position_at. by rewrite take_ge. Qed.

(** The item under a cursor and its neighbours in its leaf. *)
Lemma frames_lookup root st t pre post ix :
  frames root st t pre post -> ix < length (to_list t) ->
  to_list root !! (length pre + ix) = to_list t !! ix.
Proof.
  intros Hf Hix. rewrite (frames_items _ _ _ _ _ Hf), lookup_app_r by lia.
  rewrite lookup_app_l by lia. f_equal. lia.
Qed.

Lemma cursor_at_item t c i : cursor_at t c i -> item c = Ok (to_list t !! i).
Proof.
  intros (Ht & Hd & _ & [(Hi & Hleaf & He)|(-> & Hs & He)]); unfold item, assert_did_seek; rewrite Hd.
  - destruct Hleaf as (ix & pos & st & pre & post & l & -> & Hf & Hix & ->). simpl.
    destruct (Nat.eqb_spec ix (length l)); [lia|].
    destruct (lookup_lt_is_Some_2 l ix Hix) as [x Hx]. rewrite (index_Ok _ _ _ Hx). simpl.
    rewrite (frames_lookup _ _ _ _ _ ix Hf) by done. simpl. by rewrite Hx.
  - rewrite Hs. simpl. by rewrite lookup_ge_None_2 by done.
Qed.

Lemma cursor_at_item_summary t c i :
  cursor_at t c i -> item_summary c = Ok (summary cx <$> to_list t !! i).
Proof.
  intros (Ht & Hd & _ & [(Hi & Hleaf & He)|(-> & Hs & He)]); unfold item_summary, assert_did_seek; rewrite Hd.
  - destruct Hleaf as (ix & pos & st & pre & post & l & -> & Hf & Hix & ->). simpl.
    rewrite length_map. destruct (Nat.eqb_spec ix (length l)); [lia|].
    destruct (lookup_lt_is_Some_2 l ix Hix) as [x Hx].
    rewrite (index_Ok _ _ (summary cx x)) by (rewrite list_lookup_fmap; by rewrite Hx). simpl.
    rewrite (frames_lookup _ _ _ _ _ ix Hf) by done. simpl. by rewrite Hx.
  - rewrite Hs. simpl. by rewrite lookup_ge_None_2 by done.
Qed.

Lemma cursor_at_start t c i : cursor_at t c i -> start c = position_at (to_list t) i.
Proof. by intros (_ & _ & ? & _). Qed.

Lemma cursor_at_end t c i :
  cursor_at t c i -> cursor_end cx c = Ok (position_at (to_list t) (Datatypes.S i)).
Proof.
  intros Hc. unfold cursor_end. rewrite (cursor_at_item_summary _ _ _ Hc). simpl.
  rewrite (cursor_at_start _ _ _ Hc). destruct (to_list t !! i) as [x|] eqn:Hx; simpl.
  - by rewrite (position_at_S _ _ _ Hx).
  - apply lookup_ge_None in Hx. by rewrite !position_at_ge by lia.
Qed.

Lemma cursor_at_bound t c i : cursor_at t c i -> i <= length (to_list t).
Proof. intros (_ & _ & _ & [(? & _)|(? & _)]); lia. Qed.
End Rep.
