(* ===== verification/CursorSeek.v ===== *)
(** * Seeking with a cursor: [seek], [seek_forward], [slice], [suffix], [summary]

    The aggregates of a seek promise, through [SeekAggregateLaws], to represent
    the items that were passed over; [seek_internal] is proved against that
    interface and the three implementations discharge it.  A seek lands on the
    item that a linear scan of the item list finds. *)

From stdpp Require Import base list option numbers.
From S2P Require Import Prelude SumTree Cursor.

(** What an aggregate promises to [seek_internal]: [agg_rep cx a l p] says that
    [a] accounts for the items [l] in whole, and for the items [p] of the leaf
    being scanned. *)
Class SeekAggregateLaws (Cx T S A : Type) `{!Summary Cx S, !Item Cx T S, !SeekAggregate Cx T S A} := {
  agg_rep : Cx -> A -> list T -> list T -> Prop;
  begin_leaf_ok : forall cx a l, agg_rep cx a l [] -> agg_rep cx (begin_leaf a) l [];
  push_item_ok : forall cx a l p x, agg_rep cx a l p -> length p < MAX_NODE ->
    exists a', push_item cx a x (summary cx x) = Ok a' /\ agg_rep cx a' l (p ++ [x]);
  end_leaf_ok : forall cx a l p, agg_rep cx a l p ->
    exists a', end_leaf cx a = Ok a' /\ agg_rep cx a' (l ++ p) [];
  push_tree_ok : forall cx a l h t, agg_rep cx a l [] -> wf_node cx h t ->
    exists a', push_tree cx a t (node_summary t) = Ok a' /\ agg_rep cx a' (l ++ to_list t) [];
}.

Section Instances.
Context {Cx T S : Type} `{!Summary Cx S, !SummaryLaws Cx S, !Item Cx T S}.

#[export, program] Instance unit_aggregate_laws : SeekAggregateLaws Cx T S unit := {
  agg_rep _ _ _ _ := True;
}.
Next Obligation. done. Qed.
Next Obligation. eauto. Qed.
Next Obligation. eauto. Qed.
Next Obligation. eauto. Qed.

#[export, program] Instance summary_aggregate_laws {O} `{!Dimension Cx S O, !DimensionLaws Cx S O} :
    SeekAggregateLaws Cx T S (SummarySeekAggregate O) := {
  agg_rep cx a l p := agg_summary a = dim_items cx (dim_zero cx) (l ++ p);
}.
Next Obligation. done. Qed.
Next Obligation.
  intros O ?? cx a l p x Ha _. eexists; split; [reflexivity|]. simpl.
  by rewrite Ha, app_assoc, (dim_items_app _ _ (l ++ p)).
Qed.
Next Obligation. intros O ?? cx a l p Ha. eexists; split; [reflexivity|]. by rewrite app_nil_r. Qed.
Next Obligation.
  intros O ?? cx a l h t Ha Ht. eexists; split; [reflexivity|]. simpl.
  rewrite Ha, !app_nil_r, dim_items_app. by erewrite dim_items_node.
Qed.

#[export, program] Instance slice_aggregate_laws :
    SeekAggregateLaws Cx T S (SliceSeekAggregate T S) := {
  agg_rep cx a l p :=
    summarized cx (sl_tree a) /\ to_list (sl_tree a) = l /\ leaf_items a = p /\
    leaf_item_summaries a = map (summary cx) p /\ leaf_summary a = items_summary cx p /\
    length p <= MAX_NODE;
}.
Next Obligation. done. Qed.
Next Obligation.
  intros cx [t li ls s] l p x (Hw & Hl & Hi & Hs & Hsum & Hlen) Hlt. simpl in *. subst.
  rewrite !array_push_Ok by (rewrite ?length_map; lia). simpl.
  eexists; split; [reflexivity|]. simpl. rewrite map_app, items_summary_app by done.
  rewrite items_summary_singleton, length_app. simpl. split_and!; try done. lia.
Qed.
Next Obligation.
  intros cx [t li ls s] l p (Hw & Hl & Hi & Hs & Hsum & Hlen). simpl in *. rewrite Hi, Hs, Hsum. subst l.
  assert (Hp : summarized cx (Leaf (items_summary cx p) p (map (summary cx) p) : tree T S)).
  { split; [|done]. destruct p; [left; eauto|right; eexists; by apply wf_leaf]. }
  destruct (append_summarized cx t _ Hw Hp) as (t' & -> & Hw' & Hi').
  eexists; split; [reflexivity|]. simpl. split_and!; try done. lia.
Qed.
Next Obligation.
  intros cx [t li ls s] l h t' (Hw & Hl & Hi & Hs & Hsum & Hlen) Ht'. simpl in *. subst.
  destruct (append_summarized cx t _ Hw (summarized_nonempty cx _ (wf_tree_node cx _ _ Ht') (wf_node_nonempty cx _ _ Ht')))
    as (t2 & -> & Hw' & Hi').
  eexists; split; [reflexivity|]. done.
Qed.
End Instances.

(** ** The loop of [seek_internal] *)

Section Seek.
Context {Cx T S D : Type}.
Context `{!Summary Cx S, !SummaryLaws Cx S, !Item Cx T S, !Dimension Cx S D, !DimensionLaws Cx S D}.
Context {Target A : Type} `{!SeekTarget Cx D Target, !SeekAggregate Cx T S A, !SeekAggregateLaws Cx T S A}.
Variables (cx : Cx) (target : Target) (bias : Bias).

(** The index a linear scan stops at: the first item whose end is not passed. *)
Fixpoint scan (d : D) (l : list T) : nat :=
  match l with
  | [] => 0
  | x :: l =>
      let d := dim_add_summary cx d (summary cx x) in
      if passes cx target bias d then Datatypes.S (scan d l) else 0
  end.

(** Once the end of an item is not passed, no later one is. *)
Definition monotone_target (l : list T) : Prop :=
  forall i j, 0 < i -> i <= j -> j <= length l ->
    passes cx target bias (position_at cx l j) = true ->
    passes cx target bias (position_at cx l i) = true.

(** A seek over the items [l] from index [i0] stops at [i]. *)
Definition lands (l : list T) (i0 i : nat) : Prop :=
  i0 <= i <= length l /\
  (i = i0 \/ passes cx target bias (position_at cx l i) = true) /\
  (i < length l -> passes cx target bias (position_at cx l (Datatypes.S i)) = false).

Lemma lands_scan l i0 i :
  monotone_target l -> lands l i0 i -> i = i0 + scan (position_at cx l i0) (drop i0 l).
Proof.
  intros Hm (Hle & Hpass & Hstop). remember (i - i0) as n eqn:En.
  revert i0 En Hle Hpass. induction n as [|n IH]; intros i0 En Hle Hpass.
  - assert (i = i0) as -> by lia.
    destruct (drop i0 l) as [|x r] eqn:Ed; [simpl; lia|].
    assert (Hx : l !! i0 = Some x) by (by rewrite <- (Nat.add_0_r i0), <- lookup_drop, Ed).
    simpl. rewrite <- (position_at_S cx _ _ _ Hx). rewrite Hstop; [lia|].
    by apply lookup_lt_Some in Hx.
  - assert (Hlt : i0 < length l) by lia.
    destruct (lookup_lt_is_Some_2 l i0 Hlt) as [x Hx].
    rewrite (drop_S _ _ _ Hx). simpl. rewrite <- (position_at_S cx _ _ _ Hx).
    rewrite (Hm (Datatypes.S i0) i) by (first [lia | destruct Hpass; [lia|done]]).
    specialize (IH (Datatypes.S i0) ltac:(lia) ltac:(lia)). rewrite IH at 1; [lia|].
    destruct Hpass; [lia|by right].
Qed.

(** The loop over the remaining subtrees of a node. *)
Lemma seek_trees_ok h (rest : list (tree T S)) ix pos a l :
  Forall (wf_node cx h) rest -> agg_rep cx a l [] ->
  exists k a', k <= length rest /\
    seek_trees cx target bias (combine rest (map node_summary rest)) ix pos pos a =
      Ok (ix + k, dim_items cx pos (flat_map to_list (take k rest)),
          dim_items cx pos (flat_map to_list (take k rest)), a', rest !! k) /\
    agg_rep cx a' (l ++ flat_map to_list (take k rest)) [] /\
    (k = 0 \/ passes cx target bias (dim_items cx pos (flat_map to_list (take k rest))) = true) /\
    (forall t, rest !! k = Some t ->
       passes cx target bias (dim_items cx pos (flat_map to_list (take k rest) ++ to_list t)) = false).
Proof.
  intros Hwf. revert ix pos a l. induction Hwf as [|t rest Ht Hwf IH]; intros ix pos a l Ha.
  { exists 0, a. simpl. rewrite Nat.add_0_r, app_nil_r. split_and!; auto; done. }
  simpl. destruct (passes cx target bias (dim_add_summary cx pos (node_summary t))) eqn:Hp.
  - destruct (push_tree_ok _ _ _ _ _ Ha Ht) as (a1 & -> & Ha1). simpl.
    rewrite (dim_items_node cx _ _ _ Ht) in *.
    destruct (IH (ix + 1) (dim_items cx pos (to_list t)) a1 _ Ha1)
      as (k & a' & Hk & -> & Ha' & Hpass & Hstop).
    exists (Datatypes.S k), a'. simpl. rewrite !dim_items_app, <- app_assoc in *.
    replace (ix + Datatypes.S k) with (ix + 1 + k) by lia. split_and!; try done; [lia| |].
    + right. destruct Hpass as [->|Hpass]; [simpl; done|done].
    + intros t' Ht'. rewrite <- app_assoc, dim_items_app. by apply Hstop.
  - exists 0, a. simpl. rewrite Nat.add_0_r, app_nil_r. split_and!; [lia|done|done|by left|].
    intros t' [= <-]. by rewrite <- (dim_items_node cx _ _ _ Ht).
Qed.

(** The loop over the remaining items of a leaf. *)
Lemma seek_items_ok (its : list T) ix pos a l p :
  agg_rep cx a l p -> length p + length its <= MAX_NODE ->
  exists k a', k <= length its /\
    seek_items cx target bias (combine its (map (summary cx) its)) ix pos a =
      Ok (ix + k, dim_items cx pos (take k its), a', k <? length its) /\
    agg_rep cx a' l (p ++ take k its) /\
    (k = 0 \/ passes cx target bias (dim_items cx pos (take k its)) = true) /\
    (k < length its -> passes cx target bias (dim_items cx pos (take (Datatypes.S k) its)) = false).
Proof.
  revert ix pos a p. induction its as [|x its IH]; intros ix pos a p Ha Hlen.
  { exists 0, a. simpl. rewrite Nat.add_0_r, app_nil_r. split_and!; auto; lia. }
  simpl in Hlen |- *. destruct (passes cx target bias (dim_add_summary cx pos (summary cx x))) eqn:Hp.
  - destruct (push_item_ok _ _ _ _ x Ha) as (a1 & -> & Ha1); [lia|]. simpl.
    destruct (IH (ix + 1) (dim_add_summary cx pos (summary cx x)) a1 _ Ha1)
      as (k & a' & Hk & -> & Ha' & Hpass & Hstop); [rewrite length_app; simpl; lia|].
    exists (Datatypes.S k), a'. rewrite <- app_assoc in Ha'. simpl in *.
    replace (ix + Datatypes.S k) with (ix + 1 + k) by lia. split_and!; try done; [lia| |].
    + right. destruct Hpass as [->|Hpass]; [simpl; done|done].
    + intros. apply Hstop. lia.
  - exists 0, a. simpl. rewrite Nat.add_0_r, app_nil_r. split_and!; auto. lia.
Qed.

Section Loop.
Variables (root : tree T S) (H i0 : nat) (l0 : list T).
Hypothesis Hroot : wf_node cx H root.
Hypothesis Hheight : H < STACK_CAPACITY.

Let L := to_list root.

(** The loop has reached index [j], having passed everything since [i0]. *)
Definition seek_inv (j : nat) (pos : D) (a : A) : Prop :=
  i0 <= j <= length L /\ pos = position_at cx L j /\
  (j = i0 \/ passes cx target bias pos = true) /\
  agg_rep cx a (l0 ++ drop i0 (take j L)) [].

(** The loop has stopped. *)
Definition landed (r : list (StackEntry T S D) * D * A) : Prop :=
  exists i, seek_inv i r.1.2 r.2 /\
    (i < length L -> passes cx target bias (position_at cx L (Datatypes.S i)) = false) /\
    ((i < length L /\ at_leaf cx root r.1.1 i) \/ (i = length L /\ r.1.1 = [])).

Lemma seek_inv_advance j pos a xs rest pos' a' :
  seek_inv j pos a -> drop j L = xs ++ rest -> pos' = dim_items cx pos xs ->
  (xs = [] \/ passes cx target bias pos' = true) ->
  agg_rep cx a' ((l0 ++ drop i0 (take j L)) ++ xs) [] ->
  seek_inv (j + length xs) pos' a'.
Proof.
  intros ([Hle1 Hle2] & -> & Hp & Ha) Hd -> Hxs Ha'.
  assert (Hlen : length L = j + length xs + length rest).
  { apply (f_equal length) in Hd. rewrite length_drop, length_app in Hd. lia. }
  assert (Ht : take (j + length xs) L = take j L ++ xs).
  { rewrite <- (take_drop j L) at 1. rewrite Hd. rewrite <- (length_take_le L j) at 1 by lia.
    by rewrite take_app_add, take_app_length. }
  split_and!; [lia|lia|..].
  - unfold position_at. by rewrite Ht, dim_items_app.
  - destruct Hxs as [->|Hxs]; [|by right]. simpl. rewrite Nat.add_0_r. done.
  - rewrite Ht, drop_app_le by (rewrite length_take_le; lia). by rewrite app_assoc.
Qed.

Lemma frames_drop st t pre post :
  frames cx root st t pre post -> drop (length pre) L = to_list t ++ post.
Proof. intros Hf. unfold L. by rewrite (frames_items cx _ _ _ _ _ Hf), drop_app_length. Qed.

Lemma seek_inv_position j pos a : seek_inv j pos a -> pos = position_at cx L j.
Proof. by intros (_ & ? & _). Qed.

Lemma frames_position st t pre post pos a :
  frames cx root st t pre post -> seek_inv (length pre) pos a -> pos = dim_items cx (dim_zero cx) pre.
Proof.
  intros Hf Hi. rewrite (seek_inv_position _ _ _ Hi). unfold position_at, L.
  by rewrite (frames_items cx _ _ _ _ _ Hf), take_app_length.
Qed.

(** Stopping inside a leaf. *)
Lemma landed_leaf st l pre post ix epos pos a k a' :
  frames cx root st (leaf_of cx l) pre post -> ix < length l ->
  seek_inv (length pre + ix) pos a -> k < length (drop ix l) ->
  (k = 0 \/ passes cx target bias (dim_items cx pos (take k (drop ix l))) = true) ->
  passes cx target bias (dim_items cx pos (take (Datatypes.S k) (drop ix l))) = false ->
  agg_rep cx a' ((l0 ++ drop i0 (take (length pre + ix) L)) ++ take k (drop ix l)) [] ->
  landed (mkEntry (leaf_of cx l) (ix + k) epos :: st, dim_items cx pos (take k (drop ix l)), a').
Proof.
  intros Hf Hix Hinv Hk Hp Hstop Ha'. rewrite length_drop in Hk.
  assert (Hd : drop (length pre + ix) L = take k (drop ix l) ++ drop k (drop ix l) ++ post).
  { rewrite <- drop_drop, (frames_drop _ _ _ _ Hf). simpl.
    rewrite drop_app_le by lia. by rewrite app_assoc, take_drop. }
  exists (length pre + ix + k). simpl.
  assert (Hlen : length (take k (drop ix l)) = k) by (rewrite length_take_le; rewrite ?length_drop; lia).
  split_and!.
  - rewrite <- Hlen at 1. eapply seek_inv_advance; eauto.
    destruct Hp as [->|]; [left; done|by right].
  - intros _. rewrite <- Hstop. f_equal.
    replace (Datatypes.S (length pre + ix + k)) with (length pre + ix + Datatypes.S k) by lia.
    rewrite position_at_add, <- (seek_inv_position _ _ _ Hinv), Hd. f_equal.
    rewrite app_assoc, take_drop. rewrite take_app_le; [done|rewrite length_drop; lia].
  - left. assert (Hal : at_leaf cx root (mkEntry (leaf_of cx l) (ix + k) epos :: st) (length pre + ix + k)).
    { exists (ix + k), epos, st, pre, post, l. split_and!; [done|done|lia|lia]. }
    split; [by eapply at_leaf_bound|done].
Qed.

(** One iteration on a leaf. *)
Lemma seek_leaf_step st l pre post ix epos pos a fuel :
  frames cx root st (leaf_of cx l) pre post -> ix < length l ->
  seek_inv (length pre + ix) pos a ->
  exists k a', k <= length (drop ix l) /\
    seek_loop cx target bias (Datatypes.S fuel) (mkEntry (leaf_of cx l) ix epos :: st) pos false a =
      (if k <? length (drop ix l)
       then Ok (mkEntry (leaf_of cx l) (ix + k) epos :: st, dim_items cx pos (take k (drop ix l)), a')
       else seek_loop cx target bias fuel st (dim_items cx pos (take k (drop ix l))) true a') /\
    (k = 0 \/ passes cx target bias (dim_items cx pos (take k (drop ix l))) = true) /\
    (k < length (drop ix l) -> landed
       (mkEntry (leaf_of cx l) (ix + k) epos :: st, dim_items cx pos (take k (drop ix l)), a')) /\
    agg_rep cx a' ((l0 ++ drop i0 (take (length pre + ix) L)) ++ take k (drop ix l)) [].
Proof.
  intros Hf Hix Hinv. destruct (frames_wf cx _ _ _ _ _ _ Hroot Hf) as (h & Hh & _).
  apply leaf_of_wf_inv in Hh as (_ & _ & Hmax).
  pose proof Hinv as (_ & _ & _ & Ha). apply begin_leaf_ok in Ha.
  destruct (seek_items_ok (drop ix l) ix pos _ _ [] Ha) as (k & a1 & Hk & E & Ha1 & Hp & Hstop).
  { simpl. rewrite length_drop. lia. }
  destruct (end_leaf_ok _ _ _ _ Ha1) as (a' & Ea & Ha'). simpl in Ha'.
  exists k, a'. split; [done|]. split.
  { cbn [seek_loop se_tree leaf_of se_index se_position].
    rewrite !slice_from_Ok by (rewrite ?length_map; lia). cbn [obind].
    rewrite skipn_map, E. cbn [obind]. rewrite Ea. cbn [obind].
    by destruct (k <? length (drop ix l)). }
  split; [done|]. split; [|done]. intros Hlt. eapply landed_leaf; eauto.
Qed.

(** One iteration on an internal node whose children from [ix] on remain. *)
Lemma seek_node_step st h (cts : list (tree T S)) pre post ix pos a fuel
    (entry : StackEntry T S D) (ascending : bool) :
  frames cx root st (node_of cx h cts) pre post -> ix <= length cts ->
  seek_inv (length pre + length (flat_map to_list (take ix cts))) pos a ->
  se_tree entry = node_of cx h cts ->
  (if ascending then se_index entry + 1 else se_index entry) = ix ->
  (ascending = false -> se_position entry = pos) ->
  exists k pos' a', k <= length (drop ix cts) /\
    seek_inv (length pre + length (flat_map to_list (take (ix + k) cts))) pos' a' /\
    (forall t, cts !! (ix + k) = Some t -> passes cx target bias (dim_items cx pos' (to_list t)) = false) /\
    seek_loop cx target bias (Datatypes.S fuel) (entry :: st) pos ascending a =
      match cts !! (ix + k) with
      | Some t =>
          let! stack := stack_push (mkEntry (node_of cx h cts) (ix + k) pos' :: st) (mkEntry t 0 pos') in
          seek_loop cx target bias fuel stack pos' false a'
      | None => seek_loop cx target bias fuel st pos' true a'
      end.
Proof.
  intros Hf Hix Hinv Et Ei Ep. destruct (frames_parent cx _ _ _ _ _ _ _ Hroot Hf) as (k0 & -> & Hwf & Hne & _).
  pose proof Hinv as (_ & _ & _ & Ha).
  assert (Hwfd : Forall (wf_node cx k0) (drop ix cts)) by (by apply Forall_drop).
  destruct (seek_trees_ok k0 _ ix pos a _ Hwfd Ha) as (k & a' & Hk & E & Ha' & Hp & Hstop).
  exists k, (dim_items cx pos (flat_map to_list (take k (drop ix cts)))), a'.
  assert (Htk : flat_map to_list (take (ix + k) cts) =
    flat_map to_list (take ix cts) ++ flat_map to_list (take k (drop ix cts))).
  { by rewrite <- take_take_drop, flat_map_app. }
  split_and!; [done| |..].
  - rewrite Htk, length_app, Nat.add_assoc.
    assert (Hd : drop (length pre + length (flat_map to_list (take ix cts))) L =
      flat_map to_list (take k (drop ix cts)) ++ flat_map to_list (drop k (drop ix cts)) ++ post).
    { rewrite <- drop_drop, (frames_drop _ _ _ _ Hf). cbn [to_list node_of].
      rewrite <- (take_drop ix cts) at 2. rewrite flat_map_app, <- app_assoc, drop_app_length.
      by rewrite app_assoc, <- flat_map_app, take_drop. }
    eapply seek_inv_advance; [exact Hinv|exact Hd|done| |done].
    destruct Hp as [->|]; [by left|by right].
  - intros t Ht. rewrite <- lookup_drop in Ht. rewrite <- dim_items_app. by apply Hstop.
  - cbn [seek_loop]. rewrite Et. cbn [node_of].
    assert (Hpair : (if ascending then (se_index entry + 1, pos) else (se_index entry, se_position entry))
                    = (ix, pos)) by (destruct ascending; [congruence|rewrite Ep by done; congruence]).
    rewrite Hpair. rewrite !slice_from_Ok by (rewrite ?length_map; done). cbn [obind].
    rewrite skipn_map, E. cbn [obind]. rewrite lookup_drop. done.
Qed.

(** The frames of the child that the loop descends into. *)
Lemma frames_child st h (cts : list (tree T S)) pre post ix t pos a :
  frames cx root st (node_of cx h cts) pre post -> cts !! ix = Some t ->
  seek_inv (length pre + length (flat_map to_list (take ix cts))) pos a ->
  frames cx root (mkEntry (node_of cx h cts) ix pos :: st) t
    (pre ++ flat_map to_list (take ix cts)) (flat_map to_list (drop (Datatypes.S ix) cts) ++ post).
Proof.
  intros Hf Ht Hinv. rewrite <- length_app in Hinv.
  pose proof (frames_down cx root st h cts ix t pre post Hf Ht) as Hd.
  by rewrite <- (frames_position _ _ _ _ _ _ Hd Hinv) in Hd.
Qed.

(** Descending into a subtree whose end is not passed stops within it. *)
Lemma seek_descend h t :
  wf_node cx h t -> forall st pre post pos a fuel,
  frames cx root st t pre post -> seek_inv (length pre) pos a ->
  passes cx target bias (dim_items cx pos (to_list t)) = false -> h + 1 <= fuel ->
  exists r, seek_loop cx target bias fuel (mkEntry t 0 pos :: st) pos false a = Ok r /\ landed r.
Proof.
  revert h t. refine (wf_node_rect cx _ _ _).
  - intros l Hne _ st pre post pos a fuel Hf Hinv Hp Hfuel.
    destruct fuel as [|fuel]; [lia|]. rewrite <- (Nat.add_0_r (length pre)) in Hinv.
    destruct (seek_leaf_step st l pre post 0 pos pos a fuel Hf) as (k & a' & Hk & E & Hp' & Hl & _);
      [by destruct l; [|simpl; lia]|done|].
    fold (leaf_of cx l). rewrite E. rewrite drop_0 in *. case_nat; [eauto|].
    exfalso. rewrite (take_ge l) in Hp' by lia. simpl in Hp.
    destruct Hp' as [->|Hp']; [by destruct l; [|simpl in *; lia]|congruence].
  - intros h cts Hne _ Hwf IH st pre post pos a fuel Hf Hinv Hp Hfuel.
    destruct fuel as [|fuel]; [lia|]. fold (node_of cx (Datatypes.S h) cts) in Hf |- *.
    rewrite <- (Nat.add_0_r (length pre)) in Hinv.
    destruct (seek_node_step st (Datatypes.S h) cts pre post 0 pos a fuel
      (mkEntry (node_of cx (Datatypes.S h) cts) 0 pos) false Hf) as (k & pos' & a' & Hk & Hinv' & Hstop & E);
      [lia|done|done|done|done|].
    rewrite E. clear E. simpl in Hinv', Hstop |- *.
    destruct (cts !! k) as [t|] eqn:Ht.
    + destruct (frames_parent cx _ _ _ _ _ _ _ Hroot Hf) as (_ & _ & _ & _ & Hdepth).
      rewrite stack_push_Ok by (simpl; lia). cbn [obind].
      pose proof (frames_child _ _ _ _ _ _ _ _ _ Hf Ht Hinv') as Hf'.
      rewrite <- length_app in Hinv'.
      eapply (Forall_lookup_1 _ _ _ _ IH Ht); eauto. lia.
    + exfalso. apply lookup_ge_None in Ht. rewrite drop_0 in Hk.
      assert (k = length cts) as -> by lia. rewrite firstn_all in Hinv'.
      destruct Hinv' as (_ & Hpos' & Hor & _). destruct Hor as [Hor|Hor].
      * destruct Hinv as ([Hge _] & _). assert (length (flat_map to_list cts) = 0) as Hz by lia.
        apply nil_length_inv in Hz.
        destruct Hwf as [|c cts Hc _]; [done|]. pose proof (wf_node_nonempty cx _ _ Hc).
        simpl in Hz. by destruct (to_list c).
      * cut (pos' = dim_items cx pos (flat_map to_list cts)); [intros ->; simpl in Hp; congruence|].
        rewrite Hpos'. rewrite Nat.add_0_r in Hinv.
        rewrite position_at_add, <- (seek_inv_position _ _ _ Hinv), (frames_drop _ _ _ _ Hf).
        simpl. by rewrite take_app_length.
Qed.

(** After a finished subtree the loop continues with its right siblings. *)
Lemma seek_ascend st t pre post :
  frames cx root st t pre post -> forall pos a fuel,
  seek_inv (length pre + length (to_list t)) pos a -> length st + H + 1 <= fuel ->
  exists r, seek_loop cx target bias fuel st pos true a = Ok r /\ landed r.
Proof.
  induction 1 as [|st h cts ix t pre post Hf IH Ht]; intros pos a fuel Hinv Hfuel.
  { exists ([], pos, a). split; [by destruct fuel|]. exists (length L). simpl in *.
    split_and!; [done|lia|by right]. }
  destruct fuel as [|fuel]; [simpl in Hfuel; lia|]. simpl in Hfuel.
  assert (Hlt : ix < length cts) by (by apply lookup_lt_Some in Ht).
  rewrite length_app, <- Nat.add_assoc, <- length_app in Hinv.
  assert (Htk : flat_map to_list (take (ix + 1) cts) = flat_map to_list (take ix cts) ++ to_list t).
  { rewrite Nat.add_1_r, (take_S_r _ _ _ Ht), flat_map_app. simpl. by rewrite app_nil_r. }
  rewrite <- Htk in Hinv.
  match goal with |- context [seek_loop _ _ _ _ (?e :: st)] =>
    destruct (seek_node_step st h cts pre post (ix + 1) pos a fuel e true Hf)
      as (k & pos' & a' & Hk & Hinv' & Hstop & E); [lia|done|reflexivity|reflexivity|done|]
  end.
  rewrite E. clear E. destruct (frames_parent cx _ _ _ _ _ _ _ Hroot Hf) as (h' & -> & Hwf & _ & Hdepth).
  destruct (cts !! (ix + 1 + k)) as [t'|] eqn:Ht'.
  - rewrite stack_push_Ok by (simpl; lia). cbn [obind].
    pose proof (frames_child _ _ _ _ _ _ _ _ _ Hf Ht' Hinv') as Hf'. rewrite <- length_app in Hinv'.
    eapply (seek_descend h' t' (Forall_lookup_1 _ _ _ _ Hwf Ht')); eauto. lia.
  - apply lookup_ge_None in Ht'. rewrite (take_ge cts) in Hinv' by lia. apply IH; [done|lia].
Qed.

(** Seeking on from an item. *)
Lemma seek_from_leaf stack i pos a fuel :
  at_leaf cx root stack i -> seek_inv i pos a -> length stack + H + 2 <= fuel ->
  exists r, seek_loop cx target bias fuel stack pos false a = Ok r /\ landed r.
Proof.
  intros (ix & epos & st & pre & post & l & -> & Hf & Hix & ->) Hinv Hfuel.
  destruct fuel as [|fuel]; [lia|]. simpl in Hfuel.
  destruct (seek_leaf_step st l pre post ix epos pos a fuel Hf Hix Hinv)
    as (k & a' & Hk & -> & Hp & Hl & Ha').
  case_nat; [eauto|]. rewrite (take_ge (drop ix l)) in * by lia.
  eapply seek_ascend; [exact Hf| |lia]. simpl.
  replace (length pre + length l) with (length pre + ix + length (drop ix l)) by (rewrite length_drop; lia).
  eapply (seek_inv_advance _ _ _ _ post); [exact Hinv| |done| |done].
  - rewrite <- drop_drop, (frames_drop _ _ _ _ Hf). simpl. rewrite drop_app_le by lia. done.
  - destruct Hp as [->|]; [|by right]. left. apply nil_length_inv. lia.
Qed.

(** Seeking from the root of a fresh cursor. *)
Lemma seek_from_root pos a fuel :
  seek_inv 0 pos a -> 2 * H + 3 <= fuel ->
  exists r, seek_loop cx target bias fuel [mkEntry root 0 pos] pos false a = Ok r /\ landed r.
Proof.
  intros Hinv Hfuel. pose proof (frames_root cx (D := D) root) as Hf.
  inversion Hroot as [l Hne Hlen E1 E2|h cts Hne Hlen Hwf E1 E2].
  - fold (leaf_of cx l) in E2 |- *. eapply seek_from_leaf; [|exact Hinv|simpl; lia].
    exists 0, pos, [], [], [], l. rewrite E2.
    split_and!; [done|exact Hf|by destruct l; [|simpl; lia]|done].
  - fold (node_of cx (Datatypes.S h) cts) in E2 |- *. rewrite E2. destruct fuel as [|fuel]; [lia|].
    assert (Hf0 : frames cx root [] (node_of cx (Datatypes.S h) cts) [] [])
      by (rewrite E2; exact Hf).
    destruct (seek_node_step [] _ _ _ _ 0 pos a fuel
      (mkEntry root 0 pos) false Hf0)
      as (k & pos' & a' & Hk & Hinv' & Hstop & E); [lia|done|done|done|done|].
    rewrite E. clear E. simpl in Hinv', Hstop, Hk |- *. destruct (cts !! k) as [t|] eqn:Ht.
    + pose proof (frames_child _ _ _ _ _ _ _ _ _ Hf0 Ht Hinv') as Hf'.
      eapply (seek_descend h t (Forall_lookup_1 _ _ _ _ Hwf Ht)); eauto. lia.
    + apply lookup_ge_None in Ht. rewrite (take_ge cts) in Hinv' by lia.
      exists ([], pos', a'). split; [by destruct fuel|]. exists (length L).
      assert (EL : length (flat_map to_list cts) = length L) by (unfold L; by rewrite <- E2).
      rewrite EL in Hinv'. simpl. split_and!; [done|lia|by right].
Qed.
End Loop.

(** A cursor that a seek can start from: fresh, or at item [i]. *)
Definition cursor_ready (t : tree T S) (c : Cursor T S D) (i : nat) : Prop :=
  cursor_at cx t c i \/ (i = 0 /\ c = cursor_new cx t).

(** The test that decides the result of [seek_internal]. *)
Definition found_at (l : list T) (i : nat) : bool :=
  match target_cmp cx target (position_at cx l (match bias with Left => Datatypes.S i | Right => i end)) with
  | Eq => true
  | _ => false
  end.

Lemma landed_cursor t H i0 l0 r :
  wf_node cx H t -> landed t i0 l0 r ->
  exists i, cursor_at cx t (mkCursor t r.1.1 r.1.2 true
                              (match r.1.1 with [] => true | _ :: _ => false end)) i /\
    lands (to_list t) i0 i /\ agg_rep cx r.2 (l0 ++ drop i0 (take i (to_list t))) [].
Proof.
  intros Hw (i & (Hle & Hpos & Hp & Ha) & Hstop & Hshape). exists i. split_and!; [| |done].
  - split_and!; [done|done|done|]. destruct Hshape as [(Hi & Hleaf)|(Hi & Hs)].
    + left. split_and!; [done|done|]. destruct Hleaf as (? & ? & ? & ? & ? & ? & -> & _). done.
    + right. simpl. rewrite Hs. done.
  - split_and!; [lia|lia| |done]. destruct Hp; [by left|right; by rewrite <- Hpos].
Qed.

Lemma seek_internal_found t c i :
  cursor_at cx t c i ->
  (let! end_position :=
     (match bias with
      | Left =>
          let! o := item_summary c in
          match o with
          | Some s => Ok (dim_add_summary cx (c_position c) s)
          | None => Ok (c_position c)
          end
      | Right => Ok (c_position c)
      end) in
   Ok (match target_cmp cx target end_position with Eq => true | _ => false end))
  = Ok (found_at (to_list t) i).
Proof.
  intros Hc. unfold found_at. destruct bias.
  - pose proof (cursor_at_end cx _ _ _ Hc) as He. unfold cursor_end, start in He.
    destruct (item_summary c) as [[s|]| |]; simpl in *; by inversion He.
  - simpl. by rewrite (cursor_at_start cx _ _ _ Hc : c_position c = _).
Qed.

(** The loop of [seek_internal] from any cursor it may start from. *)
Lemma seek_loop_ready t c i0 a l0 :
  wf_tree cx t -> node_height t < STACK_CAPACITY -> cursor_ready t c i0 -> agg_rep cx a l0 [] ->
  c_position c = position_at cx (to_list t) i0 -> c_tree c = t ->
  exists r i,
    (let! stack := (if did_seek c then Ok (c_stack c)
                    else stack_push (c_stack c) (mkEntry (c_tree c) 0 (dim_zero cx))) in
     seek_loop cx target bias (cursor_fuel c) stack (c_position c) false a) = Ok r /\
    cursor_at cx t (mkCursor t r.1.1 r.1.2 true
                      (match r.1.1 with [] => true | _ :: _ => false end)) i /\
    lands (to_list t) i0 i /\ agg_rep cx r.2 (l0 ++ drop i0 (take i (to_list t))) [].
Proof.
  intros Hwt Hh Hready Ha Hpos Htree.
  assert (Hinv : i0 <= length (to_list t) -> seek_inv t i0 l0 i0 (c_position c) a).
  { intros Hle. split_and!; [lia|done|done|by left|].
    by rewrite drop_ge, app_nil_r by (rewrite length_take_le; lia). }
  assert (Hend : i0 = length (to_list t) -> lands (to_list t) i0 i0 /\
    agg_rep cx a (l0 ++ drop i0 (take i0 (to_list t))) []).
  { intros ->. split; [split_and!; [lia|lia|by left|lia]|].
    by rewrite drop_ge, app_nil_r by (rewrite length_take_le; lia). }
  destruct Hready as [Hc|[-> ->]].
  - pose proof (cursor_at_bound cx _ _ _ Hc) as Hb.
    pose proof Hc as (_ & Hd & _ & Hcase). rewrite Hd. cbn [obind].
    destruct Hcase as [(Hi & Hleaf & _)|(Hi & Hs & He)].
    + destruct Hwt as [[s ->]|[H Hw]]; [simpl in Hi; lia|].
      rewrite (wf_node_height cx _ _ Hw) in Hh. pose proof (node_count_height cx _ _ Hw) as Hn.
      destruct (seek_from_leaf t H i0 l0 Hw Hh (c_stack c) i0 (c_position c) a (cursor_fuel c) Hleaf (Hinv Hb))
        as (r & -> & Hr); [unfold cursor_fuel; rewrite Htree; lia|].
      destruct (landed_cursor _ _ _ _ _ Hw Hr) as (i & ? & ? & ?). eauto 10.
    + exists ([], c_position c, a), i0. rewrite Hs. split; [by destruct (cursor_fuel c)|].
      split; [|by apply Hend]. split_and!; [done|done|done|by right].
  - cbn [did_seek cursor_new c_stack c_tree c_position].
    rewrite stack_push_Ok by (simpl; unfold STACK_CAPACITY; lia). cbn [obind].
    destruct Hwt as [[s ->]|[H Hw]].
    + pose proof (begin_leaf_ok _ _ _ Ha) as Hb.
      destruct (end_leaf_ok _ _ _ _ Hb) as (a' & Ea & Ha'). rewrite app_nil_r in Ha'.
      exists ([], dim_zero cx, a'), 0. simpl. rewrite Ea. simpl. rewrite app_nil_r.
      split; [done|]. split; [split_and!; [done|done|done|by right]|].
      split; [|done]. split_and!; [simpl; lia|simpl; lia|by left|simpl; lia].
    + rewrite (wf_node_height cx _ _ Hw) in Hh. pose proof (node_count_height cx _ _ Hw) as Hn.
      destruct (seek_from_root t H 0 l0 Hw Hh (dim_zero cx) a (cursor_fuel (cursor_new cx t)))
        as (r & -> & Hr); [apply Hinv; lia|unfold cursor_fuel; simpl; lia|].
      destruct (landed_cursor _ _ _ _ _ Hw Hr) as (i & ? & ? & ?). eauto 10.
Qed.

(** [seek_internal] from any cursor it may start from. *)
Lemma seek_internal_ok t c i0 a l0 :
  wf_tree cx t -> node_height t < STACK_CAPACITY -> cursor_ready t c i0 ->
  agg_rep cx a l0 [] ->
  ordering_is_ge (target_cmp cx target (position_at cx (to_list t) i0)) = true ->
  exists c' a' i, seek_internal cx target bias c a = Ok (c', a', found_at (to_list t) i) /\
    cursor_at cx t c' i /\ lands (to_list t) i0 i /\
    agg_rep cx a' (l0 ++ drop i0 (take i (to_list t))) [].
Proof.
  intros Hwt Hh Hready Ha Hge.
  assert (Hpos : c_position c = position_at cx (to_list t) i0 /\ c_tree c = t).
  { destruct Hready as [(? & ? & ? & _)|[-> ->]]; [done|]. by destruct (to_list t). }
  destruct Hpos as [Hpos Htree].
  destruct (seek_loop_ready t c i0 a l0) as ([[stk pos] a'] & i & Hl & Hc & Hlands & Ha'); [done..|].
  simpl in Hc, Ha'.
  pose proof (seek_internal_found _ _ _ Hc) as Hf.
  unfold seek_internal. rewrite Hpos, Hge. rewrite Hpos in Hl.
  destruct (if did_seek c then _ else _) as [stack| |]; [|done..]. cbn [obind] in Hl |- *.
  rewrite Hl. cbn [obind]. rewrite Htree. cbn [c_position] in Hf.
  eexists _, a', i. split; [|split; [exact Hc|done]].
  destruct (match bias with Left => _ | Right => _ end) as [e| |]; [|done..]. cbn [obind] in Hf |- *.
  by inversion Hf.
Qed.
End Seek.

(** ** The public operations *)

Section Public.
Context {Cx T S D : Type}.
Context `{!Summary Cx S, !SummaryLaws Cx S, !Item Cx T S, !Dimension Cx S D, !DimensionLaws Cx S D}.
Context {Target : Type} `{!SeekTarget Cx D Target}.
Variable cx : Cx.
Implicit Types (t : tree T S) (c : Cursor T S D).

Lemma seek_ok t c (target : Target) bias :
  wf_tree cx t -> node_height t < STACK_CAPACITY -> c_tree c = t ->
  ordering_is_ge (target_cmp cx target (dim_zero cx)) = true ->
  exists c' i, seek cx c target bias = Ok (c', found_at cx target bias (to_list t) i) /\
    cursor_at cx t c' i /\ lands cx target bias (to_list t) 0 i.
Proof.
  intros Hw Hh Hc Hge. destruct (seek_internal_ok cx target bias t (reset cx c) 0 tt [])
    as (c' & a' & i & E & Hat & Hl & _); try done.
  - right. split; [done|]. unfold reset, cursor_new. by rewrite Hc.
  - exists c', i. unfold seek. rewrite E. done.
Qed.

Lemma slice_summarized_ok t c i0 (target : Target) bias :
  wf_tree cx t -> node_height t < STACK_CAPACITY -> cursor_ready cx t c i0 ->
  ordering_is_ge (target_cmp cx target (position_at cx (to_list t) i0)) = true ->
  exists c' t' i, slice cx c target bias = Ok (c', t') /\ cursor_at cx t c' i /\
    lands cx target bias (to_list t) i0 i /\ summarized cx t' /\
    to_list t' = drop i0 (take i (to_list t)).
Proof.
  intros Hw Hh Hc Hge.
  destruct (seek_internal_ok cx target bias t c i0 (mkSlice (new cx) [] [] (zero cx)) [])
    as (c' & a' & i & E & Hat & Hl & Ha); try done.
  - split_and!; [apply summarized_new|done..|simpl; lia].
  - exists c', (sl_tree a'), i. unfold slice. rewrite E. destruct Ha as (? & ? & _). done.
Qed.

Lemma slice_ok t c i0 (target : Target) bias :
  wf_tree cx t -> node_height t < STACK_CAPACITY -> cursor_ready cx t c i0 ->
  ordering_is_ge (target_cmp cx target (position_at cx (to_list t) i0)) = true ->
  exists c' t' i, slice cx c target bias = Ok (c', t') /\ cursor_at cx t c' i /\
    lands cx target bias (to_list t) i0 i /\ wf_tree cx t' /\
    to_list t' = drop i0 (take i (to_list t)).
Proof.
  intros Hw Hh Hc Hge.
  destruct (slice_summarized_ok t c i0 target bias Hw Hh Hc Hge) as (c' & t' & i & ? & ? & ? & [? _] & ?).
  by exists c', t', i.
Qed.

Lemma suffix_summarized_ok t c i0 :
  wf_tree cx t -> node_height t < STACK_CAPACITY -> cursor_ready cx t c i0 ->
  exists c' t', suffix cx c = Ok (c', t') /\ cursor_at cx t c' (length (to_list t)) /\
    summarized cx t' /\ to_list t' = drop i0 (to_list t).
Proof.
  intros Hw Hh Hc.
  destruct (seek_internal_ok cx mkEnd Right t c i0 (mkSlice (new cx) [] [] (zero cx)) [])
    as (c' & a' & i & E & Hat & (Hle & _ & Hstop) & Ha); try done.
  - split_and!; [apply summarized_new|done..|simpl; lia].
  - assert (i = length (to_list t)) as ->.
    { destruct (decide (i < length (to_list t))) as [Hlt|]; [by specialize (Hstop Hlt)|lia]. }
    exists c', (sl_tree a'). unfold suffix, slice. rewrite E. destruct Ha as (? & Hi & _).
    rewrite firstn_all in Hi. done.
Qed.

Lemma suffix_ok t c i0 :
  wf_tree cx t -> node_height t < STACK_CAPACITY -> cursor_ready cx t c i0 ->
  exists c' t', suffix cx c = Ok (c', t') /\ cursor_at cx t c' (length (to_list t)) /\
    wf_tree cx t' /\ to_list t' = drop i0 (to_list t).
Proof.
  intros Hw Hh Hc. destruct (suffix_summarized_ok t c i0 Hw Hh Hc) as (c' & t' & ? & ? & [? _] & ?).
  by exists c', t'.
Qed.

(** C2: [seek] agrees with a linear scan: on a well-formed tree of height below 16, from any
    state of the cursor, to a target that does not lie before the zero position (where the
    code asserts) and that, once it does not pass the end of an item, passes none of a later
    one, it never panics and lands on the first item whose end the target does not pass (in
    the order of the seek bias), at the position of that item; the result tells whether the
    target is at the position. *)
Theorem seek_correct t c (target : Target) bias :
  wf_tree cx t -> node_height t < STACK_CAPACITY -> c_tree c = t ->
  ordering_is_ge (target_cmp cx target (dim_zero cx)) = true ->
  monotone_target cx target bias (to_list t) ->
  exists c', seek cx c target bias =
      Ok (c', found_at cx target bias (to_list t) (scan cx target bias (dim_zero cx) (to_list t))) /\
    cursor_at cx t c' (scan cx target bias (dim_zero cx) (to_list t)).
Proof.
  intros Hw Hh Hc Hge Hm. destruct (seek_ok t c target bias Hw Hh Hc Hge) as (c' & i & E & Hat & Hl).
  apply lands_scan in Hl; [|done]. simpl in Hl. unfold position_at in Hl. simpl in Hl. subst i. eauto.
Qed.

(** [slice] returns, as a well-formed tree, exactly the items between the
    cursor and the place where the cursor lands, and [suffix] the items that
    remain: slicing up to a target and then taking the suffix partitions the
    remaining items. *)
Theorem slice_suffix_correct t c i0 (target : Target) bias :
  wf_tree cx t -> node_height t < STACK_CAPACITY -> cursor_ready cx t c i0 ->
  ordering_is_ge (target_cmp cx target (position_at cx (to_list t) i0)) = true ->
  exists c1 t1 c2 t2 i, slice cx c target bias = Ok (c1, t1) /\ suffix cx c1 = Ok (c2, t2) /\
    cursor_at cx t c1 i /\ lands cx target bias (to_list t) i0 i /\
    cursor_at cx t c2 (length (to_list t)) /\ wf_tree cx t1 /\ wf_tree cx t2 /\
    to_list t1 = drop i0 (take i (to_list t)) /\ to_list t2 = drop i (to_list t) /\
    to_list t1 ++ to_list t2 = drop i0 (to_list t).
Proof.
  intros Hw Hh Hc Hge.
  destruct (slice_ok t c i0 target bias Hw Hh Hc Hge) as (c1 & t1 & i & E1 & Hat1 & Hl & Hw1 & Hi1).
  destruct (suffix_ok t c1 i Hw Hh (or_introl Hat1)) as (c2 & t2 & E2 & Hat2 & Hw2 & Hi2).
  exists c1, t1, c2, t2, i. split_and!; try done; try apply Hl. rewrite Hi1, Hi2.
  destruct Hl as ([Hle Hle'] & _). rewrite <- (take_drop i (to_list t)) at 3.
  rewrite drop_app_le; [done|rewrite length_take_le; lia].
Qed.

(** [Cursor::summary] over a range is the dimension of the items that [slice]
    returns for the same range, and both move the cursor to the same place. *)
Theorem summary_agrees_with_slice {O} `{!Dimension Cx S O, !DimensionLaws Cx S O}
    t c i0 (target : Target) bias :
  wf_tree cx t -> node_height t < STACK_CAPACITY -> cursor_ready cx t c i0 ->
  monotone_target cx target bias (to_list t) ->
  ordering_is_ge (target_cmp cx target (position_at cx (to_list t) i0)) = true ->
  exists c1 t' c2 i, slice cx c target bias = Ok (c1, t') /\
    cursor_summary cx c target bias = Ok (c2, dim_items cx (dim_zero cx : O) (to_list t')) /\
    i = i0 + scan cx target bias (position_at cx (to_list t) i0) (drop i0 (to_list t)) /\
    cursor_at cx t c1 i /\ cursor_at cx t c2 i.
Proof.
  intros Hw Hh Hc Hm Hge.
  destruct (slice_ok t c i0 target bias Hw Hh Hc Hge) as (c1 & t1 & i & E1 & Hat1 & Hl & Hw1 & Hi1).
  destruct (seek_internal_ok cx target bias t c i0 (mkSummaryAgg (dim_zero cx : O)) [])
    as (c2 & a' & i' & E2 & Hat2 & Hl' & Ha); try done.
  apply lands_scan in Hl; [|done]. apply lands_scan in Hl'; [|done].
  exists c1, t1, c2, i. split_and!; try done.
  - unfold cursor_summary. rewrite E2. cbn [obind]. simpl in Ha.
    rewrite Ha, app_nil_r, Hi1, Hl, Hl'. done.
  - by rewrite Hl, <- Hl'.
Qed.

(** A seek to a target before the current position panics (the assertion
    "cannot seek backward"), and nothing else does: [seek_forward] returns exactly
    when the target is not before the cursor. *)
Theorem seek_forward_panics_iff_backward t c i0 (target : Target) bias :
  wf_tree cx t -> node_height t < STACK_CAPACITY -> cursor_ready cx t c i0 ->
  (seek_forward cx c target bias = Panic <->
     target_cmp cx target (position_at cx (to_list t) i0) = Lt) /\
  (target_cmp cx target (position_at cx (to_list t) i0) <> Lt ->
     exists c' i, seek_forward cx c target bias = Ok (c', found_at cx target bias (to_list t) i) /\
       cursor_at cx t c' i /\ lands cx target bias (to_list t) i0 i).
Proof.
  intros Hw Hh Hc.
  assert (Hok : target_cmp cx target (position_at cx (to_list t) i0) <> Lt ->
     exists c' i, seek_forward cx c target bias = Ok (c', found_at cx target bias (to_list t) i) /\
       cursor_at cx t c' i /\ lands cx target bias (to_list t) i0 i).
  { intros Hne. destruct (seek_internal_ok cx target bias t c i0 tt []) as (c' & a' & i & E & Hat & Hl & _);
      try done; [by destruct (target_cmp _ _ _)|].
    exists c', i. unfold seek_forward. rewrite E. done. }
  split; [|done]. split.
  - intros Hp. destruct (target_cmp cx target (position_at cx (to_list t) i0)) eqn:Ec; [|done|];
      (destruct Hok as (c' & i & E & _); [done|]; congruence).
  - intros Hlt. unfold seek_forward, seek_internal.
    assert (c_position c = position_at cx (to_list t) i0) as ->.
    { destruct Hc as [(_ & _ & ? & _)|[-> ->]]; [done|]. by destruct (to_list t). }
    by rewrite Hlt.
Qed.

(** After [prev] has moved a cursor before the first item, [seek_forward] and
    [slice] do not advance over the items the target passes: the cursor jumps to
    the end state with the position still zero, and the slice is empty. *)
Theorem seek_forward_from_before_start t c (target : Target) bias :
  cursor_before cx t c ->
  ordering_is_ge (target_cmp cx target (dim_zero cx)) = true ->
  exists c' found, seek_forward cx c target bias = Ok (c', found) /\
    at_end c' = true /\ item c' = Ok None /\ c_position c' = dim_zero cx /\
    slice cx c target bias = Ok (c', new cx).
Proof.
  intros (Ht & Hd & Hp & Hs & He & _) Hge.
  unfold seek_forward, slice, seek_internal. rewrite Hp, Hge, Hd, Hs. cbn [obind].
  destruct (cursor_fuel c); destruct bias; cbn; eauto 10.
Qed.
End Public.

(** ** Concrete runs *)
Module SeekExamples.
Import Integers.

Lemma count_position l i : i <= length l -> position_at tt l i = i.
Proof.
  unfold position_at. intros Hi.
  assert (Hc : forall (r : list nat) d, dim_items tt d r = d + length r).
  { induction r as [|x r IH]; intros d; [simpl; lia|].
    change (dim_items tt (d + 1) r = d + Datatypes.S (length r)). rewrite IH. lia. }
  rewrite Hc. simpl. rewrite length_take_le; lia.
Qed.

Lemma count_monotone n bias (l : list nat) : monotone_target tt n bias l.
Proof.
  intros i j Hi Hij Hj. rewrite !count_position by lia. unfold passes. simpl.
  destruct (Nat.compare_spec n j), (Nat.compare_spec n i); subst; try done; lia.
Qed.

Lemma seek_correct_witness :
  exists c', seek tt (cursor_new tt sample) 17 Right = Ok (c', true) /\ cursor_at tt sample c' 17.
Proof.
  destruct (seek_correct tt sample (cursor_new tt sample) 17 Right) as (c' & E & Hat);
    [apply sample_wf|vm_compute; lia|reflexivity|reflexivity|apply count_monotone|].
  rewrite sample_items in *. exists c'. split; [exact E|exact Hat].
Defined.

Lemma slice_suffix_correct_witness :
  exists c1 t1 c2 t2 i, slice tt (cursor_new tt sample) 17 Right = Ok (c1, t1) /\
    suffix tt c1 = Ok (c2, t2) /\ cursor_at tt sample c1 i /\
    to_list t1 ++ to_list t2 = seq 0 40.
Proof.
  destruct (slice_suffix_correct tt sample (cursor_new tt sample) 0 17 Right)
    as (c1 & t1 & c2 & t2 & i & H1 & H2 & H3 & _ & _ & _ & _ & _ & _ & H10);
    [apply sample_wf|vm_compute; lia|right; split; reflexivity|reflexivity|].
  exists c1, t1, c2, t2, i. rewrite H10, sample_items. auto.
Defined.

Lemma summary_agrees_with_slice_witness :
  exists c1 t' c2 i, slice tt (cursor_new tt sample) 17 Right = Ok (c1, t') /\
    cursor_summary tt (cursor_new tt sample) 17 Right = Ok (c2, dim_items tt 0 (to_list t')) /\
    cursor_at tt sample c1 i /\ cursor_at tt sample c2 i.
Proof.
  destruct (summary_agrees_with_slice (O := nat) tt sample (cursor_new tt sample) 0 17 Right)
    as (c1 & t' & c2 & i & H1 & H2 & _ & H3 & H4);
    [apply sample_wf|vm_compute; lia|right; split; reflexivity|apply count_monotone|reflexivity|].
  exists c1, t', c2, i. auto.
Defined.

Lemma seek_forward_panics_witness :
  seek_forward tt (cursor_new tt sample) 17 Right <> Panic.
Proof.
  intros E.
  destruct (seek_forward_panics_iff_backward tt sample (cursor_new tt sample) 0 17 Right)
    as [[H _] _]; [apply sample_wf|vm_compute; lia|right; split; reflexivity|].
  specialize (H E). vm_compute in H. discriminate.
Defined.

(** A cursor moved before the first item of the sample tree. *)
Definition before_sample : Cursor nat IntegersSummary nat :=
  mkCursor sample [] 0 true false.

Lemma seek_forward_from_before_start_witness :
  exists c' found, seek_forward tt before_sample 17 Right = Ok (c', found) /\
    at_end c' = true /\ item c' = Ok None /\ c_position c' = 0.
Proof.
  destruct (seek_forward_from_before_start tt sample before_sample 17 Right)
    as (c' & f & H1 & H2 & H3 & H4 & _).
  - repeat split. vm_compute. discriminate.
  - reflexivity.
  - exists c', f. auto.
Defined.
End SeekExamples.
