(* ===== verification/CursorMove.v ===== *)
(** * Moving a cursor: [next], [prev], [search_forward], [search_backward]

    A search moves to the nearest item, forwards or backwards, whose summary the
    filter accepts, provided the filter is sound: it never rejects the summary of
    a run of items that contains an accepted one.  [next] and [prev] are the
    searches that accept everything; [next_item] and [prev_item] read the
    neighbours without moving; [Iter] and [SumTree::items] enumerate the tree. *)

From stdpp Require Import base list option numbers.
From S2P Require Import Prelude SumTree Cursor CursorSeek.

Section Move.
Context {Cx T S D : Type}.
Context `{!Summary Cx S, !SummaryLaws Cx S, !Item Cx T S, !Dimension Cx S D, !DimensionLaws Cx S D}.
Variables (cx : Cx) (p : S -> bool).

(** The filter accepts an item. *)
Definition accepts (x : T) : bool := p (summary cx x).

(** A rejected run of items holds no accepted item. *)
Definition filter_sound : Prop :=
  forall l : list T, l <> [] -> p (items_summary cx l) = false -> Forall (fun x => accepts x = false) l.

(** Distance to the first accepted item. *)
Fixpoint first_match (l : list T) : nat :=
  match l with
  | [] => 0
  | x :: l => if accepts x then 0 else Datatypes.S (first_match l)
  end.

Lemma first_match_split l1 l2 :
  Forall (fun x => accepts x = false) l1 -> first_match (l1 ++ l2) = length l1 + first_match l2.
Proof. induction 1 as [|x l1 Hx _ IH]; [done|]. simpl. by rewrite Hx, IH. Qed.

Section Forward.
Variables (root : tree T S) (H j0 : nat).
Hypothesis Hroot : wf_node cx H root.
Hypothesis Hheight : H < STACK_CAPACITY.
Hypothesis Hsound : filter_sound.

Let L := to_list root.

(** The search has reached index [j], having rejected everything since [j0]. *)
Definition forward_inv (j : nat) (pos : D) : Prop :=
  j0 <= j <= length L /\ pos = position_at cx L j /\
  Forall (fun x => accepts x = false) (drop j0 (take j L)).

(** The search has stopped on an accepted item. *)
Definition forward_found (r : list (StackEntry T S D) * D * bool) : Prop :=
  exists j x, forward_inv j r.1.2 /\ at_leaf cx root r.1.1 j /\ r.2 = true /\
    L !! j = Some x /\ accepts x = true.

Lemma forward_inv_advance j pos xs rest :
  forward_inv j pos -> drop j L = xs ++ rest -> Forall (fun x => accepts x = false) xs ->
  forward_inv (j + length xs) (dim_items cx pos xs).
Proof.
  intros ([Hle1 Hle2] & -> & Hf) Hd Hxs.
  assert (Hlen : length L = j + length xs + length rest).
  { apply (f_equal length) in Hd. rewrite length_drop, length_app in Hd. lia. }
  assert (Ht : take (j + length xs) L = take j L ++ xs).
  { by rewrite <- take_take_drop, Hd, take_app_length. }
  split_and!; [lia|lia|..].
  - unfold position_at. by rewrite Ht, dim_items_app.
  - rewrite Ht, drop_app_le by (rewrite length_take_le; lia). by apply Forall_app.
Qed.

Lemma forward_frames_drop st t pre post :
  frames cx root st t pre post -> drop (length pre) L = to_list t ++ post.
Proof. intros Hf. unfold L. by rewrite (frames_items cx _ _ _ _ _ Hf), drop_app_length. Qed.

(** Rejected subtrees are skipped whole. *)
Lemma skip_trees_ok h (rest : list (tree T S)) ix pos :
  Forall (wf_node cx h) rest ->
  exists k, k <= length rest /\
    skip_filtered cx p (map node_summary rest) ix pos pos =
      (ix + k, dim_items cx pos (flat_map to_list (take k rest)),
       dim_items cx pos (flat_map to_list (take k rest))) /\
    Forall (fun x => accepts x = false) (flat_map to_list (take k rest)) /\
    (forall t, rest !! k = Some t -> p (node_summary t) = true).
Proof.
  intros Hwf. revert ix pos. induction Hwf as [|t rest Ht Hwf IH]; intros ix pos.
  { exists 0. simpl. rewrite Nat.add_0_r. done. }
  simpl. destruct (p (node_summary t)) eqn:Hp.
  { exists 0. simpl. rewrite Nat.add_0_r. split_and!; [lia|done|done|]. by intros t' [= <-]. }
  destruct (IH (ix + 1) (dim_add_summary cx pos (node_summary t))) as (k & Hk & E & Hf & Hs).
  exists (Datatypes.S k). rewrite E, (dim_items_node cx _ _ _ Ht). simpl. rewrite !dim_items_app.
  split_and!; [lia|f_equal; f_equal; lia| |done].
  apply Forall_app. split; [|done]. rewrite (wf_node_summary cx _ _ Ht) in Hp.
  apply Hsound; [by eapply wf_node_nonempty|done].
Qed.

Lemma skip_items_ok (its : list T) ix epos pos :
  exists k epos', k <= length its /\
    skip_filtered cx p (map (summary cx) its) ix epos pos =
      (ix + k, epos', dim_items cx pos (take k its)) /\
    Forall (fun x => accepts x = false) (take k its) /\
    (forall x, its !! k = Some x -> accepts x = true).
Proof.
  revert ix epos pos. induction its as [|x its IH]; intros ix epos pos.
  { exists 0, epos. simpl. rewrite Nat.add_0_r. done. }
  simpl. destruct (p (summary cx x)) eqn:Hp.
  { exists 0, epos. simpl. rewrite Nat.add_0_r. split_and!; [lia|done|done|]. by intros y [= <-]. }
  destruct (IH (ix + 1) (dim_add_summary cx epos (summary cx x)) (dim_add_summary cx pos (summary cx x)))
    as (k & epos' & Hk & E & Hf & Hs).
  exists (Datatypes.S k), epos'. rewrite E. simpl.
  split_and!; [lia|f_equal; f_equal; lia|by constructor|done].
Qed.

(** The outcome of [n] iterations that start on a subtree or on a stack:
    found, or the loop continues below it. *)
Definition forward_run (n : nat) (stack : list (StackEntry T S D)) pos descend
    (below : list (StackEntry T S D)) (j : nat) : Prop :=
  (exists r, forward_found r /\
     forall fuel, search_forward_loop cx p (n + fuel) stack pos descend = Ok r) \/
  (exists pos', forward_inv j pos' /\
     forall fuel, search_forward_loop cx p (n + fuel) stack pos descend =
                  search_forward_loop cx p fuel below pos' false).

(** One leaf, from item [ix] on. *)
Lemma forward_leaf st l pre post ix epos pos :
  frames cx root st (leaf_of cx l) pre post -> ix <= length l ->
  forward_inv (length pre + ix) pos ->
  exists k epos', k <= length (drop ix l) /\
    skip_filtered cx p (drop ix (map (summary cx) l)) ix epos pos =
      (ix + k, epos', dim_items cx pos (take k (drop ix l))) /\
    forward_inv (length pre + ix + k) (dim_items cx pos (take k (drop ix l))) /\
    (ix + k < length l ->
     forward_found (mkEntry (leaf_of cx l) (ix + k) epos' :: st,
                    dim_items cx pos (take k (drop ix l)), true)).
Proof.
  intros Hf Hix Hinv. rewrite skipn_map.
  destruct (skip_items_ok (drop ix l) ix epos pos) as (k & epos' & Hk & E & Hrej & Hacc).
  exists k, epos'. split; [done|]. split; [done|]. rewrite length_drop in Hk.
  assert (Hinv' : forward_inv (length pre + ix + k) (dim_items cx pos (take k (drop ix l)))).
  { rewrite <- (length_take_le (drop ix l) k) at 1 by (rewrite length_drop; lia).
    eapply (forward_inv_advance _ _ _ (drop k (drop ix l) ++ post)); [done| |done].
    rewrite <- drop_drop, (forward_frames_drop _ _ _ _ Hf). simpl. rewrite drop_app_le by lia.
    by rewrite app_assoc, take_drop. }
  split; [done|]. intros Hlt.
  destruct (lookup_lt_is_Some_2 l (ix + k) Hlt) as [x Hx].
  exists (length pre + ix + k), x. simpl. split; [done|]. split_and!; [|done| |].
  - exists (ix + k), epos', st, pre, post, l. split_and!; [done|done|lia|lia].
  - unfold L. rewrite <- Nat.add_assoc, (frames_lookup cx _ _ _ _ _ _ Hf) by done. done.
  - apply Hacc. by rewrite lookup_drop.
Qed.

(** One iteration on an internal node from child [ix] on. *)
Lemma forward_node_step st h (cts : list (tree T S)) pre post ix pos
    (entry : StackEntry T S D) (descend : bool) :
  frames cx root st (node_of cx h cts) pre post -> ix <= length cts ->
  forward_inv (length pre + length (flat_map to_list (take ix cts))) pos ->
  se_tree entry = node_of cx h cts ->
  (if descend then se_index entry else se_index entry + 1) = ix ->
  (descend = true -> se_position entry = pos) ->
  exists k pos', k <= length (drop ix cts) /\
    forward_inv (length pre + length (flat_map to_list (take (ix + k) cts))) pos' /\
    forall fuel, search_forward_loop cx p (Datatypes.S fuel) (entry :: st) pos descend =
      match cts !! (ix + k) with
      | Some t =>
          let! stack := stack_push (mkEntry (node_of cx h cts) (ix + k) pos' :: st) (mkEntry t 0 pos') in
          search_forward_loop cx p fuel stack pos' true
      | None => search_forward_loop cx p fuel st pos' false
      end.
Proof.
  intros Hf Hix Hinv Et Ei Ep. destruct (frames_parent cx _ _ _ _ _ _ _ Hroot Hf) as (k0 & -> & Hwf & Hne & _).
  assert (Hwfd : Forall (wf_node cx k0) (drop ix cts)) by (by apply Forall_drop).
  destruct (skip_trees_ok k0 _ ix pos Hwfd) as (k & Hk & E & Hrej & _).
  exists k, (dim_items cx pos (flat_map to_list (take k (drop ix cts)))).
  assert (Htk : flat_map to_list (take (ix + k) cts) =
    flat_map to_list (take ix cts) ++ flat_map to_list (take k (drop ix cts))).
  { by rewrite <- take_take_drop, flat_map_app. }
  split_and!; [done| |].
  - rewrite Htk, length_app, Nat.add_assoc.
    eapply (forward_inv_advance _ _ _ (flat_map to_list (drop k (drop ix cts)) ++ post)); [done| |done].
    rewrite <- drop_drop, (forward_frames_drop _ _ _ _ Hf). cbn [to_list node_of].
    rewrite <- (take_drop ix cts) at 2. rewrite flat_map_app, <- app_assoc, drop_app_length.
    by rewrite app_assoc, <- flat_map_app, take_drop.
  - intros fuel. cbn [search_forward_loop]. rewrite Et. cbn [node_of].
    assert (Hpair : (if descend then (se_index entry, se_position entry) else (se_index entry + 1, pos))
                    = (ix, pos)) by (destruct descend; [rewrite Ep by done|]; congruence).
    rewrite Hpair, skipn_map, E. done.
Qed.

(** Nodes below the children of a node. *)
Definition children_count (cts : list (tree T S)) : nat := list_sum (map node_count cts).

Lemma children_count_drop (cts : list (tree T S)) ix t :
  cts !! ix = Some t ->
  children_count (drop ix cts) = node_count t + children_count (drop (Datatypes.S ix) cts).
Proof. intros Ht. by rewrite (drop_S _ _ _ Ht). Qed.

Lemma children_count_drop_le (cts : list (tree T S)) n m :
  n <= m -> children_count (drop m cts) <= children_count (drop n cts).
Proof.
  intros Hle. replace m with (n + (m - n)) by lia. rewrite <- drop_drop.
  generalize (drop n cts) (m - n). induction l as [|c l IH]; intros [|i]; simpl; try lia.
  specialize (IH i). unfold children_count in *. simpl. lia.
Qed.

Lemma frames_child_forward st h (cts : list (tree T S)) pre post ix t pos :
  frames cx root st (node_of cx h cts) pre post -> cts !! ix = Some t ->
  forward_inv (length pre + length (flat_map to_list (take ix cts))) pos ->
  frames cx root (mkEntry (node_of cx h cts) ix pos :: st) t
    (pre ++ flat_map to_list (take ix cts)) (flat_map to_list (drop (Datatypes.S ix) cts) ++ post).
Proof.
  intros Hf Ht (_ & Hpos & _).
  pose proof (frames_down cx root st h cts ix t pre post Hf Ht) as Hd.
  rewrite <- length_app in Hpos. unfold position_at, L in Hpos.
  rewrite (frames_items cx _ _ _ _ _ Hd), take_app_length in Hpos. by rewrite <- Hpos in Hd.
Qed.

(** Descending into a subtree. *)
Definition forward_subtree (t : tree T S) : Prop :=
  forall st pre post pos, frames cx root st t pre post -> forward_inv (length pre) pos ->
  exists n, n + 1 <= 2 * node_count t /\
    forward_run n (mkEntry t 0 pos :: st) pos true st (length pre + length (to_list t)).

(** The children of an internal node from [ix] on. *)
Lemma forward_node st h (cts : list (tree T S)) pre post :
  frames cx root st (node_of cx h cts) pre post -> Forall forward_subtree cts ->
  forall m ix pos (entry : StackEntry T S D) (descend : bool),
  length cts - ix <= m -> ix <= length cts ->
  forward_inv (length pre + length (flat_map to_list (take ix cts))) pos ->
  se_tree entry = node_of cx h cts ->
  (if descend then se_index entry else se_index entry + 1) = ix ->
  (descend = true -> se_position entry = pos) ->
  exists n, n <= 1 + 2 * children_count (drop ix cts) /\
    forward_run n (entry :: st) pos descend st (length pre + length (flat_map to_list cts)).
Proof.
  intros Hf IHc. induction m as [|m IH]; intros ix pos entry descend Hm Hix Hinv Et Ei Ep;
    destruct (forward_node_step _ _ _ _ _ _ _ _ _ Hf Hix Hinv Et Ei Ep) as (k & pos' & Hk & Hinv' & E);
    rewrite length_drop in Hk.
  { exists 1. split; [lia|]. right. exists pos'. rewrite (take_ge cts) in Hinv' by lia.
    split; [done|]. intros fuel. simpl plus. rewrite E. by rewrite lookup_ge_None_2 by lia. }
  destruct (cts !! (ix + k)) as [t|] eqn:Ht.
  2: { exists 1. apply lookup_ge_None in Ht. split; [lia|]. right. exists pos'.
       rewrite (take_ge cts) in Hinv' by lia. done. }
  destruct (frames_parent cx _ _ _ _ _ _ _ Hroot Hf) as (_ & _ & _ & _ & Hdepth).
  pose proof (frames_child_forward _ _ _ _ _ _ _ _ Hf Ht Hinv') as Hf'.
  pose proof (children_count_drop _ _ _ Ht) as Hcc.
  pose proof (children_count_drop_le cts ix (ix + k) ltac:(lia)) as Hcl.
  rewrite <- length_app in Hinv'.
  assert (Hpush : forall fuel, search_forward_loop cx p (Datatypes.S fuel) (entry :: st) pos descend =
    search_forward_loop cx p fuel
      (mkEntry t 0 pos' :: mkEntry (node_of cx h cts) (ix + k) pos' :: st) pos' true).
  { intros fuel. rewrite E. rewrite stack_push_Ok; [done|]. simpl.
    destruct (frames_wf cx _ _ _ _ _ _ Hroot Hf') as (? & _ & ?). simpl in *. lia. }
  destruct (Forall_lookup_1 _ _ _ _ IHc Ht _ _ _ _ Hf' Hinv') as (n & Hn & [(r & Hr & Hloop)|(pos2 & Hinv2 & Hloop)]).
  { exists (Datatypes.S n). split; [lia|]. left. exists r. split; [done|].
    intros fuel. simpl plus. by rewrite Hpush. }
  assert (Hlt : ix + k < length cts) by (by apply lookup_lt_Some in Ht).
  rewrite length_app, <- Nat.add_assoc, <- length_app in Hinv2.
  assert (Htk : flat_map to_list (take (Datatypes.S (ix + k)) cts) =
    flat_map to_list (take (ix + k) cts) ++ to_list t).
  { rewrite (take_S_r _ _ _ Ht), flat_map_app. simpl. by rewrite app_nil_r. }
  rewrite <- Htk in Hinv2.
  destruct (IH (Datatypes.S (ix + k)) pos2 (mkEntry (node_of cx h cts) (ix + k) pos') false)
    as (n2 & Hn2 & Hrun); [lia|lia|done|done|simpl; lia|done|].
  exists (Datatypes.S (n + n2)). split; [lia|].
  assert (Hn' : forall fuel, search_forward_loop cx p (Datatypes.S (n + n2) + fuel) (entry :: st) pos descend =
    search_forward_loop cx p (n2 + fuel) (mkEntry (node_of cx h cts) (ix + k) pos' :: st) pos2 false).
  { intros fuel. simpl plus. rewrite Hpush, <- Nat.add_assoc. apply Hloop. }
  destruct Hrun as [(r & Hr & Hl)|(pos3 & Hinv3 & Hl)]; [left; exists r|right; exists pos3];
    (split; [done|]; intros fuel; by rewrite Hn').
Qed.

Lemma forward_subtree_ok h t : wf_node cx h t -> forward_subtree t.
Proof.
  revert h t. refine (wf_node_rect cx _ _ _).
  - intros l Hne _ st pre post pos Hf Hinv. fold (leaf_of cx l) in Hf |- *.
    exists 1. split; [simpl; lia|]. rewrite <- (Nat.add_0_r (length pre)) in Hinv.
    destruct (forward_leaf st l pre post 0 pos pos Hf) as (k & epos' & Hk & E & Hinv' & Hfound); [lia|done|].
    rewrite !drop_0 in *. simpl in Hfound. destruct (decide (k < length l)) as [Hlt|Hge].
    + left. eexists; split; [by apply Hfound|]. intros fuel. simpl plus. cbn [search_forward_loop].
      cbn [se_tree leaf_of obind se_index se_position]. rewrite drop_0, E. rewrite length_map. simpl plus.
      case_nat; [done|lia].
    + right. assert (k = length l) as -> by lia. eexists. rewrite Nat.add_0_r in Hinv'. split; [exact Hinv'|].
      intros fuel. simpl plus. cbn [search_forward_loop].
      cbn [se_tree leaf_of obind se_index se_position]. rewrite drop_0, E. rewrite length_map. simpl plus.
      case_nat; [lia|done].
  - intros h cts Hne _ Hwf IH st pre post pos Hf Hinv. fold (node_of cx (Datatypes.S h) cts) in Hf |- *.
    rewrite <- (Nat.add_0_r (length pre)) in Hinv.
    destruct (forward_node _ _ _ _ _ Hf IH (length cts) 0 pos (mkEntry (node_of cx (Datatypes.S h) cts) 0 pos) true)
      as (n & Hn & Hrun); [lia|lia|done|done|done|done|].
    exists n. split; [|done]. simpl. rewrite drop_0 in Hn. unfold children_count in Hn. lia.
Qed.

Lemma frames_node_count st t pre post :
  frames cx (D := D) root st t pre post -> node_count t <= node_count root.
Proof.
  induction 1 as [|st h cts ix t pre post _ IH Ht]; [done|].
  pose proof (children_count_drop _ _ _ Ht).
  pose proof (children_count_drop_le cts 0 ix ltac:(lia)) as Hcl. rewrite drop_0 in Hcl.
  assert (Hnc : node_count (node_of cx h cts) = 1 + children_count cts) by done. lia.
Qed.

(** The search has ended: on an accepted item, or past the end. *)
Definition forward_done (r : list (StackEntry T S D) * D * bool) : Prop :=
  forward_found r \/ (r.1.1 = [] /\ r.2 = false /\ forward_inv (length L) r.1.2).

(** Continuing after a finished subtree. *)
Lemma forward_ascend st t pre post :
  frames cx root st t pre post -> forall pos, forward_inv (length pre + length (to_list t)) pos ->
  exists n r, n + 2 * node_count t <= length st + 2 * node_count root /\ forward_done r /\
    forall fuel, search_forward_loop cx p (n + fuel) st pos false = Ok r.
Proof.
  induction 1 as [|st h cts ix t pre post Hf IH Ht]; intros pos Hinv.
  { exists 0, ([], pos, false). simpl. split; [lia|]. split; [by right|]. by intros []. }
  assert (Hlt : ix < length cts) by (by apply lookup_lt_Some in Ht).
  rewrite length_app, <- Nat.add_assoc, <- length_app in Hinv.
  assert (Htk : flat_map to_list (take (ix + 1) cts) = flat_map to_list (take ix cts) ++ to_list t).
  { rewrite Nat.add_1_r, (take_S_r _ _ _ Ht), flat_map_app. simpl. by rewrite app_nil_r. }
  rewrite <- Htk in Hinv.
  destruct (frames_parent cx _ _ _ _ _ _ _ Hroot Hf) as (h' & -> & Hwf & _ & _).
  assert (Hsub : Forall forward_subtree cts) by (eapply Forall_impl; [|exact Hwf]; apply forward_subtree_ok).
  match goal with |- context [search_forward_loop _ _ _ (?e :: st)] =>
    destruct (forward_node _ _ _ _ _ Hf Hsub (length cts) (ix + 1) pos e false)
      as (n1 & Hn1 & Hrun); [lia|lia|done|done|done|done|]
  end.
  pose proof (children_count_drop _ _ _ Ht) as Hcc. rewrite <- Nat.add_1_r in Hcc.
  pose proof (children_count_drop_le cts 0 ix ltac:(lia)) as Hcl. rewrite drop_0 in Hcl.
  assert (Hnc : node_count (node_of cx (Datatypes.S h') cts) = 1 + children_count cts) by done.
  destruct (Hrun) as [(r & Hr & Hl)|(pos' & Hinv' & Hl)].
  - pose proof (frames_node_count _ _ _ _ Hf). exists n1, r. split; [simpl; lia|]. split; [by left|done].
  - destruct (IH pos') as (n2 & r2 & Hn2 & Hd & Hl2); [done|].
    exists (n1 + n2), r2. split; [simpl; lia|]. split; [done|].
    intros fuel. by rewrite <- Nat.add_assoc, Hl.
Qed.

Lemma forward_done_cursor r :
  forward_done r -> j0 <= length L ->
  exists j, j = j0 + first_match (drop j0 L) /\ r.1.2 = position_at cx L j /\
    ((j < length L /\ at_leaf cx root r.1.1 j /\ r.2 = true) \/
     (j = length L /\ r.1.1 = [] /\ r.2 = false)).
Proof.
  intros [(j & x & (Hle & Hpos & Hrej) & Hleaf & Hb & Hx & Hacc)|(Hs & Hb & Hle & Hpos & Hrej)] Hj0.
  - exists j. split_and!; [|done|left; split_and!; [by eapply lookup_lt_Some|done|done]].
    rewrite <- (take_drop j L), drop_app_le, first_match_split by
      (try done; rewrite length_take_le; lia).
    rewrite (drop_S _ _ _ Hx). simpl. rewrite Hacc, length_drop, length_take_le; lia.
  - exists (length L). split_and!; [|done|right; done].
    rewrite firstn_all in Hrej. rewrite <- (app_nil_r (drop j0 L)), first_match_split by done.
    simpl. rewrite length_drop. lia.
Qed.
End Forward.

(** Where a forward search from the cursor starts looking. *)
Definition next_start (t : tree T S) (c : Cursor T S D) (j0 : nat) : Prop :=
  (exists i, cursor_at cx t c i /\ j0 = min (Datatypes.S i) (length (to_list t))) \/
  (j0 = 0 /\ (cursor_before cx t c \/ c = cursor_new cx t)).

(** The loop of [search_forward] on a non-empty tree, from an item. *)
Lemma forward_from_leaf root H stack i pos fuel :
  wf_node cx H root -> H < STACK_CAPACITY -> filter_sound ->
  at_leaf cx root stack i -> pos = position_at cx (to_list root) i ->
  2 * node_count root + length stack + 1 <= fuel ->
  exists r, search_forward_loop cx p fuel stack pos false = Ok r /\
    forward_done root (Datatypes.S i) r.
Proof.
  intros Hroot Hh Hs Hleaf Hpos Hfuel. pose proof (at_leaf_bound cx _ _ _ Hleaf) as Hb.
  destruct Hleaf as (ix & epos & st & pre & post & l & -> & Hf & Hix & ->).
  destruct (lookup_lt_is_Some_2 l ix Hix) as [x Hx].
  assert (Hinv : forward_inv root (Datatypes.S (length pre + ix)) (length pre + Datatypes.S ix)
    (dim_add_summary cx pos (summary cx x))).
  { assert (HL : to_list root !! (length pre + ix) = Some x)
      by (by rewrite (frames_lookup cx _ _ _ _ _ _ Hf)).
    split_and!; [lia|lia| |].
    - rewrite Hpos, <- (position_at_S cx _ _ _ HL). f_equal; lia.
    - rewrite drop_ge by (rewrite length_take; lia). done. }
  destruct (forward_leaf root H (Datatypes.S (length pre + ix)) Hh st l pre post (Datatypes.S ix)
    (dim_add_summary cx epos (summary cx x)) (dim_add_summary cx pos (summary cx x)) Hf) as (k & epos' & Hk & E & Hinv' & Hfound);
    [lia|exact Hinv|].
  destruct fuel as [|fuel]; [lia|]. cbn [search_forward_loop].
  cbn [se_tree leaf_of se_index se_position].
  rewrite (index_Ok _ _ (summary cx x)) by (rewrite list_lookup_fmap; by rewrite Hx). cbn [obind].
  rewrite Nat.add_1_r, E, length_map. rewrite length_drop in Hk. case_nat.
  - eexists; split; [reflexivity|]. left. by apply Hfound.
  - replace (length pre + Datatypes.S ix + k) with (length pre + length (to_list (leaf_of cx l)))
      in Hinv' by (simpl; lia).
    destruct (forward_ascend root H _ Hroot Hh Hs _ _ _ _ Hf _ Hinv') as (n & r & Hcost & Hd & Hl).
    exists r. split; [|done]. simpl in Hcost, Hfuel.
    replace fuel with (n + (fuel - n)) by lia. apply Hl.
Qed.

(** The loop of [search_forward] from the root of a non-empty tree. *)
Lemma forward_from_root root H fuel :
  wf_node cx H root -> H < STACK_CAPACITY -> filter_sound -> 2 * node_count root + 1 <= fuel ->
  exists r, search_forward_loop cx p fuel [mkEntry root 0 (dim_zero cx)] (dim_zero cx) true = Ok r /\
    forward_done root 0 r.
Proof.
  intros Hroot Hh Hs Hfuel.
  assert (Hinv : forward_inv root 0 0 (dim_zero cx)).
  { split_and!; [lia|lia|done|]. by rewrite take_0. }
  destruct (forward_subtree_ok root H 0 Hroot Hh Hs _ _ Hroot [] [] [] (dim_zero cx))
    as (n & Hn & Hrun); [constructor|done|].
  replace fuel with (n + (fuel - n)) by lia.
  destruct Hrun as [(r & Hr & Hl)|(pos' & Hinv' & Hl)]; rewrite Hl.
  - exists r. split; [done|by left].
  - exists ([], pos', false). split; [by destruct (fuel - n)|]. right. done.
Qed.

(** A search from the end stays there. *)
Lemma search_forward_at_end t c :
  c_tree c = t -> c_position c = position_at cx (to_list t) (length (to_list t)) ->
  c_stack c = [] -> at_end c = true ->
  exists c', search_forward cx p c = Ok c' /\
    cursor_at cx t c' (length (to_list t) + first_match (drop (length (to_list t)) (to_list t))).
Proof.
  intros Ht Hpos Hst He. unfold search_forward. rewrite Hst, He. cbn [obind].
  rewrite drop_ge by done. simpl. rewrite Nat.add_0_r.
  assert (El : search_forward_loop (T := T) cx p (cursor_fuel c) [] (c_position c) false =
    Ok ([], c_position c, false)) by (by destruct (cursor_fuel c)).
  rewrite El. eexists; split; [reflexivity|]. split_and!; [done|done|done|by right].
Qed.

(** The cursor that [search_forward] makes of the result of its loop. *)
Lemma search_forward_run t c H j0 stack0 descend0 :
  H < STACK_CAPACITY -> c_tree c = t -> at_end c = false ->
  (match c_stack c with
   | [] => if at_end c then Ok ([], false, true)
           else let! st := stack_push [] (mkEntry (c_tree c) 0 (dim_zero cx)) in Ok (st, true, true)
   | stack => Ok (stack, false, did_seek c)
   end) = Ok (stack0, descend0, true) ->
  j0 <= length (to_list t) ->
  (exists r, search_forward_loop cx p (cursor_fuel c) stack0 (c_position c) descend0 = Ok r /\
     forward_done t j0 r) ->
  exists c', search_forward cx p c = Ok c' /\ cursor_at cx t c' (j0 + first_match (drop j0 (to_list t))).
Proof.
  intros Hh Ht He E Hj (r & El & Hd). unfold search_forward. rewrite E. cbn [obind]. rewrite El.
  destruct (forward_done_cursor t H j0 Hh r Hd Hj) as (j & <- & Hpos & Hcase).
  destruct r as [[stk pos] b]. simpl in *. destruct Hcase as [(Hlt & Hleaf & ->)|(Hj' & -> & ->)].
  - eexists; split; [reflexivity|]. split_and!; [done|done|done|]. left. done.
  - eexists; split; [reflexivity|]. split_and!; [done|done|done|]. by right.
Qed.

Lemma search_forward_ok t c j0 :
  wf_tree cx t -> node_height t < STACK_CAPACITY -> filter_sound -> next_start t c j0 ->
  exists c', search_forward cx p c = Ok c' /\
    cursor_at cx t c' (j0 + first_match (drop j0 (to_list t))).
Proof.
  intros Hw Hh Hs Hstart. destruct Hw as [[s ->]|[H Hw]].
  { destruct Hstart as [(i & (Ht & Hd & Hpos & [(Hi & _)|(-> & Hst & He)]) & ->)|(-> & [Hb| ->])].
    - simpl in Hi. lia.
    - by apply (search_forward_at_end (Leaf s [] [])).
    - by destruct Hb as (_ & _ & _ & _ & _ & ?).
    - by apply (search_forward_at_end (Leaf s [] [])). }
  rewrite (wf_node_height cx _ _ Hw) in Hh. pose proof (wf_node_nonempty cx _ _ Hw) as Hne.
  assert (Hlen : 0 < length (to_list t)) by (destruct (to_list t); [done|simpl; lia]).
  destruct Hstart as [(i & Hc & ->)|(-> & Hc)].
  - pose proof Hc as (Ht & Hd & Hpos & [(Hi & Hleaf & He)|(-> & Hst & He)]).
    + rewrite Nat.min_l by lia. apply (search_forward_run t c H _ (c_stack c) false); [done|done|done| |lia|].
      * destruct Hleaf as (? & ? & ? & ? & ? & ? & -> & _). by rewrite Hd.
      * eapply forward_from_leaf; eauto. unfold cursor_fuel. rewrite Ht. lia.
    + rewrite Nat.min_r by lia. by apply search_forward_at_end.
  - assert (Hc' : c_tree c = t /\ at_end c = false /\ c_stack c = [] /\ c_position c = dim_zero cx).
    { destruct Hc as [(? & ? & ? & ? & ? & ?)| ->]; [done|]. simpl.
      by rewrite (wf_node_is_empty cx _ _ Hw). }
    destruct Hc' as (Ht & He & Hst & Hpos).
    apply (search_forward_run t c H 0 [mkEntry t 0 (dim_zero cx)] true); [done|done|done| |lia|].
    + by rewrite Hst, He, Ht.
    + rewrite Hpos. eapply forward_from_root; eauto. unfold cursor_fuel. rewrite Ht. lia.
Qed.

(** ** Searching backward *)

Section Backward.
Variables (root : tree T S) (H j0 : nat).
Hypothesis Hroot : wf_node cx H root.
Hypothesis Hheight : H < STACK_CAPACITY.
Hypothesis Hsound : filter_sound.

Let L := to_list root.

(** Everything from [j] up to [j0] has been rejected. *)
Definition backward_inv (j : nat) : Prop :=
  j <= j0 <= length L /\ Forall (fun x => accepts x = false) (drop j (take j0 L)).

Definition backward_found (r : list (StackEntry T S D) * D) : Prop :=
  exists j x, j < j0 /\ at_leaf cx root r.1 j /\ r.2 = position_at cx L j /\
    L !! j = Some x /\ accepts x = true /\ backward_inv (Datatypes.S j).

Lemma backward_inv_step j xs rest :
  backward_inv (j + length xs) -> drop j L = xs ++ rest ->
  Forall (fun x => accepts x = false) xs -> backward_inv j.
Proof.
  intros ([Hle Hle'] & Hf) Hd Hxs. split; [lia|].
  assert (E : drop j (take j0 L) = xs ++ drop (j + length xs) (take j0 L)).
  { rewrite <- (take_drop (length xs) (drop j (take j0 L))), drop_drop. f_equal.
    rewrite skipn_firstn_comm, Hd, take_take, Nat.min_l by lia. apply take_app_length. }
  rewrite E. by apply Forall_app.
Qed.

Lemma frames_top_position (st : list (StackEntry T S D)) t pre post :
  frames cx root st t pre post ->
  match st with parent :: _ => se_position parent | [] => dim_zero cx end = dim_items cx (dim_zero cx) pre.
Proof. by destruct 1. Qed.

Lemma slice_to_Ok {A} (v : list A) i : i <= length v -> slice_to v i = Ok (take i v).
Proof. intros Hi. unfold slice_to. case_nat; [done|lia]. Qed.

(** One iteration: leaving the subtree when no child remains, or examining
    child [m] of the [m + 1] remaining ones. *)
Lemma backward_pop (st : list (StackEntry T S D)) t pre post epos pos fuel :
  frames cx root st t pre post ->
  search_backward_loop cx p (Datatypes.S fuel) (mkEntry t 0 epos :: st) pos false =
  search_backward_loop cx p fuel st (dim_items cx (dim_zero cx) pre) false.
Proof. intros Hf. simpl. by rewrite (frames_top_position _ _ _ _ Hf). Qed.

Lemma backward_step (st : list (StackEntry T S D)) t pre post (descending : bool) m epos pos fuel s0 :
  frames cx root st t pre post -> child_summaries t !! m = Some s0 ->
  search_backward_loop cx p (Datatypes.S fuel)
    (mkEntry t (if descending then m else Datatypes.S m) epos :: st) pos descending =
  let pos' := fold_left (dim_add_summary cx) (take m (child_summaries t)) (dim_items cx (dim_zero cx) pre) in
  match t with
  | Internal _ _ _ cts =>
      if p s0 then
        let! c := index cts m in
        let! last_ix := usize_pred (length (child_summaries c)) in
        let! stack := stack_push (mkEntry t m pos' :: st) (mkEntry c last_ix (dim_zero cx)) in
        search_backward_loop cx p fuel stack pos' true
      else search_backward_loop cx p fuel (mkEntry t m pos' :: st) pos' false
  | Leaf _ _ _ =>
      if p s0 then Ok (mkEntry t m pos' :: st, pos')
      else search_backward_loop cx p fuel (mkEntry t m pos' :: st) pos' false
  end.
Proof.
  intros Hf Hs. cbn [search_backward_loop]. rewrite (frames_top_position _ _ _ _ Hf).
  assert (Hm : m < length (child_summaries t)) by (by apply lookup_lt_Some in Hs).
  cbn [se_index se_tree].
  assert (Hc : negb descending && ((if descending then m else Datatypes.S m) =? 0) = false) by (by destruct descending).
  rewrite Hc.
  assert (Hi : (if descending then if descending then m else Datatypes.S m
                else (if descending then m else Datatypes.S m) - 1) = m) by (destruct descending; lia).
  rewrite Hi, slice_to_Ok by lia. cbn [obind se_tree]. rewrite (index_Ok _ _ _ Hs). cbn [obind].
  destruct t; by destruct (p s0).
Qed.

(** The outcome of [n] iterations on a subtree: found, or back to its parent. *)
Definition backward_run (n : nat) (stack : list (StackEntry T S D)) pos descending
    (below : list (StackEntry T S D)) (pre : list T) : Prop :=
  (exists r, backward_found r /\
     forall fuel, search_backward_loop cx p (n + fuel) stack pos descending = Ok r) \/
  (backward_inv (length pre) /\
     forall fuel, search_backward_loop cx p (n + fuel) stack pos descending =
                  search_backward_loop cx p fuel below (dim_items cx (dim_zero cx) pre) false).

(** The items of a leaf before [m]. *)
Lemma backward_leaf (st : list (StackEntry T S D)) l pre post :
  frames cx root st (leaf_of cx l) pre post -> forall m (descending : bool) ix epos pos,
  m <= length l -> (if descending then Datatypes.S ix else ix) = m ->
  backward_inv (length pre + m) ->
  exists n, n <= m + 1 /\ backward_run n (mkEntry (leaf_of cx l) ix epos :: st) pos descending st pre.
Proof.
  intros Hf. induction m as [|m IH]; intros descending ix epos pos Hm Hix Hinv.
  { exists 1. split; [lia|]. right. rewrite Nat.add_0_r in Hinv. split; [done|].
    destruct descending; [done|]. subst ix. intros fuel. by eapply backward_pop. }
  destruct (lookup_lt_is_Some_2 l m ltac:(lia)) as [x Hx].
  assert (Hs : child_summaries (leaf_of cx l) !! m = Some (summary cx x))
    by (simpl; rewrite list_lookup_fmap; by rewrite Hx).
  assert (Hpos : fold_left (dim_add_summary cx) (take m (child_summaries (leaf_of cx l)))
    (dim_items cx (dim_zero cx) pre) = dim_items cx (dim_zero cx) (pre ++ take m l)).
  { simpl. by rewrite firstn_map, dim_items_map, dim_items_app. }
  assert (Hix' : ix = if descending then m else Datatypes.S m) by (destruct descending; lia).
  subst ix. pose proof (fun fuel => backward_step st _ _ _ descending m epos pos fuel _ Hf Hs) as Hstep.
  cbn zeta in Hstep. rewrite Hpos in Hstep. cbn [leaf_of] in Hstep. fold (leaf_of cx l) in Hstep.
  destruct (p (summary cx x)) eqn:Hp.
  - exists 1. split; [lia|]. left. eexists. split; [|intros fuel; simpl plus; by rewrite Hstep].
    destruct Hinv as ([Hle1 Hle2] & Hrej).
    exists (length pre + m), x. simpl. split_and!; [lia| | | |done|].
    + exists m, (dim_items cx (dim_zero cx) (pre ++ take m l)), st, pre, post, l. split_and!; [done|done|lia|done].
    + unfold L. rewrite (position_at_frames cx _ _ _ _ _ _ Hf); [done|simpl; lia].
    + unfold L. rewrite (frames_lookup cx _ _ _ _ _ _ Hf); [done|simpl; lia].
    + rewrite <- Nat.add_succ_r. done.
  - destruct (IH false m (dim_items cx (dim_zero cx) (pre ++ take m l))
      (dim_items cx (dim_zero cx) (pre ++ take m l))) as (n & Hn & Hrun); [lia|done| |].
    { eapply (backward_inv_step _ [x] (drop (Datatypes.S m) l ++ post)); [|..|by repeat constructor].
      - simpl. rewrite <- Nat.add_assoc, Nat.add_1_r. done.
      - rewrite <- drop_drop. unfold L. rewrite (frames_items cx _ _ _ _ _ Hf), drop_app_length. simpl.
        rewrite drop_app_le by lia. by rewrite (drop_S _ _ _ Hx). }
    exists (Datatypes.S n). split; [lia|].
    destruct Hrun as [(r & Hr & Hl)|(Hinv' & Hl)]; [left; exists r|right];
      (split; [done|]; intros fuel; simpl plus; by rewrite Hstep).
Qed.

Definition backward_subtree (t : tree T S) : Prop :=
  forall (st : list (StackEntry T S D)) pre post epos pos, frames cx root st t pre post ->
  backward_inv (length pre + length (to_list t)) ->
  exists n, n + 1 <= 2 * node_count t + length (to_list t) /\
    backward_run n (mkEntry t (arity t - 1) epos :: st) pos true st pre.

Lemma children_count_take_S (cts : list (tree T S)) m t :
  cts !! m = Some t ->
  children_count (take (Datatypes.S m) cts) = children_count (take m cts) + node_count t.
Proof.
  intros Ht. rewrite (take_S_r _ _ _ Ht). unfold children_count.
  rewrite map_app, list_sum_app. simpl. lia.
Qed.

Lemma flat_map_take_S (cts : list (tree T S)) m t :
  cts !! m = Some t ->
  flat_map to_list (take (Datatypes.S m) cts) = flat_map to_list (take m cts) ++ to_list t.
Proof. intros Ht. rewrite (take_S_r _ _ _ Ht), flat_map_app. simpl. by rewrite app_nil_r. Qed.

Lemma usize_pred_arity h t : wf_node cx h t -> usize_pred (length (child_summaries t)) = Ok (arity t - 1).
Proof.
  intros Ht. pose proof (wf_node_arity cx _ _ Ht).
  assert (E : length (child_summaries t) = arity t) by (destruct Ht; simpl; by rewrite length_map).
  rewrite E. destruct (arity t); simpl; [lia|]. by rewrite Nat.sub_0_r.
Qed.

(** The children of an internal node before [m]. *)
Lemma backward_node (st : list (StackEntry T S D)) h cts pre post :
  frames cx root st (node_of cx h cts) pre post -> Forall backward_subtree cts ->
  forall m (descending : bool) ix epos pos,
  m <= length cts -> (if descending then Datatypes.S ix else ix) = m ->
  backward_inv (length pre + length (flat_map to_list (take m cts))) ->
  exists n, n <= 1 + 2 * children_count (take m cts) + length (flat_map to_list (take m cts)) /\
    backward_run n (mkEntry (node_of cx h cts) ix epos :: st) pos descending st pre.
Proof.
  intros Hf IHc. destruct (frames_parent cx _ _ _ _ _ _ _ Hroot Hf) as (h' & -> & Hwf & _ & Hdepth).
  induction m as [|m IH]; intros descending ix epos pos Hm Hix Hinv.
  { exists 1. split; [lia|]. right. rewrite take_0, Nat.add_0_r in Hinv. split; [done|].
    destruct descending; [done|]. subst ix. intros fuel. by eapply backward_pop. }
  destruct (lookup_lt_is_Some_2 cts m ltac:(lia)) as [t Ht].
  pose proof (Forall_lookup_1 _ _ _ _ Hwf Ht) as Hwt.
  rewrite (flat_map_take_S _ _ _ Ht), length_app, Nat.add_assoc in Hinv.
  rewrite (children_count_take_S _ _ _ Ht), (flat_map_take_S _ _ _ Ht), length_app.
  set (node := node_of cx (Datatypes.S h') cts) in *.
  assert (Hs : child_summaries node !! m = Some (node_summary t))
    by (simpl; rewrite list_lookup_fmap; by rewrite Ht).
  set (pos' := dim_items cx (dim_zero cx) (pre ++ flat_map to_list (take m cts))).
  assert (Hpos : fold_left (dim_add_summary cx) (take m (child_summaries node))
    (dim_items cx (dim_zero cx) pre) = pos').
  { simpl. rewrite firstn_map, (dim_items_children cx _ h') by (by apply Forall_take). by rewrite <- dim_items_app. }
  assert (Hix' : ix = if descending then m else Datatypes.S m) by (destruct descending; lia).
  subst ix. pose proof (fun fuel => backward_step st _ _ _ descending m epos pos fuel _ Hf Hs) as Hstep.
  cbn zeta in Hstep. rewrite Hpos in Hstep. unfold node in Hstep at 2. cbn [node_of] in Hstep.
  pose proof (frames_down cx root st _ cts m t pre post Hf Ht) as Hf'. fold node pos' in Hf'.
  destruct (p (node_summary t)) eqn:Hp.
  - assert (Hstep' : forall fuel, search_backward_loop cx p (Datatypes.S fuel)
      (mkEntry node (if descending then m else Datatypes.S m) epos :: st) pos descending =
      search_backward_loop cx p fuel (mkEntry t (arity t - 1) (dim_zero cx) :: mkEntry node m pos' :: st) pos' true).
    { intros fuel. rewrite Hstep, (index_Ok _ _ _ Ht). cbn [obind].
      rewrite (usize_pred_arity _ _ Hwt). cbn [obind]. rewrite stack_push_Ok; [done|].
      destruct (frames_wf cx _ _ _ _ _ _ Hroot Hf') as (? & _ & ?). simpl in *. lia. }
    destruct (Forall_lookup_1 _ _ _ _ IHc Ht _ _ _ (dim_zero cx) pos' Hf') as (n1 & Hn1 & Hrun1).
    { by rewrite length_app. }
    destruct Hrun1 as [(r & Hr & Hl)|(Hinv' & Hl)].
    { exists (Datatypes.S n1). split; [lia|]. left. exists r. split; [done|].
      intros fuel. simpl plus. by rewrite Hstep'. }
    rewrite length_app in Hinv'.
    destruct (IH false m pos' pos' ltac:(lia) eq_refl Hinv') as (n2 & Hn2 & Hrun).
    exists (Datatypes.S (n1 + n2)). split; [lia|].
    assert (Hn' : forall fuel, search_backward_loop cx p (Datatypes.S (n1 + n2) + fuel)
      (mkEntry node (if descending then m else Datatypes.S m) epos :: st) pos descending =
      search_backward_loop cx p (n2 + fuel) (mkEntry node m pos' :: st) pos' false).
    { intros fuel. simpl plus. rewrite Hstep', <- Nat.add_assoc. apply Hl. }
    destruct Hrun as [(r & Hr & Hl')|(Hi & Hl')]; [left; exists r|right];
      (split; [done|]; intros fuel; by rewrite Hn').
  - destruct (IH false m pos' pos' ltac:(lia) eq_refl) as (n2 & Hn2 & Hrun).
    { eapply (backward_inv_step _ (to_list t) (flat_map to_list (drop (Datatypes.S m) cts) ++ post)).
      - exact Hinv.
      - rewrite <- length_app. unfold L. by rewrite (frames_items cx _ _ _ _ _ Hf'), drop_app_length.
      - apply Hsound; [by eapply wf_node_nonempty|]. by rewrite <- (wf_node_summary cx _ _ Hwt). }
    pose proof (node_count_height cx _ _ Hwt). exists (Datatypes.S n2). split; [lia|].
    destruct Hrun as [(r & Hr & Hl')|(Hi & Hl')]; [left; exists r|right];
      (split; [done|]; intros fuel; simpl plus; by rewrite Hstep).
Qed.

Lemma backward_subtree_ok h t : wf_node cx h t -> backward_subtree t.
Proof.
  revert h t. refine (wf_node_rect cx _ _ _).
  - intros l Hne _ st pre post epos pos Hf Hinv. fold (leaf_of cx l) in Hf |- *.
    assert (0 < length l) by (destruct l; [done|simpl; lia]).
    destruct (backward_leaf st l pre post Hf (length l) true (length l - 1) epos pos) as (n & Hn & Hrun);
      [lia|lia|done|].
    exists n. split; [simpl; lia|done].
  - intros h cts Hne _ Hwf IH st pre post epos pos Hf Hinv.
    fold (node_of cx (Datatypes.S h) cts) in Hf |- *.
    assert (0 < length cts) by (destruct cts; [done|simpl; lia]).
    destruct (backward_node st _ cts pre post Hf IH (length cts) true (length cts - 1) epos pos)
      as (n & Hn & Hrun); [lia|lia|by rewrite firstn_all|].
    exists n. split; [|done]. rewrite firstn_all in Hn. simpl. unfold children_count in Hn. lia.
Qed.

Definition backward_done (r : list (StackEntry T S D) * D) : Prop :=
  backward_found r \/ (r = ([], dim_zero cx) /\ backward_inv 0).

(** Continuing with the left siblings of the ancestors. *)
Lemma backward_ascend (st : list (StackEntry T S D)) t pre post :
  frames cx root st t pre post -> backward_inv (length pre) ->
  exists n r, n + 2 * node_count t <= length st + 2 * node_count root + length pre /\ backward_done r /\
    forall fuel, search_backward_loop cx p (n + fuel) st (dim_items cx (dim_zero cx) pre) false = Ok r.
Proof.
  induction 1 as [|st h cts ix t pre post Hf IH Ht]; intros Hinv.
  { exists 0, ([], dim_zero cx). simpl. split; [lia|]. split; [by right|]. by intros []. }
  destruct (frames_parent cx _ _ _ _ _ _ _ Hroot Hf) as (h' & -> & Hwf & _ & _).
  assert (Hsub : Forall backward_subtree cts) by (eapply Forall_impl; [|exact Hwf]; apply backward_subtree_ok).
  assert (Hlt : ix < length cts) by (by apply lookup_lt_Some in Ht). rewrite length_app in Hinv |- *.
  match goal with |- context [search_backward_loop _ _ _ (mkEntry _ _ ?ep :: st) ?pos] =>
    destruct (backward_node st _ cts pre post Hf Hsub ix false ix ep pos) as (n1 & Hn1 & Hrun);
      [lia|done|done|]
  end.
  pose proof (children_count_take_S _ _ _ Ht) as Hcc.
  assert (Hcl : children_count (take (Datatypes.S ix) cts) <= children_count cts).
  { rewrite <- (take_drop (Datatypes.S ix) cts) at 2. unfold children_count. rewrite map_app, list_sum_app. lia. }
  assert (Hnc : node_count (node_of cx (Datatypes.S h') cts) = 1 + children_count cts) by done.
  destruct Hrun as [(r & Hr & Hl)|(Hinv' & Hl)].
  - assert (node_count (node_of cx (Datatypes.S h') cts) <= node_count root) by (by eapply frames_node_count).
    exists n1, r. split; [simpl; lia|]. split; [by left|done].
  - destruct (IH Hinv') as (n2 & r2 & Hn2 & Hd & Hl2).
    exists (n1 + n2), r2. split; [simpl; lia|]. split; [done|].
    intros fuel. by rewrite <- Nat.add_assoc, Hl.
Qed.

(** The loop from an item. *)
Lemma backward_from_leaf (stack : list (StackEntry T S D)) pos fuel :
  at_leaf cx root stack j0 -> 2 * node_count root + 2 * length L + length stack + 1 <= fuel ->
  exists r, search_backward_loop cx p fuel stack pos false = Ok r /\ backward_done r.
Proof.
  intros Hleaf Hfuel. pose proof (at_leaf_bound cx _ _ _ Hleaf) as Hb. fold L in Hb.
  destruct Hleaf as (ix & epos & st & pre & post & l & -> & Hf & Hix & Ej).
  pose proof (frames_items cx _ _ _ _ _ Hf) as EL. fold L in EL.
  assert (HlL : length l + length pre <= length L) by (rewrite EL, !length_app; simpl; lia).
  destruct (backward_leaf st l pre post Hf ix false ix epos pos) as (n1 & Hn1 & Hrun); [lia|done| |].
  { rewrite <- Ej. split; [lia|]. rewrite drop_ge by (rewrite length_take; lia). done. }
  simpl in Hfuel. destruct Hrun as [(r & Hr & Hl)|(Hinv & Hl)].
  - exists r. replace fuel with (n1 + (fuel - n1)) by lia. split; [apply Hl|by left].
  - destruct (backward_ascend _ _ _ _ Hf Hinv) as (n2 & r & Hn2 & Hd & Hl2).
    exists r. replace fuel with (n1 + (n2 + (fuel - n1 - n2))) by lia. rewrite Hl. split; [apply Hl2|done].
Qed.

(** The loop from the end. *)
Lemma backward_from_end epos pos fuel :
  j0 = length L -> 2 * node_count root + 2 * length L + 1 <= fuel ->
  exists r, search_backward_loop cx p fuel
      [mkEntry root (length (child_summaries root)) epos] pos false = Ok r /\ backward_done r.
Proof.
  intros Ej Hfuel. pose proof (frames_root cx (D := D) root) as Hf.
  assert (Hinv : backward_inv (length L)).
  { split; [lia|]. rewrite drop_ge by (rewrite length_take; lia). done. }
  assert (Hrun : exists n, n <= 2 * node_count root + 2 * length L /\
    backward_run n [mkEntry root (length (child_summaries root)) epos] pos false [] []).
  { pose proof (node_count_height cx _ _ Hroot).
    inversion Hroot as [l Hne Hlen E1 E2|h cts Hne Hlen Hwf E1 E2].
    - fold (leaf_of cx l) in E2 |- *. assert (Hf' : frames cx (D := D) root [] (leaf_of cx l) [] []) by (by rewrite E2).
      assert (EL : length L = length l) by (unfold L; by rewrite <- E2).
      destruct (backward_leaf [] l [] [] Hf' (length l) false (length l) epos pos) as (n & Hn & Hrun);
        [lia|done|by rewrite EL in Hinv|].
      exists n. cbn [child_summaries leaf_of]. rewrite length_map. fold (leaf_of cx l).
      split; [rewrite E2, EL; lia|exact Hrun].
    - fold (node_of cx (Datatypes.S h) cts) in E2 |- *.
      assert (Hf' : frames cx (D := D) root [] (node_of cx (Datatypes.S h) cts) [] []) by (by rewrite E2).
      assert (EL : length L = length (flat_map to_list cts)) by (unfold L; by rewrite <- E2).
      assert (Hsub : Forall backward_subtree cts)
        by (eapply Forall_impl; [|exact Hwf]; apply backward_subtree_ok).
      destruct (backward_node [] _ cts [] [] Hf' Hsub (length cts) false (length cts) epos pos) as (n & Hn & Hrun);
        [lia|done|rewrite firstn_all; by rewrite EL in Hinv|].
      exists n. cbn [child_summaries node_of]. rewrite length_map. fold (node_of cx (Datatypes.S h) cts).
      split; [|exact Hrun]. rewrite firstn_all in Hn. rewrite EL. simpl. unfold children_count in Hn. lia. }
  destruct Hrun as (n & Hn & [(r & Hr & Hl)|(Hi & Hl)]); replace fuel with (n + (fuel - n)) by lia; rewrite Hl.
  - exists r. split; [done|by left].
  - exists ([], dim_zero cx). split; [by destruct (fuel - n)|]. right. done.
Qed.
End Backward.

(** The last accepted item. *)
Fixpoint last_match (l : list T) : option nat :=
  match l with
  | [] => None
  | x :: l =>
      match last_match l with
      | Some i => Some (Datatypes.S i)
      | None => if accepts x then Some 0 else None
      end
  end.

Lemma last_match_None l : Forall (fun x => accepts x = false) l -> last_match l = None.
Proof. induction 1 as [|x l Hx _ IH]; [done|]. simpl. by rewrite IH, Hx. Qed.

Lemma last_match_app l1 l2 :
  last_match (l1 ++ l2) =
  match last_match l2 with Some i => Some (length l1 + i) | None => last_match l1 end.
Proof.
  induction l1 as [|x l1 IH]; simpl; [by destruct (last_match l2)|].
  rewrite IH. by destruct (last_match l2).
Qed.

Lemma last_match_Some l j x :
  l !! j = Some x -> accepts x = true -> Forall (fun x => accepts x = false) (drop (Datatypes.S j) l) ->
  last_match l = Some j.
Proof.
  intros Hx Ha Hr. rewrite <- (take_drop_middle _ _ _ Hx), last_match_app. simpl.
  rewrite last_match_None by done. rewrite Ha, length_take_le, Nat.add_0_r; [done|].
  apply lookup_lt_Some in Hx. lia.
Qed.

(** Where a backward search from the cursor stops looking. *)
Definition prev_start (t : tree T S) (c : Cursor T S D) (j0 : nat) : Prop :=
  cursor_at cx t c j0 \/
  (j0 = length (to_list t) /\ c = cursor_new cx t) \/
  (j0 = 0 /\ cursor_before cx t c).

(** Where it lands. *)
Definition prev_lands (t : tree T S) (c : Cursor T S D) (o : option nat) : Prop :=
  match o with
  | Some j => cursor_at cx t c j
  | None => cursor_before cx t c \/ (to_list t = [] /\ cursor_at cx t c 0)
  end.

Lemma backward_done_cursor t H j0 r :
  H < STACK_CAPACITY -> to_list t <> [] -> j0 <= length (to_list t) -> backward_done t j0 r ->
  prev_lands t (mkCursor t r.1 r.2 true false) (last_match (take j0 (to_list t))).
Proof.
  intros Hh Hne Hj [(j & x & Hlt & Hleaf & Hpos & Hx & Ha & Hinv)|(-> & Hinv)].
  - rewrite (last_match_Some _ j x); [|by rewrite lookup_take_lt|done|apply Hinv].
    split_and!; [done|done|done|]. left. split_and!; [by eapply at_leaf_bound|done|done].
  - destruct Hinv as (_ & Hrej). rewrite drop_0 in Hrej. rewrite last_match_None by done.
    left. done.
Qed.

Lemma search_backward_ok t c j0 :
  wf_tree cx t -> node_height t < STACK_CAPACITY -> filter_sound -> prev_start t c j0 ->
  exists c', search_backward cx p c = Ok c' /\ prev_lands t c' (last_match (take j0 (to_list t))).
Proof.
  intros Hw Hh Hs Hstart. unfold search_backward.
  assert (Hnil : forall fuel pos, search_backward_loop (T := T) cx p fuel [] pos false = Ok ([], pos))
    by (by intros []).
  destruct Hw as [[s ->]|[H Hw]].
  { assert (Hc : c_tree c = Leaf s [] [] /\ c_stack c = [] /\ (if did_seek c then at_end c else true) = true).
    { destruct Hstart as [(Ht & Hd & _ & [(Hi & _)|(_ & Hst & He)])|[(_ & ->)|(_ & Hb)]].
      - simpl in Hi. lia.
      - by rewrite Hd, He.
      - done.
      - by destruct Hb as (_ & _ & _ & _ & _ & ?). }
    destruct Hc as (-> & -> & ->). simpl. rewrite Hnil. simpl. rewrite take_nil. eexists; split; [done|].
    right. split; [done|]. split_and!; [done|done|done|by right]. }
  rewrite (wf_node_height cx _ _ Hw) in Hh. pose proof (wf_node_nonempty cx _ _ Hw) as Hne.
  pose proof (wf_node_is_empty cx _ _ Hw) as Hemp.
  assert (Hrun : forall stack pos, j0 <= length (to_list t) ->
    (exists r, search_backward_loop cx p (cursor_fuel c) stack pos false = Ok r /\ backward_done t j0 r) ->
    exists c', (let! (stack, position) := search_backward_loop cx p (cursor_fuel c) stack pos false in
      Ok (mkCursor t stack position true false)) = Ok c' /\
      prev_lands t c' (last_match (take j0 (to_list t)))).
  { intros stack pos Hj (r & -> & Hd). simpl. destruct r as [stk pos']. eexists; split; [reflexivity|].
    exact (backward_done_cursor t H j0 (stk, pos') Hh Hne Hj Hd). }
  assert (Hend : c_tree c = t -> c_stack c = [] -> j0 = length (to_list t) ->
    exists r, search_backward_loop cx p (cursor_fuel c)
      [mkEntry t (length (child_summaries t)) (dim_from_summary cx (node_summary t))] (dim_zero cx) false = Ok r /\
      backward_done t j0 r).
  { intros Ht Hst Hj. eapply backward_from_end; eauto. unfold cursor_fuel. rewrite Ht. lia. }
  destruct Hstart as [Hc|[(Hj & ->)|(-> & (Ht & Hd & Hpos & Hst & He & _))]].
  - pose proof Hc as (Ht & Hd & _ & [(Hi & Hleaf & He)|(Hj & Hst & He)]); rewrite Hd, He.
    + cbn [obind]. rewrite Ht. apply Hrun; [lia|]. eapply backward_from_leaf; eauto. unfold cursor_fuel. rewrite Ht. lia.
    + rewrite Ht, Hemp, Hst, stack_push_Ok by (simpl; unfold STACK_CAPACITY; lia). cbn [obind].
      apply Hrun; [lia|]. by apply Hend.
  - cbn [did_seek cursor_new c_tree c_stack]. rewrite Hemp, stack_push_Ok by (simpl; unfold STACK_CAPACITY; lia).
    cbn [obind]. apply Hrun; [lia|]. by apply Hend.
  - rewrite Hd, He, Hst. cbn [obind]. rewrite Hnil. cbn [obind]. eexists; split; [reflexivity|].
    rewrite take_0. simpl. left. by rewrite Ht, Hpos.
Qed.
End Move.

(** ** [next], [prev] and the neighbours of an item *)

Section Neighbours.
Context {Cx T S D : Type}.
Context `{!Summary Cx S, !SummaryLaws Cx S, !Item Cx T S, !Dimension Cx S D, !DimensionLaws Cx S D}.
Variable cx : Cx.
Implicit Types (t : tree T S) (c : Cursor T S D).

Definition all (_ : S) : bool := true.

Lemma all_sound : filter_sound (T := T) cx all.
Proof. by intros l _ [=]. Qed.

Lemma first_match_all (l : list T) : first_match cx all l = 0.
Proof. by destruct l. Qed.

Lemma last_match_all (l : list T) :
  last_match cx all l = match length l with 0 => None | Datatypes.S n => Some n end.
Proof. induction l as [|x l IH]; [done|]. simpl. rewrite IH. by destruct l. Qed.

Lemma next_ok t c j0 :
  wf_tree cx t -> node_height t < STACK_CAPACITY -> next_start cx t c j0 ->
  exists c', cursor_next cx c = Ok c' /\ cursor_at cx t c' j0.
Proof.
  intros Hw Hh Hs. destruct (search_forward_ok cx all t c j0 Hw Hh all_sound Hs) as (c' & E & Hat).
  rewrite first_match_all, Nat.add_0_r in Hat. eauto.
Qed.

Lemma prev_ok t c j0 :
  wf_tree cx t -> node_height t < STACK_CAPACITY -> prev_start cx t c j0 ->
  j0 <= length (to_list t) ->
  exists c', cursor_prev cx c = Ok c' /\
    prev_lands cx t c' (match j0 with 0 => None | Datatypes.S j => Some j end).
Proof.
  intros Hw Hh Hs Hj. destruct (search_backward_ok cx all t c j0 Hw Hh all_sound Hs) as (c' & E & Hl).
  rewrite last_match_all, length_take_le in Hl by done. eauto.
Qed.

(** The leaf after the subtree under a stack. *)
Lemma next_leaf_loop_ok root H (st : list (StackEntry T S D)) t pre post :
  wf_node cx H root -> frames cx root st t pre post ->
  exists o, next_leaf_loop st = Ok o /\
    match o with
    | Some leaf => exists x l, leaf = leaf_of cx (x :: l) /\ head post = Some x
    | None => post = []
    end.
Proof.
  intros Hroot. induction 1 as [|st h cts ix t pre post Hf IH Ht]; [by exists None|].
  destruct (frames_parent cx _ _ _ _ _ _ _ Hroot Hf) as (k & -> & Hwf & Hne & _).
  assert (Hlt : ix < length cts) by (by apply lookup_lt_Some in Ht). simpl.
  destruct (length cts) as [|n] eqn:En; [lia|]. simpl. case_nat.
  - destruct (lookup_lt_is_Some_2 cts (ix + 1) ltac:(lia)) as [t' Ht'].
    rewrite (index_Ok _ _ _ Ht'). simpl.
    destruct (leftmost_leaf_ok cx _ _ (Forall_lookup_1 _ _ _ _ Hwf Ht')) as (x & l & r & -> & Hi).
    eexists; split; [reflexivity|]. exists x, l. split; [done|].
    rewrite <- Nat.add_1_r, (drop_S _ _ _ Ht'). simpl. by rewrite Hi.
  - rewrite drop_ge by lia. simpl. apply IH.
Qed.

Lemma prev_leaf_loop_ok root H (st : list (StackEntry T S D)) t pre post :
  wf_node cx H root -> frames cx root st t pre post ->
  exists o, prev_leaf_loop st = Ok o /\
    match o with
    | Some leaf => exists x l, leaf = leaf_of cx (l ++ [x]) /\ list.last pre = Some x
    | None => pre = []
    end.
Proof.
  intros Hroot. induction 1 as [|st h cts ix t pre post Hf IH Ht]; [by exists None|].
  destruct (frames_parent cx _ _ _ _ _ _ _ Hroot Hf) as (k & -> & Hwf & Hne & _).
  assert (Hlt : ix < length cts) by (by apply lookup_lt_Some in Ht). simpl. case_nat.
  - subst ix. rewrite take_0. simpl. rewrite app_nil_r. apply IH.
  - destruct (lookup_lt_is_Some_2 cts (ix - 1) ltac:(lia)) as [t' Ht'].
    rewrite (index_Ok _ _ _ Ht'). simpl.
    destruct (rightmost_leaf_ok cx _ _ (Forall_lookup_1 _ _ _ _ Hwf Ht')) as (x & l & r & -> & Hi).
    eexists; split; [reflexivity|]. exists x, l. split; [done|].
    replace ix with (Datatypes.S (ix - 1)) by lia. rewrite (flat_map_take_S _ _ _ Ht'), Hi.
    by rewrite !app_assoc, last_snoc.
Qed.

Lemma next_item_ok t c i :
  wf_tree cx t -> cursor_at cx t c i -> next_item c = Ok (to_list t !! Datatypes.S i).
Proof.
  intros Hw Hc. unfold next_item, assert_did_seek, next_leaf.
  pose proof Hc as (Ht & -> & _ & [(Hi & Hleaf & He)|(-> & Hs & ->)]).
  2: { rewrite Hs. simpl. by rewrite lookup_ge_None_2 by lia. }
  destruct Hw as [[s ->]|[H Hw]]; [simpl in Hi; lia|].
  destruct Hleaf as (ix & pos & st & pre & post & l & -> & Hf & Hix & ->). simpl. rewrite drop_0.
  destruct (length l) as [|n] eqn:En; [lia|]. simpl. case_nat.
  - destruct (next_leaf_loop_ok t H st _ pre post Hw Hf) as (o & -> & Ho). simpl.
    assert (E : to_list t !! Datatypes.S (length pre + ix) = head post).
    { rewrite (frames_items cx _ _ _ _ _ Hf), <- Nat.add_succ_r, lookup_app_r by lia. simpl.
      rewrite lookup_app_r by lia. replace (_ - _ - _) with 0 by lia. by destruct post. }
    rewrite E. destruct o as [leaf|]; [|by subst post]. destruct Ho as (x & l' & -> & ->). done.
  - destruct (lookup_lt_is_Some_2 l (ix + 1) ltac:(lia)) as [x Hx]. rewrite (index_Ok _ _ _ Hx). simpl.
    rewrite <- Nat.add_succ_r, (frames_lookup cx _ _ _ _ _ _ Hf) by (simpl; lia).
    simpl. rewrite <- Hx. do 2 f_equal. lia.
Qed.

Lemma prev_item_ok t c i :
  wf_tree cx t -> cursor_at cx t c i ->
  prev_item c = Ok (match i with 0 => None | Datatypes.S j => to_list t !! j end).
Proof.
  intros Hw Hc. unfold prev_item, assert_did_seek, prev_leaf.
  pose proof Hc as (Ht & -> & _ & [(Hi & Hleaf & He)|(-> & Hs & ->)]).
  2: { rewrite Hs, Ht. cbn [obind]. rewrite (last_ok cx) by done. f_equal.
       rewrite last_lookup. by destruct (to_list t). }
  destruct Hw as [[s ->]|[H Hw]]; [simpl in Hi; lia|].
  destruct Hleaf as (ix & pos & st & pre & post & l & -> & Hf & Hix & ->). simpl. rewrite drop_0.
  case_nat.
  - subst ix. rewrite Nat.add_0_r.
    destruct (prev_leaf_loop_ok t H st _ pre post Hw Hf) as (o & -> & Ho). simpl.
    destruct o as [leaf|]; [|by subst pre]. destruct Ho as (x & l' & -> & Hx). simpl.
    rewrite last_snoc. simpl. f_equal. rewrite (frames_items cx _ _ _ _ _ Hf).
    rewrite last_lookup in Hx. destruct (length pre) eqn:El; [by destruct pre|]. simpl in Hx.
    rewrite lookup_app_l by lia. done.
  - destruct (lookup_lt_is_Some_2 l (ix - 1) ltac:(lia)) as [x Hx]. rewrite (index_Ok _ _ _ Hx). simpl.
    destruct (length pre + ix) as [|j] eqn:Ej; [lia|].
    replace j with (length pre + (ix - 1)) by lia.
    rewrite (frames_lookup cx _ _ _ _ _ _ Hf) by (simpl; lia). simpl. by rewrite Hx.
Qed.
End Neighbours.

(** ** Iteration *)

Section Iteration.
Context {Cx T S : Type} `{!Summary Cx S, !SummaryLaws Cx S, !Item Cx T S}.
Variable cx : Cx.
Implicit Types t : tree T S.

(** [Iter::next] walks like a cursor without positions whose filter accepts
    everything: its loop computes the same stacks. *)
Lemma iter_loop_forward fuel (stack : list (StackEntry T S unit)) descend r :
  Forall (fun e => exists h, wf_node cx h (se_tree e)) stack ->
  search_forward_loop cx all fuel stack tt descend = Ok r ->
  iter_loop fuel stack descend =
    Ok (r.1.1, match r.1.1 with
               | e :: _ => match se_tree e with Leaf _ items _ => items !! se_index e | _ => None end
               | [] => None
               end).
Proof.
  revert stack descend. induction fuel as [|fuel IH]; intros [|[t ix []] below] descend Hwf E; simpl in E;
    try done; [by inversion E..|].
  apply Forall_cons_iff in Hwf as [[h Ht] Hwf]. simpl in Ht. simpl.
  destruct Ht as [l Hne Hlen|h cts Hne Hlen Hc]; simpl in *.
  - set (ix' := if descend then ix else ix + 1).
    assert (E' : (let '(ix, ep, pos) := skip_filtered cx all (drop ix' (map (summary cx) l)) ix' tt tt in
       if ix <? length (map (summary cx) l)
       then Ok (mkEntry (Leaf (items_summary cx l) l (map (summary cx) l)) ix ep :: below, pos, true)
       else search_forward_loop cx all fuel below pos false) = Ok r).
    { destruct descend; [exact E|]. destruct (index _ _); [exact E|done..]. }
    clear E. assert (Hsk : skip_filtered cx all (drop ix' (map (summary cx) l)) ix' tt tt = (ix', tt, tt))
      by (by destruct (drop ix' (map (summary cx) l))).
    rewrite Hsk, length_map in E'. revert E'. case_nat; intros E'.
    + destruct (lookup_lt_is_Some_2 l ix' ltac:(done)) as [x Hx]. rewrite Hx. inversion E'. simpl. by rewrite Hx.
    + rewrite lookup_ge_None_2 by done. by apply IH.
  - set (ix' := if descend then ix else ix + 1).
    assert (Hpair : (if descend then (ix, tt) else (ix + 1, tt)) = (ix', tt)) by (by destruct descend).
    rewrite Hpair in E.
    assert (Hsk : skip_filtered cx all (drop ix' (map node_summary cts)) ix' tt tt = (ix', tt, tt))
      by (by destruct (drop ix' (map node_summary cts))).
    rewrite Hsk in E. destruct (cts !! ix') as [t'|] eqn:Ht'; [|by apply IH].
    revert E. unfold stack_push. case_nat; [|done]. cbn [obind]. apply IH.
    constructor; [simpl; eexists; exact (Forall_lookup_1 _ _ _ _ Hc Ht')|].
    constructor; [simpl; eexists; by apply wf_internal|done].
Qed.

Lemma frames_stack_wf root H (st : list (StackEntry T S unit)) t pre post :
  wf_node cx H root -> frames cx root st t pre post ->
  Forall (fun e => exists h, wf_node cx h (se_tree e)) st.
Proof.
  intros Hroot. induction 1 as [|st h cts ix t pre post Hf IH Ht]; [done|]. constructor; [|done].
  destruct (frames_wf cx _ _ _ _ _ _ Hroot Hf) as (k & Hk & _). simpl. eauto.
Qed.

(** The result of [iter_next] read off the cursor search. *)
Lemma iter_done root H j0 r it_fuel stack descend :
  wf_node cx H root -> H < STACK_CAPACITY -> j0 <= length (to_list root) ->
  Forall (fun e => exists h, wf_node cx h (se_tree e)) stack ->
  search_forward_loop cx all it_fuel stack tt descend = Ok r -> forward_done cx all root j0 r ->
  exists stk, iter_loop it_fuel stack descend = Ok (stk, to_list root !! j0) /\
    (j0 < length (to_list root) -> at_leaf cx root stk j0) /\ (j0 = length (to_list root) -> stk = []).
Proof.
  intros Hw Hh Hj Hwf El Hd. rewrite (iter_loop_forward _ _ _ _ Hwf El).
  destruct (forward_done_cursor cx all root H j0 Hh r Hd Hj) as (j & Ej & _ & Hcase).
  rewrite first_match_all, Nat.add_0_r in Ej. subst j. exists r.1.1.
  destruct Hcase as [(Hlt & Hleaf & _)|(-> & -> & _)].
  - split; [|split; [done|lia]].
    destruct Hleaf as (ix & pos & st & pre & post & l & -> & Hf & Hix & ->). simpl.
    by rewrite (frames_lookup cx _ _ _ _ _ _ Hf).
  - rewrite lookup_ge_None_2 by done. split; [done|]. split; [lia|done].
Qed.

(** An iterator that has returned item [i], or a fresh one. *)
Definition iter_at t (it : Iter) (j0 : nat) : Prop :=
  it_tree it = t /\
  ((j0 = 0 /\ it_stack it = []) \/ (exists i, at_leaf (D := unit) cx t (it_stack it) i /\ j0 = Datatypes.S i)).

Lemma iter_next_ok t it j0 :
  wf_tree cx t -> node_height t < STACK_CAPACITY -> iter_at t it j0 -> j0 <= length (to_list t) ->
  exists it', iter_next it = Ok (it', to_list t !! j0) /\
    (j0 < length (to_list t) -> iter_at t it' (Datatypes.S j0)) /\
    (j0 = length (to_list t) -> it' = iter_new t).
Proof.
  intros Hw Hh (Ht & Hit) Hj. unfold iter_next. rewrite Ht.
  destruct Hw as [[s ->]|[H Hw]].
  { destruct Hit as [(-> & ->)|(i & Hleaf & ->)]; [|simpl in Hj; lia].
    eexists. split; [reflexivity|]. simpl. split; [lia|done]. }
  rewrite (wf_node_height cx _ _ Hw) in Hh.
  assert (Hfin : forall stack descend it_fuel,
    Forall (fun e => exists h, wf_node cx h (se_tree e)) stack ->
    (exists r, search_forward_loop cx all it_fuel stack tt descend = Ok r /\ forward_done cx all t j0 r) ->
    exists it', (let! (stack, x) := iter_loop it_fuel stack descend in Ok (mkIter t stack, x)) =
        Ok (it', to_list t !! j0) /\
      (j0 < length (to_list t) -> iter_at t it' (Datatypes.S j0)) /\
      (j0 = length (to_list t) -> it' = iter_new t)).
  { intros stack descend it_fuel Hwf (r & El & Hd).
    destruct (iter_done t H j0 r it_fuel stack descend Hw Hh Hj Hwf El Hd) as (stk & -> & Hlt & Heq).
    simpl. eexists; split; [reflexivity|]. split; [|by intros ->%Heq].
    intros Hl. split; [done|]. right. exists j0. auto. }
  destruct Hit as [(-> & Hst)|(i & Hleaf & ->)].
  - rewrite Hst, stack_push_Ok by (simpl; unfold STACK_CAPACITY; lia). cbn [obind].
    apply Hfin; [repeat constructor; simpl; eauto|].
    pose proof (forward_from_root (D := unit) cx all t H (2 * node_count t + length (@nil (StackEntry T S unit)) + 3) Hw Hh (all_sound cx)) as F.
    apply F. simpl. lia.
  - pose proof Hleaf as (ix & pos & st & pre & post & l & Hst & Hf & _). rewrite Hst. cbn [obind]. rewrite <- Hst.
    apply Hfin.
    + rewrite Hst. constructor; [|by eapply frames_stack_wf].
      destruct (frames_wf cx _ _ _ _ _ _ Hw Hf) as (k & Hk & _). simpl. eauto.
    + apply (forward_from_leaf (D := unit) cx all t H _ i _ _ Hw Hh (all_sound cx) Hleaf).
      * by destruct (position_at cx (to_list t) i).
      * lia.
Qed.

Lemma iter_collect_loop_ok t it j0 fuel :
  wf_tree cx t -> node_height t < STACK_CAPACITY -> iter_at t it j0 -> j0 <= length (to_list t) ->
  length (to_list t) < j0 + fuel ->
  iter_collect_loop fuel it (take j0 (to_list t)) = Ok (to_list t).
Proof.
  intros Hw Hh. revert it j0. induction fuel as [|fuel IH]; intros it j0 Hit Hj Hf; [lia|].
  simpl. destruct (iter_next_ok t it j0 Hw Hh Hit Hj) as (it' & -> & Hlt & Heq). cbn [obind].
  destruct (to_list t !! j0) as [x|] eqn:Hx.
  - rewrite <- (take_S_r _ _ _ Hx). apply lookup_lt_Some in Hx. apply IH; [auto|lia|lia].
  - apply lookup_ge_None in Hx. by rewrite take_ge.
Qed.

Lemma iter_collect_ok t :
  wf_tree cx t -> node_height t < STACK_CAPACITY -> iter_collect t = Ok (to_list t).
Proof.
  intros Hw Hh. unfold iter_collect. change (@nil T) with (take 0 (to_list t)).
  apply iter_collect_loop_ok; [done|done| |lia|lia]. split; [done|by left].
Qed.

Lemma items_loop_ok t (c : Cursor T S unit) i fuel :
  wf_tree cx t -> node_height t < STACK_CAPACITY -> cursor_at cx t c i ->
  length (to_list t) < i + fuel ->
  items_loop cx fuel c (take i (to_list t)) = Ok (to_list t).
Proof.
  intros Hw Hh. revert c i. induction fuel as [|fuel IH]; intros c i Hc Hf.
  { pose proof (cursor_at_bound cx _ _ _ Hc). lia. }
  simpl. rewrite (cursor_at_item cx _ _ _ Hc). cbn [obind].
  destruct (to_list t !! i) as [x|] eqn:Hx.
  - rewrite <- (take_S_r _ _ _ Hx). apply lookup_lt_Some in Hx.
    destruct (next_ok cx t c (Datatypes.S i) Hw Hh) as (c' & -> & Hc').
    { left. exists i. split; [done|lia]. }
    cbn [obind]. apply IH; [done|lia].
  - apply lookup_ge_None in Hx. by rewrite take_ge.
Qed.

Lemma items_ok t :
  wf_tree cx t -> node_height t < STACK_CAPACITY -> items cx t = Ok (to_list t).
Proof.
  intros Hw Hh. unfold items.
  destruct (next_ok cx t (cursor_new cx t : Cursor T S unit) 0 Hw Hh) as (c & -> & Hc); [right; auto|].
  cbn [obind]. change (@nil T) with (take 0 (to_list t)). apply items_loop_ok; [done|done|done|lia].
Qed.
End Iteration.

(** ** The iterators *)
Section Iterators.
Context {Cx T S D : Type}.
Context `{!Summary Cx S, !SummaryLaws Cx S, !Item Cx T S, !Dimension Cx S D, !DimensionLaws Cx S D}.
Variables (cx : Cx) (p : S -> bool).
Implicit Types (t : tree T S) (c : Cursor T S D) (fc : FilterCursor (T := T) (S := S) (D := D)).

(** [collect] of a [FilterCursor]. *)
Fixpoint filter_collect_loop (fuel : nat) fc (acc : list T) : outcome (list T) :=
  match fuel with
  | 0 => OutOfFuel
  | Datatypes.S fuel =>
      let! (fc, x) := filter_iter_next cx fc in
      match x with
      | Some x => filter_collect_loop fuel fc (acc ++ [x])
      | None => Ok acc
      end
  end.

Definition filter_collect t : outcome (list T) :=
  filter_collect_loop (length (to_list t) + 1) (filter_new cx t p) [].

Lemma first_match_lookup (l : list T) j0 :
  l !! (j0 + first_match cx p (drop j0 l)) = head (List.filter (accepts cx p) (drop j0 l)).
Proof.
  rewrite <- lookup_drop. induction (drop j0 l) as [|x r IH]; [done|]. simpl.
  by destruct (accepts cx p x).
Qed.

Lemma filter_drop_first_match (l : list T) x r :
  List.filter (accepts cx p) l = x :: r ->
  List.filter (accepts cx p) (drop (Datatypes.S (first_match cx p l)) l) = r /\ first_match cx p l < length l.
Proof.
  induction l as [|y l IH]; simpl; [done|]. destruct (accepts cx p y).
  - intros [= <- <-]. rewrite drop_0. split; [done|lia].
  - intros H. destruct (IH H). split; [done|lia].
Qed.

(** A filtered cursor whose next search result is at or after [j0]. *)
Definition filter_at t fc (j0 : nat) : Prop :=
  fc_filter_node fc = p /\
  ((j0 = 0 /\ fc_cursor fc = cursor_new cx t) \/
   cursor_at cx t (fc_cursor fc) (j0 + first_match cx p (drop j0 (to_list t)))).

Lemma filter_iter_next_ok t fc j0 :
  wf_tree cx t -> node_height t < STACK_CAPACITY -> filter_sound (T := T) cx p -> filter_at t fc j0 ->
  exists fc', filter_iter_next cx fc =
      Ok (fc', head (List.filter (accepts cx p) (drop j0 (to_list t)))) /\
    forall x r, List.filter (accepts cx p) (drop j0 (to_list t)) = x :: r ->
      exists j1, j0 < j1 <= length (to_list t) /\ filter_at t fc' j1 /\
        List.filter (accepts cx p) (drop j1 (to_list t)) = r.
Proof.
  intros Hw Hh Hs (Hf & Hat).
  assert (Hpos : exists c, (if did_seek (fc_cursor fc) then Ok fc else filter_next cx fc) =
      Ok (mkFilterCursor c p) /\ cursor_at cx t c (j0 + first_match cx p (drop j0 (to_list t)))).
  { destruct Hat as [(-> & E)|Hat].
    - destruct (search_forward_ok cx p t (fc_cursor fc) 0 Hw Hh Hs) as (c & Ec & Hc); [right; auto|].
      exists c. unfold filter_next. rewrite Hf, Ec, E. done.
    - exists (fc_cursor fc). split; [|exact Hat].
      pose proof Hat as (_ & -> & _). rewrite <- Hf. by destruct fc. }
  destruct Hpos as (c & E & Hc). unfold filter_iter_next. rewrite E. cbn [obind].
  unfold filter_item. cbn [fc_cursor]. rewrite (cursor_at_item cx _ _ _ Hc), first_match_lookup. cbn [obind].
  destruct (List.filter _ _) as [|x r] eqn:El; simpl; [eexists; split; [reflexivity|done]|].
  destruct (filter_drop_first_match _ _ _ El) as (Hr & Hlt). rewrite length_drop in Hlt.
  unfold filter_next. cbn [fc_cursor fc_filter_node].
  set (j1 := Datatypes.S (j0 + first_match cx p (drop j0 (to_list t)))).
  destruct (search_forward_ok cx p t c j1 Hw Hh Hs) as (c' & -> & Hc').
  { left. exists (j0 + first_match cx p (drop j0 (to_list t))). split; [done|lia]. }
  eexists; split; [reflexivity|]. intros ? ? [= <- <-]. exists j1. split; [lia|]. split; [|].
  - split; [done|by right].
  - rewrite <- Hr, drop_drop. unfold j1. by rewrite Nat.add_succ_r.
Qed.

Lemma filter_collect_loop_ok t fc j0 fuel acc :
  wf_tree cx t -> node_height t < STACK_CAPACITY -> filter_sound (T := T) cx p -> filter_at t fc j0 ->
  j0 <= length (to_list t) -> length (to_list t) < j0 + fuel ->
  filter_collect_loop fuel fc acc = Ok (acc ++ List.filter (accepts cx p) (drop j0 (to_list t))).
Proof.
  intros Hw Hh Hs. revert fc j0 acc. induction fuel as [|fuel IH]; intros fc j0 acc Hf Hj Hfuel; [lia|].
  simpl. destruct (filter_iter_next_ok t fc j0 Hw Hh Hs Hf) as (fc' & -> & Hnext). cbn [obind].
  destruct (List.filter _ _) as [|x r]; simpl; [by rewrite app_nil_r|].
  destruct (Hnext x r eq_refl) as (j1 & Hj1 & Hat & <-).
  rewrite (IH _ _ _ Hat) by lia. by rewrite <- app_assoc.
Qed.

Lemma filter_collect_ok t :
  wf_tree cx t -> node_height t < STACK_CAPACITY -> filter_sound (T := T) cx p ->
  filter_collect t = Ok (List.filter (accepts cx p) (to_list t)).
Proof.
  intros Hw Hh Hs. unfold filter_collect.
  assert (Hat : filter_at t (filter_new cx t p) 0) by (split; [reflexivity|left; split; reflexivity]).
  rewrite (filter_collect_loop_ok t _ 0 _ [] Hw Hh Hs Hat) by lia. done.
Qed.

(** [search_forward] and [search_backward] (the [next] and [prev] of a
    [FilterCursor]) return from every state of a cursor on a well-formed tree.  The first
    stands on the first item from the start of the search whose summary the filter
    accepts, or past the end when there is none; the second on the last item before it
    that the filter accepts, or before the first item (at the end, if the tree is
    empty). *)
Theorem searches_correct t c j0 :
  wf_tree cx t -> node_height t < STACK_CAPACITY -> filter_sound (T := T) cx p ->
  (next_start cx t c j0 -> exists c', search_forward cx p c = Ok c' /\
     cursor_at cx t c' (j0 + first_match cx p (drop j0 (to_list t))) /\
     item c' = Ok (head (List.filter (accepts cx p) (drop j0 (to_list t))))) /\
  (prev_start cx t c j0 -> exists c', search_backward cx p c = Ok c' /\
     match last_match cx p (take j0 (to_list t)) with
     | Some j => cursor_at cx t c' j
     | None => cursor_before cx t c' \/ (to_list t = [] /\ cursor_at cx t c' 0)
     end).
Proof.
  intros Hw Hh Hs. split; [|exact (search_backward_ok cx p t c j0 Hw Hh Hs)].
  intros Hst. destruct (search_forward_ok cx p t c j0 Hw Hh Hs Hst) as (c' & E & Hc).
  exists c'. split_and!; [done|done|]. by rewrite (cursor_at_item cx _ _ _ Hc), first_match_lookup.
Qed.

(** [next] and [prev] are inverse to each other on a positioned cursor: [next]
    moves one item forward and [prev] one back; [prev] after the end stands on the
    last item, [prev] from the first item before the start, and [next] from there
    on the first item again. *)
Theorem next_prev_correct t c i :
  wf_tree cx t -> node_height t < STACK_CAPACITY -> cursor_at cx t c i ->
  (exists c', cursor_next cx c = Ok c' /\ cursor_at cx t c' (min (Datatypes.S i) (length (to_list t))) /\
     (i < length (to_list t) -> exists c'', cursor_prev cx c' = Ok c'' /\ cursor_at cx t c'' i)) /\
  (exists c', cursor_prev cx c = Ok c' /\
     (0 < i -> cursor_at cx t c' (i - 1)) /\
     (i = 0 -> to_list t <> [] -> cursor_before cx t c') /\
     (to_list t <> [] -> exists c'', cursor_next cx c' = Ok c'' /\ cursor_at cx t c'' i)).
Proof.
  intros Hw Hh Hc. pose proof (cursor_at_bound cx _ _ _ Hc) as Hi. split.
  - destruct (next_ok cx t c _ Hw Hh (or_introl (ex_intro _ i (conj Hc eq_refl)))) as (c' & E & Hc').
    exists c'. split_and!; [done|done|]. intros Hlt. rewrite Nat.min_l in Hc' by lia.
    exact (prev_ok cx t c' _ Hw Hh (or_introl Hc') Hlt).
  - destruct (prev_ok cx t c _ Hw Hh (or_introl Hc) Hi) as (c' & E & Hl). exists c'. split; [done|].
    destruct i as [|i]; simpl in Hl.
    + split; [lia|]. split.
      * intros _ Hne. by destruct Hl as [?|(? & _)].
      * intros Hne. destruct Hl as [Hb|(? & _)]; [|done]. apply next_ok; auto. right. auto.
    + rewrite Nat.sub_1_r. simpl. split; [done|]. split; [lia|]. intros _.
      apply next_ok; auto. left. exists i. split; [done|lia].
Qed.

(** The readers of a positioned cursor: [item], [next_item] and [prev_item]
    are the items at, after and before it, [start] is the sum of the summaries of
    the items before it, and [end] adds the current item's. *)
Theorem readers_correct t c i :
  wf_tree cx t -> cursor_at cx t c i ->
  item c = Ok (to_list t !! i) /\
  next_item c = Ok (to_list t !! Datatypes.S i) /\
  prev_item c = Ok (match i with 0 => None | Datatypes.S j => to_list t !! j end) /\
  item_summary c = Ok (summary cx <$> to_list t !! i) /\
  start c = position_at cx (to_list t) i /\
  cursor_end cx c = Ok (position_at cx (to_list t) (Datatypes.S i)).
Proof.
  intros Hw Hc. split_and!; [by apply (cursor_at_item cx)|by apply (next_item_ok cx)
    |by apply (prev_item_ok cx)|by apply cursor_at_item_summary|by apply (cursor_at_start cx)
    |by apply cursor_at_end].
Qed.

(** Enumeration: [SumTree::items] and collecting [SumTree::iter] both give
    the items of the tree in order, and collecting a [FilterCursor] gives exactly
    the items the filter accepts, in order. *)
Theorem enumeration_correct t :
  wf_tree cx t -> node_height t < STACK_CAPACITY ->
  items cx t = Ok (to_list t) /\ iter_collect t = Ok (to_list t) /\
  (filter_sound (T := T) cx p -> filter_collect t = Ok (List.filter (accepts cx p) (to_list t))).
Proof.
  intros Hw Hh. split_and!; [by apply items_ok|by apply (iter_collect_ok cx)|by apply filter_collect_ok].
Qed.
End Iterators.

(** ** Concrete runs *)
Module MoveExamples.
Import Integers SeekExamples.

Lemma items_count (l : list nat) : contains_even (items_summary tt l) = existsb Nat.even l.
Proof.
  induction l as [|x l IH] using rev_ind; [done|].
  rewrite items_summary_app, existsb_app, items_summary_singleton by done. simpl.
  by rewrite IH, orb_false_r.
Qed.

Lemma even_sound : filter_sound (T := nat) tt contains_even.
Proof.
  intros l _. rewrite items_count. intros H. induction l as [|x l IH]; [done|].
  simpl in H. apply orb_false_iff in H as [H1 H2]. constructor; auto.
Qed.

(** The cursor on item 17 of the sample tree. *)
Definition on_17 : Cursor nat IntegersSummary nat :=
  match seek tt (cursor_new tt sample) 17 Right with Ok (c, _) => c | _ => cursor_new tt sample end.

Lemma on_17_at : cursor_at tt sample on_17 17.
Proof.
  destruct (seek_ok tt sample (cursor_new tt sample : Cursor _ _ nat) 17 Right)
    as (c & i & E & Hat & Hl); [apply sample_wf|vm_compute; lia|done|done|].
  assert (on_17 = c) as -> by (unfold on_17; by rewrite E).
  apply lands_scan in Hl; [|apply count_monotone]. by rewrite Hl in Hat.
Qed.

Lemma searches_correct_witness :
  (exists c', search_forward tt contains_even on_17 = Ok c' /\ cursor_at tt sample c' 18) /\
  exists c', search_backward tt contains_even on_17 = Ok c' /\ cursor_at tt sample c' 16.
Proof.
  split.
  - destruct (searches_correct tt contains_even sample on_17 18) as [H _];
      [apply sample_wf|vm_compute; lia|apply even_sound|].
    destruct H as (c & E & Hc & _); [left; exists 17; split; [apply on_17_at|rewrite sample_items; reflexivity]|].
    exists c. split; [exact E|]. rewrite sample_items in Hc. exact Hc.
  - destruct (searches_correct tt contains_even sample on_17 17) as [_ H];
      [apply sample_wf|vm_compute; lia|apply even_sound|].
    destruct H as (c & E & Hc); [left; apply on_17_at|].
    exists c. split; [exact E|]. rewrite sample_items in Hc. exact Hc.
Defined.

Lemma next_prev_correct_witness :
  exists c', cursor_next tt on_17 = Ok c' /\ cursor_at tt sample c' 18.
Proof.
  destruct (next_prev_correct tt sample on_17 17 sample_wf) as [(c & E & Hc & _) _];
    [vm_compute; lia|apply on_17_at|].
  exists c. split; [exact E|]. rewrite sample_items in Hc. exact Hc.
Defined.

Lemma readers_correct_witness :
  item on_17 = Ok (Some 17) /\ next_item on_17 = Ok (Some 18) /\ prev_item on_17 = Ok (Some 16).
Proof.
  destruct (readers_correct tt sample on_17 17 sample_wf on_17_at) as (H1 & H2 & H3 & _).
  rewrite H1, H2, H3, sample_items. repeat split.
Defined.

Lemma enumeration_correct_witness :
  items tt sample = Ok (seq 0 40) /\
  filter_collect (D := nat) tt contains_even sample = Ok (List.filter Nat.even (seq 0 40)).
Proof.
  destruct (enumeration_correct (D := nat) tt contains_even sample sample_wf) as (H1 & _ & H3);
    [vm_compute; lia|].
  rewrite H1, (H3 even_sound), sample_items. repeat split.
Defined.
End MoveExamples.
