(* ===== verification/KeyedTree.v ===== *)
(** * Trees of keyed items: [impl<T: KeyedItem> SumTree<T>] of [crates/sum_tree/src/sum_tree.rs]

    [insert_or_replace], [remove], [edit] and [get], composed of cursor seeks,
    slices and appends the way the code composes them.  The specification is the
    list of the tree's items, kept strictly sorted by key.

    The first section is an interface for clients of cursors whose target orders
    the items: a [rank] of every item against the target decides where a seek
    lands.  TreeMap and TabStop use it too. *)

From stdpp Require Import base list option numbers sorting.
From S2P Require Import Prelude SumTree Cursor CursorSeek CursorMove.

(** ** Seeks among ranked items *)
Section Ranked.
Context {Cx T S D : Type}.
Context `{!Summary Cx S, !SummaryLaws Cx S, !Item Cx T S, !Dimension Cx S D, !DimensionLaws Cx S D}.
Context {Target : Type} `{!SeekTarget Cx D Target}.
Variables (cx : Cx) (target : Target) (rank : T -> comparison).
Implicit Types l : list T.

(** The target compares to the end of an item as it ranks the item. *)
Definition ranked l : Prop :=
  forall i x, l !! i = Some x -> target_cmp cx target (position_at cx l (Datatypes.S i)) = rank x.

(** Ranks never increase along the items. *)
Definition rank_monotone l : Prop :=
  forall i j x y, i < j -> l !! i = Some x -> l !! j = Some y ->
    (rank x = Lt -> rank y = Lt) /\ (rank y = Gt -> rank x = Gt).

(** A seek with this bias goes past the item. *)
Definition past (bias : Bias) (x : T) : bool :=
  match rank x with Gt => true | Eq => bias_eqb bias Right | Lt => false end.

Lemma past_monotone bias l i j x y :
  rank_monotone l -> i <= j -> l !! i = Some x -> l !! j = Some y ->
  past bias y = true -> past bias x = true.
Proof.
  intros Hm Hij Hx Hy. destruct (decide (i = j)) as [->|]; [by simplify_eq|].
  destruct (Hm i j x y ltac:(lia) Hx Hy) as [H1 H2]. unfold past.
  destruct (rank x) eqn:Ex, (rank y) eqn:Ey; naive_solver.
Qed.

Lemma passes_ranked bias l i x :
  ranked l -> l !! i = Some x -> passes cx target bias (position_at cx l (Datatypes.S i)) = past bias x.
Proof. intros Hr Hx. unfold passes, past. by rewrite (Hr _ _ Hx). Qed.

Lemma ranked_monotone bias l : ranked l -> rank_monotone l -> monotone_target cx target bias l.
Proof.
  intros Hr Hm [|i] [|j]; try lia. intros _ Hij Hj.
  destruct (lookup_lt_is_Some_2 l j ltac:(lia)) as [y Hy].
  destruct (lookup_lt_is_Some_2 l i ltac:(lia)) as [x Hx].
  rewrite (passes_ranked _ _ _ _ Hr Hx), (passes_ranked _ _ _ _ Hr Hy).
  exact (past_monotone bias l i j x y Hm ltac:(lia) Hx Hy).
Qed.

(** Where a seek lands splits the items into those it goes past and the others. *)
Lemma lands_ranked bias l i0 i :
  ranked l -> rank_monotone l -> Forall (fun x => past bias x = true) (take i0 l) ->
  lands cx target bias l i0 i ->
  Forall (fun x => past bias x = true) (take i l) /\ Forall (fun x => past bias x = false) (drop i l).
Proof.
  intros Hr Hm H0 (Hle & Hp & Hstop). split.
  - destruct Hp as [->|Hp]; [done|]. destruct i as [|i]; [constructor|].
    destruct (lookup_lt_is_Some_2 l i ltac:(lia)) as [y Hy].
    rewrite (passes_ranked _ _ _ _ Hr Hy) in Hp. apply Forall_lookup. intros j x Hx.
    apply lookup_take_Some in Hx as [Hx Hj]. by apply (past_monotone bias l j i x y Hm ltac:(lia)).
  - apply Forall_lookup. intros j x Hx. rewrite lookup_drop in Hx.
    assert (Hlt : i + j < length l) by (by apply lookup_lt_Some in Hx).
    destruct (lookup_lt_is_Some_2 l i ltac:(lia)) as [y Hy].
    specialize (Hstop ltac:(lia)). rewrite (passes_ranked _ _ _ _ Hr Hy) in Hstop.
    destruct (past bias x) eqn:Ep; [|done].
    by rewrite (past_monotone bias l i (i + j) y x Hm ltac:(lia) Hy Hx Ep) in Hstop.
Qed.

Lemma lands_filter bias l i :
  ranked l -> rank_monotone l -> lands cx target bias l 0 i ->
  take i l = List.filter (past bias) l /\ drop i l = List.filter (fun x => negb (past bias x)) l.
Proof.
  intros Hr Hm Hl. destruct (lands_ranked bias l 0 i Hr Hm (Forall_nil_2 _) Hl) as [Ht Hd].
  rewrite <- (take_drop i l) at 2 4. rewrite !List.filter_app.
  assert (Ht' : Forall (fun x => negb (past bias x) = false) (take i l)).
  { eapply Forall_weaken; [|exact Ht]. intros x Hx. cbn beta in *. by rewrite Hx. }
  assert (Hd' : Forall (fun x => negb (past bias x) = true) (drop i l)).
  { eapply Forall_weaken; [|exact Hd]. intros x Hx. cbn beta in *. by rewrite Hx. }
  split; [rewrite bfilter_all, (bfilter_none _ (drop i l)) by done; by rewrite app_nil_r|].
  by rewrite bfilter_none, bfilter_all by done.
Qed.
End Ranked.

(** ** Keyed items *)

(** [trait KeyedItem]: the key is a dimension of the summary, and is ordered. *)
Class KeyedItem (T K : Type) := key : T -> K.

(** [impl<D: Dimension + Ord> SeekTarget<D> for D] *)
#[export] Instance ord_target {Cx D} `{Ord D} : SeekTarget Cx D D | 20 := {
  target_cmp _ a b := cmp a b;
}.

(** What keyed trees rely on: the zero key is least, and adding the summary of an
    item to a key that is not greater gives the key of the item. *)
Class KeyedItemLaws (Cx T S K : Type)
    `{Item Cx T S, Dimension Cx S K, Ord K, KeyedItem T K} : Prop := {
  key_zero_le : forall (cx : Cx) (k : K), cmp (dim_zero cx) k <> Gt;
  key_add : forall (cx : Cx) (d : K) (x : T),
    cmp d (key x) <> Gt -> dim_add_summary cx d (summary cx x) = key x;
}.

(** [enum Edit] *)
Inductive Edit (T K : Type) :=
| Insert (item : T)
| Remove (key : K).

Arguments Insert {T K} _.
Arguments Remove {T K} _.

Section Keyed.
Context {Cx T S K : Type}.
Context `{!Summary Cx S, !Item Cx T S, !Dimension Cx S K, !Ord K, !PartialEq K, !KeyedItem T K}.
Variable cx : Cx.
Implicit Types t : tree T S.

(** [Edit::key] *)
Definition edit_key (e : Edit T K) : K :=
  match e with Insert x => key x | Remove k => k end.

(** [cursor.next()] when the cursor's item has the key; the item is kept. *)
Definition take_item (c : Cursor T S K) (o : option T) (k : K)
    : outcome (Cursor T S K * option T) :=
  match o with
  | Some x => if peq (key x) k then let! c := cursor_next cx c in Ok (c, Some x) else Ok (c, None)
  | None => Ok (c, None)
  end.

Definition insert_or_replace t (x : T) : outcome (tree T S * option T) :=
  let! (c, new_tree) := slice cx (cursor_new cx t) (key x) Left in
  let! o := item c in
  let! (c, replaced) := take_item c o (key x) in
  let! new_tree := push cx new_tree x in
  let! (c, rest) := suffix cx c in
  let! new_tree := append cx new_tree rest in
  Ok (new_tree, replaced).

Definition remove t (k : K) : outcome (tree T S * option T) :=
  let! (c, new_tree) := slice cx (cursor_new cx t) k Left in
  let! o := item c in
  let! (c, removed) := take_item c o k in
  let! (c, rest) := suffix cx c in
  let! new_tree := append cx new_tree rest in
  Ok (new_tree, removed).

(** The state of the loop of [edit]. *)
Record EditState := mkEditState {
  es_cursor : Cursor T S K;
  es_tree : tree T S;
  es_buffered : list T;
  es_removed : list T;
}.

(** The body of the loop of [edit]. *)
Definition edit_step (st : EditState) (e : Edit T K) : outcome EditState :=
  let new_key := edit_key e in
  let! old_item := item (es_cursor st) in
  let! (c, new_tree, buffered, old_item) :=
    (if match old_item with Some x => ltb (key x) new_key | None => false end then
       let! new_tree := extend cx (es_tree st) (es_buffered st) in
       let! (c, slice) := slice cx (es_cursor st) new_key Left in
       let! new_tree := append cx new_tree slice in
       let! old_item := item c in
       Ok (c, new_tree, [], old_item)
     else Ok (es_cursor st, es_tree st, es_buffered st, old_item)) in
  let! (c, taken) := take_item c old_item new_key in
  let removed := es_removed st ++ match taken with Some x => [x] | None => [] end in
  let buffered := match e with Insert x => buffered ++ [x] | Remove _ => buffered end in
  Ok (mkEditState c new_tree buffered removed).

(** [edit] once the edits are sorted. *)
Definition edit_sorted t (edits : list (Edit T K)) : outcome (tree T S * list T) :=
  let! (c, _) := seek cx (cursor_new cx t) (dim_zero cx : K) Left in
  let! st := ofold edit_step edits (mkEditState c (new cx) [] []) in
  let! new_tree := extend cx (es_tree st) (es_buffered st) in
  let! (c, rest) := suffix cx (es_cursor st) in
  let! new_tree := append cx new_tree rest in
  Ok (new_tree, es_removed st).

(** [sort_unstable_by_key]; the order it leaves equal keys in is not specified,
    here they stay as they are. *)
Fixpoint insert_edit (e : Edit T K) (l : list (Edit T K)) : list (Edit T K) :=
  match l with
  | [] => [e]
  | e' :: l' => if ltb (edit_key e') (edit_key e) then e' :: insert_edit e l' else e :: l
  end.

Definition sort_edits (l : list (Edit T K)) : list (Edit T K) := foldr insert_edit [] l.

Definition edit t (edits : list (Edit T K)) : outcome (tree T S * list T) :=
  match edits with
  | [] => Ok (t, [])
  | _ :: _ => edit_sorted t (sort_edits edits)
  end.

Definition get t (k : K) : outcome (option T) :=
  let! (c, found) := seek cx (cursor_new cx t) k Left in
  if (found : bool) then item c else Ok None.
End Keyed.

Arguments mkEditState {T S K} _ _ _ _.
Arguments es_cursor {T S K} _.
Arguments es_tree {T S K} _.
Arguments es_buffered {T S K} _.
Arguments es_removed {T S K} _.

(** ** The specification: lists sorted by key *)
Section Spec.
Context {T K : Type} `{!Ord K, !OrdLaws K, !KeyedItem T K}.
Implicit Types (l : list T) (k : K).

Definition key_lt (x y : T) : Prop := cmp (key x : K) (key y) = Lt.

Definition sorted l : Prop := StronglySorted key_lt l.

(** The items with smaller keys, with the key, with greater keys. *)
Definition below k l : list T := List.filter (fun x => ltb (key x) k) l.
Definition at_key k l : list T := List.filter (fun x => eqb (key x) k) l.
Definition above k l : list T := List.filter (fun x => ltb k (key x)) l.

(** The item with the key. *)
Definition find_key k l : option T := head (at_key k l).

Lemma below_Forall k l : Forall (fun x => cmp (key x) k = Lt) (below k l).
Proof.
  unfold below. eapply Forall_weaken; [|apply bfilter_Forall]. intros x. apply ltb_spec.
Qed.

Lemma above_Forall k l : Forall (fun x => cmp k (key x) = Lt) (above k l).
Proof.
  unfold above. eapply Forall_weaken; [|apply bfilter_Forall]. intros x. apply ltb_spec.
Qed.

Lemma at_key_Forall k l : Forall (fun x => key x = k) (at_key k l).
Proof.
  unfold at_key. eapply Forall_weaken; [|apply bfilter_Forall]. intros x. apply eqb_spec.
Qed.

Lemma partition_above k l :
  Forall (fun x => cmp k (key x) = Lt) l -> below k l = [] /\ at_key k l = [] /\ above k l = l.
Proof.
  intros H. split_and!; [apply bfilter_none|apply bfilter_none|apply bfilter_all];
    (eapply Forall_weaken; [|exact H]); intros x Hx; simpl; unfold ltb, eqb;
    rewrite ?(cmp_flip k (key x)), Hx; done.
Qed.

Lemma partition_below k l :
  Forall (fun x => cmp (key x) k = Lt) l -> below k l = l /\ at_key k l = [] /\ above k l = [].
Proof.
  intros H. split_and!; [apply bfilter_all|apply bfilter_none|apply bfilter_none];
    (eapply Forall_weaken; [|exact H]); intros x Hx; simpl; unfold ltb, eqb;
    rewrite ?(cmp_flip (key x) k), Hx; done.
Qed.

Lemma partition_at k l :
  Forall (fun x => key x = k) l -> below k l = [] /\ at_key k l = l /\ above k l = [].
Proof.
  intros H. split_and!; [apply bfilter_none|apply bfilter_all|apply bfilter_none];
    (eapply Forall_weaken; [|exact H]); intros x Hx; cbn beta in Hx |- *; unfold ltb, eqb;
    by rewrite Hx, cmp_refl.
Qed.

Lemma above_cons k x l : sorted (x :: l) -> cmp k (key x) <> Gt -> Forall (fun y => cmp k (key y) = Lt) l.
Proof.
  intros [Hs Hx]%StronglySorted_inv Hk. eapply Forall_weaken; [|exact Hx]. intros y Hy.
  destruct (cmp k (key x)) eqn:E; [|by eapply cmp_lt_trans|done]. apply cmp_eq in E as ->. done.
Qed.

Lemma sorted_split k l : sorted l -> l = below k l ++ at_key k l ++ above k l.
Proof.
  induction l as [|x l IH]; [done|]. intros Hs. pose proof (StronglySorted_inv Hs) as [Hs' _].
  unfold below, at_key, above. simpl. fold (below k l) (at_key k l) (above k l).
  destruct (cmp (key x) k) eqn:E.
  - destruct (partition_above k l) as (E1 & E2 & E3).
    { eapply above_cons; [exact Hs|]. by rewrite cmp_flip, E. }
    unfold ltb, eqb. rewrite (cmp_flip (key x) k), E, E1, E2, E3. done.
  - unfold ltb, eqb. rewrite (cmp_flip (key x) k), E. simpl. by rewrite <- IH.
  - destruct (partition_above k l) as (E1 & E2 & E3).
    { eapply above_cons; [exact Hs|]. by rewrite cmp_flip, E. }
    unfold ltb, eqb. rewrite (cmp_flip (key x) k), E, E1, E2, E3. done.
Qed.

Lemma sorted_app l1 l2 :
  sorted (l1 ++ l2) <-> (forall x y, x ∈ l1 -> y ∈ l2 -> key_lt x y) /\ sorted l1 /\ sorted l2.
Proof. apply StronglySorted_app. Qed.

Lemma sorted_parts k l : sorted l -> sorted (below k l) /\ sorted (at_key k l) /\ sorted (above k l).
Proof.
  intros Hs. pose proof Hs as Hs'. rewrite (sorted_split k l Hs') in Hs.
  apply sorted_app in Hs as (_ & ? & (_ & ? & ?)%sorted_app). done.
Qed.

(** At most one item has the key. *)
Lemma at_key_sorted k l : sorted l -> at_key k l = match find_key k l with Some x => [x] | None => [] end.
Proof.
  intros Hs. destruct (sorted_parts k l Hs) as (_ & Ha & _). pose proof (at_key_Forall k l) as Hk.
  unfold find_key. destruct (at_key k l) as [|x [|y r]]; [done..|]. exfalso.
  apply StronglySorted_inv in Ha as [_ Hx]. apply Forall_cons_iff in Hx as [Hx _].
  inversion Hk as [|? ? Ex Hk']. inversion Hk' as [|? ? Ey _].
  unfold key_lt in Hx. rewrite Ex, Ey in Hx. by apply cmp_lt_irrefl in Hx.
Qed.

(** Replacing the items with the key. *)
Lemma sorted_replace k l o :
  sorted l -> (forall x, o = Some x -> key x = k) ->
  sorted (below k l ++ opt_list o ++ above k l).
Proof.
  intros Hs Ho. destruct (sorted_parts k l Hs) as (Hb & _ & Ha).
  pose proof (below_Forall k l) as Fb. pose proof (above_Forall k l) as Fa.
  rewrite Forall_forall in Fb, Fa.
  apply sorted_app. split_and!; [|done|].
  - intros x y Hx Hy. apply list_elem_of_In in Hx as Hx'. apply Fb in Hx.
    apply elem_of_app in Hy as [Hy|Hy].
    + destruct o as [z|]; simpl in Hy; [|by apply elem_of_nil in Hy].
      apply list_elem_of_singleton in Hy as ->. unfold key_lt. by rewrite (Ho z eq_refl).
    + apply Fa in Hy. by eapply cmp_lt_trans.
  - destruct o as [z|]; simpl; [|done]. apply SSorted_cons; [done|]. apply Forall_forall.
    intros y Hy. unfold key_lt. rewrite (Ho z eq_refl). by apply Fa.
Qed.

Lemma find_key_app k l1 l2 :
  find_key k (l1 ++ l2) = match find_key k l1 with Some x => Some x | None => find_key k l2 end.
Proof. unfold find_key, at_key. rewrite List.filter_app. by destruct (List.filter _ l1). Qed.
End Spec.

(** ** The operations *)
Section KeyedOps.
Context {Cx T S K : Type}.
Context `{!Summary Cx S, !SummaryLaws Cx S, !Item Cx T S, !Dimension Cx S K, !DimensionLaws Cx S K}.
Context `{!Ord K, !OrdLaws K, !PartialEq K, !PartialEqLaws K, !KeyedItem T K, !KeyedItemLaws Cx T S K}.
Variable cx : Cx.
Implicit Types (t : tree T S) (l : list T) (k : K).

(** The position of a cursor is the key of the item before it. *)
Lemma position_key l i x :
  sorted l -> l !! i = Some x -> position_at cx l (Datatypes.S i) = key x.
Proof.
  intros Hs. revert x. induction i as [|i IH]; intros x Hx; rewrite (position_at_S cx _ _ _ Hx).
  - apply key_add. apply key_zero_le.
  - destruct (lookup_lt_is_Some_2 l i) as [y Hy]; [apply lookup_lt_Some in Hx; lia|].
    rewrite (IH _ Hy). apply key_add.
    assert (key_lt y x) as ->; [|done].
    rewrite <- (take_drop_middle _ _ _ Hy) in Hs. apply StronglySorted_app_1_r in Hs.
    apply StronglySorted_inv in Hs as [_ Hs]. rewrite Forall_forall in Hs. apply Hs.
    apply list_elem_of_lookup. exists 0. rewrite lookup_drop, Nat.add_0_r. done.
Qed.

Lemma sorted_lookup l i j x y :
  sorted l -> i < j -> l !! i = Some x -> l !! j = Some y -> key_lt x y.
Proof.
  intros Hs Hij Hx Hy. rewrite <- (take_drop_middle _ _ _ Hx) in Hs.
  apply StronglySorted_app_1_r, StronglySorted_inv in Hs as [_ Hs]. rewrite Forall_forall in Hs. apply Hs.
  apply list_elem_of_lookup. exists (j - Datatypes.S i). rewrite lookup_drop, <- Hy. f_equal. lia.
Qed.

(** How a key ranks the items. *)
Definition key_rank k (x : T) : comparison := cmp k (key x).

Lemma ranked_keys k l : sorted l -> ranked (Target := K) cx k (key_rank k) l.
Proof. intros Hs i x Hx. simpl. by rewrite (position_key _ _ _ Hs Hx). Qed.

Lemma rank_monotone_keys k l : sorted l -> rank_monotone (key_rank k) l.
Proof.
  intros Hs i j x y Hij Hx Hy. pose proof (sorted_lookup _ _ _ _ _ Hs Hij Hx Hy) as Hlt.
  unfold key_rank. split; intros Hk; [by eapply cmp_lt_trans|].
  apply cmp_gt in Hk. apply cmp_gt. by eapply cmp_lt_trans.
Qed.

Lemma past_left k x : past (key_rank k) Left x = ltb (key x) k.
Proof. unfold past, key_rank, ltb. rewrite (cmp_flip (key x) k). by destruct (cmp (key x) k). Qed.

(** A place with the items a seek with [Bias::Left] goes past before it. *)
Lemma landing_below k l i :
  sorted l -> i <= length l ->
  Forall (fun x => past (key_rank k) Left x = true) (take i l) ->
  Forall (fun x => past (key_rank k) Left x = false) (drop i l) ->
  i = length (below k l) /\ take i l = below k l /\ drop i l = at_key k l ++ above k l.
Proof.
  intros Hs Hi Ht Hd.
  assert (Eb : take i l = below k l).
  { unfold below. rewrite <- (take_drop i l) at 2. rewrite List.filter_app.
    rewrite bfilter_all, bfilter_none, app_nil_r; [done|..].
    - eapply Forall_weaken; [|exact Hd]. intros x; cbn beta; by rewrite past_left.
    - eapply Forall_weaken; [|exact Ht]. intros x; cbn beta; by rewrite past_left. }
  split; [|split; [done|]].
  - by rewrite <- Eb, length_take_le.
  - apply (app_inv_head (take i l)). rewrite take_drop, Eb. by apply sorted_split.
Qed.

(** Where a seek to a key with [Bias::Left] lands. *)
Lemma lands_below k l i0 i :
  sorted l -> Forall (fun x => ltb (key x) k = true) (take i0 l) ->
  lands cx k Left l i0 i ->
  i = length (below k l) /\ take i l = below k l /\ drop i l = at_key k l ++ above k l.
Proof.
  intros Hs H0 Hl.
  destruct (lands_ranked cx k (key_rank k) Left l i0 i) as [Ht Hd]; try done.
  - by apply ranked_keys.
  - by apply rank_monotone_keys.
  - eapply Forall_weaken; [|exact H0]. intros x; cbn beta; by rewrite past_left.
  - apply landing_below; [done|apply Hl|done|done].
Qed.

Lemma below_ge_position k l i0 :
  Forall (fun x => ltb (key x) k = true) (take i0 l) -> sorted l ->
  ordering_is_ge (target_cmp cx k (position_at cx l i0)) = true.
Proof.
  intros H0 Hs. simpl.
  assert (Hle : cmp (position_at cx l i0 : K) k <> Gt).
  { destruct i0 as [|i0]; [apply key_zero_le|].
    destruct (decide (i0 < length l)) as [Hlt|Hge].
    - destruct (lookup_lt_is_Some_2 l i0 Hlt) as [x Hx]. rewrite (position_key _ _ _ Hs Hx).
      rewrite (take_S_r _ _ _ Hx), Forall_snoc in H0. destruct H0 as [_ H0]. apply ltb_spec in H0.
      by rewrite H0.
    - destruct l as [|y l _] using rev_ind; [apply key_zero_le|].
      rewrite length_app in Hge. simpl in Hge.
      rewrite position_at_ge by (rewrite length_app; simpl; lia).
      rewrite take_ge in H0 by (rewrite length_app; simpl; lia). rewrite Forall_snoc in H0.
      rewrite <- (position_at_ge cx (l ++ [y]) (Datatypes.S (length l))) by (rewrite length_app; simpl; lia).
      rewrite (position_key _ _ y Hs) by (by rewrite lookup_app_r, Nat.sub_diag).
      destruct H0 as [_ H0%ltb_spec]. by rewrite H0. }
  rewrite (cmp_flip (position_at cx l i0) k). by destruct (cmp (position_at cx l i0) k).
Qed.

(** Slicing up to a key. *)
Lemma slice_key_ok t (c : Cursor T S K) i0 k :
  wf_tree cx t -> node_height t < STACK_CAPACITY -> sorted (to_list t) -> cursor_ready cx t c i0 ->
  Forall (fun x => ltb (key x) k = true) (take i0 (to_list t)) ->
  exists c' t', slice cx c k Left = Ok (c', t') /\
    cursor_at cx t c' (length (below k (to_list t))) /\
    wf_tree cx t' /\ to_list t' = drop i0 (below k (to_list t)).
Proof.
  intros Hw Hh Hs Hc H0.
  destruct (slice_ok cx t c i0 k Left Hw Hh Hc) as (c' & t' & i & E & Hat & Hl & Hw' & Hi).
  { by apply below_ge_position. }
  destruct (lands_below k _ _ _ Hs H0 Hl) as (Ei & Et & _). exists c', t'. subst i.
  rewrite Hi, Et. done.
Qed.

Lemma below_take k l : sorted l -> take (length (below k l)) l = below k l.
Proof. intros Hs. rewrite (sorted_split k l Hs) at 2. by rewrite take_app_length. Qed.

Lemma drop_below k l : sorted l -> drop (length (below k l)) l = at_key k l ++ above k l.
Proof. intros Hs. rewrite (sorted_split k l Hs) at 2. by rewrite drop_app_length. Qed.

(** The parts of the items from a landing place on. *)
Lemma parts_tail k l :
  below k (at_key k l ++ above k l) = [] /\ at_key k (at_key k l ++ above k l) = at_key k l /\
  above k (at_key k l ++ above k l) = above k l.
Proof.
  destruct (partition_above k _ (above_Forall k l)) as (A1 & A2 & A3).
  destruct (partition_at k _ (at_key_Forall k l)) as (B1 & B2 & B3).
  unfold below, at_key, above in *. rewrite !List.filter_app.
  by rewrite A1, A2, A3, B1, B2, B3, !app_nil_r.
Qed.

Lemma parts_prefix k i l :
  Forall (fun x => ltb (key x) k = true) (take i l) ->
  below k l = take i l ++ below k (drop i l) /\ at_key k l = at_key k (drop i l) /\
  above k l = above k (drop i l).
Proof.
  intros H. assert (H' : Forall (fun x => cmp (key x) k = Lt) (take i l)).
  { eapply Forall_weaken; [|exact H]. intros x. apply ltb_spec. }
  destruct (partition_below k _ H') as (A1 & A2 & A3).
  unfold below, at_key, above in *. rewrite <- (take_drop i l) at 1 4 6. rewrite !List.filter_app.
  by rewrite A1, A2, A3.
Qed.

(** Skipping the item with the key, if the cursor stands on it. *)
Lemma take_item_ok t (c : Cursor T S K) i k :
  wf_tree cx t -> node_height t < STACK_CAPACITY -> sorted (to_list t) ->
  cursor_at cx t c i -> below k (drop i (to_list t)) = [] ->
  item c = Ok (head (drop i (to_list t))) /\
  exists c' i', take_item cx c (head (drop i (to_list t))) k = Ok (c', find_key k (drop i (to_list t))) /\
    cursor_at cx t c' i' /\ drop i' (to_list t) = above k (drop i (to_list t)).
Proof.
  intros Hw Hh Hs Hc Hb.
  split; [rewrite head_lookup, lookup_drop, Nat.add_0_r; by apply (cursor_at_item cx)|].
  assert (Hs' : sorted (drop i (to_list t))).
  { unfold sorted. rewrite <- (take_drop i (to_list t)) in Hs. by apply StronglySorted_app_1_r in Hs. }
  pose proof (sorted_split k _ Hs') as Ed. rewrite Hb in Ed. simpl in Ed.
  rewrite (at_key_sorted k _ Hs') in Ed.
  pose proof (at_key_Forall k (drop i (to_list t))) as Fa.
  pose proof (above_Forall k (drop i (to_list t))) as Fb.
  rewrite (at_key_sorted k _ Hs') in Fa.
  destruct (find_key k (drop i (to_list t))) as [x|] eqn:Ef; simpl in Ed.
  - apply Forall_cons_iff in Fa as [Fx _].
    assert (Eh : head (drop i (to_list t)) = Some x) by (by rewrite Ed).
    rewrite Eh. simpl. rewrite peq_eqb, (proj2 (eqb_spec _ _) Fx).
    destruct (next_ok cx t c (Datatypes.S i) Hw Hh) as (c' & E & Hc').
    { left. eexists. split; [exact Hc|].
      apply (f_equal length) in Ed. rewrite length_drop in Ed. simpl in Ed. lia. }
    rewrite E. simpl. exists c', (Datatypes.S i). split_and!; [done|done|].
    replace (drop (Datatypes.S i) (to_list t)) with (drop 1 (drop i (to_list t)))
      by (by rewrite drop_drop, Nat.add_1_r).
    rewrite Ed at 1. done.
  - exists c, i. split_and!; [|done|done].
    assert (Eh : head (drop i (to_list t)) = head (above k (drop i (to_list t)))) by (by rewrite Ed at 1).
    rewrite Eh. destruct (above k _) as [|y r]; simpl; [done|].
    apply Forall_cons_iff in Fb as [Fy _]. rewrite peq_eqb. unfold eqb. by rewrite (cmp_flip k (key y)), Fy.
Qed.

(** Slicing up to the key and skipping its item. *)
Lemma slice_and_take_ok t k :
  wf_tree cx t -> node_height t < STACK_CAPACITY -> sorted (to_list t) ->
  exists c t1 o c' i, slice cx (cursor_new cx t) k Left = Ok (c, t1) /\
    wf_tree cx t1 /\ to_list t1 = below k (to_list t) /\ item c = Ok o /\
    take_item cx c o k = Ok (c', find_key k (to_list t)) /\
    cursor_at cx t c' i /\ drop i (to_list t) = above k (to_list t).
Proof.
  intros Hw Hh Hs.
  destruct (slice_key_ok t (cursor_new cx t) 0 k Hw Hh Hs) as (c & t1 & E & Hc & Hw1 & Hi1);
    [by right|constructor|].
  destruct (parts_tail k (to_list t)) as (P1 & P2 & P3).
  pose proof (drop_below k _ Hs) as Ed.
  destruct (take_item_ok t c _ k Hw Hh Hs Hc) as (Ei & c' & i & Et & Hc' & Hd); [by rewrite Ed|].
  rewrite Ed, P3 in Hd. rewrite Ed in Et. unfold find_key in Et. rewrite P2 in Et.
  exists c, t1, (head (at_key k (to_list t) ++ above k (to_list t))), c', i. split_and!; try done. by rewrite Ei, Ed.
Qed.

Lemma insert_or_replace_ok t x :
  wf_tree cx t -> node_height t < STACK_CAPACITY -> sorted (to_list t) ->
  exists t', insert_or_replace cx t x = Ok (t', find_key (key x) (to_list t)) /\ wf_tree cx t' /\
    to_list t' = below (key x) (to_list t) ++ [x] ++ above (key x) (to_list t).
Proof.
  intros Hw Hh Hs. unfold insert_or_replace.
  destruct (slice_and_take_ok t (key x) Hw Hh Hs) as (c & t1 & o & c' & i & -> & Hw1 & Hi1 & Eo & Et & Hc & Hd).
  cbn [obind]. rewrite Eo. cbn [obind]. rewrite Et. cbn [obind].
  destruct (push_ok cx t1 x Hw1) as (t2 & -> & Hw2 & Hi2). cbn [obind].
  destruct (suffix_ok cx t c' i Hw Hh (or_introl Hc)) as (c2 & t3 & -> & _ & Hw3 & Hi3). cbn [obind].
  destruct (append_tree_ok cx t2 t3 Hw2 Hw3) as (t4 & -> & Hw4 & Hi4 & _).
  exists t4. split_and!; [done|done|]. by rewrite Hi4, Hi2, Hi3, Hi1, Hd, <- app_assoc.
Qed.

Lemma remove_ok t k :
  wf_tree cx t -> node_height t < STACK_CAPACITY -> sorted (to_list t) ->
  exists t', remove cx t k = Ok (t', find_key k (to_list t)) /\ wf_tree cx t' /\
    to_list t' = below k (to_list t) ++ above k (to_list t).
Proof.
  intros Hw Hh Hs. unfold remove.
  destruct (slice_and_take_ok t k Hw Hh Hs) as (c & t1 & o & c' & i & -> & Hw1 & Hi1 & Eo & Et & Hc & Hd).
  cbn [obind]. rewrite Eo. cbn [obind]. rewrite Et. cbn [obind].
  destruct (suffix_ok cx t c' i Hw Hh (or_introl Hc)) as (c2 & t3 & -> & _ & Hw3 & Hi3). cbn [obind].
  destruct (append_tree_ok cx t1 t3 Hw1 Hw3) as (t4 & -> & Hw4 & Hi4 & _).
  exists t4. split_and!; [done|done|]. by rewrite Hi4, Hi3, Hi1, Hd.
Qed.

(** A seek to a key lands on the first item that is not below it, and its result
    tells whether that item has the key. *)
Lemma seek_key_ok t k :
  wf_tree cx t -> node_height t < STACK_CAPACITY -> sorted (to_list t) ->
  exists c, seek cx (cursor_new cx t) k Left =
      Ok (c, match find_key k (to_list t) with Some _ => true | None =>
               match above k (to_list t) with [] =>
                 eqb k (position_at cx (to_list t) (length (to_list t))) | _ => false end end) /\
    cursor_at cx t c (length (below k (to_list t))).
Proof.
  intros Hw Hh Hs.
  destruct (seek_ok cx t (cursor_new cx t) k Left Hw Hh eq_refl) as (c & i & E & Hc & Hl).
  { apply (below_ge_position k (to_list t) 0); [constructor|done]. }
  destruct (lands_below k _ 0 _ Hs (Forall_nil_2 _) Hl) as (-> & Et & Ed).
  exists c. split; [|done]. rewrite E. do 2 f_equal. unfold found_at. simpl.
  rewrite (at_key_sorted k _ Hs) in Ed.
  assert (El : length (below k (to_list t)) < length (to_list t) ->
    exists x, to_list t !! length (below k (to_list t)) = Some x /\
      head (match find_key k (to_list t) with Some x => [x] | None => [] end ++ above k (to_list t)) = Some x).
  { intros Hlt. destruct (lookup_lt_is_Some_2 _ _ Hlt) as [x Hx]. exists x. split; [done|].
    by rewrite <- Ed, head_lookup, lookup_drop, Nat.add_0_r. }
  pose proof (f_equal length Ed) as Elen. rewrite length_drop, length_app in Elen.
  pose proof (at_key_Forall k (to_list t)) as Fa. rewrite (at_key_sorted k _ Hs) in Fa.
  pose proof (above_Forall k (to_list t)) as Fb.
  destruct (find_key k (to_list t)) as [y|]; simpl in *.
  - destruct El as (x & Hx & [= <-]); [lia|]. rewrite (position_key _ _ _ Hs Hx).
    apply Forall_cons_iff in Fa as [-> _]. by rewrite cmp_refl.
  - destruct (above k (to_list t)) as [|y r]; simpl in *.
    + rewrite !position_at_ge by lia. unfold eqb. done.
    + destruct El as (x & Hx & [= <-]); [lia|]. rewrite (position_key _ _ _ Hs Hx).
      apply Forall_cons_iff in Fb as [-> _]. done.
Qed.

Lemma get_ok t k :
  wf_tree cx t -> node_height t < STACK_CAPACITY -> sorted (to_list t) ->
  get cx t k = Ok (find_key k (to_list t)).
Proof.
  intros Hw Hh Hs. unfold get. destruct (seek_key_ok t k Hw Hh Hs) as (c & -> & Hc). cbn [obind].
  pose proof (drop_below k _ Hs) as Ed. rewrite (at_key_sorted k _ Hs) in Ed.
  assert (Ei : item c = Ok (head (drop (length (below k (to_list t))) (to_list t)))).
  { rewrite head_lookup, lookup_drop, Nat.add_0_r. by apply (cursor_at_item cx). }
  rewrite Ed in Ei. destruct (find_key k (to_list t)) as [x|]; [done|].
  destruct (above k (to_list t)) as [|y r]; [|done]. by destruct (eqb _ _).
Qed.

(** The items after a run of edits, and the items they remove. *)
Definition inserted (e : Edit T K) : list T := match e with Insert x => [x] | Remove _ => [] end.

Fixpoint merge_edits l (es : list (Edit T K)) : list T :=
  match es with
  | [] => l
  | e :: es => below (edit_key e) l ++ inserted e ++ merge_edits (above (edit_key e) l) es
  end.

Fixpoint removed_by l (es : list (Edit T K)) : list T :=
  match es with
  | [] => []
  | e :: es => at_key (edit_key e) l ++ removed_by (above (edit_key e) l) es
  end.

(** The state of the loop with [r] the items not yet reached. *)
Definition edit_inv t (st : EditState) (done r removed : list T) : Prop :=
  exists i, cursor_at cx t (es_cursor st) i /\ wf_tree cx (es_tree st) /\
    to_list (es_tree st) ++ es_buffered st = done /\ drop i (to_list t) = r /\ es_removed st = removed.

Lemma sorted_drop i l : sorted l -> sorted (drop i l).
Proof. intros Hs. rewrite <- (take_drop i l) in Hs. by apply sorted_app in Hs as (_ & _ & ?). Qed.

Lemma below_head_ge k l x r : sorted l -> l = x :: r -> ltb (key x) k = false -> below k l = [].
Proof.
  intros Hs -> Hx. apply bfilter_none. constructor; [done|].
  apply (Forall_weaken (fun y => cmp k (key y) = Lt)).
  - intros y Hy. unfold ltb. by rewrite (cmp_flip k (key y)), Hy.
  - eapply above_cons; [exact Hs|]. revert Hx. unfold ltb. rewrite (cmp_flip k (key x)).
    by destruct (cmp k (key x)).
Qed.

(** The part of the step before the old item is taken. *)
Lemma edit_advance_ok t st done r removed k :
  wf_tree cx t -> node_height t < STACK_CAPACITY -> sorted (to_list t) ->
  edit_inv t st done r removed ->
  exists c nt buf i,
    (let! old_item := item (es_cursor st) in
     if match old_item with Some x => ltb (key x) k | None => false end then
       let! new_tree := extend cx (es_tree st) (es_buffered st) in
       let! (c, slice) := slice cx (es_cursor st) k Left in
       let! new_tree := append cx new_tree slice in
       let! old_item := item c in
       Ok (c, new_tree, [], old_item)
     else Ok (es_cursor st, es_tree st, es_buffered st, old_item)) =
      Ok (c, nt, buf, head (drop i (to_list t))) /\
    cursor_at cx t c i /\ wf_tree cx nt /\ to_list nt ++ buf = done ++ below k r /\
    drop i (to_list t) = at_key k r ++ above k r.
Proof.
  intros Hw Hh Hs (i & Hc & Hwn & Hd & Hr & _).
  assert (Hsr : sorted r) by (subst r; by apply sorted_drop).
  assert (Ei : item (es_cursor st) = Ok (head r)).
  { subst r. rewrite head_lookup, lookup_drop, Nat.add_0_r. by apply (cursor_at_item cx). }
  rewrite Ei. cbn [obind].
  destruct (match head r with Some x => ltb (key x) k | None => false end) eqn:Eb.
  - destruct r as [|x r']; [done|]. simpl in Eb.
    assert (Hpre : Forall (fun x => ltb (key x) k = true) (take i (to_list t))).
    { apply Forall_lookup. intros j y Hy. apply lookup_take_Some in Hy as [Hy Hj].
      apply ltb_spec. apply ltb_spec in Eb. apply (cmp_lt_trans _ (key x)); [|done].
      apply (sorted_lookup _ j i _ _ Hs Hj Hy). rewrite <- (Nat.add_0_r i), <- lookup_drop, Hr. done. }
    destruct (extend_ok cx (es_tree st) (es_buffered st) Hwn) as (t1 & -> & Hw1 & Hi1). cbn [obind].
    destruct (slice_key_ok t (es_cursor st) i k Hw Hh Hs (or_introl Hc) Hpre)
      as (c & t2 & -> & Hc2 & Hw2 & Hi2). cbn [obind].
    destruct (append_tree_ok cx t1 t2 Hw1 Hw2) as (t3 & -> & Hw3 & Hi3 & _). cbn [obind].
    rewrite (cursor_at_item cx _ _ _ Hc2). cbn [obind].
    destruct (parts_prefix k i _ Hpre) as (P1 & P2 & P3). rewrite Hr in P1, P2, P3.
    exists c, t3, [], (length (below k (to_list t))). split_and!; [|done|done| |].
    + by rewrite head_lookup, lookup_drop, Nat.add_0_r.
    + rewrite app_nil_r, Hi3, Hi1, Hd, Hi2, P1. f_equal.
      rewrite drop_app_ge; rewrite length_take_le; [by rewrite Nat.sub_diag|..];
        pose proof (cursor_at_bound cx _ _ _ Hc); lia.
    + by rewrite drop_below, P2, P3.
  - assert (Hb : below k r = []).
    { destruct r as [|x r'] eqn:E; [done|]. by eapply below_head_ge. }
    exists (es_cursor st), (es_tree st), (es_buffered st), i. rewrite Hr.
    split_and!; [done|done|done|by rewrite Hb, app_nil_r|].
    pose proof (sorted_split k r Hsr) as E. rewrite Hb in E. exact E.
Qed.

Lemma edit_step_ok t st done r removed e :
  wf_tree cx t -> node_height t < STACK_CAPACITY -> sorted (to_list t) ->
  edit_inv t st done r removed ->
  exists st', edit_step cx st e = Ok st' /\
    edit_inv t st' (done ++ below (edit_key e) r ++ inserted e) (above (edit_key e) r)
      (removed ++ at_key (edit_key e) r).
Proof.
  intros Hw Hh Hs Hinv. unfold edit_step.
  destruct (edit_advance_ok t st done r removed (edit_key e) Hw Hh Hs Hinv)
    as (c & nt & buf & i & E & Hc & Hwn & Hd & Hr).
  destruct (item (es_cursor st)) as [old|  |]; [|done..]. cbn [obind] in E |- *. rewrite E. cbn [obind].
  destruct (parts_tail (edit_key e) r) as (P1 & P2 & P3).
  destruct (take_item_ok t c i (edit_key e) Hw Hh Hs Hc) as (_ & c' & i' & -> & Hc' & Hd');
    [by rewrite Hr|]. cbn [obind].
  eexists; split; [reflexivity|]. exists i'. simpl.
  assert (Hsr : sorted r).
  { destruct Hinv as (j & _ & _ & _ & <- & _). by apply sorted_drop. }
  split_and!; [done|done| |by rewrite Hd', Hr, P3|].
  - rewrite app_assoc, <- Hd, <- app_assoc. f_equal. destruct e; simpl; [done|by rewrite app_nil_r].
  - destruct Hinv as (_ & _ & _ & _ & _ & ->). f_equal. unfold find_key. rewrite Hr, P2.
    rewrite (at_key_sorted _ _ Hsr). by destruct (find_key (edit_key e) r).
Qed.

Lemma edit_loop_ok t es st done r removed :
  wf_tree cx t -> node_height t < STACK_CAPACITY -> sorted (to_list t) ->
  edit_inv t st done r removed ->
  exists st' done' r', ofold (edit_step cx) es st = Ok st' /\
    edit_inv t st' done' r' (removed ++ removed_by r es) /\ done' ++ r' = done ++ merge_edits r es.
Proof.
  intros Hw Hh Hs. revert st done r removed. induction es as [|e es IH]; intros st done r removed Hinv.
  { exists st, done, r. simpl. rewrite app_nil_r. done. }
  simpl. destruct (edit_step_ok t st done r removed e Hw Hh Hs Hinv) as (st1 & -> & Hinv1). cbn [obind].
  destruct (IH _ _ _ _ Hinv1) as (st2 & d2 & r2 & -> & Hinv2 & E).
  exists st2, d2, r2. rewrite <- app_assoc in Hinv2. split_and!; [done|done|].
  rewrite E. by rewrite <- !app_assoc.
Qed.

Lemma edit_sorted_ok t es :
  wf_tree cx t -> node_height t < STACK_CAPACITY -> sorted (to_list t) ->
  exists t', edit_sorted cx t es = Ok (t', removed_by (to_list t) es) /\ wf_tree cx t' /\
    to_list t' = merge_edits (to_list t) es.
Proof.
  intros Hw Hh Hs. unfold edit_sorted.
  destruct (seek_ok cx t (cursor_new cx t) (dim_zero cx : K) Left Hw Hh eq_refl) as (c & i & -> & Hc & Hl).
  { simpl. by rewrite cmp_refl. }
  destruct (lands_below (dim_zero cx) _ 0 _ Hs (Forall_nil_2 _) Hl) as (-> & Et & Ed). cbn [obind].
  assert (Hb : below (dim_zero cx) (to_list t) = []).
  { apply bfilter_none. apply Forall_forall. intros x _. unfold ltb. rewrite cmp_flip.
    pose proof (key_zero_le cx (key x)) as Hz. by destruct (cmp (dim_zero cx) (key x)). }
  rewrite Hb in Hc.
  destruct (edit_loop_ok t es (mkEditState c (new cx) [] []) [] (to_list t) [] Hw Hh Hs)
    as (st & d & r & -> & (i & Hc' & Hwn & Hd & Hr & Hrem) & E).
  { exists 0. split_and!; [exact Hc|apply wf_tree_new|done|done|done]. }
  cbn [obind]. destruct (extend_ok cx (es_tree st) (es_buffered st) Hwn) as (t1 & -> & Hw1 & Hi1). cbn [obind].
  destruct (suffix_ok cx t (es_cursor st) i Hw Hh (or_introl Hc')) as (c2 & t2 & -> & _ & Hw2 & Hi2). cbn [obind].
  destruct (append_tree_ok cx t1 t2 Hw1 Hw2) as (t3 & -> & Hw3 & Hi3 & _). cbn [obind].
  exists t3. split_and!; [by rewrite Hrem|done|]. by rewrite Hi3, Hi1, Hd, Hi2, Hr, E.
Qed.
End KeyedOps.

(** ** Seeks by key in another dimension

    A target of any type that compares to the items as a key does. *)
Section RankedKeys.
Context {Cx T S D Target K : Type}.
Context `{!Summary Cx S, !SummaryLaws Cx S, !Item Cx T S, !Dimension Cx S D, !DimensionLaws Cx S D}.
Context `{!SeekTarget Cx D Target, !Ord K, !OrdLaws K, !KeyedItem T K}.
Variables (cx : Cx) (target : Target) (k : K) (t : tree T S).
Hypothesis Hw : wf_tree cx t.
Hypothesis Hh : node_height t < STACK_CAPACITY.
Hypothesis Hs : sorted (K := K) (to_list t).
Hypothesis Hr : ranked (D := D) cx target (key_rank k) (to_list t).
Hypothesis Hz : ordering_is_ge (target_cmp cx target (dim_zero cx : D)) = true.

Lemma lands_ranked_key i :
  lands cx target Left (to_list t) 0 i ->
  i = length (below k (to_list t)) /\ take i (to_list t) = below k (to_list t) /\
  drop i (to_list t) = at_key k (to_list t) ++ above k (to_list t).
Proof.
  intros Hl. destruct (lands_ranked cx target (key_rank k) Left (to_list t) 0 i) as [Ht Hd]; try done.
  - by apply rank_monotone_keys.
  - apply landing_below; [done|apply Hl|done|done].
Qed.

Lemma slice_ranked_ok :
  exists c t', slice cx (cursor_new cx t : Cursor T S D) target Left = Ok (c, t') /\
    cursor_at cx t c (length (below k (to_list t))) /\ wf_tree cx t' /\ to_list t' = below k (to_list t).
Proof.
  destruct (slice_ok cx t (cursor_new cx t) 0 target Left Hw Hh) as (c & t' & i & E & Hc & Hl & Hw' & Hi);
    [by right|done|].
  destruct (lands_ranked_key i Hl) as (-> & Et & _). exists c, t'. by rewrite Hi, Et.
Qed.

Lemma seek_ranked_ok :
  exists c b, seek cx (cursor_new cx t : Cursor T S D) target Left = Ok (c, b) /\
    cursor_at cx t c (length (below k (to_list t))).
Proof.
  destruct (seek_ok cx t (cursor_new cx t) target Left Hw Hh eq_refl Hz) as (c & i & E & Hc & Hl).
  destruct (lands_ranked_key i Hl) as (-> & _). eauto.
Qed.
End RankedKeys.

(** ** Lookups after the operations *)
Section Lookups.
Context {T K : Type} `{!Ord K, !OrdLaws K, !KeyedItem T K}.
Implicit Types (l : list T) (k : K).

Lemma find_key_none k l : Forall (fun x => key x <> k) l -> find_key k l = None.
Proof.
  intros H. unfold find_key, at_key. rewrite bfilter_none; [done|].
  eapply Forall_weaken; [|exact H]. intros x Hx. destruct (eqb (key x) k) eqn:E; [|done].
  by apply eqb_spec in E.
Qed.

Lemma find_key_some k l x : find_key k l = Some x -> key x = k.
Proof.
  unfold find_key. pose proof (at_key_Forall k l) as H. destruct (at_key k l); [done|].
  intros [= ->]. by apply Forall_cons_iff in H as [? _].
Qed.

Lemma find_key_below k k' l : cmp k' k <> Lt -> find_key k' (below k l) = None.
Proof.
  intros Hk. apply find_key_none. eapply Forall_weaken; [|apply below_Forall].
  intros x Hx E. cbn beta in Hx. by rewrite E in Hx.
Qed.

Lemma find_key_above k k' l : cmp k k' <> Lt -> find_key k' (above k l) = None.
Proof.
  intros Hk. apply find_key_none. eapply Forall_weaken; [|apply above_Forall].
  intros x Hx E. cbn beta in Hx. by rewrite E in Hx.
Qed.

Lemma find_key_at k k' l : k' <> k -> find_key k' (at_key k l) = None.
Proof.
  intros Hk. apply find_key_none. eapply Forall_weaken; [|apply at_key_Forall].
  intros x Hx E. cbn beta in Hx. congruence.
Qed.

(** The lookups around a key. *)
Lemma find_key_split k k' l : sorted l -> k' <> k ->
  find_key k' l = match cmp k' k with Lt => find_key k' (below k l) | _ => find_key k' (above k l) end.
Proof.
  intros Hs Hne. rewrite (sorted_split k l Hs) at 1. rewrite !find_key_app, find_key_at by done.
  destruct (cmp k' k) eqn:E.
  - by apply cmp_eq in E.
  - rewrite find_key_above; [by destruct (find_key _ _)|]. by rewrite cmp_flip, E.
  - rewrite find_key_below; [done|]. by rewrite E.
Qed.

Lemma find_key_replace k k' l o :
  sorted l -> (forall x, o = Some x -> key x = k) ->
  find_key k' (below k l ++ opt_list o ++ above k l) = if eqb k' k then o else find_key k' l.
Proof.
  intros Hs Ho. rewrite !find_key_app.
  assert (Eo : find_key k' (opt_list o) = if eqb k' k then o else None).
  { destruct o as [x|]; simpl; [|by destruct (eqb _ _)]. unfold find_key, at_key, eqb. simpl.
    rewrite (Ho x eq_refl), (cmp_flip k' k). by destruct (cmp k' k). }
  rewrite Eo. destruct (eqb k' k) eqn:E.
  - apply eqb_spec in E as ->. rewrite find_key_below, find_key_above by (by rewrite cmp_refl).
    by destruct o.
  - assert (Hne : k' <> k) by (intros ->; by rewrite (proj2 (eqb_spec k k) eq_refl) in E).
    rewrite (find_key_split k k' l Hs Hne). destruct (cmp k' k) eqn:Ec.
    + by apply cmp_eq in Ec.
    + rewrite find_key_above; [by destruct (find_key k' (below k l))|]. by rewrite cmp_flip, Ec.
    + by rewrite find_key_below by (by rewrite Ec).
Qed.

(** *** Edits with distinct keys *)

Definition edits_sorted (es : list (Edit T K)) : Prop :=
  StronglySorted (fun a b => cmp (edit_key a) (edit_key b) = Lt) es.

(** The edit of a key. *)
Definition edit_for k (es : list (Edit T K)) : option (Edit T K) :=
  List.find (fun e => eqb (edit_key e) k) es.

(** The item an edit leaves under its key. *)
Definition edit_result (e : Edit T K) : option T :=
  match e with Insert x => Some x | Remove _ => None end.

Lemma inserted_opt (e : Edit T K) : inserted e = opt_list (edit_result e).
Proof. by destruct e. Qed.

Lemma edit_result_key (e : Edit T K) x : edit_result e = Some x -> key x = edit_key e.
Proof. destruct e; [|done]. by intros [= ->]. Qed.

Lemma edit_for_above k es :
  Forall (fun e : Edit T K => cmp k (edit_key e) = Lt) es -> edit_for k es = None.
Proof.
  induction 1 as [|e es He _ IH]; [done|]. unfold edit_for. simpl. unfold eqb at 1.
  by rewrite (cmp_flip k (edit_key e)), He.
Qed.

Lemma merge_edits_lower k l es :
  Forall (fun x => cmp k (key x) = Lt) l ->
  Forall (fun e : Edit T K => cmp k (edit_key e) = Lt) es ->
  Forall (fun x => cmp k (key x) = Lt) (merge_edits l es).
Proof.
  intros Hl He. revert l Hl. induction He as [|e es He _ IH]; intros l Hl; [done|]. simpl.
  rewrite !Forall_app. split_and!.
  - by apply bfilter_Forall_keep.
  - destruct e; simpl; [by constructor|constructor].
  - apply IH. by apply bfilter_Forall_keep.
Qed.

Lemma Forall_lt_sorted k l1 l2 :
  Forall (fun x => cmp (key x) k = Lt) l1 -> Forall (fun x => cmp k (key x) = Lt) l2 ->
  forall x y, x ∈ l1 -> y ∈ l2 -> key_lt x y.
Proof.
  intros H1 H2 x y Hx Hy. rewrite Forall_forall in H1, H2. unfold key_lt.
  eapply cmp_lt_trans; [by apply H1|by apply H2].
Qed.

Lemma merge_edits_sorted l es : sorted l -> edits_sorted es -> sorted (merge_edits l es).
Proof.
  intros Hs He. revert l Hs. induction He as [|e es Hes IH He]; intros l Hs; [done|]. simpl.
  destruct (sorted_parts (edit_key e) l Hs) as (Hb & _ & Ha).
  pose proof (merge_edits_lower (edit_key e) _ es (above_Forall (edit_key e) l) He) as Hm.
  pose proof (below_Forall (edit_key e) l) as Fb.
  apply sorted_app. split_and!; [|done|].
  - intros x y Hx Hy. apply elem_of_app in Hy as [Hy|Hy]; [|by eapply Forall_lt_sorted].
    rewrite Forall_forall in Fb. apply Fb in Hx. destruct e; simpl in Hy; [|by apply elem_of_nil in Hy].
    apply list_elem_of_singleton in Hy as ->. exact Hx.
  - destruct e as [x|]; simpl; [|by apply IH]. apply SSorted_cons; [by apply IH|]. exact Hm.
Qed.

Lemma find_key_merge k l es :
  sorted l -> edits_sorted es ->
  find_key k (merge_edits l es) =
    match edit_for k es with Some e => edit_result e | None => find_key k l end.
Proof.
  intros Hs He. revert l Hs. induction He as [|e es Hes IH He]; intros l Hs; [done|]. simpl.
  rewrite !find_key_app. destruct (sorted_parts (edit_key e) l Hs) as (_ & _ & Ha).
  rewrite (IH _ Ha). unfold edit_for. simpl. fold (edit_for k es).
  destruct (eqb (edit_key e) k) eqn:E.
  - apply eqb_spec in E as <-. rewrite (edit_for_above _ _ He).
    rewrite find_key_below, find_key_above by (by rewrite cmp_refl).
    destruct e as [x|]; simpl; [|done]. unfold find_key, at_key. simpl.
    by rewrite (proj2 (eqb_spec (key x) (key x)) eq_refl).
  - assert (Hne : k <> edit_key e).
    { intros ->. by rewrite (proj2 (eqb_spec (edit_key e) (edit_key e)) eq_refl) in E. }
    assert (Ei : find_key k (inserted e) = None).
    { apply find_key_none. rewrite inserted_opt. destruct (edit_result e) as [x|] eqn:Ex; simpl; [|done].
      apply edit_result_key in Ex. constructor; [congruence|done]. }
    rewrite Ei, (find_key_split (edit_key e) k l Hs Hne). destruct (cmp k (edit_key e)) eqn:Ec.
    + by apply cmp_eq in Ec.
    + rewrite find_key_above by (by rewrite cmp_flip, Ec).
      rewrite edit_for_above; [by destruct (find_key k (below (edit_key e) l))|].
      eapply Forall_weaken; [|exact He]. intros e' He'. by eapply cmp_lt_trans.
    + by rewrite find_key_below by (by rewrite Ec).
Qed.

Lemma removed_by_find l es :
  sorted l -> edits_sorted es ->
  removed_by l es = flat_map (fun e => opt_list (find_key (edit_key e) l)) es.
Proof.
  intros Hs He. revert l Hs. induction He as [|e es Hes IH He]; intros l Hs; [done|]. simpl.
  rewrite (at_key_sorted _ _ Hs). f_equal.
  destruct (sorted_parts (edit_key e) l Hs) as (_ & _ & Ha). rewrite (IH _ Ha).
  clear IH Hes. induction He as [|e' es He' _ IH]; [done|]. simpl. rewrite IH. f_equal.
  rewrite (find_key_split (edit_key e) (edit_key e') l Hs).
  - by rewrite (cmp_flip (edit_key e) (edit_key e')), He'.
  - intros E. by rewrite E, cmp_refl in He'.
Qed.

(** *** The sort *)

Lemma insert_edit_perm e (es : list (Edit T K)) : insert_edit e es ≡ₚ e :: es.
Proof.
  induction es as [|e' es IH]; simpl; [done|]. destruct (ltb _ _); [|done].
  rewrite IH. apply Permutation_swap.
Qed.

Lemma sort_edits_perm (es : list (Edit T K)) : sort_edits es ≡ₚ es.
Proof. induction es as [|e es IH]; simpl; [done|]. by rewrite insert_edit_perm, IH. Qed.

Lemma insert_edit_sorted e (es : list (Edit T K)) :
  edits_sorted es -> Forall (fun e' => edit_key e' <> edit_key e) es -> edits_sorted (insert_edit e es).
Proof.
  induction 1 as [|e' es Hes IH He']; intros Hne; simpl; [repeat constructor|].
  apply Forall_cons_iff in Hne as [Hne Hnes]. destruct (ltb (edit_key e') (edit_key e)) eqn:E.
  - apply SSorted_cons; [by apply IH|]. rewrite insert_edit_perm. constructor; [by apply ltb_spec|done].
  - assert (Hlt : cmp (edit_key e) (edit_key e') = Lt).
    { revert E. unfold ltb. rewrite (cmp_flip (edit_key e') (edit_key e)).
      destruct (cmp (edit_key e') (edit_key e)) eqn:Ec; [|done|done]. by apply cmp_eq in Ec. }
    apply SSorted_cons; [by apply SSorted_cons|]. constructor; [done|].
    eapply Forall_weaken; [|exact He']. intros e'' H''. by eapply cmp_lt_trans.
Qed.

Lemma sort_edits_sorted (es : list (Edit T K)) :
  NoDup (map edit_key es) -> edits_sorted (sort_edits es).
Proof.
  induction es as [|e es IH]; simpl; [constructor|]. intros [Hni Hnd]%NoDup_cons.
  apply insert_edit_sorted; [by apply IH|]. rewrite sort_edits_perm. apply Forall_forall.
  intros e' He' Ek. apply Hni. rewrite <- Ek. apply list_elem_of_fmap. eauto.
Qed.

Lemma edit_for_spec k es e :
  NoDup (map edit_key es) -> edit_for k es = Some e <-> e ∈ es /\ edit_key e = k.
Proof.
  intros Hnd. split.
  - intros [Hin He]%List.find_some. apply list_elem_of_In in Hin. by apply eqb_spec in He.
  - intros [Hin <-]. induction es as [|e' es IH]; [by apply elem_of_nil in Hin|].
    unfold edit_for. simpl in Hnd |- *. apply NoDup_cons in Hnd as [Hni Hnd].
    apply elem_of_cons in Hin as [->|Hin]; [by rewrite (proj2 (eqb_spec _ _) eq_refl)|].
    destruct (eqb (edit_key e') (edit_key e)) eqn:E; [|by apply IH].
    apply eqb_spec in E. destruct Hni. rewrite E. apply list_elem_of_fmap. eauto.
Qed.

Lemma edit_for_sort k es : NoDup (map edit_key es) -> edit_for k (sort_edits es) = edit_for k es.
Proof.
  intros Hnd. apply option_eq. intros e.
  rewrite !edit_for_spec by (by rewrite ?(Permutation_map edit_key (sort_edits_perm es))).
  by rewrite sort_edits_perm.
Qed.
End Lookups.

(** ** The theorems *)
Section KeyedTheorems.
Context {Cx T S K : Type}.
Context `{!Summary Cx S, !SummaryLaws Cx S, !Item Cx T S, !Dimension Cx S K, !DimensionLaws Cx S K}.
Context `{!Ord K, !OrdLaws K, !PartialEq K, !PartialEqLaws K, !KeyedItem T K, !KeyedItemLaws Cx T S K}.
Variable cx : Cx.
Implicit Types (t : tree T S) (k : K).

Lemma edit_ok t (edits : list (Edit T K)) :
  wf_tree cx t -> node_height t < STACK_CAPACITY -> sorted (to_list t) ->
  NoDup (map edit_key edits) ->
  exists t' removed, edit cx t edits = Ok (t', removed) /\ wf_tree cx t' /\ sorted (to_list t') /\
    (forall k, find_key k (to_list t') =
       match edit_for k edits with Some e => edit_result e | None => find_key k (to_list t) end) /\
    removed = flat_map (fun e => opt_list (find_key (edit_key e) (to_list t))) (sort_edits edits) /\
    edits_sorted (sort_edits edits) /\ sort_edits edits ≡ₚ edits.
Proof.
  intros Hw Hh Hs Hnd. pose proof (sort_edits_sorted edits Hnd) as Hes.
  destruct edits as [|e es] eqn:Ee; [by exists t, []|]. rewrite <- Ee in *.
  destruct (edit_sorted_ok cx t (sort_edits edits) Hw Hh Hs) as (t' & E & Hw' & Hi).
  exists t', (removed_by (to_list t) (sort_edits edits)).
  split_and!; [by rewrite Ee in *|done| | | |done|apply sort_edits_perm].
  - rewrite Hi. by apply merge_edits_sorted.
  - intros k. rewrite Hi, find_key_merge, edit_for_sort by done. done.
  - by apply removed_by_find.
Qed.

(** On a well-formed tree sorted by key, [insert_or_replace] and [remove]
    never panic, return the item that had the key, and give a well-formed tree that
    is again sorted and whose lookups differ only at that key; [get] is the lookup. *)
Theorem keyed_operations_correct t (x : T) k :
  wf_tree cx t -> node_height t < STACK_CAPACITY -> sorted (to_list t) ->
  (exists t', insert_or_replace cx t x = Ok (t', find_key (key x) (to_list t)) /\
     wf_tree cx t' /\ sorted (to_list t') /\
     forall k', find_key k' (to_list t') = if eqb k' (key x) then Some x else find_key k' (to_list t)) /\
  (exists t', remove cx t k = Ok (t', find_key k (to_list t)) /\
     wf_tree cx t' /\ sorted (to_list t') /\
     forall k', find_key k' (to_list t') = if eqb k' k then None else find_key k' (to_list t)) /\
  get cx t k = Ok (find_key k (to_list t)).
Proof.
  intros Hw Hh Hs. split_and!; [| |by apply get_ok].
  - destruct (insert_or_replace_ok cx t x Hw Hh Hs) as (t' & E & Hw' & Hi).
    exists t'. rewrite Hi. split_and!; [done|done| |].
    + apply (sorted_replace (key x) _ (Some x)); [done|]. by intros ? [= ->].
    + intros k'. apply (find_key_replace (key x) k' _ (Some x)); [done|]. by intros ? [= ->].
  - destruct (remove_ok cx t k Hw Hh Hs) as (t' & E & Hw' & Hi).
    exists t'. rewrite Hi. split_and!; [done|done| |].
    + by apply (sorted_replace k _ None).
    + intros k'. by apply (find_key_replace k k' _ None).
Qed.

(** [edit] with a batch of edits of distinct keys, in any order, never panics,
    gives a well-formed sorted tree in which every edited key has its edit's result
    and every other key is as before, and returns the items the edited keys had, in
    the order of the keys. *)
Theorem edit_correct t (edits : list (Edit T K)) :
  wf_tree cx t -> node_height t < STACK_CAPACITY -> sorted (to_list t) ->
  NoDup (map edit_key edits) ->
  exists t' removed, edit cx t edits = Ok (t', removed) /\ wf_tree cx t' /\ sorted (to_list t') /\
    (forall k, find_key k (to_list t') =
       match edit_for k edits with Some e => edit_result e | None => find_key k (to_list t) end) /\
    removed = flat_map (fun e => opt_list (find_key (edit_key e) (to_list t))) (sort_edits edits) /\
    edits_sorted (sort_edits edits) /\ sort_edits edits ≡ₚ edits.
Proof. exact (edit_ok t edits). Qed.

(** [edit] does not check for repeated keys: two inserts of the same key in
    one batch leave both items in the tree, which is then not sorted by key. *)
Theorem edit_repeated_key t (x y : T) :
  wf_tree cx t -> node_height t < STACK_CAPACITY -> sorted (to_list t) -> key x = (key y : K) ->
  exists t' removed, edit cx t [Insert x; Insert y : Edit T K] = Ok (t', removed) /\ wf_tree cx t' /\
    to_list t' = below (key x) (to_list t) ++ [x; y] ++ above (key x) (to_list t) /\
    ~ sorted (to_list t').
Proof.
  intros Hw Hh Hs Hk. unfold edit. simpl. unfold ltb. rewrite Hk, cmp_refl.
  destruct (edit_sorted_ok cx t [Insert x; Insert y] Hw Hh Hs) as (t' & E & Hw' & Hi).
  assert (Ei : to_list t' = below (key y) (to_list t) ++ [x; y] ++ above (key y) (to_list t)).
  { rewrite Hi. simpl. rewrite Hk. destruct (partition_above (key y) _ (above_Forall (key y) (to_list t)))
      as (E1 & _ & E3). by rewrite E1, E3. }
  eexists t', _. split_and!; [exact E|done|done|]. rewrite Ei. intros Hsort.
  apply sorted_app in Hsort as (_ & _ & Hsort). simpl in Hsort.
  apply StronglySorted_inv in Hsort as [_ [Hlt _]%Forall_cons_iff].
  unfold key_lt in Hlt. rewrite Hk in Hlt. by apply cmp_lt_irrefl in Hlt.
Qed.
End KeyedTheorems.

(** ** Concrete runs: integers that are their own keys *)
Module KeyedExamples.

(** The key of an integer, as a type of its own. *)
Record u8 := mk_u8 { u8_val : nat }.

#[export] Instance u8_partial_eq : PartialEq u8 := fun a b => Nat.eqb (u8_val a) (u8_val b).

#[export] Instance u8_ord : Ord u8 := fun a b => cmp (u8_val a) (u8_val b).

#[export] Instance u8_partial_eq_laws : PartialEqLaws u8.
Proof.
  intros [a] [b]. unfold peq, u8_partial_eq, eqb, cmp, u8_ord, cmp, nat_ord. simpl.
  destruct (Nat.eqb_spec a b) as [->|Hne]; [by rewrite Nat.compare_refl|].
  destruct (Nat.compare_spec a b); done.
Qed.

#[export] Instance u8_ord_laws : OrdLaws u8.
Proof.
  split; unfold cmp, u8_ord.
  - intros [a] [b]. rewrite cmp_eq. simpl. split; congruence.
  - intros a b. apply cmp_flip.
  - intros a b c. apply cmp_lt_trans.
Qed.

(** Items whose summary is their greatest key. *)
#[export] Instance u8_summary : Summary unit u8 := {
  zero _ := mk_u8 0;
  add_summary _ a b := mk_u8 (max (u8_val a) (u8_val b));
}.

#[export] Instance u8_summary_laws : SummaryLaws unit u8.
Proof. split; intros; simpl; [f_equal; lia|by destruct a]. Qed.

#[export] Instance u8_item : Item unit nat u8 := { summary _ n := mk_u8 n }.

#[export] Instance u8_keyed : KeyedItem nat u8 := mk_u8.

#[export] Instance u8_keyed_laws : KeyedItemLaws unit nat u8 u8.
Proof.
  split.
  - intros [] [k]. unfold cmp, u8_ord. simpl. by destruct k.
  - intros [] [d] x Hd. unfold cmp, u8_ord, cmp, nat_ord, key, u8_keyed in Hd. simpl in *.
    unfold key, u8_keyed. f_equal. apply Nat.compare_le_iff in Hd. lia.
Qed.

Definition keyed_sample : tree nat u8 :=
  match from_iter tt [0; 2; 4; 6; 8; 10; 12; 14; 16; 18; 20; 22; 24; 26; 28] with
  | Ok t => t
  | _ => new tt
  end.

Lemma keyed_sample_wf : wf_tree tt keyed_sample.
Proof.
  destruct (from_iter_ok (S := u8) tt [0; 2; 4; 6; 8; 10; 12; 14; 16; 18; 20; 22; 24; 26; 28])
    as (t & E & Hw & _).
  assert (keyed_sample = t) as -> by (unfold keyed_sample; by rewrite E). done.
Qed.

Lemma keyed_sample_items : to_list keyed_sample = map (fun n => 2 * n) (seq 0 15).
Proof. vm_compute. reflexivity. Qed.

Lemma keyed_sample_sorted : sorted (K := u8) (to_list keyed_sample).
Proof. rewrite keyed_sample_items. repeat constructor. Qed.

Lemma keyed_sample_height : node_height keyed_sample < STACK_CAPACITY.
Proof. apply Nat.ltb_lt. vm_compute. reflexivity. Qed.

Lemma keyed_operations_correct_witness :
  exists t', insert_or_replace (K := u8) tt keyed_sample 7 = Ok (t', None) /\ wf_tree tt t' /\
    find_key (mk_u8 7) (to_list t') = Some 7 /\ get tt keyed_sample (mk_u8 8) = Ok (Some 8).
Proof.
  destruct (keyed_operations_correct tt keyed_sample 7 (mk_u8 8) keyed_sample_wf
    keyed_sample_height keyed_sample_sorted) as ((t' & E & Hw & _ & Hf) & _ & Hg).
  rewrite keyed_sample_items in E, Hg. exists t'.
  split; [exact E|]. split; [exact Hw|]. split; [rewrite Hf; reflexivity|exact Hg].
Defined.

Lemma edits_distinct : NoDup (map edit_key [Insert 5; Remove (mk_u8 8); Insert 2]).
Proof.
  apply NoDup_ListNoDup. repeat (constructor; [simpl; intuition discriminate|]). constructor.
Qed.

Lemma edit_correct_witness :
  exists t', edit tt keyed_sample [Insert 5; Remove (mk_u8 8); Insert 2] = Ok (t', [2; 8]) /\
    find_key (mk_u8 5) (to_list t') = Some 5 /\ find_key (mk_u8 8) (to_list t') = None.
Proof.
  destruct (edit_correct tt keyed_sample [Insert 5; Remove (mk_u8 8); Insert 2] keyed_sample_wf
    keyed_sample_height keyed_sample_sorted edits_distinct) as (t' & removed & E & _ & _ & Hf & Hr & _).
  rewrite keyed_sample_items in Hr. exists t'. split; [rewrite E, Hr; reflexivity|].
  split; rewrite Hf; reflexivity.
Defined.

Lemma edit_repeated_key_witness :
  exists t' removed, edit tt keyed_sample [Insert 5; Insert 5 : Edit nat u8] = Ok (t', removed) /\
    ~ sorted (K := u8) (to_list t').
Proof.
  destruct (edit_repeated_key tt keyed_sample 5 5 keyed_sample_wf
    keyed_sample_height keyed_sample_sorted eq_refl) as (t' & removed & E & _ & _ & Hn).
  exists t', removed. split; [exact E|exact Hn].
Defined.
End KeyedExamples.
