(* ===== verification/TreeMap.v ===== *)
(** * [TreeMap] and [TreeSet]: [crates/sum_tree/src/tree_map.rs]

    An ordered map as a [SumTree] of entries whose summary is the last key, and
    a set as a map to the unit type.  The set is proved against the interface
    [OrderedMap], which the map implements.  A tree map is well formed when its
    tree is and its keys are strictly increasing; its specification is the
    association list of its entries. *)

From stdpp Require Import base list option numbers sorting.
From S2P Require Import Prelude SumTree Cursor CursorSeek CursorMove KeyedTree.

(** ** The data *)

Record MapEntry (K V : Type) := mkMapEntry { me_key : K; me_value : V }.

Arguments mkMapEntry {K V} _ _.
Arguments me_key {K V} _.
Arguments me_value {K V} _.

Record MapKey (K : Type) := mkMapKey { map_key : option K }.

Arguments mkMapKey {K} _.
Arguments map_key {K} _.

Record MapKeyRef (K : Type) := mkMapKeyRef { ref_key : option K }.

Arguments mkMapKeyRef {K} _.
Arguments ref_key {K} _.

(** [#[derive(Ord)] struct MapKey] *)
#[export] Instance map_key_ord {K} `{Ord K} : Ord (MapKey K) := fun a b => cmp (map_key a) (map_key b).

#[export] Instance map_key_ord_laws {K} `{OrdLaws K} : OrdLaws (MapKey K).
Proof.
  split; unfold cmp, map_key_ord.
  - intros [a] [b]. rewrite cmp_eq. simpl. split; congruence.
  - intros a b. apply cmp_flip.
  - intros a b c. apply cmp_lt_trans.
Qed.

(** [#[derive(PartialEq)] struct MapKey] *)
#[export] Instance map_key_partial_eq {K} `{Ord K} : PartialEq (MapKey K) := fun a b =>
  match map_key a, map_key b with
  | Some a, Some b => eqb a b
  | None, None => true
  | _, _ => false
  end.

#[export] Instance map_key_partial_eq_laws {K} `{Ord K} : PartialEqLaws (MapKey K).
Proof. by intros [[a|]] [[b|]]. Qed.

(** [impl ContextLessSummary for MapKey]: adding replaces. *)
#[export] Instance map_key_summary {K} : Summary unit (MapKey K) := {
  zero _ := mkMapKey None;
  add_summary _ _ s := s;
}.

#[export] Instance map_key_summary_laws {K} : SummaryLaws unit (MapKey K).
Proof. split; done. Qed.

#[export] Instance map_entry_item {K V} : Item unit (MapEntry K V) (MapKey K) := {
  summary _ e := mkMapKey (Some (me_key e));
}.

#[export] Instance map_entry_keyed {K V} : KeyedItem (MapEntry K V) (MapKey K) :=
  fun e => mkMapKey (Some (me_key e)).

#[export] Instance map_entry_keyed_laws {K V} `{OrdLaws K} :
    KeyedItemLaws unit (MapEntry K V) (MapKey K) (MapKey K).
Proof. split; [by intros [] [[k|]]|done]. Qed.

(** [impl Dimension<MapKey> for MapKeyRef] *)
#[export] Instance map_key_ref_dimension {K} : Dimension unit (MapKey K) (MapKeyRef K) := {
  dim_zero _ := mkMapKeyRef None;
  dim_add_summary _ _ s := mkMapKeyRef (map_key s);
}.

#[export] Instance map_key_ref_dimension_laws {K} : DimensionLaws unit (MapKey K) (MapKeyRef K).
Proof. split; done. Qed.

(** [impl SeekTarget for MapKeyRef] *)
#[export] Instance map_key_ref_target {K} `{Ord K} : SeekTarget unit (MapKeyRef K) (MapKeyRef K) := {
  target_cmp _ a b := cmp (ref_key a) (ref_key b);
}.

(** [trait MapSeekTarget] and its implementation by the keys. *)
Class MapSeekTarget (K Tg : Type) := cmp_cursor : Tg -> K -> comparison.

#[export] Instance key_seek_target {K} `{Ord K} : MapSeekTarget K K := cmp.

Record MapSeekTargetAdaptor (Tg : Type) := mkAdaptor { adaptor_target : Tg }.

Arguments mkAdaptor {Tg} _.
Arguments adaptor_target {Tg} _.

#[export] Instance adaptor_seek_target {K Tg} `{MapSeekTarget K Tg} :
    SeekTarget unit (MapKeyRef K) (MapSeekTargetAdaptor Tg) := {
  target_cmp _ a location :=
    match ref_key location with
    | Some k => cmp_cursor (adaptor_target a) k
    | None => Gt
    end;
}.

(** [collect] of a [Cursor] as an iterator. *)
Fixpoint cursor_collect {Cx T S D} `{!Summary Cx S, !Item Cx T S, !Dimension Cx S D} (cx : Cx)
    (fuel : nat) (c : Cursor T S D) (acc : list T) : outcome (list T) :=
  match fuel with
  | 0 => OutOfFuel
  | Datatypes.S fuel =>
      let! (c, o) := cursor_iter_next cx c in
      match o with
      | Some x => cursor_collect cx fuel c (acc ++ [x])
      | None => Ok acc
      end
  end.

(** ** The operations of [TreeMap] *)
Section TreeMap.
Context {K V : Type} `{!Ord K}.

Definition TreeMap : Type := tree (MapEntry K V) (MapKey K).

Implicit Types (m : TreeMap) (k : K).

(** [self.0.cursor::<MapKeyRef<'_, K>>(())] *)
Definition ref_cursor m : Cursor (MapEntry K V) (MapKey K) (MapKeyRef K) := cursor_new tt m.

Definition entry_pair (e : MapEntry K V) : K * V := (me_key e, me_value e).

Definition map_default : TreeMap := new tt.

Definition map_from_ordered_entries (entries : list (K * V)) : outcome TreeMap :=
  from_iter tt (map (fun p => mkMapEntry p.1 p.2) entries).

Definition map_is_empty m : bool := is_empty m.

Definition map_get m k : outcome (option V) :=
  let! (c, _) := seek tt (ref_cursor m) (mkMapKeyRef (Some k)) Left in
  let! o := item c in
  match o with
  | Some x => if eqb (Some k) (map_key (key x)) then Ok (Some (me_value x)) else Ok None
  | None => Ok None
  end.

Definition map_insert m k (v : V) : outcome TreeMap :=
  let! (t, _) := insert_or_replace (K := MapKey K) tt m (mkMapEntry k v) in Ok t.

Definition map_extend m (iter : list (K * V)) : outcome TreeMap :=
  let! (t, _) := edit (K := MapKey K) tt m (map (fun p => Insert (mkMapEntry p.1 p.2)) iter) in Ok t.

Definition map_clear m : TreeMap := new tt.

Definition map_remove m k : outcome (TreeMap * option V) :=
  let target := mkMapKeyRef (Some k) in
  let! (c, new_tree) := slice tt (ref_cursor m) target Left in
  let! e := cursor_end tt c in
  let! (c, removed) :=
    (match target_cmp tt target e with
     | Eq => let! o := item c in let! x := unwrap o in
             let! c := cursor_next tt c in Ok (c, Some (me_value x))
     | _ => Ok (c, None)
     end) in
  let! (c, rest) := suffix tt c in
  let! new_tree := append tt new_tree rest in
  Ok (new_tree, removed).

Definition map_remove_range {Tg1 Tg2} `{!MapSeekTarget K Tg1, !MapSeekTarget K Tg2}
    m (start : Tg1) (end_ : Tg2) : outcome TreeMap :=
  let! (c, new_tree) := slice tt (ref_cursor m) (mkAdaptor start) Left in
  let! (c, _) := seek tt c (mkAdaptor end_) Left in
  let! (c, rest) := suffix tt c in
  append tt new_tree rest.

Definition map_closest m k : outcome (option (K * V)) :=
  let! (c, _) := seek tt (ref_cursor m) (mkMapKeyRef (Some k)) Right in
  let! c := cursor_prev tt c in
  let! o := item c in
  Ok (option_map entry_pair o).

(** [iter_from], collected. *)
Definition map_iter_from m (from : K) : outcome (list (K * V)) :=
  let! (c, _) := seek tt (ref_cursor m) (mkMapKeyRef (Some from)) Left in
  let! l := cursor_collect tt (length (to_list m) + 1) c [] in
  Ok (map entry_pair l).

Definition map_update {R} m k (f : V -> V * R) : outcome (TreeMap * option R) :=
  let target := mkMapKeyRef (Some k) in
  let! (c, new_tree) := slice tt (ref_cursor m) target Left in
  let! e := cursor_end tt c in
  let! (c, new_tree, result) :=
    (match target_cmp tt target e with
     | Eq => let! o := item c in let! x := unwrap o in
             let (v, r) := f (me_value x) in
             let! new_tree := push tt new_tree (mkMapEntry (me_key x) v) in
             let! c := cursor_next tt c in Ok (c, new_tree, Some r)
     | _ => Ok (c, new_tree, None)
     end) in
  let! (c, rest) := suffix tt c in
  let! new_tree := append tt new_tree rest in
  Ok (new_tree, result).

(** The loop of [retain]. *)
Fixpoint retain_loop (predicate : K -> V -> bool) (fuel : nat)
    (c : Cursor (MapEntry K V) (MapKey K) (MapKeyRef K)) (new_map : TreeMap) : outcome TreeMap :=
  match fuel with
  | 0 => OutOfFuel
  | Datatypes.S fuel =>
      let! o := item c in
      match o with
      | Some x =>
          let! new_map := (if predicate (me_key x) (me_value x) then push tt new_map x
                           else Ok new_map) in
          let! c := cursor_next tt c in
          retain_loop predicate fuel c new_map
      | None => Ok new_map
      end
  end.

Definition map_retain m (predicate : K -> V -> bool) : outcome TreeMap :=
  let! c := cursor_next tt (ref_cursor m) in
  retain_loop predicate (length (to_list m) + 1) c map_default.

(** [iter] and [values], collected. *)
Definition map_iter m : outcome (list (K * V)) :=
  let! l := iter_collect m in Ok (map entry_pair l).

Definition map_values m : outcome (list V) :=
  let! l := iter_collect m in Ok (map me_value l).

Definition map_first m : outcome (option (K * V)) :=
  let! o := first m in Ok (option_map entry_pair o).

Definition map_last m : outcome (option (K * V)) :=
  let! o := last m in Ok (option_map entry_pair o).

Definition map_insert_tree m (other : TreeMap) : outcome TreeMap :=
  let! entries := map_iter other in
  let! (t, _) := edit (K := MapKey K) tt m (map (fun p => Insert (mkMapEntry p.1 p.2)) entries) in Ok t.
End TreeMap.

Arguments TreeMap : clear implicits.

(** ** The specification: the association list of the entries *)
Section MapSpec.
Context {K V : Type} `{!Ord K, !OrdLaws K}.
Implicit Types (m : TreeMap K V) (k : K) (l : list (MapEntry K V)).

#[local] Abbreviation mkey k := (mkMapKey (Some k)).

Definition wf_map m : Prop := wf_tree tt m /\ sorted (K := MapKey K) (to_list m).

(** Cursors can reach every entry. *)
Definition map_ready m : Prop := node_height m < STACK_CAPACITY.

Definition entries m : list (K * V) := map entry_pair (to_list m).

(** The value of a key. *)
Definition map_lookup m k : option V := option_map me_value (find_key (mkey k) (to_list m)).

(** The position of a cursor is the last key it has passed. *)
Lemma position_ref l i x :
  l !! i = Some x -> position_at tt l (Datatypes.S i) = mkMapKeyRef (Some (me_key x)).
Proof. intros Hx. by rewrite (position_at_S tt _ _ _ Hx). Qed.

Lemma ranked_ref k l :
  ranked (Target := MapKeyRef K) tt (mkMapKeyRef (Some k)) (key_rank (mkey k)) l.
Proof. intros i x Hx. by rewrite (position_ref _ _ _ Hx). Qed.

Lemma lands_ref k l i :
  sorted (K := MapKey K) l -> lands (D := MapKeyRef K) tt (mkMapKeyRef (Some k)) Left l 0 i ->
  i = length (below (mkey k) l) /\ drop i l = at_key (mkey k) l ++ above (mkey k) l /\
  take i l = below (mkey k) l.
Proof.
  intros Hs Hl.
  destruct (lands_ranked tt (mkMapKeyRef (Some k)) (key_rank (mkey k)) Left l 0 i) as [Ht Hd]; try done.
  - apply ranked_ref.
  - by apply rank_monotone_keys.
  - destruct (landing_below (mkey k) l i) as (-> & ? & ?); try done. apply Hl.
Qed.

Lemma ref_seek_ok m k :
  wf_map m -> map_ready m ->
  exists c b, seek tt (ref_cursor m) (mkMapKeyRef (Some k)) Left = Ok (c, b) /\
    cursor_at tt m c (length (below (mkey k) (to_list m))).
Proof.
  intros [Hw Hs] Hh.
  destruct (seek_ok tt m (ref_cursor m) (mkMapKeyRef (Some k)) Left Hw Hh eq_refl)
    as (c & i & E & Hc & Hl); [done|].
  destruct (lands_ref k _ _ Hs Hl) as (-> & _). eauto.
Qed.

Lemma ref_slice_ok m k :
  wf_map m -> map_ready m ->
  exists c t, slice tt (ref_cursor m) (mkMapKeyRef (Some k)) Left = Ok (c, t) /\
    cursor_at tt m c (length (below (mkey k) (to_list m))) /\
    wf_tree tt t /\ to_list t = below (mkey k) (to_list m).
Proof.
  intros [Hw Hs] Hh.
  destruct (slice_ok tt m (ref_cursor m) 0 (mkMapKeyRef (Some k)) Left Hw Hh) as (c & t & i & E & Hc & Hl & Hwt & Hi);
    [by right|done|].
  destruct (lands_ref k _ _ Hs Hl) as (-> & _ & Et). exists c, t. rewrite Hi, Et. done.
Qed.

(** The item under a cursor that has landed at a key. *)
Lemma landed_item m (c : Cursor _ _ (MapKeyRef K)) k :
  wf_map m -> cursor_at tt m c (length (below (mkey k) (to_list m))) ->
  item c = Ok (match find_key (mkey k) (to_list m) with
               | Some x => Some x
               | None => head (above (mkey k) (to_list m))
               end).
Proof.
  intros [Hw Hs] Hc. rewrite (cursor_at_item tt _ _ _ Hc).
  rewrite <- (Nat.add_0_r (length _)), <- lookup_drop, <- head_lookup, drop_below by done.
  rewrite at_key_sorted by done. by destruct (find_key (mkey k) (to_list m)).
Qed.

(** Its end is the key exactly when the key is in the map. *)
Lemma landed_end m (c : Cursor _ _ (MapKeyRef K)) k :
  wf_map m -> cursor_at tt m c (length (below (mkey k) (to_list m))) ->
  exists e, cursor_end tt c = Ok e /\
    match find_key (mkey k) (to_list m) with
    | Some _ => cmp (Some k) (ref_key e) = Eq
    | None => cmp (Some k) (ref_key e) <> Eq
    end.
Proof.
  intros Hm Hc. pose proof (landed_item m c k Hm Hc) as Hi. destruct Hm as [Hw Hs].
  rewrite (cursor_at_item tt _ _ _ Hc) in Hi. injection Hi as Hi.
  rewrite (cursor_at_end tt _ _ _ Hc). eexists; split; [reflexivity|].
  pose proof (below_Forall (mkey k) (to_list m)) as Fb.
  pose proof (above_Forall (mkey k) (to_list m)) as Fa.
  destruct (find_key (mkey k) (to_list m)) as [x|] eqn:Ef.
  - rewrite (position_ref _ _ _ Hi). apply find_key_some in Ef. injection Ef as ->. apply cmp_refl.
  - destruct (above (mkey k) (to_list m)) as [|y r] eqn:Ea; simpl in Hi.
    + apply lookup_ge_None in Hi. rewrite position_at_ge by lia.
      assert (El : to_list m = below (mkey k) (to_list m)).
      { rewrite (sorted_split (mkey k) _ Hs) at 1. by rewrite at_key_sorted, Ef, Ea, app_nil_r by done. }
      rewrite El. destruct (below (mkey k) (to_list m)) as [|x l _] using rev_ind; [done|].
      rewrite dim_items_app. simpl. apply Forall_snoc in Fb as [_ Fx].
      change (cmp (Some (me_key x)) (Some k) = Lt) in Fx.
      change (cmp (Some k) (Some (me_key x)) <> Eq). by rewrite (cmp_flip (Some (me_key x)) (Some k)), Fx.
    + rewrite (position_ref _ _ _ Hi). apply Forall_cons_iff in Fa as [Fy _].
      change (cmp (Some k) (Some (me_key y)) = Lt) in Fy. simpl. by rewrite Fy.
Qed.

(** Removing the landing item, if it has the key, and taking the rest. *)
Lemma landed_rest m (c : Cursor _ _ (MapKeyRef K)) k :
  wf_map m -> map_ready m -> cursor_at tt m c (length (below (mkey k) (to_list m))) ->
  match find_key (mkey k) (to_list m) with
  | Some _ => exists c' c2 t, cursor_next tt c = Ok c' /\ suffix tt c' = Ok (c2, t) /\
                wf_tree tt t /\ to_list t = above (mkey k) (to_list m)
  | None => exists c2 t, suffix tt c = Ok (c2, t) /\
                wf_tree tt t /\ to_list t = above (mkey k) (to_list m)
  end.
Proof.
  intros [Hw Hs] Hh Hc. pose proof (drop_below (mkey k) _ Hs) as Ed. rewrite at_key_sorted in Ed by done.
  destruct (find_key (mkey k) (to_list m)) as [x|]; simpl in Ed.
  - destruct (next_ok tt m c (Datatypes.S (length (below (mkey k) (to_list m)))) Hw Hh) as (c' & En & Hc').
    { left. eexists. split; [exact Hc|]. apply (f_equal length) in Ed.
      rewrite length_drop in Ed. simpl in Ed. lia. }
    destruct (suffix_ok tt m c' _ Hw Hh (or_introl Hc')) as (c2 & t & E & _ & Hwt & Hi).
    exists c', c2, t. split_and!; [done|done|done|]. rewrite Hi, <- Nat.add_1_r, <- drop_drop, Ed. done.
  - destruct (suffix_ok tt m c _ Hw Hh (or_introl Hc)) as (c2 & t & E & _ & Hwt & Hi).
    exists c2, t. split_and!; [done|done|]. by rewrite Hi.
Qed.

Lemma mkey_eqb k k' : eqb (mkey k) (mkey k') = eqb k k'.
Proof. done. Qed.

Lemma map_get_ok m k : wf_map m -> map_ready m -> map_get m k = Ok (map_lookup m k).
Proof.
  intros Hm Hh. unfold map_get, map_lookup. destruct (ref_seek_ok m k Hm Hh) as (c & b & -> & Hc). cbn [obind].
  rewrite (landed_item m c k Hm Hc). cbn [obind].
  destruct (find_key (mkey k) (to_list m)) as [x|] eqn:Ef.
  - apply find_key_some in Ef. injection Ef as Ek. simpl. rewrite Ek.
    by rewrite (proj2 (eqb_spec (Some k) (Some k)) eq_refl).
  - pose proof (above_Forall (mkey k) (to_list m)) as Fa. destruct (above _ _) as [|y r]; [done|].
    apply Forall_cons_iff in Fa as [Fy _]. change (cmp (Some k) (Some (me_key y)) = Lt) in Fy.
    simpl. unfold eqb. by rewrite Fy.
Qed.

Lemma map_insert_ok m k (v : V) :
  wf_map m -> map_ready m ->
  exists m', map_insert m k v = Ok m' /\ wf_tree tt m' /\
    to_list m' = below (mkey k) (to_list m) ++ opt_list (Some (mkMapEntry k v)) ++ above (mkey k) (to_list m).
Proof.
  intros [Hw Hs] Hh. unfold map_insert.
  destruct (insert_or_replace_ok (K := MapKey K) tt m (mkMapEntry k v) Hw Hh Hs) as (m' & -> & Hw' & Hi).
  exists m'. done.
Qed.

Lemma map_remove_ok m k :
  wf_map m -> map_ready m ->
  exists m', map_remove m k = Ok (m', map_lookup m k) /\ wf_tree tt m' /\
    to_list m' = below (mkey k) (to_list m) ++ opt_list None ++ above (mkey k) (to_list m).
Proof.
  intros Hm Hh. unfold map_remove, map_lookup.
  destruct (ref_slice_ok m k Hm Hh) as (c & t & -> & Hc & Hwt & Hit). cbn [obind].
  destruct (landed_end m c k Hm Hc) as (e & -> & He). cbn [obind target_cmp map_key_ref_target].
  pose proof (landed_item m c k Hm Hc) as Hi. pose proof (landed_rest m c k Hm Hh Hc) as Hr.
  destruct (find_key (mkey k) (to_list m)) as [x|]; cbn [ref_key].
  - rewrite He, Hi. cbn [obind unwrap]. destruct Hr as (c' & c2 & t2 & -> & E & Hw2 & Hi2). cbn [obind].
    rewrite E. cbn [obind]. destruct (append_tree_ok tt t t2 Hwt Hw2) as (t3 & -> & Hw3 & Hi3 & _).
    exists t3. split_and!; [done|done|]. by rewrite Hi3, Hit, Hi2.
  - destruct Hr as (c2 & t2 & E & Hw2 & Hi2).
    destruct (append_tree_ok tt t t2 Hwt Hw2) as (t3 & E3 & Hw3 & Hi3 & _).
    exists t3. split_and!; [|done|by rewrite Hi3, Hit, Hi2].
    destruct (cmp (Some k) (ref_key e)); [done|..]; cbn [obind]; rewrite E; cbn [obind]; by rewrite E3.
Qed.

Lemma map_update_ok {R} m k (f : V -> V * R) :
  wf_map m -> map_ready m ->
  exists m', map_update m k f = Ok (m', option_map (fun v => (f v).2) (map_lookup m k)) /\ wf_tree tt m' /\
    to_list m' = below (mkey k) (to_list m) ++
      opt_list (option_map (fun v => mkMapEntry k (f v).1) (map_lookup m k)) ++ above (mkey k) (to_list m).
Proof.
  intros Hm Hh. unfold map_update, map_lookup.
  destruct (ref_slice_ok m k Hm Hh) as (c & t & -> & Hc & Hwt & Hit). cbn [obind].
  destruct (landed_end m c k Hm Hc) as (e & -> & He). cbn [obind target_cmp map_key_ref_target].
  pose proof (landed_item m c k Hm Hc) as Hi. pose proof (landed_rest m c k Hm Hh Hc) as Hr.
  destruct (find_key (mkey k) (to_list m)) as [x|] eqn:Ef; cbn [ref_key].
  - apply find_key_some in Ef. injection Ef as Ek.
    rewrite He, Hi. cbn [obind unwrap option_map]. destruct (f (me_value x)) as [v r].
    destruct (push_ok tt t (mkMapEntry (me_key x) v) Hwt) as (t1 & -> & Hw1 & Hi1). cbn [obind].
    destruct Hr as (c' & c2 & t2 & -> & E & Hw2 & Hi2). cbn [obind].
    rewrite E. cbn [obind]. destruct (append_tree_ok tt t1 t2 Hw1 Hw2) as (t3 & -> & Hw3 & Hi3 & _).
    exists t3. split_and!; [done|done|]. rewrite Hi3, Hi1, Hit, Hi2, Ek. by rewrite <- app_assoc.
  - destruct Hr as (c2 & t2 & E & Hw2 & Hi2).
    destruct (append_tree_ok tt t t2 Hwt Hw2) as (t3 & E3 & Hw3 & Hi3 & _).
    exists t3. split_and!; [|done|by rewrite Hi3, Hit, Hi2].
    destruct (cmp (Some k) (ref_key e)); [done|..]; cbn [obind]; rewrite E; cbn [obind]; by rewrite E3.
Qed.

(** The three updates have the shape of a replacement at one key. *)
Lemma wf_replace m m' k (o : option (MapEntry K V)) :
  wf_map m -> (forall x, o = Some x -> me_key x = k) -> wf_tree tt m' ->
  to_list m' = below (mkey k) (to_list m) ++ opt_list o ++ above (mkey k) (to_list m) ->
  wf_map m' /\ forall k', map_lookup m' k' = if eqb k' k then option_map me_value o else map_lookup m k'.
Proof.
  intros [Hw Hs] Ho Hw' Hi.
  assert (Ho' : forall x, o = Some x -> key x = mkey k) by (intros x Hx; unfold key, map_entry_keyed; by rewrite (Ho x Hx)).
  split.
  - split; [done|]. rewrite Hi. by apply sorted_replace.
  - intros k'. unfold map_lookup. rewrite Hi, find_key_replace by done. rewrite mkey_eqb.
    by destruct (eqb k' k).
Qed.

Lemma map_closest_ok m k :
  wf_map m -> map_ready m ->
  map_closest m k = Ok (list.last (List.filter (fun p => negb (ltb k p.1)) (entries m))).
Proof.
  intros [Hw Hs] Hh. unfold map_closest.
  destruct (seek_ok tt m (ref_cursor m) (mkMapKeyRef (Some k)) Right Hw Hh eq_refl)
    as (c & i & -> & Hc & Hl); [done|]. cbn [obind].
  destruct (lands_filter tt (mkMapKeyRef (Some k)) (key_rank (mkey k)) Right (to_list m) i) as [Et _];
    [apply ranked_ref|by apply rank_monotone_keys|done|].
  pose proof (cursor_at_bound tt _ _ _ Hc) as Hi.
  destruct (prev_ok tt m c i Hw Hh (or_introl Hc) Hi) as (c' & -> & Hp). cbn [obind].
  assert (Ef : List.filter (fun p => negb (ltb k p.1)) (entries m) = map entry_pair (take i (to_list m))).
  { rewrite Et. unfold entries. clear. induction (to_list m) as [|x l IH]; [done|]. simpl.
    unfold past, key_rank, ltb at 1. change (cmp (mkey k) (key x)) with (cmp k (me_key x)).
    destruct (cmp k (me_key x)); simpl; by rewrite ?IH. }
  rewrite Ef. destruct i as [|i]; simpl in Hp.
  - rewrite take_0. destruct Hp as [(_ & Hd & _ & Hst & _)|(El & Hp)].
    + unfold item, assert_did_seek. rewrite Hd, Hst. done.
    + rewrite (cursor_at_item tt _ _ _ Hp), El. done.
  - rewrite (cursor_at_item tt _ _ _ Hp). cbn [obind].
    destruct (lookup_lt_is_Some_2 (to_list m) i ltac:(lia)) as [x Hx].
    rewrite Hx, (take_S_r _ _ _ Hx), map_app. simpl. by rewrite last_snoc.
Qed.

Lemma cursor_collect_ok {D} `{!Dimension unit (MapKey K) D, !DimensionLaws unit (MapKey K) D}
    m (c : Cursor _ _ D) i fuel acc :
  wf_tree tt m -> map_ready m -> cursor_at tt m c i -> length (to_list m) < i + fuel ->
  cursor_collect tt fuel c acc = Ok (acc ++ drop i (to_list m)).
Proof.
  intros Hw Hh. revert c i acc. induction fuel as [|fuel IH]; intros c i acc Hc Hf.
  { pose proof (cursor_at_bound tt _ _ _ Hc). lia. }
  simpl. unfold cursor_iter_next. pose proof Hc as (_ & -> & _). cbn [obind].
  rewrite (cursor_at_item tt _ _ _ Hc). cbn [obind].
  destruct (to_list m !! i) as [x|] eqn:Hx; simpl.
  - pose proof (lookup_lt_Some _ _ _ Hx).
    destruct (next_ok tt m c (Datatypes.S i) Hw Hh) as (c' & -> & Hc').
    { left. exists i. split; [done|lia]. }
    cbn [obind]. rewrite (IH _ _ _ Hc') by lia. by rewrite (drop_S _ _ _ Hx), <- app_assoc.
  - apply lookup_ge_None in Hx. by rewrite drop_ge, app_nil_r.
Qed.

Lemma map_iter_from_ok m k :
  wf_map m -> map_ready m ->
  map_iter_from m k = Ok (List.filter (fun p => negb (ltb p.1 k)) (entries m)).
Proof.
  intros [Hw Hs] Hh. unfold map_iter_from.
  destruct (seek_ok tt m (ref_cursor m) (mkMapKeyRef (Some k)) Left Hw Hh eq_refl)
    as (c & i & -> & Hc & Hl); [done|]. cbn [obind].
  destruct (lands_filter tt (mkMapKeyRef (Some k)) (key_rank (mkey k)) Left (to_list m) i) as [_ Et];
    [apply ranked_ref|by apply rank_monotone_keys|done|].
  rewrite (cursor_collect_ok m c i _ [] Hw Hh Hc) by lia. cbn [obind]. simpl. rewrite Et.
  unfold entries. f_equal. clear -OrdLaws0. induction (to_list m) as [|x l IH]; [done|]. simpl.
  rewrite past_left. change (ltb (key x) (mkey k)) with (ltb (me_key x) k).
  destruct (ltb (me_key x) k); simpl; by rewrite ?IH.
Qed.

Lemma retain_loop_ok m (p : K -> V -> bool) (c : Cursor _ _ (MapKeyRef K)) i fuel nm :
  wf_tree tt m -> map_ready m -> cursor_at tt m c i -> length (to_list m) < i + fuel -> wf_tree tt nm ->
  exists m', retain_loop p fuel c nm = Ok m' /\ wf_tree tt m' /\
    to_list m' = to_list nm ++ List.filter (fun x => p (me_key x) (me_value x)) (drop i (to_list m)).
Proof.
  intros Hw Hh. revert c i nm. induction fuel as [|fuel IH]; intros c i nm Hc Hf Hn.
  { pose proof (cursor_at_bound tt _ _ _ Hc). lia. }
  simpl. rewrite (cursor_at_item tt _ _ _ Hc). cbn [obind].
  destruct (to_list m !! i) as [x|] eqn:Hx; simpl.
  - pose proof (lookup_lt_Some _ _ _ Hx).
    assert (Hnext : forall nm', wf_tree tt nm' ->
      exists m', (let! c := cursor_next tt c in retain_loop p fuel c nm') = Ok m' /\ wf_tree tt m' /\
        to_list m' = to_list nm' ++
          List.filter (fun x => p (me_key x) (me_value x)) (drop (Datatypes.S i) (to_list m))).
    { intros nm' Hn'. destruct (next_ok tt m c (Datatypes.S i) Hw Hh) as (c' & -> & Hc').
      { left. exists i. split; [done|lia]. }
      cbn [obind]. apply IH; [done|lia|done]. }
    rewrite (drop_S _ _ _ Hx). simpl. destruct (p (me_key x) (me_value x)); cbn [obind].
    + destruct (push_ok tt nm x Hn) as (nm' & -> & Hn' & Hi'). cbn [obind].
      destruct (Hnext nm' Hn') as (m' & E & Hm' & Hl). exists m'. split_and!; [done|done|].
      by rewrite Hl, Hi', <- app_assoc.
    + by apply Hnext.
  - apply lookup_ge_None in Hx. exists nm. by rewrite drop_ge, app_nil_r.
Qed.

Lemma map_retain_ok m (p : K -> V -> bool) :
  wf_map m -> map_ready m ->
  exists m', map_retain m p = Ok m' /\ wf_tree tt m' /\
    to_list m' = List.filter (fun x => p (me_key x) (me_value x)) (to_list m).
Proof.
  intros [Hw Hs] Hh. unfold map_retain.
  destruct (next_ok tt m (ref_cursor m) 0 Hw Hh) as (c & -> & Hc); [right; auto|]. cbn [obind].
  destruct (retain_loop_ok m p c 0 (length (to_list m) + 1) map_default Hw Hh Hc) as (m' & E & Hw' & Hi);
    [lia|apply wf_tree_new|]. exists m'. done.
Qed.

Lemma map_iter_ok m : wf_tree tt m -> map_ready m -> map_iter m = Ok (entries m).
Proof. intros Hw Hh. unfold map_iter. by rewrite (iter_collect_ok tt m Hw Hh). Qed.

(** *** Batches *)

(** The value a list of pairs gives a key. *)
Definition assoc k (iter : list (K * V)) : option V :=
  option_map snd (List.find (fun p => eqb p.1 k) iter).

Lemma assoc_entries m k : assoc k (entries m) = map_lookup m k.
Proof.
  unfold assoc, entries, map_lookup, find_key, at_key. induction (to_list m) as [|x l IH]; [done|].
  cbn [map List.find List.filter entry_pair fst].
  change (eqb (key x) (mkey k)) with (eqb (me_key x) k). by destruct (eqb (me_key x) k).
Qed.

Lemma edit_for_inserts k (iter : list (K * V)) :
  edit_for (mkey k) (map (fun p => Insert (mkMapEntry p.1 p.2)) iter) =
  option_map (fun v => Insert (mkMapEntry k v)) (assoc k iter).
Proof.
  unfold edit_for, assoc. induction iter as [|[k' v] iter IH]; [done|].
  cbn [map List.find fst snd].
  change (eqb (edit_key (Insert (mkMapEntry k' v))) (mkey k)) with (eqb k' k).
  destruct (eqb k' k) eqn:E; [|done]. simpl. by apply eqb_spec in E as ->.
Qed.

Lemma map_edit_ok m (iter : list (K * V)) :
  wf_map m -> map_ready m -> NoDup (map fst iter) ->
  exists m' r, edit (K := MapKey K) tt m (map (fun p => Insert (mkMapEntry p.1 p.2)) iter) = Ok (m', r) /\
    wf_map m' /\
    forall k, map_lookup m' k = match assoc k iter with Some v => Some v | None => map_lookup m k end.
Proof.
  intros [Hw Hs] Hh Hnd.
  destruct (edit_ok (K := MapKey K) tt m (map (fun p => Insert (mkMapEntry p.1 p.2)) iter) Hw Hh Hs)
    as (m' & r & E & Hw' & Hs' & Hf & _).
  { rewrite map_map. change (NoDup (map (fun p : K * V => mkey p.1) iter)).
    rewrite <- (map_map fst (fun k => mkey k)). apply NoDup_fmap_2; [|done]. by intros ? ? [= ->]. }
  exists m', r. split_and!; [done|done|]. intros k. unfold map_lookup at 1. rewrite Hf, edit_for_inserts.
  by destruct (assoc k iter).
Qed.

Lemma sorted_entries m : sorted (K := MapKey K) (to_list m) -> NoDup (map fst (entries m)).
Proof.
  intros Hs. unfold entries. rewrite map_map. induction Hs as [|x l Hl IH Hx]; simpl; [constructor|].
  constructor; [|done]. intros Hin. apply list_elem_of_fmap in Hin as (y & Ey & Hy).
  rewrite Forall_forall in Hx. specialize (Hx y Hy).
  change (cmp (Some (me_key x)) (Some (me_key y)) = Lt) in Hx.
  simpl in Ey. rewrite Ey in Hx. by apply cmp_lt_irrefl in Hx.
Qed.

Lemma sorted_filter (p : MapEntry K V -> bool) l :
  sorted (K := MapKey K) l -> sorted (K := MapKey K) (List.filter p l).
Proof.
  induction 1 as [|x l Hl IH Hx]; simpl; [constructor|]. destruct (p x); [|done].
  apply SSorted_cons; [done|]. by apply bfilter_Forall_keep.
Qed.

Lemma entries_filter (p : K * V -> bool) m m' :
  to_list m' = List.filter (fun x => p (entry_pair x)) (to_list m) ->
  entries m' = List.filter p (entries m).
Proof.
  unfold entries. intros ->. induction (to_list m) as [|x l IH]; [done|]. simpl.
  destruct (p (entry_pair x)); simpl; by rewrite IH.
Qed.

(** The keys a range target is after. *)
Definition before {Tg} `{!MapSeekTarget K Tg} (tg : Tg) (k : K) : bool :=
  match cmp_cursor tg k with Gt => true | _ => false end.

(** A range target orders the keys of the map. *)
Definition consistent {Tg} `{!MapSeekTarget K Tg} (tg : Tg) m : Prop :=
  rank_monotone (fun x => cmp_cursor tg (me_key x)) (to_list m).

Lemma past_before {Tg} `{!MapSeekTarget K Tg} (tg : Tg) (x : MapEntry K V) :
  past (fun x => cmp_cursor tg (me_key x)) Left x = before tg (me_key x).
Proof. unfold past, before. by destruct (cmp_cursor _ _). Qed.

Lemma key_consistent k m : sorted (K := MapKey K) (to_list m) -> consistent k m.
Proof. intros Hs. exact (rank_monotone_keys (mkey k) _ Hs). Qed.

Lemma key_before k k' : before k k' = ltb k' k.
Proof. unfold before, cmp_cursor, key_seek_target, ltb. rewrite (cmp_flip k' k). by destruct (cmp k' k). Qed.

Lemma map_remove_range_ok {Tg1 Tg2} `{!MapSeekTarget K Tg1, !MapSeekTarget K Tg2}
    m (start : Tg1) (end_ : Tg2) :
  wf_map m -> map_ready m -> consistent start m -> consistent end_ m ->
  exists m', map_remove_range m start end_ = Ok m' /\ wf_tree tt m' /\
    to_list m' = List.filter (fun x => before start (me_key x)) (to_list m) ++
                 List.filter (fun x => negb (before end_ (me_key x))) (to_list m).
Proof.
  intros [Hw Hs] Hh Hc1 Hc2. unfold map_remove_range.
  assert (Hr : forall (Tg : Type) (T : MapSeekTarget K Tg) (tg : Tg),
    ranked (D := MapKeyRef K) tt (mkAdaptor tg) (fun x => cmp_cursor tg (me_key x)) (to_list m)).
  { intros Tg HT tg i x Hx. by rewrite (position_ref _ _ _ Hx). }
  destruct (slice_ok tt m (ref_cursor m) 0 (mkAdaptor start) Left Hw Hh)
    as (c & t & i & -> & Hc & Hl & Hwt & Hi); [by right|done|]. cbn [obind].
  destruct (lands_filter tt _ _ Left _ _ (Hr _ _ start) Hc1 Hl) as [Et _].
  destruct (seek_ok tt m c (mkAdaptor end_) Left Hw Hh) as (c1 & j & -> & Hcj & Hlj);
    [apply Hc|done|]. cbn [obind].
  destruct (lands_filter tt _ _ Left _ _ (Hr _ _ end_) Hc2 Hlj) as [_ Ed].
  destruct (suffix_ok tt m c1 j Hw Hh (or_introl Hcj)) as (c2 & t2 & -> & _ & Hw2 & Hi2). cbn [obind].
  destruct (append_tree_ok tt t t2 Hwt Hw2) as (t3 & -> & Hw3 & Hi3 & _).
  exists t3. split_and!; [done|done|]. rewrite Hi3, Hi, Hi2, Et, Ed. simpl. f_equal; apply filter_ext; intros x;
    by rewrite past_before.
Qed.

Lemma map_from_ok (l : list (K * V)) :
  StronglySorted (fun a b => cmp a.1 b.1 = Lt) l ->
  exists m, map_from_ordered_entries l = Ok m /\ wf_map m /\ entries m = l.
Proof.
  intros Hs. unfold map_from_ordered_entries.
  destruct (from_iter_ok tt (map (fun p => mkMapEntry p.1 p.2) l)) as (m & E & Hw & Hi & _).
  exists m. split_and!; [done| |].
  - split; [done|]. rewrite Hi. clear -Hs. induction Hs as [|x l Hl IH Hx]; simpl; [constructor|].
    apply SSorted_cons; [done|]. apply Forall_map. eapply Forall_weaken; [|exact Hx]. done.
  - unfold entries. rewrite Hi, map_map. clear. induction l as [|[k v] l IH]; [done|].
    simpl. by rewrite IH.
Qed.


(** The queries of a well-formed [TreeMap] return (they neither panic nor run
    out of fuel) and agree with its list of entries: [get] is the lookup,
    [closest] the last entry whose key is at most the given one, [iter_from] the
    entries from the given key on, [iter], [values], [first] and [last] the
    entries, their values and the ends. *)
Theorem map_queries_correct m k :
  wf_map m -> map_ready m ->
  map_get m k = Ok (map_lookup m k) /\
  map_closest m k = Ok (list.last (List.filter (fun p => negb (ltb k p.1)) (entries m))) /\
  map_iter_from m k = Ok (List.filter (fun p => negb (ltb p.1 k)) (entries m)) /\
  map_iter m = Ok (entries m) /\ map_values m = Ok (map snd (entries m)) /\
  map_first m = Ok (head (entries m)) /\ map_last m = Ok (list.last (entries m)) /\
  (map_is_empty m = true <-> entries m = []).
Proof.
  intros Hm Hh. pose proof Hm as [Hw Hs]. split_and!;
    [by apply map_get_ok|by apply map_closest_ok|by apply map_iter_from_ok|by apply map_iter_ok|..].
  - unfold map_values. rewrite (iter_collect_ok tt m Hw Hh). simpl. unfold entries. by rewrite map_map.
  - unfold map_first. rewrite (first_ok tt) by done. simpl. unfold entries. by destruct (to_list m).
  - unfold map_last. rewrite (last_ok tt) by done. simpl. unfold entries. by rewrite <- fmap_last.
  - unfold map_is_empty. rewrite (wf_tree_is_empty tt) by done. unfold entries.
    by destruct (to_list m).
Qed.

(** C3: [insert], [remove] and [update] of a [TreeMap] return, keep it well formed
    and change the lookup of their key only: [remove] returns the value it had,
    [update] applies the function to it, and does nothing to an absent key. *)
Theorem map_updates_correct {R} m k (v : V) (f : V -> V * R) :
  wf_map m -> map_ready m ->
  (exists m', map_insert m k v = Ok m' /\ wf_map m' /\
     forall k', map_lookup m' k' = if eqb k' k then Some v else map_lookup m k') /\
  (exists m', map_remove m k = Ok (m', map_lookup m k) /\ wf_map m' /\
     forall k', map_lookup m' k' = if eqb k' k then None else map_lookup m k') /\
  (exists m', map_update m k f = Ok (m', option_map (fun v => (f v).2) (map_lookup m k)) /\ wf_map m' /\
     forall k', map_lookup m' k' =
       if eqb k' k then option_map (fun v => (f v).1) (map_lookup m k) else map_lookup m k').
Proof.
  intros Hm Hh. split_and!.
  - destruct (map_insert_ok m k v Hm Hh) as (m' & E & Hw & Hi). exists m'. split; [done|].
    by apply (wf_replace m m' k (Some (mkMapEntry k v))); [|intros ? [= <-]|..].
  - destruct (map_remove_ok m k Hm Hh) as (m' & E & Hw & Hi). exists m'. split; [done|].
    by apply (wf_replace m m' k None).
  - destruct (map_update_ok m k f Hm Hh) as (m' & E & Hw & Hi). exists m'. split; [done|].
    destruct (wf_replace m m' k (option_map (fun v => mkMapEntry k (f v).1) (map_lookup m k)) Hm)
      as (Hm' & Hl); [|done|done|].
    + intros x Hx. destruct (map_lookup m k); [|done]. by injection Hx as <-.
    + split; [done|]. intros k'. rewrite Hl. by destruct (map_lookup m k).
Qed.

(** The batch operations of [TreeMap]: [extend] with distinct keys and
    [insert_tree] override the lookups of the keys they bring, [retain] keeps exactly
    the entries the predicate accepts, [clear] empties the map, and
    [from_ordered_entries] of strictly increasing keys holds exactly those entries. *)
Theorem map_batches_correct m (other : TreeMap K V) (iter : list (K * V)) (p : K -> V -> bool) :
  wf_map m -> map_ready m ->
  (NoDup (map fst iter) -> exists m', map_extend m iter = Ok m' /\ wf_map m' /\
     forall k, map_lookup m' k = match assoc k iter with Some v => Some v | None => map_lookup m k end) /\
  (wf_map other -> map_ready other -> exists m', map_insert_tree m other = Ok m' /\ wf_map m' /\
     forall k, map_lookup m' k =
       match map_lookup other k with Some v => Some v | None => map_lookup m k end) /\
  (exists m', map_retain m p = Ok m' /\ wf_map m' /\
     entries m' = List.filter (fun e => p e.1 e.2) (entries m)) /\
  (wf_map (map_clear m) /\ entries (map_clear m) = []) /\
  (StronglySorted (fun a b => cmp a.1 b.1 = Lt) iter ->
     exists m', map_from_ordered_entries iter = Ok m' /\ wf_map m' /\ entries m' = iter).
Proof.
  intros Hm Hh. split_and!.
  - intros Hnd. destruct (map_edit_ok m iter Hm Hh Hnd) as (m' & r & E & Hm' & Hl).
    exists m'. unfold map_extend. by rewrite E.
  - intros [Hwo Hso] Hho. unfold map_insert_tree. rewrite (map_iter_ok other Hwo Hho). cbn [obind].
    destruct (map_edit_ok m (entries other) Hm Hh (sorted_entries other Hso)) as (m' & r & E & Hm' & Hl).
    exists m'. rewrite E. split_and!; [done|done|]. intros k. by rewrite Hl, assoc_entries.
  - destruct (map_retain_ok m p Hm Hh) as (m' & E & Hw' & Hi). exists m'. split_and!; [done| |].
    + split; [done|]. rewrite Hi. apply sorted_filter, Hm.
    + by apply (entries_filter (fun e => p e.1 e.2)).
  - split; [apply wf_tree_new|constructor].
  - done.
  - apply map_from_ok.
Qed.

(** [remove_range] with range targets that order the keys keeps exactly the
    entries before the start and those not before the end; when the start does not
    come after the end, the map stays well formed. *)
Theorem remove_range_correct {Tg1 Tg2} `{!MapSeekTarget K Tg1, !MapSeekTarget K Tg2}
    m (start : Tg1) (end_ : Tg2) :
  wf_map m -> map_ready m -> consistent start m -> consistent end_ m ->
  (forall k, before start k = true -> before end_ k = true) ->
  exists m', map_remove_range m start end_ = Ok m' /\ wf_map m' /\
    forall k, map_lookup m' k =
      if before start k || negb (before end_ k) then map_lookup m k else None.
Proof.
  intros Hm Hh Hc1 Hc2 Hse.
  destruct (map_remove_range_ok m start end_ Hm Hh Hc1 Hc2) as (m' & E & Hw & Hi).
  set (q := fun x : MapEntry K V => before start (me_key x) || negb (before end_ (me_key x))).
  assert (Ei : to_list m' = List.filter q (to_list m)).
  { rewrite Hi. destruct Hm as [_ Hs]. clear -Hs Hc1 Hc2 Hse OrdLaws0. unfold consistent in Hc1, Hc2.
    induction (to_list m) as [|x l IH]; [done|].
    assert (Hm1 : rank_monotone (fun x => cmp_cursor start (me_key x)) l).
    { intros i j y z Hij Hy Hz. apply (Hc1 (Datatypes.S i) (Datatypes.S j)); [lia|done|done]. }
    assert (Hm2 : rank_monotone (fun x => cmp_cursor end_ (me_key x)) l).
    { intros i j y z Hij Hy Hz. apply (Hc2 (Datatypes.S i) (Datatypes.S j)); [lia|done|done]. }
    apply StronglySorted_inv in Hs as [Hs _]. specialize (IH Hs Hm1 Hm2). simpl. unfold q at 1.
    destruct (before start (me_key x)) eqn:Eb.
    - rewrite (Hse _ Eb). simpl. by rewrite <- IH.
    - assert (El : List.filter (fun x => before start (me_key x)) l = []).
      { apply bfilter_none. apply Forall_lookup. intros j y Hy.
        destruct (before start (me_key y)) eqn:Ey; [|done].
        destruct (Hc1 0 (Datatypes.S j) x y) as [_ Hg]; [lia|done|done|].
        unfold before in Eb, Ey. destruct (cmp_cursor start (me_key y)); [done..|]. by rewrite Hg in Eb. }
      rewrite El in *. simpl in *. destruct (before end_ (me_key x)); simpl; by rewrite <- IH. }
  exists m'. split_and!; [done| |].
  - split; [done|]. rewrite Ei. apply sorted_filter, Hm.
  - intros k. rewrite <- !assoc_entries.
    rewrite (entries_filter (fun e => before start e.1 || negb (before end_ e.1)) m m') by done.
    unfold assoc. induction (entries m) as [|[k' v] l IH]; simpl; [by destruct (_ || _)|].
    destruct (before start k' || negb (before end_ k')) eqn:Eq; simpl; [|rewrite IH];
      destruct (eqb k' k) eqn:Ek; try done; apply eqb_spec in Ek; subst k'; by rewrite Eq.
Qed.

(** [remove_range] with a reversed range does not leave the map alone and does
    not panic: the entries from the end up to the start are then in the map twice,
    so its keys are no longer increasing. *)
Theorem remove_range_reversed m (start end_ : K) (e : K * V) :
  wf_map m -> map_ready m -> e ∈ entries m -> ltb e.1 start = true -> ltb e.1 end_ = false ->
  exists m', map_remove_range m start end_ = Ok m' /\
    entries m' = List.filter (fun p => ltb p.1 start) (entries m) ++
                 List.filter (fun p => negb (ltb p.1 end_)) (entries m) /\
    ~ NoDup (map fst (entries m')) /\ ~ wf_map m'.
Proof.
  intros Hm Hh Hin Hlt Hge.
  destruct (map_remove_range_ok m start end_ Hm Hh) as (m' & E & Hw & Hi); [apply key_consistent, Hm..|].
  assert (Ee : entries m' = List.filter (fun p => ltb p.1 start) (entries m) ++
                            List.filter (fun p => negb (ltb p.1 end_)) (entries m)).
  { unfold entries. rewrite Hi, map_app. clear -OrdLaws0. f_equal; induction (to_list m) as [|x l IH]; try done; simpl;
      rewrite key_before; destruct (ltb (me_key x) _); simpl; by rewrite ?IH. }
  assert (Hnd : ~ NoDup (map fst (entries m'))).
  { rewrite Ee, map_app. intros (_ & Hd & _)%NoDup_app. apply (Hd e.1); apply list_elem_of_fmap; exists e;
      (split; [done|]); apply list_elem_of_In, List.filter_In; rewrite <- list_elem_of_In.
    - done.
    - by rewrite Hge. }
  exists m'. split_and!; [done|done|done|]. intros [_ Hs]. by apply Hnd, sorted_entries.
Qed.
End MapSpec.

(** ** The interface of an ordered map *)

Class OrderedMap (M K V : Type) := {
  om_default : M;
  om_from_ordered_entries : list (K * V) -> outcome M;
  om_is_empty : M -> bool;
  om_get : M -> K -> outcome (option V);
  om_insert : M -> K -> V -> outcome M;
  om_remove : M -> K -> outcome (M * option V);
  om_extend : M -> list (K * V) -> outcome M;
  om_iter : M -> outcome (list (K * V));
  om_iter_from : M -> K -> outcome (list (K * V));
}.

(** What the map promises: its operations return on a well-formed map within
    reach of the cursors, and act on the association list of its entries. *)
Class OrderedMapLaws (M K V : Type) `{Ord K, OrderedMap M K V} := {
  om_wf : M -> Prop;
  om_ready : M -> Prop;
  om_entries : M -> list (K * V);
  om_entries_sorted m : om_wf m -> StronglySorted (fun a b => cmp a.1 b.1 = Lt) (om_entries m);
  om_default_ok : om_wf om_default /\ om_ready om_default /\ om_entries om_default = [];
  om_from_ok l : StronglySorted (fun a b => cmp a.1 b.1 = Lt) l ->
    exists m, om_from_ordered_entries l = Ok m /\ om_wf m /\ om_entries m = l;
  om_is_empty_ok m : om_wf m -> om_is_empty m = true <-> om_entries m = [];
  om_get_ok m k : om_wf m -> om_ready m -> om_get m k = Ok (assoc k (om_entries m));
  om_insert_ok m k v : om_wf m -> om_ready m ->
    exists m', om_insert m k v = Ok m' /\ om_wf m' /\
      forall k', assoc k' (om_entries m') = if eqb k' k then Some v else assoc k' (om_entries m);
  om_remove_ok m k : om_wf m -> om_ready m ->
    exists m', om_remove m k = Ok (m', assoc k (om_entries m)) /\ om_wf m' /\
      forall k', assoc k' (om_entries m') = if eqb k' k then None else assoc k' (om_entries m);
  om_extend_ok m l : om_wf m -> om_ready m -> NoDup (map fst l) ->
    exists m', om_extend m l = Ok m' /\ om_wf m' /\
      forall k, assoc k (om_entries m') =
        match assoc k l with Some v => Some v | None => assoc k (om_entries m) end;
  om_iter_ok m : om_wf m -> om_ready m -> om_iter m = Ok (om_entries m);
  om_iter_from_ok m k : om_wf m -> om_ready m ->
    om_iter_from m k = Ok (List.filter (fun p => negb (ltb p.1 k)) (om_entries m));
}.

#[export] Instance tree_map_ordered_map {K V} `{Ord K} : OrderedMap (TreeMap K V) K V := {
  om_default := map_default;
  om_from_ordered_entries := map_from_ordered_entries;
  om_is_empty := map_is_empty;
  om_get := map_get;
  om_insert := map_insert;
  om_remove := map_remove;
  om_extend := map_extend;
  om_iter := map_iter;
  om_iter_from := map_iter_from;
}.

Section TreeMapImplements.
Context {K V : Type} `{!Ord K, !OrdLaws K}.
Implicit Types m : TreeMap K V.

Lemma entries_strict m : wf_map m -> StronglySorted (fun a b => cmp a.1 b.1 = Lt) (entries m).
Proof.
  intros [_ Hs]. unfold entries. induction Hs as [|x l Hl IH Hx]; simpl; [constructor|].
  apply SSorted_cons; [done|]. apply Forall_map. eapply Forall_weaken; [|exact Hx]. done.
Qed.

#[export, refine] Instance tree_map_ordered_map_laws : OrderedMapLaws (TreeMap K V) K V := {
  om_wf := wf_map;
  om_ready := map_ready;
  om_entries := entries;
}.
Proof.
  - apply entries_strict.
  - split; [split; [apply wf_tree_new|constructor]|]. split; [|done].
    unfold map_ready, STACK_CAPACITY. simpl. lia.
  - apply map_from_ok.
  - intros m [Hw _]. simpl. unfold map_is_empty. rewrite (wf_tree_is_empty tt) by done.
    unfold entries. by destruct (to_list m).
  - intros m k Hm Hh. rewrite assoc_entries. by apply map_get_ok.
  - intros m k v Hm Hh. destruct (map_insert_ok m k v Hm Hh) as (m' & E & Hw & Hi).
    destruct (wf_replace m m' k (Some (mkMapEntry k v)) Hm) as (Hm' & Hl);
      [by intros ? [= <-]|done|done|].
    exists m'. split_and!; [done|done|]. intros k'. rewrite !assoc_entries. apply Hl.
  - intros m k Hm Hh. destruct (map_remove_ok m k Hm Hh) as (m' & E & Hw & Hi).
    destruct (wf_replace m m' k None Hm) as (Hm' & Hl); [done..|].
    exists m'. rewrite assoc_entries. split_and!; [done|done|]. intros k'. rewrite !assoc_entries. apply Hl.
  - intros m l Hm Hh Hnd. destruct (map_edit_ok m l Hm Hh Hnd) as (m' & r & E & Hm' & Hl).
    exists m'. split_and!; [simpl; unfold map_extend; by rewrite E|done|].
    intros k. rewrite !assoc_entries. apply Hl.
  - intros m [Hw _] Hh. by apply map_iter_ok.
  - intros m k Hm Hh. by apply map_iter_from_ok.
Defined.
End TreeMapImplements.

(** ** [TreeSet] *)
Section TreeSet.
Context {M K : Type} `{!Ord K, !OrdLaws K, !OrderedMap M K unit}.

Definition set_from_ordered_entries (entries : list K) : outcome M :=
  om_from_ordered_entries (map (fun k => (k, tt)) entries).

Definition set_is_empty (s : M) : bool := om_is_empty s.

Definition set_insert (s : M) (k : K) : outcome M := om_insert s k tt.

Definition set_remove (s : M) (k : K) : outcome (M * bool) :=
  let! (s, o) := om_remove s k in Ok (s, match o with Some _ => true | None => false end).

Definition set_extend (s : M) (iter : list K) : outcome M :=
  om_extend s (map (fun k => (k, tt)) iter).

Definition set_contains (s : M) (k : K) : outcome bool :=
  let! o := om_get s k in Ok (match o with Some _ => true | None => false end).

Definition set_iter (s : M) : outcome (list K) := let! l := om_iter s in Ok (map fst l).

Definition set_iter_from (s : M) (k : K) : outcome (list K) :=
  let! l := om_iter_from s k in Ok (map fst l).

Context `{!OrderedMapLaws M K unit}.

Definition elements (s : M) : list K := map fst (om_entries s).

Lemma assoc_fst (k : K) (l : list (K * unit)) :
  match assoc k l with Some _ => k ∈ map fst l | None => k ∉ map fst l end.
Proof.
  unfold assoc. induction l as [|[k' []] l IH]; simpl; [apply not_elem_of_nil|].
  destruct (eqb k' k) eqn:E; simpl.
  - apply eqb_spec in E as ->. apply elem_of_cons. by left.
  - assert (Hne : k <> k') by (intros ->; by rewrite (proj2 (eqb_spec k' k') eq_refl) in E).
    destruct (option_map snd _); rewrite elem_of_cons; naive_solver.
Qed.

Lemma elements_assoc s (k : K) : k ∈ elements s <-> assoc k (om_entries s) = Some tt.
Proof.
  pose proof (assoc_fst k (om_entries s)) as H. unfold elements.
  destruct (assoc k (om_entries s)) as [[]|]; naive_solver.
Qed.

Lemma map_fst_unit (l : list K) : map fst (map (fun k => (k, tt)) l) = l.
Proof. rewrite map_map. apply map_id. Qed.

(** [TreeSet], against the interface of an ordered map: its operations return
    and are those of the set of its elements, which [iter] lists in strictly
    increasing order; [insert], [remove] and [extend] (with distinct elements) are
    insertion, deletion and union, [contains] and the result of [remove] are
    membership. *)
Theorem set_operations_correct (s : M) (k : K) (l : list K) :
  om_wf s -> om_ready s ->
  (exists b, set_contains s k = Ok b /\ (b = true <-> k ∈ elements s)) /\
  (exists s', set_insert s k = Ok s' /\ om_wf s' /\
     forall k', k' ∈ elements s' <-> k' = k \/ k' ∈ elements s) /\
  (exists s' b, set_remove s k = Ok (s', b) /\ om_wf s' /\ (b = true <-> k ∈ elements s) /\
     forall k', k' ∈ elements s' <-> k' <> k /\ k' ∈ elements s) /\
  (NoDup l -> exists s', set_extend s l = Ok s' /\ om_wf s' /\
     forall k', k' ∈ elements s' <-> k' ∈ l \/ k' ∈ elements s) /\
  (set_iter s = Ok (elements s) /\ StronglySorted (fun a b => cmp a b = Lt) (elements s)) /\
  set_iter_from s k = Ok (List.filter (fun k' => negb (ltb k' k)) (elements s)) /\
  (StronglySorted (fun a b => cmp a b = Lt) l ->
     exists s', set_from_ordered_entries l = Ok s' /\ om_wf s' /\ elements s' = l) /\
  (set_is_empty s = true <-> elements s = []).
Proof.
  intros Hs Hr. split_and!.
  - unfold set_contains. rewrite om_get_ok by done. cbn [obind]. eexists; split; [reflexivity|].
    rewrite elements_assoc. destruct (assoc k (om_entries s)) as [[]|]; naive_solver.
  - destruct (om_insert_ok s k tt Hs Hr) as (s' & E & Hs' & Hl). exists s'. split_and!; [done|done|].
    intros k'. rewrite !elements_assoc, Hl. destruct (eqb k' k) eqn:Ek.
    + apply eqb_spec in Ek. naive_solver.
    + split; [by right|]. intros [->|?]; [|done]. by rewrite (proj2 (eqb_spec k k) eq_refl) in Ek.
  - unfold set_remove. destruct (om_remove_ok s k Hs Hr) as (s' & -> & Hs' & Hl). cbn [obind].
    eexists s', _. split_and!; [done|done| |].
    + rewrite elements_assoc. destruct (assoc k (om_entries s)) as [[]|]; naive_solver.
    + intros k'. rewrite !elements_assoc, Hl. destruct (eqb k' k) eqn:Ek.
      * apply eqb_spec in Ek. naive_solver.
      * split; [|by intros [_ ?]]. intros ?. split; [|done]. intros ->.
        by rewrite (proj2 (eqb_spec k k) eq_refl) in Ek.
  - intros Hnd. unfold set_extend.
    destruct (om_extend_ok s (map (fun k => (k, tt)) l) Hs Hr) as (s' & E & Hs' & Hl);
      [by rewrite map_fst_unit|].
    exists s'. split_and!; [done|done|]. intros k'. rewrite !elements_assoc, Hl.
    pose proof (assoc_fst k' (map (fun k => (k, tt)) l)) as Ha. rewrite map_fst_unit in Ha.
    destruct (assoc k' (map _ l)) as [[]|]; naive_solver.
  - unfold set_iter. by rewrite om_iter_ok.
  - pose proof (om_entries_sorted s Hs) as He. unfold elements.
    induction He as [|x r Hr' IH Hx]; simpl; constructor; [done|]. by apply Forall_map.
  - unfold set_iter_from. rewrite om_iter_from_ok by done. cbn [obind]. f_equal. unfold elements.
    induction (om_entries s) as [|[a []] r IH]; [done|]. simpl. destruct (ltb a k); simpl; by rewrite IH.
  - intros Hl. destruct (om_from_ok (map (fun k => (k, tt)) l)) as (s' & E & Hs' & Hi).
    + clear -Hl. induction Hl as [|x r Hr IH Hx]; simpl; constructor; [done|]. by apply Forall_map.
    + exists s'. unfold elements. by rewrite Hi, map_fst_unit.
  - unfold set_is_empty. rewrite om_is_empty_ok by done. unfold elements. by destruct (om_entries s).
Qed.
End TreeSet.

(** ** Concrete runs *)
Module TreeMapExamples.

(** The map of the first test of tree_map.rs, with more entries. *)
Definition sample_map : TreeMap nat nat :=
  match map_from_ordered_entries (map (fun n => (3 * n, n)) (seq 0 20)) with Ok m => m | _ => map_default end.

Lemma sample_map_entries : entries sample_map = map (fun n => (3 * n, n)) (seq 0 20).
Proof. vm_compute. reflexivity. Qed.

Lemma sample_map_wf : wf_map sample_map.
Proof.
  destruct (map_from_ok (map (fun n => (3 * n, n)) (seq 0 20))) as (m & E & Hw & _); [repeat constructor|].
  assert (sample_map = m) as -> by (unfold sample_map; by rewrite E). done.
Qed.

Lemma sample_map_ready : map_ready sample_map.
Proof. apply Nat.ltb_lt. vm_compute. reflexivity. Qed.

Lemma map_queries_correct_witness :
  map_get sample_map 6 = Ok (map_lookup sample_map 6) /\ map_closest sample_map 7 = Ok (Some (6, 2)) /\
  map_iter_from sample_map 52 = Ok [(54, 18); (57, 19)].
Proof.
  destruct (map_queries_correct sample_map 6 sample_map_wf sample_map_ready) as (H1 & _).
  destruct (map_queries_correct sample_map 7 sample_map_wf sample_map_ready) as (_ & H2 & _).
  destruct (map_queries_correct sample_map 52 sample_map_wf sample_map_ready) as (_ & _ & H3 & _).
  rewrite sample_map_entries in H2, H3. split; [exact H1|]. split; [exact H2|exact H3].
Defined.

Lemma map_updates_correct_witness :
  exists m', map_insert sample_map 7 70 = Ok m' /\ wf_map m' /\ map_lookup m' 7 = Some 70.
Proof.
  destruct (map_updates_correct sample_map 7 70 (fun v => (v, v)) sample_map_wf sample_map_ready)
    as ((m' & E & Hm' & Hl) & _).
  exists m'. split; [exact E|]. split; [exact Hm'|]. rewrite Hl. reflexivity.
Defined.

Lemma map_batches_correct_witness :
  exists m', map_retain sample_map (fun k _ => Nat.even k) = Ok m' /\ wf_map m' /\
    entries m' = map (fun n => (6 * n, 2 * n)) (seq 0 10).
Proof.
  destruct (map_batches_correct sample_map sample_map [] (fun k _ => Nat.even k) sample_map_wf sample_map_ready)
    as (_ & _ & (m' & E & Hm' & Hl) & _).
  exists m'. rewrite Hl, sample_map_entries. split; [exact E|]. split; [exact Hm'|reflexivity].
Defined.

Lemma remove_range_correct_witness :
  exists m', map_remove_range sample_map 10 20 = Ok m' /\ wf_map m' /\ map_lookup m' 12 = None.
Proof.
  destruct (remove_range_correct sample_map 10 20 sample_map_wf sample_map_ready) as (m' & E & Hm' & Hl).
  - apply key_consistent, sample_map_wf.
  - apply key_consistent, sample_map_wf.
  - intros k. rewrite !key_before, !ltb_spec. intros Hk. apply Nat.compare_lt_iff in Hk.
    apply Nat.compare_lt_iff. lia.
  - exists m'. split; [exact E|]. split; [exact Hm'|]. rewrite Hl. reflexivity.
Defined.

Lemma remove_range_reversed_witness :
  exists m', map_remove_range sample_map 20 10 = Ok m' /\ ~ NoDup (map fst (entries m')).
Proof.
  destruct (remove_range_reversed sample_map 20 10 (12, 4) sample_map_wf sample_map_ready)
    as (m' & E & _ & Hn & _).
  - rewrite sample_map_entries. apply list_elem_of_lookup. exists 4. reflexivity.
  - reflexivity.
  - reflexivity.
  - exists m'. split; [exact E|exact Hn].
Defined.

Definition sample_set : TreeMap nat unit :=
  match set_from_ordered_entries (seq 0 20) with Ok s => s | _ => map_default end.

Lemma set_operations_correct_witness :
  exists s', set_insert sample_set 50 = Ok s' /\ 50 ∈ elements s'.
Proof.
  destruct (map_from_ok (map (fun k => (k, tt)) (seq 0 20))) as (m & E & Hw & _); [repeat constructor|].
  assert (Es : sample_set = m).
  { transitivity (match map_from_ordered_entries (map (fun k => (k, tt)) (seq 0 20)) with
                  | Ok s => s | _ => map_default end); [reflexivity|by rewrite E]. }
  destruct (set_operations_correct sample_set 50 []) as (_ & (s' & Ei & _ & Hs') & _).
  - rewrite Es. exact Hw.
  - apply Nat.ltb_lt. vm_compute. reflexivity.
  - exists s'. split; [exact Ei|]. apply Hs'. by left.
Defined.
End TreeMapExamples.
