(* ===== verification/TabStop.v ===== *)
(** * The tab order: [crates/gpui/src/tab_stop.rs]

    [TabStopMap] records the focus handles painted in a frame, with the groups
    they are nested in, and keeps them in a [SumTree] ordered by their path of tab
    indices and then by insertion.  [next] and [prev] walk that order cyclically
    over the handles that are tab stops.

    The tree is proved to hold the sorted nodes of the insertion history, against
    an abstract state in which the nodes are a plain list. *)

From stdpp Require Import base list option numbers sorting gmap.
From S2P Require Import Prelude SumTree Cursor CursorSeek CursorMove KeyedTree.

(** ** The data *)

(** [FocusId], a slot map key: an opaque identifier. *)
Definition FocusId : Type := positive.

(** [isize]: tab indices are only compared. *)
Definition TabIndex : Type := Z.

(** [struct FocusHandle] of window.rs, less the reference count. *)
Record FocusHandle := mkFocusHandle {
  fh_id : FocusId;
  fh_tab_index : TabIndex;
  fh_tab_stop : bool;
}.

Inductive TabStopOperation :=
| OpInsert (focus_handle : FocusHandle)
| OpGroup (tab_index : TabIndex)
| OpGroupEnd.

(** [TabStopOperation::focus_handle] *)
Definition focus_handle (op : TabStopOperation) : option FocusHandle :=
  match op with OpInsert h => Some h | _ => None end.

Definition TabStopPath : Type := list TabIndex.

Record TabStopNode := mkTabStopNode {
  path : TabStopPath;
  node_insertion_index : nat;
  tab_stop : bool;
}.

(** [impl Ord for TabStopNode]: the flag is not compared. *)
#[export] Instance tab_node_ord : Ord TabStopNode := fun a b =>
  ordering_then (cmp (path a) (path b)) (cmp (node_insertion_index a) (node_insertion_index b)).

(** [#[derive(PartialEq)] struct TabStopNode]: the flag is compared. *)
#[export] Instance tab_node_partial_eq : PartialEq TabStopNode := fun a b =>
  eqb (path a) (path b) && eqb (node_insertion_index a) (node_insertion_index b) &&
  Bool.eqb (tab_stop a) (tab_stop b).

Record TabStopOrderNodeSummary := mkTabSummary {
  max_index : nat;
  max_path : TabStopPath;
  tab_stops : nat;
}.

#[export] Instance tab_summary : Summary unit TabStopOrderNodeSummary := {
  zero _ := mkTabSummary 0 [] 0;
  add_summary _ a b := mkTabSummary (max_index b) (max_path b) (tab_stops a + tab_stops b);
}.

#[export] Instance tab_summary_laws : SummaryLaws unit TabStopOrderNodeSummary.
Proof. split; intros; simpl; [f_equal; lia|by destruct a]. Qed.

#[export] Instance tab_item : Item unit TabStopNode TabStopOrderNodeSummary := {
  summary _ n := mkTabSummary (node_insertion_index n) (path n) (if tab_stop n then 1 else 0);
}.

(** [impl KeyedItem for TabStopNode]: a node is its own key. *)
#[export] Instance tab_keyed : KeyedItem TabStopNode TabStopNode := fun n => n.

(** [TabStopCount] *)
Definition TabStopCount : Type := nat.

#[export] Instance tab_count_dimension : Dimension unit TabStopOrderNodeSummary TabStopCount := {
  dim_zero _ := 0;
  dim_add_summary _ d s := d + tab_stops s;
}.

(** [impl Dimension for TabStopNode] *)
#[export] Instance tab_node_dimension : Dimension unit TabStopOrderNodeSummary TabStopNode := {
  dim_zero _ := mkTabStopNode [] 0 false;
  dim_add_summary _ d s := mkTabStopNode (max_path s) (max_index s) (tab_stop d);
}.

#[export] Instance tab_node_dimension_laws : DimensionLaws unit TabStopOrderNodeSummary TabStopNode.
Proof. split. done. Qed.

(** The target [&TabStopNode] of [next_inner] and [prev_inner]. *)
Record TabNodeRef := mkTabNodeRef { node_ref : TabStopNode }.

#[export] Instance tab_node_target : SeekTarget unit TabStopNode TabNodeRef := {
  target_cmp _ a location :=
    ordering_then (cmp (path (node_ref a)) (path location))
      (cmp (node_insertion_index (node_ref a)) (node_insertion_index location));
}.

Record TabStopMap := mkTabStopMap {
  current_path : TabStopPath;
  insertion_history : list TabStopOperation;
  by_id : gmap FocusId TabStopNode;
  order : tree TabStopNode TabStopOrderNodeSummary;
}.

(** ** The operations *)

Definition tab_default : TabStopMap := mkTabStopMap [] [] ∅ (new tt).

Definition tab_insert (m : TabStopMap) (h : FocusHandle) : outcome TabStopMap :=
  let history := insertion_history m ++ [OpInsert h] in
  let p := current_path m ++ [fh_tab_index h] in
  let! ix := usize_pred (length history) in
  let node := mkTabStopNode p ix (fh_tab_stop h) in
  let! (order, _) := insert_or_replace (K := TabStopNode) tt (order m) node in
  Ok (mkTabStopMap (current_path m) history (<[fh_id h := node]> (by_id m)) order).

Definition begin_group (m : TabStopMap) (tab_index : TabIndex) : TabStopMap :=
  mkTabStopMap (current_path m ++ [tab_index]) (insertion_history m ++ [OpGroup tab_index])
    (by_id m) (order m).

Definition end_group (m : TabStopMap) : TabStopMap :=
  mkTabStopMap (removelast (current_path m)) (insertion_history m ++ [OpGroupEnd]) (by_id m) (order m).

Definition tab_clear (m : TabStopMap) : TabStopMap := tab_default.

Definition focus_handle_for_order (m : TabStopMap) (n : TabStopNode) : outcome (option FocusHandle) :=
  let! op := index (insertion_history m) (node_insertion_index n) in
  Ok (focus_handle op).

Definition tab_node_for_focus_id (m : TabStopMap) (id : FocusId) : option TabStopNode := by_id m !! id.

(** The loops of [next_inner] and [prev_inner]. *)
Fixpoint next_stop_loop (fuel : nat) (c : Cursor TabStopNode TabStopOrderNodeSummary TabStopNode)
    : outcome (Cursor TabStopNode TabStopOrderNodeSummary TabStopNode) :=
  match fuel with
  | 0 => OutOfFuel
  | Datatypes.S fuel =>
      let! o := item c in
      match o with
      | Some n => if negb (tab_stop n) then let! c := cursor_next tt c in next_stop_loop fuel c else Ok c
      | None => Ok c
      end
  end.

Definition next_inner (m : TabStopMap) (n : TabStopNode) : outcome (option TabStopNode) :=
  let! (c, _) := seek tt (cursor_new tt (order m)) (mkTabNodeRef n) Left in
  let! c := cursor_next tt c in
  let! c := next_stop_loop (length (to_list (order m)) + 1) c in
  item c.

Fixpoint prev_stop_loop (fuel : nat) (c : Cursor TabStopNode TabStopOrderNodeSummary TabStopNode)
    : outcome (Cursor TabStopNode TabStopOrderNodeSummary TabStopNode) :=
  match fuel with
  | 0 => OutOfFuel
  | Datatypes.S fuel =>
      let! o := item c in
      match o with
      | Some n => if negb (tab_stop n) then let! c := cursor_prev tt c in prev_stop_loop fuel c else Ok c
      | None => Ok c
      end
  end.

Definition prev_inner (m : TabStopMap) (n : TabStopNode) : outcome (option TabStopNode) :=
  let! (c, _) := seek tt (cursor_new tt (order m)) (mkTabNodeRef n) Left in
  let! c := cursor_prev tt c in
  let! c := prev_stop_loop (length (to_list (order m)) + 1) c in
  item c.

(** [next(None)] and [prev(None)] *)
Definition next_from_start (m : TabStopMap) : outcome (option FocusHandle) :=
  let! o := first (order m) in
  match o with
  | None => Ok None
  | Some first =>
      if tab_stop first then focus_handle_for_order m first
      else let! o := next_inner m first in
           match o with Some n => focus_handle_for_order m n | None => Ok None end
  end.

Definition prev_from_end (m : TabStopMap) : outcome (option FocusHandle) :=
  let! o := last (order m) in
  match o with
  | None => Ok None
  | Some last =>
      if tab_stop last then focus_handle_for_order m last
      else let! o := prev_inner m last in
           match o with Some n => focus_handle_for_order m n | None => Ok None end
  end.

Definition tab_next (m : TabStopMap) (focused_id : option FocusId) : outcome (option FocusHandle) :=
  match focused_id with
  | None => next_from_start m
  | Some id =>
      match tab_node_for_focus_id m id with
      | None => next_from_start m
      | Some node =>
          let! o := next_inner m node in
          match o with Some n => focus_handle_for_order m n | None => next_from_start m end
      end
  end.

Definition tab_prev (m : TabStopMap) (focused_id : option FocusId) : outcome (option FocusHandle) :=
  match focused_id with
  | None => prev_from_end m
  | Some id =>
      match tab_node_for_focus_id m id with
      | None => prev_from_end m
      | Some node =>
          let! o := prev_inner m node in
          match o with Some n => focus_handle_for_order m n | None => prev_from_end m end
      end
  end.

(** One iteration of [replay]. *)
Definition apply_op (m : TabStopMap) (op : TabStopOperation) : outcome TabStopMap :=
  match op with
  | OpInsert h => tab_insert m h
  | OpGroup i => Ok (begin_group m i)
  | OpGroupEnd => Ok (end_group m)
  end.

Definition replay (m : TabStopMap) (nodes : list TabStopOperation) : outcome TabStopMap :=
  ofold apply_op nodes m.

Definition paint_index (m : TabStopMap) : nat := length (insertion_history m).

(** ** The specification: the nodes as a list *)

Record TabSpec := mkTabSpec {
  sp_path : TabStopPath;
  sp_length : nat;
  sp_nodes : list TabStopNode;
  sp_by_id : gmap FocusId TabStopNode;
}.

Definition spec_init : TabSpec := mkTabSpec [] 0 [] ∅.

Definition spec_step (s : TabSpec) (op : TabStopOperation) : TabSpec :=
  match op with
  | OpInsert h =>
      let n := mkTabStopNode (sp_path s ++ [fh_tab_index h]) (sp_length s) (fh_tab_stop h) in
      mkTabSpec (sp_path s) (sp_length s + 1) (sp_nodes s ++ [n]) (<[fh_id h := n]> (sp_by_id s))
  | OpGroup i => mkTabSpec (sp_path s ++ [i]) (sp_length s + 1) (sp_nodes s) (sp_by_id s)
  | OpGroupEnd => mkTabSpec (removelast (sp_path s)) (sp_length s + 1) (sp_nodes s) (sp_by_id s)
  end.

Definition spec_of (history : list TabStopOperation) : TabSpec := fold_left spec_step history spec_init.

(** The order of the nodes: path, then insertion. *)
Definition tab_key : Type := TabStopPath * nat.

#[export] Instance tab_order_key : KeyedItem TabStopNode tab_key := fun n => (path n, node_insertion_index n).

#[export] Instance tab_key_laws : OrdLaws tab_key.
Proof. unfold tab_key, TabStopPath, TabIndex. apply _. Qed.

(** A map holds the state of its history, its tree the nodes in order. *)
Definition tab_wf (m : TabStopMap) : Prop :=
  let s := spec_of (insertion_history m) in
  current_path m = sp_path s /\ by_id m = sp_by_id s /\
  wf_tree tt (order m) /\ sorted (K := tab_key) (to_list (order m)) /\
  to_list (order m) ≡ₚ sp_nodes s.

(** Cursors can reach every node. *)
Definition tab_ready (m : TabStopMap) : Prop := node_height (order m) < STACK_CAPACITY.

Lemma spec_of_snoc history op : spec_of (history ++ [op]) = spec_step (spec_of history) op.
Proof. unfold spec_of. by rewrite fold_left_app. Qed.

Lemma spec_length history : sp_length (spec_of history) = length history.
Proof.
  induction history as [|op history IH] using rev_ind; [done|].
  rewrite spec_of_snoc, length_app, <- IH. by destruct op.
Qed.

(** A node of the state stands for an insertion of the history. *)
Definition stands_for (history : list TabStopOperation) (n : TabStopNode) (h : FocusHandle) : Prop :=
  history !! node_insertion_index n = Some (OpInsert h) /\ tab_stop n = fh_tab_stop h.

Lemma stands_for_snoc history op n h : stands_for history n h -> stands_for (history ++ [op]) n h.
Proof. intros [H ?]. split; [|done]. by apply lookup_app_l_Some. Qed.

Lemma spec_nodes_stand history n :
  n ∈ sp_nodes (spec_of history) -> exists h, stands_for history n h.
Proof.
  induction history as [|op history IH] using rev_ind; [by intros ?%elem_of_nil|].
  rewrite spec_of_snoc. destruct op as [h| |]; simpl.
  - intros [Hn|Hn]%elem_of_app.
    + destruct (IH Hn) as [h' Hh]. exists h'. by apply stands_for_snoc.
    + apply list_elem_of_singleton in Hn as ->. exists h. split; [|done]. simpl.
      rewrite spec_length. by rewrite lookup_app_r, Nat.sub_diag.
  - intros Hn. destruct (IH Hn) as [h' Hh]. exists h'. by apply stands_for_snoc.
  - intros Hn. destruct (IH Hn) as [h' Hh]. exists h'. by apply stands_for_snoc.
Qed.

Lemma spec_by_id_stand history id n :
  sp_by_id (spec_of history) !! id = Some n ->
  n ∈ sp_nodes (spec_of history) /\ exists h, stands_for history n h /\ fh_id h = id.
Proof.
  induction history as [|op history IH] using rev_ind; [done|].
  assert (Hold : sp_by_id (spec_of history) !! id = Some n ->
    n ∈ sp_nodes (spec_step (spec_of history) op) /\
    exists h, stands_for (history ++ [op]) n h /\ fh_id h = id).
  { intros H. destruct (IH H) as (Hn & h & Hh & E). split.
    - destruct op; simpl; [|done..]. apply elem_of_app. by left.
    - exists h. split; [by apply stands_for_snoc|done]. }
  rewrite spec_of_snoc. destruct op as [h| |]; simpl; [|done..].
  intros [[<- <-]|[_ H]]%lookup_insert_Some; [|by apply Hold].
  split; [apply elem_of_app; right; by apply list_elem_of_singleton|].
  exists h. split; [|done]. split; [|done]. simpl. rewrite spec_length.
  by rewrite lookup_app_r, Nat.sub_diag.
Qed.

Lemma order_index_lt m n :
  tab_wf m -> n ∈ to_list (order m) -> node_insertion_index n < length (insertion_history m).
Proof.
  intros (_ & _ & _ & _ & Hp) Hn. rewrite Hp in Hn.
  destruct (spec_nodes_stand _ _ Hn) as (h & Hh & _). by apply lookup_lt_Some in Hh.
Qed.

(** *** Inserting a node with a new index *)

Lemma fresh_at_key m (n : TabStopNode) :
  tab_wf m -> node_insertion_index n = length (insertion_history m) ->
  at_key (K := tab_key) (key n) (to_list (order m)) = [].
Proof.
  intros Hm Hn. apply bfilter_none. apply Forall_forall. intros x Hx.
  pose proof (order_index_lt m x Hm Hx). destruct (eqb _ _) eqn:E; [|done].
  apply eqb_spec in E. injection E as _ E. lia.
Qed.

Lemma tab_ranked (n : TabStopNode) (l : list TabStopNode) :
  ranked (D := TabStopNode) (Target := TabStopNode) tt n (key_rank (K := tab_key) (key n)) l.
Proof. intros i x Hx. by rewrite (position_at_S tt _ _ _ Hx). Qed.

Lemma tab_ranked_ref (n : TabStopNode) (l : list TabStopNode) :
  ranked (D := TabStopNode) tt (mkTabNodeRef n) (key_rank (K := tab_key) (key n)) l.
Proof. intros i x Hx. by rewrite (position_at_S tt _ _ _ Hx). Qed.

Lemma zero_le_node (n : TabStopNode) :
  ordering_is_ge (ordering_then (cmp (path n) []) (cmp (node_insertion_index n) 0)) = true.
Proof.
  destruct (path n); simpl; [|done]. unfold cmp, nat_ord. by destruct (node_insertion_index n).
Qed.

Lemma insert_fresh_ok m (n : TabStopNode) :
  tab_wf m -> tab_ready m -> node_insertion_index n = length (insertion_history m) ->
  exists t, insert_or_replace (K := TabStopNode) tt (order m) n = Ok (t, None) /\ wf_tree tt t /\
    to_list t = below (K := tab_key) (key n) (to_list (order m)) ++ [n] ++
                above (K := tab_key) (key n) (to_list (order m)).
Proof.
  intros Hm Hh Hn. pose proof Hm as (_ & _ & Hw & Hs & _). unfold insert_or_replace.
  destruct (slice_ranked_ok (D := TabStopNode) (K := tab_key) tt n (key n) (order m) Hw Hh Hs)
    as (c & t1 & E & Hc & Hw1 & Hi1); [apply tab_ranked|apply zero_le_node|].
  change (@key TabStopNode TabStopNode tab_keyed n) with n. rewrite E. cbn [obind].
  rewrite (cursor_at_item tt _ _ _ Hc). cbn [obind].
  assert (Et : take_item tt c (to_list (order m) !! length (below (K := tab_key) (key n) (to_list (order m)))) n
               = Ok (c, None)).
  { destruct (to_list (order m) !! _) as [x|] eqn:Ex; [|done]. simpl.
    assert (Hx : node_insertion_index x <> node_insertion_index n).
    { apply list_elem_of_lookup_2 in Ex. pose proof (order_index_lt m x Hm Ex). lia. }
    unfold peq, tab_node_partial_eq, key, tab_keyed.
    destruct (eqb (node_insertion_index x) (node_insertion_index n)) eqn:Ee;
      [by apply eqb_spec in Ee|]. by rewrite andb_false_r. }
  rewrite Et. cbn [obind].
  destruct (push_ok tt t1 n Hw1) as (t2 & -> & Hw2 & Hi2). cbn [obind].
  destruct (suffix_ok tt (order m) c _ Hw Hh (or_introl Hc)) as (c2 & t3 & -> & _ & Hw3 & Hi3). cbn [obind].
  destruct (append_tree_ok tt t2 t3 Hw2 Hw3) as (t4 & -> & Hw4 & Hi4 & _). cbn [obind].
  exists t4. split_and!; [done|done|].
  rewrite Hi4, Hi2, Hi1, Hi3, drop_below, (fresh_at_key m n Hm Hn) by done. by rewrite <- app_assoc.
Qed.

(** Each operation simulates the step of the specification. *)
Lemma apply_op_ok m op :
  tab_wf m -> tab_ready m ->
  exists m', apply_op m op = Ok m' /\ insertion_history m' = insertion_history m ++ [op] /\ tab_wf m'.
Proof.
  intros Hm Hh. pose proof Hm as (Hp & Hb & Hw & Hs & Hperm).
  destruct op as [h|i|]; simpl.
  - unfold tab_insert. rewrite length_app, Nat.add_1_r. cbn [usize_pred obind].
    set (n := mkTabStopNode (current_path m ++ [fh_tab_index h]) (length (insertion_history m)) (fh_tab_stop h)).
    destruct (insert_fresh_ok m n Hm Hh eq_refl) as (t & -> & Hw' & Hi). cbn [obind].
    eexists; split_and!; [reflexivity|done|]. unfold tab_wf. simpl. rewrite spec_of_snoc. simpl.
    rewrite spec_length, <- Hp, <- Hb. fold n. split_and!; [done|done|done| |].
    + rewrite Hi. apply (sorted_replace (K := tab_key) (key n) _ (Some n)); [done|]. by intros ? [= ->].
    + rewrite Hi, <- Hperm. pose proof (sorted_split (K := tab_key) (key n) _ Hs) as E.
      rewrite (fresh_at_key m n Hm eq_refl) in E. simpl in E. rewrite E at 3.
      rewrite <- app_assoc. apply Permutation_app_head. simpl. apply Permutation_cons_append.
  - eexists; split_and!; [reflexivity|done|]. unfold tab_wf. simpl. rewrite spec_of_snoc. simpl.
    by rewrite <- Hp.
  - eexists; split_and!; [reflexivity|done|]. unfold tab_wf. simpl. rewrite spec_of_snoc. simpl.
    by rewrite <- Hp.
Qed.

Lemma tab_default_wf : tab_wf tab_default.
Proof. split_and!; [done|done|apply wf_tree_new|constructor|done]. Qed.

(** *** Walking the order *)

Lemma next_stop_loop_ok m (c : Cursor _ _ TabStopNode) i fuel :
  wf_tree tt (order m) -> tab_ready m -> cursor_at tt (order m) c i ->
  length (to_list (order m)) < i + fuel ->
  exists c', next_stop_loop fuel c = Ok c' /\
    item c' = Ok (List.find tab_stop (drop i (to_list (order m)))).
Proof.
  intros Hw Hh. revert c i. induction fuel as [|fuel IH]; intros c i Hc Hf.
  { pose proof (cursor_at_bound tt _ _ _ Hc). lia. }
  simpl. pose proof (cursor_at_item tt _ _ _ Hc) as Ei. rewrite Ei. cbn [obind].
  destruct (to_list (order m) !! i) as [n|] eqn:Hn.
  - rewrite (drop_S _ _ _ Hn). simpl. destruct (tab_stop n) eqn:Es; simpl.
    + exists c. by rewrite Ei.
    + pose proof (lookup_lt_Some _ _ _ Hn).
      destruct (next_ok tt (order m) c (Datatypes.S i) Hw Hh) as (c' & -> & Hc').
      { left. exists i. split; [done|lia]. }
      cbn [obind]. apply IH; [done|lia].
  - exists c. apply lookup_ge_None in Hn as Hn'. by rewrite drop_ge, Ei.
Qed.

Lemma prev_stop_loop_ok m (c : Cursor _ _ TabStopNode) o fuel :
  wf_tree tt (order m) -> tab_ready m -> prev_lands tt (order m) c o ->
  match o with Some j => j < length (to_list (order m)) /\ j + 1 < fuel | None => 0 < fuel end ->
  exists c', prev_stop_loop fuel c = Ok c' /\
    item c' = Ok (match o with
                  | Some j => List.find tab_stop (rev (take (Datatypes.S j) (to_list (order m))))
                  | None => None
                  end).
Proof.
  intros Hw Hh. revert c o. induction fuel as [|fuel IH]; intros c o Hc Hf; [destruct o; lia|]. simpl.
  destruct o as [j|]; simpl in Hc.
  - pose proof (cursor_at_item tt _ _ _ Hc) as Ei. rewrite Ei. cbn [obind].
    destruct (lookup_lt_is_Some_2 (to_list (order m)) j (proj1 Hf)) as [n Hn]. rewrite Hn.
    rewrite (take_S_r _ _ _ Hn), rev_app_distr. simpl. destruct (tab_stop n) eqn:Es; simpl.
    + exists c. by rewrite Ei, Hn.
    + destruct (prev_ok tt (order m) c j Hw Hh (or_introl Hc)) as (c' & -> & Hc'); [lia|].
      cbn [obind]. destruct (IH c' _ Hc') as (c2 & E & Hi); [destruct j; lia|].
      exists c2. rewrite E, Hi. by destruct j.
  - exists c.
    assert (Ei : item c = Ok None).
    { destruct Hc as [(_ & Hd & _ & Hst & _)|(El & Hc)].
      - unfold item, assert_did_seek. by rewrite Hd, Hst.
      - by rewrite (cursor_at_item tt _ _ _ Hc), El. }
    by rewrite Ei.
Qed.

(** Where a node is in the order. *)
Lemma below_length_lookup (l : list TabStopNode) i n :
  sorted (K := tab_key) l -> l !! i = Some n -> length (below (K := tab_key) (key n) l) = i.
Proof.
  intros Hs Hn. rewrite <- (take_drop_middle _ _ _ Hn) in Hs |- *. unfold below.
  apply sorted_app in Hs as (Hlt & _ & Hs'). rewrite List.filter_app.
  rewrite bfilter_all, (bfilter_none _ (n :: _)).
  - rewrite app_nil_r, length_take_le; [done|]. apply lookup_lt_Some in Hn. lia.
  - apply StronglySorted_inv in Hs' as [_ Hx]. constructor.
    + unfold ltb. by rewrite cmp_refl.
    + eapply Forall_weaken; [|exact Hx]. intros x Hk. unfold key_lt in Hk. unfold ltb.
      by rewrite (cmp_flip (key n) (key x)), Hk.
  - apply Forall_forall. intros x Hx. apply ltb_spec. apply (Hlt x n Hx). apply elem_of_cons. by left.
Qed.

Lemma node_seek_ok m (n : TabStopNode) i :
  tab_wf m -> tab_ready m -> to_list (order m) !! i = Some n ->
  exists c b, seek tt (cursor_new tt (order m) : Cursor _ _ TabStopNode) (mkTabNodeRef n) Left = Ok (c, b) /\
    cursor_at tt (order m) c i.
Proof.
  intros (_ & _ & Hw & Hs & _) Hh Hn.
  destruct (seek_ranked_ok (D := TabStopNode) (K := tab_key) tt (mkTabNodeRef n) (key n) (order m) Hw Hh Hs)
    as (c & b & E & Hc); [apply tab_ranked_ref|apply zero_le_node|].
  rewrite (below_length_lookup _ i) in Hc by done. eauto.
Qed.

Lemma next_inner_ok m (n : TabStopNode) i :
  tab_wf m -> tab_ready m -> to_list (order m) !! i = Some n ->
  next_inner m n = Ok (List.find tab_stop (drop (Datatypes.S i) (to_list (order m)))).
Proof.
  intros Hm Hh Hn. unfold next_inner.
  destruct (node_seek_ok m n i Hm Hh Hn) as (c & b & -> & Hc). cbn [obind].
  pose proof Hm as (_ & _ & Hw & _). pose proof (lookup_lt_Some _ _ _ Hn).
  destruct (next_ok tt (order m) c (Datatypes.S i) Hw Hh) as (c' & -> & Hc').
  { left. exists i. split; [done|lia]. }
  cbn [obind]. destruct (next_stop_loop_ok m c' _ (length (to_list (order m)) + 1) Hw Hh Hc')
    as (c2 & -> & Hi); [lia|]. done.
Qed.

Lemma prev_inner_ok m (n : TabStopNode) i :
  tab_wf m -> tab_ready m -> to_list (order m) !! i = Some n ->
  prev_inner m n = Ok (List.find tab_stop (rev (take i (to_list (order m))))).
Proof.
  intros Hm Hh Hn. unfold prev_inner.
  destruct (node_seek_ok m n i Hm Hh Hn) as (c & b & -> & Hc). cbn [obind].
  pose proof Hm as (_ & _ & Hw & _). pose proof (lookup_lt_Some _ _ _ Hn).
  destruct (prev_ok tt (order m) c i Hw Hh (or_introl Hc)) as (c' & -> & Hc'); [lia|].
  cbn [obind]. destruct (prev_stop_loop_ok m c' _ (length (to_list (order m)) + 1) Hw Hh Hc')
    as (c2 & -> & Hi); [destruct i; lia|]. cbn [obind]. rewrite Hi. by destruct i.
Qed.

(** The handle a node stands for. *)
Definition handle_of (m : TabStopMap) (n : TabStopNode) : option FocusHandle :=
  match insertion_history m !! node_insertion_index n with Some op => focus_handle op | None => None end.

Lemma focus_handle_for_order_ok m n :
  tab_wf m -> n ∈ to_list (order m) ->
  focus_handle_for_order m n = Ok (handle_of m n) /\ exists h, handle_of m n = Some h.
Proof.
  intros (_ & _ & _ & _ & Hp) Hn. rewrite Hp in Hn. destruct (spec_nodes_stand _ _ Hn) as (h & Hh & _).
  unfold focus_handle_for_order, handle_of, index. rewrite Hh. simpl. eauto.
Qed.

(** The handle of the first tab stop of a list of nodes. *)
Definition first_stop (m : TabStopMap) (l : list TabStopNode) : option FocusHandle :=
  match List.find tab_stop l with Some n => handle_of m n | None => None end.

Lemma find_stop_handle m l :
  tab_wf m -> (forall n, n ∈ l -> n ∈ to_list (order m)) ->
  match List.find tab_stop l with Some n => focus_handle_for_order m n | None => Ok None end =
  Ok (first_stop m l).
Proof.
  intros Hm Hl. unfold first_stop. destruct (List.find tab_stop l) as [n|] eqn:E; [|done].
  apply List.find_some in E as [E _]. apply list_elem_of_In in E.
  by apply focus_handle_for_order_ok; [|apply Hl].
Qed.

Lemma elem_of_drop' {A} (l : list A) i x : x ∈ drop i l -> x ∈ l.
Proof. intros H. rewrite <- (take_drop i l). apply elem_of_app. by right. Qed.

Lemma elem_of_take' {A} (l : list A) i x : x ∈ take i l -> x ∈ l.
Proof. intros H. rewrite <- (take_drop i l). apply elem_of_app. by left. Qed.

Lemma elem_of_rev' {A} (l : list A) x : x ∈ rev l -> x ∈ l.
Proof. rewrite !list_elem_of_In, <- in_rev. done. Qed.

Lemma next_from_start_ok m :
  tab_wf m -> tab_ready m -> next_from_start m = Ok (first_stop m (to_list (order m))).
Proof.
  intros Hm Hh. unfold next_from_start. pose proof Hm as (_ & _ & Hw & _).
  rewrite (first_ok tt) by done. cbn [obind].
  rewrite <- find_stop_handle by done. destruct (to_list (order m)) as [|n l] eqn:El; [done|]. simpl.
  destruct (tab_stop n) eqn:Es; [done|].
  rewrite (next_inner_ok m n 0 Hm Hh) by (by rewrite El). cbn [obind]. by rewrite El.
Qed.

Lemma prev_from_end_ok m :
  tab_wf m -> tab_ready m -> prev_from_end m = Ok (first_stop m (rev (to_list (order m)))).
Proof.
  intros Hm Hh. unfold prev_from_end. pose proof Hm as (_ & _ & Hw & _).
  rewrite (last_ok tt) by done. cbn [obind].
  rewrite <- find_stop_handle by (first [done|apply elem_of_rev']).
  destruct (to_list (order m)) as [|n l _] eqn:El using rev_ind; [done|].
  rewrite last_snoc, rev_app_distr. simpl. destruct (tab_stop n) eqn:Es; [done|].
  rewrite (prev_inner_ok m n (length l) Hm Hh) by (by rewrite El, lookup_app_r, Nat.sub_diag).
  cbn [obind]. by rewrite El, take_app_length.
Qed.

Lemma find_app_stop (l1 l2 : list TabStopNode) :
  List.find tab_stop (l1 ++ l2) =
  match List.find tab_stop l1 with Some n => Some n | None => List.find tab_stop l2 end.
Proof. induction l1 as [|x l1 IH]; simpl; [done|]. by destruct (tab_stop x). Qed.

Lemma tab_next_ok m id n i :
  tab_wf m -> tab_ready m -> by_id m !! id = Some n -> to_list (order m) !! i = Some n ->
  tab_next m (Some id) = Ok (first_stop m (drop (Datatypes.S i) (to_list (order m)) ++ to_list (order m))).
Proof.
  intros Hm Hh Hid Hn. unfold tab_next, tab_node_for_focus_id. rewrite Hid.
  rewrite (next_inner_ok m n i Hm Hh Hn). cbn [obind]. unfold first_stop. rewrite find_app_stop.
  destruct (List.find tab_stop (drop _ _)) as [n'|] eqn:E.
  - apply List.find_some in E as [E _]. apply list_elem_of_In, elem_of_drop' in E.
    by apply focus_handle_for_order_ok.
  - by apply next_from_start_ok.
Qed.

Lemma tab_prev_ok m id n i :
  tab_wf m -> tab_ready m -> by_id m !! id = Some n -> to_list (order m) !! i = Some n ->
  tab_prev m (Some id) = Ok (first_stop m (rev (take i (to_list (order m))) ++ rev (to_list (order m)))).
Proof.
  intros Hm Hh Hid Hn. unfold tab_prev, tab_node_for_focus_id. rewrite Hid.
  rewrite (prev_inner_ok m n i Hm Hh Hn). cbn [obind]. unfold first_stop. rewrite find_app_stop.
  destruct (List.find tab_stop (rev (take _ _))) as [n'|] eqn:E.
  - apply List.find_some in E as [E _]. apply list_elem_of_In, elem_of_rev', elem_of_take' in E.
    by apply focus_handle_for_order_ok.
  - by apply prev_from_end_ok.
Qed.

Lemma by_id_in_order m id n : tab_wf m -> by_id m !! id = Some n -> n ∈ to_list (order m).
Proof.
  intros (_ & Hb & _ & _ & Hp) Hid. rewrite Hb in Hid. rewrite Hp.
  by destruct (spec_by_id_stand _ _ _ Hid).
Qed.

Lemma filter_lookup_split (p : TabStopNode -> bool) l j n :
  List.filter p l !! j = Some n ->
  exists l1 l2, l = l1 ++ n :: l2 /\ length (List.filter p l1) = j /\ p n = true.
Proof.
  revert j. induction l as [|x l IH]; intros j; simpl; [done|]. destruct (p x) eqn:E.
  - destruct j as [|j]; simpl.
    + intros [= ->]. by exists [], l.
    + intros H. destruct (IH j H) as (l1 & l2 & -> & Hj & Hn). exists (x :: l1), l2. simpl. rewrite E. simpl. auto.
  - intros H. destruct (IH j H) as (l1 & l2 & -> & Hj & Hn). exists (x :: l1), l2. simpl. by rewrite E.
Qed.

Lemma find_filter (p : TabStopNode -> bool) l : List.find p l = head (List.filter p l).
Proof. induction l as [|x l IH]; simpl; [done|]. by destruct (p x). Qed.

Lemma filter_rev' (p : TabStopNode -> bool) l : List.filter p (rev l) = rev (List.filter p l).
Proof.
  induction l as [|x l IH]; simpl; [done|]. rewrite List.filter_app, IH. simpl.
  destruct (p x); simpl; by rewrite ?app_nil_r.
Qed.

Lemma head_rev_last {A} (l : list A) : head (rev l) = list.last l.
Proof. induction l as [|x l _] using rev_ind; [done|]. by rewrite rev_app_distr, last_snoc. Qed.

Lemma cyclic_next {A} (l1 l2 : list A) (x : A) :
  head (l2 ++ (l1 ++ x :: l2)) = (l1 ++ x :: l2) !! ((length l1 + 1) mod length (l1 ++ x :: l2)).
Proof.
  rewrite length_app. simpl. destruct l2 as [|y l2]; simpl.
  - rewrite Nat.Div0.mod_same. by destruct l1.
  - rewrite Nat.mod_small by lia. rewrite lookup_app_r by lia.
    by replace (length l1 + 1 - length l1) with 1 by lia.
Qed.

Lemma cyclic_prev {A} (l1 l2 : list A) (x : A) :
  head (rev l1 ++ rev (l1 ++ x :: l2)) =
  (l1 ++ x :: l2) !! ((length l1 + length (l1 ++ x :: l2) - 1) mod length (l1 ++ x :: l2)).
Proof.
  destruct l1 as [|y l1 _] using rev_ind.
  - change (rev [] ++ rev ([] ++ x :: l2)) with (rev (x :: l2)).
    rewrite head_rev_last, last_lookup, Nat.mod_small by (simpl; lia).
    cbn [app length]. f_equal. lia.
  - rewrite rev_app_distr. simpl. set (l := (l1 ++ [y]) ++ x :: l2).
    assert (Hl : length l = length l1 + 1 + Datatypes.S (length l2))
      by (unfold l; rewrite !length_app; simpl; lia).
    replace (length (l1 ++ [y]) + length l - 1) with (length l1 + 1 * length l)
      by (rewrite length_app; simpl; lia).
    rewrite Nat.Div0.mod_add, Nat.mod_small by lia. unfold l.
    by rewrite lookup_app_l, lookup_app_r, Nat.sub_diag by (rewrite ?length_app; simpl; lia).
Qed.

(** ** The theorems *)

(** States reached from the empty map, while cursors can reach every node. *)
Inductive tab_reachable : TabStopMap -> Prop :=
| tab_reach_default : tab_reachable tab_default
| tab_reach_step m op m' :
    tab_reachable m -> tab_ready m -> apply_op m op = Ok m' -> tab_reachable m'
| tab_reach_clear m : tab_reachable m -> tab_reachable (tab_clear m).

(** C4: every operation returns and simulates a step of the specification: after it,
    the state is the one the extended history specifies, the tree being the nodes
    sorted by their group path and then by insertion. *)
Theorem tab_operations_refine m op :
  tab_wf m -> tab_ready m ->
  exists m', apply_op m op = Ok m' /\ insertion_history m' = insertion_history m ++ [op] /\
    current_path m' = sp_path (spec_step (spec_of (insertion_history m)) op) /\
    by_id m' = sp_by_id (spec_step (spec_of (insertion_history m)) op) /\
    to_list (order m') ≡ₚ sp_nodes (spec_step (spec_of (insertion_history m)) op) /\
    sorted (K := tab_key) (to_list (order m')) /\ tab_wf m'.
Proof.
  intros Hm Hh. destruct (apply_op_ok m op Hm Hh) as (m' & E & Hi & Hm'). exists m'.
  pose proof Hm' as (H1 & H2 & _ & H4 & H5). rewrite Hi, spec_of_snoc in H1, H2, H5. done.
Qed.

(** Replaying the recorded history of a reachable map from an empty map rebuilds
    the map, so a frame that reuses the previous frame's operations has its tab
    order. *)
Theorem replay_rebuilds m :
  tab_reachable m -> tab_wf m /\ replay tab_default (insertion_history m) = Ok m.
Proof.
  induction 1 as [|m op m' _ [Hm Hr] Hh E|m _ _]; [by split; [apply tab_default_wf|]| |].
  - destruct (apply_op_ok m op Hm Hh) as (m2 & E2 & Hi & Hm2). rewrite E in E2. injection E2 as <-.
    split; [done|]. rewrite Hi. unfold replay in *. rewrite ofold_app, Hr. cbn [obind ofold].
    by rewrite E.
  - split; [apply tab_default_wf|done].
Qed.

(** [next] and [prev] walk the tab stops cyclically in the order of the tree:
    from the [j]-th tab stop they give the following and the preceding one, modulo
    their number; with nothing focused, or a focus the map does not hold, the first
    and the last; from a handle that is not a tab stop, the nearest tab stop after or
    before it, wrapping around. *)
Theorem tab_order_cycle m (id : FocusId) :
  tab_wf m -> tab_ready m ->
  (forall j n, List.filter tab_stop (to_list (order m)) !! j = Some n -> by_id m !! id = Some n ->
     let stops := List.filter tab_stop (to_list (order m)) in
     tab_next m (Some id) = Ok (match stops !! ((j + 1) mod length stops) with
                                | Some n' => handle_of m n' | None => None end) /\
     tab_prev m (Some id) = Ok (match stops !! ((j + length stops - 1) mod length stops) with
                                | Some n' => handle_of m n' | None => None end)) /\
  (tab_next m None = Ok (first_stop m (to_list (order m))) /\
   tab_prev m None = Ok (first_stop m (rev (to_list (order m))))) /\
  (by_id m !! id = None -> tab_next m (Some id) = tab_next m None /\ tab_prev m (Some id) = tab_prev m None) /\
  (forall n, by_id m !! id = Some n -> exists i, to_list (order m) !! i = Some n /\
     tab_next m (Some id) = Ok (first_stop m (drop (Datatypes.S i) (to_list (order m)) ++ to_list (order m))) /\
     tab_prev m (Some id) = Ok (first_stop m (rev (take i (to_list (order m))) ++ rev (to_list (order m))))).
Proof.
  intros Hm Hh. split_and!.
  - intros j n Hj Hid stops. destruct (filter_lookup_split _ _ _ _ Hj) as (l1 & l2 & El & Hl1 & Hs).
    assert (Hi : to_list (order m) !! length l1 = Some n) by (by rewrite El, lookup_app_r, Nat.sub_diag).
    rewrite (tab_next_ok m id n _ Hm Hh Hid Hi), (tab_prev_ok m id n _ Hm Hh Hid Hi).
    assert (Ed : drop (Datatypes.S (length l1)) (to_list (order m)) = l2).
    { rewrite El, drop_app_ge by lia. by replace (Datatypes.S (length l1) - length l1) with 1 by lia. }
    assert (Et : take (length l1) (to_list (order m)) = l1) by (by rewrite El, take_app_length).
    assert (Es : stops = List.filter tab_stop l1 ++ n :: List.filter tab_stop l2).
    { unfold stops. rewrite El, List.filter_app. simpl. by rewrite Hs. }
    unfold first_stop. rewrite Ed, Et, !find_filter, !List.filter_app, !filter_rev'. fold stops.
    rewrite Es, <- Hl1, <- cyclic_next, <- cyclic_prev. done.
  - by apply next_from_start_ok.
  - by apply prev_from_end_ok.
  - intros Hn. unfold tab_next, tab_prev, tab_node_for_focus_id. by rewrite Hn.
  - intros n Hid. apply (by_id_in_order m id n Hm) in Hid as Hin.
    apply list_elem_of_lookup in Hin as [i Hi]. exists i. split_and!; [done|..].
    + by apply (tab_next_ok m id n).
    + by apply (tab_prev_ok m id n).
Qed.

(** ** Concrete runs: the handles of the first test of tab_stop.rs *)
Module TabExamples.

Definition handle (id : positive) (i : Z) (stop : bool) : TabStopOperation :=
  OpInsert (mkFocusHandle id i stop).

Definition sample_ops : list TabStopOperation :=
  [handle 1 0 true; handle 2 1 true; handle 3 1 true; handle 4 0 false;
   OpGroup 1%Z; handle 5 2 true; handle 6 0 true; OpGroupEnd; handle 7 2 true].

Definition sample_tabs : TabStopMap :=
  match replay tab_default sample_ops with Ok m => m | _ => tab_default end.

Lemma sample_reachable ops m :
  (fix go ops m := match ops with
     | [] => true
     | op :: ops => (node_height (order m) <? STACK_CAPACITY) &&
                    match apply_op m op with Ok m => go ops m | _ => false end
     end) ops m = true ->
  tab_reachable m ->
  exists m', replay m ops = Ok m' /\ tab_reachable m'.
Proof.
  revert m. induction ops as [|op ops IH]; intros m Hb Hm; [by exists m|].
  apply andb_prop in Hb as [Hh Hb]. unfold replay. simpl. destruct (apply_op m op) as [m1| |] eqn:E; [|done..].
  cbn [obind]. apply IH; [done|]. apply (tab_reach_step m op); [done|by apply Nat.ltb_lt|done].
Qed.

Lemma sample_tabs_reachable : tab_reachable sample_tabs.
Proof.
  destruct (sample_reachable sample_ops tab_default) as (m & E & Hm);
    [vm_compute; reflexivity|constructor|].
  assert (sample_tabs = m) as -> by (unfold sample_tabs; by rewrite E). done.
Qed.

Lemma replay_rebuilds_witness :
  tab_wf sample_tabs /\ replay tab_default (insertion_history sample_tabs) = Ok sample_tabs.
Proof. exact (replay_rebuilds sample_tabs sample_tabs_reachable). Defined.

Lemma sample_tabs_wf : tab_wf sample_tabs.
Proof.
  pose proof sample_tabs_reachable as H. induction H as [|m op m' _ Hm Hh E|m _ _];
    [apply tab_default_wf| |apply tab_default_wf].
  destruct (apply_op_ok m op Hm Hh) as (m2 & E2 & _ & Hm2). rewrite E in E2. by injection E2 as <-.
Qed.

Lemma sample_tabs_ready : tab_ready sample_tabs.
Proof. apply Nat.ltb_lt. vm_compute. reflexivity. Qed.

Lemma tab_operations_refine_witness :
  exists m', apply_op sample_tabs (handle 8 1 true) = Ok m' /\ tab_wf m'.
Proof.
  destruct (tab_operations_refine sample_tabs (handle 8 1 true) sample_tabs_wf sample_tabs_ready)
    as (m' & E & _ & _ & _ & _ & _ & Hm). exists m'. split; [exact E|exact Hm].
Defined.

(** The stops in order: 1, 2, 3, then 6 and 5 of the group, then 7. *)
Lemma tab_order_cycle_witness :
  tab_next sample_tabs (Some 3%positive) = Ok (Some (mkFocusHandle 6%positive 0%Z true)) /\
  tab_prev sample_tabs (Some 1%positive) = Ok (Some (mkFocusHandle 7%positive 2%Z true)).
Proof.
  destruct (tab_order_cycle sample_tabs 3%positive sample_tabs_wf sample_tabs_ready) as (H3 & _).
  destruct (tab_order_cycle sample_tabs 1%positive sample_tabs_wf sample_tabs_ready) as (H1 & _).
  destruct (H3 2 (mkTabStopNode [1%Z] 2 true)) as [E3 _];
    [vm_compute; reflexivity|vm_compute; reflexivity|].
  destruct (H1 0 (mkTabStopNode [0%Z] 0 true)) as [_ E1];
    [vm_compute; reflexivity|vm_compute; reflexivity|].
  split; [refine (eq_trans E3 _)|refine (eq_trans E1 _)]; vm_compute; reflexivity.
Defined.
End TabExamples.
