(* ===== verification/Subscription.v ===== *)
(** * Subscriptions: [crates/gpui/src/subscription.rs]

    [SubscriberSet] keeps, for every emitter, the callbacks subscribed to it.
    [retain] takes the subscribers of an emitter out of the shared state while it
    calls them, so that a callback may use the set again: what it does to the set
    meanwhile is merged when the calls are over.  The shared state is passed
    through every callback, and the cells [Rc<Cell<bool>>] that activate
    subscribers are a store of their own. *)

From stdpp Require Import base list option numbers sorting gmap.
From S2P Require Import Prelude.

#[local] Set Warnings "-clear-no-such-hyp".

(** [post_inc] of the util crate: the value and the incremented variable. *)
Definition post_inc (n : nat) : nat * nat := (n, n + 1).

Record Subscriber (Callback : Type) := mkSubscriber {
  active : nat;
  callback : Callback;
}.

Arguments mkSubscriber {Callback} _ _.
Arguments active {Callback} _.
Arguments callback {Callback} _.

Section SubscriberSet.
Context {EmitterKey : Type} `{!EqDecision EmitterKey, !Countable EmitterKey}.
Context {Callback : Type}.

(** [struct SubscriberSetState], and the cells its subscribers point to. *)
Record SubscriberSet := mkSubscriberSet {
  subscribers : gmap EmitterKey (option (list (nat * Subscriber Callback)));
  dropped_subscribers : gset (EmitterKey * nat);
  next_subscriber_id : nat;
  cells : list bool;
}.

Implicit Types (s : SubscriberSet) (e : EmitterKey).

Definition set_new : SubscriberSet := mkSubscriberSet ∅ ∅ 0 [].

(** [Cell::get] and [Cell::set] *)
Definition is_active s (sub : Subscriber Callback) : bool :=
  match cells s !! active sub with Some b => b | None => false end.

Definition activate s (cell : nat) : SubscriberSet :=
  mkSubscriberSet (subscribers s) (dropped_subscribers s) (next_subscriber_id s)
    (<[cell := true]> (cells s)).

Definition set_subscribers s m : SubscriberSet :=
  mkSubscriberSet m (dropped_subscribers s) (next_subscriber_id s) (cells s).

(** [insert]: the state, the identifier the subscription holds, and the cell that
    activates it. *)
Definition insert s (emitter_key : EmitterKey) (cb : Callback) : SubscriberSet * nat * nat :=
  let cell := length (cells s) in
  let (subscriber_id, next) := post_inc (next_subscriber_id s) in
  let entry := match subscribers s !! emitter_key with Some o => o | None => None end in
  let map := match entry with Some map => map | None => [] end in
  let map := bt_insert subscriber_id (mkSubscriber cell cb) map in
  (mkSubscriberSet (<[emitter_key := Some map]> (subscribers s)) (dropped_subscribers s) next
     (cells s ++ [false]),
   subscriber_id, cell).

(** The closure [unsubscribe] of the subscription. *)
Definition unsubscribe s (emitter_key : EmitterKey) (subscriber_id : nat) : SubscriberSet :=
  match subscribers s !! emitter_key with
  | None => s
  | Some (Some map) =>
      let map := bt_remove subscriber_id map in
      match map with
      | [] => set_subscribers s (delete emitter_key (subscribers s))
      | _ :: _ => set_subscribers s (<[emitter_key := Some map]> (subscribers s))
      end
  | Some None =>
      mkSubscriberSet (subscribers s) ({[(emitter_key, subscriber_id)]} ∪ dropped_subscribers s)
        (next_subscriber_id s) (cells s)
  end.

(** [remove]: the state and the callbacks of the active subscribers. *)
Definition remove s e : SubscriberSet * list Callback :=
  let removed := match subscribers s !! e with Some (Some map) => map | _ => [] end in
  (set_subscribers s (delete e (subscribers s)),
   flat_map (fun p => if is_active s p.2 then [callback p.2] else []) removed).

(** The calls of [retain]: [f] gets the state and the callback, and gives the state,
    the callback and whether to keep it. *)
Fixpoint retain_calls (f : SubscriberSet -> Callback -> outcome (SubscriberSet * Callback * bool))
    s (todo : list (nat * Subscriber Callback))
    : outcome (SubscriberSet * list (nat * Subscriber Callback)) :=
  match todo with
  | [] => Ok (s, [])
  | (id, sub) :: todo =>
      let! (s, cb, keep) :=
        (if is_active s sub then f s (callback sub) else Ok (s, callback sub, true)) in
      let! (s, kept) := retain_calls f s todo in
      Ok (s, if (keep : bool) then (id, mkSubscriber (active sub) cb) :: kept else kept)
  end.

(** What [retain] does after the calls. *)
Definition retain_merge s e (kept : list (nat * Subscriber Callback)) : SubscriberSet :=
  let kept := match subscribers s !! e with
              | Some (Some new_subscribers) => bt_extend kept new_subscribers
              | _ => kept
              end in
  let kept := fold_left (fun kept d => bt_remove d.2 kept) (elements (dropped_subscribers s)) kept in
  let m := delete e (subscribers s) in
  mkSubscriberSet (match kept with [] => m | _ :: _ => <[e := Some kept]> m end)
    ∅ (next_subscriber_id s) (cells s).

Definition retain s e (f : SubscriberSet -> Callback -> outcome (SubscriberSet * Callback * bool))
    : outcome SubscriberSet :=
  match subscribers s !! e with
  | Some (Some subs) =>
      let s := set_subscribers s (<[e := None]> (subscribers s)) in
      let! (s, kept) := retain_calls f s subs in
      Ok (retain_merge s e kept)
  | _ => Ok s
  end.
End SubscriberSet.

Arguments SubscriberSet _ {_ _} _.

(** [struct Subscription]: the closure it runs when dropped, on the shared state. *)
Section Subscription.
Context {State : Type}.

Record Subscription := mkSubscription { sub_unsubscribe : option (State -> State) }.

Definition subscription_new (unsubscribe : State -> State) : Subscription :=
  mkSubscription (Some unsubscribe).

(** [impl Drop for Subscription] *)
Definition subscription_drop (sub : Subscription) (s : State) : State :=
  match sub_unsubscribe sub with Some unsubscribe => unsubscribe s | None => s end.

(** [detach] takes the closure and then drops the handle. *)
Definition detach (sub : Subscription) (s : State) : State :=
  subscription_drop (mkSubscription None) s.

Definition join (a b : Subscription) : Subscription :=
  mkSubscription (Some (fun s =>
    let s := match sub_unsubscribe a with Some u => u s | None => s end in
    match sub_unsubscribe b with Some u => u s | None => s end)).
End Subscription.

(** ** The specification *)
Section Spec.
Context {EmitterKey : Type} `{!EqDecision EmitterKey, !Countable EmitterKey}.
Context {Callback : Type}.

#[local] Abbreviation St := (SubscriberSet EmitterKey Callback).
Implicit Types (s : St) (e : EmitterKey).

(** The subscribers of an emitter. *)
Definition subs_of s e : list (nat * Subscriber Callback) :=
  match subscribers s !! e with Some (Some m) => m | _ => [] end.

(** The subscribers of every emitter are in increasing order of identifiers already
    given out, and no emitter has an empty map. *)
Definition sub_wf s : Prop :=
  forall e m, subscribers s !! e = Some (Some m) ->
    m <> [] /\ bt_sorted m /\ Forall (fun p => p.1 < next_subscriber_id s) m.

(** No [retain] is in progress. *)
Definition idle s : Prop :=
  dropped_subscribers s = ∅ /\ forall e, subscribers s !! e <> Some None.

Lemma insert_subscribers s e cb :
  sub_wf s ->
  (insert s e cb).1.1 =
    mkSubscriberSet
      (<[e := Some (subs_of s e ++ [(next_subscriber_id s, mkSubscriber (length (cells s)) cb)])]> (subscribers s))
      (dropped_subscribers s) (next_subscriber_id s + 1) (cells s ++ [false]).
Proof.
  intros Hw. unfold insert, subs_of. simpl. do 2 f_equal.
  destruct (subscribers s !! e) as [[m|]|] eqn:E; simpl; [|done..]. f_equal. apply bt_insert_last.
  destruct (Hw e m E) as (_ & _ & Hf). eapply Forall_weaken; [|exact Hf]. intros p Hp.
  by apply Nat.compare_lt_iff.
Qed.

Lemma subs_of_insert_eq s e m d n c :
  subs_of (mkSubscriberSet (<[e := Some m]> (subscribers s)) d n c) e = m.
Proof. unfold subs_of. simpl. by rewrite lookup_insert_eq. Qed.

Lemma subs_of_insert_ne s e e' m d n c :
  e' <> e -> subs_of (mkSubscriberSet (<[e := m]> (subscribers s)) d n c) e' = subs_of s e'.
Proof. intros Hne. unfold subs_of. simpl. by rewrite lookup_insert_ne by done. Qed.

Lemma sub_wf_insert s e cb : sub_wf s -> sub_wf (insert s e cb).1.1.
Proof.
  intros Hw. rewrite insert_subscribers by done. intros e' m. simpl.
  intros [[<- [= <-]]|[Hne Hm]]%lookup_insert_Some.
  - unfold subs_of. destruct (subscribers s !! e) as [[m|]|] eqn:E; simpl.
    + destruct (Hw e m E) as (Hne & Hs & Hf). split_and!; [by destruct m| |].
      * apply StronglySorted_app_2; [|done|repeat constructor].
        intros x y Hx Hy. apply list_elem_of_singleton in Hy as ->. rewrite Forall_forall in Hf.
        apply Nat.compare_lt_iff. by apply Hf.
      * rewrite Forall_snoc. split; [|simpl; lia]. eapply Forall_weaken; [|exact Hf]. intros p Hp; cbn in *; lia.
    + split_and!; [done|repeat constructor|repeat constructor; simpl; lia].
    + split_and!; [done|repeat constructor|repeat constructor; simpl; lia].
  - destruct (Hw e' m Hm) as (? & ? & Hf). split_and!; [done|done|].
    eapply Forall_weaken; [|exact Hf]. intros p Hp; cbn in *; lia.
Qed.

(** Dropping the newest subscription undoes the insertion. *)
Lemma unsubscribe_insert s e cb :
  sub_wf s -> subscribers s !! e <> Some None ->
  subscribers (unsubscribe (insert s e cb).1.1 e (next_subscriber_id s)) = subscribers s.
Proof.
  intros Hw Hne. rewrite insert_subscribers by done. unfold unsubscribe. simpl. rewrite lookup_insert_eq.
  rewrite bt_remove_snoc.
  - unfold subs_of. destruct (subscribers s !! e) as [[m|]|] eqn:E; simpl; [|done|].
    + destruct (Hw e m E) as (Hm & _). destruct m as [|p m]; [done|]. simpl.
      rewrite insert_insert_eq. by apply insert_id.
    + rewrite delete_insert_eq. by apply delete_id.
  - unfold subs_of. destruct (subscribers s !! e) as [[m|]|] eqn:E; simpl; [|done..].
    destruct (Hw e m E) as (_ & _ & Hf). eapply Forall_weaken; [|exact Hf]. intros p Hp.
    by apply Nat.compare_lt_iff.
Qed.

(** *** What callbacks do *)

Inductive SetOp :=
| OpInsert (e : EmitterKey) (cb : Callback)
| OpActivate (cell : nat)
| OpDrop (e : EmitterKey) (id : nat)
| OpRemove (e : EmitterKey).

Definition apply_set_op s (op : SetOp) : St :=
  match op with
  | OpInsert e cb => (insert s e cb).1.1
  | OpActivate cell => activate s cell
  | OpDrop e id => unsubscribe s e id
  | OpRemove e => (remove s e).1
  end.

Definition apply_set_ops s (ops : list SetOp) : St := fold_left apply_set_op ops s.

(** A callback that performs the operations of a script on the set. *)
Definition scripted (script : St -> Callback -> list SetOp) (keep : St -> Callback -> bool) :
    St -> Callback -> outcome (St * Callback * bool) :=
  fun s cb => Ok (apply_set_ops s (script s cb), cb, keep s cb).

(** The calls of a [retain] with such callbacks: the subscribers kept, and all that
    was done to the set, in order. *)
Fixpoint run_calls script keep s (todo : list (nat * Subscriber Callback))
    : list (nat * Subscriber Callback) * list SetOp :=
  match todo with
  | [] => ([], [])
  | (id, sub) :: todo =>
      if is_active s sub then
        let ops := script s (callback sub) in
        let (kept, trace) := run_calls script keep (apply_set_ops s ops) todo in
        (if (keep s (callback sub) : bool) then (id, sub) :: kept else kept, ops ++ trace)
      else
        let (kept, trace) := run_calls script keep s todo in ((id, sub) :: kept, trace)
  end.

Lemma retain_calls_run script keep s todo :
  retain_calls (scripted script keep) s todo =
  Ok (apply_set_ops s (run_calls script keep s todo).2, (run_calls script keep s todo).1).
Proof.
  revert s. induction todo as [|[id [a cb]] todo IH]; intros s; [done|]. simpl.
  destruct (is_active s (mkSubscriber a cb)); cbn [obind scripted callback active].
  - unfold scripted. cbn [obind]. fold (scripted script keep). rewrite IH. cbn [obind].
    destruct (run_calls _ _ _ todo) as [kept trace]. simpl. unfold apply_set_ops. by rewrite fold_left_app.
  - rewrite IH. cbn [obind]. by destruct (run_calls _ _ _ todo) as [kept trace].
Qed.

Lemma run_calls_kept script keep s todo p :
  p ∈ (run_calls script keep s todo).1 -> p ∈ todo.
Proof.
  revert s. induction todo as [|[id sub] todo IH]; intros s; simpl; [by intros ?%elem_of_nil|].
  destruct (is_active s sub).
  - specialize (IH (apply_set_ops s (script s (callback sub)))).
    destruct (run_calls _ _ _ todo) as [kept trace]. simpl in *.
    destruct (keep s (callback sub)); rewrite ?elem_of_cons; naive_solver.
  - specialize (IH s). destruct (run_calls _ _ _ todo) as [kept trace]. simpl in *.
    rewrite ?elem_of_cons; naive_solver.
Qed.

(** The operations that do not touch the map of an emitter being called. *)
Definition leaves e (op : SetOp) : Prop :=
  match op with OpInsert e' _ | OpRemove e' => e' <> e | OpActivate _ | OpDrop _ _ => True end.

(** The state while the subscribers of [e], and of no other emitter, are taken. *)
Definition calling e s (dropped : gset (EmitterKey * nat)) : Prop :=
  subscribers s !! e = Some None /\ (forall e', e' <> e -> subscribers s !! e' <> Some None) /\
  dropped_subscribers s = dropped.

(** The subscriptions to [e] that a trace drops. *)
Definition drops e (trace : list SetOp) : gset (EmitterKey * nat) :=
  list_to_set (flat_map (fun op => match op with
    | OpDrop e' id => if decide (e' = e) then [(e', id)] else []
    | _ => []
    end) trace).

Lemma calling_op e s d op :
  calling e s d -> leaves e op -> calling e (apply_set_op s op) (drops e [op] ∪ d).
Proof.
  intros (He & Ho & <-) Hl.
  destruct op as [e' cb|cell|e' id|e']; simpl in *; unfold drops; simpl.
  - unfold insert. simpl. split_and!; simpl; [by rewrite lookup_insert_ne| |set_solver].
    intros e2 Hne. destruct (decide (e2 = e')) as [->|]; [by rewrite lookup_insert_eq|].
    rewrite lookup_insert_ne by done. by apply Ho.
  - split_and!; [done|done|simpl; set_solver].
  - unfold unsubscribe. destruct (decide (e' = e)) as [->|Hne].
    + rewrite He. split_and!; [done|done|simpl; set_solver].
    + destruct (subscribers s !! e') as [[m|]|] eqn:E.
      * destruct (bt_remove id m) as [|p m'] eqn:Em; simpl.
        -- split_and!; simpl; [by rewrite lookup_delete_ne| |set_solver].
           intros e2 Hne2. destruct (decide (e2 = e')) as [->|]; [by rewrite lookup_delete_eq|].
           rewrite lookup_delete_ne by done. by apply Ho.
        -- split_and!; simpl; [by rewrite lookup_insert_ne| |set_solver].
           intros e2 Hne2. destruct (decide (e2 = e')) as [->|]; [by rewrite lookup_insert_eq|].
           rewrite lookup_insert_ne by done. by apply Ho.
      * by destruct (Ho e' Hne).
      * split_and!; [done|done|simpl; set_solver].
  - split_and!; simpl; [by rewrite lookup_delete_ne| |set_solver].
    intros e2 Hne2. destruct (decide (e2 = e')) as [->|]; [by rewrite lookup_delete_eq|].
    rewrite lookup_delete_ne by done. by apply Ho.
Qed.

Lemma calling_ops e ops : forall s d,
  calling e s d -> Forall (leaves e) ops -> calling e (apply_set_ops s ops) (drops e ops ∪ d).
Proof.
  induction ops as [|op ops IH]; intros s d Hc Hl.
  - unfold drops. simpl. destruct Hc as (? & ? & <-). split_and!; [done|done|set_solver].
  - apply Forall_cons_iff in Hl as [Hop Hl]. simpl.
    specialize (IH _ _ (calling_op e s d op Hc Hop) Hl). destruct IH as (H1 & H2 & H3).
    split_and!; [done|done|]. rewrite H3. unfold drops. simpl. rewrite app_nil_r, list_to_set_app_L.
    set_solver.
Qed.

Lemma run_calls_leaves e script keep s todo :
  (forall s cb, Forall (leaves e) (script s cb)) -> Forall (leaves e) (run_calls script keep s todo).2.
Proof.
  intros Hs. revert s. induction todo as [|[id sub] todo IH]; intros s; simpl; [constructor|].
  destruct (is_active s sub).
  - specialize (IH (apply_set_ops s (script s (callback sub)))).
    destruct (run_calls _ _ _ todo) as [kept trace]. simpl in *. apply Forall_app. by split.
  - specialize (IH s). by destruct (run_calls _ _ _ todo).
Qed.

(** Removing the identifiers of a list of marks. *)
Lemma fold_bt_remove (ds : list (EmitterKey * nat)) (l : list (nat * Subscriber Callback)) :
  fold_left (fun l d => bt_remove d.2 l) ds l =
  List.filter (fun p => negb (existsb (fun d => eqb p.1 d.2) ds)) l.
Proof.
  revert l. induction ds as [|[e id] ds IH]; intros l; simpl.
  - symmetry. apply bfilter_all. by apply Forall_forall.
  - rewrite IH. unfold bt_remove. induction l as [|p l IHl]; simpl; [done|].
    destruct (eqb p.1 id); simpl; [done|]. destruct (existsb _ ds); simpl; by rewrite IHl.
Qed.

(** A subscription was dropped in a trace. *)
Definition dropped_in e (trace : list SetOp) (id : nat) : bool :=
  existsb (fun op => match op with
    | OpDrop e' id' => bool_decide (e' = e) && (id' =? id)
    | _ => false
    end) trace.

Lemma dropped_in_spec e trace id : dropped_in e trace id = true <-> (e, id) ∈ drops e trace.
Proof.
  unfold dropped_in, drops. rewrite elem_of_list_to_set.
  induction trace as [|op trace IH]; simpl; [by split; [|intros ?%elem_of_nil]|].
  rewrite orb_true_iff, elem_of_app, IH. apply or_iff_compat_r.
  destruct op as [| |e' id'|]; try (by split; [|intros ?%elem_of_nil]).
  destruct (decide (e' = e)) as [->|Hne].
  - rewrite bool_decide_eq_true_2 by done. simpl. rewrite Nat.eqb_eq, list_elem_of_singleton. naive_solver.
  - rewrite bool_decide_eq_false_2 by done. simpl. by split; [|intros ?%elem_of_nil].
Qed.

Lemma drops_key e trace d : d ∈ drops e trace -> d.1 = e.
Proof.
  unfold drops. rewrite elem_of_list_to_set. intros Hd. apply list_elem_of_In, in_flat_map in Hd as (op & _ & Hop).
  apply list_elem_of_In in Hop. destruct op as [| |e' id|]; try by apply elem_of_nil in Hop.
  destruct (decide (e' = e)) as [->|]; [|by apply elem_of_nil in Hop].
  by apply list_elem_of_singleton in Hop as ->.
Qed.

(** The merge after calls that left the map of [e] alone. *)
Lemma retain_merge_calling e s kept trace :
  calling e s (drops e trace) ->
  retain_merge s e kept =
    let kept := List.filter (fun p => negb (dropped_in e trace p.1)) kept in
    mkSubscriberSet
      (match kept with [] => delete e (subscribers s) | _ :: _ => <[e := Some kept]> (delete e (subscribers s)) end)
      ∅ (next_subscriber_id s) (cells s).
Proof.
  intros (He & _ & Hd). unfold retain_merge. rewrite He, Hd. cbn zeta.
  rewrite fold_bt_remove.
  assert (E : List.filter (fun p => negb (existsb (fun d => eqb p.1 d.2) (elements (drops e trace)))) kept =
              List.filter (fun p => negb (dropped_in e trace p.1)) kept).
  { apply filter_ext. intros p. f_equal. apply eq_true_iff_eq. rewrite dropped_in_spec, existsb_exists. split.
    - intros ([e' id] & Hin & Heq). apply list_elem_of_In, elem_of_elements in Hin.
      pose proof (drops_key _ _ _ Hin) as He'. apply eqb_spec in Heq. simpl in *. by subst.
    - intros Hin. exists (e, p.1). split; [by apply list_elem_of_In, elem_of_elements|].
      by apply eqb_spec. }
  by rewrite E.
Qed.

Lemma subs_of_merged e m d n c (kept : list (nat * Subscriber Callback)) :
  subs_of (mkSubscriberSet
    (match kept with [] => delete e m | _ :: _ => <[e := Some kept]> (delete e m) end) d n c) e = kept.
Proof.
  unfold subs_of. destruct kept; simpl; [by rewrite lookup_delete_eq|by rewrite lookup_insert_eq].
Qed.

(** C5: the life of a subscription while no [retain] is in progress: [insert] adds
    the callback after all subscribers of the emitter, inactive and under a new
    identifier, and leaves other emitters alone; [remove] gives the active callbacks
    in the order of subscription and leaves no subscriber; dropping the subscription
    undoes the insertion; the handle [join] makes drops both of its parts, and a
    detached one does nothing. *)
Theorem subscription_lifecycle s e cb :
  sub_wf s -> idle s ->
  let '(s1, id, cell) := insert s e cb in
  sub_wf s1 /\ idle s1 /\
  subs_of s1 e = subs_of s e ++ [(id, mkSubscriber cell cb)] /\ id ∉ map fst (subs_of s e) /\
  is_active s1 (mkSubscriber cell cb) = false /\
  is_active (activate s1 cell) (mkSubscriber cell cb) = true /\
  (forall e', e' <> e -> subs_of s1 e' = subs_of s e') /\
  subscribers (unsubscribe s1 e id) = subscribers s /\
  (subs_of (remove s e).1 e = [] /\
   (remove s e).2 = map (fun p => callback p.2) (List.filter (fun p => is_active s p.2) (subs_of s e))) /\
  forall s2 (a b : Subscription), detach a s2 = s2 /\
    subscription_drop (join a b) s2 = subscription_drop b (subscription_drop a s2).
Proof.
  intros Hw Hi. destruct (insert s e cb) as [[s1 id] cell] eqn:E.
  assert (Hid : id = next_subscriber_id s /\ cell = length (cells s)).
  { unfold insert in E. simpl in E. by injection E as _ <- <-. }
  destruct Hid as [-> ->].
  pose proof (insert_subscribers s e cb Hw) as E1. rewrite E in E1. simpl in E1.
  pose proof (sub_wf_insert s e cb Hw) as Hw1. rewrite E in Hw1. simpl in Hw1.
  pose proof (unsubscribe_insert s e cb Hw (proj2 Hi e)) as Hu. rewrite E in Hu. simpl in Hu.
  split_and!; [done|..|done| | |].
  - subst s1. split; [apply Hi|]. intros e'. simpl.
    destruct (decide (e' = e)) as [->|]; [by rewrite lookup_insert_eq|].
    rewrite lookup_insert_ne by done. apply Hi.
  - subst s1. apply subs_of_insert_eq.
  - unfold subs_of. destruct (subscribers s !! e) as [[m|]|] eqn:Em; [|apply not_elem_of_nil..].
    destruct (Hw e m Em) as (_ & _ & Hf). intros Hin. apply list_elem_of_fmap in Hin as ([id sub] & E2 & Hin).
    rewrite Forall_forall in Hf. specialize (Hf _ Hin). simpl in *. lia.
  - subst s1. unfold is_active. simpl. by rewrite lookup_app_r, Nat.sub_diag.
  - subst s1. unfold is_active. simpl. rewrite list_lookup_insert_eq; [done|].
    rewrite length_app. simpl. lia.
  - intros e' Hne. subst s1. by apply subs_of_insert_ne.
  - unfold subs_of, remove. simpl. by rewrite lookup_delete_eq.
  - unfold remove, subs_of. simpl.
    induction (match subscribers s !! e with Some (Some m) => m | _ => [] end) as [|p l IH]; [done|].
    simpl. destruct (is_active s p.2); simpl; by rewrite IH.
  - intros s2 a b. done.
Qed.

(** A [retain] whose callbacks may do anything with the set but insert or
    remove subscribers of the emitter being called: it returns, keeps in order the
    subscribers whose call returned true (or that were inactive when their turn
    came) less those whose subscription a callback dropped, and what the callbacks
    did to other emitters stands. *)
Theorem retain_quiet s e subs script keep :
  sub_wf s -> idle s -> subscribers s !! e = Some (Some subs) ->
  (forall s cb, Forall (leaves e) (script s cb)) ->
  let taken := set_subscribers s (<[e := None]> (subscribers s)) in
  let '(kept, trace) := run_calls script keep taken subs in
  exists s', retain s e (scripted script keep) = Ok s' /\
    subs_of s' e = List.filter (fun p => negb (dropped_in e trace p.1)) kept /\
    (forall id, dropped_in e trace id = true -> id ∉ map fst (subs_of s' e)) /\
    (forall e', e' <> e -> subscribers s' !! e' = subscribers (apply_set_ops taken trace) !! e') /\
    dropped_subscribers s' = ∅.
Proof.
  intros Hw Hi Hs Hl taken. destruct (run_calls script keep taken subs) as [kept trace] eqn:Er.
  assert (Hc : calling e (apply_set_ops taken trace) (drops e trace ∪ ∅)).
  { apply calling_ops.
    - split_and!; simpl; [by rewrite lookup_insert_eq| |apply Hi].
      intros e' Hne. rewrite lookup_insert_ne by done. apply Hi.
    - pose proof (run_calls_leaves e script keep taken subs Hl) as H. by rewrite Er in H. }
  rewrite union_empty_r_L in Hc.
  exists (retain_merge (apply_set_ops taken trace) e kept).
  assert (Ek : subs_of (retain_merge (apply_set_ops taken trace) e kept) e =
               List.filter (fun p => negb (dropped_in e trace p.1)) kept).
  { rewrite (retain_merge_calling e _ kept trace Hc). apply subs_of_merged. }
  split_and!.
  - unfold retain. rewrite Hs. fold taken. rewrite retain_calls_run, Er. done.
  - done.
  - intros id Hid. rewrite Ek. intros Hin. apply list_elem_of_fmap in Hin as (p & -> & Hp).
    apply list_elem_of_In, List.filter_In in Hp as [_ Hp]. by rewrite Hid in Hp.
  - intros e' Hne. rewrite (retain_merge_calling e _ kept trace Hc). simpl.
    destruct (List.filter _ kept); rewrite ?lookup_insert_ne, lookup_delete_ne by done; done.
  - rewrite (retain_merge_calling e _ kept trace Hc). done.
Qed.

(** A callback that replaces its own subscription, by inserting a new one for
    the same emitter and then dropping the old one, does not end the old one: both
    are subscribed after the [retain].  The drop is not recorded, because the entry
    of the emitter holds the new subscriber by then. *)
Theorem replaced_subscription_survives s e id sub cb :
  sub_wf s -> idle s -> subscribers s !! e = Some (Some [(id, sub)]) -> is_active s sub = true ->
  exists s', retain s e (scripted (fun _ _ => [OpInsert e cb; OpDrop e id]) (fun _ _ => true)) = Ok s' /\
    subs_of s' e = [(id, sub); (next_subscriber_id s, mkSubscriber (length (cells s)) cb)].
Proof.
  intros Hw [Hd Hi] Hs Ha. destruct (Hw e _ Hs) as (_ & _ & Hf). apply Forall_cons_iff in Hf as [Hid _]. simpl in Hid.
  unfold retain. rewrite Hs, retain_calls_run. cbn [run_calls].
  assert (Ha' : is_active (set_subscribers s (<[e := None]> (subscribers s))) sub = true) by exact Ha.
  rewrite Ha'. cbn [obind fst snd app]. eexists; split; [reflexivity|].
  set (taken := set_subscribers s (<[e := None]> (subscribers s))).
  assert (E1 : (insert taken e cb).1.1 =
    mkSubscriberSet (<[e := Some [(next_subscriber_id s, mkSubscriber (length (cells s)) cb)]]> (subscribers s))
      (dropped_subscribers s) (next_subscriber_id s + 1) (cells s ++ [false])).
  { unfold insert, taken. simpl. rewrite lookup_insert_eq. simpl. by rewrite insert_insert_eq. }
  unfold apply_set_ops. cbn [fold_left apply_set_op]. rewrite E1. unfold unsubscribe. simpl.
  rewrite lookup_insert_eq. unfold bt_remove. simpl.
  assert (En : eqb (next_subscriber_id s) id = false).
  { destruct (eqb _ _) eqn:E; [|done]. apply eqb_spec in E. lia. }
  rewrite En. simpl. rewrite insert_insert_eq. unfold retain_merge. simpl.
  rewrite lookup_insert_eq, Hd, elements_empty. simpl.
  assert (Ec : cmp (next_subscriber_id s) id = Gt) by (by apply Nat.compare_gt_iff).
  rewrite Ec. unfold subs_of. simpl. by rewrite lookup_insert_eq.
Qed.

(** A subscription that an earlier callback of the same [retain] drops is still
    called once more in it, and only then gone. *)
Theorem dropped_sibling_still_called s e i1 i2 sub1 sub2 keep ops :
  sub_wf s -> idle s -> subscribers s !! e = Some (Some [(i1, sub1); (i2, sub2)]) ->
  is_active s sub1 = true -> is_active s sub2 = true -> Forall (leaves e) ops ->
  forall script, (forall s, script s (callback sub1) = [OpDrop e i2]) ->
  (forall s, script s (callback sub2) = ops) -> (forall s cb, Forall (leaves e) (script s cb)) ->
  (forall s, keep s (callback sub1) = true) ->
  let taken := set_subscribers s (<[e := None]> (subscribers s)) in
  (run_calls script keep taken [(i1, sub1); (i2, sub2)]).2 = OpDrop e i2 :: ops /\
  exists s', retain s e (scripted script keep) = Ok s' /\ i2 ∉ map fst (subs_of s' e) /\
    forall e', e' <> e -> subscribers s' !! e' = subscribers (apply_set_ops taken (OpDrop e i2 :: ops)) !! e'.
Proof.
  intros Hw Hi Hs Ha1 Ha2 Hops script H1 H2 Hl Hk taken.
  assert (Er : (run_calls script keep taken [(i1, sub1); (i2, sub2)]).2 = OpDrop e i2 :: ops).
  { cbn [run_calls]. assert (Ha1' : is_active taken sub1 = true) by exact Ha1. rewrite Ha1', H1.
    assert (Ha2' : is_active (apply_set_ops taken [OpDrop e i2]) sub2 = true).
    { unfold apply_set_ops. simpl. unfold unsubscribe, taken. simpl. rewrite lookup_insert_eq. exact Ha2. }
    rewrite Ha2', H2. simpl. by rewrite app_nil_r. }
  split; [done|].
  assert (Hc : calling e (apply_set_ops taken (OpDrop e i2 :: ops)) (drops e (OpDrop e i2 :: ops) ∪ ∅)).
  { apply calling_ops; [|by constructor]. split_and!; simpl; [by rewrite lookup_insert_eq| |apply Hi].
    intros e' Hne. rewrite lookup_insert_ne by done. apply Hi. }
  rewrite union_empty_r_L in Hc. unfold retain. rewrite Hs. fold taken.
  rewrite retain_calls_run, Er. eexists; split; [reflexivity|].
  rewrite (retain_merge_calling e _ _ _ Hc). split.
  - cbn zeta. rewrite subs_of_merged. intros Hin. apply list_elem_of_fmap in Hin as (p & -> & Hp).
    apply list_elem_of_In, List.filter_In in Hp as [_ Hp]. simpl in Hp.
    by rewrite bool_decide_eq_true_2, Nat.eqb_refl in Hp.
  - intros e' Hne. simpl. destruct (List.filter _ _); rewrite ?lookup_insert_ne, lookup_delete_ne by done; done.
Qed.
End Spec.

(** ** Concrete runs: emitters and callbacks are numbers *)
Module SubscriptionExamples.

Definition empty_set : SubscriberSet nat nat := set_new.

Lemma empty_wf : sub_wf empty_set.
Proof. intros e m H. discriminate. Qed.

Lemma empty_idle : idle empty_set.
Proof. split; [reflexivity|]. intros e H. discriminate. Qed.

Definition one : SubscriberSet nat nat := activate (insert empty_set 7 100).1.1 0.
Definition two : SubscriberSet nat nat := activate (insert one 7 200).1.1 1.

Lemma one_wf : sub_wf one.
Proof. exact (sub_wf_insert empty_set 7 100 empty_wf). Qed.

Lemma two_wf : sub_wf two.
Proof. exact (sub_wf_insert one 7 200 one_wf). Qed.

Lemma one_idle : idle one.
Proof.
  split; [reflexivity|]. intros e. unfold one. simpl.
  destruct (decide (e = 7)) as [->|]; [by rewrite lookup_insert_eq|by rewrite lookup_insert_ne].
Qed.

Lemma two_idle : idle two.
Proof.
  split; [reflexivity|]. intros e. unfold two. simpl. rewrite lookup_insert_eq. simpl.
  destruct (decide (e = 7)) as [->|]; [by rewrite lookup_insert_eq|].
  rewrite !lookup_insert_ne by done. done.
Qed.

Lemma two_subscribers :
  subscribers two !! 7 = Some (Some [(0, mkSubscriber 0 100); (1, mkSubscriber 1 200)]).
Proof. vm_compute. reflexivity. Qed.

Lemma subscription_lifecycle_witness :
  let '(s1, id, cell) := insert two 7 300 in
  subs_of s1 7 = subs_of two 7 ++ [(id, mkSubscriber cell 300)] /\
  subscribers (unsubscribe s1 7 id) = subscribers two.
Proof.
  pose proof (subscription_lifecycle two 7 300 two_wf two_idle) as H.
  destruct (insert two 7 300) as [[s1 id] cell].
  destruct H as (_ & _ & H1 & _ & _ & _ & _ & H2 & _). split; [exact H1|exact H2].
Defined.

(** The first callback drops the second subscription. *)
Lemma retain_quiet_witness :
  exists s', retain two 7 (scripted (fun _ cb => if Nat.eqb cb 100 then [OpDrop 7 1] else [])
                             (fun _ _ => true)) = Ok s' /\
    subs_of s' 7 = [(0, mkSubscriber 0 100)].
Proof.
  pose proof (retain_quiet two 7 _ (fun _ cb => if Nat.eqb cb 100 then [OpDrop 7 1] else [])
    (fun _ _ => true) two_wf two_idle two_subscribers) as H.
  assert (Hl : forall (s : SubscriberSet nat nat) (cb : nat),
    Forall (leaves 7) (if Nat.eqb cb 100 then [OpDrop 7 1 : SetOp (Callback := nat)] else [])).
  { intros s cb. destruct (Nat.eqb cb 100); repeat constructor. }
  specialize (H Hl). cbn zeta in H. destruct (run_calls _ _ _ _) as [kept trace] eqn:E in H.
  vm_compute in E. injection E as <- <-. destruct H as (s' & H1 & H2 & _).
  exists s'. split; [exact H1|]. rewrite H2. reflexivity.
Defined.

Lemma replaced_subscription_survives_witness :
  exists s', retain one 7 (scripted (fun _ _ => [OpInsert 7 101; OpDrop 7 0]) (fun _ _ => true)) = Ok s' /\
    subs_of s' 7 = [(0, mkSubscriber 0 100); (1, mkSubscriber 1 101)].
Proof.
  destruct (replaced_subscription_survives one 7 0 (mkSubscriber 0 100) 101 one_wf one_idle)
    as (s' & H1 & H2); [vm_compute; reflexivity|vm_compute; reflexivity|].
  exists s'. split; [exact H1|exact H2].
Defined.

(** The first callback drops the second subscription, whose callback still runs and
    subscribes to emitter 8. *)
Lemma dropped_sibling_still_called_witness :
  exists s', retain two 7 (scripted (fun _ cb => if Nat.eqb cb 100 then [OpDrop 7 1] else [OpInsert 8 300])
                             (fun _ _ => true)) = Ok s' /\
    1 ∉ map fst (subs_of s' 7).
Proof.
  destruct (dropped_sibling_still_called two 7 0 1 (mkSubscriber 0 100) (mkSubscriber 1 200)
    (fun _ _ => true) [OpInsert 8 300] two_wf two_idle two_subscribers)
    with (script := fun (_ : SubscriberSet nat nat) (cb : nat) =>
      if Nat.eqb cb 100 then [OpDrop 7 1] else [OpInsert 8 300])
    as (_ & s' & H1 & H2 & _).
  - vm_compute. reflexivity.
  - vm_compute. reflexivity.
  - constructor; [simpl; lia|constructor].
  - reflexivity.
  - reflexivity.
  - intros s cb. destruct (Nat.eqb cb 100); [repeat constructor|]. constructor; [simpl; lia|constructor].
  - reflexivity.
  - exists s'. split; [exact H1|exact H2].
Defined.
End SubscriptionExamples.
