(* ===== verification/Sorting.v ===== *)
(** * Sorting by keys

    The sorts of slices that the standard library offers: the stable [sort_by_key],
    the check [is_sorted_by_key], and [sort_unstable_by_key], which leaves elements
    with equal keys in an order that is not specified and is therefore a class: any
    function that sorts. *)

From stdpp Require Import base list sorting.
From S2P Require Import Prelude.

Section ByKey.
Context {A K : Type} `{OrdLaws K}.
Variable key : A -> K.

(** The key of [a] is at most that of [b]. *)
Definition key_le (a b : A) : Prop := cmp (key a) (key b) <> Gt.

#[global] Instance key_le_dec a b : Decision (key_le a b).
Proof. unfold key_le. destruct (cmp (key a) (key b)); [left|left|right]; congruence. Defined.

Fixpoint insert_by_key (x : A) (l : list A) : list A :=
  match l with
  | [] => [x]
  | y :: l => match cmp (key x) (key y) with Gt => y :: insert_by_key x l | _ => x :: y :: l end
  end.

Definition sort_by_key (l : list A) : list A := foldr insert_by_key [] l.

Fixpoint is_sorted_by_key (l : list A) : bool :=
  match l with
  | x :: (y :: _) as l' => match cmp (key x) (key y) with Gt => false | _ => is_sorted_by_key l' end
  | _ => true
  end.

Lemma key_le_refl a : key_le a a.
Proof. unfold key_le. by rewrite cmp_refl. Qed.

Lemma key_le_total a b : key_le a b \/ key_le b a.
Proof. unfold key_le. rewrite (cmp_flip (key a) (key b)). destruct (cmp (key a) (key b)); simpl; auto. Qed.

#[global] Instance key_le_trans : Transitive key_le.
Proof.
  intros a b c Hab Hbc Hac. unfold key_le in *. apply cmp_gt in Hac.
  destruct (cmp (key a) (key b)) eqn:E; [|clear Hab|done].
  - apply cmp_eq in E. rewrite E in Hac. apply Hbc. by apply cmp_gt.
  - apply Hbc, cmp_gt. by eapply cmp_lt_trans.
Qed.

Lemma insert_by_key_perm x l : insert_by_key x l ≡ₚ x :: l.
Proof. induction l as [|y l IH]; simpl; [done|]. destruct (cmp _ _); [done|done|]. rewrite IH. apply Permutation_swap. Qed.

Lemma sort_by_key_perm l : sort_by_key l ≡ₚ l.
Proof. unfold sort_by_key. induction l as [|x l IH]; simpl; [done|]. by rewrite insert_by_key_perm, IH. Qed.

Lemma insert_by_key_sorted x l : StronglySorted key_le l -> StronglySorted key_le (insert_by_key x l).
Proof.
  induction 1 as [|y l Hl IH Hy]; simpl; [repeat constructor|].
  assert (Hcons : key_le x y -> StronglySorted key_le (x :: y :: l)).
  { intros Hxy. repeat constructor; [done|done|done|]. eapply Forall_weaken; [|exact Hy].
    intros z Hz. by apply (key_le_trans x y z). }
  destruct (cmp (key x) (key y)) eqn:E; [apply Hcons; unfold key_le; congruence..|].
  constructor; [done|]. rewrite insert_by_key_perm. constructor; [|done]. intros ?%cmp_gt. apply cmp_gt in E.
  assert (cmp (key x) (key x) = Lt) by by eapply cmp_lt_trans. by eapply cmp_lt_irrefl.
Qed.

Lemma sort_by_key_sorted l : StronglySorted key_le (sort_by_key l).
Proof. unfold sort_by_key. induction l as [|x l IH]; simpl; [constructor|]. by apply insert_by_key_sorted. Qed.

Lemma is_sorted_by_key_spec l : is_sorted_by_key l = true <-> StronglySorted key_le l.
Proof.
  split.
  - intros E. apply Sorted_StronglySorted; [apply _|]. induction l as [|x [|y l] IH]; [constructor|repeat constructor|].
    cbn in E. constructor; [apply IH; by destruct (cmp _ _)|]. constructor. unfold key_le. by destruct (cmp (key x) (key y)).
  - induction 1 as [|x [|y l] Hl IH Hx]; [done|done|]. cbn. inversion Hx as [|? ? Hxy]; subst. unfold key_le in Hxy.
    by destruct (cmp (key x) (key y)).
Qed.
End ByKey.

(** [slice::sort_unstable_by_key]. *)
Class UnstableSort := sort_unstable_by_key : forall {A K : Type} `{Ord K}, (A -> K) -> list A -> list A.

Class UnstableSortLaws `{UnstableSort} : Prop := {
  sort_unstable_perm : forall {A K} `{OrdLaws K} (key : A -> K) (l : list A), sort_unstable_by_key key l ≡ₚ l;
  sort_unstable_sorted : forall {A K} `{OrdLaws K} (key : A -> K) (l : list A),
    StronglySorted (key_le key) (sort_unstable_by_key key l);
}.

(** A stable sort is one of them. *)
Definition stable_sort : UnstableSort := fun A K _ key l => sort_by_key key l.

Lemma stable_sort_laws : @UnstableSortLaws stable_sort.
Proof. split; intros; [apply sort_by_key_perm|apply sort_by_key_sorted]. Qed.
