(* ===== verification/Hashing.v ===== *)
(** * Hashing: the order of hash maps

    A hash map is a finite map; the order in which it is iterated, which the standard library
    leaves open, is a class with the law that every entry is met once. *)

From stdpp Require Import base list gmap.
From S2P Require Import Prelude.

#[local] Set Warnings "-register-all,-clear-no-such-hyp".

Class HashOrder (K : Type) `{Countable K} := hash_iter : forall {V : Type}, gmap K V -> list (K * V).

Class HashOrderLaws (K : Type) `{HashOrder K} : Prop :=
  hash_iter_perm : forall {V : Type} (m : gmap K V), hash_iter m ≡ₚ map_to_list m.

Section Lemmas.
Context {K : Type} `{HashOrderLaws K}.

Lemma hash_iter_elem {V} (m : gmap K V) k v : (k, v) ∈ hash_iter m <-> m !! k = Some v.
Proof. rewrite (hash_iter_perm m). apply elem_of_map_to_list. Qed.

Lemma hash_iter_nodup {V} (m : gmap K V) : NoDup (map fst (hash_iter m)).
Proof. rewrite (hash_iter_perm m). apply NoDup_fst_map_to_list. Qed.

Lemma hash_iter_length {V} (m : gmap K V) : length (hash_iter m) = size m.
Proof. by rewrite (hash_iter_perm m), length_map_to_list. Qed.
End Lemmas.

(** The order of [map_to_list]. *)
Definition key_order {K} `{Countable K} : HashOrder K := fun V m => map_to_list m.

Lemma key_order_laws {K} `{Countable K} : @HashOrderLaws K _ _ key_order.
Proof. by intros V m. Qed.
