(* ===== verification/Geometry.v ===== *)
(** * Points, sizes and bounds: [crates/gpui/src/geometry.rs]

    The types are generic in the code; here the coordinates are integers, as they
    are for [DevicePixels], so that sums and differences are exact, and [half]
    rounds towards zero.  A rectangle is read as the set of its points: the
    theorems show which set every operation gives, and that the constructions by
    corners, edges and amounts undo each other. *)

From stdpp Require Import base list option numbers.
From S2P Require Import Prelude.

#[local] Set Warnings "-clear-no-such-hyp".

Local Open Scope Z_scope.

(** ** Data *)

Inductive Axis := Vertical | Horizontal.

Record Point := mkPoint { px : Z; py : Z }.
Record Size := mkSize { width : Z; height : Z }.
Record Bounds := mkBounds { origin : Point; size : Size }.

Record Edges := mkEdges { top_edge : Z; right_edge : Z; bottom_edge : Z; left_edge : Z }.

Inductive Corner := TopLeft | TopRight | BottomLeft | BottomRight.

Record Corners := mkCorners {
  top_left_radius : Z;
  top_right_radius : Z;
  bottom_right_radius : Z;
  bottom_left_radius : Z;
}.

(** [impl Half for i32] *)
Definition half (x : Z) : Z := Z.quot x 2.

Definition axis_invert (a : Axis) : Axis :=
  match a with Vertical => Horizontal | Horizontal => Vertical end.

(** ** Points and sizes *)

Definition point_along (p : Point) (axis : Axis) : Z :=
  match axis with Horizontal => px p | Vertical => py p end.

Definition point_apply_along (p : Point) (axis : Axis) (f : Z -> Z) : Point :=
  match axis with
  | Horizontal => mkPoint (f (px p)) (py p)
  | Vertical => mkPoint (px p) (f (py p))
  end.

(** The derived [Add] and [Sub]. *)
Definition point_add (a b : Point) : Point := mkPoint (px a + px b) (py a + py b).
Definition point_sub (a b : Point) : Point := mkPoint (px a - px b) (py a - py b).

Definition relative_to (p origin : Point) : Point := mkPoint (px p - px origin) (py p - py origin).

Definition point_max (a b : Point) : Point :=
  mkPoint (if px a >? px b then px a else px b) (if py a >? py b then py a else py b).

Definition point_min (a b : Point) : Point :=
  mkPoint (if px a <=? px b then px a else px b) (if py a <=? py b then py a else py b).

Definition point_clamp (p min max : Point) : Point := point_min (point_max p min) max.

Definition size_center (s : Size) : Point := mkPoint (half (width s)) (half (height s)).

Definition size_max (a b : Size) : Size :=
  mkSize (if width a >=? width b then width a else width b)
    (if height a >=? height b then height a else height b).

Definition size_min (a b : Size) : Size :=
  mkSize (if width a >=? width b then width b else width a)
    (if height a >=? height b then height b else height a).

Definition size_add (a b : Size) : Size := mkSize (width a + width b) (height a + height b).

(** ** Bounds *)

Definition top (b : Bounds) : Z := py (origin b).
Definition bottom (b : Bounds) : Z := py (origin b) + height (size b).
Definition left_ (b : Bounds) : Z := px (origin b).
Definition right_ (b : Bounds) : Z := px (origin b) + width (size b).

Definition top_right (b : Bounds) : Point := mkPoint (px (origin b) + width (size b)) (py (origin b)).

Definition bottom_right (b : Bounds) : Point :=
  mkPoint (px (origin b) + width (size b)) (py (origin b) + height (size b)).

Definition bottom_left (b : Bounds) : Point := mkPoint (px (origin b)) (py (origin b) + height (size b)).

Definition corner (b : Bounds) (c : Corner) : Point :=
  match c with
  | TopLeft => origin b
  | TopRight => top_right b
  | BottomLeft => bottom_left b
  | BottomRight => bottom_right b
  end.

Definition from_corners (top_left bottom_right : Point) : Bounds :=
  mkBounds (mkPoint (px top_left) (py top_left))
    (mkSize (px bottom_right - px top_left) (py bottom_right - py top_left)).

Definition from_corner_and_size (c : Corner) (origin : Point) (s : Size) : Bounds :=
  let origin := match c with
                | TopLeft => origin
                | TopRight => mkPoint (px origin - width s) (py origin)
                | BottomLeft => mkPoint (px origin) (py origin - height s)
                | BottomRight => mkPoint (px origin - width s) (py origin - height s)
                end in
  mkBounds origin s.

Definition centered_at (center : Point) (s : Size) : Bounds :=
  mkBounds (mkPoint (px center - half (width s)) (py center - half (height s))) s.

Definition center (b : Bounds) : Point :=
  mkPoint (px (origin b) + half (width (size b))) (py (origin b) + half (height (size b))).

Definition intersects (a b : Bounds) : bool :=
  let my_lower_right := bottom_right a in
  let their_lower_right := bottom_right b in
  (px (origin a) <? px their_lower_right) && (px my_lower_right >? px (origin b)) &&
  (py (origin a) <? py their_lower_right) && (py my_lower_right >? py (origin b)).

Definition half_perimeter (b : Bounds) : Z := width (size b) + height (size b).

Definition dilate (b : Bounds) (amount : Z) : Bounds :=
  let double_amount := amount + amount in
  mkBounds (point_sub (origin b) (mkPoint amount amount)) (size_add (size b) (mkSize double_amount double_amount)).

Definition contract (b : Bounds) (amount : Z) : Bounds :=
  let double_amount := amount + amount in
  mkBounds (point_add (origin b) (mkPoint amount amount))
    (mkSize (width (size b) - double_amount) (height (size b) - double_amount)).

Definition extend (b : Bounds) (amount : Edges) : Bounds :=
  mkBounds (point_sub (origin b) (mkPoint (left_edge amount) (top_edge amount)))
    (size_add (size b) (mkSize (left_edge amount + right_edge amount) (top_edge amount + bottom_edge amount))).

Definition inset (b : Bounds) (amount : Z) : Bounds := dilate b (- amount).

Definition intersect (a b : Bounds) : Bounds :=
  from_corners (point_max (origin a) (origin b)) (point_min (bottom_right a) (bottom_right b)).

Definition union (a b : Bounds) : Bounds :=
  from_corners (point_min (origin a) (origin b)) (point_max (bottom_right a) (bottom_right b)).

Definition space_within (b outer : Bounds) : Edges :=
  mkEdges (top b - top outer) (right_ outer - right_ b) (bottom outer - bottom b) (left_ b - left_ outer).

Definition contains (b : Bounds) (p : Point) : bool :=
  (px p >=? px (origin b)) && (px p <=? px (origin b) + width (size b)) &&
  (py p >=? py (origin b)) && (py p <=? py (origin b) + height (size b)).

Definition is_contained_within (b other : Bounds) : bool :=
  contains other (origin b) && contains other (bottom_right b).

Definition localize (b : Bounds) (p : Point) : option Point :=
  if contains b p then Some (relative_to p (origin b)) else None.

Definition is_empty (b : Bounds) : bool := (width (size b) <=? 0) || (height (size b) <=? 0).

(** ** Corners *)

Definition opposite_corner (c : Corner) : Corner :=
  match c with
  | TopLeft => BottomRight
  | TopRight => BottomLeft
  | BottomLeft => TopRight
  | BottomRight => TopLeft
  end.

Definition other_side_corner_along (c : Corner) (axis : Axis) : Corner :=
  match axis with
  | Vertical =>
      match c with
      | TopLeft => BottomLeft
      | TopRight => BottomRight
      | BottomLeft => TopLeft
      | BottomRight => TopRight
      end
  | Horizontal =>
      match c with
      | TopLeft => TopRight
      | TopRight => TopLeft
      | BottomLeft => BottomRight
      | BottomRight => BottomLeft
      end
  end.

Definition is_bottom (c : Corner) : bool :=
  match c with BottomLeft | BottomRight => true | _ => false end.

Definition corner_radius (cs : Corners) (c : Corner) : Z :=
  match c with
  | TopLeft => top_left_radius cs
  | TopRight => top_right_radius cs
  | BottomLeft => bottom_left_radius cs
  | BottomRight => bottom_right_radius cs
  end.

Definition corners_max (cs : Corners) : Z :=
  Z.max (Z.max (Z.max (top_left_radius cs) (top_right_radius cs)) (bottom_right_radius cs)) (bottom_left_radius cs).

Definition clamp_radii_for_quad_size (cs : Corners) (s : Size) : Corners :=
  let max := half (Z.min (width s) (height s)) in
  mkCorners (Z.min (top_left_radius cs) max) (Z.min (top_right_radius cs) max)
    (Z.min (bottom_right_radius cs) max) (Z.min (bottom_left_radius cs) max).

(** ** Facts the other components use *)

(** [outer] covers [inner]. *)
Definition covers (outer inner : Bounds) : Prop :=
  px (origin outer) <= px (origin inner) /\ py (origin outer) <= py (origin inner) /\
  px (bottom_right inner) <= px (bottom_right outer) /\
  py (bottom_right inner) <= py (bottom_right outer).

Lemma covers_refl b : covers b b.
Proof. unfold covers. lia. Qed.

Lemma covers_trans a b c : covers a b -> covers b c -> covers a c.
Proof. unfold covers. lia. Qed.

Lemma point_max_spec a b : point_max a b = mkPoint (Z.max (px a) (px b)) (Z.max (py a) (py b)).
Proof. unfold point_max. f_equal; rewrite Z.gtb_ltb; destruct (Z.ltb_spec (px b) (px a)), (Z.ltb_spec (py b) (py a)); lia. Qed.

Lemma point_min_spec a b : point_min a b = mkPoint (Z.min (px a) (px b)) (Z.min (py a) (py b)).
Proof. unfold point_min. f_equal; destruct (Z.leb_spec (px a) (px b)), (Z.leb_spec (py a) (py b)); lia. Qed.

Lemma covers_union_l a b : covers (union a b) a.
Proof. unfold covers, union. rewrite point_min_spec, point_max_spec. simpl. lia. Qed.

Lemma covers_union_r a b : covers (union a b) b.
Proof. unfold covers, union. rewrite point_min_spec, point_max_spec. simpl. lia. Qed.

(** Spatial pruning loses nothing. *)
Lemma intersects_covers q outer inner :
  covers outer inner -> intersects q inner = true -> intersects q outer = true.
Proof. unfold covers, intersects. intros Hc. rewrite !andb_true_iff. lia. Qed.

Lemma intersects_comm a b : intersects a b = intersects b a.
Proof. unfold intersects. apply eq_true_iff_eq. rewrite !andb_true_iff. lia. Qed.

(** ** Bounds as sets of points *)

(** Unfolds the operations on bounds and solves by linear arithmetic. *)
Ltac bounds_lia :=
  unfold is_contained_within, contains, intersects, is_empty, intersect, union, covers, from_corners;
  rewrite ?point_min_spec, ?point_max_spec; unfold bottom_right; cbn [px py origin size width height];
  lia.

(** Bounds as closed sets of points: the points of [intersect] are the points of
    both bounds, whether or not they meet; [union] contains the points of both, and is
    contained in all bounds that contain two non-empty ones; for bounds that are not
    empty, [intersects] tells exactly whether [intersect] is not empty, and
    [is_contained_within] whether one set of points is included in the other. *)
Theorem bounds_sets_correct a b :
  (forall p, contains (intersect a b) p = contains a p && contains b p) /\
  (forall p, contains a p || contains b p = true -> contains (union a b) p = true) /\
  (is_empty a = false -> is_empty b = false ->
    intersects a b = negb (is_empty (intersect a b)) /\
    (forall c, is_contained_within a c = true -> is_contained_within b c = true ->
       is_contained_within (union a b) c = true) /\
    (is_contained_within a b = true <-> forall p, contains a p = true -> contains b p = true)).
Proof.
  split; [|split].
  - intros p. apply eq_true_iff_eq. bounds_lia.
  - intros p. bounds_lia.
  - intros Ha Hb. unfold is_empty in Ha, Hb. split; [|split].
    + apply eq_true_iff_eq. bounds_lia.
    + intros c. bounds_lia.
    + split; [intros H p; revert H; bounds_lia|]. intros H.
      pose proof (H (origin a)) as H1. pose proof (H (bottom_right a)) as H2. revert H1 H2. bounds_lia.
Qed.

Lemma bounds_sets_correct_witness :
  let a := mkBounds (mkPoint 0 0) (mkSize 10 10) in
  let b := mkBounds (mkPoint 5 5) (mkSize 15 15) in
  intersects a b = negb (is_empty (intersect a b)).
Proof. intros a b. destruct (bounds_sets_correct a b) as (_ & _ & H). apply H; reflexivity. Defined.

(** The doc of [intersect] promises a size of zero for bounds that do not meet. *)
Lemma intersect_apart_negative :
  intersect (mkBounds (mkPoint 0 0) (mkSize 10 10)) (mkBounds (mkPoint 30 0) (mkSize 10 10)) =
  mkBounds (mkPoint 30 0) (mkSize (-20) 10).
Proof. reflexivity. Qed.

(** The constructions of bounds undo each other: bounds are rebuilt from their
    top left and bottom right corners and from any corner and their size;
    [contract], [inset] and a negative [dilate] undo [dilate]; extending bounds by the
    space within others gives the others; a point that [localize] accepts is the
    origin plus the local point; moving to the other side along both axes is the
    opposite corner. *)
Theorem bounds_roundtrips b :
  from_corners (origin b) (bottom_right b) = b /\
  (forall c, from_corner_and_size c (corner b c) (size b) = b /\
             forall o s, corner (from_corner_and_size c o s) c = o) /\
  centered_at (center b) (size b) = b /\
  (forall n, contract (dilate b n) n = b /\ inset (dilate b n) n = b /\ inset b n = contract b n) /\
  (forall outer, extend b (space_within b outer) = outer) /\
  (forall p q, localize b p = Some q <-> contains b p = true /\ point_add (origin b) q = p) /\
  (forall c axis, other_side_corner_along (other_side_corner_along c axis) axis = c /\
     other_side_corner_along (other_side_corner_along c axis) (axis_invert axis) = opposite_corner c).
Proof.
  destruct b as [[x y] [w h]].
  split; [unfold from_corners; simpl; repeat f_equal; lia|].
  split; [intros []; (split; [|intros [? ?] [? ?]]); unfold from_corner_and_size, corner, top_right, bottom_left, bottom_right; simpl;
            repeat f_equal; lia|].
  split; [unfold centered_at, center; simpl; repeat f_equal; lia|].
  split; [intros n; unfold contract, inset, dilate, point_add, point_sub, size_add; simpl; split_and!; repeat f_equal; lia|].
  split; [intros [[ox oy] [ow oh]]; unfold extend, space_within, point_sub, size_add, top, bottom, left_, right_; simpl;
            repeat f_equal; lia|].
  split; [|by intros [] []].
  intros [p1 p2] [q1 q2]. unfold localize, relative_to, point_add. destruct (contains _ _); simpl; [|naive_solver].
  split; [intros [= <- <-]; split; [done|]; f_equal; lia|intros [_ [= <- <-]]; f_equal; f_equal; lia].
Qed.
