(* ===== verification/WindowPosition.v ===== *)
(** * Semantic window positions: [crates/gpui/src/platform/window_positioner.rs]

    [compute_window_bounds] places a window of a given size on a display, by the
    centre, by a corner or under the tray icon.  A display is what the function reads
    of [PlatformDisplay]: its identifier and visible bounds.  The multiplication by
    0.5 is [half]. *)

From stdpp Require Import base list option numbers.
From S2P Require Import Prelude Geometry.

Local Open Scope Z_scope.

Definition DisplayId : Type := Z.

Record PlatformDisplay := mkDisplay { display_id : DisplayId; visible_bounds : Bounds }.

(** [TrayAnchor] *)
Record TrayAnchor := mkTrayAnchor { anchor_display_id : DisplayId; anchor_bounds : Bounds }.

Inductive WindowPosition :=
| Center
| CenterOnDisplay (id : DisplayId)
| TrayCenter (tray_bounds : Bounds)
| TrayAnchored (anchor : TrayAnchor)
| PositionTopRight (margin : Z)
| PositionBottomRight (margin : Z)
| PositionTopLeft (margin : Z)
| PositionBottomLeft (margin : Z).

Definition center_in (s : Size) (display : Bounds) : Bounds :=
  let x := px (origin display) + half (width (size display) - width s) in
  let y := py (origin display) + half (height (size display) - height s) in
  mkBounds (mkPoint x y) s.

Definition corner_position (s : Size) (primary_display : option PlatformDisplay) (margin : Z) (at_right at_bottom : bool)
    : Bounds :=
  match primary_display with
  | Some display =>
      let db := visible_bounds display in
      let x := if at_right then px (origin db) + width (size db) - width s - margin else px (origin db) + margin in
      let y := if at_bottom then py (origin db) + height (size db) - height s - margin else py (origin db) + margin in
      mkBounds (mkPoint x y) s
  | None => mkBounds (mkPoint 0 0) s
  end.

Definition under_tray (s : Size) (tray_bounds : Bounds) : Bounds :=
  let x := px (origin tray_bounds) + half (width (size tray_bounds) - width s) in
  let y := py (origin tray_bounds) + height (size tray_bounds) in
  mkBounds (mkPoint x y) s.

Definition compute_window_bounds (s : Size) (position : WindowPosition) (displays : list PlatformDisplay)
    (primary_display : option PlatformDisplay) : Bounds :=
  match position with
  | Center =>
      match primary_display with
      | Some display => center_in s (visible_bounds display)
      | None => mkBounds (mkPoint 0 0) s
      end
  | CenterOnDisplay id =>
      match option_map visible_bounds (List.find (fun d => display_id d =? id) displays) with
      | Some bounds => center_in s bounds
      | None =>
          match primary_display with
          | Some display => center_in s (visible_bounds display)
          | None => mkBounds (mkPoint 0 0) s
          end
      end
  | TrayCenter tray_bounds => under_tray s tray_bounds
  | TrayAnchored anchor => under_tray s (anchor_bounds anchor)
  | PositionTopRight margin => corner_position s primary_display margin true false
  | PositionBottomRight margin => corner_position s primary_display margin true true
  | PositionTopLeft margin => corner_position s primary_display margin false false
  | PositionBottomLeft margin => corner_position s primary_display margin false true
  end.

(** ** Specification *)

(** The display a position refers to, if it refers to one that exists. *)
Definition target_display (position : WindowPosition) (displays : list PlatformDisplay)
    (primary_display : option PlatformDisplay) : option PlatformDisplay :=
  match position with
  | CenterOnDisplay id =>
      match List.find (fun d => display_id d =? id) displays with Some d => Some d | None => primary_display end
  | TrayCenter _ | TrayAnchored _ => None
  | _ => primary_display
  end.

(** Two opposite spaces that differ by the pixel that does not divide. *)
Definition balanced (a b : Z) : Prop := - 1 <= a - b <= 1.

(** The spaces a placed window leaves to the edges of the display. *)
Definition placed (position : WindowPosition) (space : Edges) : Prop :=
  match position with
  | Center | CenterOnDisplay _ =>
      balanced (left_edge space) (right_edge space) /\ balanced (top_edge space) (bottom_edge space)
  | PositionTopRight margin => right_edge space = margin /\ top_edge space = margin
  | PositionBottomRight margin => right_edge space = margin /\ bottom_edge space = margin
  | PositionTopLeft margin => left_edge space = margin /\ top_edge space = margin
  | PositionBottomLeft margin => left_edge space = margin /\ bottom_edge space = margin
  | TrayCenter _ | TrayAnchored _ => False
  end.

(** The margin asked for. *)
Definition margin_of (position : WindowPosition) : Z :=
  match position with
  | PositionTopRight m | PositionBottomRight m | PositionTopLeft m | PositionBottomLeft m => m
  | _ => 0
  end.

(** The window fits in the display with the margin asked for. *)
Definition fits (s : Size) (margin : Z) (display : Bounds) : Prop :=
  0 <= width s /\ 0 <= height s /\ 0 <= margin /\
  width s + margin <= width (size display) /\ height s + margin <= height (size display).

Lemma half_bounds x : - 1 <= x - 2 * half x <= 1.
Proof. unfold half. pose proof (Z.quot_rem' x 2). pose proof (Z.rem_bound_abs x 2). lia. Qed.

Lemma half_nonneg x : 0 <= x -> 0 <= half x.
Proof. intros H. unfold half. by apply Z.quot_pos. Qed.

Lemma center_in_ok s b :
  let space := space_within (center_in s b) b in
  balanced (left_edge space) (right_edge space) /\ balanced (top_edge space) (bottom_edge space) /\
  (fits s 0 b -> is_contained_within (center_in s b) b = true).
Proof.
  unfold balanced, fits, is_contained_within, contains, bottom_right, space_within, top, bottom, left_, right_.
  destruct b as [[x y] [w h]], s as [sw sh]. cbn.
  pose proof (half_bounds (w - sw)). pose proof (half_bounds (h - sh)).
  pose proof (half_nonneg (w - sw)). pose proof (half_nonneg (h - sh)). lia.
Qed.

(** A window placed on a display has the size asked for; centred windows leave
    opposite spaces that differ by at most one pixel, windows in a corner leave exactly
    the margin to the two edges of that corner, and a window that fits in the visible
    bounds with its margin lies within them.  A window under the tray icon is centred
    under it, and without a display the origin is the position. *)
Theorem window_bounds_correct s position displays primary :
  let b := compute_window_bounds s position displays primary in
  size b = s /\
  match target_display position displays primary with
  | Some d =>
      placed position (space_within b (visible_bounds d)) /\
      (fits s (margin_of position) (visible_bounds d) -> is_contained_within b (visible_bounds d) = true)
  | None =>
      match position with
      | TrayCenter tray | TrayAnchored (mkTrayAnchor _ tray) =>
          top b = bottom tray /\ balanced (left_ b - left_ tray) (right_ tray - right_ b)
      | _ => origin b = mkPoint 0 0
      end
  end.
Proof.
  intros b. subst b. split; [by destruct position, primary; cbn; try destruct (List.find _ _)|].
  assert (Hc : forall d, let b := center_in s (visible_bounds d) in
    (let space := space_within b (visible_bounds d) in
     balanced (left_edge space) (right_edge space) /\ balanced (top_edge space) (bottom_edge space)) /\
    (fits s 0 (visible_bounds d) -> is_contained_within b (visible_bounds d) = true)).
  { intros d. destruct (center_in_ok s (visible_bounds d)) as (? & ? & ?). done. }
  destruct position as [|id|tray|[aid tray]|m|m|m|m]; cbn [target_display compute_window_bounds placed margin_of].
  1: destruct primary; [apply Hc|done].
  1: destruct (List.find _ _); cbn [option_map]; [apply Hc|destruct primary; [apply Hc|done]].
  1-2: unfold balanced, top, bottom, left_, right_; cbn; pose proof (half_bounds (width (size tray) - width s)); lia.
  all: unfold corner_position; destruct primary as [d|]; [|done];
    unfold fits, is_contained_within, contains, bottom_right, space_within, top, bottom, left_, right_; cbn; lia.
Qed.

(** A run. *)
Example window_bottom_right :
  compute_window_bounds (mkSize 200 100) (PositionBottomRight 10) []
    (Some (mkDisplay 1 (mkBounds (mkPoint 0 40) (mkSize 1000 700)))) =
  mkBounds (mkPoint 790 630) (mkSize 200 100).
Proof. reflexivity. Qed.
