(* ===== verification/BoundsTree.v ===== *)
(** * The z-order of quads: [crates/gpui/src/bounds_tree.rs]

    [BoundsTree] assigns every quad painted in a frame an order greater than that
    of all earlier quads it intersects.  Its nodes lie in one vector and refer to
    each other by index; an insertion descends from the root, and then updates the
    nodes of its path.  The tree is proved against the plain list of the quads
    inserted so far.

    The coordinates are those of Geometry: integers.  With floating point numbers a
    union may round.  Orders are [u32] and wrap. *)

From stdpp Require Import base list option numbers.
From S2P Require Import Prelude Geometry.

#[local] Set Warnings "-register-all,-clear-no-such-hyp".

(** ** The tree *)

Definition MAX_CHILDREN : nat := 12.

Arguments MAX_CHILDREN : simpl never.

(** [struct NodeChildren]: the indices in use. *)
Definition NodeChildren : Type := list nat.

Inductive NodeKind :=
| KLeaf (order : Z)
| KInternal (children : NodeChildren).

Record Node := mkNode {
  bounds : Bounds;
  max_order : Z;
  kind : NodeKind;
}.

(** The pointers of [search_stack] are indices of the vector. *)
Record BoundsTree := mkBoundsTree {
  nodes : list Node;
  root : option nat;
  max_leaf : option nat;
  insert_path : list nat;
  search_stack : list nat;
}.

Definition bounds_tree_default : BoundsTree := mkBoundsTree [] None None [] [].

Definition bounds_tree_clear (t : BoundsTree) : BoundsTree := mkBoundsTree [] None None [] [].

(** [NodeChildren::push] *)
Definition children_push (children : NodeChildren) (i : nat) : outcome NodeChildren :=
  if length children <? MAX_CHILDREN then Ok (children ++ [i]) else Panic.

(** [indices.swap(a, b)] *)
Definition swap {A} (l : list A) (a b : nat) : outcome (list A) :=
  let! x := index l a in
  let! y := index l b in
  Ok (<[b := x]> (<[a := y]> l)).

(** [u32] addition, which wraps in release builds. *)
Definition u32_add (a b : Z) : Z := (a + b) mod 2 ^ 32.

(** The indexed update [self.nodes[i] = f(self.nodes[i])]. *)
Definition update_node (ns : list Node) (i : nat) (f : Node -> outcome Node) : outcome (list Node) :=
  let! n := index ns i in
  let! n := f n in
  Ok (<[i := n]> ns).

Fixpoint index_all (ns : list Node) (ixs : list nat) : outcome (list (nat * Node)) :=
  match ixs with
  | [] => Ok []
  | i :: ixs => let! n := index ns i in let! l := index_all ns ixs in Ok ((i, n) :: l)
  end.

(** The loop of [find_max_ordering]; the head of the stack is its top. *)
Fixpoint search_loop (fuel : nat) (ns : list Node) (query : Bounds) (stack : list nat) (max_found : Z)
    : outcome Z :=
  match stack with
  | [] => Ok max_found
  | i :: stack =>
      match fuel with
      | 0 => OutOfFuel
      | Datatypes.S fuel =>
          let! node := index ns i in
          if (max_order node <=? max_found)%Z then search_loop fuel ns query stack max_found
          else if negb (intersects query (bounds node)) then search_loop fuel ns query stack max_found
          else match kind node with
               | KLeaf order => search_loop fuel ns query stack (Z.max max_found order)
               | KInternal children =>
                   let! l := index_all ns children in
                   let pushed := map fst (List.filter (fun p => (max_order p.2 >? max_found)%Z) l) in
                   search_loop fuel ns query (rev pushed ++ stack) max_found
               end
      end
  end.

(** The slow path leaves the search stack empty. *)
Definition search_tree (t : BoundsTree) (query : Bounds) (root_idx : nat) : outcome (BoundsTree * Z) :=
  let! max_found := search_loop (length (nodes t) + 1) (nodes t) query [root_idx] 0%Z in
  Ok (mkBoundsTree (nodes t) (root t) (max_leaf t) (insert_path t) [], max_found).

Definition find_max_ordering (t : BoundsTree) (query : Bounds) : outcome (BoundsTree * Z) :=
  match root t with
  | None => Ok (t, 0%Z)
  | Some root_idx =>
      match max_leaf t with
      | Some max_idx =>
          let! max_node := index (nodes t) max_idx in
          if intersects query (bounds max_node) then Ok (t, max_order max_node)
          else search_tree t query root_idx
      | None => search_tree t query root_idx
      end
  end.

Definition is_leaf_kind (k : NodeKind) : bool :=
  match k with KLeaf _ => true | KInternal _ => false end.

(** The best child: position, index and cost of the cheapest union, the first among
    equals. *)
Fixpoint best_child (b : Bounds) (l : list (nat * Node)) (pos : nat) (best : nat * nat * Z)
    : nat * nat * Z :=
  match l with
  | [] => best
  | (i, n) :: l =>
      let cost := half_perimeter (union b (bounds n)) in
      best_child b l (pos + 1) (if (cost <? best.2)%Z then (pos, i, cost) else best)
  end.

(** The pair of children of a new internal node, the greater order last. *)
Definition pair_children (old new : nat) (order old_order : Z) : outcome NodeChildren :=
  if (order >? old_order)%Z then
    let! c := children_push [] old in children_push c new
  else let! c := children_push [] new in children_push c old.

(** Adding the new leaf to a node with room. *)
Definition add_leaf_child (b : Bounds) (order : Z) (new_leaf_idx : nat) (n : Node) : outcome Node :=
  let! kind :=
    (match kind n with
     | KInternal children =>
         let! children := children_push children new_leaf_idx in
         let! children :=
           (if (order <=? max_order n)%Z then
              let! last := usize_pred (length children) in
              let! before := usize_pred last in
              swap children before last
            else Ok children) in
         Ok (KInternal children)
     | k => Ok k
     end) in
  Ok (mkNode (union (bounds n) b) (Z.max (max_order n) order) kind).

(** Replacing the best leaf of a full node by a new internal node. *)
Definition replace_child (pos new_internal_idx : nat) (new_internal_max : Z) (n : Node) : outcome Node :=
  match kind n with
  | KInternal children =>
      let! _ := index children pos in
      let children' := <[pos := new_internal_idx]> children in
      let! children' :=
        (if (new_internal_max >? max_order n)%Z then
           let! last := usize_pred (length children) in swap children' pos last
         else Ok children') in
      Ok (mkNode (bounds n) (max_order n) (KInternal children'))
  | _ => Ok n
  end.

(** The loop that descends to the node to insert into; it returns the nodes and
    the path, the last node first. *)
Fixpoint descend (fuel : nat) (ns : list Node) (b : Bounds) (order : Z) (new_leaf_idx current_idx : nat)
    (path : list nat) : outcome (list Node * list nat) :=
  match fuel with
  | 0 => OutOfFuel
  | Datatypes.S fuel =>
      let! current := index ns current_idx in
      match kind current with
      | KLeaf _ => Panic
      | KInternal children =>
          let path := current_idx :: path in
          let! l := index_all ns children in
          match l with
          | [] => Panic
          | (i0, n0) :: l =>
              let '(pos, best_idx, _) :=
                best_child b l 1 (0, i0, half_perimeter (union b (bounds n0))) in
              let! best := index ns best_idx in
              if is_leaf_kind (kind best) then
                if length children <? MAX_CHILDREN then
                  let! ns := update_node ns current_idx (add_leaf_child b order new_leaf_idx) in
                  Ok (ns, path)
                else
                  let! new_children := pair_children best_idx new_leaf_idx order (max_order best) in
                  let new_internal_idx := length ns in
                  let new_internal_max := Z.max (max_order best) order in
                  let ns := ns ++ [mkNode (union (bounds best) b) new_internal_max (KInternal new_children)] in
                  let! ns := update_node ns current_idx
                               (replace_child pos new_internal_idx new_internal_max) in
                  Ok (ns, path)
              else descend fuel ns b order new_leaf_idx best_idx path
          end
      end
  end.

(** Moving the updated child to the end. *)
Definition move_last (children : NodeChildren) (child : nat) : outcome NodeChildren :=
  match list_find (fun c => c = child) children with
  | Some (pos, _) =>
      let! last := usize_pred (length children) in
      if pos =? last then Ok children else swap children pos last
  | None => Ok children
  end.

(** The update of one node of the path. *)
Definition propagate_node (b : Bounds) (order : Z) (updated_child_idx : option nat) (n : Node) : outcome Node :=
  let n := mkNode (union (bounds n) b) (max_order n) (kind n) in
  if (max_order n <? order)%Z then
    let! kind :=
      (match updated_child_idx, kind n with
       | Some child, KInternal children =>
           let! children := move_last children child in Ok (KInternal children)
       | _, k => Ok k
       end) in
    Ok (mkNode (bounds n) order kind)
  else Ok n.

(** The loop that propagates bounds and orders up the path, the last node first. *)
Fixpoint propagate (b : Bounds) (order : Z) (ns : list Node) (path : list nat) (updated : option nat)
    : outcome (list Node) :=
  match path with
  | [] => Ok ns
  | i :: path =>
      let! ns := update_node ns i (propagate_node b order updated) in
      propagate b order ns path (Some i)
  end.

Definition insert_leaf (t : BoundsTree) (b : Bounds) (order : Z) : outcome (BoundsTree * nat) :=
  let new_leaf_idx := length (nodes t) in
  let ns := nodes t ++ [mkNode b order (KLeaf order)] in
  match root t with
  | None => Ok (mkBoundsTree ns (Some new_leaf_idx) (max_leaf t) (insert_path t) (search_stack t), new_leaf_idx)
  | Some root_idx =>
      let! r := index ns root_idx in
      if is_leaf_kind (kind r) then
        let! children := pair_children root_idx new_leaf_idx order (max_order r) in
        let new_root_idx := length ns in
        let ns := ns ++ [mkNode (union (bounds r) b) (Z.max (max_order r) order) (KInternal children)] in
        Ok (mkBoundsTree ns (Some new_root_idx) (max_leaf t) (insert_path t) (search_stack t), new_leaf_idx)
      else
        let! (ns, path) := descend (length ns) ns b order new_leaf_idx root_idx [] in
        let! ns := propagate b order ns path None in
        Ok (mkBoundsTree ns (root t) (max_leaf t) (rev path) (search_stack t), new_leaf_idx)
  end.

Definition bounds_insert (t : BoundsTree) (new_bounds : Bounds) : outcome (BoundsTree * Z) :=
  let! (t, max_intersecting) := find_max_ordering t new_bounds in
  let ordering := u32_add max_intersecting 1 in
  let! (t, new_leaf_idx) := insert_leaf t new_bounds ordering in
  let! max_leaf :=
    (match max_leaf t with
     | None => Ok (Some new_leaf_idx)
     | Some old_idx =>
         let! old := index (nodes t) old_idx in
         Ok (if (max_order old <? ordering)%Z then Some new_leaf_idx else Some old_idx)
     end) in
  Ok (mkBoundsTree (nodes t) (root t) max_leaf (insert_path t) (search_stack t), ordering).

Definition quad (x y w h : Z) : Bounds := mkBounds (mkPoint x y) (mkSize w h).

(** Inserting a list of quads: the orders assigned. *)
Fixpoint insert_all (t : BoundsTree) (bs : list Bounds) : outcome (BoundsTree * list Z) :=
  match bs with
  | [] => Ok (t, [])
  | b :: bs =>
      let! (t, o) := bounds_insert t b in
      let! (t, os) := insert_all t bs in
      Ok (t, o :: os)
  end.

(** The quads of the first test of bounds_tree.rs. *)
Example insert_test :
  (let! (_, os) := insert_all bounds_tree_default
     [quad 0 0 10 10; quad 5 5 10 10; quad 10 10 10 10; quad 20 20 10 10; quad 40 40 10 10;
      quad 25 25 10 10] in Ok os) = Ok [1; 2; 3; 1; 1; 2]%Z.
Proof. vm_compute. reflexivity. Qed.

(** ** The tree the vector represents *)

Inductive rtree :=
| RLeaf (i : nat) (b : Bounds) (o : Z)
| RNode (i : nat) (b : Bounds) (m : Z) (cs : list rtree).

Section RtreeInd.
Variable P : rtree -> Prop.
Hypothesis Hleaf : forall i b o, P (RLeaf i b o).
Hypothesis Hnode : forall i b m cs, Forall P cs -> P (RNode i b m cs).

(** Induction with the children. *)
Lemma rtree_induction : forall t, P t.
Proof.
  fix IH 1. intros [i b o|i b m cs]; [apply Hleaf|]. apply Hnode.
  induction cs as [|c cs IHcs]; constructor; [apply IH|exact IHcs].
Qed.
End RtreeInd.

Definition rt_idx (t : rtree) : nat := match t with RLeaf i _ _ | RNode i _ _ _ => i end.
Definition rt_bounds (t : rtree) : Bounds := match t with RLeaf _ b _ | RNode _ b _ _ => b end.
Definition rt_max (t : rtree) : Z := match t with RLeaf _ _ o => o | RNode _ _ m _ => m end.

Definition rt_node (t : rtree) : Node :=
  match t with
  | RLeaf _ b o => mkNode b o (KLeaf o)
  | RNode _ b m cs => mkNode b m (KInternal (map rt_idx cs))
  end.

Fixpoint indices (t : rtree) : list nat :=
  match t with
  | RLeaf i _ _ => [i]
  | RNode i _ _ cs => i :: flat_map indices cs
  end.

(** The quads in the tree and their orders. *)
Fixpoint leaves (t : rtree) : list (Bounds * Z) :=
  match t with
  | RLeaf _ b o => [(b, o)]
  | RNode _ _ _ cs => flat_map leaves cs
  end.

(** The tree lies in the vector. *)
Inductive stored (ns : list Node) : rtree -> Prop :=
| stored_leaf i b o : ns !! i = Some (mkNode b o (KLeaf o)) -> stored ns (RLeaf i b o)
| stored_node i b m cs :
    ns !! i = Some (mkNode b m (KInternal (map rt_idx cs))) -> Forall (stored ns) cs ->
    stored ns (RNode i b m cs).

(** Between 2 and [MAX_CHILDREN] children, covered by the node's bounds, whose
    orders the node's order bounds and the last child attains. *)
Inductive ordered : rtree -> Prop :=
| ordered_leaf i b o : ordered (RLeaf i b o)
| ordered_node i b m cs :
    2 <= length cs <= MAX_CHILDREN -> Forall ordered cs ->
    Forall (fun c => covers b (rt_bounds c) /\ (rt_max c <= m)%Z) cs ->
    (exists c, list.last cs = Some c /\ rt_max c = m) ->
    ordered (RNode i b m cs).

Lemma stored_lookup ns t : stored ns t -> ns !! rt_idx t = Some (rt_node t).
Proof. by destruct 1. Qed.

Lemma index_idx_in t : rt_idx t ∈ indices t.
Proof. destruct t; simpl; apply elem_of_cons; by left. Qed.

Lemma child_indices (cs : list rtree) c i : c ∈ cs -> i ∈ indices c -> i ∈ flat_map indices cs.
Proof.
  intros Hc Hi. apply list_elem_of_In, in_flat_map. exists c. by rewrite <- !list_elem_of_In.
Qed.

(** A tree depends on its own entries of the vector only. *)
Lemma stored_frame ns ns' t :
  stored ns t -> (forall i, i ∈ indices t -> ns' !! i = ns !! i) -> stored ns' t.
Proof.
  revert t. refine (rtree_induction _ _ _); simpl.
  - intros i b o H He. inversion H; subst. constructor. rewrite He; [done|]. apply elem_of_cons. by left.
  - intros i b m cs IH H He. inversion H as [|? ? ? ? Hn Hcs]; subst. constructor.
    + rewrite He; [done|]. apply elem_of_cons. by left.
    + rewrite Forall_elem in IH, Hcs |- *. intros c Hc. apply IH; [done|by apply Hcs|].
      intros j Hj. apply He. apply elem_of_cons. right. exact (child_indices cs c j Hc Hj).
Qed.

Lemma stored_bound ns t i : stored ns t -> i ∈ indices t -> i < length ns.
Proof.
  revert t. refine (rtree_induction _ _ _); simpl.
  - intros j b o H Hi. inversion H; subst. apply list_elem_of_singleton in Hi as ->.
    by eapply lookup_lt_Some.
  - intros j b m cs IH H Hi. inversion H as [|? ? ? ? Hn Hcs]; subst.
    apply elem_of_cons in Hi as [->|Hi]; [by eapply lookup_lt_Some|].
    apply list_elem_of_In, in_flat_map in Hi as (c & Hc & Hi). apply list_elem_of_In in Hc. apply list_elem_of_In in Hi.
    rewrite Forall_elem in IH, Hcs. apply (IH c); auto.
Qed.

Lemma stored_app ns ns' t : stored ns t -> stored (ns ++ ns') t.
Proof.
  intros H. apply (stored_frame ns); [done|]. intros i Hi. apply lookup_app_l.
  by eapply stored_bound.
Qed.

Lemma ordered_children i b m cs c :
  ordered (RNode i b m cs) -> c ∈ cs -> ordered c /\ covers b (rt_bounds c) /\ (rt_max c <= m)%Z.
Proof.
  inversion 1 as [|? ? ? ? Hlen Ho Hc Hl]; subst. rewrite Forall_elem in Ho, Hc. intros Hin.
  split; [by apply Ho|by apply Hc].
Qed.

(** The bounds and the order of a node bound those of its leaves. *)
Lemma leaves_bounded t :
  ordered t -> Forall (fun l => covers (rt_bounds t) l.1 /\ (l.2 <= rt_max t)%Z) (leaves t).
Proof.
  revert t. refine (rtree_induction _ _ _); simpl.
  - intros i b o _. constructor; [|done]. simpl. split; [apply covers_refl|lia].
  - intros i b m cs IH Ho. apply Forall_flat_map_elem. rewrite Forall_elem in IH. apply Forall_elem.
    intros c Hc. destruct (ordered_children _ _ _ _ _ Ho Hc) as (Hoc & Hcov & Hm).
    eapply Forall_weaken; [|by apply IH]. intros l [Hl1 Hl2]. split; [|lia].
    by eapply covers_trans.
Qed.

(** *** The specification of the search *)

(** The greatest order among the quads that intersect the query, or 0. *)
Fixpoint max_hit (q : Bounds) (l : list (Bounds * Z)) : Z :=
  match l with
  | [] => 0
  | (b, o) :: l => if intersects q b then Z.max o (max_hit q l) else max_hit q l
  end.

Lemma max_hit_nonneg q l : (0 <= max_hit q l)%Z.
Proof. induction l as [|[b o] l IH]; simpl; [lia|]. destruct (intersects q b); lia. Qed.

Lemma max_hit_app q l1 l2 : max_hit q (l1 ++ l2) = Z.max (max_hit q l1) (max_hit q l2).
Proof.
  pose proof (max_hit_nonneg q l2). induction l1 as [|[b o] l1 IH]; simpl; [lia|].
  rewrite IH. destruct (intersects q b); lia.
Qed.

Lemma max_hit_perm q l1 l2 : l1 ≡ₚ l2 -> max_hit q l1 = max_hit q l2.
Proof.
  induction 1 as [|[b o] l1 l2 _ IH|[b1 o1] [b2 o2] l|l1 l2 l3 _ IH1 _ IH2]; simpl; [done| | |congruence].
  - by rewrite IH.
  - destruct (intersects q b1), (intersects q b2); lia.
Qed.

Lemma max_hit_le q l m : (0 <= m)%Z -> Forall (fun x => (x.2 <= m)%Z) l -> (max_hit q l <= m)%Z.
Proof.
  intros Hm. induction 1 as [|[b o] l Hx _ IH]; simpl in *; [done|]. destruct (intersects q b); lia.
Qed.

Lemma max_hit_none q l : Forall (fun x => intersects q x.1 = false) l -> max_hit q l = 0%Z.
Proof. induction 1 as [|[b o] l Hx _ IH]; simpl in *; [done|]. by rewrite Hx. Qed.

Lemma max_hit_in q l b o : (b, o) ∈ l -> intersects q b = true -> (o <= max_hit q l)%Z.
Proof.
  induction l as [|[b' o'] l IH]; [by intros ?%elem_of_nil|]. intros [[= -> ->]|Hin]%elem_of_cons Hi; simpl.
  - rewrite Hi. lia.
  - specialize (IH Hin Hi). destruct (intersects q b'); lia.
Qed.

Definition hits (q : Bounds) (ts : list rtree) : Z := max_hit q (flat_map leaves ts).

Lemma hits_app q ts1 ts2 : hits q (ts1 ++ ts2) = Z.max (hits q ts1) (hits q ts2).
Proof. unfold hits. by rewrite flat_map_app, max_hit_app. Qed.

Lemma hits_rev q ts : hits q (rev ts) = hits q ts.
Proof. unfold hits. apply max_hit_perm. by rewrite <- Permutation_rev. Qed.

(** A subtree that cannot improve the result, or does not intersect. *)
Lemma hits_pruned q t mf :
  ordered t -> (0 <= mf)%Z -> (rt_max t <= mf)%Z \/ intersects q (rt_bounds t) = false ->
  (max_hit q (leaves t) <= mf)%Z.
Proof.
  intros Ho Hmf Hp. pose proof (leaves_bounded t Ho) as Hl. destruct Hp as [Hp|Hp].
  - apply max_hit_le; [done|]. eapply Forall_weaken; [|exact Hl]. intros x [_ Hx]. lia.
  - rewrite max_hit_none; [done|]. eapply Forall_weaken; [|exact Hl]. intros x [Hx _].
    destruct (intersects q x.1) eqn:E; [|done]. by rewrite (intersects_covers _ _ _ Hx E) in Hp.
Qed.

Lemma hits_filter q ts mf :
  Forall ordered ts -> (0 <= mf)%Z ->
  Z.max mf (hits q (List.filter (fun t => (rt_max t >? mf)%Z) ts)) = Z.max mf (hits q ts).
Proof.
  intros Ho Hmf. induction Ho as [|t ts Ht _ IH]; [done|]. simpl.
  assert (Hc : forall us, hits q (t :: us) = Z.max (max_hit q (leaves t)) (hits q us))
    by (intros us; unfold hits; simpl; by rewrite max_hit_app).
  rewrite Hc. destruct (rt_max t >? mf)%Z eqn:E.
  - rewrite Hc. lia.
  - pose proof (hits_pruned q t mf Ht Hmf ltac:(left; lia)). lia.
Qed.

Fixpoint rt_size (t : rtree) : nat :=
  match t with
  | RLeaf _ _ _ => 1
  | RNode _ _ _ cs => 1 + list_sum (map rt_size cs)
  end.

Lemma indices_size t : length (indices t) = rt_size t.
Proof.
  revert t. refine (rtree_induction _ _ _); simpl; [done|]. intros i b m cs IH. f_equal.
  induction IH as [|c cs Hc _ IH]; simpl; [done|]. by rewrite length_app, Hc, IH.
Qed.

Lemma sizes_filter_rev (p : rtree -> bool) ts :
  list_sum (map rt_size (rev (List.filter p ts))) <= list_sum (map rt_size ts).
Proof.
  induction ts as [|t ts IH]; simpl; [done|]. destruct (p t); simpl; [|lia].
  rewrite map_app, list_sum_app. simpl. lia.
Qed.

Lemma index_all_ok ns cs :
  Forall (stored ns) cs -> index_all ns (map rt_idx cs) = Ok (map (fun c => (rt_idx c, rt_node c)) cs).
Proof.
  induction 1 as [|c cs Hc _ IH]; simpl; [done|].
  rewrite (index_Ok _ _ _ (stored_lookup _ _ Hc)). cbn [obind]. by rewrite IH.
Qed.

Lemma max_order_rt_node c : max_order (rt_node c) = rt_max c.
Proof. by destruct c. Qed.

Lemma bounds_rt_node c : bounds (rt_node c) = rt_bounds c.
Proof. by destruct c. Qed.

Lemma search_loop_ok ns q ts mf fuel :
  Forall (stored ns) ts -> Forall ordered ts -> (0 <= mf)%Z -> list_sum (map rt_size ts) <= fuel ->
  search_loop fuel ns q (map rt_idx ts) mf = Ok (Z.max mf (hits q ts)).
Proof.
  revert ts mf. induction fuel as [|fuel IH]; intros [|t ts] mf Hst Ho Hmf Hf.
  - unfold hits. simpl. f_equal. lia.
  - simpl in Hf. destruct t; simpl in Hf; lia.
  - unfold hits. simpl. f_equal. lia.
  - apply Forall_cons_iff in Hst as [Ht Hst]. apply Forall_cons_iff in Ho as [Hot Ho].
    assert (Hsz : list_sum (map rt_size ts) + 1 <= Datatypes.S fuel)
      by (simpl in Hf; destruct t; simpl in Hf; lia).
    assert (Hc : hits q (t :: ts) = Z.max (max_hit q (leaves t)) (hits q ts))
      by (unfold hits; simpl; by rewrite max_hit_app).
    cbn [map search_loop]. rewrite (index_Ok _ _ _ (stored_lookup _ _ Ht)). cbn [obind].
    rewrite max_order_rt_node, bounds_rt_node. destruct (rt_max t <=? mf)%Z eqn:Em.
    + rewrite IH by (done || lia). pose proof (hits_pruned q t mf Hot Hmf ltac:(left; lia)). f_equal. lia.
    + destruct (intersects q (rt_bounds t)) eqn:Ei; simpl negb; cbn iota.
      2: { rewrite IH by (done || lia). pose proof (hits_pruned q t mf Hot Hmf ltac:(by right)). f_equal. lia. }
      destruct t as [i b o|i b m cs]; simpl in Ei, Em |- *.
      * rewrite IH by (done || lia). f_equal. rewrite Hc. simpl. rewrite Ei. lia.
      * inversion Ht as [|? ? ? ? _ Hcs]; subst. inversion Hot as [|? ? ? ? _ Hocs _ _]; subst.
        rewrite (index_all_ok _ _ Hcs). cbn [obind].
        assert (Ep : map fst (List.filter (fun p => (max_order p.2 >? mf)%Z)
                       (map (fun c => (rt_idx c, rt_node c)) cs)) =
                     map rt_idx (List.filter (fun c => (rt_max c >? mf)%Z) cs)).
        { clear. induction cs as [|c cs IH]; simpl; [done|]. rewrite max_order_rt_node.
          destruct (rt_max c >? mf)%Z; simpl; by rewrite IH. }
        rewrite Ep, <- map_rev, <- map_app, IH.
        -- f_equal. rewrite Hc, hits_app, hits_rev. simpl. fold (hits q cs).
           pose proof (hits_filter q cs mf Hocs Hmf). lia.
        -- apply Forall_app. split; [|done]. apply Forall_rev. by apply bfilter_Forall_keep.
        -- apply Forall_app. split; [|done]. apply Forall_rev. by apply bfilter_Forall_keep.
        -- done.
        -- rewrite map_app, list_sum_app. pose proof (sizes_filter_rev (fun c => (rt_max c >? mf)%Z) cs).
           simpl in Hf. lia.
Qed.

(** ** Insertion *)

Lemma covers_lub B a b : covers B a -> covers B b -> covers B (union a b).
Proof.
  unfold covers, union, from_corners, point_min, point_max. simpl.
  intros (? & ? & ? & ?) (? & ? & ? & ?). repeat case_match; lia.
Qed.

Lemma swap_Ok {A} (l : list A) a b x y :
  l !! a = Some x -> l !! b = Some y -> swap l a b = Ok (<[b := x]> (<[a := y]> l)).
Proof. intros Hx Hy. unfold swap. by rewrite (index_Ok _ _ _ Hx), (index_Ok _ _ _ Hy). Qed.

Lemma swap_map {A B} (f : A -> B) (l l' : list A) a b :
  swap l a b = Ok l' -> swap (map f l) a b = Ok (map f l').
Proof.
  unfold swap, index. change (map f) with (fmap (M := list) f). rewrite !list_lookup_fmap.
  destruct (l !! a) as [x|]; [|done]. destruct (l !! b) as [y|]; [|done]. simpl.
  intros [= <-]. by rewrite !list_fmap_insert.
Qed.

(** Swapping a child with the last one. *)
Lemma swap_last {A} (l : list A) a x :
  l !! a = Some x ->
  exists l', swap l a (length l - 1) = Ok l' /\ l' ≡ₚ l /\ length l' = length l /\ list.last l' = Some x.
Proof.
  intros Hx. pose proof (lookup_lt_Some _ _ _ Hx).
  destruct (lookup_lt_is_Some_2 l (length l - 1) ltac:(lia)) as [y Hy].
  eexists. rewrite (swap_Ok _ _ _ _ _ Hx Hy). split; [reflexivity|].
  split; [by apply Permutation_insert_swap|]. split; [by rewrite !length_insert|].
  rewrite last_lookup, !length_insert.
  replace (Nat.pred (length l)) with (length l - 1) by lia.
  apply list_lookup_insert_eq. rewrite length_insert. lia.
Qed.

Lemma best_child_ok b (l : list (nat * Node)) pos best :
  best_child b l pos best = best \/
  exists k i n c, l !! k = Some (i, n) /\ best_child b l pos best = (pos + k, i, c).
Proof.
  revert pos best. induction l as [|[i n] l IH]; intros pos best; simpl; [by left|].
  match goal with |- best_child _ _ _ ?x = _ \/ _ => destruct (IH (pos + 1) x) as [->|(k & i' & n' & c & Hk & ->)] end.
  - destruct (_ <? _)%Z; [|by left]. right. exists 0, i, n. eexists. split; [done|]. by rewrite Nat.add_0_r.
  - right. exists (Datatypes.S k), i', n', c. split; [done|].
    by replace (pos + 1 + k) with (pos + Datatypes.S k) by lia.
Qed.

(** The internal nodes, the only ones an insertion updates. *)
Fixpoint inner (t : rtree) : list nat :=
  match t with
  | RLeaf _ _ _ => []
  | RNode i _ _ cs => i :: flat_map inner cs
  end.

Lemma inner_indices t i : i ∈ inner t -> i ∈ indices t.
Proof.
  revert t. refine (rtree_induction _ _ _); simpl; [by intros ? ? ? ?%elem_of_nil|].
  intros j b m cs IH Hi. apply elem_of_cons in Hi as [->|Hi]; apply elem_of_cons; [by left|right].
  apply list_elem_of_In, in_flat_map in Hi as (c & Hc & Hi). apply list_elem_of_In in Hc.
  apply list_elem_of_In in Hi. rewrite Forall_elem in IH. exact (child_indices cs c i Hc (IH c Hc Hi)).
Qed.

(** The list of children with one of them replaced by its grown version. *)
Definition regrow (m o : Z) (l1 l2 : list rtree) (c' : rtree) (cs' : list rtree) : Prop :=
  if (m <? o)%Z then swap (l1 ++ c' :: l2) (length l1) (length (l1 ++ c' :: l2) - 1) = Ok cs'
  else cs' = l1 ++ c' :: l2.

Lemma regrow_exists m o l1 l2 c' :
  exists cs', regrow m o l1 l2 c' cs' /\ cs' ≡ₚ l1 ++ c' :: l2 /\ length cs' = length (l1 ++ c' :: l2) /\
    ((m < o)%Z -> list.last cs' = Some c').
Proof.
  unfold regrow. destruct (m <? o)%Z eqn:E.
  - destruct (swap_last (l1 ++ c' :: l2) (length l1) c') as (cs' & Hs & Hp & Hl & Hlast);
      [by rewrite lookup_app_r, Nat.sub_diag|]. eauto.
  - exists (l1 ++ c' :: l2). split_and!; [done|done|done|lia].
Qed.

Lemma last_app_cons {A} (l1 l2 : list A) x : list.last (l1 ++ x :: l2) = list.last (x :: l2).
Proof. by rewrite last_app_cons. Qed.

(** Growing a child keeps the node ordered and adds the quad. *)
Lemma ordered_regrow i B B' m l1 l2 c c' cs' b o :
  ordered (RNode i B m (l1 ++ c :: l2)) -> ordered c' ->
  covers B' B -> covers B' (rt_bounds c') -> rt_max c' = Z.max (rt_max c) o ->
  leaves c' ≡ₚ (b, o) :: leaves c ->
  regrow m o l1 l2 c' cs' -> cs' ≡ₚ l1 ++ c' :: l2 ->
  ordered (RNode i B' (Z.max m o) cs') /\
  flat_map leaves cs' ≡ₚ (b, o) :: flat_map leaves (l1 ++ c :: l2).
Proof.
  intros Ho Hc' HB HBc Hmax Hlv Hre Hp.
  inversion Ho as [|? ? ? ? Hlen Hos Hcov Hlast]; subst. split.
  - constructor.
    + rewrite Hp. rewrite length_app in *. simpl in *. lia.
    + rewrite Hp. apply Forall_app in Hos as [H1 H2]. apply Forall_cons_iff in H2 as [_ H2].
      apply Forall_app. split; [done|]. by constructor.
    + rewrite Hp. apply Forall_app in Hcov as [H1 H2]. apply Forall_cons_iff in H2 as [[_ Hm] H2].
      apply Forall_app. split; [|constructor].
      * eapply Forall_weaken; [|exact H1]. intros x [Hx1 Hx2]. split; [exact (covers_trans _ _ _ HB Hx1)|lia].
      * split; [done|lia].
      * eapply Forall_weaken; [|exact H2]. intros x [Hx1 Hx2]. split; [exact (covers_trans _ _ _ HB Hx1)|lia].
    + unfold regrow in Hre. destruct (m <? o)%Z eqn:E.
      * destruct (swap_last (l1 ++ c' :: l2) (length l1) c') as (cs2 & Hs & _ & _ & Hl);
          [by rewrite lookup_app_r, Nat.sub_diag|].
        rewrite Hre in Hs. injection Hs as <-. exists c'. split; [done|].
        apply Forall_app in Hcov as [_ H2]. apply Forall_cons_iff in H2 as [[_ Hm] _]. lia.
      * subst cs'. rewrite last_app_cons in Hlast |- *. destruct l2 as [|x l2].
        -- destruct Hlast as (c0 & [= <-] & Hm). exists c'. split; [done|]. lia.
        -- destruct Hlast as (c0 & Hc0 & Hm). exists c0. split; [exact Hc0|lia].
  - etransitivity; [exact (Permutation_flat_map leaves Hp)|]. rewrite !flat_map_app. simpl.
    etransitivity; [apply Permutation_app_head, Permutation_app_tail, Hlv|]. simpl. symmetry. apply Permutation_middle.
Qed.

(** Replacing the indices of a child. *)
Lemma NoDup_replace {A} (l1 x y l2 : list A) :
  NoDup (l1 ++ x ++ l2) -> NoDup y -> (forall a, a ∈ y -> a ∈ x \/ ((a ∉ l1) /\ (a ∉ l2))) ->
  NoDup (l1 ++ y ++ l2).
Proof.
  rewrite !list.NoDup_app. intros (H1 & Hd1 & H2 & Hd2 & H3) Hy Hsub.
  split; [done|]. split; [|split; [done|split; [|done]]].
  - intros a Ha [Hay|Ha2]%elem_of_app.
    + destruct (Hsub a Hay) as [Hax|[Hn _]]; [|by apply Hn].
      apply (Hd1 a Ha), elem_of_app. by left.
    + apply (Hd1 a Ha), elem_of_app. by right.
  - intros a Ha. destruct (Hsub a Ha) as [Hax|[_ Hn]]; [|done]. by apply Hd2.
Qed.

(** What an insertion into the subtree [t] achieves. *)
Record grown (ns ns' : list Node) (t t' : rtree) (b : Bounds) (o : Z) (nl : nat) : Prop := mkGrown {
  grown_idx : rt_idx t' = rt_idx t;
  grown_stored : stored ns' t';
  grown_ordered : ordered t';
  grown_leaves : leaves t' ≡ₚ (b, o) :: leaves t;
  grown_nodup : NoDup (indices t');
  grown_indices : forall j, j ∈ indices t' -> j ∈ indices t \/ j = nl \/ length ns <= j;
  grown_max : rt_max t' = Z.max (rt_max t) o;
  grown_bounds : forall B, covers B (rt_bounds t) -> covers B b -> covers B (rt_bounds t');
  grown_length : length ns <= length ns';
  grown_frame : forall j, j < length ns -> j ∉ inner t -> ns' !! j = ns !! j;
}.

Section Insert.
Variables (b : Bounds) (o : Z) (nl : nat).

Let new_leaf := RLeaf nl b o.

(** The step of [propagate] on a node. *)
Lemma propagate_cons ns i path u n n' rest :
  ns !! i = Some n -> propagate_node b o u n = Ok n' ->
  propagate b o ns (i :: path ++ rest) u = propagate b o (<[i := n']> ns) (path ++ rest) (Some i).
Proof.
  intros Hn Hp. simpl. unfold update_node. rewrite (index_Ok _ _ _ Hn). cbn [obind]. rewrite Hp. done.
Qed.

Lemma move_last_ok l1 l2 c c' cs' :
  NoDup (map rt_idx (l1 ++ c :: l2)) -> rt_idx c' = rt_idx c ->
  swap (l1 ++ c' :: l2) (length l1) (length (l1 ++ c' :: l2) - 1) = Ok cs' ->
  move_last (map rt_idx (l1 ++ c :: l2)) (rt_idx c) = Ok (map rt_idx cs').
Proof.
  intros Hnd Hi Hs. unfold move_last.
  assert (Hf : list_find (fun x => x = rt_idx c) (map rt_idx (l1 ++ c :: l2)) = Some (length l1, rt_idx c)).
  { apply list_find_Some. split_and!; [|done|].
    - rewrite map_app. simpl. rewrite lookup_app_r, length_map, Nat.sub_diag by (rewrite length_map; done). done.
    - intros j y Hj Hlt ->. rewrite map_app in Hnd, Hj. simpl in Hnd, Hj.
      apply list.NoDup_app in Hnd as (_ & Hd & _). apply (Hd (rt_idx c)).
      + rewrite lookup_app_l in Hj by (rewrite length_map; done). by eapply list_elem_of_lookup_2.
      + apply elem_of_cons. by left. }
  rewrite Hf. rewrite length_map, length_app. simpl. rewrite Nat.add_succ_r. cbn [usize_pred obind].
  assert (Em : map rt_idx (l1 ++ c :: l2) = map rt_idx (l1 ++ c' :: l2)) by (rewrite !map_app; simpl; by rewrite Hi).
  assert (El : length (l1 ++ c' :: l2) - 1 = length l1 + length l2) by (rewrite length_app; simpl; lia).
  rewrite El in Hs. case_nat.
  - rewrite Em. rewrite (swap_Ok _ _ _ c' c') in Hs.
    + injection Hs as <-. f_equal. f_equal. rewrite <- Hn, list_insert_insert_eq, list_insert_id; [done|].
      by rewrite lookup_app_r, Nat.sub_diag.
    + by rewrite lookup_app_r, Nat.sub_diag.
    + rewrite <- Hn. by rewrite lookup_app_r, Nat.sub_diag.
  - rewrite Em. by apply swap_map.
Qed.
End Insert.

(** *** The lists of indices of the children *)

Lemma nodup_split i B m l1 c l2 :
  NoDup (indices (RNode i B m (l1 ++ c :: l2))) ->
  (i ∉ flat_map indices (l1 ++ c :: l2)) /\ NoDup (indices c) /\
  NoDup (flat_map indices l1 ++ indices c ++ flat_map indices l2) /\
  (forall j d, d ∈ l1 ++ l2 -> j ∈ indices d -> j ∉ indices c).
Proof.
  simpl. intros [Hi Hnd]%list.NoDup_cons. rewrite flat_map_app in Hnd. simpl in Hnd. split; [done|].
  pose proof Hnd as Hall. apply list.NoDup_app in Hnd as (_ & Hd1 & Hnd).
  apply list.NoDup_app in Hnd as (Hc & Hd2 & _). split; [done|]. split; [done|].
  intros j d [Hd|Hd]%elem_of_app Hj Hjc.
  - apply (Hd1 j); [by eapply child_indices|]. apply elem_of_app. by left.
  - apply (Hd2 j Hjc). by eapply child_indices.
Qed.

Lemma elem_of_children l1 (c : rtree) l2 d : d ∈ l1 ++ c :: l2 -> d = c \/ d ∈ l1 ++ l2.
Proof. rewrite !elem_of_app, elem_of_cons. tauto. Qed.

(** Replacing a child [c] of a node by its grown version [c'].  The node itself may
    have been written to in between. *)
Lemma grown_step ns ns2 i B B' m l1 l2 c c' cs' b o nl :
  let t := RNode i B m (l1 ++ c :: l2) in
  stored ns t -> ordered t -> NoDup (indices t) -> nl ∉ indices t ->
  (forall j, j < length ns -> j ≠ i -> j ∉ inner c -> ns2 !! j = ns !! j) -> length ns <= length ns2 ->
  stored ns2 c' -> ordered c' -> leaves c' ≡ₚ (b, o) :: leaves c -> NoDup (indices c') ->
  (forall j, j ∈ indices c' -> j ∈ indices c \/ j = nl \/ length ns <= j) ->
  rt_max c' = Z.max (rt_max c) o ->
  covers B' B -> covers B' (rt_bounds c') ->
  (forall A, covers A B -> covers A b -> covers A B') ->
  nl < length ns ->
  regrow m o l1 l2 c' cs' -> cs' ≡ₚ l1 ++ c' :: l2 ->
  grown ns (<[i := mkNode B' (Z.max m o) (KInternal (map rt_idx cs'))]> ns2) t
    (RNode i B' (Z.max m o) cs') b o nl.
Proof.
  intros t Hst Ho Hnd Hnl Hfr Hlen Hst' Ho' Hlv Hnd' Hix Hmax HB HBc Hlub Hnlt Hre Hp.
  destruct (nodup_split _ _ _ _ _ _ Hnd) as (Hi & Hndc & Hndcs & Hdis).
  inversion Hst as [|? ? ? ? Hn Hsts]; subst.
  assert (Hil : i < length ns) by (by eapply lookup_lt_Some).
  assert (Hic' : i ∉ indices c').
  { intros Hin. destruct (Hix i Hin) as [Hin'|[->|?]]; [| |lia].
    - apply Hi, (child_indices _ c); [|done]. apply elem_of_app. right. apply elem_of_cons. by left.
    - apply Hnl, elem_of_cons. by left. }
  assert (Hsib : forall d, d ∈ l1 ++ l2 -> d ∈ l1 ++ c :: l2)
    by (intros d; rewrite !elem_of_app, elem_of_cons; tauto).
  destruct (ordered_regrow i B B' m l1 l2 c c' cs' b o Ho Ho' HB HBc Hmax Hlv Hre Hp) as [Hord Hleaves].
  split.
  - reflexivity.
  - constructor; [apply list_lookup_insert_eq; lia|]. apply Forall_elem. intros d Hd.
    rewrite Hp in Hd. apply elem_of_children in Hd as [->|Hd].
    + apply (stored_frame ns2); [done|]. intros j Hj. apply list_lookup_insert_ne. by intros <-.
    + rewrite Forall_elem in Hsts. apply (stored_frame ns); [by apply Hsts, Hsib|]. intros j Hj.
      assert (Hji : j ≠ i) by (intros ->; by apply Hi, (child_indices _ d), Hj; apply Hsib).
      rewrite list_lookup_insert_ne by done. apply Hfr; [|done|].
      * eapply stored_bound; [by apply Hsts, Hsib|done].
      * intros Hin%inner_indices. by apply (Hdis j d).
  - exact Hord.
  - exact Hleaves.
  - simpl. rewrite (Permutation_flat_map indices Hp), flat_map_app. simpl.
    apply list.NoDup_cons; split.
    + intros Hin. rewrite flat_map_app in Hi. simpl in Hi. apply Hi.
      rewrite !elem_of_app in Hin |- *. destruct Hin as [?|[?|?]]; [by left|done|by right; right].
    + eapply NoDup_replace; [exact Hndcs|done|]. intros j Hj.
      destruct (Hix j Hj) as [?|Hnew]; [by left|right].
      assert (Hfar : forall l, (forall d, d ∈ l -> d ∈ l1 ++ c :: l2) -> j ∉ flat_map indices l).
      { intros l Hl Hin. apply list_elem_of_In, in_flat_map in Hin as (d & Hd & Hjd).
        apply list_elem_of_In in Hd, Hjd. destruct Hnew as [->|Hge].
        - apply Hnl, elem_of_cons. right. eapply child_indices; [by apply Hl|done].
        - rewrite Forall_elem in Hsts. pose proof (stored_bound _ _ j (Hsts d (Hl d Hd)) Hjd). lia. }
      split; apply Hfar; intros d Hd; rewrite elem_of_app, ?elem_of_cons; tauto.
  - simpl. intros j. rewrite (Permutation_flat_map indices Hp), !flat_map_app. simpl.
    rewrite !elem_of_cons, !elem_of_app. intros [->|[?|[Hj|?]]]; [tauto|tauto| |tauto].
    destruct (Hix j Hj) as [?|?]; tauto.
  - done.
  - intros A HA Hb. by apply Hlub.
  - by rewrite length_insert.
  - simpl. intros j Hj. rewrite not_elem_of_cons, flat_map_app. simpl.
    rewrite !not_elem_of_app. intros (Hji & _ & Hjc & _).
    rewrite list_lookup_insert_ne by done. by apply Hfr.
Qed.

(** Adding the new leaf to a node. *)
Lemma grown_leaf ns ns2 i B B' m cs cs' b o nl :
  let t := RNode i B m cs in
  stored ns t -> ordered t -> NoDup (indices t) -> nl ∉ indices t -> nl < length ns ->
  length cs < MAX_CHILDREN ->
  (forall j, j < length ns -> ns2 !! j = ns !! j) -> length ns2 = length ns ->
  ns !! nl = Some (mkNode b o (KLeaf o)) ->
  covers B' B -> covers B' b -> (forall A, covers A B -> covers A b -> covers A B') ->
  cs' ≡ₚ cs ++ [RLeaf nl b o] ->
  (exists c, list.last cs' = Some c /\ rt_max c = Z.max m o) ->
  grown ns (<[i := mkNode B' (Z.max m o) (KInternal (map rt_idx cs'))]> ns2) t
    (RNode i B' (Z.max m o) cs') b o nl.
Proof.
  intros t Hst Ho Hnd Hnl Hnlt Hroom Hfr Hlen Hleaf HB Hb Hlub Hp Hlast.
  inversion Hst as [|? ? ? ? Hn Hsts]; subst. inversion Ho as [|? ? ? ? Hcl Hos Hcov _]; subst.
  apply list.NoDup_cons in Hnd as [Hi Hnd]. apply not_elem_of_cons in Hnl as [Hnli Hnl].
  assert (Hil : i < length ns) by (by eapply lookup_lt_Some).
  split.
  - reflexivity.
  - constructor; [apply list_lookup_insert_eq; lia|]. apply Forall_elem. intros d Hd.
    rewrite Hp, elem_of_app, list_elem_of_singleton in Hd. destruct Hd as [Hd| ->].
    + rewrite Forall_elem in Hsts. apply (stored_frame ns); [by apply Hsts|]. intros j Hj.
      rewrite list_lookup_insert_ne by (intros ->; by apply Hi, (child_indices _ d)).
      apply Hfr. eapply stored_bound; [by apply Hsts|done].
    + constructor. rewrite list_lookup_insert_ne by done. rewrite Hfr by done. done.
  - constructor.
    + rewrite Hp, length_app. simpl. lia.
    + rewrite Hp. apply Forall_app. split; [done|]. constructor; [constructor|done].
    + rewrite Hp. apply Forall_app. split.
      * eapply Forall_weaken; [|exact Hcov]. intros x [Hx1 Hx2].
        split; [exact (covers_trans _ _ _ HB Hx1)|lia].
      * constructor; [|done]. simpl. split; [done|lia].
    + done.
  - simpl. etransitivity; [exact (Permutation_flat_map leaves Hp)|]. rewrite flat_map_app. simpl.
    by rewrite Permutation_app_comm.
  - simpl. rewrite (Permutation_flat_map indices Hp), flat_map_app. simpl. rewrite Permutation_app_comm.
    simpl. apply list.NoDup_cons; split; [|apply list.NoDup_cons; split; done].
    apply not_elem_of_cons. split; [by intros ->|done].
  - simpl. intros j. rewrite (Permutation_flat_map indices Hp), !flat_map_app. simpl.
    rewrite !elem_of_cons, !elem_of_app, list_elem_of_singleton. tauto.
  - done.
  - intros A HA HAb. by apply Hlub.
  - rewrite length_insert. lia.
  - simpl. intros j Hj [Hji _]%not_elem_of_cons. rewrite list_lookup_insert_ne by done. by apply Hfr.
Qed.

(** The child the descent chooses is one of the children. *)
Lemma best_child_in b c0 cs :
  exists k c w, (c0 :: cs) !! k = Some c /\
    best_child b (map (fun c => (rt_idx c, rt_node c)) cs) 1
      (0, rt_idx c0, half_perimeter (union b (bounds (rt_node c0)))) = (k, rt_idx c, w).
Proof.
  destruct (best_child_ok b (map (fun c => (rt_idx c, rt_node c)) cs) 1
      (0, rt_idx c0, half_perimeter (union b (bounds (rt_node c0))))) as [->|(k & i & n & w & Hk & ->)].
  - exists 0, c0. eauto.
  - change (map (fun c => (rt_idx c, rt_node c)) cs) with ((fun c => (rt_idx c, rt_node c)) <$> cs) in Hk.
    rewrite list_lookup_fmap in Hk. destruct (cs !! k) as [c|] eqn:E; [|done]. injection Hk as <- <-.
    exists (Datatypes.S k), c, w. done.
Qed.

Lemma children_push_Ok cs i : length cs < MAX_CHILDREN -> children_push cs i = Ok (cs ++ [i]).
Proof. intros H. unfold children_push. by rewrite (proj2 (Nat.ltb_lt _ _) H). Qed.

(** The two-leaf node that replaces a leaf. *)
Lemma pair_ok i b0 o0 b o nl :
  exists cs, pair_children i nl o o0 = Ok (map rt_idx cs) /\ cs ≡ₚ [RLeaf i b0 o0; RLeaf nl b o] /\
    exists c, list.last cs = Some c /\ rt_max c = Z.max o0 o.
Proof.
  unfold pair_children. rewrite !(children_push_Ok []) by (unfold MAX_CHILDREN; simpl; lia). cbn [obind app].
  rewrite !children_push_Ok by (unfold MAX_CHILDREN; simpl; lia). destruct (o >? o0)%Z eqn:E.
  - exists [RLeaf i b0 o0; RLeaf nl b o]. split; [done|]. split; [done|]. eexists. split; [done|]. simpl. lia.
  - exists [RLeaf nl b o; RLeaf i b0 o0]. split; [done|]. split; [apply Permutation_swap|].
    eexists. split; [done|]. simpl. lia.
Qed.

(** A new internal node over an old leaf and the new one. *)
Lemma pair_node_ok k i b0 o0 b o nl cs :
  cs ≡ₚ [RLeaf i b0 o0; RLeaf nl b o] ->
  (exists c, list.last cs = Some c /\ rt_max c = Z.max o0 o) -> NoDup [k; i; nl] ->
  let t := RNode k (union b0 b) (Z.max o0 o) cs in
  ordered t /\ leaves t ≡ₚ (b, o) :: [(b0, o0)] /\ NoDup (indices t) /\
  (forall j, j ∈ indices t -> j = k \/ j = i \/ j = nl).
Proof.
  intros Hp Hlast Hnd t. split_and!.
  - constructor; [rewrite Hp; unfold MAX_CHILDREN; simpl; lia| | |done].
    + rewrite Hp. repeat constructor.
    + rewrite Hp. constructor; [|constructor; [|constructor]]; simpl;
        (split; [by apply covers_union_l || apply covers_union_r|lia]).
  - simpl. etransitivity; [exact (Permutation_flat_map leaves Hp)|]. simpl. apply Permutation_swap.
  - simpl. rewrite (Permutation_flat_map indices Hp). done.
  - simpl. intros j. rewrite (Permutation_flat_map indices Hp). simpl.
    rewrite !elem_of_cons, elem_of_nil. tauto.
Qed.

(** *** The descent and the propagation *)

Definition is_leaf (t : rtree) : bool := match t with RLeaf _ _ _ => true | RNode _ _ _ _ => false end.

(** The descent at [t] leaves nodes [ns1] and a path; the propagation along that path
    leaves [ns2], in which [t] has become [t']. *)
Definition inserted (b : Bounds) (o : Z) (nl : nat) (ns : list Node) (t : rtree) (fuel : nat)
    (path : list nat) : Prop :=
  exists ns1 pth ns2 t',
    descend fuel ns b o nl (rt_idx t) path = Ok (ns1, pth ++ path) /\
    (forall rest, propagate b o ns1 (pth ++ rest) None = propagate b o ns2 rest (Some (rt_idx t))) /\
    grown ns ns2 t t' b o nl.

Lemma update_node_Ok ns i f n n' :
  ns !! i = Some n -> f n = Ok n' -> update_node ns i f = Ok (<[i := n']> ns).
Proof. intros Hn Hf. unfold update_node. rewrite (index_Ok _ _ _ Hn). cbn [obind]. by rewrite Hf. Qed.

(** The propagation at the last node of the path, which the descent has updated. *)
Lemma propagate_none b o ns i B m k rest :
  ns !! i = Some (mkNode B m k) ->
  propagate b o ns (i :: rest) None =
  propagate b o (<[i := mkNode (union B b) (Z.max m o) k]> ns) rest (Some i).
Proof.
  intros Hn. apply (propagate_cons b o ns i [] None _ _ rest Hn). unfold propagate_node. cbn.
  destruct (m <? o)%Z eqn:E; cbn [obind]; do 2 f_equal; lia.
Qed.

Lemma covers_union_twice A B b : covers A B -> covers A b -> covers A (union (union B b) b).
Proof. intros HA Hb. apply covers_lub; [by apply covers_lub|done]. Qed.

(** The last child still attains the order of the node. *)
Lemma add_leaf_child_ok b o nl i B m cs :
  ordered (RNode i B m cs) -> length cs < MAX_CHILDREN ->
  exists cs',
    add_leaf_child b o nl (rt_node (RNode i B m cs)) =
      Ok (mkNode (union B b) (Z.max m o) (KInternal (map rt_idx cs'))) /\
    cs' ≡ₚ cs ++ [RLeaf nl b o] /\ (exists c, list.last cs' = Some c /\ rt_max c = Z.max m o).
Proof.
  intros Ho Hroom. inversion Ho as [|? ? ? ? Hlen _ _ Hlast]; subst.
  unfold add_leaf_child. cbn [kind rt_node bounds max_order].
  rewrite children_push_Ok by (by rewrite length_map). cbn [obind].
  change [nl] with (map rt_idx [RLeaf nl b o]). rewrite <- map_app.
  set (all := cs ++ [RLeaf nl b o]). destruct (o <=? m)%Z eqn:E.
  - destruct Hlast as (cl & Hl & Hm).
    assert (Ha : exists n, length all = Datatypes.S (Datatypes.S n) /\ n = length cs - 1)
      by (exists (length cs - 1); unfold all; rewrite length_app; simpl; lia).
    destruct Ha as (n & Ha & Hn).
    assert (Hcl : all !! (length all - 2) = Some cl).
    { rewrite Ha. unfold all. rewrite lookup_app_l by lia. rewrite last_lookup in Hl. rewrite <- Hl. f_equal. lia. }
    destruct (swap_last all (length all - 2) cl Hcl) as (cs' & Hs & Hp & _ & Hl').
    exists cs'. rewrite length_map, Ha. cbn [usize_pred obind]. rewrite Ha in Hs.
    replace (Datatypes.S (Datatypes.S n) - 2) with n in Hs by lia.
    replace (Datatypes.S (Datatypes.S n) - 1) with (Datatypes.S n) in Hs by lia.
    rewrite (swap_map rt_idx all cs' _ _ Hs).
    cbn [obind]. split; [done|]. split; [done|]. exists cl. split; [done|]. lia.
  - exists all. cbn [obind]. split; [done|]. split; [done|]. exists (RLeaf nl b o).
    unfold all. rewrite last_app_cons. split; [done|]. simpl. lia.
Qed.

(** A node with room whose best child is a leaf. *)
Lemma insert_room b o nl ns i B m c0 cs path fuel k c w :
  let t := RNode i B m (c0 :: cs) in
  stored ns t -> ordered t -> NoDup (indices t) -> ns !! nl = Some (mkNode b o (KLeaf o)) ->
  nl ∉ indices t -> best_child b (map (fun c => (rt_idx c, rt_node c)) cs) 1
    (0, rt_idx c0, half_perimeter (union b (bounds (rt_node c0)))) = (k, rt_idx c, w) ->
  c ∈ c0 :: cs -> is_leaf c = true -> length (c0 :: cs) < MAX_CHILDREN ->
  inserted b o nl ns t (Datatypes.S fuel) path.
Proof.
  intros t Hst Ho Hnd Hnl Hnli Hbest Hc Hlc Hroom.
  inversion Hst as [|? ? ? ? Hn Hsts]; subst. inversion Ho as [|? ? ? ? Hlen _ _ Hlast]; subst.
  destruct (add_leaf_child_ok b o nl i B m (c0 :: cs) Ho Hroom) as (cs' & Hadd & Hp & Hl').
  exists (<[i := mkNode (union B b) (Z.max m o) (KInternal (map rt_idx cs'))]> ns), [i].
  exists (<[i := mkNode (union (union B b) b) (Z.max m o) (KInternal (map rt_idx cs'))]> ns).
  exists (RNode i (union (union B b) b) (Z.max m o) cs').
  pose proof (stored_lookup _ _ Hst) as Hi. simpl in Hi.
  assert (Hil : i < length ns) by (by eapply lookup_lt_Some). split_and!.
  - cbn [descend rt_idx t]. rewrite (index_Ok _ _ _ Hi). cbn [obind kind].
    change (rt_idx c0 :: map rt_idx cs) with (map rt_idx (c0 :: cs)).
    rewrite (index_all_ok _ _ Hsts). cbn [obind map]. rewrite Hbest.
    rewrite Forall_elem in Hsts. rewrite (index_Ok _ _ _ (stored_lookup _ _ (Hsts c Hc))). cbn [obind].
    destruct c as [ic bc oc|]; [|done]. cbn [rt_node kind is_leaf_kind].
    rewrite (proj2 (Nat.ltb_lt _ _)) by (cbn [length]; rewrite length_map; exact Hroom).
    rewrite (update_node_Ok _ _ _ _ _ Hi Hadd). done.
  - intros rest. cbn [app]. rewrite (propagate_none b o _ i (union B b) (Z.max m o) (KInternal (map rt_idx cs')))
      by (apply list_lookup_insert_eq; lia).
    rewrite list_insert_insert_eq. replace (Z.max (Z.max m o) o) with (Z.max m o) by lia. done.
  - apply grown_leaf; try done.
    + by eapply lookup_lt_Some.
    + eapply covers_trans; [apply covers_union_l|apply covers_union_l].
    + apply covers_union_r.
    + intros A. apply covers_union_twice.
Qed.

(** A full node whose best child is a leaf: the leaf becomes an internal node. *)
Lemma replace_child_ok m o ob knew i B l1 c l2 c' :
  (ob <= m)%Z -> rt_idx c' = knew ->
  exists cs', regrow m o l1 l2 c' cs' /\ cs' ≡ₚ l1 ++ c' :: l2 /\
    replace_child (length l1) knew (Z.max ob o) (rt_node (RNode i B m (l1 ++ c :: l2))) =
      Ok (mkNode B m (KInternal (map rt_idx cs'))).
Proof.
  intros Hob Hk. destruct (regrow_exists m o l1 l2 c') as (cs' & Hre & Hp & _ & _).
  exists cs'. split; [done|]. split; [done|]. unfold replace_child. cbn [kind rt_node bounds max_order].
  assert (El : map rt_idx (l1 ++ c :: l2) !! length l1 = Some (rt_idx c)).
  { rewrite map_app. simpl. by rewrite lookup_app_r, length_map, Nat.sub_diag by (by rewrite length_map). }
  rewrite (index_Ok _ _ _ El). cbn [obind].
  assert (Ei : <[length l1 := knew]> (map rt_idx (l1 ++ c :: l2)) = map rt_idx (l1 ++ c' :: l2)).
  { rewrite !map_app. simpl. rewrite Hk. rewrite insert_app_r_alt by (by rewrite length_map).
    by rewrite length_map, Nat.sub_diag. }
  unfold NodeChildren. rewrite Ei. unfold regrow in Hre. rewrite (Z.gtb_ltb (Z.max ob o) m).
  replace (m <? Z.max ob o)%Z with (m <? o)%Z by (destruct (m <? o)%Z eqn:E; lia).
  destruct (m <? o)%Z; [|by rewrite Hre].
  assert (Hl : length (map rt_idx (l1 ++ c :: l2)) = Datatypes.S (length l1 + length l2))
    by (rewrite length_map, length_app; simpl; lia).
  rewrite Hl. cbn [usize_pred obind].
  replace (length (l1 ++ c' :: l2) - 1) with (length l1 + length l2) in Hre by (rewrite length_app; simpl; lia).
  by rewrite (swap_map rt_idx _ _ _ _ Hre).
Qed.

Lemma NoDup_three (x y z : nat) : x ≠ y -> x ≠ z -> y ≠ z -> NoDup [x; y; z].
Proof.
  intros H1 H2 H3. repeat (apply list.NoDup_cons; split); rewrite ?elem_of_cons, ?elem_of_nil; try tauto.
  apply NoDup_nil_2.
Qed.

Lemma insert_full b o nl ns i B m c0 cs path fuel l1 ic bc oc l2 w :
  let t := RNode i B m (c0 :: cs) in
  stored ns t -> ordered t -> NoDup (indices t) -> ns !! nl = Some (mkNode b o (KLeaf o)) ->
  nl ∉ indices t -> best_child b (map (fun c => (rt_idx c, rt_node c)) cs) 1
    (0, rt_idx c0, half_perimeter (union b (bounds (rt_node c0)))) = (length l1, ic, w) ->
  c0 :: cs = l1 ++ RLeaf ic bc oc :: l2 -> MAX_CHILDREN <= length (c0 :: cs) ->
  inserted b o nl ns t (Datatypes.S fuel) path.
Proof.
  intros t Hst Ho Hnd Hnl Hnli Hbest Hcs Hfull. set (c := RLeaf ic bc oc) in *.
  inversion Hst as [|? ? ? ? Hn Hsts]; subst.
  assert (Hc : c ∈ c0 :: cs) by (rewrite Hcs, elem_of_app, elem_of_cons; tauto).
  destruct (ordered_children _ _ _ _ _ Ho Hc) as (_ & Hcb & Hcm). simpl in Hcb, Hcm.
  rewrite Forall_elem in Hsts. pose proof (stored_lookup _ _ (Hsts c Hc)) as Hic. simpl in Hic.
  pose proof (lookup_lt_Some _ _ _ Hnl) as Hnlt. pose proof (lookup_lt_Some _ _ _ Hic) as Hict.
  pose proof (stored_lookup _ _ Hst) as Hi. simpl in Hi. pose proof (lookup_lt_Some _ _ _ Hi) as Hit.
  assert (Hicn : ic ≠ nl).
  { intros ->. apply Hnli, elem_of_cons. right. apply (child_indices _ c); [exact Hc|]. by apply list_elem_of_singleton. }
  destruct (pair_ok ic bc oc b o nl) as (pcs & Hpair & Hpp & Hpl).
  destruct (pair_node_ok (length ns) ic bc oc b o nl pcs Hpp Hpl) as (Hord' & Hlv' & Hnd' & Hix').
  { apply NoDup_three; lia. }
  set (c' := RNode (length ns) (union bc b) (Z.max oc o) pcs) in *.
  set (nsx := ns ++ [rt_node c']).
  destruct (replace_child_ok m o oc (length ns) i B l1 c l2 c' Hcm eq_refl) as (cs' & Hre & Hp & Hrep).
  rewrite <- Hcs in Hrep.
  exists (<[i := mkNode B m (KInternal (map rt_idx cs'))]> nsx), [i].
  exists (<[i := mkNode (union B b) (Z.max m o) (KInternal (map rt_idx cs'))]> nsx).
  exists (RNode i (union B b) (Z.max m o) cs').
  assert (Hix : nsx !! i = Some (rt_node t)) by (unfold nsx; by rewrite lookup_app_l).
  split; [|split].
  - cbn [descend rt_idx t]. rewrite (index_Ok _ _ _ Hi). cbn [obind kind].
    change (rt_idx c0 :: map rt_idx cs) with (map rt_idx (c0 :: cs)).
    rewrite index_all_ok by (by apply Forall_elem). cbn [obind map]. rewrite Hbest.
    rewrite (index_Ok _ _ _ Hic). cbn [obind kind is_leaf_kind].
    rewrite (proj2 (Nat.ltb_ge _ _)) by (cbn [length]; rewrite length_map; exact Hfull).
    cbn [max_order bounds]. rewrite Hpair. cbn [obind]. change (mkNode (union bc b) (Z.max oc o) (KInternal (map rt_idx pcs))) with (rt_node c').
    fold nsx. rewrite (update_node_Ok _ _ _ _ _ Hix Hrep). done.
  - intros rest. cbn [app]. rewrite (propagate_none b o _ i B m (KInternal (map rt_idx cs')))
      by (apply list_lookup_insert_eq; by eapply lookup_lt_Some).
    by rewrite list_insert_insert_eq.
  - unfold t in *. rewrite Hcs in *. apply (grown_step ns nsx i B (union B b) m l1 l2 c c' cs'); try done.
    + intros j Hj _ _. by apply lookup_app_l.
    + unfold nsx. rewrite length_app. lia.
    + constructor; [unfold nsx; by rewrite lookup_app_r, Nat.sub_diag|]. apply Forall_elem. intros d Hd.
      rewrite Hpp, !elem_of_cons in Hd. destruct Hd as [->|[->|?%elem_of_nil]]; [| |done];
        constructor; unfold nsx; by rewrite lookup_app_l.
    + intros j Hj. destruct (Hix' j Hj) as [->|[->| ->]]; [right; right; lia| |by right; left].
      left. simpl. by apply list_elem_of_singleton.
    + apply covers_union_l.
    + apply covers_lub; [|apply covers_union_r]. eapply covers_trans; [apply covers_union_l|done].
    + intros A. apply covers_lub.
Qed.

(** Distinct nodes have distinct indices. *)
Lemma NoDup_child_idx i B m cs : NoDup (indices (RNode i B m cs)) -> NoDup (map rt_idx cs).
Proof.
  simpl. intros [_ Hnd]%list.NoDup_cons. induction cs as [|c cs IH]; simpl in *; [done|].
  apply list.NoDup_app in Hnd as (_ & Hd & Hnd). apply list.NoDup_cons. split; [|by apply IH].
  intros Hin. apply list_elem_of_In, in_map_iff in Hin as (d & Hdi & Hd').
  apply (Hd (rt_idx c)); [apply index_idx_in|]. apply (child_indices cs d); [by apply list_elem_of_In|].
  rewrite <- Hdi. apply index_idx_in.
Qed.

(** A node whose best child is internal: the insertion goes on there. *)
Lemma insert_inner b o nl ns i B m c0 cs path fuel l1 c l2 w :
  let t := RNode i B m (c0 :: cs) in
  stored ns t -> ordered t -> NoDup (indices t) -> ns !! nl = Some (mkNode b o (KLeaf o)) ->
  nl ∉ indices t -> best_child b (map (fun c => (rt_idx c, rt_node c)) cs) 1
    (0, rt_idx c0, half_perimeter (union b (bounds (rt_node c0)))) = (length l1, rt_idx c, w) ->
  c0 :: cs = l1 ++ c :: l2 -> is_leaf c = false -> inserted b o nl ns c fuel (i :: path) ->
  inserted b o nl ns t (Datatypes.S fuel) path.
Proof.
  intros t Hst Ho Hnd Hnl Hnli Hbest Hcs Hlc (ns1 & pth & ns2 & c' & Hd & Hpr & Hg).
  inversion Hst as [|? ? ? ? Hn Hsts]; subst. rewrite Forall_elem in Hsts.
  assert (Hc : c ∈ c0 :: cs) by (rewrite Hcs, elem_of_app, elem_of_cons; tauto).
  pose proof (stored_lookup _ _ (Hsts c Hc)) as Hic.
  pose proof (stored_lookup _ _ Hst) as Hi. simpl in Hi. pose proof (lookup_lt_Some _ _ _ Hi) as Hit.
  destruct (regrow_exists m o l1 l2 c') as (cs' & Hre & Hp & _ & _).
  assert (Hinn : i ∉ inner c).
  { intros Hin%inner_indices. apply list.NoDup_cons in Hnd as [Hnd _]. by apply Hnd, (child_indices _ c). }
  destruct Hg as [Hgi Hgs Hgo Hgl Hgn Hgx Hgm Hgb Hglen Hgf].
  assert (Hi2 : ns2 !! i = Some (rt_node t)) by (rewrite Hgf; done).
  exists ns1, (pth ++ [i]), (<[i := mkNode (union B b) (Z.max m o) (KInternal (map rt_idx cs'))]> ns2).
  exists (RNode i (union B b) (Z.max m o) cs'). split; [|split].
  - cbn [descend rt_idx t]. rewrite (index_Ok _ _ _ Hi). cbn [obind kind].
    change (rt_idx c0 :: map rt_idx cs) with (map rt_idx (c0 :: cs)).
    rewrite index_all_ok by (by apply Forall_elem). cbn [obind map]. rewrite Hbest.
    rewrite (index_Ok _ _ _ Hic). cbn [obind].
    replace (is_leaf_kind (kind (rt_node c))) with false by (by destruct c).
    rewrite Hd. by rewrite <- app_assoc.
  - intros rest. rewrite <- app_assoc. cbn [app]. rewrite Hpr.
    apply (propagate_cons b o ns2 i [] (Some (rt_idx c)) _ _ rest Hi2).
    unfold propagate_node, t. cbn [rt_node bounds max_order kind]. unfold regrow in Hre.
    destruct (m <? o)%Z eqn:E.
    + rewrite Hcs. rewrite (move_last_ok l1 l2 c c' cs'); [|rewrite <- Hcs|done|done].
      * cbn [obind]. do 2 f_equal. lia.
      * by apply (NoDup_child_idx i B m).
    + do 2 f_equal; [lia|]. f_equal. rewrite Hre, Hcs, !map_app. simpl. by rewrite Hgi.
  - unfold t in *. rewrite Hcs in *.
    pose proof (ordered_children _ _ _ _ c Ho ltac:(apply elem_of_app; right; apply elem_of_cons; by left)) as (_ & Hcb & _).
    apply (grown_step ns ns2 i B (union B b) m l1 l2 c c' cs'); try done.
    + intros j Hj _ Hj2. by apply Hgf.
    + apply covers_union_l.
    + apply Hgb; [|apply covers_union_r]. eapply covers_trans; [apply covers_union_l|done].
    + intros A. apply covers_lub.
    + by eapply lookup_lt_Some.
Qed.

(** The descent terminates within the size of the tree. *)
Lemma descend_ok b o nl t : forall ns path fuel,
  is_leaf t = false -> stored ns t -> ordered t -> NoDup (indices t) ->
  ns !! nl = Some (mkNode b o (KLeaf o)) -> nl ∉ indices t -> rt_size t <= fuel ->
  inserted b o nl ns t fuel path.
Proof.
  revert t. refine (rtree_induction _ _ _); [done|].
  intros i B m cs IH ns path fuel _ Hst Ho Hnd Hnl Hnli Hf.
  destruct fuel as [|fuel]; [simpl in Hf; lia|]. destruct cs as [|c0 cs].
  { inversion Ho; simpl in *; lia. }
  destruct (best_child_in b c0 cs) as (k & c & w & Hk & Hbest).
  pose proof (list_elem_of_split_length _ _ _ Hk) as (l1 & l2 & Hcs & Hlen). rewrite Hlen in Hbest.
  assert (Hc : c ∈ c0 :: cs) by (by eapply list_elem_of_lookup_2).
  destruct (is_leaf c) eqn:El.
  - destruct (Nat.lt_ge_cases (length (c0 :: cs)) MAX_CHILDREN).
    + by eapply insert_room.
    + destruct c as [ic bc oc|]; [|done]. by eapply insert_full.
  - eapply insert_inner; try done. rewrite Forall_elem in IH.
    inversion Hst as [|? ? ? ? _ Hsts]; subst. rewrite Forall_elem in Hsts.
    apply IH; [done|done|by apply Hsts| | |done| |].
    + by apply (ordered_children _ _ _ _ c Ho).
    + simpl in Hcs. rewrite Hcs in Hnd. by destruct (nodup_split _ _ _ _ _ _ Hnd) as (_ & ? & _).
    + intros Hin. apply Hnli, elem_of_cons. right. by eapply child_indices.
    + rewrite Hcs in Hf. simpl in Hf. rewrite map_app, list_sum_app in Hf. simpl in Hf. lia.
Qed.

(** ** The whole tree *)

(** The tree [t] holds the quads [hist], the latest first, with their orders. *)
Record tree_wf (t : BoundsTree) (hist : list (Bounds * Z)) (rt : rtree) (ml : nat) (mb : Bounds) (mo : Z)
    : Prop := mkTreeWf {
  wf_root : root t = Some (rt_idx rt);
  wf_stored : stored (nodes t) rt;
  wf_ordered : ordered rt;
  wf_nodup : NoDup (indices rt);
  wf_leaves : leaves rt ≡ₚ hist;
  wf_max_leaf : max_leaf t = Some ml;
  wf_max_node : nodes t !! ml = Some (mkNode mb mo (KLeaf mo));
  wf_max_in : (mb, mo) ∈ hist;
  wf_max : Forall (fun x => (x.2 <= mo)%Z) hist;
}.

Definition bt_wf (t : BoundsTree) (hist : list (Bounds * Z)) : Prop :=
  match hist with
  | [] => nodes t = [] /\ root t = None /\ max_leaf t = None
  | _ => exists rt ml mb mo, tree_wf t hist rt ml mb mo
  end /\
  Forall (fun x => (1 <= x.2 <= Z.of_nat (length hist))%Z) hist.

Lemma inner_internal ns t i :
  stored ns t -> i ∈ inner t -> exists b m cs, ns !! i = Some (mkNode b m (KInternal cs)).
Proof.
  revert t. refine (rtree_induction _ _ _); simpl; [by intros ? ? ? _ ?%elem_of_nil|].
  intros j b m cs IH Hst Hi. inversion Hst as [|? ? ? ? Hn Hcs]; subst.
  apply elem_of_cons in Hi as [->|Hi]; [eauto|].
  apply list_elem_of_In, in_flat_map in Hi as (c & Hc & Hi). apply list_elem_of_In in Hc, Hi.
  rewrite Forall_elem in IH, Hcs. apply (IH c); auto.
Qed.

(** Distinct indices: the tree is no larger than the vector. *)
Lemma size_le_nodes ns t : stored ns t -> NoDup (indices t) -> rt_size t <= length ns.
Proof.
  intros Hst Hnd. rewrite <- indices_size, <- (length_seq (length ns) 0).
  apply submseteq_length, NoDup_submseteq; [done|]. intros i Hi. apply elem_of_seq.
  pose proof (stored_bound _ _ _ Hst Hi). lia.
Qed.

Lemma find_max_ok t hist q :
  bt_wf t hist -> exists t', find_max_ordering t q = Ok (t', max_hit q hist) /\
    nodes t' = nodes t /\ root t' = root t /\ max_leaf t' = max_leaf t.
Proof.
  intros [Hwf Hpos]. unfold find_max_ordering. destruct hist as [|x hist].
  - destruct Hwf as (_ & Hr & _). rewrite Hr. by exists t.
  - destruct Hwf as (rt & ml & mb & mo & [Hr Hs Ho Hn Hl Hm Hmn Hmi Hmx]). rewrite Hr, Hm.
    rewrite (index_Ok _ _ _ Hmn). cbn [obind bounds max_order]. destruct (intersects q mb) eqn:E.
    + exists t. split; [|done]. do 2 f_equal. pose proof (max_hit_in _ _ _ _ Hmi E).
      assert (0 <= mo)%Z by (rewrite Forall_elem in Hpos; specialize (Hpos _ Hmi); simpl in Hpos; lia).
      pose proof (max_hit_le q (x :: hist) mo ltac:(done) Hmx). lia.
    + unfold search_tree. change [rt_idx rt] with (map rt_idx [rt]).
      rewrite (search_loop_ok _ q [rt] 0); [|by repeat constructor|by repeat constructor|done|].
      * cbn [obind]. replace (Z.max 0 (hits q [rt])) with (max_hit q (x :: hist)); [eexists; split; [reflexivity|done]|].
        unfold hits. simpl flat_map. rewrite app_nil_r, (max_hit_perm _ _ _ Hl).
        pose proof (max_hit_nonneg q (x :: hist)). lia.
      * simpl. pose proof (size_le_nodes _ _ Hs Hn). lia.
Qed.

(** What [insert_leaf] does to a tree that is not empty. *)
Lemma insert_leaf_ok t b o rt :
  root t = Some (rt_idx rt) -> stored (nodes t) rt -> ordered rt -> NoDup (indices rt) ->
  exists t' rt', insert_leaf t b o = Ok (t', length (nodes t)) /\
    root t' = Some (rt_idx rt') /\ stored (nodes t') rt' /\ ordered rt' /\ NoDup (indices rt') /\
    leaves rt' ≡ₚ (b, o) :: leaves rt /\ max_leaf t' = max_leaf t /\
    nodes t' !! length (nodes t) = Some (mkNode b o (KLeaf o)) /\
    (forall j, j < length (nodes t) -> j ∉ inner rt -> nodes t' !! j = nodes t !! j).
Proof.
  intros Hr Hs Ho Hn. unfold insert_leaf. rewrite Hr. set (nl := length (nodes t)).
  set (ns := nodes t ++ [mkNode b o (KLeaf o)]).
  assert (Hs' : stored ns rt) by (by apply stored_app).
  assert (Hnl : ns !! nl = Some (mkNode b o (KLeaf o))) by (unfold ns; by rewrite lookup_app_r, Nat.sub_diag).
  assert (Hnli : nl ∉ indices rt) by (intros Hin; pose proof (stored_bound _ _ _ Hs Hin); lia).
  assert (Hlen : length ns = Datatypes.S nl) by (unfold ns; rewrite length_app; simpl; lia).
  rewrite (index_Ok _ _ _ (stored_lookup _ _ Hs')). cbn [obind]. destruct (is_leaf rt) eqn:El.
  - destruct rt as [i b0 o0|]; [|done]. cbn [rt_node rt_idx kind is_leaf_kind bounds max_order].
    simpl in Hnli. assert (Hi : i < nl) by (by apply (stored_bound _ _ i Hs), list_elem_of_singleton).
    destruct (pair_ok i b0 o0 b o nl) as (cs & Hpair & Hp & Hl). rewrite Hpair. cbn [obind].
    destruct (pair_node_ok (length ns) i b0 o0 b o nl cs Hp Hl) as (Hord & Hlv & Hnd & _).
    { apply NoDup_three; lia. }
    eexists _, (RNode (length ns) (union b0 b) (Z.max o0 o) cs). split; [reflexivity|]. cbn [root nodes max_leaf].
    split; [done|]. split; [|split; [done|split; [done|split; [done|split; [done|split]]]]].
    + constructor; [by rewrite lookup_app_r, Nat.sub_diag|]. apply Forall_elem. intros d Hd.
      rewrite Hp, !elem_of_cons in Hd. inversion Hs' as [? ? ? Hin|]; subst.
      destruct Hd as [->|[->|?%elem_of_nil]]; [| |done];
        constructor; rewrite lookup_app_l by lia; done.
    + by rewrite lookup_app_l by lia.
    + intros j Hj _. unfold ns. rewrite lookup_app_l by (fold ns; lia). by rewrite lookup_app_l.
  - replace (is_leaf_kind (kind (rt_node rt))) with false by (by destruct rt).
    destruct (descend_ok b o nl rt ns [] (length ns)) as (ns1 & pth & ns2 & rt' & Hd & Hpr & Hg); try done.
    { by apply size_le_nodes. }
    destruct Hg as [Hgi Hgs Hgo Hgl Hgn Hgx Hgm Hgb Hglen Hgf].
    rewrite Hd. cbn [obind]. rewrite app_nil_r. specialize (Hpr []). rewrite app_nil_r in Hpr.
    rewrite Hpr. cbn [propagate obind]. eexists _, rt'. split; [reflexivity|]. cbn [root nodes max_leaf].
    split; [by rewrite Hgi|]. do 5 (split; [done|]). split.
    + rewrite Hgf; [done|lia|]. by intros ?%inner_indices.
    + intros j Hj Hji. rewrite Hgf by (done || lia). unfold ns. by rewrite lookup_app_l.
Qed.

Lemma u32_add_small a b : (0 <= a + b < 2 ^ 32)%Z -> u32_add a b = (a + b)%Z.
Proof. apply Z.mod_small. Qed.

Lemma bounds_insert_ok t hist b :
  bt_wf t hist -> (Z.of_nat (length hist) < 2 ^ 32 - 1)%Z ->
  exists t', bounds_insert t b = Ok (t', max_hit b hist + 1)%Z /\ bt_wf t' ((b, max_hit b hist + 1)%Z :: hist).
Proof.
  intros Hwf Hlen. destruct (find_max_ok t hist b Hwf) as (t0 & Hf & Hn0 & Hr0 & Hm0).
  pose proof (max_hit_nonneg b hist) as Hh0. destruct Hwf as [Hwf Hpos].
  assert (Hh1 : (max_hit b hist <= Z.of_nat (length hist))%Z).
  { apply max_hit_le; [lia|]. eapply Forall_weaken; [|exact Hpos]. cbn beta. lia. }
  assert (Hpos' : Forall (fun x : Bounds * Z => (1 <= x.2 <= Z.of_nat (length ((b, max_hit b hist + 1) :: hist)))%Z)
                    ((b, (max_hit b hist + 1)%Z) :: hist)).
  { cbn [length]. constructor; [simpl; lia|]. eapply Forall_weaken; [|exact Hpos]. cbn beta. lia. }
  unfold bounds_insert. rewrite Hf. cbn [obind]. rewrite u32_add_small by lia.
  set (o := (max_hit b hist + 1)%Z) in *. destruct hist as [|x hist].
  - destruct Hwf as (Hn & Hr & Hm). unfold insert_leaf. rewrite Hr0, Hr, Hn0, Hn. cbn [obind max_leaf].
    rewrite Hm0, Hm. cbn [obind nodes root]. eexists. split; [reflexivity|]. split; [|exact Hpos'].
    exists (RLeaf 0 b o), 0, b, o. split; try done.
    + by constructor.
    + constructor.
    + simpl. apply list.NoDup_cons. split; [by intros ?%elem_of_nil|apply NoDup_nil_2].
    + apply elem_of_cons. by left.
    + constructor; [simpl; lia|constructor].
  - destruct Hwf as (rt & ml & mb & mo & [Hr Hs Ho Hn Hl Hm Hmn Hmi Hmx]).
    destruct (insert_leaf_ok t0 b o rt) as (t' & rt' & -> & Hr' & Hs' & Ho' & Hn' & Hl' & Hm' & Hnew & Hfr);
      [congruence|by rewrite Hn0|done|done|]. rewrite Hn0 in Hnew, Hfr |- *. cbn [obind].
    assert (Hml : nodes t' !! ml = Some (mkNode mb mo (KLeaf mo))).
    { rewrite Hfr; [done|by eapply lookup_lt_Some|]. intros Hin.
      destruct (inner_internal _ _ _ Hs Hin) as (? & ? & ? & He). congruence. }
    rewrite Hm', Hm0, Hm, (index_Ok _ _ _ Hml). cbn [obind max_order]. eexists. split; [reflexivity|].
    split; [|exact Hpos']. assert (Hl2 : leaves rt' ≡ₚ (b, o) :: x :: hist) by (by rewrite Hl', Hl).
    destruct (mo <? o)%Z eqn:E; exists rt'; [exists (length (nodes t)), b, o|exists ml, mb, mo]; split; try done.
    + apply elem_of_cons. by left.
    + constructor; [simpl; lia|]. eapply Forall_weaken; [|exact Hmx]. cbn beta. lia.
    + apply elem_of_cons. by right.
    + constructor; [simpl; lia|done].
Qed.

Lemma max_hit_attained q l : (0 < max_hit q l)%Z -> exists b, (b, max_hit q l) ∈ l /\ intersects q b = true.
Proof.
  induction l as [|[b o] l IH]; simpl; [lia|]. intros Hm. destruct (intersects q b) eqn:E.
  - destruct (Z.max_spec o (max_hit q l)) as [[Hlt Hx]|[Hge Hx]]; rewrite Hx in *.
    + destruct (IH Hm) as (b' & Hin & Hi). exists b'. split; [apply elem_of_cons; by right|done].
    + exists b. split; [apply elem_of_cons; by left|done].
  - destruct (IH Hm) as (b' & Hin & Hi). exists b'. split; [apply elem_of_cons; by right|done].
Qed.

(** The orders of a list of quads: each one is above those of the earlier quads it
    intersects. *)
Lemma insert_all_ok bs : forall t hist,
  bt_wf t hist -> (Z.of_nat (length hist + length bs) < 2 ^ 32)%Z ->
  exists t' os, insert_all t bs = Ok (t', os) /\ length os = length bs /\
    bt_wf t' (rev (zip bs os) ++ hist) /\
    forall k b, bs !! k = Some b ->
      os !! k = Some (max_hit b (rev (zip (take k bs) (take k os)) ++ hist) + 1)%Z.
Proof.
  induction bs as [|b bs IH]; intros t hist Hwf Hlen; simpl in Hlen |- *.
  - exists t, []. done.
  - destruct (bounds_insert_ok t hist b Hwf) as (t1 & -> & Hwf1); [lia|]. cbn [obind].
    destruct (IH t1 _ Hwf1) as (t' & os & -> & Hlo & Hwf' & Hos); [simpl; lia|]. cbn [obind].
    exists t', ((max_hit b hist + 1)%Z :: os). split; [done|]. split; [simpl; lia|]. split.
    + simpl. by rewrite <- app_assoc.
    + intros [|k] b' Hk; simpl in Hk |- *; [by injection Hk as ->|].
      rewrite (Hos k b' Hk), <- app_assoc. done.
Qed.

Lemma elem_of_rev {A} (x : A) l : x ∈ rev l <-> x ∈ l.
Proof. by rewrite !list_elem_of_In, <- in_rev. Qed.

Lemma default_wf : bt_wf bounds_tree_default [].
Proof. done. Qed.

(** ** The properties *)

(** C6: Inserting a quad into a well-formed tree succeeds: the indexed accesses are
    in bounds, the unreachable branch is not reached and the descent ends.  The
    order returned is greater than that of every earlier quad it intersects and the
    least such order: 1, or one above that of an earlier quad it intersects.  The
    tree stays well formed: it holds the new quad and the earlier ones with their
    orders, at least 1 and at most the number of quads, so [u32] does not overflow
    before 2^32 - 1 quads; every internal node has two to [MAX_CHILDREN] children,
    which its bounds cover and the last of which attains its order; and [max_leaf]
    is a leaf of the greatest order. *)
Theorem bounds_insert_correct t hist b :
  bt_wf t hist -> (Z.of_nat (length hist) < 2 ^ 32 - 1)%Z ->
  exists t' o, bounds_insert t b = Ok (t', o) /\ bt_wf t' ((b, o) :: hist) /\
    (forall b' o', (b', o') ∈ hist -> intersects b b' = true -> (o' < o)%Z) /\
    (o = 1%Z \/ exists b', (b', (o - 1)%Z) ∈ hist /\ intersects b b' = true).
Proof.
  intros Hwf Hlen. destruct (bounds_insert_ok t hist b Hwf Hlen) as (t' & He & Hwf').
  exists t', (max_hit b hist + 1)%Z. split; [done|]. split; [done|]. split.
  - intros b' o' Hin Hi. pose proof (max_hit_in _ _ _ _ Hin Hi). lia.
  - pose proof (max_hit_nonneg b hist). destruct (Z.eq_dec (max_hit b hist) 0%Z) as [->|Hne]; [by left|right].
    destruct (max_hit_attained b hist) as (b' & Hin & Hi); [lia|]. exists b'.
    by replace (max_hit b hist + 1 - 1)%Z with (max_hit b hist) by lia.
Qed.

Lemma bounds_insert_correct_witness :
  exists t t', bounds_insert t (quad 5 5 10 10) = Ok (t', 2%Z) /\
    bt_wf t' [(quad 5 5 10 10, 2%Z); (quad 0 0 10 10, 1%Z)].
Proof.
  set (hist := [(quad 0 0 10 10, 1%Z)]).
  set (t := mkBoundsTree [mkNode (quad 0 0 10 10) 1 (KLeaf 1)] (Some 0) (Some 0) [] []).
  assert (Hwf : bt_wf t hist).
  { split; [|repeat constructor; simpl; lia]. exists (RLeaf 0 (quad 0 0 10 10) 1), 0, (quad 0 0 10 10), 1%Z.
    split; try done; try (by repeat constructor).
    simpl. apply list.NoDup_cons. split; [by intros ?%elem_of_nil|apply NoDup_nil_2]. }
  destruct (bounds_insert_correct t hist (quad 5 5 10 10) Hwf) as (t' & o & He & Hwf' & _ & _); [simpl; lia|].
  exists t, t'. assert (Ho : o = 2%Z).
  { assert (Hc : match bounds_insert t (quad 5 5 10 10) with Ok (_, o) => o = 2%Z | _ => False end)
      by (vm_compute; reflexivity). by rewrite He in Hc. }
  rewrite Ho in He, Hwf'. by split.
Defined.

(** Draw order: in a frame of fewer than 2^32 quads, from a new or a cleared
    tree, a quad that intersects an earlier one is given a greater order; a quad that
    intersects no earlier one is given the order 1, so that orders are reused; and no
    order exceeds the number of quads inserted up to it. *)
Theorem draw_order_correct t0 bs :
  (Z.of_nat (length bs) < 2 ^ 32)%Z ->
  exists t os, insert_all (bounds_tree_clear t0) bs = Ok (t, os) /\ length os = length bs /\
    (forall i j bi bj oi oj, i < j -> bs !! i = Some bi -> bs !! j = Some bj ->
       os !! i = Some oi -> os !! j = Some oj -> intersects bj bi = true -> (oi < oj)%Z) /\
    (forall j bj, bs !! j = Some bj ->
       (forall i bi, i < j -> bs !! i = Some bi -> intersects bj bi = false) -> os !! j = Some 1%Z) /\
    Forall (fun o => (1 <= o <= Z.of_nat (length bs))%Z) os.
Proof.
  intros Hlen. destruct (insert_all_ok bs _ _ default_wf Hlen) as (t & os & He & Hlo & Hwf & Hos).
  exists t, os. split; [exact He|]. split; [done|]. split; [|split].
  - intros i j bi bj oi oj Hij Hbi Hbj Hoi Hoj Hi. specialize (Hos j bj Hbj). rewrite Hos in Hoj.
    injection Hoj as <-. rewrite app_nil_r.
    assert (Hin : (bi, oi) ∈ rev (zip (take j bs) (take j os))).
    { rewrite elem_of_rev. apply (list_elem_of_lookup_2 _ i), lookup_zip_with_Some.
      exists bi, oi. by rewrite !lookup_take_lt. }
    pose proof (max_hit_in _ _ _ _ Hin Hi). lia.
  - intros j bj Hbj Hno. rewrite (Hos j bj Hbj), app_nil_r. f_equal. rewrite max_hit_none; [done|].
    apply Forall_elem. intros [b o] Hin. rewrite elem_of_rev in Hin. apply list_elem_of_lookup in Hin as (i & Hi).
    apply lookup_zip_with_Some in Hi as (b' & o' & [= <- <-] & Hb & _).
    apply lookup_take_Some in Hb as [Hb Hij]. by apply (Hno i).
  - destruct Hwf as [_ Hpos]. rewrite app_nil_r, length_rev, length_zip_with, Hlo, Nat.min_id in Hpos.
    apply Forall_elem. intros o Ho. apply list_elem_of_lookup in Ho as (i & Ho).
    destruct (lookup_lt_is_Some_2 bs i) as [b Hb]; [rewrite <- Hlo; by eapply lookup_lt_Some|].
    rewrite Forall_elem in Hpos. apply (Hpos (b, o)). rewrite elem_of_rev. apply (list_elem_of_lookup_2 _ i), lookup_zip_with_Some. eauto.
Qed.

Lemma draw_order_correct_witness :
  exists t os, insert_all (bounds_tree_clear bounds_tree_default) [quad 0 0 10 10; quad 5 5 10 10; quad 20 20 4 4] = Ok (t, os) /\
    os = [1; 2; 1]%Z.
Proof.
  destruct (draw_order_correct bounds_tree_default [quad 0 0 10 10; quad 5 5 10 10; quad 20 20 4 4])
    as (t & os & He & _); [simpl; lia|]. exists t, os. split; [done|].
  assert (Hc : match insert_all (bounds_tree_clear bounds_tree_default) [quad 0 0 10 10; quad 5 5 10 10; quad 20 20 4 4] with
               | Ok (_, os) => os = [1; 2; 1]%Z | _ => False end) by (vm_compute; reflexivity).
  by rewrite He in Hc.
Defined.
