(* ===== verification/Scene.v ===== *)
(** * The scene of a frame

    crates/gpui/src/scene.rs: the primitives painted in a frame, their draw orders,
    the record of the paint operations that a later frame replays, and the batches in
    which the renderers draw them.  What is painted in the bounds of a primitive
    (colours, radii, border widths) is an opaque [Paint].  Coordinates are integers. *)

From stdpp Require Import base list option numbers sorting.
From S2P Require Import Prelude Sorting Geometry BoundsTree.

Local Open Scope Z_scope.

(** ** Tiles of the texture atlas (platform.rs) *)

Inductive AtlasTextureKind := TextureMonochrome | TexturePolychrome.

Record AtlasTextureId := mkTextureId { texture_index : Z; texture_kind : AtlasTextureKind }.

#[export] Instance AtlasTextureKind_eq_dec : EqDecision AtlasTextureKind.
Proof. solve_decision. Defined.

#[export] Instance AtlasTextureId_eq_dec : EqDecision AtlasTextureId.
Proof. solve_decision. Defined.

Record AtlasTile := mkTile { texture_id : AtlasTextureId; tile_id : Z; tile_padding : Z; tile_bounds : Bounds }.

Record ContentMask := mkMask { mask_bounds : Bounds }.

Definition DrawOrder : Type := Z.

Inductive BlendMode := Normal | Multiply | Screen | Overlay | SoftLight | Difference.

(** [blend_mode as u32] *)
Definition blend_code (m : BlendMode) : Z :=
  match m with Normal => 0 | Multiply => 1 | Screen => 2 | Overlay => 3 | SoftLight => 4 | Difference => 5 end.

Inductive PrimitiveKind := KShadow | KQuad | KPath | KUnderline | KMonochromeSprite | KPolychromeSprite | KSurface.

#[export] Instance PrimitiveKind_eq_dec : EqDecision PrimitiveKind.
Proof. solve_decision. Defined.

(** The derived [Ord] compares the variants by their position. *)
Definition kind_rank (k : PrimitiveKind) : nat :=
  match k with
  | KShadow => 0 | KQuad => 1 | KPath => 2 | KUnderline => 3
  | KMonochromeSprite => 4 | KPolychromeSprite => 5 | KSurface => 6
  end.

#[export] Instance kind_ord : Ord PrimitiveKind := fun a b => cmp (kind_rank a) (kind_rank b).

#[export] Instance kind_ord_laws : OrdLaws PrimitiveKind.
Proof.
  split.
  - intros a b. change (cmp (kind_rank a) (kind_rank b) = Eq <-> a = b). rewrite cmp_eq. by destruct a, b.
  - intros a b. exact (cmp_flip (kind_rank a) (kind_rank b)).
  - intros a b c. exact (cmp_lt_trans (kind_rank a) (kind_rank b) (kind_rank c)).
Qed.

(** A point of the triangles of a path.  [st_position] is in halves. *)
Record PathVertex := mkVertex { xy_position : Point; st_position : Point; vertex_mask : ContentMask }.

(** A slice, the start of its next batch, and the peekable iterator over the rest. *)
Record BatchSlice (A : Type) := mkBatchSlice { batch_slice : list A; batch_start : nat; batch_iter : list A }.
Arguments mkBatchSlice {A}.
Arguments batch_slice {A}.
Arguments batch_start {A}.
Arguments batch_iter {A}.

Section Scene.
Context {Paint : Type}.

(** ** The primitives *)

Record Shadow := mkShadow {
  shadow_order : DrawOrder; shadow_bounds : Bounds; shadow_mask : ContentMask; shadow_paint : Paint }.

Record Quad := mkQuad {
  quad_order : DrawOrder; quad_bounds : Bounds; quad_mask : ContentMask; quad_paint : Paint; blend_mode : Z }.

Record Path := mkPath {
  path_id : nat; path_order : DrawOrder; path_bounds : Bounds; path_mask : ContentMask;
  vertices : list PathVertex; path_paint : Paint; path_start : Point; path_current : Point; contour_count : nat }.

Record Underline := mkUnderline {
  underline_order : DrawOrder; underline_bounds : Bounds; underline_mask : ContentMask; underline_paint : Paint }.

Record MonochromeSprite := mkMonochrome {
  mono_order : DrawOrder; mono_bounds : Bounds; mono_mask : ContentMask; mono_tile : AtlasTile; mono_paint : Paint }.

Record PolychromeSprite := mkPolychrome {
  poly_order : DrawOrder; poly_bounds : Bounds; poly_mask : ContentMask; poly_tile : AtlasTile; poly_paint : Paint }.

Record PaintSurface := mkSurface {
  surface_order : DrawOrder; surface_bounds : Bounds; surface_mask : ContentMask; surface_paint : Paint }.

Inductive Primitive :=
| PShadow (x : Shadow)
| PQuad (x : Quad)
| PPath (x : Path)
| PUnderline (x : Underline)
| PMonochromeSprite (x : MonochromeSprite)
| PPolychromeSprite (x : PolychromeSprite)
| PSurface (x : PaintSurface).

(** [Primitive::bounds] *)
Definition prim_bounds (p : Primitive) : Bounds :=
  match p with
  | PShadow x => shadow_bounds x
  | PQuad x => quad_bounds x
  | PPath x => path_bounds x
  | PUnderline x => underline_bounds x
  | PMonochromeSprite x => mono_bounds x
  | PPolychromeSprite x => poly_bounds x
  | PSurface x => surface_bounds x
  end.

(** [Primitive::content_mask] *)
Definition prim_mask (p : Primitive) : ContentMask :=
  match p with
  | PShadow x => shadow_mask x
  | PQuad x => quad_mask x
  | PPath x => path_mask x
  | PUnderline x => underline_mask x
  | PMonochromeSprite x => mono_mask x
  | PPolychromeSprite x => poly_mask x
  | PSurface x => surface_mask x
  end.

Inductive PaintOperation :=
| OpPrimitive (kind : PrimitiveKind) (ix : nat)
| StartLayer (b : Bounds)
| EndLayer.

Record Scene := mkScene {
  paint_operations : list PaintOperation;
  primitive_bounds : BoundsTree;
  layer_stack : list DrawOrder;
  shadows : list Shadow;
  quads : list Quad;
  paths : list Path;
  underlines : list Underline;
  monochrome_sprites : list MonochromeSprite;
  polychrome_sprites : list PolychromeSprite;
  surfaces : list PaintSurface;
}.
Implicit Types (s : Scene) (p : Primitive).

Definition scene_default : Scene := mkScene [] bounds_tree_default [] [] [] [] [] [] [] [].

(** ** Painting *)

Definition scene_clear s : Scene := mkScene [] (bounds_tree_clear (primitive_bounds s)) [] [] [] [] [] [] [] [].

Definition scene_len s : nat := length (paint_operations s).

(** The scene with a new record of operations, bounds tree and layer stack. *)
Definition with_frame s (ops : list PaintOperation) (t : BoundsTree) (ls : list DrawOrder) : Scene :=
  mkScene ops t ls (shadows s) (quads s) (paths s) (underlines s) (monochrome_sprites s) (polychrome_sprites s) (surfaces s).

Definition push_layer s (b : Bounds) : outcome Scene :=
  let! (t, order) := bounds_insert (primitive_bounds s) b in
  Ok (with_frame s (paint_operations s ++ [StartLayer b]) t (layer_stack s ++ [order])).

Definition pop_layer s : Scene :=
  with_frame s (paint_operations s ++ [EndLayer]) (primitive_bounds s) (removelast (layer_stack s)).

(** The primitive in the vector of its kind, with its order; its kind and index. *)
Definition push_primitive s p (order : DrawOrder) : Scene * (PrimitiveKind * nat) :=
  let 'mkScene ops t ls sh qu pa un mo po su := s in
  match p with
  | PShadow (mkShadow _ b m x) =>
      (mkScene ops t ls (sh ++ [mkShadow order b m x]) qu pa un mo po su, (KShadow, length sh))
  | PQuad (mkQuad _ b m x bm) =>
      (mkScene ops t ls sh (qu ++ [mkQuad order b m x bm]) pa un mo po su, (KQuad, length qu))
  | PPath (mkPath _ _ b m v x st cu n) =>
      (mkScene ops t ls sh qu (pa ++ [mkPath (length pa) order b m v x st cu n]) un mo po su, (KPath, length pa))
  | PUnderline (mkUnderline _ b m x) =>
      (mkScene ops t ls sh qu pa (un ++ [mkUnderline order b m x]) mo po su, (KUnderline, length un))
  | PMonochromeSprite (mkMonochrome _ b m tl x) =>
      (mkScene ops t ls sh qu pa un (mo ++ [mkMonochrome order b m tl x]) po su, (KMonochromeSprite, length mo))
  | PPolychromeSprite (mkPolychrome _ b m tl x) =>
      (mkScene ops t ls sh qu pa un mo (po ++ [mkPolychrome order b m tl x]) su, (KPolychromeSprite, length po))
  | PSurface (mkSurface _ b m x) =>
      (mkScene ops t ls sh qu pa un mo po (su ++ [mkSurface order b m x]), (KSurface, length su))
  end.

Definition insert_primitive s p : outcome Scene :=
  let clipped_bounds := intersect (prim_bounds p) (mask_bounds (prim_mask p)) in
  if is_empty clipped_bounds then Ok s
  else
    let! (t, order) := (match list.last (layer_stack s) with
                        | Some order => Ok (primitive_bounds s, order)
                        | None => bounds_insert (primitive_bounds s) clipped_bounds
                        end) in
    let '(s, (kind, ix)) := push_primitive (with_frame s (paint_operations s) t (layer_stack s)) p order in
    Ok (with_frame s (paint_operations s ++ [OpPrimitive kind ix]) (primitive_bounds s) (layer_stack s)).

(** The primitive that an operation refers to; an index out of range panics. *)
Definition primitive_at s (kind : PrimitiveKind) (ix : nat) : outcome Primitive :=
  match kind with
  | KShadow => let! x := index (shadows s) ix in Ok (PShadow x)
  | KQuad => let! x := index (quads s) ix in Ok (PQuad x)
  | KPath => let! x := index (paths s) ix in Ok (PPath x)
  | KUnderline => let! x := index (underlines s) ix in Ok (PUnderline x)
  | KMonochromeSprite => let! x := index (monochrome_sprites s) ix in Ok (PMonochromeSprite x)
  | KPolychromeSprite => let! x := index (polychrome_sprites s) ix in Ok (PPolychromeSprite x)
  | KSurface => let! x := index (surfaces s) ix in Ok (PSurface x)
  end.

Definition replay_operation (prev_scene : Scene) s (operation : PaintOperation) : outcome Scene :=
  match operation with
  | OpPrimitive kind ix => let! p := primitive_at prev_scene kind ix in insert_primitive s p
  | StartLayer b => push_layer s b
  | EndLayer => Ok (pop_layer s)
  end.

(** [&v[start..end]] *)
Definition slice_range {A} (v : list A) (start end_ : nat) : outcome (list A) :=
  if ((start <=? end_) && (end_ <=? length v))%nat then Ok (take (end_ - start) (drop start v)) else Panic.

Definition scene_replay s (start end_ : nat) (prev_scene : Scene) : outcome Scene :=
  let! operations := slice_range (paint_operations prev_scene) start end_ in
  ofold (replay_operation prev_scene) operations s.

(** ** Finishing a frame *)

Section Finish.
Context `{UnstableSort}.

(** The sort is skipped when the primitives are in order already. *)
Definition sort_primitives {A K} `{Ord K} (key : A -> K) (l : list A) : list A :=
  if is_sorted_by_key key l then l else sort_unstable_by_key key l.

Definition mono_key (x : MonochromeSprite) : Z * Z := (mono_order x, tile_id (mono_tile x)).
Definition poly_key (x : PolychromeSprite) : Z * Z := (poly_order x, tile_id (poly_tile x)).

Definition scene_finish s : Scene :=
  mkScene (paint_operations s) (primitive_bounds s) (layer_stack s)
    (sort_primitives shadow_order (shadows s)) (sort_primitives quad_order (quads s))
    (sort_primitives path_order (paths s)) (sort_primitives underline_order (underlines s))
    (sort_primitives mono_key (monochrome_sprites s)) (sort_primitives poly_key (polychrome_sprites s))
    (sort_primitives surface_order (surfaces s)).
End Finish.

(** ** The batches *)

Record BatchIterator := mkBatchIterator {
  it_shadows : BatchSlice Shadow;
  it_quads : BatchSlice Quad;
  it_paths : BatchSlice Path;
  it_underlines : BatchSlice Underline;
  it_monochrome_sprites : BatchSlice MonochromeSprite;
  it_polychrome_sprites : BatchSlice PolychromeSprite;
  it_surfaces : BatchSlice PaintSurface;
}.

Inductive PrimitiveBatch :=
| Shadows (l : list Shadow)
| Quads (l : list Quad)
| Paths (l : list Path)
| Underlines (l : list Underline)
| MonochromeSprites (texture : AtlasTextureId) (sprites : list MonochromeSprite)
| PolychromeSprites (texture : AtlasTextureId) (sprites : list PolychromeSprite)
| Surfaces (l : list PaintSurface).

Definition slice_batches {A} (l : list A) : BatchSlice A := mkBatchSlice l 0 l.

Definition batch_iterator s : BatchIterator :=
  mkBatchIterator (slice_batches (shadows s)) (slice_batches (quads s)) (slice_batches (paths s))
    (slice_batches (underlines s)) (slice_batches (monochrome_sprites s)) (slice_batches (polychrome_sprites s))
    (slice_batches (surfaces s)).

Definition U32_MAX : Z := 2 ^ 32 - 1.

(** [while iter.next_if(f).is_some() { end += 1 }] *)
Fixpoint next_while {A} (f : A -> bool) (iter : list A) (end_ : nat) : list A * nat :=
  match iter with
  | x :: iter' => if f x then next_while f iter' (S end_) else (iter, end_)
  | [] => (iter, end_)
  end.

(** A batch of one slice: its first element is taken, then those that [f] accepts. *)
Definition take_batch {A} (b : BatchSlice A) (f : A -> bool) : outcome (list A * BatchSlice A) :=
  let '(iter, end_) := next_while f (tail (batch_iter b)) (S (batch_start b)) in
  let! batch := slice_range (batch_slice b) (batch_start b) end_ in
  Ok (batch, mkBatchSlice (batch_slice b) end_ iter).

(** The order of the next element of a slice, as [peek] gives it. *)
Definition peek_order {A} (order : A -> DrawOrder) (b : BatchSlice A) : option DrawOrder :=
  option_map order (head (batch_iter b)).

Definition unwrap_max (o : option DrawOrder) : Z := match o with Some o => o | None => U32_MAX end.

Definition orders_and_kinds (b : BatchIterator) : list (option DrawOrder * PrimitiveKind) :=
  sort_by_key (fun e => (unwrap_max e.1, e.2))
    [(peek_order shadow_order (it_shadows b), KShadow);
     (peek_order quad_order (it_quads b), KQuad);
     (peek_order path_order (it_paths b), KPath);
     (peek_order underline_order (it_underlines b), KUnderline);
     (peek_order mono_order (it_monochrome_sprites b), KMonochromeSprite);
     (peek_order poly_order (it_polychrome_sprites b), KPolychromeSprite);
     (peek_order surface_order (it_surfaces b), KSurface)].

(** The [match] of [BatchIterator::next]: a batch of the kind, up to the given order
    and kind. *)
Definition kind_batch (b : BatchIterator) (batch_kind : PrimitiveKind) (max_order_and_kind : Z * PrimitiveKind)
    : outcome (PrimitiveBatch * BatchIterator) :=
  let before order := ltb (order, batch_kind) max_order_and_kind in
  let 'mkBatchIterator sh qu pa un mo po su := b in
  match batch_kind with
  | KShadow =>
      let! (l, sh) := take_batch sh (fun x => before (shadow_order x)) in
      Ok (Shadows l, mkBatchIterator sh qu pa un mo po su)
  | KQuad =>
      let! first := unwrap (head (batch_iter qu)) in
      let! (l, qu) := take_batch qu (fun x => (blend_mode first =? 0) && (blend_mode x =? 0) && before (quad_order x)) in
      Ok (Quads l, mkBatchIterator sh qu pa un mo po su)
  | KPath =>
      let! (l, pa) := take_batch pa (fun x => before (path_order x)) in
      Ok (Paths l, mkBatchIterator sh qu pa un mo po su)
  | KUnderline =>
      let! (l, un) := take_batch un (fun x => before (underline_order x)) in
      Ok (Underlines l, mkBatchIterator sh qu pa un mo po su)
  | KMonochromeSprite =>
      let! first := unwrap (head (batch_iter mo)) in
      let texture := texture_id (mono_tile first) in
      let! (l, mo) := take_batch mo (fun x => before (mono_order x) && bool_decide (texture_id (mono_tile x) = texture)) in
      Ok (MonochromeSprites texture l, mkBatchIterator sh qu pa un mo po su)
  | KPolychromeSprite =>
      let! first := unwrap (head (batch_iter po)) in
      let texture := texture_id (poly_tile first) in
      let! (l, po) := take_batch po (fun x => before (poly_order x) && bool_decide (texture_id (poly_tile x) = texture)) in
      Ok (PolychromeSprites texture l, mkBatchIterator sh qu pa un mo po su)
  | KSurface =>
      let! (l, su) := take_batch su (fun x => before (surface_order x)) in
      Ok (Surfaces l, mkBatchIterator sh qu pa un mo po su)
  end.

Definition batch_next (b : BatchIterator) : outcome (option (PrimitiveBatch * BatchIterator)) :=
  let l := orders_and_kinds b in
  let! first := index l 0 in
  let! second := index l 1 in
  match first.1 with
  | Some _ =>
      let! r := kind_batch b first.2 (unwrap_max second.1, second.2) in
      Ok (Some r)
  | None => Ok None
  end.

Fixpoint collect_batches (fuel : nat) (b : BatchIterator) : outcome (list PrimitiveBatch) :=
  match fuel with
  | O => OutOfFuel
  | S fuel =>
      let! o := batch_next b in
      match o with
      | None => Ok []
      | Some (batch, b) => let! l := collect_batches fuel b in Ok (batch :: l)
      end
  end.

(** The number of primitives of the scene. *)
Definition primitive_count s : nat :=
  length (shadows s) + length (quads s) + length (paths s) + length (underlines s) +
  length (monochrome_sprites s) + length (polychrome_sprites s) + length (surfaces s).

Definition batches s : outcome (list PrimitiveBatch) := collect_batches (primitive_count s + 1) (batch_iterator s).

(** ** Building a path *)

Definition scene_path_new (start : Point) (paint : Paint) : Path :=
  mkPath 0 0 (mkBounds start (mkSize 0 0)) (mkMask (mkBounds (mkPoint 0 0) (mkSize 0 0))) [] paint start start 0.

Definition move_to (p : Path) (to : Point) : Path :=
  mkPath (path_id p) (path_order p) (path_bounds p) (path_mask p) (vertices p) (path_paint p) to to (S (contour_count p)).

(** [Bounds] of a single point. *)
Definition point_bounds (p : Point) : Bounds := mkBounds p (mkSize 0 0).

Definition push_triangle (p : Path) (xy st : Point * Point * Point) : Path :=
  let '(xy0, xy1, xy2) := xy in
  let '(st0, st1, st2) := st in
  let b := union (union (union (path_bounds p) (point_bounds xy0)) (point_bounds xy1)) (point_bounds xy2) in
  let no_mask := mkMask (mkBounds (mkPoint 0 0) (mkSize 0 0)) in
  mkPath (path_id p) (path_order p) b (path_mask p)
    (vertices p ++ [mkVertex xy0 st0 no_mask; mkVertex xy1 st1 no_mask; mkVertex xy2 st2 no_mask])
    (path_paint p) (path_start p) (path_current p) (contour_count p).

Definition with_contours (p : Path) (n : nat) : Path :=
  mkPath (path_id p) (path_order p) (path_bounds p) (path_mask p) (vertices p) (path_paint p)
    (path_start p) (path_current p) n.

Definition with_current (p : Path) (to : Point) : Path :=
  mkPath (path_id p) (path_order p) (path_bounds p) (path_mask p) (vertices p) (path_paint p)
    (path_start p) to (contour_count p).

Definition line_to (p : Path) (to : Point) : Path :=
  let p := with_contours p (S (contour_count p)) in
  let p := if (1 <? contour_count p)%nat then
             push_triangle p (path_start p, path_current p, to) (mkPoint 0 2, mkPoint 0 2, mkPoint 0 2)
           else p in
  with_current p to.

Definition curve_to (p : Path) (to ctrl : Point) : Path :=
  let p := with_contours p (S (contour_count p)) in
  let p := if (1 <? contour_count p)%nat then
             push_triangle p (path_start p, path_current p, to) (mkPoint 0 2, mkPoint 0 2, mkPoint 0 2)
           else p in
  let p := push_triangle p (path_current p, ctrl, to) (mkPoint 0 0, mkPoint 1 0, mkPoint 2 2) in
  with_current p to.

Definition clipped_bounds (p : Path) : Bounds := intersect (path_bounds p) (mask_bounds (path_mask p)).
End Scene.

(** ** Transformations *)

(** [TransformationMatrix]: the rows of [rotation_scale], and [translation]. *)
Record TransformationMatrix := mkMatrix { m00 : Z; m01 : Z; m10 : Z; m11 : Z; t0 : Z; t1 : Z }.

#[export] Instance TransformationMatrix_eq_dec : EqDecision TransformationMatrix.
Proof. solve_decision. Defined.

Definition matrix_unit : TransformationMatrix := mkMatrix 1 0 0 1 0 0.

Definition compose (self other : TransformationMatrix) : TransformationMatrix :=
  if bool_decide (other = matrix_unit) then self
  else
    mkMatrix (m00 self * m00 other + m01 self * m10 other) (m00 self * m01 other + m01 self * m11 other)
      (m10 self * m00 other + m11 self * m10 other) (m10 self * m01 other + m11 self * m11 other)
      (t0 self + m00 self * t0 other + m01 self * t1 other) (t1 self + m10 self * t0 other + m11 self * t1 other).

Definition matrix_translate (m : TransformationMatrix) (p : Point) : TransformationMatrix :=
  compose m (mkMatrix 1 0 0 1 (px p) (py p)).

(** [rotate], given the cosine and the sine of the angle. *)
Definition matrix_rotate (m : TransformationMatrix) (cos sin : Z) : TransformationMatrix :=
  compose m (mkMatrix cos (- sin) sin cos 0 0).

Definition matrix_scale (m : TransformationMatrix) (s : Size) : TransformationMatrix :=
  compose m (mkMatrix (width s) 0 0 (height s) 0 0).

Definition matrix_apply (m : TransformationMatrix) (p : Point) : Point :=
  mkPoint (t0 m + m00 m * px p + m01 m * py p) (t1 m + m10 m * px p + m11 m * py p).
