(* ===== verification/SceneBatches.v ===== *)
(** * The batches of a scene

    The renderers draw a scene by its batches.  The theorems show that the batches draw
    every primitive once, in the order of draw order and kind, that all of a batch can
    be drawn together, and that no two consecutive batches could have been one. *)

From stdpp Require Import base list option numbers sorting.
From S2P Require Import Prelude Sorting Geometry BoundsTree Scene.

Local Open Scope Z_scope.

Section Batches.
Context {Paint : Type}.
Local Abbreviation Primitive := (@Primitive Paint).
Local Abbreviation Scene := (@Scene Paint).
Local Abbreviation BatchIterator := (@BatchIterator Paint).
Local Abbreviation PrimitiveBatch := (@PrimitiveBatch Paint).
Implicit Types (p : Primitive) (b : BatchIterator) (k : PrimitiveKind).

(** ** The primitives of each kind *)

Definition prim_kind p : PrimitiveKind :=
  match p with
  | PShadow _ => KShadow | PQuad _ => KQuad | PPath _ => KPath | PUnderline _ => KUnderline
  | PMonochromeSprite _ => KMonochromeSprite | PPolychromeSprite _ => KPolychromeSprite | PSurface _ => KSurface
  end.

Definition prim_order p : Z :=
  match p with
  | PShadow x => shadow_order x | PQuad x => quad_order x | PPath x => path_order x | PUnderline x => underline_order x
  | PMonochromeSprite x => mono_order x | PPolychromeSprite x => poly_order x | PSurface x => surface_order x
  end.

(** Primitives are drawn by order, and by kind among equal orders. *)
Definition prim_key p : Z * PrimitiveKind := (prim_order p, prim_kind p).

Definition primitives (s : Scene) k : list Primitive :=
  match k with
  | KShadow => map PShadow (shadows s)
  | KQuad => map PQuad (quads s)
  | KPath => map PPath (paths s)
  | KUnderline => map PUnderline (underlines s)
  | KMonochromeSprite => map PMonochromeSprite (monochrome_sprites s)
  | KPolychromeSprite => map PPolychromeSprite (polychrome_sprites s)
  | KSurface => map PSurface (surfaces s)
  end.

(** What an iterator has still to draw. *)
Definition rest b k : list Primitive :=
  match k with
  | KShadow => map PShadow (batch_iter (it_shadows b))
  | KQuad => map PQuad (batch_iter (it_quads b))
  | KPath => map PPath (batch_iter (it_paths b))
  | KUnderline => map PUnderline (batch_iter (it_underlines b))
  | KMonochromeSprite => map PMonochromeSprite (batch_iter (it_monochrome_sprites b))
  | KPolychromeSprite => map PPolychromeSprite (batch_iter (it_polychrome_sprites b))
  | KSurface => map PSurface (batch_iter (it_surfaces b))
  end.

Definition batch_primitives (batch : PrimitiveBatch) : list Primitive :=
  match batch with
  | Shadows l => map PShadow l
  | Quads l => map PQuad l
  | Paths l => map PPath l
  | Underlines l => map PUnderline l
  | MonochromeSprites _ l => map PMonochromeSprite l
  | PolychromeSprites _ l => map PPolychromeSprite l
  | Surfaces l => map PSurface l
  end.

(** The primitives in the order in which the batches draw them. *)
Definition drawn (bs : list PrimitiveBatch) : list Primitive := flat_map batch_primitives bs.

(** All of a batch can be drawn by one call: sprites share their texture, and a quad
    with a blend mode is alone. *)
Definition uniform (batch : PrimitiveBatch) : Prop :=
  batch_primitives batch <> [] /\
  match batch with
  | Quads l => length l = 1%nat \/ Forall (fun q => blend_mode q = 0) l
  | MonochromeSprites t l => Forall (fun x => texture_id (mono_tile x) = t) l
  | PolychromeSprites t l => Forall (fun x => texture_id (poly_tile x) = t) l
  | _ => True
  end.

(** Two batches that one call could draw. *)
Definition joinable (a c : PrimitiveBatch) : bool :=
  match a, c with
  | Shadows _, Shadows _ | Paths _, Paths _ | Underlines _, Underlines _ | Surfaces _, Surfaces _ => true
  | Quads (x :: _), Quads (y :: _) => (blend_mode x =? 0) && (blend_mode y =? 0)
  | MonochromeSprites t _, MonochromeSprites t' _ | PolychromeSprites t _, PolychromeSprites t' _ => bool_decide (t = t')
  | _, _ => false
  end.

(** ** One slice *)

Definition slice_ok {A} (sl : BatchSlice A) : Prop :=
  batch_iter sl = drop (batch_start sl) (batch_slice sl) /\ (batch_start sl <= length (batch_slice sl))%nat.

Lemma next_while_ok {A} (f : A -> bool) l n :
  exists m, (m <= length l)%nat /\ next_while f l n = (drop m l, (n + m)%nat) /\ Forall (fun x => f x = true) (take m l) /\
    forall y, head (drop m l) = Some y -> f y = false.
Proof.
  revert n. induction l as [|x l IH]; intros n; cbn [next_while].
  - exists 0%nat. split_and!; [done|by rewrite Nat.add_0_r|constructor|done].
  - destruct (f x) eqn:E.
    + destruct (IH (S n)) as (m & Hm & -> & Hall & Hy). exists (S m). cbn. rewrite Nat.add_succ_r.
      split_and!; [lia|done|by constructor|done].
    + exists 0%nat. rewrite Nat.add_0_r. split_and!; [lia|done|constructor|by intros y [= <-]].
Qed.

Lemma take_batch_ok {A} (sl : BatchSlice A) (f : A -> bool) x l :
  slice_ok sl -> batch_iter sl = x :: l ->
  exists m sl', take_batch sl f = Ok (x :: take m l, sl') /\ slice_ok sl' /\ batch_iter sl' = drop m l /\
    Forall (fun y => f y = true) (take m l) /\ forall y, head (drop m l) = Some y -> f y = false.
Proof.
  intros [Hi Hs] Hx. unfold take_batch. rewrite Hx. cbn [tail].
  destruct (next_while_ok f l (S (batch_start sl))) as (m & Hm & -> & Hall & Hy).
  assert (Hlen : (S (length l) = length (batch_slice sl) - batch_start sl)%nat).
  { rewrite <- length_drop, <- Hi, Hx. done. }
  unfold slice_range.
  assert (((batch_start sl <=? S (batch_start sl) + m) && (S (batch_start sl) + m <=? length (batch_slice sl)))%nat = true) as ->
    by (apply andb_true_intro; split; apply Nat.leb_le; clear - Hs Hm Hlen; lia). cbn [obind].
  exists m. eexists. split.
  - rewrite <- Hi, Hx. replace (S (batch_start sl) + m - batch_start sl)%nat with (S m) by lia. reflexivity.
  - split; [|by split_and!]. split; cbn [batch_iter batch_slice batch_start]; [|lia].
    replace (S (batch_start sl) + m)%nat with (batch_start sl + S m)%nat by lia. by rewrite <- drop_drop, <- Hi, Hx.
Qed.

Definition it_ok b : Prop :=
  slice_ok (it_shadows b) /\ slice_ok (it_quads b) /\ slice_ok (it_paths b) /\ slice_ok (it_underlines b) /\
  slice_ok (it_monochrome_sprites b) /\ slice_ok (it_polychrome_sprites b) /\ slice_ok (it_surfaces b).

(** ** One batch *)

(** Why the primitive [y] is not drawn with the batch, if not for its order. *)
Definition set_apart (batch : PrimitiveBatch) (y : Primitive) : Prop :=
  match batch, y with
  | Quads (x :: _), PQuad y => blend_mode x <> 0 \/ blend_mode y <> 0
  | MonochromeSprites t _, PMonochromeSprite y => texture_id (mono_tile y) <> t
  | PolychromeSprites t _, PPolychromeSprite y => texture_id (poly_tile y) <> t
  | _, _ => False
  end.

Definition batch_kind (batch : PrimitiveBatch) : PrimitiveKind :=
  match batch with
  | Shadows _ => KShadow | Quads _ => KQuad | Paths _ => KPath | Underlines _ => KUnderline
  | MonochromeSprites _ _ => KMonochromeSprite | PolychromeSprites _ _ => KPolychromeSprite | Surfaces _ => KSurface
  end.

(** The batch of kind [k] taken from [b] up to [mx], which leaves [b']. *)
Record batch_taken b k (mx : Z * PrimitiveKind) (batch : PrimitiveBatch) b' : Prop := {
  bat_ok : it_ok b';
  bat_split : rest b k = batch_primitives batch ++ rest b' k;
  bat_kind : batch_kind batch = k;
  bat_others : forall k', k' <> k -> rest b' k' = rest b k';
  bat_before : forall y, y ∈ tail (batch_primitives batch) -> ltb (prim_key y) mx = true;
  bat_uniform : uniform batch;
  bat_stop : forall y, head (rest b' k) = Some y -> ltb (prim_key y) mx = false \/ set_apart batch y;
}.

Lemma map_split {A} (f : A -> Primitive) x m l : map f (x :: l) = map f (x :: take m l) ++ map f (drop m l).
Proof. rewrite <- map_app. cbn [app]. by rewrite take_drop. Qed.

Lemma elem_tail_map {A} (f : A -> Primitive) (x : A) l y : y ∈ tail (map f (x :: l)) -> exists z, y = f z /\ z ∈ l.
Proof. cbn [map tail]. change map with (@fmap list _). intros (z & -> & Hz)%list_elem_of_fmap. eauto. Qed.

Lemma uniform_texture {A} (f : A -> AtlasTextureId) (g : A -> bool) t x m l :
  Forall (fun y => g y && bool_decide (f y = t) = true) (take m l) -> f x = t -> Forall (fun y => f y = t) (x :: take m l).
Proof.
  intros H Hx. constructor; [done|]. eapply Forall_weaken; [|exact H]. cbn beta. intros y.
  rewrite andb_true_iff, bool_decide_eq_true. tauto.
Qed.

(** One of the seven branches: the batch is taken from the slice [sl]; what is left to
    show is that its elements come before the limit, that it is uniform, and why it stops. *)
Local Ltac take_from sl H x l Ei m sl' Hsl Hit Hall Hstop y z Hz Hf r :=
  destruct (batch_iter sl) as [|x l] eqn:Ei; [done|]; cbn [head unwrap obind];
  match goal with
  | |- context [take_batch sl ?f] =>
      destruct (take_batch_ok sl f x l H Ei) as (m & sl' & -> & Hsl & Hit & Hall & Hstop); cbn [obind];
      do 2 eexists; split; [reflexivity|]
  end;
  split;
  [by split_and!
  |cbn [rest it_shadows it_quads it_paths it_underlines it_monochrome_sprites it_polychrome_sprites it_surfaces];
   rewrite Ei, Hit; apply map_split
  |reflexivity
  |by intros []
  |intros y (z & -> & Hz)%elem_tail_map; pose proof (proj1 (Forall_elem _ _) Hall z Hz) as Hf; cbn beta in Hf
  |split; [done|]
  |intros y;
   cbn [rest it_shadows it_quads it_paths it_underlines it_monochrome_sprites it_polychrome_sprites it_surfaces];
   rewrite Hit; destruct (drop m l) as [|z r]; [done|]; intros [= <-]; specialize (Hstop z eq_refl); cbn beta in Hstop].

Lemma kind_batch_ok b k mx :
  it_ok b -> rest b k <> [] ->
  exists batch b', kind_batch b k mx = Ok (batch, b') /\ batch_taken b k mx batch b'.
Proof.
  intros Hok Hne. destruct b as [sh qu pa un mo po su]. unfold it_ok in Hok.
  cbn [it_shadows it_quads it_paths it_underlines it_monochrome_sprites it_polychrome_sprites it_surfaces] in Hok.
  destruct Hok as (H1 & H2 & H3 & H4 & H5 & H6 & H7). unfold kind_batch.
  destruct k; cbn [rest it_shadows it_quads it_paths it_underlines it_monochrome_sprites it_polychrome_sprites it_surfaces] in Hne.
  - take_from sh H1 x l Ei m sl' Hsl Hit Hall Hstop y z Hz Hf r; [exact Hf|done|by left].
  - take_from qu H2 x l Ei m sl' Hsl Hit Hall Hstop y z Hz Hf r.
    + by apply andb_true_iff in Hf as [_ Hf].
    + destruct (blend_mode x =? 0) eqn:Ex; cbn [andb] in Hall.
      * right. constructor; [by apply Z.eqb_eq|]. eapply Forall_weaken; [|exact Hall]. cbn beta. intros y.
        rewrite andb_true_iff, Z.eqb_eq. tauto.
      * left. destruct (take m l) as [|y r]; [done|]. by inversion Hall.
    + rewrite !andb_false_iff, !Z.eqb_neq in Hstop. cbn [set_apart]. tauto.
  - take_from pa H3 x l Ei m sl' Hsl Hit Hall Hstop y z Hz Hf r; [exact Hf|done|by left].
  - take_from un H4 x l Ei m sl' Hsl Hit Hall Hstop y z Hz Hf r; [exact Hf|done|by left].
  - take_from mo H5 x l Ei m sl' Hsl Hit Hall Hstop y z Hz Hf r.
    + by apply andb_true_iff in Hf as [Hf _].
    + eapply (uniform_texture (fun y => texture_id (mono_tile y))); [exact Hall|reflexivity].
    + rewrite andb_false_iff, bool_decide_eq_false in Hstop. cbn [set_apart]. tauto.
  - take_from po H6 x l Ei m sl' Hsl Hit Hall Hstop y z Hz Hf r.
    + by apply andb_true_iff in Hf as [Hf _].
    + eapply (uniform_texture (fun y => texture_id (poly_tile y))); [exact Hall|reflexivity].
    + rewrite andb_false_iff, bool_decide_eq_false in Hstop. cbn [set_apart]. tauto.
  - take_from su H7 x l Ei m sl' Hsl Hit Hall Hstop y z Hz Hf r; [exact Hf|done|by left].
Qed.

(** ** The kind of the next batch *)

Definition all_kinds : list PrimitiveKind :=
  [KShadow; KQuad; KPath; KUnderline; KMonochromeSprite; KPolychromeSprite; KSurface].

Definition peek b k : option Z := option_map prim_order (head (rest b k)).

Lemma all_kinds_nodup : NoDup all_kinds.
Proof. apply (bool_decide_unpack _). by vm_compute. Qed.

Lemma elem_all_kinds k : k ∈ all_kinds.
Proof. apply (bool_decide_unpack _). by destruct k. Qed.

Lemma rest_kind b k p : p ∈ rest b k -> prim_kind p = k.
Proof.
  destruct k; cbn [rest]; change map with (@fmap list _); intros (z & -> & _)%list_elem_of_fmap; done.
Qed.

Lemma head_in {A} (l : list A) x : head l = Some x -> x ∈ l.
Proof. destruct l; [done|]. intros [= ->]. apply elem_of_cons. by left. Qed.

Definition entry_key (e : option DrawOrder * PrimitiveKind) : Z * PrimitiveKind := (unwrap_max e.1, e.2).

Lemma orders_and_kinds_ok b :
  orders_and_kinds b ≡ₚ map (fun k => (peek b k, k)) all_kinds /\
  StronglySorted (key_le entry_key) (orders_and_kinds b).
Proof.
  unfold orders_and_kinds. split; [|apply sort_by_key_sorted]. rewrite sort_by_key_perm.
  unfold all_kinds, peek, peek_order. cbn [map rest].
  destruct (batch_iter (it_shadows b)), (batch_iter (it_quads b)), (batch_iter (it_paths b)), (batch_iter (it_underlines b)),
    (batch_iter (it_monochrome_sprites b)), (batch_iter (it_polychrome_sprites b)), (batch_iter (it_surfaces b)); reflexivity.
Qed.

(** The two first kinds: [k1] is the least of all, [k2] the least of the others. *)
Lemma first_two b :
  exists k1 k2 r, orders_and_kinds b = (peek b k1, k1) :: (peek b k2, k2) :: r /\ k1 <> k2 /\
    (forall k, k <> k1 -> key_le entry_key (peek b k1, k1) (peek b k, k)) /\
    (forall k, k <> k1 -> k <> k2 -> key_le entry_key (peek b k2, k2) (peek b k, k)).
Proof.
  destruct (orders_and_kinds_ok b) as [Hp Hs].
  assert (Hin : forall k, (peek b k, k) ∈ orders_and_kinds b).
  { intros k. rewrite Hp. change map with (@fmap list _). apply list_elem_of_fmap. exists k. split; [done|apply elem_all_kinds]. }
  assert (Hof : forall e, e ∈ orders_and_kinds b -> exists k, e = (peek b k, k)).
  { intros e. rewrite Hp. change map with (@fmap list _). intros (k & -> & _)%list_elem_of_fmap. eauto. }
  assert (Hnd : NoDup (map snd (orders_and_kinds b))).
  { rewrite Hp, map_map. cbn [snd]. rewrite map_id. apply all_kinds_nodup. }
  destruct (orders_and_kinds b) as [|e1 [|e2 r]].
  - by specialize (Hin KQuad); apply elem_of_nil in Hin.
  - pose proof (Hin KQuad) as H1%list_elem_of_singleton. pose proof (Hin KPath) as H2%list_elem_of_singleton. congruence.
  - destruct (Hof e1) as [k1 ->]; [by left|]. destruct (Hof e2) as [k2 ->]; [by right; left|].
    exists k1, k2, r. split; [done|]. cbn [map snd] in Hnd. apply list.NoDup_cons in Hnd as [Hn1 Hn2].
    split; [intros ->; apply Hn1; by left|].
    apply StronglySorted_cons in Hs as [Hf1 [Hf2 _]%StronglySorted_cons]. rewrite Forall_elem in Hf1, Hf2. split.
    + intros k Hk. apply Hf1. specialize (Hin k). apply elem_of_cons in Hin as [[= _ ->]|Hin]; done.
    + intros k Hk Hk2. apply Hf2. specialize (Hin k). apply elem_of_cons in Hin as [[= _ ->]|Hin]; [done|].
      apply elem_of_cons in Hin as [[= _ ->]|Hin]; done.
Qed.

(** The batch, with its place among the others. *)
Record batch_next_of b k (batch : PrimitiveBatch) b' : Prop := {
  bn_ok : it_ok b';
  bn_split : rest b k = batch_primitives batch ++ rest b' k;
  bn_kind : batch_kind batch = k;
  bn_others : forall k', k' <> k -> rest b' k' = rest b k';
  bn_uniform : uniform batch;
  bn_first : forall y k' z, y ∈ batch_primitives batch -> k' <> k -> head (rest b k') = Some z ->
    cmp (prim_key y) (prim_key z) = Lt;
  bn_stop : forall y, head (rest b' k) = Some y ->
    set_apart batch y \/ exists k' z, k' <> k /\ head (rest b k') = Some z /\ cmp (prim_key z) (prim_key y) = Lt;
}.

(** Every order is below the one that stands for an empty slice. *)
Definition orders_small b : Prop := forall k p, p ∈ rest b k -> prim_order p < U32_MAX.

Lemma head_key b k z : head (rest b k) = Some z -> entry_key (peek b k, k) = prim_key z.
Proof. intros H. unfold entry_key, peek, prim_key. rewrite H. cbn. by rewrite (rest_kind b k z (head_in _ _ H)). Qed.

Lemma none_key b k : rest b k = [] -> entry_key (peek b k, k) = (U32_MAX, k).
Proof. intros H. unfold entry_key, peek. by rewrite H. Qed.

Lemma cmp_pair_order (o1 o2 : Z) (k1 k2 : PrimitiveKind) : o1 < o2 -> cmp (o1, k1) (o2, k2) = Lt.
Proof. intros H. unfold cmp, prod_ord. cbn. unfold cmp at 1, Z_ord. apply Z.compare_lt_iff in H. by rewrite H. Qed.

(** Keys of different kinds are different. *)
Lemma cmp_kinds (a c : Z * PrimitiveKind) : a.2 <> c.2 -> cmp a c <> Gt -> cmp a c = Lt.
Proof. intros Hk H. destruct (cmp a c) eqn:E; [|done|done]. apply cmp_eq in E. by subst. Qed.

Lemma batch_next_ok b :
  it_ok b -> orders_small b ->
  (batch_next b = Ok None /\ forall k, rest b k = []) \/
  exists k batch b', batch_next b = Ok (Some (batch, b')) /\ batch_next_of b k batch b'.
Proof.
  intros Hok Hsm. destruct (first_two b) as (k1 & k2 & r & E & Hne & H1 & H2). unfold batch_next. rewrite E.
  cbn [index lookup list_lookup unwrap obind fst snd]. destruct (rest b k1) as [|x l] eqn:Er1.
  - left. assert (peek b k1 = None) as -> by (unfold peek; by rewrite Er1). split; [done|]. intros k.
    destruct (decide (k = k1)) as [->|Hk]; [done|]. destruct (rest b k) as [|z q] eqn:Ez; [done|exfalso].
    apply (H1 k Hk). rewrite (none_key b k1 Er1), (head_key b k z) by (by rewrite Ez). apply cmp_gt, cmp_pair_order.
    apply (Hsm k). rewrite Ez. by left.
  - right. assert (peek b k1 = Some (prim_order x)) as -> by (unfold peek; by rewrite Er1).
    change (unwrap_max (peek b k2), k2) with (entry_key (peek b k2, k2)).
    destruct (kind_batch_ok b k1 (entry_key (peek b k2, k2)) Hok) as (batch & b' & -> & Ht); [by rewrite Er1|]. cbn [obind].
    exists k1, batch, b'. split; [done|]. destruct Ht as [Hok' Hsp Hki Hot Hbe Hun Hst].
    assert (Hkind : forall y, y ∈ batch_primitives batch -> prim_kind y = k1).
    { intros y Hy. apply (rest_kind b). rewrite Hsp. apply elem_of_app. by left. }
    split; try done.
    + intros y k' z Hy Hk' Hz. pose proof (head_key b k' z Hz) as Ekz.
      assert (Hle : key_le id (prim_key y) (prim_key z)).
      { destruct (batch_primitives batch) as [|x' l'] eqn:Eb; [by apply elem_of_nil in Hy|].
        rewrite Er1 in Hsp. injection Hsp as <- Hsp. apply elem_of_cons in Hy as [->|Hy].
        - unfold key_le, id. rewrite <- Ekz, <- (head_key b k1 x) by (by rewrite Er1). by apply H1.
        - specialize (Hbe y Hy). apply ltb_spec in Hbe. destruct (decide (k' = k2)) as [->|Hk2].
          + unfold key_le, id. rewrite <- Ekz, Hbe. done.
          + apply (key_le_trans id _ (entry_key (peek b k2, k2))); [unfold key_le, id; by rewrite Hbe|].
            rewrite <- Ekz. by apply H2. }
      apply cmp_kinds; [|exact Hle]. cbn. rewrite (Hkind y Hy), (rest_kind b k' z (head_in _ _ Hz)). congruence.
    + intros y Hy. destruct (Hst y Hy) as [Hlt|Hs]; [right|by left]. exists k2.
      assert (Hyk : y ∈ rest b k1) by (rewrite Hsp; apply elem_of_app; right; by apply head_in).
      destruct (rest b k2) as [|z q] eqn:Ez.
      * exfalso. rewrite (none_key b k2 Ez) in Hlt. enough (ltb (prim_key y) (U32_MAX, k2) = true) by congruence.
        apply ltb_spec, cmp_pair_order, (Hsm k1). done.
      * exists z. split; [done|]. split; [done|]. rewrite (head_key b k2 z) in Hlt by (by rewrite Ez).
        apply cmp_kinds.
        -- cbn. rewrite (rest_kind b k1 y Hyk), (rest_kind b k2 z); [congruence|]. rewrite Ez. by left.
        -- intros Hgt%cmp_gt. apply ltb_spec in Hgt. congruence.
Qed.

(** ** All the batches *)

Definition of_kind k (l : list Primitive) : list Primitive := List.filter (fun p => bool_decide (prim_kind p = k)) l.

(** No two consecutive batches could be one. *)
Fixpoint separated (bs : list PrimitiveBatch) : Prop :=
  match bs with
  | a :: (c :: _) as bs' => joinable a c = false /\ separated bs'
  | _ => True
  end.

Definition order_sorted (l : list Primitive) : Prop := StronglySorted (key_le prim_order) l.

Definition rest_size b : nat :=
  length (rest b KShadow) + length (rest b KQuad) + length (rest b KPath) + length (rest b KUnderline) +
  length (rest b KMonochromeSprite) + length (rest b KPolychromeSprite) + length (rest b KSurface).

Lemma batch_nonempty b k batch b' : batch_next_of b k batch b' -> batch_primitives batch <> [].
Proof. intros H. apply (bn_uniform _ _ _ _ H). Qed.

Lemma rest_size_less b k batch b' : batch_next_of b k batch b' -> (rest_size b' < rest_size b)%nat.
Proof.
  intros H. pose proof (batch_nonempty _ _ _ _ H) as Hne. destruct H as [_ Hsp _ Hot _ _ _].
  assert (Hk : (length (rest b' k) < length (rest b k))%nat).
  { rewrite Hsp, length_app. destruct (batch_primitives batch); [done|]. cbn. lia. }
  assert (Hle : forall k', (length (rest b' k') <= length (rest b k'))%nat).
  { intros k'. destruct (decide (k' = k)) as [->|Hn]; [lia|]. by rewrite Hot. }
  unfold rest_size. pose proof (Hle KShadow). pose proof (Hle KQuad). pose proof (Hle KPath). pose proof (Hle KUnderline).
  pose proof (Hle KMonochromeSprite). pose proof (Hle KPolychromeSprite). pose proof (Hle KSurface). destruct k; lia.
Qed.

Lemma batch_primitives_kind batch p : p ∈ batch_primitives batch -> prim_kind p = batch_kind batch.
Proof. destruct batch; cbn; change map with (@fmap list _); by intros (z & -> & _)%list_elem_of_fmap. Qed.

Lemma of_kind_all k l : (forall p, p ∈ l -> prim_kind p = k) -> of_kind k l = l.
Proof. intros H. apply bfilter_all, Forall_elem. intros p Hp. apply bool_decide_eq_true. by apply H. Qed.

Lemma of_kind_none k k' l : k' <> k -> (forall p, p ∈ l -> prim_kind p = k') -> of_kind k l = [].
Proof. intros Hn H. apply bfilter_none, Forall_elem. intros p Hp. apply bool_decide_eq_false. rewrite (H p Hp). congruence. Qed.

Lemma elem_of_kind k l p : p ∈ of_kind k l <-> p ∈ l /\ prim_kind p = k.
Proof. unfold of_kind. rewrite !list_elem_of_In, filter_In, bool_decide_eq_true. done. Qed.

Lemma joinable_kind a c : joinable a c = true -> batch_kind a = batch_kind c.
Proof. destruct a as [|[]| | | | |], c as [|[]| | | | |]; done. Qed.

Lemma set_apart_joinable a c y l : batch_primitives c = y :: l -> uniform c -> set_apart a y -> joinable a c = false.
Proof.
  intros Hc [_ Hu] Hs. destruct a as [|[|qa ?]| | |ta ?|ta ?|]; try done; destruct c as [|[|qc ?]| | |tc [|xc ?]|tc [|xc ?]|];
    try done; cbn in Hc; injection Hc as <- _; cbn in Hs |- *.
  - rewrite andb_false_iff, !Z.eqb_neq. tauto.
  - apply bool_decide_eq_false. apply Forall_cons in Hu as [<- _]. congruence.
  - apply bool_decide_eq_false. apply Forall_cons in Hu as [<- _]. congruence.
Qed.

(** Consecutive batches of the iterator cannot be joined. *)
Lemma next_not_joinable b k a b' k2 c b2 :
  batch_next_of b k a b' -> batch_next_of b' k2 c b2 -> joinable a c = false.
Proof.
  intros Ha Hc. destruct (joinable a c) eqn:Ej; [|done]. pose proof (joinable_kind _ _ Ej) as Hk.
  rewrite (bn_kind _ _ _ _ Ha), (bn_kind _ _ _ _ Hc) in Hk. subst k2.
  destruct (batch_primitives c) as [|y l] eqn:Ec; [by apply batch_nonempty in Hc|].
  assert (Hy : head (rest b' k) = Some y) by by rewrite (bn_split _ _ _ _ Hc), Ec.
  destruct (bn_stop _ _ _ _ Ha y Hy) as [Hs|(k' & z & Hk' & Hz & Hlt)].
  - rewrite (set_apart_joinable a c y l Ec (bn_uniform _ _ _ _ Hc) Hs) in Ej. done.
  - rewrite <- (bn_others _ _ _ _ Ha k' Hk') in Hz.
    assert (cmp (prim_key y) (prim_key z) = Lt) as Hlt'.
    { apply (bn_first _ _ _ _ Hc y k' z); [rewrite Ec; apply elem_of_cons; by left|done|done]. }
    exfalso. exact (cmp_lt_irrefl (prim_key y) (cmp_lt_trans _ _ _ Hlt' Hlt)).
Qed.

Lemma same_kind_key x y : prim_kind x = prim_kind y -> key_le prim_order x y -> key_le prim_key x y.
Proof.
  unfold key_le, prim_key. intros Hk Ho. unfold cmp at 1, prod_ord. cbn [fst snd]. rewrite Hk. unfold ordering_then.
  destruct (cmp (prim_order x) (prim_order y)) eqn:E; [by rewrite cmp_refl|done|done].
Qed.

Lemma sorted_kind l k : (forall p, p ∈ l -> prim_kind p = k) -> order_sorted l -> StronglySorted (key_le prim_key) l.
Proof.
  intros Hk. induction 1 as [|x l Hl IH Hx]; constructor.
  - apply IH. intros p Hp. apply Hk. by right.
  - rewrite Forall_elem in Hx |- *. intros y Hy. apply same_kind_key; [|by apply Hx].
    rewrite (Hk y), (Hk x); [done|by left|by right].
Qed.

Lemma sorted_head {A} (R : A -> A -> Prop) l x y : StronglySorted R l -> head l = Some x -> y ∈ l -> y = x \/ R x y.
Proof.
  intros Hs Hx Hy. destruct Hs as [|x' l Hl Hf]; [done|]. injection Hx as ->. apply elem_of_cons in Hy as [->|Hy]; [by left|].
  right. by apply (proj1 (Forall_elem _ _) Hf).
Qed.

(** A batch comes before everything that is left. *)
Lemma batch_before b k batch b' x w k' :
  batch_next_of b k batch b' -> (forall k, order_sorted (rest b k)) ->
  x ∈ batch_primitives batch -> w ∈ rest b' k' -> key_le prim_key x w.
Proof.
  intros Hn Hs Hx Hw. destruct (decide (k' = k)) as [->|Hk].
  - pose proof (Hs k) as Hsk. rewrite (bn_split _ _ _ _ Hn) in Hsk. unfold order_sorted in Hsk.
    apply same_kind_key; [|by eapply StronglySorted_app_1_elem_of].
    rewrite (rest_kind b k x), (rest_kind b' k w); [done|done|].
    rewrite (bn_split _ _ _ _ Hn). apply elem_of_app. by left.
  - rewrite (bn_others _ _ _ _ Hn k' Hk) in Hw. destruct (rest b k') as [|z q] eqn:Ez; [by apply elem_of_nil in Hw|].
    assert (Hz : head (rest b k') = Some z) by by rewrite Ez.
    pose proof (bn_first _ _ _ _ Hn x k' z Hx Hk Hz) as Hlt. rewrite <- Ez in Hw.
    destruct (sorted_head _ _ z w (Hs k') Hz Hw) as [->|Hzw]; [unfold key_le; by rewrite Hlt|].
    apply (key_le_trans prim_key x z w); [unfold key_le; by rewrite Hlt|].
    apply same_kind_key; [|done]. rewrite (rest_kind b k' z), (rest_kind b k' w); [done|done|by apply head_in].
Qed.

Lemma collect_batches_ok fuel b :
  it_ok b -> orders_small b -> (forall k, order_sorted (rest b k)) -> (rest_size b < fuel)%nat ->
  exists bs, collect_batches fuel b = Ok bs /\
    (forall k, of_kind k (drawn bs) = rest b k) /\
    StronglySorted (key_le prim_key) (drawn bs) /\ Forall uniform bs /\ separated bs /\
    match bs with [] => True | c :: _ => exists k b', batch_next_of b k c b' end.
Proof.
  revert b. induction fuel as [|fuel IH]; intros b Hok Hsm Hs Hf; [lia|]. cbn [collect_batches].
  destruct (batch_next_ok b Hok Hsm) as [[-> Hnil]|(k & batch & b' & -> & Hn)]; cbn [obind].
  { exists []. split_and!; [done| |constructor|constructor|done|done]. intros k. by rewrite Hnil. }
  destruct (IH b') as (bs & -> & Hk & Hso & Hu & Hsep & Hhd).
  - apply Hn.
  - intros k' p Hp. apply (Hsm k'). destruct (decide (k' = k)) as [->|Hne]; [|by rewrite <- (bn_others _ _ _ _ Hn)].
    rewrite (bn_split _ _ _ _ Hn). apply elem_of_app. by right.
  - intros k'. destruct (decide (k' = k)) as [->|Hne]; [|by rewrite (bn_others _ _ _ _ Hn)]. pose proof (Hs k) as Hsk.
    rewrite (bn_split _ _ _ _ Hn) in Hsk. by eapply StronglySorted_app_1_r.
  - pose proof (rest_size_less _ _ _ _ Hn). lia.
  - exists (batch :: bs). split; [done|]. unfold drawn in *. cbn [flat_map].
    assert (Hkb : forall p, p ∈ batch_primitives batch -> prim_kind p = k).
    { intros p Hp. rewrite (batch_primitives_kind _ _ Hp). apply Hn. }
    split; [|split; [|split; [|split]]].
    + intros k'. unfold of_kind. rewrite List.filter_app. fold (of_kind k' (batch_primitives batch)).
      fold (of_kind k' (flat_map batch_primitives bs)). rewrite Hk. destruct (decide (k' = k)) as [->|Hne].
      * rewrite (of_kind_all k) by done. symmetry. apply Hn.
      * rewrite (of_kind_none k' k) by (congruence || done). by apply Hn.
    + apply StronglySorted_app_2; [|apply (sorted_kind _ k); [done|]|done].
      * intros x w Hx Hw. apply (batch_before b k batch b' x w (prim_kind w) Hn Hs Hx).
        rewrite <- Hk. apply elem_of_kind. done.
      * pose proof (Hs k) as Hsk. rewrite (bn_split _ _ _ _ Hn) in Hsk. by eapply StronglySorted_app_1_l.
    + constructor; [apply Hn|done].
    + cbn [separated]. destruct bs as [|c bs]; [done|]. split; [|done]. destruct Hhd as (k2 & b2 & Hc).
      by eapply next_not_joinable.
    + by exists k, b'.
Qed.

(** The vectors of a finished scene are sorted by order, and the orders are below the
    greatest [u32]. *)
Definition in_order (s : Scene) : Prop :=
  forall k, order_sorted (primitives s k) /\ Forall (fun p => prim_order p < U32_MAX) (primitives s k).

Lemma batches_ok (s : Scene) :
  in_order s ->
  exists bs, batches s = Ok bs /\ (forall k, of_kind k (drawn bs) = primitives s k) /\
    StronglySorted (key_le prim_key) (drawn bs) /\ Forall uniform bs /\ separated bs.
Proof.
  intros Hs. assert (Hrest : forall k, rest (batch_iterator s) k = primitives s k) by by destruct k.
  destruct (collect_batches_ok (primitive_count s + 1) (batch_iterator s)) as (bs & E & Hk & Hso & Hu & Hsep & _).
  - unfold it_ok, slice_ok. cbn. split_and!; try done; apply Nat.le_0_l.
  - intros k p Hp. rewrite Hrest in Hp. apply (proj1 (Forall_elem _ _) (proj2 (Hs k)) p Hp).
  - intros k. rewrite Hrest. apply Hs.
  - unfold rest_size, primitive_count. rewrite !Hrest. cbn [primitives]. rewrite !length_map. lia.
  - exists bs. split; [exact E|]. split; [intros k; by rewrite Hk|done].
Qed.

(** The batches of a finished scene: the iterator ends; the batches draw each
    primitive exactly once, those of a kind as they are in their vector, by draw order and
    then by kind; every batch can be drawn by one call (sprites share a texture, a quad
    with a blend mode is alone); and no two consecutive batches could have been one. *)
Theorem batches_correct (s : Scene) (Hs : in_order s) :
  exists bs, batches s = Ok bs /\ (forall k, of_kind k (drawn bs) = primitives s k) /\
    StronglySorted (key_le prim_key) (drawn bs) /\ Forall uniform bs /\ separated bs.
Proof. exact (batches_ok s Hs). Qed.

End Batches.

(** ** An instance *)

Module TestBatches.
Definition square (o : Z) (m : BlendMode) : Quad (Paint := unit) :=
  let b := mkBounds (mkPoint 0 0) (mkSize 10 10) in mkQuad o b (mkMask b) tt (blend_code m).

(** The quads of the test of blend modes. *)
Definition blended : Scene (Paint := unit) :=
  mkScene [] bounds_tree_default [] [] [square 1 Normal; square 2 Normal; square 3 Multiply; square 4 Normal; square 5 Screen]
    [] [] [] [] [].

Lemma blended_in_order : in_order blended.
Proof.
  intros k. split.
  - unfold order_sorted. destruct k; repeat constructor; unfold key_le; vm_compute; discriminate.
  - destruct k; repeat constructor; vm_compute; reflexivity.
Qed.

Lemma batches_correct_witness :
  exists bs, batches blended = Ok bs /\ Forall uniform bs /\ map (fun b => length (batch_primitives b)) bs = [2; 1; 1; 1]%nat.
Proof.
  destruct (batches_correct blended blended_in_order) as (bs & E & _ & _ & Hu & _). exists bs. split; [exact E|].
  split; [exact Hu|]. vm_compute in E. injection E as <-. reflexivity.
Defined.
End TestBatches.
