(* ===== verification/ScenePaint.v ===== *)
(** * Painting, replaying and drawing a scene

    A frame is painted by a sequence of calls: primitives inserted, layers pushed and
    popped.  The theorems show that replaying the record of a frame paints it again, and
    that the batches draw the primitives of overlapping regions in the order in which they
    were painted.  The replay is of the record of a frame that is not yet finished: the
    sort of [finish] moves the primitives that the record refers to. *)

From stdpp Require Import base list option numbers sorting.
From S2P Require Import Prelude Sorting Geometry BoundsTree Scene SceneBatches.

Local Open Scope Z_scope.

Section Painting.
Context {Paint : Type}.
Local Abbreviation Primitive := (@Primitive Paint).
Local Abbreviation Scene := (@Scene Paint).
Implicit Types (p : Primitive) (s : Scene) (k : PrimitiveKind).

(** ** The calls *)

Inductive PaintCall :=
| CallInsert (p : Primitive)
| CallPush (b : Bounds)
| CallPop.

Definition paint s (c : PaintCall) : outcome Scene :=
  match c with
  | CallInsert p => insert_primitive s p
  | CallPush b => push_layer s b
  | CallPop => Ok (pop_layer s)
  end.

Definition paint_all s (cs : list PaintCall) : outcome Scene := ofold paint cs s.

(** ** What an insertion does *)

(** The primitive as it is stored: with its order and, for a path, its identifier. *)
Definition stored p (o : Z) (n : nat) : Primitive :=
  match p with
  | PShadow (mkShadow _ b m x) => PShadow (mkShadow o b m x)
  | PQuad (mkQuad _ b m x bm) => PQuad (mkQuad o b m x bm)
  | PPath (mkPath _ _ b m v x st cu c) => PPath (mkPath n o b m v x st cu c)
  | PUnderline (mkUnderline _ b m x) => PUnderline (mkUnderline o b m x)
  | PMonochromeSprite (mkMonochrome _ b m tl x) => PMonochromeSprite (mkMonochrome o b m tl x)
  | PPolychromeSprite (mkPolychrome _ b m tl x) => PPolychromeSprite (mkPolychrome o b m tl x)
  | PSurface (mkSurface _ b m x) => PSurface (mkSurface o b m x)
  end.

Definition clipped p : Bounds := intersect (prim_bounds p) (mask_bounds (prim_mask p)).

Lemma stored_same p o n :
  prim_kind (stored p o n) = prim_kind p /\ clipped (stored p o n) = clipped p /\ prim_order (stored p o n) = o /\
  forall o' n', stored (stored p o n) o' n' = stored p o' n'.
Proof. destruct p as [[]|[]|[]|[]|[]|[]|[]]; done. Qed.

Lemma primitives_with_frame s ops t ls k : primitives (with_frame s ops t ls) k = primitives s k.
Proof. by destruct k. Qed.

Lemma push_primitive_ok s p o :
  exists s', push_primitive s p o = (s', (prim_kind p, length (primitives s (prim_kind p)))) /\
    paint_operations s' = paint_operations s /\ primitive_bounds s' = primitive_bounds s /\ layer_stack s' = layer_stack s /\
    forall k, primitives s' k = primitives s k ++ of_kind k [stored p o (length (primitives s (prim_kind p)))].
Proof.
  destruct s as [ops t ls sh qu pa un mo po su].
  destruct p as [[]|[]|[]|[]|[]|[]|[]]; cbn [push_primitive prim_kind primitives shadows quads paths underlines
    monochrome_sprites polychrome_sprites surfaces]; rewrite length_map; eexists; (split; [reflexivity|]);
    (split; [done|split; [done|split; [done|]]]);
    intros []; cbn [primitives shadows quads paths underlines monochrome_sprites polychrome_sprites surfaces];
    rewrite ?map_app; cbn; by rewrite ?app_nil_r.
Qed.

(** The order that a primitive gets, with the bounds tree after it. *)
Definition order_for s (b : Bounds) : outcome (BoundsTree * DrawOrder) :=
  match list.last (layer_stack s) with
  | Some order => Ok (primitive_bounds s, order)
  | None => bounds_insert (primitive_bounds s) b
  end.

Lemma insert_primitive_ok s p t o :
  is_empty (clipped p) = false -> order_for s (clipped p) = Ok (t, o) ->
  let n := length (primitives s (prim_kind p)) in
  exists s', insert_primitive s p = Ok s' /\
    paint_operations s' = paint_operations s ++ [OpPrimitive (prim_kind p) n] /\
    primitive_bounds s' = t /\ layer_stack s' = layer_stack s /\
    forall k, primitives s' k = primitives s k ++ of_kind k [stored p o n].
Proof.
  intros Hv Ho n. unfold insert_primitive. fold (clipped p). rewrite Hv. fold (order_for s (clipped p)). rewrite Ho. cbn [obind].
  destruct (push_primitive_ok (with_frame s (paint_operations s) t (layer_stack s)) p o) as (s' & -> & Eops & Et & Els & Ek).
  rewrite primitives_with_frame in Ek |- *. fold n in Ek |- *. eexists. split; [reflexivity|].
  cbn [with_frame paint_operations primitive_bounds layer_stack] in *. rewrite Eops, Et, Els. split; [done|]. split; [done|]. split; [done|].
  intros k. rewrite primitives_with_frame, Ek, primitives_with_frame. done.
Qed.

Lemma insert_primitive_inv s p s' :
  insert_primitive s p = Ok s' ->
  (is_empty (clipped p) = true /\ s' = s) \/
  (is_empty (clipped p) = false /\ exists t o, order_for s (clipped p) = Ok (t, o)).
Proof.
  unfold insert_primitive. fold (clipped p). destruct (is_empty (clipped p)); [intros [= <-]; by left|]. intros H. right. split; [done|].
  fold (order_for s (clipped p)) in H. destruct (order_for s (clipped p)) as [[t o]| |]; [by exists t, o|done|done].
Qed.

Lemma map_injective {A} (f : A -> Primitive) (l l' : list A) :
  (forall x y, f x = f y -> x = y) -> map f l = map f l' -> l = l'.
Proof.
  intros Hf. revert l'. induction l as [|x l IH]; intros [|y l']; cbn; try done. intros [= H1 H2].
  f_equal; [by apply Hf|by apply IH].
Qed.

(** A scene is its record, its tree, its layers and its primitives. *)
Lemma scene_ext s s' :
  paint_operations s = paint_operations s' -> primitive_bounds s = primitive_bounds s' -> layer_stack s = layer_stack s' ->
  (forall k, primitives s k = primitives s' k) -> s = s'.
Proof.
  destruct s, s'. cbn. intros -> -> -> H.
  pose proof (H KShadow) as H1. pose proof (H KQuad) as H2. pose proof (H KPath) as H3. pose proof (H KUnderline) as H4.
  pose proof (H KMonochromeSprite) as H5. pose proof (H KPolychromeSprite) as H6. pose proof (H KSurface) as H7.
  cbn in H1, H2, H3, H4, H5, H6, H7. f_equal; (eapply map_injective; [|eassumption]); by intros ? ? [=].
Qed.

(** ** Replaying *)

(** The call that an operation of the scene records. *)
Definition call_of s (op : PaintOperation) : outcome PaintCall :=
  match op with
  | OpPrimitive k ix => let! p := primitive_at s k ix in Ok (CallInsert p)
  | StartLayer b => Ok (CallPush b)
  | EndLayer => Ok CallPop
  end.

Lemma replay_operation_call prev s op :
  replay_operation prev s op = let! c := call_of prev op in paint s c.
Proof. destruct op as [k ix|b|]; [|done|done]. cbn. by destruct (primitive_at prev k ix). Qed.

Lemma primitive_at_ok s k ix : primitive_at s k ix = unwrap (primitives s k !! ix).
Proof.
  destruct k; cbn [primitive_at primitives]; change map with (@fmap list _);
    rewrite list_lookup_fmap; unfold index; by destruct (_ !! ix).
Qed.

(** The later scene has the primitives of the earlier, and perhaps more. *)
Definition extends s s' : Prop := forall k, exists l, primitives s' k = primitives s k ++ l.

Lemma extends_refl s : extends s s.
Proof. intros k. exists []. by rewrite app_nil_r. Qed.

Lemma extends_trans s1 s2 s3 : extends s1 s2 -> extends s2 s3 -> extends s1 s3.
Proof. intros H1 H2 k. destruct (H1 k) as [l1 E1], (H2 k) as [l2 E2]. exists (l1 ++ l2). by rewrite E2, E1, app_assoc. Qed.

Lemma extends_call s s' op c : extends s s' -> call_of s op = Ok c -> call_of s' op = Ok c.
Proof.
  intros He. destruct op as [k ix|b|]; [|done|done]. cbn [call_of]. rewrite !primitive_at_ok.
  destruct (primitives s k !! ix) as [p|] eqn:E; [|done]. destruct (He k) as [l ->].
  rewrite lookup_app_l by (by eapply lookup_lt_Some). by rewrite E.
Qed.

(** Painting a call records it, if it paints anything: painting the recorded call does
    the same. *)
Lemma paint_records s c s' :
  paint s c = Ok s' ->
  extends s s' /\
  ((s' = s) \/ exists op c', paint_operations s' = paint_operations s ++ [op] /\ call_of s' op = Ok c' /\ paint s c' = Ok s').
Proof.
  intros E. destruct c as [p|b|]; cbn [paint] in E.
  - destruct (insert_primitive_inv s p s' E) as [[_ ->]|(Hv & t & o & Ho)]; [split; [apply extends_refl|by left]|].
    destruct (insert_primitive_ok s p t o Hv Ho) as (s0 & E0 & Eops & Et & Els & Ek). rewrite E in E0. injection E0 as <-.
    set (n := length (primitives s (prim_kind p))) in *. split; [intros k; eexists; apply Ek|]. right.
    exists (OpPrimitive (prim_kind p) n), (CallInsert (stored p o n)). split; [done|].
    destruct (stored_same p o n) as (Sk & Sc & _ & Ss). split.
    + cbn [call_of]. rewrite primitive_at_ok, Ek, of_kind_all by (intros q ->%list_elem_of_singleton; done).
      by rewrite lookup_app_r, Nat.sub_diag by done.
    + cbn [paint]. destruct (insert_primitive_ok s (stored p o n) t o) as (s2 & E2 & Eops2 & Et2 & Els2 & Ek2).
      * by rewrite Sc.
      * by rewrite Sc.
      * rewrite E2. f_equal. rewrite Sk in Eops2, Ek2. fold n in Eops2, Ek2. rewrite Ss in Ek2.
        apply scene_ext; [congruence|congruence|congruence|]. intros k. by rewrite Ek, Ek2.
  - unfold push_layer in E. destruct (bounds_insert (primitive_bounds s) b) as [[t o]| |] eqn:Eb; [|done|done].
    cbn [obind] in E. injection E as <-. split; [intros k; exists []; rewrite primitives_with_frame; by rewrite app_nil_r|].
    right. exists (StartLayer b), (CallPush b). split; [done|]. split; [done|]. cbn [paint]. unfold push_layer. by rewrite Eb.
  - injection E as <-. split; [intros k; exists []; unfold pop_layer; rewrite primitives_with_frame; by rewrite app_nil_r|].
    right. by exists EndLayer, CallPop.
Qed.

Lemma ofold_ok_app {A B} (f : B -> A -> outcome B) (l1 l2 : list A) b c :
  ofold f (l1 ++ l2) b = Ok c <-> exists d, ofold f l1 b = Ok d /\ ofold f l2 d = Ok c.
Proof.
  rewrite ofold_app. destruct (ofold f l1 b) as [d| |]; cbn; split; [intros H; by exists d|intros (d' & [= <-] & H); done|..];
    try done; by intros (? & ? & ?).
Qed.

Lemma replay_painted cs s :
  paint_all scene_default cs = Ok s ->
  forall fin, extends s fin -> ofold (replay_operation fin) (paint_operations s) scene_default = Ok s.
Proof.
  revert s. induction cs as [|c cs IH] using rev_ind; intros s E fin Hfin; [by injection E as <-|].
  apply ofold_ok_app in E as (s0 & E0 & E). cbn [ofold] in E.
  destruct (paint s0 c) as [s1| |] eqn:Ep; [|done|done]. injection E as <-.
  destruct (paint_records s0 c s1 Ep) as [Hex [->|(op & c' & Eops & Ec & Epc)]].
  - by apply (IH s0 E0).
  - rewrite Eops. apply ofold_ok_app. exists s0. split; [apply (IH s0 E0); by eapply extends_trans|]. cbn [ofold].
    rewrite replay_operation_call, (extends_call s1 fin op c' Hfin Ec). cbn [obind]. by rewrite Epc.
Qed.

Lemma slice_range_all {A} (l : list A) : slice_range l 0 (length l) = Ok l.
Proof. unfold slice_range. rewrite Nat.leb_refl. cbn. by rewrite Nat.sub_0_r, drop_0, firstn_all. Qed.

Lemma slice_range_app {A} (l : list A) a b c :
  (a <= b)%nat -> (b <= c)%nat -> (c <= length l)%nat ->
  exists l1 l2, slice_range l a b = Ok l1 /\ slice_range l b c = Ok l2 /\ slice_range l a c = Ok (l1 ++ l2).
Proof.
  intros Hab Hbc Hc. unfold slice_range. assert (Ht : forall x y, (x <= y)%nat -> (y <= length l)%nat ->
    ((x <=? y) && (y <=? length l))%nat = true) by (intros; apply andb_true_intro; split; by apply Nat.leb_le).
  rewrite !Ht by lia. eexists _, _. split; [reflexivity|]. split; [reflexivity|]. f_equal.
  rewrite <- (take_drop (b - a) (drop a l)) at 1. rewrite drop_drop.
  rewrite take_app_ge by (rewrite length_take, length_drop; lia). rewrite length_take, length_drop, Nat.min_l by lia.
  do 2 f_equal; [lia|]. f_equal. lia.
Qed.

Lemma finish_sorted `{UnstableSort} s :
  (forall k, order_sorted (primitives s k)) ->
  is_sorted_by_key mono_key (monochrome_sprites s) = true -> is_sorted_by_key poly_key (polychrome_sprites s) = true ->
  scene_finish s = s.
Proof.
  intros Hs Hm Hp. unfold scene_finish, sort_primitives. rewrite Hm, Hp.
  assert (Hk : forall A (f : A -> Primitive) (o : A -> DrawOrder) (l : list A) k,
    primitives s k = map f l -> (forall x, prim_order (f x) = o x) -> is_sorted_by_key o l = true).
  { intros A f o l k E Ho. apply is_sorted_by_key_spec. pose proof (Hs k) as Hl. rewrite E in Hl. clear - Hl Ho.
    induction l as [|x l IH]; [constructor|]. cbn in Hl. apply StronglySorted_cons in Hl as [Hx Hl]. constructor; [by apply IH|].
    clear IH Hl. rewrite Forall_elem in Hx. rewrite Forall_elem. intros y Hy. specialize (Hx (f y)). unfold key_le in *. rewrite !Ho in Hx.
    apply Hx. change map with (@fmap list _). apply list_elem_of_fmap. by exists y. }
  rewrite (Hk _ PShadow shadow_order (shadows s) KShadow), (Hk _ PQuad quad_order (quads s) KQuad),
    (Hk _ PPath path_order (paths s) KPath), (Hk _ PUnderline underline_order (underlines s) KUnderline),
    (Hk _ PSurface surface_order (surfaces s) KSurface) by done.
  by destruct s.
Qed.

(** C8: Replaying the record of a frame paints the frame again: from a cleared scene,
    the whole record of what any calls painted gives the same scene, with the same
    orders, indices and layers, whether or not some calls painted nothing; so it does
    after [finish] if the primitives were in draw order already; and replaying two
    consecutive ranges is replaying both at once. *)
Theorem scene_replay_correct `{UnstableSort} s0 s1 cs s (E : paint_all (scene_clear s0) cs = Ok s) :
  scene_replay (scene_clear s1) 0 (scene_len s) s = Ok s /\
  ((forall k, order_sorted (primitives s k)) ->
   is_sorted_by_key mono_key (monochrome_sprites s) = true -> is_sorted_by_key poly_key (polychrome_sprites s) = true ->
   scene_replay (scene_clear s1) 0 (scene_len s) (scene_finish s) = Ok s) /\
  (forall into prev a b c, (a <= b)%nat -> (b <= c)%nat -> (c <= scene_len prev)%nat ->
     (let! s' := scene_replay into a b prev in scene_replay s' b c prev) = scene_replay into a c prev).
Proof.
  assert (Hall : scene_replay (scene_clear s1) 0 (scene_len s) s = Ok s).
  { unfold scene_replay, scene_len. rewrite slice_range_all. cbn [obind].
    exact (replay_painted cs s E s (extends_refl s)). }
  split; [done|]. split; [intros Hs Hm Hp; by rewrite finish_sorted|].
  intros into prev a b c Hab Hbc Hc. unfold scene_replay.
  destruct (slice_range_app (paint_operations prev) a b c Hab Hbc Hc) as (l1 & l2 & -> & -> & ->). cbn [obind].
  by rewrite ofold_app.
Qed.

(** ** The order in which a frame is drawn *)

(** The regions that calls put into the bounds tree, each with the index of its call:
    the layers, and the visible primitives outside of layers.  [i] is the index of the
    first call, [depth] the number of open layers. *)
Fixpoint regions (i depth : nat) (cs : list PaintCall) : list (nat * Bounds) :=
  match cs with
  | [] => []
  | CallInsert p :: cs =>
      (if is_empty (clipped p) then [] else if (depth =? 0)%nat then [(i, clipped p)] else []) ++ regions (S i) depth cs
  | CallPush b :: cs => (i, b) :: regions (S i) (S depth) cs
  | CallPop :: cs => regions (S i) (pred depth) cs
  end.

(** The primitives that calls leave in the scene: each visible one with the order of its
    region, that of the innermost open layer if there is one.  [ord] gives the orders of
    the regions, [layers] the calls that opened the layers, [n] the number of paths. *)
Fixpoint placed (ord : nat -> Z) (i : nat) (layers : list nat) (n : nat) (cs : list PaintCall) : list Primitive :=
  match cs with
  | [] => []
  | CallInsert p :: cs =>
      if is_empty (clipped p) then placed ord (S i) layers n cs
      else
        let o := match list.last layers with Some j => ord j | None => ord i end in
        stored p o n :: placed ord (S i) layers (if bool_decide (prim_kind p = KPath) then S n else n) cs
  | CallPush _ :: cs => placed ord (S i) (layers ++ [i]) n cs
  | CallPop :: cs => placed ord (S i) (removelast layers) n cs
  end.

(** The regions with their orders, the latest first. *)
Definition ranked (ord : nat -> Z) (regs : list (nat * Bounds)) : list (Bounds * Z) :=
  rev (map (fun r => (r.2, ord r.1)) regs).

(** Overlapping regions are ordered as they were painted. *)
Definition stacked (ord : nat -> Z) (regs : list (nat * Bounds)) : Prop :=
  forall i b j c, (i, b) ∈ regs -> (j, c) ∈ regs -> (i < j)%nat -> intersects c b = true -> ord i < ord j.

(** The scene after [i] calls. *)
Record painted s (i : nat) (layers : list nat) (regs : list (nat * Bounds)) (ord : nat -> Z) : Prop := {
  pa_tree : bt_wf (primitive_bounds s) (ranked ord regs);
  pa_layers : layer_stack s = map ord layers;
  pa_open : Forall (fun j => exists b, (j, b) ∈ regs) layers;
  pa_past : Forall (fun r => (r.1 < i)%nat) regs;
  pa_count : (length regs <= i)%nat;
  pa_stacked : stacked ord regs;
}.

Lemma ranked_length ord regs : length (ranked ord regs) = length regs.
Proof. unfold ranked. by rewrite length_rev, length_map. Qed.

Lemma ranked_snoc ord regs i b : ranked ord (regs ++ [(i, b)]) = (b, ord i) :: ranked ord regs.
Proof. unfold ranked. by rewrite map_app, rev_app_distr. Qed.

Lemma ranked_agree ord ord' regs i :
  (forall j, (j < i)%nat -> ord' j = ord j) -> Forall (fun r => (r.1 < i)%nat) regs -> ranked ord' regs = ranked ord regs.
Proof.
  intros Ha Hp. unfold ranked. f_equal. apply map_ext_in. intros [j b] Hin%list_elem_of_In.
  by rewrite Ha by apply (proj1 (Forall_elem _ _) Hp _ Hin).
Qed.

Lemma elem_ranked ord regs j b : (j, b) ∈ regs -> (b, ord j) ∈ ranked ord regs.
Proof.
  intros H. unfold ranked. apply elem_of_rev. change map with (@fmap list _). apply list_elem_of_fmap. by exists (j, b).
Qed.

(** A new region is put above those it overlaps. *)
Lemma painted_region s i layers regs ord b :
  painted s i layers regs ord -> Z.of_nat i < 2 ^ 32 - 1 ->
  exists t ord', bounds_insert (primitive_bounds s) b = Ok (t, ord' i) /\
    (forall j, (j < i)%nat -> ord' j = ord j) /\ bt_wf t (ranked ord' (regs ++ [(i, b)])) /\ stacked ord' (regs ++ [(i, b)]).
Proof.
  intros [Ht Hl Ho Hp Hc Hs] Hi.
  destruct (bounds_insert_ok (primitive_bounds s) _ b Ht) as (t & Et & Ht'); [rewrite ranked_length; lia|].
  set (o := max_hit b (ranked ord regs) + 1) in *. set (ord' := fun j => if (j =? i)%nat then o else ord j).
  assert (Ha : forall j, (j < i)%nat -> ord' j = ord j).
  { intros j Hj. unfold ord'. by rewrite (proj2 (Nat.eqb_neq _ _)) by lia. }
  assert (Eo : ord' i = o) by (unfold ord'; by rewrite Nat.eqb_refl).
  exists t, ord'. rewrite Eo. split; [done|]. split; [done|]. split; [by rewrite ranked_snoc, Eo, (ranked_agree ord ord' regs i)|].
  assert (Hin : forall j c, (j, c) ∈ regs -> (j < i)%nat) by (intros j c Hjc; exact (proj1 (Forall_elem _ _) Hp _ Hjc)).
  intros j1 b1 j2 b2 H1 H2 Hlt Hx. apply elem_of_app in H1, H2.
  destruct H1 as [H1|[= -> ->]%list_elem_of_singleton]; destruct H2 as [H2|[= -> ->]%list_elem_of_singleton].
  - rewrite !Ha by eauto. by eapply Hs.
  - rewrite Eo, Ha by eauto. unfold o. pose proof (max_hit_in _ _ _ _ (elem_ranked ord regs j1 b1 H1) Hx). lia.
  - specialize (Hin _ _ H2). lia.
  - lia.
Qed.

(** The orders stay below the greatest [u32]. *)
Lemma painted_bound s i layers regs ord j b :
  painted s i layers regs ord -> (j, b) ∈ regs -> 1 <= ord j <= Z.of_nat i.
Proof.
  intros [[_ Hpos] _ _ _ Hc _] Hj. pose proof (proj1 (Forall_elem _ _) Hpos _ (elem_ranked ord regs j b Hj)) as H.
  cbn in H. rewrite ranked_length in H. lia.
Qed.

Lemma map_agree (ord ord' : nat -> Z) (layers : list nat) i regs :
  (forall j, (j < i)%nat -> ord' j = ord j) -> Forall (fun r : nat * Bounds => (r.1 < i)%nat) regs ->
  Forall (fun j => exists b, (j, b) ∈ regs) layers -> map ord' layers = map ord layers.
Proof.
  intros Ha Hp Ho. apply map_ext_in. intros j Hj%list_elem_of_In.
  destruct (proj1 (Forall_elem _ _) Ho j Hj) as [b Hb]. apply Ha. exact (proj1 (Forall_elem _ _) Hp _ Hb).
Qed.

Lemma last_map {A B} (f : A -> B) (l : list A) : list.last (map f l) = option_map f (list.last l).
Proof. induction l as [|x [|y l] IH]; [done|done|exact IH]. Qed.

Lemma Forall_removelast {A} (P : A -> Prop) (l : list A) : Forall P l -> Forall P (removelast l).
Proof. induction 1 as [|x [|y l] Hx Hl IH]; [constructor|constructor|]. cbn. constructor; [done|exact IH]. Qed.

Lemma map_removelast {A B} (f : A -> B) (l : list A) : map f (removelast l) = removelast (map f l).
Proof. induction l as [|x [|y l] IH]; [done|done|]. cbn [removelast map] in *. by rewrite IH. Qed.

Lemma removelast_length {A} (l : list A) : length (removelast l) = pred (length l).
Proof. induction l as [|x [|y l] IH]; [done|done|]. cbn [removelast length] in *. by rewrite IH. Qed.

Lemma paths_length s : length (paths s) = length (primitives s KPath).
Proof. cbn. by rewrite length_map. Qed.

Lemma stored_index s p o : stored p o (length (primitives s (prim_kind p))) = stored p o (length (paths s)).
Proof. destruct p as [[]|[]|[]|[]|[]|[]|[]]; try done. cbn [prim_kind]. by rewrite paths_length. Qed.

(** After a call without a region. *)
Lemma painted_same s s' i layers layers' regs ord :
  painted s i layers regs ord -> primitive_bounds s' = primitive_bounds s -> layer_stack s' = map ord layers' ->
  Forall (fun j => exists b, (j, b) ∈ regs) layers' -> painted s' (S i) layers' regs ord.
Proof.
  intros [Ht _ _ Hp Hc Hs] Et El Ho. split; [by rewrite Et|done|done| |lia|done].
  eapply Forall_weaken; [|exact Hp]. cbn beta. lia.
Qed.

(** After a call with the region [b]. *)
Lemma painted_more s s' i layers layers' regs ord ord' b :
  painted s i layers regs ord -> (forall j, (j < i)%nat -> ord' j = ord j) ->
  bt_wf (primitive_bounds s') (ranked ord' (regs ++ [(i, b)])) -> stacked ord' (regs ++ [(i, b)]) ->
  (layers' = layers \/ layers' = layers ++ [i]) -> layer_stack s' = map ord' layers' ->
  painted s' (S i) layers' (regs ++ [(i, b)]) ord'.
Proof.
  intros [_ _ Ho Hp Hc _] Ha Ht Hs Hl El. split; [done|done| | |rewrite length_app; cbn; lia|done].
  - assert (Ho' : Forall (fun j => exists c, (j, c) ∈ regs ++ [(i, b)]) layers).
    { eapply Forall_weaken; [|exact Ho]. intros j [c Hc']. exists c. apply elem_of_app. by left. }
    destruct Hl as [->| ->]; [done|]. apply Forall_app. split; [done|]. constructor; [|constructor]. exists b.
    apply elem_of_app. right. by apply list_elem_of_singleton.
  - apply Forall_app. split; [eapply Forall_weaken; [|exact Hp]; cbn beta; lia|]. constructor; [cbn; lia|constructor].
Qed.

(** A visible primitive is inserted, in the layers or as a region of its own. *)
Lemma paint_insert_ok s i layers regs ord p :
  painted s i layers regs ord -> Z.of_nat i < 2 ^ 32 - 1 -> is_empty (clipped p) = false ->
  let regs' := regs ++ if (length layers =? 0)%nat then [(i, clipped p)] else [] in
  exists s' ord', insert_primitive s p = Ok s' /\ (forall j, (j < i)%nat -> ord' j = ord j) /\
    painted s' (S i) layers regs' ord' /\
    forall k, primitives s' k = primitives s k ++
      of_kind k [stored p (match list.last layers with Some j => ord' j | None => ord' i end) (length (paths s))].
Proof.
  intros Hp Hi Hv regs'. unfold regs'. destruct (list.last layers) as [j|] eqn:El.
  - assert (Eo : order_for s (clipped p) = Ok (primitive_bounds s, ord j)).
    { unfold order_for. by rewrite (pa_layers _ _ _ _ _ Hp), last_map, El. }
    destruct (insert_primitive_ok s p _ _ Hv Eo) as (s' & -> & _ & Et & Els & Ek). exists s', ord.
    split; [done|]. split; [done|]. split; [|by rewrite stored_index in Ek].
    assert ((length layers =? 0)%nat = false) as -> by by destruct layers. rewrite app_nil_r.
    apply (painted_same s s' i layers); [done|done| |apply Hp]. rewrite Els. apply Hp.
  - apply list.last_None in El as ->.
    destruct (painted_region s i [] regs ord (clipped p) Hp Hi) as (t & ord' & Et & Ha & Hwf & Hst).
    assert (Eo : order_for s (clipped p) = Ok (t, ord' i)).
    { unfold order_for. by rewrite (pa_layers _ _ _ _ _ Hp). }
    destruct (insert_primitive_ok s p _ _ Hv Eo) as (s' & -> & _ & Et' & Els & Ek). exists s', ord'.
    split; [done|]. split; [done|]. split; [|by rewrite stored_index in Ek].
    apply (painted_more s s' i [] [] regs ord ord'); [done|done|by rewrite Et'|done|by left|].
    rewrite Els. by rewrite (pa_layers _ _ _ _ _ Hp).
Qed.

Lemma paint_push_ok s i layers regs ord b :
  painted s i layers regs ord -> Z.of_nat i < 2 ^ 32 - 1 ->
  exists s' ord', push_layer s b = Ok s' /\ (forall j, (j < i)%nat -> ord' j = ord j) /\
    painted s' (S i) (layers ++ [i]) (regs ++ [(i, b)]) ord' /\ (forall k, primitives s' k = primitives s k).
Proof.
  intros Hp Hi. destruct (painted_region s i layers regs ord b Hp Hi) as (t & ord' & Et & Ha & Hwf & Hst).
  unfold push_layer. rewrite Et. cbn [obind]. eexists _, ord'. split; [reflexivity|]. split; [done|].
  split; [|intros k; apply primitives_with_frame].
  apply (painted_more s _ i layers _ regs ord ord'); [done|done|done|done|by right|]. cbn [with_frame layer_stack].
  rewrite (pa_layers _ _ _ _ _ Hp), map_app.
  by rewrite (map_agree ord ord' layers i regs Ha (pa_past _ _ _ _ _ Hp) (pa_open _ _ _ _ _ Hp)).
Qed.

Lemma paths_count s s' p o n :
  (forall k, primitives s' k = primitives s k ++ of_kind k [stored p o n]) ->
  length (paths s') = if bool_decide (prim_kind p = KPath) then S (length (paths s)) else length (paths s).
Proof.
  intros H. rewrite !paths_length, H, length_app. destruct (stored_same p o n) as (Hk & _).
  unfold of_kind. cbn [List.filter]. rewrite Hk. case_bool_decide; cbn; lia.
Qed.

Lemma of_kind_cons k p l : of_kind k (p :: l) = of_kind k [p] ++ of_kind k l.
Proof. unfold of_kind. cbn. by destruct (bool_decide _). Qed.

Lemma paint_all_ok cs : forall s i layers regs ord,
  painted s i layers regs ord -> Z.of_nat (i + length cs) < 2 ^ 32 - 1 ->
  exists s' ord' layers', paint_all s cs = Ok s' /\ (forall j, (j < i)%nat -> ord' j = ord j) /\
    painted s' (i + length cs) layers' (regs ++ regions i (length layers) cs) ord' /\
    forall k, primitives s' k = primitives s k ++ of_kind k (placed ord' i layers (length (paths s)) cs).
Proof.
  induction cs as [|c cs IH]; intros s i layers regs ord Hp Hlen.
  { exists s, ord, layers. cbn [regions placed length paint_all ofold]. rewrite Nat.add_0_r, app_nil_r.
    split_and!; [done|done|done|]. intros k. by rewrite app_nil_r. }
  cbn [length] in Hlen |- *. rewrite Nat.add_succ_r, <- Nat.add_succ_l in Hlen |- *.
  unfold paint_all in IH |- *. cbn [ofold]. destruct c as [p|b|]; cbn [paint regions placed].
  - destruct (is_empty (clipped p)) eqn:Hv.
    + assert (insert_primitive s p = Ok s) as -> by (unfold insert_primitive; fold (clipped p); by rewrite Hv). cbn [obind app].
      destruct (IH s (S i) layers regs ord) as (s' & ord' & layers' & E & Ha & Hp' & Hk); [|done|].
      { apply (painted_same s s i layers); [done|done|apply Hp|apply Hp]. }
      exists s', ord', layers'. split; [done|]. split; [intros j Hj; apply Ha; lia|]. by split.
    + destruct (paint_insert_ok s i layers regs ord p Hp ltac:(lia) Hv) as (s1 & ord1 & -> & Ha1 & Hp1 & Hk1). cbn [obind].
      destruct (IH s1 (S i) layers _ ord1 Hp1 Hlen) as (s' & ord' & layers' & E & Ha & Hp' & Hk).
      exists s', ord', layers'. split; [done|]. split; [intros j Hj; rewrite Ha by lia; by apply Ha1|].
      split; [by rewrite app_assoc|].
      assert (match list.last layers with Some j => ord' j | None => ord' i end =
              match list.last layers with Some j => ord1 j | None => ord1 i end) as ->.
      { destruct (list.last layers) as [j|] eqn:El; [|apply Ha; lia]. apply Ha. apply list.last_Some_elem_of in El.
        destruct (proj1 (Forall_elem _ _) (pa_open _ _ _ _ _ Hp) j El) as [c Hc].
        pose proof (proj1 (Forall_elem _ _) (pa_past _ _ _ _ _ Hp) _ Hc) as Hj. cbn in Hj. lia. }
      intros k. by rewrite Hk, Hk1, <- app_assoc, (of_kind_cons k _ (placed _ _ _ _ _)), (paths_count s s1 p _ _ Hk1).
  - destruct (paint_push_ok s i layers regs ord b Hp ltac:(lia)) as (s1 & ord1 & -> & Ha1 & Hp1 & Hk1). cbn [obind].
    destruct (IH s1 (S i) _ _ ord1 Hp1 Hlen) as (s' & ord' & layers' & E & Ha & Hp' & Hk).
    exists s', ord', layers'. split; [done|]. split; [intros j Hj; rewrite Ha by lia; by apply Ha1|].
    rewrite length_app, Nat.add_1_r, <- app_assoc in Hp'. split; [done|]. intros k. by rewrite Hk, !paths_length, !Hk1.
  - cbn [obind]. destruct (IH (pop_layer s) (S i) (removelast layers) regs ord) as (s' & ord' & layers' & E & Ha & Hp' & Hk); [|done|].
    { apply (painted_same s _ i layers); [done|done| |apply Forall_removelast, Hp]. unfold pop_layer. cbn [with_frame layer_stack].
      by rewrite (pa_layers _ _ _ _ _ Hp), map_removelast. }
    exists s', ord', layers'. split; [done|]. split; [intros j Hj; apply Ha; lia|]. rewrite removelast_length in Hp'.
    split; [done|]. intros k. unfold pop_layer in Hk. by rewrite Hk, !paths_length, !primitives_with_frame.
Qed.

(** ** Finishing, and the whole frame *)

Lemma sort_primitives_ok `{UnstableSortLaws} {A K} `{OrdLaws K} (key : A -> K) (l : list A) :
  sort_primitives key l ≡ₚ l /\ StronglySorted (key_le key) (sort_primitives key l).
Proof.
  unfold sort_primitives. destruct (is_sorted_by_key key l) eqn:E; [split; [done|by apply is_sorted_by_key_spec]|].
  split; [apply sort_unstable_perm|apply sort_unstable_sorted].
Qed.

Lemma sorted_map {A K} `{OrdLaws K} (key : A -> K) (f : A -> Primitive) (l : list A) :
  (forall x y, key_le key x y -> key_le prim_order (f x) (f y)) ->
  StronglySorted (key_le key) l -> order_sorted (map f l).
Proof.
  intros Hf. induction 1 as [|x l Hl IH Hx]; [constructor|]. cbn. constructor; [exact IH|].
  apply Forall_elem. change map with (@fmap list _). intros z (y & -> & Hy)%list_elem_of_fmap. apply Hf.
  by apply (proj1 (Forall_elem _ _) Hx).
Qed.

Lemma key_le_fst {A} (o t : A -> Z) (x y : A) :
  key_le (fun x => (o x, t x)) x y -> key_le o x y.
Proof.
  unfold key_le. intros H E. apply H. unfold cmp at 1, prod_ord. cbn [fst snd]. by rewrite E.
Qed.

Lemma finish_ok `{UnstableSortLaws} s k :
  primitives (scene_finish s) k ≡ₚ primitives s k /\ order_sorted (primitives (scene_finish s) k).
Proof.
  assert (Hgo : forall A K (HO : Ord K) (HL : OrdLaws K) (key : A -> K) (f : A -> Primitive) (l : list A),
    (forall x y, key_le key x y -> key_le prim_order (f x) (f y)) ->
    map f (sort_primitives key l) ≡ₚ map f l /\ order_sorted (map f (sort_primitives key l))).
  { intros A K HO HL key f l Hf. destruct (sort_primitives_ok key l) as [Hp Hs]. split; [by rewrite Hp|].
    by apply (sorted_map key). }
  destruct k; cbn [primitives scene_finish shadows quads paths underlines monochrome_sprites polychrome_sprites surfaces];
    apply Hgo; try apply _; intros x y; try done; [apply (key_le_fst mono_order)|apply (key_le_fst poly_order)].
Qed.

Lemma of_kind_split k p l : of_kind k (p :: l) = (if decide (prim_kind p = k) then [p] else []) ++ of_kind k l.
Proof. unfold of_kind. cbn. by destruct (decide _) as [E|E]; [rewrite bool_decide_eq_true_2|rewrite bool_decide_eq_false_2]. Qed.

Lemma perm_by_kind (l : list Primitive) : l ≡ₚ flat_map (fun k => of_kind k l) all_kinds.
Proof.
  induction l as [|p l IH]; [done|]. unfold all_kinds in *. cbn [flat_map] in *. rewrite app_nil_r in *.
  rewrite IH at 1. clear IH. rewrite !(of_kind_split _ p l).
  destruct p; cbn [prim_kind]; repeat (case_decide; try congruence); cbn [app]; rewrite <- ?Permutation_middle; done.
Qed.

Lemma perm_of_kinds (l l' : list Primitive) : (forall k, of_kind k l ≡ₚ of_kind k l') -> l ≡ₚ l'.
Proof.
  intros H. rewrite (perm_by_kind l), (perm_by_kind l'). unfold all_kinds. cbn [flat_map]. by rewrite !H.
Qed.

(** The order of a primitive is that of a region. *)
Lemma placed_region ord i layers n cs p regs :
  p ∈ placed ord i layers n cs -> Forall (fun j => exists b, (j, b) ∈ regs) layers ->
  exists j b, prim_order p = ord j /\ (j, b) ∈ regs ++ regions i (length layers) cs.
Proof.
  revert i layers n regs. induction cs as [|c cs IH]; intros i layers n regs Hin Ho; [by apply elem_of_nil in Hin|].
  destruct c as [q|b|]; cbn [placed regions] in Hin |- *.
  - assert (Hrec : forall n', p ∈ placed ord (S i) layers n' cs -> exists j b, prim_order p = ord j /\
      (j, b) ∈ regs ++ (if is_empty (clipped q) then [] else if (length layers =? 0)%nat then [(i, clipped q)] else []) ++
        regions (S i) (length layers) cs).
    { intros n' Hn'. destruct (IH (S i) layers n' regs Hn' Ho) as (j & b & Hj & Hb). exists j, b. split; [done|].
      rewrite !elem_of_app in *. tauto. }
    destruct (is_empty (clipped q)); [by apply (Hrec n)|]. apply elem_of_cons in Hin as [->|Hin]; [|by eapply Hrec].
    destruct (stored_same q (match list.last layers with Some j => ord j | None => ord i end) n) as (_ & _ & -> & _).
    destruct (list.last layers) as [j|] eqn:El.
    + apply list.last_Some_elem_of in El. destruct (proj1 (Forall_elem _ _) Ho j El) as [b Hb]. exists j, b.
      split; [done|]. apply elem_of_app. by left.
    + apply list.last_None in El as ->. exists i, (clipped q). split; [done|]. apply elem_of_app. right. cbn. apply elem_of_cons. by left.
  - destruct (IH (S i) (layers ++ [i]) n (regs ++ [(i, b)]) Hin) as (j & c & Hj & Hc).
    + apply Forall_app. split; [|constructor; [exists b; apply elem_of_app; right; by apply list_elem_of_singleton|constructor]].
      eapply Forall_weaken; [|exact Ho]. intros j [c Hc]. exists c. apply elem_of_app. by left.
    + exists j, c. split; [done|]. rewrite length_app, Nat.add_1_r, <- app_assoc in Hc. exact Hc.
  - destruct (IH (S i) (removelast layers) n regs Hin (Forall_removelast _ _ Ho)) as (j & c & Hj & Hc). exists j, c.
    by rewrite removelast_length in Hc.
Qed.

(** C7: A frame is drawn as it was painted: from a cleared scene, fewer than 2^32 - 2
    calls paint without a panic, [finish] and the batches end, and what is drawn is every
    visible primitive that was inserted, once, and nothing else, by draw order and then by
    kind.  The order of a primitive is that of its region (its clipped bounds, or its
    innermost open layer), and of two regions that overlap the one painted later has the
    greater order: so its primitives are drawn on top. *)
Theorem scene_draw_correct `{UnstableSortLaws} s0 cs (Hcs : Z.of_nat (length cs) < 2 ^ 32 - 2) :
  exists s bs ord, paint_all (scene_clear s0) cs = Ok s /\ batches (scene_finish s) = Ok bs /\
    drawn bs ≡ₚ placed ord 0 [] 0 cs /\ StronglySorted (key_le prim_key) (drawn bs) /\
    (forall i b j c, (i, b) ∈ regions 0 0 cs -> (j, c) ∈ regions 0 0 cs -> (i < j)%nat -> intersects c b = true -> ord i < ord j).
Proof.
  assert (Hp0 : painted (scene_clear s0) 0 [] [] (fun _ => 0)).
  { split; [exact default_wf|done|constructor|constructor|done|]. intros i b j c Hi. by apply elem_of_nil in Hi. }
  destruct (paint_all_ok cs (scene_clear s0) 0 [] [] (fun _ => 0) Hp0) as (s & ord & layers & E & _ & Hp & Hk); [cbn; lia|].
  cbn [app length paths scene_clear] in Hp, Hk. rewrite Nat.add_0_l in Hp.
  assert (Hkk : forall k, primitives s k = of_kind k (placed ord 0 [] 0 cs)) by (intros k; rewrite Hk; by destruct k).
  destruct (batches_ok (scene_finish s)) as (bs & Eb & Hkb & Hso & _ & _).
  { intros k. destruct (finish_ok s k) as [Hperm Hsorted]. split; [done|]. rewrite Hperm, Hkk. apply Forall_elem.
    intros p [Hin _]%elem_of_kind. destruct (placed_region ord 0 [] 0 cs p [] Hin (List.Forall_nil _)) as (j & b & -> & Hj).
    pose proof (painted_bound _ _ _ _ _ _ _ Hp Hj). unfold U32_MAX. lia. }
  exists s, bs, ord. split; [done|]. split; [done|]. split; [|split; [done|apply Hp]].
  apply perm_of_kinds. intros k. rewrite Hkb, <- Hkk. apply finish_ok.
Qed.

End Painting.

(** ** Paths and transformations *)

Section Paths.
Context {Paint : Type}.
Implicit Types (p : Path (Paint := Paint)).

(** The calls that build a path. *)
Inductive PathCall :=
| CallMove (to : Point)
| CallLine (to : Point)
| CallCurve (to ctrl : Point).

Definition path_call p (c : PathCall) : Path :=
  match c with
  | CallMove to => move_to p to
  | CallLine to => line_to p to
  | CallCurve to ctrl => curve_to p to ctrl
  end.

(** The bounds of a path contain its vertices and do not have a negative size. *)
Record path_ok (start : Point) p : Prop := {
  po_covered : forall v, v ∈ vertices p -> contains (path_bounds p) (xy_position v) = true;
  po_start : contains (path_bounds p) start = true;
  po_size : 0 <= width (size (path_bounds p)) /\ 0 <= height (size (path_bounds p));
  po_triangles : exists n, length (vertices p) = (3 * n)%nat;
}.

Lemma union_point_ok b q :
  0 <= width (size b) /\ 0 <= height (size b) ->
  let u := union b (point_bounds q) in
  (forall r, contains b r = true -> contains u r = true) /\ contains u q = true /\
  0 <= width (size u) /\ 0 <= height (size u).
Proof.
  unfold point_bounds, union, from_corners, contains. rewrite point_min_spec, point_max_spec. unfold bottom_right.
  cbn [px py origin size width height]. intros H. split_and!; [intros r; lia|lia|lia|lia].
Qed.

Lemma push_triangle_ok start p xy st :
  path_ok start p -> path_ok start (push_triangle p xy st).
Proof.
  intros [Hc Hs Hz [n Hn]]. destruct xy as [[a b] c], st as [[sa sb] sc].
  destruct (union_point_ok (path_bounds p) a Hz) as (Ka & Ha & Hza).
  destruct (union_point_ok _ b Hza) as (Kb & Hb & Hzb). destruct (union_point_ok _ c Hzb) as (Kc & Hcc & Hzc).
  split; cbn [push_triangle path_bounds vertices]; [|auto|done|exists (S n); rewrite length_app; cbn; lia].
  intros v. rewrite elem_of_app, !elem_of_cons. intros [Hv|[->|[->|[->|Hv]]]]; cbn [xy_position]; auto.
  by apply elem_of_nil in Hv.
Qed.

Lemma with_contours_ok start p n : path_ok start p -> path_ok start (with_contours p n).
Proof. by intros [? ? ? ?]. Qed.

Lemma with_current_ok start p q : path_ok start p -> path_ok start (with_current p q).
Proof. by intros [? ? ? ?]. Qed.

Lemma path_call_ok start p c : path_ok start p -> path_ok start (path_call p c).
Proof.
  intros H. destruct c as [to|to|to ctrl]; cbn [path_call]; [by destruct H|unfold line_to|unfold curve_to];
    apply with_current_ok; [|apply push_triangle_ok];
    (destruct (1 <? _)%nat; [apply push_triangle_ok|]); by apply with_contours_ok.
Qed.

(** A path that is built from a start by moves, lines and curves is made of whole
    triangles, and its bounds, which the scene clips it by and orders it with, contain the
    start and every vertex. *)
Theorem path_bounds_correct start (x : Paint) cs :
  path_ok start (foldl path_call (scene_path_new start x) cs).
Proof.
  assert (H : path_ok start (scene_path_new start x)).
  { split; cbn; [intros v Hv; by apply elem_of_nil in Hv|unfold contains; cbn; lia|lia|by exists 0%nat]. }
  revert H. generalize (scene_path_new start x). induction cs as [|c cs IH]; intros p H; [done|]. cbn. by apply IH, path_call_ok.
Qed.
End Paths.

(** Transformations compose like functions: the composition applies the second
    matrix and then the first, whether or not the shortcut for the unit is taken; it is
    associative with the unit on both sides; translating, rotating and scaling a matrix
    translates, rotates and scales the point before it is applied. *)
Theorem transform_compose_correct (a b c : TransformationMatrix) p :
  matrix_apply (compose a b) p = matrix_apply a (matrix_apply b p) /\
  compose (compose a b) c = compose a (compose b c) /\ compose a matrix_unit = a /\ compose matrix_unit a = a /\
  matrix_apply (matrix_translate a p) (mkPoint 0 0) = matrix_apply a p /\
  (forall s, matrix_apply (matrix_scale a s) p = matrix_apply a (mkPoint (width s * px p) (height s * py p))) /\
  (forall cos sin, matrix_apply (matrix_rotate a cos sin) p = matrix_apply a (mkPoint (cos * px p - sin * py p) (sin * px p + cos * py p))).
Proof.
  assert (Hc : forall a b, compose a b =
    mkMatrix (m00 a * m00 b + m01 a * m10 b) (m00 a * m01 b + m01 a * m11 b) (m10 a * m00 b + m11 a * m10 b)
      (m10 a * m01 b + m11 a * m11 b) (t0 a + m00 a * t0 b + m01 a * t1 b) (t1 a + m10 a * t0 b + m11 a * t1 b)).
  { intros x y. unfold compose. case_bool_decide as E; [|done]. subst. destruct x. cbn. f_equal; lia. }
  unfold matrix_translate, matrix_scale, matrix_rotate. rewrite !Hc. unfold matrix_apply.
  destruct a as [a1 a2 a3 a4 a5 a6], b as [b1 b2 b3 b4 b5 b6], c as [c1 c2 c3 c4 c5 c6], p as [x y].
  cbn [m00 m01 m10 m11 t0 t1 px py matrix_unit].
  split; [f_equal; ring|]. split; [f_equal; ring|]. split; [f_equal; ring|]. split; [f_equal; ring|].
  split; [f_equal; ring|]. split; intros; rewrite Hc; cbn; f_equal; ring.
Qed.

(** ** Instances *)

Module TestScene.
(** A quad of ten by ten at [x], [y]. *)
Definition square (x y : Z) (mode : BlendMode) : Primitive (Paint := unit) :=
  let b := mkBounds (mkPoint x y) (mkSize 10 10) in PQuad (mkQuad 0 b (mkMask b) tt (blend_code mode)).

(** Two quads that overlap, and a third apart. *)
Definition three : list PaintCall := [CallInsert (square 0 0 Normal); CallInsert (square 5 5 Normal); CallInsert (square 50 50 Normal)].

Definition scene_of (cs : list (PaintCall (Paint := unit))) : Scene :=
  match paint_all (scene_clear scene_default) cs with Ok s => s | _ => scene_default end.

Lemma three_painted : paint_all (scene_clear scene_default) three = Ok (scene_of three).
Proof. vm_compute. reflexivity. Qed.

Lemma scene_replay_correct_witness :
  scene_replay (scene_clear scene_default) 0 3 (scene_of three) = Ok (scene_of three).
Proof. exact (proj1 (scene_replay_correct (H := stable_sort) scene_default scene_default three _ three_painted)). Defined.

Lemma scene_draw_correct_witness :
  exists s bs, paint_all (scene_clear scene_default) three = Ok s /\
    batches (scene_finish (H := stable_sort) s) = Ok bs /\ StronglySorted (key_le prim_key) (drawn bs).
Proof.
  destruct (@scene_draw_correct unit stable_sort stable_sort_laws scene_default three) as (s & bs & ord & E & Eb & _ & Hs & _);
    [reflexivity|]. exists s, bs. split; [exact E|]. split; [exact Eb|exact Hs].
Defined.

(** The third quad reuses the order of the first, so that the sort of [finish] puts it
    before the second.  The record of the second then refers to the third: replaying the
    second operation of the finished frame paints the third quad. *)
Example replay_after_finish :
  (exists s, scene_replay scene_default 1 2 (scene_of three) = Ok s /\ map quad_bounds (quads s) = [mkBounds (mkPoint 5 5) (mkSize 10 10)]) /\
  (exists s, scene_replay scene_default 1 2 (scene_finish (H := stable_sort) (scene_of three)) = Ok s /\
     map quad_bounds (quads s) = [mkBounds (mkPoint 50 50) (mkSize 10 10)]).
Proof. split; eexists; split; vm_compute; reflexivity. Qed.
End TestScene.
