(* ===== verification/Text.v ===== *)
(** * Text: the strings of the keymap

    A string is the list of its characters, and a character its Unicode scalar
    value; the code only slices strings at the character boundaries it has just
    found.  The standard library's tables of letters and of white space are a class,
    with the documented facts the parsers rely on, and have an ASCII instance. *)

From Stdlib Require Import NArith String Ascii.
From stdpp Require Import base list option numbers.
From S2P Require Import Prelude.

#[local] Set Warnings "-register-all,-clear-no-such-hyp".

Abbreviation char := N.
Abbreviation str := (list N).

(** A literal. *)
Definition lit (s : string) : str := map N_of_ascii (list_ascii_of_string s).
Definition ch (s : string) : char := hd 0%N (lit s).

Arguments lit s%_string_scope.
Arguments ch s%_string_scope.

Definition ascii_upper (c : char) : bool := (65 <=? c)%N && (c <=? 90)%N.
Definition ascii_lower (c : char) : bool := (97 <=? c)%N && (c <=? 122)%N.
Definition ascii_digit (c : char) : bool := (48 <=? c)%N && (c <=? 57)%N.
Definition ascii_alphanumeric (c : char) : bool := ascii_upper c || ascii_lower c || ascii_digit c.
Definition ascii_whitespace (c : char) : bool := ((9 <=? c)%N && (c <=? 13)%N) || (c =? 32)%N.

(** [char::is_alphanumeric] and [char::is_whitespace]. *)
Class Unicode := {
  is_alphanumeric : char -> bool;
  is_whitespace : char -> bool;
}.

(** The ASCII range of the tables, and that no letter or digit is white space. *)
Class UnicodeLaws `{Unicode} : Prop := {
  alphanumeric_ascii c : (c < 128)%N -> is_alphanumeric c = ascii_alphanumeric c;
  whitespace_ascii c : (c < 128)%N -> is_whitespace c = ascii_whitespace c;
  alphanumeric_not_whitespace c : is_alphanumeric c = true -> is_whitespace c = false;
}.

(** The tables restricted to ASCII. *)
Definition ascii_unicode : Unicode := {|
  is_alphanumeric := ascii_alphanumeric;
  is_whitespace := ascii_whitespace;
|}.

Lemma ascii_unicode_laws : UnicodeLaws (H := ascii_unicode).
Proof.
  split; [done|done|]. intros c. cbn. unfold ascii_alphanumeric, ascii_upper, ascii_lower, ascii_digit, ascii_whitespace.
  rewrite !orb_true_iff, !andb_true_iff, orb_false_iff, andb_false_iff, !N.leb_le, !N.leb_gt, N.eqb_neq. lia.
Qed.

(** ** The operations on strings *)

Definition str_eqb (a b : str) : bool := bool_decide (a = b).

Fixpoint take_while (p : char -> bool) (s : str) : str :=
  match s with
  | [] => []
  | c :: s => if p c then c :: take_while p s else []
  end.

Fixpoint skip_while (p : char -> bool) (s : str) : str :=
  match s with
  | [] => []
  | c :: s' => if p c then skip_while p s' else s
  end.

(** [str::strip_prefix] *)
Fixpoint strip_prefix (p s : str) : option str :=
  match p, s with
  | [], _ => Some s
  | c :: p, d :: s => if (c =? d)%N then strip_prefix p s else None
  | _ :: _, [] => None
  end.

Definition starts_with (p s : str) : bool :=
  match strip_prefix p s with Some _ => true | None => false end.

Definition ends_with_char (c : char) (s : str) : bool :=
  match list.last s with Some d => (d =? c)%N | None => false end.

(** [str::split] on a character. *)
Fixpoint split (c : char) (s : str) : list str :=
  match s with
  | [] => [[]]
  | d :: s =>
      match split c s with
      | w :: ws => if (d =? c)%N then [] :: w :: ws else (d :: w) :: ws
      | [] => []
      end
  end.

Definition to_ascii_lowercase (c : char) : char := if ascii_upper c then (c + 32)%N else c.
Definition to_ascii_uppercase (c : char) : char := if ascii_lower c then (c - 32)%N else c.
Definition make_ascii_lowercase (s : str) : str := map to_ascii_lowercase s.
Definition eq_ignore_ascii_case (a b : str) : bool :=
  str_eqb (make_ascii_lowercase a) (make_ascii_lowercase b).

(** The operating system the program is compiled for; [Linux] is also FreeBSD. *)
Inductive Os := MacOs | Linux | Windows | OtherOs.

(** ** Lemmas *)

Lemma str_eqb_spec a b : str_eqb a b = true <-> a = b.
Proof. unfold str_eqb. by rewrite bool_decide_eq_true. Qed.

Lemma str_eqb_refl a : str_eqb a a = true.
Proof. by apply str_eqb_spec. Qed.

Lemma take_skip_while p s : take_while p s ++ skip_while p s = s.
Proof. induction s as [|c s IH]; simpl; [done|]. destruct (p c); simpl; [by rewrite IH|done]. Qed.

Lemma skip_while_length p s : length (skip_while p s) <= length s.
Proof. induction s as [|c s IH]; simpl; [lia|]. destruct (p c); simpl; lia. Qed.

Lemma take_while_app p s rest :
  Forall (fun c => p c = true) s -> match rest with c :: _ => p c = false | [] => True end ->
  take_while p (s ++ rest) = s /\ skip_while p (s ++ rest) = rest.
Proof.
  intros Hs Hr. induction Hs as [|c s Hc _ IH]; simpl.
  - destruct rest as [|c rest]; [done|]. simpl. by rewrite Hr.
  - rewrite Hc. destruct IH as [-> ->]. done.
Qed.

Lemma take_while_Forall p s : Forall (fun c => p c = true) (take_while p s).
Proof. induction s as [|c s IH]; simpl; [done|]. destruct (p c) eqn:E; by constructor. Qed.

Lemma skip_while_head p s c r : skip_while p s = c :: r -> p c = false.
Proof.
  induction s as [|d s IH]; simpl; [done|]. destruct (p d) eqn:E; [done|]. by intros [= -> ->].
Qed.

Lemma skip_while_idem p s : skip_while p (skip_while p s) = skip_while p s.
Proof.
  destruct (skip_while p s) as [|c r] eqn:E; [done|]. simpl. by rewrite (skip_while_head _ _ _ _ E).
Qed.

Lemma strip_prefix_app p s : strip_prefix p (p ++ s) = Some s.
Proof. induction p as [|c p IH]; simpl; [done|]. by rewrite N.eqb_refl. Qed.

Lemma strip_prefix_Some p s r : strip_prefix p s = Some r -> s = p ++ r.
Proof.
  revert s. induction p as [|c p IH]; intros s; simpl; [by intros [= ->]|].
  destruct s as [|d s]; [done|]. destruct (N.eqb_spec c d) as [->|]; [|done]. intros H. by rewrite (IH _ H).
Qed.

Lemma starts_with_app p s : starts_with p (p ++ s) = true.
Proof. unfold starts_with. by rewrite strip_prefix_app. Qed.

Lemma to_ascii_lowercase_idem c : to_ascii_lowercase (to_ascii_lowercase c) = to_ascii_lowercase c.
Proof.
  unfold to_ascii_lowercase at 2 3. destruct (ascii_upper c) eqn:E; unfold to_ascii_lowercase; [|by rewrite E].
  replace (ascii_upper (c + 32)) with false; [done|]. symmetry. apply not_true_is_false. intros E'. revert E E'.
  unfold ascii_upper. rewrite !andb_true_iff, !N.leb_le. lia.
Qed.

Lemma make_ascii_lowercase_idem s : make_ascii_lowercase (make_ascii_lowercase s) = make_ascii_lowercase s.
Proof. unfold make_ascii_lowercase. rewrite map_map. apply map_ext. apply to_ascii_lowercase_idem. Qed.

(** The pieces of a split contain no separator. *)
Lemma split_nonempty c s : split c s <> [].
Proof.
  induction s as [|d s IH]; simpl; [done|]. destruct (split c s); [done|]. by destruct (d =? c)%N.
Qed.

Lemma split_pieces c s : Forall (fun w => Forall (fun d => d <> c) w) (split c s).
Proof.
  induction s as [|d s IH]; simpl; [by repeat constructor|]. destruct (split c s) as [|w ws]; [done|].
  apply Forall_cons_iff in IH as [Hw Hws]. destruct (N.eqb_spec d c); by repeat constructor.
Qed.

(** A piece without the separator, in front. *)
Lemma split_piece c w s : Forall (fun d => d <> c) w -> split c (w ++ c :: s) = w :: split c s.
Proof.
  induction 1 as [|d w Hd _ IH]; simpl.
  - destruct (split c s) as [|x xs] eqn:E; [by destruct (split_nonempty c s)|]. by rewrite N.eqb_refl.
  - rewrite IH. by apply N.eqb_neq in Hd as ->.
Qed.

Lemma split_last c w : Forall (fun d => d <> c) w -> split c w = [w].
Proof.
  induction 1 as [|d w Hd _ IH]; simpl; [done|]. rewrite IH. by apply N.eqb_neq in Hd as ->.
Qed.
