(* ===== verification/SemanticVersion.v ===== *)
(** * Semantic versions: [crates/semantic_version/src/semantic_version.rs]

    Versions of three numbers, parsed, printed and compared. *)

From Stdlib Require Import NArith String.
From stdpp Require Import base list option numbers.
From S2P Require Import Prelude Text.

#[local] Set Warnings "-register-all,-clear-no-such-hyp".

Open Scope N_scope.

(** Components are of type [usize]. *)
Record SemanticVersion := mkVersion { major : N; minor : N; patch : N }.

Definition usize_max : N := 18446744073709551615.

Inductive VersionError := MissingMajor | MissingMinor | MissingPatch | InvalidNumber.

(** ** Numbers *)

(** The digits, most significant first; each step takes the last of them. *)
Fixpoint digits (fuel : nat) (n : N) : str :=
  match fuel with
  | O => []
  | S fuel => if n <? 10 then [48 + n] else digits fuel (n / 10) ++ [48 + n mod 10]
  end.

(** [usize::fmt]. *)
Definition print_usize (n : N) : str := digits (S (N.size_nat n)) n.

(** A digit more, unless it is none or the number is too great. *)
Definition push_digit (acc : option N) (c : char) : option N :=
  match acc with
  | Some n => if ascii_digit c && (n * 10 + (c - 48) <=? usize_max) then Some (n * 10 + (c - 48)) else None
  | None => None
  end.

(** [usize::from_str]: digits after a sign that may be left out. *)
Definition parse_usize (s : str) : option N :=
  match s with
  | [] => None
  | c :: r =>
      if c =? ch "+" then match r with [] => None | _ => foldl push_digit (Some 0) r end
      else foldl push_digit (Some 0) s
  end.

(** ** Versions *)

Section Versions.
Context `{Unicode}.

(** [str::trim]. *)
Definition trim (s : str) : str := rev (skip_while is_whitespace (rev (skip_while is_whitespace s))).

(** A component and its number. *)
Definition component (e : VersionError) (c : option str) : N + VersionError :=
  match c with
  | Some c => match parse_usize c with Some n => inl n | None => inr InvalidNumber end
  | None => inr e
  end.

Definition from_str (s : str) : SemanticVersion + VersionError :=
  let components := split (ch ".") (trim s) in
  match component MissingMajor (components !! 0%nat) with
  | inl major =>
      match component MissingMinor (components !! 1%nat) with
      | inl minor =>
          match component MissingPatch (components !! 2%nat) with
          | inl patch => inl (mkVersion major minor patch)
          | inr e => inr e
          end
      | inr e => inr e
      end
  | inr e => inr e
  end.

(** [Display]. *)
Definition to_string (v : SemanticVersion) : str :=
  print_usize (major v) ++ ch "." :: print_usize (minor v) ++ ch "." :: print_usize (patch v).

Definition serialize : SemanticVersion -> str := to_string.
Definition deserialize (s : str) : option SemanticVersion := match from_str s with inl v => Some v | inr _ => None end.

(** The derived order. *)
Definition version_cmp (a b : SemanticVersion) : comparison :=
  match major a ?= major b with
  | Eq => match minor a ?= minor b with Eq => patch a ?= patch b | c => c end
  | c => c
  end.

Context `{!UnicodeLaws}.

(** ** Printing and parsing *)

Definition is_digit (c : char) : Prop := 48 <= c <= 57.

Lemma digits_ok fuel n :
  n < 2 ^ N.of_nat fuel -> Forall is_digit (digits fuel n) /\ (0 < fuel -> digits fuel n <> [])%nat /\
  (n <= usize_max -> foldl push_digit (Some 0) (digits fuel n) = Some n).
Proof.
  revert n. induction fuel as [|fuel IH]; intros n Hn.
  { cbn in Hn. replace n with 0 by lia. split; [constructor|]. split; [lia|done]. }
  cbn [digits]. assert (Hstep : forall m c, m * 10 + (c - 48) = n -> is_digit c -> n <= usize_max -> push_digit (Some m) c = Some n).
  { intros m c Em Hc Hm. cbn. rewrite Em. unfold is_digit, ascii_digit in *.
    destruct (N.leb_spec 48 c), (N.leb_spec c 57), (N.leb_spec n usize_max); try lia. done. }
  destruct (N.ltb_spec n 10) as [Hlt|Hge].
  - assert (Hd : is_digit (48 + n)) by (unfold is_digit; lia).
    split; [by constructor; [|constructor]|]. split; [done|]. intros Hm. cbn [foldl]. apply Hstep; [lia|done|done].
  - assert (Hdiv : n / 10 < 2 ^ N.of_nat fuel).
    { rewrite Nat2N.inj_succ, N.pow_succ_r' in Hn. apply N.Div0.div_lt_upper_bound. clear IH. set (p := 2 ^ N.of_nat fuel) in *. clearbody p. lia. }
    pose proof (N.div_mod n 10 ltac:(lia)) as Em. pose proof (N.mod_lt n 10 ltac:(lia)) as Hmod. destruct (IH _ Hdiv) as (Hf & _ & Hv).
    revert Hf Hv Em Hmod. clear IH Hdiv. generalize (n / 10) (n mod 10). intros q r Hf Hv Em Hmod.
    assert (Hd : is_digit (48 + r)) by (unfold is_digit; lia).
    split; [apply Forall_app; split; [done|by constructor; [|constructor]]|]. split; [intros _ E; by apply app_nil in E as [_ ?]|].
    intros Hm. rewrite foldl_app, Hv by lia. cbn [foldl]. apply Hstep; [lia|done|done].
Qed.

Lemma size_nat_gt n : n < 2 ^ N.of_nat (N.size_nat n).
Proof.
  destruct n as [|p]; [done|]. cbn [N.size_nat]. induction p as [p IH|p IH|]; cbn [Pos.size_nat]; [..|done];
    rewrite Nat2N.inj_succ, N.pow_succ_r'; revert IH; generalize (2 ^ N.of_nat (Pos.size_nat p)); lia.
Qed.

Lemma print_usize_ok n : Forall is_digit (print_usize n) /\ print_usize n <> [] /\ (n <= usize_max -> parse_usize (print_usize n) = Some n).
Proof.
  destruct (digits_ok (S (N.size_nat n)) n) as (Hd & Hn & Hv).
  { rewrite Nat2N.inj_succ. apply (N.lt_le_trans _ (2 ^ N.of_nat (N.size_nat n))); [|apply N.pow_le_mono_r; lia].
    apply size_nat_gt. }
  fold (print_usize n) in *. specialize (Hn ltac:(lia)). split; [done|]. split; [done|]. intros Hm. specialize (Hv Hm).
  unfold parse_usize. destruct (print_usize n) as [|c r]; [done|]. inversion_clear Hd as [|?? Hc _].
  destruct (N.eqb_spec c (ch "+")) as [->|_]; [|done]. by destruct Hc as [Hc _].
Qed.

(** White space is neither a digit nor a dot. *)
Definition inner (c : char) : Prop := is_digit c \/ c = ch ".".

Lemma inner_not_space c : inner c -> is_whitespace c = false.
Proof.
  intros Hc. assert (H48 : 46 <= c <= 57) by (destruct Hc as [Hc| ->]; [unfold is_digit in Hc; lia|vm_compute; split; discriminate]).
  rewrite whitespace_ascii by lia. unfold ascii_whitespace.
  destruct (N.leb_spec c 13), (N.eqb_spec c 32); try lia; by rewrite andb_false_r.
Qed.

Lemma skip_while_all s r : Forall (fun c => is_whitespace c = true) s -> skip_while is_whitespace (s ++ r) = skip_while is_whitespace r.
Proof. induction 1 as [|c s Hc _ IH]; [done|]. cbn. by rewrite Hc. Qed.

Lemma skip_while_inner s r : s <> [] -> Forall inner s -> skip_while is_whitespace (s ++ r) = s ++ r.
Proof. intros Hne Hs. destruct s as [|c s]; [done|]. inversion_clear Hs. cbn. by rewrite inner_not_space. Qed.

Lemma trim_padded l s r :
  Forall (fun c => is_whitespace c = true) l -> Forall (fun c => is_whitespace c = true) r -> s <> [] -> Forall inner s -> trim (l ++ s ++ r) = s.
Proof.
  intros Hl Hr Hne Hs. unfold trim. rewrite (skip_while_all _ _ Hl), (skip_while_inner _ _ Hne Hs), rev_app_distr.
  rewrite skip_while_all by by apply Forall_rev. rewrite <- (app_nil_r (rev s)), skip_while_inner.
  - by rewrite app_nil_r, rev_involutive.
  - intros E. apply Hne. rewrite <- (rev_involutive s), E. done.
  - by apply Forall_rev.
Qed.

Lemma digits_not_dot s : Forall is_digit s -> Forall (fun c => c <> ch ".") s.
Proof. apply Forall_impl. intros c [Hc _] ->. by vm_compute in Hc. Qed.

Definition fits (v : SemanticVersion) : Prop := major v <= usize_max /\ minor v <= usize_max /\ patch v <= usize_max.

Lemma component_fits e c n : component e c = inl n -> n <= usize_max.
Proof.
  assert (Hf : forall s acc m, foldl push_digit acc s = Some m -> (forall k, acc = Some k -> k <= usize_max) -> m <= usize_max).
  { induction s as [|d s IH]; intros acc m E Ha; [by apply Ha|]. apply (IH _ _ E). intros k. unfold push_digit.
    destruct acc; [|done]. destruct (ascii_digit d); [|done]. destruct (N.leb_spec (n0 * 10 + (d - 48)) usize_max); [|done]. by intros [= <-]. }
  destruct c as [c|]; [|done]. cbn. destruct (parse_usize c) as [m|] eqn:E; [|done]. intros [= <-]. unfold parse_usize in E.
  destruct c as [|d r]; [done|]. assert (Hz : forall k, Some 0 = Some k -> k <= usize_max) by (intros k [= <-]; lia).
  destruct (d =? ch "+"); [destruct r; [done|]|]; by apply (Hf _ _ _ E).
Qed.

(** A version is printed as what it is parsed from, white space around it aside; what is
    parsed is a version whose numbers are of the machine's width; and of versions that are
    printed alike, and of those that compare as equal, there is one. *)
Theorem version_roundtrip v l r :
  Forall (fun c => is_whitespace c = true) l -> Forall (fun c => is_whitespace c = true) r -> fits v ->
  from_str (l ++ to_string v ++ r) = inl v /\ deserialize (serialize v) = Some v /\
  (forall s v', from_str s = inl v' -> fits v' /\ from_str (to_string v') = inl v' /\ (to_string v' = to_string v -> v' = v)) /\
  (forall v', version_cmp v v' = Eq <-> v = v').
Proof.
  assert (Hround : forall v l r, Forall (fun c => is_whitespace c = true) l -> Forall (fun c => is_whitespace c = true) r -> fits v ->
    from_str (l ++ to_string v ++ r) = inl v).
  { intros [a b c] l' r' Hl Hr (Ha & Hb & Hc). cbn in Ha, Hb, Hc.
    destruct (print_usize_ok a) as (Da & Na & Pa), (print_usize_ok b) as (Db & Nb & Pb), (print_usize_ok c) as (Dc & Nc & Pc).
    unfold from_str. rewrite trim_padded; [|done|done| |].
    - unfold to_string. cbn [major minor patch]. rewrite !split_piece, split_last by by apply digits_not_dot.
      cbn [lookup list_lookup component]. by rewrite Pa, Pb, Pc.
    - unfold to_string. cbn [major]. by destruct (print_usize a).
    - assert (Hi : forall s, Forall is_digit s -> Forall inner s) by (intros s; apply Forall_impl; by left).
      unfold to_string. cbn [major minor patch]. apply Forall_app. split; [by apply Hi|]. constructor; [by right|]. apply Forall_app. split; [by apply Hi|].
      constructor; [by right|by apply Hi]. }
  assert (Hplain : forall v, fits v -> from_str (to_string v) = inl v).
  { intros v' Hv. rewrite <- (app_nil_r (to_string v')). by apply (Hround v' [] []). }
  intros Hl Hr Hv. split; [by apply Hround|]. split; [unfold deserialize, serialize; by rewrite Hplain|]. split.
  - intros s v' E. assert (Hv' : fits v').
    { unfold from_str in E. destruct (component MissingMajor _) eqn:E1; [|done]. destruct (component MissingMinor _) eqn:E2; [|done].
      destruct (component MissingPatch _) eqn:E3; [|done]. injection E as <-. repeat split; by eapply component_fits. }
    split; [done|]. split; [by apply Hplain|]. intros Es. pose proof (Hplain v' Hv') as E'. rewrite Es, (Hplain v Hv) in E'. congruence.
  - intros v'. unfold version_cmp. destruct v as [a b c], v' as [a' b' c']. cbn.
    destruct (N.compare_spec a a'), (N.compare_spec b b'), (N.compare_spec c c'); split; try done; try congruence; intros [=]; lia.
Qed.
End Versions.

(** ** Tests and witness *)

Module TestVersions.
#[local] Existing Instance ascii_unicode.
#[local] Existing Instance ascii_unicode_laws.

Example parsed : from_str (lit " 1.20.3
") = inl (mkVersion 1 20 3) /\ to_string (mkVersion 1 20 0) = lit "1.20.0".
Proof. by vm_compute. Qed.

Example errors :
  from_str (lit "1.2") = inr MissingPatch /\ from_str (lit "") = inr InvalidNumber /\ from_str (lit "1.-2.3") = inr InvalidNumber /\
  from_str (lit "1.2.18446744073709551616") = inr InvalidNumber.
Proof. by vm_compute. Qed.

(** What follows the third number is ignored. *)
Example more_components : from_str (lit "1.2.3.junk") = inl (mkVersion 1 2 3).
Proof. by vm_compute. Qed.

Lemma version_roundtrip_witness : from_str (lit " " ++ to_string (mkVersion 1 20 3) ++ []) = inl (mkVersion 1 20 3).
Proof.
  apply (version_roundtrip (mkVersion 1 20 3) (lit " ") []); [by repeat constructor|constructor|].
  repeat split; vm_compute; discriminate.
Defined.

End TestVersions.
