(* ===== verification/RelPath.v ===== *)
(** * Relative paths: [crates/util/src/rel_path.rs], and [PathStyle] of [paths.rs]

    Paths that are relative and normalized, kept with [/] between their components.  Strings
    are lists of characters; a path that is not valid Unicode is no string. *)

From Stdlib Require Import NArith String.
From stdpp Require Import base list option numbers.
From S2P Require Import Prelude Text.

#[local] Set Warnings "-register-all,-clear-no-such-hyp".

Definition separator : char := ch "/".
Definition backslash : char := ch "\".
Arguments separator : simpl never.
Arguments backslash : simpl never.

Inductive PathStyle := Posix | Windows.
#[global] Instance PathStyle_eq_dec : EqDecision PathStyle.
Proof. solve_decision. Defined.

Definition style_separator (st : PathStyle) : char := match st with Posix => separator | Windows => backslash end.
Definition is_windows (st : PathStyle) : bool := bool_decide (st = Windows).

Definition not_sep (c d : char) : bool := negb (d =? c)%N.

(** [str::find] and [rfind] of a character: what is before it and after it. *)
Definition find_char (c : char) (s : str) : option (str * str) :=
  match skip_while (not_sep c) s with [] => None | _ :: r => Some (take_while (not_sep c) s, r) end.
Definition rfind_char (c : char) (s : str) : option (str * str) :=
  match find_char c (rev s) with Some (a, b) => Some (rev b, rev a) | None => None end.

Definition is_ascii_alphabetic (c : char) : bool := ascii_upper c || ascii_lower c.

Definition is_absolute (s : str) (st : PathStyle) : bool :=
  starts_with [separator] s ||
  (is_windows st &&
   (starts_with [backslash] s ||
    match s with
    | c :: r =>
        is_ascii_alphabetic c &&
        match strip_prefix (lit ":") r with
        | Some p => starts_with [separator] p || starts_with [backslash] p
        | None => false
        end
    | [] => false
    end)).

(** [PathStyle::join] and [split]. *)
Definition style_join (st : PathStyle) (left right : str) : option str :=
  if is_absolute right st then None
  else if bool_decide (left = []) then Some right
  else Some (left ++ (if ends_with_char (style_separator st) left then [] else [style_separator st]) ++ right).

Definition style_split (st : PathStyle) (s : str) : option str * str :=
  match rfind_char (style_separator st) s with
  | None => (None, s)
  | Some (a, b) => (Some (a ++ [style_separator st]), b)
  end.

(** ** Components *)

(** [RelPathComponents]: the rest is the state of the iterator. *)
Definition next_component (s : str) : option (str * str) :=
  match find_char separator s with
  | Some (head, tail) => Some (head, tail)
  | None => match s with [] => None | _ => Some (s, []) end
  end.

Definition next_back (s : str) : option (str * str) :=
  match rfind_char separator s with
  | Some (head, tail) => Some (tail, head)
  | None => match s with [] => None | _ => Some (s, []) end
  end.

Fixpoint collect_components (fuel : nat) (s : str) : list str :=
  match fuel with
  | 0 => []
  | S fuel => match next_component s with Some (c, rest) => c :: collect_components fuel rest | None => [] end
  end.
Definition components (s : str) : list str := collect_components (S (length s)) s.

(** [RelPathAncestors]. *)
Definition next_ancestor (s : option str) : option (str * option str) :=
  match s with
  | None => None
  | Some r =>
      Some (r, match rfind_char separator r with
               | Some (a, _) => Some a
               | None => match r with [] => None | _ => Some [] end
               end)
  end.

Fixpoint collect_ancestors (fuel : nat) (s : option str) : list str :=
  match fuel with
  | 0 => []
  | S fuel => match next_ancestor s with Some (a, rest) => a :: collect_ancestors fuel rest | None => [] end
  end.
Definition ancestors (s : str) : list str := collect_ancestors (2 + length s) (Some s).

Definition file_name (s : str) : option str := fst <$> next_back s.
Definition parent (s : str) : option str := snd <$> next_back s.

(** ** Paths *)

Definition path_strip_prefix (s other : str) : option str :=
  match other with
  | [] => Some s
  | _ =>
      match strip_prefix other s with
      | Some suffix =>
          match strip_prefix [separator] suffix with
          | Some suffix => Some suffix
          | None => match suffix with [] => Some [] | _ => None end
          end
      | None => None
      end
  end.

Definition path_starts_with (s other : str) : bool := bool_decide (is_Some (path_strip_prefix s other)).

(** [str::strip_suffix]. *)
Definition strip_suffix (x s : str) : option str := @rev N <$> strip_prefix (rev x) (rev s).

Definition path_ends_with (s other : str) : bool :=
  match strip_suffix other s with
  | Some p => ends_with_char separator p || bool_decide (p = [])
  | None => false
  end.

Definition path_len (s : str) : nat := S (length (List.filter (fun c => (c =? separator)%N) s)).

Fixpoint skip_components (n : nat) (s : str) : option str :=
  match n with
  | 0 => Some s
  | S n => match next_component s with Some (_, rest) => skip_components n rest | None => None end
  end.

Definition last_n_components (s : str) (count : nat) : option str :=
  if count <=? path_len s then skip_components (path_len s - count) s else None.

Definition path_join (s other : str) : str :=
  match s, other with
  | [], _ => other
  | _, [] => s
  | _, _ => s ++ separator :: other
  end.

Definition replace_char (a b : char) (s : str) : str := map (fun c => if (c =? a)%N then b else c) s.

Definition display (s : str) (st : PathStyle) : str := match st with Posix => s | Windows => replace_char separator backslash s end.

(** The derived comparison of the components, of strings by their characters. *)
Fixpoint lex_cmp {A} (cmp : A -> A -> comparison) (a b : list A) : comparison :=
  match a, b with
  | [], [] => Eq
  | [], _ :: _ => Lt
  | _ :: _, [] => Gt
  | x :: a, y :: b => match cmp x y with Eq => lex_cmp cmp a b | c => c end
  end.
Definition path_cmp (a b : str) : comparison := lex_cmp (lex_cmp N.compare) (components a) (components b).

(** [RelPathBuf::pop], [push] and [set_extension]; that of [std::path::PathBuf], on a file
    name, is an argument. *)
Definition buf_pop (s : str) : str * bool :=
  match rfind_char separator s with
  | Some (a, _) => (a, true)
  | None => match s with [] => (s, false) | _ => ([], true) end
  end.
Definition buf_push (s path : str) : str := (match s with [] => s | _ => s ++ [separator] end) ++ path.
Definition set_extension (std_set_extension : str -> str -> str) (s extension : str) : str * bool :=
  match file_name s with
  | Some f => (fst (buf_pop s) ++ std_set_extension f extension, true)
  | None => (s, false)
  end.

(** ** [RelPath::new] *)

Definition starts_with_dot (s : str) (st : PathStyle) : bool :=
  starts_with (lit "./") s || (is_windows st && starts_with (lit ".\") s).

(** The two loops, each of which drops characters. *)
Fixpoint strip_dots (fuel : nat) (s : str) (st : PathStyle) : str :=
  match fuel with
  | 0 => s
  | S fuel => if starts_with_dot s st then strip_dots fuel (drop 2 s) st else s
  end.

Definition is_separator (st : PathStyle) (c : char) : bool := (c =? separator)%N || (is_windows st && (c =? backslash)%N).

(** The characters are in reverse. *)
Fixpoint strip_separators (st : PathStyle) (r : str) : str :=
  match r with
  | [] => []
  | c :: r' => match r' with [] => r | _ :: _ => if is_separator st c then strip_separators st r' else r end
  end.

Definition trimmed (s : str) (st : PathStyle) : str := rev (strip_separators st (rev (strip_dots (length s) s st))).

Definition special (c : str) : bool := str_eqb c [] || str_eqb c (lit ".") || str_eqb c (lit "..").

Definition normalize_step (acc : option str) (c : str) : option str :=
  match acc with
  | None => None
  | Some n =>
      if str_eqb c [] || str_eqb c (lit ".") then Some n
      else if str_eqb c (lit "..") then let (n, popped) := buf_pop n in if popped : bool then Some n else None
      else Some (buf_push n c)
  end.

(** [None] is an error; and whether the path is borrowed, so that it is the one given. *)
Definition rel_path_new (s : str) (st : PathStyle) : option (str * bool) :=
  let p := trimmed s st in
  if is_absolute p st then None
  else
    let '(r, borrowed) :=
      if is_windows st && existsb (fun c => (c =? backslash)%N) p then (replace_char backslash separator p, false) else (p, true) in
    if existsb special (components r) then (fun n => (n, false)) <$> foldl normalize_step (Some []) (components r)
    else Some (r, borrowed).

Definition unix (s : str) : option str :=
  match rel_path_new s Posix with Some (p, true) => Some p | _ => None end.

Definition to_proto (s : str) : str := s.
Definition from_proto (s : str) : option str := unix s.


(** ** A reference: splitting into names and resolving them *)

Fixpoint split_by (f : char -> bool) (s : str) : list str :=
  match s with
  | [] => [[]]
  | c :: r => if f c then [] :: split_by f r else match split_by f r with n :: ns => (c :: n) :: ns | [] => [[c]] end
  end.

Fixpoint resolve (ns cs : list str) : option (list str) :=
  match cs with
  | [] => Some ns
  | c :: cs =>
      if str_eqb c [] || str_eqb c (lit ".") then resolve ns cs
      else if str_eqb c (lit "..") then match ns with [] => None | _ => resolve (removelast ns) cs end
      else resolve (ns ++ [c]) cs
  end.

Definition is_slash (c : char) : bool := (c =? separator)%N.

(** Names with [/] between them. *)
Fixpoint encode (ns : list str) : str :=
  match ns with [] => [] | n :: ns => match ns with [] => n | _ :: _ => n ++ separator :: encode ns end end.

(** Has no separator. *)
Definition plain (n : str) : Prop := Forall (fun c => is_slash c = false) n.
(** A name that is not special. *)
Definition name (n : str) : Prop := plain n /\ special n = false.
Definition valid (ns : list str) : Prop := Forall name ns.

Lemma name_plain n : name n -> plain n.
Proof. by intros [? _]. Qed.

Lemma special_spec n : special n = false <-> n <> [] /\ n <> lit "." /\ n <> lit "..".
Proof. unfold special. rewrite !orb_false_iff, <- !not_true_iff_false, !str_eqb_spec. tauto. Qed.

Lemma name_nonempty n : name n -> n <> [].
Proof. intros [_ Hn]. by apply special_spec in Hn as [? _]. Qed.

(** ** Finding characters *)

Lemma not_sep_slash d : not_sep separator d = negb (is_slash d).
Proof. done. Qed.

Lemma find_char_app a b : plain a -> find_char separator (a ++ separator :: b) = Some (a, b).
Proof.
  intros Ha. unfold find_char. induction Ha as [|c a Hc _ IH]; [done|]. cbn [app skip_while take_while]. rewrite not_sep_slash, Hc. cbn [negb].
  destruct (skip_while (not_sep separator) (a ++ separator :: b)); [discriminate|]. injection IH as Ht Hr. by rewrite Ht, Hr.
Qed.

Lemma find_char_none s : plain s -> find_char separator s = None.
Proof. intros Hs. unfold find_char. induction Hs as [|c a Hc _ IH]; [done|]. cbn. rewrite not_sep_slash, Hc. cbn. by destruct (skip_while _ _). Qed.

Lemma find_char_spec s :
  (plain s /\ find_char separator s = None) \/ (exists a b, plain a /\ s = a ++ separator :: b /\ find_char separator s = Some (a, b)).
Proof.
  assert (Hs : plain s \/ exists a b, plain a /\ s = a ++ separator :: b).
  { induction s as [|c s [IH|(a & b & Ha & ->)]]; [by left; constructor|..]; destruct (is_slash c) eqn:Hc.
    - right. exists [], s. apply N.eqb_eq in Hc as ->. by split; [constructor|].
    - left. by constructor.
    - right. exists [], (a ++ separator :: b). apply N.eqb_eq in Hc as ->. by split; [constructor|].
    - right. exists (c :: a), b. by split; [constructor|]. }
  destruct Hs as [Hs|(a & b & Ha & ->)]; [left; split; [done|by apply find_char_none]|right].
  exists a, b. split; [done|]. split; [done|]. by apply find_char_app.
Qed.

Lemma plain_rev n : plain n -> plain (rev n).
Proof. unfold plain. rewrite !list.Forall_forall. intros Hn c Hc. apply Hn. apply list_elem_of_In. apply in_rev. by apply list_elem_of_In. Qed.

Lemma rfind_char_app a b : plain b -> rfind_char separator (a ++ separator :: b) = Some (a, b).
Proof.
  intros Hb. unfold rfind_char. replace (rev (a ++ separator :: b)) with (rev b ++ separator :: rev a)
    by (rewrite rev_app_distr; cbn; by rewrite <- app_assoc).
  rewrite find_char_app by by apply plain_rev. by rewrite !rev_involutive.
Qed.

Lemma rfind_char_none s : plain s -> rfind_char separator s = None.
Proof. intros Hs. unfold rfind_char. by rewrite find_char_none by by apply plain_rev. Qed.

(** ** Names and their encoding *)

Lemma split_by_nonempty f s : split_by f s <> [].
Proof. destruct s as [|c s]; [done|]. cbn. destruct (f c); [done|]. by destruct (split_by f s). Qed.

Lemma split_by_app f a c b : f c = true -> split_by f (a ++ c :: b) = split_by f a ++ split_by f b.
Proof.
  intros Hc. induction a as [|d a IH]; [cbn; by rewrite Hc|]. cbn [app split_by]. rewrite IH. destruct (f d); [done|].
  pose proof (split_by_nonempty f a). by destruct (split_by f a).
Qed.

Lemma split_app a b : split_by is_slash (a ++ separator :: b) = split_by is_slash a ++ split_by is_slash b.
Proof. by apply split_by_app. Qed.

Lemma split_plain n : plain n -> split_by is_slash n = [n].
Proof. induction 1 as [|c n Hc _ IH]; [done|]. cbn [split_by]. by rewrite Hc, IH. Qed.

Lemma split_encode ns : ns <> [] -> Forall plain ns -> split_by is_slash (encode ns) = ns.
Proof.
  intros Hne Hns. induction Hns as [|n ns Hn Hns IH]; [done|]. cbn [encode]. destruct ns as [|n' ns]; [by apply split_plain|].
  rewrite split_app, IH, split_plain by done. done.
Qed.

Lemma encode_split s : encode (split_by is_slash s) = s.
Proof.
  induction s as [|c s IH]; [done|]. cbn. pose proof (split_by_nonempty is_slash s). destruct (is_slash c) eqn:Hc.
  - apply N.eqb_eq in Hc as ->. cbn [encode]. destruct (split_by is_slash s) eqn:E; [done|]. cbn [app]. by rewrite IH.
  - destruct (split_by is_slash s) as [|n ns] eqn:E; [done|]. rewrite <- IH. cbn [encode]. by destruct ns.
Qed.

Lemma split_all_plain s : Forall plain (split_by is_slash s).
Proof.
  induction s as [|c s IH]; [by repeat constructor|]. cbn. destruct (is_slash c) eqn:Hc; [by constructor; [constructor|]|].
  destruct (split_by is_slash s) as [|n ns]; [by repeat constructor|]. inversion IH; subst. by constructor; [constructor|].
Qed.

Lemma encode_cons n ns : encode (n :: ns) = match ns with [] => n | _ :: _ => n ++ separator :: encode ns end.
Proof. done. Qed.

Lemma encode_more n ns : ns <> [] -> encode (n :: ns) = n ++ separator :: encode ns.
Proof. by destruct ns. Qed.

Lemma encode_app a b : a <> [] -> b <> [] -> encode (a ++ b) = encode a ++ separator :: encode b.
Proof.
  intros Ha Hb. induction a as [|n a IH]; [done|]. destruct a as [|n' a]; [by apply encode_more|].
  change ((n :: n' :: a) ++ b) with (n :: ((n' :: a) ++ b)). rewrite encode_more, IH, (encode_more n (n' :: a)) by done.
  by rewrite <- app_assoc.
Qed.

Lemma encode_nil ns : valid ns -> encode ns = [] -> ns = [].
Proof.
  intros Hv He. destruct ns as [|n ns]; [done|]. inversion Hv as [|? ? Hn _]; subst. apply name_nonempty in Hn. rewrite encode_cons in He.
  destruct ns; [done|]. by apply app_eq_nil in He as [-> _].
Qed.

Lemma valid_plain ns : valid ns -> Forall plain ns.
Proof. intros Hv. eapply list.Forall_impl; [exact Hv|]. intros n. apply name_plain. Qed.

Lemma name_no_head n : name n -> exists c r, n = c :: r /\ is_slash c = false.
Proof. intros Hn. pose proof (name_nonempty n Hn). destruct Hn as [Hp _]. destruct Hp as [|c r Hc _]; [done|]. by exists c, r. Qed.

(** ** The operations of a path, on its names *)

Lemma next_encode n ns : name n -> next_component (encode (n :: ns)) = Some (n, encode ns).
Proof.
  intros Hn. unfold next_component. destruct ns as [|m ns].
  - cbn [encode]. rewrite find_char_none by by apply name_plain. pose proof (name_nonempty n Hn). by destruct n.
  - rewrite encode_more by done. by rewrite find_char_app by by apply name_plain.
Qed.

Lemma next_back_encode ns n : valid ns -> name n -> next_back (encode (ns ++ [n])) = Some (n, encode ns).
Proof.
  intros Hv Hn. unfold next_back. destruct ns as [|m ns].
  - cbn [app encode]. rewrite rfind_char_none by by apply name_plain. pose proof (name_nonempty n Hn). by destruct n.
  - rewrite encode_app by done. by rewrite rfind_char_app by by apply name_plain.
Qed.

Lemma collect_encode fuel ns : valid ns -> length ns < fuel -> collect_components fuel (encode ns) = ns.
Proof.
  revert ns. induction fuel as [|fuel IH]; intros ns Hv Hl; [lia|]. destruct Hv as [|n ns Hn Hv]; [done|].
  cbn [collect_components]. rewrite next_encode by done. f_equal. apply IH; [done|]. cbn in Hl. lia.
Qed.

Lemma encode_length ns : valid ns -> length ns <= length (encode ns).
Proof.
  induction 1 as [|n ns Hn Hv IH]; [done|]. pose proof (name_nonempty n Hn). rewrite encode_cons. destruct ns; cbn in *.
  - destruct n; [done|cbn; lia].
  - rewrite length_app. cbn. destruct n; [done|cbn; lia].
Qed.

Lemma components_encode ns : valid ns -> components (encode ns) = ns.
Proof. intros Hv. apply collect_encode; [done|]. pose proof (encode_length ns Hv). lia. Qed.

Lemma encode_inj a b : valid a -> valid b -> encode a = encode b -> a = b.
Proof. intros Ha Hb He. by rewrite <- (components_encode a Ha), He, components_encode. Qed.

Lemma buf_pop_encode ns n : valid ns -> name n -> buf_pop (encode (ns ++ [n])) = (encode ns, true).
Proof.
  intros Hv Hn. unfold buf_pop. destruct ns as [|m ns].
  - cbn [app encode]. rewrite rfind_char_none by by apply name_plain. pose proof (name_nonempty n Hn). by destruct n.
  - rewrite encode_app by done. by rewrite rfind_char_app by by apply name_plain.
Qed.

Lemma join_encode a b : valid a -> valid b -> path_join (encode a) (encode b) = encode (a ++ b).
Proof.
  intros Ha Hb. unfold path_join. destruct (encode a) as [|c p] eqn:Ea; [by apply encode_nil in Ea as ->|].
  destruct (encode b) as [|d q] eqn:Eb; [apply encode_nil in Eb as ->; [|done]; by rewrite app_nil_r, Ea|].
  rewrite <- Ea, <- Eb, encode_app; [done|by intros ->|by intros ->].
Qed.

Lemma buf_push_encode a b : valid a -> b <> [] -> buf_push (encode a) (encode b) = encode (a ++ b).
Proof.
  intros Ha Hb. unfold buf_push. destruct (encode a) as [|c p] eqn:Ea; [by apply encode_nil in Ea as ->|].
  rewrite <- Ea, encode_app, <- app_assoc; [done|by intros ->|done].
Qed.

(** A prefix of the string that ends where a name does is one of the names. *)
Lemma strip_prefix_encode ns ps :
  valid ns -> valid ps ->
  path_strip_prefix (encode ns) (encode ps) = if bool_decide (take (length ps) ns = ps) then Some (encode (drop (length ps) ns)) else None.
Proof.
  intros Hn Hp. destruct (decide (ps = [])) as [->|Hne]; [done|]. unfold path_strip_prefix.
  destruct (encode ps) as [|c p] eqn:Ep; [by apply encode_nil in Ep|]. rewrite <- Ep. case_bool_decide as Ht.
  - assert (En : ns = ps ++ drop (length ps) ns) by (rewrite <- (take_drop (length ps) ns) at 1; by rewrite Ht). destruct (drop (length ps) ns) as [|n r] eqn:Ed.
    + rewrite app_nil_r in En. subst ns. rewrite <- (app_nil_r (encode ps)) at 2. by rewrite strip_prefix_app.
    + rewrite En, encode_app, strip_prefix_app by done. change (separator :: ?x) with ([separator] ++ x). by rewrite strip_prefix_app.
  - destruct (strip_prefix (encode ps) (encode ns)) as [x|] eqn:Ex; [|done]. apply strip_prefix_Some in Ex.
    destruct (strip_prefix [separator] x) as [y|] eqn:Ey.
    + apply strip_prefix_Some in Ey as ->. exfalso. apply Ht. destruct ns as [|n ns]; [by destruct (encode ps)|].
      rewrite <- (split_encode (n :: ns)), Ex by (done || by apply valid_plain). cbn [app].
      rewrite split_app, split_encode by (done || by apply valid_plain). by rewrite take_app_length.
    + destruct x; [|done]. exfalso. apply Ht. rewrite app_nil_r in Ex. apply encode_inj in Ex as ->; [|done..]. by rewrite firstn_all.
Qed.

Lemma count_plain n : plain n -> List.filter is_slash n = [].
Proof. induction 1 as [|c n Hc _ IH]; [done|]. cbn [List.filter]. by rewrite Hc. Qed.

Lemma len_encode ns : valid ns -> path_len (encode ns) = max 1 (length ns).
Proof.
  intros Hv. unfold path_len. change (fun c : char => (c =? separator)%N) with is_slash. induction Hv as [|n ns Hn Hv IH]; [done|].
  rewrite encode_cons. destruct ns as [|m ns]; [by rewrite count_plain by by apply name_plain|].
  rewrite List.filter_app, count_plain by by apply name_plain. cbn [app List.filter]. change (is_slash separator) with true. cbn [length].
  rewrite IH. cbn [length]. lia.
Qed.

Lemma skip_encode k ns : valid ns -> skip_components k (encode ns) = if k <=? length ns then Some (encode (drop k ns)) else None.
Proof.
  revert ns. induction k as [|k IH]; intros ns Hv; [done|]. destruct Hv as [|n ns Hn Hv]; [done|]. cbn [skip_components].
  rewrite next_encode by done. by rewrite IH.
Qed.

(** The path itself, then what is before each name, from the last. *)
Lemma ancestors_encode ns : valid ns -> ancestors (encode ns) = (fun k => encode (take k ns)) <$> reverse (seq 0 (S (length ns))).
Proof.
  intros Hv. unfold ancestors. assert (Hf : length ns < 2 + length (encode ns)) by (pose proof (encode_length ns Hv); lia).
  revert Hf. generalize (2 + length (encode ns)). induction ns as [|n ns IH] using rev_ind; intros fuel Hf.
  { destruct fuel as [|[|fuel]]; [lia|done|done]. }
  apply list.Forall_app in Hv as [Hv Hn]. inversion Hn; subst. destruct fuel as [|fuel]; [lia|].
  rewrite length_app in *. cbn [length] in *. rewrite Nat.add_1_r in *. rewrite seq_S, reverse_snoc. cbn [collect_ancestors next_ancestor fmap list_fmap].
  assert (Hb : match rfind_char separator (encode (ns ++ [n])) with Some (a, _) => Some a | None => match encode (ns ++ [n]) with [] => None | _ => Some [] end end = Some (encode ns)).
  { pose proof (next_back_encode ns n Hv ltac:(done)) as Hb. unfold next_back in Hb.
    destruct (rfind_char _ _) as [[a b]|]; [by injection Hb as -> ->|]. destruct (encode (ns ++ [n])); [done|]. by injection Hb as _ ->. }
  rewrite Hb, IH by (done || lia). f_equal; [by rewrite take_ge by (rewrite length_app; cbn; lia)|].
  apply map_ext_in. intros k Hk. apply list_elem_of_In in Hk. rewrite elem_of_reverse, elem_of_seq in Hk. f_equal. rewrite take_app_le; [done|lia].
Qed.

Lemma last_n_encode ns k :
  valid ns -> ns <> [] -> last_n_components (encode ns) k = if k <=? length ns then Some (encode (drop (length ns - k) ns)) else None.
Proof.
  intros Hv Hne. unfold last_n_components. rewrite len_encode by done. assert (0 < length ns) by (destruct ns; [done|cbn; lia]).
  replace (max 1 (length ns)) with (length ns) by lia. destruct (Nat.leb_spec k (length ns)); [|done]. rewrite skip_encode by done.
  by rewrite (proj2 (Nat.leb_le _ _)) by lia.
Qed.

(** ** Resolving *)

Lemma resolve_snoc_empty ns cs : resolve ns (cs ++ [[]]) = resolve ns cs.
Proof.
  revert ns. induction cs as [|c cs IH]; intros ns; [done|]. cbn [app resolve]. destruct (_ || _); [done|].
  destruct (str_eqb _ _); [|done]. by destruct ns.
Qed.

Lemma resolve_names ns cs : valid cs -> resolve ns cs = Some (ns ++ cs).
Proof.
  intros Hv. revert ns. induction Hv as [|c cs [_ Hc] _ IH]; intros ns; [by rewrite app_nil_r|]. cbn [resolve].
  unfold special in Hc. apply orb_false_iff in Hc as [-> ->]. by rewrite IH, <- app_assoc.
Qed.

Lemma resolve_valid ns cs r : valid ns -> Forall plain cs -> resolve ns cs = Some r -> valid r.
Proof.
  intros Hv Hc. revert ns Hv. induction Hc as [|c cs Hc _ IH]; intros ns Hv; cbn [resolve]; [by intros [= <-]|].
  destruct (_ || _) eqn:E; [by apply IH|]. destruct (str_eqb c (lit "..")) eqn:E2.
  - destruct ns as [|n ns _] using rev_ind; [done|]. rewrite removelast_last. apply list.Forall_app in Hv as [Hv _].
    destruct (ns ++ [n]) eqn:En; [by destruct ns|]. by apply IH.
  - apply IH. apply list.Forall_app. split; [done|]. repeat constructor; [done|]. unfold special. by rewrite E, E2.
Qed.

Lemma normalize_none cs : foldl normalize_step None cs = None.
Proof. by induction cs. Qed.

Lemma encode_one n : encode [n] = n.
Proof. done. Qed.

Lemma normalize_encode ns cs : valid ns -> Forall plain cs -> foldl normalize_step (Some (encode ns)) cs = encode <$> resolve ns cs.
Proof.
  intros Hv Hc. revert ns Hv. induction Hc as [|c cs Hc _ IH]; intros ns Hv; [done|]. cbn [foldl resolve normalize_step].
  destruct (_ || _) eqn:E; [by apply IH|]. destruct (str_eqb c (lit "..")) eqn:E2.
  - destruct ns as [|n ns _] using rev_ind; [apply normalize_none|]. apply list.Forall_app in Hv as [Hv Hn]. inversion Hn; subst.
    rewrite buf_pop_encode, removelast_last, IH by done. by destruct (ns ++ [n]) eqn:En; [destruct ns|].
  - rewrite <- (encode_one c) at 1. rewrite buf_push_encode by done. apply IH. apply list.Forall_app. split; [done|].
    repeat constructor; [done|]. unfold special. by rewrite E, E2.
Qed.

Lemma normalize_encode_nil cs : Forall plain cs -> foldl normalize_step (Some []) cs = encode <$> resolve [] cs.
Proof. intros Hc. apply (normalize_encode []); [constructor|done]. Qed.

(** ** Separators and the dots in front *)

Definition unify (st : PathStyle) (s : str) : str := if is_windows st then replace_char backslash separator s else s.

Lemma separator_slash st c : is_separator st c = is_slash (if is_windows st && (c =? backslash)%N then separator else c).
Proof.
  unfold is_separator, is_slash. destruct (is_windows st); cbn [andb]; [|by rewrite orb_false_r].
  destruct (c =? backslash)%N; [by rewrite orb_true_r|by rewrite orb_false_r].
Qed.

Lemma split_unify st s : split_by is_slash (unify st s) = split_by (is_separator st) s.
Proof.
  unfold unify, replace_char. induction s as [|c s IH]; [by destruct st|]. cbn [split_by]. rewrite <- IH, separator_slash.
  destruct (is_windows st); cbn [andb map split_by]; [|done]. destruct (N.eqb_spec c backslash) as [->|]; done.
Qed.

Lemma unify_same st s : is_windows st && existsb (fun c => (c =? backslash)%N) s = false -> unify st s = s.
Proof.
  unfold unify, replace_char. destruct (is_windows st); [|done]. cbn [andb]. induction s as [|c s IH]; [done|]. cbn [existsb map].
  rewrite orb_false_iff. intros [-> Hs]. by rewrite IH.
Qed.

Lemma starts_with_cut p s : starts_with p s = true -> exists r, s = p ++ r.
Proof. unfold starts_with. destruct (strip_prefix p s) as [r|] eqn:E; [|done]. intros _. exists r. by apply strip_prefix_Some. Qed.

Lemma dot_split s st : starts_with_dot s st = true -> split_by (is_separator st) s = lit "." :: split_by (is_separator st) (drop 2 s).
Proof.
  unfold starts_with_dot. intros Hd. apply orb_true_iff in Hd as [Hd|Hd]; [|apply andb_true_iff in Hd as [Hw Hd]];
    apply starts_with_cut in Hd as [r ->]; (destruct st; [|done]) || destruct st; done.
Qed.

Lemma dots_split fuel s st : resolve [] (split_by (is_separator st) (strip_dots fuel s st)) = resolve [] (split_by (is_separator st) s).
Proof.
  revert s. induction fuel as [|fuel IH]; intros s; [done|]. cbn [strip_dots]. destruct (starts_with_dot s st) eqn:E; [|done].
  rewrite IH, (dot_split s st E). done.
Qed.

Lemma separators_split st r ns : resolve ns (split_by (is_separator st) (rev (strip_separators st r))) = resolve ns (split_by (is_separator st) (rev r)).
Proof.
  induction r as [|c r IH]; [done|]. cbn [strip_separators]. destruct r as [|d r]; [done|]. destruct (is_separator st c) eqn:Hc; [|done].
  rewrite IH. change (rev (c :: ?x)) with (rev x ++ [c]). rewrite split_by_app by done. cbn [split_by]. by rewrite resolve_snoc_empty.
Qed.

(** What is left has no separator at its end, unless it is a single one. *)
Lemma separators_end st r : match strip_separators st r with c :: _ :: _ => is_separator st c = false | _ => True end.
Proof.
  induction r as [|c r IH]; [done|]. cbn [strip_separators]. destruct r as [|d r]; [done|]. destruct (is_separator st c) eqn:Hc; [exact IH|done].
Qed.

Lemma single_absolute st c : is_separator st c = true -> is_absolute [c] st = true.
Proof.
  unfold is_separator, is_absolute. intros Hc. apply orb_true_iff in Hc as [Hc|Hc]; [|apply andb_true_iff in Hc as [-> Hc]];
    apply N.eqb_eq in Hc as ->; [done|by rewrite orb_true_r].
Qed.

Lemma trimmed_end s st a c : is_absolute (trimmed s st) st = false -> trimmed s st = a ++ [c] -> is_separator st c = false.
Proof.
  unfold trimmed. intros Ha He. pose proof (separators_end st (rev (strip_dots (length s) s st))) as Hs. revert Ha He Hs.
  generalize (strip_separators st (rev (strip_dots (length s) s st))). intros r Ha He Hs. destruct r as [|d [|d' r]].
  - by destruct a.
  - change (rev [d]) with ([] ++ [d]) in He. apply app_inj_tail in He as [_ <-]. destruct (is_separator st d) eqn:Hd; [|done].
    change (rev [d]) with [d] in Ha. by rewrite single_absolute in Ha.
  - change (rev (d :: ?x)) with (rev x ++ [d]) in He. by apply app_inj_tail in He as [_ <-].
Qed.

Lemma collect_split fuel s :
  length s < fuel -> (forall a c, s = a ++ [c] -> is_slash c = false) ->
  collect_components fuel s = match s with [] => [] | _ => split_by is_slash s end.
Proof.
  revert s. induction fuel as [|fuel IH]; intros s Hl He; [lia|]. cbn [collect_components]. unfold next_component.
  destruct (find_char_spec s) as [[Hp ->]|(a & b & Ha & -> & ->)].
  - destruct s as [|c s]; [done|]. rewrite split_plain by done. by destruct fuel.
  - rewrite split_app, split_plain by done. destruct b as [|d b]; [by specialize (He a separator eq_refl)|].
    rewrite IH; [by destruct a|rewrite length_app in Hl; cbn in *; lia|].
    intros a' c Ec. apply (He (a ++ separator :: a')). by rewrite Ec, <- app_assoc.
Qed.

Lemma components_split s : (forall a c, s = a ++ [c] -> is_slash c = false) -> components s = match s with [] => [] | _ => split_by is_slash s end.
Proof. intros He. apply collect_split; [lia|done]. Qed.

Lemma unify_end st s : (forall a c, s = a ++ [c] -> is_separator st c = false) -> forall a c, unify st s = a ++ [c] -> is_slash c = false.
Proof.
  intros He a c. unfold unify. destruct (is_windows st) eqn:Hw; cycle 1.
  { intros Es. specialize (He a c Es). by rewrite separator_slash, Hw in He. }
  destruct s as [|d s _] using rev_ind; [by destruct a|]. unfold replace_char. rewrite map_app. cbn [map]. intros Es.
  apply app_inj_tail in Es as [_ <-]. specialize (He s d eq_refl). by rewrite separator_slash, Hw in He.
Qed.

Lemma not_special ns : existsb special ns = false -> Forall plain ns -> valid ns.
Proof.
  intros Hs Hp. induction Hp as [|n ns Hn _ IH]; [constructor|]. cbn [existsb] in Hs. apply orb_false_iff in Hs as [Hs1 Hs].
  constructor; [done|by apply IH].
Qed.

(** [new] after trimming, of whichever the separators. *)
Lemma new_trimmed s st :
  is_absolute (trimmed s st) st = false ->
  rel_path_new s st =
    let r := unify st (trimmed s st) in
    if existsb special (components r) then (fun n => (encode n, false)) <$> resolve [] (components r)
    else Some (r, bool_decide (r = trimmed s st)).
Proof.
  intros Ha. unfold rel_path_new. rewrite Ha. set (p := trimmed s st).
  assert (Hplain : Forall plain (components (unify st p))).
  { rewrite components_split by (apply unify_end; intros a c; by apply trimmed_end).
    destruct (unify st p) eqn:E; [constructor|]. rewrite <- E. apply split_all_plain. }
  destruct (is_windows st && existsb (fun c => (c =? backslash)%N) p) eqn:E; cbv beta iota zeta.
  - apply andb_true_iff in E as [Hw Hb]. unfold unify in *. rewrite Hw in *. rewrite normalize_encode_nil by done.
    destruct (existsb special _); [by destruct (resolve _ _)|]. rewrite bool_decide_false; [done|].
    intros Hr. apply existsb_exists in Hb as (c & Hc & Hc'). apply N.eqb_eq in Hc' as ->. rewrite <- Hr in Hc.
    unfold replace_char in Hc. apply in_map_iff in Hc as (d & Hd & _). destruct (N.eqb_spec d backslash); done.
  - rewrite unify_same in * by done. rewrite normalize_encode_nil by done. rewrite bool_decide_true by done.
    destruct (existsb special _); [by destruct (resolve _ _)|done].
Qed.

Lemma resolve_components st s :
  is_absolute (trimmed s st) st = false ->
  resolve [] (components (unify st (trimmed s st))) = resolve [] (split_by (is_separator st) s).
Proof.
  intros Ha. rewrite components_split by (apply unify_end; intros a c; by apply trimmed_end).
  rewrite <- (dots_split (length s) s st). rewrite <- (rev_involutive (strip_dots (length s) s st)). rewrite <- separators_split.
  change (rev (strip_separators st (rev (strip_dots (length s) s st)))) with (trimmed s st). rewrite <- split_unify.
  by destruct (unify st (trimmed s st)).
Qed.

(** A path that is absolute once it is trimmed is refused; another is resolved. *)
Lemma new_absolute s st : is_absolute (trimmed s st) st = true -> rel_path_new s st = None.
Proof. intros Ha. unfold rel_path_new. by rewrite Ha. Qed.

Lemma components_plain s st : is_absolute (trimmed s st) st = false -> Forall plain (components (unify st (trimmed s st))).
Proof.
  intros Ha. rewrite components_split by (apply unify_end; intros a c; by apply trimmed_end).
  destruct (unify st (trimmed s st)) eqn:E; [constructor|]. rewrite <- E. apply split_all_plain.
Qed.

Lemma components_encoded s st : is_absolute (trimmed s st) st = false -> encode (components (unify st (trimmed s st))) = unify st (trimmed s st).
Proof.
  intros Ha. rewrite components_split by (apply unify_end; intros a c; by apply trimmed_end).
  destruct (unify st (trimmed s st)) eqn:E; [done|]. rewrite <- E. apply encode_split.
Qed.

Lemma new_resolves s st :
  is_absolute (trimmed s st) st = false -> fst <$> rel_path_new s st = encode <$> resolve [] (split_by (is_separator st) s).
Proof.
  intros Ha. rewrite new_trimmed by done. cbv zeta. rewrite <- resolve_components by done. destruct (existsb special _) eqn:Hs.
  - by destruct (resolve _ _).
  - rewrite resolve_names by (apply not_special; [exact Hs|by apply components_plain]). cbn [fmap option_fmap option_map app fst]. by rewrite components_encoded by done.
Qed.

Lemma new_names s st p b :
  rel_path_new s st = Some (p, b) -> (exists ns, valid ns /\ p = encode ns) /\ (b = true -> p = trimmed s st).
Proof.
  intros Hp. destruct (is_absolute (trimmed s st) st) eqn:Ha; [unfold rel_path_new in Hp; by rewrite Ha in Hp|].
  rewrite new_trimmed in Hp by done. cbv zeta in Hp. destruct (existsb special _) eqn:Hs.
  - destruct (resolve _ _) as [ns|] eqn:Er; [|done]. injection Hp as <- <-. split; [|done]. exists ns. split; [|done].
    eapply resolve_valid; [constructor|by apply components_plain|exact Er].
  - injection Hp as <- <-. split; [|by intros ?%bool_decide_eq_true]. exists (components (unify st (trimmed s st))). split; [|by rewrite components_encoded].
    apply not_special; [done|by apply components_plain].
Qed.

(** ** Round trips *)

Lemma dot_head s st : starts_with_dot s st = true -> exists d r, s = ch "." :: d :: r /\ is_separator st d = true.
Proof.
  unfold starts_with_dot. intros Hd. apply orb_true_iff in Hd as [Hd|Hd]; [|apply andb_true_iff in Hd as [Hw Hd]];
    apply starts_with_cut in Hd as [r ->]; [exists separator|exists backslash]; exists r; [done|]. split; [done|].
  unfold is_separator. by rewrite Hw.
Qed.

Lemma unify_cons st c s : unify st (c :: s) = (if is_windows st && (c =? backslash)%N then separator else c) :: unify st s.
Proof. unfold unify. by destruct (is_windows st). Qed.

Lemma unify_app st a b : unify st (a ++ b) = unify st a ++ unify st b.
Proof. unfold unify, replace_char. destruct (is_windows st); [by rewrite map_app|done]. Qed.

Lemma slash_separator st c : is_separator st c = true -> (if is_windows st && (c =? backslash)%N then separator else c) = separator.
Proof. rewrite separator_slash. intros Hc. by apply N.eqb_eq in Hc. Qed.

(** A path whose names are not special is not trimmed. *)
Lemma trimmed_valid s st ns : valid ns -> unify st s = encode ns -> trimmed s st = s.
Proof.
  intros Hv Hu. assert (Hsplit : encode ns = [] \/ split_by is_slash (encode ns) = ns).
  { destruct ns as [|n ns]; [by left|right]. apply split_encode; [done|by apply valid_plain]. }
  assert (Hbad : forall c, c = lit "." \/ c = [] -> c ∉ ns).
  { intros c Hc Hin. unfold valid in Hv. rewrite list.Forall_forall in Hv. apply Hv in Hin as [_ Hs]. by destruct Hc as [-> | ->]. }
  assert (Hd : starts_with_dot s st = false).
  { destruct (starts_with_dot s st) eqn:E; [|done]. apply dot_head in E as (d & r & -> & Hd). exfalso.
    rewrite !unify_cons, (slash_separator st d Hd) in Hu. rewrite <- Hu in Hsplit. destruct Hsplit as [|Hsplit]; [done|].
    apply (Hbad (lit ".")); [by left|]. rewrite <- Hsplit. replace (if is_windows st && (ch "." =? backslash)%N then separator else ch ".") with (ch ".") by by destruct st.
    change (ch "." :: separator :: ?x) with (lit "." ++ separator :: x). rewrite split_app. by left. }
  unfold trimmed. replace (strip_dots _ _ _) with s by (destruct (length s); cbn [strip_dots]; by rewrite ?Hd).
  rewrite <- (rev_involutive s) at 2. f_equal. destruct (rev s) as [|c [|d r]] eqn:Er; [done..|]. cbn [strip_separators].
  destruct (is_separator st c) eqn:Hc; [|done]. exfalso. apply (f_equal (@rev _)) in Er. rewrite rev_involutive in Er.
  change (rev (c :: ?x)) with (rev x ++ [c]) in Er. rewrite Er, unify_app, unify_cons, (slash_separator st c Hc) in Hu.
  replace (unify st []) with (@nil char) in Hu by by destruct st. rewrite <- Hu, split_app in Hsplit.
  destruct Hsplit as [Hsplit|Hsplit]; [by apply app_eq_nil in Hsplit as [_ ?]|].
  apply (Hbad []); [by right|]. rewrite <- Hsplit. apply elem_of_app. right. by left.
Qed.

Lemma new_valid s st ns :
  valid ns -> unify st s = encode ns -> is_absolute s st = false -> rel_path_new s st = Some (encode ns, bool_decide (encode ns = s)).
Proof.
  intros Hv Hu Ha. pose proof (trimmed_valid s st ns Hv Hu) as Ht. rewrite new_trimmed by by rewrite Ht. cbv zeta.
  rewrite Ht, Hu, components_encode by done. replace (existsb special ns) with false; [done|].
  clear Hu. induction Hv as [|n ns [_ Hn] _ IH]; [done|]. cbn. by rewrite Hn, <- IH.
Qed.

Lemma valid_not_absolute ns : valid ns -> is_absolute (encode ns) Posix = false.
Proof.
  intros Hv. unfold is_absolute. cbn [is_windows]. rewrite orb_false_r. destruct Hv as [|n ns Hn _]; [done|].
  apply name_no_head in Hn as (c & r & -> & Hc). rewrite encode_cons. unfold starts_with. unfold is_slash in Hc. rewrite N.eqb_sym in Hc.
  destruct ns; cbn [app strip_prefix]; by rewrite Hc.
Qed.

(** ** What [new] gives *)

(** A drive of Windows. *)
Definition is_drive (n : str) : bool := match n with [c; d] => is_ascii_alphabetic c && (d =? ch ":")%N | _ => false end.

Lemma starts_with_one c p : starts_with [c] p = match p with d :: _ => (d =? c)%N | [] => false end.
Proof. unfold starts_with. destruct p as [|d p]; [done|]. cbn [strip_prefix]. rewrite N.eqb_sym. by destruct (d =? c)%N. Qed.

(** Names of which the first is no drive make no absolute path. *)
Lemma names_not_absolute st ns :
  valid ns -> (st = Windows -> Forall (fun n => (backslash ∉ n) /\ is_drive n = false) ns) -> is_absolute (encode ns) st = false.
Proof.
  intros Hv Hw. destruct st; [by apply valid_not_absolute|]. specialize (Hw eq_refl). destruct Hv as [|n ns [Hn Hs] _]; [done|].
  inversion_clear Hw as [|? ? [Hb Hd] _].
  assert (Hx : exists e, encode (n :: ns) = n ++ e /\ (e = [] \/ (exists e', e = separator :: e'))).
  { rewrite encode_cons. destruct ns; [exists []; rewrite app_nil_r; auto|eexists; split; [reflexivity|eauto]]. }
  destruct Hx as (e & -> & He). apply special_spec in Hs as [Hne _]. destruct n as [|c r]; [done|]. inversion_clear Hn as [|? ? Hc Hr].
  assert (Hcb : (c =? backslash)%N = false) by (apply N.eqb_neq; intros ->; apply Hb; by left).
  unfold is_absolute. rewrite !starts_with_one. cbn [app]. unfold is_slash in Hc. rewrite Hc, Hcb. change (is_windows Windows) with true. cbn [andb orb]. destruct (is_ascii_alphabetic c) eqn:Ea; [|done]. cbn [andb].
  destruct r as [|d r]; cbn [app].
  - by destruct He as [-> | [e' ->]].
  - change (lit ":") with [ch ":"]. cbn [strip_prefix]. destruct (N.eqb_spec (ch ":") d) as [<-|_]; [|done].
    rewrite !starts_with_one. destruct r as [|x r].
    + exfalso. unfold is_drive in Hd. rewrite Ea in Hd. done.
    + cbn [app]. inversion_clear Hr as [|? ? _ Hx]. inversion_clear Hx as [|? ? Hx' _]. unfold is_slash in Hx'. rewrite Hx'. cbn [orb].
      apply N.eqb_neq. intros ->. apply Hb. right. right. by left.
Qed.

Lemma resolve_names_of cs : forall ns ms n, resolve ns cs = Some ms -> n ∈ ms -> n ∈ ns \/ n ∈ cs.
Proof.
  induction cs as [|c cs IH]; intros ns ms n; cbn [resolve]; [intros [= ->]; by left|].
  destruct (_ || _); [intros Hr Hn; destruct (IH _ _ _ Hr Hn); [by left|right; by right]|]. destruct (str_eqb c _).
  - destruct ns as [|x ns]; [done|]. intros Hr Hn. destruct (IH _ _ _ Hr Hn) as [Hi|Hi]; [left|right; by right].
    rewrite (app_removelast_last (l := x :: ns) []) by done. apply elem_of_app. by left.
  - intros Hr Hn. destruct (IH _ _ _ Hr Hn) as [[Hi|Hi]%elem_of_app|Hi]; [by left| |right; by right].
    apply list_elem_of_singleton in Hi as ->. right. left.
Qed.

(** The parts between separators hold none. *)
Lemma split_by_without (f : char -> bool) s : Forall (fun n => Forall (fun c => f c = false) n) (split_by f s).
Proof.
  induction s as [|c s IH]; [by repeat constructor|]. cbn. destruct (f c) eqn:Hc; [by constructor; [constructor|]|].
  destruct (split_by f s) as [|n ns]; [by repeat constructor|]. inversion IH; subst. by constructor; [constructor|].
Qed.

(** C35: [new] refuses a path that is absolute; one that is not becomes the names between its
    separators, of the given style, each [.] and each empty one left out and each [..] taking
    back the one before it, or an error if there is none.  What it returns are such names,
    neither empty nor [.] nor [..], with [/] between them, and is not absolute; it is borrowed
    only if it is part of the path that was given.  Two kinds of paths are not covered: those
    of which trimming (the prefixes [./] and the separators at the end) changes whether they
    are absolute, and, in the Windows style, those with a drive among their names. *)
Theorem rel_path_new_correct s st :
  is_absolute (trimmed s st) st = is_absolute s st ->
  (st = Windows -> Forall (fun n => is_drive n = false) (split_by (is_separator st) s)) ->
  (is_absolute s st = true -> rel_path_new s st = None) /\
  (is_absolute s st = false -> fst <$> rel_path_new s st = encode <$> resolve [] (split_by (is_separator st) s)) /\
  (forall p b, rel_path_new s st = Some (p, b) ->
     (exists ns, valid ns /\ p = encode ns) /\ is_absolute p st = false /\ (b = true -> p = trimmed s st)).
Proof.
  intros Ht Hd. split; [rewrite <- Ht; apply new_absolute|]. split; [rewrite <- Ht; apply new_resolves|]. intros p b Hp.
  destruct (is_absolute (trimmed s st) st) eqn:Ha; [by rewrite new_absolute in Hp|].
  split; [by eapply new_names|]. split; [|by eapply new_names].
  pose proof (new_resolves s st Ha) as Hr. rewrite Hp in Hr. cbn in Hr. destruct (resolve [] _) as [ns|] eqn:Er; [|done]. injection Hr as ->.
  pose proof (split_by_without (is_separator st) s) as Hw. apply names_not_absolute.
  - eapply resolve_valid; [constructor| |exact Er]. eapply list.Forall_impl; [exact Hw|]. intros n Hn. eapply list.Forall_impl; [exact Hn|].
    intros c Hc. by apply orb_false_iff in Hc as [? _].
  - intros ->. specialize (Hd eq_refl). rewrite list.Forall_forall in Hd, Hw |- *. intros n Hn.
    destruct (resolve_names_of _ _ _ n Er Hn) as [Hi|Hi]; [by apply elem_of_nil in Hi|]. split; [|by apply Hd].
    intros Hb. specialize (Hw n Hi). rewrite list.Forall_forall in Hw. by specialize (Hw _ Hb).
Qed.

(** ** Reading what is displayed *)

Lemma unify_display p st : (st = Windows -> backslash ∉ p) -> unify st (display p st) = p.
Proof.
  unfold unify, display, replace_char. destruct st; [done|]. intros Hb. specialize (Hb eq_refl). change (is_windows Windows) with true. cbv iota.
  rewrite map_map. rewrite <- (map_id p) at 2. apply map_ext_in. intros c Hc. apply list_elem_of_In in Hc. destruct (N.eqb_spec c separator) as [->|]; [done|].
  destruct (N.eqb_spec c backslash) as [->|]; [done|done].
Qed.

(** Names that are neither empty nor special are a path: its wire representation and what
    it displays as, of either style, are read as that path again, unless it displays as a path
    that is absolute or a name holds the separator of the other style; its components are the
    names, what joins two paths has the names of both, of which the first is a prefix and what
    strips it gives the second, and the parent has all names but the last. *)
Theorem rel_path_roundtrip ns ms st :
  valid ns -> valid ms -> (st = Windows -> backslash ∉ encode ns) -> is_absolute (display (encode ns) st) st = false ->
  from_proto (to_proto (encode ns)) = Some (encode ns) /\
  fst <$> rel_path_new (display (encode ns) st) st = Some (encode ns) /\
  components (encode ns) = ns /\
  components (path_join (encode ns) (encode ms)) = ns ++ ms /\
  path_strip_prefix (path_join (encode ns) (encode ms)) (encode ns) = Some (encode ms) /\
  (forall n, name n -> file_name (path_join (encode ns) n) = Some n /\ parent (path_join (encode ns) n) = Some (encode ns)).
Proof.
  intros Hn Hm Hb Ha. assert (Hv : valid (ns ++ ms)) by by apply list.Forall_app. split; [|split; [|split; [|split; [|split]]]].
  - unfold from_proto, to_proto, unix. rewrite (new_valid _ _ ns) by (done || by apply valid_not_absolute). by rewrite bool_decide_true.
  - by rewrite (new_valid _ _ ns) by (done || by apply unify_display).
  - by apply components_encode.
  - rewrite join_encode by done. by apply components_encode.
  - rewrite join_encode, strip_prefix_encode by done. by rewrite take_app_length, drop_app_length, bool_decide_true.
  - intros n Hx. assert (H1 : valid [n]) by (constructor; [done|constructor]). rewrite <- (encode_one n), join_encode by done.
    unfold file_name, parent. by rewrite next_back_encode.
Qed.

(** ** Ordering *)

Lemma lex_cmp_eq {A} (cmp : A -> A -> comparison) (Hc : forall x y, cmp x y = Eq <-> x = y) a b : lex_cmp cmp a b = Eq <-> a = b.
Proof.
  revert b. induction a as [|x a IH]; intros [|y b]; cbn; [done..|]. destruct (cmp x y) eqn:E.
  - apply Hc in E as ->. rewrite IH. split; [by intros ->|by intros [= ->]].
  - split; [done|]. intros [= -> _]. by rewrite (proj2 (Hc y y)) in E.
  - split; [done|]. intros [= -> _]. by rewrite (proj2 (Hc y y)) in E.
Qed.

Lemma lex_cmp_antisym {A} (cmp : A -> A -> comparison) (Hc : forall x y, cmp y x = CompOpp (cmp x y)) a b : lex_cmp cmp b a = CompOpp (lex_cmp cmp a b).
Proof. revert b. induction a as [|x a IH]; intros [|y b]; cbn; [done..|]. rewrite Hc. destruct (cmp x y); cbn; [apply IH|done..]. Qed.

(** The order agrees with equality, as that of the standard library has to. *)
Lemma path_cmp_eq a b : valid a -> valid b -> path_cmp (encode a) (encode b) = Eq <-> encode a = encode b.
Proof.
  intros Ha Hb. unfold path_cmp. rewrite !components_encode by done. rewrite lex_cmp_eq by (intros; apply lex_cmp_eq, N.compare_eq_iff).
  split; [by intros ->|by apply encode_inj].
Qed.

Lemma path_cmp_antisym a b : path_cmp b a = CompOpp (path_cmp a b).
Proof. apply lex_cmp_antisym. intros x y. apply lex_cmp_antisym. intros c d. apply N.compare_antisym. Qed.

(** ** Tests and witness *)

Module TestRelPath.

Definition owned (s : String.string) : option (str * bool) := Some (lit s, false).
Definition same (s : String.string) : option (str * bool) := Some (lit s, true).

(** [test_rel_path_new] *)
Example constructors :
  rel_path_new (lit "/foo/") Posix = None /\ rel_path_new (lit "//") Posix = None /\
  rel_path_new (lit "foo/") Posix = same "foo" /\ rel_path_new (lit "foo\") Windows = same "foo" /\
  rel_path_new (lit "foo/bar/../baz/./quux/") Posix = owned "foo/baz/quux" /\
  rel_path_new (lit "./.\./foo/\/") Windows = same "foo" /\ rel_path_new (lit ".\foo\bar") Windows = owned "foo/bar".
Proof. by vm_compute. Qed.

(** [test_rel_path_ancestors], [test_rel_path_parent], [test_strip_prefix]. *)
Example accessors :
  ancestors (lit "foo/bar/baz") = [lit "foo/bar/baz"; lit "foo/bar"; lit "foo"; []] /\
  parent (lit "foo/bar/baz") = Some (lit "foo/bar") /\ parent (lit "foo") = Some [] /\ parent [] = None /\
  path_strip_prefix (lit "foo/bar/baz") (lit "foo/bar") = Some (lit "baz") /\ path_strip_prefix (lit "foobar") (lit "foo") = None.
Proof. by vm_compute. Qed.

(** The empty path, which has no components, counts as one, and so has a last one, and not a
    last none. *)
Example empty_path_counts : components [] = [] /\ path_len [] = 1 /\ last_n_components [] 1 = Some [] /\ last_n_components [] 0 = None.
Proof. by vm_compute. Qed.

(** The prefix [./] is removed up to what then is an absolute path; the dots within a path
    are not. *)
Example dot_then_slashes : rel_path_new (lit ".//a") Posix = None /\ rel_path_new (lit "./a") Posix = same "a" /\ rel_path_new (lit "a/.//b") Posix = owned "a/b".
Proof. by vm_compute. Qed.

(** What is left of a path that was relative is absolute. *)
Example absolute_after_resolving :
  rel_path_new (lit "a\..\C:\x") Windows = owned "C:/x" /\ is_absolute (lit "C:/x") Windows = true /\ rel_path_new (lit "C:/x") Windows = None.
Proof. by vm_compute. Qed.

(** The extension of a file name, for the tests: what is after the last dot. *)
Definition std_extension (f extension : str) : str :=
  match rfind_char (ch ".") f with Some (stem, _) => stem ++ lit "." ++ extension | None => f ++ lit "." ++ extension end.

(** The name is put next to that of the directory. *)
Example extension_without_separator :
  set_extension std_extension (lit "src/main.txt") (lit "rs") = (lit "srcmain.rs", true) /\ set_extension std_extension (lit "main.txt") (lit "rs") = (lit "main.rs", true).
Proof. by vm_compute. Qed.

(** Every path starts with the empty one, and only it ends with it. *)
Example empty_suffix : path_starts_with (lit "a/b") [] = true /\ path_ends_with (lit "a/b") [] = false /\ path_ends_with (lit "a/b") (lit "b") = true /\ path_ends_with (lit "ab") (lit "b") = false.
Proof. by vm_compute. Qed.

(** The separator of a drive is trimmed before the path is checked. *)
Example root_of_a_drive : is_absolute (lit "C:\") Windows = true /\ rel_path_new (lit "C:\") Windows = same "C:".
Proof. by vm_compute. Qed.

Lemma rel_path_new_correct_witness :
  is_absolute (trimmed (lit "./a/../b\c") Windows) Windows = false /\ fst <$> rel_path_new (lit "./a/../b\c") Windows = Some (lit "b/c").
Proof.
  assert (Ha : is_absolute (trimmed (lit "./a/../b\c") Windows) Windows = false) by by vm_compute. split; [exact Ha|].
  destruct (rel_path_new_correct (lit "./a/../b\c") Windows) as (_ & Hn & _); [by vm_compute|intros _; vm_compute; by repeat constructor|].
  rewrite (Hn eq_refl). by vm_compute.
Defined.

Lemma rel_path_roundtrip_witness :
  valid [lit "a"; lit "b"] /\ fst <$> rel_path_new (lit "a\b") Windows = Some (lit "a/b").
Proof.
  assert (Hv : valid [lit "a"; lit "b"]) by (repeat constructor; by vm_compute). split; [exact Hv|].
  destruct (rel_path_roundtrip [lit "a"; lit "b"] [] Windows) as (_ & Hn & _); [exact Hv|constructor| |by vm_compute|exact Hn].
  intros _. apply (bool_decide_eq_true_1 (backslash ∉ lit "a/b")). by vm_compute.
Defined.

End TestRelPath.
