(* ===== verification/Utf8.v ===== *)
(** * Utf8: byte offsets into strings

    A string is the list of its characters (Text); here are its length in bytes and the
    operations at byte offsets, which panic inside a character or past the end. *)

From Stdlib Require Import NArith.
From stdpp Require Import base list option numbers.
From S2P Require Import Prelude Text.

#[local] Set Warnings "-register-all,-clear-no-such-hyp".

(** [char::len_utf8] *)
Definition len_utf8 (c : char) : nat :=
  if (c <? 128)%N then 1 else if (c <? 2048)%N then 2 else if (c <? 65536)%N then 3 else 4.

(** [str::len] *)
Definition str_len (s : str) : nat := sum_list_with len_utf8 s.

(** [text[i..].chars().next().unwrap()] *)
Fixpoint char_at (s : str) (i : nat) : outcome char :=
  match s with
  | [] => Panic
  | c :: s => if i =? 0 then Ok c else if len_utf8 c <=? i then char_at s (i - len_utf8 c) else Panic
  end.

(** The pair of [text[..i]] and [text[i..]]. *)
Fixpoint str_split_at (s : str) (i : nat) : outcome (str * str) :=
  if i =? 0 then Ok ([], s) else
  match s with
  | [] => Panic
  | c :: s =>
      if len_utf8 c <=? i then
        let! (l, r) := str_split_at s (i - len_utf8 c) in Ok (c :: l, r)
      else Panic
  end.

(** [text[i..j]] *)
Definition str_slice (s : str) (i j : nat) : outcome str :=
  let! (l, _) := str_split_at s j in
  let! (_, r) := str_split_at l i in
  Ok r.

(** [str::is_char_boundary] *)
Fixpoint is_char_boundary (s : str) (i : nat) : bool :=
  (i =? 0) ||
  match s with
  | [] => false
  | c :: s => (len_utf8 c <=? i) && is_char_boundary s (i - len_utf8 c)
  end.

(** [str::char_indices], from an offset. *)
Fixpoint char_indices (i : nat) (s : str) : list (nat * char) :=
  match s with
  | [] => []
  | c :: s => (i, c) :: char_indices (i + len_utf8 c) s
  end.

(** ** Lemmas *)

Lemma len_utf8_pos c : 1 <= len_utf8 c.
Proof. unfold len_utf8. repeat case_match; lia. Qed.

Lemma str_len_cons c s : str_len (c :: s) = len_utf8 c + str_len s.
Proof. done. Qed.

Lemma str_len_app a b : str_len (a ++ b) = str_len a + str_len b.
Proof. apply sum_list_with_app. Qed.

Lemma str_len_nil s : str_len s = 0 -> s = [].
Proof. destruct s as [|c s]; [done|]. rewrite str_len_cons. pose proof (len_utf8_pos c). lia. Qed.

(** Splitting is taking a prefix of that many bytes. *)
Lemma str_split_at_app l r : str_split_at (l ++ r) (str_len l) = Ok (l, r).
Proof.
  induction l as [|c l IH]; [by destruct r|]. cbn [app str_split_at]. rewrite str_len_cons. pose proof (len_utf8_pos c).
  destruct (Nat.eqb_spec (len_utf8 c + str_len l) 0); [lia|].
  rewrite (proj2 (Nat.leb_le (len_utf8 c) _)) by lia.
  replace (len_utf8 c + str_len l - len_utf8 c) with (str_len l) by lia. by rewrite IH.
Qed.

Lemma str_split_at_Ok s i l r : str_split_at s i = Ok (l, r) <-> s = l ++ r /\ str_len l = i.
Proof.
  split; [|intros [-> <-]; apply str_split_at_app].
  revert i l r. induction s as [|c s IH]; cbn [str_split_at]; intros i l r; destruct (Nat.eqb_spec i 0) as [->|Hi]; try done.
  - by intros [= <- <-].
  - by intros [= <- <-].
  - destruct (Nat.leb_spec (len_utf8 c) i); [|done]. destruct (str_split_at s (i - len_utf8 c)) as [[l' r']| |] eqn:E; [|done..].
    intros [= <- <-]. apply IH in E as [-> E]. split; [done|]. rewrite str_len_cons. lia.
Qed.

Lemma is_char_boundary_spec s i : is_char_boundary s i = true <-> exists l r, s = l ++ r /\ str_len l = i.
Proof.
  split.
  - revert i. induction s as [|c s IH]; cbn; intros i H; apply orb_true_iff in H as [H%Nat.eqb_eq|H]; subst.
    + by exists [], [].
    + done.
    + by exists [], (c :: s).
    + apply andb_true_iff in H as [Hle%Nat.leb_le H]. destruct (IH _ H) as (l & r & -> & Hl). exists (c :: l), r. split; [done|]. rewrite str_len_cons. lia.
  - intros (l & r & -> & <-). induction l as [|c l IH]; [by destruct r|]. cbn [app is_char_boundary]. rewrite str_len_cons. apply orb_true_iff. right.
    apply andb_true_iff. split; [apply Nat.leb_le; lia|]. by replace (len_utf8 c + str_len l - len_utf8 c) with (str_len l) by lia.
Qed.

Lemma str_slice_app a b c : str_slice (a ++ b ++ c) (str_len a) (str_len a + str_len b) = Ok b.
Proof.
  unfold str_slice. rewrite app_assoc, <- str_len_app, str_split_at_app. cbn [obind]. by rewrite str_split_at_app.
Qed.

Lemma char_at_app l c r : char_at (l ++ c :: r) (str_len l) = Ok c.
Proof.
  induction l as [|d l IH]; [done|]. cbn [app char_at]. rewrite str_len_cons. pose proof (len_utf8_pos d).
  destruct (Nat.eqb_spec (len_utf8 d + str_len l) 0); [lia|].
  rewrite (proj2 (Nat.leb_le (len_utf8 d) _)) by lia.
  by replace (len_utf8 d + str_len l - len_utf8 d) with (str_len l) by lia.
Qed.

Lemma char_at_Ok s i c : char_at s i = Ok c <-> exists l r, s = l ++ c :: r /\ str_len l = i.
Proof.
  split; [|intros (l & r & -> & <-); apply char_at_app].
  revert i. induction s as [|d s IH]; cbn [char_at]; intros i; [done|]. destruct (Nat.eqb_spec i 0) as [->|Hi].
  - intros [= ->]. by exists [], s.
  - destruct (Nat.leb_spec (len_utf8 d) i); [|done]. intros (l & r & -> & Hl)%IH. exists (d :: l), r. split; [done|]. rewrite str_len_cons. lia.
Qed.
