(* ===== verification/LineLayout.v ===== *)
(** * LineLayout: shaped lines, [crates/gpui/src/text_system/line_layout.rs] and [line.rs]

    A shaped line is a list of runs of glyphs, each with the byte it comes from and its
    position.  Here are the queries between bytes and positions, the splits, the wrapping of
    a shaped line, the adjustments of positions, and the cursor that splits a line piece by
    piece.  Pixels are integers.  The code loops over the glyphs of the runs in nested
    loops; [all_glyphs] is the sequence they visit. *)

From Stdlib Require Import NArith ZArith String.
From stdpp Require Import base list option numbers sorting.
From S2P Require Import Prelude Text Utf8 Geometry.

#[local] Set Warnings "-register-all,-clear-no-such-hyp".

Abbreviation FontId := nat.
Abbreviation Pixels := Z.

(** [slice::partition_point]: unspecified unless the predicate holds on a prefix. *)
Class PartitionPoint := partition_point : forall {A : Type}, (A -> bool) -> list A -> nat.

Class PartitionPointLaws `{PartitionPoint} : Prop := {
  partition_point_prefix : forall A (p : A -> bool) l r,
    Forall (fun a => p a = true) l -> Forall (fun a => p a = false) r -> partition_point p (l ++ r) = length l;
  partition_point_le : forall A (p : A -> bool) l, partition_point p l <= length l;
}.

(** ** Data *)

Record ShapedGlyph := mkGlyph {
  glyph_id : N;
  position : Point;
  glyph_index : nat;
  is_emoji : bool;
}.

Record ShapedRun := mkRun {
  font_id : FontId;
  glyphs : list ShapedGlyph;
}.

Record LineLayout := mkLayout {
  font_size : Pixels;
  line_width : Pixels;
  ascent : Pixels;
  descent : Pixels;
  runs : list ShapedRun;
  line_len : nat;
}.

(** A run of text with a single font. *)
Record FontRun := mkFontRun {
  run_len : nat;
  run_font : FontId;
}.

#[export] Instance FontRun_eq_dec : EqDecision FontRun.
Proof. solve_decision. Defined.

(** [PlatformTextSystem] (platform.rs): shaping a line. *)
Class PlatformTextSystem := platform_layout_line : str -> Pixels -> list FontRun -> LineLayout.

Record WrapBoundary := mkBoundary {
  run_ix : nat;
  glyph_ix : nat;
}.

#[export] Instance WrapBoundary_eq_dec : EqDecision WrapBoundary.
Proof. solve_decision. Defined.

(** The derived order. *)
#[export] Instance boundary_ord : Ord WrapBoundary := fun a b =>
  ordering_then (cmp (run_ix a) (run_ix b)) (cmp (glyph_ix a) (glyph_ix b)).

(** The horizontal position of a glyph. *)
Definition gx (g : ShapedGlyph) : Pixels := px (position g).

Definition all_glyphs (l : LineLayout) : list ShapedGlyph := flat_map glyphs (runs l).

(** ** Queries *)

Definition index_for_x (l : LineLayout) (x : Pixels) : option nat :=
  if (line_width l <=? x)%Z then None
  else Some (match List.find (fun g => (gx g <=? x)%Z) (rev (all_glyphs l)) with
             | Some g => glyph_index g
             | None => 0
             end).

(** The loop, with the last glyph passed. *)
Fixpoint closest_loop (x : Pixels) (prev_index : nat) (prev_x : Pixels) (gs : list ShapedGlyph) : option nat :=
  match gs with
  | [] => None
  | g :: gs =>
      if (x <=? gx g)%Z then Some (if (gx g - x <? x - prev_x)%Z then glyph_index g else prev_index)
      else closest_loop x (glyph_index g) (gx g) gs
  end.

Definition closest_index_for_x (l : LineLayout) (x : Pixels) : nat :=
  match closest_loop x 0 0 (all_glyphs l) with
  | Some i => i
  | None =>
      if line_len l =? 1 then (if (line_width l <? 2 * x)%Z then 1 else 0)
      else line_len l
  end.

Definition x_for_index (l : LineLayout) (i : nat) : Pixels :=
  match List.find (fun g => i <=? glyph_index g) (all_glyphs l) with
  | Some g => gx g
  | None => line_width l
  end.

Definition font_id_for_index (l : LineLayout) (i : nat) : option FontId :=
  option_map font_id (List.find (fun r => existsb (fun g => i <=? glyph_index g) (glyphs r)) (runs l)).

(** ** Splitting *)

Definition rebase (i : nat) (dx : Pixels) (g : ShapedGlyph) : outcome ShapedGlyph :=
  let! j := usize_sub (glyph_index g) i in
  Ok (mkGlyph (glyph_id g) (mkPoint (gx g - dx) (py (position g))) j (is_emoji g)).

Section Split.
Context `{PartitionPoint}.

(** A run contributes to the runs on the left, on the right, or on both sides. *)
Definition split_run (i : nat) (dx : Pixels) (r : ShapedRun) : outcome (list ShapedRun * list ShapedRun) :=
  let split_pos := partition_point (fun g => glyph_index g <? i) (glyphs r) in
  let left_run := if 0 <? split_pos then [mkRun (font_id r) (take split_pos (glyphs r))] else [] in
  if split_pos <? length (glyphs r) then
    let! right_glyphs := traverse (rebase i dx) (drop split_pos (glyphs r)) in
    Ok (left_run, [mkRun (font_id r) right_glyphs])
  else Ok (left_run, []).

(** [LineLayout::split_at] *)
Definition layout_split_at (l : LineLayout) (i : nat) : outcome (LineLayout * LineLayout) :=
  let x_offset := x_for_index l i in
  let! parts := traverse (split_run i x_offset) (runs l) in
  let! right_len := usize_sub (line_len l) i in
  Ok (mkLayout (font_size l) x_offset (ascent l) (descent l) (flat_map fst parts) i,
      mkLayout (font_size l) (line_width l - x_offset) (ascent l) (descent l) (flat_map snd parts) right_len).
End Split.

(** ** Wrapping *)

(** [LineWrapper::is_word_char] (line_wrapper.rs) *)
Definition is_word_char (c : char) : bool :=
  let among := fun cs => existsb (fun d => (c =? d)%N) cs in
  let within := fun lo hi : N => (lo <=? c)%N && (c <=? hi)%N in
  ascii_alphanumeric c ||
  within 0xC0%N 0xFF%N || within 0x100%N 0x17F%N || within 0x180%N 0x24F%N || within 0x400%N 0x4FF%N ||
  among (lit "-_.'" ++ [0x2019%N; 0x2018%N] ++ lit "$%@#^~,!;*") ||
  among (lit "/:?&=") ||
  among (lit ")]}" ++ [34%N; 0x201D%N; 0xBB%N; 0x2026%N]) ||
  among [0x22EF%N] ||
  among [0x202F%N; 0xA0%N; 0x2011%N].

Definition newline : char := 10%N.
Definition space : char := 32%N.

Record Wrapping := mkWrapping {
  boundaries : list WrapBoundary;
  past_whitespace : bool; (* [first_non_whitespace_ix] is set *)
  last_candidate_ix : option WrapBoundary;
  last_candidate_x : Pixels;
  last_boundary : WrapBoundary;
  last_boundary_x : Pixels;
  prev_ch : char;
}.

Definition wrapping_start : Wrapping := mkWrapping [] false None 0 (mkBoundary 0 0) 0 0%N.

(** The glyphs of a run, and of the line, with their boundaries. *)
Definition run_boundaries (run_ix : nat) (r : ShapedRun) : list (WrapBoundary * ShapedGlyph) :=
  imap (fun glyph_ix g => (mkBoundary run_ix glyph_ix, g)) (glyphs r).

Definition line_boundaries (l : LineLayout) : list (WrapBoundary * ShapedGlyph) := concat (imap run_boundaries (runs l)).

(** A word may start here. *)
Definition wraps_before (prev c : char) : bool :=
  if is_word_char c then (prev =? space)%N && negb (c =? space)%N else negb (c =? space)%N.

Definition note_candidate (w : Wrapping) (b : WrapBoundary) (c : char) (x : Pixels) : Wrapping :=
  let (cand, cand_x) :=
    if wraps_before (prev_ch w) c && past_whitespace w then (Some b, x) else (last_candidate_ix w, last_candidate_x w) in
  mkWrapping (boundaries w) (past_whitespace w || negb (c =? space)%N) cand cand_x (last_boundary w) (last_boundary_x w) (prev_ch w).

(** The end of a row, at the last candidate if there is one. *)
Definition push_boundary (w : Wrapping) (b : WrapBoundary) (x : Pixels) : Wrapping :=
  let (b, x) := match last_candidate_ix w with Some cand => (cand, last_candidate_x w) | None => (b, x) end in
  mkWrapping (boundaries w ++ [b]) (past_whitespace w) None (last_candidate_x w) b x (prev_ch w).

Definition with_prev_ch (w : Wrapping) (c : char) : Wrapping :=
  mkWrapping (boundaries w) (past_whitespace w) (last_candidate_ix w) (last_candidate_x w) (last_boundary w) (last_boundary_x w) c.

Section Wrap.
Context (text : str) (wrap_width : Pixels) (max_lines : option nat) (end_x : Pixels).

(** [None] when the number of lines is used up. *)
Definition wrap_glyph (w : Wrapping) (b : WrapBoundary) (c : char) (x next_x : Pixels) : option Wrapping :=
  let w := note_candidate w b c x in
  if (wrap_width <? next_x - last_boundary_x w)%Z && ltb (last_boundary w) b then
    if match max_lines with Some n => n - 1 <=? length (boundaries w) | None => false end then None
    else Some (with_prev_ch (push_boundary w b x) c)
  else Some (with_prev_ch w c).

(** The next glyph, whose character is found when it is peeked at. *)
Definition peek_x (gs : list (WrapBoundary * ShapedGlyph)) : outcome Pixels :=
  match gs with
  | [] => Ok end_x
  | (_, g) :: _ => let! _ := char_at text (glyph_index g) in Ok (gx g)
  end.

Fixpoint wrap_loop (gs : list (WrapBoundary * ShapedGlyph)) (w : Wrapping) : outcome (list WrapBoundary) :=
  match gs with
  | [] => Ok (boundaries w)
  | (b, g) :: gs =>
      let! c := char_at text (glyph_index g) in
      if (c =? newline)%N then wrap_loop gs w
      else
        let! next_x := peek_x gs in
        match wrap_glyph w b c (gx g) next_x with
        | None => Ok (boundaries w)
        | Some w => wrap_loop gs w
        end
  end.
End Wrap.

Definition compute_wrap_boundaries (l : LineLayout) (text : str) (wrap_width : Pixels) (max_lines : option nat) : outcome (list WrapBoundary) :=
  wrap_loop text wrap_width max_lines (line_width l) (line_boundaries l) wrapping_start.

Record WrappedLineLayout := mkWrapped {
  unwrapped_layout : LineLayout;
  wrap_boundaries : list WrapBoundary;
  wrap_width : option Pixels;
}.

Definition wrapped_len (w : WrappedLineLayout) : nat := line_len (unwrapped_layout w).

(** An absent width is [Pixels::MAX]. *)
Definition wrapped_width (w : WrappedLineLayout) : Pixels :=
  match wrap_width w with Some m => Z.min m (line_width (unwrapped_layout w)) | None => line_width (unwrapped_layout w) end.

Definition wrapped_size (w : WrappedLineLayout) (line_height : Pixels) : Size :=
  mkSize (wrapped_width w) (line_height * Z.of_nat (length (wrap_boundaries w) + 1)).

(** The glyph at a boundary. *)
Definition boundary_glyph (l : LineLayout) (b : WrapBoundary) : outcome ShapedGlyph :=
  let! r := index (runs l) (run_ix b) in
  index (glyphs r) (glyph_ix b).

Definition usize_max : Z := 2 ^ 64 - 1.

(** [(y / line_height) as usize]: the cast truncates, saturates and sends NaN to zero. *)
Definition row_of (y line_height : Pixels) : nat :=
  Z.to_nat (Z.min usize_max
    (if (line_height =? 0)%Z then (if (0 <? y)%Z then usize_max else 0) else Z.quot y line_height)).

(** [_index_for_position]: [inl] is [Ok] and [inr] is [Err]. *)
Definition index_for_position_ (closest : bool) (w : WrappedLineLayout) (pos : Point) (line_height : Pixels) : outcome (nat + nat) :=
  let l := unwrapped_layout w in
  let row := row_of (py pos) line_height in
  let! start :=
    match row with
    | 0 => Ok (Some (0, 0%Z))
    | S row =>
        match wrap_boundaries w !! row with
        | None => Ok None
        | Some b => let! g := boundary_glyph l b in Ok (Some (glyph_index g, gx g))
        end
    end in
  match start with
  | None => Ok (inr 0)
  | Some (start_index, start_x) =>
      let! (end_index, end_x) :=
        match wrap_boundaries w !! row with
        | Some b => let! g := boundary_glyph l b in Ok (glyph_index g, gx g)
        | None => Ok (line_len l, line_width l)
        end in
      let x := (px pos + start_x)%Z in
      if (x <? start_x)%Z then Ok (inr start_index)
      else if (end_x <=? x)%Z then Ok (inr end_index)
      else if closest then Ok (inl (closest_index_for_x l x))
      else Ok (match index_for_x l x with Some i => inl i | None => inr end_index end)
  end.

Definition index_for_position : WrappedLineLayout -> Point -> Pixels -> outcome (nat + nat) := index_for_position_ false.
Definition closest_index_for_position : WrappedLineLayout -> Point -> Pixels -> outcome (nat + nat) := index_for_position_ true.

(** The loop over the ends of the rows, which are found as they are reached. *)
Fixpoint position_loop (w : WrappedLineLayout) (line_height : Pixels) (i : nat) (row line_start_ix : nat) (bs : list WrapBoundary) : outcome (option Point) :=
  let l := unwrapped_layout w in
  let here := Some (mkPoint (x_for_index l i - x_for_index l line_start_ix) (Z.of_nat row * line_height)) in
  match bs with
  | [] =>
      Ok (if i <? line_start_ix then None else if line_len l <? i then None else here)
  | b :: bs =>
      let! g := boundary_glyph l b in
      if i <? line_start_ix then Ok None
      else if glyph_index g <? i then position_loop w line_height i (S row) (glyph_index g) bs
      else Ok here
  end.

Definition position_for_index (w : WrappedLineLayout) (i : nat) (line_height : Pixels) : outcome (option Point) :=
  position_loop w line_height i 0 0 (wrap_boundaries w).

(** ** Adjusting positions *)

(** A function over the glyphs in order with a state, applied in place. *)
Fixpoint thread {A B} (f : A -> B -> A * B) (a : A) (l : list B) : A * list B :=
  match l with
  | [] => (a, [])
  | b :: l => let (a, b) := f a b in let (a, l) := thread f a l in (a, b :: l)
  end.

Definition thread_run {A} (f : A -> ShapedGlyph -> A * ShapedGlyph) (a : A) (r : ShapedRun) : A * ShapedRun :=
  let (a, gs) := thread f a (glyphs r) in (a, mkRun (font_id r) gs).

Definition with_runs (l : LineLayout) (rs : list ShapedRun) : LineLayout :=
  mkLayout (font_size l) (line_width l) (ascent l) (descent l) rs (line_len l).

Definition with_gx (g : ShapedGlyph) (x : Pixels) : ShapedGlyph :=
  mkGlyph (glyph_id g) (mkPoint x (py (position g))) (glyph_index g) (is_emoji g).

(** Whether a glyph is past half a cell from the last base glyph, which is first at minus infinity. *)
Definition is_base (last_base_x : option Pixels) (force_width x : Pixels) : bool :=
  match last_base_x with Some last => (force_width <? 2 * (x - last))%Z | None => true end.

(** State: the cells taken, and where the last base glyph was shaped and is. *)
Definition force_glyph (force_width : Pixels) (st : nat * (option Pixels * Pixels)) (g : ShapedGlyph) : (nat * (option Pixels * Pixels)) * ShapedGlyph :=
  let '(glyph_pos, (last_shaped, last_actual)) := st in
  let shaped_x := gx g in
  if is_base last_shaped force_width shaped_x then
    let forced_x := (Z.of_nat glyph_pos * force_width)%Z in
    let x := if (1 <? Z.abs (shaped_x - forced_x))%Z then forced_x else shaped_x in
    ((S glyph_pos, (Some shaped_x, x)), with_gx g x)
  else
    (st, with_gx g (last_actual + (shaped_x - default 0 last_shaped))%Z).

Definition apply_force_width_to_layout (l : LineLayout) (force_width : Pixels) : LineLayout :=
  with_runs l (thread (thread_run (force_glyph force_width)) (0, (None, 0%Z)) (runs l)).2.

(** State: the base glyphs counted, where the last was and how far it was moved. *)
Definition space_base (spacing force_width : Pixels) (st : nat * (option Pixels * Pixels)) (g : ShapedGlyph) : (nat * (option Pixels * Pixels)) * ShapedGlyph :=
  let '(count, (last_base_x, last_base_spacing)) := st in
  let x := gx g in
  if is_base last_base_x force_width x then
    let moved := (spacing * Z.of_nat count)%Z in
    ((S count, (Some x, moved)), with_gx g (x + moved))
  else (st, with_gx g (x + last_base_spacing)).

Definition space_glyph (spacing : Pixels) (count : nat) (g : ShapedGlyph) : nat * ShapedGlyph :=
  (S count, with_gx g (gx g + spacing * Z.of_nat count)).

Definition apply_letter_spacing_to_layout (l : LineLayout) (spacing : Pixels) (force_width : option Pixels) : LineLayout :=
  let (glyph_count, rs) :=
    match force_width with
    | Some fw => let (st, rs) := thread (thread_run (space_base spacing fw)) (0, (None, 0%Z)) (runs l) in (st.1, rs)
    | None => thread (thread_run (space_glyph spacing)) 0 (runs l)
    end in
  let width := if 1 <? glyph_count then (line_width l + spacing * Z.of_nat (glyph_count - 1))%Z else line_width l in
  mkLayout (font_size l) width (ascent l) (descent l) rs (line_len l).

(** ** Lemmas on glyphs in byte order *)

Definition byte_ordered (gs : list ShapedGlyph) : Prop := StronglySorted (fun a b => glyph_index a <= glyph_index b) gs.

Definition before (i : nat) (gs : list ShapedGlyph) : list ShapedGlyph := List.filter (fun g => glyph_index g <? i) gs.
Definition after (i : nat) (gs : list ShapedGlyph) : list ShapedGlyph := List.filter (fun g => i <=? glyph_index g) gs.

(** A glyph counted from byte [i] and position [dx]. *)
Definition shift (i : nat) (dx : Pixels) (g : ShapedGlyph) : ShapedGlyph :=
  mkGlyph (glyph_id g) (mkPoint (gx g - dx) (py (position g))) (glyph_index g - i) (is_emoji g).

(** A run, unless it is empty. *)
Definition run_of (f : FontId) (gs : list ShapedGlyph) : list ShapedRun :=
  match gs with [] => [] | _ :: _ => [mkRun f gs] end.

Lemma run_of_glyphs f gs : flat_map glyphs (run_of f gs) = gs.
Proof. destruct gs; [done|]. cbn. by rewrite app_nil_r. Qed.

Lemma before_app i a b : before i (a ++ b) = before i a ++ before i b.
Proof. apply List.filter_app. Qed.

Lemma after_app i a b : after i (a ++ b) = after i a ++ after i b.
Proof. apply List.filter_app. Qed.

Lemma before_all i gs : Forall (fun g => glyph_index g < i) gs -> before i gs = gs.
Proof. intros H. apply bfilter_all. eapply Forall_weaken; [|exact H]. intros g Hg. by apply Nat.ltb_lt. Qed.

Lemma before_none i gs : Forall (fun g => i <= glyph_index g) gs -> before i gs = [].
Proof. intros H. apply bfilter_none. eapply Forall_weaken; [|exact H]. intros g Hg. by apply Nat.ltb_ge. Qed.

Lemma after_all i gs : Forall (fun g => i <= glyph_index g) gs -> after i gs = gs.
Proof. intros H. apply bfilter_all. eapply Forall_weaken; [|exact H]. intros g Hg. by apply Nat.leb_le. Qed.

Lemma after_none i gs : Forall (fun g => glyph_index g < i) gs -> after i gs = [].
Proof. intros H. apply bfilter_none. eapply Forall_weaken; [|exact H]. intros g Hg. by apply Nat.leb_gt. Qed.

Lemma before_Forall i gs : Forall (fun g => glyph_index g < i) (before i gs).
Proof. eapply Forall_weaken; [|apply bfilter_Forall]. intros g Hg. by apply Nat.ltb_lt. Qed.

Lemma after_Forall i gs : Forall (fun g => i <= glyph_index g) (after i gs).
Proof. eapply Forall_weaken; [|apply bfilter_Forall]. intros g Hg. by apply Nat.leb_le. Qed.

Lemma byte_ordered_app a b : byte_ordered (a ++ b) -> byte_ordered a /\ byte_ordered b.
Proof.
  unfold byte_ordered. induction a as [|g a IH]; cbn [app]; [by repeat constructor|].
  intros [H Hg]%StronglySorted_inv. destruct (IH H). apply Forall_app in Hg as [? _]. split; [by constructor|done].
Qed.

(** In byte order, the glyphs before a byte precede those from it on. *)
Lemma before_after i gs : byte_ordered gs -> gs = before i gs ++ after i gs.
Proof.
  unfold byte_ordered. induction 1 as [|g gs _ IH Hg]; [done|]. cbn [before after List.filter]. fold (before i gs) (after i gs).
  destruct (Nat.ltb_spec (glyph_index g) i), (Nat.leb_spec i (glyph_index g)); [lia|cbn; congruence| |lia].
  rewrite before_none, after_all; [done|..]; (eapply Forall_weaken; [|exact Hg]); cbn; lia.
Qed.

Lemma byte_ordered_run l r : byte_ordered (all_glyphs l) -> r ∈ runs l -> byte_ordered (glyphs r).
Proof.
  unfold all_glyphs. intros H [rs1 [rs2 E]]%list_elem_of_split. rewrite E, flat_map_app in H. cbn in H.
  by apply byte_ordered_app in H as [_ [H _]%byte_ordered_app].
Qed.

Lemma find_after i gs : List.find (fun g => i <=? glyph_index g) gs = head (after i gs).
Proof. induction gs as [|g gs IH]; [done|]. cbn. by destruct (i <=? glyph_index g). Qed.

Lemma x_for_index_head l i : x_for_index l i = match after i (all_glyphs l) with g :: _ => gx g | [] => line_width l end.
Proof. unfold x_for_index. rewrite find_after. by destruct (after i (all_glyphs l)). Qed.

(** ** What splitting gives *)

(** What is from byte [a] to byte [b], with positions from [xa] to [xb]. *)
Definition glyphs_between (a b : nat) (gs : list ShapedGlyph) : list ShapedGlyph := before b (after a gs).

Definition runs_of (f : list ShapedGlyph -> list ShapedGlyph) (rs : list ShapedRun) : list ShapedRun :=
  flat_map (fun r => run_of (font_id r) (f (glyphs r))) rs.

Definition layout_piece (l : LineLayout) (a b : nat) (xa xb : Pixels) : LineLayout :=
  mkLayout (font_size l) (xb - xa) (ascent l) (descent l)
    (runs_of (fun gs => map (shift a xa) (glyphs_between a b gs)) (runs l)) (b - a).

Definition layout_rest (l : LineLayout) (a : nat) (xa : Pixels) : LineLayout :=
  mkLayout (font_size l) (line_width l - xa) (ascent l) (descent l)
    (runs_of (fun gs => map (shift a xa) (after a gs)) (runs l)) (line_len l - a).

Lemma runs_of_glyphs f rs : flat_map glyphs (runs_of f rs) = flat_map (fun r => f (glyphs r)) rs.
Proof.
  unfold runs_of. induction rs as [|r rs IH]; [done|]. cbn [flat_map]. by rewrite flat_map_app, run_of_glyphs, IH.
Qed.

Lemma flat_map_after a rs : flat_map (fun r => after a (glyphs r)) rs = after a (flat_map glyphs rs).
Proof. induction rs as [|r rs IH]; [done|]. cbn [flat_map]. by rewrite IH, after_app. Qed.

Lemma flat_map_map {A B C} (f : B -> C) (g : A -> list B) l : flat_map (fun a => map f (g a)) l = map f (flat_map g l).
Proof. induction l as [|a l IH]; [done|]. cbn [flat_map]. by rewrite IH, map_app. Qed.

Lemma layout_rest_glyphs l a xa : all_glyphs (layout_rest l a xa) = map (shift a xa) (after a (all_glyphs l)).
Proof.
  unfold all_glyphs at 1. cbn [layout_rest runs]. rewrite runs_of_glyphs.
  rewrite (flat_map_map (shift a xa) (fun r => after a (glyphs r))). by rewrite flat_map_after.
Qed.

Lemma shift_shift a b xa xb g : a <= b -> shift (b - a) (xb - xa) (shift a xa g) = shift b xb g.
Proof. intros H. unfold shift, gx. cbn. f_equal; [f_equal; lia|lia]. Qed.

Lemma after_shift a b xa gs : a <= b -> after (b - a) (map (shift a xa) (after a gs)) = map (shift a xa) (after b gs).
Proof.
  intros H. induction gs as [|g gs IH]; [done|]. cbn [after List.filter]. fold (after a gs) (after b gs).
  destruct (Nat.leb_spec a (glyph_index g)), (Nat.leb_spec b (glyph_index g)); try lia;
    cbn [map after List.filter]; rewrite ?IH; try done;
    fold (after (b - a) (map (shift a xa) (after a gs))); cbn [shift glyph_index];
    destruct (Nat.leb_spec (b - a) (glyph_index g - a)); try lia; by rewrite IH.
Qed.

Lemma before_shift a b xa gs : a <= b -> before (b - a) (map (shift a xa) (after a gs)) = map (shift a xa) (glyphs_between a b gs).
Proof.
  intros H. unfold glyphs_between. induction gs as [|g gs IH]; [done|]. cbn [after List.filter]. fold (after a gs).
  destruct (Nat.leb_spec a (glyph_index g)); [|exact IH]. cbn [map before List.filter].
  fold (before (b - a) (map (shift a xa) (after a gs))) (before b (after a gs)). cbn [shift glyph_index].
  destruct (Nat.ltb_spec (glyph_index g - a) (b - a)), (Nat.ltb_spec (glyph_index g) b); try lia; cbn [map]; by rewrite IH.
Qed.

Section SplitLemmas.
Context `{PartitionPointLaws}.

Lemma rebase_Ok i dx gs : Forall (fun g => i <= glyph_index g) gs -> traverse (rebase i dx) gs = Ok (map (shift i dx) gs).
Proof. intros Hi. apply traverse_Ok. eapply Forall_weaken; [|exact Hi]. intros g Hg. unfold rebase. by rewrite usize_sub_Ok. Qed.

Lemma split_run_Ok i dx r : byte_ordered (glyphs r) ->
  split_run i dx r = Ok (run_of (font_id r) (before i (glyphs r)), run_of (font_id r) (map (shift i dx) (after i (glyphs r)))).
Proof.
  intros Hr. unfold split_run. pose proof (before_after i _ Hr) as E.
  assert (Ep : partition_point (fun g => glyph_index g <? i) (glyphs r) = length (before i (glyphs r))).
  { rewrite E at 1. apply partition_point_prefix.
    - eapply Forall_weaken; [|apply before_Forall]. intros g Hg. by apply Nat.ltb_lt.
    - eapply Forall_weaken; [|apply after_Forall]. intros g Hg. by apply Nat.ltb_ge. }
  rewrite Ep. replace (take _ _) with (before i (glyphs r)) by (rewrite E at 3; by rewrite take_app_length).
  replace (drop _ _) with (after i (glyphs r)) by (rewrite E at 3; by rewrite drop_app_length).
  replace (length (glyphs r)) with (length (before i (glyphs r)) + length (after i (glyphs r))) by (rewrite <- length_app; by rewrite <- E).
  rewrite rebase_Ok by apply after_Forall.
  destruct (Nat.ltb_spec 0 (length (before i (glyphs r)))), (Nat.ltb_spec (length (before i (glyphs r))) (length (before i (glyphs r)) + length (after i (glyphs r))));
    destruct (before i (glyphs r)), (after i (glyphs r)); cbn [length] in *; try lia; done.
Qed.

Lemma traverse_runs i dx rs : Forall (fun r => byte_ordered (glyphs r)) rs ->
  traverse (split_run i dx) rs = Ok (map (fun r => (run_of (font_id r) (before i (glyphs r)), run_of (font_id r) (map (shift i dx) (after i (glyphs r))))) rs).
Proof. intros Hr. apply traverse_Ok. eapply Forall_weaken; [|exact Hr]. intros r. apply split_run_Ok. Qed.

Lemma layout_split_Ok l i : byte_ordered (all_glyphs l) -> i <= line_len l ->
  layout_split_at l i = Ok (layout_piece l 0 i 0 (x_for_index l i), layout_rest l i (x_for_index l i)).
Proof.
  intros Hl Hi. unfold layout_split_at. rewrite traverse_runs by (apply Forall_elem; intros r; by apply byte_ordered_run).
  cbn [obind]. rewrite usize_sub_Ok by done. cbn [obind]. f_equal. unfold layout_piece, layout_rest, runs_of. f_equal; f_equal.
  - lia.
  - rewrite !flat_map_concat_map, map_map. f_equal. apply map_ext. intros r. cbn [fst]. f_equal. unfold glyphs_between.
    rewrite (after_all 0) by (apply Forall_elem; lia). rewrite <- (map_id (before i (glyphs r))) at 1. apply map_ext.
    intros [g [x y] j e]. unfold shift, gx. cbn. by rewrite Z.sub_0_r, Nat.sub_0_r.
  - lia.
  - by rewrite !flat_map_concat_map, map_map.
Qed.
End SplitLemmas.

(** ** Splitting what is left *)

Lemma byte_ordered_filter (p : ShapedGlyph -> bool) gs : byte_ordered gs -> byte_ordered (List.filter p gs).
Proof.
  unfold byte_ordered. induction 1 as [|g gs _ IH Hg]; [constructor|]. cbn. destruct (p g); [|done].
  constructor; [done|]. by apply bfilter_Forall_keep.
Qed.

Lemma byte_ordered_shift a xa gs : byte_ordered gs -> byte_ordered (map (shift a xa) gs).
Proof.
  unfold byte_ordered. induction 1 as [|g gs _ IH Hg]; [constructor|]. cbn. constructor; [done|].
  rewrite Forall_map. eapply Forall_weaken; [|exact Hg]. cbn. lia.
Qed.

Lemma layout_rest_ordered l a xa : byte_ordered (all_glyphs l) -> byte_ordered (all_glyphs (layout_rest l a xa)).
Proof. intros H. rewrite layout_rest_glyphs. by apply byte_ordered_shift, byte_ordered_filter. Qed.

Lemma layout_rest_x l a b xa : a <= b -> x_for_index (layout_rest l a xa) (b - a) = (x_for_index l b - xa)%Z.
Proof.
  intros Hab. rewrite !x_for_index_head, layout_rest_glyphs, after_shift by done.
  by destruct (after b (all_glyphs l)).
Qed.

Lemma runs_of_runs_of (f g : list ShapedGlyph -> list ShapedGlyph) rs : f [] = [] -> runs_of f (runs_of g rs) = runs_of (fun gs => f (g gs)) rs.
Proof.
  intros Hf. unfold runs_of. induction rs as [|r rs IH]; [done|]. cbn [flat_map]. rewrite flat_map_app, IH. f_equal.
  destruct (g (glyphs r)) eqn:E; cbn; [by rewrite Hf|]. by rewrite app_nil_r.
Qed.

Lemma runs_of_ext (f g : list ShapedGlyph -> list ShapedGlyph) rs : (forall gs, f gs = g gs) -> runs_of f rs = runs_of g rs.
Proof. intros H. unfold runs_of. rewrite !flat_map_concat_map. f_equal. apply map_ext. intros r. by rewrite H. Qed.

Lemma layout_rest_rest l a b xa xb : a <= b -> layout_rest (layout_rest l a xa) (b - a) (xb - xa) = layout_rest l b xb.
Proof.
  intros Hab. unfold layout_rest. cbn [font_size line_width ascent descent runs line_len]. f_equal; [lia| |lia].
  rewrite runs_of_runs_of by done. apply runs_of_ext. intros gs. rewrite after_shift by done. rewrite map_map.
  apply map_ext. intros g. by apply shift_shift.
Qed.

Lemma layout_rest_piece l a b xa xb : a <= b -> layout_piece (layout_rest l a xa) 0 (b - a) 0 (xb - xa) = layout_piece l a b xa xb.
Proof.
  intros Hab. unfold layout_piece. cbn [layout_rest font_size ascent descent runs]. f_equal; [lia| |lia].
  rewrite runs_of_runs_of by done. apply runs_of_ext. intros gs. unfold glyphs_between at 1.
  rewrite (after_all 0) by (apply Forall_elem; lia). rewrite before_shift by done. rewrite map_map.
  apply map_ext. intros g. unfold shift, gx. cbn. by rewrite Z.sub_0_r, Nat.sub_0_r.
Qed.

Lemma layout_rest_split `{PartitionPointLaws} l a b xa : byte_ordered (all_glyphs l) -> a <= b <= line_len l ->
  layout_split_at (layout_rest l a xa) (b - a) = Ok (layout_piece l a b xa (x_for_index l b), layout_rest l b (x_for_index l b)).
Proof.
  intros Hl Hab. rewrite layout_split_Ok by (try apply layout_rest_ordered; cbn [layout_rest line_len]; lia || done).
  by rewrite layout_rest_x, layout_rest_piece, layout_rest_rest by lia.
Qed.
