(* ===== verification/ShapedLine.v ===== *)
(** * ShapedLine: lines with decorations, and the cursor that splits them

    [crates/gpui/src/text_system/line.rs] without painting: [ShapedLine] with
    [split_at], and [ShapedLineCursor], which gives the pieces between increasing
    boundaries in one pass.  The theorem is that it gives what splitting the rest again and
    again gives.  Lengths of decorations are [u32]: arithmetic panics on overflow, and the
    casts of byte offsets wrap. *)

From Stdlib Require Import NArith ZArith String.
From stdpp Require Import base list option numbers sorting.
From S2P Require Import Prelude Text Utf8 Geometry LineLayout.

#[local] Set Warnings "-register-all,-clear-no-such-hyp".

(** ** Data *)

(** Components are compared in the total order of floats. *)
Record Hsla := mkHsla { hue : Z; saturation : Z; lightness : Z; alpha : Z }.

Record UnderlineStyle := mkUnderline { underline_thickness : Pixels; underline_color : option Hsla; wavy : bool }.

Record StrikethroughStyle := mkStrikethrough { strikethrough_thickness : Pixels; strikethrough_color : option Hsla }.

#[export] Instance Hsla_eq_dec : EqDecision Hsla.
Proof. solve_decision. Defined.

#[export] Instance UnderlineStyle_eq_dec : EqDecision UnderlineStyle.
Proof. solve_decision. Defined.

#[export] Instance StrikethroughStyle_eq_dec : EqDecision StrikethroughStyle.
Proof. solve_decision. Defined.

Record DecorationRun := mkDecoration {
  dec_len : Z;
  color : Hsla;
  background_color : option Hsla;
  underline : option UnderlineStyle;
  strikethrough : option StrikethroughStyle;
}.

Record ShapedLine := mkShaped {
  layout : LineLayout;
  text : str;
  decoration_runs : list DecorationRun;
}.

Definition u32_limit : Z := 2 ^ 32.

(** [as u32] *)
Definition as_u32 (n : nat) : Z := Z.of_nat n mod u32_limit.

Definition u32_plus (a b : Z) : outcome Z := if (a + b <? u32_limit)%Z then Ok (a + b)%Z else Panic.
Definition u32_minus (a b : Z) : outcome Z := if (b <=? a)%Z then Ok (a - b)%Z else Panic.

Definition with_dec_len (d : DecorationRun) (n : Z) : DecorationRun :=
  mkDecoration n (color d) (background_color d) (underline d) (strikethrough d).

Definition line_with_len (l : ShapedLine) (n : nat) : ShapedLine :=
  let y := layout l in
  mkShaped (mkLayout (font_size y) (line_width y) (ascent y) (descent y) (runs y) n) (text l) (decoration_runs l).

(** ** Splitting a line *)

(** State: the runs on the left, those on the right, and the offset. *)
Definition split_decoration (split_point : Z) (st : list DecorationRun * list DecorationRun * Z) (d : DecorationRun) :
    outcome (list DecorationRun * list DecorationRun * Z) :=
  let '(lefts, rights, offset) := st in
  let! run_end := u32_plus offset (dec_len d) in
  if (run_end <=? split_point)%Z then Ok (lefts ++ [d], rights, run_end)
  else if (split_point <=? offset)%Z then Ok (lefts, rights ++ [d], run_end)
  else Ok (lefts ++ [with_dec_len d (split_point - offset)], rights ++ [with_dec_len d (run_end - split_point)], run_end).

Section Line.
Context `{PartitionPoint}.

Definition line_split_at (l : ShapedLine) (i : nat) : outcome (ShapedLine * ShapedLine) :=
  let! (left_layout, right_layout) := layout_split_at (layout l) i in
  let! (left_decorations, right_decorations, _) := ofold (split_decoration (as_u32 i)) (decoration_runs l) ([], [], 0%Z) in
  let! left_text :=
    if i =? str_len (text l) then Ok (text l) else let! (l, _) := str_split_at (text l) i in Ok l in
  let! right_text :=
    if i =? 0 then Ok (text l) else let! (_, r) := str_split_at (text l) i in Ok r in
  Ok (mkShaped left_layout left_text left_decorations, mkShaped right_layout right_text right_decorations).

(** ** The cursor *)

Record ShapedLineCursor := mkCursor {
  line : ShapedLine;
  unordered_remainder : option ShapedLine;
  byte_index : nat;
  run_index : nat;
  cursor_glyph : nat;
  decoration_index : nat;
  decoration_offset : Z;
  x_offset : Pixels;
}.

(** [Iterator::is_sorted] *)
Fixpoint is_sorted (l : list nat) : bool :=
  match l with
  | a :: (b :: _) as l' => (a <=? b) && is_sorted l'
  | _ => true
  end.

Definition cursor (l : ShapedLine) : option ShapedLineCursor :=
  if negb (line_len (layout l) =? str_len (text l)) then None
  else
    let byte_ordered := is_sorted (map glyph_index (all_glyphs (layout l))) in
    Some (mkCursor l (if byte_ordered then None else Some l) 0 0 0 0 0 0).

(** The inner loop: how many glyphs from here on are before the byte. *)
Fixpoint glyphs_below (i : nat) (gs : list ShapedGlyph) : nat :=
  match gs with
  | [] => 0
  | g :: gs => if i <=? glyph_index g then 0 else S (glyphs_below i gs)
  end.

(** The loop over the runs [rs] from [run_ix] on: the runs taken, the position of the next
    glyph, and where the cursor stops. *)
Fixpoint take_runs (i previous_index : nat) (previous_x : Pixels) (rs : list ShapedRun) (run_ix start : nat)
    (taken : list ShapedRun) (next_x : Pixels) : outcome (list ShapedRun * Pixels * nat * nat) :=
  match rs with
  | [] => Ok (taken, next_x, run_ix, start)
  | r :: rs =>
      let end_ := start + glyphs_below i (drop start (glyphs r)) in
      let! taken :=
        if start <? end_ then
          let! gs := traverse (rebase previous_index previous_x) (take (end_ - start) (drop start (glyphs r))) in
          Ok (taken ++ [mkRun (font_id r) gs])
        else Ok taken in
      match glyphs r !! end_ with
      | Some g => Ok (taken, gx g, run_ix, end_)
      | None => take_runs i previous_index previous_x rs (S run_ix) 0 taken next_x
      end
  end.

(** The loop over the decorations [ds] from index [ix] on. *)
Fixpoint take_decorations (i previous_index : Z) (ds : list DecorationRun) (ix : nat) (offset : Z)
    (taken : list DecorationRun) : outcome (list DecorationRun * nat * Z) :=
  match ds with
  | [] => Ok (taken, ix, offset)
  | d :: ds =>
      if (offset <? i)%Z || ((dec_len d =? 0)%Z && (offset =? i)%Z) then
        let! end_ := u32_plus offset (dec_len d) in
        let start := Z.max offset previous_index in
        let! len := u32_minus (Z.min end_ i) start in
        let taken := if (0 <? len)%Z || (dec_len d =? 0)%Z then taken ++ [with_dec_len d len] else taken in
        if (end_ <=? i)%Z then take_decorations i previous_index ds (S ix) end_ taken
        else Ok (taken, ix, offset)
      else Ok (taken, ix, offset)
  end.

Definition take_until (c : ShapedLineCursor) (i : nat) : outcome (ShapedLineCursor * ShapedLine) :=
  if negb (byte_index c <=? i) then Panic
  else if negb (i <=? line_len (layout (line c))) then Panic
  else if negb (is_char_boundary (text (line c)) i) then Panic
  else
    let previous_index := byte_index c in
    let previous_x := x_offset c in
    let y := layout (line c) in
    match unordered_remainder c with
    | Some remainder =>
        let! (piece, rest) := line_split_at remainder (i - previous_index) in
        Ok (mkCursor (line c) (Some rest) i (run_index c) (cursor_glyph c) (decoration_index c) (decoration_offset c) (x_for_index y i), piece)
    | None =>
        let! (taken, next_x, run_ix, glyph_ix) :=
          take_runs i previous_index previous_x (drop (run_index c) (runs y)) (run_index c) (cursor_glyph c) [] (line_width y) in
        let! (decorations, dec_ix, dec_offset) :=
          take_decorations (as_u32 i) (as_u32 previous_index) (drop (decoration_index c) (decoration_runs (line c)))
            (decoration_index c) (decoration_offset c) [] in
        let! piece_text := str_slice (text (line c)) previous_index i in
        Ok (mkCursor (line c) None i run_ix glyph_ix dec_ix dec_offset next_x,
            mkShaped (mkLayout (font_size y) (next_x - previous_x) (ascent y) (descent y) taken (i - previous_index)) piece_text decorations)
    end.

(** The pieces up to each boundary. *)
Fixpoint take_all (c : ShapedLineCursor) (cuts : list nat) : outcome (list ShapedLine * ShapedLineCursor) :=
  match cuts with
  | [] => Ok ([], c)
  | i :: cuts =>
      let! (c, piece) := take_until c i in
      let! (pieces, c) := take_all c cuts in
      Ok (piece :: pieces, c)
  end.

(** ** The reference: splitting the rest at every boundary *)

Fixpoint split_all (rest : ShapedLine) (previous_index : nat) (cuts : list nat) : outcome (list ShapedLine * ShapedLine) :=
  match cuts with
  | [] => Ok ([], rest)
  | i :: cuts =>
      let! (piece, rest) := line_split_at rest (i - previous_index) in
      let! (pieces, rest) := split_all rest i cuts in
      Ok (piece :: pieces, rest)
  end.
End Line.

(** ** Decorations *)

Fixpoint dec_left (i offset : Z) (ds : list DecorationRun) : list DecorationRun :=
  match ds with
  | [] => []
  | d :: ds =>
      (if (offset + dec_len d <=? i)%Z then [d] else if (i <=? offset)%Z then [] else [with_dec_len d (i - offset)]) ++
      dec_left i (offset + dec_len d) ds
  end.

Fixpoint dec_right (i offset : Z) (ds : list DecorationRun) : list DecorationRun :=
  match ds with
  | [] => []
  | d :: ds =>
      (if (offset + dec_len d <=? i)%Z then [] else if (i <=? offset)%Z then [d] else [with_dec_len d (offset + dec_len d - i)]) ++
      dec_right i (offset + dec_len d) ds
  end.

Definition dec_total (ds : list DecorationRun) : Z := foldr (fun d n => dec_len d + n)%Z 0%Z ds.

Definition dec_ok (ds : list DecorationRun) : Prop := Forall (fun d => (0 <= dec_len d)%Z) ds.

Lemma dec_total_nonneg ds : dec_ok ds -> (0 <= dec_total ds)%Z.
Proof. induction 1 as [|d ds Hd _ IH]; cbn; [done|]. fold (dec_total ds). lia. Qed.

Lemma split_decorations i ds offset l r : dec_ok ds -> (0 <= offset)%Z -> (offset + dec_total ds < u32_limit)%Z ->
  ofold (split_decoration i) ds (l, r, offset) = Ok (l ++ dec_left i offset ds, r ++ dec_right i offset ds, offset + dec_total ds)%Z.
Proof.
  intros Hds. revert offset l r. induction Hds as [|d ds Hd Hds IH]; intros offset l r Ho Hlt; cbn [ofold dec_left dec_right dec_total foldr].
  - by rewrite !app_nil_r, Z.add_0_r.
  - fold (dec_total ds). change (dec_total (d :: ds)) with (dec_len d + dec_total ds)%Z in Hlt. pose proof (dec_total_nonneg ds Hds).
    unfold split_decoration at 1, u32_plus. rewrite (proj2 (Z.ltb_lt (offset + dec_len d) u32_limit)) by lia. cbn [obind].
    destruct (Z.leb_spec (offset + dec_len d) i); [|destruct (Z.leb_spec i offset)]; cbn [obind];
      rewrite IH by lia; rewrite ?app_nil_l, <- ?app_assoc, Z.add_assoc; done.
Qed.

(** Counting from another origin. *)
Lemma dec_left_shift k i offset ds : dec_left (i - k) (offset - k) ds = dec_left i offset ds.
Proof.
  revert offset. induction ds as [|d ds IH]; intros offset; [done|]. cbn [dec_left].
  replace (offset - k + dec_len d)%Z with (offset + dec_len d - k)%Z by lia. rewrite IH.
  replace (i - k - (offset - k))%Z with (i - offset)%Z by lia.
  destruct (Z.leb_spec (offset + dec_len d - k) (i - k)), (Z.leb_spec (offset + dec_len d) i); try lia; [done|].
  destruct (Z.leb_spec (i - k) (offset - k)), (Z.leb_spec i offset); try lia; done.
Qed.

Lemma dec_right_shift k i offset ds : dec_right (i - k) (offset - k) ds = dec_right i offset ds.
Proof.
  revert offset. induction ds as [|d ds IH]; intros offset; [done|]. cbn [dec_right].
  replace (offset - k + dec_len d)%Z with (offset + dec_len d - k)%Z by lia. rewrite IH.
  replace (offset + dec_len d - k - (i - k))%Z with (offset + dec_len d - i)%Z by lia.
  destruct (Z.leb_spec (offset + dec_len d - k) (i - k)), (Z.leb_spec (offset + dec_len d) i); try lia; [done|].
  destruct (Z.leb_spec (i - k) (offset - k)), (Z.leb_spec i offset); try lia; done.
Qed.

Lemma dec_past i offset ds : dec_ok ds -> (i < offset)%Z -> dec_left i offset ds = [] /\ dec_right i offset ds = ds.
Proof.
  intros Hds. revert offset. induction Hds as [|d ds Hd _ IH]; intros offset Ho; [done|]. cbn [dec_left dec_right].
  destruct (Z.leb_spec (offset + dec_len d) i); [lia|]. destruct (Z.leb_spec i offset); [|lia].
  destruct (IH (offset + dec_len d)%Z) as [-> ->]; [lia|done].
Qed.

(** The decorations from byte [a] on, where the first of [ds] starts at [offset]. *)
Definition dec_from (a offset : Z) (ds : list DecorationRun) : list DecorationRun :=
  match ds with
  | [] => []
  | d :: ds => (if (offset <? a)%Z then with_dec_len d (offset + dec_len d - a) else d) :: ds
  end.

(** A decoration that starts before [a] goes past it. *)
Definition dec_straddles (a offset : Z) (ds : list DecorationRun) : Prop :=
  match ds with
  | [] => True
  | d :: _ => (offset < a)%Z -> (a < offset + dec_len d)%Z
  end.

Lemma dec_from_at a offset ds : (a <= offset)%Z -> dec_from a offset ds = ds.
Proof. intros H. destruct ds as [|d ds]; [done|]. cbn. by destruct (Z.ltb_spec offset a); [lia|]. Qed.

Lemma with_dec_len_id d n : dec_len d = n -> with_dec_len d n = d.
Proof. intros <-. by destruct d. Qed.

Lemma dec_ok_from a offset ds : dec_ok ds -> dec_straddles a offset ds -> dec_ok (dec_from a offset ds).
Proof.
  intros Hds. destruct ds as [|d ds]; [done|]. intros Hs. apply Forall_cons in Hds as [Hd Hds]. cbn [dec_from].
  destruct (Z.ltb_spec offset a); constructor; try done. cbn. specialize (Hs H). lia.
Qed.

Lemma dec_total_from a offset ds : dec_ok ds -> dec_straddles a offset ds -> (dec_total (dec_from a offset ds) <= dec_total ds)%Z.
Proof.
  intros Hds. destruct ds as [|d ds]; [done|]. intros Hs. cbn [dec_from dec_total foldr]. fold (dec_total ds).
  destruct (Z.ltb_spec offset a); cbn [dec_len with_dec_len]; [specialize (Hs H)|]; lia.
Qed.

(** The loop of the cursor takes what a split puts on the left. *)
Lemma take_decorations_Ok i a ds ix offset taken :
  dec_ok ds -> (a <= i)%Z -> (0 <= offset <= i)%Z -> (offset + dec_total ds < u32_limit)%Z -> dec_straddles a offset ds ->
  exists k offset',
    take_decorations i a ds ix offset taken = Ok (taken ++ dec_left i (Z.max offset a) (dec_from a offset ds), ix + k, offset') /\
    (offset' <= i)%Z /\ (0 <= offset')%Z /\ (offset' + dec_total (drop k ds) <= offset + dec_total ds)%Z /\ dec_straddles i offset' (drop k ds) /\
    dec_from i offset' (drop k ds) = dec_right i (Z.max offset a) (dec_from a offset ds).
Proof.
  intros Hds Hai. revert ix offset taken. induction Hds as [|d ds Hd Hds IH]; intros ix offset taken Ho Hlt Hst.
  { exists 0, offset. rewrite Nat.add_0_r, app_nil_r. split_and!; done || lia. }
  change (dec_total (d :: ds)) with (dec_len d + dec_total ds)%Z in *. pose proof (dec_total_nonneg ds Hds) as Hnn.
  cbn [take_decorations dec_from dec_left dec_right]. cbn [dec_straddles] in Hst.
  destruct ((offset <? i)%Z || ((dec_len d =? 0)%Z && (offset =? i)%Z)) eqn:Ein.
  - unfold u32_plus, u32_minus. rewrite (proj2 (Z.ltb_lt (offset + dec_len d) u32_limit)) by lia. cbn [obind].
    rewrite (proj2 (Z.leb_le (Z.max offset a) _)) by (destruct (Z.ltb_spec offset a); lia). cbn [obind].
    set (m := Z.max offset a) in *. set (d' := if (offset <? a)%Z then _ else d) in *.
    assert (Hm : (m + dec_len d' = offset + dec_len d)%Z).
    { subst d' m. destruct (Z.ltb_spec offset a); cbn; lia. }
    assert (Hd' : forall n, with_dec_len d n = with_dec_len d' n) by (intros n; subst d'; by destruct (offset <? a)%Z).
    rewrite Hm. destruct (Z.leb_spec (offset + dec_len d) i) as [Hle|Hgt].
    + rewrite Z.min_l by lia.
      assert (Ht : ((0 <? offset + dec_len d - m) || (dec_len d =? 0))%Z = true).
      { subst m. destruct (Z.ltb_spec offset a) as [H|H]; [|destruct (Z.eqb_spec (dec_len d) 0); [apply orb_true_r|]];
          apply orb_true_iff; left; apply Z.ltb_lt; [specialize (Hst H)|]; lia. }
      rewrite Ht, Hd', with_dec_len_id by lia.
      destruct (IH (S ix) (offset + dec_len d)%Z (taken ++ [d'])) as (k & o' & E & H1 & H2 & H3 & H4 & H5); [lia|lia| |].
      { unfold dec_straddles. destruct ds; [done|]. subst m. intros H. destruct (Z.ltb_spec offset a) as [H'|H']; [specialize (Hst H')|]; lia. }
      assert (Hmax : Z.max (offset + dec_len d) a = (offset + dec_len d)%Z).
      { destruct (Z.ltb_spec offset a) as [H|H]; [specialize (Hst H)|]; lia. }
      rewrite Hmax, (dec_from_at a) in E, H5 by lia. exists (S k), o'. cbn [drop]. rewrite E, <- app_assoc, <- H5.
      replace (S ix + k) with (ix + S k) by lia. split_and!; done || lia.
    + rewrite Z.min_r by lia. exists 0, offset. rewrite Nat.add_0_r. cbn [drop].
      destruct (dec_past i (offset + dec_len d) ds Hds ltac:(lia)) as [-> ->]. rewrite app_nil_r.
      apply orb_true_iff in Ein. assert (Hlt' : (offset < i)%Z).
      { destruct Ein as [?%Z.ltb_lt|[?%Z.eqb_eq ?%Z.eqb_eq]%andb_true_iff]; lia. }
      destruct (Z.eqb_spec (dec_len d) 0); [lia|]. rewrite orb_false_r. rewrite Hd'.
      split_and!; try lia; try done.
      * destruct (Z.ltb_spec 0 (i - m)), (Z.leb_spec i m); try lia; [done|by rewrite app_nil_r].
      * intros _. lia.
      * cbn [dec_from]. rewrite (proj2 (Z.ltb_lt offset i) Hlt'). rewrite Hd'.
        destruct (Z.leb_spec i m); [|done]. cbn. f_equal. apply with_dec_len_id. subst m. lia.
  - exists 0, offset. rewrite Nat.add_0_r. cbn [drop]. apply orb_false_iff in Ein as [Hge%Z.ltb_ge Hz].
    assert (offset = i) as -> by lia. rewrite Z.max_l by lia.
    assert (Hpos : (0 < dec_len d)%Z) by (rewrite Z.eqb_refl in Hz; destruct (Z.eqb_spec (dec_len d) 0); [done|lia]).
    destruct (Z.ltb_spec i a); [lia|]. destruct (Z.leb_spec (i + dec_len d) i); [lia|]. destruct (Z.leb_spec i i); [|lia].
    destruct (dec_past i (i + dec_len d) ds Hds ltac:(lia)) as [-> ->]. rewrite !app_nil_r.
    split_and!; try lia; try done; [intros ?; lia|]. by rewrite dec_from_at by lia.
Qed.

(** ** Runs *)

Lemma is_sorted_spec gs : is_sorted (map glyph_index gs) = true <-> byte_ordered gs.
Proof.
  split.
  - intros H. apply Sorted_StronglySorted; [intros a b c; lia|]. induction gs as [|g [|h gs] IH]; [constructor|by repeat constructor|].
    cbn [map is_sorted] in H. apply andb_true_iff in H as [H1%Nat.leb_le H2]. constructor; [by apply IH|by constructor].
  - unfold byte_ordered. induction 1 as [|g [|h gs] H IH Hg]; [done|done|]. cbn [map is_sorted]. apply andb_true_iff.
    split; [apply Nat.leb_le; by inversion Hg|exact IH].
Qed.

(** The runs from glyph [start] of the first on. *)
Definition runs_from (start : nat) (rs : list ShapedRun) : list ShapedRun :=
  match rs with
  | [] => []
  | r :: rs => mkRun (font_id r) (drop start (glyphs r)) :: rs
  end.

Lemma runs_from_0 rs : runs_from 0 rs = rs.
Proof. destruct rs as [|[f gs] rs]; [done|]. cbn. by rewrite drop_0. Qed.

Lemma glyphs_below_before i gs : byte_ordered gs -> glyphs_below i gs = length (before i gs).
Proof.
  unfold byte_ordered. induction 1 as [|g gs _ IH Hg]; [done|]. cbn [glyphs_below before List.filter]. fold (before i gs).
  destruct (Nat.leb_spec i (glyph_index g)), (Nat.ltb_spec (glyph_index g) i); try lia; [|cbn; by rewrite IH].
  rewrite before_none; [done|]. eapply Forall_weaken; [|exact Hg]. cbn. lia.
Qed.

Lemma runs_of_all_after i (f : list ShapedGlyph -> list ShapedGlyph) rs : Forall (fun g => i <= glyph_index g) (flat_map glyphs rs) ->
  runs_of (fun gs => f (after i gs)) rs = runs_of f rs /\ (f [] = [] -> runs_of (fun gs => f (before i gs)) rs = []).
Proof.
  unfold runs_of. induction rs as [|r rs IH]; [done|]. cbn [flat_map]. intros [Hr Hrs]%Forall_app. destruct (IH Hrs) as [-> IH2].
  rewrite after_all, before_none by done. split; [done|]. intros Hf. by rewrite Hf, (IH2 Hf).
Qed.

Lemma take_runs_Ok i a xa rs ri start taken next :
  byte_ordered (flat_map glyphs (runs_from start rs)) -> Forall (fun g => a <= glyph_index g) (flat_map glyphs (runs_from start rs)) ->
  exists k start',
    take_runs i a xa rs ri start taken next =
      Ok (taken ++ runs_of (fun gs => map (shift a xa) (before i gs)) (runs_from start rs),
          match after i (flat_map glyphs (runs_from start rs)) with g :: _ => gx g | [] => next end, ri + k, start') /\
    flat_map glyphs (runs_from start' (drop k rs)) = after i (flat_map glyphs (runs_from start rs)) /\
    forall f, f [] = [] -> runs_of f (runs_from start' (drop k rs)) = runs_of (fun gs => f (after i gs)) (runs_from start rs).
Proof.
  revert ri start taken. induction rs as [|r rs IH]; intros ri start taken Ho Ha.
  { exists 0, start. rewrite Nat.add_0_r. cbn. by rewrite app_nil_r. }
  cbn [runs_from flat_map glyphs] in Ho, Ha. set (gs := drop start (glyphs r)) in *.
  pose proof (byte_ordered_app _ _ Ho) as [Hg Hrs]. apply Forall_app in Ha as [Hag Hars].
  cbn [take_runs]. fold gs. rewrite (glyphs_below_before i gs Hg). pose proof (before_after i gs Hg) as E.
  assert (Htake : take (start + length (before i gs) - start) gs = before i gs).
  { replace (start + length (before i gs) - start) with (length (before i gs)) by lia. rewrite E at 2. apply take_app_length. }
  rewrite Htake, rebase_Ok by by apply bfilter_Forall_keep. cbn [obind].
  set (taken' := taken ++ run_of (font_id r) (map (shift a xa) (before i gs))).
  assert (Et : (if start <? start + length (before i gs) then Ok (taken ++ [mkRun (font_id r) (map (shift a xa) (before i gs))]) else Ok taken) = Ok taken').
  { subst taken'. destruct (before i gs) as [|g b]; cbn [length].
    - rewrite Nat.add_0_r, Nat.ltb_irrefl. cbn. by rewrite app_nil_r.
    - by rewrite (proj2 (Nat.ltb_lt _ _)) by lia. }
  rewrite Et. cbn [obind].
  assert (El : glyphs r !! (start + length (before i gs)) = head (after i gs)).
  { rewrite <- lookup_drop. fold gs. transitivity ((before i gs ++ after i gs) !! length (before i gs)); [by rewrite <- E|].
    rewrite lookup_app_r, Nat.sub_diag by lia. by destruct (after i gs). }
  rewrite El. cbn [runs_from flat_map glyphs]. fold gs. rewrite after_app. destruct (after i gs) as [|g s] eqn:Es; cbn [head].
  - destruct (IH (S ri) 0 taken') as (k & start' & E1 & E2 & E3); [by rewrite runs_from_0..|]. rewrite runs_from_0 in *.
    exists (S k), start'. cbn [drop]. rewrite E1. split_and!.
    + subst taken'. unfold runs_of. cbn [flat_map font_id glyphs]. rewrite app_assoc, Nat.add_succ_r. done.
    + exact E2.
    + intros f Hf. rewrite (E3 f Hf). unfold runs_of. cbn [flat_map font_id glyphs]. by rewrite Es, Hf.
  - exists 0, (start + length (before i gs)). rewrite Nat.add_0_r. cbn [drop runs_from flat_map glyphs app].
    assert (Hge : i <= glyph_index g) by (pose proof (after_Forall i gs) as H; rewrite Es in H; by inversion H).
    assert (Hall : Forall (fun g => i <= glyph_index g) (flat_map glyphs rs)).
    { rewrite E in Ho. rewrite <- app_assoc in Ho. apply byte_ordered_app in Ho as [_ Ho].
      apply StronglySorted_inv in Ho as [_ Ho]. apply Forall_app in Ho as [_ Ho]. eapply Forall_weaken; [|exact Ho]. cbn. lia. }
    pose proof (runs_of_all_after i (map (shift a xa)) rs Hall) as [_ Hb]. rewrite after_all by done.
    assert (Ed : drop (start + length (before i gs)) (glyphs r) = g :: s).
    { rewrite <- drop_drop. fold gs. transitivity (drop (length (before i gs)) (before i gs ++ g :: s)); [by rewrite <- E|].
      by rewrite drop_app_length. }
    rewrite Ed. split_and!.
    + unfold runs_of in Hb |- *. cbn [flat_map font_id glyphs]. rewrite (Hb eq_refl), app_nil_r. done.
    + done.
    + intros f Hf. pose proof (runs_of_all_after i f rs Hall) as [Ha' _]. unfold runs_of in *. cbn [flat_map font_id glyphs]. by rewrite Ha', Es.
Qed.

(** ** The cursor and the rest *)

Lemma boundary_in_rest pre t i : is_char_boundary (pre ++ t) i = true -> str_len pre <= i ->
  exists m r, t = m ++ r /\ str_len m = i - str_len pre.
Proof.
  intros (l & r & E & Hl)%is_char_boundary_spec Hi. apply app_eq_inv in E as [(k & -> & ->)|(k & -> & ->)].
  - rewrite str_len_app in Hi. assert (k = []) as -> by (apply str_len_nil; lia). rewrite app_nil_r. exists [], t. split; [done|]. cbn. lia.
  - rewrite str_len_app in Hl. exists k, r. split; [done|lia].
Qed.

Lemma after_after a b gs : a <= b -> after b (after a gs) = after b gs.
Proof.
  intros H. unfold after. induction gs as [|g gs IH]; [done|]. cbn.
  destruct (Nat.leb_spec a (glyph_index g)); cbn; destruct (Nat.leb_spec b (glyph_index g)); rewrite ?IH; done || lia.
Qed.

(** The two texts of a split, which are not cut when one is empty. *)
Lemma split_texts m r :
  (if str_len m =? str_len (m ++ r) then Ok (m ++ r) else let! (l, _) := str_split_at (m ++ r) (str_len m) in Ok l) = Ok m /\
  (if str_len m =? 0 then Ok (m ++ r) else let! (_, t) := str_split_at (m ++ r) (str_len m) in Ok t) = Ok r.
Proof.
  rewrite str_split_at_app. cbn [obind]. split.
  - destruct (Nat.eqb_spec (str_len m) (str_len (m ++ r))) as [E|]; [|done]. rewrite str_len_app in E.
    rewrite (str_len_nil r) by lia. by rewrite app_nil_r.
  - destruct (Nat.eqb_spec (str_len m) 0) as [E|]; [|done]. by rewrite (str_len_nil m).
Qed.

Lemma as_u32_small n : (Z.of_nat n < u32_limit)%Z -> as_u32 n = Z.of_nat n.
Proof. intros H. unfold as_u32. apply Z.mod_small. lia. Qed.

(** The lines the cursor is made for: positions in bytes fit, and so do the decorations. *)
Record line_ok (l : ShapedLine) : Prop := mkLineOk {
  lo_len : line_len (layout l) = str_len (text l);
  lo_small : (Z.of_nat (str_len (text l)) < u32_limit)%Z;
  lo_decs : dec_ok (decoration_runs l);
  lo_total : (dec_total (decoration_runs l) < u32_limit)%Z;
}.

Section Follows.
Context `{PartitionPointLaws}.

(** The cursor has taken what was split off to leave [rest]. *)
Record follows (c : ShapedLineCursor) (rest : ShapedLine) : Prop := mkFollows {
  fo_line : line_ok (line c);
  fo_ordered : byte_ordered (all_glyphs (layout (line c)));
  fo_none : unordered_remainder c = None;
  fo_layout : forall b, byte_index c <= b <= line_len (layout (line c)) ->
    layout_split_at (layout rest) (b - byte_index c) =
      Ok (layout_piece (layout (line c)) (byte_index c) b (x_offset c) (x_for_index (layout (line c)) b),
          layout_rest (layout (line c)) b (x_for_index (layout (line c)) b));
  fo_glyphs : flat_map glyphs (runs_from (cursor_glyph c) (drop (run_index c) (runs (layout (line c))))) = after (byte_index c) (all_glyphs (layout (line c)));
  fo_runs : forall f, f [] = [] ->
    runs_of f (runs_from (cursor_glyph c) (drop (run_index c) (runs (layout (line c))))) = runs_of (fun gs => f (after (byte_index c) gs)) (runs (layout (line c)));
  fo_text : exists pre, text (line c) = pre ++ text rest /\ str_len pre = byte_index c;
  fo_decs : decoration_runs rest = dec_from (Z.of_nat (byte_index c)) (decoration_offset c) (drop (decoration_index c) (decoration_runs (line c)));
  fo_offset : (0 <= decoration_offset c <= Z.of_nat (byte_index c))%Z;
  fo_total : (decoration_offset c + dec_total (drop (decoration_index c) (decoration_runs (line c))) < u32_limit)%Z;
  fo_straddles : dec_straddles (Z.of_nat (byte_index c)) (decoration_offset c) (drop (decoration_index c) (decoration_runs (line c)));
}.

Lemma cursor_follows l c : line_ok l -> cursor l = Some c -> byte_ordered (all_glyphs (layout l)) -> follows c l.
Proof.
  intros Hl Hc Ho. unfold cursor in Hc. rewrite (lo_len l Hl), Nat.eqb_refl in Hc. cbn [negb] in Hc.
  rewrite (proj2 (is_sorted_spec _) Ho) in Hc. injection Hc as <-.
  assert (Ha : forall gs, after 0 gs = gs) by (intros gs; apply after_all, Forall_elem; lia).
  split; cbn [line unordered_remainder byte_index run_index cursor_glyph decoration_index decoration_offset x_offset drop]; try done.
  - intros b Hb. rewrite Nat.sub_0_r. rewrite layout_split_Ok by (done || lia). done.
  - by rewrite runs_from_0, Ha.
  - intros f Hf. rewrite runs_from_0. apply runs_of_ext. intros gs. by rewrite Ha.
  - by exists [].
  - by rewrite dec_from_at.
  - by apply lo_total.
  - destruct (decoration_runs l); [done|]. intros ?. lia.
Qed.

Lemma dec_ok_drop k ds : dec_ok ds -> dec_ok (drop k ds).
Proof. apply Forall_drop. Qed.

(** The decorations of a piece and of what is left. *)
Lemma follows_decorations c rest b : follows c rest -> byte_index c <= b -> (Z.of_nat b < u32_limit)%Z ->
  exists ds ix o,
    take_decorations (as_u32 b) (as_u32 (byte_index c)) (drop (decoration_index c) (decoration_runs (line c)))
      (decoration_index c) (decoration_offset c) [] = Ok (ds, ix, o) /\
    (exists n, ofold (split_decoration (as_u32 (b - byte_index c))) (decoration_runs rest) ([], [], 0%Z) =
      Ok (ds, dec_from (Z.of_nat b) o (drop ix (decoration_runs (line c))), n)) /\
    (0 <= o <= Z.of_nat b)%Z /\ (o + dec_total (drop ix (decoration_runs (line c))) < u32_limit)%Z /\
    dec_straddles (Z.of_nat b) o (drop ix (decoration_runs (line c))).
Proof.
  intros Hf Hb Hs. pose proof (dec_ok_drop (decoration_index c) _ (lo_decs _ (fo_line _ _ Hf))) as Hok.
  pose proof (fo_offset _ _ Hf) as Ho. pose proof (fo_total _ _ Hf) as Ht. pose proof (fo_straddles _ _ Hf) as Hst.
  set (a := Z.of_nat (byte_index c)) in *. set (ds := drop _ _) in Hok, Ht, Hst.
  destruct (take_decorations_Ok (Z.of_nat b) a ds (decoration_index c) (decoration_offset c) []) as (k & o & E & H1 & H2 & H3 & H4 & H5); try done; try lia.
  rewrite Z.max_r in E, H5 by lia. rewrite !as_u32_small by lia. exists (dec_left (Z.of_nat b) a (dec_from a (decoration_offset c) ds)), (decoration_index c + k), o.
  rewrite <- drop_drop. fold ds. split_and!; try done; try lia. rewrite (fo_decs _ _ Hf). fold a ds.
  exists (0 + dec_total (dec_from a (decoration_offset c) ds))%Z.
  pose proof (dec_total_from a (decoration_offset c) ds Hok Hst).
  rewrite split_decorations by (try apply dec_ok_from; done || lia). cbn [app].
  rewrite H5, <- (dec_left_shift a (Z.of_nat b) a), <- (dec_right_shift a (Z.of_nat b) a), Z.sub_diag. by rewrite Nat2Z.inj_sub.
Qed.

Lemma layout_rest_again l b x : byte_ordered (all_glyphs l) -> b <= line_len l -> forall b', b <= b' <= line_len l ->
  layout_split_at (layout_rest l b x) (b' - b) = Ok (layout_piece l b b' x (x_for_index l b'), layout_rest l b' (x_for_index l b')).
Proof. intros Hl Hb b' Hb'. by apply layout_rest_split. Qed.

(** Taking up to a boundary gives the left part of the split, and follows the right. *)
Lemma take_until_Ok c rest b : follows c rest -> byte_index c <= b <= line_len (layout (line c)) -> is_char_boundary (text (line c)) b = true ->
  exists c' piece rest', take_until c b = Ok (c', piece) /\ line_split_at rest (b - byte_index c) = Ok (piece, rest') /\
    follows c' rest' /\ byte_index c' = b /\ line c' = line c /\ x_offset c' = x_for_index (layout (line c)) b /\ text rest = text piece ++ text rest'.
Proof.
  intros Hf Hb Hbd. pose proof (fo_line _ _ Hf) as Hl. pose proof (lo_len _ Hl) as Hlen. pose proof (lo_small _ Hl) as Hsm.
  destruct (follows_decorations c rest b Hf) as (ds & ix & o & Ed & (n & Es) & Ho & Ht & Hst); [lia..|].
  destruct (fo_text _ _ Hf) as (pre & Etx & Hpre). rewrite Etx in Hbd.
  destruct (boundary_in_rest _ _ _ Hbd) as (m & r & Em & Hm); [lia|].
  pose proof (fo_glyphs _ _ Hf) as Hg. set (y := layout (line c)) in *. set (a := byte_index c) in *.
  destruct (take_runs_Ok b a (x_offset c) (drop (run_index c) (runs y)) (run_index c) (cursor_glyph c) [] (line_width y)) as (k & start' & Er & Eg & Ef).
  { rewrite Hg. apply byte_ordered_filter. apply Hf. }
  { rewrite Hg. apply after_Forall. }
  assert (Eaa : after b (after a (all_glyphs y)) = after b (all_glyphs y)) by (apply after_after; lia).
  rewrite Hg, Eaa in Er, Eg. rewrite <- x_for_index_head in Er. cbn [app] in Er.
  pose proof (fo_runs _ _ Hf (fun gs => map (shift a (x_offset c)) (before b gs)) eq_refl) as Hr. fold y a in Hr. rewrite Hr in Er.
  exists (mkCursor (line c) None b (run_index c + k) start' ix o (x_for_index y b)),
    (mkShaped (layout_piece y a b (x_offset c) (x_for_index y b)) m ds),
    (mkShaped (layout_rest y b (x_for_index y b)) r (dec_from (Z.of_nat b) o (drop ix (decoration_runs (line c))))).
  destruct (split_texts m r) as [Et1 Et2]. split_and!; [| | |done|done|done|done].
  - unfold take_until. fold a y. rewrite (proj2 (Nat.leb_le a b)), (proj2 (Nat.leb_le b _)) by lia. rewrite Etx, Hbd, (fo_none _ _ Hf).
    cbn [negb]. rewrite Er. cbn [obind]. rewrite Ed. cbn [obind]. rewrite Em, <- Hpre.
    replace b with (str_len pre + str_len m) at 1 by lia. rewrite str_slice_app. cbn [obind]. unfold layout_piece. by rewrite Hpre.
  - unfold line_split_at. rewrite (fo_layout _ _ Hf) by done. cbn [obind]. rewrite Es. cbn [obind]. fold a. rewrite <- Hpre, <- Hm, Em.
    by rewrite Et1, Et2.
  - split; cbn [line unordered_remainder byte_index run_index cursor_glyph decoration_index decoration_offset x_offset layout text decoration_runs]; try done; try apply Hf.
    + apply layout_rest_again; [apply Hf|fold y; lia].
    + fold y. rewrite <- drop_drop. by rewrite Eg.
    + intros f Hf0. fold y. rewrite <- drop_drop. rewrite (Ef f Hf0). pose proof (fo_runs _ _ Hf (fun gs => f (after b gs))) as Hr'. fold y a in Hr'. rewrite Hr' by done.
      apply runs_of_ext. intros gs. f_equal. apply after_after. lia.
    + exists (pre ++ m). rewrite Etx, Em, app_assoc. split; [done|]. rewrite str_len_app. lia.
Qed.
End Follows.

(** ** The theorems *)

Fixpoint cuts_ok (l : ShapedLine) (a : nat) (cuts : list nat) : Prop :=
  match cuts with
  | [] => True
  | i :: cuts => a <= i <= line_len (layout l) /\ is_char_boundary (text l) i = true /\ cuts_ok l i cuts
  end.

Section Equivalence.
Context `{PartitionPointLaws}.

Lemma take_all_Ok cuts c rest : follows c rest -> cuts_ok (line c) (byte_index c) cuts ->
  exists pieces c' rest', take_all c cuts = Ok (pieces, c') /\ split_all rest (byte_index c) cuts = Ok (pieces, rest') /\
    text rest = flat_map text pieces ++ text rest' /\ x_offset c' = match list.last cuts with Some i => x_for_index (layout (line c)) i | None => x_offset c end.
Proof.
  revert c rest. induction cuts as [|i cuts IH]; intros c rest Hf Hc; cbn [take_all split_all].
  { by exists [], c, rest. }
  destruct Hc as (Hi & Hb & Hc). destruct (take_until_Ok c rest i Hf Hi Hb) as (c1 & piece & rest1 & E1 & E2 & Hf1 & Ei & El & Ex & Et).
  rewrite E1, E2. cbn [obind]. rewrite <- El, <- Ei in Hc. destruct (IH c1 rest1 Hf1 Hc) as (pieces & c2 & rest2 & E3 & E4 & Et2 & Ex2).
  rewrite Ei in E4. rewrite E3, E4. exists (piece :: pieces), c2, rest2. cbn [obind flat_map]. split_and!; [done|done| |].
  - by rewrite Et, Et2, app_assoc.
  - rewrite Ex2, El, Ex. destruct cuts as [|j cuts]; [done|]. change (list.last (i :: j :: cuts)) with (list.last (j :: cuts)).
    destruct (list.last (j :: cuts)) eqn:E; [done|]. by apply list.last_None in E.
Qed.

(** Without byte order the cursor splits. *)
Lemma take_all_unordered cuts c rest : unordered_remainder c = Some rest -> cuts_ok (line c) (byte_index c) cuts ->
  (let! (pieces, _) := take_all c cuts in Ok pieces) = (let! (pieces, _) := split_all rest (byte_index c) cuts in Ok pieces).
Proof.
  revert c rest. induction cuts as [|i cuts IH]; intros c rest Hf Hc; cbn [take_all split_all]; [done|].
  destruct Hc as ([H1 H2] & Hb & Hc). unfold take_until. rewrite Hf, Hb, (proj2 (Nat.leb_le _ _) H1), (proj2 (Nat.leb_le _ _) H2). cbn [negb].
  destruct (line_split_at rest (i - byte_index c)) as [[piece rest1]| |]; [|done..]. cbn [obind].
  specialize (IH (mkCursor (line c) (Some rest1) i (run_index c) (cursor_glyph c) (decoration_index c) (decoration_offset c) (x_for_index (layout (line c)) i)) rest1 eq_refl Hc).
  cbn [byte_index] in IH. destruct (take_all _ cuts) as [[ps c']| |], (split_all rest1 i cuts) as [[ps' r']| |]; cbn [obind] in *; congruence.
Qed.

(** At increasing character boundaries, the cursor gives the very pieces that splitting the rest of the line again and again gives: text, glyphs with their positions and bytes counted from the piece's start, widths and decorations; and with the glyphs in byte order neither panics, the pieces' texts make up the text taken, and the cursor's offset is the position of the last boundary. *)
Theorem cursor_splits_correct (l : ShapedLine) (c : ShapedLineCursor) (cuts : list nat)
    (Hl : line_ok l) (Hc : cursor l = Some c) (Hcuts : cuts_ok l 0 cuts) :
  (let! (pieces, _) := take_all c cuts in Ok pieces) = (let! (pieces, _) := split_all l 0 cuts in Ok pieces) /\
  (byte_ordered (all_glyphs (layout l)) ->
    exists pieces c' rest, take_all c cuts = Ok (pieces, c') /\ split_all l 0 cuts = Ok (pieces, rest) /\
      text l = flat_map text pieces ++ text rest /\
      x_offset c' = match list.last cuts with Some i => x_for_index (layout l) i | None => 0%Z end).
Proof.
  assert (Hc' : line c = l /\ byte_index c = 0 /\ x_offset c = 0%Z /\ unordered_remainder c = if is_sorted (map glyph_index (all_glyphs (layout l))) then None else Some l).
  { unfold cursor in Hc. destruct (negb _); [done|]. injection Hc as <-. done. }
  destruct Hc' as (El & Eb & Ex & Eu).
  assert (Hord : byte_ordered (all_glyphs (layout l)) -> exists pieces c' rest, take_all c cuts = Ok (pieces, c') /\ split_all l 0 cuts = Ok (pieces, rest) /\
      text l = flat_map text pieces ++ text rest /\ x_offset c' = match list.last cuts with Some i => x_for_index (layout l) i | None => 0%Z end).
  { intros Ho. pose proof (cursor_follows l c Hl Hc Ho) as Hf. rewrite <- El, <- Eb in Hcuts.
    destruct (take_all_Ok cuts c l Hf Hcuts) as (pieces & c' & rest & E1 & E2 & E3 & E4). exists pieces, c', rest.
    rewrite <- Eb at 1. split_and!; [done|done|done|]. rewrite E4, El, Ex. done. }
  split; [|exact Hord]. destruct (is_sorted (map glyph_index (all_glyphs (layout l)))) eqn:Es.
  - apply is_sorted_spec in Es. destruct (Hord Es) as (pieces & c' & rest & -> & -> & _). done.
  - rewrite <- Eb. apply take_all_unordered; [done|by rewrite El, Eb].
Qed.
End Equivalence.

(** ** Examples *)

Module TestLine.

(** Counting the prefix. *)
#[local] Instance linear_partition : PartitionPoint :=
  fun A p => fix go l := match l with [] => 0 | a :: l => if p a then S (go l) else 0 end.

Lemma linear_partition_laws : PartitionPointLaws.
Proof.
  split.
  - intros A p l r Hl Hr. induction Hl as [|a l Ha _ IH]; cbn.
    + destruct Hr as [|a r Ha _]; [done|]. cbn. by rewrite Ha.
    + rewrite Ha. f_equal. exact IH.
  - intros A p l. induction l as [|a l IH]; [done|]. cbn. destruct (p a); [|lia]. apply le_n_S. exact IH.
Qed.

Definition glyph (i : nat) (x : Pixels) : ShapedGlyph := mkGlyph 0 (mkPoint x 0) i false.
Definition black : Hsla := mkHsla 0 0 0 1.
Definition dec (n : Z) : DecorationRun := mkDecoration n black None None None.

(** Four letters in two runs, with a decoration across the second boundary. *)
Definition abcd : ShapedLine :=
  mkShaped (mkLayout 16 40 12 4 [mkRun 0 [glyph 0 0; glyph 1 10; glyph 2 20]; mkRun 1 [glyph 3 30]] 4) (lit "abcd") [dec 3; dec 0; dec 1].

Example abcd_pieces :
  option_map (fun c => let! (ps, c) := take_all c [2; 2; 4] in Ok (map text ps, map (fun p => line_width (layout p)) ps, map (fun p => map dec_len (decoration_runs p)) ps, x_offset c)) (cursor abcd)
  = Some (Ok ([lit "ab"; []; lit "cd"], [20; 0; 20]%Z, [[2]; []; [1; 0; 1]]%Z, 40%Z)).
Proof. by vm_compute. Qed.

(** A run shaped from right to left is not partitioned: whatever [partition_point] answers,
    splitting inside it panics or leaves every glyph on the left. *)
Example right_to_left_split {P : PartitionPoint} (l : LineLayout) :
  @PartitionPointLaws P -> runs l = [mkRun 0 [glyph 4 0; glyph 2 10; glyph 0 20]] -> line_len l = 6 ->
  layout_split_at l 3 = Panic \/ exists left right, layout_split_at l 3 = Ok (left, right) /\ all_glyphs left = all_glyphs l /\ runs right = [].
Proof.
  intros HP Hr Hn. unfold layout_split_at. rewrite Hr, Hn. cbn [traverse]. unfold split_run. cbn [glyphs length].
  pose proof (partition_point_le _ (fun g => glyph_index g <? 3) [glyph 4 0; glyph 2 10; glyph 0 20]) as Hle. cbn [length] in Hle.
  destruct (partition_point _ _) as [|[|[|[|n]]]]; [left; reflexivity..| |lia].
  right. eexists _, _. split; [reflexivity|]. unfold all_glyphs. rewrite Hr. done.
Qed.

Lemma abcd_ok : line_ok abcd.
Proof. split; try by vm_compute. repeat constructor; by vm_compute. Qed.

Lemma cursor_splits_correct_witness :
  exists c pieces c' rest, cursor abcd = Some c /\ take_all c [2; 4] = Ok (pieces, c') /\ split_all abcd 0 [2; 4] = Ok (pieces, rest).
Proof.
  destruct (cursor abcd) as [c|] eqn:E; [|by vm_compute in E].
  destruct (cursor_splits_correct (H0 := linear_partition_laws) abcd c [2; 4] abcd_ok E) as [_ Ho].
  - vm_compute. repeat split; lia.
  - destruct Ho as (pieces & c' & rest & H1 & H2 & _); [apply is_sorted_spec; by vm_compute|]. by exists c, pieces, c', rest.
Defined.
End TestLine.
