(* ===== verification/LineQueries.v ===== *)
(** * LineQueries: bytes and positions in a shaped line

    What [index_for_x], [closest_index_for_x] and [x_for_index] answer, and that in a
    wrapped line [position_for_index] and [index_for_position] undo each other. *)

From Stdlib Require Import NArith ZArith.
From stdpp Require Import base list option numbers sorting sets.
From S2P Require Import Prelude Text Utf8 Geometry LineLayout.

#[local] Set Warnings "-register-all,-clear-no-such-hyp".

(** Glyphs from left to right, each further on in the text. *)
Definition left_to_right (gs : list ShapedGlyph) : Prop :=
  StronglySorted (fun a b => glyph_index a < glyph_index b /\ (gx a < gx b)%Z) gs.

(** A line shaped from left to right from position zero, and within its width and length. *)
Record line_shaped (l : LineLayout) : Prop := mkLineShaped {
  ls_order : left_to_right (all_glyphs l);
  ls_first : forall g, head (all_glyphs l) = Some g -> glyph_index g = 0 /\ gx g = 0%Z;
  ls_within : Forall (fun g => glyph_index g < line_len l /\ (gx g < line_width l)%Z) (all_glyphs l);
  ls_empty : all_glyphs l = [] -> line_width l = 0%Z;
}.

Lemma left_to_right_app a b : left_to_right (a ++ b) ->
  left_to_right a /\ left_to_right b /\ forall g h, g ∈ a -> h ∈ b -> glyph_index g < glyph_index h /\ (gx g < gx h)%Z.
Proof.
  unfold left_to_right. induction a as [|x a IH]; cbn [app].
  - intros H. split_and!; [constructor|done|]. intros g h Hg. by apply elem_of_nil in Hg.
  - intros [H Hx]%StronglySorted_inv. destruct (IH H) as (Ha & Hb & Hab). apply Forall_app in Hx as [Hxa Hxb]. split_and!.
    + by constructor.
    + done.
    + intros g h [->|Hg]%elem_of_cons Hh; [|by apply Hab]. rewrite Forall_elem in Hxb. by apply Hxb.
Qed.

(** The glyphs on either side of one. *)
Lemma left_to_right_split l g : line_shaped l -> g ∈ all_glyphs l ->
  exists pre post, all_glyphs l = pre ++ g :: post /\
    (forall h, h ∈ pre -> glyph_index h < glyph_index g /\ (gx h < gx g)%Z) /\
    (forall h, h ∈ post -> glyph_index g < glyph_index h /\ (gx g < gx h)%Z).
Proof.
  intros Hl (pre & post & E)%list_elem_of_split. exists pre, post. pose proof (ls_order l Hl) as Ho. rewrite E in Ho.
  apply left_to_right_app in Ho as (_ & Hg & H1). split_and!; [done| |].
  - intros h Hh. apply H1; [done|left].
  - intros h Hh. apply StronglySorted_inv in Hg as [_ Hg]. rewrite Forall_elem in Hg. by apply Hg.
Qed.

Lemma bfind_app_none {A} (p : A -> bool) a b : (forall x, x ∈ a -> p x = false) -> List.find p (a ++ b) = List.find p b.
Proof. induction a as [|x a IH]; [done|]. intros H. cbn. rewrite H by left. apply IH. intros y Hy. apply H. by right. Qed.

Lemma x_for_glyph l g : line_shaped l -> g ∈ all_glyphs l -> x_for_index l (glyph_index g) = gx g.
Proof.
  intros Hl Hg. destruct (left_to_right_split l g Hl Hg) as (pre & post & E & Hpre & _). unfold x_for_index. rewrite E.
  rewrite bfind_app_none by (intros h Hh; apply Nat.leb_gt; by apply Hpre). cbn. by rewrite Nat.leb_refl.
Qed.

Lemma x_for_end l : line_shaped l -> x_for_index l (line_len l) = line_width l.
Proof.
  intros Hl. unfold x_for_index. rewrite <- (app_nil_r (all_glyphs l)), bfind_app_none; [done|].
  intros g Hg. apply Nat.leb_gt. by apply (proj1 (Forall_elem _ _) (ls_within l Hl)).
Qed.

Lemma index_for_glyph l g : line_shaped l -> g ∈ all_glyphs l -> index_for_x l (gx g) = Some (glyph_index g).
Proof.
  intros Hl Hg. destruct (left_to_right_split l g Hl Hg) as (pre & post & E & _ & Hpost). unfold index_for_x.
  destruct (proj1 (Forall_elem _ _) (ls_within l Hl) g Hg) as [_ Hw]. rewrite (proj2 (Z.leb_gt _ _) Hw), E, rev_app_distr. cbn [rev].
  rewrite <- app_assoc, bfind_app_none; [cbn; by rewrite Z.leb_refl|].
  intros h Hh. apply Z.leb_gt. apply Hpost. by apply list_elem_of_In, in_rev, list_elem_of_In.
Qed.

Lemma closest_past x i px0 a g b : (forall h, h ∈ a -> gx h < x)%Z -> (x <= gx g)%Z ->
  closest_loop x i px0 (a ++ g :: b) =
    let '(j, y) := match list.last a with Some h => (glyph_index h, gx h) | None => (i, px0) end in
    Some (if (gx g - x <? x - y)%Z then glyph_index g else j).
Proof.
  intros Ha Hg. revert i px0. induction a as [|h a IH]; intros i px0; cbn [app closest_loop].
  - by rewrite (proj2 (Z.leb_le _ _) Hg).
  - rewrite (proj2 (Z.leb_gt _ _)) by (apply Ha; left). rewrite IH by (intros; apply Ha; by right).
    destruct a as [|h' a]; [done|]. change (list.last (h :: h' :: a)) with (list.last (h' :: a)).
    destruct (list.last (h' :: a)) eqn:E; [done|]. by apply list.last_None in E.
Qed.

Lemma closest_for_glyph l g : line_shaped l -> g ∈ all_glyphs l -> closest_index_for_x l (gx g) = glyph_index g.
Proof.
  intros Hl Hg. destruct (left_to_right_split l g Hl Hg) as (pre & post & E & Hpre & _). unfold closest_index_for_x. rewrite E.
  rewrite closest_past by (try (intros h Hh; apply Hpre); done || lia). destruct (list.last pre) as [h|] eqn:El.
  - apply list.last_Some_elem_of in El. destruct (Hpre h El) as [_ Hx]. by rewrite (proj2 (Z.ltb_lt _ _)) by lia.
  - apply list.last_None in El as ->. destruct (ls_first l Hl g) as [-> ->]; [by rewrite E|]. done.
Qed.

(** Known places: the glyphs and the end. *)
Definition known (l : LineLayout) (i : nat) : Prop := i = line_len l \/ exists g, g ∈ all_glyphs l /\ glyph_index g = i.

Lemma known_after l i g : line_shaped l -> known l i -> g ∈ all_glyphs l -> glyph_index g < i -> (gx g < x_for_index l i)%Z.
Proof.
  intros Hl [->|(h & Hh & <-)] Hg Hlt.
  - rewrite x_for_end by done. by apply (proj1 (Forall_elem _ _) (ls_within l Hl)).
  - rewrite x_for_glyph by done. destruct (left_to_right_split l g Hl Hg) as (pre & post & E & Hpre & Hpost). rewrite E in Hh.
    apply elem_of_app in Hh as [Hh|[->|Hh]%elem_of_cons]; [destruct (Hpre h Hh); lia|lia|by apply Hpost].
Qed.

(** ** Rows *)

(** The glyphs that begin the rows after the first. *)
Definition row_glyphs (w : WrappedLineLayout) (gs : list ShapedGlyph) : Prop :=
  Forall2 (fun b g => boundary_glyph (unwrapped_layout w) b = Ok g) (wrap_boundaries w) gs.

Definition row_start (gs : list ShapedGlyph) (row : nat) : nat * Pixels :=
  match row with 0 => (0, 0%Z) | S r => match gs !! r with Some g => (glyph_index g, gx g) | None => (0, 0%Z) end end.

Definition row_end (l : LineLayout) (gs : list ShapedGlyph) (row : nat) : nat * Pixels :=
  match gs !! row with Some g => (glyph_index g, gx g) | None => (line_len l, line_width l) end.

Lemma row_of_mul r h : (0 < h)%Z -> (Z.of_nat r <= usize_max)%Z -> row_of (Z.of_nat r * h) h = r.
Proof.
  intros Hh Hr. unfold row_of. destruct (Z.eqb_spec h 0); [lia|]. rewrite Z.quot_mul by lia. rewrite Z.min_r by lia. apply Nat2Z.id.
Qed.

Lemma boundary_glyph_in l b g : boundary_glyph l b = Ok g -> g ∈ all_glyphs l.
Proof.
  unfold boundary_glyph, index. destruct (runs l !! run_ix b) as [r|] eqn:Er; [|done]. cbn [unwrap obind].
  destruct (glyphs r !! glyph_ix b) as [g'|] eqn:Eg; [|done]. intros [= ->]. unfold all_glyphs. apply list_elem_of_In, in_flat_map.
  exists r. split; apply list_elem_of_In; by eapply list_elem_of_lookup_2.
Qed.

Section Rows.
Context (w : WrappedLineLayout) (gs : list ShapedGlyph) (line_height : Pixels).
Local Abbreviation l := (unwrapped_layout w).
Context (Hl : line_shaped l) (Hrows : row_glyphs w gs) (Hgs : left_to_right gs) (Hh : (0 < line_height)%Z).
Context (Hfew : (Z.of_nat (length gs) <= usize_max)%Z).

Lemma row_lookup row b : wrap_boundaries w !! row = Some b -> exists g, gs !! row = Some g /\ boundary_glyph l b = Ok g.
Proof using Hrows. intros E. destruct (Forall2_lookup_l _ _ _ _ _ Hrows E) as (g & Eg & H). by exists g. Qed.

Lemma row_lookup_none row : wrap_boundaries w !! row = None <-> gs !! row = None.
Proof using Hrows. rewrite !lookup_ge_None. pose proof (Forall2_length _ _ _ Hrows). lia. Qed.

(** What [index_for_position] answers on a row. *)
Lemma index_for_row closest row x : row <= length gs ->
  index_for_position_ closest w (mkPoint x (Z.of_nat row * line_height)) line_height =
    Ok (let x := (x + (row_start gs row).2)%Z in
        if (x <? (row_start gs row).2)%Z then inr (row_start gs row).1
        else if ((row_end l gs row).2 <=? x)%Z then inr (row_end l gs row).1
        else if closest then inl (closest_index_for_x l x)
        else match index_for_x l x with Some i => inl i | None => inr (row_end l gs row).1 end).
Proof using Hrows Hh Hfew.
  intros Hrow. unfold index_for_position_. cbn [py px]. rewrite row_of_mul by lia.
  assert (Hs : match row with
               | 0 => Ok (Some (0, 0%Z))
               | S r => match wrap_boundaries w !! r with None => Ok None | Some b => let! g := boundary_glyph l b in Ok (Some (glyph_index g, gx g)) end
               end = Ok (Some (row_start gs row))).
  { destruct row as [|r]; [done|]. destruct (wrap_boundaries w !! r) as [b|] eqn:E.
    - destruct (row_lookup r b E) as (g & Eg & Hb). rewrite Hb. cbn. by rewrite Eg.
    - apply row_lookup_none, lookup_ge_None in E. lia. }
  rewrite Hs. cbn [obind].
  assert (He : match wrap_boundaries w !! row with
               | Some b => let! g := boundary_glyph l b in Ok (glyph_index g, gx g)
               | None => Ok (line_len l, line_width l)
               end = Ok (row_end l gs row)).
  { unfold row_end. destruct (wrap_boundaries w !! row) as [b|] eqn:E.
    - destruct (row_lookup row b E) as (g & Eg & Hb). by rewrite Hb, Eg.
    - apply row_lookup_none in E. by rewrite E. }
  destruct (row_start gs row) as [si sx]. rewrite He. destruct (row_end l gs row) as [ei ex]. cbn [obind fst snd].
  destruct (x + sx <? sx)%Z; [done|]. destruct (ex <=? x + sx)%Z; [done|]. by destruct closest.
Qed.

(** Which row [position_for_index] puts an index in: the first that does not end before it. *)
Lemma position_loop_row i row done_ bs rest :
  wrap_boundaries w = done_ ++ bs -> gs = take (length done_) gs ++ rest -> length done_ = row ->
  (row_start gs row).1 <= i <= line_len l -> Forall (fun g => (row_start gs row).1 <= glyph_index g) rest ->
  exists r, row <= r <= length gs /\ (row_start gs r).1 <= i <= (row_end l gs r).1 /\
    position_loop w line_height i row (row_start gs row).1 bs =
      Ok (Some (mkPoint (x_for_index l i - x_for_index l (row_start gs r).1) (Z.of_nat r * line_height))).
Proof using Hrows Hgs.
  revert row done_ rest. induction bs as [|b bs IH]; intros row done_ rest Eb Eg Hrow Hi Hrest.
  - exists row. assert (Hlen : length gs = row) by (rewrite <- (Forall2_length _ _ _ Hrows), Eb, app_nil_r; done).
    assert (Hnone : gs !! row = None) by (apply lookup_ge_None; lia).
    split_and!; [lia|lia|lia|unfold row_end; rewrite Hnone; cbn; lia|].
    cbn [position_loop]. by rewrite (proj2 (Nat.ltb_ge _ _)), (proj2 (Nat.ltb_ge _ _)) by lia.
  - assert (El : wrap_boundaries w !! row = Some b) by (rewrite Eb, lookup_app_r, <- Hrow, Nat.sub_diag by lia; done).
    destruct (row_lookup row b El) as (g & Egg & Hb). pose proof (lookup_lt_Some _ _ _ Egg) as Hlt.
    cbn [position_loop]. rewrite Hb. cbn [obind]. rewrite (proj2 (Nat.ltb_ge _ _)) by lia.
    destruct (Nat.ltb_spec (glyph_index g) i) as [Hgi|Hgi].
    + assert (Es : row_start gs (S row) = (glyph_index g, gx g)) by (cbn; by rewrite Egg).
      assert (Hdrop : gs = take (S row) gs ++ drop (S row) gs) by by rewrite take_drop.
      assert (Hsplit : gs = take row gs ++ g :: drop (S row) gs) by (symmetry; by apply take_drop_middle).
      destruct (IH (S row) (done_ ++ [b]) (drop (S row) gs)) as (r & Hr & Hri & E).
      * by rewrite Eb, <- app_assoc.
      * rewrite length_app, Hrow. cbn. by rewrite Nat.add_1_r.
      * rewrite length_app. cbn. lia.
      * rewrite Es. cbn. lia.
      * rewrite Es. cbn [fst]. pose proof Hgs as Hs. rewrite Hsplit in Hs. apply left_to_right_app in Hs as (_ & Hs & _).
        apply StronglySorted_inv in Hs as [_ Hs]. eapply Forall_weaken; [|exact Hs]. cbn. lia.
      * rewrite Es in E. cbn [fst] in E. exists r. split_and!; [lia|lia|lia|lia|exact E].
    + exists row. split_and!; [lia|lia|lia|unfold row_end; rewrite Egg; cbn; lia|done].
Qed.
End Rows.

(** ** The theorems *)

(** The nearest of the glyphs to a position at or before one of them. *)
Lemma closest_nearest l x g0 : line_shaped l -> g0 ∈ all_glyphs l -> (x <= gx g0)%Z -> (0 <= x)%Z ->
  exists g, g ∈ all_glyphs l /\ closest_index_for_x l x = glyph_index g /\
    forall h, h ∈ all_glyphs l -> (Z.abs (gx g - x) <= Z.abs (gx h - x))%Z.
Proof.
  intros Hl Hg0 Hx H0.
  assert (Hsplit : exists a g b, all_glyphs l = a ++ g :: b /\ (forall h, h ∈ a -> (gx h < x)%Z) /\ (x <= gx g)%Z).
  { clear Hl. induction (all_glyphs l) as [|g gs IH]; [by apply elem_of_nil in Hg0|].
    destruct (Z.leb_spec x (gx g)) as [Hg|Hg].
    - exists [], g, gs. split_and!; [done| |done]. intros h Hh. by apply elem_of_nil in Hh.
    - apply elem_of_cons in Hg0 as [->|Hg0]; [lia|]. destruct (IH Hg0) as (a & g' & b & -> & Ha & Hb). exists (g :: a), g', b.
      split_and!; [done| |done]. intros h [->|Hh]%elem_of_cons; [done|by apply Ha]. }
  destruct Hsplit as (a & g & b & E & Ha & Hg). pose proof (ls_order l Hl) as Ho. rewrite E in Ho.
  apply left_to_right_app in Ho as (Hao & Hgb & Hab).
  assert (Hb : forall h, h ∈ g :: b -> (gx g <= gx h)%Z).
  { intros h [->|Hh]%elem_of_cons; [lia|]. apply StronglySorted_inv in Hgb as [_ Hgb]. rewrite Forall_elem in Hgb. specialize (Hgb h Hh). lia. }
  unfold closest_index_for_x. rewrite E, closest_past by done. destruct (list.last a) as [p|] eqn:Ep.
  - apply list.last_Some in Ep as (a' & ->).
    assert (Hp : forall h, h ∈ a' ++ [p] -> (gx h <= gx p)%Z).
    { intros h [Hh|Hh]%elem_of_app; [|apply list_elem_of_singleton in Hh as ->; lia].
      apply left_to_right_app in Hao as (_ & _ & Hap). destruct (Hap h p Hh); [by left|lia]. }
    assert (Hpx : (gx p < x)%Z) by (apply Ha, elem_of_app; right; by left).
    destruct (Z.ltb_spec (gx g - x) (x - gx p)); [exists g|exists p]; (split_and!; [set_solver|done|]);
      intros h [Hh|Hh]%elem_of_app; try (specialize (Hp h Hh)); try (specialize (Hb h Hh)); lia.
  - apply list.last_None in Ep as ->. exists g. cbn [app] in *. destruct (ls_first l Hl g) as [Ei Ex]; [by rewrite E|].
    split_and!; [by left|rewrite Ei; by destruct (_ <? _)%Z|]. intros h Hh. specialize (Hb h Hh). lia.
Qed.

(** In a line shaped from left to right, a position within the width is answered with the last glyph that begins at or before it, or the start of the line; the closest index is that of the nearest glyph, for positions up to the last glyph, and after it the end of the line, except in a line of one byte, where it is the nearer of the two ends; and a glyph's own position is answered with that glyph by both. *)
Theorem line_queries_correct (l : LineLayout) (x : Pixels) (Hl : line_shaped l) :
  match index_for_x l x with
  | None => (line_width l <= x)%Z
  | Some i => (x < line_width l)%Z /\
      ((exists g, g ∈ all_glyphs l /\ glyph_index g = i /\ (gx g <= x)%Z /\ forall h, h ∈ all_glyphs l -> (gx h <= x)%Z -> (gx h <= gx g)%Z) \/
       i = 0 /\ forall h, h ∈ all_glyphs l -> (x < gx h)%Z)
  end /\
  ((0 <= x)%Z -> (exists g, g ∈ all_glyphs l /\ (x <= gx g)%Z) ->
    exists g, g ∈ all_glyphs l /\ closest_index_for_x l x = glyph_index g /\
      forall h, h ∈ all_glyphs l -> (Z.abs (gx g - x) <= Z.abs (gx h - x))%Z) /\
  ((forall g, g ∈ all_glyphs l -> (gx g < x)%Z) ->
    closest_index_for_x l x = if line_len l =? 1 then (if (line_width l <? 2 * x)%Z then 1 else 0) else line_len l) /\
  (forall g, g ∈ all_glyphs l -> x_for_index l (glyph_index g) = gx g /\
     index_for_x l (gx g) = Some (glyph_index g) /\ closest_index_for_x l (gx g) = glyph_index g).
Proof.
  split_and!.
  - unfold index_for_x. destruct (Z.leb_spec (line_width l) x) as [|Hx]; [done|]. split; [done|].
    destruct (List.find _ (rev (all_glyphs l))) as [g|] eqn:E.
    + left. exists g. destruct (find_some _ _ E) as [Hin%in_rev%list_elem_of_In Hg%Z.leb_le]. split_and!; [done|done|done|].
      destruct (left_to_right_split l g Hl Hin) as (pre & post & El & Hpre & Hpost). intros h Hh Hhx. rewrite El in Hh.
      apply elem_of_app in Hh as [Hh|[->|Hh]%elem_of_cons]; [destruct (Hpre h Hh); lia|done|].
      assert (Hlast : List.find (fun g => (gx g <=? x)%Z) (rev post) = None -> False).
      { intros En. pose proof (find_none _ _ En h) as E0. cbn beta in E0. rewrite (proj2 (Z.leb_le _ _) Hhx) in E0.
        by discriminate E0; apply in_rev; rewrite rev_involutive; apply list_elem_of_In. }
      destruct (List.find (fun g => (gx g <=? x)%Z) (rev post)) as [g'|] eqn:Ep; [|by destruct Hlast].
      rewrite El, rev_app_distr in E. cbn [rev] in E. rewrite <- app_assoc in E.
      assert (Ef : forall a b, List.find (fun g => (gx g <=? x)%Z) a = Some g' -> List.find (fun g => (gx g <=? x)%Z) (a ++ b) = Some g').
      { clear. induction a as [|y a IH]; [done|]. cbn. intros b. destruct (gx y <=? x)%Z; [done|apply IH]. }
      rewrite (Ef _ _ Ep) in E. injection E as ->. apply find_some in Ep as [Hp%in_rev%list_elem_of_In _]. destruct (Hpost g Hp). lia.
    + right. split; [done|]. intros h Hh. apply Z.leb_gt. apply (find_none _ _ E). by apply in_rev; rewrite rev_involutive; apply list_elem_of_In.
  - intros H0 (g0 & Hg0 & Hx). by apply (closest_nearest l x g0).
  - intros Hall. unfold closest_index_for_x.
    assert (En : forall gs i y, (forall g, g ∈ gs -> (gx g < x)%Z) -> closest_loop x i y gs = None).
    { induction gs as [|g gs IH]; [done|]. intros i y Hg. cbn. rewrite (proj2 (Z.leb_gt _ _)) by (apply Hg; left). apply IH. intros h Hh. apply Hg. by right. }
    by rewrite En.
  - intros g Hg. split_and!; [by apply x_for_glyph|by apply index_for_glyph|by apply closest_for_glyph].
Qed.

(** In a wrapped line, the position of every glyph and of the end of the line is found, in the first row that does not end before it, and the index found at that position is the same again, inside the row, or outside it when it is where the row ends; past the end of the line there is no position. *)
Theorem wrapped_positions_correct (w : WrappedLineLayout) (gs : list ShapedGlyph) (line_height : Pixels) (i : nat)
    (Hl : line_shaped (unwrapped_layout w)) (Hrows : row_glyphs w gs) (Hgs : left_to_right gs) (Hh : (0 < line_height)%Z)
    (Hfew : (Z.of_nat (length gs) <= usize_max)%Z)
    (Hi : known (unwrapped_layout w) i) :
  (exists r p, position_for_index w i line_height = Ok (Some p) /\ r <= length gs /\ py p = (Z.of_nat r * line_height)%Z /\
    (row_start gs r).1 <= i <= (row_end (unwrapped_layout w) gs r).1 /\
    let found := if i =? (row_end (unwrapped_layout w) gs r).1 then inr i else inl i in
    index_for_position w p line_height = Ok found /\ closest_index_for_position w p line_height = Ok found) /\
  forall j, wrapped_len w < j -> position_for_index w j line_height = Ok None.
Proof.
  set (l := unwrapped_layout w) in *. pose proof (Forall2_length _ _ _ Hrows) as Hlen.
  assert (Hin : forall r g, gs !! r = Some g -> g ∈ all_glyphs l).
  { intros r g Hg. destruct (Forall2_lookup_r _ _ _ _ _ Hrows Hg) as (b & _ & Hb). by apply boundary_glyph_in in Hb. }
  pose proof (proj1 (Forall_elem _ _) (ls_within l Hl)) as Hw. split.
  - assert (Hile : i <= line_len l).
    { destruct Hi as [->|(g & Hg & <-)]; [done|]. destruct (Hw g Hg). lia. }
    destruct (position_loop_row w gs line_height Hrows Hgs i 0 [] (wrap_boundaries w) gs) as (r & Hr & Hri & E); [done|done|done|split; [cbn; lia|exact Hile]|apply Forall_elem; intros; cbn; lia|].
    exists r. eexists. split_and!; [exact E|lia|done|apply Hri|apply Hri|]. cbn zeta.
    assert (Hend : exists e, row_end l gs r = (e, x_for_index l e) /\ known l e).
    { unfold row_end. destruct (gs !! r) as [g|] eqn:Eg.
      - exists (glyph_index g). split; [by rewrite x_for_glyph by (done || by eapply Hin)|]. right. exists g. split; [by eapply Hin|done].
      - exists (line_len l). split; [by rewrite x_for_end|by left]. }
    destruct Hend as (e & He & Hke). fold l in Hri |- *. rewrite He in Hri |- *. cbn [fst snd] in Hri |- *.
    assert (Hstart : row_start gs r = (0, 0%Z) /\ all_glyphs l = [] \/ exists g, g ∈ all_glyphs l /\ row_start gs r = (glyph_index g, gx g)).
    { unfold row_start. destruct r as [|r].
      - destruct (all_glyphs l) as [|g rest] eqn:Eg; [by left|right]. exists g. destruct (ls_first l Hl g) as [-> ->]; [by rewrite Eg|]. split; [left|done].
      - right. destruct (lookup_lt_is_Some_2 gs r) as [g Hg]; [lia|]. rewrite Hg. exists g. split; [by eapply Hin|done]. }
    unfold index_for_position, closest_index_for_position. rewrite !(index_for_row w gs line_height Hrows Hh Hfew) by lia. fold l.
    rewrite He. cbn [fst snd]. destruct Hstart as [[Hs Hnil]|(g & Hg & Hs)]; rewrite Hs in Hri |- *; cbn [fst snd] in *.
    + destruct Hi as [->|(g & Hg & _)]; [|rewrite Hnil in Hg; by apply elem_of_nil in Hg].
      destruct Hke as [->|(g & Hg & _)]; [|rewrite Hnil in Hg; by apply elem_of_nil in Hg].
      unfold x_for_index. rewrite Hnil. cbn [List.find]. rewrite (ls_empty l Hl Hnil), Nat.eqb_refl. done.
    + rewrite x_for_glyph, Z.sub_add by done.
      assert (Hge : (gx g <= x_for_index l i)%Z).
      { destruct (decide (glyph_index g = i)) as [<-|Hne]; [by rewrite x_for_glyph|]. pose proof (known_after l i g Hl Hi Hg). lia. }
      rewrite (proj2 (Z.ltb_ge _ _) Hge). destruct (Nat.eqb_spec i e) as [->|Hne]; [by rewrite Z.leb_refl|].
      destruct Hi as [->|(h & Hh' & <-)]; [destruct Hke as [->|(k & Hk & <-)]; [done|destruct (Hw k Hk); lia]|].
      rewrite x_for_glyph by done. rewrite (proj2 (Z.leb_gt _ _)) by (apply known_after; done || lia).
      by rewrite index_for_glyph, closest_for_glyph.
  - intros j Hj. unfold position_for_index. fold l.
    assert (Hloop : forall bs row start, Forall (fun b => exists g, boundary_glyph l b = Ok g /\ glyph_index g < j) bs -> start <= j ->
      position_loop w line_height j row start bs = Ok None).
    { intros bs. induction bs as [|b bs IH]; intros row start Hbs Hs; cbn [position_loop]; fold l.
      - destruct (j <? start); [done|]. by rewrite (proj2 (Nat.ltb_lt _ _)) by exact Hj.
      - apply Forall_cons in Hbs as [(g & Hb & Hg) Hbs]. rewrite Hb. cbn [obind]. rewrite (proj2 (Nat.ltb_ge _ _)), (proj2 (Nat.ltb_lt _ _)) by lia.
        apply IH; [done|lia]. }
    apply Hloop; [|lia]. apply Forall_elem. intros b Hb. apply list_elem_of_lookup_1 in Hb as [k Hk].
    destruct (Forall2_lookup_l _ _ _ _ _ Hrows Hk) as (g & Hg & Hbg). exists g. split; [done|].
    destruct (Hw g); [by eapply Hin|]. unfold wrapped_len in Hj. fold l in Hj. lia.
Qed.

(** ** Examples *)

Module TestQueries.

Definition glyph (i : nat) (x : Pixels) : ShapedGlyph := mkGlyph 0 (mkPoint x 0) i false.

Definition two : LineLayout := mkLayout 16 20 12 4 [mkRun 0 [glyph 0 0; glyph 1 10]] 2.

(** Past the middle of the last glyph or not, the closest index there is the end. *)
Example closest_past_last_glyph : closest_index_for_x two 11 = 2 /\ x_for_index two 1 = 10%Z /\ x_for_index two 2 = 20%Z.
Proof. by vm_compute. Qed.

(** Six letters in rows of two, three and one. *)
Definition rows : WrappedLineLayout :=
  mkWrapped (mkLayout 16 60 12 4 [mkRun 0 [glyph 0 0; glyph 1 10; glyph 2 20]; mkRun 1 [glyph 3 30; glyph 4 40; glyph 5 50]] 6)
    [mkBoundary 0 2; mkBoundary 1 2] (Some 30%Z).

Definition row_firsts : list ShapedGlyph := [glyph 2 20; glyph 5 50].

Lemma rows_shaped : line_shaped (unwrapped_layout rows).
Proof.
  split; [|by intros g [= <-]| |done]; cbn; repeat constructor; cbn; lia.
Qed.

Lemma row_firsts_ok : row_glyphs rows row_firsts /\ left_to_right row_firsts.
Proof. split; repeat constructor; cbn; lia. Qed.

Lemma line_queries_correct_witness : closest_index_for_x (unwrapped_layout rows) 30 = 3.
Proof.
  destruct (line_queries_correct (unwrapped_layout rows) 30 rows_shaped) as (_ & _ & _ & H).
  apply (H (glyph 3 30)). cbn. set_solver.
Defined.

Lemma wrapped_positions_correct_witness :
  exists p, position_for_index rows 4 20 = Ok (Some p) /\ index_for_position rows p 20 = Ok (inl 4).
Proof.
  destruct (wrapped_positions_correct rows row_firsts 20 4 rows_shaped (proj1 row_firsts_ok) (proj2 row_firsts_ok)) as [(r & p & H1 & H2 & H3 & H4 & H5 & _) _].
  - lia.
  - by vm_compute.
  - right. exists (glyph 4 40). cbn. set_solver.
  - exists p. split; [exact H1|]. cbn [length row_firsts] in H2. rewrite H5. destruct r as [|[|[|r]]]; [|done| |lia]; cbn in H4; lia.
Defined.
End TestQueries.
