(* ===== verification/LineWrap.v ===== *)
(** * LineWrap: where a shaped line is wrapped, and how its glyphs are moved

    [compute_wrap_boundaries] is read as a loop over the cells of the line: its glyphs but
    for newlines, each with where it begins and ends and whether a word may start there.
    The theorem gives the rows the loop makes of the cells.  Then what
    [apply_force_width_to_layout] and [apply_letter_spacing_to_layout] make of the
    positions. *)

From Stdlib Require Import NArith ZArith String.
From stdpp Require Import base list option numbers sorting.
From S2P Require Import Prelude Text Utf8 Geometry LineLayout.

#[local] Set Warnings "-register-all,-clear-no-such-hyp".

#[export] Instance boundary_ord_laws : OrdLaws WrapBoundary.
Proof.
  assert (E : forall a b : WrapBoundary, cmp a b = cmp (run_ix a, glyph_ix a) (run_ix b, glyph_ix b)) by done.
  split; intros *; rewrite !E.
  - rewrite cmp_eq. destruct a, b; cbn. naive_solver.
  - apply cmp_flip.
  - apply cmp_lt_trans.
Qed.

(** ** Cells *)

Record Cell := mkCell {
  cell_at : WrapBoundary;
  cell_x : Pixels;
  cell_end : Pixels; (* where the next glyph begins, or the line ends *)
  word_start : bool;
}.

Definition next_start (end_x : Pixels) (gs : list (WrapBoundary * ShapedGlyph)) : Pixels :=
  match gs with [] => end_x | (_, g) :: _ => gx g end.

(** The cells of the glyphs [gs] with the characters [cs], after the character [prev]. *)
Fixpoint cells_of (end_x : Pixels) (prev : char) (past : bool) (gs : list (WrapBoundary * ShapedGlyph)) (cs : list char) : list Cell :=
  match gs, cs with
  | (b, g) :: gs, c :: cs =>
      if (c =? newline)%N then cells_of end_x prev past gs cs
      else mkCell b (gx g) (next_start end_x gs) (wraps_before prev c && past) :: cells_of end_x c (past || negb (c =? space)%N) gs cs
  | _, _ => []
  end.

Section Cells.
Context (wrap_width : Pixels) (max_lines : option nat).

Definition clamped (n : nat) : bool := match max_lines with Some m => m - 1 <=? n | None => false end.

Fixpoint cell_loop (cs : list Cell) (bs : list WrapBoundary) (cand : option (WrapBoundary * Pixels)) (lb : WrapBoundary) (lx : Pixels) : list WrapBoundary :=
  match cs with
  | [] => bs
  | c :: cs =>
      let cand := if word_start c then Some (cell_at c, cell_x c) else cand in
      if (wrap_width <? cell_end c - lx)%Z && ltb lb (cell_at c) then
        if clamped (length bs) then bs
        else
          let '(b, x) := default (cell_at c, cell_x c) cand in
          cell_loop cs (bs ++ [b]) None b x
      else cell_loop cs bs cand lb lx
  end.

Definition candidate (w : Wrapping) : option (WrapBoundary * Pixels) := option_map (fun b => (b, last_candidate_x w)) (last_candidate_ix w).

(** The loop of the code is the loop over the cells. *)
Lemma wrap_loop_cells text end_x gs cs w :
  Forall2 (fun bg c => char_at text (glyph_index bg.2) = Ok c) gs cs ->
  wrap_loop text wrap_width max_lines end_x gs w =
    Ok (cell_loop (cells_of end_x (prev_ch w) (past_whitespace w) gs cs) (boundaries w) (candidate w) (last_boundary w) (last_boundary_x w)).
Proof.
  intros Hcs. revert w. induction Hcs as [|[b g] c gs cs Hc Hcs IH]; intros w; [done|]. cbn [snd] in Hc.
  cbn [wrap_loop cells_of]. rewrite Hc. cbn [obind]. destruct (c =? newline)%N; [apply IH|].
  assert (Ep : peek_x text end_x gs = Ok (next_start end_x gs)).
  { destruct Hcs as [|[b' g'] c' gs cs Hc' _]; [done|]. cbn [peek_x]. cbn [snd] in Hc'. by rewrite Hc'. }
  rewrite Ep. cbn [obind cell_loop word_start cell_at cell_x cell_end].
  unfold wrap_glyph, note_candidate. unfold candidate at 1.
  destruct (wraps_before (prev_ch w) c && past_whitespace w); cbn [boundaries last_boundary last_boundary_x];
    (destruct ((wrap_width <? next_start end_x gs - last_boundary_x w)%Z && ltb (last_boundary w) b); [|by rewrite IH]);
    unfold clamped; (destruct (match max_lines with Some n => n - 1 <=? length (boundaries w) | None => false end); [done|]);
    rewrite IH; cbn; [done|]; by destruct (last_candidate_ix w).
Qed.

(** ** Rows *)

(** All cells but the last end within the wrap width. *)
Definition fits (x : Pixels) (row : list Cell) : Prop := Forall (fun c => cell_end c - x <= wrap_width)%Z (removelast row).

(** The rows after the first: a cell to begin with, and the others. *)
Definition row_cells (rows : list (Cell * list Cell)) : list Cell := flat_map (fun r => r.1 :: r.2) rows.

(** Every row fits, but for the last one if the number of lines is limited. *)
Fixpoint rows_fit (n : nat) (x : Pixels) (row : list Cell) (rows : list (Cell * list Cell)) : Prop :=
  match rows with
  | [] => clamped n = true \/ fits x row
  | (c, r) :: rows => fits x row /\ rows_fit n (cell_x c) (c :: r) rows
  end.

(** A row begins because the one before would overflow, at the last start of a word up to the
    cell that overflows, or with that cell. *)
Fixpoint breaks_ok (x : Pixels) (rows : list (Cell * list Cell)) : Prop :=
  match rows with
  | [] => True
  | (c, r) :: rows =>
      (exists p t q, (c :: r) ++ row_cells rows = p ++ t :: q /\ (wrap_width < cell_end t - x)%Z /\ Forall (fun d => word_start d = false) (tail (p ++ [t]))) /\
      (word_start c = true \/ wrap_width < cell_end c - x)%Z /\ breaks_ok (cell_x c) rows
  end.

(** Cells in order, each ending where the next begins or before. *)
Definition in_order (cs : list Cell) : Prop :=
  StronglySorted (fun c d => cmp (cell_at c) (cell_at d) = Lt /\ (cell_x c <= cell_x d)%Z /\ (cell_end c <= cell_x d)%Z) cs /\
  Forall (fun c => (cell_x c <= cell_end c)%Z) cs.

(** The state of the loop: the row so far is [pre ++ suf], where [suf] begins with the last
    start of a word that is kept. *)
Record row_state (cs : list Cell) (pre suf : list Cell) (lb : WrapBoundary) (lx : Pixels) : Prop := mkRowState {
  rw_order : in_order (pre ++ suf ++ cs);
  rw_pre : pre = [] -> suf = [] /\ match cs with c :: _ => word_start c = false | [] => True end;
  rw_lb : Forall (fun c => cmp lb (cell_at c) <> Gt /\ (pre <> [] -> cmp lb (cell_at c) = Lt)) cs;
  rw_lx : Forall (fun c => lx <= cell_x c)%Z (pre ++ suf ++ cs);
  rw_words : match suf with c :: mid => word_start c = true /\ Forall (fun d => word_start d = false) mid | [] => True end;
  rw_fits : fits lx (pre ++ suf);
  rw_last : suf = [] \/ Forall (fun c => cell_end c - lx <= wrap_width)%Z (pre ++ suf);
}.

Definition kept (suf : list Cell) : option (WrapBoundary * Pixels) :=
  match suf with [] => None | c :: _ => Some (cell_at c, cell_x c) end.

Lemma in_order_app cs ds : in_order (cs ++ ds) -> in_order cs /\ in_order ds.
Proof.
  intros [H1 H2]. apply Forall_app in H2 as [? ?]. induction cs as [|c cs IH]; cbn [app] in *.
  - split; [split; constructor|by split].
  - apply StronglySorted_inv in H1 as [H1 Hc]. apply Forall_app in Hc as [Hc _]. inversion H; subst.
    destruct IH as [[? ?] ?]; [done|done|]. split; [|done]. split; [by constructor|done].
Qed.

Lemma in_order_next c cs : in_order (c :: cs) -> Forall (fun d => cmp (cell_at c) (cell_at d) = Lt) cs /\ Forall (fun d => cell_x c <= cell_x d)%Z cs.
Proof.
  intros [[_ H]%StronglySorted_inv _]. split; (eapply Forall_weaken; [|exact H]); naive_solver.
Qed.

(** If the next cell ends in time, so does every cell before it. *)
Lemma in_order_fits x cs k ds : in_order (cs ++ k :: ds) -> (cell_end k - x <= wrap_width)%Z -> Forall (fun c => cell_end c - x <= wrap_width)%Z (cs ++ [k]).
Proof.
  intros Ho Hk. apply Forall_app. split; [|by repeat constructor]. apply Forall_elem. intros c (l & r & ->)%list_elem_of_split.
  rewrite <- app_assoc in Ho. apply in_order_app in Ho as [_ Ho]. cbn [app] in Ho. destruct Ho as [[_ H]%StronglySorted_inv H2].
  apply Forall_app in H as [_ H]. inversion H as [|? ? [_ [_ Hck]] _]; subst. inversion H2 as [|? ? _ H3]; subst.
  apply Forall_app in H3 as [_ H3]. inversion H3; subst. lia.
Qed.

Lemma fits_all x row : Forall (fun c => cell_end c - x <= wrap_width)%Z row -> fits x row.
Proof.
  unfold fits. destruct row as [|c row] using rev_ind; [done|]. rewrite removelast_last. by intros [? _]%Forall_app.
Qed.

(** *** A cell that does not overflow *)
Lemma row_state_keep c cs pre suf lb lx : row_state (c :: cs) pre suf lb lx ->
  (cell_end c - lx <= wrap_width)%Z \/ pre = [] /\ cmp lb (cell_at c) <> Lt ->
  exists pre' suf', row_state cs pre' suf' lb lx /\ pre' ++ suf' = (pre ++ suf) ++ [c] /\ (exists more, pre' = pre ++ more) /\
    kept suf' = if word_start c then Some (cell_at c, cell_x c) else kept suf.
Proof.
  intros [Ho Hpre Hlb Hlx Hw Hf Hl] Hc.
  assert (Hlb' : Forall (fun d => cmp lb (cell_at d) <> Gt /\ cmp lb (cell_at d) = Lt) cs).
  { apply Forall_cons in Hlb as [[Hlc _] _]. do 2 apply in_order_app in Ho as [_ Ho]. destruct (in_order_next _ _ Ho) as [Hn _].
    eapply Forall_weaken; [|exact Hn]. cbn. intros d Hd. destruct (cmp lb (cell_at c)) eqn:E; [apply cmp_eq in E as ->|assert (cmp lb (cell_at d) = Lt) by (by eapply cmp_lt_trans)|done]; (split; congruence). }
  destruct (decide (pre = [])) as [->|Hne].
  - destruct (Hpre eq_refl) as [-> Hwc]. exists [c], []. split_and!; [|done|by exists [c]|by rewrite Hwc].
    constructor; cbn [app] in *; try done; [|by left]. eapply Forall_weaken; [|exact Hlb']. naive_solver.
  - destruct Hc as [Hc|[? _]]; [|done].
    assert (Hfit : Forall (fun d => cell_end d - lx <= wrap_width)%Z ((pre ++ suf) ++ [c])).
    { apply (in_order_fits lx (pre ++ suf) c cs); [by rewrite <- app_assoc|done]. }
    assert (Hlb2 : forall pre' : list Cell, Forall (fun d => cmp lb (cell_at d) <> Gt /\ (pre' <> [] -> cmp lb (cell_at d) = Lt)) cs).
    { intros pre'. eapply Forall_weaken; [|exact Hlb']. naive_solver. }
    assert (Hnil : forall (r s : list Cell) P, pre ++ r = [] -> P).
    { intros r s P [-> _]%app_nil. done. }
    destruct (word_start c) eqn:Ew; [|destruct suf as [|d mid]].
    + exists (pre ++ suf), [c]. split_and!; [|done|by exists suf|done].
      constructor; [by rewrite <- app_assoc|intros E; by eapply Hnil|done|by rewrite <- app_assoc|done|by apply fits_all|by right].
    + rewrite ?app_nil_r in *. cbn [app] in *. exists (pre ++ [c]), []. split_and!; [|by rewrite app_nil_r|by exists [c]|done].
      constructor; [by rewrite <- app_assoc|intros E; by eapply Hnil|done|by rewrite <- app_assoc|done|rewrite app_nil_r; by apply fits_all|by left].
    + exists pre, ((d :: mid) ++ [c]). rewrite app_assoc. split_and!; [|done|exists []; by rewrite app_nil_r|done].
      constructor; [by rewrite <- app_assoc|done|done|by rewrite <- app_assoc| |rewrite app_assoc; by apply fits_all|right; by rewrite app_assoc].
      destruct Hw as [H1 H2]. split; [done|]. apply Forall_app. split; [done|by repeat constructor].
Qed.

(** A row that has just begun. *)
Lemma row_state_fresh d mid cs : in_order (d :: mid ++ cs) -> fits (cell_x d) (d :: mid) -> row_state cs (d :: mid) [] (cell_at d) (cell_x d).
Proof.
  intros Ho Hf. destruct (in_order_next _ _ Ho) as [H1 H2]. constructor; [done|done| |by constructor; [lia|]|done|by rewrite app_nil_r|by left].
  apply Forall_app in H1 as [_ H1]. eapply Forall_weaken; [|exact H1]. cbn. intros e He. split; congruence.
Qed.

(** *** A cell that overflows *)
Lemma row_state_wrap c cs pre suf lb lx : row_state (c :: cs) pre suf lb lx -> (wrap_width < cell_end c - lx)%Z -> cmp lb (cell_at c) = Lt ->
  exists row d mid, (pre ++ suf) ++ [c] = row ++ d :: mid /\ (exists more, row = pre ++ more) /\
    default (cell_at c, cell_x c) (if word_start c then Some (cell_at c, cell_x c) else kept suf) = (cell_at d, cell_x d) /\
    row_state cs (d :: mid) [] (cell_at d) (cell_x d) /\ fits lx row /\
    (exists p, d :: mid = p ++ [c] /\ Forall (fun e => word_start e = false) mid) /\
    (word_start d = true \/ wrap_width < cell_end d - lx)%Z.
Proof.
  intros [Ho Hpre Hlb Hlx Hw Hf Hl] Hc Hlt. pose proof Ho as Ho'. do 2 apply in_order_app in Ho' as [_ Ho'].
  assert (Hone : row_state cs [c] [] (cell_at c) (cell_x c)) by (apply row_state_fresh; [done|constructor]).
  assert (Hp : exists p, [c] = p ++ [c] /\ Forall (fun e => word_start e = false) []) by by exists [].
  destruct (word_start c) eqn:Ew; [|destruct suf as [|d mid]].
  - exists (pre ++ suf), c, []. split_and!; [done|by exists suf|done|done|done|done|by left].
  - rewrite app_nil_r in *. exists pre, c, []. split_and!; [done|by exists []; rewrite app_nil_r|done|done|done|done|by right].
  - destruct Hw as [Hd Hmid]. destruct Hl as [?|Hl]; [done|]. apply Forall_app in Hl as [Hl1 Hl2]. exists pre, d, (mid ++ [c]).
    split_and!; [by rewrite <- app_assoc|by exists []; rewrite app_nil_r|done| |by apply fits_all| |by left].
    + apply row_state_fresh; [apply in_order_app in Ho as [_ Ho]; by rewrite <- app_assoc|].
      unfold fits. rewrite app_comm_cons, removelast_last.
      apply Forall_app in Hlx as [_ Hlx]. inversion Hlx as [|? ? Hxd _]; subst. eapply Forall_weaken; [|exact Hl2]. cbn. lia.
    + exists (d :: mid). split; [done|]. apply Forall_app. split; [done|by repeat constructor].
Qed.

Lemma cell_loop_rows cs bs pre suf lb lx : row_state cs pre suf lb lx ->
  exists row rows, cell_loop cs bs (kept suf) lb lx = bs ++ map (fun r => cell_at r.1) rows /\
    pre ++ suf ++ cs = row ++ row_cells rows /\ (exists more, row = pre ++ more) /\
    rows_fit (length bs + length rows) lx row rows /\ breaks_ok lx rows /\
    match max_lines with Some m => length bs + length rows <= Nat.max (length bs) (m - 1) | None => True end.
Proof.
  revert bs pre suf lb lx. induction cs as [|c cs IH]; intros bs pre suf lb lx Hs; cbn [cell_loop].
  - exists (pre ++ suf), []. cbn. rewrite !app_nil_r. split_and!; [done|done|by exists suf|right; apply Hs|done|]. destruct max_lines; lia || done.
  - destruct ((wrap_width <? cell_end c - lx)%Z && ltb lb (cell_at c)) eqn:Ewrap.
    + apply andb_true_iff in Ewrap as [Hover%Z.ltb_lt Hlt%ltb_spec]. destruct (clamped (length bs)) eqn:Eclamp.
      * exists (pre ++ suf ++ c :: cs), []. cbn. rewrite !app_nil_r, Nat.add_0_r.
        split_and!; [done|done|by eexists|by left|done|]. destruct max_lines; lia || done.
      * destruct (row_state_wrap c cs pre suf lb lx Hs Hover Hlt) as (row & d & mid & E & Hrow & Ed & Hs' & Hfit & (p & Ep & Hmid) & Hd).
        rewrite Ed. destruct (IH (bs ++ [cell_at d]) (d :: mid) [] (cell_at d) (cell_x d) Hs') as (row' & rows & E1 & E2 & (more & ->) & H1 & H2 & H3).
        cbn [kept] in E1. rewrite E1. exists row, ((d, mid ++ more) :: rows). rewrite length_app in *. cbn [length map fst] in *.
        cbn [app] in E2. split_and!.
        -- by rewrite <- app_assoc.
        -- rewrite app_assoc. change (c :: cs) with ([c] ++ cs). rewrite (app_assoc _ [c]), E, <- app_assoc. f_equal. exact E2.
        -- done.
        -- split; [done|]. by replace (length bs + S (length rows)) with (length bs + 1 + length rows) by lia.
        -- split_and!; [|done|done]. exists p, c, cs. split_and!; [|done|by rewrite <- Ep].
           cbn [fst snd]. rewrite app_comm_cons, Ep, <- app_assoc in E2. cbn [app] in E2. by rewrite E2.
        -- unfold clamped in Eclamp. destruct max_lines as [m|]; [|done]. apply Nat.leb_gt in Eclamp. lia.
    + destruct (row_state_keep c cs pre suf lb lx Hs) as (pre' & suf' & Hs' & E & (more & ->) & Ek).
      { apply andb_false_iff in Ewrap as [H%Z.ltb_ge|H]; [by left|]. destruct (decide (pre = [])) as [->|Hne].
        - right. split; [done|]. intros E. apply ltb_spec in E. congruence.
        - pose proof (rw_lb _ _ _ _ _ Hs) as Hlb. inversion Hlb as [|? ? [_ Hlt] _]; subst. apply Hlt, ltb_spec in Hne. congruence. }
      rewrite <- Ek. destruct (IH bs _ _ _ _ Hs') as (row & rows & E1 & E2 & (more' & ->) & H1 & H2 & H3).
      exists ((pre ++ more) ++ more'), rows. split_and!; [done| |exists (more ++ more'); by rewrite app_assoc|done|done|done].
      rewrite <- E2, (app_assoc (pre ++ more)), E, <- !app_assoc. done.
Qed.


(** *** The cells of a line *)

Definition glyphs_in_order (gs : list (WrapBoundary * ShapedGlyph)) : Prop :=
  StronglySorted (fun a b => cmp a.1 b.1 = Lt /\ (gx a.2 <= gx b.2)%Z) gs.

Lemma cells_from end_x prev past gs cs : Forall (fun c => exists g, (cell_at c, g) ∈ gs /\ gx g = cell_x c) (cells_of end_x prev past gs cs).
Proof.
  revert prev past cs. induction gs as [|[b g] gs IH]; intros prev past cs; [by destruct cs|]. destruct cs as [|c cs]; [constructor|].
  assert (Hw : forall prev past, Forall (fun c => exists g', (cell_at c, g') ∈ (b, g) :: gs /\ gx g' = cell_x c) (cells_of end_x prev past gs cs)).
  { intros p q. eapply Forall_weaken; [|apply IH]. cbn. intros d (g' & Hg' & E). exists g'. split; [by right|done]. }
  cbn [cells_of]. destruct (c =? newline)%N; [done|]. constructor; [|done]. exists g. split; [left|done].
Qed.

Lemma cells_in_order end_x prev past gs cs : glyphs_in_order gs -> Forall (fun bg => gx bg.2 <= end_x)%Z gs -> in_order (cells_of end_x prev past gs cs).
Proof.
  intros Ho. revert prev past cs. induction Ho as [|[b g] gs Ho IH Hg]; intros prev past cs He; [by destruct cs; split; constructor|].
  destruct cs as [|c cs]; [split; constructor|]. apply Forall_cons in He as [Hge He]. cbn [cells_of]. destruct (c =? newline)%N; [by apply IH|].
  destruct (IH c (past || negb (c =? space)%N) cs He) as [H1 H2].
  split; constructor; [done| |cbn [cell_x cell_end]|done].
  - eapply Forall_weaken; [|apply cells_from]. cbn. intros d (g' & Hin & <-). rewrite Forall_elem in Hg. destruct (Hg _ Hin) as [Hlt Hle]. cbn in Hlt, Hle.
    split_and!; [done|done|]. destruct gs as [|[b' h] gs]; [by apply elem_of_nil in Hin|]. cbn.
    apply elem_of_cons in Hin as [[= _ <-]|Hin]; [done|]. apply StronglySorted_inv in Ho as [_ Hh]. rewrite Forall_elem in Hh. apply (Hh _ Hin).
  - destruct gs as [|[b' h] gs]; [done|]. inversion Hg as [|? ? [_ Hle] _]; subst. exact Hle.
Qed.

Lemma first_cell end_x prev gs cs : match cells_of end_x prev false gs cs with c :: _ => word_start c = false | [] => True end.
Proof.
  revert cs. induction gs as [|[b g] gs IH]; intros [|c cs]; cbn [cells_of]; try done. destruct (c =? newline)%N; [apply IH|]. by rewrite andb_false_r.
Qed.

End Cells.

(** The boundaries of a line increase. *)
Lemma boundaries_from k m (gs : list ShapedGlyph) :
  StronglySorted (fun a b : WrapBoundary * ShapedGlyph => cmp a.1 b.1 = Lt) (imap (fun j g => (mkBoundary k (m + j), g)) gs) /\
  Forall (fun b : WrapBoundary * ShapedGlyph => run_ix b.1 = k /\ m <= glyph_ix b.1) (imap (fun j g => (mkBoundary k (m + j), g)) gs) /\
  map snd (imap (fun j g => (mkBoundary k (m + j), g)) gs) = gs.
Proof.
  revert m. induction gs as [|g gs IH]; intros m; [repeat constructor|]. rewrite imap_cons.
  rewrite (imap_ext _ (fun j g => (mkBoundary k (S m + j), g))) by (intros; cbn; do 2 f_equal; lia).
  destruct (IH (S m)) as (H1 & H2 & H3). split_and!; [constructor|constructor|cbn [map snd]; f_equal; exact H3]; try done.
  - eapply Forall_weaken; [|exact H2]. intros [[k' j] h] [E Hj]. cbn in *. subst. unfold cmp at 1, boundary_ord. cbn.
    rewrite cmp_refl. cbn. apply Nat.compare_lt_iff. lia.
  - cbn. split; [done|lia].
  - eapply Forall_weaken; [|exact H2]. cbn. intros b [? ?]. split; [done|lia].
Qed.

Lemma line_boundaries_from k rs :
  StronglySorted (fun a b : WrapBoundary * ShapedGlyph => cmp a.1 b.1 = Lt) (concat (imap (fun i r => run_boundaries (k + i) r) rs)) /\
  Forall (fun b : WrapBoundary * ShapedGlyph => k <= run_ix b.1) (concat (imap (fun i r => run_boundaries (k + i) r) rs)) /\
  map snd (concat (imap (fun i r => run_boundaries (k + i) r) rs)) = flat_map glyphs rs.
Proof.
  revert k. induction rs as [|r rs IH]; intros k; [by repeat constructor|]. rewrite imap_cons. cbn [concat].
  rewrite (imap_ext _ (fun i r => run_boundaries (S k + i) r)) by (intros; cbn; f_equal; lia).
  destruct (IH (S k)) as (H1 & H2 & H3). rewrite Nat.add_0_r. destruct (boundaries_from k 0 (glyphs r)) as (H4 & H5 & H6). cbn [Nat.add] in H4, H5, H6.
  fold (run_boundaries k r) in H4, H5, H6. split_and!.
  - clear H6. revert H4 H5. induction (run_boundaries k r) as [|b bs IHb]; [done|]. cbn [app]. intros [Hb1 Hb2]%StronglySorted_inv [[Hk _] Hb3]%Forall_cons.
    constructor; [by apply IHb|]. apply Forall_app. split; [done|]. eapply Forall_weaken; [|exact H2].
    intros [[k' j] h] Hk'. destruct b as [[kb jb] hb]. cbn in *. subst. unfold cmp, boundary_ord. cbn. unfold cmp, nat_ord.
    rewrite (proj2 (Nat.compare_lt_iff _ _)) by lia. done.
  - apply Forall_app. split; (eapply Forall_weaken; [|eassumption]); cbn; lia.
  - rewrite map_app, H3. cbn [flat_map]. by rewrite H6.
Qed.

(** The positions of a line are in order, from zero to its width. *)
Definition positions_ok (l : LineLayout) : Prop :=
  StronglySorted (fun a b => (gx a <= gx b)%Z) (all_glyphs l) /\ Forall (fun g => 0 <= gx g <= line_width l)%Z (all_glyphs l).

Lemma line_boundaries_glyphs l : map snd (line_boundaries l) = all_glyphs l.
Proof. apply (line_boundaries_from 0 (runs l)). Qed.

Lemma line_boundaries_ok l : positions_ok l ->
  glyphs_in_order (line_boundaries l) /\ Forall (fun bg => 0 <= gx bg.2 <= line_width l)%Z (line_boundaries l).
Proof.
  intros [Hs Hw]. rewrite <- line_boundaries_glyphs in Hs, Hw. rewrite Forall_map in Hw. split; [|done].
  pose proof (proj1 (line_boundaries_from 0 (runs l)) : StronglySorted (fun a b : WrapBoundary * ShapedGlyph => cmp a.1 b.1 = Lt) (line_boundaries l)) as Hb.
  unfold glyphs_in_order. clear Hw. revert Hs Hb.
  induction (line_boundaries l) as [|b bs IH]; [constructor|]. cbn [map].
  intros [H1 H2]%StronglySorted_inv [H3 H4]%StronglySorted_inv. constructor; [by apply IH|]. rewrite Forall_map in H2.
  apply Forall_and. by split.
Qed.

(** A line whose glyphs stand on characters of the text, in order, is wrapped without a panic, and its boundaries cut its cells (the glyphs other than newlines) into rows: a boundary is the first cell of its row; every row ends within the wrap width but for its last cell; a row ends only because a cell would overflow it, at the last start of a word up to that cell, or at that cell; and of a limited number of lines no more are made, the last being left as long as it is. *)
Theorem wrap_boundaries_correct (l : LineLayout) (text : str) (cs : list char) (wrap_width : Pixels) (max_lines : option nat)
    (Hl : positions_ok l) (Hcs : Forall2 (fun bg c => char_at text (glyph_index bg.2) = Ok c) (line_boundaries l) cs) :
  exists row rows,
    compute_wrap_boundaries l text wrap_width max_lines = Ok (map (fun r => cell_at r.1) rows) /\
    cells_of (line_width l) 0%N false (line_boundaries l) cs = row ++ row_cells rows /\
    rows_fit wrap_width max_lines (length rows) 0 row rows /\ breaks_ok wrap_width 0 rows /\
    match max_lines with Some m => length rows <= m - 1 | None => True end.
Proof.
  destruct (line_boundaries_ok l Hl) as [Ho Hw]. set (cells := cells_of _ _ _ _ _).
  assert (Hc : in_order cells) by (apply cells_in_order; [done|eapply Forall_weaken; [|exact Hw]; cbn; lia]).
  assert (Hs : row_state wrap_width cells [] [] (mkBoundary 0 0) 0).
  { constructor; [done|intros _; split; [done|apply first_cell]| | |done|constructor|by left].
    - apply Forall_elem. intros c _. split; [|done]. unfold cmp, boundary_ord, cmp, nat_ord. cbn. by destruct (run_ix (cell_at c)), (glyph_ix (cell_at c)).
    - eapply Forall_weaken; [|apply cells_from]. cbn. intros c (g & Hg & <-). rewrite Forall_elem in Hw. apply (Hw _ Hg). }
  destruct (cell_loop_rows wrap_width max_lines cells [] [] [] (mkBoundary 0 0) 0 Hs) as (row & rows & E1 & E2 & _ & H1 & H2 & H3).
  exists row, rows. unfold compute_wrap_boundaries. rewrite (wrap_loop_cells wrap_width max_lines text (line_width l) _ cs wrapping_start Hcs).
  cbn [wrapping_start prev_ch past_whitespace boundaries last_boundary last_boundary_x]. unfold candidate. cbn [last_candidate_ix wrapping_start option_map].
  fold cells. cbn [kept] in E1. rewrite E1. split_and!; [done|exact E2|done|done|]. cbn in H3. destruct max_lines; [lia|done].
Qed.

(** ** Adjusted positions *)

Lemma thread_app {A B} (f : A -> B -> A * B) a l1 l2 :
  thread f a (l1 ++ l2) = ((thread f (thread f a l1).1 l2).1, (thread f a l1).2 ++ (thread f (thread f a l1).1 l2).2).
Proof.
  revert a. induction l1 as [|b l1 IH]; intros a; cbn [app thread fst snd]; [by destruct (thread f a l2)|].
  destruct (f a b) as [a' b']. rewrite IH. destruct (thread f a' l1) as [a'' l']. cbn [fst snd]. by destruct (thread f a'' l2).
Qed.

Lemma thread_run_eq {A} (f : A -> ShapedGlyph -> A * ShapedGlyph) a r :
  thread_run f a r = ((thread f a (glyphs r)).1, mkRun (font_id r) (thread f a (glyphs r)).2).
Proof. unfold thread_run. by destruct (thread f a (glyphs r)). Qed.

(** Going through the runs is going through the glyphs. *)
Lemma thread_runs {A} (f : A -> ShapedGlyph -> A * ShapedGlyph) a rs :
  (thread (thread_run f) a rs).1 = (thread f a (flat_map glyphs rs)).1 /\
  flat_map glyphs (thread (thread_run f) a rs).2 = (thread f a (flat_map glyphs rs)).2 /\
  map font_id (thread (thread_run f) a rs).2 = map font_id rs.
Proof.
  revert a. induction rs as [|r rs IH]; intros a; [done|]. cbn [thread flat_map]. rewrite thread_app, thread_run_eq.
  destruct (thread f a (glyphs r)) as [a' gs]. cbn [fst snd]. destruct (IH a') as (H1 & H2 & H3). destruct (thread (thread_run f) a' rs) as [a'' rs'].
  cbn [fst snd] in *. cbn [flat_map map glyphs font_id]. by rewrite H1, H2, H3.
Qed.

Lemma spaced_glyphs spacing n gs : thread (space_glyph spacing) n gs = (n + length gs, imap (fun i g => with_gx g (gx g + spacing * Z.of_nat (n + i))%Z) gs).
Proof.
  revert n. induction gs as [|g gs IH]; intros n; [cbn; by rewrite Nat.add_0_r|]. cbn [thread space_glyph length]. rewrite IH, imap_cons, Nat.add_0_r.
  f_equal; [lia|]. f_equal. apply imap_ext. intros i h _. cbn. do 2 f_equal. lia.
Qed.

(** Forced positions: a base glyph is within a pixel of its cell, counting base glyphs, and a
    mark keeps its distance from its base glyph. *)
Fixpoint forced (fw : Pixels) (n : nat) (base : option (Pixels * Pixels)) (gs forced_gs : list ShapedGlyph) : Prop :=
  match gs, forced_gs with
  | [], [] => True
  | g :: gs, g' :: gs' =>
      glyph_index g' = glyph_index g /\ glyph_id g' = glyph_id g /\
      match base with
      | Some (shaped, actual) =>
          if (fw <? 2 * (gx g - shaped))%Z then (Z.abs (gx g' - Z.of_nat n * fw) <= 1)%Z /\ forced fw (S n) (Some (gx g, gx g')) gs gs'
          else (gx g' - actual = gx g - shaped)%Z /\ forced fw n base gs gs'
      | None => (Z.abs (gx g' - Z.of_nat n * fw) <= 1)%Z /\ forced fw (S n) (Some (gx g, gx g')) gs gs'
      end
  | _, _ => False
  end.

Lemma forced_thread fw n base gs :
  forced fw n base gs (thread (force_glyph fw) (n, match base with Some (s, a) => (Some s, a) | None => (None, 0%Z) end) gs).2.
Proof.
  revert n base. induction gs as [|g gs IH]; intros n base; [done|]. cbn [thread force_glyph].
  set (x := if (1 <? Z.abs (gx g - Z.of_nat n * fw))%Z then (Z.of_nat n * fw)%Z else gx g).
  assert (Hx : (Z.abs (x - Z.of_nat n * fw) <= 1)%Z) by (subst x; destruct (Z.ltb_spec 1 (Z.abs (gx g - Z.of_nat n * fw))); lia).
  destruct base as [[s a]|]; cbn [is_base].
  - destruct (fw <? 2 * (gx g - s))%Z eqn:E.
    + specialize (IH (S n) (Some (gx g, x))). destruct (thread _ _ gs) as [st gs']. cbn [snd forced] in *. rewrite E. by split_and!.
    + specialize (IH n (Some (s, a))). cbn [default]. destruct (thread _ _ gs) as [st gs']. cbn [snd forced] in *. rewrite E.
      split_and!; [done|done|unfold gx; cbn; lia|done].
  - specialize (IH (S n) (Some (gx g, x))). destruct (thread _ _ gs) as [st gs']. cbn [snd forced] in *. by split_and!.
Qed.

(** Forcing a width puts the base glyphs, those more than half a cell after the last, within a pixel of consecutive cells and keeps the distance of every mark from its base; letter spacing moves the glyph number n by n times the spacing and widens the line by the gaps between its glyphs; neither changes the fonts of the runs, nor which glyphs they hold. *)
Theorem adjusted_positions_correct (l : LineLayout) (fw spacing : Pixels) :
  forced fw 0 None (all_glyphs l) (all_glyphs (apply_force_width_to_layout l fw)) /\
  map font_id (runs (apply_force_width_to_layout l fw)) = map font_id (runs l) /\
  all_glyphs (apply_letter_spacing_to_layout l spacing None) = imap (fun i g => with_gx g (gx g + spacing * Z.of_nat i)%Z) (all_glyphs l) /\
  line_width (apply_letter_spacing_to_layout l spacing None) = (line_width l + spacing * Z.of_nat (length (all_glyphs l) - 1))%Z /\
  map font_id (runs (apply_letter_spacing_to_layout l spacing None)) = map font_id (runs l).
Proof.
  destruct (thread_runs (force_glyph fw) (0, (None, 0%Z)) (runs l)) as (_ & F2 & F3).
  destruct (thread_runs (space_glyph spacing) 0 (runs l)) as (S1 & S2 & S3). rewrite spaced_glyphs in S1, S2. cbn [fst snd] in *.
  unfold apply_letter_spacing_to_layout. destruct (thread (thread_run (space_glyph spacing)) 0 (runs l)) as [n rs]. cbn [fst snd] in *. subst n.
  split_and!; [|exact F3|exact S2| |exact S3].
  - unfold all_glyphs, apply_force_width_to_layout. cbn [runs with_runs]. rewrite F2. apply (forced_thread fw 0 None).
  - cbn [line_width]. fold (all_glyphs l). destruct (Nat.ltb_spec 1 (0 + length (all_glyphs l))); cbn in *; [done|].
    replace (length (all_glyphs l) - 1) with 0 by lia. lia.
Qed.

(** ** Examples *)

Module TestWrap.

Definition glyph (i : nat) (x : Pixels) : ShapedGlyph := mkGlyph 0 (mkPoint x 0) i false.

(** The text [i(mmm], with glyphs of widths 1, 1, 4, 4 and 4. *)
Definition narrow : LineLayout := mkLayout 16 14 12 4 [mkRun 0 [glyph 0 0; glyph 1 1; glyph 2 2; glyph 3 6; glyph 4 10]] 5.

(** The row from the parenthesis on is 13 wide. *)
Example carried_row_overflows : compute_wrap_boundaries narrow (lit "i(mmm") 10 None = Ok [mkBoundary 0 1].
Proof. by vm_compute. Qed.

Lemma wrap_boundaries_correct_witness :
  exists rows, compute_wrap_boundaries narrow (lit "i(mmm") 10 (Some 3) = Ok (map (fun r => cell_at r.1) rows) /\ breaks_ok 10 0 rows.
Proof.
  destruct (wrap_boundaries_correct narrow (lit "i(mmm") (lit "i(mmm") 10 (Some 3)) as (row & rows & H1 & _ & _ & H2 & _).
  - split; cbn; repeat constructor; unfold gx; cbn; lia.
  - repeat constructor.
  - exists rows. split; [exact H1|exact H2].
Defined.
End TestWrap.
