(* ===== verification/TextRun.v ===== *)
(** * TextRun: fonts and styled runs of text, [crates/gpui/src/text_system.rs] *)

From Stdlib Require Import NArith ZArith.
From stdpp Require Import base list option numbers.
From S2P Require Import Prelude Text LineLayout ShapedLine.

#[local] Set Warnings "-register-all,-clear-no-such-hyp".

Inductive FontStyle := FontNormal | FontItalic | FontOblique.

Record Font := mkFont {
  family : str;
  features : list (str * Z);
  fallbacks : option (list str);
  weight : Z;
  style : FontStyle;
}.

#[export] Instance FontStyle_eq_dec : EqDecision FontStyle.
Proof. solve_decision. Defined.

#[export] Instance Font_eq_dec : EqDecision Font.
Proof. solve_decision. Defined.

Record TextRun := mkTextRun {
  text_len : nat;
  font : Font;
  run_color : Hsla;
  run_background : option Hsla;
  run_underline : option UnderlineStyle;
  run_strikethrough : option StrikethroughStyle;
}.

Definition with_text_len (r : TextRun) (n : nat) : TextRun :=
  mkTextRun n (font r) (run_color r) (run_background r) (run_underline r) (run_strikethrough r).

(** [font(family)] *)
Definition font_named (name : str) : Font := mkFont name [] None 400 FontNormal.

Definition runs_len (rs : list TextRun) : nat := sum_list_with text_len rs.
