(* ===== verification/LineWrapper.v ===== *)
(** * LineWrapper: wrapping and truncating a line by the widths of characters

    [crates/gpui/src/text_system/line_wrapper.rs].  Widths come from the platform's layout
    of a single character and are cached.  A pixel is [subpixels] units, so that [floor]
    rounds. *)

From Stdlib Require Import NArith ZArith String.
From stdpp Require Import base list option numbers gmap.
From S2P Require Import Prelude Text Utf8 Geometry LineLayout ShapedLine TextRun.

#[local] Set Warnings "-register-all,-clear-no-such-hyp".

(** ** Data *)

Inductive IndentAdjustment := NoIndent | SameIndent | ExtraColumns (extra : Z).

(** The array of optional widths of ASCII characters is the map of its entries. *)
Record LineWrapper := mkWrapper {
  wrapper_font : FontId;
  wrapper_size : Pixels;
  cached_ascii_char_widths : gmap N Pixels;
  cached_other_char_widths : gmap N Pixels;
}.

Inductive LineFragment := FragmentText (text : str) | FragmentElement (width : Pixels) (len : nat).

Inductive WrapBoundaryCandidate := CandidateChar (c : char) | CandidateElement (width : Pixels) (len : nat).

Record Boundary := mkIndented {
  boundary_ix : nat;
  next_indent : Z;
}.

Definition wrapper_new (font : FontId) (size : Pixels) : LineWrapper := mkWrapper font size ∅ ∅.

Definition MAX_INDENT : Z := 256.
Definition u32_max : Z := 2 ^ 32 - 1.

(** The text of an element is one NUL character. *)
Definition wrap_boundary_candidates (f : LineFragment) : list WrapBoundaryCandidate :=
  match f with
  | FragmentText text => map CandidateChar text
  | FragmentElement width len => [CandidateElement width len]
  end.

Definition candidate_len (c : WrapBoundaryCandidate) : nat :=
  match c with CandidateChar c => len_utf8 c | CandidateElement _ len => len end.

(** ** Widths *)

Section Widths.
Context `{PlatformTextSystem}.

Definition compute_width_for_char (w : LineWrapper) (c : char) : Pixels :=
  line_width (platform_layout_line [c] (wrapper_size w) [mkFontRun (len_utf8 c) (wrapper_font w)]).

Definition width_for_char (w : LineWrapper) (c : char) : LineWrapper * Pixels :=
  if (c <? 128)%N then
    match cached_ascii_char_widths w !! c with
    | Some width => (w, width)
    | None =>
        let width := compute_width_for_char w c in
        (mkWrapper (wrapper_font w) (wrapper_size w) (<[c := width]> (cached_ascii_char_widths w)) (cached_other_char_widths w), width)
    end
  else
    match cached_other_char_widths w !! c with
    | Some width => (w, width)
    | None =>
        let width := compute_width_for_char w c in
        (mkWrapper (wrapper_font w) (wrapper_size w) (cached_ascii_char_widths w) (<[c := width]> (cached_other_char_widths w)), width)
    end.

(** ** Wrapping *)

Record WrapState := mkWrapState {
  width : Pixels;
  first_non_whitespace_ix : option nat;
  base_indent : option Z;
  last_candidate_ix : nat;
  last_candidate_width : Pixels;
  last_wrap_ix : nat;
  prev_c : char;
  at_index : nat;
}.

Definition wrap_start : WrapState := mkWrapState 0 None None 0 0 0 0%N 0.

(** A candidate at [ix] if a word may start there, and the first character past the leading
    white space. *)
Definition note_item (st : WrapState) (ix : nat) (starts solid : bool) : WrapState :=
  let (cand_ix, cand_width) :=
    match first_non_whitespace_ix st with
    | Some _ => if starts then (ix, width st) else (last_candidate_ix st, last_candidate_width st)
    | None => (last_candidate_ix st, last_candidate_width st)
    end in
  let first := match first_non_whitespace_ix st with Some i => Some i | None => if solid then Some ix else None end in
  mkWrapState (width st) first (base_indent st) cand_ix cand_width (last_wrap_ix st) (prev_c st) (at_index st).

(** The next state at an index, and after the previous character [c]. *)
Definition at_ix (st : WrapState) (i : nat) : WrapState :=
  mkWrapState (width st) (first_non_whitespace_ix st) (base_indent st) (last_candidate_ix st) (last_candidate_width st) (last_wrap_ix st) (prev_c st) i.
Definition after_char (st : WrapState) (c : char) : WrapState :=
  mkWrapState (width st) (first_non_whitespace_ix st) (base_indent st) (last_candidate_ix st) (last_candidate_width st) (last_wrap_ix st) c (at_index st).
Definition add_width (st : WrapState) (w : Pixels) : WrapState :=
  mkWrapState (width st + w) (first_non_whitespace_ix st) (base_indent st) (last_candidate_ix st) (last_candidate_width st) (last_wrap_ix st) (prev_c st) (at_index st).

(** Where the line is wrapped, once the width is exceeded by an item at [ix]. *)
Section At.
Context (wrap_width : Pixels) (indent_adjustment : IndentAdjustment) (space_width : Pixels).

Definition wrap_at_candidate (st : WrapState) : bool :=
  (0 <? last_candidate_ix st) && (width st - last_candidate_width st <=? wrap_width)%Z.

Definition carried_width (st : WrapState) (item_width : Pixels) : Pixels :=
  if wrap_at_candidate st then (width st - last_candidate_width st)%Z else item_width.

Definition new_base_indent (st : WrapState) : option Z :=
  match base_indent st, first_non_whitespace_ix st with
  | None, Some first => Some (Z.min MAX_INDENT (Z.of_nat (first - last_wrap_ix st) mod 2 ^ 32)%Z)
  | base, _ => base
  end.

Definition indent_after (base : option Z) (carried : Pixels) : Z :=
  match indent_adjustment with
  | NoIndent => 0%Z
  | SameIndent => default 0%Z base
  | ExtraColumns extra =>
      match base with
      | Some base =>
          let candidate := Z.min u32_max (base + extra)%Z in
          let min_headroom := Z.max carried (space_width * 2)%Z in
          if (wrap_width <? space_width * candidate + min_headroom)%Z then 0%Z else Z.min MAX_INDENT candidate
      | None => 0%Z
      end
  end.

Definition wrap_row (st : WrapState) (ix : nat) (item_width : Pixels) : WrapState * Boundary :=
  let base := new_base_indent st in
  let indent := indent_after base (carried_width st item_width) in
  let '(wrap_ix, w) :=
    if wrap_at_candidate st then (last_candidate_ix st, (width st - last_candidate_width st)%Z) else (ix, item_width) in
  (mkWrapState (w + space_width * indent) (first_non_whitespace_ix st) base 0 (last_candidate_width st) wrap_ix (prev_c st) (at_index st),
   mkIndented wrap_ix indent).
End At.

Section Line.
Context (wrap_width : Pixels) (indent_adjustment : IndentAdjustment).

(** The body of the loop for one candidate. *)
Definition wrap_step (w : LineWrapper) (st : WrapState) (cand : WrapBoundaryCandidate) : LineWrapper * WrapState * option Boundary :=
  let ix := at_index st in
  let st := at_ix st (ix + candidate_len cand) in
  let finish := fun (w : LineWrapper) (st : WrapState) (item_width : Pixels) (new_prev_c : char) =>
    let st := add_width st item_width in
    if (wrap_width <? width st)%Z && (last_wrap_ix st <? ix) then
      let (w, space_width) := width_for_char w space in
      let (st, b) := wrap_row wrap_width indent_adjustment space_width st ix item_width in
      (w, st, Some b)
    else (w, after_char st new_prev_c, None) in
  match cand with
  | CandidateChar c =>
      if (c =? newline)%N then (w, st, None)
      else
        let st := note_item st ix (wraps_before (prev_c st) c) (negb (c =? space)%N) in
        let (w, item_width) := width_for_char w c in
        finish w st item_width c
  | CandidateElement item_width _ =>
      let st := note_item st ix (prev_c st =? space)%N true in
      finish w st item_width (prev_c st)
  end.

(** The closure of [iter::from_fn]: the next boundary, and the candidates left. *)
Fixpoint next_boundary (w : LineWrapper) (st : WrapState) (cands : list WrapBoundaryCandidate) :
    LineWrapper * WrapState * list WrapBoundaryCandidate * option Boundary :=
  match cands with
  | [] => (w, st, [], None)
  | c :: cands =>
      match wrap_step w st c with
      | (w, st, Some b) => (w, st, cands, Some b)
      | (w, st, None) => next_boundary w st cands
      end
  end.

(** The boundaries the iterator gives, with fuel for one call after another. *)
Fixpoint collect_boundaries (fuel : nat) (w : LineWrapper) (st : WrapState) (cands : list WrapBoundaryCandidate) : outcome (LineWrapper * list Boundary) :=
  match fuel with
  | 0 => OutOfFuel
  | S fuel =>
      match next_boundary w st cands with
      | (w, _, _, None) => Ok (w, [])
      | (w, st, cands, Some b) =>
          let! (w, bs) := collect_boundaries fuel w st cands in
          Ok (w, b :: bs)
      end
  end.

Definition wrap_line (w : LineWrapper) (fragments : list LineFragment) : outcome (LineWrapper * list Boundary) :=
  let cands := flat_map wrap_boundary_candidates fragments in
  collect_boundaries (S (length cands)) w wrap_start cands.
End Line.

(** ** Truncating *)

(** [char::is_ascii_punctuation] *)
Definition is_ascii_punctuation (c : char) : bool :=
  ((33 <=? c)%N && (c <=? 47)%N) || ((58 <=? c)%N && (c <=? 64)%N) || ((91 <=? c)%N && (c <=? 96)%N) || ((123 <=? c)%N && (c <=? 126)%N).

(** [str::trim_end_matches] *)
Definition trim_end_matches (p : char -> bool) (s : str) : str := rev (skip_while p (rev s)).

(** The first run that goes past the text kept ends with the ellipsis, and is the last. *)
Fixpoint truncate_runs (truncate_at ellipsis_len : nat) (runs : list TextRun) : list TextRun :=
  match runs with
  | [] => []
  | r :: runs =>
      if text_len r <=? truncate_at then r :: truncate_runs (truncate_at - text_len r) ellipsis_len runs
      else [with_text_len r (truncate_at + ellipsis_len)]
  end.

Definition update_runs_after_truncation (result ellipsis : str) (runs : list TextRun) : outcome (list TextRun) :=
  let! truncate_at := usize_sub (str_len result) (str_len ellipsis) in
  Ok (truncate_runs truncate_at (str_len ellipsis) runs).

(** The sum of the widths, each looked up in turn. *)
Fixpoint text_width (w : LineWrapper) (s : str) (total : Pixels) : LineWrapper * Pixels :=
  match s with
  | [] => (w, total)
  | c :: s => let (w, cw) := width_for_char w c in text_width w s (total + cw)
  end.

Context `{Unicode} (subpixels : Z).

(** [Pixels::floor] *)
Definition pixel_floor (x : Pixels) : Pixels := (x / subpixels * subpixels)%Z.

(** The byte to truncate at, once the line is found too wide. *)
Fixpoint truncate_loop (truncate_width suffix_width : Pixels) (w : LineWrapper) (cs : list (nat * char)) (width : Pixels) (truncate_ix : nat) :
    LineWrapper * option nat :=
  match cs with
  | [] => (w, None)
  | (ix, c) :: cs =>
      let truncate_ix := if (width + suffix_width <? truncate_width)%Z then ix else truncate_ix in
      let (w, char_width) := width_for_char w c in
      let width := (width + char_width)%Z in
      if (truncate_width <? pixel_floor width)%Z then (w, Some truncate_ix)
      else truncate_loop truncate_width suffix_width w cs width truncate_ix
  end.

Definition truncate_line (w : LineWrapper) (line : str) (truncate_width : Pixels) (truncation_suffix : str) (runs : list TextRun) :
    outcome (LineWrapper * str * list TextRun) :=
  let (w, suffix_width) := text_width w truncation_suffix 0 in
  match truncate_loop truncate_width suffix_width w (char_indices 0 line) 0 0 with
  | (w, None) => Ok (w, line, runs)
  | (w, Some truncate_ix) =>
      let! (kept, _) := str_split_at line truncate_ix in
      let truncated := trim_end_matches (fun c => is_whitespace c || is_ascii_punctuation c) kept in
      let result := truncated ++ truncation_suffix in
      let! runs := update_runs_after_truncation result truncation_suffix runs in
      Ok (w, result, runs)
  end.
End Widths.

(** ** The caches *)

Section Caches.
Context `{PlatformTextSystem}.

(** Every width cached is the platform's. *)
Definition cache_ok (w : LineWrapper) : Prop :=
  (forall c v, cached_ascii_char_widths w !! c = Some v -> v = compute_width_for_char w c) /\
  (forall c v, cached_other_char_widths w !! c = Some v -> v = compute_width_for_char w c).

(** The same font and size, and right caches. *)
Definition same_wrapper (w w' : LineWrapper) : Prop :=
  wrapper_font w' = wrapper_font w /\ wrapper_size w' = wrapper_size w /\ cache_ok w'.

Lemma same_wrapper_width w w' c : same_wrapper w w' -> compute_width_for_char w' c = compute_width_for_char w c.
Proof. intros (Hf & Hs & _). unfold compute_width_for_char. by rewrite Hf, Hs. Qed.

Lemma same_wrapper_trans w w' w'' : same_wrapper w w' -> same_wrapper w' w'' -> same_wrapper w w''.
Proof. intros (H1 & H2 & _) (H3 & H4 & H5). split_and!; [congruence..|done]. Qed.

Lemma width_for_char_ok w c : cache_ok w -> exists w', width_for_char w c = (w', compute_width_for_char w c) /\ same_wrapper w w'.
Proof.
  intros Hw. pose proof Hw as [Ha Ho]. unfold width_for_char. destruct (c <? 128)%N.
  - destruct (cached_ascii_char_widths w !! c) as [v|] eqn:E.
    + exists w. split; [by rewrite (Ha _ _ E)|done].
    + eexists. split; [done|]. split_and!; [done|done|]. split; [|exact Ho]. cbn. intros d v [[<- <-]|[_ Hd]]%lookup_insert_Some; [done|by apply Ha].
  - destruct (cached_other_char_widths w !! c) as [v|] eqn:E.
    + exists w. split; [by rewrite (Ho _ _ E)|done].
    + eexists. split; [done|]. split_and!; [done|done|]. split; [exact Ha|]. cbn. intros d v [[<- <-]|[_ Hd]]%lookup_insert_Some; [done|by apply Ho].
Qed.
End Caches.

(** ** The loop with given widths *)

Section Pure.
Context (char_width : char -> Pixels) (wrap_width : Pixels) (indent_adjustment : IndentAdjustment).

Definition finish_item (st : WrapState) (ix : nat) (item_width : Pixels) (new_prev_c : char) : WrapState * option Boundary :=
  let st := add_width st item_width in
  if (wrap_width <? width st)%Z && (last_wrap_ix st <? ix) then
    let (st, b) := wrap_row wrap_width indent_adjustment (char_width space) st ix item_width in (st, Some b)
  else (after_char st new_prev_c, None).

Definition pure_step (st : WrapState) (cand : WrapBoundaryCandidate) : WrapState * option Boundary :=
  let ix := at_index st in
  let st := at_ix st (ix + candidate_len cand) in
  match cand with
  | CandidateChar c =>
      if (c =? newline)%N then (st, None)
      else finish_item (note_item st ix (wraps_before (prev_c st) c) (negb (c =? space)%N)) ix (char_width c) c
  | CandidateElement item_width _ =>
      let st := note_item st ix (prev_c st =? space)%N true in
      finish_item st ix item_width (prev_c st)
  end.

Fixpoint pure_all (st : WrapState) (cands : list WrapBoundaryCandidate) : list Boundary :=
  match cands with
  | [] => []
  | c :: cands =>
      match pure_step st c with
      | (st, Some b) => b :: pure_all st cands
      | (st, None) => pure_all st cands
      end
  end.

End Pure.

Section WithCache.
Context `{PlatformTextSystem} (wrap_width : Pixels) (indent_adjustment : IndentAdjustment).

Lemma wrap_step_pure w st c : cache_ok w -> exists w', same_wrapper w w' /\
  wrap_step wrap_width indent_adjustment w st c =
    (w', (pure_step (compute_width_for_char w) wrap_width indent_adjustment st c).1, (pure_step (compute_width_for_char w) wrap_width indent_adjustment st c).2).
Proof.
  intros Hw.
  assert (Hfin : forall w1 st ix iw c, same_wrapper w w1 -> exists w', same_wrapper w w' /\
    (if (wrap_width <? width (add_width st iw))%Z && (last_wrap_ix (add_width st iw) <? ix) then
       let (w, space_width) := width_for_char w1 space in
       let (st, b) := wrap_row wrap_width indent_adjustment space_width (add_width st iw) ix iw in (w, st, Some b)
     else (w1, after_char (add_width st iw) c, None)) =
    (w', (finish_item (compute_width_for_char w) wrap_width indent_adjustment st ix iw c).1, (finish_item (compute_width_for_char w) wrap_width indent_adjustment st ix iw c).2)).
  { intros w1 st' ix iw c' Hs. unfold finish_item. destruct ((wrap_width <? width (add_width st' iw))%Z && _); [|by exists w1].
    destruct (width_for_char_ok w1 space (proj2 (proj2 Hs))) as (w2 & E & Hs2). rewrite E, (same_wrapper_width w w1 _ Hs).
    exists w2. split; [by eapply same_wrapper_trans|]. by destruct (wrap_row _ _ _ _ _ _). }
  unfold wrap_step, pure_step. destruct c as [c|iw len].
  - destruct (c =? newline)%N; [by exists w|]. destruct (width_for_char_ok w c Hw) as (w1 & E & Hs). rewrite E. by apply Hfin.
  - by apply Hfin.
Qed.

Lemma pure_all_same w w1 st cands : same_wrapper w w1 ->
  pure_all (compute_width_for_char w1) wrap_width indent_adjustment st cands = pure_all (compute_width_for_char w) wrap_width indent_adjustment st cands.
Proof.
  intros Hs. revert st. induction cands as [|c cands IH]; intros st; [done|]. cbn [pure_all].
  replace (pure_step (compute_width_for_char w1) wrap_width indent_adjustment st c) with (pure_step (compute_width_for_char w) wrap_width indent_adjustment st c).
  - by destruct (pure_step _ _ _ st c) as [? [?|]]; rewrite IH.
  - unfold pure_step, finish_item. rewrite (same_wrapper_width w w1 space Hs). destruct c as [c|]; [by rewrite (same_wrapper_width w w1 c Hs)|done].
Qed.

(** The iterator gives the boundaries of the loop, and ends. *)
Lemma collect_boundaries_pure fuel w st cands : cache_ok w -> length cands < fuel ->
  exists w', same_wrapper w w' /\ collect_boundaries wrap_width indent_adjustment fuel w st cands =
    Ok (w', pure_all (compute_width_for_char w) wrap_width indent_adjustment st cands).
Proof.
  intros Hw. revert w st cands Hw. induction fuel as [|fuel IH]; intros w st cands Hw Hlen; [lia|]. cbn [collect_boundaries].
  assert (Hnext : exists w' st' rest ob, same_wrapper w w' /\ next_boundary wrap_width indent_adjustment w st cands = (w', st', rest, ob) /\
    match ob with
    | None => pure_all (compute_width_for_char w) wrap_width indent_adjustment st cands = []
    | Some b => pure_all (compute_width_for_char w) wrap_width indent_adjustment st cands = b :: pure_all (compute_width_for_char w) wrap_width indent_adjustment st' rest /\ length rest < length cands
    end).
  { clear Hlen IH. revert w st Hw. induction cands as [|c cands IHc]; intros w st Hw; cbn [next_boundary pure_all].
    - by exists w, st, [], None.
    - destruct (wrap_step_pure w st c Hw) as (w1 & Hs & E). rewrite E.
      destruct (pure_step _ _ _ st c) as [st1 [b|]]; cbn [fst snd].
      + exists w1, st1, cands, (Some b). split_and!; [done|done|done|cbn; lia].
      + destruct (IHc w1 st1 (proj2 (proj2 Hs))) as (w2 & st2 & rest & ob & Hs2 & E2 & Hob). rewrite E2.
        exists w2, st2, rest, ob. rewrite !(pure_all_same w w1 _ _ Hs) in Hob. split_and!; [by eapply same_wrapper_trans|done|].
        destruct ob; [|done]. split; [apply Hob|]. destruct Hob as [_ ?]. cbn. lia. }
  destruct Hnext as (w1 & st1 & rest & ob & Hs & E & Hob). rewrite E. destruct ob as [b|].
  - destruct Hob as [-> Hlt]. destruct (IH w1 st1 rest (proj2 (proj2 Hs))) as (w2 & Hs2 & E2); [lia|]. rewrite E2. cbn [obind].
    exists w2. split; [by eapply same_wrapper_trans|]. by rewrite (pure_all_same w w1 _ _ Hs).
  - exists w1. by rewrite Hob.
Qed.
End WithCache.

(** ** Rows *)

Record Item := mkItem { it_ix : nat; it_width : Pixels }.

(** The end of an item, in bytes, is known from the next; newlines have no item. *)
Fixpoint items_of (char_width : char -> Pixels) (i : nat) (cands : list WrapBoundaryCandidate) : list Item :=
  match cands with
  | [] => []
  | CandidateChar c :: cands =>
      let rest := items_of char_width (i + len_utf8 c) cands in
      if (c =? newline)%N then rest else mkItem i (char_width c) :: rest
  | CandidateElement w len :: cands => mkItem i w :: items_of char_width (i + len) cands
  end.

(** Elements have a width and a length. *)
Definition candidate_ok (c : WrapBoundaryCandidate) : Prop :=
  match c with CandidateChar _ => True | CandidateElement w len => (0 <= w)%Z /\ 0 < len end.

Definition total (items : list Item) : Pixels := foldr (fun i t => it_width i + t)%Z 0%Z items.

Lemma total_app a b : total (a ++ b) = (total a + total b)%Z.
Proof. induction a as [|i a IH]; [done|]. cbn. fold (total (a ++ b)) (total a). lia. Qed.

Lemma total_nonneg items : Forall (fun i => 0 <= it_width i)%Z items -> (0 <= total items)%Z.
Proof. induction 1 as [|i items Hi _ IH]; cbn; [done|]. fold (total items). lia. Qed.

Section Rows.
Context (char_width : char -> Pixels) (wrap_width : Pixels) (indent_adjustment : IndentAdjustment).
Local Abbreviation space_width := (char_width space).

(** A row indented by [d] columns. *)
Definition row_fits (d : Z) (row : list Item) : Prop :=
  ((total row <= wrap_width)%Z \/ length row <= 1) /\
  (indent_adjustment <> SameIndent -> (space_width * d + total row <= wrap_width)%Z \/ length row <= 1 /\ d = 0%Z).

(** The rows after the first: the indent, the first item and the others. *)
Definition row_items (rows : list (Z * Item * list Item)) : list Item := flat_map (fun r => r.1.2 :: r.2) rows.

Definition row_boundary (r : Z * Item * list Item) : Boundary := mkIndented (it_ix r.1.2) r.1.1.

(** Every row fits, and would not with the items of the next row up to one of them. *)
Fixpoint rows_ok (d : Z) (row : list Item) (rows : list (Z * Item * list Item)) : Prop :=
  match rows with
  | [] => row_fits d row
  | (d', c, r) :: rows =>
      row_fits d row /\ (0 <= d' <= MAX_INDENT)%Z /\
      (exists p t q, c :: r = p ++ t :: q /\ (wrap_width < space_width * d + total (row ++ p ++ [t]))%Z) /\
      rows_ok d' (c :: r) rows
  end.

Context (Hwidths : forall c, (0 <= char_width c)%Z).
Context (Hextra : match indent_adjustment with ExtraColumns extra => (0 <= extra)%Z | _ => True end).

(** The candidate kept in the state begins [suf]. *)
Definition candidate_kept (st : WrapState) (pre suf : list Item) (d : Z) : Prop :=
  match suf with
  | [] => last_candidate_ix st = 0
  | c :: _ => last_candidate_ix st = it_ix c /\ 0 < it_ix c /\ last_candidate_width st = (space_width * d + total pre)%Z
  end.

(** The state of the loop: the row so far is [pre ++ suf], where [suf] begins with the
    candidate that is kept. *)
Record wrap_state_ok (st : WrapState) (pre suf : list Item) (d : Z) : Prop := mkWrapStateOk {
  wk_width : width st = (space_width * d + total (pre ++ suf))%Z;
  wk_cand : candidate_kept st pre suf d;
  wk_start : pre = [] -> suf = [] /\ first_non_whitespace_ix st = None /\ d = 0%Z /\ last_wrap_ix st = 0;
  wk_past : pre <> [] -> last_wrap_ix st < at_index st;
  wk_fits : row_fits d (pre ++ suf);
  wk_items : Forall (fun i => 0 <= it_width i)%Z (pre ++ suf);
  wk_before : Forall (fun i => it_ix i < at_index st) (pre ++ suf);
  wk_indent : (0 <= d)%Z;
  wk_base : match base_indent st with Some b => (0 <= b <= MAX_INDENT)%Z | None => True end;
}.

Lemma indent_after_ok base carried : match base with Some b => (0 <= b <= MAX_INDENT)%Z | None => True end ->
  (0 <= indent_after wrap_width indent_adjustment space_width base carried <= MAX_INDENT)%Z /\
  (indent_adjustment <> SameIndent -> indent_after wrap_width indent_adjustment space_width base carried = 0%Z \/
    (space_width * indent_after wrap_width indent_adjustment space_width base carried + carried <= wrap_width)%Z).
Proof using Hwidths Hextra.
  intros Hb. pose proof (Hwidths space) as Hs. unfold indent_after, MAX_INDENT in *. destruct indent_adjustment as [| |extra].
  - split; [lia|]. by left.
  - split; [destruct base; cbn; lia|done].
  - destruct base as [b|]; [|split; [lia|by left]]. unfold u32_max.
    destruct (Z.ltb_spec wrap_width (space_width * Z.min (2 ^ 32 - 1) (b + extra) + Z.max carried (space_width * 2))); (split; [lia|]); [by left|].
    intros _. right. assert (space_width * Z.min 256 (Z.min (2 ^ 32 - 1) (b + extra)) <= space_width * Z.min (2 ^ 32 - 1) (b + extra))%Z by (apply Z.mul_le_mono_nonneg_l; lia). lia.
Qed.

Lemma new_base_ok st : match base_indent st with Some b => (0 <= b <= MAX_INDENT)%Z | None => True end ->
  match new_base_indent st with Some b => (0 <= b <= MAX_INDENT)%Z | None => True end.
Proof using.
  unfold new_base_indent, MAX_INDENT. destruct (base_indent st); [done|]. destruct (first_non_whitespace_ix st); [|done]. intros _.
  pose proof (Z.mod_pos_bound (Z.of_nat (n - last_wrap_ix st)) (2 ^ 32) eq_refl). lia.
Qed.

Lemma row_fits_prefix d a b : (0 <= d)%Z -> Forall (fun i => 0 <= it_width i)%Z (a ++ b) -> row_fits d (a ++ b) -> row_fits d a.
Proof using Hwidths.
  intros Hd [_ Hb%total_nonneg]%Forall_app [H1 H2]. unfold row_fits. rewrite total_app, length_app in *. split.
  - destruct H1; [left; lia|right; lia].
  - intros Hn. destruct (H2 Hn) as [H|[H ->]]; [left; lia|right; lia].
Qed.

(** Noting the item [k] to come: the candidate may be the item itself. *)
Lemma note_item_ok st pre suf d k starts solid len : wrap_state_ok st pre suf d -> it_ix k = at_index st -> 0 < len ->
  let st1 := note_item (at_ix st (it_ix k + len)) (it_ix k) starts solid in
  exists pre2 suf2, pre2 ++ suf2 = (pre ++ suf) ++ [k] /\ (exists more, pre2 = pre ++ more) /\ candidate_kept st1 pre2 suf2 d /\
    (suf2 = [] \/ pre2 <> [] /\ exists r, pre ++ suf = pre2 ++ r) /\
    width st1 = width st /\ last_wrap_ix st1 = last_wrap_ix st /\ base_indent st1 = base_indent st /\ at_index st1 = it_ix k + len.
Proof using.
  intros Hs Ek Hlen. cbn zeta. unfold note_item. cbn [at_ix first_non_whitespace_ix width last_candidate_ix last_candidate_width last_wrap_ix base_indent prev_c at_index].
  assert (Hun : forall st1, last_candidate_ix st1 = last_candidate_ix st -> last_candidate_width st1 = last_candidate_width st ->
    exists pre2 suf2, pre2 ++ suf2 = (pre ++ suf) ++ [k] /\ (exists more, pre2 = pre ++ more) /\ candidate_kept st1 pre2 suf2 d /\
      (suf2 = [] \/ pre2 <> [] /\ exists r, pre ++ suf = pre2 ++ r)).
  { intros st1 E1 E2. pose proof (wk_cand _ _ _ _ Hs) as Hc. unfold candidate_kept in Hc |- *. destruct suf as [|c mid].
    - exists (pre ++ [k]), []. rewrite !app_nil_r, E1. split_and!; [done|by exists [k]|done|by left].
    - exists pre, ((c :: mid) ++ [k]). rewrite E1, E2. cbn [app]. split_and!; [by rewrite <- app_assoc|by exists []; rewrite app_nil_r|apply Hc..|].
      right. split; [|by eexists]. intros E. by destruct (wk_start _ _ _ _ Hs E). }
  destruct (first_non_whitespace_ix st) as [f|] eqn:Ef; [destruct starts|].
  - assert (Hne : pre <> []) by (intros E; destruct (wk_start _ _ _ _ Hs E) as (_ & ? & _); congruence).
    pose proof (wk_past _ _ _ _ Hs Hne). exists (pre ++ suf), [k]. unfold candidate_kept. cbn [last_candidate_ix last_candidate_width].
    split_and!; [done|by exists suf|done|lia|apply (wk_width _ _ _ _ Hs)| |done..].
    right. split; [intros [? _]%app_nil; done|exists []; by rewrite app_nil_r].
  - destruct (Hun (mkWrapState (width st) (Some f) (base_indent st) (last_candidate_ix st) (last_candidate_width st) (last_wrap_ix st) (prev_c st) (it_ix k + len))) as (p2 & s2 & H1 & H2 & H3 & H4); [done|done|].
    exists p2, s2. by split_and!.
  - match goal with |- context [candidate_kept ?st1] => destruct (Hun st1) as (p2 & s2 & H1 & H2 & H3 & H4); [done|done|] end.
    exists p2, s2. by split_and!.
Qed.

(** *** The item fits, or is the first *)
Lemma item_kept st st1 pre suf pre2 suf2 d k len c : wrap_state_ok st pre suf d -> it_ix k = at_index st -> 0 < len -> (0 <= it_width k)%Z ->
  pre2 ++ suf2 = (pre ++ suf) ++ [k] -> (exists more, pre2 = pre ++ more) -> candidate_kept st1 pre2 suf2 d -> (suf2 = [] \/ pre2 <> [] /\ exists r, pre ++ suf = pre2 ++ r) ->
  width st1 = width st -> last_wrap_ix st1 = last_wrap_ix st -> base_indent st1 = base_indent st -> at_index st1 = it_ix k + len ->
  (wrap_width <? width (add_width st1 (it_width k)))%Z && (last_wrap_ix st1 <? it_ix k) = false ->
  wrap_state_ok (after_char (add_width st1 (it_width k)) c) pre2 suf2 d.
Proof using Hwidths.
  intros Hs Ek Hlen Hk E [more Hmore] Hc Hsuf Hw Hlw Hb Hat Hwrap. pose proof Hs as [W C S P F I J D B]. pose proof (Hwidths space).
  assert (HW : (width st1 + it_width k)%Z = (space_width * d + total (pre2 ++ suf2))%Z).
  { rewrite Hw, W, E, (total_app (pre ++ suf)). cbn. lia. }
  assert (Hlt : last_wrap_ix st1 < it_ix k + len).
  { rewrite Hlw. destruct (decide (pre = [])) as [Hn|Hn]; [destruct (S Hn) as (_ & _ & _ & ->); lia|specialize (P Hn); lia]. }
  cbn [width add_width] in Hwrap. constructor; cbn; try done.
  - intros ->. destruct Hsuf as [->|[? _]]; [|done]. cbn in E. by destruct (pre ++ suf).
  - intros _. rewrite Hat. done.
  - rewrite E. apply andb_false_iff in Hwrap as [Hge%Z.ltb_ge|Hge%Nat.ltb_ge].
    + rewrite HW, E in Hge. split; [left; nia|intros _; by left].
    + destruct (decide (pre = [])) as [->|Hn]; [|specialize (P Hn); lia]. destruct (S eq_refl) as (-> & _ & -> & _). split; [by right|intros _; by right].
  - rewrite E. apply Forall_app. split; [done|by repeat constructor].
  - rewrite E, Hat. apply Forall_app. split; [eapply Forall_weaken; [|exact J]; cbn; lia|repeat constructor; lia].
  - by rewrite Hb.
Qed.

(** *** The item overflows *)
Lemma item_wrapped st st1 pre suf pre2 suf2 d k len : wrap_state_ok st pre suf d -> it_ix k = at_index st -> 0 < len -> (0 <= it_width k)%Z ->
  pre2 ++ suf2 = (pre ++ suf) ++ [k] -> (exists more, pre2 = pre ++ more) -> candidate_kept st1 pre2 suf2 d -> (suf2 = [] \/ pre2 <> [] /\ exists r, pre ++ suf = pre2 ++ r) ->
  width st1 = width st -> last_wrap_ix st1 = last_wrap_ix st -> base_indent st1 = base_indent st -> at_index st1 = it_ix k + len ->
  (wrap_width < width (add_width st1 (it_width k)))%Z ->
  exists row c mid d' st', wrap_row wrap_width indent_adjustment space_width (add_width st1 (it_width k)) (it_ix k) (it_width k) = (st', mkIndented (it_ix c) d') /\
    (pre ++ suf) ++ [k] = row ++ c :: mid /\ (exists more, row = pre ++ more) /\ row_fits d row /\ (0 <= d' <= MAX_INDENT)%Z /\
    (wrap_width < space_width * d + total ((pre ++ suf) ++ [k]))%Z /\ wrap_state_ok st' (c :: mid) [] d'.
Proof using Hwidths Hextra.
  intros Hs Ek Hlen Hk E [more Hmore] Hc Hsuf Hw Hlw Hb Hat Hwrap. pose proof Hs as [W C S P F I J D B].
  set (st2 := add_width st1 (it_width k)) in *.
  assert (HW : width st2 = (space_width * d + total (pre2 ++ suf2))%Z).
  { cbn. rewrite Hw, W, E, (total_app (pre ++ suf)). cbn. lia. }
  pose proof (new_base_ok st2 ltac:(cbn; by rewrite Hb)) as Hbase.
  pose proof (indent_after_ok (new_base_indent st2) (carried_width wrap_width st2 (it_width k)) Hbase) as [Hd' Hfit].
  set (d' := indent_after _ _ _ _ _) in *. unfold wrap_row. fold d'.
  rewrite HW, E in Hwrap. destruct (wrap_at_candidate wrap_width st2) eqn:Ec; unfold carried_width in Hfit; rewrite Ec in Hfit.
  - unfold wrap_at_candidate in Ec. apply andb_true_iff in Ec as [Hpos%Nat.ltb_lt Hle%Z.leb_le]. cbn in Hpos.
    destruct suf2 as [|c mid]; [unfold candidate_kept in Hc; lia|]. destruct Hc as (Hci & Hcp & Hcw).
    destruct Hsuf as [?|[Hne [r Hr]]]; [done|].
    assert (Hcar : (width st2 - last_candidate_width st2)%Z = total (c :: mid)).
    { rewrite HW. change (last_candidate_width st2) with (last_candidate_width st1). rewrite Hcw, total_app. lia. }
    change (last_candidate_ix st2) with (last_candidate_ix st1). rewrite Hci, Hcar in *. exists pre2, c, mid, d'.
    assert (HI : Forall (fun i => (0 <= it_width i)%Z /\ it_ix i < at_index st1) (c :: mid)).
    { apply (Forall_app _ pre2). rewrite E. apply Forall_app. split; [|repeat constructor; [done|lia]]. apply Forall_and. split; [done|].
      eapply Forall_weaken; [|exact J]. cbn. lia. }
    apply Forall_and in HI as [HI1 HI2]. eexists. split_and!; [reflexivity|by rewrite <- E|by exists more| |lia|lia|lia|].
    + apply (row_fits_prefix d pre2 r); [done|by rewrite <- Hr..].
    + constructor; cbn; rewrite ?app_nil_r; try done; [fold (total mid); lia|intros _; by inversion HI2| |lia].
      split; [by left|]. intros Hn. destruct (Hfit Hn) as [->|?]; [left; lia|by left].
  - exists (pre ++ suf), k, [], d'. eexists. split_and!; [reflexivity|done|by exists suf|done|lia|lia|lia|].
    constructor; cbn; rewrite ?Z.add_0_r; try done; [lia|intros _; lia| |by repeat constructor|repeat constructor; lia|lia].
    split; [by right|]. intros Hn. cbn. rewrite Z.add_0_r. destruct (Hfit Hn) as [->|?]; [by right|by left].
Qed.

(** One item: the row goes on, or a row ends. *)
Lemma finish_item_ok st pre suf d k starts solid len c : wrap_state_ok st pre suf d -> it_ix k = at_index st -> 0 < len -> (0 <= it_width k)%Z ->
  let res := finish_item char_width wrap_width indent_adjustment (note_item (at_ix st (it_ix k + len)) (it_ix k) starts solid) (it_ix k) (it_width k) c in
  at_index res.1 = it_ix k + len /\
  match res.2 with
  | None => exists pre2 suf2, pre2 ++ suf2 = (pre ++ suf) ++ [k] /\ (exists more, pre2 = pre ++ more) /\ wrap_state_ok res.1 pre2 suf2 d
  | Some b => exists row c mid d', b = mkIndented (it_ix c) d' /\ (pre ++ suf) ++ [k] = row ++ c :: mid /\ (exists more, row = pre ++ more) /\
      row_fits d row /\ (0 <= d' <= MAX_INDENT)%Z /\ (wrap_width < space_width * d + total ((pre ++ suf) ++ [k]))%Z /\ wrap_state_ok res.1 (c :: mid) [] d'
  end.
Proof using Hwidths Hextra.
  intros Hs Ek Hlen Hk. cbn zeta.
  destruct (note_item_ok st pre suf d k starts solid len Hs Ek Hlen) as (pre2 & suf2 & E & Hm & Hc & Hsuf & Hw & Hlw & Hb & Hat).
  set (st1 := note_item _ _ _ _) in *. unfold finish_item.
  destruct ((wrap_width <? width (add_width st1 (it_width k)))%Z && (last_wrap_ix (add_width st1 (it_width k)) <? it_ix k)) eqn:Hwrap.
  - apply andb_true_iff in Hwrap as [Hover%Z.ltb_lt _].
    destruct (item_wrapped st st1 pre suf pre2 suf2 d k len Hs Ek Hlen Hk E Hm Hc Hsuf Hw Hlw Hb Hat Hover) as (row & c' & mid & d' & st' & Er & H1 & H2 & H3 & H4 & H5 & H6).
    assert (Hst' : at_index st' = it_ix k + len).
    { unfold wrap_row in Er. destruct (wrap_at_candidate _ _); injection Er as <- _; exact Hat. }
    rewrite Er. cbn [fst snd]. split; [done|]. by exists row, c', mid, d'.
  - split; [exact Hat|]. exists pre2, suf2. split_and!; [done|done|]. by apply (item_kept st st1 pre suf pre2 suf2 d k len c).
Qed.

Lemma skip_ok st pre suf d i : wrap_state_ok st pre suf d -> at_index st <= i -> wrap_state_ok (at_ix st i) pre suf d.
Proof using.
  intros [W C S P F I J D B] Hi. constructor; cbn; try done.
  - intros Hn. specialize (P Hn). lia.
  - eapply Forall_weaken; [|exact J]. cbn. lia.
Qed.

(** The rows from the one that is going on. *)
Definition rows_from (cands : list WrapBoundaryCandidate) (st : WrapState) (pre suf : list Item) (d : Z) (bs : list Boundary) : Prop :=
  exists row rows, bs = map row_boundary rows /\
    pre ++ suf ++ items_of char_width (at_index st) cands = row ++ row_items rows /\ (exists more, row = pre ++ more) /\ rows_ok d row rows.

Lemma rows_from_item st pre suf d k starts solid len c cands : wrap_state_ok st pre suf d -> it_ix k = at_index st -> 0 < len -> (0 <= it_width k)%Z ->
  (forall st' pre' suf' d', wrap_state_ok st' pre' suf' d' -> rows_from cands st' pre' suf' d' (pure_all char_width wrap_width indent_adjustment st' cands)) ->
  let res := finish_item char_width wrap_width indent_adjustment (note_item (at_ix st (it_ix k + len)) (it_ix k) starts solid) (it_ix k) (it_width k) c in
  exists row rows,
    match res.2 with
    | Some b => b :: pure_all char_width wrap_width indent_adjustment res.1 cands
    | None => pure_all char_width wrap_width indent_adjustment res.1 cands
    end = map row_boundary rows /\
    pre ++ suf ++ k :: items_of char_width (it_ix k + len) cands = row ++ row_items rows /\ (exists more, row = pre ++ more) /\ rows_ok d row rows.
Proof using Hwidths Hextra.
  intros Hs Ek Hlen Hk IH. destruct (finish_item_ok st pre suf d k starts solid len c Hs Ek Hlen Hk) as [Hat Hres]. cbn zeta in *.
  set (res := finish_item _ _ _ _ _ _ _) in *. destruct res.2 as [b|].
  - destruct Hres as (row & c' & mid & d' & -> & H1 & H2 & H3 & H4 & H5 & H6).
    destruct (IH _ _ _ _ H6) as (row' & rows & E1 & E2 & (more & ->) & E3). rewrite Hat in E2. cbn [app] in E2.
    exists row, ((d', c', mid ++ more) :: rows). cbn [map fst snd]. split_and!; [by rewrite E1| |done|].
    + rewrite app_assoc. change (k :: items_of char_width (it_ix k + len) cands) with ([k] ++ items_of char_width (it_ix k + len) cands).
      rewrite (app_assoc _ [k]), H1, <- app_assoc. f_equal. exact E2.
    + cbn [rows_ok]. split_and!; [done|lia|lia| |exact E3].
      destruct (exists_last (l := c' :: mid)) as (p & t & Ep); [done|]. exists p, t, more.
      split; [by rewrite app_comm_cons, Ep, <- app_assoc|by rewrite <- Ep, <- H1].
  - destruct Hres as (pre2 & suf2 & H1 & (more & ->) & H3). destruct (IH _ _ _ _ H3) as (row & rows & E1 & E2 & (more' & ->) & E3).
    exists ((pre ++ more) ++ more'), rows. split_and!; [done| |exists (more ++ more'); by rewrite app_assoc|done].
    rewrite <- E2, Hat, (app_assoc (pre ++ more)), H1, <- !app_assoc. done.
Qed.

Lemma pure_all_rows cands st pre suf d : Forall candidate_ok cands -> wrap_state_ok st pre suf d ->
  rows_from cands st pre suf d (pure_all char_width wrap_width indent_adjustment st cands).
Proof using Hwidths Hextra.
  intros Hok. revert st pre suf d. induction Hok as [|c cands Hc _ IH]; intros st pre suf d Hs.
  - exists (pre ++ suf), []. cbn. rewrite !app_nil_r. split_and!; [done|done|by exists suf|apply Hs].
  - unfold rows_from. cbn [pure_all items_of]. unfold pure_step. destruct c as [c|iw len]; cbn [candidate_len candidate_ok] in *.
    + pose proof (len_utf8_pos c) as Hlen. destruct (c =? newline)%N.
      * apply IH. apply skip_ok; [done|lia].
      * pose proof (rows_from_item st pre suf d (mkItem (at_index st) (char_width c)) (wraps_before (prev_c (at_ix st (at_index st + len_utf8 c))) c) (negb (c =? space)%N)
          (len_utf8 c) c cands Hs eq_refl Hlen (Hwidths c) (fun st' pre' suf' d' H => IH st' pre' suf' d' H)) as H. cbn [it_ix it_width] in H.
        destruct (finish_item _ _ _ _ _ _ _) as [st' [b|]]; exact H.
    + destruct Hc as [Hiw Hlen].
      pose proof (rows_from_item st pre suf d (mkItem (at_index st) iw) (prev_c (at_ix st (at_index st + len)) =? space)%N true
        len (prev_c (note_item (at_ix st (at_index st + len)) (at_index st) (prev_c (at_ix st (at_index st + len)) =? space)%N true)) cands Hs eq_refl Hlen Hiw
        (fun st' pre' suf' d' H => IH st' pre' suf' d' H)) as H. cbn [it_ix it_width] in H.
      destruct (finish_item _ _ _ _ _ _ _) as [st' [b|]]; exact H.
Qed.

Lemma wrap_start_ok : wrap_state_ok wrap_start [] [] 0.
Proof using.
  constructor; cbn; try done; [lia|]. split; [right; cbn; lia|intros _; right; cbn; lia].
Qed.
End Rows.

(** ** The theorem on wrapping *)

Section WrapLine.
Context `{PlatformTextSystem}.

(** C9: the iterator ends, and gives the boundaries of rows that cut the line: each begins with the item at the boundary's byte and is indented by at most 256 columns; a row's items fit in the wrap width unless the row is a single item, and, unless continuation lines keep the line's own indent, so they do with the row's indent; and a row ends only because, with the first items of the very next row, up to one of these, it would exceed the width: any two rows together do.  The wrapper's caches do not change the answer. *)
Theorem wrap_line_correct (w : LineWrapper) (fragments : list LineFragment) (wrap_width : Pixels) (indent_adjustment : IndentAdjustment)
    (Hw : cache_ok w) (Hwidths : forall c, (0 <= compute_width_for_char w c)%Z)
    (Hextra : match indent_adjustment with ExtraColumns extra => (0 <= extra)%Z | _ => True end)
    (Hfrag : Forall (fun f => match f with FragmentText _ => True | FragmentElement width len => (0 <= width)%Z /\ 0 < len end) fragments) :
  exists w' row rows,
    wrap_line wrap_width indent_adjustment w fragments = Ok (w', map row_boundary rows) /\ same_wrapper w w' /\
    items_of (compute_width_for_char w) 0 (flat_map wrap_boundary_candidates fragments) = row ++ row_items rows /\
    rows_ok (compute_width_for_char w) wrap_width indent_adjustment 0 row rows.
Proof.
  assert (Hc : Forall candidate_ok (flat_map wrap_boundary_candidates fragments)).
  { clear -Hfrag. induction Hfrag as [|f fs Hf _ IH]; [constructor|]. cbn. apply Forall_app. split; [|done].
    destruct f as [t|iw len]; cbn; [|constructor; [exact Hf|constructor]]. rewrite Forall_map. by apply Forall_elem. }
  destruct (collect_boundaries_pure wrap_width indent_adjustment (S (length (flat_map wrap_boundary_candidates fragments))) w wrap_start
    (flat_map wrap_boundary_candidates fragments) Hw ltac:(lia)) as (w' & Hs & E).
  destruct (pure_all_rows _ wrap_width indent_adjustment Hwidths Hextra _ _ _ _ _ Hc (wrap_start_ok _ wrap_width indent_adjustment)) as (row & rows & E1 & E2 & _ & E3).
  exists w', row, rows. unfold wrap_line. rewrite E, E1. split_and!; [done|done|exact E2|done].
Qed.
End WrapLine.

(** ** Truncation *)

Definition str_width (cw : char -> Pixels) (s : str) : Pixels := foldr (fun c t => cw c + t)%Z 0%Z s.

Lemma str_width_app cw a b : str_width cw (a ++ b) = (str_width cw a + str_width cw b)%Z.
Proof. induction a as [|c a IH]; [done|]. cbn. fold (str_width cw (a ++ b)) (str_width cw a). lia. Qed.

Lemma str_width_nonneg cw s : (forall c, 0 <= cw c)%Z -> (0 <= str_width cw s)%Z.
Proof. intros H. induction s as [|c s IH]; [done|]. cbn. fold (str_width cw s). specialize (H c). lia. Qed.

Lemma trim_end_prefix p s : exists t, s = trim_end_matches p s ++ t /\ Forall (fun c => p c = true) t.
Proof.
  exists (rev (take_while p (rev s))). unfold trim_end_matches. rewrite <- rev_app_distr, take_skip_while, rev_involutive. split; [done|].
  apply Forall_rev, take_while_Forall.
Qed.

Lemma truncate_runs_len n e rs : n < runs_len rs -> runs_len (truncate_runs n e rs) = n + e.
Proof.
  revert n. induction rs as [|r rs IH]; intros n; [by cbn; lia|]. unfold runs_len in *. cbn. intros Hn. destruct (Nat.leb_spec (text_len r) n); cbn; [|lia].
  rewrite IH by lia. lia.
Qed.

(** The runs kept are the first ones, with their styles. *)
Lemma truncate_runs_styles n e rs : exists k, map (fun r => with_text_len r 0) (truncate_runs n e rs) = take k (map (fun r => with_text_len r 0) rs).
Proof.
  revert n. induction rs as [|r rs IH]; intros n; [by exists 0|]. cbn. destruct (text_len r <=? n).
  - destruct (IH (n - text_len r)) as [k E]. exists (S k). cbn. by rewrite E.
  - exists 1. cbn. by rewrite take_0.
Qed.

Section TruncateLine.
Context `{PlatformTextSystem, Unicode}.

Lemma text_width_ok w s t : cache_ok w -> exists w', text_width w s t = (w', t + str_width (compute_width_for_char w) s)%Z /\ same_wrapper w w'.
Proof.
  revert w t. induction s as [|c s IH]; intros w t Hw; [exists w; split; [by rewrite Z.add_0_r|done]|]. cbn [text_width].
  destruct (width_for_char_ok w c Hw) as (w1 & E & Hs). rewrite E. destruct (IH w1 (t + compute_width_for_char w c)%Z (proj2 (proj2 Hs))) as (w2 & E2 & Hs2).
  rewrite E2. exists w2. split; [|by eapply same_wrapper_trans]. f_equal. cbn. fold (str_width (compute_width_for_char w) s).
  assert (Ew : str_width (compute_width_for_char w1) s = str_width (compute_width_for_char w) s).
  { clear -Hs. induction s as [|d s IH]; [done|]. cbn. fold (str_width (compute_width_for_char w1) s) (str_width (compute_width_for_char w) s). by rewrite IH, (same_wrapper_width w w1 d Hs). }
  lia.
Qed.

(** What is kept: the longest part before the end with room for the suffix, or nothing. *)
Definition kept_part (cw : char -> Pixels) (truncate_width suffix_width : Pixels) (line kept : str) : Prop :=
  (exists rest, line = kept ++ rest /\ rest <> []) /\ (kept = [] \/ str_width cw kept + suffix_width < truncate_width)%Z /\
  forall more rest, line = kept ++ more ++ rest -> more <> [] -> rest <> [] -> (truncate_width <= str_width cw (kept ++ more) + suffix_width)%Z.

Lemma pixel_floor_le subpixels x : (0 < subpixels)%Z -> (pixel_floor subpixels x <= x)%Z.
Proof. intros Hs. unfold pixel_floor. pose proof (Z.mul_div_le x subpixels Hs). lia. Qed.

(** The loop at the part [pre] of the line, where [kept] is the part chosen so far. *)
Lemma truncate_loop_ok subpixels tw sw w0 w pre cs kept more :
  same_wrapper w0 w -> (forall c, 0 <= compute_width_for_char w0 c)%Z -> (0 <= sw)%Z -> (0 < subpixels)%Z ->
  pre = kept ++ more -> (kept = [] \/ str_width (compute_width_for_char w0) kept + sw < tw)%Z ->
  (forall p q, more = p ++ q -> p <> [] -> q <> [] -> (tw <= str_width (compute_width_for_char w0) (kept ++ p) + sw)%Z) ->
  exists w' r, truncate_loop subpixels tw sw w (char_indices (str_len pre) cs) (str_width (compute_width_for_char w0) pre) (str_len kept) = (w', r) /\ same_wrapper w0 w' /\
    match r with
    | None => forall p q, cs = p ++ q -> p <> [] -> (pixel_floor subpixels (str_width (compute_width_for_char w0) (pre ++ p)) <= tw)%Z
    | Some ix => exists kept', kept_part (compute_width_for_char w0) tw sw (pre ++ cs) kept' /\ str_len kept' = ix /\
        exists p q, cs = p ++ q /\ (tw < pixel_floor subpixels (str_width (compute_width_for_char w0) (pre ++ p)))%Z
    end.
Proof.
  intros Hs Hcw Hsw Hsub. set (cw := compute_width_for_char w0) in *. revert w pre kept more Hs.
  induction cs as [|c cs IH]; intros w pre kept more Hs Epre Hk Hmore; cbn [char_indices truncate_loop].
  { exists w, None. split_and!; [done|done|]. intros p q E Hp. symmetry in E. by apply app_nil in E as [-> _]. }
  destruct (width_for_char_ok w c (proj2 (proj2 Hs))) as (w1 & E & Hs1). rewrite E, (same_wrapper_width w0 w c Hs). fold cw.
  assert (Hs' : same_wrapper w0 w1) by by eapply same_wrapper_trans.
  assert (Hpre : exists kept1 more1, (if (str_width cw pre + sw <? tw)%Z then str_len pre else str_len kept) = str_len kept1 /\ pre = kept1 ++ more1 /\
    (kept1 = [] \/ str_width cw kept1 + sw < tw)%Z /\ forall p q, more1 = p ++ q -> p <> [] -> (tw <= str_width cw (kept1 ++ p) + sw)%Z).
  { destruct (Z.ltb_spec (str_width cw pre + sw) tw) as [Hlt|Hge].
    - exists pre, []. split_and!; [done|by rewrite app_nil_r|by right|]. intros p q Ep Hp. symmetry in Ep. by apply app_nil in Ep as [-> _].
    - exists kept, more. split_and!; [done|done|done|]. intros p q Ep Hp. destruct q as [|d q]; [|by eapply Hmore].
      rewrite app_nil_r in Ep. by rewrite <- Ep, <- Epre. }
  destruct Hpre as (kept1 & more1 & -> & E1 & Hk1 & Hm1).
  assert (Ew : (str_width cw pre + cw c)%Z = str_width cw (pre ++ [c])) by (rewrite str_width_app; cbn; lia). rewrite Ew.
  destruct (Z.ltb_spec tw (pixel_floor subpixels (str_width cw (pre ++ [c])))) as [Hover|Hfit].
  - exists w1, (Some (str_len kept1)). split_and!; [done|done|]. exists kept1. split_and!; [|done|by exists [c], cs]. split_and!.
    + exists (more1 ++ c :: cs). split; [by rewrite E1, <- app_assoc|]. by destruct more1.
    + done.
    + intros p rest Ep Hp Hrest. rewrite E1, <- app_assoc in Ep. apply app_inv_head in Ep. apply app_eq_inv in Ep as [(k & Ek & Er)|(k & -> & Ek)].
      * by eapply Hm1.
      * destruct k as [|d k]; [rewrite app_nil_r; apply (Hm1 more1 []); [by rewrite app_nil_r|by rewrite app_nil_r in Hp]|].
        cbn in Ek. injection Ek as <- Ek. replace (kept1 ++ more1 ++ c :: k) with ((pre ++ [c]) ++ k) by (by rewrite E1, <- !app_assoc).
        rewrite str_width_app. pose proof (str_width_nonneg cw k Hcw). pose proof (pixel_floor_le subpixels (str_width cw (pre ++ [c])) Hsub). lia.
  - destruct (IH w1 (pre ++ [c]) kept1 (more1 ++ [c]) Hs') as (w2 & r & E2 & Hs2 & Hr).
    + by rewrite E1, app_assoc.
    + done.
    + intros p q Ep Hp Hq. destruct q as [|d q _] using rev_ind; [done|]. rewrite app_assoc in Ep. apply app_inj_tail in Ep as [Ep _]. by eapply Hm1.
    + rewrite str_len_app in E2. change (str_len [c]) with (len_utf8 c + 0) in E2. rewrite Nat.add_0_r in E2. exists w2, r. split_and!; [exact E2|done|].
      rewrite <- app_assoc in Hr. destruct r as [ix|].
      * destruct Hr as (kept' & H1 & H2 & p & q & -> & H3). exists kept'. split_and!; [done|done|]. exists (c :: p), q. split; [done|].
        by rewrite <- app_assoc in H3.
      * intros p q Ep Hp. destruct p as [|d p]; [done|]. cbn in Ep. injection Ep as <- Ep. destruct p as [|d p]; [done|].
        specialize (Hr (d :: p) q Ep ltac:(done)). by rewrite <- app_assoc in Hr.
Qed.

(** C10: a line all of whose parts fit in the width, to the pixel, is left as it is with its runs.  Any other is cut to its longest part that leaves room for the suffix, or to nothing, its white space and punctuation trimmed from the end, and given the suffix: it is then narrower than the width unless nothing but the suffix is left, and, if the runs covered the line, they cover the result, as the first runs with their styles.  There is no panic, and the caches do not change the answer. *)
Theorem truncate_line_correct (subpixels : Z) (w : LineWrapper) (line : str) (truncate_width : Pixels) (suffix : str) (rs : list TextRun)
    (Hw : cache_ok w) (Hwidths : forall c, (0 <= compute_width_for_char w c)%Z) (Hsub : (0 < subpixels)%Z) :
  let cw := compute_width_for_char w in
  exists w' result rs', truncate_line subpixels w line truncate_width suffix rs = Ok (w', result, rs') /\ same_wrapper w w' /\
    ((result = line /\ rs' = rs /\ forall p q, line = p ++ q -> p <> [] -> (pixel_floor subpixels (str_width cw p) <= truncate_width)%Z) \/
     (exists kept text trimmed, kept_part cw truncate_width (str_width cw suffix) line kept /\ kept = text ++ trimmed /\
        Forall (fun c => is_whitespace c || is_ascii_punctuation c = true) trimmed /\
        (exists p q, line = p ++ q /\ (truncate_width < pixel_floor subpixels (str_width cw p))%Z) /\
        result = text ++ suffix /\ (kept = [] \/ str_width cw result < truncate_width)%Z /\
        (exists k, map (fun r => with_text_len r 0) rs' = take k (map (fun r => with_text_len r 0) rs)) /\
        (str_len line <= runs_len rs -> runs_len rs' = str_len result))).
Proof.
  cbn zeta. set (cw := compute_width_for_char w). unfold truncate_line.
  destruct (text_width_ok w suffix 0 Hw) as (w1 & E1 & Hs1). rewrite E1, Z.add_0_l. fold cw.
  destruct (truncate_loop_ok subpixels truncate_width (str_width cw suffix) w w1 [] line [] [] Hs1 Hwidths) as (w2 & r & E2 & Hs2 & Hr); try done.
  { by apply str_width_nonneg. }
  { by left. }
  { intros p q Ep Hp. symmetry in Ep. by apply app_nil in Ep as [-> _]. }
  change (str_len []) with 0 in E2. change (str_width (compute_width_for_char w) []) with 0%Z in E2. fold cw in E2, Hr. rewrite E2. destruct r as [ix|].
  - destruct Hr as (kept & Hkept & <- & Hover). pose proof Hkept as ((rest & Eline & Hrest) & Hk & _). cbn [app] in Eline.
    assert (Esp : str_split_at line (str_len kept) = Ok (kept, rest)) by (rewrite Eline; apply str_split_at_app). rewrite Esp. cbn [obind]. destruct (trim_end_prefix (fun c => is_whitespace c || is_ascii_punctuation c) kept) as (t & Et & Ht).
    set (text := trim_end_matches _ kept) in *. unfold update_runs_after_truncation. rewrite usize_sub_Ok by (rewrite str_len_app; lia). cbn [obind].
    replace (str_len (text ++ suffix) - str_len suffix) with (str_len text) by (rewrite str_len_app; lia). eexists w2, _, _. split_and!; [done|done|].
    right. exists kept, text, t. split_and!; [done|done|done|done|done| |apply truncate_runs_styles|].
    + destruct Hk as [?|Hk]; [by left|right]. rewrite str_width_app. rewrite Et, str_width_app in Hk. pose proof (str_width_nonneg cw t Hwidths). lia.
    + intros Hlen. rewrite Eline, str_len_app in Hlen. pose proof (f_equal str_len Et) as El. rewrite str_len_app in El.
      assert (str_len rest <> 0) by (intros E; by apply str_len_nil in E). rewrite truncate_runs_len by lia. by rewrite str_len_app.
  - exists w2, line, rs. split_and!; [done|done|]. left. split_and!; [done|done|]. exact Hr.
Qed.
End TruncateLine.

(** ** Examples *)

Module TestWrapper.

(** Every character is one unit wide. *)
#[local] Instance unit_platform : PlatformTextSystem := fun text size _ => mkLayout size (Z.of_nat (length text)) 0 0 [] (str_len text).
#[local] Instance ascii : Unicode := ascii_unicode.

Definition wrapper : LineWrapper := wrapper_new 0 16.

Lemma wrapper_ok : cache_ok wrapper /\ forall c, (0 <= compute_width_for_char wrapper c)%Z.
Proof. split; [split; intros c v E; cbn in E; by rewrite lookup_empty in E|done]. Qed.

Definition wrapped (wrap_width : Pixels) (adj : IndentAdjustment) (text : str) : outcome (list Boundary) :=
  let! (_, bs) := wrap_line wrap_width adj wrapper [FragmentText text] in Ok bs.

Example wraps_at_words : wrapped 8 SameIndent (lit "  aa bbb cc") = Ok [mkIndented 5 2].
Proof. by vm_compute. Qed.

(** The character that made a row end is not remembered as the previous one: the letter after
    it is taken for the start of a word, and a long word loses its first letter to a row of
    its own. *)
Example letter_left_alone : wrapped 7 NoIndent (lit "aaaaaa bbbbbbbbbb") = Ok [mkIndented 7 0; mkIndented 8 0; mkIndented 15 0].
Proof. by vm_compute. Qed.

Definition run (n : nat) : TextRun := mkTextRun n (font_named (lit "x")) (mkHsla 0 0 0 1) None None None.

Example truncates : (let! (_, result, rs) := truncate_line 1 wrapper (lit "hello, world") 8 (lit "...") [run 3; run 9] in Ok (result, map text_len rs)) =
  Ok (lit "hell...", [3; 4]).
Proof. by vm_compute. Qed.

Lemma wrap_line_correct_witness :
  exists w' row rows, wrap_line 7 (ExtraColumns 2) wrapper [FragmentText (lit " aaa bbbb"); FragmentElement 5 1] = Ok (w', map row_boundary rows) /\
    rows_ok (compute_width_for_char wrapper) 7 (ExtraColumns 2) 0 row rows.
Proof.
  destruct (wrap_line_correct wrapper [FragmentText (lit " aaa bbbb"); FragmentElement 5 1] 7 (ExtraColumns 2) (proj1 wrapper_ok) (proj2 wrapper_ok)) as (w' & row & rows & H1 & _ & _ & H2).
  - done.
  - repeat constructor. done.
  - exists w', row, rows. split; [exact H1|exact H2].
Defined.

Lemma truncate_line_correct_witness :
  exists w' result rs', truncate_line 1 wrapper (lit "hello, world") 8 (lit "...") [run 3; run 9] = Ok (w', result, rs') /\ same_wrapper wrapper w'.
Proof.
  destruct (truncate_line_correct 1 wrapper (lit "hello, world") 8 (lit "...") [run 3; run 9] (proj1 wrapper_ok) (proj2 wrapper_ok)) as (w' & result & rs' & H1 & H2 & _).
  - done.
  - exists w', result, rs'. split; [exact H1|exact H2].
Defined.
End TestWrapper.
