(* ===== verification/LineCache.v ===== *)
(** * LineCache: the caches of shaped lines, [crates/gpui/src/text_system/line_layout.rs]

    A window keeps the lines of two frames, and the windows share a cache that evicts the
    lines used longest ago.  What the platform shapes depends on the fonts installed, so it
    is a function of their generation, which [add_fonts] advances.  A lock taken for a whole
    operation is transparent: the operations of the windows follow one another. *)

From Stdlib Require Import NArith ZArith String.
From S2P Require Import Geometry.
From stdpp Require Import base list option numbers gmap sorting.
From S2P Require Import Prelude Sorting Hashing Text LineLayout.

#[local] Set Warnings "-register-all,-clear-no-such-hyp".

(** ** Data *)

Record CacheKey := mkKey {
  key_text : str;
  key_font_size : Pixels;
  key_runs : list FontRun;
  key_wrap_width : option Pixels;
  key_force_width : option Pixels;
  key_letter_spacing : option Pixels;
}.

#[export] Instance CacheKey_eq_dec : EqDecision CacheKey.
Proof. solve_decision. Defined.

#[export] Instance FontRun_countable : Countable FontRun.
Proof. apply (inj_countable' (fun r => (run_len r, run_font r)) (fun p => mkFontRun p.1 p.2)). by intros []. Defined.

#[export] Instance CacheKey_countable : Countable CacheKey.
Proof.
  apply (inj_countable' (fun k => (key_text k, key_font_size k, key_runs k, key_wrap_width k, key_force_width k, key_letter_spacing k))
    (fun '(t, s, r, w, f, l) => mkKey t s r w f l)). by intros [].
Defined.

(** An entry with its time of last access. *)
Record GlobalCacheEntry (V : Type) := mkEntry { value : V; last_access : Z }.
Arguments mkEntry {V}. Arguments value {V}. Arguments last_access {V}.

Abbreviation EntryMap V := (gmap CacheKey (GlobalCacheEntry V)).

Record GlobalLineLayoutCache := mkGlobal {
  max_entries : nat;
  low_watermark : nat;
  global_lines : EntryMap LineLayout;
  global_wrapped : EntryMap WrappedLineLayout;
  access_counter : Z;
}.

Record FrameCache := mkFrame {
  lines : gmap CacheKey LineLayout;
  wrapped_lines : gmap CacheKey WrappedLineLayout;
  used_lines : list CacheKey;
  used_wrapped_lines : list CacheKey;
}.

Record LineLayoutIndex := mkIndex {
  index_generation : nat;
  lines_index : nat;
  wrapped_lines_index : nat;
}.

(** A window's cache. *)
Record LineLayoutCache := mkCache {
  previous_frame : FrameCache;
  current_frame : FrameCache;
  cached_font_generation : nat;
}.

(** What the windows share. *)
Record Shared := mkShared {
  global_cache : GlobalLineLayoutCache;
  font_generation : nat;
}.

Definition frame_default : FrameCache := mkFrame ∅ ∅ [] [].

(** ** The shared cache *)

Definition global_new (max low : nat) : GlobalLineLayoutCache :=
  let max := Nat.max max 1 in
  mkGlobal max (Nat.min low (max - 1)) ∅ ∅ 0.

Definition global_clear (g : GlobalLineLayoutCache) : GlobalLineLayoutCache :=
  mkGlobal (max_entries g) (low_watermark g) ∅ ∅ (access_counter g).

Definition entry_counts (g : GlobalLineLayoutCache) : nat * nat := (size (global_lines g), size (global_wrapped g)).

(** [fetch_add(1)] *)
Definition next_access (n : Z) : Z := (n + 1) mod 2 ^ 64.

Section Cache.
Context `{!HashOrder CacheKey}.

Definition evict_to_watermark {V} (m : EntryMap V) (target_size : nat) : EntryMap V :=
  if size m <=? target_size then m
  else
    let to_remove := size m - target_size in
    let entries := map (fun e => (e.1, last_access e.2)) (hash_iter m) in
    let entries := sort_by_key (fun e : CacheKey * Z => e.2) entries in
    foldl (fun m e => delete e.1 m) m (take to_remove entries).

(** [get_line] and [get_wrapped_line] on their map. *)
Definition get_entry {V} (m : EntryMap V) (counter : Z) (k : CacheKey) : EntryMap V * Z * option V :=
  match m !! k with
  | Some e => (<[k := mkEntry (value e) counter]> m, next_access counter, Some (value e))
  | None => (m, counter, None)
  end.

Definition insert_entry {V} (max low : nat) (m : EntryMap V) (counter : Z) (k : CacheKey) (v : V) : EntryMap V * Z :=
  let m := if max <=? size m then evict_to_watermark m low else m in
  (<[k := mkEntry v counter]> m, next_access counter).

Definition get_line (g : GlobalLineLayoutCache) (k : CacheKey) : GlobalLineLayoutCache * option LineLayout :=
  let '(m, n, v) := get_entry (global_lines g) (access_counter g) k in
  (mkGlobal (max_entries g) (low_watermark g) m (global_wrapped g) n, v).

Definition insert_line (g : GlobalLineLayoutCache) (k : CacheKey) (l : LineLayout) : GlobalLineLayoutCache :=
  let '(m, n) := insert_entry (max_entries g) (low_watermark g) (global_lines g) (access_counter g) k l in
  mkGlobal (max_entries g) (low_watermark g) m (global_wrapped g) n.

Definition get_wrapped_line (g : GlobalLineLayoutCache) (k : CacheKey) : GlobalLineLayoutCache * option WrappedLineLayout :=
  let '(m, n, v) := get_entry (global_wrapped g) (access_counter g) k in
  (mkGlobal (max_entries g) (low_watermark g) (global_lines g) m n, v).

Definition insert_wrapped_line (g : GlobalLineLayoutCache) (k : CacheKey) (w : WrappedLineLayout) : GlobalLineLayoutCache :=
  let '(m, n) := insert_entry (max_entries g) (low_watermark g) (global_wrapped g) (access_counter g) k w in
  mkGlobal (max_entries g) (low_watermark g) (global_lines g) m n.

(** ** A window's cache *)

(** The platform, with the fonts of a generation. *)
Context (shape : nat -> PlatformTextSystem).

Definition cache_new (s : Shared) : LineLayoutCache := mkCache frame_default frame_default (font_generation s).

(** [Arc]s are shared: the state is the shared part and the window's. *)
Abbreviation State := (Shared * LineLayoutCache)%type.

Definition with_global (s : Shared) (g : GlobalLineLayoutCache) : Shared := mkShared g (font_generation s).

Definition clear_if_font_generation_changed (st : State) : State :=
  let (s, c) := st in
  if cached_font_generation c =? font_generation s then st
  else (with_global s (global_clear (global_cache s)), mkCache frame_default frame_default (font_generation s)).

Definition layout_index (st : State) : State * LineLayoutIndex :=
  let (s, c) := clear_if_font_generation_changed st in
  ((s, c), mkIndex (font_generation s) (length (used_lines (current_frame c))) (length (used_wrapped_lines (current_frame c)))).

(** The loop over the keys of a range: the line moves unless it has moved already. *)
Definition reuse_key {V} (ms : gmap CacheKey V * gmap CacheKey V) (k : CacheKey) : gmap CacheKey V * gmap CacheKey V :=
  let (previous, current) := ms in
  match previous !! k with
  | Some v => (delete k previous, <[k := v]> current)
  | None => (previous, current)
  end.

(** [v[start..end]] *)
Definition slice {A} (v : list A) (start end_ : nat) : outcome (list A) :=
  if (start <=? end_) && (end_ <=? length v) then Ok (take (end_ - start) (drop start v)) else Panic.

Definition reuse_layouts (st : State) (start end_ : LineLayoutIndex) : outcome State :=
  let (s, c) := clear_if_font_generation_changed st in
  if negb ((index_generation start =? font_generation s) && (index_generation end_ =? font_generation s)) then Ok (s, c)
  else
    let p := previous_frame c in
    let f := current_frame c in
    let! ks := slice (used_lines p) (lines_index start) (lines_index end_) in
    let! wks := slice (used_wrapped_lines p) (wrapped_lines_index start) (wrapped_lines_index end_) in
    let (pl, fl) := foldl reuse_key (lines p, lines f) ks in
    let (pw, fw) := foldl reuse_key (wrapped_lines p, wrapped_lines f) wks in
    Ok (s, mkCache (mkFrame pl pw (used_lines p) (used_wrapped_lines p))
             (mkFrame fl fw (used_lines f ++ ks) (used_wrapped_lines f ++ wks)) (cached_font_generation c)).

Definition truncate_layouts (st : State) (i : LineLayoutIndex) : State :=
  let (s, c) := clear_if_font_generation_changed st in
  if negb (index_generation i =? font_generation s) then (s, c)
  else
    let f := current_frame c in
    (s, mkCache (previous_frame c)
          (mkFrame (lines f) (wrapped_lines f) (take (lines_index i) (used_lines f)) (take (wrapped_lines_index i) (used_wrapped_lines f)))
          (cached_font_generation c)).

Definition finish_frame (st : State) : State :=
  let (s, c) := clear_if_font_generation_changed st in
  (s, mkCache (current_frame c) frame_default (cached_font_generation c)).

Definition add_line (f : FrameCache) (k : CacheKey) (l : LineLayout) : FrameCache :=
  mkFrame (<[k := l]> (lines f)) (wrapped_lines f) (used_lines f ++ [k]) (used_wrapped_lines f).
Definition add_wrapped (f : FrameCache) (k : CacheKey) (w : WrappedLineLayout) : FrameCache :=
  mkFrame (lines f) (<[k := w]> (wrapped_lines f)) (used_lines f) (used_wrapped_lines f ++ [k]).
Definition remove_line (f : FrameCache) (k : CacheKey) : FrameCache :=
  mkFrame (delete k (lines f)) (wrapped_lines f) (used_lines f) (used_wrapped_lines f).
Definition remove_wrapped (f : FrameCache) (k : CacheKey) : FrameCache :=
  mkFrame (lines f) (delete k (wrapped_lines f)) (used_lines f) (used_wrapped_lines f).

(** The line shaped afresh. *)
Definition shape_line (generation : nat) (k : CacheKey) : LineLayout :=
  let layout := @platform_layout_line (shape generation) (key_text k) (key_font_size k) (key_runs k) in
  let layout := match key_force_width k with Some fw => apply_force_width_to_layout layout fw | None => layout end in
  match key_letter_spacing k with Some spacing => apply_letter_spacing_to_layout layout spacing (key_force_width k) | None => layout end.

Definition layout_line_with_spacing (st : State) (text : str) (font_size : Pixels) (runs : list FontRun)
    (force_width letter_spacing : option Pixels) : State * LineLayout :=
  let (s, c) := clear_if_font_generation_changed st in
  let k := mkKey text font_size runs None force_width letter_spacing in
  match lines (current_frame c) !! k with
  | Some l => ((s, c), l)
  | None =>
      match lines (previous_frame c) !! k with
      | Some l => ((s, mkCache (remove_line (previous_frame c) k) (add_line (current_frame c) k l) (cached_font_generation c)), l)
      | None =>
          match get_line (global_cache s) k with
          | (g, Some l) => ((with_global s g, mkCache (previous_frame c) (add_line (current_frame c) k l) (cached_font_generation c)), l)
          | (g, None) =>
              let l := shape_line (font_generation s) k in
              ((with_global s (insert_line g k l), mkCache (previous_frame c) (add_line (current_frame c) k l) (cached_font_generation c)), l)
          end
      end
  end.

Definition layout_line (st : State) (text : str) (font_size : Pixels) (runs : list FontRun) (force_width : option Pixels) : State * LineLayout :=
  layout_line_with_spacing st text font_size runs force_width None.

Definition layout_wrapped_line (st : State) (text : str) (font_size : Pixels) (runs : list FontRun)
    (wrap_width : option Pixels) (max_lines : option nat) : outcome (State * WrappedLineLayout) :=
  let (s, c) := clear_if_font_generation_changed st in
  let k := mkKey text font_size runs wrap_width None None in
  match wrapped_lines (current_frame c) !! k with
  | Some w => Ok ((s, c), w)
  | None =>
      match wrapped_lines (previous_frame c) !! k with
      | Some w => Ok ((s, mkCache (remove_wrapped (previous_frame c) k) (add_wrapped (current_frame c) k w) (cached_font_generation c)), w)
      | None =>
          match get_wrapped_line (global_cache s) k with
          | (g, Some w) => Ok ((with_global s g, mkCache (previous_frame c) (add_wrapped (current_frame c) k w) (cached_font_generation c)), w)
          | (g, None) =>
              let '((s, c), unwrapped) := layout_line (with_global s g, c) text font_size runs None in
              let! boundaries :=
                match wrap_width with
                | Some ww => compute_wrap_boundaries unwrapped text ww max_lines
                | None => Ok []
                end in
              let w := mkWrapped unwrapped boundaries wrap_width in
              Ok ((with_global s (insert_wrapped_line (global_cache s) k w),
                   mkCache (previous_frame c) (add_wrapped (current_frame c) k w) (cached_font_generation c)), w)
          end
      end
  end.

(** ** Eviction *)

Context `{!HashOrderLaws CacheKey}.

Lemma foldl_delete_lookup {V} (es : list (CacheKey * Z)) (m : EntryMap V) k :
  foldl (fun m e => delete e.1 m) m es !! k = if decide (k ∈ map fst es) then None else m !! k.
Proof.
  revert m. induction es as [|e es IH]; intros m; cbn [foldl map]; [by rewrite decide_False by apply not_elem_of_nil|].
  rewrite IH. destruct (decide (k ∈ map fst es)) as [Hin|Hin].
  - by rewrite decide_True by (apply elem_of_cons; auto).
  - destruct (decide (k = e.1)) as [->|Hne].
    + rewrite lookup_delete_eq. by rewrite decide_True by (apply elem_of_cons; auto).
    + rewrite lookup_delete_ne by done. rewrite decide_False; [done|]. rewrite elem_of_cons. naive_solver.
Qed.

Lemma foldl_delete_size {V} (es : list (CacheKey * Z)) (m : EntryMap V) :
  NoDup (map fst es) -> (forall k, k ∈ map fst es -> is_Some (m !! k)) -> size (foldl (fun m e => delete e.1 m) m es) = size m - length es.
Proof.
  revert m. induction es as [|e es IH]; intros m; cbn [foldl map length]; [lia|]. intros [Hn Hd]%NoDup_cons Hin. rewrite IH; [|done|].
  - rewrite map_size_delete. destruct (Hin e.1) as [v ->]; [by left|]. cbn. lia.
  - intros k Hk. rewrite lookup_delete_ne by (intros <-; done). apply Hin. by right.
Qed.

(** The entries by time of last access. *)
Definition by_access {V} (m : EntryMap V) : list (CacheKey * Z) :=
  sort_by_key (fun e : CacheKey * Z => e.2) (map (fun e => (e.1, last_access e.2)) (hash_iter m)).

Lemma by_access_perm {V} (m : EntryMap V) : by_access m ≡ₚ map (fun e => (e.1, last_access e.2)) (hash_iter m).
Proof. apply sort_by_key_perm. Qed.

Lemma by_access_keys {V} (m : EntryMap V) : map fst (by_access m) ≡ₚ map fst (hash_iter m).
Proof. rewrite by_access_perm, map_map. done. Qed.

Lemma by_access_elem {V} (m : EntryMap V) k a : (k, a) ∈ by_access m <-> exists e, m !! k = Some e /\ last_access e = a.
Proof.
  rewrite by_access_perm, list_elem_of_In, in_map_iff. split.
  - intros ([k' e] & [= <- <-] & Hin). exists e. by apply list_elem_of_In, hash_iter_elem in Hin.
  - intros (e & Hk & <-). exists (k, e). split; [done|]. by apply list_elem_of_In, hash_iter_elem.
Qed.

(** What is evicted was used no later than what stays. *)
Lemma evict_spec {V} (m : EntryMap V) n :
  let m' := evict_to_watermark m n in
  size m' = Nat.min (size m) n /\ m' ⊆ m /\
  forall k1 e1 k2 e2, m !! k1 = Some e1 -> m' !! k1 = None -> m' !! k2 = Some e2 -> (last_access e1 <= last_access e2)%Z.
Proof.
  cbn zeta. unfold evict_to_watermark. fold (by_access m). destruct (Nat.leb_spec (size m) n) as [Hle|Hlt].
  { split_and!; [lia|done|]. intros k1 e1 k2 e2 H1 H1'. congruence. }
  set (t := size m - n). set (gone := take t (by_access m)).
  assert (Hlen : length (by_access m) = size m) by (rewrite by_access_perm, length_map; apply hash_iter_length).
  assert (Hnd : NoDup (map fst (by_access m))) by (rewrite by_access_keys; apply hash_iter_nodup).
  assert (Hsplit : by_access m = gone ++ drop t (by_access m)) by (unfold gone; by rewrite take_drop).
  assert (Hgone : NoDup (map fst gone)) by (rewrite Hsplit, map_app in Hnd; by apply NoDup_app in Hnd as [? _]).
  split_and!.
  - rewrite foldl_delete_size; [unfold gone; rewrite length_take, Hlen; lia|done|].
    intros k Hk. apply list_elem_of_In, in_map_iff in Hk as ([k' a] & <- & Hin). apply list_elem_of_In in Hin.
    assert (Hin' : (k', a) ∈ by_access m) by (rewrite Hsplit; apply elem_of_app; by left).
    apply by_access_elem in Hin' as (e & He & _). by exists e.
  - apply map_subseteq_spec. intros k e. rewrite foldl_delete_lookup. by destruct (decide _).
  - intros k1 e1 k2 e2 H1 H1' H2. rewrite foldl_delete_lookup in H1', H2.
    destruct (decide (k1 ∈ map fst gone)) as [Hg|Hg]; [|congruence]. destruct (decide (k2 ∈ map fst gone)) as [Hg2|Hg2]; [done|].
    apply list_elem_of_In, in_map_iff in Hg as ([k1' a1] & E & Hin1). cbn in E. subst k1'. apply list_elem_of_In in Hin1.
    assert (Hin2 : (k2, last_access e2) ∈ drop t (by_access m)).
    { assert (Hin2 : (k2, last_access e2) ∈ by_access m) by (apply by_access_elem; by exists e2).
      rewrite Hsplit in Hin2. apply elem_of_app in Hin2 as [Hin2|?]; [|done]. destruct Hg2. apply list_elem_of_In, in_map_iff. exists (k2, last_access e2).
      split; [done|by apply list_elem_of_In]. }
    assert (Ha1 : a1 = last_access e1).
    { assert (Hin1' : (k1, a1) ∈ by_access m) by (rewrite Hsplit; apply elem_of_app; by left). apply by_access_elem in Hin1' as (e & He & <-). congruence. }
    pose proof (sort_by_key_sorted (fun e : CacheKey * Z => e.2) (map (fun e => (e.1, last_access e.2)) (hash_iter m))) as Hs. fold (by_access m) in Hs.
    rewrite Hsplit in Hs. apply StronglySorted_app in Hs as (Hs & _ & _). specialize (Hs _ _ Hin1 Hin2). subst a1.
    unfold key_le, cmp, Z_ord in Hs. cbn in Hs. by apply Z.compare_le_iff in Hs.
Qed.

(** ** Right entries

    The number of lines that a text is wrapped to is no part of its key; the theorems are for
    clients that always give the same limit with the same key. *)

Context (limits : CacheKey -> option nat).

(** The budget that the shared cache is made with. *)
Context (budget : nat).

(** The wrapped line computed afresh. *)
Definition shape_wrapped (generation : nat) (k : CacheKey) : outcome WrappedLineLayout :=
  let unwrapped := shape_line generation (mkKey (key_text k) (key_font_size k) (key_runs k) None None None) in
  let! boundaries :=
    match key_wrap_width k with
    | Some ww => compute_wrap_boundaries unwrapped (key_text k) ww (limits k)
    | None => Ok []
    end in
  Ok (mkWrapped unwrapped boundaries (key_wrap_width k)).

Definition line_right (gen : nat) (k : CacheKey) (l : LineLayout) : Prop := l = shape_line gen k.
Definition wrapped_right (gen : nat) (k : CacheKey) (w : WrappedLineLayout) : Prop := shape_wrapped gen k = Ok w.

Record frame_right (gen : nat) (f : FrameCache) : Prop := mkFrameRight {
  fr_lines : map_Forall (line_right gen) (lines f);
  fr_wrapped : map_Forall (wrapped_right gen) (wrapped_lines f);
}.

Record cache_right (c : LineLayoutCache) : Prop := mkCacheRight {
  cr_previous : frame_right (cached_font_generation c) (previous_frame c);
  cr_current : frame_right (cached_font_generation c) (current_frame c);
}.

Record global_right (gen : nat) (g : GlobalLineLayoutCache) : Prop := mkGlobalRight {
  gr_lines : map_Forall (fun k e => line_right gen k (value e)) (global_lines g);
  gr_wrapped : map_Forall (fun k e => wrapped_right gen k (value e)) (global_wrapped g);
}.

(** Both maps within the budget. *)
Definition global_bounded (g : GlobalLineLayoutCache) : Prop :=
  (max_entries g = Nat.max budget 1 /\ low_watermark g < max_entries g) /\ size (global_lines g) <= max_entries g /\ size (global_wrapped g) <= max_entries g.

(** A window that has seen the fonts' generation, with the shared cache of that generation. *)
Definition current (st : State) : Prop :=
  cache_right st.2 /\ cached_font_generation st.2 = font_generation st.1 /\ global_right (font_generation st.1) (global_cache st.1) /\ global_bounded (global_cache st.1).

(** Or one that has yet to see it. *)
Definition sound (st : State) : Prop :=
  cache_right st.2 /\ global_bounded (global_cache st.1) /\
  (cached_font_generation st.2 = font_generation st.1 -> global_right (font_generation st.1) (global_cache st.1)).

Lemma frame_default_right gen : frame_right gen frame_default.
Proof using. split; apply map_Forall_empty. Qed.

Lemma current_sound st : current st -> sound st.
Proof using. intros (H1 & H2 & H3 & H4). by split_and!. Qed.

Lemma clear_current st : sound st -> current (clear_if_font_generation_changed st) /\
  font_generation (clear_if_font_generation_changed st).1 = font_generation st.1.
Proof using.
  destruct st as [s c]. intros (Hc & Hb & Hg). unfold clear_if_font_generation_changed. cbn [fst snd] in *.
  destruct (Nat.eqb_spec (cached_font_generation c) (font_generation s)) as [E|_]; cbn [fst snd].
  - split; [|done]. split_and!; [done|done|by apply Hg|done].
  - split; [|done]. destruct Hb as (H1 & _ & _). split_and!; [split; apply frame_default_right|done|split; apply map_Forall_empty|].
    unfold global_bounded. cbn [fst with_global global_cache global_clear global_lines global_wrapped max_entries low_watermark]. rewrite !(map_size_empty (M := gmap CacheKey)). lia.
Qed.

(** *** Maps *)

Lemma get_entry_right {V} (P : CacheKey -> V -> Prop) (m m' : EntryMap V) n n' k v :
  map_Forall (fun k e => P k (value e)) m -> get_entry m n k = (m', n', v) ->
  map_Forall (fun k e => P k (value e)) m' /\ size m' = size m /\ match v with Some v => P k v | None => m' = m end.
Proof using.
  intros Hm. unfold get_entry. destruct (m !! k) as [e|] eqn:E; intros [= <- <- <-]; [|done].
  pose proof (Hm _ _ E) as He. split_and!; [by apply map_Forall_insert_2| |done]. rewrite map_size_insert. by rewrite E.
Qed.

Lemma insert_entry_right {V} (P : CacheKey -> V -> Prop) max low (m m' : EntryMap V) n n' k v :
  map_Forall (fun k e => P k (value e)) m -> P k v -> low < max -> size m <= max -> insert_entry max low m n k v = (m', n') ->
  map_Forall (fun k e => P k (value e)) m' /\ size m' <= max /\ (exists e, m' !! k = Some e /\ value e = v).
Proof using HashOrderLaws0.
  intros Hm Hv Hlow Hsize. unfold insert_entry. set (m1 := if max <=? size m then _ else m). intros [= <- <-].
  assert (H1 : map_Forall (fun k e => P k (value e)) m1 /\ size m1 < max).
  { subst m1. destruct (Nat.leb_spec max (size m)); [|done]. destruct (evict_spec m low) as (Hs & Hsub & _). split; [|lia].
    intros k' e' He'. apply Hm. by eapply lookup_weaken. }
  destruct H1 as [H1 H2]. split_and!; [by apply map_Forall_insert_2| |exists (mkEntry v n); by rewrite lookup_insert_eq].
  rewrite map_size_insert. destruct (m1 !! k); unfold id; lia.
Qed.

Lemma get_line_right gen g g' k v : global_right gen g -> global_bounded g -> get_line g k = (g', v) ->
  global_right gen g' /\ global_bounded g' /\ match v with Some l => line_right gen k l | None => True end.
Proof using.
  intros [H1 H2] (B1 & B2 & B3). unfold get_line. destruct (get_entry (global_lines g) (access_counter g) k) as [[m n] v'] eqn:E. intros [= <- <-].
  destruct (get_entry_right (line_right gen) _ _ _ _ _ _ H1 E) as (H3 & H4 & H5). split_and!; [by split| |by destruct v']. unfold global_bounded. cbn [global_lines global_wrapped max_entries low_watermark]. lia.
Qed.

Lemma insert_line_global gen g k l : global_right gen g -> global_bounded g -> line_right gen k l ->
  global_right gen (insert_line g k l) /\ global_bounded (insert_line g k l).
Proof using HashOrderLaws0.
  intros [H1 H2] (B1 & B2 & B3) Hl. unfold insert_line. destruct (insert_entry _ _ _ _ k l) as [m n] eqn:E.
  destruct (insert_entry_right (line_right gen) _ _ _ _ _ _ _ _ H1 Hl (proj2 B1) B2 E) as (H3 & H4 & _). split; [by split|]. exact (conj B1 (conj H4 B3)).
Qed.

Lemma get_wrapped_right gen g g' k v : global_right gen g -> global_bounded g -> get_wrapped_line g k = (g', v) ->
  global_right gen g' /\ global_bounded g' /\ match v with Some w => wrapped_right gen k w | None => True end.
Proof using.
  intros [H1 H2] (B1 & B2 & B3). unfold get_wrapped_line. destruct (get_entry (global_wrapped g) (access_counter g) k) as [[m n] v'] eqn:E. intros [= <- <-].
  destruct (get_entry_right (wrapped_right gen) _ _ _ _ _ _ H2 E) as (H3 & H4 & H5). split_and!; [by split| |by destruct v']. unfold global_bounded. cbn [global_lines global_wrapped max_entries low_watermark]. lia.
Qed.

Lemma insert_wrapped_global gen g k w : global_right gen g -> global_bounded g -> wrapped_right gen k w ->
  global_right gen (insert_wrapped_line g k w) /\ global_bounded (insert_wrapped_line g k w).
Proof using HashOrderLaws0.
  intros [H1 H2] (B1 & B2 & B3) Hw. unfold insert_wrapped_line. destruct (insert_entry _ _ _ _ k w) as [m n] eqn:E.
  destruct (insert_entry_right (wrapped_right gen) _ _ _ _ _ _ _ _ H2 Hw (proj2 B1) B3 E) as (H3 & H4 & _). split; [by split|]. exact (conj B1 (conj B2 H4)).
Qed.

Lemma add_line_right gen f k l : frame_right gen f -> line_right gen k l -> frame_right gen (add_line f k l).
Proof using. intros [H1 H2] Hl. split; [by apply map_Forall_insert_2|done]. Qed.

Lemma add_wrapped_right gen f k w : frame_right gen f -> wrapped_right gen k w -> frame_right gen (add_wrapped f k w).
Proof using. intros [H1 H2] Hw. split; [done|by apply map_Forall_insert_2]. Qed.

Lemma remove_right gen f k : frame_right gen f -> frame_right gen (remove_line f k) /\ frame_right gen (remove_wrapped f k).
Proof using. intros [H1 H2]. split; split; try done; by apply map_Forall_delete. Qed.

(** *** Operations *)

Lemma layout_line_right st text size_ runs_ fw ls : sound st ->
  current (layout_line_with_spacing st text size_ runs_ fw ls).1 /\
  font_generation (layout_line_with_spacing st text size_ runs_ fw ls).1.1 = font_generation st.1 /\
  (layout_line_with_spacing st text size_ runs_ fw ls).2 = shape_line (font_generation st.1) (mkKey text size_ runs_ None fw ls).
Proof using HashOrderLaws0.
  intros Hst. destruct (clear_current st Hst) as [Hcur Hgen]. unfold layout_line_with_spacing.
  destruct (clear_if_font_generation_changed st) as [s c]. cbn [fst snd] in *. rewrite <- Hgen.
  destruct Hcur as (Hcr & Hsame & Hg & Hb). pose proof Hcr as [Hp Hc]. cbn [fst snd] in *. set (k := mkKey text size_ runs_ None fw ls).
  rewrite Hsame in Hp, Hc.
  assert (Hdone : forall s' p l, font_generation s' = font_generation s -> global_right (font_generation s) (global_cache s') -> global_bounded (global_cache s') ->
    frame_right (font_generation s) p -> line_right (font_generation s) k l -> current (s', mkCache p (add_line (current_frame c) k l) (cached_font_generation c))).
  { intros s' p l E H1 H2 H3 H4. split_and!; cbn [fst snd cached_font_generation]; [|congruence|by rewrite E|done].
    split; cbn; rewrite Hsame; [done|by apply add_line_right]. }
  destruct (lines (current_frame c) !! k) as [l|] eqn:E1; cbn [fst snd].
  { split_and!; [|done|by apply (fr_lines _ _ Hc)]. by split_and!. }
  destruct (lines (previous_frame c) !! k) as [l|] eqn:E2; cbn [fst snd].
  { pose proof (fr_lines _ _ Hp _ _ E2) as Hl. split_and!; [|done|done]. apply Hdone; try done. by apply remove_right. }
  destruct (get_line (global_cache s) k) as [g v] eqn:E3. destruct (get_line_right _ _ _ _ _ Hg Hb E3) as (Hg' & Hb' & Hv).
  destruct v as [l|]; cbn [fst snd].
  - split_and!; [|done|done]. by apply Hdone.
  - destruct (insert_line_global _ _ k _ Hg' Hb' eq_refl) as [Hg2 Hb2]. split_and!; [|done|done]. by apply Hdone.
Qed.

Lemma layout_wrapped_right st text size_ runs_ ww ml : sound st -> ml = limits (mkKey text size_ runs_ ww None None) ->
  match layout_wrapped_line st text size_ runs_ ww ml with
  | Ok (st', w) => current st' /\ font_generation st'.1 = font_generation st.1 /\ shape_wrapped (font_generation st.1) (mkKey text size_ runs_ ww None None) = Ok w
  | Panic => shape_wrapped (font_generation st.1) (mkKey text size_ runs_ ww None None) = Panic
  | OutOfFuel => shape_wrapped (font_generation st.1) (mkKey text size_ runs_ ww None None) = OutOfFuel
  end.
Proof using HashOrderLaws0.
  intros Hst Hml. destruct (clear_current st Hst) as [Hcur Hgen]. unfold layout_wrapped_line.
  destruct (clear_if_font_generation_changed st) as [s c]. cbn [fst snd] in *. rewrite <- Hgen.
  pose proof Hcur as (Hcr & Hsame & Hg & Hb). pose proof Hcr as [Hp Hc]. cbn [fst snd] in *. set (k := mkKey text size_ runs_ ww None None) in *.
  rewrite Hsame in Hp, Hc.
  assert (Hdone : forall s' p f w, font_generation s' = font_generation s -> global_right (font_generation s) (global_cache s') -> global_bounded (global_cache s') ->
    frame_right (font_generation s) p -> frame_right (font_generation s) f -> wrapped_right (font_generation s) k w -> current (s', mkCache p (add_wrapped f k w) (font_generation s))).
  { intros s' p f w E H1 H2 H3 H4 H5. split_and!; cbn [fst snd cached_font_generation]; [|congruence|by rewrite E|done].
    split; cbn; [done|by apply add_wrapped_right]. }
  destruct (wrapped_lines (current_frame c) !! k) as [w|] eqn:E1.
  { split_and!; [done|done|by apply (fr_wrapped _ _ Hc)]. }
  destruct (wrapped_lines (previous_frame c) !! k) as [w|] eqn:E2.
  { pose proof (fr_wrapped _ _ Hp _ _ E2) as Hw. split_and!; [|done|done]. rewrite Hsame. apply Hdone; try done. by apply remove_right. }
  destruct (get_wrapped_line (global_cache s) k) as [g v] eqn:E3. destruct (get_wrapped_right _ _ _ _ _ Hg Hb E3) as (Hg' & Hb' & Hv).
  destruct v as [w|].
  { split_and!; [|done|done]. rewrite Hsame. by apply Hdone. }
  assert (Hst' : sound (with_global s g, c)) by by split_and!.
  unfold layout_line. destruct (layout_line_right _ text size_ runs_ None None Hst') as (Hcur2 & Hgen2 & Hl).
  destruct (layout_line_with_spacing (with_global s g, c) text size_ runs_ None None) as [[s2 c2] l]. cbn [fst snd with_global font_generation] in *. subst l.
  unfold shape_wrapped. cbn [key_text key_font_size key_runs key_wrap_width k]. fold k. rewrite <- Hml.
  set (bs := match ww with Some _ => _ | None => Ok [] end). destruct bs as [b| |] eqn:Eb; cbn [obind]; [|done|done].
  destruct Hcur2 as ([Hp2 Hc2] & Hsame2 & Hg2 & Hb2). cbn [fst snd] in *. rewrite Hsame2, Hgen2 in *.
  assert (Hw : wrapped_right (font_generation s) k (mkWrapped (shape_line (font_generation s) (mkKey text size_ runs_ None None None)) b ww)).
  { unfold wrapped_right, shape_wrapped. cbn [key_text key_font_size key_runs key_wrap_width k]. fold k. rewrite <- Hml. fold bs. by rewrite Eb. }
  destruct (insert_wrapped_global _ _ k _ Hg2 Hb2 Hw) as [Hg3 Hb3]. split_and!; [|done|done]. by apply Hdone.
Qed.

Lemma reuse_right {V} (P : CacheKey -> V -> Prop) (ks : list CacheKey) (p f : gmap CacheKey V) :
  map_Forall P p -> map_Forall P f ->
  map_Forall P (foldl reuse_key (p, f) ks).1 /\ map_Forall P (foldl reuse_key (p, f) ks).2.
Proof using.
  revert p f. induction ks as [|k ks IH]; intros p f Hp Hf; cbn [foldl]; [done|].
  unfold reuse_key at 2 4. destruct (p !! k) as [v|] eqn:E; [|by apply IH].
  apply IH; [by apply map_Forall_delete|apply map_Forall_insert_2; [by apply Hp|done]].
Qed.

Lemma current_frames s c p f : current (s, c) -> frame_right (font_generation s) p -> frame_right (font_generation s) f ->
  current (s, mkCache p f (cached_font_generation c)).
Proof using.
  intros (_ & H2 & H3 & H4) Hp Hf. cbn [fst snd] in *. split_and!; cbn [fst snd]; try done. by split; cbn; rewrite H2.
Qed.

Lemma current_right s c : current (s, c) -> frame_right (font_generation s) (previous_frame c) /\ frame_right (font_generation s) (current_frame c).
Proof using. intros ([Hp Hc] & H2 & _). cbn [fst snd] in *. by rewrite H2 in Hp, Hc. Qed.

(** *** The operations of a window *)

Inductive Op :=
  | LayoutLine (text : str) (font_size : Pixels) (runs : list FontRun) (force_width letter_spacing : option Pixels)
  | LayoutWrappedLine (text : str) (font_size : Pixels) (runs : list FontRun) (wrap_width : option Pixels)
  | LayoutIndex
  | ReuseLayouts (start end_ : LineLayoutIndex)
  | TruncateLayouts (index : LineLayoutIndex)
  | FinishFrame.

Definition run_op (st : State) (op : Op) : outcome State :=
  match op with
  | LayoutLine t size_ rs fw ls => Ok (layout_line_with_spacing st t size_ rs fw ls).1
  | LayoutWrappedLine t size_ rs ww => let! r := layout_wrapped_line st t size_ rs ww (limits (mkKey t size_ rs ww None None)) in Ok r.1
  | LayoutIndex => Ok (layout_index st).1
  | ReuseLayouts a b => reuse_layouts st a b
  | TruncateLayouts i => Ok (truncate_layouts st i)
  | FinishFrame => Ok (finish_frame st)
  end.

Lemma run_op_current st op st' : sound st -> run_op st op = Ok st' -> current st' /\ font_generation st'.1 = font_generation st.1.
Proof using HashOrderLaws0.
  intros Hst. pose proof (clear_current st Hst) as [Hcur Hgen].
  destruct op as [t size_ rs fw ls|t size_ rs ww| |a b|i|]; cbn [run_op].
  - destruct (layout_line_right st t size_ rs fw ls Hst) as (H1 & H2 & _). by intros [= <-].
  - pose proof (layout_wrapped_right st t size_ rs ww _ Hst eq_refl) as H. destruct (layout_wrapped_line _ _ _ _ _ _) as [[st1 w]| |]; cbn [obind]; [|done|done].
    intros [= <-]. by destruct H as (? & ? & _).
  - unfold layout_index. destruct (clear_if_font_generation_changed st) as [s c]. by intros [= <-].
  - unfold reuse_layouts. destruct (clear_if_font_generation_changed st) as [s c]. destruct (negb _); [by intros [= <-]|].
    destruct (slice (used_lines _) _ _) as [ks| |]; cbn [obind]; [|done|done].
    destruct (slice (used_wrapped_lines _) _ _) as [wks| |]; cbn [obind]; [|done|done].
    destruct (current_right _ _ Hcur) as [[Hp1 Hp2] [Hf1 Hf2]].
    pose proof (reuse_right _ ks _ _ Hp1 Hf1) as H1. pose proof (reuse_right _ wks _ _ Hp2 Hf2) as H2.
    destruct (foldl reuse_key (lines _, _) ks) as [pl fl]. destruct (foldl reuse_key (wrapped_lines _, _) wks) as [pw fw].
    intros [= <-]. split; [|done]. apply current_frames; [done|split; [apply H1|apply H2]..].
  - unfold truncate_layouts. destruct (clear_if_font_generation_changed st) as [s c]. destruct (negb _); [by intros [= <-]|].
    intros [= <-]. split; [|done]. destruct (current_right _ _ Hcur) as [Hp [Hf1 Hf2]]. by apply current_frames.
  - unfold finish_frame. destruct (clear_if_font_generation_changed st) as [s c]. intros [= <-]. split; [|done].
    destruct (current_right _ _ Hcur) as [_ Hf]. apply current_frames; [done|done|apply frame_default_right].
Qed.

(** ** The windows of an application *)

Record System := mkSystem { shared : Shared; window_caches : list LineLayoutCache }.

Definition system_new (low : nat) : System := mkSystem (mkShared (global_new budget low) 0) [].

Definition add_fonts (s : Shared) : Shared := mkShared (global_cache s) (S (font_generation s)).

(** A window is opened at a time when another has seen the last fonts, or the shared cache
    holds nothing: [open_after_add_fonts] below shows what happens otherwise. *)
Definition may_open (y : System) : Prop :=
  Exists (fun c => cached_font_generation c = font_generation (shared y)) (window_caches y) \/
  entry_counts (global_cache (shared y)) = (0, 0).

Inductive step : System -> System -> Prop :=
  | step_open y : may_open y -> step y (mkSystem (shared y) (window_caches y ++ [cache_new (shared y)]))
  | step_close y i : step y (mkSystem (shared y) (delete i (window_caches y)))
  | step_op y i c op s' c' : window_caches y !! i = Some c -> run_op (shared y, c) op = Ok (s', c') ->
      step y (mkSystem s' (<[i := c']> (window_caches y)))
  | step_add_fonts y : step y (mkSystem (add_fonts (shared y)) (window_caches y))
  | step_clear y : step y (mkSystem (with_global (shared y) (global_clear (global_cache (shared y)))) (window_caches y)).

Inductive reachable (low : nat) : System -> Prop :=
  | reachable_new : reachable low (system_new low)
  | reachable_step y y' : reachable low y -> step y y' -> reachable low y'.

Record system_right (y : System) : Prop := mkSystemRight {
  yr_bounded : global_bounded (global_cache (shared y));
  yr_windows : Forall (fun c => sound (shared y, c) /\ cached_font_generation c <= font_generation (shared y)) (window_caches y);
}.

Lemma clear_right gen g : global_right gen (global_clear g).
Proof using. split; apply map_Forall_empty. Qed.

Lemma clear_bounded g : max_entries g = Nat.max budget 1 /\ low_watermark g < max_entries g -> global_bounded (global_clear g).
Proof using.
  intros. unfold global_bounded. cbn [global_clear global_lines global_wrapped max_entries low_watermark].
  rewrite !(map_size_empty (M := gmap CacheKey)). lia.
Qed.

Lemma empty_right gen g : entry_counts g = (0, 0) -> global_right gen g.
Proof using.
  intros [= H1%map_size_empty_inv H2%map_size_empty_inv]. split; [rewrite H1|rewrite H2]; apply map_Forall_empty.
Qed.

Lemma step_right y y' : system_right y -> step y y' -> system_right y'.
Proof using HashOrderLaws0.
  intros [Hb Hw] Hstep. destruct Hstep as [y Hmay|y i|y i c op s' c' Hi Hop|y|y]; cbn [shared window_caches] in *.
  - split; cbn [shared window_caches]; [done|]. apply Forall_app. split; [done|]. apply Forall_singleton. split; [|done].
    split_and!; cbn [fst snd]; [split; apply frame_default_right|done|]. intros _. destruct Hmay as [Hex|Hempty]; [|by apply empty_right].
    apply Exists_exists in Hex as (c & Hin & E). rewrite Forall_forall in Hw. destruct (Hw _ Hin) as [(_ & _ & H) _]. by apply H.
  - split; [done|]. cbn [window_caches]. rewrite delete_take_drop. apply Forall_app. split; [by apply Forall_take|by apply Forall_drop].
  - pose proof (proj1 (Forall_lookup _ _) Hw _ _ Hi) as [Hc _]. destruct (run_op_current _ _ _ Hc Hop) as [Hcur Hgen]. cbn [fst snd] in *.
    pose proof Hcur as (Hr & Hsame & Hg & Hb'). cbn [fst snd] in *. split; cbn [shared window_caches]; [done|]. apply Forall_insert.
    + eapply Forall_impl; [exact Hw|]. intros c0 [(H1 & _ & _) H2]. split; [|by rewrite Hgen]. split_and!; [exact H1|exact Hb'|done].
    + split; [by apply current_sound|lia].
  - split; cbn [shared window_caches]; [done|]. eapply Forall_impl; [exact Hw|]. intros c [(H1 & H2 & _) H3].
    split; [|cbn; lia]. split_and!; [done|done|]. cbn. lia.
  - destruct Hb as (Hlow & _). split; cbn [shared window_caches]; [by apply clear_bounded|]. eapply Forall_impl; [exact Hw|]. intros c [(H1 & _) H2].
    split; [|done]. split_and!; [done|by apply clear_bounded|intros _; apply clear_right].
Qed.

Lemma reachable_right low y : reachable low y -> system_right y.
Proof using HashOrderLaws0.
  induction 1 as [|y y' _ IH Hstep]; [|by eapply step_right].
  split; [|done]. unfold global_bounded. cbn [system_new shared global_cache global_new max_entries low_watermark global_lines global_wrapped].
  rewrite !(map_size_empty (M := gmap CacheKey)). lia.
Qed.

(** C11: whatever the windows of the application have laid out, reused, truncated, evicted,
    cleared and finished before, and whatever fonts have been added, a line that is laid out in
    any window is the line shaped afresh with the fonts of the time: no layout of older fonts
    survives in the caches of the two frames or in the one that the windows share; and neither
    of the shared cache's maps ever exceeds the budget.  This is on two conditions, without
    which it fails: a window is opened only while another has seen the last fonts or the shared
    cache is empty ([may_open], [TestCache.stale_after_add_fonts]), and the number of lines that
    a wrapped text is limited to is the same whenever it is laid out, a function of the key
    ([limits], [TestCache.limit_not_in_key]). *)
Theorem line_cache_coherent (low : nat) (y : System) (i : nat) (c : LineLayoutCache) :
  reachable low y -> window_caches y !! i = Some c ->
  let gen := font_generation (shared y) in
  (forall t size_ rs fw ls,
     (layout_line_with_spacing (shared y, c) t size_ rs fw ls).2 = shape_line gen (mkKey t size_ rs None fw ls)) /\
  (forall t size_ rs ww, let k := mkKey t size_ rs ww None None in
     (let! r := layout_wrapped_line (shared y, c) t size_ rs ww (limits k) in Ok r.2) = shape_wrapped gen k) /\
  let g := global_cache (shared y) in
  size (global_lines g) <= Nat.max budget 1 /\ size (global_wrapped g) <= Nat.max budget 1.
Proof using HashOrderLaws0.
  intros Hy%reachable_right Hi. destruct Hy as [((Hmax & _) & B1 & B2) Hw]. destruct (proj1 (Forall_lookup _ _) Hw _ _ Hi) as [Hc _].
  cbn zeta. split_and!; [| |by rewrite <- Hmax..].
  - intros t size_ rs fw ls. by apply (layout_line_right (shared y, c)).
  - intros t size_ rs ww. pose proof (layout_wrapped_right (shared y, c) t size_ rs ww _ Hc eq_refl) as H.
    destruct (layout_wrapped_line _ _ _ _ _ _) as [[st' w]| |]; cbn [obind snd]; [by destruct H as (_ & _ & H)|done..].
Qed.
End Cache.

Module TestCache.

(** Fonts of generation [g] make glyphs of width [1 + g]. *)
Definition fonts (g : nat) : PlatformTextSystem :=
  fun text size_ runs => let w := (Z.of_nat (S g * length text))%Z in
    mkLayout size_ w 0 0 [mkRun 0 (imap (fun i _ => mkGlyph 0 (mkPoint (Z.of_nat (S g * i)) 0) i false) text)] (length text).

Definition no_limit (k : CacheKey) : option nat := None.

#[local] Existing Instance key_order.

Abbreviation Op_run y op := (match window_caches y !! 0 with Some c => run_op fonts no_limit (shared y, c) op | None => Panic end).

Definition after (y : System) (op : Op) : System :=
  match Op_run y op with Ok (s, c) => mkSystem s (<[0 := c]> (window_caches y)) | _ => y end.

Definition opened : System := mkSystem (shared (system_new 1 0)) [cache_new (shared (system_new 1 0))].

(** Two lines, of which the shared cache holds one, a frame's end, and new fonts. *)
Definition used : System :=
  after (after (after opened (LayoutLine (lit "one") 16 [] None None)) (LayoutLine (lit "two") 16 [] None None)) FinishFrame.
Definition aged : System := mkSystem (add_fonts (shared used)) (window_caches used).

Lemma after_step y op : match Op_run y op with Ok _ => true | _ => false end = true -> step fonts no_limit y (after y op).
Proof.
  unfold after. destruct (window_caches y !! 0) as [c|] eqn:H1; [|done].
  destruct (run_op fonts no_limit (shared y, c) op) as [[s' c']| |] eqn:H2; [|done..]. intros _. by eapply step_op.
Qed.

Lemma aged_reachable : reachable fonts no_limit 1 0 aged.
Proof.
  eapply reachable_step; [|apply step_add_fonts].
  do 3 (eapply reachable_step; [|apply after_step; by vm_compute]).
  eapply reachable_step; [apply reachable_new|]. apply step_open. right. by vm_compute.
Qed.

Definition window0 : LineLayoutCache := default (cache_new (shared aged)) (window_caches aged !! 0).

Lemma window0_found : window_caches aged !! 0 = Some window0.
Proof.
  assert (H : is_Some (window_caches aged !! 0)) by (apply lookup_lt_is_Some; by vm_compute).
  unfold window0. by destruct H as [c ->].
Qed.

Lemma line_cache_coherent_witness :
  line_width (fonts 0 (lit "one") 16%Z []) = 3%Z /\
  (layout_line_with_spacing fonts (shared aged, window0) (lit "one") 16 [] None None).2 = fonts 1 (lit "one") 16%Z [].
Proof.
  split; [by vm_compute|].
  destruct (@line_cache_coherent key_order fonts key_order_laws no_limit 1 0 aged 0 window0) as (H & _).
  - apply aged_reachable.
  - apply window0_found.
  - rewrite (H (lit "one") 16%Z [] None None). by vm_compute.
Defined.

(** A window opened when the shared cache still holds lines of older fonts takes the
    generation of the new ones, so nothing clears that cache, and it shows the old layout. *)
Example stale_after_add_fonts :
  (layout_line_with_spacing fonts (shared aged, cache_new (shared aged)) (lit "two") 16%Z [] None None).2 = fonts 0 (lit "two") 16%Z [].
Proof. by vm_compute. Qed.

(** The number of rows is no part of a wrapped line's key, so a text wrapped to one row and
    then to any number has one row both times. *)
Example limit_not_in_key :
  let st := (shared opened, cache_new (shared opened)) in
  let wrap st limit := layout_wrapped_line fonts st (lit "ab cd ef") 16%Z [] (Some 3%Z) limit in
  (let! r := wrap st None in Ok (length (wrap_boundaries r.2))) = Ok 2 /\
  (let! r := wrap st (Some 1) in let! r := wrap r.1 None in Ok (length (wrap_boundaries r.2))) = Ok 0.
Proof. by vm_compute. Qed.
End TestCache.
