(* ===== verification/ShapeText.v ===== *)
(** * ShapeText: styled text is shaped, [crates/gpui/src/text_system.rs]

    [TextSystem] resolves fonts, with a cache and a stack of fallbacks; [WindowTextSystem]
    turns runs of styled text into runs of fonts for the platform and runs of decorations for
    painting, and cuts a text into lines.  [usize::MAX] lines, the limit when there is none, is
    [None].  The pool of vectors that are cleared before use is left out. *)

From Stdlib Require Import NArith ZArith String.
From S2P Require Import Geometry.
From stdpp Require Import base list option numbers gmap.
From S2P Require Import Prelude Hashing Text Utf8 LineLayout ShapedLine TextRun LineCache.

#[local] Set Warnings "-register-all,-clear-no-such-hyp".

(** ** Data *)

#[export] Instance FontStyle_countable : Countable FontStyle.
Proof.
  refine (inj_countable (fun s => match s with FontNormal => 0 | FontItalic => 1 | FontOblique => 2 end)
    (fun n => match n with 0 => Some FontNormal | 1 => Some FontItalic | 2 => Some FontOblique | _ => None end) _). by intros [].
Defined.

#[export] Instance Font_countable : Countable Font.
Proof.
  apply (inj_countable' (fun f => (family f, features f, fallbacks f, weight f, style f)) (fun '(n, f, b, w, s) => mkFont n f b w s)). by intros [].
Defined.

(** A line with its decorations, wrapped. *)
Record WrappedLine := mkWrappedLine {
  wl_layout : WrappedLineLayout;
  wl_text : str;
  wl_decoration_runs : list DecorationRun;
}.

Record TextSystem := mkTextSystem {
  shared_caches : Shared;
  font_ids_by_font : gmap Font (option FontId);
}.

Abbreviation ts_generation ts := (font_generation (shared_caches ts)).

Definition with_shared (ts : TextSystem) (s : Shared) : TextSystem := mkTextSystem s (font_ids_by_font ts).

Section ShapeText.
Context `{!HashOrder CacheKey}.

(** The platform: whether a font can be loaded, and how a line is shaped, with the fonts of a
    generation. *)
Context (platform_font_id : nat -> Font -> option FontId).
Context (shape : nat -> PlatformTextSystem).

(** ** Fonts *)

Definition fallback_font_stack : list Font :=
  map (fun name => font_named (lit name))
    [".ZedMono"; ".ZedSans"; "Helvetica"; "Segoe UI"; "Cantarell"; "Ubuntu"; "Noto Sans"; "DejaVu Sans"]%string.

(** [installed] is whether the platform took the fonts. *)
Definition text_add_fonts (ts : TextSystem) (installed : bool) : TextSystem :=
  if installed then mkTextSystem (add_fonts (shared_caches ts)) ∅ else ts.

Definition text_font_id (ts : TextSystem) (f : Font) : TextSystem * option FontId :=
  match font_ids_by_font ts !! f with
  | Some r => (ts, r)
  | None =>
      let r := platform_font_id (ts_generation ts) f in
      (mkTextSystem (shared_caches ts) (<[f := r]> (font_ids_by_font ts)), r)
  end.

Fixpoint first_font (ts : TextSystem) (fs : list Font) : outcome (TextSystem * FontId) :=
  match fs with
  | [] => Panic
  | f :: fs =>
      match text_font_id ts f with
      | (ts, Some id) => Ok (ts, id)
      | (ts, None) => first_font ts fs
      end
  end.

Definition resolve_font (ts : TextSystem) (f : Font) : outcome (TextSystem * FontId) :=
  match text_font_id ts f with
  | (ts, Some id) => Ok (ts, id)
  | (ts, None) => first_font ts fallback_font_stack
  end.

(** ** Runs *)

Definition same_decoration (d : DecorationRun) (r : TextRun) : bool :=
  bool_decide (color d = run_color r) && bool_decide (underline d = run_underline r) &&
  bool_decide (strikethrough d = run_strikethrough r) && bool_decide (background_color d = run_background r).

Definition decoration_of (r : TextRun) (n : nat) : DecorationRun :=
  mkDecoration (as_u32 n) (run_color r) (run_background r) (run_underline r) (run_strikethrough r).

(** The decorations with [n] bytes of a run, and whether a decoration starts there. *)
Definition push_decoration (ds : list DecorationRun) (r : TextRun) (n : nat) : outcome (list DecorationRun * bool) :=
  match list.last ds with
  | Some d =>
      if same_decoration d r then
        let! m := u32_plus (dec_len d) (as_u32 n) in Ok (removelast ds ++ [with_dec_len d m], false)
      else Ok (ds ++ [decoration_of r n], true)
  | None => Ok (ds ++ [decoration_of r n], true)
  end.

(** The font runs with [n] bytes of a run, and the last font resolved. *)
Definition push_font_run (ts : TextSystem) (fs : list FontRun) (last_font : option FontId) (decoration_changed : bool)
    (r : TextRun) (n : nat) : outcome (TextSystem * list FontRun * option FontId) :=
  let push := let! (ts, id) := resolve_font ts (font r) in Ok (ts, fs ++ [mkFontRun n id], Some id) in
  match list.last fs with
  | Some f =>
      if bool_decide (Some (run_font f) = last_font) && negb decoration_changed then
        Ok (ts, removelast fs ++ [mkFontRun (run_len f + n) (run_font f)], last_font)
      else push
  | None => push
  end.

(** ** A line *)

Fixpoint decorations_of (ds : list DecorationRun) (rs : list TextRun) : outcome (list DecorationRun) :=
  match rs with
  | [] => Ok ds
  | r :: rs => let! (ds, _) := push_decoration ds r (text_len r) in decorations_of ds rs
  end.

(** Whether a run is decorated like the run that the last decoration started with; the
    background is not compared. *)
Definition same_foreground (last_run : option TextRun) (r : TextRun) : bool :=
  match last_run with
  | Some l =>
      bool_decide (run_color l = run_color r) && bool_decide (run_underline l = run_underline r) &&
      bool_decide (run_strikethrough l = run_strikethrough r)
  | None => false
  end.

Fixpoint fonts_of (ts : TextSystem) (fs : list FontRun) (last_font : option FontId) (last_run : option TextRun)
    (rs : list TextRun) : outcome (TextSystem * list FontRun) :=
  match rs with
  | [] => Ok (ts, fs)
  | r :: rs =>
      let same := same_foreground last_run r in
      let last_run := if same then last_run else Some r in
      let! (ts, fs, last_font) := push_font_run ts fs last_font (negb same) r (text_len r) in
      fonts_of ts fs last_font last_run rs
  end.

Definition text_layout_line_with_spacing (ts : TextSystem) (c : LineLayoutCache) (text : str) (font_size : Pixels)
    (rs : list TextRun) (force_width letter_spacing : option Pixels) : outcome (TextSystem * LineLayoutCache * LineLayout) :=
  let! (ts, fs) := fonts_of ts [] None None rs in
  let '((s, c), l) := layout_line_with_spacing shape (shared_caches ts, c) text font_size fs force_width letter_spacing in
  Ok (with_shared ts s, c, l).

Definition text_layout_line (ts : TextSystem) (c : LineLayoutCache) (text : str) (font_size : Pixels)
    (rs : list TextRun) (force_width : option Pixels) : outcome (TextSystem * LineLayoutCache * LineLayout) :=
  text_layout_line_with_spacing ts c text font_size rs force_width None.

(** The first panic is the debug assertion. *)
Definition shape_line_with_spacing (ts : TextSystem) (c : LineLayoutCache) (text : str) (font_size : Pixels)
    (rs : list TextRun) (force_width letter_spacing : option Pixels) : outcome (TextSystem * LineLayoutCache * ShapedLine) :=
  if existsb (N.eqb newline) text then Panic
  else
    let! ds := decorations_of [] rs in
    let! (ts, c, l) := text_layout_line_with_spacing ts c text font_size rs force_width letter_spacing in
    Ok (ts, c, mkShaped l text ds).

Definition text_shape_line (ts : TextSystem) (c : LineLayoutCache) (text : str) (font_size : Pixels)
    (rs : list TextRun) (force_width : option Pixels) : outcome (TextSystem * LineLayoutCache * ShapedLine) :=
  shape_line_with_spacing ts c text font_size rs force_width None.

(** ** A text *)

(** The runs of a line from [run_start] to [line_end], with what is left of the runs: when a
    run is longer than the line, the line ends with it. *)
Fixpoint line_runs (line_end : nat) (rs : list TextRun) (run_start : nat) (ts : TextSystem) (ds : list DecorationRun)
    (fs : list FontRun) (last_font : option FontId) : outcome (TextSystem * list DecorationRun * list FontRun * list TextRun) :=
  match rs with
  | [] => Ok (ts, ds, fs, [])
  | r :: rest =>
      if negb (run_start <? line_end) then Ok (ts, ds, fs, rs)
      else
        let n := Nat.min line_end (run_start + text_len r) - run_start in
        let! (ds, decoration_changed) := push_decoration ds r n in
        let! (ts, fs, last_font) := push_font_run ts fs last_font decoration_changed r n in
        if n =? text_len r then line_runs line_end rest (run_start + n) ts ds fs last_font
        else Ok (ts, ds, fs, with_text_len r (text_len r - n) :: rest)
  end.

(** The byte of the newline leaves the runs. *)
Definition skip_newline (rs : list TextRun) : outcome (list TextRun) :=
  match rs with
  | [] => Ok []
  | r :: rest =>
      let! n := usize_sub (text_len r) 1 in
      Ok (if n =? 0 then rest else with_text_len r n :: rest)
  end.

(** The variables of [shape_text]. *)
Record Shaping := mkShaping {
  sh_text : TextSystem;
  sh_window : LineLayoutCache;
  sh_runs : list TextRun;
  line_start : nat;
  wrapped_rows : nat;
  sh_lines : list WrappedLine;
}.

Definition remaining_lines (max_wrap_lines : option nat) (wrapped : nat) : outcome (option nat) :=
  match max_wrap_lines with
  | Some m => let! n := usize_sub m wrapped in Ok (Some n)
  | None => Ok None
  end.

Definition process_line (font_size : Pixels) (wrap_width : option Pixels) (max_wrap_lines : option nat)
    (st : Shaping) (line_text : str) : outcome Shaping :=
  let line_end := line_start st + str_len line_text in
  let! (ts, ds, fs, rs) := line_runs line_end (sh_runs st) (line_start st) (sh_text st) [] [] None in
  let! limit := remaining_lines max_wrap_lines (wrapped_rows st) in
  let! ((s, c), w) := layout_wrapped_line shape (shared_caches ts, sh_window st) line_text font_size fs wrap_width limit in
  let! rs := skip_newline rs in
  Ok (mkShaping (with_shared ts s) c rs (line_end + 1) (wrapped_rows st + length (wrap_boundaries w))
        (sh_lines st ++ [mkWrappedLine w line_text ds])).

Fixpoint process_lines (font_size : Pixels) (wrap_width : option Pixels) (max_wrap_lines : option nat)
    (st : Shaping) (ls : list str) : outcome Shaping :=
  match ls with
  | [] => Ok st
  | l :: ls => let! st := process_line font_size wrap_width max_wrap_lines st l in process_lines font_size wrap_width max_wrap_lines st ls
  end.

(** A text of a single line is taken as it is. *)
Definition shape_text (ts : TextSystem) (c : LineLayoutCache) (text : str) (font_size : Pixels) (rs : list TextRun)
    (wrap_width : option Pixels) (line_clamp : option nat) : outcome (TextSystem * LineLayoutCache * list WrappedLine) :=
  let st := mkShaping ts c (List.filter (fun r => 0 <? text_len r) rs) 0 0 [] in
  let process := process_lines font_size wrap_width line_clamp in
  let! st :=
    match split newline text with
    | first :: second :: rest =>
        let! st := process st [first; second] in process st rest
    | _ => process st [text]
    end in
  Ok (sh_text st, sh_window st, sh_lines st).

(** ** Resolving fonts *)

(** The font, or the first of the stack that can be loaded. *)
Definition resolve (gen : nat) (f : Font) : option FontId := head (omap (platform_font_id gen) (f :: fallback_font_stack)).

Definition fonts_right (gen : nat) (m : gmap Font (option FontId)) : Prop := map_Forall (fun f r => r = platform_font_id gen f) m.

(** A text system that differs in its cache of fonts, which is right. *)
Definition same_but_fonts (ts ts' : TextSystem) : Prop :=
  shared_caches ts' = shared_caches ts /\ fonts_right (ts_generation ts') (font_ids_by_font ts').

Lemma text_font_id_right ts f : fonts_right (ts_generation ts) (font_ids_by_font ts) ->
  same_but_fonts ts (text_font_id ts f).1 /\ (text_font_id ts f).2 = platform_font_id (ts_generation ts) f.
Proof using.
  intros Hf. unfold text_font_id. destruct (font_ids_by_font ts !! f) as [r|] eqn:E; cbn [fst snd].
  - split; [by split|]. by apply Hf in E.
  - split; [|done]. split; [done|]. by apply map_Forall_insert_2.
Qed.

Lemma first_font_right fs : forall ts, fonts_right (ts_generation ts) (font_ids_by_font ts) ->
  match head (omap (platform_font_id (ts_generation ts)) fs) with
  | Some id => exists ts', first_font ts fs = Ok (ts', id) /\ same_but_fonts ts ts'
  | None => first_font ts fs = Panic
  end.
Proof using.
  induction fs as [|f fs IH]; intros ts Hf; [done|]. destruct (text_font_id_right ts f Hf) as [Hs Hr].
  cbn [omap list_omap first_font]. destruct (text_font_id ts f) as [ts1 r]. cbn [fst snd] in *. subst r. destruct (platform_font_id (ts_generation ts) f) as [id|] eqn:E; cbn [head].
  - by exists ts1.
  - destruct Hs as [Hs Hr]. specialize (IH ts1 Hr). rewrite Hs in IH. unfold omap in IH. destruct (head _) as [id|]; [|done].
    destruct IH as (ts' & H1 & H2 & H3). exists ts'. split; [done|]. split; [congruence|done].
Qed.

Lemma resolve_font_right ts f id : fonts_right (ts_generation ts) (font_ids_by_font ts) -> resolve (ts_generation ts) f = Some id ->
  exists ts', resolve_font ts f = Ok (ts', id) /\ same_but_fonts ts ts'.
Proof using. intros Hf Hid. pose proof (first_font_right (f :: fallback_font_stack) ts Hf) as H. unfold resolve in Hid. by rewrite Hid in H. Qed.

(** ** The text byte by byte *)

(** Every byte with the style of its run. *)
Definition expand (rs : list TextRun) : list TextRun := flat_map (fun r => repeat (with_text_len r 1) (text_len r)) rs.

Definition decorated_alike (a b : TextRun) : bool := same_decoration (decoration_of a 1) b.

(** The bytes grouped by decoration; a group has the style of its first byte. *)
Fixpoint groups (bs : list TextRun) : list (TextRun * nat) :=
  match bs with
  | [] => []
  | b :: bs =>
      match groups bs with
      | (c, n) :: gs => if decorated_alike b c then (b, S n) :: gs else (b, 1) :: (c, n) :: gs
      | [] => [(b, 1)]
      end
  end.

Definition group_decorations (gs : list (TextRun * nat)) : list DecorationRun := map (fun g => decoration_of g.1 g.2) gs.

Definition font_at (gen : nat) (b : TextRun) : FontId := default 0 (resolve gen (font b)).
Definition group_fonts (gen : nat) (gs : list (TextRun * nat)) : list FontRun := map (fun g => mkFontRun g.2 (font_at gen g.1)) gs.

(** [n] more bytes like [b]. *)
Definition push_group (gs : list (TextRun * nat)) (b : TextRun) (n : nat) : list (TextRun * nat) :=
  match list.last gs with
  | Some (c, m) => if decorated_alike c b then removelast gs ++ [(c, m + n)] else gs ++ [(b, n)]
  | None => [(b, n)]
  end.

Lemma decorated_alike_spec a b : decorated_alike a b = true <->
  run_color a = run_color b /\ run_background a = run_background b /\ run_underline a = run_underline b /\ run_strikethrough a = run_strikethrough b.
Proof using. unfold decorated_alike, same_decoration. cbn. rewrite !andb_true_iff, !bool_decide_eq_true. tauto. Qed.

Lemma decorated_alike_trans a b c : decorated_alike a b = true -> decorated_alike a c = decorated_alike b c.
Proof using.
  intros (H1 & H2 & H3 & H4)%decorated_alike_spec. apply eq_true_iff_eq. rewrite !decorated_alike_spec. by rewrite H1, H2, H3, H4.
Qed.

Lemma decorated_alike_refl a : decorated_alike a a = true.
Proof using. by apply decorated_alike_spec. Qed.

Definition cons_group (b : TextRun) (gs : list (TextRun * nat)) : list (TextRun * nat) :=
  match gs with
  | (c, n) :: gs => if decorated_alike b c then (b, S n) :: gs else (b, 1) :: (c, n) :: gs
  | [] => [(b, 1)]
  end.

Lemma cons_push_group b c n gs : cons_group b (push_group gs c n) = push_group (cons_group b gs) c n \/ gs = [].
Proof using.
  destruct gs as [|[d k] gs]; [by right|left]. unfold push_group at 1. destruct gs as [|g gs].
  - cbn [list.last removelast app cons_group]. destruct (decorated_alike d c) eqn:E2, (decorated_alike b d) eqn:E1; cbn [cons_group]; rewrite ?E1; unfold push_group; cbn [list.last removelast app];
      rewrite ?E2; try done; rewrite (decorated_alike_trans _ _ _ E1), E2; done.
  - destruct (list.last ((d, k) :: g :: gs)) as [[e m]|] eqn:El; [|by apply last_None in El].
    assert (Hl : forall x, list.last (x :: g :: gs) = Some (e, m)) by (intros x; rewrite <- El; done).
    assert (Hl2 : forall x y, list.last (x :: y :: g :: gs) = Some (e, m)) by (intros x y; rewrite <- El; done).
    cbn [cons_group]. destruct (decorated_alike e c) eqn:E2.
    + change (removelast ((d, k) :: g :: gs)) with ((d, k) :: removelast (g :: gs)). cbn [app cons_group].
      destruct (decorated_alike b d) eqn:E1; unfold push_group; rewrite ?Hl, ?Hl2, E2; done.
    + cbn [app cons_group]. destruct (decorated_alike b d) eqn:E1; unfold push_group; rewrite ?Hl, ?Hl2, E2; done.
Qed.

Lemma groups_app_repeat bs b n : 1 <= n -> groups (bs ++ repeat b n) = push_group (groups bs) b n.
Proof using.
  intros Hn. induction bs as [|c bs IH].
  - cbn [app groups]. unfold push_group. cbn [list.last]. destruct n as [|n]; [lia|clear Hn]. induction n as [|n IH]; [done|].
    change (groups (repeat b (S (S n)))) with (cons_group b (groups (repeat b (S n)))). rewrite IH. cbn. by rewrite decorated_alike_refl.
  - change (groups ((c :: bs) ++ repeat b n)) with (cons_group c (groups (bs ++ repeat b n))). rewrite IH.
    change (groups (c :: bs)) with (cons_group c (groups bs)). destruct (cons_push_group c b n (groups bs)) as [H| ->]; [done|].
    unfold push_group. cbn [list.last cons_group removelast app]. destruct (decorated_alike c b); [|done]. by replace (1 + n) with (S n) by lia.
Qed.

Lemma groups_total bs : sum_list_with snd (groups bs) = length bs.
Proof using. induction bs as [|b bs IH]; [done|]. cbn [groups length]. destruct (groups bs) as [|[c n] gs]; cbn in *; [lia|]. destruct (decorated_alike b c); cbn; lia. Qed.

Lemma last_total (gs : list (TextRun * nat)) c m : list.last gs = Some (c, m) -> m <= sum_list_with snd gs.
Proof using. intros (gs' & ->)%last_Some. rewrite sum_list_with_app. cbn. lia. Qed.

Definition starts_group (gs : list (TextRun * nat)) (b : TextRun) : bool :=
  match list.last gs with Some (c, _) => negb (decorated_alike c b) | None => true end.

Lemma push_decoration_groups gs r n : (Z.of_nat (sum_list_with snd gs + n) < u32_limit)%Z ->
  push_decoration (group_decorations gs) r n = Ok (group_decorations (push_group gs (with_text_len r 1) n), starts_group gs (with_text_len r 1)).
Proof using.
  intros Hn. unfold push_decoration, push_group, starts_group, group_decorations. destruct gs as [|g gs _] using rev_ind; [done|].
  rewrite map_app, last_snoc. destruct g as [c m]. cbn [map fst snd]. rewrite last_snoc.
  change (same_decoration (decoration_of c m) r) with (decorated_alike c (with_text_len r 1)).
  rewrite sum_list_with_app in Hn. cbn in Hn. destruct (decorated_alike c _); cbn [negb]; [|by rewrite !map_app].
  unfold u32_plus. cbn [decoration_of dec_len]. rewrite !as_u32_small by lia. rewrite (proj2 (Z.ltb_lt _ _)) by lia. cbn [obind].
  rewrite !removelast_last, map_app. cbn. unfold decoration_of, with_dec_len. cbn. by rewrite as_u32_small, Nat2Z.inj_add by lia.
Qed.

Definition last_font_of (fs : list FontRun) : option FontId := option_map run_font (list.last fs).

Lemma push_font_run_groups ts gs r n : fonts_right (ts_generation ts) (font_ids_by_font ts) -> is_Some (resolve (ts_generation ts) (font r)) ->
  exists ts', same_but_fonts ts ts' /\ let fs := group_fonts (ts_generation ts) in
  push_font_run ts (fs gs) (last_font_of (fs gs)) (starts_group gs (with_text_len r 1)) r n =
    Ok (ts', fs (push_group gs (with_text_len r 1) n), last_font_of (fs (push_group gs (with_text_len r 1) n))).
Proof using.
  intros Hf [id Hid]. destruct (resolve_font_right _ _ _ Hf Hid) as (ts' & Hres & Hsame). cbn zeta.
  assert (Hat : font_at (ts_generation ts) (with_text_len r 1) = id) by (unfold font_at; cbn; by rewrite Hid).
  unfold push_font_run, push_group, starts_group, group_fonts, last_font_of. destruct gs as [|g gs _] using rev_ind.
  - exists ts'. split; [done|]. rewrite Hres. cbn. by rewrite Hat.
  - rewrite !map_app, last_snoc. destruct g as [c m]. cbn [map fst snd]. rewrite last_snoc. cbn [option_map run_font]. rewrite bool_decide_eq_true_2 by done.
    destruct (decorated_alike c _) eqn:E; cbn [negb andb].
    + exists ts. split; [by split|]. rewrite !removelast_last, map_app. cbn. by rewrite last_snoc.
    + exists ts'. split; [done|]. rewrite Hres. cbn [obind]. rewrite !map_app. cbn. by rewrite last_snoc, Hat.
Qed.

Definition run_ok (gen : nat) (r : TextRun) : Prop := 0 < text_len r /\ is_Some (resolve gen (font r)).

Lemma expand_cons r rs : expand (r :: rs) = repeat (with_text_len r 1) (text_len r) ++ expand rs.
Proof using. done. Qed.

Lemma take_repeat {A} (a : A) n m : take n (repeat a m) = repeat a (Nat.min n m).
Proof using. revert m. induction n as [|n IH]; intros [|m]; cbn; by rewrite ?IH. Qed.
Lemma drop_repeat {A} (a : A) n m : drop n (repeat a m) = repeat a (m - n).
Proof using. revert m. induction n as [|n IH]; intros [|m]; cbn; by rewrite ?IH. Qed.

Lemma line_runs_spec line_end rs : forall run_start ts pre,
  fonts_right (ts_generation ts) (font_ids_by_font ts) -> Forall (run_ok (ts_generation ts)) rs -> run_start <= line_end ->
  (Z.of_nat (length pre + (line_end - run_start)) < u32_limit)%Z ->
  let fs := group_fonts (ts_generation ts) in let m := line_end - run_start in let gs := groups (pre ++ take m (expand rs)) in
  exists ts' rest, line_runs line_end rs run_start ts (group_decorations (groups pre)) (fs (groups pre)) (last_font_of (fs (groups pre))) =
    Ok (ts', group_decorations gs, fs gs, rest) /\
  same_but_fonts ts ts' /\ expand rest = drop m (expand rs) /\ Forall (run_ok (ts_generation ts)) rest.
Proof using.
  induction rs as [|r rs IH]; intros run_start ts pre Hf Hok Hle Hu; cbn zeta.
  { exists ts, []. cbn. rewrite take_nil, drop_nil, app_nil_r. by split_and!. }
  apply Forall_cons in Hok as [[Hpos Hres] Hok]. cbn [line_runs]. destruct (Nat.ltb_spec run_start line_end) as [Hlt|Hge]; cbn [negb].
  2:{ replace (line_end - run_start) with 0 by lia. exists ts, (r :: rs). rewrite take_0, app_nil_r. split_and!; try done. apply Forall_cons. by split. }
  set (n := Nat.min line_end (run_start + text_len r) - run_start). set (b := with_text_len r 1).
  rewrite push_decoration_groups by (rewrite groups_total; unfold n; lia). cbn [obind].
  destruct (push_font_run_groups ts (groups pre) r n Hf Hres) as (ts1 & [Hs1 Hf1] & Hpush). cbn zeta in Hpush. rewrite Hpush. cbn [obind].
  fold b. rewrite <- groups_app_repeat by (unfold n; lia). rewrite expand_cons. fold b.
  destruct (Nat.eqb_spec n (text_len r)) as [En|Hne].
  - specialize (IH (run_start + n) ts1 (pre ++ repeat b n) Hf1). rewrite Hs1 in IH. rewrite length_app, repeat_length in IH.
    destruct IH as (ts' & rest & H1 & [H2 H2'] & H3 & H4); [done|unfold n in *; lia|unfold n in *; lia|]. exists ts', rest. rewrite H1.
    replace (line_end - run_start) with (n + (line_end - (run_start + n))) by (unfold n in *; lia). rewrite <- En.
    rewrite take_app_add', drop_app_add' by by rewrite repeat_length. rewrite <- app_assoc. split_and!; try done. split; [congruence|done].
  - assert (Hn : n = line_end - run_start) by (unfold n in *; lia). rewrite <- Hn. exists ts1, (with_text_len r (text_len r - n) :: rs).
    rewrite take_app_le, drop_app_le by (rewrite repeat_length; unfold n; lia). rewrite take_repeat, drop_repeat, Nat.min_l by (unfold n; lia).
    split_and!; try done. apply Forall_cons. split; [|done]. split; [cbn; unfold n in *; lia|done].
Qed.

(** ** A text, line by line *)

(** What [shape_text] is to make of a line. *)
Record LineSpec := mkLineSpec { ls_text : str; ls_decorations : list DecorationRun; ls_fonts : list FontRun }.

(** A line takes its bytes, and its newline one more. *)
Fixpoint line_specs (gen : nat) (bytes : list TextRun) (ls : list str) : list LineSpec :=
  match ls with
  | [] => []
  | l :: ls =>
      let gs := groups (take (str_len l) bytes) in
      mkLineSpec l (group_decorations gs) (group_fonts gen gs) :: line_specs gen (drop (S (str_len l)) bytes) ls
  end.

Section Lines.
Context (font_size : Pixels) (wrap_width : option Pixels) (max_wrap_lines : option nat).

(** The lines laid out one after another, each in the rows that the ones before leave. *)
Fixpoint layout_lines (st : Shared * LineLayoutCache) (wrapped : nat) (ls : list LineSpec) :
    outcome ((Shared * LineLayoutCache) * list WrappedLine) :=
  match ls with
  | [] => Ok (st, [])
  | l :: ls =>
      let! limit := remaining_lines max_wrap_lines wrapped in
      let! (st, w) := layout_wrapped_line shape st (ls_text l) font_size (ls_fonts l) wrap_width limit in
      let! (st, ws) := layout_lines st (wrapped + length (wrap_boundaries w)) ls in
      Ok (st, mkWrappedLine w (ls_text l) (ls_decorations l) :: ws)
  end.

Lemma skip_newline_spec gen rs : Forall (run_ok gen) rs ->
  exists rest, skip_newline rs = Ok rest /\ expand rest = drop 1 (expand rs) /\ Forall (run_ok gen) rest.
Proof using.
  destruct rs as [|r rs]; [by exists []|]. intros [[Hpos Hres] Hok]%Forall_cons. cbn [skip_newline]. rewrite usize_sub_Ok by lia. cbn [obind].
  rewrite expand_cons. destruct (text_len r) as [|n] eqn:En; [lia|]. cbn [repeat app drop Nat.sub]. rewrite Nat.sub_0_r, drop_0.
  destruct (Nat.eqb_spec n 0) as [->|Hn]; [by exists rs|]. exists (with_text_len r n :: rs). split_and!; [done|done|].
  apply Forall_cons. split; [|done]. split; [cbn; lia|done].
Qed.

Lemma layout_wrapped_generation st t rs ml st' w : layout_wrapped_line shape st t font_size rs wrap_width ml = Ok (st', w) ->
  font_generation st'.1 = font_generation st.1.
Proof using.
  unfold layout_wrapped_line, layout_line, layout_line_with_spacing. assert (H : font_generation (clear_if_font_generation_changed st).1 = font_generation st.1).
  { destruct st as [s c]. unfold clear_if_font_generation_changed. by destruct (_ =? _). }
  destruct (clear_if_font_generation_changed st) as [s c]. cbn [fst] in H. rewrite <- H. clear H.
  destruct (wrapped_lines _ !! _); [by intros [= <- <-]|]. destruct (wrapped_lines _ !! _); [by intros [= <- <-]|].
  destruct (get_wrapped_line _ _) as [g [v|]]; [by intros [= <- <-]|].
  assert (H : font_generation (clear_if_font_generation_changed (with_global s g, c)).1 = font_generation s).
  { unfold clear_if_font_generation_changed. by destruct (_ =? _). }
  destruct (clear_if_font_generation_changed (with_global s g, c)) as [s2 c2]. cbn [fst] in H.
  destruct (lines _ !! _); [|destruct (lines _ !! _); [|destruct (get_line _ _) as [g' [v|]]]]; cbn [obind];
    (destruct wrap_width; cbn [obind]; [destruct (compute_wrap_boundaries _ _ _ _); cbn [obind]|]; intros [= <- <-]; done).
Qed.

Lemma process_lines_spec ls : forall st, let gen := ts_generation (sh_text st) in
  fonts_right gen (font_ids_by_font (sh_text st)) -> Forall (run_ok gen) (sh_runs st) ->
  Forall (fun l => Z.of_nat (str_len l) < u32_limit)%Z ls ->
  exists ids, fonts_right gen ids /\
  (let! s := process_lines font_size wrap_width max_wrap_lines st ls in Ok (sh_text s, sh_window s, sh_lines s)) =
  (let! (st', ws) := layout_lines (shared_caches (sh_text st), sh_window st) (wrapped_rows st) (line_specs gen (expand (sh_runs st)) ls) in
   Ok (mkTextSystem st'.1 ids, st'.2, sh_lines st ++ ws)).
Proof using.
  induction ls as [|l ls IH]; intros st gen Hf Hok Hu.
  { exists (font_ids_by_font (sh_text st)). split; [done|]. cbn. rewrite app_nil_r. by destruct (sh_text st). }
  apply Forall_cons in Hu as [Hl Hu]. cbn [process_lines line_specs layout_lines ls_text ls_fonts ls_decorations]. unfold process_line at 1.
  destruct (line_runs_spec (line_start st + str_len l) (sh_runs st) (line_start st) (sh_text st) [] Hf Hok) as (ts & rest & H1 & [Hs Hts] & H3 & H4);
    [lia|cbn [length]; by replace (0 + _) with (str_len l) by lia|].
  cbn zeta in H1. replace (line_start st + str_len l - line_start st) with (str_len l) in * by lia. fold gen in H1, H4.
  change (groups []) with (@nil (TextRun * nat)) in H1. change (group_decorations []) with (@nil DecorationRun) in H1.
  change (group_fonts gen []) with (@nil FontRun) in H1. change (last_font_of []) with (@None FontId) in H1. rewrite H1. cbn [obind app].
  rewrite Hs in Hts |- *. destruct (remaining_lines _ _) as [limit| |]; cbn [obind]; [|by exists (font_ids_by_font (sh_text st))..].
  destruct (layout_wrapped_line _ _ _ _ _ _ _) as [[[s c] w]| |] eqn:El; cbn [obind]; [|by exists (font_ids_by_font (sh_text st))..].
  apply layout_wrapped_generation in El. cbn [fst] in El. destruct (skip_newline_spec gen rest H4) as (rest' & -> & H5 & H6). cbn [obind].
  set (st1 := mkShaping _ _ _ _ _ _). destruct (IH st1) as (ids & Hids & Heq); [by cbn; rewrite El|by cbn; rewrite El|done|].
  cbn [sh_text shared_caches with_shared st1 sh_window wrapped_rows sh_runs sh_lines] in Hids, Heq. rewrite El in Hids, Heq. fold gen in Hids, Heq.
  exists ids. split; [done|]. etransitivity; [exact Heq|]. rewrite H5, H3, drop_drop.
  replace (str_len l + 1) with (S (str_len l)) by lia.
  lazymatch goal with |- obind ?r _ = _ => destruct r as [[st' ws]| |] end; cbn [obind]; [|done..]. by rewrite <- app_assoc.
Qed.
End Lines.

Lemma process_lines_app size_ ww ml st l1 l2 :
  process_lines size_ ww ml st (l1 ++ l2) = let! st := process_lines size_ ww ml st l1 in process_lines size_ ww ml st l2.
Proof using.
  revert st. induction l1 as [|l l1 IH]; intros st; [done|]. cbn [app process_lines]. destruct (process_line _ _ _ _ _); cbn [obind]; [apply IH|done..].
Qed.

(** The pieces with the separator between them. *)
Fixpoint join_lines (ls : list str) : str :=
  match ls with
  | [] => []
  | [l] => l
  | l :: ls => l ++ newline :: join_lines ls
  end.

Lemma join_split s : join_lines (split newline s) = s.
Proof using.
  induction s as [|c s IH]; [done|]. cbn [split]. pose proof (split_nonempty newline s) as Hn. destruct (split newline s) as [|w ws]; [done|].
  destruct (N.eqb_spec c newline) as [->|_]; [by rewrite <- IH|]. rewrite <- IH. by destruct ws.
Qed.

Lemma join_lines_len ls : Forall (fun l => str_len l <= str_len (join_lines ls)) ls.
Proof using.
  induction ls as [|l ls IH]; [done|]. destruct ls as [|l2 ls]; [by repeat constructor|].
  change (join_lines (l :: l2 :: ls)) with (l ++ newline :: join_lines (l2 :: ls)). rewrite str_len_app, str_len_cons. apply Forall_cons. split; [lia|].
  eapply Forall_impl; [exact IH|]. cbn beta. lia.
Qed.

Definition one_byte (b : TextRun) : DecorationRun := decoration_of b 1.

(** The decorations byte by byte. *)
Definition decoration_bytes (ds : list DecorationRun) : list DecorationRun :=
  flat_map (fun d => repeat (with_dec_len d 1) (Z.to_nat (dec_len d))) ds.

Lemma one_byte_alike a b : decorated_alike a b = true -> one_byte a = one_byte b.
Proof using. intros (H1 & H2 & H3 & H4)%decorated_alike_spec. unfold one_byte, decoration_of. congruence. Qed.

Lemma groups_bytes bs : (Z.of_nat (length bs) < u32_limit)%Z ->
  decoration_bytes (group_decorations (groups bs)) = map one_byte bs.
Proof using.
  assert (H : forall gs, (Z.of_nat (sum_list_with snd gs) < u32_limit)%Z ->
    decoration_bytes (group_decorations gs) = flat_map (fun g => repeat (one_byte g.1) g.2) gs).
  { intros gs. induction gs as [|[b n] gs IH]; [done|]. cbn [sum_list_with fst snd]. intros Hu. unfold decoration_bytes, group_decorations in *. cbn [map flat_map fst snd].
    rewrite IH by lia. f_equal. unfold decoration_of at 2. cbn [dec_len]. by rewrite as_u32_small, Nat2Z.id by lia. }
  intros Hu. rewrite H by by rewrite groups_total. clear H Hu. induction bs as [|b bs IH]; [done|]. cbn [groups map]. rewrite <- IH.
  destruct (groups bs) as [|[c n] gs]; [done|]. destruct (decorated_alike b c) eqn:E; [|done]. cbn [flat_map fst snd repeat app]. by rewrite (one_byte_alike _ _ E).
Qed.

Lemma group_lengths gen gs : (Z.of_nat (sum_list_with snd gs) < u32_limit)%Z ->
  map run_len (group_fonts gen gs) = map (fun d => Z.to_nat (dec_len d)) (group_decorations gs).
Proof using.
  induction gs as [|[b n] gs IH]; [done|]. cbn [sum_list_with fst snd]. intros Hu. unfold group_fonts, group_decorations in *.
  cbn [map fst snd run_len dec_len decoration_of]. rewrite IH by lia. by rewrite as_u32_small, Nat2Z.id by lia.
Qed.

(** The fonts byte by byte. *)
Definition font_bytes (fs : list FontRun) : list FontId := flat_map (fun f => repeat (run_font f) (run_len f)) fs.

(** What is decorated alike has one font. *)
Definition fonts_by_decoration (bs : list TextRun) : Prop :=
  forall a b, a ∈ bs -> b ∈ bs -> decorated_alike a b = true -> font a = font b.

Lemma fonts_by_decoration_sub a b : (forall x, x ∈ a -> x ∈ b) -> fonts_by_decoration b -> fonts_by_decoration a.
Proof using. intros Hs Hb x y Hx Hy. apply Hb; by apply Hs. Qed.

Lemma groups_first bs b n gs : groups bs = (b, n) :: gs -> b ∈ bs.
Proof using.
  destruct bs as [|c bs]; [done|]. cbn [groups]. destruct (groups bs) as [|[d m] gs']; [|destruct (decorated_alike c d)]; intros [= <- _ _]; by left.
Qed.

Lemma groups_fonts gen bs : fonts_by_decoration bs -> font_bytes (group_fonts gen (groups bs)) = map (font_at gen) bs.
Proof using.
  induction bs as [|b bs IH]; intros Hb; [done|]. assert (Hbs : fonts_by_decoration bs) by (eapply fonts_by_decoration_sub; [|exact Hb]; intros x; by right).
  cbn [groups map]. rewrite <- IH by done. destruct (groups bs) as [|[c n] gs] eqn:E; [done|]. apply groups_first in E.
  destruct (decorated_alike b c) eqn:Ec; [|done]. unfold font_bytes, group_fonts. cbn [map flat_map fst snd run_len run_font repeat app].
  replace (font_at gen b) with (font_at gen c); [done|]. unfold font_at. rewrite (Hb b c); [done|by left|by right|done].
Qed.

Lemma In_take {A} n (l : list A) x : In x (take n l) -> In x l.
Proof using. intros Hx. rewrite <- (take_drop n l). apply in_app_iff. by left. Qed.
Lemma In_drop {A} n (l : list A) x : In x (drop n l) -> In x l.
Proof using. intros Hx. rewrite <- (take_drop n l). apply in_app_iff. by right. Qed.

(** A line of the text, with the bytes where it stands: their decorations and their fonts. *)
Definition line_placed (gen : nat) (text : str) (bytes : list TextRun) (l : LineSpec) : Prop :=
  exists pre post, text = pre ++ ls_text l ++ post /\
  let bs := take (str_len (ls_text l)) (drop (str_len pre) bytes) in
  decoration_bytes (ls_decorations l) = map one_byte bs /\
  font_bytes (ls_fonts l) = map (font_at gen) bs /\
  map run_len (ls_fonts l) = map (fun d => Z.to_nat (dec_len d)) (ls_decorations l).

Lemma line_specs_placed gen bytes ls : fonts_by_decoration bytes -> forall pre, Forall (fun l => Z.of_nat (str_len l) < u32_limit)%Z ls ->
  Forall (line_placed gen (pre ++ join_lines ls) bytes) (line_specs gen (drop (str_len pre) bytes) ls).
Proof using.
  intros Hb. induction ls as [|l ls IH]; intros pre; [done|]. intros [Hl Hls]%Forall_cons. cbn [line_specs]. apply Forall_cons. split.
  - exists pre, (match ls with [] => [] | _ => newline :: join_lines ls end). cbn [ls_text ls_decorations ls_fonts]. split_and!.
    + destruct ls; [by rewrite app_nil_r|done].
    + apply groups_bytes. rewrite length_take. lia.
    + apply groups_fonts. eapply fonts_by_decoration_sub; [|exact Hb]. intros x Hx%list_elem_of_In. apply list_elem_of_In.
      apply (In_take (str_len l)), (In_drop (str_len pre)) in Hx. done.
    + apply group_lengths. rewrite groups_total, length_take. lia.
  - destruct ls as [|l2 ls]; [done|]. specialize (IH (pre ++ l ++ [newline]) Hls). rewrite drop_drop.
    rewrite !str_len_app in IH. change (str_len [newline]) with 1 in IH. replace (str_len pre + S (str_len l)) with (str_len pre + (str_len l + 1)) by lia.
    rewrite <- !app_assoc in IH. exact IH.
Qed.

Lemma line_specs_text gen bytes ls : map ls_text (line_specs gen bytes ls) = ls.
Proof using. revert bytes. induction ls as [|l ls IH]; intros bytes; [done|]. cbn. by rewrite IH. Qed.

Lemma expand_filter rs : expand (List.filter (fun r => 0 <? text_len r) rs) = expand rs.
Proof using. induction rs as [|r rs IH]; [done|]. cbn [List.filter]. rewrite expand_cons. destruct (Nat.ltb_spec 0 (text_len r)); [by rewrite expand_cons, IH|]. by replace (text_len r) with 0 by lia. Qed.

Lemma expand_fonts rs : fonts_by_decoration rs -> fonts_by_decoration (expand rs).
Proof using.
  intros Hd a b Ha%list_elem_of_In Hb%list_elem_of_In. apply in_flat_map in Ha as (x & Hx & Ha), Hb as (y & Hy & Hb).
  apply repeat_spec in Ha as ->, Hb as ->. apply list_elem_of_In in Hx, Hy. intros E. by apply (Hd x y).
Qed.

Lemma shape_text_lines ts c text size_ rs ww ml :
  shape_text ts c text size_ rs ww ml =
  let! st := process_lines size_ ww ml (mkShaping ts c (List.filter (fun r => 0 <? text_len r) rs) 0 0 []) (split newline text) in
  Ok (sh_text st, sh_window st, sh_lines st).
Proof using.
  unfold shape_text. pose proof (join_split text) as Hj. destruct (split newline text) as [|first [|second rest]] eqn:E.
  - by destruct (split_nonempty newline text).
  - cbn [join_lines] in Hj. by rewrite <- Hj.
  - by rewrite <- process_lines_app.
Qed.

(** C12: when the runs that are decorated alike have one font (other runs can be shaped in the
    wrong one, [TestShape.fonts_merged]), each of which or a fallback can be loaded, and the
    text is shorter than 2^32 bytes, [shape_text] cuts the text at its newlines and gives each
    line, in order, the decoration and the font of every byte where it stands, adjacent bytes
    that are alike as one run; the font is the run's own if it can be loaded, else the first of
    the stack of fallbacks that can; the newline takes a byte of the runs too.  Then the lines
    are laid out one after another, each in the rows that the lines before leave of the clamp;
    that is the only part that can panic, as it does if a line before, found in the cache, had
    more rows than were left ([TestShape.clamped_rows_underflow]). *)
Theorem shape_text_correct (ts : TextSystem) (c : LineLayoutCache) (text : str) (size_ : Pixels) (rs : list TextRun)
    (ww : option Pixels) (clamp : option nat) :
  let gen := ts_generation ts in
  fonts_right gen (font_ids_by_font ts) -> Forall (fun r => 0 < text_len r -> is_Some (resolve gen (font r))) rs ->
  (Z.of_nat (str_len text) < u32_limit)%Z -> fonts_by_decoration rs ->
  let specs := line_specs gen (expand rs) (split newline text) in
  join_lines (map ls_text specs) = text /\ Forall (line_placed gen text (expand rs)) specs /\
  exists ids, fonts_right gen ids /\
  shape_text ts c text size_ rs ww clamp =
    let! (st, ws) := layout_lines size_ ww clamp (shared_caches ts, c) 0 specs in
    Ok (mkTextSystem st.1 ids, st.2, ws).
Proof using.
  intros gen Hf Hres Hu Hd specs.
  assert (Hls : Forall (fun l => Z.of_nat (str_len l) < u32_limit)%Z (split newline text)).
  { eapply Forall_impl; [apply join_lines_len|]. cbn beta. rewrite join_split. lia. }
  split_and!.
  - unfold specs. by rewrite line_specs_text, join_split.
  - pose proof (line_specs_placed gen (expand rs) (split newline text) (expand_fonts rs Hd) [] Hls) as H. cbn [app] in H. by rewrite join_split in H.
  - rewrite shape_text_lines. set (st := mkShaping _ _ _ _ _ _).
    destruct (process_lines_spec size_ ww clamp (split newline text) st) as (ids & Hids & Heq); [done| |done|].
    + cbn [sh_runs st sh_text]. apply Forall_forall. intros r Hr. apply list_elem_of_In, filter_In in Hr as [Hr Hpos].
      apply Nat.ltb_lt in Hpos. split; [done|]. apply list_elem_of_In in Hr. rewrite Forall_forall in Hres. by apply Hres.
    + exists ids. split; [done|]. cbn [sh_runs st sh_text sh_window wrapped_rows sh_lines app] in Heq. rewrite expand_filter in Heq. exact Heq.
Qed.
End ShapeText.

Module TestShape.

#[local] Existing Instance key_order.

(** Fonts A and B, and one of the fallbacks. *)
Definition installed (gen : nat) (f : Font) : option FontId :=
  if bool_decide (family f = lit "A") then Some 1 else if bool_decide (family f = lit "B") then Some 2
  else if bool_decide (family f = lit ".ZedSans") then Some 0 else None.

Definition run_of (name : string) (n : nat) (hue_ : Z) : TextRun := mkTextRun n (font_named (lit name)) (mkHsla hue_ 0 0 1) None None None.

Definition fresh : TextSystem := mkTextSystem (mkShared (global_new 10 5) 0) ∅.
Definition window_cache : LineLayoutCache := cache_new (shared_caches fresh).

Abbreviation Shape_text text rs ww clamp := (shape_text installed TestCache.fonts fresh window_cache text 16%Z rs ww clamp).

Lemma shape_text_correct_witness :
  let rs := [run_of "A" 2 1; run_of "C" 3 2] in
  exists ids, Shape_text ([97; 10; 98; 99]%N) rs None None =
    let! (st, ws) := layout_lines TestCache.fonts 16%Z None None (shared_caches fresh, window_cache) 0
      [mkLineSpec [97%N] [decoration_of (run_of "A" 1 1) 1] [mkFontRun 1 1]; mkLineSpec [98; 99]%N [decoration_of (run_of "C" 1 2) 2] [mkFontRun 2 0]] in
    Ok (mkTextSystem st.1 ids, st.2, ws).
Proof.
  intros rs. destruct (shape_text_correct installed TestCache.fonts fresh window_cache [97; 10; 98; 99]%N 16%Z rs None None) as (_ & _ & ids & _ & H).
  - apply map_Forall_empty.
  - repeat constructor; intros _; eexists; by vm_compute.
  - by vm_compute.
  - intros a b Ha Hb. unfold rs in Ha, Hb. rewrite !elem_of_cons, elem_of_nil in Ha, Hb. destruct Ha as [->|[->|[]]], Hb as [->|[->|[]]]; done.
  - exists ids. exact H.
Defined.

(** Two fonts with the same decoration: the platform is asked for the first one only. *)
Example fonts_merged :
  fonts_of installed fresh [] None None [run_of "A" 3 1; run_of "B" 3 1] =
    Ok (mkTextSystem (shared_caches fresh) {[ font_named (lit "A") := Some 1 ]}, [mkFontRun 6 1]).
Proof. by vm_compute. Qed.

(** A line met again is taken from the cache with more rows than are left: two rows at most,
    and the rows left over fall below zero. *)
Example clamped_rows_underflow :
  let line := lit "ab cd" in
  let text := line ++ newline :: line ++ newline :: line ++ newline :: line in
  Shape_text text [run_of "A" (str_len text) 1] (Some 3%Z) (Some 2) = Panic.
Proof. by vm_compute. Qed.
End TestShape.
