(* ===== verification/Highlights.v ===== *)
(** * Highlights: [crates/gpui/src/style.rs] and [elements/text.rs]

    Highlights are styles of ranges of a text.  [combine_highlights] merges two lists of
    them, which may overlap, into ranges that do not, and [StyledText] makes of such ranges
    the runs in which a text is shaped.  The blending of colours and fading, floating point
    computations, are a class. *)

From Stdlib Require Import NArith ZArith String Sorted.
From stdpp Require Import base list option numbers gmap sorting.
From S2P Require Import Prelude Sorting Hashing Text ShapedLine TextRun.

#[local] Set Warnings "-register-all,-clear-no-such-hyp".

(** ** Styles *)

(** [Hsla::blend], [Hsla::fade_out], and how fading combines. *)
Class Colors (Fade : Type) := {
  blend : Hsla -> Hsla -> Hsla;
  fade_out : Hsla -> Fade -> Hsla;
  combine_fade : Fade -> Fade -> Fade;
}.

Section Highlights.
Context `{Colors Fade}.
(** The fields of a text style that highlights do not touch: sizes, wrapping, alignment. *)
Context {Other : Type}.

Record TextStyle := mkTextStyle {
  color : Hsla;
  font_family : str;
  font_features : list (str * Z);
  font_fallbacks : option (list str);
  font_weight : Z;
  font_style : FontStyle;
  background_color : option Hsla;
  underline : option UnderlineStyle;
  strikethrough : option StrikethroughStyle;
  other_style : Other;
}.

Record HighlightStyle := mkHighlight {
  hl_color : option Hsla;
  hl_weight : option Z;
  hl_style : option FontStyle;
  hl_background : option Hsla;
  hl_underline : option UnderlineStyle;
  hl_strikethrough : option StrikethroughStyle;
  hl_fade : option Fade;
}.

Definition highlight_default : HighlightStyle := mkHighlight None None None None None None None.

(** [Option::or]. *)
Definition or_else {A} (o o' : option A) : option A := match o with Some a => Some a | None => o' end.

(** [HighlightStyle::highlight] *)
Definition highlight_over (s other : HighlightStyle) : HighlightStyle :=
  mkHighlight
    (or_else ((fun c' => match hl_color s with Some c => blend c c' | None => c' end) <$> hl_color other) (hl_color s))
    (or_else (hl_weight other) (hl_weight s))
    (or_else (hl_style other) (hl_style s))
    (or_else (hl_background other) (hl_background s))
    (or_else (hl_underline other) (hl_underline s))
    (or_else (hl_strikethrough other) (hl_strikethrough s))
    (or_else ((fun f' => match hl_fade s with Some f => combine_fade f f' | None => f' end) <$> hl_fade other) (hl_fade s)).

(** [TextStyle::highlight] *)
Definition text_highlight (t : TextStyle) (s : HighlightStyle) : TextStyle :=
  let c := match hl_color s with Some c => blend (color t) c | None => color t end in
  mkTextStyle
    (match hl_fade s with Some f => fade_out c f | None => c end)
    (font_family t) (font_features t) (font_fallbacks t)
    (default (font_weight t) (hl_weight s)) (default (font_style t) (hl_style s))
    (or_else (hl_background s) (background_color t)) (or_else (hl_underline s) (underline t))
    (or_else (hl_strikethrough s) (strikethrough t)) (other_style t).

(** [From<&TextStyle> for HighlightStyle] *)
Definition highlight_of_text (t : TextStyle) : HighlightStyle :=
  mkHighlight (Some (color t)) (Some (font_weight t)) (Some (font_style t)) (background_color t) (underline t) (strikethrough t) None.

Definition text_font (t : TextStyle) : Font := mkFont (font_family t) (font_features t) (font_fallbacks t) (font_weight t) (font_style t).

Definition to_run (t : TextStyle) (len : nat) : TextRun :=
  mkTextRun len (text_font t) (color t) (background_color t) (underline t) (strikethrough t).

(** ** Combining highlights *)

Abbreviation Range := (nat * nat)%type.
Abbreviation Highlight := (Range * HighlightStyle)%type.
(** A position, the highlight that has it, and whether it is its start. *)
Abbreviation Endpoint := (nat * nat * bool)%type.

Context `{UnstableSort} `{!HashOrder nat}.

Definition range_is_empty (r : Range) : bool := negb (fst r <? snd r).

(** The loop over the highlights. *)
Definition collect_endpoints (hs : list Highlight) : list Endpoint * list HighlightStyle :=
  foldl (fun '(endpoints, highlights) '(r, h) =>
    if range_is_empty r then (endpoints, highlights)
    else (endpoints ++ [(fst r, length highlights, true); (snd r, length highlights, false)], highlights ++ [h])) ([], []) hs.

(** The iterator: the endpoints left, the active highlights and the position. *)
Record HighlightIter := mkHighlightIter {
  endpoints : list Endpoint;
  active_styles : gset nat;
  ix : nat;
}.

(** The styles of a set of highlights, in the order in which the set is iterated. *)
Definition active_style (highlights : list HighlightStyle) (active : gset nat) : outcome HighlightStyle :=
  ofold (fun acc '(id, _) => let! h := index highlights id in Ok (highlight_over acc h)) (hash_iter (gset_to_gmap tt active)) highlight_default.

(** The closure; the endpoint at which a range ends is left in place. *)
Fixpoint highlight_next (highlights : list HighlightStyle) (es : list Endpoint) (active : gset nat) (at_ : nat) :
    outcome (HighlightIter * option Highlight) :=
  match es with
  | [] => Ok (mkHighlightIter [] active at_, None)
  | (p, id, is_start) :: rest =>
      if (at_ <? p) && negb (bool_decide (active = ∅)) then
        let! s := active_style highlights active in
        Ok (mkHighlightIter es active p, Some ((at_, p), s))
      else highlight_next highlights rest (if is_start : bool then {[id]} ∪ active else active ∖ {[id]}) p
  end.

Fixpoint collect_highlights (fuel : nat) (highlights : list HighlightStyle) (it : HighlightIter) : outcome (list Highlight) :=
  match fuel with
  | 0 => OutOfFuel
  | S fuel =>
      let! (it, h) := highlight_next highlights (endpoints it) (active_styles it) (ix it) in
      match h with
      | None => Ok []
      | Some h => let! hs := collect_highlights fuel highlights it in Ok (h :: hs)
      end
  end.

(** [combine_highlights], collected. *)
Definition combine_highlights (a b : list Highlight) : outcome (list Highlight) :=
  let (es, highlights) := collect_endpoints (a ++ b) in
  let es := sort_unstable_by_key (fun e => fst (fst e)) es in
  collect_highlights (2 + length es) highlights (mkHighlightIter es ∅ 0).

(** ** The runs of a text *)

(** The loop of [compute_runs] over the highlights. *)
Fixpoint highlight_runs (default_style : TextStyle) (hs : list Highlight) (at_ : nat) : list TextRun * nat :=
  match hs with
  | [] => ([], at_)
  | ((s, e), h) :: hs =>
      let (runs, last) := highlight_runs default_style hs e in
      ((if at_ <? s then [to_run default_style (s - at_)] else []) ++ to_run (text_highlight default_style h) (e - s) :: runs, last)
  end.

Definition compute_runs (len : nat) (default_style : TextStyle) (hs : list Highlight) : list TextRun :=
  let (runs, last) := highlight_runs default_style hs 0 in
  runs ++ (if last <? len then [to_run default_style (len - last)] else []).

(** ** What is combined *)

(** The highlights that count, those of ranges that are not empty. *)
Definition proper_highlights (hs : list Highlight) : list Highlight := List.filter (fun h => negb (range_is_empty (fst h))) hs.

Definition covers (i : nat) (r : Range) : bool := (fst r <=? i) && (i <? snd r).

(** The highlights that a byte is in. *)
Definition active_at (hs : list Highlight) (i : nat) : gset nat :=
  list_to_set (List.filter (fun j => match hs !! j with Some (r, _) => covers i r | None => false end) (seq 0 (length hs))).

(** Styles laid one over another in the order in which the set is iterated. *)
Definition style_of (highlights : list HighlightStyle) (active : gset nat) : HighlightStyle :=
  foldl (fun acc '(id, _) => highlight_over acc (default highlight_default (highlights !! id))) highlight_default (hash_iter (gset_to_gmap tt active)).

(** The style that a list of highlights gives to a byte. *)
Definition style_at (i : nat) (out : list Highlight) : option HighlightStyle := snd <$> List.find (fun h => covers i (fst h)) out.

(** The ranges are not empty and come one after another, from [lo] to [hi]. *)
Fixpoint ranges_ok (lo hi : nat) (out : list Highlight) : Prop :=
  match out with
  | [] => True
  | ((s, e), _) :: out => lo <= s /\ s < e /\ e <= hi /\ ranges_ok e hi out
  end.

Definition style_or_none (highlights : list HighlightStyle) (active : gset nat) : option HighlightStyle :=
  if bool_decide (active = ∅) then None else Some (style_of highlights active).

Context `{!UnstableSortLaws} `{!HashOrderLaws nat}.

(** ** The sweep over the endpoints *)

Definition position_of (e : Endpoint) : nat := fst (fst e).
Definition id_of (e : Endpoint) : nat := snd (fst e).

Definition sweep (active : gset nat) (e : Endpoint) : gset nat :=
  let '(_, id, is_start) := e in if is_start then {[id]} ∪ active else active ∖ {[id]}.

(** The whole of the iteration. *)
Fixpoint walk (highlights : list HighlightStyle) (es : list Endpoint) (active : gset nat) (at_ : nat) : list Highlight :=
  match es with
  | [] => []
  | e :: es =>
      (if (at_ <? position_of e) && negb (bool_decide (active = ∅)) then [((at_, position_of e), style_of highlights active)] else []) ++
      walk highlights es (sweep active e) (position_of e)
  end.

Definition ids_ok (highlights : list HighlightStyle) (es : list Endpoint) (active : gset nat) : Prop :=
  Forall (fun e => id_of e < length highlights) es /\ (forall id, id ∈ active -> id < length highlights).

Lemma ids_ok_sweep highlights e es active : ids_ok highlights (e :: es) active -> ids_ok highlights es (sweep active e).
Proof.
  intros [He Ha]. apply Forall_cons in He as [Hid He]. split; [done|]. destruct e as [[p id] []]; cbn in *; set_solver.
Qed.

Lemma active_style_ok highlights active :
  (forall id, id ∈ active -> id < length highlights) -> active_style highlights active = Ok (style_of highlights active).
Proof.
  intros Ha. unfold active_style, style_of.
  assert (Hl : Forall (fun x => fst x < length highlights) (hash_iter (gset_to_gmap tt active))).
  { apply Forall_forall. intros [id []] Hin. apply hash_iter_elem, lookup_gset_to_gmap_Some in Hin as [Hin _]. by apply Ha. }
  generalize highlight_default at 1 3 as acc. induction (hash_iter (gset_to_gmap tt active)) as [|[id []] l IH]; intros acc; [done|].
  apply Forall_cons in Hl as [Hid Hl]. cbn [ofold foldl]. cbn in Hid. apply lookup_lt_is_Some_2 in Hid as [h Hh]. unfold index. rewrite Hh.
  cbn [unwrap obind default]. by apply IH.
Qed.

(** One step of the iterator is a step of the walk; the endpoint at which it stops is its
    position. *)
Lemma next_walk highlights es : forall active at_,
  ids_ok highlights es active ->
  exists it h, highlight_next highlights es active at_ = Ok (it, h) /\
    match h with
    | None => walk highlights es active at_ = []
    | Some h => walk highlights es active at_ = h :: walk highlights (endpoints it) (active_styles it) (ix it) /\
        ids_ok highlights (endpoints it) (active_styles it) /\
        exists e rest, endpoints it = e :: rest /\ position_of e = ix it /\ length (e :: rest) <= length es /\
          (forall e' es', es = e' :: es' -> position_of e' <= at_ -> length (e :: rest) < length es)
    end.
Proof.
  induction es as [|[[p id] b] es IH]; intros active at_ Hok; [by exists (mkHighlightIter [] active at_), None|]. cbn [highlight_next walk].
  change (position_of (p, id, b)) with p. destruct ((at_ <? p) && negb (bool_decide (active = ∅))) eqn:E.
  - rewrite active_style_ok by apply Hok. cbn [obind]. eexists _, _. split; [reflexivity|]. cbn [endpoints active_styles ix].
    split; [|split; [done|]].
    + cbn [walk app]. change (position_of (p, id, b)) with p. by rewrite Nat.ltb_irrefl.
    + exists (p, id, b), es. split_and!; [done|done|done|]. intros e' es' [= <- <-] Hle. apply andb_prop in E as [E%Nat.ltb_lt _]. cbn in Hle. lia.
  - cbn [app]. destruct (IH (sweep active (p, id, b)) p) as (it & h & En & Hh); [by apply ids_ok_sweep|]. exists it, h. split; [done|].
    destruct h as [h|]; [|done]. destruct Hh as (Hw & Hids & e & rest & Ee & Ep & Hl & _). split; [done|]. split; [done|].
    exists e, rest. cbn in *. split_and!; [done|done|lia|intros; lia].
Qed.

Lemma collect_walk highlights fuel : forall es active at_,
  ids_ok highlights es active ->
  length es + (match es with e :: _ => if at_ <? position_of e then 1 else 0 | [] => 0 end) < fuel ->
  collect_highlights fuel highlights (mkHighlightIter es active at_) = Ok (walk highlights es active at_).
Proof.
  induction fuel as [|fuel IH]; intros es active at_ Hok Hf; [lia|]. cbn [collect_highlights endpoints active_styles ix].
  destruct (next_walk highlights es active at_ Hok) as ([es' active' at'] & h & -> & Hh). cbn [obind].
  destruct h as [h|]; [|by rewrite Hh]. cbn [endpoints active_styles ix] in Hh. destruct Hh as (-> & Hids & e & rest & -> & Ep & Hl & Hlt).
  rewrite IH; [done|done|]. rewrite Ep, Nat.ltb_irrefl. destruct es as [|e0 es0]; [cbn in Hl; lia|].
  destruct (Nat.ltb_spec at_ (position_of e0)) as [|Hle]; [lia|]. specialize (Hlt _ _ eq_refl Hle). lia.
Qed.

(** ** What the walk gives *)

Definition after (i : nat) (es : list Endpoint) (active : gset nat) : gset nat :=
  foldl sweep active (List.filter (fun e => position_of e <=? i) es).

Lemma sweep_none i es active : Forall (fun e => i < position_of e) es -> after i es active = active.
Proof.
  intros Hl. unfold after. rewrite bfilter_none; [done|]. eapply Forall_weaken; [|exact Hl]. intros e He. cbn beta in He. apply Nat.leb_gt. lia.
Qed.

Definition sorted_from (at_ : nat) (es : list Endpoint) : Prop :=
  StronglySorted (fun e e' => position_of e <= position_of e') es /\ Forall (fun e => at_ <= position_of e) es.

Lemma sorted_from_cons at_ e es : sorted_from at_ (e :: es) -> at_ <= position_of e /\ sorted_from (position_of e) es.
Proof. intros [[Hs He]%StronglySorted_inv [Hp _]%Forall_cons]. by split. Qed.

Lemma walk_ranges highlights hi es : forall active at_,
  sorted_from at_ es -> Forall (fun e => position_of e <= hi) es -> ranges_ok at_ hi (walk highlights es active at_).
Proof.
  induction es as [|e es IH]; intros active at_ Hs Hh; [done|]. apply sorted_from_cons in Hs as [Hle Hs]. apply Forall_cons in Hh as [Hp Hh].
  pose proof (IH (sweep active e) (position_of e) Hs Hh) as Hr. cbn [walk].
  destruct (Nat.ltb_spec at_ (position_of e)) as [Hlt|Hge]; cbn [andb app].
  - destruct (negb _); [cbn; split_and!; [lia|lia|lia|done]|]. cbn [app]. clear IH.
    destruct (walk highlights es (sweep active e) (position_of e)) as [|[[s e'] h] out]; [done|]. cbn in *. intuition lia.
  - by assert (position_of e = at_) as <- by lia.
Qed.

Lemma ranges_later lo hi out i : ranges_ok lo hi out -> i < lo -> style_at i out = None.
Proof.
  revert lo. induction out as [|[[s e] h] out IH]; intros lo Hr Hi; [done|]. cbn in Hr. destruct Hr as (Hs & He & _ & Hr). unfold style_at. cbn [List.find].
  assert (E : covers i (s, e) = false) by (unfold covers; cbn; apply andb_false_intro1, Nat.leb_gt; lia). cbn [fst]. rewrite E. apply (IH e); [done|lia].
Qed.

Lemma style_at_cons i s e h out : style_at i (((s, e), h) :: out) = if covers i (s, e) then Some h else style_at i out.
Proof. unfold style_at. cbn [List.find fst]. by destruct (covers i (s, e)). Qed.

Lemma walk_style highlights i es : forall active at_,
  sorted_from at_ es -> foldl sweep active es = ∅ -> at_ <= i ->
  style_at i (walk highlights es active at_) = style_or_none highlights (after i es active).
Proof.
  induction es as [|e es IH]; intros active at_ Hs Hend Hi; [cbn in Hend; by rewrite Hend|]. apply sorted_from_cons in Hs as [Hle Hs].
  cbn [walk foldl] in *. destruct (Nat.leb_spec (position_of e) i) as [Hpi|Hpi].
  - assert (Ea : after i (e :: es) active = after i es (sweep active e)).
    { unfold after. cbn [List.filter]. by rewrite (proj2 (Nat.leb_le _ _) Hpi). }
    rewrite Ea, <- (IH _ (position_of e)) by done. destruct (_ && _); [|done]. cbn [app]. rewrite style_at_cons.
    assert (E : covers i (at_, position_of e) = false) by (unfold covers; cbn; apply andb_false_intro2, Nat.ltb_ge; lia). by rewrite E.
  - rewrite sweep_none.
    2: { constructor; [lia|]. eapply Forall_weaken; [|exact (proj2 Hs)]. intros e' He'. cbn beta in He'. lia. }
    rewrite (proj2 (Nat.ltb_lt at_ (position_of e))) by lia. cbn [andb]. unfold style_or_none. case_bool_decide as Ea; cbn [negb app].
    + eapply ranges_later; [|exact Hpi]. apply (walk_ranges _ (list_max (map position_of es))); [done|].
      pose proof (proj1 (list_max_le (map position_of es) _) (le_n _)) as Hm. apply Forall_map in Hm. exact Hm.
    + rewrite style_at_cons. assert (E : covers i (at_, position_of e) = true); [|by rewrite E].
      unfold covers. cbn. apply andb_true_intro. split; [by apply Nat.leb_le|by apply Nat.ltb_lt].
Qed.

(** ** The endpoints *)

Definition about (j : nat) (e : Endpoint) : bool := id_of e =? j.

(** The last endpoint of a highlight decides whether it is active. *)
Lemma sweep_elem j es : forall active,
  j ∈ foldl sweep active es <-> match list.last (List.filter (about j) es) with Some (_, _, b) => b = true | None => j ∈ active end.
Proof.
  induction es as [|e es IH] using rev_ind; intros active; [done|]. rewrite foldl_app, List.filter_app. cbn [foldl List.filter].
  unfold about at 2. destruct e as [[p id] b]. change (id_of (p, id, b)) with id. destruct (Nat.eqb_spec id j) as [->|Hne].
  - rewrite last_snoc. cbn. destruct b; set_solver.
  - rewrite app_nil_r, <- IH. cbn. destruct b; set_solver.
Qed.

Definition endpoints_of (n : nat) (hs : list Highlight) : list Endpoint :=
  concat (imap (fun j h => [(fst (fst h), n + j, true); (snd (fst h), n + j, false)]) hs).

Lemma endpoints_of_cons n r h hs :
  endpoints_of n ((r, h) :: hs) = (fst r, n, true) :: (snd r, n, false) :: endpoints_of (S n) hs.
Proof.
  unfold endpoints_of. rewrite imap_cons. cbn [concat app fst snd]. rewrite Nat.add_0_r. do 2 f_equal. f_equal. apply imap_ext.
  intros j x _. cbn. by rewrite Nat.add_succ_r.
Qed.

Lemma collect_endpoints_ok hs : collect_endpoints hs = (endpoints_of 0 (proper_highlights hs), map snd (proper_highlights hs)).
Proof.
  unfold collect_endpoints. assert (Hg : forall es styles,
    foldl (fun '(endpoints, highlights) '(r, h) =>
      if range_is_empty r then (endpoints, highlights)
      else (endpoints ++ [(fst r, length highlights, true); (snd r, length highlights, false)], highlights ++ [h])) (es, styles) hs
    = (es ++ endpoints_of (length styles) (proper_highlights hs), styles ++ map snd (proper_highlights hs))); [|apply (Hg [] [])].
  induction hs as [|[r h] hs IH]; intros es styles; [by rewrite !app_nil_r|]. cbn [foldl]. unfold proper_highlights. cbn [List.filter fst].
  destruct (range_is_empty r) eqn:Er; cbn [negb]; [apply IH|]. rewrite IH, length_app, Nat.add_1_r, endpoints_of_cons, <- !app_assoc. done.
Qed.

(** Of the endpoints, those of one highlight. *)
Lemma endpoints_about j hs : forall n,
  List.filter (about (n + j)) (endpoints_of n hs) = match hs !! j with Some (r, _) => [(fst r, n + j, true); (snd r, n + j, false)] | None => [] end.
Proof.
  revert j. induction hs as [|[r h] hs IH]; intros j n; [done|]. rewrite endpoints_of_cons. cbn [List.filter].
  change (about (n + j) (fst r, n, true)) with (n =? n + j). change (about (n + j) (snd r, n, false)) with (n =? n + j). destruct j as [|j].
  - rewrite Nat.add_0_r, Nat.eqb_refl. cbn [lookup list_lookup]. do 2 f_equal. apply bfilter_none.
    unfold endpoints_of. apply Forall_concat, Forall_lookup. intros i l Hl. rewrite list_lookup_imap in Hl.
    destruct (hs !! i); [|done]. injection Hl as <-. repeat constructor; apply Nat.eqb_neq; cbn; lia.
  - rewrite (proj2 (Nat.eqb_neq n (n + S j))) by lia. replace (n + S j) with (S n + j) by lia. apply IH.
Qed.

Lemma endpoints_of_ids n hs : Forall (fun e => id_of e < n + length hs) (endpoints_of n hs).
Proof.
  unfold endpoints_of. apply Forall_concat, Forall_lookup. intros i l Hl. rewrite list_lookup_imap in Hl.
  destruct (hs !! i) eqn:E; [|done]. injection Hl as <-. apply lookup_lt_Some in E. repeat constructor; cbn; lia.
Qed.

Lemma proper_spec hs j r h : proper_highlights hs !! j = Some (r, h) -> fst r < snd r.
Proof.
  intros Hj. apply list_elem_of_lookup_2, list_elem_of_In, filter_In in Hj as [_ Hj]. apply negb_true_iff, negb_false_iff, Nat.ltb_lt in Hj. done.
Qed.

Lemma active_at_elem hs i j : j ∈ active_at hs i <-> exists r h, hs !! j = Some (r, h) /\ covers i r = true.
Proof.
  unfold active_at. rewrite elem_of_list_to_set, list_elem_of_In, filter_In, in_seq. destruct (hs !! j) as [[r h]|] eqn:E.
  - split; [intros [_ Hc]; by exists r, h|]. intros (r' & h' & [= <- <-] & Hc). apply lookup_lt_Some in E. split; [lia|done].
  - split; [by intros [_ ?]|by intros (? & ? & ? & _)].
Qed.

Lemma bfilter_perm {A} (f : A -> bool) (l l' : list A) : l ≡ₚ l' -> List.filter f l ≡ₚ List.filter f l'.
Proof.
  induction 1 as [|a l l' _ IH|a b l|l1 l2 l3 _ IH1 _ IH2]; cbn; [done| | |by etrans].
  - destruct (f a); [by constructor|done].
  - destruct (f a), (f b); [constructor|done..].
Qed.

Lemma bfilter_sorted {A} (R : A -> A -> Prop) (f : A -> bool) (l : list A) : StronglySorted R l -> StronglySorted R (List.filter f l).
Proof. induction 1 as [|a l _ IH Ha]; cbn; [constructor|]. destruct (f a); [|done]. constructor; [done|]. by apply bfilter_Forall_keep. Qed.

(** Sorted, the two endpoints of a highlight are in their order. *)
Lemma sorted_about es hs j :
  es ≡ₚ endpoints_of 0 (proper_highlights hs) -> StronglySorted (fun e e' => position_of e <= position_of e') es ->
  List.filter (about j) es = List.filter (about j) (endpoints_of 0 (proper_highlights hs)).
Proof.
  intros Hp Hs. pose proof (bfilter_perm (about j) _ _ Hp) as Hf. pose proof (endpoints_about j (proper_highlights hs) 0) as Ej. cbn in Ej. rewrite Ej in *.
  destruct (proper_highlights hs !! j) as [[r h]|] eqn:Er; [|by apply Permutation_nil_r in Hf].
  symmetry in Hf. apply Permutation_length_2_inv in Hf as [->|Ef]; [done|]. exfalso.
  assert (Hsf : StronglySorted (fun e e' => position_of e <= position_of e') (List.filter (about j) es)) by by apply bfilter_sorted.
  rewrite Ef in Hsf. apply StronglySorted_inv in Hsf as [_ Hle]. apply Forall_cons in Hle as [Hle _]. cbn in Hle. apply proper_spec in Er. lia.
Qed.

Lemma filter_swap {A} (f g : A -> bool) (l : list A) : List.filter f (List.filter g l) = List.filter g (List.filter f l).
Proof.
  induction l as [|a l IH]; [done|]. cbn. destruct (f a) eqn:Ef, (g a) eqn:Eg; cbn; rewrite ?Ef, ?Eg, ?IH; done.
Qed.

Lemma after_active es hs i :
  es ≡ₚ endpoints_of 0 (proper_highlights hs) -> StronglySorted (fun e e' => position_of e <= position_of e') es ->
  after i es ∅ = active_at (proper_highlights hs) i.
Proof.
  intros Hp Hs. apply set_eq. intros j. unfold after. rewrite sweep_elem, filter_swap, (sorted_about es hs j Hp Hs), active_at_elem.
  pose proof (endpoints_about j (proper_highlights hs) 0) as Ej. cbn in Ej. rewrite Ej. clear Ej.
  destruct (proper_highlights hs !! j) as [[[s e] h]|] eqn:Er; [|cbn; split; [set_solver|by intros (? & ? & ? & _)]].
  assert (Hse : s < e) by exact (proper_spec _ _ _ _ Er). cbn [List.filter position_of fst snd].
  unfold position_of. cbn [fst snd]. unfold covers.
  assert (Hr : (exists r h0, Some (s, e, h) = Some (r, h0) /\ (fst r <=? i) && (i <? snd r) = true) <-> s <= i < e).
  { split; [intros (? & ? & [= <- <-] & [Hle%Nat.leb_le Hlt%Nat.ltb_lt]%andb_prop); cbn in *; lia|].
    intros [Hsi Hie]. exists (s, e), h. split; [done|]. cbn. apply andb_true_intro. split; [by apply Nat.leb_le|by apply Nat.ltb_lt]. }
  rewrite Hr. clear Hr. destruct (Nat.leb_spec s i), (Nat.leb_spec e i); cbn; split; try done; try lia; set_solver.
Qed.

(** ** Runs *)

(** The run of a byte. *)
Fixpoint run_at (runs : list TextRun) (i : nat) : option TextRun :=
  match runs with
  | [] => None
  | r :: runs => if i <? text_len r then Some r else run_at runs (i - text_len r)
  end.

Lemma run_at_app l l' i : run_at (l ++ l') i = if i <? runs_len l then run_at l i else run_at l' (i - runs_len l).
Proof.
  revert i. induction l as [|r l IH]; intros i; [by rewrite Nat.sub_0_r|]. cbn [app run_at]. change (runs_len (r :: l)) with (text_len r + runs_len l).
  destruct (Nat.ltb_spec i (text_len r)).
  - by rewrite (proj2 (Nat.ltb_lt i (text_len r + runs_len l))) by lia.
  - rewrite IH. destruct (Nat.ltb_spec (i - text_len r) (runs_len l)), (Nat.ltb_spec i (text_len r + runs_len l)); try lia; [done|]. f_equal. lia.
Qed.

Lemma runs_len_app l l' : runs_len (l ++ l') = runs_len l + runs_len l'.
Proof. apply sum_list_with_app. Qed.

(** The style of a byte in a text with a default style. *)
Definition byte_style (d : TextStyle) (out : list Highlight) (i : nat) : TextStyle :=
  match style_at i out with Some h => text_highlight d h | None => d end.

(** The runs of highlights from [at_] on: they reach to [last]. *)
Lemma highlight_runs_ok d hi out : forall at_, ranges_ok at_ hi out -> at_ <= hi ->
  let (runs, last) := highlight_runs d out at_ in
  at_ <= last <= hi /\ runs_len runs = last - at_ /\
  (forall i, at_ <= i < last -> exists r, run_at runs (i - at_) = Some r /\ with_text_len r 0 = to_run (byte_style d out i) 0) /\
  (forall i, last <= i -> style_at i out = None).
Proof.
  induction out as [|[[s e] h] out IH]; intros at_ Hr Hhi; cbn [highlight_runs].
  - split_and!; [lia|lia|cbn; lia|intros i Hi; lia|done].
  - cbn in Hr. destruct Hr as (Hs & He & Hle & Hr). specialize (IH e Hr Hle). destruct (highlight_runs d out e) as [runs last].
    destruct IH as (Hl & Hn & Hb & Hlast). set (gap := if at_ <? s then _ else _). set (r0 := to_run (text_highlight d h) (e - s)).
    assert (Hgap : runs_len gap = s - at_) by (subst gap; destruct (Nat.ltb_spec at_ s); cbn; lia).
    split_and!; [lia|lia| | |].
    + rewrite runs_len_app, Hgap. change (runs_len (r0 :: runs)) with (e - s + runs_len runs). lia.
    + intros i Hi. rewrite run_at_app, Hgap. unfold byte_style. rewrite style_at_cons. destruct (Nat.ltb_spec (i - at_) (s - at_)).
      * assert (Ec : covers i (s, e) = false) by (unfold covers; cbn; apply andb_false_intro1, Nat.leb_gt; lia). rewrite Ec.
        rewrite (ranges_later e hi out i Hr) by lia. subst gap. rewrite (proj2 (Nat.ltb_lt at_ s)) by lia. cbn [run_at]. cbn [text_len to_run].
        rewrite (proj2 (Nat.ltb_lt (i - at_) (s - at_))) by lia. by eexists.
      * replace (i - at_ - (s - at_)) with (i - s) by lia. cbn [run_at]. change (text_len r0) with (e - s). destruct (Nat.ltb_spec (i - s) (e - s)).
        -- assert (Ec : covers i (s, e) = true) by (unfold covers; cbn; apply andb_true_intro; split; [apply Nat.leb_le; lia|apply Nat.ltb_lt; lia]).
           rewrite Ec. by exists r0.
        -- assert (Ec : covers i (s, e) = false) by (unfold covers; cbn; apply andb_false_intro2, Nat.ltb_ge; lia). rewrite Ec.
           replace (i - s - (e - s)) with (i - e) by lia. apply Hb. lia.
    + intros i Hi. rewrite style_at_cons. assert (Ec : covers i (s, e) = false) by (unfold covers; cbn; apply andb_false_intro2, Nat.ltb_ge; lia).
      rewrite Ec. by apply Hlast.
Qed.

Lemma compute_runs_ok len d out :
  ranges_ok 0 len out ->
  runs_len (compute_runs len d out) = len /\
  forall i, i < len -> exists r, run_at (compute_runs len d out) i = Some r /\ with_text_len r 0 = to_run (byte_style d out i) 0.
Proof.
  intros Hr. unfold compute_runs. pose proof (highlight_runs_ok d len out 0 Hr (Nat.le_0_l _)) as Ho. destruct (highlight_runs d out 0) as [runs last].
  destruct Ho as (Hl & Hn & Hb & Hlast). rewrite Nat.sub_0_r in Hn. split.
  - rewrite runs_len_app, Hn. destruct (Nat.ltb_spec last len); cbn; lia.
  - intros i Hi. rewrite run_at_app, Hn. destruct (Nat.ltb_spec i last).
    + destruct (Hb i) as (r & E & Er); [lia|]. rewrite Nat.sub_0_r in E. by exists r.
    + rewrite (proj2 (Nat.ltb_lt last len)) by lia. cbn [run_at text_len to_run]. rewrite (proj2 (Nat.ltb_lt _ _)) by lia. eexists. split; [done|].
      unfold byte_style. by rewrite Hlast.
Qed.

(** ** The combination *)

Lemma sorted_weaken {A} (R R' : A -> A -> Prop) (l : list A) : (forall a b, R a b -> R' a b) -> StronglySorted R l -> StronglySorted R' l.
Proof. intros HR. induction 1 as [|a l _ IH Ha]; constructor; [done|]. eapply Forall_weaken; [|exact Ha]. intros b. apply HR. Qed.

Lemma endpoints_bounded n hi hs :
  Forall (fun h => fst (fst h) <= hi /\ snd (fst h) <= hi) hs -> Forall (fun e => position_of e <= hi) (endpoints_of n hs).
Proof.
  intros Hh. unfold endpoints_of. apply Forall_concat, Forall_lookup. intros i l Hl. rewrite list_lookup_imap in Hl.
  destruct (hs !! i) as [h|] eqn:E; [|done]. injection Hl as <-. rewrite Forall_lookup in Hh. specialize (Hh _ _ E).
  apply Forall_cons. split; [apply Hh|]. apply Forall_cons. by split; [apply Hh|].
Qed.

Lemma proper_bounded hi hs :
  Forall (fun h => snd (fst h) <= hi) hs -> Forall (fun h => fst (fst h) <= hi /\ snd (fst h) <= hi) (proper_highlights hs).
Proof.
  intros Hh. apply Forall_forall. intros [[s e] h] Hin. pose proof Hin as [j Hj]%list_elem_of_lookup. apply proper_spec in Hj. cbn in Hj.
  apply list_elem_of_In, filter_In in Hin as [Hin%list_elem_of_In _]. rewrite Forall_forall in Hh. specialize (Hh _ Hin). cbn in *. lia.
Qed.

(** After the last endpoint nothing is active. *)
Lemma sweep_all es hs hi :
  es ≡ₚ endpoints_of 0 (proper_highlights hs) -> StronglySorted (fun e e' => position_of e <= position_of e') es ->
  Forall (fun h => snd (fst h) <= hi) hs -> foldl sweep ∅ es = ∅.
Proof.
  intros Hp Hs Hh. pose proof (proper_bounded _ _ Hh) as Hb.
  assert (E : foldl sweep ∅ es = after hi es ∅).
  { unfold after. rewrite bfilter_all; [done|]. rewrite Hp. eapply Forall_weaken; [|exact (endpoints_bounded 0 hi _ Hb)]. intros e He. by apply Nat.leb_le. }
  rewrite E, (after_active es hs) by done. apply set_eq. intros j. rewrite active_at_elem. split; [|by intros ?%not_elem_of_empty].
  intros ([s e] & h & Ej & Hc). exfalso. rewrite Forall_lookup in Hb. specialize (Hb _ _ Ej). unfold covers in Hc.
  apply andb_prop in Hc as [_ Hc%Nat.ltb_lt]. cbn in *. lia.
Qed.

Lemma combine_highlights_ok a b len :
  Forall (fun h => snd (fst h) <= len) (a ++ b) ->
  let hs := proper_highlights (a ++ b) in
  exists out, combine_highlights a b = Ok out /\ ranges_ok 0 len out /\
    forall i, style_at i out = style_or_none (map snd hs) (active_at hs i).
Proof.
  intros Hlen hs. unfold combine_highlights. rewrite collect_endpoints_ok. fold hs. set (es := sort_unstable_by_key _ _).
  assert (Hp : es ≡ₚ endpoints_of 0 hs) by apply sort_unstable_perm.
  assert (Hs : StronglySorted (fun e e' => position_of e <= position_of e') es).
  { eapply sorted_weaken; [|apply sort_unstable_sorted]. intros e e' Hle. unfold key_le, cmp, nat_ord in Hle. by apply Nat.compare_le_iff. }
  assert (Hfrom : sorted_from 0 es) by (split; [done|]; apply Forall_true; intros; lia).
  assert (Hids : ids_ok (map snd hs) es ∅).
  { split; [|by intros id ?%not_elem_of_empty]. rewrite Hp, length_map. apply (endpoints_of_ids 0). }
  eexists. split; [|split].
  - apply collect_walk; [done|]. destruct es; [lia|]. destruct (0 <? _); lia.
  - apply walk_ranges; [done|]. rewrite Hp. by apply endpoints_bounded, proper_bounded.
  - intros i. rewrite walk_style; [by rewrite (after_active es (a ++ b))|done|by eapply sweep_all|lia].
Qed.

(** C13: two lists of highlights, whose ranges may be empty or overlap within and across the
    lists, are combined, which always ends, into ranges that are not empty and come one
    after another, in which a byte has the styles of all the highlights it is in, laid one
    over another, and none where it is in none.  A text that is shaped with them has runs
    that cover it, and each byte is in a run of the style of the text with those styles. *)
Theorem highlighted_text_correct (a b : list Highlight) (d : TextStyle) (len : nat) :
  Forall (fun h => snd (fst h) <= len) (a ++ b) ->
  let hs := proper_highlights (a ++ b) in
  exists out, combine_highlights a b = Ok out /\ ranges_ok 0 len out /\
    (forall i, style_at i out = style_or_none (map snd hs) (active_at hs i)) /\
    runs_len (compute_runs len d out) = len /\
    (forall i, i < len -> exists r, run_at (compute_runs len d out) i = Some r /\ with_text_len r 0 = to_run (byte_style d out i) 0).
Proof.
  intros Hlen hs. destruct (combine_highlights_ok a b len Hlen) as (out & E & Hr & Hst). exists out.
  split; [done|]. split; [done|]. split; [done|]. by apply compute_runs_ok.
Qed.
End Highlights.

(** ** Tests and witness *)

Module TestHighlights.
(** Opaque colours; fading is a percentage. *)
#[local] Instance opaque : Colors nat := {| blend _ c := c; fade_out c _ := c; combine_fade f f' := Nat.min 100 (f * (100 + f') / 100) |}.
#[local] Existing Instance stable_sort.
#[local] Existing Instance stable_sort_laws.

Definition red : Hsla := mkHsla 0 1 1 1.
Definition green : Hsla := mkHsla 2 1 1 1.
Definition colored (c : Hsla) : HighlightStyle (Fade := nat) := mkHighlight (Some c) None None None None None None.
Definition bold : HighlightStyle (Fade := nat) := mkHighlight None (Some 700%Z) None None None None None.

Definition first : list (nat * nat * HighlightStyle) := [((0, 5), colored red); ((4, 10), bold); ((7, 7), colored green); ((15, 20), colored green)].
Definition second : list (nat * nat * HighlightStyle) := [((2, 6), colored green); ((21, 23), colored red)].

Definition shape_of (out : outcome (list (nat * nat * HighlightStyle (Fade := nat)))) : outcome (list (nat * nat * (option Z * option Z))) :=
  let! out := out in Ok (map (fun '(r, h) => (r, (hue <$> hl_color h, hl_weight h))) out).

(** Where two colours overlap, the one that is met last in the set wins, whichever list it
    is from. *)
Example combined_in_order :
  shape_of (combine_highlights (HashOrder0 := key_order) first second) =
    Ok [((0, 2), (Some 0%Z, None)); ((2, 4), (Some 0%Z, None)); ((4, 5), (Some 0%Z, Some 700%Z)); ((5, 6), (Some 2%Z, Some 700%Z));
        ((6, 10), (None, Some 700%Z)); ((15, 20), (Some 2%Z, None)); ((21, 23), (Some 0%Z, None))] /\
  shape_of (combine_highlights (HashOrder0 := fun V m => rev (map_to_list m)) [((0, 5), colored red)] [((2, 6), colored green)]) =
    Ok [((0, 2), (Some 0%Z, None)); ((2, 5), (Some 2%Z, None)); ((5, 6), (Some 2%Z, None))].
Proof. vm_compute. auto. Qed.

Definition plain : TextStyle (Other := unit) := mkTextStyle red [] [] None 400%Z FontNormal None None None tt.

Lemma highlighted_text_correct_witness :
  exists out, combine_highlights (HashOrder0 := key_order) first second = Ok out /\ runs_len (compute_runs 30 plain out) = 30.
Proof.
  destruct (highlighted_text_correct (HashOrder0 := key_order) (HashOrderLaws0 := key_order_laws) first second plain 30) as (out & E & _ & _ & Hn & _).
  - repeat constructor; cbn; lia.
  - exists out. split; [exact E|exact Hn].
Defined.
End TestHighlights.
