(* ===== verification/Actions.v ===== *)
(** * The action registry: [crates/gpui/src/action.rs]

    [ActionRegistry] holds what the macros register for every action type: the builder
    of its values, under its name and under its deprecated aliases, and the names by
    type.  The builders and the schema generators are functions of the application:
    types of the section. *)

From Stdlib Require Import NArith String.
From stdpp Require Import base list option numbers gmap.
From S2P Require Import Prelude Text.

#[local] Set Warnings "-register-all,-clear-no-such-hyp".

Section Registry.
(** [serde_json::Value], the object [{}], [Box<dyn Action>], the errors of a builder,
    and the generated schemas. *)
Context {Json Action Error Schema : Type} (empty_object : Json).

(** [ActionBuilder] *)
Abbreviation ActionBuilder := (Json -> Action + Error).

Record ActionData := mkActionData {
  build : ActionBuilder;
  json_schema : option Schema;
}.

Record MacroActionData := mkMacroActionData {
  name : str;
  type_id : N;
  macro_build : ActionBuilder;
  macro_json_schema : option Schema;
  macro_deprecated_aliases : list str;
  deprecation_message : option str;
  macro_documentation : option str;
}.

Record ActionRegistry := mkActionRegistry {
  by_name : gmap str ActionData;
  names_by_type_id : gmap N str;
  all_names : list str;
  deprecated_aliases : gmap str str;
  deprecation_messages : gmap str str;
  documentation : gmap str str;
}.

(** [ActionBuildError] *)
Inductive ActionBuildError :=
| NotFound (name : str)
| BuildError (name : str) (error : Error).

Implicit Types (r : ActionRegistry) (a : MacroActionData).

Definition registry_empty : ActionRegistry := mkActionRegistry ∅ ∅ [] ∅ ∅ ∅.

Definition action_data (a : MacroActionData) : ActionData := mkActionData (macro_build a) (macro_json_schema a).

(** The body of the loop over the deprecated aliases. *)
Definition insert_alias (a : MacroActionData) (r : ActionRegistry) (alias : str) : outcome ActionRegistry :=
  match by_name r !! alias with
  | Some _ => Panic
  | None =>
      Ok (mkActionRegistry (<[alias := action_data a]> (by_name r)) (names_by_type_id r) (all_names r ++ [alias])
            (<[alias := name a]> (deprecated_aliases r)) (deprecation_messages r) (documentation r))
  end.

(** [HashMap::insert] of an optional value. *)
Definition insert_opt (m : gmap str str) (k : str) (o : option str) : gmap str str :=
  match o with Some v => <[k := v]> m | None => m end.

Definition insert_action (r : ActionRegistry) (action : MacroActionData) : outcome ActionRegistry :=
  match by_name r !! name action with
  | Some _ => Panic
  | None =>
      let r := mkActionRegistry (<[name action := action_data action]> (by_name r)) (names_by_type_id r) (all_names r)
                 (deprecated_aliases r) (deprecation_messages r) (documentation r) in
      let! r := ofold (insert_alias action) (macro_deprecated_aliases action) r in
      Ok (mkActionRegistry (by_name r) (<[type_id action := name action]> (names_by_type_id r))
            (all_names r ++ [name action]) (deprecated_aliases r)
            (insert_opt (deprecation_messages r) (name action) (deprecation_message action))
            (insert_opt (documentation r) (name action) (macro_documentation action)))
  end.

(** [load_actions], over the actions that the macros collect. *)
Definition load_actions (r : ActionRegistry) (builders : list MacroActionData) : outcome ActionRegistry :=
  ofold insert_action builders r.

Definition registry_default (builders : list MacroActionData) : outcome ActionRegistry :=
  load_actions registry_empty builders.

Definition build_action (r : ActionRegistry) (n : str) (params : option Json) : Action + ActionBuildError :=
  match by_name r !! n with
  | None => inr (NotFound n)
  | Some d =>
      match build d (match params with Some p => p | None => empty_object end) with
      | inl a => inl a
      | inr e => inr (BuildError n e)
      end
  end.

(** [build_action_type]: [None] stands for the error, whose kind its callers drop. *)
Definition build_action_type (r : ActionRegistry) (id : N) : option Action :=
  match names_by_type_id r !! id with
  | None => None
  | Some n => match build_action r n None with inl a => Some a | inr _ => None end
  end.

Definition all_action_names (r : ActionRegistry) : list str := all_names r.

(** [action_schemas], with its [expect]. *)
Fixpoint schemas_of (r : ActionRegistry) (names : list str) : outcome (list (str * option Schema)) :=
  match names with
  | [] => Ok []
  | n :: names =>
      let! d := unwrap (by_name r !! n) in
      let! l := schemas_of r names in
      Ok ((n, json_schema d) :: l)
  end.

Definition action_schemas (r : ActionRegistry) : outcome (list (str * option Schema)) := schemas_of r (all_names r).

(** ** The invariant *)

Lemma exists_snoc {T} (P : T -> Prop) l x : (exists y, y ∈ l ++ [x] /\ P y) <-> (exists y, y ∈ l /\ P y) \/ P x.
Proof.
  setoid_rewrite elem_of_app. setoid_rewrite list_elem_of_singleton. naive_solver.
Qed.

(** The names under which an action is registered, in the order of [all_names]. *)
Definition names_of a : list str := macro_deprecated_aliases a ++ [name a].

(** The actions of a type. *)
Definition of_type (id : N) (l : list MacroActionData) : list MacroActionData :=
  List.filter (fun a => (type_id a =? id)%N) l.

(** [r] holds the actions [l], registered in this order. *)
Record registered r (l : list MacroActionData) : Prop := mkRegistered {
  reg_names : all_names r = flat_map names_of l;
  reg_nodup : NoDup (flat_map names_of l);
  reg_by_name n d : by_name r !! n = Some d <-> exists a, a ∈ l /\ n ∈ names_of a /\ d = action_data a;
  reg_aliases n m : deprecated_aliases r !! n = Some m <-> exists a, a ∈ l /\ n ∈ macro_deprecated_aliases a /\ m = name a;
  reg_types id : names_by_type_id r !! id = option_map name (list.last (of_type id l));
}.

Lemma registry_empty_registered : registered registry_empty [].
Proof.
  split; simpl; try done.
  - constructor.
  - intros n d. rewrite lookup_empty. split; [done|]. intros (a & Ha & _). by apply elem_of_nil in Ha.
  - intros n m. rewrite lookup_empty. split; [done|]. intros (a & Ha & _). by apply elem_of_nil in Ha.
Qed.

(** The loop over the aliases. *)
Lemma insert_aliases a aliases : forall r,
  let r' := mkActionRegistry (fold_left (fun m n => <[n := action_data a]> m) aliases (by_name r)) (names_by_type_id r)
              (all_names r ++ aliases) (fold_left (fun m n => <[n := name a]> m) aliases (deprecated_aliases r))
              (deprecation_messages r) (documentation r) in
  ofold (insert_alias a) aliases r =
  if bool_decide (NoDup aliases /\ Forall (fun n => by_name r !! n = None) aliases) then Ok r' else Panic.
Proof.
  induction aliases as [|n aliases IH]; intros r; cbn [ofold fold_left].
  - rewrite bool_decide_true by (split; constructor). by rewrite app_nil_r; destruct r.
  - unfold insert_alias at 1. destruct (by_name r !! n) eqn:E; cbn [obind].
    { rewrite bool_decide_false; [done|]. intros [_ Hf%Forall_cons_1]. destruct Hf. congruence. }
    rewrite IH. cbn [by_name all_names names_by_type_id deprecated_aliases deprecation_messages documentation].
    rewrite <- app_assoc. cbn [app].
    rewrite (bool_decide_ext (NoDup aliases /\ _) (NoDup (n :: aliases) /\ Forall (fun n => by_name r !! n = None) (n :: aliases))); [done|].
    rewrite list.NoDup_cons, Forall_cons_iff, !Forall_elem. split.
    + intros [Hnd Hf]. split_and!; try done.
      * intros Hin. specialize (Hf _ Hin). by rewrite lookup_insert_eq in Hf.
      * intros x Hx. specialize (Hf _ Hx). destruct (decide (n = x)) as [<-|]; [done|]. by rewrite lookup_insert_ne in Hf.
    + intros [[Hn Hnd] [_ Hf]]. split; [done|]. intros x Hx. rewrite lookup_insert_ne by (intros <-; done). by apply Hf.
Qed.

Lemma fold_insert {V} (v : V) names : forall (m : gmap str V) n,
  fold_left (fun m n => <[n := v]> m) names m !! n = if bool_decide (n ∈ names) then Some v else m !! n.
Proof.
  induction names as [|x names IH]; intros m n; cbn [fold_left]; [by rewrite bool_decide_false by apply not_elem_of_nil|].
  rewrite IH. destruct (decide (n ∈ names)) as [Hin|Hin].
  - rewrite !bool_decide_true; [done| |done]. apply elem_of_cons. by right.
  - rewrite (bool_decide_false _ Hin). destruct (decide (n = x)) as [->|Hne].
    + rewrite lookup_insert_eq, bool_decide_true; [done|]. apply elem_of_cons. by left.
    + rewrite lookup_insert_ne, bool_decide_false by done || (rewrite elem_of_cons; naive_solver). done.
Qed.

(** What [insert_action] needs not to panic. *)
Definition free_names l a : Prop := NoDup (flat_map names_of l ++ names_of a).

#[local] Instance free_names_dec l a : Decision (free_names l a) := _.

Lemma registered_free r l n :
  registered r l -> by_name r !! n = None <-> n ∉ flat_map names_of l.
Proof.
  intros Hr. destruct (by_name r !! n) as [d|] eqn:E.
  - split; [done|]. intros Hn. exfalso. apply Hn. apply (reg_by_name _ _ Hr) in E as (a & Ha & Hin & _).
    apply list_elem_of_In, in_flat_map. exists a. by rewrite <- !list_elem_of_In.
  - split; [|done]. intros _ (a & Ha & Hin)%list_elem_of_In%in_flat_map. apply list_elem_of_In in Ha, Hin.
    assert (by_name r !! n = Some (action_data a)); [|congruence]. apply (reg_by_name _ _ Hr). eauto.
Qed.

Lemma insert_action_ok r l a :
  registered r l -> free_names l a ->
  exists r', insert_action r a = Ok r' /\ registered r' (l ++ [a]).
Proof.
  intros Hr Hf. unfold free_names, names_of in Hf.
  apply list.NoDup_app in Hf as (Hl & Hd & (Ha & Hna & _)%list.NoDup_app). unfold insert_action.
  assert (Hname : by_name r !! name a = None).
  { apply (registered_free _ _ _ Hr). intros Hin. apply (Hd _ Hin), elem_of_app. right. by apply list_elem_of_singleton. }
  rewrite Hname, insert_aliases. cbn [by_name names_by_type_id all_names deprecated_aliases deprecation_messages documentation].
  rewrite bool_decide_true.
  2: { split; [done|]. apply Forall_elem. intros n Hn. rewrite lookup_insert_ne.
       - apply (registered_free _ _ _ Hr). intros Hin. apply (Hd _ Hin), elem_of_app. by left.
       - intros E. by apply (Hna n Hn), list_elem_of_singleton. }
  cbn [obind]. eexists. split; [reflexivity|].
  split; cbn [by_name names_by_type_id all_names deprecated_aliases deprecation_messages documentation].
  - rewrite flat_map_app, (reg_names _ _ Hr), <- app_assoc. simpl. by rewrite app_nil_r.
  - rewrite flat_map_app. simpl. rewrite app_nil_r. apply list.NoDup_app. split_and!; [done|done|].
    apply list.NoDup_app. split_and!; [done|done|apply NoDup_singleton].
  - intros n d. rewrite fold_insert, exists_snoc. unfold names_of at 2. rewrite elem_of_app, list_elem_of_singleton.
    case_bool_decide as Hn.
    + split; [intros [= <-]; right; auto|]. intros [Hold|[_ ->]]; [|done]. exfalso.
      apply (reg_by_name _ _ Hr) in Hold. assert (by_name r !! n = None); [|congruence]. apply (registered_free _ _ _ Hr).
      intros Hin. apply (Hd _ Hin), elem_of_app. by left.
    + destruct (decide (name a = n)) as [<-|Hne].
      * rewrite lookup_insert_eq. split; [intros [= <-]; right; auto|]. intros [Hold|[_ ->]]; [|done].
        apply (reg_by_name _ _ Hr) in Hold. congruence.
      * rewrite lookup_insert_ne, (reg_by_name _ _ Hr) by done. naive_solver.
  - intros n m. rewrite fold_insert, exists_snoc. case_bool_decide as Hn.
    + split; [intros [= <-]; right; auto|]. intros [(a' & Ha' & Hin & _)|[_ ->]]; [|done]. exfalso.
      apply (Hd n); [|apply elem_of_app; by left]. apply list_elem_of_In, in_flat_map. exists a'.
      rewrite <- !list_elem_of_In. split; [done|]. apply elem_of_app. by left.
    + rewrite (reg_aliases _ _ Hr). naive_solver.
  - intros id. unfold of_type. rewrite List.filter_app. simpl. destruct (N.eqb_spec (type_id a) id) as [<-|Hne].
    + by rewrite lookup_insert_eq, last_snoc.
    + by rewrite lookup_insert_ne, app_nil_r, (reg_types _ _ Hr).
Qed.

Lemma insert_action_panics r l a :
  registered r l -> ~ free_names l a -> insert_action r a = Panic.
Proof.
  intros Hr Hf. unfold insert_action. destruct (by_name r !! name a) as [d|] eqn:Hname; [done|].
  rewrite insert_aliases. cbn [by_name]. rewrite bool_decide_false; [done|]. intros [Ha Hfree]. apply Hf.
  apply (registered_free _ _ _ Hr) in Hname. apply list.NoDup_app. split; [apply (reg_nodup _ _ Hr)|].
  rewrite Forall_elem in Hfree. split.
  - intros n Hn Hin. unfold names_of in Hin. rewrite elem_of_app, list_elem_of_singleton in Hin. destruct Hin as [Hin| ->]; [|done].
    specialize (Hfree n Hin). destruct (decide (name a = n)) as [<-|Hne]; [by rewrite lookup_insert_eq in Hfree|].
    rewrite lookup_insert_ne in Hfree by done. by apply (registered_free _ _ _ Hr) in Hfree.
  - apply list.NoDup_app. split_and!; [done| |apply NoDup_singleton]. intros n Hn ->%list_elem_of_singleton.
    specialize (Hfree _ Hn). by rewrite lookup_insert_eq in Hfree.
Qed.

Lemma load_actions_ok builders : forall r l,
  registered r l -> NoDup (flat_map names_of (l ++ builders)) ->
  exists r', load_actions r builders = Ok r' /\ registered r' (l ++ builders).
Proof.
  induction builders as [|a builders IH]; intros r l Hr Hnd; unfold load_actions in *; cbn [ofold].
  - exists r. by rewrite app_nil_r.
  - rewrite cons_middle, app_assoc in Hnd.
    destruct (insert_action_ok r l a Hr) as (r' & -> & Hr').
    { rewrite !flat_map_app in Hnd. simpl in Hnd. rewrite app_nil_r in Hnd. by apply list.NoDup_app in Hnd as (? & _ & _). }
    cbn [obind]. destruct (IH _ _ Hr' Hnd) as (r'' & -> & Hr''). exists r''. by rewrite cons_middle, app_assoc.
Qed.

Lemma load_actions_panics builders : forall r l,
  registered r l -> ~ NoDup (flat_map names_of (l ++ builders)) -> load_actions r builders = Panic.
Proof.
  induction builders as [|a builders IH]; intros r l Hr Hnd; unfold load_actions in *; cbn [ofold].
  - rewrite app_nil_r in Hnd. by pose proof (reg_nodup _ _ Hr).
  - destruct (decide (free_names l a)) as [Hf|Hf].
    + destruct (insert_action_ok r l a Hr Hf) as (r' & -> & Hr'). cbn [obind]. apply (IH _ _ Hr').
      by rewrite <- app_assoc.
    + by rewrite (insert_action_panics r l a Hr Hf).
Qed.

(** *** Building *)

Lemma schemas_of_ok r l names :
  registered r l -> Forall (fun n => n ∈ flat_map names_of l) names ->
  exists schemas, schemas_of r names = Ok schemas /\ map fst schemas = names.
Proof.
  intros Hr. induction 1 as [|n names Hn _ (schemas & IH & Hm)]; simpl; [by exists []|].
  destruct (by_name r !! n) as [d|] eqn:E; [|by apply (registered_free _ _ _ Hr) in E]. cbn [obind unwrap].
  rewrite IH. cbn [obind]. eexists. split; [reflexivity|]. simpl. by rewrite Hm.
Qed.

(** What [build_action] gives for a builder. *)
Definition build_with (a : MacroActionData) (n : str) (params : option Json) : Action + ActionBuildError :=
  match macro_build a (default empty_object params) with
  | inl v => inl v
  | inr e => inr (BuildError n e)
  end.

Lemma build_action_registered r l a n params :
  registered r l -> a ∈ l -> n ∈ names_of a -> build_action r n params = build_with a n params.
Proof.
  intros Hr Ha Hn. unfold build_action, build_with.
  assert (by_name r !! n = Some (action_data a)) as -> by (apply (reg_by_name _ _ Hr); eauto).
  done.
Qed.

Lemma build_action_type_registered r l id :
  registered r l ->
  build_action_type r id =
  match list.last (of_type id l) with
  | Some a => match macro_build a empty_object with inl v => Some v | inr _ => None end
  | None => None
  end.
Proof.
  intros Hr. unfold build_action_type. rewrite (reg_types _ _ Hr).
  destruct (list.last (of_type id l)) as [a|] eqn:E; simpl; [|done].
  apply last_Some_elem_of in E. unfold of_type in E. rewrite list_elem_of_In, filter_In, <- list_elem_of_In in E.
  destruct E as [Ha _]. rewrite (build_action_registered r l a _ None Hr Ha).
  - unfold build_with. simpl. by destruct (macro_build a empty_object).
  - apply elem_of_app. right. by apply list_elem_of_singleton.
Qed.

(** *** The contract *)

(** The registry of a program panics while it starts exactly if two actions share a
    name or a deprecated alias.  Otherwise [all_action_names] lists the names in the
    order of registration, each action after its aliases, and [action_schemas] finds
    the data of every one of them, so that its [expect] never fails; [build_action]
    builds an action under its name and under each of its aliases alike, with the
    parameters or with the empty object, and any other name is not found; an alias
    stands for the name of its action; and [build_action_type] builds, from the empty
    object, an action of the type registered last. *)
Theorem action_registry_correct (builders : list MacroActionData) :
  if bool_decide (NoDup (flat_map names_of builders)) then
    exists r, registry_default builders = Ok r /\ all_action_names r = flat_map names_of builders /\
      (exists schemas, action_schemas r = Ok schemas /\ map fst schemas = all_action_names r) /\
      (forall a n params, a ∈ builders -> n ∈ names_of a -> build_action r n params = build_with a n params) /\
      (forall n params, n ∉ flat_map names_of builders -> build_action r n params = inr (NotFound n)) /\
      (forall n m, deprecated_aliases r !! n = Some m <->
         exists a, a ∈ builders /\ n ∈ macro_deprecated_aliases a /\ m = name a) /\
      (forall id, build_action_type r id =
         match list.last (of_type id builders) with
         | Some a => match macro_build a empty_object with inl v => Some v | inr _ => None end
         | None => None
         end)
  else registry_default builders = Panic.
Proof.
  unfold registry_default. case_bool_decide as Hnd.
  - destruct (load_actions_ok builders _ [] registry_empty_registered Hnd) as (r & Hr & Hreg).
    simpl in Hreg. exists r. split; [done|]. split; [apply (reg_names _ _ Hreg)|]. split.
    { unfold action_schemas, all_action_names. rewrite (reg_names _ _ Hreg).
      apply (schemas_of_ok r builders); [done|]. by apply Forall_elem. }
    split; [|split; [|split; [|intros id; by apply build_action_type_registered]]].
    + intros a n params Ha Hn. by apply (build_action_registered r builders).
    + intros n params Hn. unfold build_action. by rewrite (proj2 (registered_free _ _ _ Hreg) Hn).
    + apply (reg_aliases _ _ Hreg).
  - by apply (load_actions_panics builders _ [] registry_empty_registered).
Qed.
End Registry.

Section Tests.
#[local] Open Scope N_scope.

(** An action with an alias, whose builder wants the empty object. *)
Definition test_action (n : N) (aliases : list str) : MacroActionData (Json := nat) (Action := N) (Error := unit) (Schema := unit) :=
  mkMacroActionData [n] n (fun json => match json with O => inl n | _ => inr tt end) None aliases None None.

Example test_registry :
  registry_default [test_action 1 [[11]; [12]]; test_action 2 [[1]]] = Panic /\
  match registry_default [test_action 1 [[11]; [12]]; test_action 2 []] with
  | Ok r => (all_action_names r, build_action_type 0%nat r 2, build_action 0%nat r [12] None, build_action 0%nat r [1] (Some 3%nat),
             build_action 0%nat r [3] None)
            = ([[11]; [12]; [1]; [2]], Some 2, inl 1, inr (BuildError [1] tt), inr (NotFound [3]))
  | _ => False
  end.
Proof. vm_compute. done. Qed.
End Tests.
