(* ===== verification/KeyContext.v ===== *)
(** * Key contexts and their predicates: [crates/gpui/src/keymap/context.rs]

    A [KeyContext] is the list of the identifiers and key-value pairs of one element
    of the element tree; a predicate is evaluated on the contexts from the root to
    the focused element.  Both have a parser and a printer.  The parsers recurse on
    what is lhs of the input, so they take fuel here.  [SharedString] is a string,
    and [Box] transparent. *)

From Stdlib Require Import NArith String Ascii.
From stdpp Require Import base list option numbers.
From S2P Require Import Prelude Text.

#[local] Set Warnings "-register-all,-clear-no-such-hyp".

(** ** [KeyContext] *)

Record ContextEntry := mkEntry {
  key : str;
  value : option str;
}.

#[export] Instance entry_eq_dec : EqDecision ContextEntry.
Proof. solve_decision. Defined.

Definition KeyContext : Type := list ContextEntry.

Definition contains (ctx : KeyContext) (k : str) : bool :=
  existsb (fun entry => str_eqb (key entry) k) ctx.

(** [get]: the value of the first entry with the key. *)
Definition get (ctx : KeyContext) (k : str) : option str :=
  match List.find (fun entry => str_eqb (key entry) k) ctx with
  | Some entry => value entry
  | None => None
  end.

Definition add (ctx : KeyContext) (identifier : str) : KeyContext :=
  if negb (contains ctx identifier) then ctx ++ [mkEntry identifier None] else ctx.

Definition set (ctx : KeyContext) (k v : str) : KeyContext :=
  if negb (contains ctx k) then ctx ++ [mkEntry k (Some v)] else ctx.

Definition extend (ctx other : KeyContext) : KeyContext :=
  fold_left (fun ctx entry => if negb (contains ctx (key entry)) then ctx ++ [entry] else ctx) other ctx.

Definition context_clear (ctx : KeyContext) : KeyContext := [].

Definition is_empty (ctx : KeyContext) : bool := match ctx with [] => true | _ => false end.

Definition new_with_defaults (os : Os) : KeyContext :=
  match os with
  | MacOs => set [] (lit "os") (lit "macos")
  | Linux => set [] (lit "os") (lit "linux")
  | Windows => set [] (lit "os") (lit "windows")
  | OtherOs => set [] (lit "os") (lit "unknown")
  end.

Definition primary (ctx : KeyContext) : option ContextEntry :=
  List.find (fun p => match value p with None => true | Some _ => false end) ctx.

Definition secondary (ctx : KeyContext) : list ContextEntry :=
  List.filter (fun p => negb (bool_decide (Some p = primary ctx))) ctx.

(** [impl fmt::Debug for KeyContext] *)
Definition entry_fmt (entry : ContextEntry) : str :=
  match value entry with
  | Some v => key entry ++ lit "=" ++ v
  | None => key entry
  end.

Fixpoint context_fmt (ctx : KeyContext) : str :=
  match ctx with
  | [] => []
  | [entry] => entry_fmt entry
  | entry :: ctx => entry_fmt entry ++ lit " " ++ context_fmt ctx
  end.

Section Parsers.
Context `{Unicode}.

Definition is_identifier_char (c : char) : bool :=
  is_alphanumeric c || (c =? ch "_")%N || (c =? ch "-")%N.

(** The character 34 is the double quote. *)
Definition is_vim_operator_char (c : char) : bool :=
  (c =? ch ">")%N || (c =? ch "<")%N || (c =? ch "~")%N || (c =? 34)%N || (c =? ch "?")%N.

Definition skip_whitespace (source : str) : str := skip_while is_whitespace source.

(** [KeyContext::parse_expr]; it never returns an error. *)
Fixpoint context_parse_expr (fuel : nat) (source : str) (ctx : KeyContext) : outcome KeyContext :=
  match source with
  | [] => Ok ctx
  | _ =>
      match fuel with
      | 0 => OutOfFuel
      | Datatypes.S fuel =>
          let key := take_while is_identifier_char source in
          let source := skip_whitespace (drop (length key) source) in
          match strip_prefix (lit "=") source with
          | Some suffix =>
              let source := skip_whitespace suffix in
              let value := take_while is_identifier_char source in
              let source := skip_whitespace (drop (length value) source) in
              context_parse_expr fuel source (set ctx key value)
          | None => context_parse_expr fuel source (add ctx key)
          end
      end
  end.

Definition context_parse (fuel : nat) (source : str) : outcome KeyContext :=
  context_parse_expr fuel (skip_whitespace source) [].

(** ** [KeyBindingContextPredicate] *)

Inductive Predicate :=
| Identifier (name : str)
| Equal (lhs rhs : str)
| NotEqual (lhs rhs : str)
| Descendant (parent child : Predicate)
| Not (pred : Predicate)
| And (lhs rhs : Predicate)
| Or (lhs rhs : Predicate).

#[export] Instance predicate_eq_dec : EqDecision Predicate.
Proof. solve_decision. Defined.

(** [impl fmt::Display] *)
Fixpoint predicate_fmt (p : Predicate) : str :=
  match p with
  | Identifier name => name
  | Equal lhs rhs => lhs ++ lit " == " ++ rhs
  | NotEqual lhs rhs => lhs ++ lit " != " ++ rhs
  | Not pred => lit "!" ++ predicate_fmt pred
  | Descendant parent child => predicate_fmt parent ++ lit " > " ++ predicate_fmt child
  | And lhs rhs => lit "(" ++ predicate_fmt lhs ++ lit " && " ++ predicate_fmt rhs ++ lit ")"
  | Or lhs rhs => lit "(" ++ predicate_fmt lhs ++ lit " || " ++ predicate_fmt rhs ++ lit ")"
  end.

(** The errors of the parser. *)
Inductive ParseError :=
| UnexpectedEnd
| UnexpectedCharacter (c : char)
| ExpectedParenthesis
| OperandsMustBeIdentifiers (operator : str).

Definition result (A : Type) : Type := A + ParseError.

(** The [?] operator, on results of functions that take fuel. *)
Definition rbind {A B} (m : outcome (result A)) (k : A -> outcome (result B)) : outcome (result B) :=
  let! r := m in
  match r with
  | inl a => k a
  | inr e => Ok (inr e)
  end.

Definition PRECEDENCE_CHILD : nat := 1.
Definition PRECEDENCE_OR : nat := 2.
Definition PRECEDENCE_AND : nat := 3.
Definition PRECEDENCE_EQ : nat := 4.
Definition PRECEDENCE_NOT : nat := 5.

Definition new_or (p other : Predicate) : result Predicate := inl (Or p other).
Definition new_and (p other : Predicate) : result Predicate := inl (And p other).
Definition new_child (p other : Predicate) : result Predicate := inl (Descendant p other).

Definition new_eq (p other : Predicate) : result Predicate :=
  match p, other with
  | Identifier lhs, Identifier rhs => inl (Equal lhs rhs)
  | _, _ => inr (OperandsMustBeIdentifiers (lit "=="))
  end.

Definition new_neq (p other : Predicate) : result Predicate :=
  match p, other with
  | Identifier lhs, Identifier rhs => inl (NotEqual lhs rhs)
  | _, _ => inr (OperandsMustBeIdentifiers (lit "!="))
  end.

(** The table of operators of [parse_expr]. *)
Definition operators : list (str * nat * (Predicate -> Predicate -> result Predicate)) :=
  [(lit ">", PRECEDENCE_CHILD, new_child);
   (lit "&&", PRECEDENCE_AND, new_and);
   (lit "||", PRECEDENCE_OR, new_or);
   (lit "==", PRECEDENCE_EQ, new_eq);
   (lit "!=", PRECEDENCE_EQ, new_neq)].

(** The first operator that the source starts with and the precedence allows. *)
Definition find_operator (source : str) (min_precedence : nat) :=
  List.find (fun '(operator, precedence, _) => starts_with operator source && (min_precedence <=? precedence))
    operators.

(** [parse_expr], its loop, and [parse_primary]. *)
Fixpoint parse_expr (fuel : nat) (source : str) (min_precedence : nat) : outcome (result (Predicate * str)) :=
  match fuel with
  | 0 => OutOfFuel
  | Datatypes.S fuel =>
      rbind (parse_primary fuel source) (fun '(predicate, rest) => parse_loop fuel predicate rest min_precedence)
  end
with parse_loop (fuel : nat) (predicate : Predicate) (source : str) (min_precedence : nat)
    : outcome (result (Predicate * str)) :=
  match fuel with
  | 0 => OutOfFuel
  | Datatypes.S fuel =>
      match find_operator source min_precedence with
      | Some (operator, precedence, constructor) =>
          let source := skip_whitespace (drop (length operator) source) in
          rbind (parse_expr fuel source (precedence + 1)) (fun '(rhs, rest) =>
          rbind (Ok (constructor predicate rhs)) (fun predicate =>
          parse_loop fuel predicate rest min_precedence))
      | None => Ok (inl (predicate, source))
      end
  end
with parse_primary (fuel : nat) (source : str) : outcome (result (Predicate * str)) :=
  match fuel with
  | 0 => OutOfFuel
  | Datatypes.S fuel =>
      match source with
      | [] => Ok (inr UnexpectedEnd)
      | next :: rest =>
          if (next =? ch "(")%N then
            rbind (parse_expr fuel (skip_whitespace rest) 0) (fun '(predicate, rest) =>
            match strip_prefix (lit ")") rest with
            | Some stripped => Ok (inl (predicate, skip_whitespace stripped))
            | None => Ok (inr ExpectedParenthesis)
            end)
          else if (next =? ch "!")%N then
            rbind (parse_expr fuel (skip_whitespace rest) PRECEDENCE_NOT) (fun '(predicate, source) =>
            Ok (inl (Not predicate, source)))
          else if is_identifier_char next then
            let p := fun c => is_identifier_char c || is_vim_operator_char c in
            Ok (inl (Identifier (take_while p source), skip_whitespace (skip_while p source)))
          else if is_vim_operator_char next then
            Ok (inl (Identifier [next], skip_whitespace rest))
          else Ok (inr (UnexpectedCharacter next))
      end
  end.

(** Enough fuel for any source: see [parse_total]. *)
Definition parse_fuel (source : str) : nat := 2 * length source + 2.

Definition predicate_parse (source : str) : outcome (result Predicate) :=
  let source := skip_whitespace source in
  rbind (parse_expr (parse_fuel source) source 0) (fun '(predicate, rest) =>
  match rest with
  | next :: _ => Ok (inr (UnexpectedCharacter next))
  | [] => Ok (inl predicate)
  end).
End Parsers.

(** ** Evaluation *)

(** The contexts go from the root to the focused element. *)
Fixpoint eval_inner (p : Predicate) (contexts all_contexts : list KeyContext) : bool :=
  match list.last contexts with
  | None => false
  | Some context =>
      match p with
      | Identifier name => contains context name
      | Equal lhs rhs => match get context lhs with Some value => str_eqb value rhs | None => false end
      | NotEqual lhs rhs => match get context lhs with Some value => negb (str_eqb value rhs) | None => true end
      | Not pred =>
          forallb (fun i => negb (eval_inner pred (take (i + 1) all_contexts) all_contexts))
            (seq 0 (length all_contexts))
      | Descendant parent child =>
          match List.find (fun i => eval_inner parent (take (i + 1) contexts) all_contexts)
                  (seq 0 (length contexts - 1)) with
          | Some i => eval_inner child (drop (i + 1) contexts) (drop (i + 1) contexts)
          | None => false
          end
      | And lhs rhs => eval_inner lhs contexts all_contexts && eval_inner rhs contexts all_contexts
      | Or lhs rhs => eval_inner lhs contexts all_contexts || eval_inner rhs contexts all_contexts
      end
  end.

Definition eval (p : Predicate) (contexts : list KeyContext) : bool := eval_inner p contexts contexts.

(** The greatest depth at which the predicate matches. *)
Definition depth_of (p : Predicate) (contexts : list KeyContext) : option nat :=
  List.find (fun depth => eval_inner p (take depth contexts) contexts) (rev (seq 0 (length contexts + 1))).

(** [is_superset]: the recursion is on either argument. *)
Fixpoint is_superset (p : Predicate) : Predicate -> bool :=
  fix superset_of (other : Predicate) : bool :=
    if bool_decide (p = other) then true
    else
      match p with
      | Or lhs rhs => is_superset lhs other || is_superset rhs other
      | _ =>
          match other with
          | Descendant _ child => superset_of child
          | And lhs rhs => superset_of lhs || superset_of rhs
          | _ => false
          end
      end.

(** Some of the tests of context.rs. *)
Section Tests.
#[local] Existing Instance ascii_unicode.

Definition ident (s : string) : Predicate := Identifier (lit s).
Arguments ident s%_string_scope.

Example test_parse_context :
  context_parse 9 (lit "  baz foo   =   bar baz") =
  Ok [mkEntry (lit "baz") None; mkEntry (lit "foo") (Some (lit "bar"))].
Proof. reflexivity. Qed.

Example test_parse_boolean :
  predicate_parse (lit "a == b && c || d == e && f") =
  Ok (inl (Or (And (Equal (lit "a") (lit "b")) (ident "c")) (And (Equal (lit "d") (lit "e")) (ident "f")))).
Proof. vm_compute. reflexivity. Qed.

Example test_parse_operands :
  predicate_parse (lit "c == !d") = Ok (inr (OperandsMustBeIdentifiers (lit "=="))).
Proof. vm_compute. reflexivity. Qed.

Example test_parse_parenthesized :
  predicate_parse (lit " ( a || !b ) > d") =
  Ok (inl (Descendant (Or (ident "a") (Not (ident "b"))) (ident "d"))).
Proof. vm_compute. reflexivity. Qed.
End Tests.

(** ** The operations on a context *)

Section Contexts.
Implicit Types ctx other : KeyContext.

Lemma contains_spec ctx k : contains ctx k = true <-> k ∈ map key ctx.
Proof.
  unfold contains. rewrite existsb_exists, list_elem_of_In, in_map_iff. split.
  - intros (e & He & Hk). apply str_eqb_spec in Hk. eauto.
  - intros (e & <- & He). exists e. split; [done|]. apply str_eqb_refl.
Qed.

Lemma contains_false ctx k : contains ctx k = false <-> k ∉ map key ctx.
Proof. rewrite <- contains_spec. destruct (contains ctx k); naive_solver. Qed.

(** Keys are distinct. *)
Definition distinct ctx : Prop := NoDup (map key ctx).

(** Adding an entry unless its key is present: the step shared by [add], [set] and
    [extend]. *)
Definition push_entry ctx (e : ContextEntry) : KeyContext :=
  if negb (contains ctx (key e)) then ctx ++ [e] else ctx.

Lemma push_distinct ctx e : distinct ctx -> distinct (push_entry ctx e).
Proof.
  intros Hd. unfold push_entry. destruct (contains ctx (key e)) eqn:E; simpl; [done|].
  unfold distinct. rewrite map_app. simpl. apply list.NoDup_app. split; [done|]. split.
  - intros x Hx ->%list_elem_of_singleton. by apply contains_false in E.
  - apply NoDup_singleton.
Qed.

Lemma push_fresh ctx e : key e ∉ map key ctx -> push_entry ctx e = ctx ++ [e].
Proof. intros H. unfold push_entry. by rewrite (proj2 (contains_false _ _) H). Qed.

Lemma get_app ctx other k : get (ctx ++ other) k = if contains ctx k then get ctx k else get other k.
Proof.
  unfold get, contains. induction ctx as [|e ctx IH]; simpl; [done|]. by destruct (str_eqb (key e) k).
Qed.

Lemma contains_app ctx other k : contains (ctx ++ other) k = contains ctx k || contains other k.
Proof. unfold contains. apply existsb_app. Qed.

Lemma get_absent ctx k : contains ctx k = false -> get ctx k = None.
Proof.
  unfold get, contains. induction ctx as [|e ctx IH]; simpl; [done|]. by destruct (str_eqb (key e) k).
Qed.

Lemma get_cons e ctx k : get (e :: ctx) k = if str_eqb (key e) k then value e else get ctx k.
Proof. unfold get. simpl. by destruct (str_eqb (key e) k). Qed.

(** [extend]: the entries of the first context win. *)
Lemma context_extend_ok other : forall ctx k,
  contains (extend ctx other) k = contains ctx k || contains other k /\
  get (extend ctx other) k = (if contains ctx k then get ctx k else get other k) /\
  (distinct ctx -> distinct (extend ctx other)).
Proof.
  unfold extend. induction other as [|e other IH]; intros ctx k; cbn [fold_left].
  - rewrite orb_false_r. split; [done|]. split; [|done]. destruct (contains ctx k) eqn:E; [done|by apply get_absent].
  - fold (push_entry ctx e). destruct (IH (push_entry ctx e) k) as (-> & -> & Hd). split; [|split].
    + unfold push_entry. destruct (contains ctx (key e)) eqn:E; simpl.
      * destruct (str_eqb (key e) k) eqn:Ek; [|done]. apply str_eqb_spec in Ek as <-. by rewrite E.
      * rewrite contains_app. simpl. by rewrite orb_false_r, orb_assoc.
    + unfold push_entry. destruct (contains ctx (key e)) eqn:E; simpl.
      * rewrite get_cons. destruct (str_eqb (key e) k) eqn:Ek; [|done].
        apply str_eqb_spec in Ek as <-. by rewrite E.
      * rewrite contains_app, get_app, !get_cons. simpl.
        destruct (contains ctx k); [done|]. by destruct (str_eqb (key e) k).
    + intros Hctx. by apply Hd, push_distinct.
Qed.
End Contexts.

Section ParserProofs.
Context `{UnicodeLaws}.

Lemma ch_whitespace c : (c < 128)%N -> is_whitespace c = ascii_whitespace c.
Proof. apply whitespace_ascii. Qed.

Lemma identifier_not_whitespace c : is_identifier_char c = true -> is_whitespace c = false.
Proof.
  unfold is_identifier_char. rewrite !orb_true_iff, !N.eqb_eq. intros [[Hc| ->]| ->].
  - by apply alphanumeric_not_whitespace.
  - by rewrite ch_whitespace.
  - by rewrite ch_whitespace.
Qed.

Lemma ascii_identifier c :
  (c < 128)%N -> is_identifier_char c = ascii_alphanumeric c || (c =? ch "_")%N || (c =? ch "-")%N.
Proof. intros Hc. unfold is_identifier_char. by rewrite alphanumeric_ascii. Qed.

(** *** [KeyContext::parse] *)

(** The characters the parser of contexts consumes. *)
Definition context_char (c : char) : bool :=
  is_identifier_char c || is_whitespace c || (c =? ch "=")%N.

Definition no_leading_whitespace (s : str) : Prop :=
  match s with c :: _ => is_whitespace c = false | [] => True end.

Lemma skip_no_leading s : no_leading_whitespace (skip_whitespace s).
Proof.
  unfold skip_whitespace. destruct (skip_while is_whitespace s) eqn:E; [done|].
  exact (skip_while_head _ _ _ _ E).
Qed.

Lemma skip_id s : no_leading_whitespace s -> skip_whitespace s = s.
Proof. destruct s as [|c s]; [done|]. simpl. intros E. unfold skip_whitespace. simpl. by rewrite E. Qed.

Lemma drop_take_while p (s : str) : drop (length (take_while p s)) s = skip_while p s.
Proof. induction s as [|c s IH]; simpl; [done|]. by destruct (p c). Qed.

Lemma skip_suffix p (s : str) : exists l, s = l ++ skip_while p s /\ Forall (fun c => p c = true) l.
Proof. exists (take_while p s). split; [by rewrite take_skip_while|apply take_while_Forall]. Qed.

(** What one step leaves: a suffix, of which it has consumed a part made of
    [context_char]s only. *)
Definition context_step (source : str) : str :=
  let source := skip_whitespace (skip_while is_identifier_char source) in
  match strip_prefix (lit "=") source with
  | Some suffix => skip_whitespace (skip_while is_identifier_char (skip_whitespace suffix))
  | None => source
  end.

Lemma context_parse_expr_step fuel c s ctx :
  exists e, context_parse_expr (Datatypes.S fuel) (c :: s) ctx =
            context_parse_expr fuel (context_step (c :: s)) (push_entry ctx e).
Proof.
  cbn [context_parse_expr]. rewrite drop_take_while. unfold context_step.
  destruct (strip_prefix (lit "=") _) as [suffix|].
  - rewrite drop_take_while. by exists (mkEntry (take_while is_identifier_char (c :: s))
      (Some (take_while is_identifier_char (skip_whitespace suffix)))).
  - by exists (mkEntry (take_while is_identifier_char (c :: s)) None).
Qed.

Lemma context_step_consumes s :
  exists l, s = l ++ context_step s /\ Forall (fun c => context_char c = true) l.
Proof.
  assert (Hid : forall l, Forall (fun c => is_identifier_char c = true) l -> Forall (fun c => context_char c = true) l)
    by (intros l; apply Forall_weaken; intros c Hc; unfold context_char; by rewrite Hc).
  assert (Hws : forall l, Forall (fun c => is_whitespace c = true) l -> Forall (fun c => context_char c = true) l)
    by (intros l; apply Forall_weaken; intros c Hc; unfold context_char; by rewrite Hc, orb_true_r).
  unfold context_step, skip_whitespace.
  destruct (skip_suffix is_identifier_char s) as (l1 & E1 & H1). set (s1 := skip_while is_identifier_char s) in *.
  destruct (skip_suffix is_whitespace s1) as (l2 & E2 & H2). set (s2 := skip_while is_whitespace s1) in *.
  destruct (strip_prefix (lit "=") s2) as [s3|] eqn:Es.
  - apply strip_prefix_Some in Es. destruct (skip_suffix is_whitespace s3) as (l3 & E3 & H3).
    set (s4 := skip_while is_whitespace s3) in *.
    destruct (skip_suffix is_identifier_char s4) as (l4 & E4 & H4). set (s5 := skip_while is_identifier_char s4) in *.
    destruct (skip_suffix is_whitespace s5) as (l5 & E5 & H5).
    exists (l1 ++ l2 ++ lit "=" ++ l3 ++ l4 ++ l5). split.
    + rewrite <- !app_assoc. rewrite <- E5, <- E4, <- E3, <- Es, <- E2. done.
    + repeat (apply Forall_app; split); auto. repeat constructor. unfold context_char. simpl. by rewrite orb_true_r.
  - exists (l1 ++ l2). rewrite <- app_assoc, <- E2. split; [done|].
    apply Forall_app. auto.
Qed.

Lemma context_step_no_leading s : no_leading_whitespace (context_step s).
Proof. unfold context_step. destruct (strip_prefix _ _); apply skip_no_leading. Qed.

Lemma context_step_shorter c s :
  no_leading_whitespace (c :: s) -> context_char c = true -> length (context_step (c :: s)) < length (c :: s).
Proof.
  intros Hw Hc. unfold context_step, skip_whitespace. cbn [skip_while].
  assert (Hle : forall s', length (skip_while is_whitespace s') <= length s') by apply skip_while_length.
  assert (Hle' : forall s', length (skip_while is_identifier_char s') <= length s') by apply skip_while_length.
  destruct (is_identifier_char c) eqn:Ei.
  - set (s1 := skip_while is_identifier_char s). pose proof (Hle' s : length s1 <= length s).
    set (s2 := skip_while is_whitespace s1). pose proof (Hle s1 : length s2 <= length s1).
    destruct (strip_prefix (lit "=") s2) as [s3|] eqn:Es; simpl; [|lia].
    apply strip_prefix_Some in Es. rewrite Es in *. simpl in *.
    set (s4 := skip_while is_whitespace s3). pose proof (Hle s3 : length s4 <= length s3).
    set (s5 := skip_while is_identifier_char s4). pose proof (Hle' s4 : length s5 <= length s4).
    pose proof (Hle s5). lia.
  - simpl in Hw. cbn [skip_while]. rewrite Hw. unfold context_char in Hc. rewrite Ei, Hw in Hc. simpl in Hc.
    apply N.eqb_eq in Hc as ->. change (strip_prefix (lit "=") (ch "=" :: s)) with (Some s). cbn iota.
    set (s4 := skip_while is_whitespace s). pose proof (Hle s : length s4 <= length s).
    set (s5 := skip_while is_identifier_char s4). pose proof (Hle' s4 : length s5 <= length s4).
    pose proof (Hle s5). simpl. lia.
Qed.

(** The parser returns on these characters, and never on any other. *)
Lemma context_parse_returns fuel : forall s ctx,
  length s <= fuel -> no_leading_whitespace s -> Forall (fun c => context_char c = true) s -> distinct ctx ->
  exists ctx', context_parse_expr fuel s ctx = Ok ctx' /\ distinct ctx'.
Proof.
  induction fuel as [|fuel IH]; intros [|c s] ctx Hf Hw Hs Hd; [by exists ctx|simpl in Hf; lia|by exists ctx|].
  destruct (context_parse_expr_step fuel c s ctx) as (e & ->).
  apply Forall_cons_iff in Hs as [Hc Hs].
  pose proof (context_step_shorter c s Hw Hc) as Hlt. destruct (context_step_consumes (c :: s)) as (l & El & _).
  apply IH; [simpl in *; lia|apply context_step_no_leading| |by apply push_distinct].
  assert (Hall : Forall (fun c => context_char c = true) (c :: s)) by (by constructor).
  rewrite El in Hall. by apply Forall_app in Hall as [_ ?].
Qed.

Lemma context_parse_diverges fuel : forall s ctx,
  Exists (fun c => context_char c = false) s -> context_parse_expr fuel s ctx = OutOfFuel.
Proof.
  induction fuel as [|fuel IH]; intros [|c s] ctx Hs; try done; [by inversion Hs|by inversion Hs|].
  destruct (context_parse_expr_step fuel c s ctx) as (e & ->).
  apply IH. destruct (context_step_consumes (c :: s)) as (l & El & Hl). rewrite El in Hs.
  apply Exists_app in Hs as [Hs|Hs]; [|done]. exfalso.
  apply List.Exists_exists in Hs as (x & Hx & Hxc). rewrite List.Forall_forall in Hl.
  specialize (Hl x Hx). congruence.
Qed.

End ParserProofs.

(** Classifies a character of the syntax. *)
Ltac syntax_char :=
  first [rewrite ascii_identifier by reflexivity | rewrite ch_whitespace by reflexivity]; reflexivity.

(** *** Printing a context and parsing it *)

Section ContextRoundTrip.
Context `{UnicodeLaws}.

Definition identifier_str (s : str) : Prop := s <> [] /\ Forall (fun c => is_identifier_char c = true) s.

Definition entry_ok (e : ContextEntry) : Prop :=
  identifier_str (key e) /\ match value e with Some v => identifier_str v | None => True end.

Lemma head_identifier s rest :
  identifier_str s -> match s ++ rest with c :: _ => is_identifier_char c = true | [] => False end.
Proof. intros [Hne Hs]. destruct s as [|c s]; [done|]. by apply Forall_cons_iff in Hs as [? _]. Qed.

Lemma identifier_no_leading s rest : identifier_str s -> no_leading_whitespace (s ++ rest).
Proof.
  intros Hs. pose proof (head_identifier s rest Hs). destruct (s ++ rest); [done|]. simpl.
  by apply identifier_not_whitespace.
Qed.

(** What may follow an entry: nothing, or a space and another identifier. *)
Definition entry_boundary (rest : str) : Prop :=
  rest = [] \/ exists k r, rest = lit " " ++ k ++ r /\ identifier_str k.

Lemma boundary_not_identifier rest :
  entry_boundary rest -> match rest with c :: _ => is_identifier_char c = false | [] => True end.
Proof. intros [->|(k & r & -> & _)]; [done|]. simpl. syntax_char. Qed.

Lemma boundary_skip rest : entry_boundary rest -> strip_prefix (lit "=") (skip_whitespace rest) = None.
Proof.
  intros [->|(k & r & -> & Hk)]; [done|].
  assert (Es : skip_whitespace (lit " " ++ k ++ r) = k ++ r).
  { unfold skip_whitespace. cbn [lit list_ascii_of_string map app skip_while].
    rewrite ch_whitespace by reflexivity. apply skip_id, identifier_no_leading, Hk. }
  rewrite Es. pose proof (head_identifier k r Hk) as Hc. destruct (k ++ r) as [|c s]; [done|].
  change (lit "=") with [61%N]. cbn [strip_prefix].
  destruct (N.eqb_spec 61 c) as [E|]; [|done]. subst c.
  rewrite ascii_identifier in Hc by reflexivity. vm_compute in Hc. discriminate.
Qed.

Lemma take_identifier s rest :
  identifier_str s -> match rest with c :: _ => is_identifier_char c = false | [] => True end ->
  take_while is_identifier_char (s ++ rest) = s /\ drop (length s) (s ++ rest) = rest.
Proof.
  intros [_ Hs] Hr. split; [by apply (take_while_app _ _ _ Hs Hr)|]. by rewrite drop_app_length.
Qed.

Lemma parse_entry fuel e rest ctx :
  entry_ok e -> entry_boundary rest ->
  context_parse_expr (Datatypes.S fuel) (entry_fmt e ++ rest) ctx =
  context_parse_expr fuel (skip_whitespace rest) (push_entry ctx e).
Proof.
  intros [Hk Hv] Hr. destruct e as [k [v|]]; simpl in Hk, Hv; unfold entry_fmt; cbn [key value].
  - rewrite <- !app_assoc.
    destruct (take_identifier k (lit "=" ++ v ++ rest) Hk) as [Et Ed]; [simpl; syntax_char|].
    destruct (take_identifier v rest Hv (boundary_not_identifier _ Hr)) as [Et' Ed'].
    destruct k as [|c k]; [by destruct Hk|]. cbn [context_parse_expr app] in *. rewrite Et, Ed.
    rewrite (skip_id (lit "=" ++ v ++ rest)) by (simpl; syntax_char).
    rewrite strip_prefix_app, (skip_id (v ++ rest)) by (by apply identifier_no_leading).
    rewrite Et', Ed'. reflexivity.
  - destruct (take_identifier k rest Hk (boundary_not_identifier _ Hr)) as [Et Ed].
    destruct k as [|c k]; [by destruct Hk|]. cbn [context_parse_expr app] in *. rewrite Et, Ed.
    by rewrite (boundary_skip _ Hr).
Qed.

Lemma context_fmt_head e ctx : entry_ok e -> exists r, context_fmt (e :: ctx) = key e ++ r.
Proof.
  intros _. assert (Hf : exists r, entry_fmt e = key e ++ r).
  { unfold entry_fmt. destruct (value e) as [v|]; [by eexists|]. exists []. by rewrite app_nil_r. }
  destruct Hf as (r & Hf). destruct ctx as [|e' ctx]; [by exists r|].
  change (context_fmt (e :: e' :: ctx)) with (entry_fmt e ++ lit " " ++ context_fmt (e' :: ctx)).
  rewrite Hf, <- app_assoc. by eexists.
Qed.

Lemma context_roundtrip_from es : forall fuel ctx,
  Forall entry_ok es -> distinct (ctx ++ es) -> length es <= fuel ->
  context_parse_expr fuel (context_fmt es) ctx = Ok (ctx ++ es).
Proof.
  induction es as [|e es IH]; intros fuel ctx Hes Hd Hf; simpl in Hf.
  - simpl. rewrite app_nil_r. by destruct fuel.
  - destruct fuel as [|fuel]; [lia|]. apply Forall_cons_iff in Hes as [He Hes].
    assert (Hp : push_entry ctx e = ctx ++ [e]).
    { apply push_fresh. unfold distinct in Hd. rewrite map_app in Hd. apply list.NoDup_app in Hd as (_ & Hd & _).
      intros Hin. apply (Hd _ Hin). apply elem_of_cons. by left. }
    destruct es as [|e' es].
    + cbn [context_fmt]. rewrite <- (app_nil_r (entry_fmt e)), parse_entry, Hp; [|done|by left].
      by destruct fuel.
    + inversion Hes as [|? ? He' _]; subst. destruct (context_fmt_head e' es He') as (r & Er).
      change (context_fmt (e :: e' :: es)) with (entry_fmt e ++ lit " " ++ context_fmt (e' :: es)).
      rewrite parse_entry, Hp; [|done|right; exists (key e'), r; rewrite Er; split; [done|apply He']].
      assert (Es : skip_whitespace (lit " " ++ context_fmt (e' :: es)) = context_fmt (e' :: es)).
      { unfold skip_whitespace. cbn [lit list_ascii_of_string map app skip_while].
        rewrite ch_whitespace by reflexivity.
        change (skip_while is_whitespace (context_fmt (e' :: es)) = context_fmt (e' :: es)).
        rewrite Er. apply skip_id, identifier_no_leading, He'. }
      rewrite Es, IH; [by rewrite <- app_assoc|done| |simpl in *; lia].
      by rewrite <- app_assoc.
Qed.

Lemma context_fmt_length es : Forall entry_ok es -> length es <= length (context_fmt es).
Proof.
  induction 1 as [|e es He _ IH]; [done|]. destruct (context_fmt_head e es He) as (r & Er).
  assert (1 <= length (key e)) by (destruct He as [[Hk _] _]; destruct (key e); simpl; [done|lia]).
  destruct es as [|e' es]; [rewrite Er, length_app; simpl; lia|].
  change (context_fmt (e :: e' :: es)) with (entry_fmt e ++ lit " " ++ context_fmt (e' :: es)).
  assert (1 <= length (entry_fmt e)) by (unfold entry_fmt; destruct (value e); rewrite ?length_app; simpl; lia).
  rewrite !length_app. simpl in *. lia.
Qed.

Lemma context_roundtrip_ok es :
  Forall entry_ok es -> distinct es -> context_parse (length (context_fmt es)) (context_fmt es) = Ok es.
Proof.
  intros Hes Hd. unfold context_parse. rewrite skip_id.
  - apply (context_roundtrip_from es _ []); [done|done|by apply context_fmt_length].
  - destruct Hes as [|e es He Hes]; [done|]. destruct (context_fmt_head e es He) as (r & ->).
    apply identifier_no_leading, He.
Qed.

Lemma context_parse_ok s :
  Forall (fun c => context_char c = true) s -> exists ctx, context_parse (length s) s = Ok ctx /\ distinct ctx.
Proof.
  intros Hs. unfold context_parse. apply context_parse_returns.
  - apply skip_while_length.
  - apply skip_no_leading.
  - destruct (skip_suffix is_whitespace s) as (l & El & _). rewrite El in Hs.
    by apply Forall_app in Hs as [_ ?].
  - apply NoDup_nil_2.
Qed.

Lemma context_parse_bad fuel s :
  Exists (fun c => context_char c = false) s -> context_parse fuel s = OutOfFuel.
Proof.
  intros Hs. apply context_parse_diverges. destruct (skip_suffix is_whitespace s) as (l & El & Hl).
  rewrite El in Hs. apply Exists_app in Hs as [Hs|Hs]; [|done]. exfalso.
  apply List.Exists_exists in Hs as (x & Hx & Hxc). rewrite List.Forall_forall in Hl.
  specialize (Hl x Hx). unfold context_char in Hxc. rewrite Hl, orb_true_r in Hxc. done.
Qed.
End ContextRoundTrip.

(** *** The parser of predicates returns *)

Section PredicateParser.
Context `{UnicodeLaws}.

Lemma rbind_Ok {A B} (m : outcome (result A)) (k : A -> outcome (result B)) v :
  rbind m k = Ok v <-> exists r, m = Ok r /\ match r with inl a => k a = Ok v | inr e => v = inr e end.
Proof.
  unfold rbind. destruct m as [[a|e]| |]; cbn [obind].
  - split; [intros Hk; by exists (inl a)|]. by intros (? & [= <-] & Hk).
  - split; [intros [= <-]; by exists (inr e)|]. by intros (? & [= <-] & ->).
  - split; [done|]. by intros (? & ? & _).
  - split; [done|]. by intros (? & ? & _).
Qed.

Lemma find_operator_Some s m op prec k :
  find_operator s m = Some (op, prec, k) -> length (drop (length op) s) < length s /\ m <= prec.
Proof.
  unfold find_operator. intros Hf. apply List.find_some in Hf as [Hin Hs]. cbn beta iota in Hs.
  apply andb_true_iff in Hs as [Hs Hm]. apply Nat.leb_le in Hm. split; [|done].
  assert (Hop : 1 <= length op).
  { repeat (destruct Hin as [[= <- <- <-]|Hin]; [vm_compute; lia|]). destruct Hin. }
  unfold starts_with in Hs. destruct (strip_prefix op s) as [r|] eqn:E; [|done].
  apply strip_prefix_Some in E as ->. rewrite drop_app_length, length_app. lia.
Qed.

Lemma skip_length s : length (skip_whitespace s) <= length s.
Proof. apply skip_while_length. Qed.

(** A result with at most [n] characters left. *)
Definition parses (n : nat) (r : outcome (result (Predicate * str))) : Prop :=
  exists v, r = Ok v /\ match v with inl (_, rest) => length rest <= n | inr _ => True end.

Lemma parses_bind n n' m (k : Predicate * str -> outcome (result (Predicate * str))) :
  parses n m -> (forall p rest, length rest <= n -> parses n' (k (p, rest))) -> parses n' (rbind m k).
Proof.
  intros (v & -> & Hv) Hk. destruct v as [[p rest]|e]; unfold rbind; cbn [obind]; [by apply Hk|].
  by exists (inr e).
Qed.

Lemma parse_returns fuel :
  (forall s m, 2 * length s + 2 <= fuel -> parses (length s - 1) (parse_expr fuel s m)) /\
  (forall p s m, 2 * length s + 1 <= fuel -> parses (length s) (parse_loop fuel p s m)) /\
  (forall s, 2 * length s + 1 <= fuel -> parses (length s - 1) (parse_primary fuel s)).
Proof.
  induction fuel as [|fuel (IHe & IHl & IHp)]; [split; [|split]; intros; lia|]. split; [|split].
  - intros s m Hf. cbn [parse_expr]. eapply parses_bind; [apply IHp; lia|]. cbn beta iota. intros p rest Hr.
    destruct (IHl p rest m ltac:(lia)) as (v & -> & Hv). exists v. split; [done|].
    destruct v as [[? ?]|]; [lia|done].
  - intros p s m Hf. cbn [parse_loop].
    destruct (find_operator s m) as [[[op prec] k]|] eqn:Eo; [|exists (inl (p, s)); by split].
    apply find_operator_Some in Eo as [Hlt _]. pose proof (skip_length (drop (length op) s)).
    eapply parses_bind; [apply IHe; lia|]. cbn beta iota. intros q rest Hr.
    unfold rbind. cbn [obind]. destruct (k p q) as [p'|e]; [|by exists (inr e)].
    destruct (IHl p' rest m ltac:(lia)) as (v & -> & Hv). exists v. split; [done|].
    destruct v as [[? ?]|]; [lia|done].
  - intros [|c s] Hf; [by exists (inr UnexpectedEnd)|]. cbn [parse_primary length] in *.
    pose proof (skip_length s). destruct (c =? ch "(")%N; [|destruct (c =? ch "!")%N].
    + eapply parses_bind; [apply IHe; lia|]. cbn beta iota. intros q rest Hr.
      destruct (strip_prefix (lit ")") rest) as [r|] eqn:E; [|by exists (inr ExpectedParenthesis)].
      apply strip_prefix_Some in E as ->. eexists. split; [reflexivity|].
      pose proof (skip_length r). rewrite length_app in Hr. cbn beta iota. lia.
    + eapply parses_bind; [apply IHe; lia|]. cbn beta iota. intros q rest Hr.
      eexists. split; [reflexivity|]. cbn beta iota. lia.
    + destruct (is_identifier_char c) eqn:Ei; [|destruct (is_vim_operator_char c)].
      * eexists. split; [reflexivity|]. cbn beta iota. cbn [skip_while]. rewrite Ei. simpl.
        set (r := skip_while _ s). pose proof (skip_length r). assert (length r <= length s) by apply skip_while_length. lia.
      * eexists. split; [reflexivity|]. cbn beta iota. lia.
      * by exists (inr (UnexpectedCharacter c)).
Qed.

Lemma predicate_parse_total s : exists r, predicate_parse s = Ok r.
Proof.
  unfold predicate_parse. set (s' := skip_whitespace s).
  destruct (proj1 (parse_returns (parse_fuel s')) s' 0 ltac:(unfold parse_fuel; lia)) as (v & -> & _).
  unfold rbind. cbn [obind]. destruct v as [[p [|c rest]]|e]; eauto.
Qed.

(** More fuel does not change a result. *)
Lemma parse_fuel_step fuel :
  (forall s m v, parse_expr fuel s m = Ok v -> parse_expr (Datatypes.S fuel) s m = Ok v) /\
  (forall p s m v, parse_loop fuel p s m = Ok v -> parse_loop (Datatypes.S fuel) p s m = Ok v) /\
  (forall s v, parse_primary fuel s = Ok v -> parse_primary (Datatypes.S fuel) s = Ok v).
Proof.
  assert (Hbind : forall {A B} (m m' : outcome (result A)) (k k' : A -> outcome (result B)) v,
    (forall r, m = Ok r -> m' = Ok r) -> (forall a v, k a = Ok v -> k' a = Ok v) ->
    rbind m k = Ok v -> rbind m' k' = Ok v).
  { intros A B m m' k k' v Hm Hk. rewrite !rbind_Ok. intros (r & Hr & Hv). exists r. split; [by apply Hm|].
    destruct r; [by apply Hk|done]. }
  induction fuel as [|fuel (IHe & IHl & IHp)]; [by split; [|split]|]. split; [|split].
  - intros s m v. cbn [parse_expr]. apply Hbind; [apply IHp|]. intros [p rest] w. apply IHl.
  - intros p s m v. cbn [parse_loop]. destruct (find_operator s m) as [[[op prec] k]|]; [|done].
    apply Hbind; [intros r; apply IHe|]. intros [q rest] w. apply Hbind; [done|]. intros p' w'. apply IHl.
  - intros [|c s] v; [done|]. cbn [parse_primary]. destruct (c =? ch "(")%N; [|destruct (c =? ch "!")%N; [|done]].
    + apply Hbind; [intros r; apply IHe|]. by intros [q rest] w.
    + apply Hbind; [intros r; apply IHe|]. by intros [q rest] w.
Qed.

Lemma parse_expr_mono f f' s m v : f <= f' -> parse_expr f s m = Ok v -> parse_expr f' s m = Ok v.
Proof. induction 1; [done|]. intros. by apply parse_fuel_step, IHle. Qed.

Lemma parse_loop_mono f f' p s m v : f <= f' -> parse_loop f p s m = Ok v -> parse_loop f' p s m = Ok v.
Proof. induction 1; [done|]. intros. by apply parse_fuel_step, IHle. Qed.

Lemma parse_primary_mono f f' s v : f <= f' -> parse_primary f s = Ok v -> parse_primary f' s = Ok v.
Proof. induction 1; [done|]. intros. by apply parse_fuel_step, IHle. Qed.
End PredicateParser.

(** *** Printing a predicate and parsing it *)

Section PredicateRoundTrip.
Context `{UnicodeLaws}.

Definition name_char (c : char) : bool := is_identifier_char c || is_vim_operator_char c.

(** The identifiers the parser reads as one name. *)
Definition name_ok (n : str) : Prop :=
  match n with c :: _ => is_identifier_char c = true | [] => False end /\
  Forall (fun c => name_char c = true) n.

(** The operand level: the greatest precedence at which the printed form is read whole. *)
Definition level (p : Predicate) : nat :=
  match p with
  | Descendant _ _ => PRECEDENCE_CHILD
  | Equal _ _ | NotEqual _ _ => PRECEDENCE_EQ
  | _ => PRECEDENCE_NOT
  end.

(** The predicates the printer, which writes parentheses only around [And] and [Or],
    prints without ambiguity. *)
Fixpoint printable (p : Predicate) : Prop :=
  match p with
  | Identifier name => name_ok name
  | Equal lhs rhs | NotEqual lhs rhs => name_ok lhs /\ name_ok rhs
  | Descendant parent child => printable parent /\ printable child /\ PRECEDENCE_CHILD < level child
  | Not pred => printable pred /\ level pred = PRECEDENCE_NOT
  | And lhs rhs | Or lhs rhs =>
      (printable lhs /\ PRECEDENCE_EQ <= level lhs) /\ (printable rhs /\ PRECEDENCE_EQ <= level rhs)
  end.

Definition boundary (rest : str) : Prop :=
  match rest with c :: _ => name_char c = false | [] => True end.

Definition stops (m : nat) (s : str) : Prop := find_operator s m = None.

Lemma stops_mono m m' s : m <= m' -> stops m s -> stops m' s.
Proof.
  unfold stops, find_operator. intros Hm. generalize operators. intros l.
  induction l as [|[[op prec] k] l IH]; simpl; [done|]. destruct (starts_with op s); simpl; [|done].
  destruct (Nat.leb_spec m prec), (Nat.leb_spec m' prec); try done; lia.
Qed.

Lemma stops_not s : stops PRECEDENCE_NOT s.
Proof.
  unfold stops, find_operator, operators. cbn [List.find]. cbn [PRECEDENCE_NOT PRECEDENCE_CHILD PRECEDENCE_AND
    PRECEDENCE_OR PRECEDENCE_EQ Nat.leb]. by rewrite !andb_false_r.
Qed.

Lemma stops_paren m s : stops m (lit ")" ++ s).
Proof. reflexivity. Qed.

Lemma stops_child s : stops 2 (lit "> " ++ s).
Proof. reflexivity. Qed.

Lemma stops_nil m : stops m [].
Proof. reflexivity. Qed.

Lemma find_child s m : m <= PRECEDENCE_CHILD -> find_operator (lit "> " ++ s) m = Some (lit ">", PRECEDENCE_CHILD, new_child).
Proof. intros Hm. unfold find_operator, operators. simpl. by rewrite (proj2 (Nat.leb_le m PRECEDENCE_CHILD) Hm). Qed.

Lemma find_and s m : m <= PRECEDENCE_AND -> find_operator (lit "&& " ++ s) m = Some (lit "&&", PRECEDENCE_AND, new_and).
Proof. intros Hm. unfold find_operator, operators. simpl. by rewrite (proj2 (Nat.leb_le m PRECEDENCE_AND) Hm). Qed.

Lemma find_or s m : m <= PRECEDENCE_OR -> find_operator (lit "|| " ++ s) m = Some (lit "||", PRECEDENCE_OR, new_or).
Proof. intros Hm. unfold find_operator, operators. simpl. by rewrite (proj2 (Nat.leb_le m PRECEDENCE_OR) Hm). Qed.

Lemma find_eq s m : m <= PRECEDENCE_EQ -> find_operator (lit "== " ++ s) m = Some (lit "==", PRECEDENCE_EQ, new_eq).
Proof. intros Hm. unfold find_operator, operators. simpl. by rewrite (proj2 (Nat.leb_le m PRECEDENCE_EQ) Hm). Qed.

Lemma find_neq s m : m <= PRECEDENCE_EQ -> find_operator (lit "!= " ++ s) m = Some (lit "!=", PRECEDENCE_EQ, new_neq).
Proof. intros Hm. unfold find_operator, operators. simpl. by rewrite (proj2 (Nat.leb_le m PRECEDENCE_EQ) Hm). Qed.

Lemma skip_space s : no_leading_whitespace s -> skip_whitespace (lit " " ++ s) = s.
Proof.
  intros Hs. unfold skip_whitespace. cbn [lit list_ascii_of_string map app skip_while].
  rewrite ch_whitespace by reflexivity. by apply skip_id.
Qed.

Lemma syntax_no_leading c s : (c < 128)%N -> ascii_whitespace c = false -> no_leading_whitespace (c :: s).
Proof. intros Hc Hw. simpl. by rewrite ch_whitespace. Qed.

Lemma name_no_leading n rest : name_ok n -> no_leading_whitespace (n ++ rest).
Proof. intros [Hn _]. destruct n as [|c n]; [done|]. simpl. by apply identifier_not_whitespace. Qed.

Lemma fmt_no_leading p rest : printable p -> no_leading_whitespace (predicate_fmt p ++ rest).
Proof.
  revert rest. induction p as [n|l r|l r|p1 IH1 p2 _|p IH|p1 _ p2 _|p1 _ p2 _]; simpl; intros rest Hp.
  - by apply name_no_leading.
  - rewrite <- app_assoc. apply name_no_leading, Hp.
  - rewrite <- app_assoc. apply name_no_leading, Hp.
  - rewrite <- app_assoc. apply IH1, Hp.
  - syntax_char.
  - syntax_char.
  - syntax_char.
Qed.

(** A name is read as an identifier. *)
Lemma parse_name n rest :
  name_ok n -> boundary rest -> parse_primary 1 (n ++ rest) = Ok (inl (Identifier n, skip_whitespace rest)).
Proof.
  intros [Hn Hall] Hb. destruct n as [|c n]; [done|]. cbn [app parse_primary].
  assert (Hp : forall d, (d < 128)%N -> ascii_alphanumeric d || (d =? ch "_")%N || (d =? ch "-")%N = false -> (c =? d)%N = false).
  { intros d Hd Ha. apply N.eqb_neq. intros ->. by rewrite ascii_identifier, Ha in Hn. }
  rewrite (Hp (ch "(")) by reflexivity. rewrite (Hp (ch "!")) by reflexivity. rewrite Hn.
  destruct (take_while_app name_char (c :: n) rest Hall Hb) as [Et Es].
  cbn [app] in Et, Es. change (fun c0 => is_identifier_char c0 || is_vim_operator_char c0) with name_char.
  by rewrite Et, Es.
Qed.

(** [p] is parsed whole, and the loop goes on after it. *)
Definition reads (p : Predicate) : Prop :=
  forall rest m v, boundary rest -> m <= level p -> stops (level p + 1) (skip_whitespace rest) ->
  (exists f, parse_loop f p (skip_whitespace rest) m = Ok v) ->
  exists f, parse_expr f (predicate_fmt p ++ rest) m = Ok v.

Definition reads_primary (p : Predicate) : Prop :=
  forall rest, boundary rest ->
  exists f, parse_primary f (predicate_fmt p ++ rest) = Ok (inl (p, skip_whitespace rest)).

Lemma primary_reads p : reads_primary p -> reads p.
Proof.
  intros Hp rest m v Hb _ _ (f & Hf). destruct (Hp rest Hb) as (f' & Hf').
  exists (Datatypes.S (Nat.max f f')). cbn [parse_expr].
  rewrite (parse_primary_mono f' (Nat.max f f') _ _ ltac:(lia) Hf'). unfold rbind. cbn [obind].
  by apply (parse_loop_mono f); [lia|].
Qed.

Lemma loop_stops p s m : stops m s -> parse_loop 1 p s m = Ok (inl (p, s)).
Proof. intros Hs. cbn [parse_loop]. by rewrite Hs. Qed.

(** An operand: it is read whole at its precedence. *)
Lemma reads_operand p rest m :
  reads p -> boundary rest -> m <= level p -> stops m (skip_whitespace rest) ->
  exists f, parse_expr f (predicate_fmt p ++ rest) m = Ok (inl (p, skip_whitespace rest)).
Proof.
  intros Hp Hb Hm Hs. apply Hp; [done|done| |].
  - by apply (stops_mono m); [lia|].
  - exists 1. by apply loop_stops.
Qed.

(** The step of the loop at an operator. *)
Lemma loop_operator p q p' op prec (k : Predicate -> Predicate -> result Predicate) s rest m v :
  find_operator (op ++ lit " " ++ predicate_fmt q ++ s) m = Some (op, prec, k) -> printable q ->
  k p q = inl p' ->
  (exists f, parse_expr f (predicate_fmt q ++ s) (prec + 1) = Ok (inl (q, rest))) ->
  (exists f, parse_loop f p' rest m = Ok v) ->
  exists f, parse_loop f p (op ++ lit " " ++ predicate_fmt q ++ s) m = Ok v.
Proof.
  intros Hop Hq Hk (f1 & Hf1) (f2 & Hf2). exists (Datatypes.S (Nat.max f1 f2)). cbn [parse_loop].
  rewrite Hop, drop_app_length, skip_space by (by apply fmt_no_leading).
  rewrite (parse_expr_mono f1 (Nat.max f1 f2) _ _ _ ltac:(lia) Hf1). unfold rbind. cbn [obind]. rewrite Hk.
  by apply (parse_loop_mono f2); [lia|].
Qed.

Lemma boundary_space s : boundary (lit " " ++ s).
Proof.
  unfold boundary, name_char. cbn [lit list_ascii_of_string map app].
  rewrite ascii_identifier by reflexivity. reflexivity.
Qed.

Lemma boundary_paren s : boundary (lit ")" ++ s).
Proof.
  unfold boundary, name_char. cbn [lit list_ascii_of_string map app].
  rewrite ascii_identifier by reflexivity. reflexivity.
Qed.

(** A comparison. *)
Lemma comparison_reads p op k l r :
  (forall s m, m <= PRECEDENCE_EQ -> find_operator (op ++ lit " " ++ s) m = Some (op, PRECEDENCE_EQ, k)) ->
  predicate_fmt p = l ++ lit " " ++ op ++ lit " " ++ r -> (forall s, no_leading_whitespace (op ++ lit " " ++ s)) ->
  k (Identifier l) (Identifier r) = inl p -> level p = PRECEDENCE_EQ -> name_ok l -> name_ok r -> reads p.
Proof.
  intros Hop Hfmt Hw Hk Hlv Hl Hr rest m v Hb Hm Hs Hloop. rewrite Hlv in Hm.
  assert (Hi : forall n, name_ok n -> reads (Identifier n)).
  { intros n Hn. apply primary_reads. intros rest' Hb'. exists 1. by apply parse_name. }
  rewrite Hfmt, <- !app_assoc. apply (Hi l Hl); [apply boundary_space|simpl; unfold PRECEDENCE_NOT, PRECEDENCE_EQ in *; lia|apply stops_not|].
  rewrite skip_space by done. apply (loop_operator (Identifier l) (Identifier r) p op PRECEDENCE_EQ k rest (skip_whitespace rest));
    [by apply Hop|done|done| |done].
  apply (reads_operand (Identifier r)); [by apply Hi|done|done|apply stops_not].
Qed.

(** A parenthesised pair. *)
Lemma pair_reads p op prec k l r :
  (forall s, find_operator (op ++ lit " " ++ s) 0 = Some (op, prec, k)) -> prec < PRECEDENCE_EQ ->
  predicate_fmt p = lit "(" ++ predicate_fmt l ++ lit " " ++ op ++ lit " " ++ predicate_fmt r ++ lit ")" ->
  (forall s, no_leading_whitespace (op ++ lit " " ++ s)) ->
  k l r = inl p -> printable l -> PRECEDENCE_EQ <= level l -> printable r -> PRECEDENCE_EQ <= level r ->
  reads l -> reads r -> reads_primary p.
Proof.
  intros Hop Hprec Hfmt Hw Hk Hpl Hl Hpr Hr IHl IHr rest Hb.
  assert (Hin : exists f, parse_expr f (predicate_fmt l ++ lit " " ++ op ++ lit " " ++ predicate_fmt r ++ lit ")" ++ rest) 0 =
                          Ok (inl (p, lit ")" ++ rest))).
  { assert (Eskip : skip_whitespace (lit ")" ++ rest) = lit ")" ++ rest) by (apply skip_id; simpl; syntax_char).
    apply IHl; [apply boundary_space|lia| |].
    - apply (stops_mono PRECEDENCE_NOT); [unfold PRECEDENCE_NOT, PRECEDENCE_EQ in *; lia|apply stops_not].
    - rewrite skip_space by done. apply (loop_operator l r p op prec k (lit ")" ++ rest) (lit ")" ++ rest));
        [by apply Hop|done|done| |exists 1; by apply loop_stops].
      destruct (reads_operand r (lit ")" ++ rest) (prec + 1)) as (f & Hf);
        [done|apply boundary_paren|lia|rewrite Eskip; apply stops_paren|].
      rewrite Eskip in Hf. by exists f. }
  destruct Hin as (f & Hf). exists (Datatypes.S f).
  set (inner := predicate_fmt l ++ lit " " ++ op ++ lit " " ++ predicate_fmt r ++ lit ")" ++ rest) in *.
  assert (E : predicate_fmt p ++ rest = ch "(" :: inner) by (rewrite Hfmt, <- !app_assoc; reflexivity).
  rewrite E. cbn [parse_primary]. change (ch "(" =? ch "(")%N with true. cbn iota.
  rewrite (skip_id inner) by (by apply fmt_no_leading). rewrite Hf. reflexivity.
Qed.

Lemma printable_reads p : printable p -> reads p /\ (level p = PRECEDENCE_NOT -> reads_primary p).
Proof.
  induction p as [n|l r|l r|p1 IH1 p2 IH2|p IH|l IHl r IHr|l IHl r IHr]; simpl; intros Hp.
  - assert (Hr : reads_primary (Identifier n)) by (intros rest Hb; exists 1; by apply parse_name).
    split; [by apply primary_reads|done].
  - split; [|done]. destruct Hp as [Hl Hr]. apply (comparison_reads _ (lit "==") new_eq l r); try done.
    + intros s m. apply find_eq.
    + intros s. apply syntax_no_leading; reflexivity.
  - split; [|done]. destruct Hp as [Hl Hr]. apply (comparison_reads _ (lit "!=") new_neq l r); try done.
    + intros s m. apply find_neq.
    + intros s. apply syntax_no_leading; reflexivity.
  - split; [|done]. destruct Hp as (Hp1 & Hp2 & Hlv). intros rest m v Hb Hm Hs Hloop. simpl in Hm, Hs.
    cbn [predicate_fmt]. rewrite <- !app_assoc. change (lit " > ") with (lit " " ++ lit "> ").
    rewrite <- app_assoc. assert (1 <= level p1) by (destruct p1; simpl; unfold PRECEDENCE_EQ, PRECEDENCE_NOT, PRECEDENCE_CHILD; lia).
    assert (Hw : forall s, no_leading_whitespace (lit "> " ++ s)) by (intros s; apply syntax_no_leading; reflexivity).
    apply (proj1 (IH1 Hp1)); [apply boundary_space|unfold PRECEDENCE_CHILD in *; lia| |].
    + rewrite skip_space by done. apply (stops_mono 2); [lia|apply stops_child].
    + rewrite skip_space by done.
      apply (loop_operator p1 p2 (Descendant p1 p2) (lit ">") PRECEDENCE_CHILD new_child rest (skip_whitespace rest));
        [by apply find_child|done|done| |done].
      apply reads_operand; [by apply IH2|done|unfold PRECEDENCE_CHILD in *; lia|done].
  - destruct Hp as [Hp Hlv]. assert (Hr : reads_primary (Not p)); [|split; [by apply primary_reads|done]].
    intros rest Hb. destruct (reads_operand p rest PRECEDENCE_NOT) as (f & Hf);
      [by apply IH|done|by rewrite Hlv|apply stops_not|].
    exists (Datatypes.S f). cbn [predicate_fmt lit list_ascii_of_string map app parse_primary].
    change (N_of_ascii "!" =? ch "(")%N with false. change (N_of_ascii "!" =? ch "!")%N with true. cbn iota.
    rewrite skip_id by (by apply fmt_no_leading). rewrite Hf. reflexivity.
  - destruct Hp as [[Hpl Hl] [Hpr Hr]].
    assert (Hrp : reads_primary (And l r)); [|split; [by apply primary_reads|done]].
    apply (pair_reads _ (lit "&&") PRECEDENCE_AND new_and l r); try done; try (by apply IHl || by apply IHr).
    + unfold PRECEDENCE_AND, PRECEDENCE_EQ. lia.
    + intros s. apply syntax_no_leading; reflexivity.
  - destruct Hp as [[Hpl Hl] [Hpr Hr]].
    assert (Hrp : reads_primary (Or l r)); [|split; [by apply primary_reads|done]].
    apply (pair_reads _ (lit "||") PRECEDENCE_OR new_or l r); try done; try (by apply IHl || by apply IHr).
    + unfold PRECEDENCE_OR, PRECEDENCE_EQ. lia.
    + intros s. apply syntax_no_leading; reflexivity.
Qed.

Lemma predicate_roundtrip_ok p : printable p -> predicate_parse (predicate_fmt p) = Ok (inl p).
Proof.
  intros Hp. destruct (reads_operand p [] 0) as (f & Hf); [by apply printable_reads|done|lia|done|].
  rewrite app_nil_r in Hf. change (skip_whitespace []) with (@nil char) in Hf.
  unfold predicate_parse. pose proof (fmt_no_leading p [] Hp) as Hw. rewrite app_nil_r in Hw. rewrite (skip_id _ Hw).
  set (s := predicate_fmt p) in *.
  destruct (proj1 (parse_returns (parse_fuel s)) s 0 ltac:(unfold parse_fuel; lia)) as (v & Hv & _).
  assert (E : v = inl (p, [])).
  { apply (parse_expr_mono _ (Nat.max f (parse_fuel s))) in Hf, Hv; [congruence|lia|lia]. }
  rewrite Hv, E. reflexivity.
Qed.
End PredicateRoundTrip.

(** ** Evaluation *)

Lemma find_seq (f : nat -> bool) n k :
  k < n -> f k = true -> exists j, List.find f (seq 0 n) = Some j /\ j <= k /\ f j = true.
Proof.
  intros Hk Hf. cut (forall a, a <= k -> k < a + n -> exists j, List.find f (seq a n) = Some j /\ j <= k /\ f j = true).
  { intros Hc. apply Hc; lia. }
  clear Hk. induction n as [|n IH]; intros a Ha Hn; [lia|]. simpl. destruct (f a) eqn:E; [by exists a|].
  apply IH; [|lia]. assert (a <> k) by congruence. lia.
Qed.

Lemma find_rev_seq (f : nat -> bool) n d :
  List.find f (rev (seq 0 n)) = Some d <->
  d < n /\ f d = true /\ forall d', d < d' < n -> f d' = false.
Proof.
  induction n as [|n IH]; [simpl; split; [done|lia]|].
  rewrite seq_S, rev_app_distr. simpl. destruct (f n) eqn:E.
  - split; [intros [= <-]; split; [lia|split; [done|lia]]|]. intros (Hd & Hf & Hmax).
    destruct (Nat.eq_dec d n) as [->|]; [done|]. rewrite Hmax in E; [done|lia].
  - rewrite IH. split; intros (Hd & Hf & Hmax).
    + split; [lia|]. split; [done|]. intros d' Hd'. destruct (Nat.eq_dec d' n) as [->|]; [done|apply Hmax; lia].
    + assert (d <> n) by congruence. split; [lia|]. split; [done|]. intros d' Hd'. apply Hmax. lia.
Qed.

(** The greatest depth. *)
Lemma depth_of_ok p contexts d :
  depth_of p contexts = Some d <->
  d <= length contexts /\ eval_inner p (take d contexts) contexts = true /\
  forall d', d < d' <= length contexts -> eval_inner p (take d' contexts) contexts = false.
Proof.
  unfold depth_of. rewrite find_rev_seq. split; intros (Hd & Hf & Hmax); (split; [lia|split; [done|]]);
    intros d' Hd'; apply Hmax; lia.
Qed.

Lemma depth_of_at_least p contexts d :
  d <= length contexts -> eval_inner p (take d contexts) contexts = true ->
  exists d', d <= d' /\ depth_of p contexts = Some d'.
Proof.
  intros Hd He. unfold depth_of. destruct (List.find _ _) as [d'|] eqn:E.
  - exists d'. split; [|done]. apply find_rev_seq in E as (_ & _ & Hmax).
    destruct (Nat.le_gt_cases d d') as [|Hlt]; [done|]. rewrite Hmax in He; [done|lia].
  - exfalso. assert (Hn : eval_inner p (take d contexts) contexts = false); [|congruence].
    apply (List.find_none _ _ E d). rewrite <- in_rev. apply in_seq. lia.
Qed.

(** No [Not]: the predicates that depend on the contexts at or below a point only. *)
Fixpoint not_free (p : Predicate) : Prop :=
  match p with
  | Not _ => False
  | Descendant p q | And p q | Or p q => not_free p /\ not_free q
  | _ => True
  end.

Lemma find_ext {A} (f g : A -> bool) l : (forall x, f x = g x) -> List.find f l = List.find g l.
Proof. intros He. induction l as [|x l IH]; simpl; [done|]. by rewrite He, IH. Qed.

Lemma eval_all p : not_free p -> forall contexts all all', eval_inner p contexts all = eval_inner p contexts all'.
Proof.
  induction p as [n|l r|l r|p IHp q IHq|p _|p IHp q IHq|p IHp q IHq]; simpl; intros Hn contexts all all'; try done;
    destruct (list.last contexts); try done; destruct Hn as [Hp Hq].
  - rewrite (find_ext _ (fun i => eval_inner p (take (i + 1) contexts) all')) by (intros i; by apply IHp). done.
  - by rewrite (IHp Hp _ all all'), (IHq Hq _ all all').
  - by rewrite (IHp Hp _ all all'), (IHq Hq _ all all').
Qed.

Lemma last_app_some {A} (l1 l2 : list A) x : list.last l2 = Some x -> list.last (l1 ++ l2) = Some x.
Proof. intros Hl. by rewrite last_app, Hl. Qed.

(** Such a predicate still holds when contexts are added at the root. *)
Lemma eval_mono p : not_free p -> forall pre contexts all all',
  eval_inner p contexts all = true -> eval_inner p (pre ++ contexts) all' = true.
Proof.
  induction p as [n|l r|l r|p IHp q IHq|p _|p IHp q IHq|p IHp q IHq]; simpl; intros Hn pre contexts all all' He;
    try done; destruct (list.last contexts) as [c|] eqn:El; try done; rewrite (last_app_some _ _ _ El); try done.
  - destruct Hn as [Hp Hq].
    destruct (List.find _ (seq 0 (length contexts - 1))) as [i|] eqn:Ei; [|done].
    apply List.find_some in Ei as [Hi Hpi]. apply in_seq in Hi.
    assert (Htake : take (length pre + i + 1) (pre ++ contexts) = pre ++ take (i + 1) contexts).
    { rewrite take_app, take_ge by lia. do 2 f_equal. lia. }
    destruct (find_seq (fun i => eval_inner p (take (i + 1) (pre ++ contexts)) all') (length (pre ++ contexts) - 1)
                (length pre + i)) as (j & -> & Hj & _).
    { rewrite length_app. lia. }
    { rewrite Htake. by apply (IHp Hp _ _ all). }
    assert (Hdrop : exists pre', drop (j + 1) (pre ++ contexts) = pre' ++ drop (i + 1) contexts).
    { exists (take (length pre + i - j) (drop (j + 1) (pre ++ contexts))).
      rewrite <- (take_drop (length pre + i - j) (drop (j + 1) (pre ++ contexts))) at 1. f_equal.
      rewrite drop_drop. replace (j + 1 + (length pre + i - j)) with (length pre + (i + 1)) by lia.
      by rewrite drop_app_add. }
    destruct Hdrop as (pre' & ->). by apply (IHq Hq _ _ (drop (i + 1) contexts)).
  - destruct Hn as [Hp Hq]. apply andb_true_iff in He as [H1 H2].
    by rewrite (IHp Hp pre _ _ all' H1), (IHq Hq pre _ _ all' H2).
  - destruct Hn as [Hp Hq]. apply orb_true_iff in He as [H1|H1].
    + by rewrite (IHp Hp pre _ _ all' H1).
    + by rewrite (IHq Hq pre _ _ all' H1), orb_true_r.
Qed.

Lemma is_superset_unfold p other :
  is_superset p other =
  if bool_decide (p = other) then true
  else
    match p with
    | Or lhs rhs => is_superset lhs other || is_superset rhs other
    | _ =>
        match other with
        | Descendant _ child => is_superset p child
        | And lhs rhs => is_superset p lhs || is_superset p rhs
        | _ => false
        end
    end.
Proof. destruct p, other; reflexivity. Qed.

(** Soundness of [is_superset] without [Not]. *)
Definition sound (p : Predicate) : Prop :=
  forall q contexts all all', is_superset p q = true -> eval_inner q contexts all = true ->
  eval_inner p contexts all' = true.

Lemma or_sound l r : not_free (Or l r) -> sound l -> sound r -> sound (Or l r).
Proof.
  intros Hn Hl Hr q contexts all all'. rewrite is_superset_unfold.
  case_bool_decide as Eq; [subst q; by rewrite (eval_all _ Hn contexts all all')|].
  intros Hs%orb_true_iff He. simpl. destruct (list.last contexts) eqn:El.
  - destruct Hs as [Hs|Hs]; [by rewrite (Hl _ _ _ all' Hs He)|by rewrite (Hr _ _ _ all' Hs He), orb_true_r].
  - destruct q; simpl in He; rewrite El in He; done.
Qed.

Lemma other_sound p : not_free p -> (forall l r, p <> Or l r) -> sound p.
Proof.
  intros Hn Hor.
  assert (Hunf : forall q, is_superset p q = if bool_decide (p = q) then true else
    match q with
    | Descendant _ child => is_superset p child
    | And lhs rhs => is_superset p lhs || is_superset p rhs
    | _ => false
    end).
  { intros q. rewrite is_superset_unfold. destruct p; try done. by edestruct Hor. }
  intros q. induction q as [n|l r|l r|q1 _ q2 IH|q _|q1 IH1 q2 IH2|q1 _ q2 _]; intros contexts all all'; rewrite Hunf;
    (case_bool_decide as Eq; [subst p; by rewrite (eval_all _ Hn contexts all all')|]); try done.
  - intros Hs He. simpl in He. destruct (list.last contexts) eqn:El; [|done].
    destruct (List.find _ _) as [i|] eqn:Ei; [|done].
    rewrite <- (take_drop (i + 1) contexts).
    exact (eval_mono p Hn _ _ _ _ (IH _ _ [] Hs He)).
  - intros Hs%orb_true_iff He. simpl in He. destruct (list.last contexts); [|done].
    apply andb_true_iff in He as [He1 He2]. destruct Hs as [Hs|Hs]; [by apply (IH1 _ all)|by apply (IH2 _ all)].
Qed.

Lemma superset_sound_ok p : not_free p -> sound p.
Proof.
  induction p as [n|l r|l r|p1 _ p2 _|p _|p1 _ p2 _|p1 IH1 p2 IH2]; intros Hn; try by apply other_sound.
  destruct Hn as [H1 H2]. by apply or_sound; [|apply IH1|apply IH2].
Qed.

(** With [Not], [is_superset] is not sound: [!Workspace] is deemed a superset of
    [Workspace > !Workspace], which matches a stack that [!Workspace] does not. *)
Example superset_not_unsound :
  let w := Identifier (lit "Workspace") in
  let stack := [[mkEntry (lit "Workspace") None]; [mkEntry (lit "Editor") None]] in
  is_superset (Not w) (Descendant w (Not w)) = true /\
  eval (Descendant w (Not w)) stack = true /\ eval (Not w) stack = false.
Proof. vm_compute. done. Qed.

(** The printer writes no parentheses under [!], so that a negated comparison is
    printed as a text the parser rejects. *)
Example fmt_not_equal :
  let p := Not (Equal (lit "mode") (lit "full")) in
  predicate_fmt p = lit "!mode == full" /\
  predicate_parse (H := ascii_unicode) (predicate_fmt p) = Ok (inr (OperandsMustBeIdentifiers (lit "=="))).
Proof. vm_compute. done. Qed.

(** ** The properties *)

Section Properties.
Context `{UnicodeLaws}.

(** C14: [KeyContext::parse] returns on a source exactly if it is made of identifier
    characters, white space and [=]: then one recursive call per character is enough,
    and the context it returns has distinct keys; on a source with any other character
    the recursion never ends.  A context of distinct keys whose keys and values are
    identifiers is read back from its [Debug] text. *)
Theorem context_parse_correct :
  (forall s, (exists fuel ctx, context_parse fuel s = Ok ctx) <-> Forall (fun c => context_char c = true) s) /\
  (forall s, Forall (fun c => context_char c = true) s ->
     exists ctx, context_parse (length s) s = Ok ctx /\ distinct ctx) /\
  (forall s, ~ Forall (fun c => context_char c = true) s -> forall fuel, context_parse fuel s = OutOfFuel) /\
  (forall ctx, Forall entry_ok ctx -> distinct ctx ->
     context_parse (length (context_fmt ctx)) (context_fmt ctx) = Ok ctx).
Proof.
  assert (Hbad : forall s, ~ Forall (fun c => context_char c = true) s -> Exists (fun c => context_char c = false) s).
  { intros s. induction s as [|c s IH]; intros Hn; [destruct Hn; constructor|]. destruct (context_char c) eqn:E.
    - apply Exists_cons_tl, IH. intros Hs. apply Hn. by constructor.
    - by apply Exists_cons_hd. }
  split; [|split; [|split]].
  - intros s. split.
    + intros (fuel & ctx & Hp). destruct (decide (Forall (fun c => context_char c = true) s)) as [|Hn]; [done|].
      by rewrite (context_parse_bad fuel s (Hbad s Hn)) in Hp.
    + intros Hs. destruct (context_parse_ok s Hs) as (ctx & ? & _). eauto.
  - apply context_parse_ok.
  - intros s Hn fuel. by apply context_parse_bad, Hbad.
  - apply context_roundtrip_ok.
Qed.

(** C15: [KeyBindingContextPredicate::parse] returns on every source, a predicate or an
    error; and it reads a predicate back from its [Display] text when names are
    identifiers, the operand of a negation is not a comparison or a [>], and an operand
    of [&&] or [||], or the right one of [>], is not a [>]. *)
Theorem predicate_parse_correct :
  (forall s, exists r, predicate_parse s = Ok r) /\
  (forall p, printable p -> predicate_parse (predicate_fmt p) = Ok (inl p)).
Proof. split; [apply predicate_parse_total|apply predicate_roundtrip_ok]. Qed.
End Properties.

(** Where predicates match.  [depth_of] is the greatest depth at which a predicate
    matches a prefix of the stack; and if [is_superset] accepts a predicate without
    negation for another one, it matches every stack the other matches, no less deep. *)
Theorem superset_correct p q contexts :
  not_free p -> is_superset p q = true ->
  (eval q contexts = true -> eval p contexts = true) /\
  (forall d, depth_of q contexts = Some d ->
     d <= length contexts /\ eval_inner q (take d contexts) contexts = true /\
     exists d', d <= d' /\ depth_of p contexts = Some d').
Proof.
  intros Hn Hs. split; [by apply superset_sound_ok|]. intros d Hd.
  apply depth_of_ok in Hd as (Hd & He & _). split; [done|]. split; [done|].
  apply depth_of_at_least; [done|]. by apply (superset_sound_ok p Hn q _ contexts).
Qed.

(** *** The witnesses *)

Lemma context_parse_correct_witness :
  exists ctx, context_parse (H := ascii_unicode) 9 (lit "a = b=c d") = Ok ctx /\ distinct ctx.
Proof.
  apply (proj1 (proj2 (context_parse_correct (H0 := ascii_unicode_laws))) (lit "a = b=c d")).
  repeat constructor.
Defined.

Lemma predicate_parse_correct_witness :
  predicate_parse (H := ascii_unicode) (lit "(a == b && !c) > d") =
  Ok (inl (Descendant (And (Equal (lit "a") (lit "b")) (Not (Identifier (lit "c")))) (Identifier (lit "d")))).
Proof.
  apply (proj2 (predicate_parse_correct (H0 := ascii_unicode_laws))
    (Descendant (And (Equal (lit "a") (lit "b")) (Not (Identifier (lit "c")))) (Identifier (lit "d")))).
  simpl. unfold name_ok, PRECEDENCE_CHILD, PRECEDENCE_EQ, PRECEDENCE_NOT. simpl.
  repeat split; try lia; repeat constructor.
Defined.

Lemma superset_correct_witness :
  let pane := Identifier (lit "Pane") in
  let q := Descendant (Identifier (lit "Workspace")) (And pane (Equal (lit "mode") (lit "full"))) in
  let stack := [[mkEntry (lit "Workspace") None]; [mkEntry (lit "Pane") None; mkEntry (lit "mode") (Some (lit "full"))]] in
  depth_of q stack = Some 2 /\ eval pane stack = true.
Proof.
  intros pane q stack. split; [reflexivity|].
  apply (superset_correct pane q stack); [done|reflexivity|reflexivity].
Defined.
