(* ===== verification/Keystroke.v ===== *)
(** * Keystrokes: [crates/gpui/src/platform/keystroke.rs]

    The modifiers, the keystrokes the platform reports and those of key bindings,
    the matching of the ones with the others, and their textual syntax.  What the
    code selects with [cfg] at compile time is a parameter [os]. *)

From Stdlib Require Import NArith String Ascii.
From stdpp Require Import base list option numbers.
From S2P Require Import Prelude Text.

#[local] Set Warnings "-register-all,-clear-no-such-hyp".

(** ** [Modifiers] *)

Record Modifiers := mkModifiers {
  control : bool;
  alt : bool;
  shift : bool;
  platform : bool;
  function : bool;
}.

#[export] Instance modifiers_eq_dec : EqDecision Modifiers.
Proof. solve_decision. Defined.

Definition modifiers_none : Modifiers := mkModifiers false false false false false.

Definition modified (m : Modifiers) : bool := control m || alt m || shift m || platform m || function m.

Definition secondary (os : Os) (m : Modifiers) : bool :=
  match os with MacOs => platform m | _ => control m end.

Definition number_of_modifiers (m : Modifiers) : N :=
  (N.b2n (control m) + N.b2n (alt m) + N.b2n (shift m) + N.b2n (platform m) + N.b2n (function m))%N.

Definition secondary_key (os : Os) : Modifiers :=
  match os with
  | MacOs => mkModifiers false false false true false
  | _ => mkModifiers true false false false false
  end.

(** The operators [|], [^] and [&]. *)
Definition bitor_assign (m other : Modifiers) : Modifiers :=
  mkModifiers (control m || control other) (alt m || alt other) (shift m || shift other)
    (platform m || platform other) (function m || function other).

Definition bitxor_assign (m other : Modifiers) : Modifiers :=
  mkModifiers (xorb (control m) (control other)) (xorb (alt m) (alt other)) (xorb (shift m) (shift other))
    (xorb (platform m) (platform other)) (xorb (function m) (function other)).

Definition bitand_assign (m other : Modifiers) : Modifiers :=
  mkModifiers (control m && control other) (alt m && alt other) (shift m && shift other)
    (platform m && platform other) (function m && function other).

Definition is_subset_of (m other : Modifiers) : bool := bool_decide (bitand_assign other m = m).

(** ** [Keystroke] *)

Record Keystroke := mkKeystroke {
  modifiers : Modifiers;
  key : str;
  key_char : option str;
}.

#[export] Instance keystroke_eq_dec : EqDecision Keystroke.
Proof. solve_decision. Defined.

(** The modifiers and the key to display are fields on Windows only. *)
Record KeybindingKeystroke := mkBindingKeystroke {
  inner : Keystroke;
  display : option (Modifiers * str);
}.

#[export] Instance binding_keystroke_eq_dec : EqDecision KeybindingKeystroke.
Proof. solve_decision. Defined.

Definition with_control (m : Modifiers) (b : bool) := mkModifiers b (alt m) (shift m) (platform m) (function m).
Definition with_alt (m : Modifiers) (b : bool) := mkModifiers (control m) b (shift m) (platform m) (function m).
Definition with_shift (m : Modifiers) (b : bool) := mkModifiers (control m) (alt m) b (platform m) (function m).
Definition with_platform (m : Modifiers) (b : bool) := mkModifiers (control m) (alt m) (shift m) b (function m).
Definition with_function (m : Modifiers) (b : bool) := mkModifiers (control m) (alt m) (shift m) (platform m) b.

(** [should_match]: the keystroke was typed, the target is in the keymap. *)
Definition should_match (os : Os) (typed : Keystroke) (target : KeybindingKeystroke) : bool :=
  match List.filter (fun c => negb (str_eqb c (key typed))) (opt_list (key_char typed)) with
  | [c] =>
      let ime_modifiers :=
        match os with
        | Windows => modifiers_none
        | _ => mkModifiers (control (modifiers typed)) false false (platform (modifiers typed)) false
        end in
      str_eqb (key (inner target)) c && bool_decide (modifiers (inner target) = ime_modifiers)
  | _ => false
  end
  || (bool_decide (modifiers (inner target) = modifiers typed) && str_eqb (key (inner target)) (key typed)).

(** The modifier a component of the syntax names, if any. *)
Definition modifier_component (os : Os) (component : str) (m : Modifiers) : option Modifiers :=
  if eq_ignore_ascii_case component (lit "ctrl") then Some (with_control m true)
  else if eq_ignore_ascii_case component (lit "alt") then Some (with_alt m true)
  else if eq_ignore_ascii_case component (lit "shift") then Some (with_shift m true)
  else if eq_ignore_ascii_case component (lit "fn") then Some (with_function m true)
  else if eq_ignore_ascii_case component (lit "secondary") then
    match os with
    | MacOs => Some (with_platform m true)
    | _ => Some (with_control m true)
    end
  else if eq_ignore_ascii_case component (lit "cmd") || eq_ignore_ascii_case component (lit "super")
          || eq_ignore_ascii_case component (lit "win") then Some (with_platform m true)
  else None.

(** The loop of [parse] over the components; [None] is the error. *)
Fixpoint parse_components (os : Os) (source : str) (components : list str) (m : Modifiers)
    (key key_char : option str) : option (Modifiers * option str * option str) :=
  match components with
  | [] => Some (m, key, key_char)
  | component :: components =>
      match modifier_component os component m with
      | Some m => parse_components os source components m key key_char
      | None =>
          match components with
          | next :: components =>
              if bool_decide (next = []) && ends_with_char (ch "-") source then
                Some (m, Some (lit "-"), key_char)
              else if (1 <? length next) && starts_with (lit ">") next then
                parse_components os source components m (Some component) (Some (drop 1 next))
              else None
          | [] =>
              if (length component =? 1) && forallb ascii_upper component then
                Some (with_shift m true, Some (make_ascii_lowercase component), key_char)
              else Some (m, Some (make_ascii_lowercase component), key_char)
          end
      end
  end.

(** A modifier as the key itself. *)
Definition modifier_key (m : Modifiers) : Modifiers * option str :=
  if shift m then (with_shift m false, Some (lit "shift"))
  else if control m then (with_control m false, Some (lit "control"))
  else if alt m then (with_alt m false, Some (lit "alt"))
  else if platform m then (with_platform m false, Some (lit "platform"))
  else if function m then (with_function m false, Some (lit "function"))
  else (m, None).

(** [None] is [InvalidKeystrokeError]. *)
Definition parse (os : Os) (source : str) : option Keystroke :=
  match parse_components os source (split (ch "-") source) modifiers_none None None with
  | None => None
  | Some (m, key, key_char) =>
      let '(m, key) := match key with Some k => (m, Some k) | None => modifier_key m end in
      match key with
      | Some key => Some (mkKeystroke m key key_char)
      | None => None
      end
  end.

(** The function [unparse] and the methods of that name. *)
Definition unparse_parts (os : Os) (m : Modifiers) (key : str) : str :=
  (if function m then lit "fn-" else []) ++
  (if control m then lit "ctrl-" else []) ++
  (if alt m then lit "alt-" else []) ++
  (if platform m then
     match os with
     | MacOs => lit "cmd-"
     | Linux => lit "super-"
     | Windows => lit "win-"
     | OtherOs => []
     end
   else []) ++
  (if shift m then lit "shift-" else []) ++ key.

Definition unparse (os : Os) (k : Keystroke) : str := unparse_parts os (modifiers k) (key k).

Definition is_printable_key (key : str) : bool :=
  negb (existsb (fun name => str_eqb key (lit name))
    ["f1"; "f2"; "f3"; "f4"; "f5"; "f6"; "f7"; "f8"; "f9"; "f10"; "f11"; "f12"; "f13"; "f14"; "f15"; "f16";
     "f17"; "f18"; "f19"; "f20"; "f21"; "f22"; "f23"; "f24"; "f25"; "f26"; "f27"; "f28"; "f29"; "f30"; "f31";
     "f32"; "f33"; "f34"; "f35"; "backspace"; "delete"; "left"; "right"; "up"; "down"; "pageup"; "pagedown";
     "insert"; "home"; "end"; "back"; "forward"; "escape"]%string).

Definition is_ime_in_progress (k : Keystroke) : bool :=
  match key_char k with Some _ => false | None => true end &&
  (is_printable_key (key k) || bool_decide (key k = [])) &&
  negb (platform (modifiers k) || control (modifiers k) || function (modifiers k) || alt (modifiers k)).

Section Ime.
(** [str::to_uppercase] *)
Variable to_uppercase : str -> str.

Definition with_simulated_ime (k : Keystroke) : Keystroke :=
  if match key_char k with Some _ => false | None => true end && negb (platform (modifiers k))
     && negb (control (modifiers k)) && negb (function (modifiers k)) && negb (alt (modifiers k)) then
    let c :=
      if str_eqb (key k) (lit "space") then Some (lit " ")
      else if str_eqb (key k) (lit "tab") then Some [9%N]
      else if str_eqb (key k) (lit "enter") then Some [10%N]
      else if negb (is_printable_key (key k)) || bool_decide (key k = []) then None
      else if shift (modifiers k) then Some (to_uppercase (key k))
      else Some (key k) in
    mkKeystroke (modifiers k) (key k) c
  else k.
End Ime.

(** ** [KeybindingKeystroke] *)

Definition from_keystroke (os : Os) (k : Keystroke) : KeybindingKeystroke :=
  match os with
  | Windows => mkBindingKeystroke k (Some (modifiers k, key k))
  | _ => mkBindingKeystroke k None
  end.

Definition binding_modifiers (b : KeybindingKeystroke) : Modifiers :=
  match display b with Some (m, _) => m | None => modifiers (inner b) end.

Definition binding_key (b : KeybindingKeystroke) : str :=
  match display b with Some (_, k) => k | None => key (inner b) end.

Definition set_modifiers (b : KeybindingKeystroke) (m : Modifiers) : KeybindingKeystroke :=
  mkBindingKeystroke (mkKeystroke m (key (inner b)) (key_char (inner b)))
    (match display b with Some (_, k) => Some (m, k) | None => None end).

Definition set_key (b : KeybindingKeystroke) (k : str) : KeybindingKeystroke :=
  mkBindingKeystroke (mkKeystroke (modifiers (inner b)) k (key_char (inner b)))
    (match display b with Some (m, _) => Some (m, k) | None => None end).

Definition binding_unparse (os : Os) (b : KeybindingKeystroke) : str :=
  unparse_parts os (binding_modifiers b) (binding_key b).

Definition remove_key_char (b : KeybindingKeystroke) : KeybindingKeystroke :=
  mkBindingKeystroke (mkKeystroke (modifiers (inner b)) (key (inner b)) None) (display b).

(** ** [Display] *)

(** The numbers are the scalar values of the symbols. *)
Definition display_modifiers (os : Os) (m : Modifiers) : str :=
  (if control m then match os with MacOs => lit "^" | _ => lit "ctrl-" end else []) ++
  (if alt m then match os with MacOs => [8997%N] | _ => lit "alt-" end else []) ++
  (if platform m then
     match os with
     | MacOs => [8984%N]
     | Linux => [10070%N]
     | Windows => [8862%N]
     | OtherOs => []
     end
   else []) ++
  (if shift m then match os with MacOs => [8679%N] | _ => lit "shift-" end else []).

Definition mac_symbols : list (str * char) :=
  [(lit "backspace", 9003%N); (lit "up", 8593%N); (lit "down", 8595%N); (lit "left", 8592%N);
   (lit "right", 8594%N); (lit "tab", 8677%N); (lit "escape", 9099%N); (lit "shift", 8679%N);
   (lit "control", 8963%N); (lit "alt", 8997%N); (lit "platform", 8984%N)].

Definition display_key (os : Os) (key : str) : str :=
  match os, List.find (fun p => str_eqb key p.1) mac_symbols with
  | MacOs, Some (_, c) => [c]
  | _, _ => match key with [c] => [to_ascii_uppercase c] | _ => key end
  end.

Definition keystroke_fmt (os : Os) (k : Keystroke) : str := display_modifiers os (modifiers k) ++ display_key os (key k).

Definition binding_keystroke_fmt (os : Os) (b : KeybindingKeystroke) : str :=
  display_modifiers os (binding_modifiers b) ++ display_key os (binding_key b).

Example parse_example :
  parse Linux (lit "secondary-shift--") = Some (mkKeystroke (mkModifiers true false true false false) (lit "-") None) /\
  parse MacOs (lit "Cmd-S") = Some (mkKeystroke (mkModifiers false false true true false) (lit "s") None) /\
  parse Linux (lit "alt-s->x") = Some (mkKeystroke (mkModifiers false true false false false) (lit "s") (Some (lit "x"))) /\
  parse Linux (lit "ctrl-alt") = Some (mkKeystroke (mkModifiers false true false false false) (lit "control") None) /\
  parse Linux (lit "a-b") = None.
Proof. vm_compute. done. Qed.

(** ** Printing and parsing *)

(** The keys the parser returns for a keystroke without [key_char]: the separator, a
    lower-case name that is no modifier, or a modifier that nothing before it in the
    order of [modifier_key] accompanies. *)
Definition plain_key (os : Os) (key : str) : Prop :=
  Forall (fun c => c <> ch "-") key /\ make_ascii_lowercase key = key /\
  modifier_component os key modifiers_none = None.

Definition canonical (os : Os) (m : Modifiers) (key : str) : Prop :=
  key = lit "-" \/ plain_key os key \/ (key = lit "shift" /\ shift m = false) \/
  (key = lit "alt" /\ alt m = false /\ control m = false /\ shift m = false).

(** Whether a component names a modifier depends on its lower-case form only. *)
Lemma modifier_component_lower os c m :
  modifier_component os (make_ascii_lowercase c) m = modifier_component os c m.
Proof. unfold modifier_component, eq_ignore_ascii_case. by rewrite !make_ascii_lowercase_idem. Qed.

Lemma modifier_component_none os c m m' : modifier_component os c m = None -> modifier_component os c m' = None.
Proof. unfold modifier_component. repeat case_match; done. Qed.

Lemma lower_dash c : (to_ascii_lowercase c = ch "-") -> c = ch "-".
Proof.
  unfold to_ascii_lowercase. destruct (ascii_upper c) eqn:E; [|done].
  unfold ascii_upper in E. rewrite andb_true_iff, !N.leb_le in E. change (ch "-") with 45%N. lia.
Qed.

Lemma plain_key_lower os c m :
  Forall (fun d => d <> ch "-") c -> modifier_component os c m = None -> plain_key os (make_ascii_lowercase c).
Proof.
  intros Hc Hm. split; [|split].
  - unfold make_ascii_lowercase. apply List.Forall_map. eapply Forall_weaken; [|exact Hc].
    cbn beta. intros d Hd He. by apply Hd, lower_dash.
  - apply make_ascii_lowercase_idem.
  - rewrite modifier_component_lower. by eapply modifier_component_none.
Qed.

(** At least one modifier is set by a component. *)
Lemma modifier_component_modified os c m m' : modifier_component os c m = Some m' -> modified m' = true.
Proof.
  unfold modifier_component, modified.
  repeat case_match; intros [= <-]; simpl; rewrite ?orb_true_r; done.
Qed.

Lemma modifier_component_keeps os c m m' :
  modifier_component os c m = Some m' -> modified m = true -> modified m' = true.
Proof. intros Hm _. by eapply modifier_component_modified. Qed.

(** A [key_char] stays. *)
Lemma parse_components_char os source n : forall comps m k c m' k' c',
  length comps <= n -> parse_components os source comps m k (Some c) = Some (m', k', c') -> c' <> None.
Proof.
  induction n as [|n IH]; intros [|x comps] m k c m' k' c' Hn Hp; simpl in Hn, Hp;
    try lia; try (by injection Hp as <- <- <-).
  destruct (modifier_component os x m) as [m1|]; [by apply (IH comps m1 k c m' k'); [lia|]|].
  destruct comps as [|next comps]; [by destruct (_ && _); injection Hp as <- <- <-|].
  destruct (bool_decide (next = []) && _); [by injection Hp as <- <- <-|].
  destruct (_ && _); [|done]. eapply (IH comps); [simpl in Hn; lia|exact Hp].
Qed.

(** The loop, when it ends without a [key_char]. *)
Lemma parse_components_ok os source comps : forall m k m' k',
  parse_components os source comps m k None = Some (m', k', None) ->
  Forall (Forall (fun d => d <> ch "-")) comps ->
  match k' with
  | Some key => k = Some key \/ key = lit "-" \/ plain_key os key
  | None => comps <> [] \/ modified m = true -> modified m' = true
  end.
Proof.
  induction comps as [|c comps IH]; intros m k m' k' Hp Hc; simpl in Hp.
  - injection Hp as <- <-. destruct k; [by left|]. by intros [?|?].
  - apply Forall_cons_iff in Hc as [Hcc Hc]. destruct (modifier_component os c m) as [m1|] eqn:Em.
    + specialize (IH _ _ _ _ Hp Hc). destruct k' as [key|]; [done|].
      intros _. apply IH. right. by eapply modifier_component_modified.
    + destruct comps as [|next comps].
      * destruct (_ && _); injection Hp as <- <-; right; right; by eapply plain_key_lower.
      * destruct (bool_decide (next = []) && _); [injection Hp as <- <-; by right; left|].
        destruct (_ && _); [|done]. exfalso. by eapply (parse_components_char os source).
Qed.

(** [modifier_key] finds a modifier if there is one. *)
Lemma modifier_key_ok os m m' k : modifier_key m = (m', Some k) -> canonical os m' k.
Proof.
  assert (Hw : forall w, w = lit "control" \/ w = lit "platform" \/ w = lit "function" -> plain_key os w).
  { intros w [->|[->| ->]]; (split; [repeat constructor; vm_compute; done|split; [reflexivity|by destruct os]]). }
  destruct m as [c a s p f]. unfold modifier_key, with_shift, with_control, with_alt, with_platform, with_function.
  cbn [control alt shift platform function].
  destruct s; [|destruct c; [|destruct a; [|destruct p; [|destruct f]]]]; intros [= <- <-];
    unfold canonical; cbn [control alt shift]; auto 10.
Qed.

Lemma parse_canonical os s k : parse os s = Some k -> key_char k = None -> canonical os (modifiers k) (key k).
Proof.
  unfold parse. destruct (parse_components _ _ _ _ _ _) as [[[m k'] c]|] eqn:Ep; [|done].
  destruct k' as [k'|].
  - intros [= <-]. simpl. intros ->. apply parse_components_ok in Ep; [|apply split_pieces].
    destruct Ep as [?|[->|?]]; [done|by left|by right; left].
  - destruct (modifier_key m) as [m' [k'|]] eqn:Em; [|done]. intros [= <-] _. simpl.
    by eapply modifier_key_ok.
Qed.

(** *** Reading the modifiers back *)

Definition join_modifiers (m : Modifiers) (f c a p s : bool) : Modifiers :=
  mkModifiers (control m || c) (alt m || a) (shift m || s) (platform m || p) (function m || f).

Lemma parse_prefix os source (b : bool) word comps m k (set : Modifiers -> Modifiers) :
  modifier_component os (lit word) m = Some (set m) -> Forall (fun d => d <> ch "-") (lit word) ->
  parse_components os source (split (ch "-") ((if b then lit word ++ lit "-" else []) ++ comps)) m k None =
  parse_components os source (split (ch "-") comps) (if b then set m else m) k None.
Proof.
  intros Hm Hd. destruct b; [|done]. rewrite <- app_assoc. change (lit "-" ++ comps) with (ch "-" :: comps).
  rewrite split_piece by done. cbn [parse_components]. by rewrite Hm.
Qed.

Lemma word_no_dash w :
  forallb (fun c => negb (c =? ch "-")%N) (lit w) = true -> Forall (fun d => d <> ch "-") (lit w).
Proof.
  intros Hw. apply Forall_elem. intros d Hd. rewrite forallb_forall in Hw.
  apply list_elem_of_In, Hw, negb_true_iff, N.eqb_neq in Hd. done.
Qed.

Lemma parse_unparse_components os source m key :
  (os <> OtherOs \/ platform m = false) ->
  parse_components os source (split (ch "-") (unparse_parts os m key)) modifiers_none None None =
  parse_components os source (split (ch "-") key) m None None.
Proof.
  intros Hos. unfold unparse_parts.
  change (lit "fn-") with (lit "fn" ++ lit "-"). change (lit "ctrl-") with (lit "ctrl" ++ lit "-").
  change (lit "alt-") with (lit "alt" ++ lit "-"). change (lit "shift-") with (lit "shift" ++ lit "-").
  set (name := match os with MacOs => "cmd" | Linux => "super" | _ => "win" end%string).
  assert (Hp : (if platform m then
     match os with MacOs => lit "cmd-" | Linux => lit "super-" | Windows => lit "win-" | OtherOs => [] end else []) =
     if platform m then lit name ++ lit "-" else []).
  { destruct Hos as [Hos| ->]; [|done]. destruct (platform m); [|done]. by destruct os. }
  rewrite Hp.
  rewrite (parse_prefix os source (function m) "fn" _ _ _ (fun m => with_function m true)) by (reflexivity || by apply word_no_dash).
  rewrite (parse_prefix os source (control m) "ctrl" _ _ _ (fun m => with_control m true)) by (reflexivity || by apply word_no_dash).
  rewrite (parse_prefix os source (alt m) "alt" _ _ _ (fun m => with_alt m true)) by (reflexivity || by apply word_no_dash).
  rewrite (parse_prefix os source (platform m) name _ _ _ (fun m => with_platform m true))
    by (unfold name; destruct os; reflexivity || by apply word_no_dash).
  rewrite (parse_prefix os source (shift m) "shift" _ _ _ (fun m => with_shift m true)) by (reflexivity || by apply word_no_dash).
  f_equal. by destruct m as [[] [] [] [] []].
Qed.

Lemma ends_with_unparse os m : ends_with_char (ch "-") (unparse_parts os m (lit "-")) = true.
Proof.
  unfold unparse_parts, ends_with_char. change (lit "-") with [ch "-"]. rewrite !app_assoc. by rewrite last_snoc.
Qed.

Lemma lower_not_upper key : make_ascii_lowercase key = key -> (length key =? 1) && forallb ascii_upper key = false.
Proof.
  destruct key as [|c [|d key]]; try done. intros [= Hc]. simpl. rewrite andb_true_r.
  unfold to_ascii_lowercase in Hc. destruct (ascii_upper c); [lia|done].
Qed.

Lemma unparse_canonical os m key :
  canonical os m key -> (os <> OtherOs \/ platform m = false) ->
  parse os (unparse_parts os m key) = Some (mkKeystroke m key None).
Proof.
  intros Hc Hos. unfold parse. rewrite parse_unparse_components by done.
  destruct Hc as [->|[(Hd & Hl & Hm)|[[-> Hs]|(-> & Ha & Hc & Hs)]]].
  - change (split (ch "-") (lit "-")) with [[]; @nil char]. cbn [parse_components].
    replace (modifier_component os [] m) with (@None Modifiers) by (by destruct os).
    rewrite bool_decide_eq_true_2 by done. by rewrite ends_with_unparse.
  - rewrite split_last by done. cbn [parse_components]. rewrite (modifier_component_none _ _ _ m Hm).
    by rewrite (lower_not_upper _ Hl), Hl.
  - rewrite split_last by (by apply word_no_dash). cbn [parse_components].
    replace (modifier_component os (lit "shift") m) with (Some (with_shift m true)) by reflexivity.
    destruct m as [c a s p f]. simpl in Hs. subst s. done.
  - rewrite split_last by (by apply word_no_dash). cbn [parse_components].
    replace (modifier_component os (lit "alt") m) with (Some (with_alt m true)) by reflexivity.
    destruct m as [c a s p f]. simpl in Ha, Hc, Hs. subst a c s. done.
Qed.

Lemma should_match_self os k : should_match os k (from_keystroke os k) = true.
Proof.
  unfold should_match. apply orb_true_iff. right. apply andb_true_iff.
  destruct os; simpl; by rewrite bool_decide_eq_true_2, str_eqb_refl.
Qed.

(** A key before a final separator is dropped without an error. *)
Example parse_trailing_separator :
  parse Linux (lit "ctrl-a-") = Some (mkKeystroke (mkModifiers true false false false false) (lit "-") None).
Proof. vm_compute. reflexivity. Qed.

(** ** The property *)

(** [unparse] "produces a representation of this key that Parse can understand":
    a keystroke that [parse] has returned, and that has no [key_char], is read back
    from it.  This includes the key [-] and modifiers as keys, and needs a system on
    which the platform modifier is printed.  The keystroke matches the binding made of
    itself, and, as long as no [key_char] is typed, no other. *)
Theorem keystroke_roundtrip os s k :
  parse os s = Some k -> key_char k = None -> os <> OtherOs \/ platform (modifiers k) = false ->
  parse os (unparse os k) = Some k /\ should_match os k (from_keystroke os k) = true /\
  forall b, should_match os k b = true -> modifiers (inner b) = modifiers k /\ key (inner b) = key k.
Proof.
  intros Hp Hc Hos. split; [|split].
  - unfold unparse. rewrite (unparse_canonical os _ _ (parse_canonical os s k Hp Hc) Hos). by destruct k as [m x c]; simpl in *; subst c.
  - apply should_match_self.
  - intros b. unfold should_match. rewrite Hc. simpl. rewrite andb_true_iff, bool_decide_eq_true, str_eqb_spec.
    done.
Qed.

Lemma keystroke_roundtrip_witness :
  let k := mkKeystroke (mkModifiers true true true false false) (lit "-") None in
  unparse Linux k = lit "ctrl-alt-shift--" /\ parse Linux (lit "ctrl-alt-shift--") = Some k.
Proof.
  intros k. split; [reflexivity|].
  apply (keystroke_roundtrip Linux (lit "Shift-Alt-Secondary--") k); [reflexivity|reflexivity|by left].
Defined.
