(* ===== verification/Keymap.v ===== *)
(** * The keymap: [crates/gpui/src/keymap.rs] and [keymap/binding.rs]

    A [Keymap] holds the key bindings in the order they were added, with the indices
    of the bindings of each action type and of the [NoAction] bindings, which disable
    others.  It resolves the typed keystrokes, in a stack of contexts, to the
    bindings to run, by precedence, and tells whether more keystrokes may follow.

    An action is a value of a type that implements a trait: the model takes its type
    identifier and its equality as a class. *)

From Stdlib Require Import NArith Sorted String.
From stdpp Require Import base list option numbers gmap.
From S2P Require Import Prelude Text KeyContext Keystroke.

#[local] Set Warnings "-register-all,-clear-no-such-hyp".

(** What the keymap uses of [dyn Action]. *)
Class ActionTrait (Action : Type) := {
  type_id : Action -> N;
  partial_eq : Action -> Action -> bool;
  no_action_type_id : N;
}.

Definition is_no_action `{ActionTrait Action} (a : Action) : bool := (type_id a =? no_action_type_id)%N.

(** ** [KeyBinding] *)

Record KeyBinding (Action : Type) := mkKeyBinding {
  action : Action;
  keystrokes : list KeybindingKeystroke;
  context_predicate : option Predicate;
  meta : option N;
  action_input : option str;
}.

Arguments mkKeyBinding {Action}.
Arguments action {Action}.
Arguments keystrokes {Action}.
Arguments context_predicate {Action}.
Arguments meta {Action}.
Arguments action_input {Action}.

Section Binding.
Context {Action : Type} (os : Os).

(** [Some true]: the keystrokes typed are the beginning of the binding's; [Some false]:
    they are the binding's. *)
Definition match_keystrokes (b : KeyBinding Action) (typed : list Keystroke) : option bool :=
  if length (keystrokes b) <? length typed then None
  else if forallb (fun p => should_match os p.2 p.1) (combine (keystrokes b) typed) then
    Some (length typed <? length (keystrokes b))
  else None.

Definition set_meta (b : KeyBinding Action) (m : N) : KeyBinding Action :=
  mkKeyBinding (action b) (keystrokes b) (context_predicate b) (Some m) (action_input b).

Context `{Unicode}.

(** [str::split_whitespace] *)
Fixpoint split_whitespace (s : str) (word : str) : list str :=
  match s with
  | [] => match word with [] => [] | _ => [word] end
  | c :: s =>
      if is_whitespace c then
        match word with [] => split_whitespace s [] | _ => word :: split_whitespace s [] end
      else split_whitespace s (word ++ [c])
  end.

Fixpoint parse_all (sources : list str) : option (list Keystroke) :=
  match sources with
  | [] => Some []
  | source :: sources =>
      match parse os source, parse_all sources with
      | Some k, Some ks => Some (k :: ks)
      | _, _ => None
      end
  end.

(** [KeyBinding::load]; [map_key_equivalent] is the platform's keyboard mapper, and
    [None] the error. *)
Definition load (map_key_equivalent : Keystroke -> bool -> KeybindingKeystroke) (source : str) (a : Action)
    (predicate : option Predicate) (use_key_equivalents : bool) (input : option str)
    : option (KeyBinding Action) :=
  match parse_all (split_whitespace source []) with
  | Some ks => Some (mkKeyBinding a (map (fun k => map_key_equivalent k use_key_equivalents) ks) predicate None input)
  | None => None
  end.

(** [KeyBinding::new]: with the mapper that maps nothing, and panics for errors. *)
Definition key_binding_new (source : str) (a : Action) (context : option str) : outcome (KeyBinding Action) :=
  let! predicate :=
    (match context with
     | None => Ok None
     | Some c =>
         let! r := predicate_parse c in
         match r with inl p => Ok (Some p) | inr _ => Panic end
     end) in
  unwrap (load (fun k _ => from_keystroke os k) source a predicate false None).
End Binding.

(** ** [Keymap] *)

Section Keymap.
Context `{ActionTrait Action} (os : Os).
Abbreviation Binding := (KeyBinding Action).

Record Keymap := mkKeymap {
  bindings : list Binding;
  binding_indices_by_action_id : gmap N (list nat);
  no_action_binding_indices : list nat;
  version : N;
}.

Definition keymap_default : Keymap := mkKeymap [] ∅ [] 0.

(** [usize] addition, which wraps in release builds. *)
Definition bump (v : N) : N := ((v + 1) mod 2 ^ 64)%N.

Definition add_binding (km : Keymap) (b : Binding) : Keymap :=
  let ix := length (bindings km) in
  if is_no_action (action b) then
    mkKeymap (bindings km ++ [b]) (binding_indices_by_action_id km)
      (no_action_binding_indices km ++ [ix]) (version km)
  else
    let indices := default [] (binding_indices_by_action_id km !! type_id (action b)) in
    mkKeymap (bindings km ++ [b])
      (<[type_id (action b) := indices ++ [ix]]> (binding_indices_by_action_id km))
      (no_action_binding_indices km) (version km).

Definition add_bindings (km : Keymap) (bs : list Binding) : Keymap :=
  let km := fold_left add_binding bs km in
  mkKeymap (bindings km) (binding_indices_by_action_id km) (no_action_binding_indices km) (bump (version km)).

Definition keymap_new (bs : list Binding) : Keymap := add_bindings keymap_default bs.

Definition keymap_clear (km : Keymap) : Keymap := mkKeymap [] ∅ [] (bump (version km)).

(** Whether a later [NoAction] binding disables the one at [ix]: the loop over their
    indices. *)
Definition null_binding_matches (null b : Binding) : bool :=
  match context_predicate null, context_predicate b with
  | None, _ => true
  | Some _, None => false
  | Some null_predicate, Some predicate => is_superset null_predicate predicate
  end.

Fixpoint disabled_by (km : Keymap) (ix : nat) (b : Binding) (nulls : list nat) : outcome bool :=
  match nulls with
  | [] => Ok false
  | null_ix :: nulls =>
      if ix <? null_ix then
        let! null := index (bindings km) null_ix in
        if bool_decide (keystrokes null = keystrokes b) && null_binding_matches null b then Ok true
        else disabled_by km ix b nulls
      else disabled_by km ix b nulls
  end.

Fixpoint filter_for_action (km : Keymap) (a : Action) (indices : list nat) : outcome (list Binding) :=
  match indices with
  | [] => Ok []
  | ix :: indices =>
      let! b := index (bindings km) ix in
      let! disabled :=
        (if negb (partial_eq (action b) a) then Ok true
         else disabled_by km ix b (no_action_binding_indices km)) in
      let! l := filter_for_action km a indices in
      Ok (if disabled then l else b :: l)
  end.

Definition bindings_for_action (km : Keymap) (a : Action) : outcome (list Binding) :=
  filter_for_action km a (default [] (binding_indices_by_action_id km !! type_id a)).

Definition all_bindings_for_input (km : Keymap) (input : list Keystroke) : list Binding :=
  List.filter (fun b => match match_keystrokes os b input with Some pending => negb pending | None => false end)
    (rev (bindings km)).

Definition binding_enabled (b : Binding) (contexts : list KeyContext) : option nat :=
  match context_predicate b with
  | Some predicate => depth_of predicate contexts
  | None => Some (length contexts)
  end.

(** The bindings with their indices. *)
Definition enumerate (l : list Binding) : list (nat * Binding) := combine (seq 0 (length l)) l.

(** The order of [sort_by]: by depth and then by index, the greatest first. *)
Definition precedes (x y : nat * nat) : bool :=
  (y.1 <? x.1) || ((x.1 =? y.1) && (y.2 <? x.2)).

Definition rank (x : nat * nat * Binding) : nat * nat := x.1.

Fixpoint sort_insert (x : nat * nat * Binding) (l : list (nat * nat * Binding)) : list (nat * nat * Binding) :=
  match l with
  | [] => [x]
  | y :: l => if negb (precedes (rank y) (rank x)) then x :: y :: l else y :: sort_insert x l
  end.

Definition sort_matched (l : list (nat * nat * Binding)) : list (nat * nat * Binding) := fold_right sort_insert [] l.

(** The first loop: the bindings that match the whole input, and those it begins. *)
Fixpoint partition (input : list Keystroke) (contexts : list KeyContext) (l : list (nat * Binding))
    : list (nat * nat * Binding) * list (nat * Binding) :=
  match l with
  | [] => ([], [])
  | (ix, b) :: l =>
      let (matched, pending) := partition input contexts l in
      match binding_enabled b contexts with
      | None => (matched, pending)
      | Some depth =>
          match match_keystrokes os b input with
          | None => (matched, pending)
          | Some false => ((depth, ix, b) :: matched, pending)
          | Some true => (matched, (ix, b) :: pending)
          end
      end
  end.

(** A [NoAction] binding of the user, which ends the search. *)
Definition user_binding (b : Binding) : bool :=
  match meta b with Some m => (m =? 0)%N | None => true end.

Fixpoint dispatched (matched : list (nat * nat * Binding)) : list (nat * Binding) :=
  match matched with
  | [] => []
  | (_, ix, b) :: matched =>
      if is_no_action (action b) then
        if user_binding b then [] else dispatched matched
      else (ix, b) :: dispatched matched
  end.

(** The loop over the pending bindings; the set holds sequences of keystrokes. *)
Definition pending_step (first_binding_index : option nat) (pending : list (list KeybindingKeystroke))
    (p : nat * Binding) : list (list KeybindingKeystroke) :=
  let (ix, b) := p in
  if match first_binding_index with Some first => ix <? first | None => false end then pending
  else if is_no_action (action b) then List.filter (fun ks => negb (bool_decide (ks = keystrokes b))) pending
  else keystrokes b :: pending.

Definition resolve_bindings_for_input (input : list Keystroke) (contexts : list KeyContext)
    (keymap_bindings : list (nat * Binding)) : list (nat * Binding) * bool :=
  let (matched, pending) := partition input contexts keymap_bindings in
  let bs := dispatched (sort_matched matched) in
  let set := fold_left (pending_step (head (map fst bs))) (rev pending) [] in
  (bs, match set with [] => false | _ => true end).

Definition bindings_for_input (km : Keymap) (input : list Keystroke) (contexts : list KeyContext)
    : list Binding * bool :=
  let (bs, pending) := resolve_bindings_for_input input contexts (rev (enumerate (bindings km))) in
  (map snd bs, pending).

(** The bindings the input begins, the latest first. *)
Definition bindings_extending_input (km : Keymap) (input : list Keystroke) : list (nat * Binding) :=
  List.filter (fun p => match match_keystrokes os p.2 input with Some pending => pending | None => false end)
    (rev (enumerate (bindings km))).

(** The input, completed with the keystrokes of the binding. *)
Definition full_input (b : Binding) (input : list Keystroke) : list Keystroke :=
  input ++ map inner (drop (length input) (keystrokes b)).

Definition next_candidate (extending : list (nat * Binding)) (input : list Keystroke) (contexts : list KeyContext)
    (p : nat * Binding) : option (nat * nat * Binding) :=
  let (ix, b) := p in
  match binding_enabled b contexts with
  | None => None
  | Some depth =>
      let (bs, _) := resolve_bindings_for_input (full_input b input) contexts extending in
      if existsb (fun p => p.1 =? ix) bs then Some (depth, ix, b) else None
  end.

Definition possible_next_bindings_for_input (km : Keymap) (input : list Keystroke) (contexts : list KeyContext)
    : list Binding :=
  let extending := bindings_extending_input km input in
  let candidates :=
    omap (next_candidate extending input contexts)
      (List.filter (fun p => negb (is_no_action (action p.2))) extending) in
  map snd (sort_matched candidates).
End Keymap.

Arguments Keymap Action : clear implicits.

(** ** Generic lemmas *)

Lemma omap_filter {A B} (p : A -> bool) (f : A -> option B) l :
  omap f (List.filter p l) = omap (fun x => if p x then f x else None) l.
Proof. induction l as [|x l IH]; csimpl; [done|]. destruct (p x); csimpl; by rewrite IH. Qed.

Lemma existsb_filter {A} (p q : A -> bool) l : existsb q (List.filter p l) = existsb (fun x => p x && q x) l.
Proof. induction l as [|x l IH]; simpl; [done|]. destruct (p x); simpl; by rewrite IH. Qed.

Lemma existsb_ext_in {A} (p q : A -> bool) l : (forall x, In x l -> p x = q x) -> existsb p l = existsb q l.
Proof. induction l as [|x l IH]; simpl; intros He; [done|]. rewrite He, IH by eauto. done. Qed.

Lemma omap_ext_in {A B} (f g : A -> option B) l : (forall x, In x l -> f x = g x) -> omap f l = omap g l.
Proof. induction l as [|x l IH]; csimpl; intros He; [done|]. rewrite (He x) by eauto. rewrite IH by eauto. done. Qed.

(** ** The indices *)

Section Indices.
Context `{ActionTrait Action}.
Abbreviation Binding := (KeyBinding Action).
Implicit Types (km : Keymap Action) (l bs : list Binding) (b : Binding).

(** The indices of the bindings with a property, in order. *)
Definition indices_where (p : Binding -> bool) l : list nat :=
  List.filter (fun ix => match l !! ix with Some b => p b | None => false end) (seq 0 (length l)).

Lemma indices_where_snoc p l b :
  indices_where p (l ++ [b]) = indices_where p l ++ (if p b then [length l] else []).
Proof.
  unfold indices_where. rewrite length_app. simpl. rewrite Nat.add_1_r, seq_S, List.filter_app. simpl.
  rewrite lookup_app_r, Nat.sub_diag by done. simpl. f_equal. apply List.filter_ext_in. intros ix Hix%in_seq.
  by rewrite lookup_app_l by lia.
Qed.

Lemma indices_where_spec p l ix : ix ∈ indices_where p l <-> exists b, l !! ix = Some b /\ p b = true.
Proof.
  unfold indices_where. rewrite list_elem_of_In, filter_In, in_seq. split.
  - intros [_ Hp]. destruct (l !! ix) as [b|]; [eauto|done].
  - intros (b & Hb & Hp). rewrite Hb. split; [|done]. apply lookup_lt_Some in Hb. lia.
Qed.

(** The indices of an action type. *)
Definition of_type (id : N) b : bool := negb (is_no_action (action b)) && (type_id (action b) =? id)%N.

Record keymap_wf km : Prop := mkKeymapWf {
  wf_no_action : no_action_binding_indices km = indices_where (fun b => is_no_action (action b)) (bindings km);
  wf_by_action id : default [] (binding_indices_by_action_id km !! id) = indices_where (of_type id) (bindings km);
}.

Lemma keymap_default_wf : keymap_wf keymap_default.
Proof. split; [done|]. intros id. simpl. by rewrite lookup_empty. Qed.

Lemma add_binding_wf km b :
  keymap_wf km -> keymap_wf (add_binding km b) /\ bindings (add_binding km b) = bindings km ++ [b] /\
  version (add_binding km b) = version km.
Proof.
  intros [Hn Ha]. unfold add_binding.
  destruct (is_no_action (action b)) eqn:E; (split; [|done]); split; simpl.
  - by rewrite indices_where_snoc, Hn, E.
  - intros id. rewrite indices_where_snoc, Ha. unfold of_type at 3. rewrite E. simpl. by rewrite app_nil_r.
  - by rewrite indices_where_snoc, Hn, E, app_nil_r.
  - intros id. rewrite indices_where_snoc. unfold of_type at 2. rewrite E. simpl.
    destruct (N.eqb_spec (type_id (action b)) id) as [<-|Hne].
    + rewrite lookup_insert_eq. simpl. by rewrite Ha.
    + rewrite lookup_insert_ne by done. by rewrite Ha, app_nil_r.
Qed.

Lemma add_bindings_wf bs : forall km,
  keymap_wf km -> keymap_wf (add_bindings km bs) /\ bindings (add_bindings km bs) = bindings km ++ bs /\
  version (add_bindings km bs) = bump (version km).
Proof.
  unfold add_bindings. cbn [bindings version].
  assert (Hfold : forall km, keymap_wf km -> keymap_wf (fold_left add_binding bs km) /\
    bindings (fold_left add_binding bs km) = bindings km ++ bs /\ version (fold_left add_binding bs km) = version km).
  { induction bs as [|b bs IH]; intros km Hwf; simpl; [by rewrite app_nil_r|].
    destruct (add_binding_wf km b Hwf) as (Hwf' & Hb & Hv). destruct (IH _ Hwf') as (? & -> & ->).
    by rewrite Hb, Hv, <- app_assoc. }
  intros km Hwf. destruct (Hfold km Hwf) as ([Hn Ha] & Hb & Hv). split; [by split|]. split; [done|by rewrite Hv].
Qed.

Lemma keymap_clear_wf km : keymap_wf (keymap_clear km).
Proof. split; [done|]. intros id. simpl. by rewrite lookup_empty. Qed.

(** *** The bindings of an action *)

(** The [NoAction] bindings after [ix] with the same keystrokes and a context that
    covers the binding's. *)
Definition disabled l (ix : nat) b : bool :=
  existsb (fun j => (ix <? j) &&
    match l !! j with
    | Some null => is_no_action (action null) && bool_decide (keystrokes null = keystrokes b) && null_binding_matches null b
    | None => false
    end) (seq 0 (length l)).

Definition binding_if (l : list Binding) (p : nat -> Binding -> bool) (ix : nat) : option Binding :=
  match l !! ix with Some b => if p ix b then Some b else None | None => None end.

(** The reference: a pass over the bindings. *)
Definition action_bindings l (a : Action) : list Binding :=
  omap (binding_if l (fun ix b => of_type (type_id a) b && partial_eq (action b) a && negb (disabled l ix b)))
    (seq 0 (length l)).

Lemma disabled_by_ok km ix b nulls :
  Forall (fun j => is_Some (bindings km !! j)) nulls ->
  disabled_by km ix b nulls =
  Ok (existsb (fun j => (ix <? j) &&
        match bindings km !! j with
        | Some null => bool_decide (keystrokes null = keystrokes b) && null_binding_matches null b
        | None => false
        end) nulls).
Proof.
  induction 1 as [|j nulls [null Hj] _ IH]; simpl; [done|]. rewrite Hj, (index_Ok _ _ _ Hj). cbn [obind].
  destruct (ix <? j); simpl; [|done]. by destruct (bool_decide _ && _).
Qed.

Lemma indices_where_lookup p l : Forall (fun j => is_Some (l !! j)) (indices_where p l).
Proof. apply Forall_elem. intros j (b & -> & _)%indices_where_spec. by eexists. Qed.

Lemma disabled_ok km ix b :
  keymap_wf km -> disabled_by km ix b (no_action_binding_indices km) = Ok (disabled (bindings km) ix b).
Proof.
  intros [-> _]. rewrite disabled_by_ok by apply indices_where_lookup. f_equal.
  unfold indices_where, disabled. rewrite existsb_filter. apply existsb_ext_in. intros j _.
  destruct (bindings km !! j) as [null|]; [|by rewrite andb_false_r].
  destruct (is_no_action (action null)), (ix <? j); done.
Qed.

Lemma bindings_for_action_ok km a :
  keymap_wf km -> bindings_for_action km a = Ok (action_bindings (bindings km) a).
Proof.
  intros Hwf. unfold bindings_for_action. rewrite (wf_by_action _ Hwf).
  assert (Hf : forall indices, Forall (fun j => is_Some (bindings km !! j)) indices ->
    filter_for_action km a indices =
    Ok (omap (binding_if (bindings km) (fun ix b => partial_eq (action b) a && negb (disabled (bindings km) ix b))) indices)).
  { induction 1 as [|ix indices [b Hb] _ IH]; simpl; [done|]. rewrite (index_Ok _ _ _ Hb). cbn [obind].
    unfold binding_if at 1. rewrite Hb. destruct (partial_eq (action b) a); simpl.
    - rewrite (disabled_ok km ix b Hwf). cbn [obind]. rewrite IH. cbn [obind]. by destruct (disabled _ _ _).
    - by rewrite IH. }
  rewrite Hf by apply indices_where_lookup. f_equal. unfold indices_where, action_bindings. rewrite omap_filter.
  apply omap_ext_in. intros ix _. unfold binding_if. destruct (bindings km !! ix) as [b|]; [|done].
  by destruct (of_type (type_id a) b).
Qed.
End Indices.

(** ** Resolving an input *)

Section Resolve.
Context `{ActionTrait Action} (os : Os).
Abbreviation Binding := (KeyBinding Action).
Implicit Types (km : Keymap Action) (b : Binding).

(** *** Precedence *)

Lemma precedes_spec x y : precedes x y = true <-> y.1 < x.1 \/ (x.1 = y.1 /\ y.2 < x.2).
Proof.
  unfold precedes. rewrite orb_true_iff, andb_true_iff, !Nat.ltb_lt, Nat.eqb_eq. done.
Qed.

Lemma precedes_total x y : x.2 <> y.2 -> precedes x y = false -> precedes y x = true.
Proof.
  intros Hne Hf. apply precedes_spec. destruct (decide (precedes y x = true)) as [Hp|Hp]; [by apply precedes_spec|].
  exfalso. assert (~ precedes x y = true) by congruence. rewrite precedes_spec in Hp, H0. lia.
Qed.

Lemma precedes_asym x y : precedes x y = true -> precedes y x = false.
Proof.
  intros Hp. apply not_true_is_false. rewrite precedes_spec in *. lia.
Qed.

Lemma precedes_trans x y z : precedes x y = true -> precedes y z = true -> precedes x z = true.
Proof. rewrite !precedes_spec. lia. Qed.

Definition before (x y : nat * nat * Binding) : Prop := precedes (rank x) (rank y) = true.

Lemma sort_insert_perm (x : nat * nat * Binding) l : sort_insert x l ≡ₚ x :: l.
Proof.
  induction l as [|y l IH]; simpl; [done|]. destruct (precedes (rank y) (rank x)); simpl; [|done].
  rewrite IH. apply Permutation_swap.
Qed.

Lemma sort_matched_perm (l : list (nat * nat * Binding)) : sort_matched l ≡ₚ l.
Proof.
  unfold sort_matched. induction l as [|x l IH]; simpl; [done|]. by rewrite sort_insert_perm, IH.
Qed.

Lemma sort_insert_sorted (x : nat * nat * Binding) l :
  StronglySorted before l -> Forall (fun y => y.1.2 <> x.1.2) l -> StronglySorted before (sort_insert x l).
Proof.
  induction 1 as [|y l Hs IH Hy]; intros Hne; simpl; [by repeat constructor|].
  apply Forall_cons_iff in Hne as [Hyx Hne]. destruct (precedes (rank y) (rank x)) eqn:E; simpl.
  - constructor; [by apply IH|]. rewrite sort_insert_perm. by constructor.
  - assert (Hxy : before x y) by (by apply precedes_total).
    constructor; [by constructor|]. constructor; [done|].
    eapply Forall_weaken; [|exact Hy]. intros z Hz. by eapply precedes_trans.
Qed.

Lemma sort_matched_sorted (l : list (nat * nat * Binding)) : NoDup (map (fun x => x.1.2) l) -> StronglySorted before (sort_matched l).
Proof.
  induction l as [|x l IH]; simpl; [constructor|]. intros [Hx Hnd]%list.NoDup_cons.
  apply sort_insert_sorted; [by apply IH|]. fold (sort_matched l). rewrite sort_matched_perm.
  apply Forall_elem. intros y Hy He. apply Hx. rewrite <- He.
  apply list_elem_of_In, (in_map (fun x : nat * nat * Binding => x.1.2)).
  by apply list_elem_of_In.
Qed.

(** *** The dispatched bindings *)

Definition ends_search b : bool := is_no_action (action b) && user_binding b.

Lemma dispatched_spec l ix b :
  StronglySorted before l ->
  (ix, b) ∈ dispatched l <->
  exists d, (d, ix, b) ∈ l /\ is_no_action (action b) = false /\
    forall x, x ∈ l -> before x (d, ix, b) -> ends_search x.2 = false.
Proof.
  induction 1 as [|[[d0 ix0] b0] l Hs IH Hx]; simpl.
  - split; [by intros ?%elem_of_nil|by intros (d & ?%elem_of_nil & _)].
  - rewrite Forall_elem in Hx. unfold before in Hx.
    assert (Hcons : forall d, (d, ix, b) ∈ l ->
      (forall x, x ∈ (d0, ix0, b0) :: l -> before x (d, ix, b) -> ends_search x.2 = false) <->
      ends_search b0 = false /\ (forall x, x ∈ l -> before x (d, ix, b) -> ends_search x.2 = false)).
    { intros d Hin. split.
      - intros Ha. split; [apply (Ha (d0, ix0, b0)); [apply elem_of_cons; by left|by apply Hx]|].
        intros x Hxl. apply Ha, elem_of_cons. by right.
      - intros [H0 Ha] x [->|Hxl]%elem_of_cons; [done|by apply Ha]. }
    unfold ends_search in Hcons at 2. destruct (is_no_action (action b0)) eqn:En; simpl in Hcons.
    + destruct (user_binding b0) eqn:Eu.
      * split; [by intros ?%elem_of_nil|]. intros (d & [[= -> -> ->]|Hin]%elem_of_cons & Hn & Ha); [congruence|].
        apply Hcons in Ha as [? _]; done.
      * rewrite IH. split.
        -- intros (d & Hin & Hn & Ha). exists d. split; [apply elem_of_cons; by right|]. split; [done|by apply Hcons].
        -- intros (d & [[= -> -> ->]|Hin]%elem_of_cons & Hn & Ha); [congruence|].
           exists d. split; [done|]. split; [done|by apply Hcons].
    + rewrite elem_of_cons, IH. split.
      * intros [[= -> ->]|(d & Hin & Hn & Ha)].
        -- exists d0. split; [apply elem_of_cons; by left|]. split; [done|].
           intros x [->|Hxl]%elem_of_cons Hb; [simpl; unfold ends_search; by rewrite En|].
           apply Hx, precedes_asym in Hxl. unfold before in Hb. congruence.
        -- exists d. split; [apply elem_of_cons; by right|]. split; [done|by apply Hcons].
      * intros (d & [[= -> -> ->]|Hin]%elem_of_cons & Hn & Ha); [by left|right].
        exists d. split; [done|]. split; [done|by apply Hcons].
Qed.

(** The order of the dispatched bindings. *)
Definition has_precedence (contexts : list KeyContext) (p q : nat * Binding) : Prop :=
  exists d e, binding_enabled p.2 contexts = Some d /\ binding_enabled q.2 contexts = Some e /\
    precedes (d, p.1) (e, q.1) = true.

Lemma dispatched_sorted contexts l :
  StronglySorted before l -> Forall (fun x => binding_enabled x.2 contexts = Some x.1.1) l ->
  StronglySorted (has_precedence contexts) (dispatched l).
Proof.
  induction 1 as [|[[d0 ix0] b0] l Hs IH Hx]; simpl; [constructor|]. intros [H0 Hl]%Forall_cons_iff.
  destruct (is_no_action (action b0)); [destruct (user_binding b0); [constructor|by apply IH]|].
  constructor; [by apply IH|]. apply Forall_elem. intros [ix b] Hin. rewrite dispatched_spec in Hin by done.
  destruct Hin as (d & Hin & _). rewrite Forall_elem in Hx, Hl. exists d0, d.
  split; [done|]. split; [exact (Hl _ Hin)|exact (Hx _ Hin)].
Qed.

(** *** The bindings that match *)

Lemma enumerate_spec (l : list Binding) ix b : (ix, b) ∈ enumerate l <-> l !! ix = Some b.
Proof.
  unfold enumerate. rewrite list_elem_of_lookup. split.
  - intros (i & Hi). change (combine ?a ?b) with (zip a b) in Hi.
    apply lookup_zip_with_Some in Hi as (j & c & [= -> ->] & Hj & Hc).
    apply lookup_seq in Hj as [-> _]. done.
  - intros Hb. exists ix. change (combine ?a ?b) with (zip a b). apply lookup_zip_with_Some.
    exists ix, b. split; [done|]. split; [|done]. apply lookup_seq. split; [done|]. by apply lookup_lt_Some in Hb.
Qed.

Lemma enumerate_indices (l : list Binding) : map fst (enumerate l) = seq 0 (length l).
Proof.
  unfold enumerate. generalize 0. induction l as [|b l IH]; intros n; simpl; [done|]. by rewrite IH.
Qed.

(** The partition, as membership. *)
Lemma partition_matched input contexts (l : list (nat * Binding)) x :
  x ∈ (partition os input contexts l).1 <->
  (x.1.2, x.2) ∈ l /\ binding_enabled x.2 contexts = Some x.1.1 /\
  match_keystrokes os x.2 input = Some false.
Proof.
  destruct x as [[d ix] b]. cbn [fst snd]. induction l as [|[ix0 b0] l IH]; simpl.
  - split; [by intros ?%elem_of_nil|by intros (?%elem_of_nil & _)].
  - destruct (partition os input contexts l) as [ms ps]. simpl in IH.
    assert (Hc : ((ix, b) ∈ (ix0, b0) :: l /\ binding_enabled b contexts = Some d /\
                  match_keystrokes os b input = Some false) <->
                 (ix = ix0 /\ b = b0 /\ binding_enabled b0 contexts = Some d /\ match_keystrokes os b0 input = Some false) \/
                 (d, ix, b) ∈ ms).
    { rewrite IH, !elem_of_cons. split.
      - intros ([[= -> ->]|Hin] & Hd & Hm); [by left|by right].
      - intros [(-> & -> & ?)|(? & ?)]; (split; [|done]); [by left|by right]. }
    rewrite Hc. clear Hc. destruct (binding_enabled b0 contexts) as [d0|]; [|naive_solver].
    destruct (match_keystrokes os b0 input) as [[]|]; simpl; [naive_solver| |naive_solver].
    rewrite elem_of_cons. naive_solver.
Qed.

Lemma partition_pending input contexts (l : list (nat * Binding)) :
  (partition os input contexts l).2 =
  List.filter (fun p => match binding_enabled p.2 contexts, match_keystrokes os p.2 input with
                        | Some _, Some true => true | _, _ => false end) l.
Proof.
  induction l as [|[ix0 b0] l IH]; simpl; [done|]. destruct (partition os input contexts l) as [ms ps]. simpl in IH.
  subst ps. destruct (binding_enabled b0 contexts) as [d0|]; [|done].
  by destruct (match_keystrokes os b0 input) as [[]|].
Qed.

Lemma partition_nodup input contexts (l : list (nat * Binding)) :
  NoDup (map fst l) -> NoDup (map (fun x => x.1.2) (partition os input contexts l).1).
Proof.
  induction l as [|[ix0 b0] l IH]; simpl; [done|]. intros [Hx Hnd]%list.NoDup_cons. specialize (IH Hnd).
  pose proof (partition_matched input contexts l) as Hm.
  destruct (partition os input contexts l) as [ms ps]. simpl in IH, Hm.
  destruct (binding_enabled b0 contexts) as [d0|]; [|done]. destruct (match_keystrokes os b0 input) as [[]|]; try done.
  simpl. apply list.NoDup_cons. split; [|done]. intros Hin. apply Hx.
  apply list_elem_of_In, in_map_iff in Hin as (x & <- & Hin). apply list_elem_of_In, Hm in Hin.
  destruct Hin as (Hin & _). apply list_elem_of_In, in_map_iff. exists (x.1.2, x.2). split; [done|]. by apply list_elem_of_In.
Qed.

(** A part of the bindings that includes those that match the whole input gives the
    same matches. *)
Lemma partition_filter input contexts (f : nat * Binding -> bool) l :
  (forall p, match_keystrokes os p.2 input = Some false -> f p = true) ->
  (partition os input contexts (List.filter f l)).1 = (partition os input contexts l).1.
Proof.
  intros Hf. induction l as [|[ix0 b0] l IH]; simpl; [done|].
  specialize (Hf (ix0, b0)). simpl in Hf.
  destruct (f (ix0, b0)) eqn:E; simpl.
  - destruct (partition os input contexts (List.filter f l)) as [ms ps], (partition os input contexts l) as [ms' ps'].
    simpl in IH. subst ms'. destruct (binding_enabled b0 contexts); [|done].
    by destruct (match_keystrokes os b0 input) as [[]|].
  - rewrite IH. destruct (partition os input contexts l) as [ms' ps'].
    destruct (binding_enabled b0 contexts); [|done].
    destruct (match_keystrokes os b0 input) as [[]|]; [done| |done]. by specialize (Hf eq_refl).
Qed.
End Resolve.

(** *** The pending bindings *)

Section Pending.
Context `{ActionTrait Action} (os : Os).
Abbreviation Binding := (KeyBinding Action).
Implicit Types (km : Keymap Action) (b : Binding).

(** Not skipped: the dispatched binding of the highest precedence is not later. *)
Definition kept (first : option nat) (ix : nat) : Prop :=
  match first with Some f => f <= ix | None => True end.

Lemma pending_step_spec first (set : list (list KeybindingKeystroke)) ix b ks :
  ks ∈ pending_step first set (ix, b) <->
  (kept first ix /\ is_no_action (action b) = false /\ keystrokes b = ks) \/
  (ks ∈ set /\ ~ (kept first ix /\ is_no_action (action b) = true /\ keystrokes b = ks)).
Proof.
  unfold pending_step. set (skip := match first with Some f => ix <? f | None => false end).
  assert (Hk : kept first ix <-> skip = false).
  { unfold kept, skip. destruct first as [f|]; [|done]. by rewrite Nat.ltb_ge. }
  rewrite Hk. clearbody skip. clear Hk. destruct skip; [naive_solver|].
  destruct (is_no_action (action b)).
  - rewrite list_elem_of_In, filter_In, <- list_elem_of_In, negb_true_iff, bool_decide_eq_false. naive_solver.
  - rewrite elem_of_cons. naive_solver.
Qed.

Lemma pending_fold first (P : list (nat * Binding)) ks :
  ks ∈ fold_left (pending_step first) P [] <->
  exists P1 ix b P2, P = P1 ++ (ix, b) :: P2 /\ kept first ix /\ is_no_action (action b) = false /\
    keystrokes b = ks /\
    forall ix' b', (ix', b') ∈ P2 -> kept first ix' -> is_no_action (action b') = true -> keystrokes b' <> ks.
Proof.
  induction P as [|[ix0 b0] P IH] using rev_ind.
  - simpl. split; [by intros ?%elem_of_nil|]. intros (P1 & ? & ? & ? & He & _). by destruct P1.
  - rewrite fold_left_app. cbn [fold_left]. rewrite pending_step_spec, IH. clear IH. split.
    + intros [(Hk & Hn & He)|((P1 & ix & b & P2 & -> & Hk & Hn & He & Hl) & Hno)].
      * exists P, ix0, b0, []. split; [done|]. do 3 (split; [done|]). by intros ? ? ?%elem_of_nil.
      * exists P1, ix, b, (P2 ++ [(ix0, b0)]). rewrite <- app_assoc. split; [done|]. do 3 (split; [done|]).
        intros ix' b' [Hin|Hin%list_elem_of_singleton]%elem_of_app; [by apply (Hl ix')|].
        injection Hin as -> ->. intros Hk' Hn' He'. by apply Hno.
    + intros (P1 & ix & b & P2 & HP & Hk & Hn & He & Hl).
      destruct (decide (P2 = [])) as [->|Hne].
      * apply app_inj_tail in HP as [-> [= -> ->]]. by left.
      * right. destruct (list_snoc_inv P2 Hne) as (P2' & x & ->).
        rewrite app_comm_cons, app_assoc in HP. apply app_inj_tail in HP as [-> <-]. split.
        -- exists P1, ix, b, P2'. split; [done|]. do 3 (split; [done|]). intros ix' b' Hin. apply (Hl ix').
           apply elem_of_app. by left.
        -- intros (Hk' & Hn' & He'). apply (Hl ix0 b0); [|done|done|done]. apply elem_of_app. right.
           by apply list_elem_of_singleton.
Qed.

(** In a list of bindings by increasing index, later means greater. *)
Definition increasing (P : list (nat * Binding)) : Prop := StronglySorted (fun p q => p.1 < q.1) P.

Lemma increasing_split P1 x P2 y : increasing (P1 ++ x :: P2) -> y ∈ P2 <-> y ∈ P1 ++ x :: P2 /\ x.1 < y.1.
Proof.
  unfold increasing. intros Hs. induction P1 as [|z P1 IH]; simpl in *.
  - apply StronglySorted_inv in Hs as [_ Hx]. rewrite Forall_elem in Hx. rewrite elem_of_cons. split.
    + intros Hy. split; [by right|by apply Hx].
    + intros [[->|?] ?]; [lia|done].
  - apply StronglySorted_inv in Hs as [Hs Hz]. rewrite Forall_elem in Hz. rewrite (IH Hs), elem_of_cons.
    split; [naive_solver|]. intros [[->|?] Hlt]; [|done].
    specialize (Hz x). rewrite elem_of_app, elem_of_cons in Hz. specialize (Hz (or_intror (or_introl eq_refl))). lia.
Qed.

Lemma enumerate_increasing (l : list Binding) : increasing (enumerate l).
Proof.
  unfold enumerate, increasing. generalize 0. induction l as [|b l IH]; intros n; simpl; constructor; [apply IH|].
  apply Forall_elem. intros [ix c] Hin. apply list_elem_of_In, in_combine_l, in_seq in Hin. simpl. lia.
Qed.

Lemma increasing_filter (f : nat * Binding -> bool) P : increasing P -> increasing (List.filter f P).
Proof.
  unfold increasing. induction 1 as [|p P Hs IH Hp]; simpl; [constructor|]. destruct (f p); [|done].
  constructor; [done|]. by apply bfilter_Forall_keep.
Qed.

Lemma pending_fold_increasing first (P : list (nat * Binding)) :
  increasing P ->
  match fold_left (pending_step first) P [] with [] => false | _ => true end = true <->
  exists ix b, (ix, b) ∈ P /\ kept first ix /\ is_no_action (action b) = false /\
    forall ix' b', (ix', b') ∈ P -> ix < ix' -> is_no_action (action b') = true -> keystrokes b' <> keystrokes b.
Proof.
  intros Hs. assert (Hex : match fold_left (pending_step first) P [] with [] => false | _ => true end = true <->
    exists ks, ks ∈ fold_left (pending_step first) P []).
  { destruct (fold_left _ _ _) as [|ks l]; [split; [done|by intros (? & ?%elem_of_nil)]|].
    split; [|done]. intros _. exists ks. apply elem_of_cons. by left. }
  rewrite Hex. split.
  - intros (ks & Hks). apply pending_fold in Hks as (P1 & ix & b & P2 & -> & Hk & Hn & He & Hl).
    exists ix, b. split; [apply elem_of_app; right; apply elem_of_cons; by left|]. split; [done|]. split; [done|].
    intros ix' b' Hin Hlt Hn'. rewrite He. apply (Hl ix'); [|unfold kept in *; destruct first; [lia|done]|done].
    by apply (increasing_split P1 (ix, b)).
  - intros (ix & b & Hin & Hk & Hn & Hl). exists (keystrokes b). apply pending_fold.
    apply list_elem_of_split in Hin as (P1 & P2 & ->). exists P1, ix, b, P2. split; [done|]. do 3 (split; [done|]).
    intros ix' b' Hin' _ Hn'. apply (increasing_split P1 (ix, b) P2 _ Hs) in Hin' as [Hin' Hlt]. by apply (Hl ix').
Qed.

(** *** The resolution, over the whole keymap *)

(** The binding at [ix] is enabled, at [depth], and the input is all of its keystrokes,
    or begins them. *)
Definition matches km (input : list Keystroke) (contexts : list KeyContext) (depth ix : nat) b : Prop :=
  bindings km !! ix = Some b /\ binding_enabled b contexts = Some depth /\
  match_keystrokes os b input = Some false.

Definition begins km (input : list Keystroke) (contexts : list KeyContext) (ix : nat) b : Prop :=
  bindings km !! ix = Some b /\ is_Some (binding_enabled b contexts) /\
  match_keystrokes os b input = Some true.

Definition whole km : list (nat * Binding) := rev (enumerate (bindings km)).

Lemma elem_of_whole km ix b : (ix, b) ∈ whole km <-> bindings km !! ix = Some b.
Proof. unfold whole. by rewrite <- enumerate_spec, !list_elem_of_In, <- in_rev. Qed.

Lemma whole_nodup km : NoDup (map fst (whole km)).
Proof. unfold whole. rewrite map_rev, <- Permutation_rev, enumerate_indices. apply NoDup_seq. Qed.

Lemma matched_spec km input contexts d ix b :
  (d, ix, b) ∈ (partition os input contexts (whole km)).1 <-> matches km input contexts d ix b.
Proof. rewrite partition_matched. simpl. unfold matches. by rewrite elem_of_whole. Qed.

Lemma resolve_dispatched km input contexts ix b :
  (ix, b) ∈ (resolve_bindings_for_input os input contexts (whole km)).1 <->
  exists d, matches km input contexts d ix b /\ is_no_action (action b) = false /\
    forall d' ix' b', matches km input contexts d' ix' b' -> precedes (d', ix') (d, ix) = true ->
      ends_search b' = false.
Proof.
  unfold resolve_bindings_for_input. pose proof (matched_spec km input contexts) as Hm.
  pose proof (partition_nodup os input contexts (whole km) (whole_nodup km)) as Hnd.
  destruct (partition os input contexts (whole km)) as [ms ps]. simpl in Hm, Hnd |- *.
  rewrite dispatched_spec by (by apply sort_matched_sorted). split.
  - intros (d & Hin & Hn & Ha). rewrite sort_matched_perm in Hin. exists d. split; [by apply Hm|]. split; [done|].
    intros d' ix' b' Hm' Hp. apply (Ha (d', ix', b')); [|done]. rewrite sort_matched_perm. by apply Hm.
  - intros (d & Hin & Hn & Ha). exists d. rewrite sort_matched_perm. split; [by apply Hm|]. split; [done|].
    intros [[d' ix'] b'] Hin'. rewrite sort_matched_perm in Hin'. apply Ha. by apply Hm.
Qed.

Lemma resolve_sorted km input contexts :
  StronglySorted (has_precedence contexts) (resolve_bindings_for_input os input contexts (whole km)).1.
Proof.
  unfold resolve_bindings_for_input. pose proof (matched_spec km input contexts) as Hm.
  pose proof (partition_nodup os input contexts (whole km) (whole_nodup km)) as Hnd.
  destruct (partition os input contexts (whole km)) as [ms ps]. simpl in Hm, Hnd |- *.
  apply dispatched_sorted; [by apply sort_matched_sorted|]. rewrite sort_matched_perm. apply Forall_elem.
  intros [[d ix] b] Hin. by apply Hm in Hin as (_ & ? & _).
Qed.

Lemma resolve_pending km input contexts :
  let r := resolve_bindings_for_input os input contexts (whole km) in
  r.2 = true <->
  exists ix b, begins km input contexts ix b /\ kept (head (map fst r.1)) ix /\ is_no_action (action b) = false /\
    forall ix' b', begins km input contexts ix' b' -> ix < ix' -> is_no_action (action b') = true ->
      keystrokes b' <> keystrokes b.
Proof.
  unfold resolve_bindings_for_input.
  pose proof (partition_pending os input contexts (whole km)) as Hp.
  destruct (partition os input contexts (whole km)) as [ms ps]. simpl in Hp |- *. subst ps.
  unfold whole. rewrite List.filter_rev, rev_involutive. set (f := fun p : nat * Binding => _).
  assert (Hf : forall ix b, (ix, b) ∈ List.filter f (enumerate (bindings km)) <-> begins km input contexts ix b).
  { intros ix b. rewrite list_elem_of_In, filter_In, <- list_elem_of_In, enumerate_spec. unfold begins, f. simpl.
    destruct (binding_enabled b contexts) as [d|]; [|by split; [intros [? ?]|intros (? & [? ?] & ?)]].
    destruct (match_keystrokes os b input) as [[]|]; naive_solver. }
  rewrite pending_fold_increasing by (apply increasing_filter, enumerate_increasing).
  split; intros (ix & b & Hin & Hk & Hn & Hl); exists ix, b; (split; [by apply Hf|]); do 2 (split; [done|]);
    intros ix' b' Hin'; apply Hl; by apply Hf.
Qed.
End Pending.

(** *** The bindings that may follow *)

Section NextBindings.
Context `{ActionTrait Action} (os : Os).
Abbreviation Binding := (KeyBinding Action).
Implicit Types (km : Keymap Action) (b : Binding).

Lemma combine_prefix {A B} (p : A * B -> bool) (ks : list A) a c :
  forallb p (combine ks (a ++ c)) = true -> forallb p (combine ks a) = true.
Proof.
  revert ks. induction a as [|x a IH]; intros [|k ks]; simpl; try done.
  rewrite !andb_true_iff. intros [? ?]. split; [done|by apply IH].
Qed.

(** A binding that matches a longer input is begun by the shorter one. *)
Lemma match_longer b input more :
  more <> [] -> match_keystrokes os b (input ++ more) = Some false -> match_keystrokes os b input = Some true.
Proof.
  intros Hne. unfold match_keystrokes. rewrite length_app.
  assert (1 <= length more) by (destruct more; simpl; [done|lia]).
  destruct (Nat.ltb_spec (length (keystrokes b)) (length input + length more)); [done|].
  destruct (forallb _ (combine _ (input ++ more))) eqn:E; [|done]. intros [= Hlt%Nat.ltb_ge].
  rewrite (combine_prefix _ _ _ _ E). destruct (Nat.ltb_spec (length (keystrokes b)) (length input)); [lia|].
  f_equal. apply Nat.ltb_lt. lia.
Qed.

Lemma begins_longer b input : match_keystrokes os b input = Some true -> drop (length input) (keystrokes b) <> [].
Proof.
  unfold match_keystrokes. case_match; [done|]. case_match; [|done]. intros [= Hlt%Nat.ltb_lt] Hd.
  apply (f_equal length) in Hd. rewrite length_drop in Hd. simpl in Hd. lia.
Qed.

(** Only the bindings that the input begins matter for the longer input. *)
Lemma resolve_extending km input contexts b :
  match_keystrokes os b input = Some true ->
  (resolve_bindings_for_input os (full_input b input) contexts (bindings_extending_input os km input)).1 =
  (resolve_bindings_for_input os (full_input b input) contexts (whole km)).1.
Proof.
  intros Hb. unfold resolve_bindings_for_input.
  assert (He : (partition os (full_input b input) contexts (bindings_extending_input os km input)).1 =
               (partition os (full_input b input) contexts (whole km)).1).
  { apply partition_filter. intros p Hp. unfold full_input in Hp. apply match_longer in Hp; [by rewrite Hp|].
    pose proof (begins_longer b input Hb). destruct (drop _ _); done. }
  destruct (partition os _ contexts (bindings_extending_input os km input)) as [ms ps].
  destruct (partition os _ contexts (whole km)) as [ms' ps']. simpl in *. by subst ms'.
Qed.

Lemma extending_spec km input ix b :
  (ix, b) ∈ bindings_extending_input os km input <->
  bindings km !! ix = Some b /\ match_keystrokes os b input = Some true.
Proof.
  unfold bindings_extending_input. fold (whole km).
  rewrite list_elem_of_In, filter_In, <- list_elem_of_In, elem_of_whole. simpl.
  destruct (match_keystrokes os b input) as [[]|]; naive_solver.
Qed.

Definition candidates km input contexts : list (nat * nat * Binding) :=
  omap (next_candidate os (bindings_extending_input os km input) input contexts)
    (List.filter (fun p => negb (is_no_action (action p.2))) (bindings_extending_input os km input)).

Lemma candidates_spec km input contexts d ix b :
  (d, ix, b) ∈ candidates km input contexts <->
  bindings km !! ix = Some b /\ match_keystrokes os b input = Some true /\
  binding_enabled b contexts = Some d /\ is_no_action (action b) = false /\
  (ix, b) ∈ (resolve_bindings_for_input os (full_input b input) contexts (whole km)).1.
Proof.
  unfold candidates. rewrite list_elem_of_omap.
  assert (Hc : forall ix0 b0, match_keystrokes os b0 input = Some true -> bindings km !! ix0 = Some b0 ->
    next_candidate os (bindings_extending_input os km input) input contexts (ix0, b0) = Some (d, ix, b) <->
    ix0 = ix /\ b0 = b /\ binding_enabled b contexts = Some d /\
    (ix, b) ∈ (resolve_bindings_for_input os (full_input b input) contexts (whole km)).1).
  { intros ix0 b0 Hb0 Hix0. unfold next_candidate. pose proof (resolve_extending km input contexts b0 Hb0) as He.
    destruct (resolve_bindings_for_input os (full_input b0 input) contexts (bindings_extending_input os km input)) as [bs p].
    simpl in He. subst bs. set (bs := (resolve_bindings_for_input os (full_input b0 input) contexts (whole km)).1).
    assert (Hbs : existsb (fun p => p.1 =? ix0) bs = true <-> (ix0, b0) ∈ bs).
    { rewrite existsb_exists. split.
      - intros ([ix1 b1] & Hin & Heq). simpl in Heq. apply Nat.eqb_eq in Heq as ->. apply list_elem_of_In in Hin.
        pose proof Hin as Hin'. apply resolve_dispatched in Hin' as (d1 & (Hix1 & _) & _). congruence.
      - intros Hin. exists (ix0, b0). split; [by apply list_elem_of_In|]. simpl. by apply Nat.eqb_eq. }
    destruct (binding_enabled b0 contexts) as [d0|] eqn:Ed; [|naive_solver].
    destruct (existsb _ bs); [naive_solver|].
    split; [done|]. intros (-> & -> & _ & Hin). by apply Hbs in Hin. }
  split.
  - intros ([ix0 b0] & Hin & He). rewrite list_elem_of_In, filter_In, <- list_elem_of_In in Hin.
    destruct Hin as [Hin Hn]. apply extending_spec in Hin as [Hix Hm]. apply Hc in He as (-> & -> & Hd & Hr); [|done|done].
    simpl in Hn. apply negb_true_iff in Hn. done.
  - intros (Hix & Hm & Hd & Hn & Hr). exists (ix, b). split; [|by apply Hc].
    rewrite list_elem_of_In, filter_In, <- list_elem_of_In. split; [by apply extending_spec|]. simpl. by rewrite Hn.
Qed.

Lemma filter_nodup_fst {A B} (f : A * B -> bool) (w : list (A * B)) :
  NoDup (map fst w) -> NoDup (map fst (List.filter f w)).
Proof.
  induction w as [|p w IH]; simpl; [done|]. intros [Hp Hnd]%list.NoDup_cons.
  destruct (f p); simpl; [|by apply IH]. apply list.NoDup_cons. split; [|by apply IH].
  intros Hin. apply Hp. apply list_elem_of_In, in_map_iff in Hin as (q & Hq & Hin).
  apply filter_In in Hin as [Hin _]. apply list_elem_of_In, in_map_iff. by exists q.
Qed.

Lemma omap_nodup {A B} (f : A -> option B) (g : B -> nat) (h : A -> nat) l :
  (forall p x, f p = Some x -> g x = h p) -> NoDup (map h l) -> NoDup (map g (omap f l)).
Proof.
  intros Hf. induction l as [|p l IH]; [done|]. intros [Hp Hnd]%list.NoDup_cons. specialize (IH Hnd).
  cbn [omap list_omap]. destruct (f p) as [x|] eqn:E; [|done]. cbn [map]. apply list.NoDup_cons. split; [|done].
  rewrite (Hf _ _ E). intros Hin. apply Hp. apply list_elem_of_In, in_map_iff in Hin as (y & Hy & Hin).
  apply list_elem_of_In, list_elem_of_omap in Hin as (q & Hq & Hqy). rewrite (Hf _ _ Hqy) in Hy. rewrite <- Hy.
  apply list_elem_of_In, in_map. by apply list_elem_of_In.
Qed.

Lemma candidates_nodup km input contexts : NoDup (map (fun x => x.1.2) (candidates km input contexts)).
Proof.
  unfold candidates. set (l := List.filter _ _).
  assert (Hl : NoDup (map fst l)).
  { unfold l, bindings_extending_input. fold (whole km). apply filter_nodup_fst, filter_nodup_fst, whole_nodup. }
  apply (omap_nodup _ _ fst); [|done]. intros [i c] x. unfold next_candidate.
  destruct (binding_enabled c contexts); [|done]. destruct (resolve_bindings_for_input _ _ _ _).
  destruct (existsb _ _); [|done]. by intros [= <-].
Qed.
End NextBindings.

(** ** The properties *)

Section Properties.
Context `{ActionTrait Action} (os : Os).
Abbreviation Binding := (KeyBinding Action).
Implicit Types (km : Keymap Action) (b : Binding).

(** The ways a keymap changes. *)
Inductive keymap_op :=
| AddBindings (bs : list Binding)
| ClearBindings.

Definition run_op km (op : keymap_op) : Keymap Action :=
  match op with
  | AddBindings bs => add_bindings km bs
  | ClearBindings => keymap_clear km
  end.

(** The bindings they leave. *)
Definition op_bindings (l : list Binding) (op : keymap_op) : list Binding :=
  match op with
  | AddBindings bs => l ++ bs
  | ClearBindings => []
  end.

(** After any sequence of [add_bindings] and [clear] a keymap holds the bindings
    added since the last [clear], its indices are right, and its version counts the
    changes.  So [bindings_for_action] accesses no index out of bounds and returns, in
    the order they were added, the bindings of the action's type that are equal to it
    and that no later [NoAction] binding disables: one with the same keystrokes, and no
    context or one that [is_superset] accepts for the binding's.  It returns none for
    [NoAction] itself. *)
Theorem keymap_index_correct (ops : list keymap_op) :
  let km := fold_left run_op ops keymap_default in
  bindings km = fold_left op_bindings ops [] /\ keymap_wf km /\
  version km = (N.of_nat (length ops) mod 2 ^ 64)%N /\
  forall a, bindings_for_action km a = Ok (action_bindings (bindings km) a) /\
    (is_no_action a = true -> bindings_for_action km a = Ok []).
Proof.
  assert (Hrun : forall km, keymap_wf km -> let km' := fold_left run_op ops km in
    keymap_wf km' /\ bindings km' = fold_left op_bindings ops (bindings km) /\
    (version km < 2 ^ 64 -> version km' = (version km + N.of_nat (length ops)) mod 2 ^ 64)%N).
  { induction ops as [|op ops IH]; intros km Hwf; simpl.
    - split; [done|]. split; [done|]. intros Hv. rewrite N.add_0_r. by rewrite N.mod_small.
    - assert (Hop : keymap_wf (run_op km op) /\ bindings (run_op km op) = op_bindings (bindings km) op /\
        version (run_op km op) = bump (version km)).
      { destruct op as [bs|]; [by apply add_bindings_wf|]. split; [apply keymap_clear_wf|done]. }
      destruct Hop as (Hwf' & Hb & Hv). destruct (IH _ Hwf') as (? & Hb' & Hv'). split; [done|].
      split; [by rewrite Hb', Hb|]. intros Hlt. rewrite Hv'; rewrite Hv; unfold bump; [|by apply N.mod_lt].
      rewrite N.Div0.add_mod_idemp_l. f_equal. lia. }
  destruct (Hrun keymap_default keymap_default_wf) as (Hwf & Hb & Hv). intros km.
  split; [done|]. split; [done|]. split; [by apply Hv|]. intros a. split; [by apply bindings_for_action_ok|].
  intros Ha. unfold km. rewrite (bindings_for_action_ok _ _ Hwf). f_equal. unfold action_bindings.
  generalize (seq 0 (length (bindings (fold_left run_op ops keymap_default)))). intros l.
  induction l as [|ix l IH]; csimpl; [done|]. rewrite IH. unfold binding_if, of_type.
  destruct (_ !! ix) as [b|]; [|done]. unfold is_no_action in *.
  destruct (N.eqb_spec (type_id (action b)) (type_id a)) as [He|]; [|by rewrite andb_false_r].
  rewrite He, Ha. done.
Qed.

(** Of the bindings that the input begins, those that are [NoAction] are a user's, and come
    after a binding of the same keystrokes exactly if they take precedence over it. *)
Definition nulls_in_order km (input : list Keystroke) (contexts : list KeyContext) : Prop :=
  forall d ix b d' ix' b', begins os km input contexts ix b -> binding_enabled b contexts = Some d -> is_no_action (action b) = false ->
    begins os km input contexts ix' b' -> binding_enabled b' contexts = Some d' -> is_no_action (action b') = true ->
    keystrokes b' = keystrokes b -> user_binding b' = true /\ (ix < ix' <-> precedes (d', ix') (d, ix) = true).

Lemma pending_by_precedence km input contexts ix b :
  nulls_in_order km input contexts -> begins os km input contexts ix b -> is_no_action (action b) = false ->
  (forall ix' b', begins os km input contexts ix' b' -> ix < ix' -> is_no_action (action b') = true -> keystrokes b' <> keystrokes b) <->
  (forall d d' ix' b', binding_enabled b contexts = Some d -> begins os km input contexts ix' b' -> binding_enabled b' contexts = Some d' ->
     is_no_action (action b') && user_binding b' = true -> precedes (d', ix') (d, ix) = true -> keystrokes b' <> keystrokes b).
Proof.
  intros Ho Hb Hn. split.
  - intros Hk d d' ix' b' Hd Hb' Hd' [Ha Hu]%andb_true_iff Hp E. destruct (Ho d ix b d' ix' b') as [_ Hlt]; [done..|].
    by apply (Hk ix' b' Hb' (proj2 Hlt Hp) Ha).
  - intros Hk ix' b' Hb' Hlt Ha E. destruct Hb as (Hb1 & [d Hd] & Hb2). pose proof Hb' as (_ & [d' Hd'] & _).
    destruct (Ho d ix b d' ix' b') as [Hu Hp]; [by split_and!|done..|]. apply (Hk d d' ix' b'); [done..| |by apply Hp|done]. by rewrite Ha, Hu.
Qed.

(** C16: [bindings_for_input] returns exactly the bindings that are enabled in the stack
    of contexts, whose keystrokes the input matches one by one, that are not [NoAction],
    and over which no user's [NoAction] binding that is enabled and matched takes
    precedence (one of a base keymap, with a nonzero [meta], disables nothing); in the
    order of precedence, by depth and then by the order they were added, the latest
    first.  And it reports that more keystrokes may follow exactly if the input begins
    the keystrokes of an enabled binding that is not [NoAction], that was not added
    before the first binding returned, and over which no user's enabled [NoAction]
    binding of the same keystrokes takes precedence; this second part only where the
    [NoAction] bindings that the input begins are a user's and the order in which they were
    added is that of precedence, since the code does not look at the depth of those
    ([null_of_other_context]). *)
Theorem bindings_for_input_correct km input contexts :
  exists bs pending,
    bindings_for_input os km input contexts = (map snd bs, pending) /\
    StronglySorted (has_precedence contexts) bs /\
    (forall ix b, (ix, b) ∈ bs <->
       exists d, matches os km input contexts d ix b /\ is_no_action (action b) = false /\
         forall d' ix' b', matches os km input contexts d' ix' b' -> precedes (d', ix') (d, ix) = true ->
           is_no_action (action b') && user_binding b' = false) /\
    (nulls_in_order km input contexts ->
     pending = true <->
       exists ix b, begins os km input contexts ix b /\ is_no_action (action b) = false /\
         (forall first b', head bs = Some (first, b') -> first <= ix) /\
         forall d d' ix' b', binding_enabled b contexts = Some d -> begins os km input contexts ix' b' -> binding_enabled b' contexts = Some d' ->
           is_no_action (action b') && user_binding b' = true -> precedes (d', ix') (d, ix) = true -> keystrokes b' <> keystrokes b).
Proof.
  unfold bindings_for_input. fold (whole km). pose proof (resolve_dispatched os km input contexts) as Hd.
  pose proof (resolve_sorted os km input contexts) as Hs. pose proof (resolve_pending os km input contexts) as Hp.
  destruct (resolve_bindings_for_input os input contexts (whole km)) as [bs pending]. simpl in Hd, Hs, Hp.
  exists bs, pending. split; [done|]. split; [done|]. split; [exact Hd|]. intros Ho. rewrite Hp.
  assert (Hk : forall ix, kept (head (map fst bs)) ix <-> forall first b', head bs = Some (first, b') -> first <= ix).
  { intros ix. destruct bs as [|[f b'] bs]; simpl; [done|]. naive_solver. }
  split.
  - intros (ix & b & Hb & Hix & Hn & Hl). exists ix, b. rewrite <- Hk, <- pending_by_precedence by done. done.
  - intros (ix & b & Hb & Hn & Hix & Hl). exists ix, b. rewrite Hk, pending_by_precedence by done. done.
Qed.

(** [possible_next_bindings_for_input], which resolves each candidate against the
    bindings that the input begins only, is right to: it returns, in the order of
    precedence, exactly the enabled bindings other than [NoAction] that the input
    begins and that [bindings_for_input] dispatches, among all bindings, when the rest
    of their keystrokes is typed. *)
Theorem possible_next_bindings_correct km input contexts :
  exists cs,
    possible_next_bindings_for_input os km input contexts = map snd cs /\ StronglySorted before cs /\
    forall d ix b, (d, ix, b) ∈ cs <->
      bindings km !! ix = Some b /\ match_keystrokes os b input = Some true /\
      binding_enabled b contexts = Some d /\ is_no_action (action b) = false /\
      exists d', matches os km (full_input b input) contexts d' ix b /\
        forall d'' ix' b', matches os km (full_input b input) contexts d'' ix' b' ->
          precedes (d'', ix') (d', ix) = true -> is_no_action (action b') && user_binding b' = false.
Proof.
  exists (sort_matched (candidates os km input contexts)). split; [done|].
  split; [apply sort_matched_sorted, candidates_nodup|]. intros d ix b.
  rewrite sort_matched_perm, candidates_spec, resolve_dispatched. unfold ends_search. naive_solver.
Qed.
End Properties.

(** *** Tests of keymap.rs, and the witnesses *)

Section Tests.
#[local] Existing Instance ascii_unicode.

(** Actions of three types, the first of which is [NoAction]. *)
#[local] Instance test_action : ActionTrait N := {|
  type_id := fun a => a;
  partial_eq := N.eqb;
  no_action_type_id := 0%N;
|}.

Definition binding (source : String.string) (a : N) (context : option String.string) : KeyBinding N :=
  match key_binding_new Linux (lit source) a (option_map lit context) with
  | Ok b => b
  | _ => mkKeyBinding a [] None None None
  end.

Definition typed (source : String.string) : list Keystroke := default [] (parse_all Linux (split_whitespace (lit source) [])).
Definition context (source : String.string) : KeyContext :=
  match context_parse (length (lit source)) (lit source) with Ok c => c | _ => [] end.

Arguments binding source%_string_scope a%_N_scope _.
Arguments typed source%_string_scope.
Arguments context source%_string_scope.

Definition disabled_keymap : Keymap N :=
  keymap_new [binding "space w w" 1 (Some "workspace"%string); binding "space w x" 2 None;
              binding "space w w" 0 (Some "editor"%string)].

Definition workspace_stack : list KeyContext := [context "workspace"].
Definition editor_stack : list KeyContext := [context "workspace"; context "editor mode=full"].

Definition result_actions (r : list (KeyBinding N) * bool) : list N * bool := (map action r.1, r.2).

Example test_keymap_disabled :
  map (fun '(input, stack) => result_actions (bindings_for_input Linux disabled_keymap (typed input) stack))
    [("space w w"%string, workspace_stack); ("space w w"%string, editor_stack); ("space"%string, editor_stack);
     ("space w x"%string, editor_stack)] =
  [([1%N], false); ([], false); ([], true); ([2%N], false)].
Proof. vm_compute. reflexivity. Qed.

Lemma keymap_index_correct_witness :
  let km := fold_left run_op [ClearBindings; AddBindings [binding "a" 1 None; binding "b" 1 None; binding "a" 0 None]] keymap_default in
  keymap_wf km /\ bindings_for_action km 0%N = Ok [] /\ bindings_for_action km 1%N = Ok [binding "b" 1 None].
Proof.
  pose proof (keymap_index_correct [ClearBindings; AddBindings [binding "a" 1 None; binding "b" 1 None; binding "a" 0 None]])
    as (_ & Hwf & _ & Ha).
  split; [exact Hwf|]. split; [by apply (Ha 0%N)|]. vm_compute. reflexivity.
Defined.

(** A [NoAction] of the workspace is added after a binding of the editor, which takes
    precedence: no keystrokes are reported to follow, and yet the binding is run by them. *)
Example null_of_other_context :
  let km := keymap_new [binding "ctrl-x 0" 1 (Some "editor"%string); binding "ctrl-x 0" 0 (Some "workspace"%string)] in
  result_actions (bindings_for_input Linux km (typed "ctrl-x") editor_stack) = ([], false) /\
  result_actions (bindings_for_input Linux km (typed "ctrl-x 0") editor_stack) = ([1%N], false).
Proof. split; vm_compute; reflexivity. Qed.

Lemma bindings_for_input_correct_witness :
  exists ix, bindings disabled_keymap !! ix = Some (binding "space w w" 1 (Some "workspace"%string)) /\
    bindings_for_input Linux disabled_keymap (typed "space w w") workspace_stack =
      ([binding "space w w" 1 (Some "workspace"%string)], false).
Proof.
  destruct (bindings_for_input_correct Linux disabled_keymap (typed "space w w") workspace_stack)
    as (bs & pending & Hr & _ & Hin & _).
  assert (Hbs : map snd bs = [binding "space w w" 1 (Some "workspace"%string)]).
  { assert (E : (map snd bs, pending) = ([binding "space w w" 1 (Some "workspace"%string)], false))
      by (rewrite <- Hr; vm_compute; reflexivity). by injection E. }
  destruct bs as [|[ix b] [|]]; try discriminate Hbs. injection Hbs as ->. exists ix.
  destruct (proj1 (Hin ix _) ltac:(apply elem_of_cons; by left)) as (d & (Hix & _) & _).
  split; [exact Hix|]. vm_compute. reflexivity.
Defined.

Lemma possible_next_bindings_correct_witness :
  exists cs : list (nat * nat * KeyBinding N), possible_next_bindings_for_input Linux disabled_keymap (typed "space w") editor_stack = map snd cs /\
    map snd cs = [binding "space w x" 2 None].
Proof.
  destruct (possible_next_bindings_correct Linux disabled_keymap (typed "space w") editor_stack) as (cs & Hr & _ & _).
  exists cs. split; [exact Hr|]. rewrite <- Hr. vm_compute. reflexivity.
Defined.
End Tests.
