(* ===== verification/DispatchTree.v ===== *)
(** * The dispatch tree: [crates/gpui/src/key_dispatch.rs]

    Every frame builds a tree of the elements that take part in the dispatch of
    actions and keystrokes.  [DispatchTree] keeps the nodes in the order they were
    pushed, the path of open nodes with their contexts and views, and where every
    focus handle and view is.  A subtree of the previous frame can be moved to the next
    one.  Keystrokes are resolved with the keymap along the path of the focused node;
    those that begin a binding are kept pending and replayed if nothing comes of them.

    The listeners are closures, of abstract types. *)

From Stdlib Require Import NArith Sorted String.
From stdpp Require Import base list option numbers gmap.
From S2P Require Import Prelude Text Actions KeyContext Keystroke Keymap.

#[local] Set Warnings "-register-all,-clear-no-such-hyp".

Section Dispatch.
Context `{ActionTrait Action} (os : Os).
(** The parameters of the registry, and the types of the listeners. *)
Context {Json Error Schema : Type} (empty_object : Json).
Context {KeyListener ModifiersChangedListener ActionListener : Type}.

Abbreviation Registry := (ActionRegistry (Json := Json) (Action := Action) (Error := Error) (Schema := Schema)).

Record DispatchActionListener := mkDispatchActionListener {
  action_type : N;
  listener : ActionListener;
}.

Record DispatchNode := mkDispatchNode {
  key_listeners : list KeyListener;
  action_listeners : list DispatchActionListener;
  modifiers_changed_listeners : list ModifiersChangedListener;
  context : option KeyContext;
  focus_id : option N;
  view_id : option N;
  parent : option nat;
}.

Record DispatchTree := mkDispatchTree {
  node_stack : list nat;
  context_stack : list KeyContext;
  view_stack : list N;
  nodes : list DispatchNode;
  focusable_node_ids : gmap N nat;
  view_node_ids : gmap N nat;
  keymap : Keymap Action;
  action_registry : Registry;
}.

Implicit Types (t : DispatchTree) (nd : DispatchNode).

(** ** Updates of one field *)

Definition with_stacks t ns cs vs : DispatchTree :=
  mkDispatchTree ns cs vs (nodes t) (focusable_node_ids t) (view_node_ids t) (keymap t) (action_registry t).

Definition with_nodes t l : DispatchTree :=
  mkDispatchTree (node_stack t) (context_stack t) (view_stack t) l (focusable_node_ids t) (view_node_ids t)
    (keymap t) (action_registry t).

Definition with_ids t f v : DispatchTree :=
  mkDispatchTree (node_stack t) (context_stack t) (view_stack t) (nodes t) f v (keymap t) (action_registry t).

Definition node_with_context nd c : DispatchNode :=
  mkDispatchNode (key_listeners nd) (action_listeners nd) (modifiers_changed_listeners nd) c (focus_id nd) (view_id nd) (parent nd).
Definition node_with_focus nd f : DispatchNode :=
  mkDispatchNode (key_listeners nd) (action_listeners nd) (modifiers_changed_listeners nd) (context nd) f (view_id nd) (parent nd).
Definition node_with_view nd v : DispatchNode :=
  mkDispatchNode (key_listeners nd) (action_listeners nd) (modifiers_changed_listeners nd) (context nd) (focus_id nd) v (parent nd).
Definition node_with_listeners nd kl al ml : DispatchNode :=
  mkDispatchNode kl al ml (context nd) (focus_id nd) (view_id nd) (parent nd).

(** ** Building the tree *)

Definition tree_new (km : Keymap Action) (r : Registry) : DispatchTree := mkDispatchTree [] [] [] [] ∅ ∅ km r.

Definition clear t : DispatchTree := mkDispatchTree [] [] [] [] ∅ ∅ (keymap t) (action_registry t).

Definition tree_len t : nat := length (nodes t).

Definition active_node_id t : option nat := list.last (node_stack t).

Definition node t (id : nat) : outcome DispatchNode := index (nodes t) id.

(** An update of [active_node()]. *)
Definition update_active t (f : DispatchNode -> DispatchNode) : outcome DispatchTree :=
  let! id := unwrap (active_node_id t) in
  let! nd := index (nodes t) id in
  Ok (with_nodes t (<[id := f nd]> (nodes t))).

Definition push_node t : DispatchTree * nat :=
  let id := length (nodes t) in
  (with_stacks (with_nodes t (nodes t ++ [mkDispatchNode [] [] [] None None None (active_node_id t)]))
     (node_stack t ++ [id]) (context_stack t) (view_stack t), id).

(** [Vec::pop] when the node has the field. *)
Definition pop_if {A B} (o : option A) (l : list B) : list B :=
  match o with Some _ => removelast l | None => l end.

Definition pop_node t : outcome DispatchTree :=
  let! id := unwrap (active_node_id t) in
  let! nd := index (nodes t) id in
  Ok (with_stacks t (removelast (node_stack t)) (pop_if (context nd) (context_stack t)) (pop_if (view_id nd) (view_stack t))).

(** The first loop of [set_active_node]. *)
Fixpoint pop_until (fuel : nat) t (next_node_parent : option nat) : outcome DispatchTree :=
  if negb (bool_decide (active_node_id t = next_node_parent)) && negb (bool_decide (node_stack t = [])) then
    match fuel with
    | 0 => OutOfFuel
    | S fuel => let! t := pop_node t in pop_until fuel t next_node_parent
    end
  else Ok t.

(** The second: from the node to the root. *)
Fixpoint push_ancestors (fuel : nat) t (current : option nat) : outcome DispatchTree :=
  match current with
  | None => Ok t
  | Some id =>
      match fuel with
      | 0 => OutOfFuel
      | S fuel =>
          let! nd := index (nodes t) id in
          push_ancestors fuel
            (with_stacks t (node_stack t ++ [id]) (context_stack t ++ opt_list (context nd)) (view_stack t ++ opt_list (view_id nd)))
            (parent nd)
      end
  end.

Definition set_active_node t (id : nat) : outcome DispatchTree :=
  let! nd := index (nodes t) id in
  let! t := pop_until (length (node_stack t)) t (parent nd) in
  if bool_decide (active_node_id t = parent nd) then
    let! active := index (nodes t) id in
    Ok (with_stacks t (node_stack t ++ [id]) (context_stack t ++ opt_list (context active)) (view_stack t ++ opt_list (view_id active)))
  else
    let! t := push_ancestors (S (length (nodes t))) t (Some id) in
    Ok (with_stacks t (rev (node_stack t)) (rev (context_stack t)) (rev (view_stack t))).

Definition set_key_context t (c : KeyContext) : outcome DispatchTree :=
  let! t := update_active t (fun nd => node_with_context nd (Some c)) in
  Ok (with_stacks t (node_stack t) (context_stack t ++ [c]) (view_stack t)).

Definition set_focus_id t (f : N) : outcome DispatchTree :=
  let! id := unwrap (active_node_id t) in
  let! nd := index (nodes t) id in
  let t := with_nodes t (<[id := node_with_focus nd (Some f)]> (nodes t)) in
  Ok (with_ids t (<[f := id]> (focusable_node_ids t)) (view_node_ids t)).

Definition set_view_id t (v : N) : outcome DispatchTree :=
  if bool_decide (list.last (view_stack t) = Some v) then Ok t
  else
    let! id := unwrap (active_node_id t) in
    let! nd := index (nodes t) id in
    let t := with_nodes t (<[id := node_with_view nd (Some v)]> (nodes t)) in
    let t := with_ids t (focusable_node_ids t) (<[v := id]> (view_node_ids t)) in
    Ok (with_stacks t (node_stack t) (context_stack t) (view_stack t ++ [v])).

Definition on_key_event t (l : KeyListener) : outcome DispatchTree :=
  update_active t (fun nd => node_with_listeners nd (key_listeners nd ++ [l]) (action_listeners nd) (modifiers_changed_listeners nd)).

Definition on_modifiers_changed t (l : ModifiersChangedListener) : outcome DispatchTree :=
  update_active t (fun nd => node_with_listeners nd (key_listeners nd) (action_listeners nd) (modifiers_changed_listeners nd ++ [l])).

Definition on_action t (ty : N) (l : ActionListener) : outcome DispatchTree :=
  update_active t (fun nd => node_with_listeners nd (key_listeners nd) (action_listeners nd ++ [mkDispatchActionListener ty l])
                               (modifiers_changed_listeners nd)).

(** An optional call. *)
Definition when {A} (o : option A) (f : DispatchTree -> A -> outcome DispatchTree) t : outcome DispatchTree :=
  match o with Some a => f t a | None => Ok t end.

(** [move_node]: the tree, and the source node without its listeners. *)
Definition move_node t (source : DispatchNode) : outcome (DispatchTree * DispatchNode) :=
  let (t, _) := push_node t in
  let! t := when (context source) set_key_context t in
  let! t := when (focus_id source) set_focus_id t in
  let! t := when (view_id source) set_view_id t in
  let! t := update_active t (fun nd => node_with_listeners nd (key_listeners source) (action_listeners source)
                                         (modifiers_changed_listeners source)) in
  Ok (t, node_with_listeners source [] [] []).

(** The ancestors to leave before a node is moved. *)
Fixpoint leave_ancestors (fuel : nat) t (source_stack : list nat) (source_parent : option nat) : outcome (DispatchTree * list nat) :=
  match list.last source_stack with
  | None => Ok (t, source_stack)
  | Some source_ancestor =>
      if bool_decide (source_parent = Some source_ancestor) then Ok (t, source_stack)
      else
        match fuel with
        | 0 => OutOfFuel
        | S fuel => let! t := pop_node t in leave_ancestors fuel t (removelast source_stack) source_parent
        end
  end.

(** The loop over the source nodes: the tree, the stack, whether the focus was met, and
    the source nodes that are left. *)
Fixpoint reuse_nodes (focus : option N) (source : list (nat * DispatchNode)) t (source_stack : list nat) (contains_focus : bool)
    : outcome (DispatchTree * list nat * bool * list DispatchNode) :=
  match source with
  | [] => Ok (t, source_stack, contains_focus, [])
  | (id, source_node) :: source =>
      let! (t, source_stack) := leave_ancestors (length source_stack) t source_stack (parent source_node) in
      let source_stack := source_stack ++ [id] in
      let contains_focus :=
        match focus_id source_node with
        | Some f => if bool_decide (focus = Some f) then true else contains_focus
        | None => contains_focus
        end in
      let! (t, moved) := move_node t source_node in
      let! (t, source_stack, contains_focus, emptied) := reuse_nodes focus source t source_stack contains_focus in
      Ok (t, source_stack, contains_focus, moved :: emptied)
  end.

(** The final loop. *)
Fixpoint pop_nodes t (source_stack : list nat) : outcome DispatchTree :=
  match source_stack with
  | [] => Ok t
  | _ :: source_stack => let! t := pop_node t in pop_nodes t source_stack
  end.

Record ReusedSubtree := mkReusedSubtree {
  old_range : nat * nat;
  new_range : nat * nat;
  contains_focus : bool;
}.

(** [reuse_subtree]: the tree, the source tree, and the result. *)
Definition reuse_subtree t (range : nat * nat) (source : DispatchTree) (focus : option N)
    : outcome (DispatchTree * DispatchTree * ReusedSubtree) :=
  let (lo, hi) := range in
  let new := (length (nodes t), length (nodes t) + (hi - lo)) in
  let moved := take (hi - lo) (drop lo (combine (seq 0 (length (nodes source))) (nodes source))) in
  let! (t, source_stack, focused, emptied) := reuse_nodes focus moved t [] false in
  let! t := pop_nodes t source_stack in
  Ok (t, with_nodes source (take lo (nodes source) ++ emptied ++ drop (lo + length emptied) (nodes source)),
      mkReusedSubtree range new focused).

(** [usize] subtraction panics below zero. *)
Definition refresh_node_id (r : ReusedSubtree) (id : nat) : outcome nat :=
  if id <? (old_range r).1 then Panic else Ok (id - (old_range r).1 + (new_range r).1).

Definition forget_node t nd : DispatchTree :=
  with_ids t
    (match focus_id nd with Some f => delete f (focusable_node_ids t) | None => focusable_node_ids t end)
    (match view_id nd with Some v => delete v (view_node_ids t) | None => view_node_ids t end).

Definition truncate t (ix : nat) : outcome DispatchTree :=
  if length (nodes t) <? ix then Panic
  else
    let t := fold_left forget_node (drop ix (nodes t)) t in
    Ok (with_nodes t (take ix (nodes t))).

(** ** Queries *)

(** The loop of [focus_contains]. *)
Fixpoint climbs_to (fuel : nat) t (current : option nat) (target : nat) : outcome bool :=
  match current with
  | None => Ok false
  | Some id =>
      match fuel with
      | 0 => OutOfFuel
      | S fuel =>
          if id =? target then Ok true
          else let! nd := index (nodes t) id in climbs_to fuel t (parent nd) target
      end
  end.

Definition focus_contains t (parent child : N) : outcome bool :=
  if (parent =? child)%N then Ok true
  else match focusable_node_ids t !! parent with
       | Some parent_node_id => climbs_to (S (length (nodes t))) t (focusable_node_ids t !! child) parent_node_id
       | None => Ok false
       end.

(** The loop of [dispatch_path], which starts from a node that need not exist. *)
Fixpoint climb (fuel : nat) t (current : option nat) : outcome (list nat) :=
  match current with
  | None => Ok []
  | Some id =>
      match fuel with
      | 0 => OutOfFuel
      | S fuel =>
          let! path := climb fuel t (match nodes t !! id with Some nd => parent nd | None => None end) in
          Ok (id :: path)
      end
  end.

Definition dispatch_path t (target : nat) : outcome (list nat) :=
  let! path := climb (S (length (nodes t))) t (Some target) in Ok (rev path).

(** The loops of [focus_path] and [view_path]: [get] is the field they collect. *)
Fixpoint climb_collect {B} (get : DispatchNode -> option B) (fuel : nat) t (current : option nat) : outcome (list B) :=
  match current with
  | None => Ok []
  | Some id =>
      match fuel with
      | 0 => OutOfFuel
      | S fuel =>
          let! nd := node t id in
          let! path := climb_collect get fuel t (parent nd) in
          Ok (opt_list (get nd) ++ path)
      end
  end.

Definition focus_path t (f : N) : outcome (list N) :=
  let! path := climb_collect focus_id (S (length (nodes t))) t (focusable_node_ids t !! f) in Ok (rev path).

Definition view_path t (v : N) : outcome (list N) :=
  let! path := climb_collect view_id (S (length (nodes t))) t (view_node_ids t !! v) in Ok (rev path).

Definition focusable_node_id t (target : N) : option nat := focusable_node_ids t !! target.

(** [root_node_id], without its debug assertion. *)
Definition root_node_id t : nat := 0.

(** *** Actions *)

(** [binary_search_by_key] on the actions, which are sorted by type: where the type is, or
    where it belongs. *)
Definition binary_search (actions : list Action) (ty : N) : nat + nat :=
  let ix := length (List.filter (fun a => (type_id a <? ty)%N) actions) in
  match actions !! ix with
  | Some a => if (type_id a =? ty)%N then inl ix else inr ix
  | None => inr ix
  end.

(** The body of the inner loop of [available_actions]. *)
Definition add_available t (actions : list Action) (l : DispatchActionListener) : list Action :=
  match binary_search actions (action_type l) with
  | inl _ => actions
  | inr ix =>
      match build_action_type empty_object (action_registry t) (action_type l) with
      | Some a => take ix actions ++ a :: drop ix actions
      | None => actions
      end
  end.

Definition available_on t (actions : list Action) (id : nat) : outcome (list Action) :=
  let! nd := index (nodes t) id in
  Ok (fold_left (add_available t) (action_listeners nd) actions).

Definition available_actions t (target : nat) : outcome (list Action) :=
  let! path := dispatch_path t target in ofold (available_on t) path [].

(** The loop of [is_action_available]. *)
Fixpoint available_along t (a : Action) (path : list nat) : outcome bool :=
  match path with
  | [] => Ok false
  | id :: path =>
      let! nd := index (nodes t) id in
      if existsb (fun l => (action_type l =? type_id a)%N) (action_listeners nd) then Ok true
      else available_along t a path
  end.

Definition is_action_available t (a : Action) (target : nat) : outcome bool :=
  let! path := dispatch_path t target in available_along t a path.

(** *** Bindings *)

Definition binding_matches_predicate_and_not_shadowed (km : Keymap Action) (b : KeyBinding Action)
    (contexts : list KeyContext) : bool :=
  let (bs, _) := Keymap.bindings_for_input os km (map inner (keystrokes b)) contexts in
  match bs with
  | found :: _ => partial_eq (action found) (action b)
  | [] => false
  end.

Definition tree_bindings_for_action t (a : Action) (contexts : list KeyContext) : outcome (list (KeyBinding Action)) :=
  let! bs := Keymap.bindings_for_action (keymap t) a in
  Ok (List.filter (fun b => binding_matches_predicate_and_not_shadowed (keymap t) b contexts) bs).

Definition highest_precedence_binding_for_action t (a : Action) (contexts : list KeyContext)
    : outcome (option (KeyBinding Action)) :=
  let! bs := Keymap.bindings_for_action (keymap t) a in
  Ok (List.find (fun b => binding_matches_predicate_and_not_shadowed (keymap t) b contexts) (rev bs)).

(** The contexts along a path. *)
Fixpoint contexts_along t (path : list nat) : outcome (list KeyContext) :=
  match path with
  | [] => Ok []
  | id :: path =>
      let! nd := node t id in
      let! l := contexts_along t path in
      Ok (opt_list (context nd) ++ l)
  end.

Definition tree_bindings_for_input t (input : list Keystroke) (path : list nat)
    : outcome (list (KeyBinding Action) * bool * list KeyContext) :=
  let! contexts := contexts_along t path in
  let (bs, partial) := Keymap.bindings_for_input os (keymap t) input contexts in
  Ok (bs, partial, contexts).

(** ** Keystrokes *)

Record Replay := mkReplay {
  replay_keystroke : Keystroke;
  replay_bindings : list (KeyBinding Action);
}.

Record DispatchResult := mkDispatchResult {
  result_pending : list Keystroke;
  result_bindings : list (KeyBinding Action);
  to_replay : list Replay;
  result_context_stack : list KeyContext;
}.

(** The loop of [replay_prefix], [last] from [n - 1] to 0: the number of keystrokes drained
    and the bindings. *)
Fixpoint longest_bound t (input : list Keystroke) (path : list nat) (n : nat) : outcome (option (nat * list (KeyBinding Action))) :=
  match n with
  | 0 => Ok None
  | S last =>
      let! (bs, _, _) := tree_bindings_for_input t (take (S last) input) path in
      match bs with
      | [] => longest_bound t input path last
      | _ :: _ => Ok (Some (S last, bs))
      end
  end.

Definition replay_prefix t (input : list Keystroke) (path : list nat) : outcome (list Keystroke * list Replay) :=
  let! found := longest_bound t input path (length input) in
  match found with
  | Some (n, bs) => let! k := unwrap (list.last (take n input)) in Ok (drop n input, [mkReplay k bs])
  | None => match input with
            | [] => Panic
            | k :: input => Ok (input, [mkReplay k []])
            end
  end.

Fixpoint dispatch_loop (fuel : nat) t (input : list Keystroke) (k : Keystroke) (path : list nat) : outcome DispatchResult :=
  match fuel with
  | 0 => OutOfFuel
  | S fuel =>
      let! (bs, pending, contexts) := tree_bindings_for_input t (input ++ [k]) path in
      if pending then Ok (mkDispatchResult (input ++ [k]) [] [] contexts)
      else match bs with
           | _ :: _ => Ok (mkDispatchResult [] bs [] contexts)
           | [] =>
               if length (input ++ [k]) =? 1 then Ok (mkDispatchResult [] [] [] contexts)
               else
                 let! (suffix, replay) := replay_prefix t input path in
                 let! r := dispatch_loop fuel t suffix k path in
                 Ok (mkDispatchResult (result_pending r) (result_bindings r) (replay ++ to_replay r) (result_context_stack r))
           end
  end.

Definition dispatch_key t (input : list Keystroke) (k : Keystroke) (path : list nat) : outcome DispatchResult :=
  dispatch_loop (S (length input)) t input k path.

Fixpoint flush_loop (fuel : nat) t (input : list Keystroke) (path : list nat) : outcome (list Replay) :=
  match fuel with
  | 0 => OutOfFuel
  | S fuel =>
      let! (suffix, replay) := replay_prefix t input path in
      match suffix with
      | [] => Ok replay
      | _ :: _ => let! rest := flush_loop fuel t suffix path in Ok (replay ++ rest)
      end
  end.

Definition flush_dispatch t (input : list Keystroke) (path : list nat) : outcome (list Replay) :=
  flush_loop (S (length input)) t input path.
End Dispatch.
