(* ===== verification/DispatchInvariant.v ===== *)
(** * The invariant of the dispatch tree

    The nodes form a forest in which parents come first; the stacks of a
    [DispatchTree] are the path of the active node with its contexts and views; and the
    maps point at nodes that carry the identifiers they are filed under.  Every
    operation keeps this, and under it the walks to the root end and visit the
    ancestors. *)

From Stdlib Require Import NArith Sorted String.
From stdpp Require Import base list option numbers gmap.
From S2P Require Import Prelude Text Actions KeyContext Keystroke Keymap DispatchTree.

#[local] Set Warnings "-register-all,-clear-no-such-hyp".

Section Invariant.
Context `{ActionTrait Action}.
Context {Json Error Schema : Type}.
Context {KeyListener ModifiersChangedListener ActionListener : Type}.

Abbreviation Node := (DispatchNode (KeyListener := KeyListener) (ModifiersChangedListener := ModifiersChangedListener)
  (ActionListener := ActionListener)).
Abbreviation Tree := (DispatchTree (Action := Action) (Json := Json) (Error := Error) (Schema := Schema)
  (KeyListener := KeyListener) (ModifiersChangedListener := ModifiersChangedListener) (ActionListener := ActionListener)).

Implicit Types (t : Tree) (nd : Node) (ns : list Node).

(** ** Paths *)

(** [path] leads from a root to the node [id]. *)
Inductive path_to (ns : list Node) : nat -> list nat -> Prop :=
| path_root id nd : ns !! id = Some nd -> parent nd = None -> path_to ns id [id]
| path_child id nd p path :
    ns !! id = Some nd -> parent nd = Some p -> path_to ns p path -> path_to ns id (path ++ [id]).

(** The values of a field along a path. *)
Definition field {B} (get : Node -> option B) ns (id : nat) : option B := ns !! id ≫= get.
Definition collect {B} (get : Node -> option B) ns (path : list nat) : list B := omap (field get ns) path.

(** Parents come first. *)
Definition parents_wf ns : Prop :=
  forall id nd p, ns !! id = Some nd -> parent nd = Some p -> p < id.

Lemma path_exists ns id : parents_wf ns -> id < length ns -> exists path, path_to ns id path.
Proof.
  intros Hwf. induction id as [id IH] using lt_wf_ind. intros Hid.
  destruct (lookup_lt_is_Some_2 ns id Hid) as [nd Hnd]. destruct (parent nd) as [p|] eqn:Hp.
  - assert (p < id) by eauto. destruct (IH p) as [path Hpath]; [done|lia|]. eexists. by eapply path_child.
  - eexists. by eapply path_root.
Qed.

Lemma path_last ns id path : path_to ns id path -> list.last path = Some id.
Proof. destruct 1; [done|]. apply last_snoc. Qed.

Lemma path_nonempty ns id path : path_to ns id path -> path <> [].
Proof. destruct 1; [done|]. by destruct path. Qed.

Lemma path_functional ns id path path' : path_to ns id path -> path_to ns id path' -> path = path'.
Proof.
  intros H1. revert path'. induction H1 as [id nd Hnd Hp|id nd p path Hnd Hp _ IH]; intros path' H2;
    destruct H2 as [id nd' Hnd' Hp'|id nd' p' path' Hnd' Hp' H2]; simplify_eq; try congruence; try done.
  by rewrite (IH _ H2).
Qed.

Lemma path_lookup ns id path i : path_to ns id path -> i ∈ path -> is_Some (ns !! i).
Proof.
  induction 1 as [id nd Hnd|id nd p path Hnd Hp _ IH]; intros Hi.
  - apply list_elem_of_singleton in Hi as ->. by eexists.
  - apply elem_of_app in Hi as [Hi|Hi%list_elem_of_singleton]; [auto|]. subst. by eexists.
Qed.

Lemma path_le ns id path i : parents_wf ns -> path_to ns id path -> i ∈ path -> i <= id.
Proof.
  intros Hwf. induction 1 as [id nd Hnd|id nd p path Hnd Hp _ IH]; intros Hi.
  - by apply list_elem_of_singleton in Hi as ->.
  - apply elem_of_app in Hi as [Hi|Hi%list_elem_of_singleton]; [|lia]. assert (p < id) by eauto. specialize (IH Hi). lia.
Qed.

Lemma path_length ns id path : parents_wf ns -> path_to ns id path -> length path <= S id.
Proof.
  intros Hwf. induction 1 as [id nd Hnd|id nd p path Hnd Hp _ IH]; [simpl; lia|].
  assert (p < id) by eauto. rewrite length_app. simpl. lia.
Qed.

(** A path of the tree has only its own node at the end. *)
Lemma path_snoc_notin ns id path : parents_wf ns -> path_to ns id (path ++ [id]) -> id ∉ path.
Proof.
  intros Hwf Hp Hin. remember (path ++ [id]) as whole eqn:E.
  destruct Hp as [id nd Hnd Hpar|id nd p path' Hnd Hpar Hp'].
  - destruct path; [by apply elem_of_nil in Hin|by destruct path].
  - apply app_inj_tail in E as [-> _]. assert (p < id) by eauto.
    pose proof (path_le _ _ _ _ Hwf Hp' Hin). lia.
Qed.

Lemma path_prefix ns id path i :
  path_to ns id path -> i ∈ path -> exists before after, path = before ++ after /\ path_to ns i before.
Proof.
  induction 1 as [id nd Hnd|id nd p path Hnd Hp Hpath IH]; intros Hi.
  - apply list_elem_of_singleton in Hi as ->. exists [id], []. split; [done|]. by eapply path_root.
  - apply elem_of_app in Hi as [Hi|Hi%list_elem_of_singleton].
    + destruct (IH Hi) as (b & a & -> & Hb). exists b, (a ++ [id]). by rewrite app_assoc.
    + subst. exists (path ++ [id]), []. rewrite app_nil_r. split; [done|]. by eapply path_child.
Qed.

(** A path only depends on the parents of its nodes. *)
Lemma path_transfer ns ns' id path :
  (forall i nd, i ∈ path -> ns !! i = Some nd -> exists nd', ns' !! i = Some nd' /\ parent nd' = parent nd) ->
  path_to ns id path -> path_to ns' id path.
Proof.
  intros Ht. induction 1 as [id nd Hnd Hp|id nd p path Hnd Hp _ IH].
  - destruct (Ht id nd) as (nd' & Hnd' & E); [by apply list_elem_of_singleton|done|].
    eapply path_root; [done|congruence].
  - destruct (Ht id nd) as (nd' & Hnd' & E); [apply elem_of_app; right; by apply list_elem_of_singleton|done|].
    eapply path_child; [done|by rewrite E|]. apply IH. intros i nd'' Hi. apply Ht, elem_of_app. by left.
Qed.

Lemma collect_app {B} (get : Node -> option B) ns l l' : collect get ns (l ++ l') = collect get ns l ++ collect get ns l'.
Proof. apply omap_app. Qed.

Lemma collect_one {B} (get : Node -> option B) ns id nd : ns !! id = Some nd -> collect get ns [id] = opt_list (get nd).
Proof. intros Hnd. unfold collect, field. csimpl. rewrite Hnd. simpl. by destruct (get nd). Qed.

Lemma collect_transfer {B} (get : Node -> option B) ns ns' path :
  (forall i, i ∈ path -> field get ns' i = field get ns i) -> collect get ns' path = collect get ns path.
Proof.
  unfold collect. induction path as [|i path IH]; csimpl; intros Ht; [done|].
  rewrite (Ht i) by (apply elem_of_cons; by left). rewrite IH; [done|]. intros j Hj. apply Ht, elem_of_cons. by right.
Qed.

(** *** Nodes appended *)

Lemma lookup_prefix ns ns' id nd : ns `prefix_of` ns' -> ns !! id = Some nd -> ns' !! id = Some nd.
Proof. intros [k ->] Hnd. by apply lookup_app_l_Some. Qed.

Lemma path_extend ns ns' id path : ns `prefix_of` ns' -> path_to ns id path -> path_to ns' id path.
Proof. intros Hp. apply path_transfer. intros i nd _ Hnd. exists nd. split; [by eapply lookup_prefix|done]. Qed.

Lemma collect_extend {B} (get : Node -> option B) ns ns' path :
  ns `prefix_of` ns' -> Forall (fun i => i < length ns) path -> collect get ns' path = collect get ns path.
Proof.
  intros Hp Hf. apply collect_transfer. intros i Hi. unfold field. rewrite Forall_elem in Hf.
  destruct (lookup_lt_is_Some_2 ns i (Hf i Hi)) as [nd Hnd]. by rewrite Hnd, (lookup_prefix _ _ _ _ Hp Hnd).
Qed.

Lemma path_in_range ns id path : path_to ns id path -> Forall (fun i => i < length ns) path.
Proof. intros Hp. apply Forall_elem. intros i Hi. eapply lookup_lt_is_Some_1, path_lookup; eauto. Qed.

(** ** The invariant *)

Record tree_wf t : Prop := mkTreeWf {
  wf_parents : parents_wf (nodes t);
  wf_stack : forall id, active_node_id t = Some id -> path_to (nodes t) id (node_stack t);
  wf_contexts : context_stack t = collect context (nodes t) (node_stack t);
  wf_views : view_stack t = collect view_id (nodes t) (node_stack t);
  wf_focus f id : focusable_node_ids t !! f = Some id -> field focus_id (nodes t) id = Some f;
  wf_view v id : view_node_ids t !! v = Some id -> field view_id (nodes t) id = Some v;
}.

Lemma tree_new_wf km r : tree_wf (tree_new km r).
Proof. split; simpl; try done; intros ? ?; by rewrite lookup_empty. Qed.

Lemma clear_wf t : tree_wf (clear t).
Proof. split; simpl; try done; intros ? ?; by rewrite lookup_empty. Qed.

(** The active node, its record, and the path to its parent. *)
Lemma active_inv t :
  tree_wf t -> node_stack t <> [] ->
  exists above id nd, node_stack t = above ++ [id] /\ active_node_id t = Some id /\ nodes t !! id = Some nd /\
    path_to (nodes t) id (above ++ [id]) /\ id ∉ above.
Proof.
  intros Hwf Hne. destruct (list_snoc_inv _ Hne) as (above & id & E). exists above, id.
  assert (Ha : active_node_id t = Some id) by (unfold active_node_id; rewrite E; apply last_snoc).
  pose proof (wf_stack _ Hwf _ Ha) as Hp. rewrite E in Hp.
  destruct (path_lookup _ _ _ id Hp) as [nd Hnd]; [apply elem_of_app; right; by apply list_elem_of_singleton|].
  exists nd. split_and!; [done|done|done|done|]. eapply path_snoc_notin; [apply Hwf|done].
Qed.

Lemma stack_nil t : node_stack t = [] -> active_node_id t = None.
Proof. unfold active_node_id. by intros ->. Qed.

Lemma stack_not_nil t id : active_node_id t = Some id -> node_stack t <> [].
Proof. unfold active_node_id. intros E Hn. by rewrite Hn in E. Qed.

(** *** Pushing *)

Lemma push_node_wf t :
  tree_wf t ->
  let t' := (push_node t).1 in
  tree_wf t' /\ nodes t `prefix_of` nodes t' /\ length (nodes t') = S (length (nodes t)) /\
  node_stack t' = node_stack t ++ [length (nodes t)] /\ active_node_id t' = Some (length (nodes t)) /\
  nodes t' !! length (nodes t) = Some (mkDispatchNode [] [] [] None None None (active_node_id t)) /\
  focusable_node_ids t' = focusable_node_ids t /\ view_node_ids t' = view_node_ids t.
Proof.
  intros Hwf t'. set (nd := mkDispatchNode [] [] [] None None None (active_node_id t)).
  assert (Hpre : nodes t `prefix_of` nodes t') by (by eexists).
  assert (Hnd : nodes t' !! length (nodes t) = Some nd) by (by apply list_lookup_middle).
  assert (Hact : active_node_id t' = Some (length (nodes t))) by (unfold active_node_id; apply last_snoc).
  assert (Hin : forall p, active_node_id t = Some p -> path_to (nodes t) p (node_stack t)) by apply (wf_stack _ Hwf).
  assert (Hrange : Forall (fun i => i < length (nodes t)) (node_stack t)).
  { destruct (active_node_id t) as [p|] eqn:Ep; [eapply path_in_range; by apply Hin|].
    unfold active_node_id in Ep. apply last_None in Ep. rewrite Ep. constructor. }
  split; [|split_and!; try done;
    change (nodes t') with (nodes t ++ [nd]); rewrite length_app; simpl; lia].
  split.
  - intros id nd' p Hid Hp. change (nodes t') with (nodes t ++ [nd]) in Hid.
    apply lookup_app_Some in Hid as [Hid|[Hge Hid]]; [by eapply (wf_parents _ Hwf)|].
    apply list_lookup_singleton_Some in Hid as [Hid <-]. simpl in Hp.
    pose proof (Hin p Hp) as Hpp. apply path_in_range in Hpp. rewrite Forall_elem in Hpp.
    assert (p ∈ node_stack t) by (unfold active_node_id in Hp; by apply last_Some_elem_of).
    specialize (Hpp p ltac:(done)). lia.
  - intros id Hid. rewrite Hact in Hid. injection Hid as <-. change (node_stack t') with (node_stack t ++ [length (nodes t)]).
    destruct (active_node_id t) as [p|] eqn:Ep.
    + eapply path_child; [exact Hnd|reflexivity|]. by eapply path_extend, Hin.
    + unfold active_node_id in Ep. apply last_None in Ep as Ens. rewrite Ens. simpl. by eapply path_root.
  - change (node_stack t') with (node_stack t ++ [length (nodes t)]). rewrite collect_app, (collect_one _ _ _ _ Hnd). simpl.
    rewrite app_nil_r, (collect_extend _ _ _ _ Hpre Hrange). apply (wf_contexts _ Hwf).
  - change (node_stack t') with (node_stack t ++ [length (nodes t)]). rewrite collect_app, (collect_one _ _ _ _ Hnd). simpl.
    rewrite app_nil_r, (collect_extend _ _ _ _ Hpre Hrange). apply (wf_views _ Hwf).
  - intros f id Hf. apply (wf_focus _ Hwf) in Hf. unfold field in *. destruct (nodes t !! id) as [nd'|] eqn:E; [|done].
    by rewrite (lookup_prefix _ _ _ _ Hpre E).
  - intros f id Hf. apply (wf_view _ Hwf) in Hf. unfold field in *. destruct (nodes t !! id) as [nd'|] eqn:E; [|done].
    by rewrite (lookup_prefix _ _ _ _ Hpre E).
Qed.

(** *** Popping *)

Lemma stacks_split t above id nd :
  tree_wf t -> node_stack t = above ++ [id] -> nodes t !! id = Some nd ->
  context_stack t = collect context (nodes t) above ++ opt_list (context nd) /\
  view_stack t = collect view_id (nodes t) above ++ opt_list (view_id nd).
Proof.
  intros Hwf E Hnd. by rewrite (wf_contexts _ Hwf), (wf_views _ Hwf), E, !collect_app, !(collect_one _ _ _ _ Hnd).
Qed.

Lemma pop_if_split {A B} (o : option A) (get : A -> B) (l : list B) : pop_if o (l ++ opt_list (get <$> o)) = l.
Proof. destruct o; simpl; [apply removelast_last|apply app_nil_r]. Qed.

Lemma path_above ns above id : path_to ns id (above ++ [id]) -> forall p, list.last above = Some p -> path_to ns p above.
Proof.
  intros Hp p Hl. remember (above ++ [id]) as path eqn:E. destruct Hp as [id' nd Hnd Hpar|id' nd q path Hnd Hpar Hp].
  - apply (f_equal length) in E. rewrite length_app in E. simpl in E. destruct above; [done|simpl in E; lia].
  - apply app_inj_tail in E as [-> _]. assert (p = q) as ->; [|done]. apply path_last in Hp. congruence.
Qed.

Lemma pop_node_ok t above id :
  tree_wf t -> node_stack t = above ++ [id] ->
  exists t', pop_node t = Ok t' /\ tree_wf t' /\ node_stack t' = above /\ nodes t' = nodes t /\
    focusable_node_ids t' = focusable_node_ids t /\ view_node_ids t' = view_node_ids t.
Proof.
  intros Hwf E. assert (Hne : node_stack t <> []) by (rewrite E; by destruct above).
  destruct (active_inv t Hwf Hne) as (above' & id' & nd & E' & Ha & Hnd & Hp & Hn).
  rewrite E in E'. apply app_inj_tail in E' as [<- <-].
  destruct (stacks_split t above id nd Hwf E Hnd) as [Hc Hv].
  unfold pop_node. rewrite Ha. cbn [unwrap obind]. rewrite (index_Ok _ _ _ Hnd). cbn [obind].
  eexists. split; [reflexivity|]. cbn [node_stack nodes with_stacks focusable_node_ids view_node_ids].
  assert (Hr : removelast (node_stack t) = above) by (rewrite E; apply removelast_last).
  split; [|by rewrite Hr]. rewrite Hr, Hc, Hv. split; cbn [nodes node_stack context_stack view_stack focusable_node_ids view_node_ids with_stacks]; try apply Hwf.
  - intros p Hp'. by eapply path_above.
  - destruct (context nd); simpl; [apply removelast_last|apply app_nil_r].
  - destruct (view_id nd); simpl; [apply removelast_last|apply app_nil_r].
Qed.

(** *** Changing the active node *)

Lemma update_wf t above id nd nd' cs vs fm vm :
  tree_wf t -> node_stack t = above ++ [id] -> nodes t !! id = Some nd -> parent nd' = parent nd ->
  cs = collect context (nodes t) above ++ opt_list (context nd') ->
  vs = collect view_id (nodes t) above ++ opt_list (view_id nd') ->
  (forall f i, fm !! f = Some i -> i = id /\ focus_id nd' = Some f \/ i <> id /\ focusable_node_ids t !! f = Some i) ->
  (forall v i, vm !! v = Some i -> i = id /\ view_id nd' = Some v \/ i <> id /\ view_node_ids t !! v = Some i) ->
  tree_wf (mkDispatchTree (node_stack t) cs vs (<[id := nd']> (nodes t)) fm vm (keymap t) (action_registry t)).
Proof.
  intros Hwf E Hnd Hpar -> -> Hf Hv.
  assert (Hne : node_stack t <> []) by (rewrite E; by destruct above).
  destruct (active_inv t Hwf Hne) as (above' & id' & nd0 & E' & Ha & Hnd0 & Hp & Hn).
  rewrite E in E'. apply app_inj_tail in E' as [<- <-].
  assert (Hid : <[id := nd']> (nodes t) !! id = Some nd') by (apply list_lookup_insert_eq; by eapply lookup_lt_Some).
  assert (Hother : forall {B} (get : Node -> option B) i, i <> id -> field get (<[id := nd']> (nodes t)) i = field get (nodes t) i).
  { intros B get i Hi. unfold field. by rewrite list_lookup_insert_ne. }
  assert (Habove : forall {B} (get : Node -> option B),
    collect get (<[id := nd']> (nodes t)) (above ++ [id]) = collect get (nodes t) above ++ opt_list (get nd')).
  { intros B get. rewrite collect_app, (collect_one _ _ _ _ Hid). f_equal. apply collect_transfer. intros i Hi.
    apply Hother. by intros ->. }
  split; cbn [nodes node_stack context_stack view_stack focusable_node_ids view_node_ids].
  - intros i nd'' p Hi. destruct (decide (i = id)) as [->|Hne'].
    + rewrite Hid in Hi. injection Hi as <-. rewrite Hpar. by apply (wf_parents _ Hwf).
    + rewrite list_lookup_insert_ne in Hi by done. by apply (wf_parents _ Hwf).
  - intros i Hi. unfold active_node_id in Hi. cbn in Hi. rewrite E, last_snoc in Hi. injection Hi as <-. rewrite E.
    eapply path_transfer; [|exact Hp]. intros i nd'' _ Hi. destruct (decide (i = id)) as [->|Hne'].
    + exists nd'. split; [done|congruence].
    + exists nd''. by rewrite list_lookup_insert_ne.
  - by rewrite E, Habove.
  - by rewrite E, Habove.
  - intros f i Hi. destruct (Hf _ _ Hi) as [[-> Hfi]|[Hne' Hfi]].
    + unfold field. by rewrite Hid.
    + rewrite Hother by done. by apply (wf_focus _ Hwf).
  - intros v i Hi. destruct (Hv _ _ Hi) as [[-> Hvi]|[Hne' Hvi]].
    + unfold field. by rewrite Hid.
    + rewrite Hother by done. by apply (wf_view _ Hwf).
Qed.

(** The entries of the maps that point at the active node. *)
Lemma focus_entry t id nd f i :
  tree_wf t -> nodes t !! id = Some nd -> focusable_node_ids t !! f = Some i ->
  i = id /\ focus_id nd = Some f \/ i <> id /\ focusable_node_ids t !! f = Some i.
Proof.
  intros Hwf Hnd Hi. destruct (decide (i = id)) as [->|]; [left|by right]. split; [done|].
  apply (wf_focus _ Hwf) in Hi. unfold field in Hi. by rewrite Hnd in Hi.
Qed.

Lemma view_entry t id nd v i :
  tree_wf t -> nodes t !! id = Some nd -> view_node_ids t !! v = Some i ->
  i = id /\ view_id nd = Some v \/ i <> id /\ view_node_ids t !! v = Some i.
Proof.
  intros Hwf Hnd Hi. destruct (decide (i = id)) as [->|]; [left|by right]. split; [done|].
  apply (wf_view _ Hwf) in Hi. unfold field in Hi. by rewrite Hnd in Hi.
Qed.

(** What the operations on the active node have in common. *)
Record updates t t' (id : nat) nd' : Prop := mkUpdates {
  up_wf : tree_wf t';
  up_stack : node_stack t' = node_stack t;
  up_nodes : nodes t' = <[id := nd']> (nodes t);
}.

Ltac at_active Hwf Ha Hnd :=
  rewrite ?Ha; cbn [unwrap obind]; rewrite ?(index_Ok _ _ _ Hnd); cbn [obind with_nodes with_stacks with_ids nodes
    node_stack context_stack view_stack focusable_node_ids view_node_ids keymap action_registry].

Section Active.
Context t (above : list nat) (id : nat) nd.
Context (Hwf : tree_wf t) (E : node_stack t = above ++ [id]) (Hnd : nodes t !! id = Some nd).

Lemma active_id : active_node_id t = Some id.
Proof. unfold active_node_id. rewrite E. apply last_snoc. Qed.

Lemma update_listeners_ok (f : Node -> Node) :
  (forall nd, context (f nd) = context nd /\ focus_id (f nd) = focus_id nd /\ view_id (f nd) = view_id nd /\ parent (f nd) = parent nd) ->
  exists t', update_active t f = Ok t' /\ updates t t' id (f nd) /\
    focusable_node_ids t' = focusable_node_ids t /\ view_node_ids t' = view_node_ids t.
Proof.
  intros Hf. destruct (Hf nd) as (Hc & Hfo & Hv & Hp). destruct (stacks_split t above id nd Hwf E Hnd) as [Hcs Hvs].
  unfold update_active. at_active Hwf active_id Hnd. eexists. split; [reflexivity|]. split; [|done]. split; [|done|done].
  apply (update_wf t above id nd); try done.
  - by rewrite Hc.
  - by rewrite Hv.
  - intros g i. rewrite Hfo. by apply focus_entry.
  - intros g i. rewrite Hv. by apply view_entry.
Qed.

Lemma set_key_context_ok c :
  context nd = None ->
  exists t', set_key_context t c = Ok t' /\ updates t t' id (node_with_context nd (Some c)) /\
    focusable_node_ids t' = focusable_node_ids t /\ view_node_ids t' = view_node_ids t.
Proof.
  intros Hc. destruct (stacks_split t above id nd Hwf E Hnd) as [Hcs Hvs]. rewrite Hc in Hcs. simpl in Hcs.
  unfold set_key_context, update_active. at_active Hwf active_id Hnd. eexists. split; [reflexivity|].
  split; [|done]. split; [|done|done]. apply (update_wf t above id nd); try done.
  - by rewrite Hcs, app_nil_r.
  - intros g i Hi. exact (focus_entry t id nd g i Hwf Hnd Hi).
  - intros g i Hi. exact (view_entry t id nd g i Hwf Hnd Hi).
Qed.

Lemma set_focus_id_ok f :
  focus_id nd = None ->
  exists t', set_focus_id t f = Ok t' /\ updates t t' id (node_with_focus nd (Some f)) /\
    focusable_node_ids t' = <[f := id]> (focusable_node_ids t) /\ view_node_ids t' = view_node_ids t.
Proof.
  intros Hf. destruct (stacks_split t above id nd Hwf E Hnd) as [Hcs Hvs].
  unfold set_focus_id. at_active Hwf active_id Hnd. eexists. split; [reflexivity|].
  split; [|done]. split; [|done|done]. apply (update_wf t above id nd); try done.
  - intros g i Hi. cbn [view_node_ids focusable_node_ids with_ids with_stacks with_nodes] in Hi. destruct (decide (f = g)) as [<-|Hne].
    + rewrite lookup_insert_eq in Hi. injection Hi as <-. by left.
    + rewrite lookup_insert_ne in Hi by done. destruct (focus_entry t id nd g i Hwf Hnd Hi) as [[-> Hg]|?]; [congruence|by right].
  - intros g i Hi. exact (view_entry t id nd g i Hwf Hnd Hi).
Qed.

Lemma set_view_id_ok v :
  view_id nd = None ->
  exists t', set_view_id t v = Ok t' /\ list.last (view_stack t') = Some v /\
    ((list.last (view_stack t) = Some v /\ t' = t) \/
     (list.last (view_stack t) <> Some v /\ updates t t' id (node_with_view nd (Some v)) /\
      focusable_node_ids t' = focusable_node_ids t /\ view_node_ids t' = <[v := id]> (view_node_ids t))).
Proof.
  intros Hv. destruct (stacks_split t above id nd Hwf E Hnd) as [Hcs Hvs]. rewrite Hv in Hvs. simpl in Hvs.
  unfold set_view_id. case_bool_decide as Hl; [exists t; auto|].
  at_active Hwf active_id Hnd. eexists. split; [reflexivity|]. split; [apply last_snoc|]. right.
  split; [done|]. split; [|done]. split; [|done|done]. apply (update_wf t above id nd); try done.
  - by rewrite Hvs, app_nil_r.
  - intros g i Hi. exact (focus_entry t id nd g i Hwf Hnd Hi).
  - intros g i Hi. cbn [view_node_ids focusable_node_ids with_ids with_stacks with_nodes] in Hi. destruct (decide (v = g)) as [<-|Hne].
    + rewrite lookup_insert_eq in Hi. injection Hi as <-. by left.
    + rewrite lookup_insert_ne in Hi by done. destruct (view_entry t id nd g i Hwf Hnd Hi) as [[-> Hg]|?]; [congruence|by right].
Qed.
End Active.

(** *** Activating a node *)

(** What the moves on the tree keep. *)
Definition same_nodes t t' : Prop :=
  nodes t' = nodes t /\ focusable_node_ids t' = focusable_node_ids t /\ view_node_ids t' = view_node_ids t.

Lemma same_nodes_refl t : same_nodes t t.
Proof. done. Qed.

Lemma same_nodes_trans t1 t2 t3 : same_nodes t1 t2 -> same_nodes t2 t3 -> same_nodes t1 t3.
Proof. unfold same_nodes. intros (-> & -> & ->) (-> & -> & ->). done. Qed.

Lemma pop_until_ok target : forall fuel t,
  tree_wf t -> length (node_stack t) <= fuel ->
  exists t', pop_until fuel t target = Ok t' /\ tree_wf t' /\ same_nodes t t' /\
    (active_node_id t' = target \/ node_stack t' = []).
Proof.
  induction fuel as [|fuel IH]; intros t Hwf Hf; cbn [pop_until];
    (case_bool_decide as Ha; [exists t; pose proof (same_nodes_refl t); auto|]);
    (case_bool_decide as Hs; [exists t; pose proof (same_nodes_refl t); auto|]); cbn [negb andb].
  - destruct (node_stack t); [done|simpl in Hf; lia].
  - destruct (list_snoc_inv _ Hs) as (above & id & E).
    destruct (pop_node_ok t above id Hwf E) as (t1 & -> & Hwf1 & Hs1 & Hsame). cbn [obind].
    rewrite E, length_app in Hf. simpl in Hf.
    destruct (IH t1 Hwf1) as (t' & -> & Hwf' & Hsame' & Ht'); [rewrite Hs1; lia|].
    exists t'. split; [done|]. split; [done|]. split; [|done]. by eapply same_nodes_trans.
Qed.

Lemma push_ancestors_ok id path ns t :
  path_to ns id path -> nodes t = ns -> forall fuel, length path <= fuel ->
  push_ancestors fuel t (Some id) =
  Ok (with_stacks t (node_stack t ++ rev path) (context_stack t ++ rev (collect context ns path))
        (view_stack t ++ rev (collect view_id ns path))).
Proof.
  assert (Hopt : forall {B} (o : option B), rev (opt_list o) = opt_list o) by (by intros B []).
  intros Hp. revert t. induction Hp as [id nd Hnd Hpar|id nd p path Hnd Hpar _ IH]; intros t Ht fuel Hf.
  - destruct fuel as [|fuel]; [simpl in Hf; lia|]. cbn [push_ancestors]. rewrite Ht, (index_Ok _ _ _ Hnd). cbn [obind].
    rewrite Hpar, !(collect_one _ _ _ _ Hnd), !Hopt. by destruct fuel.
  - rewrite length_app in Hf. simpl in Hf. destruct fuel as [|fuel]; [lia|].
    cbn [push_ancestors]. rewrite Ht, (index_Ok _ _ _ Hnd). cbn [obind].
    rewrite Hpar, IH by (done || lia). cbn [with_stacks node_stack context_stack view_stack].
    rewrite !collect_app, !(collect_one _ _ _ _ Hnd), !rev_app_distr, !Hopt. unfold with_stacks. cbn. by rewrite <- !app_assoc.
Qed.

(** A tree whose stacks are those of a path of a well-formed tree. *)
Lemma stacks_wf t id path :
  tree_wf t -> path_to (nodes t) id path ->
  tree_wf (with_stacks t path (collect context (nodes t) path) (collect view_id (nodes t) path)).
Proof.
  intros Hwf Hp. split; cbn [with_stacks nodes node_stack context_stack view_stack focusable_node_ids view_node_ids]; try apply Hwf; [|done..].
  intros i Hi. unfold active_node_id in Hi. cbn [with_stacks node_stack] in Hi. rewrite (path_last _ _ _ Hp) in Hi.
  by injection Hi as <-.
Qed.

Lemma set_active_node_ok t id :
  tree_wf t -> id < length (nodes t) ->
  exists t' path, set_active_node t id = Ok t' /\ tree_wf t' /\ same_nodes t t' /\
    path_to (nodes t) id path /\ node_stack t' = path.
Proof.
  intros Hwf Hid. destruct (path_exists _ id (wf_parents _ Hwf) Hid) as [path Hp].
  destruct (lookup_lt_is_Some_2 _ _ Hid) as [nd Hnd].
  unfold set_active_node. rewrite (index_Ok _ _ _ Hnd). cbn [obind].
  destruct (pop_until_ok (parent nd) (length (node_stack t)) t Hwf (le_n _)) as (t1 & -> & Hwf1 & (Hn & Hf & Hv) & Hend).
  cbn [obind]. rewrite Hn. case_bool_decide as Ha.
  - rewrite (index_Ok _ _ _ Hnd). cbn [obind]. eexists _, path. split; [reflexivity|].
    assert (path = node_stack t1 ++ [id]) as ->.
    { destruct Hp as [id nd' Hnd' Hpar|id nd' p path Hnd' Hpar Hp]; simplify_eq.
      - rewrite Hpar in Ha. unfold active_node_id in Ha. apply last_None in Ha. by rewrite Ha.
      - rewrite Hpar in Ha. pose proof (wf_stack _ Hwf1 _ Ha) as Hp1. rewrite Hn in Hp1.
        by rewrite (path_functional _ _ _ _ Hp Hp1). }
    split; [|split; [done|done]].
    assert (Hs := stacks_wf t1 id (node_stack t1 ++ [id]) Hwf1 ltac:(by rewrite Hn)).
    rewrite !collect_app, <- (wf_contexts _ Hwf1), <- (wf_views _ Hwf1) in Hs.
    rewrite !(collect_one _ (nodes t1) id nd) in Hs by (by rewrite Hn). exact Hs.
  - destruct Hend as [Hend|Hend]; [done|].
    rewrite (push_ancestors_ok id path (nodes t) t1 Hp Hn).
    2: { pose proof (path_length _ _ _ (wf_parents _ Hwf) Hp). lia. }
    cbn [obind with_stacks node_stack context_stack view_stack].
    rewrite (wf_contexts _ Hwf1), (wf_views _ Hwf1), Hend. cbn. rewrite !rev_involutive.
    eexists _, path. split; [reflexivity|]. split; [|done].
    assert (Hs := stacks_wf t1 id path Hwf1 ltac:(by rewrite Hn)). rewrite Hn in Hs. exact Hs.
Qed.

(** *** Truncating *)

Lemma forget_nodes_spec l : forall t,
  let t' := fold_left forget_node l t in
  nodes t' = nodes t /\ node_stack t' = node_stack t /\ context_stack t' = context_stack t /\ view_stack t' = view_stack t /\
  (forall f id, focusable_node_ids t' !! f = Some id <->
     focusable_node_ids t !! f = Some id /\ Forall (fun nd => focus_id nd <> Some f) l) /\
  (forall v id, view_node_ids t' !! v = Some id <->
     view_node_ids t !! v = Some id /\ Forall (fun nd => view_id nd <> Some v) l).
Proof.
  induction l as [|nd l IH]; intros t; cbn [fold_left]; [split_and!; try done; by intuition|].
  destruct (IH (forget_node t nd)) as (Hn & Hs & Hc & Hv & Hf & Hw). split_and!; try done.
  - intros f id. rewrite Hf, Forall_cons_iff. cbn. destruct (focus_id nd) as [g|]; [|naive_solver].
    destruct (decide (g = f)) as [->|Hne]; [rewrite lookup_delete_eq|rewrite lookup_delete_ne by done]; naive_solver.
  - intros f id. rewrite Hw, Forall_cons_iff. cbn. destruct (view_id nd) as [g|]; [|naive_solver].
    destruct (decide (g = f)) as [->|Hne]; [rewrite lookup_delete_eq|rewrite lookup_delete_ne by done]; naive_solver.
Qed.

Lemma kept_lookup {B} (get : Node -> option B) ns ix id (v : B) :
  field get ns id = Some v -> Forall (fun nd => get nd <> Some v) (drop ix ns) -> id < ix.
Proof.
  intros Hf Hall. destruct (decide (id < ix)) as [|Hge]; [done|]. exfalso. unfold field in Hf.
  destruct (ns !! id) as [nd|] eqn:E; [|done]. simpl in Hf. rewrite Forall_elem in Hall. apply (Hall nd); [|done].
  apply list_elem_of_lookup_2 with (id - ix). rewrite lookup_drop. by replace (ix + (id - ix)) with id by lia.
Qed.

Lemma truncate_ok t ix :
  tree_wf t -> ix <= length (nodes t) -> Forall (fun id => id < ix) (node_stack t) ->
  exists t', truncate t ix = Ok t' /\ tree_wf t' /\ nodes t' = take ix (nodes t) /\ node_stack t' = node_stack t /\
    forall f id, focusable_node_ids t' !! f = Some id <->
      focusable_node_ids t !! f = Some id /\ Forall (fun nd => focus_id nd <> Some f) (drop ix (nodes t)).
Proof.
  intros Hwf Hix Hst. unfold truncate. destruct (Nat.ltb_spec (length (nodes t)) ix) as [|_]; [lia|].
  destruct (forget_nodes_spec (drop ix (nodes t)) t) as (Hn & Hs & Hc & Hv & Hf & Hw).
  eexists. split; [reflexivity|]. cbn [with_nodes nodes node_stack focusable_node_ids]. rewrite Hn.
  split; [|done]. rewrite Forall_elem in Hst.
  assert (Hkeep : forall i nd, i < ix -> nodes t !! i = Some nd -> take ix (nodes t) !! i = Some nd).
  { intros i nd Hi Hnd. by rewrite lookup_take_lt. }
  assert (Hfield : forall {B} (get : Node -> option B) i, i < ix -> field get (take ix (nodes t)) i = field get (nodes t) i).
  { intros B get i Hi. unfold field. by rewrite lookup_take_lt. }
  split; cbn [with_nodes nodes node_stack context_stack view_stack focusable_node_ids view_node_ids]; try rewrite Hn.
  - intros id nd p Hnd. apply (wf_parents _ Hwf id nd p). by apply lookup_take_Some in Hnd as [? _].
  - intros id Hid. rewrite Hs. assert (Ha : active_node_id t = Some id) by (unfold active_node_id in *; cbn in Hid; congruence).
    eapply path_transfer; [|by apply (wf_stack _ Hwf)]. intros i nd Hi Hnd. exists nd. split; [|done].
    apply Hkeep; [by apply Hst|done].
  - rewrite Hc, Hs, (wf_contexts _ Hwf). symmetry. apply collect_transfer. intros i Hi. by apply Hfield, Hst.
  - rewrite Hv, Hs, (wf_views _ Hwf). symmetry. apply collect_transfer. intros i Hi. by apply Hfield, Hst.
  - intros f id [Hfi Hall]%Hf. apply (wf_focus _ Hwf) in Hfi. rewrite Hfield; [done|]. by eapply kept_lookup.
  - intros f id [Hfi Hall]%Hw. apply (wf_view _ Hwf) in Hfi. rewrite Hfield; [done|]. by eapply kept_lookup.
Qed.

(** ** The walks to the root *)

Lemma climb_ok ns id path t :
  path_to ns id path -> nodes t = ns -> forall fuel, length path <= fuel -> climb fuel t (Some id) = Ok (rev path).
Proof.
  intros Hp Ht. induction Hp as [id nd Hnd Hpar|id nd p path Hnd Hpar _ IH]; intros fuel Hf.
  - destruct fuel as [|fuel]; [simpl in Hf; lia|]. cbn [climb]. rewrite Ht, Hnd, Hpar. by destruct fuel.
  - rewrite length_app in Hf. simpl in Hf. destruct fuel as [|fuel]; [lia|]. cbn [climb].
    rewrite Ht, Hnd, Hpar, IH by lia. cbn [obind]. by rewrite rev_app_distr.
Qed.

Lemma dispatch_path_ok t id path : tree_wf t -> path_to (nodes t) id path -> dispatch_path t id = Ok path.
Proof.
  intros Hwf Hp. unfold dispatch_path. rewrite (climb_ok (nodes t) id path t Hp eq_refl).
  - cbn [obind]. by rewrite rev_involutive.
  - pose proof (path_length _ _ _ (wf_parents _ Hwf) Hp). pose proof (path_lookup _ _ _ id Hp (last_Some_elem_of _ _ (path_last _ _ _ Hp))) as Hl.
    apply lookup_lt_is_Some_1 in Hl. lia.
Qed.

(** A node that does not exist is its own path. *)
Lemma dispatch_path_absent t id : length (nodes t) <= id -> dispatch_path t id = Ok [id].
Proof.
  intros Hid. unfold dispatch_path. cbn [climb]. rewrite lookup_ge_None_2 by done. by destruct (length (nodes t)).
Qed.

Lemma climb_collect_ok {B} (get : Node -> option B) ns id path t :
  path_to ns id path -> nodes t = ns -> forall fuel, length path <= fuel ->
  climb_collect get fuel t (Some id) = Ok (rev (collect get ns path)).
Proof.
  assert (Hopt : forall (o : option B), rev (opt_list o) = opt_list o) by (by intros []).
  intros Hp Ht. induction Hp as [id nd Hnd Hpar|id nd p path Hnd Hpar _ IH]; intros fuel Hf.
  - destruct fuel as [|fuel]; [simpl in Hf; lia|]. cbn [climb_collect]. unfold node. rewrite Ht, (index_Ok _ _ _ Hnd). cbn [obind].
    rewrite Hpar, (collect_one _ _ _ _ Hnd), Hopt. destruct fuel; cbn [climb_collect obind]; by rewrite app_nil_r.
  - rewrite length_app in Hf. simpl in Hf. destruct fuel as [|fuel]; [lia|]. cbn [climb_collect].
    unfold node. rewrite Ht, (index_Ok _ _ _ Hnd). cbn [obind]. rewrite Hpar, IH by lia. cbn [obind].
    by rewrite collect_app, (collect_one _ _ _ _ Hnd), rev_app_distr, Hopt.
Qed.

(** The length of a path is within the fuel of the walks. *)
Lemma path_fuel t id path : tree_wf t -> path_to (nodes t) id path -> length path <= S (length (nodes t)).
Proof.
  intros Hwf Hp. pose proof (path_length _ _ _ (wf_parents _ Hwf) Hp).
  pose proof (path_lookup _ _ _ id Hp (last_Some_elem_of _ _ (path_last _ _ _ Hp))) as Hl.
  apply lookup_lt_is_Some_1 in Hl. lia.
Qed.

Lemma climbs_to_ok ns id path t target :
  path_to ns id path -> nodes t = ns -> forall fuel, length path <= fuel ->
  climbs_to fuel t (Some id) target = Ok (bool_decide (target ∈ path)).
Proof.
  intros Hp Ht. induction Hp as [id nd Hnd Hpar|id nd p path Hnd Hpar _ IH]; intros fuel Hf.
  - destruct fuel as [|fuel]; [simpl in Hf; lia|]. cbn [climbs_to]. destruct (Nat.eqb_spec id target) as [->|Hne].
    + rewrite bool_decide_true; [done|]. by apply list_elem_of_singleton.
    + rewrite Ht, (index_Ok _ _ _ Hnd). cbn [obind]. rewrite Hpar, bool_decide_false.
      * by destruct fuel.
      * intros Hin%list_elem_of_singleton. by subst.
  - rewrite length_app in Hf. simpl in Hf. destruct fuel as [|fuel]; [lia|]. cbn [climbs_to].
    destruct (Nat.eqb_spec id target) as [->|Hne].
    + rewrite bool_decide_true; [done|]. apply elem_of_app. right. by apply list_elem_of_singleton.
    + rewrite Ht, (index_Ok _ _ _ Hnd). cbn [obind]. rewrite Hpar, IH by lia. f_equal. apply bool_decide_ext.
      rewrite elem_of_app, list_elem_of_singleton. naive_solver.
Qed.

(** The path to the node a map holds. *)
Lemma filed_path {B} (get : Node -> option B) t id v :
  tree_wf t -> field get (nodes t) id = Some v -> exists path, path_to (nodes t) id path.
Proof.
  intros Hwf Hf. apply path_exists; [apply Hwf|]. unfold field in Hf. apply lookup_lt_is_Some_1.
  destruct (nodes t !! id); [by eexists|done].
Qed.

Lemma focus_path_ok t f :
  tree_wf t ->
  match focusable_node_ids t !! f with
  | Some id => exists path, path_to (nodes t) id path /\ focus_path t f = Ok (collect focus_id (nodes t) path)
  | None => focus_path t f = Ok []
  end.
Proof.
  intros Hwf. unfold focus_path. destruct (focusable_node_ids t !! f) as [id|] eqn:Hf; [|done].
  destruct (filed_path focus_id t id f Hwf) as [path Hp]; [by apply (wf_focus _ Hwf)|]. exists path. split; [done|].
  rewrite (climb_collect_ok focus_id _ _ _ t Hp eq_refl _ (path_fuel _ _ _ Hwf Hp)). cbn [obind]. by rewrite rev_involutive.
Qed.

Lemma view_path_ok t v :
  tree_wf t ->
  match view_node_ids t !! v with
  | Some id => exists path, path_to (nodes t) id path /\ view_path t v = Ok (collect view_id (nodes t) path)
  | None => view_path t v = Ok []
  end.
Proof.
  intros Hwf. unfold view_path. destruct (view_node_ids t !! v) as [id|] eqn:Hf; [|done].
  destruct (filed_path view_id t id v Hwf) as [path Hp]; [by apply (wf_view _ Hwf)|]. exists path. split; [done|].
  rewrite (climb_collect_ok view_id _ _ _ t Hp eq_refl _ (path_fuel _ _ _ Hwf Hp)). cbn [obind]. by rewrite rev_involutive.
Qed.

(** The node of [child] is in the subtree of the node of [parent]. *)
Definition focus_within t (parent child : N) : Prop :=
  parent = child \/
  exists id id' path, focusable_node_ids t !! parent = Some id /\ focusable_node_ids t !! child = Some id' /\
    path_to (nodes t) id' path /\ id ∈ path.

Lemma focus_contains_ok t p c :
  tree_wf t -> exists b, focus_contains t p c = Ok b /\ (b = true <-> focus_within t p c).
Proof.
  intros Hwf. unfold focus_contains, focus_within. destruct (N.eqb_spec p c) as [->|Hne]; [exists true; naive_solver|].
  destruct (focusable_node_ids t !! p) as [id|] eqn:Hp; [|exists false; naive_solver].
  destruct (focusable_node_ids t !! c) as [id'|] eqn:Hc; [|exists false; cbn [climbs_to]; naive_solver].
  destruct (filed_path focus_id t id' c Hwf) as [path Hpath]; [by apply (wf_focus _ Hwf)|].
  rewrite (climbs_to_ok _ _ _ t id Hpath eq_refl _ (path_fuel _ _ _ Hwf Hpath)). eexists. split; [reflexivity|].
  rewrite bool_decide_eq_true. split; [intros Hin; right; eauto 10|].
  intros [?|(i & i' & path' & [= <-] & [= <-] & Hpath' & Hin)]; [done|].
  by rewrite (path_functional _ _ _ _ Hpath Hpath').
Qed.

(** Under the invariant the walks end and visit the ancestors.  The dispatch path of a
    node leads from its root to it, and activating the node opens exactly this path,
    whichever nodes were open, with its contexts and views on the stacks; a target that
    does not exist is its own path.  [focus_path] and [view_path] are the focus handles
    and the views on the path of the node they are filed under, and empty for one that
    is not in the frame.  [focus_contains] holds exactly if the handles are equal or the
    first one's node is on the path of the second's. *)
Theorem dispatch_paths_correct t (Hwf : tree_wf t) :
  (forall id, id < length (nodes t) ->
     exists path t', path_to (nodes t) id path /\ dispatch_path t id = Ok path /\
       set_active_node t id = Ok t' /\ nodes t' = nodes t /\ node_stack t' = path /\
       context_stack t' = collect context (nodes t) path /\ view_stack t' = collect view_id (nodes t) path) /\
  (forall id, length (nodes t) <= id -> dispatch_path t id = Ok [id]) /\
  (forall f, match focusable_node_ids t !! f with
             | Some id => exists path, path_to (nodes t) id path /\ focus_path t f = Ok (collect focus_id (nodes t) path)
             | None => focus_path t f = Ok []
             end) /\
  (forall v, match view_node_ids t !! v with
             | Some id => exists path, path_to (nodes t) id path /\ view_path t v = Ok (collect view_id (nodes t) path)
             | None => view_path t v = Ok []
             end) /\
  (forall p c, exists b, focus_contains t p c = Ok b /\ (b = true <-> focus_within t p c)).
Proof.
  split; [|split; [apply dispatch_path_absent|split; [|split]]].
  - intros id Hid. destruct (set_active_node_ok t id Hwf Hid) as (t' & path & Hok & Hwf' & (Hn & _) & Hp & Hs).
    exists path, t'. split_and!; try done; [by apply dispatch_path_ok| |].
    + by rewrite (wf_contexts _ Hwf'), Hn, Hs.
    + by rewrite (wf_views _ Hwf'), Hn, Hs.
  - intros f. by apply focus_path_ok.
  - intros v. by apply view_path_ok.
  - intros p c. by apply focus_contains_ok.
Qed.
End Invariant.
