(* ===== verification/DispatchReuse.v ===== *)
(** * Moving a subtree to the next frame, and the life of a dispatch tree

    [reuse_subtree] rebuilds a range of the nodes of the previous frame's tree below the
    active node of the next one's.  The operations of a frame, this one included, keep
    the invariant of DispatchInvariant and do not panic when they are called as the
    elements call them. *)

From Stdlib Require Import NArith Sorted String.
From stdpp Require Import base list option numbers gmap.
From S2P Require Import Prelude Text Actions KeyContext Keystroke Keymap DispatchTree DispatchInvariant.

#[local] Set Warnings "-register-all,-clear-no-such-hyp".

Section Reuse.
Context `{ActionTrait Action}.
Context {Json Error Schema : Type}.
Context {KeyListener ModifiersChangedListener ActionListener : Type}.

Abbreviation Node := (DispatchNode (KeyListener := KeyListener) (ModifiersChangedListener := ModifiersChangedListener)
  (ActionListener := ActionListener)).
Abbreviation Tree := (DispatchTree (Action := Action) (Json := Json) (Error := Error) (Schema := Schema)
  (KeyListener := KeyListener) (ModifiersChangedListener := ModifiersChangedListener) (ActionListener := ActionListener)).

Implicit Types (t : Tree) (nd : Node) (ns : list Node).

(** ** Moving a node *)

(** The node that [move_node] makes: the view is left out where the enclosing view is the
    same. *)
Definition moved_node nd (p : option nat) (v : option N) : Node :=
  mkDispatchNode (key_listeners nd) (action_listeners nd) (modifiers_changed_listeners nd) (context nd) (focus_id nd) v p.

Definition set_opt (m : gmap N nat) (o : option N) (id : nat) : gmap N nat :=
  match o with Some k => <[k := id]> m | None => m end.

Lemma set_opt_entry (m : gmap N nat) o id k i :
  set_opt m o id !! k = Some i -> m !! k <> Some id -> i = id /\ o = Some k \/ i <> id /\ m !! k = Some i.
Proof.
  intros Hi Hm. assert (Hold : m !! k = Some i -> i = id /\ o = Some k \/ i <> id /\ m !! k = Some i)
    by (intros Hk; right; split; [congruence|done]).
  destruct o as [k'|]; simpl in Hi; [|auto]. destruct (decide (k' = k)) as [<-|Hne].
  - rewrite lookup_insert_eq in Hi. injection Hi as <-. by left.
  - rewrite lookup_insert_ne in Hi by done. auto.
Qed.

(** The view that is recorded on the node. *)
Definition recorded_view (enclosing v : option N) : option N :=
  if bool_decide (enclosing = v) then None else v.

Lemma last_opt {A} (l : list A) o : list.last (l ++ opt_list o) = match o with Some x => Some x | None => list.last l end.
Proof. destruct o; simpl; [apply last_snoc|by rewrite app_nil_r]. Qed.

Lemma index_snoc {A} (l : list A) x : index (l ++ [x]) (length l) = Ok x.
Proof. apply index_Ok. by apply list_lookup_middle. Qed.

Lemma insert_snoc {A} (l : list A) x y : <[length l := y]> (l ++ [x]) = l ++ [y].
Proof. by rewrite insert_app_r_alt, Nat.sub_diag by done. Qed.

Lemma move_node_ok t nd :
  tree_wf t ->
  let id := length (nodes t) in
  let v := recorded_view (list.last (view_stack t)) (view_id nd) in
  exists t', move_node t nd = Ok (t', node_with_listeners nd [] [] []) /\ tree_wf t' /\
    nodes t' = nodes t ++ [moved_node nd (active_node_id t) v] /\
    node_stack t' = node_stack t ++ [id] /\
    focusable_node_ids t' = set_opt (focusable_node_ids t) (focus_id nd) id /\
    view_node_ids t' = set_opt (view_node_ids t) v id.
Proof.
  intros Hwf id v. destruct (push_node_wf t Hwf) as (Hwf1 & _).
  exists (mkDispatchTree (node_stack t ++ [id]) (context_stack t ++ opt_list (context nd)) (view_stack t ++ opt_list v)
    (nodes t ++ [moved_node nd (active_node_id t) v]) (set_opt (focusable_node_ids t) (focus_id nd) id)
    (set_opt (view_node_ids t) v id) (keymap t) (action_registry t)).
  split; [|split; [|done]].
  - unfold move_node, push_node, v, recorded_view. fold id.
    destruct (context nd) as [c|] eqn:Ec, (focus_id nd) as [f|] eqn:Ef, (view_id nd) as [w|] eqn:Ew;
      unfold when, set_key_context, set_focus_id, set_view_id, update_active, active_node_id;
      repeat (rewrite ?last_snoc, ?(index_snoc (nodes t)), ?(insert_snoc (nodes t));
        cbn [obind unwrap with_nodes with_stacks with_ids node_stack context_stack view_stack nodes focusable_node_ids
          view_node_ids keymap action_registry opt_list]; try case_bool_decide);
      unfold moved_node, node_with_listeners, node_with_context, node_with_focus, node_with_view;
      rewrite ?app_nil_r, ?Ec, ?Ef, ?Ew; try done.
  - assert (Hnd1 : nodes (push_node t).1 !! id = Some (mkDispatchNode [] [] [] None None None (active_node_id t)))
      by apply list_lookup_middle, eq_refl.
    assert (Hu := update_wf (push_node t).1 (node_stack t) id _ (moved_node nd (active_node_id t) v)
      (context_stack t ++ opt_list (context nd)) (view_stack t ++ opt_list v)
      (set_opt (focusable_node_ids t) (focus_id nd) id) (set_opt (view_node_ids t) v id) Hwf1 eq_refl Hnd1 eq_refl).
    assert (Hr : Forall (fun i => i < length (nodes t)) (node_stack t)).
    { destruct (active_node_id t) as [p|] eqn:Ep; [by eapply path_in_range, wf_stack|].
      unfold active_node_id in Ep. apply last_None in Ep. rewrite Ep. constructor. }
    assert (Hc : forall {B} (get : Node -> option B), collect get (nodes (push_node t).1) (node_stack t) = collect get (nodes t) (node_stack t))
      by (intros B get; by apply collect_extend; [eexists|]).
    rewrite !Hc, <- (wf_contexts _ Hwf), <- (wf_views _ Hwf) in Hu. cbn in Hu. rewrite (insert_snoc (nodes t)) in Hu.
    apply Hu; [done|done| |].
    + intros f i Hi. apply set_opt_entry; [done|]. intros Hin. apply (wf_focus _ Hwf) in Hin.
      unfold field, id in Hin. by rewrite lookup_ge_None_2 in Hin.
    + intros f i Hi. apply set_opt_entry; [done|]. intros Hin. apply (wf_view _ Hwf) in Hin.
      unfold field, id in Hin. by rewrite lookup_ge_None_2 in Hin.
Qed.

(** ** The subtree *)

Lemma path_NoDup ns id path : parents_wf ns -> path_to ns id path -> NoDup path.
Proof.
  intros Hwf. induction 1 as [id nd Hnd Hpar|id nd p path Hnd Hpar Hp IH]; [apply NoDup_singleton|].
  apply list.NoDup_app. split; [done|]. split; [|apply NoDup_singleton]. intros i Hi ->%list_elem_of_singleton.
  assert (p < id) by eauto. pose proof (path_le _ _ _ _ Hwf Hp Hi). lia.
Qed.

Section Subtree.
(** The source, its range, and the base: the stack and the number of nodes of the target. *)
Context (ns : list Node) (lo hi : nat) (base : list nat) (b : nat).

(** The range is in depth-first order: a node's parent in the range is open when the node
    is pushed. *)
Definition preordered : Prop :=
  forall i nd p, lo < i < hi -> ns !! i = Some nd -> parent nd = Some p -> lo <= p ->
    exists path, path_to ns (i - 1) path /\ p ∈ path.

Definition shift (i : nat) : nat := b + (i - lo).
Definition within (path : list nat) : list nat := List.filter (fun i => lo <=? i) path.

(** The nodes of the range that are open before the node [i]. *)
Definition open_chain (i : nat) (stack : list nat) : Prop :=
  (i = lo /\ stack = []) \/ (lo < i /\ exists path, path_to ns (i - 1) path /\ stack = within path).

Context (Hns : parents_wf ns) (Hpre : preordered).

Lemma within_below path : Forall (fun i => i < lo) path -> within path = [].
Proof.
  intros Hf. apply bfilter_none. eapply Forall_weaken; [|exact Hf]. cbn beta. intros i Hi. by apply Nat.leb_gt.
Qed.

Lemma within_elem path i : i ∈ within path -> lo <= i /\ i ∈ path.
Proof. unfold within. rewrite list_elem_of_In, filter_In, <- list_elem_of_In, Nat.leb_le. naive_solver. Qed.

Lemma within_last path p : lo <= p -> list.last path = Some p -> list.last (within path) = Some p.
Proof.
  intros Hp Hl. apply last_Some in Hl as [path' ->]. unfold within. rewrite List.filter_app. simpl.
  destruct (Nat.leb_spec lo p); [apply last_snoc|lia].
Qed.

(** The part of the open chain that stays open for a node, and the chain after it. *)
Lemma chain_step i nd stack :
  ns !! i = Some nd -> lo <= i < hi -> open_chain i stack ->
  exists before after, stack = before ++ after /\ (forall a, a ∈ after -> parent nd <> Some a) /\
    (before = [] \/ list.last before = parent nd) /\ open_chain (S i) (before ++ [i]) /\
    list.last before = match parent nd with Some p => if lo <=? p then Some p else None | None => None end.
Proof.
  intros Hnd Hi Hopen.
  assert (Hin : forall a, a ∈ stack -> lo <= a).
  { intros a Ha. destruct Hopen as [[_ ->]|(_ & path & _ & ->)]; [by apply elem_of_nil in Ha|by apply within_elem in Ha as [? _]]. }
  assert (Hi1 : within [i] = [i]) by (unfold within; simpl; destruct (Nat.leb_spec lo i); [done|lia]).
  assert (Hnew : forall path, path_to ns i (path ++ [i]) -> open_chain (S i) (within path ++ [i])).
  { intros path Hp. right. split; [lia|]. exists (path ++ [i]). rewrite Nat.sub_succ, Nat.sub_0_r. split; [done|].
    rewrite <- Hi1 at 1. symmetry. apply List.filter_app. }
  destruct (parent nd) as [p|] eqn:Hpar.
  - destruct (Nat.leb_spec lo p) as [Hp|Hp].
    + assert (p < i) by eauto. destruct (Hpre i nd p ltac:(lia) Hnd Hpar Hp) as (path & Hpath & Hpin).
      destruct Hopen as [[-> _]|(_ & path' & Hpath' & ->)]; [lia|].
      rewrite (path_functional _ _ _ _ Hpath' Hpath).
      destruct (path_prefix _ _ _ _ Hpath Hpin) as (before & after & -> & Hb). pose proof (path_NoDup _ _ _ Hns Hpath) as Hnd'.
      apply list.NoDup_app in Hnd' as (_ & Hdis & _). exists (within before), (within after).
      pose proof (within_last before p Hp (path_last _ _ _ Hb)) as Hl. split_and!; try done.
      * unfold within. apply List.filter_app.
      * intros a Ha [= <-]. apply within_elem in Ha as [_ Ha]. eapply Hdis; [|exact Ha]. by eapply last_Some_elem_of, path_last.
      * by right.
      * apply Hnew. by eapply path_child.
    + exists [], stack. split_and!; try done; [|by left|].
      * intros a Ha [= <-]. specialize (Hin _ Ha). lia.
      * assert (p < length ns) as Hlt by (apply lookup_lt_Some in Hnd; lia).
        destruct (path_exists ns p Hns Hlt) as [path Hpath].
        assert (E : within path = []).
        { apply within_below, Forall_elem. intros a Ha. pose proof (path_le _ _ _ _ Hns Hpath Ha). lia. }
        specialize (Hnew path). rewrite E in Hnew. apply Hnew. by eapply path_child.
  - exists [], stack. split_and!; try done; [by left|]. apply (Hnew []). by eapply path_root.
Qed.

(** Leaving the ancestors. *)
Lemma leave_ancestors_ok target before : (before = [] \/ list.last before = target) -> forall after fuel t,
  (forall a, a ∈ after -> target <> Some a) -> length (before ++ after) <= fuel ->
  tree_wf t -> node_stack t = base ++ map shift (before ++ after) ->
  exists t', leave_ancestors fuel t (before ++ after) target = Ok (t', before) /\
    tree_wf t' /\ same_nodes t t' /\ node_stack t' = base ++ map shift before.
Proof.
  intros Hb after. induction after as [|a after IH] using rev_ind; intros fuel t Hout Hf Hwf Hs.
  - rewrite app_nil_r in *. exists t. split; [|done].
    destruct Hb as [->|Hb]; [by destruct fuel|]. destruct fuel as [|fuel].
    + destruct before; [done|simpl in Hf; lia].
    + cbn [leave_ancestors]. rewrite Hb. destruct target; [|done]. by rewrite bool_decide_true.
  - rewrite app_assoc in *. rewrite length_app in Hf. simpl in Hf. destruct fuel as [|fuel]; [lia|].
    cbn [leave_ancestors]. rewrite last_snoc, bool_decide_false, removelast_last.
    2: { apply Hout, elem_of_app. right. by apply list_elem_of_singleton. }
    rewrite map_app, app_assoc in Hs. simpl in Hs.
    destruct (pop_node_ok t _ _ Hwf Hs) as (t1 & -> & Hwf1 & Hs1 & Hsame). cbn [obind].
    destruct (IH fuel t1) as (t' & -> & Hwf' & Hsame' & Hs'); [|lia|done|done|].
    + intros c Hc. apply Hout, elem_of_app. by left.
    + exists t'. split; [done|]. split; [done|]. split; [|done]. by eapply same_nodes_trans.
Qed.

Lemma pop_nodes_ok stack : forall above t,
  tree_wf t -> node_stack t = base ++ above -> length above = length stack ->
  exists t', pop_nodes t stack = Ok t' /\ tree_wf t' /\ same_nodes t t' /\ node_stack t' = base.
Proof.
  induction stack as [|i stack IH]; intros above t Hwf Hs Hl; cbn [pop_nodes].
  - destruct above; [|done]. rewrite app_nil_r in Hs. by exists t.
  - destruct (list_snoc_inv above) as (above' & a & ->); [by destruct above|]. rewrite app_assoc in Hs.
    destruct (pop_node_ok t _ _ Hwf Hs) as (t1 & -> & Hwf1 & Hs1 & Hsame). cbn [obind].
    destruct (IH above' t1 Hwf1 Hs1) as (t' & -> & Hwf' & Hsame' & Hs').
    + rewrite length_app in Hl. simpl in Hl. lia.
    + exists t'. split; [done|]. split; [done|]. split; [|done]. by eapply same_nodes_trans.
Qed.

(** *** What becomes of a node *)

Definition new_parent nd : option nat :=
  match parent nd with
  | Some p => if lo <=? p then Some (shift p) else list.last base
  | None => list.last base
  end.

(** The node [nd] of the source is the node [shift i] of the new nodes [ns']: its
    innermost view is still its view. *)
Definition moved_ok ns' (i : nat) nd : Prop :=
  exists v path, ns' !! shift i = Some (moved_node nd (new_parent nd) v) /\ path_to ns' (shift i) path /\
    match view_id nd with
    | Some w => (v = Some w \/ v = None) /\ list.last (collect view_id ns' path) = Some w
    | None => v = None
    end.

Lemma moved_ok_extend ns1 ns2 i nd : ns1 `prefix_of` ns2 -> moved_ok ns1 i nd -> moved_ok ns2 i nd.
Proof.
  intros Hp (v & path & Hnd & Hpath & Hv). exists v, path.
  split; [by eapply lookup_prefix|]. split; [by eapply path_extend|].
  destruct (view_id nd); [|done]. by rewrite (collect_extend _ _ _ _ Hp (path_in_range _ _ _ Hpath)).
Qed.

Definition has_focus (focus : option N) nd : bool :=
  match focus_id nd with Some f => bool_decide (focus = Some f) | None => false end.

Definition file_focus (m : gmap N nat) (p : nat * Node) : gmap N nat := set_opt m (focus_id p.2) (shift p.1).

Lemma file_focus_spec l f : forall m,
  (exists p, p ∈ l /\ focus_id p.2 = Some f /\ fold_left file_focus l m !! f = Some (shift p.1)) \/
  (Forall (fun p => focus_id p.2 <> Some f) l /\ fold_left file_focus l m !! f = m !! f).
Proof.
  induction l as [|p l IH]; intros m; cbn [fold_left]; [right; by split; [constructor|]|].
  destruct (IH (file_focus m p)) as [(q & Hq & Hf & Hm)|[Hall Hm]].
  - left. exists q. split; [|done]. apply elem_of_cons. by right.
  - rewrite Hm. unfold file_focus, set_opt. destruct (focus_id p.2) as [g|] eqn:E.
    + destruct (decide (g = f)) as [->|Hne].
      * left. exists p. rewrite lookup_insert_eq. split; [apply elem_of_cons; by left|done].
      * right. rewrite lookup_insert_ne by done. split; [|done]. constructor; [congruence|done].
    + right. split; [|done]. by constructor; [rewrite E|].
Qed.

(** The nodes of a segment of the source, with their indices. *)
Definition segment (i : nat) (l : list (nat * Node)) : Prop :=
  forall j p, l !! j = Some p -> p.1 = i + j /\ ns !! (i + j) = Some p.2.

Lemma segment_cons i p l : segment i (p :: l) -> p.1 = i /\ ns !! i = Some p.2 /\ segment (S i) l.
Proof.
  intros Hs. destruct (Hs 0 p eq_refl) as [Hi Hp]. rewrite Nat.add_0_r in Hi, Hp. split_and!; [done|done|].
  intros j q Hq. rewrite Nat.add_succ_comm. by apply Hs.
Qed.

Lemma reuse_nodes_ok focus l : forall i t stack foc,
  segment i l -> lo <= i -> (forall j, j < length l -> i + j < hi) ->
  tree_wf t -> length (nodes t) = shift i -> node_stack t = base ++ map shift stack -> open_chain i stack ->
  exists t' stack',
    reuse_nodes focus l t stack foc =
      Ok (t', stack', foc || existsb (fun p => has_focus focus p.2) l, map (fun p => node_with_listeners p.2 [] [] []) l) /\
    tree_wf t' /\ node_stack t' = base ++ map shift stack' /\ nodes t `prefix_of` nodes t' /\
    length (nodes t') = shift (i + length l) /\
    (forall j p, l !! j = Some p -> moved_ok (nodes t') (i + j) p.2) /\
    focusable_node_ids t' = fold_left file_focus l (focusable_node_ids t).
Proof.
  induction l as [|[i' nd] l IH]; intros i t stack foc Hseg Hlo Hhi Hwf Hlen Hs Hopen; cbn [reuse_nodes].
  { exists t, stack. rewrite orb_false_r, Nat.add_0_r. split_and!; try done. }
  apply segment_cons in Hseg as (E & Hnd & Hseg). cbn [fst snd] in E, Hnd. subst i'. simpl in Hhi.
  assert (Hi : lo <= i < hi) by (specialize (Hhi 0); lia).
  destruct (chain_step i nd stack Hnd Hi Hopen) as (before & after & -> & Hout & Hb & Hopen' & Hlast).
  destruct (leave_ancestors_ok (parent nd) before Hb after _ t Hout (le_n _) Hwf Hs) as (t1 & -> & Hwf1 & (Hn1 & Hf1 & _) & Hs1).
  cbn [obind].
  destruct (move_node_ok t1 nd Hwf1) as (t2 & -> & Hwf2 & Hn2 & Hs2 & Hf2 & Hv2). cbn [obind].
  rewrite Hn1, Hlen in Hs2, Hf2.
  destruct (IH (S i) t2 (before ++ [i]) (if has_focus focus nd then true else foc)) as (t' & stack' & Hok & Hwf' & Hs' & Hp' & Hl' & Hm & Hfoc);
    try done; try lia.
  { intros j Hj. specialize (Hhi (S j)). lia. }
  { rewrite Hn2, length_app, Hn1, Hlen. simpl. unfold shift. lia. }
  { by rewrite Hs2, Hs1, map_app, app_assoc. }
  assert (Hp : nodes t `prefix_of` nodes t2) by (rewrite Hn2, Hn1; by eexists).
  exists t', stack'. split; [|split_and!; try done].
  - assert (Efoc : (match focus_id nd with Some f => if bool_decide (focus = Some f) then true else foc | None => foc end) =
      if has_focus focus nd then true else foc) by (unfold has_focus; by destruct (focus_id nd)).
    rewrite Efoc, Hok. cbn [obind existsb map fst snd]. by destruct foc, (has_focus focus nd).
  - by etransitivity.
  - rewrite Hl'. f_equal. simpl. lia.
  - intros [|j] p Hj; cbn in Hj; [|rewrite <- Nat.add_succ_comm; by apply Hm].
    injection Hj as <-. rewrite Nat.add_0_r. cbn [snd]. apply (moved_ok_extend _ _ _ _ Hp').
    eexists _, (node_stack t2). split; [|split].
    + rewrite Hn2, Hn1, <- Hlen. rewrite lookup_app_r, Nat.sub_diag by done. simpl. do 2 f_equal.
      unfold active_node_id, new_parent. rewrite Hs1. destruct (parent nd) as [p|].
      * destruct (Nat.leb_spec lo p).
        -- apply last_Some in Hlast as [before' ->]. rewrite map_app, app_assoc. apply last_snoc.
        -- apply last_None in Hlast as ->. by rewrite app_nil_r.
      * apply last_None in Hlast as ->. by rewrite app_nil_r.
    + apply (wf_stack _ Hwf2). unfold active_node_id. by rewrite Hs2, last_snoc.
    + rewrite <- (wf_views _ Hwf2), (wf_views _ Hwf2), Hs2, collect_app.
      assert (Hlook : nodes t2 !! shift i = Some (moved_node nd (active_node_id t1) (recorded_view (list.last (view_stack t1)) (view_id nd)))).
      { by rewrite Hn2, Hn1, <- Hlen, lookup_app_r, Nat.sub_diag. }
      rewrite (collect_one _ _ _ _ Hlook). cbn [moved_node view_id].
      assert (Hc : collect view_id (nodes t2) (node_stack t1) = view_stack t1).
      { rewrite (wf_views _ Hwf1). apply collect_extend; [rewrite Hn2; by eexists|].
        destruct (active_node_id t1) as [p|] eqn:Ep; [by eapply path_in_range, wf_stack|].
        unfold active_node_id in Ep. apply last_None in Ep. rewrite Ep. constructor. }
      rewrite Hc, last_opt. unfold recorded_view. destruct (view_id nd) as [w|]; case_bool_decide; auto.
  - rewrite Hfoc, Hf2, Hf1. done.
Qed.
End Subtree.

(** ** [reuse_subtree] *)

Lemma combine_seq_lookup {A} (l : list A) k : forall i p,
  combine (seq k (length l)) l !! i = Some p <-> l !! i = Some p.2 /\ p.1 = k + i.
Proof.
  revert k. induction l as [|x l IH]; intros k i [j y]; cbn [length seq combine fst snd].
  - by split; [|intros [? _]].
  - destruct i as [|i]; simpl; [|rewrite IH; cbn [fst snd]; by rewrite Nat.add_succ_r].
    rewrite Nat.add_0_r. naive_solver.
Qed.

(** The part of the source that is moved. *)
Definition moved (ns : list Node) (lo hi : nat) : list (nat * Node) :=
  take (hi - lo) (drop lo (combine (seq 0 (length ns)) ns)).

Lemma moved_lookup ns lo hi j p :
  moved ns lo hi !! j = Some p <-> lo + j < hi /\ p.1 = lo + j /\ ns !! (lo + j) = Some p.2.
Proof.
  unfold moved. rewrite lookup_take_Some, lookup_drop, combine_seq_lookup. simpl. split; intros; split_and!; naive_solver lia.
Qed.

Lemma moved_elem ns lo hi p : p ∈ moved ns lo hi <-> lo <= p.1 < hi /\ ns !! p.1 = Some p.2.
Proof.
  rewrite list_elem_of_lookup. split.
  - intros [j Hj]. apply moved_lookup in Hj as (Hj & -> & Hp). split; [lia|done].
  - intros [Hi Hp]. exists (p.1 - lo). apply moved_lookup. replace (lo + (p.1 - lo)) with p.1 by lia. split_and!; [lia|done|done].
Qed.

Lemma moved_length ns lo hi : length (moved ns lo hi) = (hi - lo) `min` (length ns - lo).
Proof. unfold moved. rewrite length_take, length_drop, length_combine, length_seq. lia. Qed.

Lemma reuse_subtree_ok t source lo hi focus :
  tree_wf t -> tree_wf source -> preordered (nodes source) lo hi ->
  let b := length (nodes t) in
  let l := moved (nodes source) lo hi in
  exists t' source' r,
    reuse_subtree t (lo, hi) source focus = Ok (t', source', r) /\
    tree_wf t' /\ node_stack t' = node_stack t /\ nodes t `prefix_of` nodes t' /\
    length (nodes t') = b + length l /\
    r = mkReusedSubtree (lo, hi) (b, b + (hi - lo)) (existsb (fun p => has_focus focus p.2) l) /\
    nodes source' = take lo (nodes source) ++ map (fun p => node_with_listeners p.2 [] [] []) l ++
      drop (lo + length l) (nodes source) /\
    (forall p, p ∈ l -> moved_ok lo (node_stack t) b (nodes t') p.1 p.2) /\
    focusable_node_ids t' = fold_left (file_focus lo b) l (focusable_node_ids t).
Proof.
  intros Hwf Hsrc Hpre b l. unfold reuse_subtree. fold (moved (nodes source) lo hi). fold l.
  destruct (reuse_nodes_ok (nodes source) lo hi (node_stack t) b (wf_parents _ Hsrc) Hpre focus l lo t [] false)
    as (t1 & stack & -> & Hwf1 & Hs1 & Hp1 & Hl1 & Hm & Hf1); [|done| |done| | | |].
  - intros j p Hj. by apply moved_lookup in Hj as (_ & ? & ?).
  - intros j Hj. destruct (lookup_lt_is_Some_2 l j Hj) as [p Hp]. by apply moved_lookup in Hp as (? & _).
  - unfold shift. lia.
  - by rewrite app_nil_r.
  - by left.
  - cbn [obind].
    destruct (pop_nodes_ok (node_stack t) stack (map (shift lo b) stack) t1 Hwf1 Hs1 (length_map _ _)) as (t' & -> & Hwf' & (Hn' & Hf' & _) & Hs').
    cbn [obind]. eexists _, _, _. split; [reflexivity|]. rewrite Hn', Hf'. cbn [nodes with_nodes].
    split_and!; try done.
    + rewrite Hl1. unfold shift. lia.
    + by rewrite length_map.
    + intros p Hp. apply list_elem_of_lookup in Hp as [j Hj]. pose proof Hj as (_ & -> & _)%moved_lookup. by apply Hm.
Qed.

(** The source keeps everything but the listeners of the nodes that were moved. *)
Definition emptied (lo hi i : nat) nd : Node :=
  if (lo <=? i) && (i <? hi) then node_with_listeners nd [] [] [] else nd.

Lemma emptied_lookup ns lo hi i :
  let l := moved ns lo hi in
  (take lo ns ++ map (fun p => node_with_listeners p.2 [] [] []) l ++ drop (lo + length l) ns) !! i =
  emptied lo hi i <$> ns !! i.
Proof.
  intros l. pose proof (moved_length ns lo hi) as Hl. fold l in Hl. unfold emptied.
  destruct (decide (length ns <= i)) as [Hge|Hlt].
  - rewrite (lookup_ge_None_2 ns) by done. simpl. apply lookup_ge_None_2.
    rewrite !length_app, length_take, length_map, length_drop. lia.
  - destruct (decide (i < lo)) as [Hi|Hi].
    + rewrite lookup_app_l by (rewrite length_take; lia). rewrite lookup_take_lt by done.
      destruct (Nat.leb_spec lo i); [lia|]. simpl. by destruct (ns !! i).
    + rewrite lookup_app_r by (rewrite length_take; lia). rewrite length_take, Nat.min_l by lia.
      destruct (Nat.leb_spec lo i); [|lia]. simpl. destruct (Nat.ltb_spec i hi).
      * rewrite lookup_app_l by (rewrite length_map; lia). change (map ?f l) with (f <$> l). rewrite list_lookup_fmap.
        destruct (lookup_lt_is_Some_2 ns i) as [nd Hnd]; [lia|]. rewrite Hnd.
        assert (E : l !! (i - lo) = Some (i, nd)).
        { apply moved_lookup. cbn [fst snd]. replace (lo + (i - lo)) with i by lia. by split_and!; [lia|lia|]. }
        by rewrite E.
      * rewrite lookup_app_r by (rewrite length_map; lia). rewrite length_map, lookup_drop.
        replace (lo + length l + (i - lo - length l)) with i by lia. by destruct (ns !! i).
Qed.

Lemma emptied_wf t t' lo hi :
  tree_wf t -> node_stack t' = node_stack t -> context_stack t' = context_stack t -> view_stack t' = view_stack t ->
  focusable_node_ids t' = focusable_node_ids t -> view_node_ids t' = view_node_ids t ->
  (forall i, nodes t' !! i = emptied lo hi i <$> nodes t !! i) -> tree_wf t'.
Proof.
  intros Hwf Hs Hc Hv Hf Hw Hn.
  assert (Hfield : forall {B} (get : Node -> option B), (forall nd, get (node_with_listeners nd [] [] []) = get nd) ->
    forall i, field get (nodes t') i = field get (nodes t) i).
  { intros B get Hget i. unfold field. rewrite Hn. destruct (nodes t !! i) as [nd|]; [|done]. simpl. unfold emptied.
    by destruct (_ && _). }
  split.
  - intros i nd p Hi. rewrite Hn in Hi. apply fmap_Some in Hi as (nd0 & Hi & ->). intros Hp.
    apply (wf_parents _ Hwf i nd0 p Hi). unfold emptied in Hp. by destruct (_ && _).
  - intros i Hi. rewrite Hs. unfold active_node_id in Hi. rewrite Hs in Hi. eapply path_transfer; [|by apply (wf_stack _ Hwf)].
    intros j nd _ Hj. exists (emptied lo hi j nd). rewrite Hn, Hj. split; [done|]. unfold emptied. by destruct (_ && _).
  - rewrite Hc, Hs, (wf_contexts _ Hwf). symmetry. apply collect_transfer. intros j _. by apply Hfield.
  - rewrite Hv, Hs, (wf_views _ Hwf). symmetry. apply collect_transfer. intros j _. by apply Hfield.
  - intros f i Hi. rewrite Hf in Hi. rewrite Hfield by done. by apply (wf_focus _ Hwf).
  - intros f i Hi. rewrite Hw in Hi. rewrite Hfield by done. by apply (wf_view _ Hwf).
Qed.

(** C19: A subtree of the previous frame, a range of nodes in depth-first order, is moved below
    the active node: [reuse_subtree] does not panic and the invariant and the stacks are
    kept.  Every node of the range is in the new tree, at the index that
    [refresh_node_id] gives, with its listeners, context and focus handle, below the
    copy of its parent, or below the active node if its parent is outside; and its
    innermost view is still its view, which is only recorded where it begins.  The nodes
    that were there stay.  The result tells whether the focused handle was in the range.
    A focus handle of the range is filed under a node of the range that carries it, and
    any other as before.  The source keeps its nodes but for the listeners. *)
Theorem reuse_subtree_correct t source lo hi focus
    (Hwf : tree_wf t) (Hsource : tree_wf source) (Hpre : preordered (nodes source) lo hi) :
  exists t' source' r,
    reuse_subtree t (lo, hi) source focus = Ok (t', source', r) /\ tree_wf t' /\ tree_wf source' /\
    node_stack t' = node_stack t /\ context_stack t' = context_stack t /\ view_stack t' = view_stack t /\
    nodes t `prefix_of` nodes t' /\
    (forall i, nodes source' !! i = emptied lo hi i <$> nodes source !! i) /\
    (forall i nd, lo <= i < hi -> nodes source !! i = Some nd ->
       refresh_node_id r i = Ok (length (nodes t) + (i - lo)) /\
       exists v path, nodes t' !! (length (nodes t) + (i - lo)) =
           Some (moved_node nd (match parent nd with
                                | Some p => if lo <=? p then Some (length (nodes t) + (p - lo)) else active_node_id t
                                | None => active_node_id t
                                end) v) /\
         path_to (nodes t') (length (nodes t) + (i - lo)) path /\
         match view_id nd with
         | Some w => (v = Some w \/ v = None) /\ list.last (collect view_id (nodes t') path) = Some w
         | None => v = None
         end) /\
    (contains_focus r = true <->
       exists i nd f, lo <= i < hi /\ nodes source !! i = Some nd /\ focus_id nd = Some f /\ focus = Some f) /\
    (forall f, (exists i nd, lo <= i < hi /\ nodes source !! i = Some nd /\ focus_id nd = Some f /\
                  focusable_node_ids t' !! f = Some (length (nodes t) + (i - lo))) \/
               ((forall i nd, lo <= i < hi -> nodes source !! i = Some nd -> focus_id nd <> Some f) /\
                focusable_node_ids t' !! f = focusable_node_ids t !! f)).
Proof.
  destruct (reuse_subtree_ok t source lo hi focus Hwf Hsource Hpre)
    as (t' & source' & r & Hok & Hwf' & Hs & Hp & Hl & -> & Hsrc & Hm & Hf).
  assert (Hsource' : source' = with_nodes source (nodes source')).
  { unfold reuse_subtree in Hok. destruct (reuse_nodes _ _ _ _ _) as [[[[t1 st] c] em]| |]; try done. cbn [obind] in Hok.
    destruct (pop_nodes t1 st); try done. cbn [obind] in Hok. by injection Hok as _ <- _. }
  assert (Hlook : forall i, nodes source' !! i = emptied lo hi i <$> nodes source !! i)
    by (intros i; rewrite Hsrc; apply emptied_lookup).
  assert (Hcoll : forall {B} (get : Node -> option B), collect get (nodes t') (node_stack t) = collect get (nodes t) (node_stack t)).
  { intros B get. apply collect_extend; [done|]. destruct (active_node_id t) as [p|] eqn:Ep; [by eapply path_in_range, wf_stack|].
    unfold active_node_id in Ep. apply last_None in Ep. rewrite Ep. constructor. }
  eexists t', source', _. split; [exact Hok|]. split; [done|]. split.
  { apply (emptied_wf source source' lo hi Hsource); [by rewrite Hsource'..|done]. }
  split; [done|]. split; [by rewrite (wf_contexts _ Hwf'), (wf_contexts _ Hwf), Hs|].
  split; [by rewrite (wf_views _ Hwf'), (wf_views _ Hwf), Hs|]. split; [done|]. split; [done|]. split; [|split].
  - intros i nd Hi Hnd. split.
    + unfold refresh_node_id. cbn [old_range new_range fst snd]. destruct (Nat.ltb_spec i lo); [lia|]. f_equal. lia.
    + apply (Hm (i, nd)), moved_elem. done.
  - cbn [contains_focus]. rewrite existsb_exists. split.
    + intros ([i nd] & Hin%list_elem_of_In%moved_elem & Hfo). unfold has_focus in Hfo. cbn [fst snd] in *.
      destruct (focus_id nd) as [f|] eqn:E; [|done]. apply bool_decide_eq_true in Hfo. exists i, nd, f. intuition.
    + intros (i & nd & f & Hi & Hnd & Hfo & ->). exists (i, nd). split; [by apply list_elem_of_In, moved_elem|].
      unfold has_focus. cbn [snd]. rewrite Hfo. by apply bool_decide_eq_true.
  - intros f. rewrite Hf. destruct (file_focus_spec lo (length (nodes t)) (moved (nodes source) lo hi) f (focusable_node_ids t))
      as [([i nd] & Hin%moved_elem & Hfo & ->)|[Hall ->]].
    + left. exists i, nd. cbn [fst snd] in *. intuition.
    + right. split; [|done]. intros i nd Hi Hnd. rewrite Forall_elem in Hall.
      apply (Hall (i, nd)), moved_elem. done.
Qed.

(** ** The life of a tree *)

Inductive tree_op :=
| PushNode | PopNode | SetActiveNode (id : nat) | SetKeyContext (c : KeyContext) | SetFocusId (f : N) | SetViewId (v : N)
| OnKeyEvent (l : KeyListener) | OnModifiersChanged (l : ModifiersChangedListener) | OnAction (ty : N) (l : ActionListener)
| Truncate (ix : nat) | ClearTree.

Definition run_tree_op t (op : tree_op) : outcome Tree :=
  match op with
  | PushNode => Ok (push_node t).1
  | PopNode => pop_node t
  | SetActiveNode id => set_active_node t id
  | SetKeyContext c => set_key_context t c
  | SetFocusId f => set_focus_id t f
  | SetViewId v => set_view_id t v
  | OnKeyEvent l => on_key_event t l
  | OnModifiersChanged l => on_modifiers_changed t l
  | OnAction ty l => on_action t ty l
  | Truncate ix => truncate t ix
  | ClearTree => Ok (clear t)
  end.

Definition has_active t : bool := match active_node_id t with Some _ => true | None => false end.

(** When an operation does not panic. *)
Definition safe_op t (op : tree_op) : bool :=
  match op with
  | PushNode | ClearTree => true
  | SetActiveNode id => id <? length (nodes t)
  | Truncate ix => ix <=? length (nodes t)
  | _ => has_active t
  end.

(** The field of the active node is not set yet. *)
Definition unset {B} (get : Node -> option B) t : Prop :=
  forall id nd, active_node_id t = Some id -> nodes t !! id = Some nd -> get nd = None.

(** How the elements of a frame call the operations: an element sets its context, its
    focus handle and its view once, and rolls back to a length at which no open node had
    been pushed. *)
Definition disciplined t (op : tree_op) : Prop :=
  match op with
  | SetKeyContext _ => unset context t
  | SetFocusId _ => unset focus_id t
  | SetViewId _ => unset view_id t
  | Truncate ix => Forall (fun id => id < ix) (node_stack t)
  | _ => True
  end.

Inductive reachable : Tree -> Prop :=
| reach_new km r : reachable (tree_new km r)
| reach_step t op t' : reachable t -> disciplined t op -> run_tree_op t op = Ok t' -> reachable t'
| reach_reuse t source lo hi focus t' source' r :
    reachable t -> reachable source -> preordered (nodes source) lo hi ->
    reuse_subtree t (lo, hi) source focus = Ok (t', source', r) -> reachable t'.

Lemma has_active_inv t :
  tree_wf t -> has_active t = true ->
  exists above id nd, node_stack t = above ++ [id] /\ active_node_id t = Some id /\ nodes t !! id = Some nd.
Proof.
  intros Hwf Ha. unfold has_active in Ha. destruct (active_node_id t) as [id|] eqn:E; [|done].
  destruct (active_inv t Hwf (stack_not_nil _ _ E)) as (above & id' & nd & ? & ? & ? & _). exists above, id', nd. split_and!; congruence.
Qed.

Lemma update_active_panics t f : has_active t = false -> update_active t f = Panic.
Proof. unfold has_active, update_active. by destruct (active_node_id t). Qed.

Lemma run_unsafe t op : tree_wf t -> safe_op t op = false -> run_tree_op t op = Panic.
Proof.
  intros Hwf. destruct op as [| |id|c|f|v|l|l|ty l|ix|]; cbn [safe_op run_tree_op]; intros Hs; try done.
  - unfold has_active in Hs. unfold pop_node. by destruct (active_node_id t).
  - nat_bool. unfold set_active_node, index. by rewrite lookup_ge_None_2.
  - unfold set_key_context. by rewrite update_active_panics.
  - unfold has_active in Hs. unfold set_focus_id. by destruct (active_node_id t).
  - unfold has_active in Hs. unfold set_view_id. destruct (active_node_id t) eqn:E; [done|].
    rewrite (wf_views _ Hwf). unfold active_node_id in E. apply last_None in E. rewrite E. done.
  - unfold on_key_event. by rewrite update_active_panics.
  - unfold on_modifiers_changed. by rewrite update_active_panics.
  - unfold on_action. by rewrite update_active_panics.
  - unfold truncate. nat_bool. destruct (Nat.ltb_spec (length (nodes t)) ix); [done|lia].
Qed.

(** The record of the open node. *)
Ltac open_node Hwf Hs := destruct (has_active_inv _ Hwf Hs) as (above & id & nd & E & Ha & Hnd).

Lemma update_listeners_safe t (f : Node -> Node) :
  tree_wf t -> has_active t = true ->
  (forall nd, context (f nd) = context nd /\ focus_id (f nd) = focus_id nd /\ view_id (f nd) = view_id nd /\ parent (f nd) = parent nd) ->
  exists t', update_active t f = Ok t' /\ (True -> tree_wf t').
Proof.
  intros Hwf Hs Hf. open_node Hwf Hs. destruct (update_listeners_ok t above id nd Hwf E Hnd f Hf) as (t' & Ht' & [Hwf' _ _] & _).
  eauto.
Qed.

Lemma run_safe t op :
  tree_wf t -> safe_op t op = true -> exists t', run_tree_op t op = Ok t' /\ (disciplined t op -> tree_wf t').
Proof.
  intros Hwf Hs. destruct op as [| |id|c|f|v|l|l|ty l|ix|]; cbn [safe_op run_tree_op disciplined] in *.
  - eexists. split; [reflexivity|]. intros _. by apply push_node_wf.
  - open_node Hwf Hs.
    destruct (pop_node_ok t above id Hwf E) as (t' & Ht' & Hwf' & _). eauto.
  - nat_bool. destruct (set_active_node_ok t id Hwf Hs) as (t' & path & Ht' & Hwf' & _). eauto.
  - open_node Hwf Hs.
    destruct (context nd) as [c'|] eqn:Ec.
    + unfold set_key_context, update_active. rewrite Ha. cbn [unwrap obind]. rewrite (index_Ok _ _ _ Hnd). cbn [obind].
      eexists. split; [reflexivity|]. intros Hu. by rewrite (Hu id nd Ha Hnd) in Ec.
    + destruct (set_key_context_ok t above id nd Hwf E Hnd c Ec) as (t' & Ht' & Hup & _). exists t'. split; [done|]. by intros _; destruct Hup.
  - open_node Hwf Hs.
    destruct (focus_id nd) as [c'|] eqn:Ec.
    + unfold set_focus_id. rewrite Ha. cbn [unwrap obind]. rewrite (index_Ok _ _ _ Hnd). cbn [obind].
      eexists. split; [reflexivity|]. intros Hu. by rewrite (Hu id nd Ha Hnd) in Ec.
    + destruct (set_focus_id_ok t above id nd Hwf E Hnd f Ec) as (t' & Ht' & Hup & _). exists t'. split; [done|]. by intros _; destruct Hup.
  - open_node Hwf Hs.
    destruct (view_id nd) as [c'|] eqn:Ec.
    + unfold set_view_id. case_bool_decide; [by exists t|]. rewrite Ha. cbn [unwrap obind]. rewrite (index_Ok _ _ _ Hnd). cbn [obind].
      eexists. split; [reflexivity|]. intros Hu. by rewrite (Hu id nd Ha Hnd) in Ec.
    + destruct (set_view_id_ok t above id nd Hwf E Hnd v Ec) as (t' & Ht' & _ & Hup). exists t'. split; [done|]. intros _.
      destruct Hup as [[_ ->]|(_ & Hup & _)]; [done|]. by destruct Hup.
  - by apply update_listeners_safe.
  - by apply update_listeners_safe.
  - by apply update_listeners_safe.
  - nat_bool. destruct (truncate t ix) as [t'| |] eqn:Et.
    + exists t'. split; [done|]. intros Hst. destruct (truncate_ok t ix Hwf Hs Hst) as (t'' & Et' & Hwf' & _). congruence.
    + unfold truncate in Et. destruct (Nat.ltb_spec (length (nodes t)) ix); [lia|done].
    + unfold truncate in Et. destruct (Nat.ltb_spec (length (nodes t)) ix); [lia|done].
  - eexists. split; [reflexivity|]. intros _. apply clear_wf.
Qed.

Lemma reachable_wf t : reachable t -> tree_wf t.
Proof.
  induction 1 as [km r|t op t' _ IH Hd Hrun|t source lo hi focus t' source' r _ IH _ IHs Hpre Hrun].
  - apply tree_new_wf.
  - destruct (safe_op t op) eqn:Hs.
    + destruct (run_safe t op IH Hs) as (t'' & E & Hwf). rewrite E in Hrun. injection Hrun as <-. auto.
    + by rewrite (run_unsafe t op IH Hs) in Hrun.
  - destruct (reuse_subtree_ok t source lo hi focus IH IHs Hpre) as (t'' & s'' & r' & E & Hwf & _).
    rewrite E in Hrun. by injection Hrun as <- _ _.
Qed.

(** C18: The operations of a frame, called with discipline, keep the invariant of the dispatch
    tree: parents come before their children, the stacks are the path of the active node
    and the contexts and views on it, and the maps point at nodes that carry the
    identifier.  In every state that is reached so, an operation panics exactly if it
    needs an open node and there is none, or if its index is out of bounds; and a range
    of any reachable tree in depth-first order can be moved. *)
Theorem dispatch_tree_invariant t (Hr : reachable t) :
  tree_wf t /\
  (forall op, if safe_op t op then exists t', run_tree_op t op = Ok t' else run_tree_op t op = Panic) /\
  (forall source lo hi focus, reachable source -> preordered (nodes source) lo hi ->
     exists t' source' r, reuse_subtree t (lo, hi) source focus = Ok (t', source', r) /\ reachable t').
Proof.
  pose proof (reachable_wf t Hr) as Hwf. split; [done|]. split.
  - intros op. destruct (safe_op t op) eqn:Hs; [|by apply run_unsafe].
    destruct (run_safe t op Hwf Hs) as (t' & E & _). eauto.
  - intros source lo hi focus Hsrc Hpre.
    destruct (reuse_subtree_ok t source lo hi focus Hwf (reachable_wf _ Hsrc) Hpre) as (t' & s' & r & E & _).
    exists t', s', r. split; [done|]. exact (reach_reuse _ _ _ _ _ _ _ _ Hr Hsrc Hpre E).
Qed.
End Reuse.

(** ** Tests and witnesses *)

Section Tests.
#[local] Instance test_action_trait : ActionTrait N := {|
  Keymap.type_id := fun a => a;
  partial_eq := N.eqb;
  no_action_type_id := 0%N;
|}.

Definition TestTree : Type := DispatchTree (Action := N) (Json := nat) (Error := unit) (Schema := unit)
  (KeyListener := N) (ModifiersChangedListener := N) (ActionListener := N).

(** Actions of the types 5 and 6 can be built. *)
Definition test_actions := [Actions.test_action 5 []; Actions.test_action 6 []].
Definition test_registry := match registry_default test_actions with Ok r => r | _ => registry_empty end.

Definition test_tree : TestTree := tree_new keymap_default test_registry.

Definition run_ops (t : TestTree) (ops : list (tree_op (KeyListener := N) (ModifiersChangedListener := N) (ActionListener := N)))
    : outcome TestTree := ofold run_tree_op ops t.

(** A frame of a root and a view with a focusable child; then the child is activated. *)
Definition frame_ops : list (tree_op (KeyListener := N) (ModifiersChangedListener := N) (ActionListener := N)) :=
  [PushNode; SetViewId 7; SetKeyContext []; PushNode; SetViewId 8; SetFocusId 1; PushNode; SetFocusId 2; OnAction 6 60%N; OnAction 5 50%N; OnAction 4 40%N; PopNode; PopNode; PopNode;
   SetActiveNode 2].

Definition frame : TestTree := match run_ops test_tree frame_ops with Ok t => t | _ => test_tree end.
Definition next_frame : TestTree :=
  match run_ops test_tree [PushNode; SetViewId 8; SetFocusId 9] with Ok t => t | _ => test_tree end.

Example test_dispatch_tree :
  dispatch_path frame 2 = Ok [0; 1; 2] /\ focus_path frame 2 = Ok [1; 2]%N /\ view_path frame 8 = Ok [7; 8]%N /\
  focus_contains frame 1 2 = Ok true /\ focus_contains frame 2 1 = Ok false /\
  node_stack frame = [0; 1; 2] /\ view_stack frame = [7; 8]%N.
Proof. vm_compute. by split_and!. Qed.

(** Moved below the view 8, the subtree of the view 8 does not record it again. *)
Example test_reuse :
  match reuse_subtree next_frame (1, 3) frame (Some 2%N) with
  | Ok (t, source, r) =>
      map view_id (nodes t) = [Some 8; None; None]%N /\ map parent (nodes t) = [None; Some 0; Some 1] /\
      map (fun nd => length (action_listeners nd)) (nodes source) = [0; 0; 0] /\
      map (fun nd => length (action_listeners nd)) (nodes t) = [0; 0; 3] /\ contains_focus r = true
  | _ => False
  end.
Proof. vm_compute. done. Qed.

(** [disciplined] and the absence of panics, decided. *)
Definition unset_b {B} (get : _ -> option B) (t : TestTree) : bool :=
  match active_node_id t with
  | Some id => match nodes t !! id with Some nd => match get nd with None => true | Some _ => false end | None => true end
  | None => true
  end.

Definition disciplined_b (t : TestTree) (op : tree_op (KeyListener := N) (ModifiersChangedListener := N) (ActionListener := N)) : bool :=
  match op with
  | SetKeyContext _ => unset_b context t
  | SetFocusId _ => unset_b focus_id t
  | SetViewId _ => unset_b view_id t
  | Truncate ix => forallb (fun id => id <? ix) (node_stack t)
  | _ => true
  end.

Fixpoint all_disciplined (t : TestTree) ops : bool :=
  match ops with
  | [] => true
  | op :: ops => disciplined_b t op && match run_tree_op t op with Ok t' => all_disciplined t' ops | _ => false end
  end.

Lemma unset_b_spec {B} (get : _ -> option B) t : unset_b get t = true -> unset get t.
Proof. unfold unset_b. intros Hu id nd Ha Hnd. rewrite Ha, Hnd in Hu. by destruct (get nd). Qed.

Lemma disciplined_b_spec t op : disciplined_b t op = true -> disciplined t op.
Proof.
  destruct op; simpl; try done; try apply unset_b_spec. intros Hf. apply Forall_elem. intros id Hid.
  apply list_elem_of_In in Hid. by apply Nat.ltb_lt, (proj1 (forallb_forall _ _) Hf).
Qed.

Lemma run_ops_reachable ops : forall t, reachable t -> all_disciplined t ops = true ->
  reachable (match run_ops t ops with Ok t' => t' | _ => test_tree end).
Proof.
  unfold run_ops. induction ops as [|op ops IH]; intros t Ht Hd; cbn [all_disciplined ofold] in *; [done|].
  apply andb_true_iff in Hd as [Hd Hall].
  destruct (run_tree_op t op) as [t'| |] eqn:E; try done. cbn [obind]. apply IH; [|done].
  eapply reach_step; [exact Ht|by apply disciplined_b_spec|exact E].
Qed.

Lemma frame_reachable : reachable frame.
Proof. apply (run_ops_reachable frame_ops test_tree); [apply reach_new|]. vm_compute. reflexivity. Qed.

Lemma next_frame_reachable : reachable next_frame.
Proof. apply (run_ops_reachable [PushNode; SetViewId 8; SetFocusId 9] test_tree); [apply reach_new|]. vm_compute. reflexivity. Qed.

Lemma frame_preordered : preordered (nodes frame) 1 3.
Proof.
  intros i nd p Hi Hnd Hp Hlo. assert (i = 2) as -> by lia.
  vm_compute in Hnd. injection Hnd as <-. injection Hp as <-.
  exists [0; 1]. split; [|apply elem_of_cons; right; by apply list_elem_of_singleton].
  apply (path_child _ 1 (nth 1 (nodes frame) (mkDispatchNode [] [] [] None None None None)) 0 [0]);
    [vm_compute; reflexivity..|].
  by apply (path_root _ 0 (nth 0 (nodes frame) (mkDispatchNode [] [] [] None None None None))); vm_compute.
Qed.

Lemma dispatch_paths_correct_witness :
  exists path t', path_to (nodes frame) 2 path /\ set_active_node frame 2 = Ok t' /\ node_stack t' = path.
Proof.
  destruct (dispatch_paths_correct frame (reachable_wf _ frame_reachable)) as (Hp & _).
  destruct (Hp 2) as (path & t' & H1 & _ & H2 & _ & H3 & _); [vm_compute; lia|]. exists path, t'. auto.
Defined.

Lemma reuse_subtree_correct_witness :
  exists t' source' r, reuse_subtree next_frame (1, 3) frame (Some 2%N) = Ok (t', source', r) /\ tree_wf t' /\
    node_stack t' = [0] /\ contains_focus r = true.
Proof.
  destruct (reuse_subtree_correct next_frame frame 1 3 (Some 2%N) (reachable_wf _ next_frame_reachable)
    (reachable_wf _ frame_reachable) frame_preordered) as (t' & source' & r & Hok & Hwf & _ & Hs & _ & _ & _ & _ & _ & Hf & _).
  exists t', source', r. split; [exact Hok|]. split; [exact Hwf|]. split; [exact Hs|]. apply Hf.
  exists 2, (nth 2 (nodes frame) (mkDispatchNode [] [] [] None None None None)), 2%N.
  split; [lia|]. split; [|split]; vm_compute; reflexivity.
Defined.

Lemma dispatch_tree_invariant_witness :
  tree_wf frame /\ run_tree_op (clear frame) PopNode = Panic /\
  exists t' source' r, reuse_subtree next_frame (1, 3) frame None = Ok (t', source', r) /\ reachable t'.
Proof.
  split; [apply (dispatch_tree_invariant frame frame_reachable)|]. split; [vm_compute; reflexivity|].
  destruct (dispatch_tree_invariant next_frame next_frame_reachable) as (_ & _ & Hreuse).
  exact (Hreuse frame 1 3 None frame_reachable frame_preordered).
Defined.
End Tests.
