(* ===== verification/DispatchKeys.v ===== *)
(** * Keystrokes and actions in the dispatch tree

    [dispatch_key] and [flush_dispatch] turn the keystrokes that were kept pending into
    replays: the longest prefix that is bound, again and again.  Then the actions that
    are available at a node, and the bindings shown for an action. *)

From Stdlib Require Import NArith Sorted String.
From stdpp Require Import base list option numbers sorting gmap.
From S2P Require Import Prelude Text Actions KeyContext Keystroke Keymap DispatchTree DispatchInvariant DispatchReuse.

#[local] Set Warnings "-register-all,-clear-no-such-hyp".

Section Keys.
Context `{ActionTrait Action} (os : Os).
Context {Json Error Schema : Type} (empty_object : Json).
Context {KeyListener ModifiersChangedListener ActionListener : Type}.

Abbreviation Tree := (DispatchTree (Action := Action) (Json := Json) (Error := Error) (Schema := Schema)
  (KeyListener := KeyListener) (ModifiersChangedListener := ModifiersChangedListener) (ActionListener := ActionListener)).
Abbreviation Binding := (KeyBinding Action).

Implicit Types (t : Tree) (input rest : list Keystroke) (k : Keystroke).

(** ** Keystrokes *)

Section Input.
Context t (path : list nat) (contexts : list KeyContext).
Context (Hcontexts : contexts_along t path = Ok contexts).

(** What the keymap says of an input in the contexts of the path. *)
Definition bound input : list Binding := (Keymap.bindings_for_input os (keymap t) input contexts).1.
Definition begins_more input : bool := (Keymap.bindings_for_input os (keymap t) input contexts).2.

(** The longest prefix of [input] that is bound has [n] keystrokes; or none is, and [n] is
    one. *)
Definition longest_prefix input (n : nat) : Prop :=
  1 <= n <= length input /\ (forall m, n < m <= length input -> bound (take m input) = []) /\
  (bound (take n input) = [] -> n = 1).

(** The input is cut into such prefixes until [rest]; every prefix is replayed as its last
    keystroke with its bindings; and [P] holds of each of the inputs that are cut. *)
Inductive segmented (P : list Keystroke -> Prop) : list Keystroke -> list Replay -> list Keystroke -> Prop :=
| segmented_end input : segmented P input [] input
| segmented_cut input n k replays rest :
    P input -> longest_prefix input n -> list.last (take n input) = Some k ->
    segmented P (drop n input) replays rest ->
    segmented P input (mkReplay k (bound (take n input)) :: replays) rest.

Lemma resolve_input input : tree_bindings_for_input os t input path = Ok (bound input, begins_more input, contexts).
Proof.
  unfold tree_bindings_for_input, bound, begins_more. rewrite Hcontexts. cbn [obind].
  by destruct (Keymap.bindings_for_input os (keymap t) input contexts).
Qed.

Lemma longest_bound_ok input n :
  n <= length input -> (forall m, n < m <= length input -> bound (take m input) = []) ->
  exists r, longest_bound os t input path n = Ok r /\
    match r with
    | Some (m, bs) => longest_prefix input m /\ bs = bound (take m input) /\ bs <> []
    | None => forall m, 1 <= m <= length input -> bound (take m input) = []
    end.
Proof.
  induction n as [|n IH]; intros Hn Hlong; cbn [longest_bound].
  - exists None. split; [done|]. intros m Hm. apply Hlong. lia.
  - rewrite resolve_input. cbn [obind]. destruct (bound (take (S n) input)) as [|b bs] eqn:E.
    + apply IH; [lia|]. intros m Hm. destruct (decide (m = S n)) as [->|]; [done|]. apply Hlong. lia.
    + eexists. split; [reflexivity|]. split; [|split; [by rewrite E|done]]. split; [lia|]. split; [done|]. by rewrite E.
Qed.

Lemma last_take {A} (l : list A) n : 1 <= n <= length l -> exists x, list.last (take n l) = Some x.
Proof.
  intros Hn. destruct (list.last (take n l)) as [x|] eqn:E; [by exists x|]. apply last_None in E.
  apply (f_equal length) in E. rewrite length_take in E. simpl in E. lia.
Qed.

Lemma replay_prefix_ok input :
  input <> [] ->
  exists n k, replay_prefix os t input path = Ok (drop n input, [mkReplay k (bound (take n input))]) /\
    longest_prefix input n /\ list.last (take n input) = Some k.
Proof.
  intros Hne. unfold replay_prefix.
  destruct (longest_bound_ok input (length input) (le_n _)) as (r & -> & Hr); [intros m Hm; lia|]. cbn [obind].
  destruct r as [[n bs]|].
  - destruct Hr as (Hlong & -> & _). destruct (last_take input n) as [k Hk]; [apply Hlong|]. exists n, k.
    by rewrite Hk.
  - destruct input as [|k input]; [done|]. exists 1, k. change (take 1 (k :: input)) with [k]. change (drop 1 (k :: input)) with input.
    assert (E : bound [k] = []) by (apply (Hr 1); simpl; lia).
    rewrite E. split; [done|]. split; [|done]. split; [simpl; lia|]. split; [|done].
    intros m Hm. apply Hr. lia.
Qed.

Lemma replay_prefix_empty : replay_prefix os t [] path = Panic.
Proof. done. Qed.

(** The keystrokes left once the key [k] is decided. *)
Definition undecided k input : Prop := input <> [] /\ bound (input ++ [k]) = [] /\ begins_more (input ++ [k]) = false.

(** What the keystrokes [rest ++ [k]] resolve to. *)
Definition decided k rest (r : DispatchResult (Action := Action)) : Prop :=
  if begins_more (rest ++ [k]) then result_pending r = rest ++ [k] /\ result_bindings r = []
  else result_pending r = [] /\ result_bindings r = bound (rest ++ [k]) /\ (bound (rest ++ [k]) = [] -> rest = []).

Lemma dispatch_loop_ok k : forall fuel input,
  length input < fuel ->
  exists r rest, dispatch_loop os fuel t input k path = Ok r /\
    segmented (undecided k) input (to_replay r) rest /\ decided k rest r /\ result_context_stack r = contexts.
Proof.
  induction fuel as [|fuel IH]; intros input Hf; [lia|]. cbn [dispatch_loop]. rewrite resolve_input. cbn [obind].
  destruct (begins_more (input ++ [k])) eqn:Hp.
  { eexists _, input. split; [reflexivity|]. split; [constructor|]. split; [|done]. unfold decided. by rewrite Hp. }
  destruct (bound (input ++ [k])) as [|b bs] eqn:Hb.
  2: { eexists _, input. split; [reflexivity|]. split; [constructor|]. split; [|done]. unfold decided. by rewrite Hp, Hb. }
  rewrite length_app, Nat.add_1_r. cbn [length]. destruct input as [|k0 input']; [|remember (k0 :: input') as input].
  { eexists _, []. split; [reflexivity|]. split; [constructor|]. split; [|done]. unfold decided. by rewrite Hp, Hb. }
  assert (Hne : input <> []) by (by subst). destruct (Nat.eqb_spec (S (length input)) 1); [by subst|].
  destruct (replay_prefix_ok input Hne) as (n' & kr & -> & Hlong & Hk). cbn [obind].
  destruct (IH (drop n' input)) as (r & rest & -> & Hseg & Hdec & Hc).
  { rewrite length_drop. destruct Hlong as [? _]. lia. }
  cbn [obind]. eexists _, rest. split; [reflexivity|]. cbn [to_replay result_context_stack app].
  split; [by apply segmented_cut|]. by split.
Qed.

Lemma flush_loop_ok : forall fuel input,
  input <> [] -> length input <= fuel ->
  exists replays, flush_loop os fuel t input path = Ok replays /\ segmented (fun _ => True) input replays [].
Proof.
  induction fuel as [|fuel IH]; intros input Hne Hf; [destruct input; [done|simpl in Hf; lia]|]. cbn [flush_loop].
  destruct (replay_prefix_ok input Hne) as (n & k & -> & Hlong & Hk). cbn [obind].
  destruct (drop n input) as [|k' suffix] eqn:E.
  - eexists. split; [reflexivity|]. eapply segmented_cut; [done|done|done|]. rewrite E. constructor.
  - destruct (IH (k' :: suffix)) as (replays & -> & Hseg); [done| |].
    { rewrite <- E, length_drop. destruct Hlong as [? _]. lia. }
    cbn [obind]. eexists. split; [reflexivity|]. eapply segmented_cut; [done|done|done|]. by rewrite E.
Qed.

(** C17: Typing the key [k] after the pending [input] always returns (each round of the
    recursion cuts a keystroke at least).  The pending keystrokes are cut, from the left,
    into the longest prefixes that are bound, a single keystroke where none is, and each
    is to be replayed with its bindings, as long as the keystrokes that are left and [k]
    neither are bound nor begin a binding; what is left with [k] decides the result: it
    is pending if it begins a longer binding, even when it is bound, else its bindings
    are run, and only if nothing is left may [k] be unbound.  [flush_dispatch] cuts the
    whole input, which must not be empty. *)
Theorem dispatch_keys_correct input k :
  (exists r rest, dispatch_key os t input k path = Ok r /\ segmented (undecided k) input (to_replay r) rest /\
     decided k rest r /\ result_context_stack r = contexts) /\
  (input <> [] -> exists replays, flush_dispatch os t input path = Ok replays /\ segmented (fun _ => True) input replays []) /\
  flush_dispatch os t [] path = Panic.
Proof.
  split; [apply dispatch_loop_ok; lia|]. split; [|done]. intros Hne. apply flush_loop_ok; [done|lia].
Qed.
End Input.

(** ** Actions *)

Section Available.
Context t.
(** The builder of a type builds actions of the type. *)
Context (Hbuild : forall ty a, build_action_type empty_object (action_registry t) ty = Some a -> type_id a = ty).

Definition type_lt (a b : Action) : Prop := (type_id a < type_id b)%N.

(** A listener for actions of the type is on the path. *)
Definition listens (path : list nat) (ty : N) : Prop :=
  exists id nd l, id ∈ path /\ nodes t !! id = Some nd /\ l ∈ action_listeners nd /\ action_type l = ty.

Lemma types_split (l : list Action) ty :
  StronglySorted type_lt l ->
  let ix := length (List.filter (fun a => (type_id a <? ty)%N) l) in
  Forall (fun a => (type_id a < ty)%N) (take ix l) /\ Forall (fun a => (ty <= type_id a)%N) (drop ix l).
Proof.
  induction 1 as [|a l Hs IH Ha]; [split; constructor|]. simpl.
  destruct (N.ltb_spec (type_id a) ty) as [Hlt|Hge]; simpl; [destruct IH; split; [by constructor|done]|].
  rewrite bfilter_none.
  - split; [constructor|]. constructor; [done|]. eapply Forall_weaken; [|exact Ha]. cbn beta. unfold type_lt. lia.
  - eapply Forall_weaken; [|exact Ha]. cbn beta. unfold type_lt. intros b Hb. apply N.ltb_ge. lia.
Qed.

Lemma sorted_insert l1 l2 (a : Action) :
  StronglySorted type_lt (l1 ++ l2) -> Forall (fun b => type_lt b a) l1 -> Forall (type_lt a) l2 ->
  StronglySorted type_lt (l1 ++ a :: l2).
Proof.
  induction l1 as [|b l1 IH]; simpl; intros Hs H1 H2; [by apply SSorted_cons|].
  apply StronglySorted_inv in Hs as [Hs Hb]. apply Forall_cons_iff in H1 as [Hba H1].
  apply SSorted_cons; [by apply IH|]. apply Forall_app in Hb as [Hb1 Hb2]. apply Forall_app. split; [done|]. by constructor.
Qed.

Lemma add_available_ok actions (l : DispatchActionListener (ActionListener := ActionListener)) :
  StronglySorted type_lt actions ->
  (forall a, a ∈ actions -> build_action_type empty_object (action_registry t) (type_id a) = Some a) ->
  let actions' := add_available empty_object t actions l in
  StronglySorted type_lt actions' /\
  (forall a, a ∈ actions' <-> a ∈ actions \/ build_action_type empty_object (action_registry t) (action_type l) = Some a).
Proof.
  intros Hs Hbuilt. unfold add_available, binary_search. set (ty := action_type l).
  destruct (types_split actions ty Hs) as [Hbelow Habove].
  set (ix := length (List.filter (fun a => (type_id a <? ty)%N) actions)) in *.
  assert (Hinsert : forall a, build_action_type empty_object (action_registry t) ty = Some a ->
    Forall (fun b => (ty < type_id b)%N) (drop ix actions) ->
    StronglySorted type_lt (take ix actions ++ a :: drop ix actions) /\
    (forall b, b ∈ take ix actions ++ a :: drop ix actions <-> b ∈ actions \/ Some a = Some b)).
  { intros a Ha Hab. pose proof (Hbuild _ _ Ha) as Hty. split.
    - apply sorted_insert; [by rewrite take_drop| |]; (eapply Forall_weaken; [|eassumption]); cbn beta; unfold type_lt; rewrite Hty; done.
    - intros b. rewrite elem_of_app, elem_of_cons. rewrite <- (take_drop ix actions) at 3. rewrite elem_of_app. naive_solver. }
  destruct (actions !! ix) as [a|] eqn:E.
  - pose proof (drop_S _ _ _ E) as Hd. rewrite Hd in Habove. apply Forall_cons_iff in Habove as [Ha Habove].
    assert (Hin : a ∈ actions) by (by eapply list_elem_of_lookup_2).
    destruct (N.eqb_spec (type_id a) ty) as [Heq|Hne].
    + split; [done|]. intros b. split; [by left|]. intros [Hb|Hb]; [done|]. rewrite <- Heq, Hbuilt in Hb by done. by simplify_eq.
    + destruct (build_action_type empty_object (action_registry t) ty) as [a'|] eqn:Eb; [|split; [done|naive_solver]].
      apply Hinsert; [done|]. rewrite Hd. constructor; [lia|].
      assert (Hs' : StronglySorted type_lt (take ix actions ++ a :: drop (S ix) actions)) by (by rewrite <- Hd, take_drop).
      apply StronglySorted_app_1_r, StronglySorted_inv in Hs' as [_ Hs']. eapply Forall_weaken; [|exact Hs'].
      cbn beta. unfold type_lt. lia.
  - apply lookup_ge_None in E. rewrite (drop_ge actions ix E) in *.
    destruct (build_action_type empty_object (action_registry t) ty) as [a'|] eqn:Eb; [|split; [done|naive_solver]].
    by apply Hinsert.
Qed.

(** The actions gathered so far are sorted, and each is the one its type builds. *)
Definition gathered (actions : list Action) : Prop :=
  StronglySorted type_lt actions /\
  (forall a, a ∈ actions -> build_action_type empty_object (action_registry t) (type_id a) = Some a).

Lemma add_available_gathered ls : forall actions,
  gathered actions ->
  let actions' := fold_left (add_available empty_object t) ls actions in
  gathered actions' /\
  (forall a, a ∈ actions' <-> a ∈ actions \/
     exists l : DispatchActionListener (ActionListener := ActionListener),
       l ∈ ls /\ build_action_type empty_object (action_registry t) (action_type l) = Some a).
Proof.
  induction ls as [|l ls IH]; intros actions [Hs Hb]; cbn [fold_left].
  - split; [done|]. intros a. split; [by left|]. intros [?|(l & Hl & _)]; [done|]. by apply elem_of_nil in Hl.
  - destruct (add_available_ok actions l Hs Hb) as [Hs' Hin].
    destruct (IH (add_available empty_object t actions l)) as [Hg Hin'].
    { split; [done|]. intros a [Ha|Ha]%Hin; [auto|]. by rewrite (Hbuild _ _ Ha). }
    split; [done|]. intros a. rewrite Hin', Hin. setoid_rewrite elem_of_cons. naive_solver.
Qed.

Lemma available_along_ok path :
  Forall (fun id => is_Some (nodes t !! id)) path -> forall actions,
  gathered actions ->
  exists actions', ofold (available_on empty_object t) path actions = Ok actions' /\ gathered actions' /\
    (forall a, a ∈ actions' <-> a ∈ actions \/
       exists ty, listens path ty /\ build_action_type empty_object (action_registry t) ty = Some a).
Proof.
  induction 1 as [|id path [nd Hnd] _ IH]; intros actions Hg; cbn [ofold].
  - exists actions. split; [done|]. split; [done|]. intros a. split; [by left|].
    intros [?|(ty & (id & nd & l & Hid & _) & _)]; [done|]. by apply elem_of_nil in Hid.
  - unfold available_on at 1. rewrite (index_Ok _ _ _ Hnd). cbn [obind].
    destruct (add_available_gathered (action_listeners nd) actions Hg) as [Hg' Hin].
    destruct (IH _ Hg') as (actions' & -> & Hg'' & Hin'). exists actions'. split; [done|]. split; [done|].
    intros a. rewrite Hin', Hin. unfold listens. setoid_rewrite elem_of_cons. split.
    + intros [[Ha|(l & Hl & Ha)]|(ty & (i & nd' & l & Hi & Hnd' & Hl & <-) & Ha)]; [by left|right..]; eauto 15.
    + intros [Ha|(ty & (i & nd' & l & [->|Hi] & Hnd' & Hl & <-) & Ha)]; [by left; left| |]; [|right; eauto 15].
      simplify_eq. left. right. eauto.
Qed.

Lemma is_available_ok path a :
  Forall (fun id => is_Some (nodes t !! id)) path ->
  exists b, available_along t a path = Ok b /\ (b = true <-> listens path (type_id a)).
Proof.
  induction 1 as [|id path [nd Hnd] _ (b & IH & Hb)]; cbn [available_along].
  - exists false. split; [done|]. split; [done|]. intros (id & nd & l & Hid & _). by apply elem_of_nil in Hid.
  - rewrite (index_Ok _ _ _ Hnd). cbn [obind].
    destruct (existsb (fun l => (action_type l =? type_id a)%N) (action_listeners nd)) eqn:E.
    + exists true. split; [done|]. split; [|done]. intros _. apply existsb_exists in E as (l & Hl & Hty%N.eqb_eq).
      exists id, nd, l. split; [apply elem_of_cons; by left|]. by rewrite list_elem_of_In.
    + exists b. split; [done|]. rewrite Hb. unfold listens. setoid_rewrite elem_of_cons. split; [naive_solver|].
      intros (i & nd' & l & [->|Hi] & Hnd' & Hl & Hty); [|eauto 10]. simplify_eq. exfalso.
      apply not_true_iff_false in E. apply E, existsb_exists. exists l. rewrite <- list_elem_of_In, N.eqb_eq. done.
Qed.

(** In a well-formed tree whose registry builds an action of each type by default if at
    all, [available_actions] of a node returns, sorted by type and once each, the default
    actions of the types for which a node on its dispatch path has a listener; a type
    without a default action is left out.  [is_action_available] tells whether there is a
    listener for the action's type, whatever the registry builds. *)
Theorem available_actions_correct (Hwf : tree_wf t) id (Hid : id < length (nodes t)) :
  exists path actions, path_to (nodes t) id path /\ available_actions empty_object t id = Ok actions /\
    StronglySorted type_lt actions /\
    (forall a, a ∈ actions <-> exists ty, listens path ty /\ build_action_type empty_object (action_registry t) ty = Some a) /\
    (forall a, exists b, is_action_available t a id = Ok b /\ (b = true <-> listens path (type_id a))).
Proof.
  destruct (path_exists _ id (wf_parents _ Hwf) Hid) as [path Hp]. exists path.
  assert (Hall : Forall (fun id => is_Some (nodes t !! id)) path).
  { apply Forall_elem. intros i Hi. by eapply path_lookup. }
  destruct (available_along_ok path Hall []) as (actions & Ha & [Hs _] & Hin).
  { split; [constructor|]. intros a Ha. by apply elem_of_nil in Ha. }
  exists actions. split; [done|]. unfold available_actions, is_action_available.
  rewrite (dispatch_path_ok t id path Hwf Hp). cbn [obind]. split; [done|]. split; [done|]. split.
  - intros a. rewrite Hin. split; [|by right]. intros [Hn|?]; [by apply elem_of_nil in Hn|done].
  - intros a. by apply is_available_ok.
Qed.
End Available.

(** ** The bindings of an action *)

Lemma find_rev_last {A} (p : A -> bool) l : List.find p (rev l) = list.last (List.filter p l).
Proof.
  induction l as [|x l IH] using rev_ind; [done|]. rewrite rev_app_distr, List.filter_app. simpl.
  destruct (p x); [by rewrite last_snoc|by rewrite app_nil_r].
Qed.

(** [bindings_for_action] shows the bindings of the action, in the order they were added,
    that are not disabled and whose keystrokes, typed in the contexts, run first a
    binding with the same action, so that another does not shadow it; and
    [highest_precedence_binding_for_action], which searches from the end, is the last of
    them. *)
Theorem shown_bindings_correct t a contexts (Hwf : keymap_wf (keymap t)) :
  exists shown, tree_bindings_for_action os t a contexts = Ok shown /\
    highest_precedence_binding_for_action os t a contexts = Ok (list.last shown) /\
    shown = List.filter (fun b =>
      match (Keymap.bindings_for_input os (keymap t) (map inner (keystrokes b)) contexts).1 with
      | found :: _ => partial_eq (action found) (action b)
      | [] => false
      end) (action_bindings (bindings (keymap t)) a).
Proof.
  unfold tree_bindings_for_action, highest_precedence_binding_for_action.
  rewrite (bindings_for_action_ok (keymap t) a Hwf). cbn [obind]. eexists. split; [reflexivity|].
  split; [by rewrite find_rev_last|]. apply List.filter_ext. intros b. unfold binding_matches_predicate_and_not_shadowed.
  by destruct (Keymap.bindings_for_input os (keymap t) (map inner (keystrokes b)) contexts).
Qed.
End Keys.

(** ** Tests and witnesses *)

Section Tests.
#[local] Existing Instance Keymap.test_action.

(** A sequence, its beginning, and another key. *)
Definition key_tree : TestTree := tree_new (keymap_new [binding "a b c" 1 None; binding "a" 2 None; binding "c" 3 None]) test_registry.

Definition replayed (r : outcome (DispatchResult (Action := N))) : option (list (str * list N) * list N * nat) :=
  match r with
  | Ok r => Some (map (fun p => (key (replay_keystroke p), map action (replay_bindings p))) (to_replay r), map action (result_bindings r),
                  length (result_pending r))
  | _ => None
  end.

Definition key_of (s : String.string) : Keystroke := nth 0 (typed s) (mkKeystroke (mkModifiers false false false false false) [] None).
Arguments key_of s%_string_scope.

(** "a b" is pending; "d" ends the sequence; "c" completes it, or a shorter one. *)
Example test_dispatch_key :
  map (fun '(input, k) => replayed (dispatch_key Linux key_tree (typed input) (key_of k) []))
    [("a"%string, "b"%string); ("a b"%string, "d"%string); ("a b"%string, "c"%string); ("a"%string, "c"%string)] =
  [Some ([], [], 2); Some ([(lit "a", [2%N]); (lit "b", [])], [], 0); Some ([], [1%N], 0); Some ([(lit "a", [2%N])], [3%N], 0)].
Proof. vm_compute. reflexivity. Qed.

Lemma dispatch_keys_correct_witness :
  (exists r, dispatch_key Linux key_tree (typed "a b") (key_of "d") [] = Ok r /\ length (to_replay r) = 2) /\
  exists replays, flush_dispatch Linux key_tree (typed "a b") [] = Ok replays.
Proof.
  destruct (dispatch_keys_correct Linux key_tree [] [] eq_refl (typed "a b") (key_of "d")) as ((r & rest & Hr & _) & Hf & _).
  split.
  - exists r. split; [exact Hr|]. assert (E : match dispatch_key Linux key_tree (typed "a b") (key_of "d") [] with Ok r => length (to_replay r) | _ => 0 end = 2)
      by (vm_compute; reflexivity). rewrite Hr in E. exact E.
  - destruct Hf as (replays & Hf & _); [intros E; vm_compute in E; discriminate E|]. exists replays. exact Hf.
Defined.

Lemma test_registry_build ty a : build_action_type 0 (action_registry frame) ty = Some a -> type_id a = ty.
Proof.
  assert (Hr : registered test_registry test_actions).
  { destruct (load_actions_ok test_actions _ [] registry_empty_registered) as (r & E & Hr).
    - apply (bool_decide_eq_true_1 _). vm_compute. reflexivity.
    - assert (test_registry = r) as ->; [|done]. unfold test_registry, registry_default. by rewrite E. }
  change (action_registry frame) with test_registry || (replace (action_registry frame) with test_registry by (vm_compute; reflexivity)).
  rewrite (build_action_type_registered 0 _ _ ty Hr). destruct (list.last (Actions.of_type ty test_actions)) as [m|] eqn:E; [|done].
  apply last_Some_elem_of, list_elem_of_In, filter_In in E as [Hm <-%N.eqb_eq].
  destruct Hm as [<-|[<-|[]]]; by intros [= <-].
Qed.

Lemma available_actions_correct_witness :
  exists actions, available_actions 0 frame 2 = Ok actions /\ actions = [5; 6]%N /\ is_action_available frame 4%N 2 = Ok true.
Proof.
  destruct (available_actions_correct 0 frame test_registry_build (reachable_wf _ frame_reachable) 2) as (path & actions & _ & Ha & _);
    [vm_compute; lia|].
  exists actions. split; [exact Ha|]. split; [|vm_compute; reflexivity].
  assert (E : available_actions 0 frame 2 = Ok [5; 6]%N) by (vm_compute; reflexivity). rewrite Ha in E. by injection E.
Defined.

Lemma shown_bindings_correct_witness :
  exists shown, tree_bindings_for_action Linux key_tree 2%N [] = Ok shown /\
    highest_precedence_binding_for_action Linux key_tree 2%N [] = Ok (list.last shown).
Proof.
  destruct (shown_bindings_correct Linux key_tree 2%N []) as (shown & H1 & H2 & _); [apply add_bindings_wf, keymap_default_wf|].
  exists shown. split; [exact H1|exact H2].
Defined.
End Tests.
