(* ===== verification/EntityMap.v ===== *)
(** * The entity map: [crates/gpui/src/app/entity_map.rs]

    The application owns the state of all entities; the code holds handles.  A strong
    handle ([AnyEntity], [Entity]) counts, a weak one does not.  When the last strong
    handle is dropped the entity is queued, and [take_dropped] takes the queued entities
    out at the end of an effect cycle.  While an entity is updated its state is leased:
    moved out of the map.

    The keys come from the slotmap crate: a class, with the law that a key is not issued
    twice.  [SecondaryMap] is a finite map: the keys used with it are of that slot map,
    and are removed from it before.  A value is of an abstract type, with the type
    identifier that [downcast_ref] compares.  The operations of this file run one at a
    time; EntityThreads interleaves those of the handles. *)

From Stdlib Require Import NArith.
From stdpp Require Import base list option numbers gmap.
From S2P Require Import Prelude.

#[local] Set Warnings "-register-all,-clear-no-such-hyp".

Abbreviation EntityId := positive.

(** The part of [SlotMap] that issues keys. *)
Class SlotKeys (Slots : Type) := {
  slots_new : Slots;
  slots_insert : Slots -> EntityId * Slots;
  slots_remove : Slots -> EntityId -> Slots;
  issued : Slots -> gset EntityId;
}.

Class SlotKeysLaws (Slots : Type) `{SlotKeys Slots} : Prop := {
  issued_new : issued slots_new = ∅;
  issued_fresh s : (slots_insert s).1 ∉ issued s;
  issued_insert s : issued (slots_insert s).2 = {[ (slots_insert s).1 ]} ∪ issued s;
  issued_remove s id : issued (slots_remove s id) = issued s;
}.

Section EntityMap.
Context {Value : Type} (value_type : Value -> N).
Context `{SlotKeys Slots}.

Record EntityRefCounts := mkEntityRefCounts {
  slots : Slots;
  counts : gmap EntityId nat;
  dropped_entity_ids : list EntityId;
}.

Record EntityMap := mkEntityMap {
  entities : gmap EntityId Value;
  accessed_entities : gset EntityId;
  ref_counts : EntityRefCounts;
}.

(** [AnyEntity] (and [Entity], [Slot]); the weak pointer to the counts is the map passed
    to the operations, [None] once it has been dropped. *)
Record AnyEntity := mkAnyEntity {
  entity_id : EntityId;
  entity_type : N;
}.

(** [AnyWeakEntity]: one made by [new_invalid] points to no map. *)
Record AnyWeakEntity := mkAnyWeakEntity {
  weak_entity_id : EntityId;
  weak_entity_type : N;
  attached : bool;
}.

Record Lease := mkLease {
  lease_entity : option Value;
  lease_id : EntityId;
}.

Implicit Types (m : EntityMap) (h : AnyEntity) (w : AnyWeakEntity).

Definition map_new : EntityMap := mkEntityMap ∅ ∅ (mkEntityRefCounts slots_new ∅ []).

Definition with_counts m c : EntityMap :=
  mkEntityMap (entities m) (accessed_entities m)
    (mkEntityRefCounts (slots (ref_counts m)) c (dropped_entity_ids (ref_counts m))).

Definition reserve m (ty : N) : EntityMap * AnyEntity :=
  let (id, s) := slots_insert (slots (ref_counts m)) in
  (mkEntityMap (entities m) (accessed_entities m)
     (mkEntityRefCounts s (<[id := 1]> (counts (ref_counts m))) (dropped_entity_ids (ref_counts m))),
   mkAnyEntity id ty).

Definition insert m (slot : AnyEntity) (entity : Value) : EntityMap * AnyEntity :=
  (mkEntityMap (<[entity_id slot := entity]> (entities m)) ({[entity_id slot]} ∪ accessed_entities m) (ref_counts m), slot).

Definition lease m (pointer : AnyEntity) : outcome (EntityMap * Lease) :=
  match entities m !! entity_id pointer with
  | None => Panic
  | Some entity =>
      Ok (mkEntityMap (delete (entity_id pointer) (entities m)) ({[entity_id pointer]} ∪ accessed_entities m) (ref_counts m),
          mkLease (Some entity) (entity_id pointer))
  end.

Definition end_lease m (l : Lease) : outcome EntityMap :=
  let! entity := unwrap (lease_entity l) in
  Ok (mkEntityMap (<[lease_id l := entity]> (entities m)) (accessed_entities m) (ref_counts m)).

(** [Deref] and [DerefMut] of a lease at the type [ty]. *)
Definition lease_deref (l : Lease) (ty : N) : outcome Value :=
  let! entity := unwrap (lease_entity l) in
  if (value_type entity =? ty)%N then Ok entity else Panic.

Definition lease_write (l : Lease) (v : Value) : outcome Lease :=
  let! _ := lease_deref l (value_type v) in Ok (mkLease (Some v) (lease_id l)).

(** [impl Drop for Lease] *)
Definition lease_drop (l : Lease) : outcome unit :=
  match lease_entity l with Some _ => Panic | None => Ok tt end.

Definition read m h : outcome (EntityMap * Value) :=
  let m := mkEntityMap (entities m) ({[entity_id h]} ∪ accessed_entities m) (ref_counts m) in
  match entities m !! entity_id h with
  | Some entity => if (value_type entity =? entity_type h)%N then Ok (m, entity) else Panic
  | None => Panic
  end.

Definition extend_accessed m (ids : gset EntityId) : EntityMap :=
  mkEntityMap (entities m) (accessed_entities m ∪ ids) (ref_counts m).

Definition clear_accessed m : EntityMap := mkEntityMap (entities m) ∅ (ref_counts m).

(** The closure of [take_dropped]. *)
Definition take_one m (entity_id : EntityId) : outcome (EntityMap * option (EntityId * Value)) :=
  match counts (ref_counts m) !! entity_id with
  | None => Panic
  | Some _ =>
      let rc := mkEntityRefCounts (slots_remove (slots (ref_counts m)) entity_id) (delete entity_id (counts (ref_counts m)))
                  (dropped_entity_ids (ref_counts m)) in
      Ok (mkEntityMap (delete entity_id (entities m)) (accessed_entities m ∖ {[entity_id]}) rc,
          option_map (pair entity_id) (entities m !! entity_id))
  end.

Fixpoint take_all m (ids : list EntityId) : outcome (EntityMap * list (EntityId * Value)) :=
  match ids with
  | [] => Ok (m, [])
  | id :: ids =>
      let! (m, taken) := take_one m id in
      let! (m, l) := take_all m ids in
      Ok (m, opt_list taken ++ l)
  end.

Definition take_dropped m : outcome (EntityMap * list (EntityId * Value)) :=
  let ids := dropped_entity_ids (ref_counts m) in
  take_all (mkEntityMap (entities m) (accessed_entities m) (mkEntityRefCounts (slots (ref_counts m)) (counts (ref_counts m)) [])) ids.

(** ** Handles *)

(** [impl Clone for AnyEntity] *)
Definition any_clone (map : option EntityMap) h : outcome (option EntityMap * AnyEntity) :=
  match map with
  | None => Ok (None, h)
  | Some m =>
      match counts (ref_counts m) !! entity_id h with
      | None => Panic
      | Some prev_count =>
          if prev_count =? 0 then Panic
          else Ok (Some (with_counts m (<[entity_id h := S prev_count]> (counts (ref_counts m)))), h)
      end
  end.

(** [impl Drop for AnyEntity] *)
Definition any_drop (map : option EntityMap) h : outcome (option EntityMap) :=
  match map with
  | None => Ok None
  | Some m =>
      match counts (ref_counts m) !! entity_id h with
      | None => Panic
      | Some prev_count =>
          if prev_count =? 0 then Panic
          else
            let m := with_counts m (<[entity_id h := prev_count - 1]> (counts (ref_counts m))) in
            Ok (Some (if prev_count =? 1 then
                        mkEntityMap (entities m) (accessed_entities m)
                          (mkEntityRefCounts (slots (ref_counts m)) (counts (ref_counts m))
                             (dropped_entity_ids (ref_counts m) ++ [entity_id h]))
                      else m))
      end
  end.

Definition downgrade h : AnyWeakEntity := mkAnyWeakEntity (entity_id h) (entity_type h) true.

(** [downcast]: whether the handle becomes one of the type. *)
Definition downcast h (ty : N) : AnyEntity + AnyEntity := if (ty =? entity_type h)%N then inl h else inr h.

(** The map a weak handle reaches. *)
Definition weak_map (map : option EntityMap) w : option EntityMap := if attached w then map else None.

Definition is_upgradable (map : option EntityMap) w : bool :=
  let ref_count := match weak_map map w with
                   | Some m => default 0 (counts (ref_counts m) !! weak_entity_id w)
                   | None => 0
                   end in
  0 <? ref_count.

(** [atomic_incr_if_not_zero], when nothing interferes: the new value of the counter, which
    is also returned. *)
Definition atomic_incr_if_not_zero (counter : nat) : nat := if counter =? 0 then 0 else S counter.

Definition upgrade (map : option EntityMap) w : option EntityMap * option AnyEntity :=
  match weak_map map w with
  | None => (map, None)
  | Some m =>
      match counts (ref_counts m) !! weak_entity_id w with
      | None => (map, None)
      | Some ref_count =>
          let incremented := atomic_incr_if_not_zero ref_count in
          if incremented =? 0 then (map, None)
          else (Some (with_counts m (<[weak_entity_id w := incremented]> (counts (ref_counts m)))),
                Some (mkAnyEntity (weak_entity_id w) (weak_entity_type w)))
      end
  end.

(** [assert_released]: it panics while the entity has a count. *)
Definition assert_released (map : option EntityMap) w : outcome unit :=
  match weak_map map w with
  | Some m => match counts (ref_counts m) !! weak_entity_id w with Some _ => Panic | None => Ok tt end
  | None => Ok tt
  end.
End EntityMap.
