(* ===== verification/EntityLife.v ===== *)
(** * The life of entities

    The handles, leases and weak handles that a program holds, next to the map of
    EntityMap.  Rust's ownership gives the steps a program can take: it uses the handles
    it holds, fills a slot once, and does not drop the handle a lease borrows. *)

From Stdlib Require Import NArith.
From stdpp Require Import base list option numbers gmap.
From S2P Require Import Prelude EntityMap.

#[local] Set Warnings "-register-all,-clear-no-such-hyp".

Section Life.
Context {Value : Type} (value_type : Value -> N).
Context `{SlotKeysLaws Slots}.

Abbreviation Map := (EntityMap (Value := Value) (Slots := Slots)).
Abbreviation TheLease := (Lease (Value := Value)).

(** The map ([None] once dropped), what the program holds, the slots not filled yet, and
    the identifiers of the entities [take_dropped] has returned. *)
Record System := mkSystem {
  sys_map : option Map;
  handles : list AnyEntity;
  weaks : list AnyWeakEntity;
  leases : list TheLease;
  unfilled : gset EntityId;
  released : list EntityId;
}.

Implicit Types (s : System) (m : Map) (h : AnyEntity).

Definition system_new : System := mkSystem (Some map_new) [] [] [] ∅ [].

Inductive entity_op :=
| OpReserve (ty : N)
| OpInsert (i : nat) (v : Value)
| OpClone (i : nat)
| OpDrop (i : nat)
| OpDowngrade (i : nat)
| OpInvalid (id : EntityId)
| OpUpgrade (i : nat)
| OpRead (i : nat)
| OpLease (i : nat)
| OpWrite (i : nat) (v : Value)
| OpEndLease (i : nat)
| OpTakeDropped
| OpExtendAccessed (ids : gset EntityId)
| OpClearAccessed
| OpDropMap.

Definition with_map s (m : option Map) : System := mkSystem m (handles s) (weaks s) (leases s) (unfilled s) (released s).

(** An operation on the map, which must be there. *)
Definition on_map s (f : Map -> outcome System) : outcome System :=
  match sys_map s with Some m => f m | None => Ok s end.

Definition run_entity_op s (op : entity_op) : outcome System :=
  match op with
  | OpReserve ty => on_map s (fun m =>
      let (m, h) := reserve m ty in
      Ok (mkSystem (Some m) (handles s ++ [h]) (weaks s) (leases s) ({[entity_id h]} ∪ unfilled s) (released s)))
  | OpInsert i v => on_map s (fun m =>
      let! h := index (handles s) i in
      let (m, h) := insert m h v in
      Ok (mkSystem (Some m) (handles s) (weaks s) (leases s) (unfilled s ∖ {[entity_id h]}) (released s)))
  | OpClone i =>
      let! h := index (handles s) i in
      let! (r, h) := any_clone (sys_map s) h in
      Ok (mkSystem r (handles s ++ [h]) (weaks s) (leases s) (unfilled s) (released s))
  | OpDrop i =>
      let! h := index (handles s) i in
      let! r := any_drop (sys_map s) h in
      Ok (mkSystem r (delete i (handles s)) (weaks s) (leases s) (unfilled s) (released s))
  | OpDowngrade i =>
      let! h := index (handles s) i in
      Ok (mkSystem (sys_map s) (handles s) (weaks s ++ [downgrade h]) (leases s) (unfilled s) (released s))
  | OpInvalid id =>
      Ok (mkSystem (sys_map s) (handles s) (weaks s ++ [mkAnyWeakEntity id 0 false]) (leases s) (unfilled s) (released s))
  | OpUpgrade i =>
      let! w := index (weaks s) i in
      let (r, o) := upgrade (sys_map s) w in
      Ok (mkSystem r (handles s ++ opt_list o) (weaks s) (leases s) (unfilled s) (released s))
  | OpRead i => on_map s (fun m =>
      let! h := index (handles s) i in
      let! (m, _) := read value_type m h in
      Ok (with_map s (Some m)))
  | OpLease i => on_map s (fun m =>
      let! h := index (handles s) i in
      let! (m, l) := lease m h in
      Ok (mkSystem (Some m) (handles s) (weaks s) (leases s ++ [l]) (unfilled s) (released s)))
  | OpWrite i v =>
      let! l := index (leases s) i in
      let! l := lease_write value_type l v in
      Ok (mkSystem (sys_map s) (handles s) (weaks s) (<[i := l]> (leases s)) (unfilled s) (released s))
  | OpEndLease i => on_map s (fun m =>
      let! l := index (leases s) i in
      let! m := end_lease m l in
      Ok (mkSystem (Some m) (handles s) (weaks s) (delete i (leases s)) (unfilled s) (released s)))
  | OpTakeDropped => on_map s (fun m =>
      let! (m, taken) := take_dropped m in
      Ok (mkSystem (Some m) (handles s) (weaks s) (leases s) (unfilled s) (released s ++ map fst taken)))
  | OpExtendAccessed ids => on_map s (fun m => Ok (with_map s (Some (extend_accessed m ids))))
  | OpClearAccessed => on_map s (fun m => Ok (with_map s (Some (clear_accessed m))))
  | OpDropMap => Ok (with_map s None)
  end.

(** The strong handles of an entity. *)
Definition refs (id : EntityId) (hs : list AnyEntity) : nat := length (List.filter (fun h => bool_decide (entity_id h = id)) hs).

Definition leased s (id : EntityId) : Prop := id ∈ map lease_id (leases s).

(** What ownership and typing ask for. *)
Definition owned s (op : entity_op) : Prop :=
  match op with
  | OpInsert i v => exists h, handles s !! i = Some h /\ entity_id h ∈ unfilled s /\ value_type v = entity_type h
  | OpClone i | OpDowngrade i | OpRead i | OpLease i => i < length (handles s)
  | OpDrop i => exists h, handles s !! i = Some h /\ (leased s (entity_id h) -> 2 <= refs (entity_id h) (handles s))
  | OpUpgrade i => i < length (weaks s)
  | OpWrite i v => exists l v', leases s !! i = Some l /\ lease_entity l = Some v' /\ value_type v = value_type v'
  | OpEndLease i => i < length (leases s)
  | OpDropMap => leases s = []
  | _ => True
  end.

Inductive live : System -> Prop :=
| live_new : live system_new
| live_step s op s' : live s -> owned s op -> run_entity_op s op = Ok s' -> live s'.

(** ** The invariant *)

(** [types] are the types the entities were reserved with. *)
Record map_wf (s : System) (m : Map) (types : gmap EntityId N) : Prop := mkMapWf {
  mw_count id n : counts (ref_counts m) !! id = Some n -> n = refs id (handles s);
  mw_handle h : h ∈ handles s -> is_Some (counts (ref_counts m) !! entity_id h) /\ types !! entity_id h = Some (entity_type h);
  mw_nodup : NoDup (dropped_entity_ids (ref_counts m));
  mw_dropped id : id ∈ dropped_entity_ids (ref_counts m) <-> counts (ref_counts m) !! id = Some 0;
  mw_entity id v : entities m !! id = Some v -> types !! id = Some (value_type v);
  mw_lease l : l ∈ leases s -> 1 <= refs (lease_id l) (handles s) /\
    exists v, lease_entity l = Some v /\ types !! lease_id l = Some (value_type v);
  mw_leases : NoDup (map lease_id (leases s));
  mw_released : NoDup (released s);
  mw_place id : is_Some (types !! id) ->
    (counts (ref_counts m) !! id = None /\ entities m !! id = None /\ ~ leased s id /\ (id ∈ released s \/ id ∈ unfilled s)) \/
    (is_Some (counts (ref_counts m) !! id) /\ (id ∉ released s) /\
     ((id ∈ unfilled s /\ entities m !! id = None /\ ~ leased s id) \/
      ((id ∉ unfilled s) /\ is_Some (entities m !! id) /\ ~ leased s id) \/
      ((id ∉ unfilled s) /\ entities m !! id = None /\ leased s id)));
  mw_types id : is_Some (types !! id) <-> id ∈ issued (slots (ref_counts m));
  mw_known id : is_Some (counts (ref_counts m) !! id) \/ is_Some (entities m !! id) \/ leased s id \/ id ∈ released s \/ id ∈ unfilled s ->
    is_Some (types !! id);
  mw_weak w : w ∈ weaks s -> attached w = true -> types !! weak_entity_id w = Some (weak_entity_type w);
}.

Definition system_wf s : Prop :=
  match sys_map s with
  | Some m => exists types, map_wf s m types
  | None => leases s = []
  end.

(** *** Counting handles *)

Lemma refs_app id l l' : refs id (l ++ l') = refs id l + refs id l'.
Proof. unfold refs. by rewrite List.filter_app, length_app. Qed.

Lemma refs_cons id h l : refs id (h :: l) = refs id [h] + refs id l.
Proof. apply (refs_app id [h] l). Qed.

Lemma refs_one id h : refs id [h] = if bool_decide (entity_id h = id) then 1 else 0.
Proof. unfold refs. simpl. by case_bool_decide. Qed.

Lemma refs_delete id l : forall i h, l !! i = Some h -> refs id l = refs id (delete i l) + refs id [h].
Proof.
  induction l as [|h' l IH]; intros [|i] h Hi; simplify_eq/=.
  - rewrite refs_cons. lia.
  - rewrite (refs_cons id h' l), (refs_cons id h' (delete i l)), (IH _ _ Hi). lia.
Qed.

Lemma refs_pos id l : 1 <= refs id l <-> exists h, h ∈ l /\ entity_id h = id.
Proof.
  induction l as [|h l IH]; [split; [intros Hr; unfold refs in Hr; simpl in Hr; lia|intros (h & Hh & _); by apply elem_of_nil in Hh]|].
  rewrite refs_cons, refs_one. setoid_rewrite elem_of_cons. case_bool_decide as Hd.
  - split; [intros _; exists h; auto|lia].
  - simpl. rewrite IH. naive_solver.
Qed.

Lemma elem_delete {A} (l : list A) i x : x ∈ delete i l -> x ∈ l.
Proof. rewrite !list_elem_of_In. revert i. induction l as [|y l IH]; intros [|i]; simpl; [done|done|by right|]. intros [?|?]; eauto. Qed.

(** *** Changing the counts and the handles *)

Lemma recount_wf s m types m' hs ws :
  map_wf s m types ->
  entities m' = entities m -> slots (ref_counts m') = slots (ref_counts m) ->
  (forall id, is_Some (counts (ref_counts m') !! id) <-> is_Some (counts (ref_counts m) !! id)) ->
  (forall id n, counts (ref_counts m') !! id = Some n -> n = refs id hs) ->
  (forall h, h ∈ hs -> is_Some (counts (ref_counts m) !! entity_id h) /\ types !! entity_id h = Some (entity_type h)) ->
  NoDup (dropped_entity_ids (ref_counts m')) ->
  (forall id, id ∈ dropped_entity_ids (ref_counts m') <-> counts (ref_counts m') !! id = Some 0) ->
  (forall l, l ∈ leases s -> 1 <= refs (lease_id l) hs) ->
  (forall w, w ∈ ws -> attached w = true -> types !! weak_entity_id w = Some (weak_entity_type w)) ->
  map_wf (mkSystem (Some m') hs ws (leases s) (unfilled s) (released s)) m' types.
Proof.
  intros Hwf He Hsl Hdom Hcount Hhandle Hnd Hdrop Hlease Hweak.
  assert (Hnone : forall id, counts (ref_counts m') !! id = None <-> counts (ref_counts m) !! id = None).
  { intros id. rewrite !eq_None_not_Some. by rewrite Hdom. }
  split; cbn [handles weaks leases unfilled released]; try done.
  - intros h Hh. rewrite Hdom. by apply Hhandle.
  - intros id v. rewrite He. apply (mw_entity _ _ _ Hwf).
  - intros l Hl. split; [by apply Hlease|]. by apply (mw_lease _ _ _ Hwf).
  - apply (mw_leases _ _ _ Hwf).
  - apply (mw_released _ _ _ Hwf).
  - intros id. rewrite Hdom, Hnone, He. apply (mw_place _ _ _ Hwf).
  - intros id. rewrite Hsl. apply (mw_types _ _ _ Hwf).
  - intros id. rewrite Hdom, He. apply (mw_known _ _ _ Hwf).
Qed.

(** The count of a handle that is held. *)
Lemma held_count s m types h :
  map_wf s m types -> h ∈ handles s ->
  exists n, counts (ref_counts m) !! entity_id h = Some (S n) /\ S n = refs (entity_id h) (handles s).
Proof.
  intros Hwf Hh. destruct (mw_handle _ _ _ Hwf h Hh) as [[n Hn] _]. pose proof (mw_count _ _ _ Hwf _ _ Hn) as Hr.
  assert (1 <= refs (entity_id h) (handles s)) by (apply refs_pos; eauto). exists (n - 1).
  replace (S (n - 1)) with n by lia. done.
Qed.

Lemma clone_wf s m types h :
  map_wf s m types -> h ∈ handles s ->
  exists m', any_clone (Some m) h = Ok (Some m', h) /\
    map_wf (mkSystem (Some m') (handles s ++ [h]) (weaks s) (leases s) (unfilled s) (released s)) m' types.
Proof.
  intros Hwf Hh. destruct (held_count s m types h Hwf Hh) as (n & Hn & Hr). unfold any_clone. rewrite Hn. cbn [Nat.eqb].
  eexists. split; [reflexivity|]. apply (recount_wf s m types _ _ _ Hwf); cbn [with_counts entities ref_counts slots counts dropped_entity_ids]; try done.
  - intros id. rewrite lookup_insert_is_Some. destruct (decide (entity_id h = id)) as [<-|]; [rewrite Hn|]; naive_solver.
  - intros id k. rewrite refs_app, refs_one, lookup_insert_Some. case_bool_decide as Hd.
    + intros [[_ <-]|[? _]]; [|done]. subst. lia.
    + intros [[? _]|[_ Hk]]; [done|]. rewrite (mw_count _ _ _ Hwf _ _ Hk). lia.
  - intros h' [Hh'|Hh'%list_elem_of_singleton]%elem_of_app; [|subst]; by apply (mw_handle _ _ _ Hwf).
  - apply (mw_nodup _ _ _ Hwf).
  - intros id. rewrite (mw_dropped _ _ _ Hwf), lookup_insert_Some. destruct (decide (entity_id h = id)) as [<-|]; [rewrite Hn|]; naive_solver.
  - intros l Hl. rewrite refs_app. destruct (mw_lease _ _ _ Hwf l Hl) as [? _]. lia.
  - apply (mw_weak _ _ _ Hwf).
Qed.

Lemma upgrade_wf s m types w :
  map_wf s m types -> w ∈ weaks s ->
  (attached w = true /\ 1 <= refs (weak_entity_id w) (handles s) /\
   exists m', upgrade (Some m) w = (Some m', Some (mkAnyEntity (weak_entity_id w) (weak_entity_type w))) /\
     map_wf (mkSystem (Some m') (handles s ++ [mkAnyEntity (weak_entity_id w) (weak_entity_type w)]) (weaks s) (leases s) (unfilled s) (released s)) m' types) \/
  (~ (attached w = true /\ 1 <= refs (weak_entity_id w) (handles s)) /\ upgrade (Some m) w = (Some m, None)).
Proof.
  intros Hwf Hw. unfold upgrade, weak_map. destruct (attached w) eqn:Ha; [|right; by split; [intros [? _]|]].
  destruct (decide (1 <= refs (weak_entity_id w) (handles s))) as [Hr|Hr].
  - left. split; [done|]. split; [done|]. apply refs_pos in Hr as (h & Hh & Hid).
    destruct (clone_wf s m types h Hwf Hh) as (m' & Hc & Hwf'). unfold any_clone in Hc. rewrite Hid in Hc.
    destruct (held_count s m types h Hwf Hh) as (n & Hn & _). rewrite Hid in Hn. rewrite Hn in *. cbn [Nat.eqb atomic_incr_if_not_zero] in *.
    injection Hc as <-. eexists. split; [reflexivity|]. assert (h = mkAnyEntity (weak_entity_id w) (weak_entity_type w)) as <-; [|done].
    destruct h as [hid hty]. cbn [entity_id] in Hid. subst hid. f_equal.
    pose proof (mw_weak _ _ _ Hwf w Hw Ha) as Ht. destruct (mw_handle _ _ _ Hwf _ Hh) as [_ Ht']. cbn [entity_id entity_type] in Ht'. congruence.
  - right. split; [by intros [_ ?]|]. destruct (counts (ref_counts m) !! weak_entity_id w) as [n|] eqn:Hn; [|done].
    pose proof (mw_count _ _ _ Hwf _ _ Hn). assert (n = 0) as -> by lia. done.
Qed.

Lemma drop_wf s m types i h :
  map_wf s m types -> handles s !! i = Some h -> (leased s (entity_id h) -> 2 <= refs (entity_id h) (handles s)) ->
  exists m', any_drop (Some m) h = Ok (Some m') /\
    map_wf (mkSystem (Some m') (delete i (handles s)) (weaks s) (leases s) (unfilled s) (released s)) m' types.
Proof.
  intros Hwf Hi Hlease. assert (Hh : h ∈ handles s) by (by eapply list_elem_of_lookup_2).
  destruct (held_count s m types h Hwf Hh) as (n & Hn & Hr). unfold any_drop. rewrite Hn. cbn [Nat.eqb].
  assert (Hrefs : forall id, refs id (handles s) = refs id (delete i (handles s)) + refs id [h]) by (intros id; by apply refs_delete).
  eexists. split; [reflexivity|].
  assert (Hnd : entity_id h ∉ dropped_entity_ids (ref_counts m)) by (rewrite (mw_dropped _ _ _ Hwf), Hn; done).
  apply (recount_wf s m types _ _ _ Hwf).
  - by destruct (n =? 0).
  - by destruct (n =? 0).
  - intros id. assert (E : forall c : gmap EntityId nat, c = <[entity_id h:=S n - 1]> (counts (ref_counts m)) ->
      is_Some (c !! id) <-> is_Some (counts (ref_counts m) !! id)).
    { intros c ->. rewrite lookup_insert_is_Some. destruct (decide (entity_id h = id)) as [<-|]; [rewrite Hn|]; naive_solver. }
    apply E. by destruct (n =? 0).
  - intros id k. specialize (Hrefs id). rewrite refs_one in Hrefs.
    assert (E : forall c : gmap EntityId nat, c = <[entity_id h:=S n - 1]> (counts (ref_counts m)) ->
      c !! id = Some k -> k = refs id (delete i (handles s))).
    { intros c ->. rewrite lookup_insert_Some. intros [[<- <-]|[Hne Hk]].
      - rewrite bool_decide_true in Hrefs by done. lia.
      - rewrite bool_decide_false in Hrefs by done. rewrite (mw_count _ _ _ Hwf _ _ Hk). lia. }
    apply E. by destruct (n =? 0).
  - intros h' Hh'. by apply (mw_handle _ _ _ Hwf), elem_delete with i.
  - destruct (n =? 0); cbn; [|apply (mw_nodup _ _ _ Hwf)]. apply list.NoDup_app. split; [apply (mw_nodup _ _ _ Hwf)|].
    split; [|apply NoDup_singleton]. intros id Hid ->%list_elem_of_singleton. done.
  - intros id. destruct (Nat.eqb_spec n 0) as [->|Hne]; cbn.
    + rewrite elem_of_app, list_elem_of_singleton, (mw_dropped _ _ _ Hwf), lookup_insert_Some.
      destruct (decide (entity_id h = id)) as [<-|]; [rewrite Hn|]; naive_solver.
    + rewrite (mw_dropped _ _ _ Hwf), lookup_insert_Some. destruct (decide (entity_id h = id)) as [<-|]; [rewrite Hn|]; [|naive_solver].
      split; [done|]. intros [[_ E]|[? _]]; [|done]. lia.
  - intros l Hl. destruct (mw_lease _ _ _ Hwf l Hl) as [Hl1 _]. specialize (Hrefs (lease_id l)). rewrite refs_one in Hrefs.
    case_bool_decide as Hd; [|lia]. rewrite Hd in Hlease. assert (2 <= refs (lease_id l) (handles s)); [|lia].
    apply Hlease. unfold leased. apply list_elem_of_In, in_map. by apply list_elem_of_In.
  - apply (mw_weak _ _ _ Hwf).
Qed.

(** *** Taking the dropped entities *)

Definition taken_of m (ids : list EntityId) : list (EntityId * Value) := omap (fun id => pair id <$> entities m !! id) ids.

Lemma taken_ext m1 m2 ids : (forall id, id ∈ ids -> entities m1 !! id = entities m2 !! id) -> taken_of m1 ids = taken_of m2 ids.
Proof.
  unfold taken_of. induction ids as [|id ids IH]; csimpl; intros He; [done|].
  rewrite (He id) by (apply elem_of_cons; by left). rewrite IH; [done|]. intros j Hj. apply He, elem_of_cons. by right.
Qed.

Lemma take_all_ok ids : forall m,
  NoDup ids -> Forall (fun id => is_Some (counts (ref_counts m) !! id)) ids ->
  exists m', take_all m ids = Ok (m', taken_of m ids) /\
    (forall id, counts (ref_counts m') !! id = if bool_decide (id ∈ ids) then None else counts (ref_counts m) !! id) /\
    (forall id, entities m' !! id = if bool_decide (id ∈ ids) then None else entities m !! id) /\
    issued (slots (ref_counts m')) = issued (slots (ref_counts m)) /\
    dropped_entity_ids (ref_counts m') = dropped_entity_ids (ref_counts m).
Proof.
  induction ids as [|id ids IH]; intros m Hnd Hall; cbn [take_all].
  - exists m. split_and!; try done; intros id; by rewrite bool_decide_false by apply not_elem_of_nil.
  - apply list.NoDup_cons in Hnd as [Hid Hnd]. apply Forall_cons_iff in Hall as [[n Hn] Hall].
    unfold take_one. rewrite Hn. cbn [obind].
    match goal with |- context [take_all ?m1 ids] => set (m1' := m1); destruct (IH m1' Hnd) as (m' & -> & Hc & He & Hs & Hd) end.
    { apply Forall_elem. intros j Hj. rewrite Forall_elem in Hall. cbn. rewrite lookup_delete_ne by (by intros ->). auto. }
    cbn [obind]. exists m'. split_and!.
    + rewrite (taken_ext m1' m ids); [by unfold taken_of; csimpl; destruct (entities m !! id)|].
      intros j Hj. cbn. by rewrite lookup_delete_ne by (by intros ->).
    + intros j. rewrite Hc. cbn. destruct (decide (j = id)) as [->|Hne].
      * rewrite lookup_delete_eq. rewrite (bool_decide_true (id ∈ id :: ids)) by (apply elem_of_cons; by left). by case_bool_decide.
      * rewrite lookup_delete_ne by done. rewrite (bool_decide_ext (j ∈ ids) (j ∈ id :: ids)); [done|]. rewrite elem_of_cons. naive_solver.
    + intros j. rewrite He. cbn. destruct (decide (j = id)) as [->|Hne].
      * rewrite lookup_delete_eq. rewrite (bool_decide_true (id ∈ id :: ids)) by (apply elem_of_cons; by left). by case_bool_decide.
      * rewrite lookup_delete_ne by done. rewrite (bool_decide_ext (j ∈ ids) (j ∈ id :: ids)); [done|]. rewrite elem_of_cons. naive_solver.
    + rewrite Hs. apply issued_remove.
    + done.
Qed.

Lemma taken_elem m ids id v : (id, v) ∈ taken_of m ids <-> id ∈ ids /\ entities m !! id = Some v.
Proof.
  unfold taken_of. rewrite list_elem_of_omap. split.
  - intros (j & Hj & Hv). destruct (entities m !! j) eqn:E; [|done]. injection Hv as -> ->. done.
  - intros [Hid Hv]. exists id. by rewrite Hv.
Qed.

Definition present m (id : EntityId) : bool := match entities m !! id with Some _ => true | None => false end.

Lemma present_spec m id : present m id = true <-> is_Some (entities m !! id).
Proof. unfold present. destruct (entities m !! id); split; try done. Qed.

Lemma taken_ids m ids : map fst (taken_of m ids) = List.filter (present m) ids.
Proof.
  unfold taken_of, present. induction ids as [|id ids IH]; csimpl; [done|].
  destruct (entities m !! id) as [v|] eqn:E; csimpl; by rewrite IH.
Qed.

Lemma take_dropped_ok s m types :
  map_wf s m types ->
  exists m', take_dropped m = Ok (m', taken_of m (dropped_entity_ids (ref_counts m))) /\
    dropped_entity_ids (ref_counts m') = [] /\
    (forall id n, counts (ref_counts m') !! id = Some n <-> counts (ref_counts m) !! id = Some n /\ n <> 0) /\
    (forall id, entities m' !! id = if bool_decide (counts (ref_counts m) !! id = Some 0) then None else entities m !! id) /\
    issued (slots (ref_counts m')) = issued (slots (ref_counts m)).
Proof.
  intros Hwf. unfold take_dropped.
  match goal with |- context [take_all ?m0 ?ids] => destruct (take_all_ok ids m0) as (m' & -> & Hc & He & Hs & Hd) end.
  - apply (mw_nodup _ _ _ Hwf).
  - apply Forall_elem. intros id Hid. apply (mw_dropped _ _ _ Hwf) in Hid. cbn. by rewrite Hid.
  - exists m'. split; [done|]. split; [done|].
    assert (Hb : forall id, bool_decide (id ∈ dropped_entity_ids (ref_counts m)) = bool_decide (counts (ref_counts m) !! id = Some 0))
      by (intros id; apply bool_decide_ext, (mw_dropped _ _ _ Hwf)).
    split; [|split; [|done]].
    + intros id n. rewrite Hc, Hb. case_bool_decide as Hz; [rewrite Hz; naive_solver|]. cbn. split; [|by intros [? _]].
      intros Hn. split; [done|]. by intros ->.
    + intros id. by rewrite He, Hb.
Qed.

Lemma take_dropped_wf s m types :
  map_wf s m types ->
  exists m', take_dropped m = Ok (m', taken_of m (dropped_entity_ids (ref_counts m))) /\
    map_wf (mkSystem (Some m') (handles s) (weaks s) (leases s) (unfilled s)
              (released s ++ map fst (taken_of m (dropped_entity_ids (ref_counts m))))) m' types.
Proof.
  intros Hwf. destruct (take_dropped_ok s m types Hwf) as (m' & Ht & Hd & Hc & He & Hs). exists m'. split; [done|].
  assert (Hnone : forall id, counts (ref_counts m') !! id = None <-> counts (ref_counts m) !! id = None \/ counts (ref_counts m) !! id = Some 0).
  { intros id. destruct (counts (ref_counts m') !! id) as [n|] eqn:E.
    - apply Hc in E as [E Hn]. rewrite E. naive_solver.
    - split; [|done]. intros _. destruct (counts (ref_counts m) !! id) as [n|] eqn:E'; [|by left]. right.
      destruct (decide (n = 0)) as [->|Hn]; [done|]. by rewrite (proj2 (Hc id n)) in E. }
  assert (Hin : forall id, id ∈ map fst (taken_of m (dropped_entity_ids (ref_counts m))) <->
    counts (ref_counts m) !! id = Some 0 /\ is_Some (entities m !! id)).
  { intros id. rewrite taken_ids, list_elem_of_In, filter_In, <- list_elem_of_In, (mw_dropped _ _ _ Hwf), present_spec. done. }
  split; cbn [handles weaks leases unfilled released].
  - intros id n Hn. apply Hc in Hn as [Hn _]. by apply (mw_count _ _ _ Hwf).
  - intros h Hh. destruct (held_count s m types h Hwf Hh) as (n & Hn & _). split; [|by apply (mw_handle _ _ _ Hwf)].
    exists (S n). by apply Hc.
  - rewrite Hd. constructor.
  - intros id. rewrite Hd. split; [by intros ?%elem_of_nil|]. intros Hz. apply Hc in Hz as [_ ?]. done.
  - intros id v Hv. rewrite He in Hv. case_bool_decide; [done|]. by apply (mw_entity _ _ _ Hwf).
  - apply (mw_lease _ _ _ Hwf).
  - apply (mw_leases _ _ _ Hwf).
  - apply list.NoDup_app. split; [apply (mw_released _ _ _ Hwf)|]. split.
    + intros id Hid [Hz _]%Hin. assert (is_Some (types !! id)) as Ht' by (apply (mw_known _ _ _ Hwf); auto).
      destruct (mw_place _ _ _ Hwf id Ht') as [[Hn _]|(_ & Hr & _)]; [congruence|done].
    + rewrite taken_ids. apply NoDup_ListNoDup, List.NoDup_filter, NoDup_ListNoDup, (mw_nodup _ _ _ Hwf).
  - intros id Hid. destruct (mw_place _ _ _ Hwf id Hid) as [(Hn & Hev & Hl & Hp)|(Hs' & Hr & Hp)].
    + left. rewrite Hnone, He. split; [by left|]. rewrite bool_decide_false by congruence. split; [done|]. split; [done|].
      rewrite elem_of_app. tauto.
    + destruct (decide (counts (ref_counts m) !! id = Some 0)) as [Hz|Hz].
      * left. rewrite Hnone, He, bool_decide_true by done. split; [by right|]. split; [done|].
        assert (Hl : ~ leased s id).
        { intros Hl. unfold leased in Hl. apply list_elem_of_In, in_map_iff in Hl as (l & <- & Hl). apply list_elem_of_In in Hl.
          destruct (mw_lease _ _ _ Hwf l Hl) as [Hl1 _]. apply (mw_count _ _ _ Hwf) in Hz. lia. }
        split; [done|]. rewrite elem_of_app, Hin. destruct Hp as [(? & _)|[(_ & ? & _)|(_ & _ & ?)]]; [by right|left; by right|done].
      * right. split.
        { destruct Hs' as [n Hn]. exists n. apply Hc. split; [done|]. by intros ->. }
        rewrite elem_of_app, Hin, He, bool_decide_false by done. split; [|exact Hp]. intros [?|[? _]]; done.
  - intros id. rewrite Hs. apply (mw_types _ _ _ Hwf).
  - intros id Hk. apply (mw_known _ _ _ Hwf). rewrite elem_of_app, Hin, He in Hk.
    destruct Hk as [[n Hn]|[Hk|[?|[[?|[? ?]]|?]]]]; auto 10.
    + apply Hc in Hn as [Hn _]. left. by eexists.
    + case_bool_decide; [by destruct Hk|auto].
  - apply (mw_weak _ _ _ Hwf).
Qed.

(** *** Reserving and filling a slot *)

Lemma refs_absent s m types id : map_wf s m types -> types !! id = None -> refs id (handles s) = 0.
Proof.
  intros Hwf Hid. destruct (decide (1 <= refs id (handles s))) as [Hr|]; [|lia]. apply refs_pos in Hr as (h & Hh & <-).
  destruct (mw_handle _ _ _ Hwf h Hh) as [_ Ht]. congruence.
Qed.

Lemma leased_elem s id : leased s id <-> exists l, l ∈ leases s /\ lease_id l = id.
Proof. unfold leased. rewrite list_elem_of_In, in_map_iff. setoid_rewrite list_elem_of_In. naive_solver. Qed.

Lemma reserve_wf s m types ty :
  map_wf s m types ->
  let (m', h) := reserve m ty in
  (entity_id h ∉ issued (slots (ref_counts m))) /\
  map_wf (mkSystem (Some m') (handles s ++ [h]) (weaks s) (leases s) ({[entity_id h]} ∪ unfilled s) (released s)) m'
    (<[entity_id h := ty]> types).
Proof.
  intros Hwf. unfold reserve. pose proof (issued_fresh (slots (ref_counts m))) as Hfresh.
  pose proof (issued_insert (slots (ref_counts m))) as Hins.
  destruct (slots_insert (slots (ref_counts m))) as [id sl]. cbn [fst snd] in *. cbn [entity_id]. split; [done|].
  assert (Ht : types !! id = None) by (apply eq_None_not_Some; by rewrite (mw_types _ _ _ Hwf)).
  assert (Hunknown : ~ (is_Some (counts (ref_counts m) !! id) \/ is_Some (entities m !! id) \/ leased s id \/ id ∈ released s \/ id ∈ unfilled s)).
  { intros Hk%(mw_known _ _ _ Hwf). by rewrite Ht in Hk; destruct Hk. }
  assert (Hc : counts (ref_counts m) !! id = None) by (apply eq_None_not_Some; tauto).
  assert (He : entities m !! id = None) by (apply eq_None_not_Some; tauto).
  pose proof (refs_absent s m types id Hwf Ht) as Hrefs.
  assert (Hty : forall j, is_Some (types !! j) -> j <> id) by (intros j Hj ->; rewrite Ht in Hj; by destruct Hj).
  assert (Hkeep : forall j v, types !! j = Some v -> <[id := ty]> types !! j = Some v).
  { intros j v Hj. rewrite lookup_insert_ne; [done|]. intros <-. congruence. }
  split; cbn [handles weaks leases unfilled released entities ref_counts counts dropped_entity_ids slots].
  - intros j n. rewrite refs_app, refs_one, lookup_insert_Some. cbn [entity_id]. case_bool_decide as Hd.
    + subst. intros [[_ <-]|[? _]]; [lia|done].
    + intros [[? _]|[_ Hn]]; [done|]. rewrite (mw_count _ _ _ Hwf _ _ Hn). lia.
  - intros h [Hh|Hh%list_elem_of_singleton]%elem_of_app; [|subst h; cbn; by rewrite !lookup_insert_eq].
    destruct (mw_handle _ _ _ Hwf h Hh) as [Hs Ht']. split; [|by apply Hkeep]. apply lookup_insert_is_Some. naive_solver.
  - apply (mw_nodup _ _ _ Hwf).
  - intros j. rewrite (mw_dropped _ _ _ Hwf), lookup_insert_Some. split; [|naive_solver].
    intros Hz. right. split; [|done]. intros <-. congruence.
  - intros j v Hv. apply Hkeep. by apply (mw_entity _ _ _ Hwf).
  - intros l Hl. destruct (mw_lease _ _ _ Hwf l Hl) as (Hr & v & Hv & Ht'). rewrite refs_app. split; [lia|]. eauto.
  - apply (mw_leases _ _ _ Hwf).
  - apply (mw_released _ _ _ Hwf).
  - intros j Hj. destruct (decide (id = j)) as [<-|Hne].
    + right. rewrite lookup_insert_eq. split; [by eexists|]. split; [tauto|]. left. split; [set_solver|]. split; [done|]. unfold leased in *. tauto.
    + rewrite lookup_insert_ne in Hj by done. rewrite lookup_insert_ne by done.
      assert (Hu : j ∈ {[id]} ∪ unfilled s <-> j ∈ unfilled s) by set_solver. rewrite Hu. by apply (mw_place _ _ _ Hwf).
  - intros j. rewrite Hins, lookup_insert_is_Some, (mw_types _ _ _ Hwf). set_unfold. destruct (decide (id = j)); naive_solver.
  - intros j Hj. apply lookup_insert_is_Some. destruct (decide (id = j)) as [|Hne]; [by left|right]. split; [done|].
    rewrite lookup_insert_ne in Hj by done. apply (mw_known _ _ _ Hwf). unfold leased in *. cbn [leases] in Hj. set_solver.
  - intros w Hw Ha. apply Hkeep. by apply (mw_weak _ _ _ Hwf).
Qed.

Lemma insert_wf s m types h v :
  map_wf s m types -> h ∈ handles s -> entity_id h ∈ unfilled s -> value_type v = entity_type h ->
  let (m', _) := insert m h v in
  map_wf (mkSystem (Some m') (handles s) (weaks s) (leases s) (unfilled s ∖ {[entity_id h]}) (released s)) m' types.
Proof.
  intros Hwf Hh Hu Hv. unfold insert. destruct (mw_handle _ _ _ Hwf h Hh) as [Hs Ht].
  assert (Hplace : entities m !! entity_id h = None /\ (entity_id h ∉ released s) /\ ~ leased s (entity_id h)).
  { destruct (mw_place _ _ _ Hwf (entity_id h)) as [(Hn & _)|(_ & Hr & Hp)]; [by eexists|by rewrite Hn in Hs; destruct Hs|].
    destruct Hp as [(_ & He & Hl)|[(? & _)|(? & _)]]; done. }
  destruct Hplace as (He & Hr & Hl).
  split; cbn [handles weaks leases unfilled released entities ref_counts counts dropped_entity_ids slots]; try apply Hwf.
  - intros id v'. rewrite lookup_insert_Some. intros [[<- <-]|[_ Hv']]; [by rewrite Hv|]. by apply (mw_entity _ _ _ Hwf).
  - intros id Hid. destruct (decide (entity_id h = id)) as [<-|Hne].
    + right. split; [done|]. split; [done|]. right. left. rewrite lookup_insert_eq. split; [set_solver|]. split; [by eexists|done].
    + rewrite lookup_insert_ne by done. assert (E : id ∈ unfilled s ∖ {[entity_id h]} <-> id ∈ unfilled s) by set_solver.
      rewrite E. by apply (mw_place _ _ _ Hwf).
  - intros id Hk. destruct (decide (entity_id h = id)) as [<-|Hne]; [by eexists|]. rewrite lookup_insert_ne in Hk by done.
    apply (mw_known _ _ _ Hwf). unfold leased in *. cbn [leases] in Hk. set_solver.
Qed.

(** *** Leases *)

Lemma lease_wf s m types h :
  map_wf s m types -> h ∈ handles s ->
  match entities m !! entity_id h with
  | Some v =>
      exists m', lease m h = Ok (m', mkLease (Some v) (entity_id h)) /\
        map_wf (mkSystem (Some m') (handles s) (weaks s) (leases s ++ [mkLease (Some v) (entity_id h)]) (unfilled s) (released s)) m' types
  | None => lease m h = Panic
  end.
Proof.
  intros Hwf Hh. unfold lease. destruct (entities m !! entity_id h) as [v|] eqn:He; [|done].
  eexists. split; [reflexivity|]. destruct (mw_handle _ _ _ Hwf h Hh) as [Hs Ht].
  assert (Hplace : (entity_id h ∉ released s) /\ (entity_id h ∉ unfilled s) /\ ~ leased s (entity_id h)).
  { destruct (mw_place _ _ _ Hwf (entity_id h)) as [(_ & ? & _)|(_ & Hr & Hp)]; [by eexists|congruence|].
    destruct Hp as [(_ & ? & _)|[(? & _ & ?)|(_ & ? & _)]]; [congruence|done|congruence]. }
  destruct Hplace as (Hr & Hu & Hl).
  assert (Hnew : forall id, leased (mkSystem (Some m) (handles s) (weaks s) (leases s ++ [mkLease (Some v) (entity_id h)]) (unfilled s) (released s)) id
    <-> leased s id \/ id = entity_id h).
  { intros id. unfold leased. cbn [leases]. rewrite map_app, elem_of_app. cbn. by rewrite list_elem_of_singleton. }
  split; cbn [handles weaks leases unfilled released entities ref_counts counts dropped_entity_ids slots]; try apply Hwf.
  - intros id v'. rewrite lookup_delete_Some. intros [_ Hv']. by apply (mw_entity _ _ _ Hwf).
  - intros l [Hl'|Hl'%list_elem_of_singleton]%elem_of_app; [by apply (mw_lease _ _ _ Hwf)|]. subst l. cbn. split.
    + apply refs_pos. eauto.
    + exists v. split; [done|]. by apply (mw_entity _ _ _ Hwf).
  - rewrite map_app. apply list.NoDup_app. split; [apply (mw_leases _ _ _ Hwf)|]. split; [|apply NoDup_singleton].
    intros id Hid. cbn. rewrite list_elem_of_singleton. intros ->. by apply Hl.
  - intros id Hid. change (leased _ id) with (leased (mkSystem (Some m) (handles s) (weaks s) (leases s ++ [mkLease (Some v) (entity_id h)]) (unfilled s) (released s)) id).
    rewrite Hnew. destruct (decide (entity_id h = id)) as [<-|Hne].
    + right. rewrite lookup_delete_eq. split; [done|]. split; [done|]. right. right. auto.
    + rewrite lookup_delete_ne by done. assert (E : leased s id \/ id = entity_id h <-> leased s id) by naive_solver.
      rewrite E. by apply (mw_place _ _ _ Hwf).
  - intros id Hk. change (leased _ id) with (leased (mkSystem (Some m) (handles s) (weaks s) (leases s ++ [mkLease (Some v) (entity_id h)]) (unfilled s) (released s)) id) in Hk.
    rewrite Hnew in Hk. destruct (decide (entity_id h = id)) as [<-|Hne]; [by eexists|]. rewrite lookup_delete_ne in Hk by done.
    apply (mw_known _ _ _ Hwf). naive_solver.
Qed.

Lemma end_lease_wf s m types i l :
  map_wf s m types -> leases s !! i = Some l ->
  exists m', end_lease m l = Ok m' /\
    map_wf (mkSystem (Some m') (handles s) (weaks s) (delete i (leases s)) (unfilled s) (released s)) m' types.
Proof.
  intros Hwf Hi. assert (Hl : l ∈ leases s) by (by eapply list_elem_of_lookup_2).
  destruct (mw_lease _ _ _ Hwf l Hl) as (Hr & v & Hv & Ht). unfold end_lease. rewrite Hv. cbn [unwrap obind].
  eexists. split; [reflexivity|].
  assert (Hperm : leases s ≡ₚ l :: delete i (leases s)) by (by apply delete_Permutation).
  pose proof (mw_leases _ _ _ Hwf) as Hnd. rewrite (Permutation_map lease_id Hperm) in Hnd. cbn in Hnd.
  apply list.NoDup_cons in Hnd as [Hnot Hnd].
  assert (Hlid : leased s (lease_id l)) by (apply leased_elem; eauto).
  assert (Hplace : (lease_id l ∉ released s) /\ (lease_id l ∉ unfilled s) /\ is_Some (counts (ref_counts m) !! lease_id l)).
  { destruct (mw_place _ _ _ Hwf (lease_id l)) as [(_ & _ & ? & _)|(? & ? & Hp)]; [by eexists|done|].
    destruct Hp as [(_ & _ & ?)|[(_ & _ & ?)|(? & _)]]; done. }
  destruct Hplace as (Hrel & Hu & Hs).
  assert (Hnew : forall id, id <> lease_id l ->
    (leased (mkSystem (Some m) (handles s) (weaks s) (delete i (leases s)) (unfilled s) (released s)) id <-> leased s id)).
  { intros id Hne. rewrite !leased_elem. cbn [leases]. setoid_rewrite Hperm at 2. setoid_rewrite elem_of_cons. naive_solver. }
  split; cbn [handles weaks leases unfilled released entities ref_counts counts dropped_entity_ids slots]; try apply Hwf.
  - intros id v'. rewrite lookup_insert_Some. intros [[<- <-]|[_ Hv']]; [done|]. by apply (mw_entity _ _ _ Hwf).
  - intros l' Hl'%elem_delete. by apply (mw_lease _ _ _ Hwf).
  - done.
  - intros id Hid. destruct (decide (lease_id l = id)) as [<-|Hne].
    + right. rewrite lookup_insert_eq. split; [done|]. split; [done|]. right. left. split; [done|]. split; [by eexists|]. exact Hnot.
    + rewrite lookup_insert_ne by done.
      change (leased _ id) with (leased (mkSystem (Some m) (handles s) (weaks s) (delete i (leases s)) (unfilled s) (released s)) id).
      rewrite Hnew by done. by apply (mw_place _ _ _ Hwf).
  - intros id Hk. destruct (decide (lease_id l = id)) as [<-|Hne]; [by eexists|]. rewrite lookup_insert_ne in Hk by done.
    change (leased _ id) with (leased (mkSystem (Some m) (handles s) (weaks s) (delete i (leases s)) (unfilled s) (released s)) id) in Hk.
    rewrite Hnew in Hk by done. by apply (mw_known _ _ _ Hwf).
Qed.

Lemma write_wf s m types i l v v' :
  map_wf s m types -> leases s !! i = Some l -> lease_entity l = Some v' -> value_type v = value_type v' ->
  lease_write value_type l v = Ok (mkLease (Some v) (lease_id l)) /\
  map_wf (mkSystem (Some m) (handles s) (weaks s) (<[i := mkLease (Some v) (lease_id l)]> (leases s)) (unfilled s) (released s)) m types.
Proof.
  intros Hwf Hi Hv' Hty. unfold lease_write, lease_deref. rewrite Hv'. cbn [unwrap obind]. rewrite Hty, N.eqb_refl. cbn [obind].
  split; [done|]. assert (Hl : l ∈ leases s) by (by eapply list_elem_of_lookup_2).
  assert (Hids : map lease_id (<[i := mkLease (Some v) (lease_id l)]> (leases s)) = map lease_id (leases s)).
  { change (map lease_id ?x) with (lease_id <$> x). rewrite list_fmap_insert. apply list_insert_id. by rewrite list_lookup_fmap, Hi. }
  split; cbn [handles weaks leases unfilled released]; try apply Hwf.
  - intros l' Hl'. apply list_elem_of_lookup in Hl' as [j Hj]. destruct (decide (i = j)) as [<-|Hne].
    + rewrite list_lookup_insert_eq in Hj by (by eapply lookup_lt_Some). injection Hj as <-. cbn.
      destruct (mw_lease _ _ _ Hwf l Hl) as (Hr & v0 & Hv0 & Ht). split; [done|]. exists v. split; [done|]. congruence.
    + rewrite list_lookup_insert_ne in Hj by done. apply (mw_lease _ _ _ Hwf). by eapply list_elem_of_lookup_2.
  - rewrite Hids. apply (mw_leases _ _ _ Hwf).
  - unfold leased. cbn [leases]. rewrite Hids. apply (mw_place _ _ _ Hwf).
  - unfold leased. cbn [leases]. rewrite Hids. apply (mw_known _ _ _ Hwf).
Qed.

(** The set of accessed entities plays no part. *)
Lemma accessed_wf s m types acc :
  map_wf s m types -> map_wf (with_map s (Some (mkEntityMap (entities m) acc (ref_counts m)))) (mkEntityMap (entities m) acc (ref_counts m)) types.
Proof. intros Hwf. split; apply Hwf. Qed.

Lemma weaks_wf s m types w :
  map_wf s m types -> (attached w = true -> types !! weak_entity_id w = Some (weak_entity_type w)) ->
  map_wf (mkSystem (Some m) (handles s) (weaks s ++ [w]) (leases s) (unfilled s) (released s)) m types.
Proof.
  intros Hwf Hw. split; try apply Hwf. cbn [weaks].
  intros w' [Hw'|Hw'%list_elem_of_singleton]%elem_of_app; [by apply (mw_weak _ _ _ Hwf)|by subst].
Qed.

Lemma read_ok s m types h :
  map_wf s m types -> h ∈ handles s ->
  read value_type m h =
  match entities m !! entity_id h with
  | Some v => Ok (mkEntityMap (entities m) ({[entity_id h]} ∪ accessed_entities m) (ref_counts m), v)
  | None => Panic
  end.
Proof.
  intros Hwf Hh. unfold read. cbn [entities]. destruct (entities m !! entity_id h) as [v|] eqn:He; [|done].
  destruct (mw_handle _ _ _ Hwf h Hh) as [_ Ht]. pose proof (mw_entity _ _ _ Hwf _ _ He) as Ht'.
  assert (value_type v = entity_type h) as -> by congruence. by rewrite N.eqb_refl.
Qed.

(** ** Every step *)

(** The entity of the [i]-th handle is not in the map. *)
Definition absent s (i : nat) : Prop :=
  exists m h, sys_map s = Some m /\ handles s !! i = Some h /\ entities m !! entity_id h = None.

(** The steps that panic: the use of an entity that is being updated, or whose slot is not
    filled yet. *)
Definition refused s (op : entity_op) : Prop :=
  match op with OpRead i | OpLease i => absent s i | _ => False end.

Lemma map_new_wf : map_wf system_new map_new ∅.
Proof.
  split; cbn; try done.
  - intros h Hh. by apply elem_of_nil in Hh.
  - constructor.
  - intros id. rewrite lookup_empty. split; [by intros ?%elem_of_nil|done].
  - intros l Hl. by apply elem_of_nil in Hl.
  - constructor.
  - constructor.
  - intros id [n Hn]. by rewrite lookup_empty in Hn.
  - intros id. rewrite issued_new, lookup_empty. split; [by intros [? ?]|set_solver].
  - intros id Hk. exfalso. rewrite !lookup_empty in Hk. unfold leased in Hk. cbn in Hk.
    destruct Hk as [[? ?]|[[? ?]|[?%elem_of_nil|[?%elem_of_nil|?]]]]; [done..|set_solver].
  - intros w Hw. by apply elem_of_nil in Hw.
Qed.

Lemma run_no_map s op :
  sys_map s = None -> leases s = [] -> owned s op ->
  exists s', run_entity_op s op = Ok s' /\ sys_map s' = None /\ leases s' = [].
Proof.
  intros Hm Hl Ho.
  destruct op as [ty|i v|i|i|i|id|i|i|i|i v|i| |ids| |]; cbn [run_entity_op owned] in *; unfold on_map; rewrite ?Hm; try by exists s.
  - destruct (lookup_lt_is_Some_2 _ _ Ho) as [h Hh]. rewrite (index_Ok _ _ _ Hh). by eexists.
  - destruct Ho as (h & Hh & _). rewrite (index_Ok _ _ _ Hh). by eexists.
  - destruct (lookup_lt_is_Some_2 _ _ Ho) as [h Hh]. rewrite (index_Ok _ _ _ Hh). by eexists.
  - by eexists.
  - destruct (lookup_lt_is_Some_2 _ _ Ho) as [w Hw]. rewrite (index_Ok _ _ _ Hw). cbn [obind].
    unfold upgrade, weak_map. by destruct (attached w); eexists.
  - destruct Ho as (l & v' & Hi & _). by rewrite Hl in Hi.
  - by eexists.
Qed.

(** A handle the program holds. *)
Ltac held Ho h Hh := let Hi := fresh "Hi" in
  destruct (lookup_lt_is_Some_2 _ _ Ho) as [h Hi]; rewrite ?(index_Ok _ _ _ Hi); cbn [obind];
  
  pose proof (list_elem_of_lookup_2 _ _ _ Hi) as Hh.

Lemma run_wf s m types op :
  sys_map s = Some m -> map_wf s m types -> owned s op ->
  (refused s op /\ run_entity_op s op = Panic) \/
  (~ refused s op /\ exists s', run_entity_op s op = Ok s' /\ system_wf s').
Proof.
  intros Hm Hwf Ho.
  destruct op as [ty|i v|i|i|i|id|i|i|i|i v|i| |ids| |]; cbn [run_entity_op owned refused] in *; unfold on_map; rewrite ?Hm.
  - right. split; [tauto|]. pose proof (reserve_wf s m types ty Hwf) as Hr. destruct (reserve m ty) as [m' h]. destruct Hr as [_ Hr].
    eexists. split; [reflexivity|]. by eexists.
  - right. split; [tauto|]. destruct Ho as (h & Hh & Hu & Hv). rewrite (index_Ok _ _ _ Hh). cbn [obind].
    apply list_elem_of_lookup_2 in Hh. pose proof (insert_wf s m types h v Hwf Hh Hu Hv) as Hi. unfold insert in *.
    eexists. split; [reflexivity|]. by eexists.
  - right. split; [tauto|]. held Ho h Hh. destruct (clone_wf s m types h Hwf Hh) as (m' & -> & Hwf'). cbn [obind].
    eexists. split; [reflexivity|]. by eexists.
  - right. split; [tauto|]. destruct Ho as (h & Hh & Hd). rewrite (index_Ok _ _ _ Hh). cbn [obind].
    destruct (drop_wf s m types i h Hwf Hh Hd) as (m' & -> & Hwf'). cbn [obind]. eexists. split; [reflexivity|]. by eexists.
  - right. split; [tauto|]. held Ho h Hh. eexists. split; [reflexivity|]. exists types. rewrite <- Hm at 1.
    rewrite Hm. apply weaks_wf; [done|]. intros _. cbn. by apply (mw_handle _ _ _ Hwf).
  - right. split; [tauto|]. eexists. split; [reflexivity|]. exists types. by apply weaks_wf.
  - right. split; [tauto|]. held Ho w Hw.
    destruct (upgrade_wf s m types w Hwf Hw) as [(_ & _ & m' & -> & Hwf')|(_ & ->)]; eexists; (split; [reflexivity|]).
    + by eexists.
    + exists types. cbn [opt_list]. rewrite app_nil_r. split; apply Hwf.
  - held Ho h Hh. rewrite (read_ok s m types h Hwf Hh). destruct (entities m !! entity_id h) as [v|] eqn:He.
    + right. split; [intros (m' & h' & E1 & E2 & E3); congruence|]. eexists. split; [reflexivity|]. exists types. by apply accessed_wf.
    + left. split; [exists m, h; auto|done].
  - held Ho h Hh. pose proof (lease_wf s m types h Hwf Hh) as Hl. destruct (entities m !! entity_id h) as [v|] eqn:He.
    + right. split; [intros (m' & h' & E1 & E2 & E3); congruence|]. destruct Hl as (m' & -> & Hwf'). eexists. split; [reflexivity|]. by eexists.
    + left. rewrite Hl. split; [exists m, h; auto|done].
  - right. split; [tauto|]. destruct Ho as (l & v' & Hi & Hv' & Hty). rewrite (index_Ok _ _ _ Hi). cbn [obind].
    destruct (write_wf s m types i l v v' Hwf Hi Hv' Hty) as [-> Hwf']. cbn [obind]. eexists. split; [reflexivity|]. by eexists.
  - right. split; [tauto|]. destruct (lookup_lt_is_Some_2 _ _ Ho) as [l Hi]. rewrite (index_Ok _ _ _ Hi). cbn [obind].
    destruct (end_lease_wf s m types i l Hwf Hi) as (m' & -> & Hwf'). eexists. split; [reflexivity|]. by eexists.
  - right. split; [tauto|]. destruct (take_dropped_wf s m types Hwf) as (m' & -> & Hwf'). eexists. split; [reflexivity|]. by eexists.
  - right. split; [tauto|]. eexists. split; [reflexivity|]. exists types. by apply accessed_wf.
  - right. split; [tauto|]. eexists. split; [reflexivity|]. exists types. by apply accessed_wf.
  - right. split; [tauto|]. eexists. split; [reflexivity|]. done.
Qed.

Lemma live_wf s : live s -> system_wf s.
Proof.
  induction 1 as [|s op s' _ IH Ho Hrun]; [exists ∅; apply map_new_wf|]. unfold system_wf in IH.
  destruct (sys_map s) as [m|] eqn:Hm.
  - destruct IH as [types Hwf]. destruct (run_wf s m types op Hm Hwf Ho) as [[_ E]|(_ & s'' & E & Hwf')]; congruence.
  - destruct (run_no_map s op Hm IH Ho) as (s'' & E & Hm' & Hl'). assert (s'' = s') as -> by congruence.
    unfold system_wf. by rewrite Hm'.
Qed.

(** ** The contract *)

(** C27: Whatever a program does with the handles it owns, no over-release is detected and no
    step panics, but for one: reading or leasing an entity whose state is not in the map,
    which is so exactly while it is being updated or before its slot is filled.  The
    count of an entity is the number of its strong handles, and the state in the map is
    of the type of every handle, so that no downcast fails. *)
Theorem entity_handles_safe s (Hlive : live s) :
  (forall op, owned s op ->
     (refused s op /\ run_entity_op s op = Panic) \/
     (~ refused s op /\ exists s', run_entity_op s op = Ok s' /\ live s')) /\
  (forall m h, sys_map s = Some m -> h ∈ handles s ->
     counts (ref_counts m) !! entity_id h = Some (refs (entity_id h) (handles s)) /\
     (entities m !! entity_id h = None <-> leased s (entity_id h) \/ entity_id h ∈ unfilled s) /\
     (forall v, entities m !! entity_id h = Some v -> value_type v = entity_type h)).
Proof.
  pose proof (live_wf s Hlive) as Hwf. unfold system_wf in Hwf. split.
  - intros op Ho. destruct (sys_map s) as [m|] eqn:Hm.
    + destruct Hwf as [types Hwf]. destruct (run_wf s m types op Hm Hwf Ho) as [?|(Hr & s' & E & _)]; [by left|right].
      split; [done|]. exists s'. split; [done|]. by eapply live_step.
    + destruct (run_no_map s op Hm Hwf Ho) as (s' & E & _). right. split.
      * destruct op; cbn; try tauto; intros (m & h & E' & _); congruence.
      * exists s'. split; [done|]. by eapply live_step.
  - intros m h Hm Hh. rewrite Hm in Hwf. destruct Hwf as [types Hwf].
    destruct (mw_handle _ _ _ Hwf h Hh) as [[n Hn] Ht]. split; [|split].
    + by rewrite <- (mw_count _ _ _ Hwf _ _ Hn).
    + destruct (mw_place _ _ _ Hwf (entity_id h)) as [(Hnone & _)|(_ & _ & Hp)]; [by eexists|congruence|].
      destruct Hp as [(? & ? & ?)|[(? & [v Hv] & ?)|(? & ? & ?)]]; [tauto| |tauto]. rewrite Hv. split; [done|tauto].
    + intros v Hv. pose proof (mw_entity _ _ _ Hwf _ _ Hv). congruence.
Qed.

(** [take_dropped] returns an entity as soon as it can and only once: the states, with
    their identifiers, of exactly the entities in the map that have no strong handle, in
    the order in which they lost the last one.  They are gone from the map then, the
    entities with a handle stay, and nothing more is dropped until a handle is; what is
    returned was never returned before. *)
Theorem take_dropped_exact s m (Hlive : live s) (Hm : sys_map s = Some m) :
  exists m' taken, take_dropped m = Ok (m', taken) /\
    map fst taken = List.filter (present m) (dropped_entity_ids (ref_counts m)) /\
    NoDup (released s ++ map fst taken) /\
    (forall id v, (id, v) ∈ taken <-> entities m !! id = Some v /\ refs id (handles s) = 0) /\
    (forall id v, entities m' !! id = Some v <-> entities m !! id = Some v /\ refs id (handles s) <> 0) /\
    (forall id, is_Some (counts (ref_counts m') !! id) <-> refs id (handles s) <> 0) /\
    take_dropped m' = Ok (m', []).
Proof.
  pose proof (live_wf s Hlive) as Hwf. unfold system_wf in Hwf. rewrite Hm in Hwf. destruct Hwf as [types Hwf].
  destruct (take_dropped_ok s m types Hwf) as (m' & Ht & Hd & Hc & He & _).
  destruct (take_dropped_wf s m types Hwf) as (m'' & Ht' & Hwf'). assert (m'' = m') as -> by congruence.
  exists m', (taken_of m (dropped_entity_ids (ref_counts m))). split; [done|]. split; [apply taken_ids|].
  split; [apply (mw_released _ _ _ Hwf')|].
  assert (Hzero : forall id v, entities m !! id = Some v -> counts (ref_counts m) !! id = Some 0 <-> refs id (handles s) = 0).
  { intros id v Hv. assert (Hk : is_Some (types !! id)) by (apply (mw_known _ _ _ Hwf); right; left; by eexists).
    destruct (mw_place _ _ _ Hwf id Hk) as [(_ & ? & _)|([n Hn] & _)]; [congruence|].
    pose proof (mw_count _ _ _ Hwf _ _ Hn) as Hr. rewrite Hn. split; [intros [= ->]|intros Hz; f_equal]; congruence. }
  assert (Hsome : forall id, is_Some (counts (ref_counts m') !! id) <-> refs id (handles s) <> 0).
  { intros id. split.
    - intros [n Hn]. apply Hc in Hn as [Hn Hne]. by rewrite <- (mw_count _ _ _ Hwf _ _ Hn).
    - intros Hne. assert (Hr : 1 <= refs id (handles s)) by lia. apply refs_pos in Hr as (h & Hh & <-).
      destruct (held_count s m types h Hwf Hh) as (n & Hn & _). exists (S n). by apply Hc. }
  split; [|split; [|split; [done|]]].
  - intros id v. rewrite taken_elem, (mw_dropped _ _ _ Hwf). split.
    + intros [Hz Hv]. split; [done|]. by apply (Hzero id v).
    + intros [Hv Hz]. split; [|done]. by apply (Hzero id v).
  - intros id v. rewrite He. case_bool_decide as Hz.
    + split; [done|]. intros [Hv Hne]. by apply (Hzero id v) in Hz.
    + split; [intros Hv; split; [done|]; intros Hr; by apply (Hzero id v Hv) in Hr|by intros [? _]].
  - unfold take_dropped. rewrite Hd. destruct m' as [e a [sl c d]]. cbn in *. by subst.
Qed.

(** A weak handle upgrades exactly if the map is there, the handle is not one of
    [new_invalid], and the entity still has a strong handle: never between the drop of
    the last one and [take_dropped], nor after it, since identifiers are not issued
    again.  The strong handle is one of the program's, with the same type, and
    [is_upgradable] tells. *)
Theorem weak_upgrade_correct s i w (Hlive : live s) (Hw : weaks s !! i = Some w) :
  let ok := attached w = true /\ is_Some (sys_map s) /\ exists h, h ∈ handles s /\ entity_id h = weak_entity_id w in
  (is_upgradable (sys_map s) w = true <-> ok) /\
  ((ok /\ (upgrade (sys_map s) w).2 = Some (mkAnyEntity (weak_entity_id w) (weak_entity_type w)) /\
    mkAnyEntity (weak_entity_id w) (weak_entity_type w) ∈ handles s) \/
   (~ ok /\ upgrade (sys_map s) w = (sys_map s, None))).
Proof.
  pose proof (live_wf s Hlive) as Hwf. unfold system_wf in Hwf. intros ok. apply list_elem_of_lookup_2 in Hw.
  destruct (sys_map s) as [m|] eqn:Hm.
  - destruct Hwf as [types Hwf].
    assert (Hok : ok <-> attached w = true /\ 1 <= refs (weak_entity_id w) (handles s)).
    { unfold ok. rewrite ?Hm, refs_pos. split; [tauto|]. intros [? ?]. split; [done|]. split; [by eexists|done]. }
    split.
    + rewrite Hok. unfold is_upgradable, weak_map. destruct (attached w); [|split; [done|by intros [? _]]].
      rewrite Nat.ltb_lt. destruct (counts (ref_counts m) !! weak_entity_id w) as [n|] eqn:Hn; cbn.
      * rewrite (mw_count _ _ _ Hwf _ _ Hn). split; [done|by intros [_ ?]].
      * split; [lia|]. intros [_ Hr]. apply refs_pos in Hr as (h & Hh & E). destruct (mw_handle _ _ _ Hwf h Hh) as [[n Hs] _]. congruence.
    + destruct (upgrade_wf s m types w Hwf Hw) as [(Ha & Hr & m' & -> & _)|(Hn & ->)]; [left|right].
      * split; [by apply Hok|]. split; [done|]. apply refs_pos in Hr as (h & Hh & E).
        destruct (mw_handle _ _ _ Hwf h Hh) as [_ Ht]. pose proof (mw_weak _ _ _ Hwf w Hw Ha) as Ht'.
        destruct h as [hid hty]. cbn in *. subst hid. by assert (weak_entity_type w = hty) as -> by congruence.
      * by rewrite Hok.
  - assert (Hno : ~ ok) by (unfold ok; rewrite ?Hm; by intros (_ & [? ?] & _)).
    unfold is_upgradable, upgrade, weak_map. destruct (attached w); (split; [|by right]); cbn; split; try done; tauto.
Qed.
End Life.

(** ** Tests and witnesses *)

Section Tests.
(** Keys from a counter. *)
#[local] Instance counter_keys : SlotKeys EntityId := {|
  slots_new := 1%positive;
  slots_insert := fun n => (n, Pos.succ n);
  slots_remove := fun n _ => n;
  issued := fun n => list_to_set (map Pos.of_nat (seq 1 (Pos.to_nat n - 1)));
|}.

#[local] Instance counter_keys_laws : SlotKeysLaws EntityId.
Proof.
  assert (Hin : forall n x : EntityId, x ∈ issued n <-> (x < n)%positive).
  { intros n x. unfold issued, counter_keys. rewrite elem_of_list_to_set, list_elem_of_In, in_map_iff. setoid_rewrite in_seq. split.
    - intros (k & <- & Hk). lia.
    - intros Hx. exists (Pos.to_nat x). lia. }
  split.
  - done.
  - intros s. cbn [slots_insert counter_keys fst]. rewrite Hin. lia.
  - intros s. apply set_eq. intros x. rewrite elem_of_union, elem_of_singleton, !Hin. cbn [slots_insert counter_keys fst snd]. lia.
  - done.
Qed.

(** Values are their types. *)
Definition run_all (ops : list (entity_op (Value := N))) (s : System (Value := N) (Slots := EntityId)) : outcome System :=
  ofold (run_entity_op (fun v => v)) ops s.

Definition run_from (ops : list (entity_op (Value := N))) : System (Value := N) (Slots := EntityId) :=
  match run_all ops system_new with Ok s => s | _ => system_new end.

(** [owned], decided. *)
Definition owned_b (s : System (Value := N) (Slots := EntityId)) (op : entity_op (Value := N)) : bool :=
  match op with
  | OpInsert i v =>
      match handles s !! i with Some h => bool_decide (entity_id h ∈ unfilled s) && (v =? entity_type h)%N | None => false end
  | OpClone i | OpDowngrade i | OpRead i | OpLease i => i <? length (handles s)
  | OpDrop i =>
      match handles s !! i with
      | Some h => negb (bool_decide (entity_id h ∈ map lease_id (leases s))) || (2 <=? refs (entity_id h) (handles s))
      | None => false
      end
  | OpUpgrade i => i <? length (weaks s)
  | OpWrite i v =>
      match leases s !! i with
      | Some l => match lease_entity l with Some v' => (v =? v')%N | None => false end
      | None => false
      end
  | OpEndLease i => i <? length (leases s)
  | OpDropMap => match leases s with [] => true | _ => false end
  | _ => true
  end.

Lemma owned_b_spec s op : owned_b s op = true -> owned (fun v => v) s op.
Proof.
  destruct op as [ty|i v|i|i|i|id|i|i|i|i v|i| |ids| |]; cbn [owned_b owned]; rewrite ?Nat.ltb_lt; try done.
  - destruct (handles s !! i) as [h|]; [|done]. rewrite andb_true_iff, bool_decide_eq_true, N.eqb_eq. eauto.
  - destruct (handles s !! i) as [h|]; [|done]. intros Ho. exists h. split; [done|]. intros Hl.
    rewrite bool_decide_true in Ho by exact Hl. cbn in Ho. by apply Nat.leb_le.
  - destruct (leases s !! i) as [l|]; [|done]. destruct (lease_entity l) as [v'|] eqn:E; [|done]. rewrite N.eqb_eq. eauto 10.
  - by destruct (leases s).
Qed.

Fixpoint all_owned (s : System) ops : bool :=
  match ops with
  | [] => true
  | op :: ops => owned_b s op && match run_entity_op (fun v => v) s op with Ok s' => all_owned s' ops | _ => false end
  end.

Lemma run_live ops : forall s, live (fun v => v) s -> all_owned s ops = true ->
  live (fun v => v) (match run_all ops s with Ok s' => s' | _ => system_new end).
Proof.
  unfold run_all. induction ops as [|op ops IH]; intros s Hs Ha; cbn [all_owned ofold] in *; [done|].
  apply andb_true_iff in Ha as [Ho Ha]. destruct (run_entity_op (fun v => v) s op) as [s'| |] eqn:E; try done.
  cbn [obind]. apply IH; [|done]. eapply live_step; [exact Hs|by apply owned_b_spec|exact E].
Qed.

(** Tests of entity_map.rs, and an entity that is read while it is updated. *)
Example test_entity_map :
  released (run_from [OpReserve 7; OpInsert 0 7%N; OpDrop 0; OpReserve 7; OpInsert 0 7%N; OpDrop 0; OpTakeDropped]) = [1; 2]%positive /\
  handles (run_from [OpReserve 7; OpInsert 0 7%N; OpDowngrade 0; OpDrop 0; OpUpgrade 0]) = [] /\
  run_all [OpReserve 7; OpInsert 0 7%N; OpLease 0; OpRead 0] system_new = Panic.
Proof. split; [|split]; vm_compute; reflexivity. Qed.

(** An entity that is being updated, with a second handle; and one that was dropped. *)
Definition updated := run_from [OpReserve 7; OpInsert 0 7%N; OpClone 0; OpDowngrade 0; OpLease 0].
Definition dropped := run_from [OpReserve 7; OpReserve 8; OpInsert 1 8%N; OpDowngrade 1; OpDrop 1].

Lemma updated_live : live (fun v => v) updated.
Proof. apply (run_live [OpReserve 7; OpInsert 0 7%N; OpClone 0; OpDowngrade 0; OpLease 0] system_new); [apply live_new|vm_compute; reflexivity]. Qed.

Lemma dropped_live : live (fun v => v) dropped.
Proof. apply (run_live [OpReserve 7; OpReserve 8; OpInsert 1 8%N; OpDowngrade 1; OpDrop 1] system_new); [apply live_new|vm_compute; reflexivity]. Qed.

Lemma entity_handles_safe_witness :
  run_entity_op (fun v => v) updated (OpRead 0) = Panic /\ exists s', run_entity_op (fun v => v) updated (OpDrop 0) = Ok s' /\ live (fun v => v) s'.
Proof.
  destruct (entity_handles_safe (fun v => v) updated updated_live) as [Hs _]. split.
  - destruct (Hs (OpRead 0)) as [[_ E]|[Hr _]]; [apply owned_b_spec; vm_compute; reflexivity|exact E|].
    exfalso. apply Hr. eexists _, (mkAnyEntity 1 7). split; [reflexivity|]. split; vm_compute; reflexivity.
  - destruct (Hs (OpDrop 0)) as [[[] _]|[_ H']]; [apply owned_b_spec; vm_compute; reflexivity|exact H'].
Defined.

Lemma take_dropped_exact_witness :
  exists m m' taken, sys_map dropped = Some m /\ take_dropped m = Ok (m', taken) /\ (2%positive, 8%N) ∈ taken.
Proof.
  destruct (sys_map dropped) as [m|] eqn:Hm; [|vm_compute in Hm; discriminate Hm].
  destruct (take_dropped_exact (fun v => v) dropped m dropped_live Hm) as (m' & taken & Ht & _ & _ & Hin & _).
  exists m, m', taken. split; [reflexivity|]. split; [exact Ht|]. apply Hin. vm_compute in Hm. injection Hm as <-.
  split; vm_compute; reflexivity.
Defined.

Lemma weak_upgrade_correct_witness :
  is_upgradable (sys_map updated) (mkAnyWeakEntity 1 7 true) = true /\
  upgrade (sys_map dropped) (mkAnyWeakEntity 2 8 true) = (sys_map dropped, None).
Proof.
  split.
  - apply (weak_upgrade_correct (fun v => v) updated 0 (mkAnyWeakEntity 1 7 true) updated_live); [vm_compute; reflexivity|].
    split; [reflexivity|]. split; [eexists; vm_compute; reflexivity|]. exists (mkAnyEntity 1 7). split; [|reflexivity].
    apply list_elem_of_lookup_2 with 0. vm_compute. reflexivity.
  - destruct (weak_upgrade_correct (fun v => v) dropped 0 (mkAnyWeakEntity 2 8 true) dropped_live) as [_ [(_ & E & _)|[_ E]]];
      [vm_compute; reflexivity|vm_compute in E; discriminate E|exact E].
Defined.
End Tests.
