(* ===== verification/EntityThreads.v ===== *)
(** * Entity handles in several threads

    Handles may be sent to other threads and shared ([unsafe impl Send] and [Sync]), so
    their operations interleave.  The model runs any number of threads in steps: each
    access to a counter, which is atomic and sequentially consistent, is one.  The counts
    are behind a reader-writer lock of the parking_lot crate: many readers and one
    upgradable reader at a time, or a writer.  [clone] and [upgrade] hold a read lock,
    [drop] an upgradable one, which it upgrades to push the identifier; [reserve] and
    [take_dropped] hold the write lock, and are one step. *)

From Stdlib Require Import NArith.
From stdpp Require Import base list option numbers gmap.
From S2P Require Import Prelude EntityMap.

#[local] Set Warnings "-register-all,-clear-no-such-hyp".

(** Where a thread is in an operation on a handle. *)
Inductive Pc :=
| Idle
| Cloning (id : EntityId)
| Dropping (id : EntityId)
| Releasing (id : EntityId)
| Upgrading (id : EntityId)
| Comparing (id : EntityId) (loaded : nat).

(** The counts and the queue; the strong handles held by the program, by entity; the
    threads; the keys issued, and those [take_dropped] has removed. *)
Record Shared := mkShared {
  shared_counts : gmap EntityId nat;
  queue : list EntityId;
  held : gmap EntityId nat;
  threads : list Pc;
  used : gset EntityId;
  taken : list EntityId;
}.

Definition held_of (s : Shared) (id : EntityId) : nat := default 0 (held s !! id).

(** What a thread does next: begins an operation, or goes on with its own, where a weak
    exchange may fail spuriously. *)
Inductive action :=
| BeginClone (id : EntityId)
| BeginDrop (id : EntityId)
| BeginUpgrade (id : EntityId)
| Reserve (id : EntityId)
| TakeDropped
| Go (spurious : bool).

Definition reading (p : Pc) : bool :=
  match p with Cloning _ | Upgrading _ | Comparing _ _ => true | _ => false end.
Definition upgradable_reading (p : Pc) : bool :=
  match p with Dropping _ | Releasing _ => true | _ => false end.
Definition cloning (id : EntityId) (p : Pc) : bool :=
  match p with Cloning id' => bool_decide (id' = id) | _ => false end.

(** The lock is free for a writer. *)
Definition unlocked (s : Shared) : bool := forallb (fun p => negb (reading p) && negb (upgradable_reading p)) (threads s).

Definition at_pc (s : Shared) (i : nat) (p : Pc) : Shared :=
  mkShared (shared_counts s) (queue s) (held s) (<[i := p]> (threads s)) (used s) (taken s).

Definition with_count (s : Shared) (id : EntityId) (n held_n : nat) (i : nat) (p : Pc) : Shared :=
  mkShared (<[id := n]> (shared_counts s)) (queue s) (<[id := held_n]> (held s)) (<[i := p]> (threads s)) (used s) (taken s).

(** The loop of [take_dropped] on the counts. *)
Fixpoint remove_counts (c : gmap EntityId nat) (ids : list EntityId) : outcome (gmap EntityId nat) :=
  match ids with
  | [] => Ok c
  | id :: ids => match c !! id with None => Panic | Some _ => remove_counts (delete id c) ids end
  end.

(** [None]: the thread waits for the lock, or cannot do this. *)
Definition thread_step (s : Shared) (i : nat) (a : action) : option (outcome Shared) :=
  match threads s !! i, a with
  | Some Idle, BeginClone id => if 0 <? held_of s id then Some (Ok (at_pc s i (Cloning id))) else None
  | Some (Cloning id), Go _ =>
      match shared_counts s !! id with
      | None => Some Panic
      | Some prev_count =>
          if prev_count =? 0 then Some Panic
          else Some (Ok (with_count s id (S prev_count) (S (held_of s id)) i Idle))
      end
  | Some Idle, BeginDrop id =>
      if (0 <? held_of s id) && negb (existsb upgradable_reading (threads s)) &&
         ((1 <? held_of s id) || negb (existsb (cloning id) (threads s)))
      then Some (Ok (mkShared (shared_counts s) (queue s) (<[id := held_of s id - 1]> (held s)) (<[i := Dropping id]> (threads s)) (used s) (taken s)))
      else None
  | Some (Dropping id), Go _ =>
      match shared_counts s !! id with
      | None => Some Panic
      | Some prev_count =>
          if prev_count =? 0 then Some Panic
          else Some (Ok (with_count s id (prev_count - 1) (held_of s id) i (if prev_count =? 1 then Releasing id else Idle)))
      end
  | Some (Releasing id), Go _ =>
      if existsb reading (threads s) then None
      else Some (Ok (mkShared (shared_counts s) (queue s ++ [id]) (held s) (<[i := Idle]> (threads s)) (used s) (taken s)))
  | Some Idle, BeginUpgrade id => Some (Ok (at_pc s i (Upgrading id)))
  | Some (Upgrading id), Go _ =>
      match shared_counts s !! id with
      | None => Some (Ok (at_pc s i Idle))
      | Some loaded => Some (Ok (at_pc s i (Comparing id loaded)))
      end
  | Some (Comparing id loaded), Go spurious =>
      if loaded =? 0 then Some (Ok (at_pc s i Idle))
      else match shared_counts s !! id with
           | None => Some Panic
           | Some actual =>
               if (actual =? loaded) && negb spurious then Some (Ok (with_count s id (S loaded) (S (held_of s id)) i Idle))
               else Some (Ok (at_pc s i (Comparing id actual)))
           end
  | Some Idle, Reserve id =>
      if unlocked s && negb (bool_decide (id ∈ used s)) then
        Some (Ok (mkShared (<[id := 1]> (shared_counts s)) (queue s) (<[id := 1]> (held s)) (threads s) ({[id]} ∪ used s) (taken s)))
      else None
  | Some Idle, TakeDropped =>
      if unlocked s then
        Some (let! c := remove_counts (shared_counts s) (queue s) in
              Ok (mkShared c [] (held s) (threads s) (used s) (taken s ++ queue s)))
      else None
  | _, _ => None
  end.

Definition threads_new (n : nat) : Shared := mkShared ∅ [] ∅ (replicate n Idle) ∅ [].

Inductive interleaving (n : nat) : Shared -> Prop :=
| interleaving_new : interleaving n (threads_new n)
| interleaving_step s i a s' : interleaving n s -> thread_step s i a = Some (Ok s') -> interleaving n s'.

(** ** The invariant *)

(** The handles being dropped that still count. *)
Definition is_dropping (id : EntityId) (p : Pc) : bool :=
  match p with Dropping id' => bool_decide (id' = id) | _ => false end.
Definition releasing (p : Pc) : option EntityId := match p with Releasing id => Some id | _ => None end.

Definition tally (f : Pc -> bool) (l : list Pc) : nat := length (List.filter f l).

Record shared_wf (s : Shared) : Prop := mkSharedWf {
  sw_count id n : shared_counts s !! id = Some n -> n = held_of s id + tally (is_dropping id) (threads s);
  sw_counted id : 1 <= held_of s id + tally (is_dropping id) (threads s) -> is_Some (shared_counts s !! id);
  sw_nodup : NoDup (queue s ++ omap releasing (threads s));
  sw_zero id : id ∈ queue s ++ omap releasing (threads s) <-> shared_counts s !! id = Some 0;
  sw_upgradable : tally upgradable_reading (threads s) <= 1;
  sw_cloning id : Cloning id ∈ threads s -> 1 <= held_of s id;
  sw_comparing id n : Comparing id n ∈ threads s -> is_Some (shared_counts s !! id);
  sw_used id : is_Some (shared_counts s !! id) \/ id ∈ taken s -> id ∈ used s;
  sw_taken : NoDup (taken s);
  sw_gone id : id ∈ taken s -> shared_counts s !! id = None;
}.

Lemma tally_insert f l : forall i p q, l !! i = Some p -> tally f (<[i := q]> l) + (if f p then 1 else 0) = tally f l + (if f q then 1 else 0).
Proof.
  unfold tally. induction l as [|x l IH]; intros [|i] p q Hi; simplify_eq/=.
  - destruct (f p), (f q); simpl; lia.
  - specialize (IH i p q Hi). destruct (f x); simpl; lia.
Qed.

Lemma tally_zero f l : tally f l = 0 <-> existsb f l = false.
Proof. unfold tally. induction l as [|p l IH]; simpl; [done|]. destruct (f p); simpl; [split; [lia|done]|done]. Qed.

Lemma tally_elem f l p : p ∈ l -> f p = true -> 1 <= tally f l.
Proof.
  intros Hp Hf. destruct (decide (tally f l = 0)) as [Hz|]; [|lia]. apply tally_zero in Hz.
  rewrite <- not_true_iff_false in Hz. exfalso. apply Hz, existsb_exists. exists p. by rewrite <- list_elem_of_In.
Qed.

Lemma elem_insert {A} (l : list A) i x y : x ∈ <[i := y]> l -> x = y \/ x ∈ l.
Proof.
  rewrite !list_elem_of_lookup. intros [j Hj]. destruct (decide (i = j)) as [<-|Hne].
  - destruct (decide (i < length l)); [rewrite list_lookup_insert_eq in Hj by done; left; congruence|].
    rewrite list_insert_ge in Hj by lia. eauto.
  - rewrite list_lookup_insert_ne in Hj by done. eauto.
Qed.

(** The identifiers being released, when one thread changes. *)
Lemma releasing_insert l : forall i p q,
  l !! i = Some p -> releasing p = None -> omap releasing (<[i := q]> l) ≡ₚ opt_list (releasing q) ++ omap releasing l.
Proof.
  induction l as [|x l IH]; intros [|i] p q Hi Hp; simplify_eq/=; csimpl.
  - rewrite Hp. by destruct (releasing q).
  - specialize (IH i p q Hi Hp). destruct (releasing x) as [r|]; [|done]. rewrite IH. by destruct (releasing q); [apply Permutation_swap|].
Qed.

Lemma releasing_done l : forall i id,
  l !! i = Some (Releasing id) -> omap releasing l ≡ₚ id :: omap releasing (<[i := Idle]> l).
Proof.
  induction l as [|x l IH]; intros [|i] id Hi; simplify_eq/=; csimpl; [done|].
  specialize (IH i id Hi). destruct (releasing x) as [r|]; [|done]. rewrite IH. apply Permutation_swap.
Qed.

(** A thread that neither drops nor releases: what its other steps have in common. *)
Definition neutral (p : Pc) : bool := negb (upgradable_reading p).

Lemma neutral_dropping p id : neutral p = true -> is_dropping id p = false.
Proof. by destruct p. Qed.
Lemma neutral_releasing p : neutral p = true -> releasing p = None.
Proof. by destruct p. Qed.

Section Neutral.
Context (s : Shared) (i : nat) (p q : Pc).
Context (Hwf : shared_wf s) (Hi : threads s !! i = Some p) (Hp : neutral p = true) (Hq : neutral q = true).

Lemma neutral_tally id : tally (is_dropping id) (<[i := q]> (threads s)) = tally (is_dropping id) (threads s).
Proof. pose proof (tally_insert (is_dropping id) (threads s) i p q Hi) as Ht. rewrite !neutral_dropping in Ht by done. lia. Qed.

Lemma neutral_upgradable : tally upgradable_reading (<[i := q]> (threads s)) = tally upgradable_reading (threads s).
Proof.
  pose proof (tally_insert upgradable_reading (threads s) i p q Hi) as Ht. unfold neutral in *.
  destruct (upgradable_reading p), (upgradable_reading q); try done. lia.
Qed.

Lemma neutral_release : queue s ++ omap releasing (<[i := q]> (threads s)) ≡ₚ queue s ++ omap releasing (threads s).
Proof. rewrite (releasing_insert _ i p q Hi) by (by apply neutral_releasing). by rewrite neutral_releasing. Qed.

Lemma at_pc_wf :
  (forall id, q = Cloning id -> 1 <= held_of s id) ->
  (forall id n, q = Comparing id n -> is_Some (shared_counts s !! id)) ->
  shared_wf (at_pc s i q).
Proof.
  intros Hclone Hcomp. split; cbn [at_pc shared_counts queue threads used taken]; try apply Hwf.
  - intros id n. rewrite neutral_tally. apply (sw_count _ Hwf).
  - intros id. rewrite neutral_tally. apply (sw_counted _ Hwf).
  - rewrite neutral_release. apply (sw_nodup _ Hwf).
  - intros id. rewrite neutral_release. apply (sw_zero _ Hwf).
  - rewrite neutral_upgradable. apply (sw_upgradable _ Hwf).
  - intros id [E|Hin]%elem_insert; [by apply Hclone|by apply (sw_cloning _ Hwf)].
  - intros id n [E|Hin]%elem_insert; [by eapply Hcomp|by eapply (sw_comparing _ Hwf)].
Qed.

(** A count that is not zero and the handles grow by one. *)
Lemma grow_wf id n :
  q = Idle -> shared_counts s !! id = Some n -> n <> 0 -> shared_wf (with_count s id (S n) (S (held_of s id)) i q).
Proof.
  intros Eq Hn Hne. pose proof (sw_count _ Hwf _ _ Hn) as Hc.
  assert (Hsome : forall j, is_Some (<[id := S n]> (shared_counts s) !! j) <-> is_Some (shared_counts s !! j)).
  { intros j. rewrite lookup_insert_is_Some. destruct (decide (id = j)) as [<-|]; [rewrite Hn|]; naive_solver. }
  assert (Hheld : forall j, default 0 (<[id := S (held_of s id)]> (held s) !! j) = held_of s j + if decide (id = j) then 1 else 0).
  { intros j. destruct (decide (id = j)) as [<-|]; [rewrite lookup_insert_eq; cbn; lia|]. rewrite lookup_insert_ne by done. unfold held_of. lia. }
  split; unfold held_of; cbn [with_count shared_counts queue threads used taken held]; try apply Hwf.
  - intros j k. rewrite neutral_tally, Hheld, lookup_insert_Some. intros [[<- <-]|[Hj Hk]].
    + rewrite decide_True by done. lia.
    + rewrite decide_False by done. rewrite (sw_count _ Hwf _ _ Hk). lia.
  - intros j. rewrite neutral_tally, Hheld, Hsome. intros Hj. destruct (decide (id = j)) as [<-|]; [by rewrite Hn|].
    apply (sw_counted _ Hwf). lia.
  - rewrite neutral_release. apply (sw_nodup _ Hwf).
  - intros j. rewrite neutral_release, (sw_zero _ Hwf), lookup_insert_Some. destruct (decide (id = j)) as [<-|]; [rewrite Hn|]; naive_solver.
  - rewrite neutral_upgradable. apply (sw_upgradable _ Hwf).
  - intros j [E|Hin]%elem_insert; [congruence|]. rewrite Hheld. apply (sw_cloning _ Hwf) in Hin. lia.
  - intros j k [E|Hin]%elem_insert; [congruence|]. rewrite Hsome. by eapply (sw_comparing _ Hwf).
  - intros j. rewrite Hsome. apply (sw_used _ Hwf).
  - intros j Hj. apply (sw_gone _ Hwf) in Hj. rewrite lookup_insert_ne; [done|]. intros <-. congruence.
Qed.
End Neutral.

Lemma begin_drop_wf s i id :
  shared_wf s -> threads s !! i = Some Idle -> 1 <= held_of s id -> existsb upgradable_reading (threads s) = false ->
  (1 < held_of s id \/ existsb (cloning id) (threads s) = false) ->
  shared_wf (mkShared (shared_counts s) (queue s) (<[id := held_of s id - 1]> (held s)) (<[i := Dropping id]> (threads s)) (used s) (taken s)).
Proof.
  intros Hwf Hi Hh Hup Hcl. set (s' := mkShared _ _ _ _ _ _).
  assert (Hheld : forall j, held_of s' j + (if bool_decide (id = j) then 1 else 0) = held_of s j).
  { intros j. unfold held_of at 1. cbn [s' held]. case_bool_decide as E; [subst; rewrite lookup_insert_eq; cbn; lia|].
    rewrite lookup_insert_ne by done. unfold held_of. lia. }
  assert (Htally : forall j, tally (is_dropping j) (<[i := Dropping id]> (threads s)) =
    tally (is_dropping j) (threads s) + if bool_decide (id = j) then 1 else 0).
  { intros j. pose proof (tally_insert (is_dropping j) (threads s) i Idle (Dropping id) Hi) as Ht. cbn [is_dropping] in Ht. lia. }
  assert (Hrel : omap releasing (<[i := Dropping id]> (threads s)) ≡ₚ omap releasing (threads s))
    by (by rewrite (releasing_insert _ i Idle (Dropping id) Hi)).
  split; cbn [s' shared_counts queue threads used taken]; fold s'; try apply Hwf.
  - intros j n Hn. rewrite (sw_count _ Hwf _ _ Hn), Htally. specialize (Hheld j). lia.
  - intros j. rewrite Htally. specialize (Hheld j). intros Hj. apply (sw_counted _ Hwf). lia.
  - rewrite Hrel. apply (sw_nodup _ Hwf).
  - intros j. rewrite Hrel. apply (sw_zero _ Hwf).
  - pose proof (tally_insert upgradable_reading (threads s) i Idle (Dropping id) Hi) as Ht. cbn in Ht.
    apply tally_zero in Hup. lia.
  - intros j [E|Hin]%elem_insert; [done|]. specialize (Hheld j). pose proof (sw_cloning _ Hwf _ Hin) as Hj.
    case_bool_decide as E; [|lia]. subst j. destruct Hcl as [?|Hcl]; [lia|]. exfalso. apply not_true_iff_false in Hcl.
    apply Hcl, existsb_exists. exists (Cloning id). split; [by apply list_elem_of_In|]. cbn. by apply bool_decide_eq_true.
  - intros j n [E|Hin]%elem_insert; [done|]. by eapply (sw_comparing _ Hwf).
Qed.

Lemma dropping_count s i id :
  shared_wf s -> threads s !! i = Some (Dropping id) -> exists n, shared_counts s !! id = Some (S n).
Proof.
  intros Hwf Hi. assert (Ht : 1 <= tally (is_dropping id) (threads s)).
  { eapply tally_elem; [by eapply list_elem_of_lookup_2|]. cbn. by apply bool_decide_eq_true. }
  destruct (sw_counted _ Hwf id) as [n Hn]; [lia|]. pose proof (sw_count _ Hwf _ _ Hn). exists (n - 1). rewrite Hn. f_equal. lia.
Qed.

Lemma decrement_wf s i id n :
  shared_wf s -> threads s !! i = Some (Dropping id) -> shared_counts s !! id = Some (S n) ->
  shared_wf (with_count s id n (held_of s id) i (if n =? 0 then Releasing id else Idle)).
Proof.
  intros Hwf Hi Hn. set (q := if n =? 0 then Releasing id else Idle).
  assert (Hheld : forall j, default 0 (<[id := held_of s id]> (held s) !! j) = held_of s j).
  { intros j. destruct (decide (id = j)) as [<-|]; [by rewrite lookup_insert_eq|by rewrite lookup_insert_ne]. }
  assert (Hq : forall j, is_dropping j q = false) by (intros j; unfold q; by destruct (n =? 0)).
  assert (Htally : forall j, tally (is_dropping j) (<[i := q]> (threads s)) + (if bool_decide (id = j) then 1 else 0) =
    tally (is_dropping j) (threads s)).
  { intros j. pose proof (tally_insert (is_dropping j) (threads s) i (Dropping id) q Hi) as Ht. rewrite Hq in Ht. cbn [is_dropping] in Ht. lia. }
  assert (Hsome : forall j, is_Some (<[id := n]> (shared_counts s) !! j) <-> is_Some (shared_counts s !! j)).
  { intros j. rewrite lookup_insert_is_Some. destruct (decide (id = j)) as [<-|]; [rewrite Hn|]; naive_solver. }
  assert (Hrel : omap releasing (<[i := q]> (threads s)) ≡ₚ opt_list (releasing q) ++ omap releasing (threads s))
    by (by apply releasing_insert with (Dropping id)).
  assert (Hnew : id ∉ queue s ++ omap releasing (threads s)) by (rewrite (sw_zero _ Hwf), Hn; done).
  split; unfold held_of; cbn [with_count shared_counts queue threads used taken held]; try apply Hwf.
  - intros j k. rewrite lookup_insert_Some, Hheld. specialize (Htally j). intros [[<- <-]|[Hj Hk]].
    + rewrite bool_decide_true in Htally by done. pose proof (sw_count _ Hwf _ _ Hn). lia.
    + rewrite bool_decide_false in Htally by done. rewrite (sw_count _ Hwf _ _ Hk). lia.
  - intros j. rewrite Hheld, Hsome. specialize (Htally j). intros Hj. apply (sw_counted _ Hwf). lia.
  - rewrite Hrel. unfold q. destruct (n =? 0); cbn; [|apply (sw_nodup _ Hwf)].
    rewrite <- Permutation_middle. apply list.NoDup_cons. split; [done|apply (sw_nodup _ Hwf)].
  - intros j. rewrite Hrel, lookup_insert_Some. unfold q. destruct (Nat.eqb_spec n 0) as [->|Hne]; cbn.
    + rewrite <- Permutation_middle, elem_of_cons, (sw_zero _ Hwf). destruct (decide (id = j)) as [<-|]; [rewrite Hn|]; naive_solver.
    + rewrite (sw_zero _ Hwf). destruct (decide (id = j)) as [<-|]; [rewrite Hn|]; [|naive_solver]. split; [done|]. intros [[_ ?]|[? _]]; congruence.
  - pose proof (tally_insert upgradable_reading (threads s) i (Dropping id) q Hi) as Ht. cbn in Ht.
    pose proof (sw_upgradable _ Hwf). destruct (upgradable_reading q); lia.
  - intros j [E|Hin]%elem_insert; [unfold q in E; by destruct (n =? 0)|]. rewrite Hheld. by apply (sw_cloning _ Hwf).
  - intros j k [E|Hin]%elem_insert; [unfold q in E; by destruct (n =? 0)|]. rewrite Hsome. by eapply (sw_comparing _ Hwf).
  - intros j. rewrite Hsome. apply (sw_used _ Hwf).
  - intros j Hj. apply (sw_gone _ Hwf) in Hj. rewrite lookup_insert_ne; [done|]. intros <-. congruence.
Qed.

Lemma release_wf s i id :
  shared_wf s -> threads s !! i = Some (Releasing id) ->
  shared_wf (mkShared (shared_counts s) (queue s ++ [id]) (held s) (<[i := Idle]> (threads s)) (used s) (taken s)).
Proof.
  intros Hwf Hi. pose proof (releasing_done _ _ _ Hi) as Hrel.
  assert (Htally : forall j, tally (is_dropping j) (<[i := Idle]> (threads s)) = tally (is_dropping j) (threads s)).
  { intros j. pose proof (tally_insert (is_dropping j) (threads s) i (Releasing id) Idle Hi) as Ht. cbn in Ht. lia. }
  assert (Hq : (queue s ++ [id]) ++ omap releasing (<[i := Idle]> (threads s)) ≡ₚ queue s ++ omap releasing (threads s))
    by (rewrite <- app_assoc, Hrel; done).
  split; unfold held_of; cbn [shared_counts queue threads used taken held]; try apply Hwf.
  - intros j n. rewrite Htally. apply (sw_count _ Hwf).
  - intros j. rewrite Htally. apply (sw_counted _ Hwf).
  - rewrite Hq. apply (sw_nodup _ Hwf).
  - intros j. rewrite Hq. apply (sw_zero _ Hwf).
  - pose proof (tally_insert upgradable_reading (threads s) i (Releasing id) Idle Hi) as Ht. cbn in Ht. pose proof (sw_upgradable _ Hwf). lia.
  - intros j [E|Hin]%elem_insert; [done|]. by apply (sw_cloning _ Hwf).
  - intros j n [E|Hin]%elem_insert; [done|]. by eapply (sw_comparing _ Hwf).
Qed.

(** *** Exclusive steps *)

Lemma unlocked_idle s p : unlocked s = true -> p ∈ threads s -> p = Idle.
Proof.
  unfold unlocked. rewrite forallb_forall. intros Hu Hp%list_elem_of_In. apply Hu in Hp. by destruct p.
Qed.

Lemma unlocked_none s (f : Pc -> bool) : unlocked s = true -> f Idle = false -> tally f (threads s) = 0.
Proof.
  intros Hu Hf. apply tally_zero, not_true_iff_false. rewrite existsb_exists. intros (p & Hp%list_elem_of_In & Hfp).
  rewrite (unlocked_idle s p Hu Hp) in Hfp. congruence.
Qed.

Lemma unlocked_releasing s : unlocked s = true -> omap releasing (threads s) = [].
Proof.
  intros Hu. assert (Hall : forall p, p ∈ threads s -> p = Idle) by (intros p; by apply unlocked_idle).
  induction (threads s) as [|p l IH]; csimpl; [done|]. rewrite (Hall p) by (apply elem_of_cons; by left). cbn.
  apply IH. intros q Hq. apply Hall, elem_of_cons. by right.
Qed.

Lemma reserve_threads_wf s id :
  shared_wf s -> unlocked s = true -> id ∉ used s ->
  shared_wf (mkShared (<[id := 1]> (shared_counts s)) (queue s) (<[id := 1]> (held s)) (threads s) ({[id]} ∪ used s) (taken s)).
Proof.
  intros Hwf Hu Hid. set (s' := mkShared _ _ _ _ _ _).
  assert (Hnone : shared_counts s !! id = None).
  { apply eq_None_not_Some. intros Hs. apply Hid, (sw_used _ Hwf). by left. }
  assert (Hheld : forall j, held_of s' j = if decide (id = j) then 1 else held_of s j).
  { intros j. unfold held_of at 1. cbn [s' held]. destruct (decide (id = j)) as [<-|]; [by rewrite lookup_insert_eq|by rewrite lookup_insert_ne]. }
  assert (Htally : forall j, tally (is_dropping j) (threads s) = 0) by (intros j; by apply unlocked_none).
  split; cbn [s' shared_counts queue threads used taken]; fold s'; try apply Hwf.
  - intros j n. rewrite lookup_insert_Some, Htally, Hheld. intros [[<- <-]|[Hj Hn]]; [by rewrite decide_True|].
    rewrite decide_False by done. rewrite (sw_count _ Hwf _ _ Hn), Htally. done.
  - intros j. rewrite Htally, Hheld, lookup_insert_is_Some. destruct (decide (id = j)) as [|Hne]; [by left|]. intros Hj. right.
    split; [done|]. apply (sw_counted _ Hwf). lia.
  - intros j. rewrite (sw_zero _ Hwf), lookup_insert_Some. split; [|naive_solver]. intros Hz. right. split; [|done]. intros <-. congruence.
  - intros j Hin. by apply (unlocked_idle s _ Hu) in Hin.
  - intros j n Hin. by apply (unlocked_idle s _ Hu) in Hin.
  - intros j. rewrite lookup_insert_is_Some. pose proof (sw_used _ Hwf j). set_solver.
  - intros j Hj. rewrite lookup_insert_ne; [by apply (sw_gone _ Hwf)|]. intros <-. apply Hid, (sw_used _ Hwf). by right.
Qed.

Lemma remove_counts_ok ids : forall c,
  NoDup ids -> (forall id, id ∈ ids -> is_Some (c !! id)) ->
  exists c', remove_counts c ids = Ok c' /\ forall id, c' !! id = if decide (id ∈ ids) then None else c !! id.
Proof.
  induction ids as [|id ids IH]; intros c Hnd Hall; cbn [remove_counts].
  - exists c. split; [done|]. intros id. by rewrite decide_False by apply not_elem_of_nil.
  - apply list.NoDup_cons in Hnd as [Hid Hnd]. destruct (Hall id) as [n Hn]; [apply elem_of_cons; by left|]. rewrite Hn.
    destruct (IH (delete id c) Hnd) as (c' & -> & Hc).
    { intros j Hj. rewrite lookup_delete_ne by (by intros ->). apply Hall, elem_of_cons. by right. }
    exists c'. split; [done|]. intros j. rewrite Hc. destruct (decide (j ∈ id :: ids)) as [Hin|Hin]; rewrite elem_of_cons in Hin.
    + destruct (decide (j ∈ ids)); [done|]. destruct Hin as [->|]; [by rewrite lookup_delete_eq|done].
    + rewrite decide_False by tauto. rewrite lookup_delete_ne; [done|]. intros <-. tauto.
Qed.

Lemma take_threads_wf s :
  shared_wf s -> unlocked s = true ->
  exists c, remove_counts (shared_counts s) (queue s) = Ok c /\
    (forall id, c !! id = if decide (shared_counts s !! id = Some 0) then None else shared_counts s !! id) /\
    shared_wf (mkShared c [] (held s) (threads s) (used s) (taken s ++ queue s)).
Proof.
  intros Hwf Hu. pose proof (unlocked_releasing s Hu) as Hrel.
  pose proof (sw_nodup _ Hwf) as Hnd. pose proof (sw_zero _ Hwf) as Hz. rewrite Hrel, app_nil_r in Hnd. rewrite Hrel, app_nil_r in Hz.
  destruct (remove_counts_ok (queue s) (shared_counts s) Hnd) as (c & Hc & Hlook).
  { intros id Hid. apply Hz in Hid. by eexists. }
  exists c. split; [done|].
  assert (Hlook' : forall id, c !! id = if decide (shared_counts s !! id = Some 0) then None else shared_counts s !! id).
  { intros id. rewrite Hlook. destruct (decide (id ∈ queue s)) as [Hin|Hin]; rewrite Hz in Hin.
    - by rewrite decide_True.
    - by rewrite decide_False. }
  split; [done|]. set (s' := mkShared _ _ _ _ _ _).
  split; cbn [s' shared_counts queue threads used taken]; fold s'; try apply Hwf.
  - intros id n. rewrite Hlook'. destruct (decide _); [done|]. apply (sw_count _ Hwf).
  - intros id Hh. rewrite Hlook'. destruct (sw_counted _ Hwf id Hh) as [n Hn]. pose proof (sw_count _ Hwf _ _ Hn). rewrite decide_False; [by eexists|].
    rewrite Hn. intros [= ->]. change (held_of s' id) with (held_of s id) in Hh. lia.
  - rewrite Hrel. constructor.
  - intros id. rewrite Hrel, Hlook'. split; [by intros ?%elem_of_nil|]. by destruct (decide _).
  - intros id n Hin. by apply (unlocked_idle s _ Hu) in Hin.
  - intros id. rewrite Hlook', elem_of_app, Hz. intros [[n Hn]|[Hin|Hin]]; apply (sw_used _ Hwf).
    + destruct (decide _); [done|]. left. by eexists.
    + by right.
    + left. by eexists.
  - apply list.NoDup_app. split; [apply (sw_taken _ Hwf)|]. split; [|done]. intros id Hid Hq%Hz. apply (sw_gone _ Hwf) in Hid. congruence.
  - intros id. rewrite elem_of_app, Hz, Hlook'. intros [Hin|Hin]; [|by rewrite decide_True].
    apply (sw_gone _ Hwf) in Hin. by rewrite Hin; destruct (decide _).
Qed.

(** *** Every step *)

Lemma step_ok s i a r :
  shared_wf s -> thread_step s i a = Some r -> exists s', r = Ok s' /\ shared_wf s' /\ length (threads s') = length (threads s).
Proof.
  intros Hwf. unfold thread_step. destruct (threads s !! i) as [p|] eqn:Hi; [|done].
  assert (Hin : p ∈ threads s) by (by eapply list_elem_of_lookup_2).
  destruct p as [|id|id|id|id|id loaded], a as [id'|id'|id'|id'| |spurious]; try done.
  - destruct (Nat.ltb_spec 0 (held_of s id')); [|done]. intros [= <-]. eexists. split; [reflexivity|].
    split; [|apply length_insert]. apply (at_pc_wf s i Idle); [done..| |done]. intros id [= ->]. done.
  - destruct (Nat.ltb_spec 0 (held_of s id')) as [Hh|]; [|done]. cbn [andb].
    destruct (existsb upgradable_reading (threads s)) eqn:Hu; [done|]. cbn [andb negb].
    destruct ((1 <? held_of s id') || negb (existsb (cloning id') (threads s))) eqn:Hc; [|done]. intros [= <-].
    eexists. split; [reflexivity|]. split; [|apply length_insert]. apply begin_drop_wf; try done.
    apply orb_true_iff in Hc as [Hc|Hc]; [left; by apply Nat.ltb_lt|right; by apply negb_true_iff].
  - intros [= <-]. eexists. split; [reflexivity|]. split; [|apply length_insert]. by apply (at_pc_wf s i Idle).
  - destruct (unlocked s) eqn:Hu; [|done]. cbn [andb]. case_bool_decide as Hid; [done|]. intros [= <-].
    eexists. split; [reflexivity|]. split; [by apply reserve_threads_wf|done].
  - destruct (unlocked s) eqn:Hu; [|done]. destruct (take_threads_wf s Hwf Hu) as (c & -> & _ & Hwf'). intros [= <-].
    eexists. split; [reflexivity|]. by split.
  - pose proof (sw_cloning _ Hwf _ Hin) as Hh. destruct (sw_counted _ Hwf id) as [n Hn]; [lia|]. rewrite Hn.
    pose proof (sw_count _ Hwf _ _ Hn). destruct (Nat.eqb_spec n 0); [lia|]. intros [= <-].
    eexists. split; [reflexivity|]. split; [|apply length_insert]. by apply (grow_wf s i (Cloning id)).
  - destruct (dropping_count s i id Hwf Hi) as [n Hn]. rewrite Hn. cbn [Nat.eqb]. rewrite Nat.sub_succ, Nat.sub_0_r. intros [= <-].
    eexists. split; [reflexivity|]. split; [|apply length_insert]. by apply decrement_wf.
  - destruct (existsb reading (threads s)); [done|]. intros [= <-]. eexists. split; [reflexivity|]. split; [|apply length_insert].
    by apply release_wf.
  - destruct (shared_counts s !! id) as [n|] eqn:Hn; intros [= <-]; (eexists; split; [reflexivity|]; split; [|apply length_insert]).
    + apply (at_pc_wf s i (Upgrading id)); [done..|]. intros j k [= <- _]. by rewrite Hn.
    + by apply (at_pc_wf s i (Upgrading id)).
  - destruct (Nat.eqb_spec loaded 0) as [->|Hl].
    { intros [= <-]. eexists. split; [reflexivity|]. split; [|apply length_insert]. by apply (at_pc_wf s i (Comparing id 0)). }
    destruct (sw_comparing _ Hwf id loaded Hin) as [n Hn]. rewrite Hn.
    destruct ((n =? loaded) && negb spurious) eqn:Hc; intros [= <-]; (eexists; split; [reflexivity|]; split; [|apply length_insert]).
    + apply andb_true_iff in Hc as [->%Nat.eqb_eq _]. by apply (grow_wf s i (Comparing id loaded)).
    + apply (at_pc_wf s i (Comparing id loaded)); [done..|]. intros j k [= <- _]. by rewrite Hn.
Qed.

Lemma threads_new_wf n : shared_wf (threads_new n).
Proof.
  assert (Hall : forall p, p ∈ replicate n Idle -> p = Idle) by (intros p [-> _]%elem_of_replicate; done).
  assert (Hrel : omap releasing (replicate n Idle) = []) by (clear Hall; induction n; done).
  assert (Ht : forall f, f Idle = false -> tally f (replicate n Idle) = 0).
  { intros f Hf. unfold tally. clear Hall Hrel. induction n; simpl; [done|]. by rewrite Hf. }
  split; unfold held_of; cbn [threads_new shared_counts queue held threads used taken]; rewrite ?Hrel; try done.
  - intros id. rewrite lookup_empty, Ht by done. cbn. lia.
  - constructor.
  - intros id. rewrite lookup_empty. split; [by intros ?%elem_of_nil|done].
  - rewrite Ht by done. lia.
  - intros id Hin. by apply Hall in Hin.
  - intros id k Hin. by apply Hall in Hin.
  - intros id [[k Hk]|Hin]; [by rewrite lookup_empty in Hk|by apply elem_of_nil in Hin].
  - constructor.
Qed.

Lemma interleaving_wf n s : interleaving n s -> shared_wf s /\ length (threads s) = n.
Proof.
  induction 1 as [|s i a s' _ [Hwf Hl] Hstep]; [split; [apply threads_new_wf|apply length_replicate]|].
  destruct (step_ok s i a _ Hwf Hstep) as (s'' & [= <-] & Hwf' & Hl'). split; [done|lia].
Qed.

(** ** Finishing *)

(** A schedule: which thread does what. *)
Fixpoint run_schedule (s : Shared) (l : list (nat * action)) : option Shared :=
  match l with
  | [] => Some s
  | (i, a) :: l => match thread_step s i a with Some (Ok s') => run_schedule s' l | _ => None end
  end.

Lemma run_schedule_app l1 : forall s l2, run_schedule s (l1 ++ l2) = match run_schedule s l1 with Some s' => run_schedule s' l2 | None => None end.
Proof.
  induction l1 as [|[i a] l1 IH]; intros s l2; cbn; [done|]. by destruct (thread_step s i a) as [[s'| |]|].
Qed.

Lemma run_schedule_wf l : forall s s', shared_wf s -> run_schedule s l = Some s' -> shared_wf s'.
Proof.
  induction l as [|[i a] l IH]; intros s s' Hwf; cbn; [by intros [= <-]|].
  destruct (thread_step s i a) as [r|] eqn:E; [|done]. destruct (step_ok s i a r Hwf E) as (s1 & -> & Hwf1 & _). by apply IH.
Qed.

(** The steps that go on with what was begun. *)
Definition going (l : list (nat * action)) : Prop := Forall (fun p => p.2 = Go false) l.

(** A reader alone finishes, in at most three steps. *)
Lemma reader_finishes s i p :
  shared_wf s -> threads s !! i = Some p -> reading p = true ->
  exists l s', going l /\ length l <= 3 /\ run_schedule s l = Some s' /\ threads s' = <[i := Idle]> (threads s).
Proof.
  assert (Hcompare : forall s id loaded, shared_wf s -> threads s !! i = Some (Comparing id loaded) ->
    loaded = 0 \/ shared_counts s !! id = Some loaded ->
    exists s', run_schedule s [(i, Go false)] = Some s' /\ threads s' = <[i := Idle]> (threads s)).
  { clear s. intros s id loaded Hwf Hi Hl. cbn. unfold thread_step. rewrite Hi. destruct (Nat.eqb_spec loaded 0); [by eexists|].
    destruct Hl as [?|Hl]; [done|]. rewrite Hl, Nat.eqb_refl. by eexists. }
  assert (Htwo : forall s p q, threads s !! i = Some p -> <[i := Idle]> (<[i := q]> (threads s)) = <[i := Idle]> (threads s)).
  { intros s0 p0 q Hi. apply list_insert_insert_eq. }
  intros Hwf Hi Hp. destruct p as [|id|id|id|id|id loaded]; try done.
  - pose proof (sw_cloning _ Hwf id (list_elem_of_lookup_2 _ _ _ Hi)) as Hh.
    destruct (sw_counted _ Hwf id) as [n Hn]; [lia|]. pose proof (sw_count _ Hwf _ _ Hn).
    exists [(i, Go false)]. cbn. unfold thread_step. rewrite Hi, Hn. destruct (Nat.eqb_spec n 0); [lia|].
    eexists. split; [by repeat constructor|]. split; [lia|]. by split.
  - destruct (shared_counts s !! id) as [n|] eqn:Hn.
    + assert (Hstep : thread_step s i (Go false) = Some (Ok (at_pc s i (Comparing id n)))) by (unfold thread_step; by rewrite Hi, Hn).
      assert (Hi' : threads (at_pc s i (Comparing id n)) !! i = Some (Comparing id n)).
      { cbn. apply list_lookup_insert_eq. by eapply lookup_lt_Some. }
      destruct (step_ok s i _ _ Hwf Hstep) as (s1 & [= <-] & Hwf1 & _).
      destruct (Hcompare _ id n Hwf1 Hi') as (s' & Hs' & Ht'); [by right|].
      exists [(i, Go false); (i, Go false)], s'. split; [by repeat constructor|]. split; [simpl; lia|].
      cbn [run_schedule]. rewrite Hstep. split; [exact Hs'|]. rewrite Ht'. by apply (Htwo s (Upgrading id)).
    + exists [(i, Go false)]. cbn. unfold thread_step. rewrite Hi, Hn. eexists. split; [by repeat constructor|]. split; [lia|]. by split.
  - destruct (sw_comparing _ Hwf id loaded (list_elem_of_lookup_2 _ _ _ Hi)) as [n Hn].
    destruct (decide (loaded = 0 \/ n = loaded)) as [Hl|Hl].
    + destruct (Hcompare s id loaded Hwf Hi) as (s' & Hs' & Ht'); [destruct Hl as [?|<-]; auto|].
      exists [(i, Go false)], s'. split; [by repeat constructor|]. split; [simpl; lia|]. by split.
    + assert (Hstep : thread_step s i (Go false) = Some (Ok (at_pc s i (Comparing id n)))).
      { unfold thread_step. rewrite Hi, Hn. destruct (Nat.eqb_spec loaded 0); [tauto|]. destruct (Nat.eqb_spec n loaded); [tauto|]. done. }
      assert (Hi' : threads (at_pc s i (Comparing id n)) !! i = Some (Comparing id n)).
      { cbn. apply list_lookup_insert_eq. by eapply lookup_lt_Some. }
      destruct (step_ok s i _ _ Hwf Hstep) as (s1 & [= <-] & Hwf1 & _).
      destruct (Hcompare _ id n Hwf1 Hi') as (s' & Hs' & Ht'); [by right|].
      exists [(i, Go false); (i, Go false)], s'. split; [by repeat constructor|]. split; [simpl; lia|].
      cbn [run_schedule]. rewrite Hstep. split; [exact Hs'|]. rewrite Ht'. by apply (Htwo s (Comparing id loaded)).
Qed.

Definition weight (p : Pc) : nat := match p with Idle => 0 | Dropping _ => 2 | _ => 1 end.
Definition work (l : list Pc) : nat := fold_right (fun p n => weight p + n) 0 l.

Lemma work_insert l : forall i p q, l !! i = Some p -> work (<[i := q]> l) + weight p = work l + weight q.
Proof.
  induction l as [|x l IH]; intros [|i] p q Hi; simplify_eq/=; [lia|]. specialize (IH i p q Hi). lia.
Qed.

Lemma work_zero l : work l = 0 -> Forall (fun p => p = Idle) l.
Proof. induction l as [|p l IH]; simpl; intros Hw; constructor; [destruct p; simpl in Hw; (done || lia)|apply IH; lia]. Qed.

Lemma busy_elem (f : Pc -> bool) l : existsb f l = true -> exists i p, l !! i = Some p /\ f p = true.
Proof.
  intros (p & Hp%list_elem_of_In & Hf)%existsb_exists. apply list_elem_of_lookup in Hp as [i Hi]. eauto.
Qed.

(** Some thread can go on, to less work. *)
Lemma some_progress s :
  shared_wf s -> work (threads s) <> 0 ->
  exists l s', going l /\ run_schedule s l = Some s' /\ work (threads s') < work (threads s).
Proof.
  intros Hwf Hw. destruct (existsb reading (threads s)) eqn:Hr.
  - apply busy_elem in Hr as (i & p & Hi & Hp). destruct (reader_finishes s i p Hwf Hi Hp) as (l & s' & Hg & _ & Hrun & Ht).
    exists l, s'. split; [done|]. split; [done|]. pose proof (work_insert (threads s) i p Idle Hi). rewrite Ht. destruct p; simpl in *; (done || lia).
  - assert (Hex : existsb upgradable_reading (threads s) = true).
    { apply not_false_iff_true. intros Hu. apply Hw. clear Hw Hwf. induction (threads s) as [|p l IH]; simpl in *; [done|].
      apply orb_false_iff in Hr as [Hr1 Hr], Hu as [Hu1 Hu]. rewrite (IH Hr Hu). by destruct p. }
    apply busy_elem in Hex as (i & p & Hi & Hp).
    destruct p as [|id|id|id|id|id loaded]; try done.
    + destruct (dropping_count s i id Hwf Hi) as [n Hn]. exists [(i, Go false)]. cbn. unfold thread_step. rewrite Hi, Hn. cbn [Nat.eqb].
      eexists. split; [by repeat constructor|]. split; [reflexivity|]. cbn [with_count threads].
      match goal with |- context [<[i := ?q]> _] => pose proof (work_insert (threads s) i (Dropping id) q Hi) as Hq; assert (weight q <= 1) by (by destruct n as [|[|]]; simpl; lia) end.
      simpl in Hq. lia.
    + exists [(i, Go false)]. cbn. unfold thread_step. rewrite Hi, Hr. eexists. split; [by repeat constructor|]. split; [reflexivity|].
      cbn [threads]. pose proof (work_insert (threads s) i (Releasing id) Idle Hi) as Hq. simpl in Hq. lia.
Qed.

Lemma all_finish k : forall s,
  shared_wf s -> work (threads s) <= k ->
  exists l s', going l /\ run_schedule s l = Some s' /\ Forall (fun p => p = Idle) (threads s').
Proof.
  induction k as [|k IH]; intros s Hwf Hk.
  - exists [], s. split; [constructor|]. split; [done|]. apply work_zero. lia.
  - destruct (decide (work (threads s) = 0)) as [Hz|Hz].
    { exists [], s. split; [constructor|]. split; [done|]. by apply work_zero. }
    destruct (some_progress s Hwf Hz) as (l1 & s1 & Hg1 & Hrun1 & Hlt).
    destruct (IH s1) as (l2 & s2 & Hg2 & Hrun2 & Hidle); [by eapply run_schedule_wf|lia|].
    exists (l1 ++ l2), s2. split; [by apply Forall_app|]. rewrite run_schedule_app, Hrun1. done.
Qed.

(** ** The contract *)

(** C28: However the threads interleave, no step panics: [clone] and [drop] find the count of
    the handle, above zero, and [take_dropped] that of every queued identifier.  A count
    is the number of the handles held and being dropped.  An identifier is queued, or a
    thread is about to queue it, exactly while its count is zero, and once; a count that
    is zero stays so, whatever weak handles are upgraded meanwhile, until [take_dropped]
    removes it; and what it removes is never counted again. *)
Theorem handles_interleave_safely n s (Hs : interleaving n s) :
  (forall i a r, thread_step s i a = Some r -> exists s', r = Ok s' /\
     (forall id, shared_counts s !! id = Some 0 ->
        shared_counts s' !! id = Some 0 \/ (a = TakeDropped /\ shared_counts s' !! id = None /\ id ∈ taken s')) /\
     (forall id, id ∈ taken s -> id ∈ taken s' /\ shared_counts s' !! id = None)) /\
  (forall id k, shared_counts s !! id = Some k -> k = held_of s id + tally (is_dropping id) (threads s)) /\
  (forall id, 1 <= held_of s id -> is_Some (shared_counts s !! id)) /\
  NoDup (queue s ++ omap releasing (threads s)) /\
  (forall id, id ∈ queue s ++ omap releasing (threads s) <-> shared_counts s !! id = Some 0) /\
  NoDup (taken s).
Proof.
  destruct (interleaving_wf n s Hs) as [Hwf _].
  split; [|split; [apply (sw_count _ Hwf)|split; [intros id Hid; apply (sw_counted _ Hwf); lia|
    split; [apply (sw_nodup _ Hwf)|split; [apply (sw_zero _ Hwf)|apply (sw_taken _ Hwf)]]]]].
  intros i a r Hstep. destruct (step_ok s i a r Hwf Hstep) as (s' & -> & Hwf' & _). exists s'. split; [done|].
  assert (Htaken : forall id, id ∈ taken s -> id ∈ taken s').
  { intros id Hid. revert Hstep. unfold thread_step. destruct (threads s !! i) as [[]|]; [..|done]; destruct a; try done; intros Hstep;
      repeat case_match; simplify_eq/=; try done.
    destruct (remove_counts (shared_counts s) (queue s)); simplify_eq/=. apply elem_of_app. by left. }
  split; [|intros id Hid; split; [by apply Htaken|by apply (sw_gone _ Hwf'), Htaken]].
  intros id Hz.
  assert (Hdec : a = TakeDropped \/ a <> TakeDropped) by (destruct a; auto). destruct Hdec as [->|Ha].
  - revert Hstep. unfold thread_step. destruct (threads s !! i) as [[]|]; try done. destruct (unlocked s) eqn:Hu; [|done].
    destruct (take_threads_wf s Hwf Hu) as (c & -> & Hlook & _). intros [= <-]. right. split; [done|]. cbn [shared_counts taken].
    rewrite Hlook, decide_True by done. split; [done|]. apply elem_of_app. right.
    apply (sw_zero _ Hwf) in Hz. by rewrite (unlocked_releasing s Hu), app_nil_r in Hz.
  - left. assert (Hused : id ∈ used s) by (apply (sw_used _ Hwf); left; by eexists).
    revert Hstep. unfold thread_step. destruct (threads s !! i) as [[]|]; [..|done]; destruct a; try done; intros Hstep;
      repeat case_match; simplify_eq/=; try done; rewrite lookup_insert_ne; try done; intros ->; simplify_eq/=.
    all: match goal with H : _ && negb (bool_decide (?x ∈ _)) = true |- _ => apply andb_true_iff in H as [_ H]; by rewrite bool_decide_true in H
         | _ => rewrite ?andb_true_iff in *; repeat case_match; destruct_and?; simplify_eq/=; try done; congruence end.
Qed.

(** No deadlock: from every state the threads reach, the operations that have begun can
    all be finished, and a clone or an upgrade alone in at most three steps.  Then
    [take_dropped] can run, and leaves a count only to the entities with a handle: the
    last handle's drop is never lost. *)
Theorem handles_make_progress n s (Hs : interleaving n s) :
  (forall i p, threads s !! i = Some p -> reading p = true ->
     exists l s', going l /\ length l <= 3 /\ run_schedule s l = Some s' /\ threads s' = <[i := Idle]> (threads s)) /\
  exists l s1, going l /\ run_schedule s l = Some s1 /\ Forall (fun p => p = Idle) (threads s1) /\
    forall i, i < n -> exists s2, thread_step s1 i TakeDropped = Some (Ok s2) /\
      forall id, is_Some (shared_counts s2 !! id) <-> 1 <= held_of s2 id.
Proof.
  destruct (interleaving_wf n s Hs) as [Hwf Hlen]. split; [intros i p Hi Hp; by apply reader_finishes with p|].
  destruct (all_finish (work (threads s)) s Hwf (le_n _)) as (l & s1 & Hg & Hrun & Hidle). exists l, s1.
  split; [done|]. split; [done|]. split; [done|]. pose proof (run_schedule_wf l s s1 Hwf Hrun) as Hwf1. intros i Hi.
  assert (Hlen1 : length (threads s1) = n).
  { clear -Hrun Hwf Hlen. revert s Hwf Hlen Hrun. induction l as [|[i a] l IH]; intros s Hwf Hlen; cbn; [by intros [= <-]|].
    destruct (thread_step s i a) as [r|] eqn:E; [|done]. destruct (step_ok s i a r Hwf E) as (s2 & -> & Hwf2 & Hl2). apply IH; [done|lia]. }
  destruct (lookup_lt_is_Some_2 (threads s1) i) as [p Hp]; [lia|]. pose proof Hidle as Hall. rewrite Forall_elem in Hall.
  rewrite (Hall p) in Hp by (by eapply list_elem_of_lookup_2).
  assert (Hu : unlocked s1 = true).
  { unfold unlocked. apply forallb_forall. intros q Hq%list_elem_of_In. by rewrite (Hall q Hq). }
  destruct (take_threads_wf s1 Hwf1 Hu) as (c & Hc & Hlook & Hwf2). unfold thread_step. rewrite Hp, Hu, Hc.
  eexists. split; [reflexivity|]. intros id. split.
  - intros [k Hk]. pose proof (sw_count _ Hwf2 _ _ Hk) as Hn. cbn [threads] in Hn. rewrite (unlocked_none s1 _ Hu) in Hn by done.
    cbn [shared_counts] in Hk. rewrite Hlook in Hk. destruct (decide (shared_counts s1 !! id = Some 0)); [done|].
    destruct k; [congruence|]. lia.
  - intros Hh. apply (sw_counted _ Hwf2). lia.
Qed.

(** ** A race *)

(** One thread drops the last handle while another upgrades a weak one: between the two
    steps of the drop the upgrade fails; before it, it revives the count. *)
Definition race (l : list (nat * action)) : option (list EntityId * option nat) :=
  option_map (fun s => (queue s, shared_counts s !! 1%positive)) (run_schedule (threads_new 2) ((0, Reserve 1) :: l)).

Example test_races :
  race [(0, BeginDrop 1); (1, BeginUpgrade 1); (0, Go false); (1, Go false); (1, Go false); (0, Go false)] = Some ([1%positive], Some 0) /\
  race [(0, BeginDrop 1); (1, BeginUpgrade 1); (1, Go false); (1, Go false); (0, Go false)] = Some ([], Some 1) /\
  race [(0, BeginDrop 1); (1, BeginUpgrade 1); (1, Go false); (0, Go false); (1, Go false); (1, Go false); (0, Go false)] = Some ([1%positive], Some 0).
Proof. split; [|split]; vm_compute; reflexivity. Qed.

Lemma run_schedule_interleaving n l : forall s s', interleaving n s -> run_schedule s l = Some s' -> interleaving n s'.
Proof.
  induction l as [|[i a] l IH]; intros s s' Hs; cbn; [by intros [= <-]|].
  destruct (thread_step s i a) as [[s1| |]|] eqn:E; try done. apply IH. by eapply interleaving_step.
Qed.

(** The drop and the upgrade of the race, both under way. *)
Definition race_state : Shared :=
  default (threads_new 2) (run_schedule (threads_new 2) [(0, Reserve 1); (0, BeginDrop 1); (1, BeginUpgrade 1); (1, Go false); (0, Go false)]).

Lemma race_state_interleaving : interleaving 2 race_state.
Proof.
  apply (run_schedule_interleaving 2 [(0, Reserve 1); (0, BeginDrop 1); (1, BeginUpgrade 1); (1, Go false); (0, Go false)] (threads_new 2));
    [constructor|]. vm_compute. reflexivity.
Qed.

Lemma handles_interleave_safely_witness :
  threads race_state = [Releasing 1; Comparing 1 1] /\ shared_counts race_state !! 1%positive = Some 0.
Proof.
  destruct (handles_interleave_safely 2 race_state race_state_interleaving) as (_ & _ & _ & _ & Hz & _).
  split; [vm_compute; reflexivity|]. apply Hz. vm_compute. apply elem_of_cons. left. reflexivity.
Defined.

Lemma handles_make_progress_witness :
  exists l s', run_schedule race_state l = Some s' /\ Forall (fun p => p = Idle) (threads s').
Proof.
  destruct (handles_make_progress 2 race_state race_state_interleaving) as (_ & l & s' & _ & Hrun & Hidle & _).
  exists l, s'. split; [exact Hrun|exact Hidle].
Defined.
