(* ===== verification/App.v ===== *)
(** * The application: [crates/gpui/src/app.rs] (with app/context.rs, window.rs)

    [App] owns the entities, the globals and the windows, and keeps a queue of effects:
    notifications, events, deferred functions.  Code that uses the app runs inside
    [App::update]; when the outermost update ends, [flush_effects] applies the effects
    in order, each of which may run more code and push more effects, until none is left.
    Before every effect the entities whose last handle was dropped are released.

    The code of the client is data: an identifier of a type [Code], and a class [Client]
    that gives, for a call of that code in a state of the app, the calls of the app's
    interface that it makes, the value it leaves in the entity it was lent, and what it
    returns.  The handles and subscriptions that client code holds are in a table of the
    app's state, under keys: an operation on a key that is not there does nothing, as no
    code can name it.  Every call made to client code is recorded, in order, in [calls].

    Calls nest: client code calls the app, which calls client code.  The operations are
    therefore written over two parameters, [run], the execution of commands, and [flush],
    the effect loop; [exec] and [flush_effects] tie the knot with fuel.

    Abstracted: a [TypeId] is a number, a [Box<dyn Any>] a value with its type; the
    callbacks of a subscriber set are dropped without running destructors (the handles a
    closure captured stay in the client's table); the destructor of an entity's value
    drops the handles and subscriptions [value_owns] gives.  Windows keep the fields that
    the app reads or writes here; drawing them, and calls to the platform, are left out,
    except that a request to quit is recorded. *)

From Stdlib Require Import NArith.
From stdpp Require Import base list option numbers gmap.
From S2P Require Import Prelude Subscription EntityMap.

#[local] Set Warnings "-register-all,-clear-no-such-hyp".

Abbreviation WindowId := positive.
Abbreviation FocusId := positive.
Abbreviation TypeId := N.
Abbreviation Key := nat.

(** ** A subscriber set that is part of a larger state

    [SubscriberSet::retain] again, for callbacks that use the whole of a state in which
    [get] finds the set and [put] replaces it. *)
Section RetainIn.
Context {EmitterKey : Type} `{!EqDecision EmitterKey, !Countable EmitterKey}.
Context {Callback State : Type}.
Context (get : State -> SubscriberSet EmitterKey Callback) (put : SubscriberSet EmitterKey Callback -> State -> State).

Fixpoint retain_calls_in (f : State -> Callback -> outcome (State * Callback * bool))
    (st : State) (todo : list (nat * Subscriber Callback)) : outcome (State * list (nat * Subscriber Callback)) :=
  match todo with
  | [] => Ok (st, [])
  | (id, sub) :: todo =>
      let! (st, cb, keep) := (if is_active (get st) sub then f st (callback sub) else Ok (st, callback sub, true)) in
      let! (st, kept) := retain_calls_in f st todo in
      Ok (st, if (keep : bool) then (id, mkSubscriber (active sub) cb) :: kept else kept)
  end.

Definition retain_in (st : State) (e : EmitterKey) (f : State -> Callback -> outcome (State * Callback * bool)) : outcome State :=
  match subscribers (get st) !! e with
  | Some (Some subs) =>
      let st := put (set_subscribers (get st) (<[e := None]> (subscribers (get st)))) st in
      let! (st, kept) := retain_calls_in f st subs in
      Ok (put (retain_merge (get st) e kept) st)
  | _ => Ok st
  end.
End RetainIn.

(** On the set alone it is [retain]. *)
Lemma retain_in_self {EmitterKey Callback} `{!EqDecision EmitterKey, !Countable EmitterKey} (s : SubscriberSet EmitterKey Callback) e f :
  retain_in (fun s => s) (fun s _ => s) s e f = Subscription.retain s e f.
Proof.
  assert (E : forall todo st, retain_calls_in (fun s => s) f st todo = retain_calls f st todo).
  { induction todo as [|[id sub] todo IH]; intros st; [done|]. simpl.
    destruct (is_active st sub); simpl; [|by rewrite IH]. by destruct (f st (callback sub)) as [[[? ?] ?]| |]; simpl; rewrite ?IH. }
  unfold retain_in, Subscription.retain. destruct (subscribers s !! e) as [[subs|]|]; [|done..]. by rewrite E.
Qed.

(** ** Windows *)

Inductive DrawPhase := PhaseNone | PhasePrepaint | PhasePaint | PhaseFocus.

#[export] Instance DrawPhase_eq_dec : EqDecision DrawPhase.
Proof. solve_decision. Defined.

(** [WindowInvalidatorInner]: shared by the window and the entities it shows. *)
Record WindowInvalidator := mkInvalidator {
  dirty : bool;
  draw_phase : DrawPhase;
  dirty_views : gset EntityId;
  update_count : nat;
}.

Definition invalidator_new : WindowInvalidator := mkInvalidator true PhaseNone ∅ 0.

Definition set_dirty (i : WindowInvalidator) (d : bool) : WindowInvalidator :=
  mkInvalidator d (draw_phase i) (dirty_views i) (if d then S (update_count i) else update_count i).

Definition set_phase (i : WindowInvalidator) (p : DrawPhase) : WindowInvalidator :=
  mkInvalidator (dirty i) p (dirty_views i) (update_count i).

Definition not_drawing (i : WindowInvalidator) : bool := bool_decide (draw_phase i = PhaseNone).

Inductive QuitMode := QuitDefault | LastWindowClosed | Explicit.

Inductive DispatchPhase := Bubble | Capture.

(** ** The state *)

Section App.
Context {Value : Type} (value_type : Value -> TypeId).
Context `{SlotKeys Slots}.
Context {Code : Type}.

#[local] Abbreviation EntityMap := (EntityMap (Value := Value) (Slots := Slots)).

(** The callbacks that the app stores: the closures of [App::observe] and
    [Context::observe], and so on.  A closure made by a [Context] also holds the entity of
    that context, weakly. *)
Inductive Handler :=
| OnNotify (handle : AnyWeakEntity) (f : Code)
| OnNotifyIn (handle this : AnyWeakEntity) (f : Code)
| OnGlobal (f : Code)
| OnGlobalIn (this : AnyWeakEntity) (f : Code).

Inductive Listener :=
| OnEvent (handle : AnyWeakEntity) (evt : TypeId) (f : Code)
| OnEventIn (handle this : AnyWeakEntity) (evt : TypeId) (f : Code).

Inductive ReleaseListener :=
| OnRelease (ty : TypeId) (f : Code)
| OnReleaseIn (this : AnyWeakEntity) (ty : TypeId) (f : Code).

Inductive NewEntityListener := OnNew (ty : TypeId) (f : Code).

(** A function passed to [App::defer]: one that activates a subscriber, one made by
    [Window::defer] to report that the pending input changed, or the client's. *)
Inductive Deferred :=
| ActivateObserver (cell : nat)
| ActivateListener (cell : nat)
| ActivateGlobal (cell : nat)
| PendingInputChanged (window : WindowId)
| Run (f : Code).

Inductive Effect :=
| Notify (emitter : EntityId)
| Emit (emitter : EntityId) (event_type : TypeId) (event : Value)
| RefreshWindows
| NotifyGlobalObservers (global_type : TypeId)
| Defer (callback : Deferred)
| EntityCreated (entity : AnyEntity) (tid : TypeId) (window : option WindowId).

(** The queue of effects and the state of updates. *)
Record Effects := mkEffects {
  pending_effects : list Effect;
  pending_notifications : gset EntityId;
  pending_global_notifications : gset TypeId;
  flushing_effects : bool;
  pending_updates : nat;
}.

Record Observers := mkObservers {
  observers : SubscriberSet EntityId Handler;
  event_listeners : SubscriberSet EntityId (TypeId * Listener);
  release_listeners : SubscriberSet EntityId ReleaseListener;
  global_observers : SubscriberSet TypeId Handler;
  new_entity_observers : SubscriberSet TypeId NewEntityListener;
  window_closed_observers : SubscriberSet unit Code;
}.

Inductive PendingInputListener := OnPendingInput (this : AnyWeakEntity) (f : Code).

Record Window := mkWindow {
  window_id : WindowId;
  focus : option FocusId;
  focus_enabled : bool;
  pending_input : bool;
  pending_input_observers : SubscriberSet unit PendingInputListener;
  refreshing : bool;
  removed : bool;
}.

(** The windows: a window that is being updated is out of its slot.  [invalidators] are
    the cells that the windows and [window_invalidators_by_entity] share. *)
Record Windows := mkWindows {
  windows : gmap WindowId (option Window);
  window_handles : gset WindowId;
  window_update_stack : list WindowId;
  invalidators : gmap WindowId WindowInvalidator;
  window_invalidators_by_entity : gmap EntityId (gset WindowId);
  tracked_entities : gmap WindowId (gset EntityId);
}.

(** A subscription that client code holds: the set, the emitter and the subscriber. *)
Inductive Held :=
| HeldObserver (emitter : EntityId) (id : nat)
| HeldListener (emitter : EntityId) (id : nat)
| HeldRelease (emitter : EntityId) (id : nat)
| HeldGlobal (global_type : TypeId) (id : nat)
| HeldNew (ty : TypeId) (id : nat)
| HeldClosed (id : nat).

(** A call of client code, with its arguments: a handle that it is given is in its table,
    under the key shown. *)
Inductive Call :=
| CallNotify (handle : Key)
| CallNotifyIn (this : EntityId) (handle : Key)
| CallGlobal
| CallGlobalIn (this : EntityId)
| CallEvent (handle : Key) (event : Value)
| CallEventIn (this : EntityId) (handle : Key) (event : Value)
| CallRelease (value : Value)
| CallReleaseIn (this : EntityId) (value : Value)
| CallNew (this : EntityId) (in_window : bool)
| CallDeferred
| CallClosed
| CallBuild (this : EntityId)
| CallUpdate (this : EntityId)
| CallWindow (window : WindowId)
| CallUpdateGlobal (global_type : TypeId)
| CallAction (action : Value)
| CallPendingInput (this : EntityId).

(** What client code holds, and the calls made to it. *)
Record ClientState := mkClient {
  held_entities : gmap Key AnyEntity;
  held_subscriptions : gmap Key Held;
  held_focus : gmap Key FocusId;
  next_key : Key;
  calls : list (Code * Call);
}.

Record App := mkApp {
  effects : Effects;
  listeners : Observers;
  wins : Windows;
  app_entities : EntityMap;
  globals_by_type : gmap TypeId Value;
  focus_slots : Slots;
  focus_handles : gmap FocusId nat;
  global_action_listeners : gmap TypeId (list Code);
  propagate_event : bool;
  quit_mode : QuitMode;
  quit_requested : bool;
  client : ClientState;
}.

Implicit Types (a : App) (w : option Window).

(** Replacing a part of the state. *)
Definition set_effects (e : Effects) a : App :=
  mkApp e (listeners a) (wins a) (app_entities a) (globals_by_type a) (focus_slots a) (focus_handles a)
    (global_action_listeners a) (propagate_event a) (quit_mode a) (quit_requested a) (client a).
Definition set_listeners (o : Observers) a : App :=
  mkApp (effects a) o (wins a) (app_entities a) (globals_by_type a) (focus_slots a) (focus_handles a)
    (global_action_listeners a) (propagate_event a) (quit_mode a) (quit_requested a) (client a).
Definition set_wins (x : Windows) a : App :=
  mkApp (effects a) (listeners a) x (app_entities a) (globals_by_type a) (focus_slots a) (focus_handles a)
    (global_action_listeners a) (propagate_event a) (quit_mode a) (quit_requested a) (client a).
Definition set_entities (m : EntityMap) a : App :=
  mkApp (effects a) (listeners a) (wins a) m (globals_by_type a) (focus_slots a) (focus_handles a)
    (global_action_listeners a) (propagate_event a) (quit_mode a) (quit_requested a) (client a).
Definition set_globals (g : gmap TypeId Value) a : App :=
  mkApp (effects a) (listeners a) (wins a) (app_entities a) g (focus_slots a) (focus_handles a)
    (global_action_listeners a) (propagate_event a) (quit_mode a) (quit_requested a) (client a).
Definition set_focus_handles (s : Slots) (f : gmap FocusId nat) a : App :=
  mkApp (effects a) (listeners a) (wins a) (app_entities a) (globals_by_type a) s f
    (global_action_listeners a) (propagate_event a) (quit_mode a) (quit_requested a) (client a).
Definition set_actions (l : gmap TypeId (list Code)) a : App :=
  mkApp (effects a) (listeners a) (wins a) (app_entities a) (globals_by_type a) (focus_slots a) (focus_handles a)
    l (propagate_event a) (quit_mode a) (quit_requested a) (client a).
Definition set_propagate (b : bool) a : App :=
  mkApp (effects a) (listeners a) (wins a) (app_entities a) (globals_by_type a) (focus_slots a) (focus_handles a)
    (global_action_listeners a) b (quit_mode a) (quit_requested a) (client a).
Definition set_client (c : ClientState) a : App :=
  mkApp (effects a) (listeners a) (wins a) (app_entities a) (globals_by_type a) (focus_slots a) (focus_handles a)
    (global_action_listeners a) (propagate_event a) (quit_mode a) (quit_requested a) c.

(** [App::quit]: a request to the platform. *)
Definition quit a : App :=
  mkApp (effects a) (listeners a) (wins a) (app_entities a) (globals_by_type a) (focus_slots a) (focus_handles a)
    (global_action_listeners a) (propagate_event a) (quit_mode a) true (client a).

(** The lenses for the subscriber sets. *)
Definition put_observers (s : SubscriberSet EntityId Handler) a : App :=
  let o := listeners a in
  set_listeners (mkObservers s (event_listeners o) (release_listeners o) (global_observers o) (new_entity_observers o) (window_closed_observers o)) a.
Definition put_event_listeners (s : SubscriberSet EntityId (TypeId * Listener)) a : App :=
  let o := listeners a in
  set_listeners (mkObservers (observers o) s (release_listeners o) (global_observers o) (new_entity_observers o) (window_closed_observers o)) a.
Definition put_release_listeners (s : SubscriberSet EntityId ReleaseListener) a : App :=
  let o := listeners a in
  set_listeners (mkObservers (observers o) (event_listeners o) s (global_observers o) (new_entity_observers o) (window_closed_observers o)) a.
Definition put_global_observers (s : SubscriberSet TypeId Handler) a : App :=
  let o := listeners a in
  set_listeners (mkObservers (observers o) (event_listeners o) (release_listeners o) s (new_entity_observers o) (window_closed_observers o)) a.
Definition put_new_entity_observers (s : SubscriberSet TypeId NewEntityListener) a : App :=
  let o := listeners a in
  set_listeners (mkObservers (observers o) (event_listeners o) (release_listeners o) (global_observers o) s (window_closed_observers o)) a.
Definition put_window_closed_observers (s : SubscriberSet unit Code) a : App :=
  let o := listeners a in
  set_listeners (mkObservers (observers o) (event_listeners o) (release_listeners o) (global_observers o) (new_entity_observers o) s) a.

(** ** The queue *)

Definition with_queue (l : list Effect) a : App :=
  let e := effects a in
  set_effects (mkEffects l (pending_notifications e) (pending_global_notifications e) (flushing_effects e) (pending_updates e)) a.

Definition with_notifications (s : gset EntityId) a : App :=
  let e := effects a in
  set_effects (mkEffects (pending_effects e) s (pending_global_notifications e) (flushing_effects e) (pending_updates e)) a.

Definition with_global_notifications (s : gset TypeId) a : App :=
  let e := effects a in
  set_effects (mkEffects (pending_effects e) (pending_notifications e) s (flushing_effects e) (pending_updates e)) a.

Definition with_flushing (b : bool) a : App :=
  let e := effects a in
  set_effects (mkEffects (pending_effects e) (pending_notifications e) (pending_global_notifications e) b (pending_updates e)) a.

Definition with_updates (n : nat) a : App :=
  let e := effects a in
  set_effects (mkEffects (pending_effects e) (pending_notifications e) (pending_global_notifications e) (flushing_effects e) n) a.

(** [pending_effects.push_back] *)
Definition push_back (e : Effect) a : App := with_queue (pending_effects (effects a) ++ [e]) a.

Definition push_effect (e : Effect) a : App :=
  match e with
  | Notify emitter =>
      if bool_decide (emitter ∈ pending_notifications (effects a)) then a
      else push_back e (with_notifications ({[emitter]} ∪ pending_notifications (effects a)) a)
  | NotifyGlobalObservers global_type =>
      if bool_decide (global_type ∈ pending_global_notifications (effects a)) then a
      else push_back e (with_global_notifications ({[global_type]} ∪ pending_global_notifications (effects a)) a)
  | _ => push_back e a
  end.

Definition defer (d : Deferred) a : App := push_effect (Defer d) a.

(** [refresh_windows], and the end of [bind_keys] and [clear_key_bindings]. *)
Definition refresh_windows a : App := push_back RefreshWindows a.

Definition emit (emitter : EntityId) (event : Value) a : App := push_back (Emit emitter (value_type event) event) a.

Definition start_update a : App := with_updates (pending_updates (effects a) + 1) a.

(** ** The windows' part of the state *)

Definition with_invalidators (m : gmap WindowId WindowInvalidator) a : App :=
  let x := wins a in
  set_wins (mkWindows (windows x) (window_handles x) (window_update_stack x) m (window_invalidators_by_entity x) (tracked_entities x)) a.

Definition with_tracking (by_entity : gmap EntityId (gset WindowId)) (tracked : gmap WindowId (gset EntityId)) a : App :=
  let x := wins a in
  set_wins (mkWindows (windows x) (window_handles x) (window_update_stack x) (invalidators x) by_entity tracked) a.

Definition with_windows (m : gmap WindowId (option Window)) (handles : gset WindowId) (stack : list WindowId) a : App :=
  let x := wins a in
  set_wins (mkWindows m handles stack (invalidators x) (window_invalidators_by_entity x) (tracked_entities x)) a.

Definition invalidator_of a (id : WindowId) : WindowInvalidator := default invalidator_new (invalidators (wins a) !! id).

(** [WindowInvalidator::invalidate_view] *)
Definition invalidate_view (id : WindowId) (entity : EntityId) a : App * bool :=
  let i := invalidator_of a id in
  let i := mkInvalidator (dirty i) (draw_phase i) ({[entity]} ∪ dirty_views i) (S (update_count i)) in
  if not_drawing i then
    let i := mkInvalidator true (draw_phase i) (dirty_views i) (update_count i) in
    (push_effect (Notify entity) (with_invalidators (<[id := i]> (invalidators (wins a))) a), true)
  else (with_invalidators (<[id := i]> (invalidators (wins a))) a, false).

(** [App::notify]: while the windows of the entity are told, its entry is empty. *)
Definition notify (entity_id : EntityId) a : App :=
  let window_invalidators := default ∅ (window_invalidators_by_entity (wins a) !! entity_id) in
  let a := with_tracking (<[entity_id := ∅]> (window_invalidators_by_entity (wins a))) (tracked_entities (wins a)) a in
  let a :=
    if bool_decide (window_invalidators = ∅) then
      if bool_decide (entity_id ∈ pending_notifications (effects a)) then a
      else push_back (Notify entity_id) (with_notifications ({[entity_id]} ∪ pending_notifications (effects a)) a)
    else fold_left (fun a id => (invalidate_view id entity_id a).1) (elements window_invalidators) a in
  with_tracking (<[entity_id := window_invalidators]> (window_invalidators_by_entity (wins a))) (tracked_entities (wins a)) a.

Definition record_entities_accessed (id : WindowId) (entities : gset EntityId) a : App :=
  let tracked := default ∅ (tracked_entities (wins a) !! id) in
  let m := window_invalidators_by_entity (wins a) in
  let m := fold_left (fun m e => alter (fun windows => windows ∖ {[id]}) e m) (elements tracked) m in
  let m := fold_left (fun m e => <[e := {[id]} ∪ default ∅ (m !! e)]> m) (elements entities) m in
  with_tracking m (<[id := entities]> (tracked_entities (wins a))) a.

(** [detect_accessed_entities]: the entities that [callback] accesses for the first time. *)
Definition detect_accessed_entities (callback : App -> outcome App) a : outcome (App * gset EntityId) :=
  let accessed_entities_start := accessed_entities (app_entities a) in
  let! a := callback a in
  Ok (a, accessed_entities (app_entities a) ∖ accessed_entities_start).

(** ** What client code holds *)

Definition with_client (es : gmap Key AnyEntity) (ss : gmap Key Held) (fs : gmap Key FocusId) (k : Key) a : App :=
  set_client (mkClient es ss fs k (calls (client a))) a.

Definition give_entity (h : AnyEntity) a : App * Key :=
  let c := client a in
  (with_client (<[next_key c := h]> (held_entities c)) (held_subscriptions c) (held_focus c) (S (next_key c)) a, next_key c).

Definition give_subscription (s : Held) a : App :=
  let c := client a in
  with_client (held_entities c) (<[next_key c := s]> (held_subscriptions c)) (held_focus c) (S (next_key c)) a.

Definition give_focus (id : FocusId) a : App :=
  let c := client a in
  with_client (held_entities c) (held_subscriptions c) (<[next_key c := id]> (held_focus c)) (S (next_key c)) a.

Definition forget_entity (k : Key) a : App :=
  let c := client a in with_client (delete k (held_entities c)) (held_subscriptions c) (held_focus c) (next_key c) a.

Definition forget_subscription (k : Key) a : App :=
  let c := client a in with_client (held_entities c) (delete k (held_subscriptions c)) (held_focus c) (next_key c) a.

Definition forget_focus (k : Key) a : App :=
  let c := client a in with_client (held_entities c) (held_subscriptions c) (delete k (held_focus c)) (next_key c) a.

Definition log_call (f : Code) (c : Call) a : App :=
  let s := client a in
  set_client (mkClient (held_entities s) (held_subscriptions s) (held_focus s) (next_key s) (calls s ++ [(f, c)])) a.

(** ** Handles, on the entities of the app *)

Definition app_clone (h : AnyEntity) a : outcome (App * AnyEntity) :=
  let! (m, h) := any_clone (Some (app_entities a)) h in
  Ok (set_entities (default (app_entities a) m) a, h).

Definition app_drop (h : AnyEntity) a : outcome App :=
  let! m := any_drop (Some (app_entities a)) h in
  Ok (set_entities (default (app_entities a) m) a).

Definition app_upgrade (x : AnyWeakEntity) a : App * option AnyEntity :=
  let '(m, h) := upgrade (Some (app_entities a)) x in
  (set_entities (default (app_entities a) m) a, h).

(** Dropping a subscription runs its [unsubscribe] on its set. *)
Definition drop_subscription (s : Held) a : App :=
  let o := listeners a in
  match s with
  | HeldObserver e id => put_observers (unsubscribe (observers o) e id) a
  | HeldListener e id => put_event_listeners (unsubscribe (event_listeners o) e id) a
  | HeldRelease e id => put_release_listeners (unsubscribe (release_listeners o) e id) a
  | HeldGlobal ty id => put_global_observers (unsubscribe (global_observers o) ty id) a
  | HeldNew ty id => put_new_entity_observers (unsubscribe (new_entity_observers o) ty id) a
  | HeldClosed id => put_window_closed_observers (unsubscribe (window_closed_observers o) tt id) a
  end.

Definition drop_held_entity (k : Key) a : outcome App :=
  match held_entities (client a) !! k with
  | Some h => app_drop h (forget_entity k a)
  | None => Ok a
  end.

Definition drop_held_subscription (k : Key) a : App :=
  match held_subscriptions (client a) !! k with
  | Some s => drop_subscription s (forget_subscription k a)
  | None => a
  end.

(** [impl Drop for FocusHandle]: the count of the handle's entry. *)
Definition drop_held_focus (k : Key) a : App :=
  match held_focus (client a) !! k with
  | Some id => set_focus_handles (focus_slots a) (alter pred id (focus_handles a)) (forget_focus k a)
  | None => a
  end.

(** [FocusHandle::new] *)
Definition focus_handle a : App * FocusId :=
  let (id, s) := slots_insert (focus_slots a) in
  (set_focus_handles s (<[id := 1]> (focus_handles a)) a, id).

(** ** Subscribing *)

Definition new_observer (key : EntityId) (value : Handler) a : App * Held :=
  let '(s, id, cell) := Subscription.insert (observers (listeners a)) key value in
  (defer (ActivateObserver cell) (put_observers s a), HeldObserver key id).

Definition new_subscription (key : EntityId) (value : TypeId * Listener) a : App * Held :=
  let '(s, id, cell) := Subscription.insert (event_listeners (listeners a)) key value in
  (defer (ActivateListener cell) (put_event_listeners s a), HeldListener key id).

Definition new_global_observer (global_type : TypeId) (value : Handler) a : App * Held :=
  let '(s, id, cell) := Subscription.insert (global_observers (listeners a)) global_type value in
  (defer (ActivateGlobal cell) (put_global_observers s a), HeldGlobal global_type id).

Definition new_entity_observer (key : TypeId) (value : NewEntityListener) a : App * Held :=
  let '(s, id, cell) := Subscription.insert (new_entity_observers (listeners a)) key value in
  (put_new_entity_observers (activate s cell) a, HeldNew key id).

Definition new_release_listener (key : EntityId) (value : ReleaseListener) a : App * Held :=
  let '(s, id, cell) := Subscription.insert (release_listeners (listeners a)) key value in
  (put_release_listeners (activate s cell) a, HeldRelease key id).

Definition on_window_closed (value : Code) a : App * Held :=
  let '(s, id, cell) := Subscription.insert (window_closed_observers (listeners a)) tt value in
  (put_window_closed_observers (activate s cell) a, HeldClosed id).

(** [observe_internal] and [subscribe_internal] hold the emitter weakly. *)
Definition observe (entity : AnyEntity) (f : Code) a : App * Held :=
  new_observer (entity_id entity) (OnNotify (downgrade entity) f) a.

Definition observe_in (this : AnyWeakEntity) (entity : AnyEntity) (f : Code) a : App * Held :=
  new_observer (entity_id entity) (OnNotifyIn (downgrade entity) this f) a.

Definition subscribe (entity : AnyEntity) (evt : TypeId) (f : Code) a : App * Held :=
  new_subscription (entity_id entity) (evt, OnEvent (downgrade entity) evt f) a.

Definition subscribe_in (this : AnyWeakEntity) (entity : AnyEntity) (evt : TypeId) (f : Code) a : App * Held :=
  new_subscription (entity_id entity) (evt, OnEventIn (downgrade entity) this evt f) a.

Definition observe_global (global_type : TypeId) (f : Code) a : App * Held := new_global_observer global_type (OnGlobal f) a.

Definition observe_global_in (this : AnyWeakEntity) (global_type : TypeId) (f : Code) a : App * Held :=
  new_global_observer global_type (OnGlobalIn this f) a.

Definition observe_new (ty : TypeId) (f : Code) a : App * Held := new_entity_observer ty (OnNew ty f) a.

Definition observe_release (entity : AnyEntity) (f : Code) a : App * Held :=
  new_release_listener (entity_id entity) (OnRelease (entity_type entity) f) a.

Definition observe_release_in (this : AnyWeakEntity) (entity : AnyEntity) (f : Code) a : App * Held :=
  new_release_listener (entity_id entity) (OnReleaseIn this (entity_type entity) f) a.

(** [Context::on_release] *)
Definition on_release (this : AnyWeakEntity) (f : Code) a : App * Held :=
  new_release_listener (weak_entity_id this) (OnRelease (weak_entity_type this) f) a.

(** [App::on_action]: the listener is called in the bubble phase only. *)
Definition on_action (ty : TypeId) (f : Code) a : App :=
  set_actions (<[ty := default [] (global_action_listeners a !! ty) ++ [f]]> (global_action_listeners a)) a.

(** ** Globals *)

Definition has_global (ty : TypeId) a : bool := match globals_by_type a !! ty with Some _ => true | None => false end.

(** [try_global], and [global], which panics when there is none. *)
Definition try_global (ty : TypeId) a : option Value := globals_by_type a !! ty.
Definition global (ty : TypeId) a : outcome Value := unwrap (try_global ty a).

Definition set_global (v : Value) a : App :=
  let a := push_effect (NotifyGlobalObservers (value_type v)) a in
  set_globals (<[value_type v := v]> (globals_by_type a)) a.

(** [global_mut] and a write through the reference that it gives. *)
Definition global_mut (ty : TypeId) (write : Value -> Value) a : outcome App :=
  let a := push_effect (NotifyGlobalObservers ty) a in
  let! v := unwrap (globals_by_type a !! ty) in
  Ok (set_globals (<[ty := write v]> (globals_by_type a)) a).

(** [default_global] with the default value of the type, and a write. *)
Definition default_global (dflt : Value) (write : Value -> Value) a : App :=
  let ty := value_type dflt in
  let a := push_effect (NotifyGlobalObservers ty) a in
  set_globals (<[ty := write (default dflt (globals_by_type a !! ty))]> (globals_by_type a)) a.

Definition remove_global (ty : TypeId) a : outcome (App * Value) :=
  let a := push_effect (NotifyGlobalObservers ty) a in
  let! v := unwrap (globals_by_type a !! ty) in
  Ok (set_globals (delete ty (globals_by_type a)) a, v).

Definition lease_global (ty : TypeId) a : outcome (App * Value) :=
  let! v := unwrap (globals_by_type a !! ty) in
  Ok (set_globals (delete ty (globals_by_type a)) a, v).

Definition end_global_lease (ty : TypeId) (v : Value) a : App :=
  let a := push_effect (NotifyGlobalObservers ty) a in
  set_globals (<[ty := v]> (globals_by_type a)) a.

(** ** Windows *)

Definition with_focus (f : option FocusId) (w : Window) : Window :=
  mkWindow (window_id w) f (focus_enabled w) (pending_input w) (pending_input_observers w) (refreshing w) (removed w).

(** [Window::refresh] *)
Definition refresh (w : Window) a : App * Window :=
  let i := invalidator_of a (window_id w) in
  if not_drawing i then
    (with_invalidators (<[window_id w := set_dirty i true]> (invalidators (wins a))) a,
     mkWindow (window_id w) (focus w) (focus_enabled w) (pending_input w) (pending_input_observers w) true (removed w))
  else (a, w).

Definition remove_window (w : Window) : Window :=
  mkWindow (window_id w) (focus w) (focus_enabled w) (pending_input w) (pending_input_observers w) (refreshing w) true.

Definition clear_pending_keystrokes (w : Window) a : App * Window :=
  if pending_input w then
    (defer (PendingInputChanged (window_id w)) a,
     mkWindow (window_id w) (focus w) (focus_enabled w) false (pending_input_observers w) (refreshing w) (removed w))
  else (a, w).

Definition window_focus (id : FocusId) (w : Window) a : App * Window :=
  if negb (focus_enabled w) || bool_decide (focus w = Some id) then (a, w)
  else
    refresh (mkWindow (window_id w) (Some id) (focus_enabled w) false (pending_input_observers w) (refreshing w) (removed w)) a.

Definition blur (w : Window) a : App * Window :=
  let (a, w) := clear_pending_keystrokes w a in
  if negb (focus_enabled w) then (a, w) else refresh (with_focus None w) a.

Definition disable_focus (w : Window) a : App * Window :=
  let (a, w) := blur w a in
  (a, mkWindow (window_id w) (focus w) false (pending_input w) (pending_input_observers w) (refreshing w) (removed w)).

(** [Context::observe_pending_input] *)
Definition observe_pending_input (this : AnyWeakEntity) (f : Code) (w : Window) : Window :=
  let '(s, _, cell) := Subscription.insert (pending_input_observers w) tt (OnPendingInput this f) in
  mkWindow (window_id w) (focus w) (focus_enabled w) (pending_input w) (activate s cell) (refreshing w) (removed w).

(** ** The calls of client code *)

Inductive Command :=
| CNotify (id : EntityId)
| CEmit (event : Value)
| CDefer (f : Code)
| CRefreshWindows
| CNew (ty : TypeId) (f : Code)
| CReserve (ty : TypeId)
| CInsert (slot : Key) (f : Code)
| CUpdateEntity (handle : Key) (f : Code)
| CClone (handle : Key)
| CDrop (handle : Key)
| CUpdate (f : Code)
| CObserve (entity : Key) (f : Code)
| CObserveIn (entity : Key) (f : Code)
| CSubscribe (entity : Key) (evt : TypeId) (f : Code)
| CSubscribeIn (entity : Key) (evt : TypeId) (f : Code)
| CObserveGlobal (ty : TypeId) (f : Code)
| CObserveGlobalIn (ty : TypeId) (f : Code)
| CObserveNew (ty : TypeId) (f : Code)
| CObserveRelease (entity : Key) (f : Code)
| CObserveReleaseIn (entity : Key) (f : Code)
| COnRelease (f : Code)
| COnWindowClosed (f : Code)
| CDropSubscription (s : Key)
| CDetach (s : Key)
| CSetGlobal (v : Value)
| CGlobalMut (ty : TypeId) (v : Value)
| CDefaultGlobal (dflt v : Value)
| CRemoveGlobal (ty : TypeId)
| CUpdateGlobal (ty : TypeId) (f : Code)
| COnAction (ty : TypeId) (f : Code)
| CDispatchGlobalAction (action : Value)
| CStopPropagation
| CPropagate
| CFocusHandle
| CDropFocus (handle : Key)
| CUpdateWindow (id : WindowId) (f : Code)
| CRemoveWindow
| CWindowRefresh
| CFocus (handle : Key)
| CBlur
| CDisableFocus
| CObservePendingInput (f : Code).

(** The code that uses the app: the commands that a call of it executes, the value it
    leaves in the state it is lent, the state it builds for a new entity, and the keys of
    the handles and subscriptions that an entity's state owns. *)
Class Client := {
  script : Code -> Call -> App -> list Command;
  mutate : Code -> Call -> App -> Value -> Value;
  build : Code -> Call -> App -> Value;
  value_owns : Value -> list Key * list Key;
}.

Context `{Client} (target_macos : bool).

(** An entity's state is dropped with what it owns. *)
Definition drop_value (v : Value) a : outcome App :=
  let (hs, ss) := value_owns v in
  let! a := ofold (fun a k => drop_held_entity k a) hs a in
  Ok (fold_left (fun a k => drop_held_subscription k a) ss a).

Section Open.
(** The execution of commands in the context of an entity and of a window, and the
    effect loop. *)
Context (run : option AnyWeakEntity -> list Command -> App * option Window -> outcome (App * option Window)).
Context (flush : App -> outcome App).

Definition call_code (f : Code) (c : Call) (this : option AnyWeakEntity) w a : outcome (App * option Window) :=
  run this (script f c a) (log_call f c a, w).

(** *** Updates *)

Definition finish_update a : outcome App :=
  let! a := (if negb (flushing_effects (effects a)) && (pending_updates (effects a) =? 1) then
               let! a := flush (with_flushing true a) in Ok (with_flushing false a)
             else Ok a) in
  let! n := usize_pred (pending_updates (effects a)) in
  Ok (with_updates n a).

Definition update {R} (f : App -> outcome (App * R)) a : outcome (App * R) :=
  let! (a, r) := f (start_update a) in
  let! a := finish_update a in
  Ok (a, r).

(** [AppContext::update_entity]: the state is leased while the code runs. *)
Definition update_entity (handle : AnyEntity) (f : Code) (c : Call) w a : outcome (App * option Window) :=
  update (fun a =>
    let! (m, l) := EntityMap.lease (app_entities a) handle in
    let a := set_entities m a in
    let! v := lease_deref value_type l (entity_type handle) in
    let! l := lease_write value_type l (mutate f c a v) in
    let! (a, w) := call_code f c (Some (downgrade handle)) w a in
    let! m := end_lease (app_entities a) l in
    Ok (set_entities m a, w)) a.

(** [WeakEntity::update]: whether the entity was there. *)
Definition weak_update (this : AnyWeakEntity) (f : Code) (c : Call) w a : outcome (App * option Window * bool) :=
  match app_upgrade this a with
  | (a, None) => Ok (a, w, false)
  | (a, Some h) =>
      let! (a, w) := update_entity h f c w a in
      let! a := app_drop h a in
      Ok (a, w, true)
  end.

(** [AppContext::new] *)
Definition new_entity (ty : TypeId) (f : Code) a : outcome (App * AnyEntity) :=
  update (fun a =>
    let (m, slot) := EntityMap.reserve (app_entities a) ty in
    let a := set_entities m a in
    let! (a, handle) := app_clone slot a in
    let c := CallBuild (entity_id slot) in
    let entity := build f c a in
    let! (a, _) := call_code f c (Some (downgrade slot)) None a in
    let! (a, created) := app_clone handle a in
    let a := push_effect (EntityCreated created ty (last (window_update_stack (wins a)))) a in
    let (m, slot) := EntityMap.insert (app_entities a) slot entity in
    let! a := app_drop slot (set_entities m a) in
    Ok (a, handle)) a.

(** [reserve_entity] and [insert_entity] *)
Definition reserve_entity (ty : TypeId) a : App * AnyEntity :=
  let (m, slot) := EntityMap.reserve (app_entities a) ty in (set_entities m a, slot).

Definition insert_entity (slot : AnyEntity) (f : Code) a : outcome (App * AnyEntity) :=
  update (fun a =>
    let c := CallBuild (entity_id slot) in
    let entity := build f c a in
    let! (a, _) := call_code f c (Some (downgrade slot)) None a in
    let (m, h) := EntityMap.insert (app_entities a) slot entity in
    Ok (set_entities m a, h)) a.

(** [update_global] *)
Definition update_global (ty : TypeId) (f : Code) a : outcome App :=
  let! (a, v) := lease_global ty a in
  let c := CallUpdateGlobal ty in
  let v := mutate f c a v in
  let! (a, _) := call_code f c None None a in
  Ok (end_global_lease ty v a).

(** *** The callbacks *)

Definition call_handler a (h : Handler) : outcome (App * Handler * bool) :=
  match h with
  | OnNotify handle f =>
      match app_upgrade handle a with
      | (a, None) => Ok (a, h, false)
      | (a, Some entity) =>
          let (a, k) := give_entity entity a in
          let! (a, _) := call_code f (CallNotify k) None None a in
          Ok (a, h, true)
      end
  | OnNotifyIn handle this f =>
      match app_upgrade handle a with
      | (a, None) => Ok (a, h, false)
      | (a, Some entity) =>
          match app_upgrade this a with
          | (a, None) => let! a := app_drop entity a in Ok (a, h, false)
          | (a, Some this) =>
              let (a, k) := give_entity entity a in
              let! (a, _) := update_entity this f (CallNotifyIn (entity_id this) k) None a in
              let! a := app_drop this a in
              Ok (a, h, true)
          end
      end
  | OnGlobal f =>
      let! (a, _) := call_code f CallGlobal None None a in
      Ok (a, h, true)
  | OnGlobalIn this f =>
      let! (a, _, there) := weak_update this f (CallGlobalIn (weak_entity_id this)) None a in
      Ok (a, h, there)
  end.

(** The closures of [subscribe_internal]: the event is downcast first. *)
Definition call_listener (event : Value) a (l : Listener) : outcome (App * Listener * bool) :=
  match l with
  | OnEvent handle evt f =>
      if negb (value_type event =? evt)%N then Panic
      else
        match app_upgrade handle a with
        | (a, None) => Ok (a, l, false)
        | (a, Some entity) =>
            let (a, k) := give_entity entity a in
            let! (a, _) := call_code f (CallEvent k event) None None a in
            Ok (a, l, true)
        end
  | OnEventIn handle this evt f =>
      if negb (value_type event =? evt)%N then Panic
      else
        match app_upgrade handle a with
        | (a, None) => Ok (a, l, false)
        | (a, Some entity) =>
            match app_upgrade this a with
            | (a, None) => let! a := app_drop entity a in Ok (a, l, false)
            | (a, Some this) =>
                let (a, k) := give_entity entity a in
                let! (a, _) := update_entity this f (CallEventIn (entity_id this) k event) None a in
                let! a := app_drop this a in
                Ok (a, l, true)
            end
        end
  end.

(** A release callback is lent the released state, which it may change. *)
Definition call_release_listener (released : App * Value) (l : ReleaseListener) : outcome (App * Value) :=
  let (a, v) := released in
  match l with
  | OnRelease ty f =>
      if negb (value_type v =? ty)%N then Panic
      else
        let v' := mutate f (CallRelease v) a v in
        let! (a, _) := call_code f (CallRelease v) None None a in
        Ok (a, v')
  | OnReleaseIn this ty f =>
      if negb (value_type v =? ty)%N then Panic
      else
        let v' := mutate f (CallRelease v) a v in
        let! (a, _, there) := weak_update this f (CallReleaseIn (weak_entity_id this) v) None a in
        Ok (a, if (there : bool) then v' else v)
  end.

Definition call_new_listener (entity : AnyEntity) (in_window : bool) w a (l : NewEntityListener) : outcome (App * option Window) :=
  match l with
  | OnNew ty f =>
      if negb (entity_type entity =? ty)%N then Panic
      else
        let! (a, w) := update_entity entity f (CallNew (entity_id entity) in_window) w a in
        let! a := app_drop entity a in
        Ok (a, w)
  end.

(** [update_window_id]: [None] when the window is not found. *)
Definition update_window_id (id : WindowId) (f : App -> Window -> outcome (App * Window)) a : outcome (App * option unit) :=
  update (fun a =>
    match windows (wins a) !! id with
    | Some (Some window) =>
        let x := wins a in
        let a := with_windows (<[id := None]> (windows x)) (window_handles x) (window_update_stack x ++ [window_id window]) a in
        let! (a, window) := f a window in
        let x := wins a in
        let a := with_windows (windows x) (window_handles x) (removelast (window_update_stack x)) a in
        let x := wins a in
        if removed window then
          let a := with_windows (delete id (windows x)) (window_handles x ∖ {[id]}) (window_update_stack x) a in
          let! a := retain_in (fun a => window_closed_observers (listeners a)) put_window_closed_observers a tt (fun a f =>
            let! (a, _) := call_code f CallClosed None None a in Ok (a, f, true)) in
          let quit_on_empty := match quit_mode a with Explicit => false | LastWindowClosed => true | QuitDefault => negb target_macos end in
          Ok (if quit_on_empty && bool_decide (windows (wins a) = ∅) then quit a else a, Some tt)
        else
          match windows x !! id with
          | None => Ok (a, None)
          | Some _ => Ok (with_windows (<[id := Some window]> (windows x)) (window_handles x) (window_update_stack x) a, Some tt)
          end
    | _ => Ok (a, None)
    end) a.

(** [Window::pending_input_changed]; the window is in use while its observers are called. *)
Definition pending_input_changed a (window : Window) : outcome (App * Window) :=
  retain_in (fun st : App * Window => pending_input_observers st.2)
    (fun s st => (st.1, mkWindow (window_id st.2) (focus st.2) (focus_enabled st.2) (pending_input st.2) s (refreshing st.2) (removed st.2)))
    (a, window) tt (fun st l =>
      match l with
      | OnPendingInput this f =>
          let! (a, w, there) := weak_update this f (CallPendingInput (weak_entity_id this)) (Some st.2) st.1 in
          Ok ((a, default st.2 w), l, there)
      end).

(** *** Applying effects *)

Definition apply_notify_effect (emitter : EntityId) a : outcome App :=
  let a := with_notifications (pending_notifications (effects a) ∖ {[emitter]}) a in
  retain_in (fun a => observers (listeners a)) put_observers a emitter call_handler.

Definition apply_emit_effect (emitter : EntityId) (event_type : TypeId) (event : Value) a : outcome App :=
  retain_in (fun a => event_listeners (listeners a)) put_event_listeners a emitter (fun a p =>
    let '(stored_type, handler) := p in
    if (stored_type =? event_type)%N then
      let! (a, handler, keep) := call_listener event a handler in Ok (a, (stored_type, handler), keep)
    else Ok (a, p, true)).

Definition apply_refresh_effect a : App :=
  let x := wins a in
  let a := with_windows (fmap (M := gmap WindowId) (option_map (fun w : Window =>
    mkWindow (window_id w) (focus w) (focus_enabled w) (pending_input w) (pending_input_observers w) true (removed w))) (windows x))
    (window_handles x) (window_update_stack x) a in
  fold_left (fun a (p : WindowId * option Window) =>
    match p.2 with
    | Some w => with_invalidators (<[window_id w := set_dirty (invalidator_of a (window_id w)) true]> (invalidators (wins a))) a
    | None => a
    end) (map_to_list (windows x)) a.

Definition apply_notify_global_observers_effect (ty : TypeId) a : outcome App :=
  let a := with_global_notifications (pending_global_notifications (effects a) ∖ {[ty]}) a in
  retain_in (fun a => global_observers (listeners a)) put_global_observers a ty call_handler.

Definition apply_defer_effect (d : Deferred) a : outcome App :=
  match d with
  | ActivateObserver cell => Ok (put_observers (activate (observers (listeners a)) cell) a)
  | ActivateListener cell => Ok (put_event_listeners (activate (event_listeners (listeners a)) cell) a)
  | ActivateGlobal cell => Ok (put_global_observers (activate (global_observers (listeners a)) cell) a)
  | PendingInputChanged id => let! (a, _) := update_window_id id pending_input_changed a in Ok a
  | Run f => let! (a, _) := call_code f CallDeferred None None a in Ok a
  end.

(** The observers see the entity through a handle of their own; in a window that is gone
    the [expect] fails. *)
Definition apply_entity_created_effect (entity : AnyEntity) (tid : TypeId) (window : option WindowId) a : outcome App :=
  let! a := retain_in (fun a => new_entity_observers (listeners a)) put_new_entity_observers a tid (fun a observer =>
    let! (a, handle) := app_clone entity a in
    match window with
    | Some id =>
        let! (a, found) := update_window_id id (fun a window =>
          let! (a, w) := call_new_listener handle true (Some window) a observer in
          Ok (a, default window w)) a in
        let! _ := unwrap found in
        Ok (a, observer, true)
    | None =>
        let! (a, _) := call_new_listener handle false None a observer in
        Ok (a, observer, true)
    end) in
  app_drop entity a.

Definition apply_effect (e : Effect) a : outcome App :=
  match e with
  | Notify emitter => apply_notify_effect emitter a
  | Emit emitter event_type event => apply_emit_effect emitter event_type event a
  | RefreshWindows => Ok (apply_refresh_effect a)
  | NotifyGlobalObservers ty => apply_notify_global_observers_effect ty a
  | Defer d => apply_defer_effect d a
  | EntityCreated entity tid window => apply_entity_created_effect entity tid window a
  end.

(** *** Releasing *)

(** The body of the loop of [release_dropped_entities]: the entity's subscribers go, its
    release callbacks are called, and its state is dropped. *)
Definition release_entity (dropped : EntityId * Value) a : outcome App :=
  let (id, v) := dropped in
  let a := put_observers (Subscription.remove (observers (listeners a)) id).1 a in
  let a := put_event_listeners (Subscription.remove (event_listeners (listeners a)) id).1 a in
  let '(s, callbacks) := Subscription.remove (release_listeners (listeners a)) id in
  let! (a, v) := ofold call_release_listener callbacks (put_release_listeners s a, v) in
  drop_value v a.

Fixpoint release_dropped_entities (fuel : nat) a : outcome App :=
  match fuel with
  | O => OutOfFuel
  | S fuel =>
      let! (m, dropped) := take_dropped (app_entities a) in
      let a := set_entities m a in
      match dropped with
      | [] => Ok a
      | _ :: _ => let! a := ofold (fun a d => release_entity d a) dropped a in release_dropped_entities fuel a
      end
  end.

(** [App::windows] *)
Definition app_windows a : list WindowId :=
  List.filter (fun id => bool_decide (id ∈ window_handles (wins a))) (map fst (map_to_list (windows (wins a)))).

Definition release_dropped_focus_handles a : outcome App :=
  ofold (fun a (p : FocusId * nat) =>
    let (handle_id, ref_count) := p in
    if ref_count =? 0 then
      let! a := ofold (fun a id =>
        let! (a, found) := update_window_id id (fun a window =>
          Ok (if bool_decide (focus window = Some handle_id) then blur window a else (a, window))) a in
        let! _ := unwrap found in Ok a) (app_windows a) a in
      Ok (set_focus_handles (slots_remove (focus_slots a) handle_id) (delete handle_id (focus_handles a)) a)
    else Ok a) (map_to_list (focus_handles a)) a.

(** *** Global actions *)

(** The loop over the listeners of an action: it ends when one stops propagation. *)
Fixpoint call_actions (phase : DispatchPhase) (action : Value) (fs : list Code) a : outcome App :=
  match fs with
  | [] => Ok a
  | f :: fs =>
      let! a := (match phase with
                 | Bubble => let! (a, _) := call_code f (CallAction action) None None a in Ok a
                 | Capture => Ok a
                 end) in
      if propagate_event a then call_actions phase action fs a else Ok a
  end.

(** One phase: the listeners are out of the map while they are called, and those added
    meanwhile come after them. *)
Definition dispatch_phase (phase : DispatchPhase) (action : Value) a : outcome App :=
  let ty := value_type action in
  match global_action_listeners a !! ty with
  | None => Ok a
  | Some fs =>
      let a := set_actions (delete ty (global_action_listeners a)) a in
      let! a := call_actions phase action (match phase with Capture => fs | Bubble => rev fs end) a in
      Ok (set_actions (<[ty := fs ++ default [] (global_action_listeners a !! ty)]> (global_action_listeners a)) a)
  end.

Definition dispatch_global_action (action : Value) a : outcome App :=
  let! a := dispatch_phase Capture action (set_propagate true a) in
  if propagate_event a then dispatch_phase Bubble action a else Ok a.

(** *** Commands *)

(** An operation on a handle that the client holds. *)
Definition with_held (k : Key) (st : App * option Window) (f : AnyEntity -> outcome (App * option Window)) : outcome (App * option Window) :=
  match held_entities (client st.1) !! k with Some h => f h | None => Ok st end.

Definition with_this (this : option AnyWeakEntity) (st : App * option Window) (f : AnyWeakEntity -> App * option Window) : App * option Window :=
  match this with Some x => f x | None => st end.

(** A subscription that is returned to the client. *)
Definition hold (r : App * Held) : App := give_subscription r.2 r.1.

(** A step on the window in use. *)
Definition in_window (st : App * option Window) (f : App -> Window -> App * Window) : App * option Window :=
  match st.2 with
  | Some w => let (a, w) := f st.1 w in (a, Some w)
  | None => st
  end.

Definition run_command (this : option AnyWeakEntity) (st : App * option Window) (c : Command) : outcome (App * option Window) :=
  let (a, w) := st in
  match c with
  | CNotify id => Ok (notify id a, w)
  | CEmit event => Ok (with_this this st (fun x => (emit (weak_entity_id x) event a, w)))
  | CDefer f => Ok (defer (Run f) a, w)
  | CRefreshWindows => Ok (refresh_windows a, w)
  | CNew ty f => let! (a, h) := new_entity ty f a in Ok ((give_entity h a).1, w)
  | CReserve ty => let (a, h) := reserve_entity ty a in Ok ((give_entity h a).1, w)
  | CInsert slot f =>
      with_held slot st (fun h => let! (a, h) := insert_entity h f (forget_entity slot a) in Ok ((give_entity h a).1, w))
  | CUpdateEntity k f => with_held k st (fun h => update_entity h f (CallUpdate (entity_id h)) w a)
  | CClone k => with_held k st (fun h => let! (a, h) := app_clone h a in Ok ((give_entity h a).1, w))
  | CDrop k => let! a := drop_held_entity k a in Ok (a, w)
  | CUpdate f => update (fun a => call_code f CallDeferred this w a) a
  | CObserve k f => with_held k st (fun h => Ok (hold (observe h f a), w))
  | CObserveIn k f => with_held k st (fun h => Ok (with_this this st (fun x => (hold (observe_in x h f a), w))))
  | CSubscribe k evt f => with_held k st (fun h => Ok (hold (subscribe h evt f a), w))
  | CSubscribeIn k evt f => with_held k st (fun h => Ok (with_this this st (fun x => (hold (subscribe_in x h evt f a), w))))
  | CObserveGlobal ty f => Ok (hold (observe_global ty f a), w)
  | CObserveGlobalIn ty f => Ok (with_this this st (fun x => (hold (observe_global_in x ty f a), w)))
  | CObserveNew ty f => Ok (hold (observe_new ty f a), w)
  | CObserveRelease k f => with_held k st (fun h => Ok (hold (observe_release h f a), w))
  | CObserveReleaseIn k f => with_held k st (fun h => Ok (with_this this st (fun x => (hold (observe_release_in x h f a), w))))
  | COnRelease f => Ok (with_this this st (fun x => (hold (on_release x f a), w)))
  | COnWindowClosed f => Ok (hold (on_window_closed f a), w)
  | CDropSubscription k => Ok (drop_held_subscription k a, w)
  | CDetach k => Ok (forget_subscription k a, w)
  | CSetGlobal v => Ok (set_global v a, w)
  | CGlobalMut ty v => let! a := global_mut ty (fun _ => v) a in Ok (a, w)
  | CDefaultGlobal dflt v => Ok (default_global dflt (fun _ => v) a, w)
  | CRemoveGlobal ty => let! (a, _) := remove_global ty a in Ok (a, w)
  | CUpdateGlobal ty f => let! a := update_global ty f a in Ok (a, w)
  | COnAction ty f => Ok (on_action ty f a, w)
  | CDispatchGlobalAction action => let! a := dispatch_global_action action a in Ok (a, w)
  | CStopPropagation => Ok (set_propagate false a, w)
  | CPropagate => Ok (set_propagate true a, w)
  | CFocusHandle => let (a, id) := focus_handle a in Ok (give_focus id a, w)
  | CDropFocus k => Ok (drop_held_focus k a, w)
  | CUpdateWindow id f =>
      let! (a, _) := update_window_id id (fun a window =>
        let! (a, w) := call_code f (CallWindow id) None (Some window) a in Ok (a, default window w)) a in
      Ok (a, w)
  | CRemoveWindow => Ok (in_window st (fun a x => (a, remove_window x)))
  | CWindowRefresh => Ok (in_window st (fun a x => refresh x a))
  | CFocus k =>
      Ok (match held_focus (client a) !! k with Some id => in_window st (fun a x => window_focus id x a) | None => st end)
  | CBlur => Ok (in_window st (fun a x => blur x a))
  | CDisableFocus => Ok (in_window st (fun a x => disable_focus x a))
  | CObservePendingInput f =>
      Ok (match this with Some x => in_window st (fun a y => (a, observe_pending_input x f y)) | None => st end)
  end.

Definition run_commands (this : option AnyWeakEntity) (cs : list Command) (st : App * option Window) : outcome (App * option Window) :=
  ofold (run_command this) cs st.
End Open.

(** ** Tying the knot *)

(** [exec]: the commands of a call, nested calls with less fuel.  [flush_effects]: an
    iteration of its loop per unit of fuel. *)
Fixpoint exec (fuel : nat) (this : option AnyWeakEntity) (cs : list Command) (st : App * option Window) : outcome (App * option Window) :=
  match fuel with
  | O => OutOfFuel
  | S fuel => run_commands (exec fuel) (flush_effects fuel) this cs st
  end
with flush_effects (fuel : nat) a : outcome App :=
  match fuel with
  | O => OutOfFuel
  | S fuel =>
      let! a := release_dropped_entities (exec fuel) (flush_effects fuel) fuel a in
      let! a := release_dropped_focus_handles (exec fuel) (flush_effects fuel) a in
      match pending_effects (effects a) with
      | e :: rest =>
          let! a := apply_effect (exec fuel) (flush_effects fuel) e (with_queue rest a) in
          flush_effects fuel a
      | [] => Ok a
      end
  end.

(** Client code that enters the app: it runs in an update. *)
Definition enter (fuel : nat) (f : Code) a : outcome App :=
  let! (a, _) := update (flush_effects fuel) (fun a => call_code (exec fuel) f CallDeferred None None a) a in
  Ok a.

(** [App::new_app], with no window. *)
Definition app_new : App :=
  mkApp (mkEffects [] ∅ ∅ false 0) (mkObservers set_new set_new set_new set_new set_new set_new)
    (mkWindows ∅ ∅ [] ∅ ∅ ∅) map_new ∅ slots_new ∅ ∅ true QuitDefault false (mkClient ∅ ∅ ∅ 0 []).
End App.
