(* ===== verification/AppQueue.v ===== *)
(** * The effect queue of the app

    Client code that runs in an update only adds to the queue ([later]): it leaves what is
    pending where it is, it never applies an effect, and it keeps the invariants of the
    queue, of the windows and of the tracking of entities by windows ([app_ok]).  Applying
    an effect ([apply_effect_popped]) and the whole loop ([flush_ok]) keep them too. *)

From Stdlib Require Import NArith.
From stdpp Require Import base list option numbers gmap.
From S2P Require Import Prelude Subscription EntityMap App.

#[local] Set Warnings "-register-all,-clear-no-such-hyp".

Section Queue.
Context {Value : Type} (value_type : Value -> TypeId).
Context `{SlotKeys Slots}.
Context {Code : Type}.

#[local] Abbreviation App := (App (Value := Value) (Slots := Slots) (Code := Code)).
#[local] Abbreviation Effect := (Effect (Value := Value) (Code := Code)).
#[local] Abbreviation Effects := (Effects (Value := Value) (Code := Code)).
#[local] Abbreviation Window := (Window (Code := Code)).
#[local] Abbreviation Windows := (Windows (Code := Code)).
#[local] Abbreviation Command := (Command (Value := Value) (Code := Code)).
Implicit Types (a : App) (w : option Window).

(** ** Invariants *)

(** The emitters of the notifications in a queue, in order. *)
Definition notified (q : list Effect) : list EntityId :=
  omap (fun e : Effect => match e with Notify id => Some id | _ => None end) q.

Definition notified_globals (q : list Effect) : list TypeId :=
  omap (fun e : Effect => match e with NotifyGlobalObservers ty => Some ty | _ => None end) q.

(** The sets of pending notifications are those of the queue, which has each once. *)
Record queue_ok (e : Effects) : Prop := mkQueueOk {
  qo_notifications : pending_notifications e = list_to_set (notified (pending_effects e));
  qo_notified : NoDup (notified (pending_effects e));
  qo_globals : pending_global_notifications e = list_to_set (notified_globals (pending_effects e));
  qo_notified_globals : NoDup (notified_globals (pending_effects e));
}.

(** The two maps between entities and the windows that show them agree. *)
Definition tracking_ok (x : Windows) : Prop :=
  forall e id, id ∈ default ∅ (window_invalidators_by_entity x !! e) <-> e ∈ default ∅ (tracked_entities x !! id).

(** A window in its slot is not marked as removed, and knows its identifier. *)
Definition windows_ok (x : Windows) : Prop :=
  forall id win, windows x !! id = Some (Some win) -> removed win = false /\ window_id win = id.

Record app_ok a : Prop := mkAppOk {
  ao_queue : queue_ok (effects a);
  ao_tracking : tracking_ok (wins a);
  ao_windows : windows_ok (wins a);
}.

(** ** What code that runs in an update does *)

Definition busy a : Prop := 1 <= pending_updates (effects a).

Record extends (a a' : App) : Prop := mkExtends {
  ex_flushing : flushing_effects (effects a') = flushing_effects (effects a);
  ex_updates : pending_updates (effects a') = pending_updates (effects a);
  ex_queue : exists new, pending_effects (effects a') = pending_effects (effects a) ++ new;
  ex_calls : exists new, calls (client a') = calls (client a) ++ new;
  ex_actions : forall ty, exists new, default [] (global_action_listeners a' !! ty) = default [] (global_action_listeners a !! ty) ++ new;
  ex_stack : window_update_stack (wins a') = window_update_stack (wins a);
  ex_ok : app_ok a -> app_ok a';
}.

Definition later (a a' : App) : Prop := busy a -> extends a a'.

Lemma app_extends_refl a : extends a a.
Proof. split; try done; [by exists []; rewrite app_nil_r..|intros ty; exists []; by rewrite app_nil_r]. Qed.

Lemma app_extends_trans a1 a2 a3 : extends a1 a2 -> extends a2 a3 -> extends a1 a3.
Proof.
  intros [F1 U1 [q1 Q1] [c1 C1] A1 S1 O1] [F2 U2 [q2 Q2] [c2 C2] A2 S2 O2]. split; try congruence.
  - exists (q1 ++ q2). by rewrite Q2, Q1, (assoc_L (++)).
  - exists (c1 ++ c2). by rewrite C2, C1, (assoc_L (++)).
  - intros ty. destruct (A1 ty) as [x1 X1], (A2 ty) as [x2 X2]. exists (x1 ++ x2). by rewrite X2, X1, (assoc_L (++)).
  - auto.
Qed.

#[export] Instance later_refl : Reflexive later.
Proof. intros a _. apply app_extends_refl. Qed.

#[export] Instance later_trans : Transitive later.
Proof.
  intros a1 a2 a3 H1 H2 Hb. specialize (H1 Hb). apply (app_extends_trans a1 a2 a3 H1), H2.
  unfold busy in *. by rewrite (ex_updates _ _ H1).
Qed.

#[export] Instance later_preorder : PreOrder later.
Proof. split; apply _. Qed.

(** *** Pure steps *)

(** A step that leaves the effects, the actions and the windows alone. *)
Lemma later_frame a a' :
  effects a' = effects a -> wins a' = wins a -> global_action_listeners a' = global_action_listeners a ->
  calls (client a') = calls (client a) -> later a a'.
Proof.
  intros E W A C _. split; try congruence.
  - exists []. by rewrite E, app_nil_r.
  - exists []. by rewrite C, app_nil_r.
  - intros ty. exists []. by rewrite A, app_nil_r.
  - intros [Q T W']. by split; rewrite ?E, ?W.
Qed.

(** A step on the queue alone. *)
Lemma later_effects a a' :
  a' = set_effects (effects a') a ->
  flushing_effects (effects a') = flushing_effects (effects a) -> pending_updates (effects a') = pending_updates (effects a) ->
  (exists new, pending_effects (effects a') = pending_effects (effects a) ++ new) -> (queue_ok (effects a) -> queue_ok (effects a')) ->
  later a a'.
Proof.
  intros E F U Q K _. rewrite E. split; try done.
  - exists []. by rewrite app_nil_r.
  - intros ty. exists []. by rewrite app_nil_r.
  - intros [? ? ?]. split; [by apply K|done..].
Qed.

(** A step on the windows alone. *)
Lemma later_wins a a' :
  a' = set_wins (wins a') a ->
  window_update_stack (wins a') = window_update_stack (wins a) -> (tracking_ok (wins a) -> tracking_ok (wins a')) ->
  (windows_ok (wins a) -> windows_ok (wins a')) -> later a a'.
Proof.
  intros E S T W _. rewrite E. split; try done.
  - exists []. by rewrite app_nil_r.
  - exists []. by rewrite app_nil_r.
  - intros ty. exists []. by rewrite app_nil_r.
  - intros [? ? ?]. split; [done|by apply T|by apply W].
Qed.

Lemma notified_app q q' : notified (q ++ q') = notified q ++ notified q'.
Proof. apply omap_app. Qed.

Lemma notified_globals_app q q' : notified_globals (q ++ q') = notified_globals q ++ notified_globals q'.
Proof. apply omap_app. Qed.

Definition is_notify (e : Effect) : bool := match e with Notify _ | NotifyGlobalObservers _ => true | _ => false end.

Lemma push_back_ok e a : is_notify e = false -> queue_ok (effects a) -> queue_ok (effects (push_back e a)).
Proof.
  intros He [N1 N2 G1 G2].
  assert (E1 : notified [e] = []) by (by destruct e). assert (E2 : notified_globals [e] = []) by (by destruct e).
  split; simpl; by rewrite ?notified_app, ?notified_globals_app, ?E1, ?E2, ?app_nil_r.
Qed.

Lemma push_back_later e a : is_notify e = false -> later a (push_back e a).
Proof. intros He. apply later_effects; [done..|by eexists|by apply push_back_ok]. Qed.

(** What [push_effect] and [notify] both do for a notification. *)
Definition push_notify (id : EntityId) a : App :=
  if bool_decide (id ∈ pending_notifications (effects a)) then a
  else push_back (Notify id) (with_notifications ({[id]} ∪ pending_notifications (effects a)) a).

Lemma push_notify_later id a : later a (push_notify id a).
Proof.
  unfold push_notify. destruct (bool_decide _) eqn:E; [done|]. apply bool_decide_eq_false in E.
  apply later_effects; [done..|by eexists|]. intros [N1 N2 G1 G2].
  split; simpl; rewrite ?notified_app, ?notified_globals_app; simpl; rewrite ?app_nil_r; try done.
  - rewrite N1. set_solver.
  - apply NoDup_app. split; [done|]. split; [|apply NoDup_singleton].
    intros x Hx Hx'. apply list_elem_of_singleton in Hx' as ->. apply E. rewrite N1. by apply elem_of_list_to_set.
Qed.

Lemma push_notify_global_later ty a : later a (push_effect (NotifyGlobalObservers ty) a).
Proof.
  unfold push_effect. destruct (bool_decide _) eqn:E; [done|]. apply bool_decide_eq_false in E.
  apply later_effects; [done..|by eexists|]. intros [N1 N2 G1 G2].
  split; simpl; rewrite ?notified_app, ?notified_globals_app; simpl; rewrite ?app_nil_r; try done.
  - rewrite G1. set_solver.
  - apply NoDup_app. split; [done|]. split; [|apply NoDup_singleton].
    intros x Hx Hx'. apply list_elem_of_singleton in Hx' as ->. apply E. rewrite G1. by apply elem_of_list_to_set.
Qed.

Lemma push_effect_later e a : later a (push_effect e a).
Proof.
  destruct e as [id| | |ty| |]; [apply push_notify_later| | |apply push_notify_global_later| |]; by apply push_back_later.
Qed.

Lemma invalidators_later m a : later a (with_invalidators m a).
Proof. by apply later_wins. Qed.

Lemma invalidate_view_later id e a : later a (invalidate_view id e a).1.
Proof.
  unfold invalidate_view. destruct (not_drawing _); cbn [fst]; [|apply invalidators_later].
  etransitivity; [apply invalidators_later|apply (push_effect_later (Notify e))].
Qed.

Lemma fold_later {A} (f : App -> A -> App) l a : (forall a x, later a (f a x)) -> later a (fold_left f l a).
Proof.
  intros Hf. revert a. induction l as [|x l IH]; intros a; [done|]. simpl. by etransitivity; [apply (Hf a x)|].
Qed.

(** Telling the windows leaves the tracking of entities alone. *)
Lemma invalidate_view_tracking id e a :
  window_invalidators_by_entity (wins (invalidate_view id e a).1) = window_invalidators_by_entity (wins a) /\
  tracked_entities (wins (invalidate_view id e a).1) = tracked_entities (wins a).
Proof.
  unfold invalidate_view. destruct (not_drawing _); [|done]. cbn [fst]. unfold push_effect. by destruct (bool_decide _).
Qed.

Lemma invalidate_views_tracking e ids : forall a,
  let a' := fold_left (fun a id => (invalidate_view id e a).1) ids a in
  window_invalidators_by_entity (wins a') = window_invalidators_by_entity (wins a) /\
  tracked_entities (wins a') = tracked_entities (wins a).
Proof.
  induction ids as [|id ids IH]; intros a; [done|]. simpl.
  destruct (IH (invalidate_view id e a).1) as [-> ->]. apply invalidate_view_tracking.
Qed.

(** [notify], put together: the entry of the entity is as it was in the end. *)
Definition told (e : EntityId) a : App :=
  let ids := default ∅ (window_invalidators_by_entity (wins a) !! e) in
  if bool_decide (ids = ∅) then push_notify e a
  else fold_left (fun a id => (invalidate_view id e a).1) (elements ids) a.

Lemma push_notify_with_tracking e m t a : push_notify e (with_tracking m t a) = with_tracking m t (push_notify e a).
Proof. unfold push_notify. cbn [effects with_tracking set_wins]. by destruct (bool_decide _). Qed.

Lemma invalidate_view_with_tracking id e m t a :
  (invalidate_view id e (with_tracking m t a)).1 = with_tracking m t (invalidate_view id e a).1.
Proof.
  unfold invalidate_view, invalidator_of. cbn [wins with_tracking set_wins invalidators].
  destruct (not_drawing _); [|done]. cbn [fst].
  match goal with |- context [with_invalidators ?i a] => exact (push_notify_with_tracking e m t (with_invalidators i a)) end.
Qed.

Lemma notify_told e a :
  notify e a = with_tracking (<[e := default ∅ (window_invalidators_by_entity (wins a) !! e)]> (window_invalidators_by_entity (wins a)))
                 (tracked_entities (wins a)) (told e a).
Proof.
  assert (E : forall ids m t a, fold_left (fun a id => (invalidate_view id e a).1) ids (with_tracking m t a) =
                              with_tracking m t (fold_left (fun a id => (invalidate_view id e a).1) ids a)).
  { induction ids as [|id ids IH]; intros m t a'; [done|]. simpl. by rewrite invalidate_view_with_tracking, IH. }
  unfold notify, told. set (ids := default ∅ _). fold (push_notify e (with_tracking (<[e := ∅]> (window_invalidators_by_entity (wins a))) (tracked_entities (wins a)) a)).
  destruct (bool_decide (ids = ∅)).
  - rewrite push_notify_with_tracking. cbn [wins with_tracking set_wins window_invalidators_by_entity tracked_entities].
    by rewrite insert_insert_eq.
  - rewrite E. cbn [wins with_tracking set_wins window_invalidators_by_entity tracked_entities].
    by rewrite insert_insert_eq.
Qed.

Lemma told_later e a : later a (told e a).
Proof.
  unfold told. destruct (bool_decide _); [apply push_notify_later|].
  apply fold_later. intros a' id. apply invalidate_view_later.
Qed.

Lemma told_tracking e a :
  window_invalidators_by_entity (wins (told e a)) = window_invalidators_by_entity (wins a) /\
  tracked_entities (wins (told e a)) = tracked_entities (wins a).
Proof.
  unfold told. destruct (bool_decide _); [|apply invalidate_views_tracking].
  unfold push_notify. by destruct (bool_decide _).
Qed.

Lemma notify_later e a : later a (notify e a).
Proof.
  rewrite notify_told. etransitivity; [apply (told_later e)|]. apply later_wins; [done..| |done].
  unfold tracking_ok. cbn [wins with_tracking set_wins window_invalidators_by_entity tracked_entities].
  destruct (told_tracking e a) as [-> ->]. intros T e' id. rewrite <- T.
  destruct (decide (e' = e)) as [->|]; [by rewrite lookup_insert_eq|by rewrite lookup_insert_ne].
Qed.

Lemma alter_fold_lookup id (es : list EntityId) (m : gmap EntityId (gset WindowId)) e :
  default ∅ (fold_left (fun m e => alter (fun ws => ws ∖ {[id]}) e m) es m !! e) =
  if decide (e ∈ es) then default ∅ (m !! e) ∖ {[id]} else default ∅ (m !! e).
Proof.
  revert m. induction es as [|e1 es IH]; intros m; simpl; [by destruct (decide (e ∈ [])) as [?%elem_of_nil|]|].
  rewrite IH. destruct (decide (e = e1)) as [->|Hne].
  - destruct (decide (e1 ∈ e1 :: es)) as [_|Hn]; [|destruct Hn; by left]. rewrite lookup_alter_eq.
    destruct (m !! e1); simpl; destruct (decide (e1 ∈ es)); set_solver.
  - rewrite lookup_alter_ne by done. assert (e ∈ e1 :: es <-> e ∈ es) as E by (rewrite elem_of_cons; naive_solver).
    destruct (decide (e ∈ es)), (decide (e ∈ e1 :: es)); tauto.
Qed.

Lemma insert_fold_lookup (id : WindowId) (es : list EntityId) (m : gmap EntityId (gset WindowId)) e :
  default ∅ (fold_left (fun m e => <[e := {[id]} ∪ default ∅ (m !! e)]> m) es m !! e) =
  if decide (e ∈ es) then {[id]} ∪ default ∅ (m !! e) else default ∅ (m !! e).
Proof.
  revert m. induction es as [|e1 es IH]; intros m; simpl; [by destruct (decide (e ∈ [])) as [?%elem_of_nil|]|].
  rewrite IH. destruct (decide (e = e1)) as [->|Hne].
  - destruct (decide (e1 ∈ e1 :: es)) as [_|Hn]; [|destruct Hn; by left]. rewrite lookup_insert_eq.
    simpl; destruct (decide (e1 ∈ es)); set_solver.
  - rewrite lookup_insert_ne by done. assert (e ∈ e1 :: es <-> e ∈ es) as E by (rewrite elem_of_cons; naive_solver).
    destruct (decide (e ∈ es)), (decide (e ∈ e1 :: es)); tauto.
Qed.

(** After a window has drawn, it tracks the entities it accessed, and no other. *)
Lemma record_entities_ok id es a :
  tracking_ok (wins a) ->
  tracking_ok (wins (record_entities_accessed id es a)) /\
  tracked_entities (wins (record_entities_accessed id es a)) = <[id := es]> (tracked_entities (wins a)).
Proof.
  intros T. split; [|done]. intros e id'. unfold record_entities_accessed.
  cbn [wins with_tracking set_wins window_invalidators_by_entity tracked_entities].
  rewrite insert_fold_lookup, alter_fold_lookup.
  pose proof (T e id') as T1. pose proof (T e id) as T2.
  destruct (decide (id' = id)) as [->|Hne]; rewrite ?lookup_insert_eq, ?lookup_insert_ne by done; simpl;
    destruct (decide (e ∈ elements es)) as [H1|H1]; rewrite elem_of_elements in H1;
    destruct (decide (e ∈ elements (default ∅ (tracked_entities (wins a) !! id)))) as [H2|H2]; rewrite elem_of_elements in H2; set_solver.
Qed.

(** *** The operations of the interface that call no code *)

Lemma app_ok_frame a a' : effects a' = effects a -> wins a' = wins a -> app_ok a -> app_ok a'.
Proof. intros E W [? ? ?]. by split; rewrite ?E, ?W. Qed.

Ltac frame := by apply later_frame.

Lemma defer_later d a : later a (defer d a).
Proof. by apply (push_back_later (Defer d)). Qed.

Lemma refresh_windows_later a : later a (refresh_windows a).
Proof. by apply push_back_later. Qed.

Lemma emit_later e v a : later a (emit value_type e v a).
Proof. by apply push_back_later. Qed.

Lemma log_call_later f c a : later a (log_call f c a).
Proof.
  intros _. split; try done; [by exists []; rewrite app_nil_r|by eexists| |by apply app_ok_frame].
  intros ty. exists []. by rewrite app_nil_r.
Qed.

Lemma app_clone_later h a : returns (fun r => later a r.1) (app_clone h a).
Proof. apply returns_bind, returns_intro. intros [m h'] _. frame. Qed.

Lemma app_drop_later h a : returns (later a) (app_drop h a).
Proof. apply returns_bind, returns_intro. intros m _. frame. Qed.

Lemma app_upgrade_later x a : later a (app_upgrade x a).1.
Proof. unfold app_upgrade. destruct (upgrade _ x) as [m h]. frame. Qed.

Lemma drop_subscription_later s a : later a (drop_subscription s a).
Proof. destruct s; frame. Qed.

Lemma drop_held_entity_later k a : returns (later a) (drop_held_entity k a).
Proof.
  unfold drop_held_entity. destruct (held_entities (client a) !! k) as [h|]; [|by cbn].
  eapply returns_weaken; [|apply app_drop_later]. intros a' L. etransitivity; [|exact L]. frame.
Qed.

Lemma drop_held_subscription_later k a : later a (drop_held_subscription k a).
Proof.
  unfold drop_held_subscription. destruct (held_subscriptions (client a) !! k) as [s|]; [|done].
  etransitivity; [|apply drop_subscription_later]. frame.
Qed.

Lemma drop_held_focus_later k a : later a (drop_held_focus k a).
Proof. unfold drop_held_focus. destruct (held_focus (client a) !! k); [frame|done]. Qed.

Lemma focus_handle_later a : later a (focus_handle a).1.
Proof. unfold focus_handle. destruct (slots_insert _). frame. Qed.

Lemma new_observer_later k h a : later a (new_observer k h a).1.
Proof. cbn [new_observer fst]. etransitivity; [|apply defer_later]. frame. Qed.

Lemma new_subscription_later k l a : later a (new_subscription k l a).1.
Proof. cbn [new_subscription fst]. etransitivity; [|apply defer_later]. frame. Qed.

Lemma new_global_observer_later ty h a : later a (new_global_observer ty h a).1.
Proof. cbn [new_global_observer fst]. etransitivity; [|apply defer_later]. frame. Qed.

Lemma new_entity_observer_later ty l a : later a (new_entity_observer ty l a).1.
Proof. frame. Qed.

Lemma new_release_listener_later k l a : later a (new_release_listener k l a).1.
Proof. frame. Qed.

Lemma on_window_closed_later f a : later a (on_window_closed f a).1.
Proof. frame. Qed.

Lemma hold_later a r : later a r.1 -> later a (hold r).
Proof. intros L. etransitivity; [exact L|]. frame. Qed.

Lemma on_action_later ty f a : later a (on_action ty f a).
Proof.
  intros _. split; try done; [by exists []; rewrite app_nil_r..| |by apply app_ok_frame].
  intros ty'. cbn [on_action global_action_listeners set_actions].
  destruct (decide (ty' = ty)) as [->|]; [rewrite lookup_insert_eq; by eexists|].
  rewrite lookup_insert_ne by done. exists []. by rewrite app_nil_r.
Qed.

Lemma set_global_later v a : later a (set_global value_type v a).
Proof. etransitivity; [apply (push_effect_later (NotifyGlobalObservers (value_type v)))|]. frame. Qed.

Lemma global_mut_later ty g a : returns (later a) (global_mut ty g a).
Proof.
  apply returns_bind, returns_intro. intros v _. cbn [returns fst]. etransitivity; [apply (push_effect_later (NotifyGlobalObservers ty))|]. frame.
Qed.

Lemma default_global_later d g a : later a (default_global value_type d g a).
Proof. etransitivity; [apply (push_effect_later (NotifyGlobalObservers (value_type d)))|]. frame. Qed.

Lemma remove_global_later ty a : returns (fun r => later a r.1) (remove_global ty a).
Proof.
  apply returns_bind, returns_intro. intros v _. cbn [returns fst]. etransitivity; [apply (push_effect_later (NotifyGlobalObservers ty))|]. frame.
Qed.

Lemma lease_global_later ty a : returns (fun r => later a r.1) (lease_global ty a).
Proof. apply returns_bind, returns_intro. intros v _. frame. Qed.

Lemma end_global_lease_later ty v a : later a (end_global_lease ty v a).
Proof. etransitivity; [apply (push_effect_later (NotifyGlobalObservers ty))|]. frame. Qed.

(** A step on the app and the window in use. *)
Definition window_step (a : App) (win : Window) (r : App * Window) : Prop := later a r.1 /\ window_id r.2 = window_id win.

Lemma refresh_step (win : Window) a : window_step a win (refresh win a).
Proof. unfold refresh. destruct (not_drawing _); split; [apply invalidators_later|done..]. Qed.

Lemma clear_pending_keystrokes_step (win : Window) a : window_step a win (clear_pending_keystrokes win a).
Proof. unfold clear_pending_keystrokes. destruct (pending_input win); split; [apply defer_later|done..]. Qed.

Lemma window_focus_step id (win : Window) a : window_step a win (window_focus id win a).
Proof.
  unfold window_focus. destruct (negb _ || _); [done|].
  match goal with |- context [refresh ?win' a] => exact (refresh_step win' a) end.
Qed.

Lemma blur_step (win : Window) a : window_step a win (blur win a).
Proof.
  unfold blur. pose proof (clear_pending_keystrokes_step win a) as H1. destruct (clear_pending_keystrokes win a) as [a1 win1].
  destruct (negb _); [exact H1|]. destruct (refresh_step (with_focus None win1) a1) as [L W]. destruct H1 as [L1 W1].
  split; [by etransitivity|by rewrite W].
Qed.

Lemma disable_focus_step (win : Window) a : window_step a win (disable_focus win a).
Proof. unfold disable_focus. pose proof (blur_step win a) as H1. by destruct (blur win a). Qed.

Lemma observe_pending_input_step x f (win : Window) a : window_step a win (a, observe_pending_input x f win).
Proof. done. Qed.

(** *** The operations that run client code *)

Lemma later_busy {A} (P : A -> App) a (m : outcome A) :
  (busy a -> returns (fun r => later a (P r)) m) -> returns (fun r => later a (P r)) m.
Proof.
  intros H1. destruct (decide (1 <= pending_updates (effects a))) as [Hb|Hb]; [by apply H1|].
  apply returns_intro. intros r _ Hb'. by destruct Hb.
Qed.

(** A [retain] keeps what every call and every replacement of the set keep. *)
Lemma retain_in_keeps {K} `{!EqDecision K, !Countable K} {Callback State} (Rel : State -> State -> Prop) `{!PreOrder Rel}
    (get : State -> SubscriberSet K Callback) put f st e :
  (forall s st, Rel st (put s st)) -> (forall st cb, returns (fun r => Rel st r.1.1) (f st cb)) ->
  returns (Rel st) (retain_in get put st e f).
Proof.
  intros Hput Hf.
  assert (Hc : forall todo st, returns (fun r => Rel st r.1) (retain_calls_in get f st todo)).
  { induction todo as [|[id sub] todo IH]; intros st1; [by cbn|]. cbn [retain_calls_in]. apply returns_bind.
    assert (Hr : returns (fun r : State * Callback * bool => Rel st1 r.1.1) (if is_active (get st1) sub then f st1 (callback sub) else Ok (st1, callback sub, true))).
    { destruct (is_active _ _); [apply Hf|by cbn]. }
    eapply returns_weaken; [|exact Hr]. intros [[st2 cb] keep] L. cbn in L. apply returns_bind.
    eapply returns_weaken; [|apply (IH st2)]. intros [st3 kept] L'. cbn in *. by transitivity st2. }
  unfold retain_in. destruct (subscribers (get st) !! e) as [[subs|]|]; [|by cbn..].
  set (st1 := put _ st). apply returns_bind. eapply returns_weaken; [|apply (Hc subs st1)].
  intros [st2 kept] L. cbn in *. transitivity st1; [apply Hput|]. transitivity st2; [exact L|apply Hput].
Qed.

Context `{!Client (Value := Value) (Slots := Slots) (Code := Code)} (target_macos : bool).

Definition same_window (w w' : option Window) : Prop := option_map window_id w' = option_map window_id w.

Definition step (a : App) w (r : App * option Window) : Prop := later a r.1 /\ same_window w r.2.

Lemma step_trans a w a1 w1 r : later a a1 -> same_window w w1 -> step a1 w1 r -> step a w r.
Proof. intros L S [L' S']. split; [by etransitivity|]. unfold same_window in *. congruence. Qed.

Lemma drop_value_later v a : returns (later a) (drop_value v a).
Proof.
  unfold drop_value. destruct (value_owns v) as [hs ss]. apply returns_bind.
  eapply returns_weaken; [|apply (returns_ofold (later a)); [done|]].
  - intros a' L. cbn. etransitivity; [exact L|]. apply fold_later. intros a2 k. apply drop_held_subscription_later.
  - intros a1 k L. eapply returns_weaken; [|apply drop_held_entity_later]. intros a2 L2. by etransitivity.
Qed.

Section Open.
Context (run : option AnyWeakEntity -> list Command -> App * option Window -> outcome (App * option Window)).
Context (flush : App -> outcome App).
Hypothesis run_step : forall this cs st, returns (step st.1 st.2) (run this cs st).

Lemma call_code_step f c this w a : returns (step a w) (call_code run f c this w a).
Proof.
  eapply returns_weaken; [|apply run_step]. intros r S. by eapply step_trans; [apply log_call_later| |exact S].
Qed.

(** An update in an update does not flush. *)
Lemma finish_nested a : 2 <= pending_updates (effects a) ->
  finish_update flush a = Ok (with_updates (pending_updates (effects a) - 1) a).
Proof.
  intros Hp. unfold finish_update. destruct (pending_updates (effects a) =? 1) eqn:E; [apply Nat.eqb_eq in E; lia|].
  rewrite andb_false_r. cbn [obind]. destruct (pending_updates (effects a)) as [|n] eqn:En; [lia|].
  cbn [usize_pred obind]. do 2 f_equal. lia.
Qed.

Lemma update_step {R} (Q : R -> Prop) (f : App -> outcome (App * R)) a :
  returns (fun r => later (start_update a) r.1 /\ Q r.2) (f (start_update a)) ->
  returns (fun r => later a r.1 /\ (busy a -> Q r.2)) (update flush f a).
Proof.
  intros Hf. destruct (decide (1 <= pending_updates (effects a))) as [Hb|Hb].
  2:{ apply returns_intro. intros r _. split; by intros Hb'; destruct Hb. }
  unfold update. apply returns_bind. eapply returns_weaken; [|exact Hf]. intros [a1 r] [L HQ]. cbn [fst snd] in *.
  assert (Hs : busy (start_update a)) by (unfold busy; cbn; lia).
  destruct (L Hs) as [F U [q Eq] C A S O]. cbn in F, U, Eq, C, A, S.
  rewrite finish_nested by (rewrite U; lia). cbn [obind returns fst snd]. split; [|done]. intros _. split; cbn; try done.
  - rewrite U. lia.
  - by exists q.
  - intros [Qo T W]. assert (Hs' : app_ok (start_update a)) by (split; [by destruct Qo; split|done..]).
    destruct (O Hs') as [[? ? ? ?] ? ?]. by split.
Qed.

Lemma update_later {R} (f : App -> outcome (App * R)) a :
  (forall a, returns (fun r => later a r.1) (f a)) -> returns (fun r => later a r.1) (update flush f a).
Proof.
  intros Hf. eapply returns_weaken; [|apply (update_step (fun _ => True)); eapply returns_weaken; [|apply Hf]].
  - by intros r [L _].
  - by intros r L.
Qed.

Lemma unconditional {A} (P Q : A -> Prop) m : returns (fun r => P r /\ Q r) m -> returns P m.
Proof. apply returns_weaken. tauto. Qed.

(** The window of an update: the same in a state that is not in an update, too, when the
    body says so. *)
Lemma update_keeps {R} (Q : R -> Prop) (f : App -> outcome (App * R)) a :
  returns (fun r => Q r.2) (f (start_update a)) -> returns (fun r => Q r.2) (update flush f a).
Proof.
  intros Hf. unfold update. apply returns_bind. eapply returns_weaken; [|exact Hf]. intros [a1 r] HQ.
  apply returns_bind, returns_intro. intros a2 _. exact HQ.
Qed.

Lemma returns_and {A} (P Q : A -> Prop) m : returns P m -> returns Q m -> returns (fun r => P r /\ Q r) m.
Proof. by destruct m. Qed.

Lemma update_entity_step h f c w a : returns (step a w) (update_entity value_type run flush h f c w a).
Proof.
  assert (Hb : forall a, returns (step a w)
    (let! (m, l) := EntityMap.lease (app_entities a) h in
     let a := set_entities m a in
     let! v := lease_deref value_type l (entity_type h) in
     let! l := lease_write value_type l (mutate f c a v) in
     let! (a, w) := call_code run f c (Some (downgrade h)) w a in
     let! m := end_lease (app_entities a) l in
     Ok (set_entities m a, w))).
  { intros a1. apply returns_bind, returns_intro. intros [m l] _. apply returns_bind, returns_intro. intros v _.
    apply returns_bind, returns_intro. intros l' _. apply returns_bind.
    eapply returns_weaken; [|apply call_code_step]. intros [a2 w2] [L S]. apply returns_bind, returns_intro. intros m' _.
    split; [|exact S]. cbn [fst]. etransitivity; [|etransitivity; [exact L|]]; frame. }
  apply returns_and.
  - apply update_later. intros a1. eapply unconditional, Hb.
  - apply (update_keeps (same_window w)). eapply returns_weaken; [|apply Hb]. by intros r [_ S].
Qed.

(** What a callback does with the entities that it holds weakly. *)
Lemma upgrade_then {A} (P : A -> App) x a (no : App -> outcome A) (yes : App -> AnyEntity -> outcome A) :
  (forall a1, later a a1 -> returns (fun r => later a (P r)) (no a1)) ->
  (forall a1 h, later a a1 -> returns (fun r => later a (P r)) (yes a1 h)) ->
  returns (fun r => later a (P r)) (match app_upgrade x a with (a1, None) => no a1 | (a1, Some h) => yes a1 h end).
Proof.
  intros Hno Hyes. pose proof (app_upgrade_later x a) as L. destruct (app_upgrade x a) as [a1 [h|]]; [by apply Hyes|by apply Hno].
Qed.

(** The update of the entity of a callback, whose handle is dropped after it. *)
Lemma update_then_drop {A} (P : A -> App) a a1 h f c w h' (k : App -> option Window -> outcome A) :
  later a a1 ->
  (forall a2 w', later a a2 -> same_window w w' -> returns (fun r => later a (P r)) (k a2 w')) ->
  returns (fun r => later a (P r))
    (let! (a, w) := update_entity value_type run flush h f c w a1 in let! a := app_drop h' a in k a w).
Proof.
  intros L Hk. apply returns_bind. eapply returns_weaken; [|apply update_entity_step]. intros [a2 w2] [L2 S]. apply returns_bind.
  eapply returns_weaken; [|apply app_drop_later]. intros a3 L3. apply Hk; [|exact S]. cbn in *.
  etransitivity; [exact L|]. by etransitivity.
Qed.

Lemma give_entity_later e a : later a (give_entity e a).1.
Proof. frame. Qed.

Lemma weak_update_step x f c w a : returns (fun r => step a w r.1) (weak_update value_type run flush x f c w a).
Proof.
  unfold weak_update. pose proof (app_upgrade_later x a) as L. destruct (app_upgrade x a) as [a1 [h|]]; [|by cbn].
  apply returns_bind. eapply returns_weaken; [|apply update_entity_step]. intros [a2 w2] S. apply returns_bind.
  eapply returns_weaken; [|apply app_drop_later]. intros a3 L3. cbn in *.
  eapply step_trans; [exact L|exact eq_refl|]. destruct S as [L2 S2]. split; [by etransitivity|exact S2].
Qed.

Lemma new_entity_later ty f a : returns (fun r => later a r.1) (new_entity run flush ty f a).
Proof.
  apply update_later. intros a1. destruct (EntityMap.reserve _ ty) as [m slot]. apply returns_bind.
  eapply returns_weaken; [|apply app_clone_later]. intros [a2 handle] L2. apply returns_bind.
  eapply returns_weaken; [|apply call_code_step]. intros [a3 w3] [L3 _]. apply returns_bind.
  eapply returns_weaken; [|apply app_clone_later]. intros [a4 created] L4. cbn in L2, L3, L4.
  set (a5 := push_effect _ a4). assert (L5 : later a4 a5) by apply push_effect_later. clearbody a5.
  unfold EntityMap.insert. cbn beta iota. apply returns_bind.
  eapply returns_weaken; [|apply app_drop_later]. intros a6 L6. cbn.
  etransitivity; [|etransitivity; [exact L2|etransitivity; [exact L3|etransitivity; [exact L4|etransitivity; [exact L5|etransitivity; [|exact L6]]]]]]; frame.
Qed.

Lemma insert_entity_later slot f a : returns (fun r => later a r.1) (insert_entity run flush slot f a).
Proof.
  apply update_later. intros a1. apply returns_bind. eapply returns_weaken; [|apply call_code_step]. intros [a2 w2] [L _].
  cbn in *. etransitivity; [exact L|]. frame.
Qed.

Lemma update_global_later ty f a : returns (later a) (update_global run ty f a).
Proof.
  apply returns_bind. eapply returns_weaken; [|apply lease_global_later]. intros [a1 v] L1. apply returns_bind.
  eapply returns_weaken; [|apply call_code_step]. intros [a2 w2] [L2 _]. cbn in *.
  etransitivity; [exact L1|]. etransitivity; [exact L2|]. apply end_global_lease_later.
Qed.

Lemma call_handler_later a h : returns (fun r => later a r.1.1) (call_handler value_type run flush a h).
Proof.
  destruct h as [handle f|handle this f|f|this f]; cbn [call_handler].
  - apply (upgrade_then (fun r => r.1.1)); [done|]. intros a1 e L. apply returns_bind.
    eapply returns_weaken; [|apply call_code_step]. intros [a2 w2] [L2 _]. cbn in *.
    etransitivity; [exact L|]. etransitivity; [apply (give_entity_later e)|exact L2].
  - apply (upgrade_then (fun r => r.1.1)); [done|]. intros a1 e L.
    pose proof (app_upgrade_later this a1) as L1. destruct (app_upgrade this a1) as [a2 [t|]]; cbn [fst] in L1.
    + apply (update_then_drop (fun r => r.1.1)); [|by intros]. etransitivity; [exact L|]. etransitivity; [exact L1|apply (give_entity_later e)].
    + apply returns_bind. eapply returns_weaken; [|apply app_drop_later]. intros a3 L3. cbn.
      etransitivity; [exact L|]. by etransitivity.
  - apply returns_bind. eapply returns_weaken; [|apply call_code_step]. by intros [a1 w1] [L _].
  - apply returns_bind. eapply returns_weaken; [|apply weak_update_step]. by intros [[a1 w1] b] [L _].
Qed.

Lemma call_listener_later v a l : returns (fun r => later a r.1.1) (call_listener value_type run flush v a l).
Proof.
  destruct l as [handle evt f|handle this evt f]; cbn [call_listener]; (destruct (negb _); [done|]).
  - apply (upgrade_then (fun r => r.1.1)); [done|]. intros a1 e L. apply returns_bind.
    eapply returns_weaken; [|apply call_code_step]. intros [a2 w2] [L2 _]. cbn in *.
    etransitivity; [exact L|]. etransitivity; [apply (give_entity_later e)|exact L2].
  - apply (upgrade_then (fun r => r.1.1)); [done|]. intros a1 e L.
    pose proof (app_upgrade_later this a1) as L1. destruct (app_upgrade this a1) as [a2 [t|]]; cbn [fst] in L1.
    + apply (update_then_drop (fun r => r.1.1)); [|by intros]. etransitivity; [exact L|]. etransitivity; [exact L1|apply (give_entity_later e)].
    + apply returns_bind. eapply returns_weaken; [|apply app_drop_later]. intros a3 L3. cbn.
      etransitivity; [exact L|]. by etransitivity.
Qed.

Lemma call_release_listener_later r l : returns (fun r' => later r.1 r'.1) (call_release_listener value_type run flush r l).
Proof.
  destruct r as [a v], l as [ty f|this ty f]; cbn [call_release_listener]; (destruct (negb _); [done|]); apply returns_bind.
  - eapply returns_weaken; [|apply call_code_step]. by intros [a1 w1] [L _].
  - eapply returns_weaken; [|apply weak_update_step]. by intros [[a1 w1] b] [L _].
Qed.

Lemma call_new_listener_step e b w a l : returns (step a w) (call_new_listener value_type run flush e b w a l).
Proof.
  destruct l as [ty f]. cbn [call_new_listener]. destruct (negb _); [done|]. apply returns_bind.
  eapply returns_weaken; [|apply update_entity_step]. intros [a1 w1] [L S]. apply returns_bind.
  eapply returns_weaken; [|apply app_drop_later]. intros a2 L2. cbn in *. split; [by etransitivity|exact S].
Qed.

(** *** Windows *)

Lemma windows_later a ws hs :
  (windows_ok (wins a) -> windows_ok (wins (with_windows ws hs (window_update_stack (wins a)) a))) ->
  later a (with_windows ws hs (window_update_stack (wins a)) a).
Proof. intros W. by apply later_wins. Qed.

Lemma windows_ok_insert a id o hs stack :
  match o with Some win => removed win = false /\ window_id win = id | None => True end ->
  windows_ok (wins a) -> windows_ok (wins (with_windows (<[id := o]> (windows (wins a))) hs stack a)).
Proof. intros Ho W id' win. cbn. intros [[<- ->]|[_ E]]%lookup_insert_Some; [done|by apply W]. Qed.

Lemma windows_ok_delete a id hs stack :
  windows_ok (wins a) -> windows_ok (wins (with_windows (delete id (windows (wins a))) hs stack a)).
Proof. intros W id' win. cbn. intros [_ E]%lookup_delete_Some. by apply W. Qed.

(** The stack is as it was when the window has been updated. *)
Lemma update_stack_later a id o hs a1 :
  let a0 := with_windows (<[id := None]> (windows (wins a))) hs (window_update_stack (wins a) ++ [o]) a in
  later a0 a1 -> later a (with_windows (windows (wins a1)) (window_handles (wins a1)) (removelast (window_update_stack (wins a1))) a1).
Proof.
  intros a0 L Hb. destruct (L Hb) as [F U Q C A S O]. split; try done.
  - cbn. rewrite S. cbn. by rewrite removelast_last.
  - intros [Qo T W]. destruct O as [? ? ?]; [|by split]. split; [done|done|]. by apply windows_ok_insert.
Qed.

(** A window that is not in the slot of its identifier: the invariant fails already. *)
Lemma later_vacuous a a1 ws hs :
  ~ windows_ok (wins a) -> later a a1 -> later a (with_windows ws hs (window_update_stack (wins a1)) a1).
Proof. intros Hn L Hb. destruct (L Hb). split; try done. by intros [? ? ?]. Qed.

Lemma window_closed_later a :
  returns (later a) (retain_in (fun a => window_closed_observers (listeners a)) put_window_closed_observers a tt (fun a f =>
    let! (a, _) := call_code run f CallClosed None None a in Ok (a, f, true))).
Proof.
  apply (retain_in_keeps later); [intros; frame|]. intros a1 f. apply returns_bind.
  eapply returns_weaken; [|apply call_code_step]. by intros [a2 w2] [L _].
Qed.

Lemma quit_later a : later a (quit a).
Proof. frame. Qed.

Lemma update_window_id_later id f a :
  (forall a win, returns (window_step a win) (f a win)) ->
  returns (fun r => later a r.1) (update_window_id target_macos run flush id f a).
Proof.
  intros Hf. apply update_later. clear a. intros a. destruct (windows (wins a) !! id) as [[win|]|] eqn:Ew; [|by cbn..].
  apply returns_bind. eapply returns_weaken; [|apply Hf]. intros [a1 win1] [L1 W1]. cbn [fst snd] in L1, W1. cbv zeta.
  pose proof (update_stack_later a id (window_id win) (window_handles (wins a)) a1 L1) as L2.
  set (a2 := with_windows _ _ (removelast _) a1) in *. clearbody a2.
  destruct (removed win1) eqn:Er.
  - set (a3 := with_windows (delete id (windows (wins a2))) _ _ a2). assert (L3 : later a2 a3) by (apply windows_later, windows_ok_delete).
    clearbody a3. apply returns_bind. eapply returns_weaken; [|apply window_closed_later]. intros a4 L4. cbn.
    etransitivity; [exact L2|]. etransitivity; [exact L3|]. etransitivity; [exact L4|]. destruct (_ && _); [apply quit_later|done].
  - destruct (windows (wins a2) !! id) as [o|]; [|exact L2]. cbn.
    destruct (decide (window_id win = id)) as [Hid|Hid].
    + etransitivity; [exact L2|]. apply windows_later, windows_ok_insert. split; [done|]. by rewrite W1.
    + apply later_vacuous; [|exact L2]. intros W. by destruct (W id win Ew).
Qed.

#[local] Instance window_step_preorder : PreOrder (fun st st' : App * Window => window_step st.1 st.2 st').
Proof.
  split; [done|]. intros [a1 w1] [a2 w2] [a3 w3] [L1 E1] [L2 E2]. cbn in *. split; cbn in *; [by etransitivity|congruence].
Qed.

Lemma pending_input_changed_step a win : returns (window_step a win) (pending_input_changed value_type run flush a win).
Proof.
  unfold pending_input_changed.
  apply (retain_in_keeps (fun st st' : App * Window => window_step st.1 st.2 st')).
  - done.
  - intros [a1 win1] [x f]. apply returns_bind. eapply returns_weaken; [|apply weak_update_step].
    intros [[a2 w2] there] [L S]. split; [exact L|]. cbn in *. destruct w2; [by injection S|done].
Qed.

(** *** Effects *)

Lemma notify_handlers_later a emitter :
  returns (later a) (retain_in (fun a => observers (listeners a)) put_observers a emitter (call_handler value_type run flush)).
Proof. apply (retain_in_keeps later); [intros; frame|apply call_handler_later]. Qed.

Lemma global_handlers_later a ty :
  returns (later a) (retain_in (fun a => global_observers (listeners a)) put_global_observers a ty (call_handler value_type run flush)).
Proof. apply (retain_in_keeps later); [intros; frame|apply call_handler_later]. Qed.

Lemma apply_emit_later e ty v a : returns (later a) (apply_emit_effect value_type run flush e ty v a).
Proof.
  apply (retain_in_keeps later); [intros; frame|]. intros a1 [ty' l]. destruct (_ =? _)%N; [|by cbn].
  apply returns_bind. eapply returns_weaken; [|apply call_listener_later]. by intros [[a2 l2] keep] L.
Qed.

Lemma apply_refresh_later a : later a (apply_refresh_effect a).
Proof.
  unfold apply_refresh_effect. match goal with |- context [fold_left _ _ ?a1] => transitivity a1 end.
  - apply windows_later. intros W id win Hw. cbn [wins with_windows set_wins windows] in Hw.
    apply lookup_fmap_Some in Hw as ([win'|] & Eo & Hw); [|done]. injection Eo as <-. cbn. by apply W.
  - apply (fold_later (A := WindowId * option Window)). intros a1 [id [win|]]; cbn; [apply invalidators_later|done].
Qed.

Lemma apply_defer_later d a : returns (later a) (apply_defer_effect value_type target_macos run flush d a).
Proof.
  destruct d as [cell|cell|cell|id|f]; cbn [apply_defer_effect]; [frame..| |].
  - apply returns_bind. eapply returns_weaken; [|apply update_window_id_later, pending_input_changed_step]. by intros [a1 r].
  - apply returns_bind. eapply returns_weaken; [|apply call_code_step]. by intros [a1 w1] [L _].
Qed.

Lemma apply_entity_created_later e ty o a : returns (later a) (apply_entity_created_effect value_type target_macos run flush e ty o a).
Proof.
  apply returns_bind. eapply returns_weaken.
  2:{ apply (retain_in_keeps later); [intros; frame|]. intros a1 l. apply returns_bind.
      eapply returns_weaken; [|apply app_clone_later]. intros [a2 h] L2. cbn [fst] in L2. destruct o as [id|].
      - apply returns_bind. eapply returns_weaken; [|apply update_window_id_later].
        + intros [a3 found] L3. apply returns_bind, returns_intro. intros u _. cbn in *. by etransitivity.
        + intros a3 win. apply returns_bind. eapply returns_weaken; [|apply call_new_listener_step].
          intros [a4 w4] [L S]. split; [exact L|]. cbn in *. destruct w4; [by injection S|done].
      - apply returns_bind. eapply returns_weaken; [|apply call_new_listener_step]. intros [a3 w3] [L3 _]. cbn in *. by etransitivity. }
  intros a1 L1. eapply returns_weaken; [|apply app_drop_later]. intros a2 L2. by etransitivity.
Qed.

(** *** Releasing *)

Lemma release_entity_later d a : returns (later a) (release_entity value_type run flush d a).
Proof.
  destruct d as [id v]. cbn [release_entity]. destruct (Subscription.remove (release_listeners _) id) as [s callbacks].
  apply returns_bind. eapply returns_weaken; [|apply (returns_ofold (fun r => later a r.1)); [frame|]].
  - intros [a1 v1] L. eapply returns_weaken; [|apply drop_value_later]. intros a2 L2. cbn in *. by etransitivity.
  - intros r l L. eapply returns_weaken; [|apply call_release_listener_later]. intros r' L'. by etransitivity.
Qed.

(** When nothing is left to release, nothing is queued for it. *)
Lemma take_dropped_none (m m' : EntityMap (Value := Value) (Slots := Slots)) l :
  take_dropped m = Ok (m', l) -> dropped_entity_ids (ref_counts m') = [].
Proof.
  assert (E : forall ids (m m' : EntityMap (Value := Value) (Slots := Slots)) l, take_all m ids = Ok (m', l) -> dropped_entity_ids (ref_counts m') = dropped_entity_ids (ref_counts m)).
  { induction ids as [|id ids IH]; intros m1 m2 l1; cbn [take_all]; [by intros [= <- _]|].
    unfold take_one. destruct (counts (ref_counts m1) !! id); [|done]. cbn [obind].
    destruct (take_all _ ids) as [[m3 l3]| |] eqn:E3; [|done..]. cbn [obind]. intros [= <- _]. by rewrite (IH _ _ _ E3). }
  unfold take_dropped. intros Ht. by rewrite (E _ _ _ _ Ht).
Qed.

Lemma release_dropped_later fuel : forall a,
  returns (fun a' => later a a' /\ dropped_entity_ids (ref_counts (app_entities a')) = [])
    (release_dropped_entities value_type run flush fuel a).
Proof.
  induction fuel as [|fuel IH]; intros a; [done|]. cbn [release_dropped_entities].
  destruct (take_dropped (app_entities a)) as [[m [|d ds]]| |] eqn:Et; [|cbn [obind]|done..].
  - split; [frame|by eapply take_dropped_none].
  - apply returns_bind. eapply returns_weaken; [|apply (returns_ofold (later a)); [frame|]].
    + intros a1 L. eapply returns_weaken; [|apply IH]. intros a2 [L2 D]. split; [by etransitivity|exact D].
    + intros a1 d' L. eapply returns_weaken; [|apply release_entity_later]. intros a2 L2. by etransitivity.
Qed.

Lemma release_focus_later a : returns (later a) (release_dropped_focus_handles target_macos run flush a).
Proof.
  apply (returns_ofold (later a)); [done|]. intros a1 [id n] L. destruct (n =? 0); [|exact L].
  apply returns_bind. eapply returns_weaken; [|apply (returns_ofold (later a1)); [done|]].
  - intros a2 L2. cbn. etransitivity; [exact L|]. etransitivity; [exact L2|]. frame.
  - intros a2 wid L2. apply returns_bind. eapply returns_weaken; [|apply update_window_id_later].
    + intros [a3 o] L3. apply returns_bind, returns_intro. intros u _. cbn in *. by etransitivity.
    + intros a3 win. cbn. destruct (bool_decide _); [apply blur_step|done].
Qed.

(** *** Global actions *)

Lemma call_actions_later phase v fs : forall a, returns (later a) (call_actions run phase v fs a).
Proof.
  induction fs as [|f fs IH]; intros a; [by cbn|]. cbn [call_actions]. apply returns_bind.
  assert (Hc : returns (later a) (match phase with
    | Bubble => let! (a, _) := call_code run f (CallAction v) None None a in Ok a | Capture => Ok a end)).
  { destruct phase; [|by cbn]. apply returns_bind. eapply returns_weaken; [|apply call_code_step]. by intros [a1 w1] [L _]. }
  eapply returns_weaken; [|exact Hc]. intros a1 L. destruct (propagate_event a1); [|exact L].
  eapply returns_weaken; [|apply IH]. intros a2 L2. by etransitivity.
Qed.

(** While the listeners are called they are out of the map; in the end those that were
    there come first. *)
Lemma dispatch_phase_later phase v a : returns (later a) (dispatch_phase value_type run phase v a).
Proof.
  unfold dispatch_phase. destruct (global_action_listeners a !! value_type v) as [fs|] eqn:Ef; [|by cbn].
  apply returns_bind. eapply returns_weaken; [|apply call_actions_later]. intros a1 L Hb.
  destruct (L Hb) as [F U Q C A S O]. split; try done.
  - intros ty. cbn. destruct (decide (ty = value_type v)) as [->|Hne].
    + rewrite lookup_insert_eq, Ef. cbn. by eexists.
    + rewrite lookup_insert_ne by congruence. destruct (A ty) as [new E]. cbn in E. rewrite lookup_delete_ne in E by congruence. by exists new.
  - intros Ha. apply (app_ok_frame a1); [done..|]. by apply O, (app_ok_frame a).
Qed.

Lemma set_propagate_later b a : later a (set_propagate b a).
Proof. frame. Qed.

Lemma dispatch_global_action_later v a : returns (later a) (dispatch_global_action value_type run v a).
Proof.
  apply returns_bind. eapply returns_weaken; [|apply dispatch_phase_later]. intros a1 L.
  assert (L1 : later a a1) by (etransitivity; [apply (set_propagate_later true)|exact L]).
  destruct (propagate_event a1); [|exact L1].
  eapply returns_weaken; [|apply dispatch_phase_later]. intros a2 L2. by etransitivity.
Qed.

(** *** Commands *)

Lemma with_held_step k (st : App * option Window) f :
  (forall h, returns (step st.1 st.2) (f h)) -> returns (step st.1 st.2) (with_held k st f).
Proof. intros Hf. unfold with_held. destruct (held_entities (client st.1) !! k); [apply Hf|by cbn]. Qed.

Lemma in_window_step a w f :
  (forall a win, window_step a win (f a win)) -> step a w (in_window (a, w) f).
Proof.
  intros Hf. destruct w as [win|]; [|done]. unfold in_window. cbn. specialize (Hf a win).
  destruct (f a win) as [a1 win1]. destruct Hf as [L W]. split; [exact L|]. unfold same_window. cbn in *. by rewrite W.
Qed.

(** A new handle, in the hands of the client. *)
Lemma given_step (m : outcome (App * AnyEntity)) (a : App) w :
  returns (fun r => later a r.1) m -> returns (step a w) (let! (a, h) := m in Ok ((give_entity h a).1, w)).
Proof. destruct m as [[a1 h]| |]; [|done..]. intros L. split; [|done]. cbn in *. etransitivity; [exact L|apply (give_entity_later h)]. Qed.

Lemma step_app (a a1 : App) w : later a a1 -> step a w (a1, w).
Proof. done. Qed.

(** A command that only changes the app. *)
Lemma bind_app {A} (P : A -> App) (m : outcome A) (a : App) w :
  returns (fun r => later a (P r)) m -> returns (step a w) (let! r := m in Ok (P r, w)).
Proof. destruct m; [|done..]. by intros L. Qed.

Ltac app_step :=
  first [ exact eq_refl
        | apply notify_later | apply defer_later | apply refresh_windows_later | apply emit_later
        | apply set_global_later | apply default_global_later | apply on_action_later | apply set_propagate_later
        | apply drop_held_subscription_later | apply drop_held_focus_later
        | apply hold_later; first [apply new_observer_later | apply new_subscription_later | apply new_global_observer_later
                                  | apply new_entity_observer_later | apply new_release_listener_later | apply on_window_closed_later]
        | frame ].

Lemma run_command_step this st c : returns (step st.1 st.2) (run_command value_type target_macos run flush this st c).
Proof.
  destruct st as [a w]. destruct c; cbn [run_command fst snd].
  all: try (apply step_app; app_step).
  all: try (unfold with_this; destruct this; apply step_app; app_step).
  all: try (apply with_held_step; intros h; cbn [fst snd]).
  all: try (unfold with_this; destruct this; apply step_app; app_step).
  all: try (apply in_window_step; intros; first [done | apply refresh_step | apply blur_step | apply disable_focus_step]).
  all: try (apply (bind_app (fun a => a)); first [apply drop_held_entity_later | apply global_mut_later | apply update_global_later | apply dispatch_global_action_later]).
  - apply given_step, new_entity_later.
  - unfold reserve_entity. destruct (EntityMap.reserve _ ty) as [m h]. apply step_app. frame.
  - apply given_step. eapply returns_weaken; [|apply insert_entity_later]. intros r L. etransitivity; [|exact L]. frame.
  - apply update_entity_step.
  - apply given_step, app_clone_later.
  - apply returns_and; [apply update_later; intros a1|apply (update_keeps (same_window w))];
      (eapply returns_weaken; [|apply call_code_step]); by intros r [L S].
  - apply returns_bind. eapply returns_weaken; [|apply remove_global_later]. by intros [a1 v] L.
  - pose proof (focus_handle_later a) as L. destruct (focus_handle a) as [a1 id]. apply step_app. etransitivity; [exact L|]. frame.
  - apply returns_bind. eapply returns_weaken; [|apply update_window_id_later].
    + by intros [a1 o] L.
    + intros a1 win. apply returns_bind. eapply returns_weaken; [|apply call_code_step]. intros [a2 w2] [L S].
      split; [exact L|]. cbn in *. destruct w2; [by injection S|done].
  - destruct (held_focus (client a) !! handle); [|by apply step_app]. apply in_window_step. intros a1 win. apply window_focus_step.
  - destruct this; [|by apply step_app]. by apply in_window_step.
Qed.

Lemma run_commands_step this cs st : returns (step st.1 st.2) (run_commands value_type target_macos run flush this cs st).
Proof.
  apply (returns_ofold (step st.1 st.2)); [done|]. intros st1 c [L S].
  eapply returns_weaken; [|apply run_command_step]. intros st2 S2. by eapply step_trans.
Qed.
End Open.

(** ** The whole app *)

Lemma exec_step fuel : forall this cs st, returns (step st.1 st.2) (exec value_type target_macos fuel this cs st).
Proof.
  induction fuel as [|fuel IH]; intros this cs st; [done|]. apply run_commands_step, IH.
Qed.

(** What is left of a state when its first effect is being applied. *)
Record popped (rest : list Effect) (a a' : App) : Prop := mkPopped {
  po_flushing : flushing_effects (effects a') = flushing_effects (effects a);
  po_updates : pending_updates (effects a') = pending_updates (effects a);
  po_queue : exists new, pending_effects (effects a') = rest ++ new;
  po_calls : exists new, calls (client a') = calls (client a) ++ new;
  po_actions : forall ty, exists new, default [] (global_action_listeners a' !! ty) = default [] (global_action_listeners a !! ty) ++ new;
  po_stack : window_update_stack (wins a') = window_update_stack (wins a);
  po_ok : app_ok a';
}.

(** The state that an effect is applied in, once a notification is no longer pending. *)
Definition pop (e : Effect) (rest : list Effect) a : App :=
  let a := with_queue rest a in
  match e with
  | Notify emitter => with_notifications (pending_notifications (effects a) ∖ {[emitter]}) a
  | NotifyGlobalObservers ty => with_global_notifications (pending_global_notifications (effects a) ∖ {[ty]}) a
  | _ => a
  end.

Lemma pop_popped e rest a : app_ok a -> pending_effects (effects a) = e :: rest -> popped rest a (pop e rest a).
Proof.
  intros [[N1 N2 G1 G2] T W] E. rewrite E in *.
  assert (Q : queue_ok (effects (pop e rest a))).
  { destruct e as [id| | |ty| |]; cbn in N1, N2, G1, G2; split; cbn; try done.
    - rewrite N1. apply NoDup_cons in N2 as [Hn _].
      assert (id ∉@{gset EntityId} list_to_set (notified rest)) by (by rewrite elem_of_list_to_set). set_solver.
    - by apply NoDup_cons in N2 as [_ ?].
    - rewrite G1. apply NoDup_cons in G2 as [Hn _].
      assert (ty ∉@{gset TypeId} list_to_set (notified_globals rest)) by (by rewrite elem_of_list_to_set). set_solver.
    - by apply NoDup_cons in G2 as [_ ?]. }
  split; [by destruct e|by destruct e|exists []; rewrite app_nil_r; by destruct e|exists []; rewrite app_nil_r; by destruct e| |by destruct e|].
  - intros ty. exists []. rewrite app_nil_r. by destruct e.
  - split; [done|by destruct e..].
Qed.

Lemma apply_effect_popped fuel e rest a :
  busy a -> app_ok a -> pending_effects (effects a) = e :: rest ->
  returns (popped rest a)
    (apply_effect value_type target_macos (exec value_type target_macos fuel) (flush_effects value_type target_macos fuel) e (with_queue rest a)).
Proof.
  intros Hb Ha E. pose proof (pop_popped e rest a Ha E) as [F U [q Q] [c C] A S O].
  assert (L : returns (later (pop e rest a))
    (apply_effect value_type target_macos (exec value_type target_macos fuel) (flush_effects value_type target_macos fuel) e (with_queue rest a))).
  { destruct e as [id|id ty v| |ty|d|h ty o]; cbn [apply_effect].
    - apply (notify_handlers_later _ _ (exec_step fuel)).
    - apply (apply_emit_later _ _ (exec_step fuel)).
    - apply apply_refresh_later.
    - apply (global_handlers_later _ _ (exec_step fuel)).
    - apply (apply_defer_later _ _ (exec_step fuel)).
    - apply (apply_entity_created_later _ _ (exec_step fuel)). }
  eapply returns_weaken; [|exact L]. intros a' La. destruct La as [F' U' [q' Q'] [c' C'] A' S' O'].
  { unfold busy in *. by rewrite U. }
  split; try congruence.
  - exists (q ++ q'). by rewrite Q', Q, (assoc_L (++)).
  - exists (c ++ c'). by rewrite C', C, (assoc_L (++)).
  - intros ty. destruct (A ty) as [x X], (A' ty) as [x' X']. exists (x ++ x'). by rewrite X', X, (assoc_L (++)).
  - auto.
Qed.

(** Releasing focus handles calls no code and releases no entity: no window in its slot
    is about to be closed. *)
Lemma blur_frame (win : Window) a :
  app_entities (blur win a).1 = app_entities a /\ removed (blur win a).2 = removed win /\
  pending_updates (effects (blur win a).1) = pending_updates (effects a).
Proof.
  unfold blur, clear_pending_keystrokes. destruct (pending_input win); (destruct (negb _); [done|]);
    unfold refresh; by destruct (not_drawing _).
Qed.

Lemma update_window_blur_entities fuel id handle_id a :
  busy a -> app_ok a ->
  returns (fun r => app_entities r.1 = app_entities a)
    (update_window_id target_macos (exec value_type target_macos fuel) (flush_effects value_type target_macos fuel) id (fun a window =>
       Ok (if bool_decide (focus window = Some handle_id) then blur window a else (a, window))) a).
Proof.
  intros Hb [_ _ W]. unfold update_window_id, update. apply returns_bind. cbn [wins start_update with_updates set_effects].
  assert (Hfin : forall a1, app_entities a1 = app_entities a -> pending_updates (effects a1) = pending_updates (effects a) + 1 -> forall o : option unit,
    returns (fun r : App * option unit => app_entities r.1 = app_entities a)
      (let! a := finish_update (flush_effects value_type target_macos fuel) a1 in Ok (a, o))).
  { intros a1 E U o. rewrite finish_nested by (unfold busy in Hb; lia). exact E. }
  destruct (windows (wins a) !! id) as [[win|]|] eqn:Ew; [|by apply Hfin..]. destruct (W id win Ew) as [Hr _]. cbn [obind].
  set (a0 := with_windows _ _ _ _). assert (E0 : app_entities a0 = app_entities a /\ pending_updates (effects a0) = pending_updates (effects a) + 1) by done.
  clearbody a0. destruct E0 as [E0 U0].
  assert (Hblur : exists a1 win1, (if bool_decide (focus win = Some handle_id) then blur win a0 else (a0, win)) = (a1, win1) /\
    app_entities a1 = app_entities a /\ pending_updates (effects a1) = pending_updates (effects a) + 1 /\ removed win1 = false).
  { destruct (bool_decide _); [|by exists a0, win]. destruct (blur win a0) as [a1 win1] eqn:Eb. exists a1, win1. split; [done|].
    destruct (blur_frame win a0) as (E1 & R1 & U1). rewrite Eb in *. cbn in *. split_and!; congruence. }
  destruct Hblur as (a1 & win1 & -> & E1 & U1 & R1). cbv zeta. rewrite R1. cbn [wins with_windows set_wins windows].
  destruct (windows (wins a1) !! id); by apply Hfin.
Qed.

Lemma release_focus_entities fuel a :
  busy a -> app_ok a ->
  returns (fun a' => app_entities a' = app_entities a)
    (release_dropped_focus_handles target_macos (exec value_type target_macos fuel) (flush_effects value_type target_macos fuel) a).
Proof.
  intros Hb Ha.
  set (P := fun a' : App => busy a' /\ app_ok a' /\ app_entities a' = app_entities a).
  apply (returns_weaken P); [by intros a' (_ & _ & E)|]. apply returns_ofold; [done|].
  intros a1 [hid n] (B1 & O1 & E1). destruct (n =? 0); [|done]. apply returns_bind.
  apply (returns_weaken P).
  { intros a2 (B2 & O2 & E2). split_and!; [done|by apply (app_ok_frame a2)|done]. }
  apply returns_ofold; [done|]. intros a2 wid (B2 & O2 & E2). apply returns_bind.
  pose proof (update_window_blur_entities fuel wid hid a2 B2 O2) as HE.
  pose proof (update_window_id_later _ (flush_effects value_type target_macos fuel) (exec_step fuel) wid (fun a window =>
    Ok (if bool_decide (focus window = Some hid) then blur window a else (a, window))) a2) as HL.
  assert (Hf : forall a win, returns (window_step a win) (Ok (if bool_decide (focus win = Some hid) then blur win a else (a, win)))).
  { intros a3 win. cbn. destruct (bool_decide _); [apply blur_step|done]. }
  eapply returns_weaken; [|exact (returns_and _ _ _ HE (HL Hf))]. intros [a3 o] [E3 L3]. apply returns_bind, returns_intro. intros u _. cbn in *.
  destruct (L3 B2) as [_ U _ _ _ _ O3]. split_and!; [unfold busy in *; by rewrite U|auto|congruence].
Qed.

(** ** The effect loop *)

(** [flush_effects] with the list of the effects that it applies. *)
Fixpoint flush_trace (fuel : nat) a : outcome (App * list Effect) :=
  match fuel with
  | O => OutOfFuel
  | S fuel =>
      let! a := release_dropped_entities value_type (exec value_type target_macos fuel) (flush_effects value_type target_macos fuel) fuel a in
      let! a := release_dropped_focus_handles target_macos (exec value_type target_macos fuel) (flush_effects value_type target_macos fuel) a in
      match pending_effects (effects a) with
      | e :: rest =>
          let! a := apply_effect value_type target_macos (exec value_type target_macos fuel) (flush_effects value_type target_macos fuel) e (with_queue rest a) in
          let! (a, trace) := flush_trace fuel a in
          Ok (a, e :: trace)
      | [] => Ok (a, [])
      end
  end.

Lemma flush_trace_flush fuel : forall a,
  flush_effects value_type target_macos fuel a = (let! (a', _) := flush_trace fuel a in Ok a').
Proof.
  induction fuel as [|fuel IH]; intros a; [done|]. cbn [flush_effects flush_trace].
  destruct (release_dropped_entities _ _ _ _ _) as [a1| |]; [|done..]. cbn [obind].
  destruct (release_dropped_focus_handles _ _ _ _) as [a2| |]; [|done..]. cbn [obind].
  destruct (pending_effects (effects a2)) as [|e rest]; [done|].
  destruct (apply_effect _ _ _ _ _ _) as [a3| |]; [|done..]. cbn [obind]. rewrite IH.
  by destruct (flush_trace fuel a3) as [[a4 tr]| |].
Qed.

(** What the loop does to a state that is being updated. *)
Record flushed (a : App) (r : App * list Effect) : Prop := mkFlushed {
  fl_trace : exists caused, r.2 = pending_effects (effects a) ++ caused;
  fl_queue : pending_effects (effects r.1) = [];
  fl_dropped : dropped_entity_ids (ref_counts (app_entities r.1)) = [];
  fl_flushing : flushing_effects (effects r.1) = flushing_effects (effects a);
  fl_updates : pending_updates (effects r.1) = pending_updates (effects a);
  fl_calls : exists new, calls (client r.1) = calls (client a) ++ new;
  fl_actions : forall ty, exists new, default [] (global_action_listeners r.1 !! ty) = default [] (global_action_listeners a !! ty) ++ new;
  fl_stack : window_update_stack (wins r.1) = window_update_stack (wins a);
  fl_ok : app_ok r.1;
}.

Lemma flush_ok fuel : forall a, busy a -> app_ok a -> returns (flushed a) (flush_trace fuel a).
Proof.
  induction fuel as [|fuel IH]; intros a Hb Ha; [done|]. cbn [flush_trace]. apply returns_bind.
  eapply returns_weaken; [|apply (release_dropped_later _ _ (exec_step fuel))]. intros a1 [L1 D1]. apply returns_bind.
  destruct (L1 Hb) as [F1 U1 [q1 Q1] [c1 C1] A1 S1 O1]. assert (B1 : busy a1) by (unfold busy in *; by rewrite U1).
  eapply returns_weaken; [|apply returns_and; [apply (release_focus_later _ _ (exec_step fuel))|apply release_focus_entities; auto]].
  intros a2 [L2 E2]. destruct (L2 B1) as [F2 U2 [q2 Q2] [c2 C2] A2 S2 O2]. assert (B2 : busy a2) by (unfold busy in *; by rewrite U2).
  destruct (app_extends_trans _ _ _ (L1 Hb) (L2 B1)) as [F U [q Q] [c C] A S O].
  destruct (pending_effects (effects a2)) as [|e rest] eqn:Eq.
  - split; cbn; try done.
    + destruct (pending_effects (effects a)); [by exists []|done].
    + by rewrite E2.
    + by exists c.
    + by apply O.
  - apply returns_bind. eapply returns_weaken; [|apply (apply_effect_popped fuel e rest a2 B2 (O Ha) Eq)].
    intros a3 [F3 U3 [q3 Q3] [c3 C3] A3 S3 O3]. apply returns_bind.
    eapply returns_weaken; [|apply (IH a3)]; [|unfold busy in *; by rewrite U3|done].
    intros [a4 tr] [[q4 T4] Z4 D4 F4 U4 [c4 C4] A4 S4 O4]. split; cbn in *; try congruence.
    + destruct (pending_effects (effects a)) as [|e' q0]; [by eexists|]. injection Q as -> ->.
      exists (q ++ q3 ++ q4). by rewrite T4, Q3, <- !(assoc_L (++)).
    + exists (c ++ c3 ++ c4). by rewrite C4, C3, C, <- !(assoc_L (++)).
    + intros ty. destruct (A ty) as [x X], (A3 ty) as [x3 X3], (A4 ty) as [x4 X4].
      exists (x ++ x3 ++ x4). by rewrite X4, X3, X, <- !(assoc_L (++)).
Qed.
End Queue.
