(* ===== verification/AppFlow.v ===== *)
(** * Updates of the app: effects, deliveries, errors

    [enter_correct] is the life of an update from outside; [notify_correct],
    [delivery_correct] and [dispatch_global_action_correct] say who hears of what;
    [update_errors] lists the calls that panic. *)

From Stdlib Require Import NArith.
From stdpp Require Import base list option numbers gmap.
From S2P Require Import Prelude Subscription EntityMap App AppQueue.

#[local] Set Warnings "-register-all,-clear-no-such-hyp".

Section Flow.
Context {Value : Type} (value_type : Value -> TypeId).
Context `{SlotKeys Slots}.
Context {Code : Type}.
Context `{!Client (Value := Value) (Slots := Slots) (Code := Code)} (target_macos : bool).

#[local] Abbreviation App := (App (Value := Value) (Slots := Slots) (Code := Code)).
#[local] Abbreviation Effect := (Effect (Value := Value) (Code := Code)).
Implicit Types (a : App) (w : option (Window (Code := Code))).

(** ** Between updates *)

(** No update is running; effects may be pending, pushed outside of updates. *)
Record at_rest a : Prop := mkAtRest {
  re_ok : app_ok a;
  re_flushing : flushing_effects (effects a) = false;
  re_updates : pending_updates (effects a) = 0;
  re_stack : window_update_stack (wins a) = [];
}.

(** And nothing is left to do. *)
Record settled a : Prop := mkSettled {
  se_rest : at_rest a;
  se_queue : pending_effects (effects a) = [];
  se_dropped : dropped_entity_ids (ref_counts (app_entities a)) = [];
}.

Lemma app_ok_counters a a' :
  pending_effects (effects a') = pending_effects (effects a) -> pending_notifications (effects a') = pending_notifications (effects a) ->
  pending_global_notifications (effects a') = pending_global_notifications (effects a) -> wins a' = wins a -> app_ok a -> app_ok a'.
Proof. intros Q N G W [[? ? ? ?] ? ?]. split; [split|..]; by rewrite ?Q, ?N, ?G, ?W. Qed.

Lemma settled_notifications a : settled a -> pending_notifications (effects a) = ∅ /\ pending_global_notifications (effects a) = ∅.
Proof. intros [[[[N _ G _] _ _] _ _ _] Q _]. rewrite Q in N, G. by rewrite N, G. Qed.

Lemma app_new_settled : settled (app_new (Value := Value) (Slots := Slots) (Code := Code)).
Proof.
  split; try done. split; try done. split.
  - split; try done; constructor.
  - intros e id. cbn. rewrite ?lookup_empty. set_solver.
  - intros id win. by rewrite ?lookup_empty.
Qed.

Lemma enter_ok fuel f a a' :
  at_rest a -> enter value_type target_macos fuel f a = Ok a' ->
  exists a1 caused trace, settled a' /\ later (start_update a) a1 /\
    (exists seg, calls (client a1) = calls (client a) ++ (f, CallDeferred) :: seg) /\
    flush_trace value_type target_macos fuel (with_flushing true a1) = Ok (trace, pending_effects (effects a1) ++ caused) /\
    a' = with_updates 0 (with_flushing false trace) /\
    (forall ty, exists more, default [] (global_action_listeners a' !! ty) = default [] (global_action_listeners a !! ty) ++ more) /\
    (exists more, calls (client a') = calls (client a) ++ more).
Proof.
  intros [Ha F U S]. unfold enter, update.
  pose proof (exec_step value_type target_macos fuel None (script f CallDeferred (start_update a)) (log_call f CallDeferred (start_update a), None)) as Hx.
  unfold call_code. destruct (exec _ _ _ _ _ _) as [[a1 w1]| |]; [|done..]. destruct Hx as [L _]. cbn [fst snd] in L. cbn [obind].
  assert (Hb : busy (log_call f CallDeferred (start_update a))) by (unfold busy; cbn; lia).
  assert (Ls : later (start_update a) a1) by (etransitivity; [apply (log_call_later f CallDeferred)|exact L]).
  destruct (L Hb) as [F1 U1 Q1 [c1 C1] A1 S1 O1]. cbn in F1, U1, C1, A1, S1.
  assert (Ha1 : app_ok a1) by (by apply O1, (app_ok_counters a)).
  unfold finish_update. rewrite F1, F, U1, U. cbn [negb andb Nat.add Nat.eqb]. rewrite flush_trace_flush.
  pose proof (flush_ok value_type target_macos fuel (with_flushing true a1)) as Hfl.
  destruct (flush_trace value_type target_macos fuel (with_flushing true a1)) as [[a2 tr]| |] eqn:Et; [|done..]. cbn [obind].
  destruct Hfl as [[caused T2] Q2 D2 F2 U2 [c2 C2] A2 S2 O2]; [unfold busy; cbn; lia|by apply (app_ok_counters a1)|].
  cbn in T2, Q2, D2, F2, U2, C2, A2, S2, O2. cbn [effects with_flushing set_effects pending_updates]. rewrite U2, U1, U. cbn [Nat.add usize_pred obind].
  intros [= <-]. exists a1, caused, a2. split; [|split; [exact Ls|split; [|split; [by subst tr|split; [done|split]]]]].
  - split; [split|..]; cbn; try done; [|by rewrite S2, S1]. by apply (app_ok_counters a2).
  - exists c1. by rewrite C1, <- (assoc_L (++)).
  - intros ty. destruct (A1 ty) as [x X], (A2 ty) as [x2 X2]. exists (x ++ x2). cbn. by rewrite X2, X, (assoc_L (++)).
  - exists ([(f, CallDeferred)] ++ c1 ++ c2). cbn. rewrite C2, C1, <- !(assoc_L (++)). done.
Qed.

(** C29: an update from outside, if it returns, runs the code and then applies effects until
    none is left: those that are pending when the code is done first, in the order in which
    they were pushed, then those that they caused; while the code runs nothing is applied.  It ends with an empty queue,
    no notification pending, no entity waiting to be released, no window on the stack and
    no update running, so that the next update starts from the same conditions; the
    invariants of the queue (each pending notification once, and recorded as pending), of
    the windows and of the tracking of entities hold again; and no action listener is
    lost. *)
Theorem enter_correct fuel f a a' :
  at_rest a -> enter value_type target_macos fuel f a = Ok a' ->
  settled a' /\ pending_notifications (effects a') = ∅ /\ pending_global_notifications (effects a') = ∅ /\
  (exists a1 final caused, extends (start_update a) a1 /\
     (exists seg, calls (client a1) = calls (client a) ++ (f, CallDeferred) :: seg) /\
     flush_trace value_type target_macos fuel (with_flushing true a1) = Ok (final, pending_effects (effects a1) ++ caused) /\
     a' = with_updates 0 (with_flushing false final)) /\
  (forall ty, exists more, default [] (global_action_listeners a' !! ty) = default [] (global_action_listeners a !! ty) ++ more) /\
  (exists more, calls (client a') = calls (client a) ++ more).
Proof.
  intros Hs He. destruct (enter_ok fuel f a a' Hs He) as (a1 & caused & final & S' & L & Hc & Ht & E & A & C).
  destruct (settled_notifications a' S'). split_and!; try done. exists a1, final, caused. split_and!; try done.
  apply L. unfold busy. cbn. lia.
Qed.

(** ** Who is told *)

Section Open.
Context (run : option AnyWeakEntity -> list (Command (Value := Value) (Code := Code)) -> App * option (Window (Code := Code)) ->
  outcome (App * option (Window (Code := Code)))).
Context (flush : App -> outcome App).
Hypothesis run_step : forall this cs st, returns (step st.1 st.2) (run this cs st).

(** A call is the first of those that it leads to. *)
Definition logged (a : App) (f : Code) (c : Call) (a' : App) : Prop :=
  exists nested, calls (client a') = calls (client a) ++ (f, c) :: nested.

Lemma later_logged a a' f c a'' : logged a f c a' -> busy a' -> later a' a'' -> logged a f c a''.
Proof.
  intros [n N] Hb L. destruct (L Hb) as [_ _ _ [n' N'] _ _ _]. exists (n ++ n'). by rewrite N', N, <- (assoc_L (++)).
Qed.

Lemma call_code_logged f c this w a : busy a -> returns (fun r => logged a f c r.1 /\ busy r.1) (call_code run f c this w a).
Proof.
  intros Hb. eapply returns_weaken; [|apply run_step]. intros [a1 w1] [L _]. cbn [fst snd] in *.
  destruct (L Hb) as [F U _ [n N] _ _ _]. split; [|unfold busy in *; by rewrite U].
  exists n. rewrite N. cbn. by rewrite <- (assoc_L (++)).
Qed.

Lemma update_entity_logged h f c w a : busy a -> returns (fun r => logged a f c r.1) (update_entity value_type run flush h f c w a).
Proof.
  intros Hb. unfold update_entity, update. apply returns_bind.
  assert (Hs : busy (start_update a)) by (unfold busy; cbn; lia).
  eapply returns_weaken with (P := fun r : App * _ => logged a f c r.1 /\ 2 <= pending_updates (effects r.1)).
  { intros [a1 w1] [N U]. rewrite finish_nested by exact U. exact N. }
  apply returns_bind, returns_intro. intros [m l] _. apply returns_bind, returns_intro. intros v _.
  apply returns_bind, returns_intro. intros l' _. apply returns_bind.
  set (a0 := set_entities m (start_update a)). assert (B0 : busy a0) by done.
  pose proof (call_code_step run run_step f c (Some (downgrade h)) w a0) as H1.
  pose proof (call_code_logged f c (Some (downgrade h)) w a0 B0) as H2.
  eapply returns_weaken; [|exact (returns_and _ _ _ H1 H2)]. intros [a1 w1] [[L _] [N _]].
  apply returns_bind, returns_intro. intros m' _. cbn [fst snd] in *.
  split; [exact N|]. destruct (L B0) as [_ U _ _ _ _ _]. unfold busy in Hb. cbn in *. lia.
Qed.

(** The entity of a weak handle is gone. *)
Definition gone (x : AnyWeakEntity) a : Prop := is_upgradable (Some (app_entities a)) x = false.

(** A weak handle is upgraded unless its entity is gone, which does not decide about others. *)
Lemma app_upgrade_cases x a :
  match app_upgrade x a with
  | (a1, None) => gone x a /\ a1 = a
  | (a1, Some h) => ~ gone x a /\ entity_id h = weak_entity_id x /\ (forall y, gone y a1 <-> gone y a) /\ a1 = set_entities (app_entities a1) a
  end.
Proof.
  unfold app_upgrade, upgrade, gone, is_upgradable, weak_map. destruct (attached x); [|by destruct a].
  destruct (counts (ref_counts (app_entities a)) !! weak_entity_id x) as [[|n]|] eqn:E; cbn; rewrite ?E; cbn; [by destruct a| |by destruct a].
  split_and!; try done. intros y. destruct (attached y); [|done]. cbn.
  destruct (decide (weak_entity_id y = weak_entity_id x)) as [->|Hne]; [rewrite lookup_insert_eq, E; done|by rewrite lookup_insert_ne].
Qed.

(** The code [f] is called in the state [ab], on the entity [on] when it is one of those
    updated: its commands are executed with the call recorded, and what follows only puts the
    entity back. *)
Definition called (f : Code) (c : Call) (on : option EntityId) (ab a' : App) : Prop :=
  exists this w st, option_map weak_entity_id this = on /\ run this (script f c ab) (log_call f c ab, w) = Ok st /\
    a' = set_entities (app_entities a') (with_updates (pending_updates (effects a')) st.1) /\ logged ab f c a'.

Lemma call_code_called f c this w a : busy a -> returns (fun r => called f c (option_map weak_entity_id this) a r.1) (call_code run f c this w a).
Proof.
  intros Hb. pose proof (call_code_logged f c this w a Hb) as Hl. apply returns_intro. intros [a1 w1] E.
  apply (returns_Ok _ _ _ Hl) in E as Hl'. exists this, w, (a1, w1). split_and!; [done|exact E|by destruct a1 as [[] ? ? ? ? ? ? ? ? ? ? ?]|apply Hl'].
Qed.

Lemma update_entity_called h f c w a : busy a ->
  returns (fun r => exists ab, client ab = client a /\ called f c (Some (entity_id h)) ab r.1) (update_entity value_type run flush h f c w a).
Proof.
  intros Hb. unfold update_entity, update. apply returns_bind.
  assert (Hs : busy (start_update a)) by (unfold busy; cbn; lia).
  eapply returns_weaken with (P := fun r : App * _ => (exists ab, client ab = client a /\ called f c (Some (entity_id h)) ab r.1) /\ 2 <= pending_updates (effects r.1)).
  { intros [a1 w1] [(ab & Ec & this & w0 & st & Et & Er & Ea & Hl) U]. rewrite finish_nested by exact U. exists ab. split; [exact Ec|].
    exists this, w0, st. split_and!; [done|done| |exact Hl]. cbn [fst] in *. by rewrite Ea. }
  apply returns_bind, returns_intro. intros [m l] _. apply returns_bind, returns_intro. intros v _.
  apply returns_bind, returns_intro. intros l' _. apply returns_bind.
  set (a0 := set_entities m (start_update a)). assert (B0 : busy a0) by done.
  pose proof (call_code_step run run_step f c (Some (downgrade h)) w a0) as H1.
  pose proof (call_code_called f c (Some (downgrade h)) w a0 B0) as H2.
  eapply returns_weaken; [|exact (returns_and _ _ _ H1 H2)]. intros [a1 w1] [[L _] (this & w0 & st & Et & Er & Ea & Hl)].
  apply returns_bind, returns_intro. intros m' _. cbn [fst snd] in *. split.
  - exists a0. split; [done|]. exists this, w0, st. split_and!; [done|done|by rewrite Ea|exact Hl].
  - destruct (L B0) as [_ U _ _ _ _ _]. unfold busy in Hb. cbn in *. lia.
Qed.

(** Handing back a handle changes the entities only. *)
Lemma called_dropped f c on ab a1 h : called f c on ab a1 -> returns (called f c on ab) (app_drop h a1).
Proof.
  intros (this & w & st & Et & Er & Ea & Hl). unfold app_drop. apply returns_bind, returns_intro. intros m _.
  exists this, w, st. split_and!; [done|done| |exact Hl]. by rewrite Ea.
Qed.

(** The client holds an entity under a key. *)
Definition holds (k : Key) (x : AnyWeakEntity) a : Prop :=
  exists h, held_entities (client a) !! k = Some h /\ entity_id h = weak_entity_id x.

(** What a callback does in its turn: if all entities it needs are there it is called, with a
    handle to the emitter where it gets one, and is kept; if one is gone nothing is called,
    and it is not. *)
Definition turn (f : Code) (c : Key -> Call) (on : option EntityId) (emitter : option AnyWeakEntity) (needs : list AnyWeakEntity)
    a a' (keep : bool) : Prop :=
  (keep = true /\ Forall (fun x => ~ gone x a) needs /\
   exists ab k, calls (client ab) = calls (client a) /\ (forall x, emitter = Some x -> holds k x ab) /\ called f (c k) on ab a') \/
  (keep = false /\ Exists (fun x => gone x a) needs /\ calls (client a') = calls (client a)).

(** The closures of [observe] and [subscribe], in both forms. *)
Lemma app_turn handle f (c : Key -> Call) {B} (h : B) a :
  busy a ->
  returns (fun r => turn f c None (Some handle) [handle] a r.1.1 r.2 /\ r.1.2 = h)
    (match app_upgrade handle a with
     | (a, None) => Ok (a, h, false)
     | (a, Some entity) =>
         let (a, k) := give_entity entity a in
         let! (a, _) := call_code run f (c k) None None a in
         Ok (a, h, true)
     end).
Proof.
  intros Hb. pose proof (app_upgrade_cases handle a) as C. destruct (app_upgrade handle a) as [a1 [e|]].
  - destruct C as (Hg & Ei & _ & Ea). unfold give_entity. apply returns_bind.
    set (a2 := with_client _ _ _ _ a1). assert (B2 : busy a2) by (unfold busy; cbn; by rewrite Ea).
    eapply returns_weaken; [|apply (call_code_called f _ None None a2 B2)]. intros [a3 w3] Hc. cbn in Hc |- *. split; [|done].
    left. split; [done|]. split; [by repeat constructor|]. exists a2, (next_key (client a1)). split; [cbn; by rewrite Ea|].
    split; [|exact Hc]. intros x [= <-]. exists e. split; [apply lookup_insert_eq|done].
  - destruct C as [Hg ->]. cbn. split; [|done]. right. split_and!; [done|by left|done].
Qed.

Lemma context_turn handle this f (c : EntityId -> Key -> Call) {B} (h : B) a :
  busy a ->
  returns (fun r => turn f (c (weak_entity_id this)) (Some (weak_entity_id this)) (Some handle) [handle; this] a r.1.1 r.2 /\ r.1.2 = h)
    (match app_upgrade handle a with
     | (a, None) => Ok (a, h, false)
     | (a, Some entity) =>
         match app_upgrade this a with
         | (a, None) => let! a := app_drop entity a in Ok (a, h, false)
         | (a, Some this) =>
             let (a, k) := give_entity entity a in
             let! (a, _) := update_entity value_type run flush this f (c (entity_id this) k) None a in
             let! a := app_drop this a in
             Ok (a, h, true)
         end
     end).
Proof.
  intros Hb. pose proof (app_upgrade_cases handle a) as C. destruct (app_upgrade handle a) as [a1 [e|]].
  2:{ destruct C as [Hg ->]. cbn. split; [|done]. right. split_and!; [done|by left|done]. }
  destruct C as (Hg & Ei & Hy & Ea). pose proof (app_upgrade_cases this a1) as C. destruct (app_upgrade this a1) as [a2 [t|]].
  - destruct C as (Hg2 & Et & _ & Ea2). rewrite Hy in Hg2. unfold give_entity. apply returns_bind. rewrite Et.
    set (a3 := with_client _ _ _ _ a2). assert (B3 : busy a3) by (unfold busy; cbn; by rewrite Ea2, Ea).
    eapply returns_weaken; [|apply (update_entity_called t f _ None a3 B3)]. intros [a4 w4] (ab & Ec & Hc). apply returns_bind.
    rewrite Et in Hc. eapply returns_weaken; [|apply (called_dropped _ _ _ _ _ t Hc)]. intros a5 Hc5. cbn. split; [|done].
    left. split; [done|]. split; [by repeat constructor|]. exists ab, (next_key (client a2)).
    split; [rewrite Ec; cbn; by rewrite Ea2, Ea|]. split; [|exact Hc5]. intros x [= <-]. exists e. rewrite Ec. split; [apply lookup_insert_eq|done].
  - destruct C as [Hg2 ->]. rewrite Hy in Hg2. apply returns_bind. unfold app_drop. apply returns_bind, returns_intro. intros m _. cbn.
    split; [|done]. right. split_and!; [done|by right; left|by rewrite Ea].
Qed.

Lemma weak_update_turn this f c w a :
  busy a -> returns (fun r => turn f (fun _ => c) (Some (weak_entity_id this)) None [this] a r.1.1 r.2) (weak_update value_type run flush this f c w a).
Proof.
  intros Hb. unfold weak_update. pose proof (app_upgrade_cases this a) as C. destruct (app_upgrade this a) as [a1 [t|]].
  - destruct C as (Hg & Et & _ & Ea). assert (B1 : busy a1) by (unfold busy; by rewrite Ea). apply returns_bind.
    eapply returns_weaken; [|apply (update_entity_called t f c w a1 B1)]. intros [a2 w2] (ab & Ec & Hc). apply returns_bind.
    rewrite Et in Hc. eapply returns_weaken; [|apply (called_dropped _ _ _ _ _ t Hc)]. intros a5 Hc5. cbn.
    left. split; [done|]. split; [by repeat constructor|]. exists ab, 0. split; [by rewrite Ec, Ea|done].
  - destruct C as [Hg ->]. cbn. right. split_and!; [done|by left|done].
Qed.

Definition handler_turn (h : Handler) a a' (keep : bool) : Prop :=
  match h with
  | OnNotify handle f => turn f CallNotify None (Some handle) [handle] a a' keep
  | OnNotifyIn handle this f => turn f (CallNotifyIn (weak_entity_id this)) (Some (weak_entity_id this)) (Some handle) [handle; this] a a' keep
  | OnGlobal f => turn f (fun _ => CallGlobal) None None [] a a' keep
  | OnGlobalIn this f => turn f (fun _ => CallGlobalIn (weak_entity_id this)) (Some (weak_entity_id this)) None [this] a a' keep
  end.

Lemma call_handler_turn a h : busy a -> returns (fun r => handler_turn h a r.1.1 r.2 /\ r.1.2 = h) (call_handler value_type run flush a h).
Proof.
  intros Hb. destruct h as [handle f|handle this f|f|this f]; cbn [call_handler handler_turn].
  - by apply (app_turn handle f CallNotify).
  - by apply (context_turn handle this f CallNotifyIn).
  - apply returns_bind. eapply returns_weaken; [|by apply call_code_called]. intros [a1 w1] Hc. cbn in Hc |- *. split; [|done].
    left. split; [done|]. split; [constructor|]. by exists a, 0.
  - apply returns_bind. eapply returns_weaken; [|by apply weak_update_turn]. by intros [[a1 w1] there] T.
Qed.

Definition listener_turn (v : Value) (l : Listener) a a' (keep : bool) : Prop :=
  match l with
  | OnEvent handle evt f => value_type v = evt /\ turn f (fun k => CallEvent k v) None (Some handle) [handle] a a' keep
  | OnEventIn handle this evt f =>
      value_type v = evt /\ turn f (fun k => CallEventIn (weak_entity_id this) k v) (Some (weak_entity_id this)) (Some handle) [handle; this] a a' keep
  end.

Lemma call_listener_turn v a l : busy a -> returns (fun r => listener_turn v l a r.1.1 r.2 /\ r.1.2 = l) (call_listener value_type run flush v a l).
Proof.
  intros Hb. destruct l as [handle evt f|handle this evt f]; cbn [call_listener listener_turn];
    (destruct (value_type v =? evt)%N eqn:E; [|done]; apply N.eqb_eq in E; cbn [negb]).
  - eapply returns_weaken; [|by apply (app_turn handle f (fun k => CallEvent k v))]. intros r []. by split_and!.
  - eapply returns_weaken; [|by apply (context_turn handle this f (fun id k => CallEventIn id k v))]. intros r []. by split_and!.
Qed.

(** The turn of a subscriber to events: of another type, it is passed over. *)
Definition event_turn (ty : TypeId) (v : Value) (p : TypeId * Listener) a a' (keep : bool) : Prop :=
  if (p.1 =? ty)%N then listener_turn v p.2 a a' keep else keep = true /\ a' = a.

(** The subscribers have their turns one after the other, each in the state in which the one
    before has left the app; those of them that are kept. *)
Inductive taken {K Callback} `{Countable K} (get : App -> SubscriberSet K Callback) (T : Callback -> App -> App -> bool -> Prop) :
    list (nat * Subscriber Callback) -> App -> list (nat * Subscriber Callback) -> App -> Prop :=
| taken_nil a : taken get T [] a [] a
| taken_active id sub todo a a1 keep kept a2 :
    is_active (get a) sub = true -> T (callback sub) a a1 keep -> taken get T todo a1 kept a2 ->
    taken get T ((id, sub) :: todo) a (if keep then (id, sub) :: kept else kept) a2
| taken_inactive id sub todo a kept a2 :
    is_active (get a) sub = false -> taken get T todo a kept a2 -> taken get T ((id, sub) :: todo) a ((id, sub) :: kept) a2.

(** Telling the subscribers of an emitter: they are out of the set while they have their
    turns, and those kept go back to it, with those that came and without those that went
    meanwhile. *)
Definition turns {K Callback} `{Countable K} (get : App -> SubscriberSet K Callback) (put : SubscriberSet K Callback -> App -> App)
    (T : Callback -> App -> App -> bool -> Prop) (e : K) (a a' : App) : Prop :=
  match subscribers (get a) !! e with
  | Some (Some subs) =>
      exists kept a1, taken get T subs (put (set_subscribers (get a) (<[e := None]> (subscribers (get a)))) a) kept a1 /\
        a' = put (retain_merge (get a1) e kept) a1
  | _ => a' = a
  end.

Lemma retain_in_turns {K} `{!EqDecision K, !Countable K} {Callback} (get : App -> SubscriberSet K Callback) put
    (T : Callback -> App -> App -> bool -> Prop) f a e :
  (forall s a, later a (put s a)) -> (forall a cb, returns (fun r => later a r.1.1) (f a cb)) ->
  (forall a cb, busy a -> returns (fun r => T cb a r.1.1 r.2 /\ r.1.2 = cb) (f a cb)) ->
  busy a -> returns (turns get put T e a) (retain_in get put a e f).
Proof.
  intros Hput Hl Hf Hb. unfold retain_in, turns. destruct (subscribers (get a) !! e) as [[subs|]|]; [|done..].
  set (a0 := put _ a). apply returns_bind.
  assert (Hc : forall todo a1, busy a1 -> returns (fun r => taken get T todo a1 r.2 r.1) (retain_calls_in get f a1 todo)).
  { induction todo as [|[id sub] todo IH]; intros a1 B1; [constructor|]. cbn [retain_calls_in].
    apply returns_bind. destruct (is_active (get a1) sub) eqn:Ea.
    - eapply returns_weaken; [|exact (returns_and _ _ _ (Hl a1 (callback sub)) (Hf a1 (callback sub) B1))].
      intros [[a2 cb] keep] [L2 [T2 Ecb]]. cbn in L2, T2, Ecb. subst cb. destruct (L2 B1) as [_ U2 _ _ _ _ _]. apply returns_bind.
      eapply returns_weaken; [|apply (IH a2); unfold busy in *; by rewrite U2]. intros [a3 kept] F. cbn.
      destruct sub as [cell cb]. by eapply (taken_active get T id (mkSubscriber cell cb) todo a1 a2 keep kept a3).
    - cbn. apply returns_bind. eapply returns_weaken; [|apply (IH a1 B1)]. intros [a3 kept] F. destruct sub. by apply taken_inactive. }
  assert (B0 : busy a0).
  { pose proof (Hput (set_subscribers (get a) (<[e:=None]> (subscribers (get a)))) a Hb) as [_ U _ _ _ _ _]. unfold busy, a0 in *. by rewrite U. }
  eapply returns_weaken; [|apply (Hc subs a0 B0)]. intros [a1 kept] F. by exists kept, a1.
Qed.

Lemma notify_turns e a : busy a ->
  returns (turns (fun a => observers (listeners a)) put_observers handler_turn e
             (with_notifications (pending_notifications (effects a) ∖ {[e]}) a)) (apply_notify_effect value_type run flush e a).
Proof.
  intros Hb. apply retain_in_turns; try done.
  - intros s a1. by apply later_frame.
  - intros a1 h. by apply call_handler_later.
  - intros a1 h B. by apply call_handler_turn.
Qed.

Lemma global_turns ty a : busy a ->
  returns (turns (fun a => global_observers (listeners a)) put_global_observers handler_turn ty
             (with_global_notifications (pending_global_notifications (effects a) ∖ {[ty]}) a))
    (apply_notify_global_observers_effect value_type run flush ty a).
Proof.
  intros Hb. apply retain_in_turns; try done.
  - intros s a1. by apply later_frame.
  - intros a1 h. by apply call_handler_later.
  - intros a1 h B. by apply call_handler_turn.
Qed.

Lemma emit_turns e ty v a : busy a ->
  returns (turns (fun a => event_listeners (listeners a)) put_event_listeners (event_turn ty v) e a) (apply_emit_effect value_type run flush e ty v a).
Proof.
  intros Hb. apply retain_in_turns; try done.
  - intros s a1. by apply later_frame.
  - intros a1 [ty' l]. destruct (_ =? _)%N; [|by cbn]. apply returns_bind.
    eapply returns_weaken; [|by apply call_listener_later]. by intros [[a2 l2] keep] L.
  - intros a1 [ty' l] B. unfold event_turn. cbn [fst snd]. destruct (_ =? _)%N; [|done]. apply returns_bind.
    eapply returns_weaken; [|by apply call_listener_turn]. intros [[a2 l2] keep] [T E]. cbn in *. by rewrite E.
Qed.
End Open.


(** ** Notifications *)

Lemma invalidate_view_invalidators id e a id' :
  invalidator_of (invalidate_view id e a).1 id' =
    if decide (id' = id) then
      let i := invalidator_of a id in
      mkInvalidator (dirty i || not_drawing i) (draw_phase i) ({[e]} ∪ dirty_views i) (S (update_count i))
    else invalidator_of a id'.
Proof.
  unfold invalidate_view. set (i := invalidator_of a id).
  change (not_drawing (mkInvalidator (dirty i) (draw_phase i) ({[e]} ∪ dirty_views i) (S (update_count i)))) with (not_drawing i).
  assert (Hp : forall a1, invalidator_of (push_effect (Notify e) a1) id' = invalidator_of a1 id').
  { intros a1. cbn [push_effect]. by destruct (bool_decide _). }
  destruct (not_drawing i); cbn [fst]; rewrite ?Hp; unfold invalidator_of; cbn [wins with_invalidators set_wins invalidators];
    (destruct (decide (id' = id)) as [->|Hne]; [rewrite lookup_insert_eq; cbn; by rewrite ?orb_true_r, ?orb_false_r|by rewrite lookup_insert_ne]).
Qed.

Lemma invalidate_view_effects id e a :
  effects (invalidate_view id e a).1 = if not_drawing (invalidator_of a id) then effects (push_notify e a) else effects a.
Proof.
  unfold invalidate_view.
  change (not_drawing (mkInvalidator (dirty (invalidator_of a id)) (draw_phase (invalidator_of a id)) ({[e]} ∪ dirty_views (invalidator_of a id))
    (S (update_count (invalidator_of a id))))) with (not_drawing (invalidator_of a id)).
  destruct (not_drawing _); [|done]. cbn [fst push_effect]. unfold push_notify. by destruct (bool_decide _).
Qed.

Lemma push_notify_effects e a a' : effects a' = effects a -> effects (push_notify e a') = effects (push_notify e a).
Proof.
  intros E. unfold push_notify. rewrite E. destruct (bool_decide _); [done|].
  unfold push_back, with_queue, with_notifications. cbn. by rewrite E.
Qed.

Lemma push_notify_twice e a : effects (push_notify e (push_notify e a)) = effects (push_notify e a).
Proof.
  unfold push_notify at 1. destruct (bool_decide _) eqn:E; [done|]. apply bool_decide_eq_false in E. destruct E.
  unfold push_notify. destruct (bool_decide _) eqn:E'; [by apply bool_decide_eq_true in E'|]. cbn. set_solver.
Qed.

Lemma invalidate_views_effects e ids : forall a,
  effects (fold_left (fun a id => (invalidate_view id e a).1) ids a) =
    if existsb (fun id => not_drawing (invalidator_of a id)) ids then effects (push_notify e a) else effects a.
Proof.
  induction ids as [|id ids IH]; intros a; [done|]. cbn [fold_left existsb]. rewrite IH.
  assert (Ex : existsb (fun id' => not_drawing (invalidator_of (invalidate_view id e a).1 id')) ids =
               existsb (fun id' => not_drawing (invalidator_of a id')) ids).
  { clear IH. induction ids as [|id' ids IH]; [done|]. cbn [existsb]. f_equal; [|exact IH].
    rewrite invalidate_view_invalidators. by destruct (decide (id' = id)) as [->|]. }
  rewrite Ex; clear Ex. pose proof (invalidate_view_effects id e a) as E1. destruct (not_drawing (invalidator_of a id)); cbn [orb].
  - destruct (existsb _ ids); [|exact E1]. rewrite <- (push_notify_twice e a). by apply push_notify_effects.
  - destruct (existsb _ ids); [by apply push_notify_effects|exact E1].
Qed.

Lemma invalidate_views_invalidators e ids : NoDup ids -> forall a id,
  invalidator_of (fold_left (fun a id => (invalidate_view id e a).1) ids a) id =
    if decide (id ∈ ids) then
      let i := invalidator_of a id in
      mkInvalidator (dirty i || not_drawing i) (draw_phase i) ({[e]} ∪ dirty_views i) (S (update_count i))
    else invalidator_of a id.
Proof.
  induction 1 as [|id1 ids Hn Hd IH]; intros a id; [by destruct (decide (id ∈ [])) as [?%elem_of_nil|]|]. cbn [fold_left]. rewrite IH, invalidate_view_invalidators.
  destruct (decide (id = id1)) as [->|Hne].
  - destruct (decide (id1 ∈ ids)); [done|]. destruct (decide (id1 ∈ id1 :: ids)) as [_|Hi]; [done|]. destruct Hi. by left.
  - assert (id ∈ id1 :: ids <-> id ∈ ids) as E by (rewrite elem_of_cons; tauto).
    destruct (decide (id ∈ ids)), (decide (id ∈ id1 :: ids)); tauto.
Qed.

Lemma told_frame e a :
  app_entities (told e a) = app_entities a /\ globals_by_type (told e a) = globals_by_type a /\ listeners (told e a) = listeners a.
Proof.
  assert (Hp : forall a1, let a2 := push_notify e a1 in
    app_entities a2 = app_entities a1 /\ globals_by_type a2 = globals_by_type a1 /\ listeners a2 = listeners a1).
  { intros a1. unfold push_notify. by destruct (bool_decide _). }
  assert (Hi : forall id a1, let a2 := (invalidate_view id e a1).1 in
    app_entities a2 = app_entities a1 /\ globals_by_type a2 = globals_by_type a1 /\ listeners a2 = listeners a1).
  { intros id a1. unfold invalidate_view. destruct (not_drawing _); [|done].
    match goal with |- context [with_invalidators ?i a1] => exact (Hp (with_invalidators i a1)) end. }
  unfold told. destruct (bool_decide _); [apply Hp|].
  generalize (elements (default ∅ (window_invalidators_by_entity (wins a) !! e))). intros ids. revert a.
  induction ids as [|id ids IH]; intros a; [done|]. cbn [fold_left].
  destruct (IH (invalidate_view id e a).1) as (-> & -> & ->). apply Hi.
Qed.

(** [notify].  If no window shows the entity, or one that does is not drawing, the
    notification is queued behind all others, unless it is pending already; if all the
    windows that show it are drawing, nothing is queued.  Every window that shows the
    entity records it as a view to draw again and counts the update, and those that are not
    drawing become dirty; other windows are left alone, and what each window shows, the
    entities, the globals and the subscribers are unchanged. *)
Theorem notify_correct e a :
  let shown := default ∅ (window_invalidators_by_entity (wins a) !! e) in
  let a' := notify e a in
  (shown = ∅ \/ (exists id, id ∈ shown /\ not_drawing (invalidator_of a id) = true) ->
     if decide (e ∈ pending_notifications (effects a)) then effects a' = effects a
     else pending_effects (effects a') = pending_effects (effects a) ++ [Notify e] /\
          pending_notifications (effects a') = {[e]} ∪ pending_notifications (effects a)) /\
  (shown <> ∅ -> (forall id, id ∈ shown -> not_drawing (invalidator_of a id) = false) -> effects a' = effects a) /\
  (forall id, invalidator_of a' id =
     if decide (id ∈ shown) then
       let i := invalidator_of a id in
       mkInvalidator (dirty i || not_drawing i) (draw_phase i) ({[e]} ∪ dirty_views i) (S (update_count i))
     else invalidator_of a id) /\
  (forall e', default ∅ (window_invalidators_by_entity (wins a') !! e') = default ∅ (window_invalidators_by_entity (wins a) !! e')) /\
  tracked_entities (wins a') = tracked_entities (wins a) /\
  app_entities a' = app_entities a /\ globals_by_type a' = globals_by_type a /\ listeners a' = listeners a.
Proof.
  intros shown a'.
  assert (Ep : effects (push_notify e a) = if decide (e ∈ pending_notifications (effects a)) then effects a else
    effects (push_back (Notify e) (with_notifications ({[e]} ∪ pending_notifications (effects a)) a))).
  { unfold push_notify. by destruct (decide _), (bool_decide_reflect (e ∈ pending_notifications (effects a))). }
  assert (Ea : effects a' = effects (told e a)) by (unfold a'; by rewrite notify_told).
  assert (Et : effects (told e a) = if bool_decide (shown = ∅) || existsb (fun id => not_drawing (invalidator_of a id)) (elements shown)
                                    then effects (push_notify e a) else effects a).
  { unfold told. fold shown. destruct (bool_decide (shown = ∅)); [done|]. apply invalidate_views_effects. }
  split_and!.
  - intros Hd. rewrite Ea, Et.
    assert (bool_decide (shown = ∅) || existsb (fun id => not_drawing (invalidator_of a id)) (elements shown) = true) as ->.
    { apply orb_true_iff. destruct Hd as [Hd|(id & Hi & Hn)]; [left; by apply bool_decide_eq_true|right].
      apply existsb_exists. exists id. split; [|done]. by apply list_elem_of_In, elem_of_elements. }
    rewrite Ep. by destruct (decide _).
  - intros Hne Hd. rewrite Ea, Et, (bool_decide_eq_false_2 _ Hne). cbn [orb].
    destruct (existsb _ _) eqn:E; [|done]. apply existsb_exists in E as (id & Hi & Hn).
    apply list_elem_of_In, elem_of_elements in Hi. by rewrite Hd in Hn.
  - intros id. assert (invalidator_of a' id = invalidator_of (told e a) id) as -> by (unfold a'; by rewrite notify_told).
    unfold told. fold shown. destruct (bool_decide_reflect (shown = ∅)) as [->|Hne].
    + destruct (decide (id ∈ ∅)) as [?%not_elem_of_empty|]; [done|]. unfold push_notify. by destruct (bool_decide _).
    + rewrite invalidate_views_invalidators by apply NoDup_elements.
      assert (id ∈ elements shown <-> id ∈ shown) as E by apply elem_of_elements.
      destruct (decide (id ∈ elements shown)), (decide (id ∈ shown)); tauto.
  - intros e'. unfold a'. rewrite notify_told. cbn [wins with_tracking set_wins window_invalidators_by_entity].
    destruct (decide (e' = e)) as [->|]; [by rewrite lookup_insert_eq|by rewrite lookup_insert_ne].
  - unfold a'. by rewrite notify_told.
  - unfold a'. rewrite notify_told. apply told_frame.
  - unfold a'. rewrite notify_told. apply told_frame.
  - unfold a'. rewrite notify_told. apply told_frame.
Qed.

(** ** Global actions *)

(** The calls that the listeners [fs] of an action make, with what each leads to. *)
Definition action_calls (v : Value) (fs : list Code) (segs : list (list (Code * Call))) : list (Code * Call) :=
  concat (zip_with (fun f seg => (f, CallAction v) :: seg) fs segs).

Lemma call_actions_log fuel v fs : forall a, busy a ->
  returns (fun a' => exists called rest segs,
    fs = called ++ rest /\ length segs = length called /\ calls (client a') = calls (client a) ++ action_calls v called segs /\
    (rest = [] \/ propagate_event a' = false) /\ (fs <> [] -> called <> []))
    (call_actions (exec value_type target_macos fuel) Bubble v fs a).
Proof.
  induction fs as [|f fs IH]; intros a Hb.
  - exists [], [], []. cbn. rewrite app_nil_r. by split_and!; [..|left|].
  - cbn [call_actions]. apply returns_bind, returns_bind.
    pose proof (call_code_step _ (exec_step value_type target_macos fuel) f (CallAction v) None None a) as H1.
    pose proof (call_code_logged _ (exec_step value_type target_macos fuel) f (CallAction v) None None a Hb) as H2.
    eapply returns_weaken; [|exact (returns_and _ _ _ H1 H2)]. intros [a1 w1] [_ [[n N] B1]]. cbn [fst] in N, B1. cbn [returns].
    destruct (propagate_event a1) eqn:Ep.
    + eapply returns_weaken; [|by apply IH]. intros a2 (called & rest & segs & -> & El & C & Hr & _).
      exists (f :: called), rest, (n :: segs). split_and!; [done|by cbn; rewrite El| |done|done].
      rewrite C, N, <- (assoc_L (++)). done.
    + exists [f], fs, [n]. split_and!; [done|done| |by right|done]. rewrite N. unfold action_calls. cbn. by rewrite app_nil_r.
Qed.

Lemma dispatch_capture fuel v a fs :
  global_action_listeners a !! value_type v = Some fs ->
  exists a', dispatch_phase value_type (exec value_type target_macos fuel) Capture v a = Ok a' /\
    calls (client a') = calls (client a) /\ propagate_event a' = propagate_event a /\ effects a' = effects a /\
    global_action_listeners a' !! value_type v = Some fs.
Proof.
  intros Hf. unfold dispatch_phase. rewrite Hf.
  assert (Hc : forall fs a, call_actions (exec value_type target_macos fuel) Capture v fs a = Ok a).
  { clear. induction fs as [|f fs IH]; intros a; [done|]. cbn [call_actions obind]. by destruct (propagate_event a). }
  rewrite Hc. cbn [obind]. eexists; split; [done|]. cbn. rewrite lookup_delete_eq, app_nil_r, lookup_insert_eq. done.
Qed.

(** An action without a window in focus.  The listeners of its type are called from the
    last registered to the first, each before anything the next one does, until one stops
    propagation or none is left; the last registered is always called.  Listeners are not
    lost, whatever the calls do, dispatching the same action again included: those that
    were there come first, followed by those that the calls registered. *)
Theorem dispatch_global_action_correct fuel v a a' fs :
  busy a -> global_action_listeners a !! value_type v = Some fs ->
  dispatch_global_action value_type (exec value_type target_macos fuel) v a = Ok a' ->
  exists called rest segs,
    rev fs = called ++ rest /\ length segs = length called /\
    calls (client a') = calls (client a) ++ action_calls v called segs /\
    (rest = [] \/ propagate_event a' = false) /\ (fs <> [] -> called <> []) /\
    exists more, global_action_listeners a' !! value_type v = Some (fs ++ more).
Proof.
  intros Hb Hf. unfold dispatch_global_action.
  destruct (dispatch_capture fuel v (set_propagate true a) fs Hf) as (a1 & -> & C1 & P1 & E1 & F1). cbn [obind]. rewrite P1. cbn [propagate_event set_propagate].
  unfold dispatch_phase. rewrite F1. set (a2 := set_actions _ a1).
  assert (B2 : busy a2) by (unfold busy in *; cbn; by rewrite E1).
  pose proof (call_actions_log fuel v (rev fs) a2 B2) as Hc. destruct (call_actions _ _ _ _ a2) as [a3| |]; [|done..].
  destruct Hc as (called & rest & segs & Er & El & C & Hr & Hn). cbn [obind]. intros [= <-].
  exists called, rest, segs. split_and!; [done|done|cbn in *; by rewrite C, C1|done| |].
  - intros Hfs. apply Hn. intros E. apply Hfs. rewrite <- (rev_involutive fs). by rewrite E.
  - cbn. rewrite lookup_insert_eq. by eexists.
Qed.

(** ** Errors *)

Lemma update_entity_absent run flush h f c w a :
  entities (app_entities a) !! entity_id h = None -> update_entity value_type run flush h f c w a = Panic.
Proof. intros E. unfold update_entity, update, EntityMap.lease. cbn. by rewrite E. Qed.

(** While an entity is updated its state is not in the map. *)
Lemma reentrant_update_ok fuel h f c w a k h' g rest :
  held_entities (client a) !! k = Some h' -> entity_id h' = entity_id h ->
  (forall a1, script f c a1 = CUpdateEntity k g :: rest) ->
  update_entity value_type (exec value_type target_macos (S fuel)) (flush_effects value_type target_macos fuel) h f c w a = Panic.
Proof.
  intros Hk Hid Hs. unfold update_entity, update, EntityMap.lease.
  destruct (entities (app_entities (start_update a)) !! entity_id h) as [v|] eqn:Ev; [|done]. cbn [obind].
  unfold lease_deref. cbn [lease_entity unwrap obind]. destruct (_ =? _)%N; [|done]. cbn [obind].
  unfold lease_write. destruct (lease_deref _ _ _) as [v'| |] eqn:El; [|done|]; cbn [obind].
  2:{ exfalso. revert El. unfold lease_deref. cbn. by destruct (_ =? _)%N. }
  unfold call_code. rewrite Hs. cbn [exec run_commands ofold run_command]. unfold with_held. cbn [fst client log_call set_client held_entities set_entities start_update with_updates set_effects].
  cbn in Hk. rewrite Hk. rewrite update_entity_absent; [done|]. cbn. rewrite Hid. apply lookup_delete_eq.
Qed.

(** What panics.  Updating an entity whose state is leased or was never inserted; so,
    always, an update whose code updates the same entity again.  Reading, writing, removing
    or leasing a global that is not set, though asking for one with [try_global] does not;
    so, always, an update of a global whose code updates it again.  An event of another type
    than its listener expects, and the creation of an entity in a window that has been
    closed since, when there is an active observer of new entities of its type. *)
Theorem update_errors fuel a :
  (forall run flush h f c w, entities (app_entities a) !! entity_id h = None -> update_entity value_type run flush h f c w a = Panic) /\
  (forall h f c w k h' g rest, held_entities (client a) !! k = Some h' -> entity_id h' = entity_id h ->
     (forall a1, script f c a1 = CUpdateEntity k g :: rest) ->
     update_entity value_type (exec value_type target_macos (S fuel)) (flush_effects value_type target_macos fuel) h f c w a = Panic) /\
  (forall ty, globals_by_type a !! ty = None ->
     global ty a = Panic /\ try_global ty a = None /\ (forall g, global_mut ty g a = Panic) /\
     remove_global ty a = Panic /\ lease_global ty a = Panic) /\
  (forall ty f g rest, (forall a1, script f (CallUpdateGlobal ty) a1 = CUpdateGlobal ty g :: rest) ->
     update_global (exec value_type target_macos (S fuel)) ty f a = Panic) /\
  (forall run flush handle evt f v, value_type v <> evt -> call_listener value_type run flush v a (OnEvent handle evt f) = Panic) /\
  (forall entity tid id i sub subs a', windows (wins a) !! id = None -> busy a ->
     subscribers (new_entity_observers (listeners a)) !! tid = Some (Some ((i, sub) :: subs)) ->
     is_active (new_entity_observers (listeners a)) sub = true ->
     apply_entity_created_effect value_type target_macos (exec value_type target_macos fuel) (flush_effects value_type target_macos fuel) entity tid (Some id) a <> Ok a').
Proof.
  split_and!.
  - intros. by apply update_entity_absent.
  - intros. by eapply reentrant_update_ok.
  - intros ty E. unfold global, try_global, global_mut, remove_global, lease_global.
    assert (E' : globals_by_type (push_effect (NotifyGlobalObservers ty) a) !! ty = None).
    { cbn [push_effect]. by destruct (bool_decide _). }
    rewrite E, E'. by split_and!.
  - intros ty f g rest Hs. unfold update_global, lease_global. destruct (globals_by_type a !! ty) as [v|]; [|done]. cbn [unwrap obind].
    unfold call_code. rewrite Hs. cbn [exec run_commands ofold run_command]. unfold update_global, lease_global. cbn. by rewrite lookup_delete_eq.
  - intros run flush handle evt f v E. cbn. by rewrite (proj2 (N.eqb_neq _ _) E).
  - intros entity tid id i sub subs a' Hw Hb Hs Ha. unfold apply_entity_created_effect, retain_in. rewrite Hs. cbn [retain_calls_in].
    match goal with |- context [is_active ?s sub] => change (is_active s sub) with (is_active (new_entity_observers (listeners a)) sub) end.
    rewrite Ha. unfold app_clone. destruct (any_clone _ entity) as [[m h]| |]; [|done..]. cbn [obind].
    unfold update_window_id, update. cbn [wins start_update with_updates set_effects set_entities put_new_entity_observers set_listeners]. rewrite Hw. cbn [obind].
    rewrite finish_nested by (unfold busy in Hb; cbn; lia). done.
Qed.
End Flow.

(** ** Tests: values are numbers of a type, code is looked up in a table *)
Module TestApp.

#[local] Instance counter_keys : SlotKeys EntityId := {|
  slots_new := 1%positive;
  slots_insert := fun n => (n, Pos.succ n);
  slots_remove := fun n _ => n;
  issued := fun n => list_to_set (map Pos.of_nat (seq 1 (Pos.to_nat n - 1)));
|}.

Definition Val : Type := TypeId * nat.

#[local] Abbreviation Cmd := (Command (Value := Val) (Code := nat)).
#[local] Abbreviation TestState := (App.App (Value := Val) (Slots := EntityId) (Code := nat)).

(** What each code executes; the entity that code [10 n + k] builds is of type [k]. *)
Definition table (f : nat) : list Cmd :=
  match f with
  | 0 => [CNew 3%N 13; CObserve 0 20; CNotify 1%positive; CNotify 1%positive]
  | 1 => [CNew 3%N 13; CNotify 1%positive; CObserve 0 20]
  | 2 => [CNew 3%N 13; CSubscribe 0 5%N 21; CSubscribe 0 6%N 22; CUpdateEntity 0 23]
  | 3 => [CNew 3%N 13; CObserveRelease 0 24; CDrop 0]
  | 4 => [CNew 3%N 13; CUpdateEntity 0 25]
  | 5 => [CObserveNew 3%N 26; CUpdateWindow 1%positive 27]
  | 23 => [CEmit (5%N, 1); CEmit (6%N, 2)]
  | 25 => [CUpdateEntity 0 23]
  | 27 => [CNew 3%N 13; CRemoveWindow]
  | 30 => [CStopPropagation]
  | 31 => [COnAction 9%N 32]
  | _ => []
  end.

#[local] Instance table_client : Client (Value := Val) (Slots := EntityId) (Code := nat) := {|
  script f c a := table f;
  mutate f c a v := v;
  build f c a := (N.of_nat (f mod 10), f);
  value_owns v := ([], []);
|}.

Definition empty_app : TestState := app_new.

Definition go (f : nat) (a : TestState) : outcome TestState := enter fst false 50 f a.

Definition called (r : outcome TestState) : outcome (list (nat * Call)) := let! a := r in Ok (calls (client a)).

(** An observer hears of a notification that follows its subscription in the same update,
    once; one that subscribed after it does not. *)
Example observed : called (go 0 empty_app) = Ok [(0, CallDeferred); (13, CallBuild 1%positive); (20, CallNotify 2)].
Proof. vm_compute. reflexivity. Qed.

Example observed_late : called (go 1 empty_app) = Ok [(1, CallDeferred); (13, CallBuild 1%positive)].
Proof. vm_compute. reflexivity. Qed.

(** Events go to the listeners of their type. *)
Example events : called (go 2 empty_app) =
  Ok [(2, CallDeferred); (13, CallBuild 1%positive); (23, CallUpdate 1%positive); (21, CallEvent 3 (5%N, 1)); (22, CallEvent 4 (6%N, 2))].
Proof. vm_compute. reflexivity. Qed.

(** The last handle goes: the entity is released when the update ends. *)
Example released : called (go 3 empty_app) = Ok [(3, CallDeferred); (13, CallBuild 1%positive); (24, CallRelease (3%N, 13))].
Proof. vm_compute. reflexivity. Qed.

Example reentrant : go 4 empty_app = Panic.
Proof. vm_compute. reflexivity. Qed.

(** An entity made in a window that closes in the same update: the observer of new
    entities is to be called in the window, which is gone. *)
Definition window_app : TestState :=
  with_windows {[1%positive := Some (mkWindow 1%positive None true false set_new false false)]} {[1%positive]} [] empty_app.

Example created_in_closed_window : go 5 window_app = Panic.
Proof. vm_compute. reflexivity. Qed.

Definition acting_app : TestState := start_update (on_action 9%N 31 (on_action 9%N 30 (on_action 9%N 29 (on_action 9%N 28 empty_app)))).

(** In the bubble phase of a global action propagation goes on unless a listener stops it. *)
Example global_actions_propagate :
  called (dispatch_global_action fst (exec fst false 50) (9%N, 0) (start_update (on_action 9%N 29 (on_action 9%N 28 empty_app)))) =
    Ok [(29, CallAction (9%N, 0)); (28, CallAction (9%N, 0))].
Proof. vm_compute. reflexivity. Qed.

Lemma enter_correct_witness :
  exists a', enter fst false 50 2 empty_app = Ok a' /\ settled a'.
Proof.
  destruct (enter fst false 50 2 empty_app) as [a'| |] eqn:E; [|vm_compute in E; discriminate..].
  exists a'. split; [done|]. exact (proj1 (enter_correct fst false 50 2 empty_app a' (se_rest _ app_new_settled) E)).
Defined.

Definition watched : TestState := match go 0 empty_app with Ok a => start_update a | _ => empty_app end.


Lemma dispatch_global_action_correct_witness :
  exists a' called rest (segs : list (list (nat * Call (Value := Val)))), dispatch_global_action fst (exec fst false 50) (9%N, 0) acting_app = Ok a' /\
    rev [28; 29; 30; 31] = called ++ rest /\ length segs = length called /\ (rest = [] \/ propagate_event a' = false) /\
    exists more, global_action_listeners a' !! 9%N = Some ([28; 29; 30; 31] ++ more).
Proof.
  destruct (dispatch_global_action fst (exec fst false 50) (9%N, 0) acting_app) as [a'| |] eqn:E; [|vm_compute in E; discriminate..].
  assert (B : busy acting_app) by (unfold busy; vm_compute; lia).
  destruct (dispatch_global_action_correct fst false 50 (9%N, 0) acting_app a' [28; 29; 30; 31] B eq_refl E)
    as (called & rest & segs & H1 & H2 & _ & H3 & _ & H4).
  by exists a', called, rest, segs.
Defined.
End TestApp.
