(* ===== verification/WindowTabs.v ===== *)
(** * Window tabs: [SystemWindowTabController] of [crates/gpui/src/app.rs]

    The controller is a global that records, for every native group of tabbed windows, the
    tabs of the group in order.  [FxHashMap] iterates in an order that is not specified
    (Hashing); [Instant::now] is an argument.  The operations get and give the controller; fetching the global, which notifies its
    observers, is in App. *)

From stdpp Require Import base list option numbers gmap sorting.
From S2P Require Import Prelude Sorting Hashing.

#[local] Set Warnings "-register-all,-clear-no-such-hyp".

Abbreviation WindowId := positive.
Abbreviation Instant := Z.

#[export] Instance window_id_ord : Ord positive := Pos.compare.

#[export] Instance window_id_ord_laws : OrdLaws positive.
Proof.
  split; unfold cmp, window_id_ord; intros; [apply Pos.compare_eq_iff|apply Pos.compare_antisym|].
  rewrite Pos.compare_lt_iff in *. lia.
Qed.

#[export] Instance window_id_le_antisymm : AntiSymm (=) (key_le (fun x : positive => x)).
Proof. unfold key_le, cmp, window_id_ord. intros x y Hx Hy. rewrite !Pos.compare_gt_iff in *. lia. Qed.

Section Tabs.
Context {Title Handle : Type} `{!EqDecision Title, !EqDecision Handle}.
Context `{!HashOrder nat}.

Record SystemWindowTab := mkTab {
  tab_id : WindowId;
  title : Title;
  handle : Handle;
  last_active_at : Instant;
}.

#[export] Instance SystemWindowTab_eq_dec : EqDecision SystemWindowTab.
Proof. solve_decision. Defined.

(** [SystemWindowTab::new], given the identifier of the handle. *)
Definition tab_new (handle_id : WindowId) (t : Title) (h : Handle) (now : Instant) : SystemWindowTab := mkTab handle_id t h now.

Record Controller := mkController {
  visible : option bool;
  tab_groups : gmap nat (list SystemWindowTab);
}.

Implicit Types (c : Controller) (t : SystemWindowTab).

Definition controller_new : Controller := mkController None ∅.

Definition with_groups c (m : gmap nat (list SystemWindowTab)) : Controller := mkController (visible c) m.

Definition is_tab (id : WindowId) t : bool := bool_decide (tab_id t = id).

(** The index of the first tab of the window. *)
Fixpoint position (id : WindowId) (ts : list SystemWindowTab) : option nat :=
  match ts with
  | [] => None
  | t :: ts => if is_tab id t then Some 0 else option_map S (position id ts)
  end.

Definition find_tab (id : WindowId) (ts : list SystemWindowTab) : option SystemWindowTab := List.find (is_tab id) ts.

(** The first group, in the order of the map, with a tab of the window. *)
Definition group_of c (id : WindowId) : option nat :=
  option_map fst (List.find (fun g => match find_tab id g.2 with Some _ => true | None => false end) (hash_iter (tab_groups c))).

Definition tabs c (id : WindowId) : option (list SystemWindowTab) :=
  match group_of c id with Some group => tab_groups c !! group | None => None end.

(** [max_by_key]: of equal keys the last. *)
Fixpoint last_active (ts : list SystemWindowTab) : option SystemWindowTab :=
  match ts with
  | [] => None
  | t :: ts =>
      match last_active ts with
      | Some best => if (last_active_at t <=? last_active_at best)%Z then Some best else Some t
      | None => Some t
      end
  end.

Definition group_window c (group : option nat) : outcome (option Handle) :=
  let! group := unwrap group in
  Ok (match tab_groups c !! group with
      | Some ts => option_map handle (match last_active ts with Some t => Some t | None => head ts end)
      | None => None
      end).

Fixpoint index_of (g : nat) (gs : list nat) : option nat :=
  match gs with
  | [] => None
  | g' :: gs => if g' =? g then Some 0 else option_map S (index_of g gs)
  end.

(** The neighbour of the group of a window in the order of the map. *)
Definition next_index (idx len : nat) : nat := (idx + 1) mod len.
Definition prev_index (idx len : nat) : nat := if idx =? 0 then len - 1 else idx - 1.

Definition neighbour_window (step : nat -> nat -> nat) c (id : WindowId) : outcome (option Handle) :=
  match group_of c id with
  | None => Ok None
  | Some current_group =>
      let group_ids := map fst (hash_iter (tab_groups c)) in
      match index_of current_group group_ids with
      | None => Ok None
      | Some idx => group_window c (group_ids !! step idx (length group_ids))
      end
  end.

Definition get_next_tab_group_window c id : outcome (option Handle) := neighbour_window next_index c id.
Definition get_prev_tab_group_window c id : outcome (option Handle) := neighbour_window prev_index c id.

Definition init_visible c (v : bool) : Controller :=
  match visible c with None => mkController (Some v) (tab_groups c) | Some _ => c end.
Definition is_visible c : bool := default false (visible c).
Definition set_visible c (v : bool) : Controller := mkController (Some v) (tab_groups c).

(** Every tab of the window in every group. *)
Definition update_tabs c (id : WindowId) (f : SystemWindowTab -> SystemWindowTab) : Controller :=
  with_groups c (fmap (M := gmap nat) (map (fun t => if is_tab id t then f t else t)) (tab_groups c)).

Definition update_last_active c (id : WindowId) (now : Instant) : Controller :=
  update_tabs c id (fun t => mkTab (tab_id t) (title t) (handle t) now).

(** [Vec::remove] and [Vec::insert] at indices in range. *)
Definition move_item (ts : list SystemWindowTab) (from to : nat) : list SystemWindowTab :=
  match ts !! from with
  | Some t => let ts := delete from ts in take to ts ++ t :: drop to ts
  | None => ts
  end.

(** The loop ends at the first group with the window. *)
Definition update_tab_position c (id : WindowId) (ix : nat) : Controller :=
  match group_of c id with
  | None => c
  | Some g =>
      match tab_groups c !! g with
      | Some windows =>
          match position id windows with
          | Some current_pos =>
              if (ix <? length windows) && negb (current_pos =? ix) then
                with_groups c (<[g := move_item windows current_pos ix]> (tab_groups c))
              else c
          | None => c
          end
      | None => c
      end
  end.

Definition update_tab_title c (id : WindowId) (new_title : Title) : Controller :=
  match find_tab id (flat_map snd (hash_iter (tab_groups c))) with
  | None => c
  | Some t =>
      if bool_decide (title t = new_title) then c
      else update_tabs c id (fun t => mkTab (tab_id t) new_title (handle t) (last_active_at t))
  end.

Definition sorted_ids (ts : list SystemWindowTab) : list WindowId := sort_by_key (fun x : WindowId => x) (map tab_id ts).

Definition add_tab c (id : WindowId) (ts : list SystemWindowTab) : Controller :=
  match find_tab id ts with
  | None => c
  | Some t =>
      let expected_tab_ids := sorted_ids (List.filter (fun t => negb (is_tab id t)) ts) in
      match List.find (fun g => bool_decide (sorted_ids g.2 = expected_tab_ids)) (hash_iter (tab_groups c)) with
      | Some (tab_group_id, group_tabs) => with_groups c (<[tab_group_id := group_tabs ++ [t]]> (tab_groups c))
      | None => with_groups c (<[size (tab_groups c) := ts]> (tab_groups c))
      end
  end.

(** The tabs of a group without the first of the window. *)
Definition without_tab (id : WindowId) (ts : list SystemWindowTab) : list SystemWindowTab :=
  match position id ts with Some pos => delete pos ts | None => ts end.

(** [retain] on the groups: the tab removed is the last one met. *)
Definition remove_tab c (id : WindowId) : Controller * option SystemWindowTab :=
  let removed := list.last (omap (fun g => find_tab id g.2) (hash_iter (tab_groups c))) in
  (with_groups c (filter (fun g => g.2 <> []) (fmap (M := gmap nat) (without_tab id) (tab_groups c))), removed).

Definition max_key (m : gmap nat (list SystemWindowTab)) : option nat :=
  match map fst (hash_iter m) with
  | [] => None
  | k :: ks => Some (foldl Nat.max k ks)
  end.

Definition move_tab_to_new_window c (id : WindowId) : Controller :=
  let (c, removed_tab) := remove_tab c id in
  match removed_tab with
  | Some t =>
      let new_group_id := match max_key (tab_groups c) with Some k => k + 1 | None => 0 end in
      with_groups c (<[new_group_id := [t]]> (tab_groups c))
  | None => c
  end.

Definition merge_all_windows c (id : WindowId) : Controller :=
  match tabs c id with
  | None => c
  | Some initial_tabs =>
      let all_tabs := initial_tabs ++
        flat_map (fun g => List.filter (fun t => negb (bool_decide (t ∈ initial_tabs))) g.2) (hash_iter (tab_groups c)) in
      with_groups c {[0 := all_tabs]}
  end.

(** The window that [select_next_tab] and [select_previous_tab] activate. *)
Definition select_tab (step : nat -> nat -> nat) c (id : WindowId) : outcome (option Handle) :=
  match tabs c id with
  | None => Ok None
  | Some ts =>
      let! current_index := unwrap (position id ts) in
      let! t := index ts (step current_index (length ts)) in
      Ok (Some (handle t))
  end.

Definition select_next_tab c id : outcome (option Handle) := select_tab next_index c id.
Definition select_previous_tab c id : outcome (option Handle) := select_tab prev_index c id.

(** ** Properties *)

Definition ids (ts : list SystemWindowTab) : list WindowId := map tab_id ts.

(** No group is empty, and no window has two tabs. *)
Record groups_ok c : Prop := mkGroupsOk {
  go_nonempty : forall g ts, tab_groups c !! g = Some ts -> ts <> [];
  go_nodup : forall g ts, tab_groups c !! g = Some ts -> NoDup (ids ts);
  go_disjoint : forall g1 g2 ts1 ts2 id, tab_groups c !! g1 = Some ts1 -> tab_groups c !! g2 = Some ts2 ->
    id ∈ ids ts1 -> id ∈ ids ts2 -> g1 = g2;
}.

Lemma is_tab_spec id t : is_tab id t = true <-> tab_id t = id.
Proof. apply bool_decide_eq_true. Qed.

Lemma find_tab_spec id ts :
  match find_tab id ts with Some t => t ∈ ts /\ tab_id t = id | None => id ∉ ids ts end.
Proof.
  unfold find_tab. destruct (List.find (is_tab id) ts) as [t|] eqn:E.
  - apply find_some in E as [Hin Ht]. split; [by apply list_elem_of_In|by apply is_tab_spec].
  - intros Hin. apply list_elem_of_In, in_map_iff in Hin as (t & <- & Ht). apply (find_none _ _ E) in Ht.
    by rewrite (proj2 (is_tab_spec _ _) eq_refl) in Ht.
Qed.

Lemma find_tab_in id ts : id ∈ ids ts <-> is_Some (find_tab id ts).
Proof.
  pose proof (find_tab_spec id ts) as Hf. destruct (find_tab id ts) as [t|].
  - destruct Hf as [Hin <-]. split; [by eexists|]. intros _. apply list_elem_of_In, in_map, list_elem_of_In, Hin.
  - split; [done|by intros [? ?]].
Qed.

Lemma position_spec id ts :
  match position id ts with
  | Some i => exists t, ts !! i = Some t /\ tab_id t = id /\ find_tab id ts = Some t
  | None => id ∉ ids ts
  end.
Proof.
  induction ts as [|t ts IH]; [apply not_elem_of_nil|]. cbn [position]. destruct (is_tab id t) eqn:E.
  - exists t. split_and!; [done|by apply is_tab_spec|]. unfold find_tab. cbn. by rewrite E.
  - assert (Hf : find_tab id (t :: ts) = find_tab id ts) by (unfold find_tab; cbn; by rewrite E).
    destruct (position id ts) as [i|]; cbn [option_map]; [rewrite Hf; exact IH|].
    cbn [ids map]. fold (ids ts).
    rewrite elem_of_cons. intros [->|Hin]; [|done]. by rewrite (proj2 (is_tab_spec _ _) eq_refl) in E.
Qed.

#[local] Instance ids_Permutation : Proper (Permutation ==> Permutation) ids.
Proof. intros ts ts' H'. apply (Permutation_map tab_id H'). Qed.

(** With distinct windows, taking the tab of one out is filtering it out. *)
Lemma without_tab_filter id ts : NoDup (ids ts) -> without_tab id ts = List.filter (fun t => negb (is_tab id t)) ts.
Proof.
  unfold without_tab. induction ts as [|t ts IH]; [done|]. cbn [ids map]. intros [Hn Hd]%NoDup_cons. cbn [position List.filter].
  specialize (IH Hd). destruct (is_tab id t) eqn:E; cbn.
  - symmetry. apply bfilter_all, Forall_elem. intros t' Ht'. apply negb_true_iff, not_true_iff_false. intros E'%is_tab_spec.
    apply is_tab_spec in E. apply Hn. rewrite E, <- E'. apply list_elem_of_In, in_map, list_elem_of_In, Ht'.
  - destruct (position id ts); cbn in *; f_equal; exact IH.
Qed.

Context `{!HashOrderLaws nat}.

Lemma group_of_spec c id : groups_ok c ->
  match group_of c id with
  | Some g => exists ts, tab_groups c !! g = Some ts /\ id ∈ ids ts
  | None => forall g ts, tab_groups c !! g = Some ts -> id ∉ ids ts
  end.
Proof.
  intros Hc. unfold group_of. destruct (List.find _ _) as [[g ts]|] eqn:E; cbn.
  - apply find_some in E as [Hin Hf]. exists ts. apply list_elem_of_In, hash_iter_elem in Hin. split; [done|].
    apply find_tab_in. cbn [snd] in Hf. destruct (find_tab id ts); [by eexists|done].
  - intros g ts Hg Hin. apply hash_iter_elem, list_elem_of_In in Hg. apply (find_none _ _ E) in Hg. cbn [snd] in Hg.
    apply find_tab_in in Hin as [t Ht]. by rewrite Ht in Hg.
Qed.

Lemma group_of_Some c id g ts : groups_ok c -> tab_groups c !! g = Some ts -> id ∈ ids ts -> group_of c id = Some g.
Proof.
  intros Hc Hg Hin. pose proof (group_of_spec c id Hc) as Hs. destruct (group_of c id) as [g'|].
  - destruct Hs as (ts' & Hg' & Hin'). f_equal. by eapply go_disjoint.
  - by destruct (Hs g ts Hg).
Qed.

(** The tabs of a window's group do not depend on the order of the map. *)
Lemma tabs_spec c id : groups_ok c ->
  match tabs c id with
  | Some ts => exists g, group_of c id = Some g /\ tab_groups c !! g = Some ts /\ id ∈ ids ts
  | None => group_of c id = None /\ forall g ts, tab_groups c !! g = Some ts -> id ∉ ids ts
  end.
Proof.
  intros Hc. unfold tabs. pose proof (group_of_spec c id Hc) as Hs. destruct (group_of c id) as [g|]; [|done].
  destruct Hs as (ts & Hg & Hin). rewrite Hg. by exists g.
Qed.

(** *** Removing *)

Definition others (id : WindowId) (ts : list SystemWindowTab) : list SystemWindowTab := List.filter (fun t => negb (is_tab id t)) ts.

Lemma others_ids id ts x : x ∈ ids (others id ts) <-> x ∈ ids ts /\ x <> id.
Proof.
  unfold ids, others. rewrite !list_elem_of_In, !in_map_iff. setoid_rewrite filter_In. split.
  - intros (t & <- & Hin & Ht). split; [by exists t|]. intros E. by rewrite (proj2 (is_tab_spec _ _) E) in Ht.
  - intros [(t & <- & Hin) Hne]. exists t. split_and!; [done|done|]. apply negb_true_iff, not_true_iff_false. by intros ?%is_tab_spec.
Qed.

Lemma others_nodup id ts : NoDup (ids ts) -> NoDup (ids (others id ts)).
Proof.
  induction ts as [|t ts IH]; cbn; [done|]. intros [Hn Hd]%NoDup_cons. destruct (negb _); [|auto]. cbn.
  apply NoDup_cons. split; [|auto]. intros Hin. by apply others_ids in Hin as [? _].
Qed.

Lemma remove_tab_lookup c id g : groups_ok c ->
  tab_groups (remove_tab c id).1 !! g =
    match tab_groups c !! g with
    | Some ts => match others id ts with [] => None | ts' => Some ts' end
    | None => None
    end.
Proof.
  intros Hc. cbn [remove_tab fst with_groups tab_groups]. rewrite map_lookup_filter, lookup_fmap.
  destruct (tab_groups c !! g) as [ts|] eqn:E; [|done]. cbn. rewrite without_tab_filter by by eapply go_nodup.
  fold (others id ts). unfold guard. destruct (decide _) as [Hd|Hd]; destruct (others id ts); cbn in *; try done.
  by destruct Hd.
Qed.

Lemma remove_tab_result c id : groups_ok c ->
  (remove_tab c id).2 = match tabs c id with Some ts => find_tab id ts | None => None end.
Proof.
  intros Hc. cbn [remove_tab snd]. pose proof (tabs_spec c id Hc) as Ht. destruct (tabs c id) as [ts|].
  - destruct Ht as (g & _ & Hg & Hin). apply find_tab_in in Hin as [t Hf]. rewrite Hf.
    assert (Hall : forall x, x ∈ omap (fun g => find_tab id g.2) (hash_iter (tab_groups c)) -> x = t).
    { intros x. rewrite list_elem_of_omap. intros ([g' ts'] & Hg'%hash_iter_elem & Hx). cbn [snd] in Hx.
      assert (g' = g) as -> by (eapply go_disjoint; [done|exact Hg'|exact Hg|apply find_tab_in; by eexists|apply find_tab_in; by eexists]).
      rewrite Hg in Hg'. injection Hg' as <-. congruence. }
    destruct (list.last _) as [x|] eqn:El.
    + f_equal. apply Hall. by apply list.last_Some_elem_of.
    + apply list.last_None in El. apply hash_iter_elem in Hg.
      assert (Hin : t ∈ omap (fun g => find_tab id g.2) (hash_iter (tab_groups c))) by (apply list_elem_of_omap; by exists (g, ts)).
      rewrite El in Hin. by apply elem_of_nil in Hin.
  - destruct Ht as [_ Hn]. destruct (list.last _) as [x|] eqn:El; [|done].
    apply list.last_Some_elem_of, list_elem_of_omap in El as ([g' ts'] & Hg'%hash_iter_elem & Hx).
    destruct (Hn g' ts' Hg'). apply find_tab_in. by eexists.
Qed.

Lemma remove_tab_ok c id : groups_ok c -> groups_ok (remove_tab c id).1.
Proof.
  intros Hc.
  assert (Hl : forall g ts', tab_groups (remove_tab c id).1 !! g = Some ts' -> exists ts, tab_groups c !! g = Some ts /\ ts' = others id ts /\ ts' <> []).
  { intros g ts'. rewrite remove_tab_lookup by done. destruct (tab_groups c !! g) as [ts|]; [|done].
    intros E. exists ts. destruct (others id ts); [done|]. by injection E as <-. }
  split.
  - intros g ts' E. by destruct (Hl g ts' E) as (? & _ & _ & ?).
  - intros g ts' E. destruct (Hl g ts' E) as (ts & Hg & -> & _). by eapply others_nodup, go_nodup.
  - intros g1 g2 ts1 ts2 x E1 E2 H1 H2. destruct (Hl _ _ E1) as (t1 & G1 & -> & _), (Hl _ _ E2) as (t2 & G2 & -> & _).
    apply others_ids in H1 as [H1 _], H2 as [H2 _]. by eapply go_disjoint.
Qed.

(** *** Putting a group in *)

(** A group may take the place of another, or a new one, if its windows are in no other. *)
Lemma groups_ok_insert c g ts :
  groups_ok c -> ts <> [] -> NoDup (ids ts) ->
  (forall g' ts' x, g' <> g -> tab_groups c !! g' = Some ts' -> x ∈ ids ts' -> x ∈ ids ts -> False) ->
  groups_ok (with_groups c (<[g := ts]> (tab_groups c))).
Proof.
  intros Hc Hne Hnd Hdis. split; cbn [with_groups tab_groups].
  - intros g' ts' [[<- <-]|[_ E]]%lookup_insert_Some; [done|by eapply go_nonempty].
  - intros g' ts' [[<- <-]|[_ E]]%lookup_insert_Some; [done|by eapply go_nodup].
  - intros g1 g2 ts1 ts2 x [[<- <-]|[N1 E1]]%lookup_insert_Some [[<- <-]|[N2 E2]]%lookup_insert_Some H1 H2; try done.
    + by destruct (Hdis g2 ts2 x (not_eq_sym N2) E2 H2 H1).
    + by destruct (Hdis g1 ts1 x (not_eq_sym N1) E1 H1 H2).
    + by eapply go_disjoint.
Qed.

Lemma foldl_max_le (ks : list nat) k0 x : x = k0 \/ x ∈ ks -> x <= foldl Nat.max k0 ks.
Proof.
  revert k0 x. induction ks as [|k ks IH]; cbn; intros k0 x Hx.
  - destruct Hx as [->|Hx]; [done|by apply elem_of_nil in Hx].
  - destruct Hx as [->|[->|Hx]%elem_of_cons].
    + trans (Nat.max k0 k); [lia|]. apply IH. by left.
    + trans (Nat.max k0 k); [lia|]. apply IH. by left.
    + apply IH. by right.
Qed.

Lemma max_key_spec (m : gmap nat (list SystemWindowTab)) g ts :
  m !! g = Some ts -> match max_key m with Some k => g <= k | None => False end.
Proof.
  intros E. apply hash_iter_elem in E. unfold max_key.
  assert (Hg : g ∈ map fst (hash_iter m)) by (apply list_elem_of_In, in_map_iff; exists (g, ts); split; [done|by apply list_elem_of_In]).
  destruct (map fst (hash_iter m)) as [|k ks]; [by apply elem_of_nil in Hg|].
  apply foldl_max_le. by apply elem_of_cons in Hg.
Qed.

(** *** Moving to a window of its own *)

Lemma remove_tab_fresh c id g ts x : groups_ok c ->
  tab_groups (remove_tab c id).1 !! g = Some ts -> x ∈ ids ts -> x <> id.
Proof.
  intros Hc. rewrite remove_tab_lookup by done. destruct (tab_groups c !! g) as [ts'|]; [|done].
  destruct (others id ts') as [|t l] eqn:E; [done|]. intros [= <-] Hx. rewrite <- E in Hx. by apply others_ids in Hx as [_ ?].
Qed.

Lemma move_tab_ok c id : groups_ok c ->
  groups_ok (move_tab_to_new_window c id) /\
  match tabs c id with
  | None => move_tab_to_new_window c id = (remove_tab c id).1
  | Some ts =>
      exists t g, find_tab id ts = Some t /\
        (forall g' ts', tab_groups (remove_tab c id).1 !! g' = Some ts' -> g' < g) /\
        tab_groups (move_tab_to_new_window c id) = <[g := [t]]> (tab_groups (remove_tab c id).1)
  end.
Proof.
  intros Hc. pose proof (remove_tab_ok c id Hc) as Hr. pose proof (remove_tab_result c id Hc) as Ht.
  pose proof (fun g ts x => remove_tab_fresh c id g ts x Hc) as Hf. pose proof (tabs_spec c id Hc) as Hs.
  unfold move_tab_to_new_window. destruct (remove_tab c id) as [c' o]. cbn [fst snd] in *. subst o.
  destruct (tabs c id) as [ts|]; [|done]. destruct Hs as (_ & _ & _ & Hin). pose proof (find_tab_spec id ts) as Hft.
  apply find_tab_in in Hin as [t Eft]. rewrite Eft in Hft |- *. destruct Hft as [_ Hid].
  assert (Hlt : forall g' ts', tab_groups c' !! g' = Some ts' -> g' < match max_key (tab_groups c') with Some k => k + 1 | None => 0 end).
  { intros g' ts' E. apply max_key_spec in E. destruct (max_key _); [lia|done]. }
  split; [|by exists t, (match max_key (tab_groups c') with Some k => k + 1 | None => 0 end)].
  apply groups_ok_insert; [done|done|apply NoDup_singleton|].
  intros g' ts' x _ E Hx Hx'. cbn in Hx'. apply list_elem_of_singleton in Hx'. apply (Hf g' ts' x E Hx). congruence.
Qed.

(** *** Moving within the group *)

(** The list with the tab of the window at an index. *)
Definition placed (ix : nat) (t : SystemWindowTab) (ts : list SystemWindowTab) : list SystemWindowTab :=
  take ix (others (tab_id t) ts) ++ t :: drop ix (others (tab_id t) ts).

Lemma placed_perm ix t ts : NoDup (ids ts) -> t ∈ ts -> placed ix t ts ≡ₚ ts.
Proof.
  intros Hnd [i Hi]%list_elem_of_lookup_1. unfold placed. rewrite <- Permutation_middle, take_drop.
  unfold others. rewrite <- without_tab_filter by done. unfold without_tab.
  pose proof (position_spec (tab_id t) ts) as Hp. destruct (position (tab_id t) ts) as [j|].
  - destruct Hp as (t' & Hj & E & _). assert (i = j) as <-.
    { apply (NoDup_lookup (ids ts) _ _ (tab_id t) Hnd); unfold ids; rewrite list_lookup_fmap; [by rewrite Hi|by rewrite Hj, <- E]. }
    symmetry. by apply delete_Permutation.
  - destruct Hp. apply list_elem_of_In, in_map, list_elem_of_In. by eapply list_elem_of_lookup_2.
Qed.

Lemma move_item_placed i ix t ts : NoDup (ids ts) -> position (tab_id t) ts = Some i -> ts !! i = Some t ->
  move_item ts i ix = placed ix t ts.
Proof.
  intros Hnd Hp Hi. unfold move_item, placed, others. rewrite Hi, <- without_tab_filter by done. unfold without_tab. by rewrite Hp.
Qed.

Lemma move_item_same (ts : list SystemWindowTab) i t : ts !! i = Some t -> move_item ts i i = ts.
Proof.
  intros Hi. unfold move_item. rewrite Hi, delete_take_drop. pose proof (lookup_lt_Some _ _ _ Hi).
  rewrite take_app_le, drop_app_ge, length_take, Nat.min_l, Nat.sub_diag, drop_0, take_take, Nat.min_id by (rewrite ?length_take; lia).
  by apply take_drop_middle.
Qed.

Lemma update_tab_position_ok c id ix : groups_ok c ->
  groups_ok (update_tab_position c id ix) /\
  match tabs c id with
  | None => update_tab_position c id ix = c
  | Some ts =>
      exists g t, tab_groups c !! g = Some ts /\ find_tab id ts = Some t /\
        tab_groups (update_tab_position c id ix) =
          if ix <? length ts then <[g := placed ix t ts]> (tab_groups c) else tab_groups c
  end.
Proof.
  intros Hc. unfold update_tab_position. pose proof (tabs_spec c id Hc) as Hs.
  destruct (tabs c id) as [ts|]; [|by destruct Hs as [-> _]]. destruct Hs as (g & -> & Hg & Hin). rewrite Hg.
  pose proof (go_nodup c Hc g ts Hg) as Hnd.
  pose proof (position_spec id ts) as Hp. destruct (position id ts) as [i|] eqn:Ei; [|done].
  destruct Hp as (t & Hi & <- & Hf). pose proof (move_item_placed i ix t ts Hnd Ei Hi) as Hm.
  destruct (Nat.ltb_spec ix (length ts)); cbn [andb]; [|split; [done|by exists g, t]].
  destruct (Nat.eqb_spec i ix) as [<-|Hne]; cbn [negb].
  - split; [done|]. exists g, t. split_and!; [done|done|].
    rewrite <- Hm, (move_item_same ts i t Hi). symmetry. by apply insert_id.
  - rewrite Hm. split; [|by exists g, t].
    assert (Hperm : placed ix t ts ≡ₚ ts) by (apply placed_perm; [done|by eapply list_elem_of_lookup_2]).
    apply groups_ok_insert; [done|intros E; rewrite E in Hperm; apply Permutation_nil_l in Hperm; by subst| |].
    + unfold ids. by rewrite Hperm.
    + intros g' ts' x Hg' E Hx. unfold ids. rewrite Hperm. intros Hx'. apply Hg'. by eapply go_disjoint.
Qed.

(** *** Merging *)

Definition all_tabs c : list SystemWindowTab := flat_map snd (hash_iter (tab_groups c)).

Lemma merge_tabs g ts c : groups_ok c -> tab_groups c !! g = Some ts ->
  ts ++ flat_map (fun g : nat * list SystemWindowTab => List.filter (fun t => negb (bool_decide (t ∈ ts))) g.2) (hash_iter (tab_groups c)) ≡ₚ all_tabs c.
Proof.
  intros Hc Hg. unfold all_tabs. rewrite !hash_iter_perm, <- (map_to_list_delete _ _ _ Hg). cbn [flat_map snd].
  rewrite bfilter_none, app_nil_l.
  2: { apply Forall_elem. intros t Ht. apply negb_false_iff. by apply bool_decide_eq_true. }
  apply Permutation_app_head. rewrite !flat_map_concat_map.
  match goal with |- concat ?a ≡ₚ concat ?b => cut (a = b); [by intros ->|] end. apply map_ext_in.
  intros [g' ts'] [Hne E]%list_elem_of_In%elem_of_map_to_list%lookup_delete_Some. cbn [snd].
  apply bfilter_all, Forall_elem. intros t Ht. apply negb_true_iff, bool_decide_eq_false. intros Ht'. apply Hne.
  apply (go_disjoint c Hc g g' ts ts' (tab_id t)); [done|done|..]; by apply list_elem_of_In, in_map, list_elem_of_In.
Qed.

Lemma all_tabs_elem c g ts t : tab_groups c !! g = Some ts -> t ∈ ts -> t ∈ all_tabs c.
Proof.
  intros Hg Ht. apply list_elem_of_In, in_flat_map. exists (g, ts).
  split; apply list_elem_of_In; [by apply hash_iter_elem|done].
Qed.

Lemma all_tabs_nodup c : groups_ok c -> NoDup (ids (all_tabs c)).
Proof.
  intros Hc. unfold all_tabs. rewrite hash_iter_perm.
  assert (Hl : forall l : list (nat * list SystemWindowTab), NoDup l.*1 -> (forall g ts, (g, ts) ∈ l -> tab_groups c !! g = Some ts) ->
    NoDup (ids (flat_map snd l))).
  { induction l as [|[g ts] l IH]; cbn; [constructor|]. intros [Hn Hd]%NoDup_cons Hin. unfold ids. rewrite map_app.
    assert (Hg : tab_groups c !! g = Some ts) by (apply Hin; left).
    apply NoDup_app. split_and!; [by eapply go_nodup| |apply IH; [done|intros; apply Hin; by right]].
    intros x Hx Hx'. apply list_elem_of_In, in_map_iff in Hx' as (t & <- & ([g' ts'] & Hin' & Ht)%in_flat_map).
    apply list_elem_of_In in Hin', Ht. cbn [snd] in Ht. apply Hn. apply list_elem_of_fmap. exists (g', ts'). split; [|done]. cbn.
    eapply (go_disjoint c Hc g g' ts ts' (tab_id t)); [done|apply Hin; by right|done|].
    by apply list_elem_of_In, in_map, list_elem_of_In. }
  apply Hl; [apply NoDup_fst_map_to_list|intros g ts; by rewrite elem_of_map_to_list].
Qed.

Lemma merge_ok c id : groups_ok c ->
  groups_ok (merge_all_windows c id) /\
  match tabs c id with
  | None => merge_all_windows c id = c
  | Some ts => exists rest, tab_groups (merge_all_windows c id) = {[0 := ts ++ rest]} /\ ts ++ rest ≡ₚ all_tabs c
  end.
Proof.
  intros Hc. unfold merge_all_windows. pose proof (tabs_spec c id Hc) as Hs.
  destruct (tabs c id) as [ts|]; [|done]. destruct Hs as (g & _ & Hg & _).
  pose proof (merge_tabs g ts c Hc Hg) as Hm. split; [|by eexists].
  split; cbn [with_groups tab_groups].
  - intros g' ts' [<- <-]%lookup_singleton_Some. pose proof (go_nonempty c Hc g ts Hg). by destruct ts.
  - intros g' ts' [<- <-]%lookup_singleton_Some. unfold ids. rewrite Hm. by apply all_tabs_nodup.
  - by intros g1 g2 ts1 ts2 x [<- <-]%lookup_singleton_Some [<- <-]%lookup_singleton_Some.
Qed.

(** *** Titles and times *)

Lemma update_tabs_ok c id (f : SystemWindowTab -> SystemWindowTab) : (forall t : SystemWindowTab, tab_id (f t) = tab_id t) -> groups_ok c -> groups_ok (update_tabs c id f).
Proof.
  intros Hf Hc.
  assert (Hi : forall ts, ids (map (fun t => if is_tab id t then f t else t) ts) = ids ts).
  { intros ts. unfold ids. rewrite map_map. apply map_ext. intros t. destruct (is_tab id t); [apply Hf|done]. }
  unfold update_tabs. split; cbn [with_groups tab_groups].
  - intros g ts (ts' & <- & E)%lookup_fmap_Some. apply (go_nonempty c Hc) in E. by destruct ts'.
  - intros g ts (ts' & <- & E)%lookup_fmap_Some. rewrite Hi. by eapply go_nodup.
  - intros g1 g2 ts1 ts2 x (ts1' & <- & E1)%lookup_fmap_Some (ts2' & <- & E2)%lookup_fmap_Some. rewrite !Hi. by eapply go_disjoint.
Qed.

(** *** Adding *)

Lemma sorted_ids_eq ts1 ts2 : sorted_ids ts1 = sorted_ids ts2 <-> ids ts1 ≡ₚ ids ts2.
Proof.
  unfold sorted_ids. fold (ids ts1) (ids ts2). split.
  - intros E. rewrite <- (sort_by_key_perm (fun x : WindowId => x) (ids ts1)), E. apply sort_by_key_perm.
  - intros Hp. apply (StronglySorted_unique (key_le (fun x : WindowId => x))); [apply sort_by_key_sorted..|].
    by rewrite !sort_by_key_perm.
Qed.

(** Adding a window to the tabs [ts] it shares a native window with: to the group of the other
    tabs if there is one, to a new group if none of them is known.  The size of the map must
    not be the identifier of a group. *)
Lemma add_tab_ok c id ts :
  groups_ok c -> NoDup (ids ts) -> tab_groups c !! size (tab_groups c) = None ->
  (forall g group, tab_groups c !! g = Some group -> id ∉ ids group) ->
  (forall g group x, tab_groups c !! g = Some group -> x ∈ ids group -> x ∈ ids ts -> ids group ≡ₚ ids (others id ts)) ->
  groups_ok (add_tab c id ts) /\
  match find_tab id ts with
  | None => add_tab c id ts = c
  | Some t =>
      (exists g group, tab_groups c !! g = Some group /\ ids group ≡ₚ ids (others id ts) /\
         tab_groups (add_tab c id ts) = <[g := group ++ [t]]> (tab_groups c)) \/
      (forall g group x, tab_groups c !! g = Some group -> x ∈ ids group -> x ∉ ids ts) /\
        tab_groups (add_tab c id ts) = <[size (tab_groups c) := ts]> (tab_groups c)
  end.
Proof.
  intros Hc Hnd Hfree Hid Hgr. unfold add_tab. pose proof (find_tab_spec id ts) as Hf.
  destruct (find_tab id ts) as [t|]; [|done]. destruct Hf as [Hin Ht]. fold (others id ts).
  destruct (List.find _ (hash_iter (tab_groups c))) as [[g group]|] eqn:E.
  - apply find_some in E as [Hg Heq%bool_decide_eq_true]. apply list_elem_of_In, hash_iter_elem in Hg. cbn [snd] in Heq.
    apply sorted_ids_eq in Heq. split; [|left; by exists g, group].
    apply groups_ok_insert; [done|by destruct group| |].
    + unfold ids. rewrite map_app. fold (ids group) (ids [t]). apply NoDup_app. split_and!; [by eapply go_nodup| |apply NoDup_singleton].
      intros x Hx Hx'. apply list_elem_of_singleton in Hx'. subst. by apply (Hid g group Hg).
    + intros g' ts' x Hne Hg' Hx. unfold ids. rewrite map_app. fold (ids group) (ids [t]).
      intros [Hx'|Hx']%elem_of_app; [apply Hne; by eapply go_disjoint|].
      apply list_elem_of_singleton in Hx'. subst. by apply (Hid g' ts' Hg').
  - assert (Hno : forall g group x, tab_groups c !! g = Some group -> x ∈ ids group -> x ∉ ids ts).
    { intros g group x Hg Hx Hx'. apply (Hgr g group x Hg Hx), sorted_ids_eq in Hx'.
      apply hash_iter_elem, list_elem_of_In in Hg. apply (find_none _ _ E) in Hg. cbn [snd] in Hg.
      by rewrite Hx', bool_decide_eq_false in Hg. }
    split; [|right; by split]. apply groups_ok_insert; [done|by intros ->; apply elem_of_nil in Hin|done|].
    intros g' ts' x _ Hg' Hx Hx'. by apply (Hno g' ts' x).
Qed.

(** *** Stepping through the tabs and the groups *)

Lemma position_lookup ts i t : NoDup (ids ts) -> ts !! i = Some t -> position (tab_id t) ts = Some i.
Proof.
  intros Hnd Hi. pose proof (position_spec (tab_id t) ts) as Hp. destruct (position (tab_id t) ts) as [j|].
  - destruct Hp as (t' & Hj & E & _). f_equal. symmetry.
    apply (NoDup_lookup (ids ts) _ _ (tab_id t) Hnd); unfold ids; rewrite list_lookup_fmap; [by rewrite Hi|by rewrite Hj, <- E].
  - destruct Hp. apply list_elem_of_In, in_map, list_elem_of_In. by eapply list_elem_of_lookup_2.
Qed.

Lemma next_index_lt i n : i < n -> next_index i n < n.
Proof. intros. apply Nat.mod_upper_bound. lia. Qed.

Lemma prev_index_lt i n : i < n -> prev_index i n < n.
Proof. intros. unfold prev_index. destruct (Nat.eqb_spec i 0); lia. Qed.

Lemma prev_next_index i n : i < n -> prev_index (next_index i n) n = i.
Proof.
  intros. unfold prev_index, next_index. destruct (decide (i + 1 = n)) as [<-|Hne].
  - rewrite Nat.Div0.mod_same. cbn. lia.
  - rewrite Nat.mod_small by lia. destruct (Nat.eqb_spec (i + 1) 0); lia.
Qed.

Lemma select_tab_ok step c id ts : (forall i n, i < n -> step i n < n) -> groups_ok c -> tabs c id = Some ts ->
  exists i t, position id ts = Some i /\ i < length ts /\ ts !! step i (length ts) = Some t /\
    select_tab step c id = Ok (Some (handle t)) /\ tabs c (tab_id t) = Some ts.
Proof.
  intros Hstep Hc Ets. unfold select_tab. pose proof (tabs_spec c id Hc) as Hs. rewrite Ets in Hs |- *. destruct Hs as (g & _ & Hg & Hin).
  pose proof (position_spec id ts) as Hp. destruct (position id ts) as [i|]; [|done]. destruct Hp as (t0 & Hi & _).
  apply lookup_lt_Some in Hi. destruct (lookup_lt_is_Some_2 ts _ (Hstep i _ Hi)) as [t Ht]. exists i, t.
  cbn [unwrap obind]. unfold index. rewrite Ht. split_and!; [done..|]. unfold tabs. rewrite (group_of_Some c (tab_id t) g ts Hc Hg); [done|].
  apply list_elem_of_In, in_map, list_elem_of_In. by eapply list_elem_of_lookup_2.
Qed.

Lemma last_active_spec ts :
  match last_active ts with
  | Some t => t ∈ ts /\ Forall (fun t' => (last_active_at t' <= last_active_at t)%Z) ts
  | None => ts = []
  end.
Proof.
  induction ts as [|t ts IH]; [done|]. cbn [last_active]. destruct (last_active ts) as [b|].
  - destruct IH as [Hin Hall]. destruct (Z.leb_spec (last_active_at t) (last_active_at b)) as [Hle|Hlt]; (split; [|constructor]); try done.
    + by right.
    + by left.
    + eapply Forall_impl; [exact Hall|]. cbn. lia.
  - subst. split; [by left|]. by repeat constructor.
Qed.

Lemma index_of_spec g gs : g ∈ gs -> exists i, index_of g gs = Some i /\ gs !! i = Some g.
Proof.
  induction gs as [|g' gs IH]; intros Hin; [by apply elem_of_nil in Hin|]. cbn [index_of]. destruct (Nat.eqb_spec g' g) as [->|Hne].
  - by exists 0.
  - apply elem_of_cons in Hin as [->|Hin]; [done|]. destruct (IH Hin) as (i & -> & Hi). by exists (S i).
Qed.

Definition group_ids c : list nat := map fst (hash_iter (tab_groups c)).

Lemma neighbour_window_ok step c id g : (forall i n, i < n -> step i n < n) -> groups_ok c -> group_of c id = Some g ->
  exists i g' ts' t', group_ids c !! i = Some g /\ group_ids c !! step i (length (group_ids c)) = Some g' /\
    tab_groups c !! g' = Some ts' /\ t' ∈ ts' /\ Forall (fun t => (last_active_at t <= last_active_at t')%Z) ts' /\
    neighbour_window step c id = Ok (Some (handle t')).
Proof.
  intros Hstep Hc Eg. unfold neighbour_window. pose proof (group_of_spec c id Hc) as Hs. rewrite Eg in Hs |- *. destruct Hs as (ts & Hg & _).
  fold (group_ids c).
  assert (Hdom : forall g, g ∈ group_ids c <-> is_Some (tab_groups c !! g)).
  { intros g'. unfold group_ids. rewrite list_elem_of_In, in_map_iff. split.
    - intros ([g2 ts2] & <- & Hin). apply list_elem_of_In, hash_iter_elem in Hin. by eexists.
    - intros [ts2 Hg2]. exists (g', ts2). split; [done|]. by apply list_elem_of_In, hash_iter_elem. }
  destruct (index_of_spec g (group_ids c)) as (i & -> & Hi); [apply Hdom; by eexists|].
  destruct (lookup_lt_is_Some_2 (group_ids c) _ (Hstep i _ (lookup_lt_Some _ _ _ Hi))) as [g' Hg'].
  destruct (proj1 (Hdom g')) as [ts' Hts']; [by eapply list_elem_of_lookup_2|].
  pose proof (last_active_spec ts') as Hl. destruct (last_active ts') as [t'|] eqn:El; [|by destruct (go_nonempty c Hc g' ts')].
  destruct Hl as [Hin Hall]. exists i, g', ts', t'. split_and!; try done. rewrite Hg'. cbn. by rewrite Hts', El.
Qed.

(** *** The theorems *)

(** With no window in two tabs and no group empty, both of which every operation keeps, in whatever order the map is iterated: taking the tab of a window out returns it, leaves the other tabs in their groups and drops the group it was alone in; moving it to a window of its own puts it alone in a group of an unused number; merging leaves one group of all tabs with those of the window first; changing its position puts it there among the others, or does nothing if the index is past the end; titles and times change nothing else. *)
Theorem window_tabs_correct c id (Hc : groups_ok c) :
  (groups_ok (remove_tab c id).1 /\
   (remove_tab c id).2 = match tabs c id with Some ts => find_tab id ts | None => None end /\
   forall g, tab_groups (remove_tab c id).1 !! g =
     match tab_groups c !! g with
     | Some ts => match others id ts with [] => None | ts' => Some ts' end
     | None => None
     end) /\
  (groups_ok (move_tab_to_new_window c id) /\
   match tabs c id with
   | None => move_tab_to_new_window c id = (remove_tab c id).1
   | Some ts =>
       exists t g, find_tab id ts = Some t /\
         (forall g' ts', tab_groups (remove_tab c id).1 !! g' = Some ts' -> g' < g) /\
         tab_groups (move_tab_to_new_window c id) = <[g := [t]]> (tab_groups (remove_tab c id).1)
   end) /\
  (groups_ok (merge_all_windows c id) /\
   match tabs c id with
   | None => merge_all_windows c id = c
   | Some ts => exists rest, tab_groups (merge_all_windows c id) = {[0 := ts ++ rest]} /\ ts ++ rest ≡ₚ all_tabs c
   end) /\
  (forall ix, groups_ok (update_tab_position c id ix) /\
   match tabs c id with
   | None => update_tab_position c id ix = c
   | Some ts =>
       exists g t, tab_groups c !! g = Some ts /\ find_tab id ts = Some t /\
         tab_groups (update_tab_position c id ix) =
           if ix <? length ts then <[g := placed ix t ts]> (tab_groups c) else tab_groups c
   end) /\
  (forall new_title now, groups_ok (update_tab_title c id new_title) /\ groups_ok (update_last_active c id now)).
Proof.
  split_and!; [by apply remove_tab_ok|by apply remove_tab_result|intros g; by apply remove_tab_lookup|
    by apply move_tab_ok|by apply move_tab_ok|by apply merge_ok|by apply merge_ok| |].
  - intros ix. by apply update_tab_position_ok.
  - intros new_title now. split; [|by apply update_tabs_ok]. unfold update_tab_title.
    destruct (find_tab _ _) as [t|]; [|done]. destruct (bool_decide _); [done|]. by apply update_tabs_ok.
Qed.

(** A window that reports the tabs it is grouped with joins the group of the others, at the end, or founds a group, so that no window is in two groups, as long as the size of the map is not the number of a group. *)
Theorem add_tab_correct c id ts
    (Hc : groups_ok c) (Hnd : NoDup (ids ts)) (Hfree : tab_groups c !! size (tab_groups c) = None)
    (Hid : forall g group, tab_groups c !! g = Some group -> id ∉ ids group)
    (Hgr : forall g group x, tab_groups c !! g = Some group -> x ∈ ids group -> x ∈ ids ts -> ids group ≡ₚ ids (others id ts)) :
  groups_ok (add_tab c id ts) /\
  match find_tab id ts with
  | None => add_tab c id ts = c
  | Some t =>
      (exists g group, tab_groups c !! g = Some group /\ ids group ≡ₚ ids (others id ts) /\
         tab_groups (add_tab c id ts) = <[g := group ++ [t]]> (tab_groups c)) \/
      (forall g group x, tab_groups c !! g = Some group -> x ∈ ids group -> x ∉ ids ts) /\
        tab_groups (add_tab c id ts) = <[size (tab_groups c) := ts]> (tab_groups c)
  end.
Proof. by apply add_tab_ok. Qed.

(** Selecting the next or the previous tab never panics: it activates the tab after or before that of the window, around the ends of its group, and going back from there leads to the window; the next and the previous group are the neighbours of the window's in the order of the map, and the handle given is that of a most recently active tab there. *)
Theorem tab_navigation_correct c id (Hc : groups_ok c) :
  match tabs c id with
  | None => select_next_tab c id = Ok None /\ select_previous_tab c id = Ok None
  | Some ts =>
      exists t t', find_tab id ts = Some t /\ t' ∈ ts /\
        select_next_tab c id = Ok (Some (handle t')) /\ select_previous_tab c (tab_id t') = Ok (Some (handle t))
  end /\
  match group_of c id with
  | None => get_next_tab_group_window c id = Ok None /\ get_prev_tab_group_window c id = Ok None
  | Some g =>
      exists i g' ts' t', group_ids c !! i = Some g /\ group_ids c !! next_index i (length (group_ids c)) = Some g' /\
        tab_groups c !! g' = Some ts' /\ t' ∈ ts' /\ Forall (fun t => (last_active_at t <= last_active_at t')%Z) ts' /\
        get_next_tab_group_window c id = Ok (Some (handle t')) /\
        exists ts t, tab_groups c !! g = Some ts /\ t ∈ ts /\ Forall (fun t0 => (last_active_at t0 <= last_active_at t)%Z) ts /\
          get_prev_tab_group_window c (tab_id t') = Ok (Some (handle t))
  end.
Proof.
  split.
  - unfold select_next_tab, select_previous_tab. pose proof (tabs_spec c id Hc) as Hs. destruct (tabs c id) as [ts|] eqn:Ets.
    2: { unfold select_tab. by rewrite Ets. }
    destruct Hs as (g & _ & Hg & _). pose proof (go_nodup c Hc g ts Hg) as Hnd.
    destruct (select_tab_ok next_index c id ts next_index_lt Hc Ets) as (i & t' & Hp & Hlt & Ht' & -> & Ets').
    destruct (select_tab_ok prev_index c (tab_id t') ts prev_index_lt Hc Ets') as (j & t & Hp' & _ & Ht & Hprev & _).
    rewrite (position_lookup ts _ t' Hnd Ht') in Hp'. injection Hp' as <-. rewrite prev_next_index in Ht by done.
    pose proof (position_spec id ts) as Hps. rewrite Hp in Hps. destruct Hps as (t0 & Ht0 & _ & Hf).
    exists t, t'. rewrite Ht in Ht0. injection Ht0 as ->. split_and!; [done|by eapply list_elem_of_lookup_2|done|done].
  - unfold get_next_tab_group_window, get_prev_tab_group_window. destruct (group_of c id) as [g|] eqn:Eg.
    2: { unfold neighbour_window. by rewrite Eg. }
    destruct (neighbour_window_ok next_index c id g next_index_lt Hc Eg) as (i & g' & ts' & t' & Hi & Hg' & Hts' & Hin' & Hall' & ->).
    assert (Eg' : group_of c (tab_id t') = Some g').
    { apply (group_of_Some c _ g' ts' Hc Hts'). by apply list_elem_of_In, in_map, list_elem_of_In. }
    destruct (neighbour_window_ok prev_index c (tab_id t') g' prev_index_lt Hc Eg') as (j & g2 & ts & t & Hj & Hg2 & Hts & Hin & Hall & Hprev).
    exists i, g', ts', t'. split_and!; try done. exists ts, t.
    assert (j = next_index i (length (group_ids c))) as ->.
    { assert (Hnd : NoDup (group_ids c)) by (unfold group_ids; rewrite hash_iter_perm; apply NoDup_fst_map_to_list).
      by apply (NoDup_lookup _ _ _ g' Hnd). }
    rewrite prev_next_index in Hg2 by by eapply lookup_lt_Some. rewrite Hi in Hg2. injection Hg2 as <-. by rewrite <- Hprev.
Qed.
End Tabs.

(** ** Examples *)

Module TestTabs.

#[local] Existing Instance key_order.
#[local] Existing Instance key_order_laws.

Definition tab (id : WindowId) (now : Instant) : SystemWindowTab (Title := nat) (Handle := WindowId) := tab_new id 0 id now.

(** Three windows, two of them tabs of one native window. *)
Definition sample : Controller := mkController None {[0 := [tab 1 5; tab 2 9]; 1 := [tab 3 7]]}.

Lemma sample_groups g ts : tab_groups sample !! g = Some ts -> g = 0 /\ ts = [tab 1 5; tab 2 9] \/ g = 1 /\ ts = [tab 3 7].
Proof. intros E. cbn [sample tab_groups] in E. apply lookup_insert_Some in E as [[<- <-]|[_ [<- <-]%lookup_singleton_Some]]; auto. Qed.

Lemma sample_groups_ok : groups_ok sample.
Proof.
  split.
  - intros g ts [[_ ->]|[_ ->]]%sample_groups; done.
  - intros g ts [[_ ->]|[_ ->]]%sample_groups; by apply (bool_decide_unpack _).
  - intros g1 g2 ts1 ts2 x [[-> ->]|[-> ->]]%sample_groups [[-> ->]|[-> ->]]%sample_groups; cbn; set_solver.
Qed.

Example sample_steps :
  select_next_tab sample 2%positive = Ok (Some 1%positive) /\
  get_next_tab_group_window sample 3%positive = Ok (Some 2%positive) /\
  map_to_list (tab_groups (update_tab_position sample 2%positive 0)) = [(1, [tab 3 7]); (0, [tab 2 9; tab 1 5])].
Proof. vm_compute. done. Qed.

(** Closing a window and opening another: the size of the map is the number of a group, whose
    tabs are lost. *)
Example add_tab_overwrites_group :
  let c := (remove_tab (add_tab sample 4%positive [tab 4 1]) 3%positive).1 in
  map_to_list (tab_groups c) = [(2, [tab 4 1]); (0, [tab 1 5; tab 2 9])] /\
  map_to_list (tab_groups (add_tab c 5%positive [tab 5 2])) = [(2, [tab 5 2]); (0, [tab 1 5; tab 2 9])].
Proof. vm_compute. done. Qed.

Lemma window_tabs_correct_witness : groups_ok (merge_all_windows sample 3%positive).
Proof. destruct (window_tabs_correct sample 3%positive sample_groups_ok) as (_ & _ & (H & _) & _). exact H. Defined.

Lemma add_tab_correct_witness : groups_ok (add_tab sample 4%positive [tab 4 1; tab 3 7]).
Proof.
  refine (proj1 (add_tab_correct sample 4%positive [tab 4 1; tab 3 7] sample_groups_ok _ eq_refl _ _)).
  - by apply (bool_decide_unpack _).
  - intros g group [[_ ->]|[_ ->]]%sample_groups; by apply (bool_decide_unpack _).
  - intros g group x [[_ ->]|[_ ->]]%sample_groups Hx Hx'; [|done]. exfalso. cbn in Hx, Hx'. set_solver.
Defined.

Lemma tab_navigation_correct_witness : exists t, select_previous_tab sample (tab_id t) = Ok (Some 1%positive) /\ t ∈ [tab 1 5; tab 2 9].
Proof.
  destruct (tab_navigation_correct sample 1%positive sample_groups_ok) as [(t & t' & E & Hin & _ & H) _].
  exists t'. split; [|exact Hin]. vm_compute in E. injection E as <-. exact H.
Defined.
End TestTabs.
