(* ===== verification/Frame.v ===== *)
(** * Frame: the frames of a window, [crates/gpui/src/window.rs]

    A window holds the frame that is shown and the next one.  Drawing fills the next frame:
    elements are prepainted, which leaves hitboxes, tooltips, deferred draws and nodes of the
    dispatch tree, and painted, which leaves primitives, listeners, cursor styles and tab
    stops.  Elements and callbacks are functions on the window.  A part that did not change is
    taken over from the frame shown, by ranges of indices.  The dispatch tree, the scene, the
    tab stops and the caches of text are classes of the operations that a frame uses.  The
    element's opacity, the inspector and accessibility are left out, and so are the fields
    for tests. *)

From Stdlib Require Import NArith ZArith.
From S2P Require Import Geometry Scene.
From stdpp Require Import base list option numbers gmap.
From S2P Require Import Prelude Sorting Geometry.

#[local] Set Warnings "-register-all,-clear-no-such-hyp".

#[export] Instance Point_eq_dec : EqDecision Point.
Proof. solve_decision. Defined.
#[export] Instance Size_eq_dec : EqDecision Size.
Proof. solve_decision. Defined.
#[export] Instance Bounds_eq_dec : EqDecision Bounds.
Proof. solve_decision. Defined.
#[export] Instance ContentMask_eq_dec : EqDecision ContentMask.
Proof. solve_decision. Defined.

(** ** Hitboxes *)

Inductive HitboxBehavior := HitNormal | BlockMouse | BlockMouseExceptScroll.
#[export] Instance HitboxBehavior_eq_dec : EqDecision HitboxBehavior.
Proof. solve_decision. Defined.

(** An identifier is a [u64]. *)
Abbreviation HitboxId := Z.

Record Hitbox := mkHitbox {
  hitbox_id : HitboxId;
  hitbox_bounds : Bounds;
  hitbox_mask : ContentMask;
  behavior : HitboxBehavior;
}.

Record HitTest := mkHitTest { ids : list HitboxId; hover_hitbox_count : nat }.
#[export] Instance HitTest_eq_dec : EqDecision HitTest.
Proof. solve_decision. Defined.

Definition hit_test_default : HitTest := mkHitTest [] 0.

Definition hitbox_id_next (id : HitboxId) : HitboxId := (id + 1) mod 2 ^ 64.

(** [ContentMask::intersect] *)
Definition mask_intersect (a b : ContentMask) : ContentMask := mkMask (intersect (mask_bounds a) (mask_bounds b)).

Inductive WindowControlArea := AreaDrag | AreaClose | AreaMax | AreaMin.

(** The loop of [hit_test] over the hitboxes, topmost first; the count is set once. *)
Fixpoint hit_test_loop (position : Point) (hs : list Hitbox) (found : list HitboxId) (count : option nat) : list HitboxId * option nat :=
  match hs with
  | [] => (found, count)
  | h :: hs =>
      if contains (intersect (hitbox_bounds h) (mask_bounds (hitbox_mask h))) position then
        let found := found ++ [hitbox_id h] in
        let count :=
          match count with
          | None => if bool_decide (behavior h = BlockMouseExceptScroll) then Some (length found) else None
          | Some n => Some n
          end in
        if bool_decide (behavior h = BlockMouse) then (found, count) else hit_test_loop position hs found count
      else hit_test_loop position hs found count
  end.

Definition hit_test (hs : list Hitbox) (position : Point) : HitTest :=
  let (found, count) := hit_test_loop position (rev hs) [] None in
  mkHitTest found (default (length found) count).

(** ** What a frame is made of *)

Abbreviation FocusId := N.
Abbreviation EntityId := N.
Abbreviation NodeId := nat.

(** The dispatch tree; a reused subtree tells whether it holds the focus and where its nodes
    have gone. *)
Class FrameTree (Tree Reused : Type) := {
  tree_len : Tree -> nat;
  tree_clear : Tree -> Tree;
  tree_truncate : Tree -> nat -> outcome Tree;
  tree_push_node : Tree -> Tree * NodeId;
  tree_pop_node : Tree -> outcome Tree;
  tree_active_node : Tree -> option NodeId;
  tree_set_active_node : Tree -> NodeId -> outcome Tree;
  tree_set_focus_id : Tree -> FocusId -> outcome Tree;
  tree_set_view_id : Tree -> EntityId -> outcome Tree;
  tree_focus_path : Tree -> FocusId -> outcome (list FocusId);
  tree_view_path : Tree -> EntityId -> outcome (list EntityId);
  tree_reuse_subtree : Tree -> nat * nat -> Tree -> option FocusId -> outcome (Tree * Tree * Reused);
  reused_contains_focus : Reused -> bool;
  reused_node_id : Reused -> NodeId -> outcome NodeId;
}.

Class FrameScene (Scn : Type) := {
  frame_scene_default : Scn;
  frame_scene_len : Scn -> nat;
  frame_scene_clear : Scn -> Scn;
  frame_scene_replay : Scn -> nat -> nat -> Scn -> outcome Scn;
  frame_scene_finish : Scn -> Scn;
}.

Class FrameTabs (Tabs : Type) := {
  tabs_default : Tabs;
  tabs_paint_index : Tabs -> nat;
  tabs_clear : Tabs -> Tabs;
  tabs_replay : Tabs -> nat -> nat -> Tabs -> outcome Tabs;
  tabs_begin_group : Tabs -> Z -> Tabs;
  tabs_end_group : Tabs -> Tabs;
}.

(** The caches of lines, of a window and shared, with positions in the lines of a frame. *)
Class FrameText (Text Index : Type) := {
  text_index_default : Index;
  text_layout_index : Text -> Text * Index;
  text_reuse_layouts : Text -> Index -> Index -> outcome Text;
  text_truncate_layouts : Text -> Index -> Text;
  text_finish_frame : Text -> Text;
}.

(** The entities that the application has read in this frame. *)
Class FrameApp (Cx Tracked : Type) `{Countable Tracked} := {
  cx_accessed : Cx -> gset Tracked;
  cx_extend_accessed : Cx -> gset Tracked -> Cx;
  cx_clear_accessed : Cx -> Cx;
}.

(** The layout engine, which is that of a library. *)
Class FrameLayout (Layout LayoutId : Type) := {
  engine_clear : Layout -> Layout;
  engine_stretch : Layout -> LayoutId -> Size -> Layout;
  engine_bounds : Layout -> LayoutId -> Layout * Bounds;
}.

(** A node with its view and its focus, as an element that sets them opens it. *)
Definition tree_open `{FrameTree Tree Reused} (t : Tree) (view : option EntityId) (foc : option FocusId) : outcome Tree :=
  let (t, _) := tree_push_node t in
  let! t := match view with Some v => tree_set_view_id t v | None => Ok t end in
  match foc with Some f => tree_set_focus_id t f | None => Ok t end.

(** What a frame relies on.  [tree_grown t t'] is the effect of code that closes the nodes it
    opens, [tree_opened t t'] that of opening a node; [tree_same] is equality but for where
    handles are filed. *)
Class FrameTreeLaws (Tree Reused : Type) `{FrameTree Tree Reused} := {
  tree_ok : Tree -> Prop;
  tree_grown : Tree -> Tree -> Prop;
  tree_opened : Tree -> Tree -> Prop;
  tree_same : Tree -> Tree -> Prop;
  tree_range : Tree -> nat -> nat -> Prop;
  tree_clear_ok t : tree_ok (tree_clear t);
  tree_grown_refl t : tree_ok t -> tree_grown t t;
  tree_grown_trans t1 t2 t3 : tree_grown t1 t2 -> tree_grown t2 t3 -> tree_grown t1 t3;
  tree_grown_ok t t' : tree_grown t t' -> tree_ok t';
  tree_grown_len t t' : tree_grown t t' -> tree_len t <= tree_len t';
  tree_grown_active t t' : tree_grown t t' -> tree_active_node t' = tree_active_node t;
  tree_grown_range t t' : tree_grown t t' -> tree_range t' (tree_len t) (tree_len t');
  tree_range_grown t t' lo hi : tree_range t lo hi -> hi <= tree_len t -> tree_grown t t' -> tree_range t' lo hi;
  tree_truncate_grown t t' : tree_grown t t' -> exists t'', tree_truncate t' (tree_len t) = Ok t'' /\ tree_same t t'';
  tree_same_grown t0 t t' : tree_grown t0 t -> tree_same t t' -> tree_grown t0 t';
  tree_open_ok t view foc : tree_ok t ->
    exists t', tree_open t view foc = Ok t' /\ tree_opened t t' /\ tree_ok t' /\ tree_active_node t' = Some (tree_len t) /\
    tree_len t' = S (tree_len t);
  tree_close_ok t t' t'' : tree_opened t t' -> tree_grown t' t'' -> exists t3, tree_pop_node t'' = Ok t3 /\ tree_grown t t3 /\ tree_len t3 = tree_len t'' /\
    forall lo hi, tree_range t'' lo hi -> tree_range t3 lo hi;
  tree_reuse_range t source lo hi foc : tree_ok t -> tree_ok source -> tree_range source lo hi -> hi <= tree_len source ->
    exists t' source' r, tree_reuse_subtree t (lo, hi) source foc = Ok (t', source', r) /\ tree_grown t t' /\ tree_ok source' /\
    tree_len source' = tree_len source /\ (forall lo' hi', tree_range source lo' hi' -> tree_range source' lo' hi') /\
    tree_len t' = tree_len t + (hi - lo) /\ forall i, lo <= i < hi -> reused_node_id r i = Ok (tree_len t + (i - lo));
}.

(** The same of the caches of lines: what is laid out in a frame can be taken over in the
    next, whatever else is laid out; and truncating goes back to the place recorded, while
    no fonts are added. *)
Class FrameTextLaws (Text Index : Type) `{FrameText Text Index} := {
  text_grown : Text -> Text -> Prop;
  text_range : Text -> Index -> Index -> Prop;
  text_grown_refl t : text_grown t t;
  text_grown_trans t1 t2 t3 : text_grown t1 t2 -> text_grown t2 t3 -> text_grown t1 t3;
  text_index_grown t : text_grown t (text_layout_index t).1;
  text_truncate_grown t t' : text_grown (text_layout_index t).1 t' -> text_grown t (text_truncate_layouts t' (text_layout_index t).2);
  text_range_recorded t t' t'' : text_grown (text_layout_index t).1 t' -> text_grown (text_layout_index t').1 t'' ->
    text_range (text_finish_frame t'') (text_layout_index t).2 (text_layout_index t').2;
  text_range_grown t t' i j : text_range t i j -> text_grown t t' -> text_range t' i j;
  text_reuse_grown t i j : text_range t i j -> exists t', text_reuse_layouts t i j = Ok t' /\ text_grown t t';
  text_fonts : Text -> nat;
  text_truncate_index t t' : text_grown (text_layout_index t).1 t' -> text_fonts t' = text_fonts t ->
    (text_layout_index (text_truncate_layouts t' (text_layout_index t).2)).2 = (text_layout_index t).2;
}.

Section Frame.
Context {Tree Reused Scn Tabs Text TextIndex : Type}.
Context `{FrameTree Tree Reused} `{FrameScene Scn} `{FrameTabs Tabs} `{FrameText Text TextIndex} `{FrameApp Cx Tracked} `{FrameLayout Layout LayoutId}.
(** An element's identifier with the type of its state, and the states of elements. *)
Context {StateKey ElementState : Type} `{!EqDecision StateKey, !Countable StateKey}.
Context {Element View MouseListener InputHandler Tooltip ElementId TextStyle CursorStyle : Type}.

Record CursorStyleRequest := mkCursorStyle { cursor_hitbox : option HitboxId; cursor_style_ : CursorStyle }.

Record TooltipRequest := mkTooltip { tooltip_id : nat; tooltip : Tooltip }.

Record PrepaintStateIndex := mkPrepaintIndex {
  hitboxes_index : nat;
  tooltips_index : nat;
  deferred_draws_index : nat;
  dispatch_tree_index : nat;
  prepaint_accessed_index : nat;
  prepaint_line_index : TextIndex;
}.

Record PaintIndex := mkPaintIndex {
  scene_index : nat;
  mouse_listeners_index : nat;
  input_handlers_index : nat;
  cursor_styles_index : nat;
  paint_accessed_index : nat;
  tab_handle_index : nat;
  paint_line_index : TextIndex;
}.

Definition prepaint_index_default : PrepaintStateIndex := mkPrepaintIndex 0 0 0 0 0 text_index_default.
Definition paint_index_default : PaintIndex := mkPaintIndex 0 0 0 0 0 0 text_index_default.

Record DeferredDraw := mkDeferred {
  draw_view : EntityId;
  draw_priority : nat;
  parent_node : NodeId;
  draw_id_stack : list ElementId;
  draw_style_stack : list TextStyle;
  draw_element : option Element;
  draw_offset : Point;
  draw_prepaint_range : PrepaintStateIndex * PrepaintStateIndex;
  draw_paint_range : PaintIndex * PaintIndex;
}.

Definition with_draw_element (e : option Element) (d : DeferredDraw) : DeferredDraw :=
  mkDeferred (draw_view d) (draw_priority d) (parent_node d) (draw_id_stack d) (draw_style_stack d) e (draw_offset d) (draw_prepaint_range d) (draw_paint_range d).
Definition with_prepaint_range (r : PrepaintStateIndex * PrepaintStateIndex) (d : DeferredDraw) : DeferredDraw :=
  mkDeferred (draw_view d) (draw_priority d) (parent_node d) (draw_id_stack d) (draw_style_stack d) (draw_element d) (draw_offset d) r (draw_paint_range d).
Definition with_paint_range (r : PaintIndex * PaintIndex) (d : DeferredDraw) : DeferredDraw :=
  mkDeferred (draw_view d) (draw_priority d) (parent_node d) (draw_id_stack d) (draw_style_stack d) (draw_element d) (draw_offset d) (draw_prepaint_range d) r.

(** A box of a state is empty while the state is lent. *)
Record Frame := mkFrame {
  focus : option FocusId;
  window_active : bool;
  element_states : gmap StateKey (option ElementState);
  accessed_element_states : list StateKey;
  mouse_listeners : list (option MouseListener);
  dispatch_tree : Tree;
  scene : Scn;
  hitboxes : list Hitbox;
  window_control_hitboxes : list (WindowControlArea * Hitbox);
  deferred_draws : list DeferredDraw;
  input_handlers : list (option InputHandler);
  tooltip_requests : list (option TooltipRequest);
  cursor_styles : list CursorStyleRequest;
  tab_stops : Tabs;
}.

Definition set_focus v f : Frame := mkFrame v (window_active f) (element_states f) (accessed_element_states f) (mouse_listeners f) (dispatch_tree f) (scene f) (hitboxes f) (window_control_hitboxes f) (deferred_draws f) (input_handlers f) (tooltip_requests f) (cursor_styles f) (tab_stops f).
Definition set_window_active v f : Frame := mkFrame (focus f) v (element_states f) (accessed_element_states f) (mouse_listeners f) (dispatch_tree f) (scene f) (hitboxes f) (window_control_hitboxes f) (deferred_draws f) (input_handlers f) (tooltip_requests f) (cursor_styles f) (tab_stops f).
Definition set_element_states v f : Frame := mkFrame (focus f) (window_active f) v (accessed_element_states f) (mouse_listeners f) (dispatch_tree f) (scene f) (hitboxes f) (window_control_hitboxes f) (deferred_draws f) (input_handlers f) (tooltip_requests f) (cursor_styles f) (tab_stops f).
Definition set_accessed_element_states v f : Frame := mkFrame (focus f) (window_active f) (element_states f) v (mouse_listeners f) (dispatch_tree f) (scene f) (hitboxes f) (window_control_hitboxes f) (deferred_draws f) (input_handlers f) (tooltip_requests f) (cursor_styles f) (tab_stops f).
Definition set_mouse_listeners v f : Frame := mkFrame (focus f) (window_active f) (element_states f) (accessed_element_states f) v (dispatch_tree f) (scene f) (hitboxes f) (window_control_hitboxes f) (deferred_draws f) (input_handlers f) (tooltip_requests f) (cursor_styles f) (tab_stops f).
Definition set_dispatch_tree v f : Frame := mkFrame (focus f) (window_active f) (element_states f) (accessed_element_states f) (mouse_listeners f) v (scene f) (hitboxes f) (window_control_hitboxes f) (deferred_draws f) (input_handlers f) (tooltip_requests f) (cursor_styles f) (tab_stops f).
Definition set_scene v f : Frame := mkFrame (focus f) (window_active f) (element_states f) (accessed_element_states f) (mouse_listeners f) (dispatch_tree f) v (hitboxes f) (window_control_hitboxes f) (deferred_draws f) (input_handlers f) (tooltip_requests f) (cursor_styles f) (tab_stops f).
Definition set_hitboxes v f : Frame := mkFrame (focus f) (window_active f) (element_states f) (accessed_element_states f) (mouse_listeners f) (dispatch_tree f) (scene f) v (window_control_hitboxes f) (deferred_draws f) (input_handlers f) (tooltip_requests f) (cursor_styles f) (tab_stops f).
Definition set_window_control_hitboxes v f : Frame := mkFrame (focus f) (window_active f) (element_states f) (accessed_element_states f) (mouse_listeners f) (dispatch_tree f) (scene f) (hitboxes f) v (deferred_draws f) (input_handlers f) (tooltip_requests f) (cursor_styles f) (tab_stops f).
Definition set_deferred_draws v f : Frame := mkFrame (focus f) (window_active f) (element_states f) (accessed_element_states f) (mouse_listeners f) (dispatch_tree f) (scene f) (hitboxes f) (window_control_hitboxes f) v (input_handlers f) (tooltip_requests f) (cursor_styles f) (tab_stops f).
Definition set_input_handlers v f : Frame := mkFrame (focus f) (window_active f) (element_states f) (accessed_element_states f) (mouse_listeners f) (dispatch_tree f) (scene f) (hitboxes f) (window_control_hitboxes f) (deferred_draws f) v (tooltip_requests f) (cursor_styles f) (tab_stops f).
Definition set_tooltip_requests v f : Frame := mkFrame (focus f) (window_active f) (element_states f) (accessed_element_states f) (mouse_listeners f) (dispatch_tree f) (scene f) (hitboxes f) (window_control_hitboxes f) (deferred_draws f) (input_handlers f) v (cursor_styles f) (tab_stops f).
Definition set_cursor_styles v f : Frame := mkFrame (focus f) (window_active f) (element_states f) (accessed_element_states f) (mouse_listeners f) (dispatch_tree f) (scene f) (hitboxes f) (window_control_hitboxes f) (deferred_draws f) (input_handlers f) (tooltip_requests f) v (tab_stops f).
Definition set_tab_stops v f : Frame := mkFrame (focus f) (window_active f) (element_states f) (accessed_element_states f) (mouse_listeners f) (dispatch_tree f) (scene f) (hitboxes f) (window_control_hitboxes f) (deferred_draws f) (input_handlers f) (tooltip_requests f) (cursor_styles f) v.

Definition frame_new (t : Tree) : Frame := mkFrame None false ∅ [] [] t frame_scene_default [] [] [] [] [] [] tabs_default.

(** Whether the window was active is left as it is. *)
Definition frame_clear f : Frame :=
  mkFrame None (window_active f) ∅ [] [] (tree_clear (dispatch_tree f)) (frame_scene_clear (scene f)) [] [] [] [] [] [] (tabs_clear (tab_stops f)).

Definition focus_path f : outcome (list FocusId) :=
  match focus f with Some id => tree_focus_path (dispatch_tree f) id | None => Ok [] end.

(** The states accessed leave the previous frame. *)
Definition keep_state (ms : gmap StateKey (option ElementState) * gmap StateKey (option ElementState)) (k : StateKey) :
    gmap StateKey (option ElementState) * gmap StateKey (option ElementState) :=
  let (prev, next) := ms in
  match prev !! k with
  | Some b => (delete k prev, <[k := b]> next)
  | None => (prev, next)
  end.

(** The frame and the previous one. *)
Definition frame_finish f (prev : Frame) : Frame * Frame :=
  let (p, n) := foldl keep_state (element_states prev, element_states f) (accessed_element_states f) in
  (set_scene (frame_scene_finish (scene f)) (set_element_states n f), set_element_states p prev).

(** ** The window, as far as it draws *)

Inductive DrawPhase := NotDrawing | PrepaintPhase | PaintPhase | FocusPhase.
#[local] Instance DrawPhase_eq_dec : EqDecision DrawPhase.
Proof. solve_decision. Defined.

Record TooltipBounds := mkTooltipBounds { bounds_tooltip : nat; bounds_of_tooltip : Bounds }.

(** [AnyDrag], without its value and its cursor. *)
Record Drag := mkDrag { drag_view : View; cursor_offset : Point }.

(** The application is passed along with the window, and here is [cx]; two of its fields,
    [active_drag] and [propagate_event], stand beside it.  [dirty], [draw_phase] and
    [invalidated_views], which are the dirty views, are those of the window's invalidator. *)
Record Window := mkWindow {
  next_frame : Frame;
  rendered_frame : Frame;
  win_focus : option FocusId;
  next_hitbox_id : HitboxId;
  next_tooltip_id : nat;
  content_mask_stack : list ContentMask;
  element_offset_stack : list Point;
  element_id_stack : list ElementId;
  text_style_stack : list TextStyle;
  rendered_entity_stack : list EntityId;
  viewport_size : Size;
  mouse_position : Point;
  mouse_hit_test : HitTest;
  captured_hitbox : option HitboxId;
  last_input_was_keyboard : bool;
  requested_autoscroll : option Bounds;
  tooltip_bounds : option TooltipBounds;
  text_system : Text;
  platform_input_handler : option InputHandler;
  active : bool;
  propagate_event : bool;
  dirty_views : gset EntityId;
  invalidated_views : gset EntityId;
  refreshing : bool;
  cx : Cx;
  layout_engine : Layout;
  root : option View;
  prompt : option View;
  active_drag : option Drag;
  dirty : bool;
  draw_phase : DrawPhase;
}.

Implicit Types (w : Window).

Definition set_next_frame v w : Window := mkWindow v (rendered_frame w) (win_focus w) (next_hitbox_id w) (next_tooltip_id w) (content_mask_stack w) (element_offset_stack w) (element_id_stack w) (text_style_stack w) (rendered_entity_stack w) (viewport_size w) (mouse_position w) (mouse_hit_test w) (captured_hitbox w) (last_input_was_keyboard w) (requested_autoscroll w) (tooltip_bounds w) (text_system w) (platform_input_handler w) (active w) (propagate_event w) (dirty_views w) (invalidated_views w) (refreshing w) (cx w) (layout_engine w) (root w) (prompt w) (active_drag w) (dirty w) (draw_phase w).
Definition set_rendered_frame v w : Window := mkWindow (next_frame w) v (win_focus w) (next_hitbox_id w) (next_tooltip_id w) (content_mask_stack w) (element_offset_stack w) (element_id_stack w) (text_style_stack w) (rendered_entity_stack w) (viewport_size w) (mouse_position w) (mouse_hit_test w) (captured_hitbox w) (last_input_was_keyboard w) (requested_autoscroll w) (tooltip_bounds w) (text_system w) (platform_input_handler w) (active w) (propagate_event w) (dirty_views w) (invalidated_views w) (refreshing w) (cx w) (layout_engine w) (root w) (prompt w) (active_drag w) (dirty w) (draw_phase w).
Definition set_win_focus v w : Window := mkWindow (next_frame w) (rendered_frame w) v (next_hitbox_id w) (next_tooltip_id w) (content_mask_stack w) (element_offset_stack w) (element_id_stack w) (text_style_stack w) (rendered_entity_stack w) (viewport_size w) (mouse_position w) (mouse_hit_test w) (captured_hitbox w) (last_input_was_keyboard w) (requested_autoscroll w) (tooltip_bounds w) (text_system w) (platform_input_handler w) (active w) (propagate_event w) (dirty_views w) (invalidated_views w) (refreshing w) (cx w) (layout_engine w) (root w) (prompt w) (active_drag w) (dirty w) (draw_phase w).
Definition set_next_hitbox_id v w : Window := mkWindow (next_frame w) (rendered_frame w) (win_focus w) v (next_tooltip_id w) (content_mask_stack w) (element_offset_stack w) (element_id_stack w) (text_style_stack w) (rendered_entity_stack w) (viewport_size w) (mouse_position w) (mouse_hit_test w) (captured_hitbox w) (last_input_was_keyboard w) (requested_autoscroll w) (tooltip_bounds w) (text_system w) (platform_input_handler w) (active w) (propagate_event w) (dirty_views w) (invalidated_views w) (refreshing w) (cx w) (layout_engine w) (root w) (prompt w) (active_drag w) (dirty w) (draw_phase w).
Definition set_next_tooltip_id v w : Window := mkWindow (next_frame w) (rendered_frame w) (win_focus w) (next_hitbox_id w) v (content_mask_stack w) (element_offset_stack w) (element_id_stack w) (text_style_stack w) (rendered_entity_stack w) (viewport_size w) (mouse_position w) (mouse_hit_test w) (captured_hitbox w) (last_input_was_keyboard w) (requested_autoscroll w) (tooltip_bounds w) (text_system w) (platform_input_handler w) (active w) (propagate_event w) (dirty_views w) (invalidated_views w) (refreshing w) (cx w) (layout_engine w) (root w) (prompt w) (active_drag w) (dirty w) (draw_phase w).
Definition set_content_mask_stack v w : Window := mkWindow (next_frame w) (rendered_frame w) (win_focus w) (next_hitbox_id w) (next_tooltip_id w) v (element_offset_stack w) (element_id_stack w) (text_style_stack w) (rendered_entity_stack w) (viewport_size w) (mouse_position w) (mouse_hit_test w) (captured_hitbox w) (last_input_was_keyboard w) (requested_autoscroll w) (tooltip_bounds w) (text_system w) (platform_input_handler w) (active w) (propagate_event w) (dirty_views w) (invalidated_views w) (refreshing w) (cx w) (layout_engine w) (root w) (prompt w) (active_drag w) (dirty w) (draw_phase w).
Definition set_element_offset_stack v w : Window := mkWindow (next_frame w) (rendered_frame w) (win_focus w) (next_hitbox_id w) (next_tooltip_id w) (content_mask_stack w) v (element_id_stack w) (text_style_stack w) (rendered_entity_stack w) (viewport_size w) (mouse_position w) (mouse_hit_test w) (captured_hitbox w) (last_input_was_keyboard w) (requested_autoscroll w) (tooltip_bounds w) (text_system w) (platform_input_handler w) (active w) (propagate_event w) (dirty_views w) (invalidated_views w) (refreshing w) (cx w) (layout_engine w) (root w) (prompt w) (active_drag w) (dirty w) (draw_phase w).
Definition set_element_id_stack v w : Window := mkWindow (next_frame w) (rendered_frame w) (win_focus w) (next_hitbox_id w) (next_tooltip_id w) (content_mask_stack w) (element_offset_stack w) v (text_style_stack w) (rendered_entity_stack w) (viewport_size w) (mouse_position w) (mouse_hit_test w) (captured_hitbox w) (last_input_was_keyboard w) (requested_autoscroll w) (tooltip_bounds w) (text_system w) (platform_input_handler w) (active w) (propagate_event w) (dirty_views w) (invalidated_views w) (refreshing w) (cx w) (layout_engine w) (root w) (prompt w) (active_drag w) (dirty w) (draw_phase w).
Definition set_text_style_stack v w : Window := mkWindow (next_frame w) (rendered_frame w) (win_focus w) (next_hitbox_id w) (next_tooltip_id w) (content_mask_stack w) (element_offset_stack w) (element_id_stack w) v (rendered_entity_stack w) (viewport_size w) (mouse_position w) (mouse_hit_test w) (captured_hitbox w) (last_input_was_keyboard w) (requested_autoscroll w) (tooltip_bounds w) (text_system w) (platform_input_handler w) (active w) (propagate_event w) (dirty_views w) (invalidated_views w) (refreshing w) (cx w) (layout_engine w) (root w) (prompt w) (active_drag w) (dirty w) (draw_phase w).
Definition set_rendered_entity_stack v w : Window := mkWindow (next_frame w) (rendered_frame w) (win_focus w) (next_hitbox_id w) (next_tooltip_id w) (content_mask_stack w) (element_offset_stack w) (element_id_stack w) (text_style_stack w) v (viewport_size w) (mouse_position w) (mouse_hit_test w) (captured_hitbox w) (last_input_was_keyboard w) (requested_autoscroll w) (tooltip_bounds w) (text_system w) (platform_input_handler w) (active w) (propagate_event w) (dirty_views w) (invalidated_views w) (refreshing w) (cx w) (layout_engine w) (root w) (prompt w) (active_drag w) (dirty w) (draw_phase w).
Definition set_mouse_position v w : Window := mkWindow (next_frame w) (rendered_frame w) (win_focus w) (next_hitbox_id w) (next_tooltip_id w) (content_mask_stack w) (element_offset_stack w) (element_id_stack w) (text_style_stack w) (rendered_entity_stack w) (viewport_size w) v (mouse_hit_test w) (captured_hitbox w) (last_input_was_keyboard w) (requested_autoscroll w) (tooltip_bounds w) (text_system w) (platform_input_handler w) (active w) (propagate_event w) (dirty_views w) (invalidated_views w) (refreshing w) (cx w) (layout_engine w) (root w) (prompt w) (active_drag w) (dirty w) (draw_phase w).
Definition set_mouse_hit_test v w : Window := mkWindow (next_frame w) (rendered_frame w) (win_focus w) (next_hitbox_id w) (next_tooltip_id w) (content_mask_stack w) (element_offset_stack w) (element_id_stack w) (text_style_stack w) (rendered_entity_stack w) (viewport_size w) (mouse_position w) v (captured_hitbox w) (last_input_was_keyboard w) (requested_autoscroll w) (tooltip_bounds w) (text_system w) (platform_input_handler w) (active w) (propagate_event w) (dirty_views w) (invalidated_views w) (refreshing w) (cx w) (layout_engine w) (root w) (prompt w) (active_drag w) (dirty w) (draw_phase w).
Definition set_captured_hitbox v w : Window := mkWindow (next_frame w) (rendered_frame w) (win_focus w) (next_hitbox_id w) (next_tooltip_id w) (content_mask_stack w) (element_offset_stack w) (element_id_stack w) (text_style_stack w) (rendered_entity_stack w) (viewport_size w) (mouse_position w) (mouse_hit_test w) v (last_input_was_keyboard w) (requested_autoscroll w) (tooltip_bounds w) (text_system w) (platform_input_handler w) (active w) (propagate_event w) (dirty_views w) (invalidated_views w) (refreshing w) (cx w) (layout_engine w) (root w) (prompt w) (active_drag w) (dirty w) (draw_phase w).
Definition set_last_input_was_keyboard v w : Window := mkWindow (next_frame w) (rendered_frame w) (win_focus w) (next_hitbox_id w) (next_tooltip_id w) (content_mask_stack w) (element_offset_stack w) (element_id_stack w) (text_style_stack w) (rendered_entity_stack w) (viewport_size w) (mouse_position w) (mouse_hit_test w) (captured_hitbox w) v (requested_autoscroll w) (tooltip_bounds w) (text_system w) (platform_input_handler w) (active w) (propagate_event w) (dirty_views w) (invalidated_views w) (refreshing w) (cx w) (layout_engine w) (root w) (prompt w) (active_drag w) (dirty w) (draw_phase w).
Definition set_requested_autoscroll v w : Window := mkWindow (next_frame w) (rendered_frame w) (win_focus w) (next_hitbox_id w) (next_tooltip_id w) (content_mask_stack w) (element_offset_stack w) (element_id_stack w) (text_style_stack w) (rendered_entity_stack w) (viewport_size w) (mouse_position w) (mouse_hit_test w) (captured_hitbox w) (last_input_was_keyboard w) v (tooltip_bounds w) (text_system w) (platform_input_handler w) (active w) (propagate_event w) (dirty_views w) (invalidated_views w) (refreshing w) (cx w) (layout_engine w) (root w) (prompt w) (active_drag w) (dirty w) (draw_phase w).
Definition set_tooltip_bounds v w : Window := mkWindow (next_frame w) (rendered_frame w) (win_focus w) (next_hitbox_id w) (next_tooltip_id w) (content_mask_stack w) (element_offset_stack w) (element_id_stack w) (text_style_stack w) (rendered_entity_stack w) (viewport_size w) (mouse_position w) (mouse_hit_test w) (captured_hitbox w) (last_input_was_keyboard w) (requested_autoscroll w) v (text_system w) (platform_input_handler w) (active w) (propagate_event w) (dirty_views w) (invalidated_views w) (refreshing w) (cx w) (layout_engine w) (root w) (prompt w) (active_drag w) (dirty w) (draw_phase w).
Definition set_text_system v w : Window := mkWindow (next_frame w) (rendered_frame w) (win_focus w) (next_hitbox_id w) (next_tooltip_id w) (content_mask_stack w) (element_offset_stack w) (element_id_stack w) (text_style_stack w) (rendered_entity_stack w) (viewport_size w) (mouse_position w) (mouse_hit_test w) (captured_hitbox w) (last_input_was_keyboard w) (requested_autoscroll w) (tooltip_bounds w) v (platform_input_handler w) (active w) (propagate_event w) (dirty_views w) (invalidated_views w) (refreshing w) (cx w) (layout_engine w) (root w) (prompt w) (active_drag w) (dirty w) (draw_phase w).
Definition set_platform_input_handler v w : Window := mkWindow (next_frame w) (rendered_frame w) (win_focus w) (next_hitbox_id w) (next_tooltip_id w) (content_mask_stack w) (element_offset_stack w) (element_id_stack w) (text_style_stack w) (rendered_entity_stack w) (viewport_size w) (mouse_position w) (mouse_hit_test w) (captured_hitbox w) (last_input_was_keyboard w) (requested_autoscroll w) (tooltip_bounds w) (text_system w) v (active w) (propagate_event w) (dirty_views w) (invalidated_views w) (refreshing w) (cx w) (layout_engine w) (root w) (prompt w) (active_drag w) (dirty w) (draw_phase w).
Definition set_propagate_event v w : Window := mkWindow (next_frame w) (rendered_frame w) (win_focus w) (next_hitbox_id w) (next_tooltip_id w) (content_mask_stack w) (element_offset_stack w) (element_id_stack w) (text_style_stack w) (rendered_entity_stack w) (viewport_size w) (mouse_position w) (mouse_hit_test w) (captured_hitbox w) (last_input_was_keyboard w) (requested_autoscroll w) (tooltip_bounds w) (text_system w) (platform_input_handler w) (active w) v (dirty_views w) (invalidated_views w) (refreshing w) (cx w) (layout_engine w) (root w) (prompt w) (active_drag w) (dirty w) (draw_phase w).
Definition set_dirty_views v w : Window := mkWindow (next_frame w) (rendered_frame w) (win_focus w) (next_hitbox_id w) (next_tooltip_id w) (content_mask_stack w) (element_offset_stack w) (element_id_stack w) (text_style_stack w) (rendered_entity_stack w) (viewport_size w) (mouse_position w) (mouse_hit_test w) (captured_hitbox w) (last_input_was_keyboard w) (requested_autoscroll w) (tooltip_bounds w) (text_system w) (platform_input_handler w) (active w) (propagate_event w) v (invalidated_views w) (refreshing w) (cx w) (layout_engine w) (root w) (prompt w) (active_drag w) (dirty w) (draw_phase w).
Definition set_invalidated_views v w : Window := mkWindow (next_frame w) (rendered_frame w) (win_focus w) (next_hitbox_id w) (next_tooltip_id w) (content_mask_stack w) (element_offset_stack w) (element_id_stack w) (text_style_stack w) (rendered_entity_stack w) (viewport_size w) (mouse_position w) (mouse_hit_test w) (captured_hitbox w) (last_input_was_keyboard w) (requested_autoscroll w) (tooltip_bounds w) (text_system w) (platform_input_handler w) (active w) (propagate_event w) (dirty_views w) v (refreshing w) (cx w) (layout_engine w) (root w) (prompt w) (active_drag w) (dirty w) (draw_phase w).
Definition set_refreshing v w : Window := mkWindow (next_frame w) (rendered_frame w) (win_focus w) (next_hitbox_id w) (next_tooltip_id w) (content_mask_stack w) (element_offset_stack w) (element_id_stack w) (text_style_stack w) (rendered_entity_stack w) (viewport_size w) (mouse_position w) (mouse_hit_test w) (captured_hitbox w) (last_input_was_keyboard w) (requested_autoscroll w) (tooltip_bounds w) (text_system w) (platform_input_handler w) (active w) (propagate_event w) (dirty_views w) (invalidated_views w) v (cx w) (layout_engine w) (root w) (prompt w) (active_drag w) (dirty w) (draw_phase w).
Definition set_cx v w : Window := mkWindow (next_frame w) (rendered_frame w) (win_focus w) (next_hitbox_id w) (next_tooltip_id w) (content_mask_stack w) (element_offset_stack w) (element_id_stack w) (text_style_stack w) (rendered_entity_stack w) (viewport_size w) (mouse_position w) (mouse_hit_test w) (captured_hitbox w) (last_input_was_keyboard w) (requested_autoscroll w) (tooltip_bounds w) (text_system w) (platform_input_handler w) (active w) (propagate_event w) (dirty_views w) (invalidated_views w) (refreshing w) v (layout_engine w) (root w) (prompt w) (active_drag w) (dirty w) (draw_phase w).
Definition set_layout_engine v w : Window := mkWindow (next_frame w) (rendered_frame w) (win_focus w) (next_hitbox_id w) (next_tooltip_id w) (content_mask_stack w) (element_offset_stack w) (element_id_stack w) (text_style_stack w) (rendered_entity_stack w) (viewport_size w) (mouse_position w) (mouse_hit_test w) (captured_hitbox w) (last_input_was_keyboard w) (requested_autoscroll w) (tooltip_bounds w) (text_system w) (platform_input_handler w) (active w) (propagate_event w) (dirty_views w) (invalidated_views w) (refreshing w) (cx w) v (root w) (prompt w) (active_drag w) (dirty w) (draw_phase w).
Definition set_root v w : Window := mkWindow (next_frame w) (rendered_frame w) (win_focus w) (next_hitbox_id w) (next_tooltip_id w) (content_mask_stack w) (element_offset_stack w) (element_id_stack w) (text_style_stack w) (rendered_entity_stack w) (viewport_size w) (mouse_position w) (mouse_hit_test w) (captured_hitbox w) (last_input_was_keyboard w) (requested_autoscroll w) (tooltip_bounds w) (text_system w) (platform_input_handler w) (active w) (propagate_event w) (dirty_views w) (invalidated_views w) (refreshing w) (cx w) (layout_engine w) v (prompt w) (active_drag w) (dirty w) (draw_phase w).
Definition set_prompt v w : Window := mkWindow (next_frame w) (rendered_frame w) (win_focus w) (next_hitbox_id w) (next_tooltip_id w) (content_mask_stack w) (element_offset_stack w) (element_id_stack w) (text_style_stack w) (rendered_entity_stack w) (viewport_size w) (mouse_position w) (mouse_hit_test w) (captured_hitbox w) (last_input_was_keyboard w) (requested_autoscroll w) (tooltip_bounds w) (text_system w) (platform_input_handler w) (active w) (propagate_event w) (dirty_views w) (invalidated_views w) (refreshing w) (cx w) (layout_engine w) (root w) v (active_drag w) (dirty w) (draw_phase w).
Definition set_active_drag v w : Window := mkWindow (next_frame w) (rendered_frame w) (win_focus w) (next_hitbox_id w) (next_tooltip_id w) (content_mask_stack w) (element_offset_stack w) (element_id_stack w) (text_style_stack w) (rendered_entity_stack w) (viewport_size w) (mouse_position w) (mouse_hit_test w) (captured_hitbox w) (last_input_was_keyboard w) (requested_autoscroll w) (tooltip_bounds w) (text_system w) (platform_input_handler w) (active w) (propagate_event w) (dirty_views w) (invalidated_views w) (refreshing w) (cx w) (layout_engine w) (root w) (prompt w) v (dirty w) (draw_phase w).
Definition set_dirty v w : Window := mkWindow (next_frame w) (rendered_frame w) (win_focus w) (next_hitbox_id w) (next_tooltip_id w) (content_mask_stack w) (element_offset_stack w) (element_id_stack w) (text_style_stack w) (rendered_entity_stack w) (viewport_size w) (mouse_position w) (mouse_hit_test w) (captured_hitbox w) (last_input_was_keyboard w) (requested_autoscroll w) (tooltip_bounds w) (text_system w) (platform_input_handler w) (active w) (propagate_event w) (dirty_views w) (invalidated_views w) (refreshing w) (cx w) (layout_engine w) (root w) (prompt w) (active_drag w) v (draw_phase w).
Definition set_draw_phase v w : Window := mkWindow (next_frame w) (rendered_frame w) (win_focus w) (next_hitbox_id w) (next_tooltip_id w) (content_mask_stack w) (element_offset_stack w) (element_id_stack w) (text_style_stack w) (rendered_entity_stack w) (viewport_size w) (mouse_position w) (mouse_hit_test w) (captured_hitbox w) (last_input_was_keyboard w) (requested_autoscroll w) (tooltip_bounds w) (text_system w) (platform_input_handler w) (active w) (propagate_event w) (dirty_views w) (invalidated_views w) (refreshing w) (cx w) (layout_engine w) (root w) (prompt w) (active_drag w) (dirty w) v.

Definition map_next (g : Frame -> Frame) w : Window := set_next_frame (g (next_frame w)) w.
Definition map_rendered (g : Frame -> Frame) w : Window := set_rendered_frame (g (rendered_frame w)) w.

(** ** Hovering *)

(** [HitboxId::hit_test] *)
Definition id_hit_test w (id : HitboxId) : bool :=
  bool_decide (id ∈ take (hover_hitbox_count (mouse_hit_test w)) (ids (mouse_hit_test w))).

Definition captured w (id : HitboxId) : bool := bool_decide (captured_hitbox w = Some id).

Definition is_hovered w (id : HitboxId) : bool :=
  if captured w id then true else if last_input_was_keyboard w then false else id_hit_test w id.

Definition is_hovered_ignoring_last_input w (id : HitboxId) : bool := if captured w id then true else id_hit_test w id.

Definition should_handle_scroll w (id : HitboxId) : bool := bool_decide (id ∈ ids (mouse_hit_test w)).

Definition is_hovered_at w (h : Hitbox) (p : Point) : bool :=
  let t := hit_test (hitboxes (rendered_frame w)) p in
  existsb (Z.eqb (hitbox_id h)) (take (hover_hitbox_count t) (ids t)).

Definition tooltip_is_hovered w (id : nat) : bool :=
  match tooltip_bounds w with
  | Some b => (bounds_tooltip b =? id) && contains (bounds_of_tooltip b) (mouse_position w)
  | None => false
  end.

Definition capture_pointer (id : HitboxId) w : Window := set_captured_hitbox (Some id) w.
Definition release_pointer w : Window := set_captured_hitbox None w.

(** [Frame::cursor_style]: a style for the whole window ends the search and wins. *)
Fixpoint cursor_fold w (rs : list CursorStyleRequest) (style : option CursorStyle) : option CursorStyle :=
  match rs with
  | [] => style
  | r :: rs =>
      match cursor_hitbox r with
      | None => Some (cursor_style_ r)
      | Some id =>
          cursor_fold w rs
            (match style with
             | Some s => Some s
             | None => if is_hovered_ignoring_last_input w id then Some (cursor_style_ r) else None
             end)
      end
  end.

Definition cursor_style w (f : Frame) : option CursorStyle := cursor_fold w (rev (cursor_styles f)) None.

(** ** The stacks *)

Definition content_mask w : ContentMask :=
  default (mkMask (mkBounds (mkPoint 0 0) (viewport_size w))) (list.last (content_mask_stack w)).

Definition with_content_mask {R} (mask : option ContentMask) (f : Window -> outcome (Window * R)) w : outcome (Window * R) :=
  match mask with
  | Some mask =>
      let mask := mask_intersect mask (content_mask w) in
      let! (w, r) := f (set_content_mask_stack (content_mask_stack w ++ [mask]) w) in
      Ok (set_content_mask_stack (removelast (content_mask_stack w)) w, r)
  | None => f w
  end.

Definition element_offset w : Point := default (mkPoint 0 0) (list.last (element_offset_stack w)).

Definition with_absolute_element_offset {R} (offset : Point) (f : Window -> outcome (Window * R)) w : outcome (Window * R) :=
  let! (w, r) := f (set_element_offset_stack (element_offset_stack w ++ [offset]) w) in
  Ok (set_element_offset_stack (removelast (element_offset_stack w)) w, r).

Definition with_element_offset {R} (offset : Point) (f : Window -> outcome (Window * R)) w : outcome (Window * R) :=
  if (px offset =? 0)%Z && (py offset =? 0)%Z then f w
  else with_absolute_element_offset (point_add (element_offset w) offset) f w.

Definition with_text_style {R} (style : option TextStyle) (f : Window -> outcome (Window * R)) w : outcome (Window * R) :=
  match style with
  | Some s =>
      let! (w, r) := f (set_text_style_stack (text_style_stack w ++ [s]) w) in
      Ok (set_text_style_stack (removelast (text_style_stack w)) w, r)
  | None => f w
  end.

Definition with_element_namespace {R} (id : ElementId) (f : Window -> outcome (Window * R)) w : outcome (Window * R) :=
  let! (w, r) := f (set_element_id_stack (element_id_stack w ++ [id]) w) in
  Ok (set_element_id_stack (removelast (element_id_stack w)) w, r).

Definition current_view w : outcome EntityId := unwrap (list.last (rendered_entity_stack w)).

Definition with_rendered_view {R} (id : EntityId) (f : Window -> outcome (Window * R)) w : outcome (Window * R) :=
  let! (w, r) := f (set_rendered_entity_stack (rendered_entity_stack w ++ [id]) w) in
  Ok (set_rendered_entity_stack (removelast (rendered_entity_stack w)) w, r).

Definition with_tab_group {R} (ix : option Z) (f : Window -> outcome (Window * R)) w : outcome (Window * R) :=
  match ix with
  | Some i =>
      let! (w, r) := f (map_next (fun n => set_tab_stops (tabs_begin_group (tab_stops n) i) n) w) in
      Ok (map_next (fun n => set_tab_stops (tabs_end_group (tab_stops n)) n) w, r)
  | None => f w
  end.

(** ** What elements leave in the next frame *)

Definition set_cursor_style (style : CursorStyle) (h : Hitbox) w : Window :=
  map_next (fun n => set_cursor_styles (cursor_styles n ++ [mkCursorStyle (Some (hitbox_id h)) style]) n) w.

Definition set_window_cursor_style (style : CursorStyle) w : Window :=
  map_next (fun n => set_cursor_styles (cursor_styles n ++ [mkCursorStyle None style]) n) w.

Definition set_tooltip (t : Tooltip) w : Window * nat :=
  let id := next_tooltip_id w in
  (map_next (fun n => set_tooltip_requests (tooltip_requests n ++ [Some (mkTooltip id t)]) n) (set_next_tooltip_id (S id) w), id).

Definition insert_hitbox (b : Bounds) (beh : HitboxBehavior) w : Window * Hitbox :=
  let h := mkHitbox (next_hitbox_id w) b (content_mask w) beh in
  (map_next (fun n => set_hitboxes (hitboxes n ++ [h]) n) (set_next_hitbox_id (hitbox_id_next (next_hitbox_id w)) w), h).

Definition insert_window_control_hitbox (area : WindowControlArea) (h : Hitbox) w : Window :=
  map_next (fun n => set_window_control_hitboxes (window_control_hitboxes n ++ [(area, h)]) n) w.

Definition set_focus_handle (id : FocusId) w : outcome Window :=
  let w := if bool_decide (win_focus w = Some id) then map_next (set_focus (Some id)) w else w in
  let! t := tree_set_focus_id (dispatch_tree (next_frame w)) id in
  Ok (map_next (set_dispatch_tree t) w).

Definition set_view_id (id : EntityId) w : outcome Window :=
  let! t := tree_set_view_id (dispatch_tree (next_frame w)) id in
  Ok (map_next (set_dispatch_tree t) w).

Definition handle_input (id : FocusId) (h : InputHandler) w : Window :=
  if bool_decide (win_focus w = Some id) then map_next (fun n => set_input_handlers (input_handlers n ++ [Some h]) n) w else w.

Definition on_mouse_event (l : MouseListener) w : Window :=
  map_next (fun n => set_mouse_listeners (mouse_listeners n ++ [Some l]) n) w.

Definition request_autoscroll (b : Bounds) w : Window := set_requested_autoscroll (Some b) w.
Definition take_autoscroll w : Window * option Bounds := (set_requested_autoscroll None w, requested_autoscroll w).

Definition defer_draw (e : Element) (offset : Point) (priority : nat) w : outcome Window :=
  let! parent := unwrap (tree_active_node (dispatch_tree (next_frame w))) in
  let! view := current_view w in
  let d := mkDeferred view priority parent (element_id_stack w) (text_style_stack w) (Some e) offset
             (prepaint_index_default, prepaint_index_default) (paint_index_default, paint_index_default) in
  Ok (map_next (fun n => set_deferred_draws (deferred_draws n ++ [d]) n) w).

(** The bounds that layout gives an element.  The origin of the element that is drawn is
    snapped to the pixels of the device; on whole pixels this changes nothing. *)
Definition layout_bounds (layout_id : LayoutId) w : Window * Bounds :=
  let (l, b) := engine_bounds (layout_engine w) layout_id in
  (set_layout_engine l w, mkBounds (point_add (origin b) (element_offset w)) (size b)).

(** ** The states of elements *)

(** The box with the state leaves the next frame or else the frame shown. *)
Definition take_state (key : StateKey) w : Window * option (option ElementState) :=
  match element_states (next_frame w) !! key with
  | Some b => (map_next (fun n => set_element_states (delete key (element_states n)) n) w, Some b)
  | None =>
      match element_states (rendered_frame w) !! key with
      | Some b => (map_rendered (fun n => set_element_states (delete key (element_states n)) n) w, Some b)
      | None => (w, None)
      end
  end.

Definition put_state (key : StateKey) (s : ElementState) w : Window :=
  map_next (fun n => set_element_states (<[key := Some s]> (element_states n)) n) w.

Definition with_element_state {R} (key : StateKey) (f : option ElementState -> Window -> outcome (Window * (R * ElementState))) w :
    outcome (Window * R) :=
  let w := map_next (fun n => set_accessed_element_states (accessed_element_states n ++ [key]) n) w in
  match take_state key w with
  | (w, Some state_box) =>
      let! state := unwrap state_box in
      let! (w, (result, state)) := f (Some state) w in
      Ok (put_state key state w, result)
  | (w, None) =>
      let! (w, (result, state)) := f None w in
      Ok (put_state key state w, result)
  end.

Definition with_optional_element_state {R} (key : option StateKey)
    (f : option (option ElementState) -> Window -> outcome (Window * (R * option ElementState))) w : outcome (Window * R) :=
  match key with
  | Some k =>
      with_element_state k (fun state w =>
        let! (w, (result, state)) := f (Some state) w in
        let! state := unwrap state in
        Ok (w, (result, state))) w
  | None => let! (w, (result, _)) := f None w in Ok (w, result)
  end.

(** ** Ranges of a frame *)

Definition prepaint_index w : Window * PrepaintStateIndex :=
  let n := next_frame w in
  let (t, i) := text_layout_index (text_system w) in
  (set_text_system t w,
   mkPrepaintIndex (length (hitboxes n)) (length (tooltip_requests n)) (length (deferred_draws n)) (tree_len (dispatch_tree n))
     (length (accessed_element_states n)) i).

Definition paint_index w : Window * PaintIndex :=
  let n := next_frame w in
  let (t, i) := text_layout_index (text_system w) in
  (set_text_system t w,
   mkPaintIndex (frame_scene_len (scene n)) (length (mouse_listeners n)) (length (input_handlers n)) (length (cursor_styles n))
     (length (accessed_element_states n)) (tabs_paint_index (tab_stops n)) i).

(** [iter_mut().map(take)] over a range: what was there, and what is left. *)
Definition take_range {A} (v : list (option A)) (start end_ : nat) : outcome (list (option A) * list (option A)) :=
  let! taken := slice_range v start end_ in
  Ok (taken, take start v ++ map (fun _ => None) taken ++ drop end_ v).

(** A deferred draw of the frame shown, whose element is not kept. *)
Definition reused_draw (r : Reused) (d : DeferredDraw) : outcome DeferredDraw :=
  let! parent := reused_node_id r (parent_node d) in
  Ok (mkDeferred (draw_view d) (draw_priority d) parent (draw_id_stack d) (draw_style_stack d) None (draw_offset d)
        (draw_prepaint_range d) (draw_paint_range d)).

Definition reuse_prepaint (range : PrepaintStateIndex * PrepaintStateIndex) w : outcome Window :=
  let (start, end_) := range in
  let n := next_frame w in
  let p := rendered_frame w in
  let! hs := slice_range (hitboxes p) (hitboxes_index start) (hitboxes_index end_) in
  let! (ts, left_tooltips) := take_range (tooltip_requests p) (tooltips_index start) (tooltips_index end_) in
  let! ks := slice_range (accessed_element_states p) (prepaint_accessed_index start) (prepaint_accessed_index end_) in
  let! text := text_reuse_layouts (text_system w) (prepaint_line_index start) (prepaint_line_index end_) in
  let! (tree, left_tree, reused) :=
    tree_reuse_subtree (dispatch_tree n) (dispatch_tree_index start, dispatch_tree_index end_) (dispatch_tree p) (win_focus w) in
  let foc := if reused_contains_focus reused then win_focus w else focus n in
  let! ds := slice_range (deferred_draws p) (deferred_draws_index start) (deferred_draws_index end_) in
  let! ds := traverse (reused_draw reused) ds in
  Ok (set_text_system text
       (map_next (fun n =>
          set_hitboxes (hitboxes n ++ hs) (set_tooltip_requests (tooltip_requests n ++ ts)
            (set_accessed_element_states (accessed_element_states n ++ ks) (set_dispatch_tree tree (set_focus foc
              (set_deferred_draws (deferred_draws n ++ ds) n))))))
       (map_rendered (fun p => set_tooltip_requests left_tooltips (set_dispatch_tree left_tree p)) w))).

Definition reuse_paint (range : PaintIndex * PaintIndex) w : outcome Window :=
  let (start, end_) := range in
  let n := next_frame w in
  let p := rendered_frame w in
  let! cs := slice_range (cursor_styles p) (cursor_styles_index start) (cursor_styles_index end_) in
  let! (hs, left_handlers) := take_range (input_handlers p) (input_handlers_index start) (input_handlers_index end_) in
  let! (ls, left_listeners) := take_range (mouse_listeners p) (mouse_listeners_index start) (mouse_listeners_index end_) in
  let! ks := slice_range (accessed_element_states p) (paint_accessed_index start) (paint_accessed_index end_) in
  let! tabs := tabs_replay (tab_stops n) (tab_handle_index start) (tab_handle_index end_) (tab_stops p) in
  let! text := text_reuse_layouts (text_system w) (paint_line_index start) (paint_line_index end_) in
  let! scn := frame_scene_replay (scene n) (scene_index start) (scene_index end_) (scene p) in
  Ok (set_text_system text
       (map_next (fun n =>
          set_cursor_styles (cursor_styles n ++ cs) (set_input_handlers (input_handlers n ++ hs)
            (set_mouse_listeners (mouse_listeners n ++ ls) (set_accessed_element_states (accessed_element_states n ++ ks)
              (set_tab_stops tabs (set_scene scn n))))))
       (map_rendered (fun p => set_input_handlers left_handlers (set_mouse_listeners left_listeners p)) w))).

(** What the function left in the next frame is given up when it fails: [inr] is [Err]. *)
Definition transact {T U} (f : Window -> outcome (Window * (T + U))) w : outcome (Window * (T + U)) :=
  let (w, index) := prepaint_index w in
  let! (w, result) := f w in
  match result with
  | inl _ => Ok (w, result)
  | inr _ =>
      let! tree := tree_truncate (dispatch_tree (next_frame w)) (dispatch_tree_index index) in
      Ok (set_text_system (text_truncate_layouts (text_system w) (prepaint_line_index index))
           (map_next (fun n =>
              set_hitboxes (take (hitboxes_index index) (hitboxes n))
                (set_tooltip_requests (take (tooltips_index index) (tooltip_requests n))
                  (set_deferred_draws (take (deferred_draws_index index) (deferred_draws n))
                    (set_dispatch_tree tree
                      (set_accessed_element_states (take (prepaint_accessed_index index) (accessed_element_states n)) n))))) w),
          result)
  end.

(** [refresh], while the window is not being drawn. *)
Definition refresh w : Window :=
  if bool_decide (draw_phase w = NotDrawing) then set_dirty true (set_refreshing true w) else w.

(** ** Mouse events *)

Inductive MousePhase := MouseCapture | MouseBubble.
(** What [dispatch_mouse_event] asks of the type of an event. *)
Inductive MouseKind := MouseMove | MouseUp | MouseOther.

Context {Event : Type} (mouse_kind : Event -> MouseKind).
Context (call_listener : MouseListener -> Event -> MousePhase -> Window -> outcome (Window * MouseListener)).

(** The listeners, until one stops the event. *)
Fixpoint call_listeners (e : Event) (phase : MousePhase) (ls : list (option MouseListener)) w :
    outcome (Window * list (option MouseListener)) :=
  match ls with
  | [] => Ok (w, [])
  | l :: ls =>
      let! listener := unwrap l in
      let! (w, listener) := call_listener listener e phase w in
      if propagate_event w then
        let! (w, ls) := call_listeners e phase ls w in
        Ok (w, Some listener :: ls)
      else Ok (w, Some listener :: ls)
  end.

(** The end of [dispatch_mouse_event]: what is dragged follows the mouse until a button is
    released, which ends the capture of the pointer as well. *)
Definition after_listeners (e : Event) w : Window :=
  let w :=
    match active_drag w, mouse_kind e with
    | Some _, MouseMove => refresh w
    | Some _, MouseUp => refresh (set_active_drag None w)
    | _, _ => w
    end in
  match mouse_kind e, captured_hitbox w with
  | MouseUp, Some _ => set_captured_hitbox None w
  | _, _ => w
  end.

(** Without the inspector. *)
Definition dispatch_mouse_event (e : Event) w : outcome Window :=
  let w := set_last_input_was_keyboard false w in
  let t := hit_test (hitboxes (rendered_frame w)) (mouse_position w) in
  let w := if bool_decide (t = mouse_hit_test w) then w else set_mouse_hit_test t w in
  let ls := mouse_listeners (rendered_frame w) in
  let! (w, ls) := call_listeners e MouseCapture ls (map_rendered (set_mouse_listeners []) w) in
  let! (w, ls) :=
    if propagate_event w then
      let! (w, rls) := call_listeners e MouseBubble (rev ls) w in Ok (w, rev rls)
    else Ok (w, ls) in
  Ok (after_listeners e (map_rendered (set_mouse_listeners ls) w)).
End Frame.
