(* ===== verification/DispatchFrame.v ===== *)
(** * DispatchFrame: the dispatch tree in a frame

    The instance of [FrameTree] for the dispatch tree and its laws.  The nodes that code
    leaves that closes what it opens form a range in depth-first order below the active
    node, and so does a subtree that is taken over. *)

From Stdlib Require Import NArith ZArith.
From S2P Require Import Geometry Scene.
From stdpp Require Import base list option numbers gmap.
From S2P Require Import Prelude Text Actions KeyContext Keystroke Keymap DispatchTree DispatchInvariant DispatchReuse Frame.

#[local] Set Warnings "-register-all,-clear-no-such-hyp".

Section Dispatch.
Context `{ActionTrait Action}.
Context {Json Error Schema : Type}.
Context {KeyListener ModifiersChangedListener ActionListener : Type}.

Abbreviation Tree := (DispatchTree (Action := Action) (Json := Json) (Error := Error) (Schema := Schema)
  (KeyListener := KeyListener) (ModifiersChangedListener := ModifiersChangedListener) (ActionListener := ActionListener)).
Abbreviation Node := (DispatchNode (KeyListener := KeyListener) (ModifiersChangedListener := ModifiersChangedListener)
  (ActionListener := ActionListener)).

Implicit Types (t : Tree) (nd : Node) (ns : list Node).

#[export] Instance dispatch_frame_tree : FrameTree Tree ReusedSubtree := {|
  Frame.tree_len := DispatchTree.tree_len;
  tree_clear := DispatchTree.clear;
  tree_truncate := DispatchTree.truncate;
  tree_push_node := DispatchTree.push_node;
  tree_pop_node := DispatchTree.pop_node;
  tree_active_node := DispatchTree.active_node_id;
  tree_set_active_node := DispatchTree.set_active_node;
  tree_set_focus_id := DispatchTree.set_focus_id;
  tree_set_view_id := DispatchTree.set_view_id;
  tree_focus_path := DispatchTree.focus_path;
  tree_view_path := DispatchTree.view_path;
  tree_reuse_subtree := DispatchTree.reuse_subtree;
  reused_contains_focus := DispatchTree.contains_focus;
  reused_node_id := DispatchTree.refresh_node_id;
|}.

(** ** Growth *)

(** The parent of a new node is the node that was active, or a new node that is open. *)
Definition placed ns (lo : nat) (active : option nat) (i : nat) nd : Prop :=
  parent nd = active \/ exists p path, parent nd = Some p /\ lo <= p /\ path_to ns (i - 1) path /\ p ∈ path.

Record dispatch_grown t t' : Prop := mkGrown {
  gr_wf : tree_wf t';
  gr_prefix : nodes t `prefix_of` nodes t';
  gr_stack : node_stack t' = node_stack t;
  gr_open : Forall (fun id => id < length (nodes t)) (node_stack t);
  gr_placed i nd : length (nodes t) <= i -> nodes t' !! i = Some nd -> placed (nodes t') (length (nodes t)) (active_node_id t) i nd;
}.

Record dispatch_opened t t' : Prop := mkOpened {
  op_open : Forall (fun id => id < length (nodes t)) (node_stack t);
  op_wf : tree_wf t';
  op_length : length (nodes t') = S (length (nodes t));
  op_prefix : nodes t `prefix_of` nodes t';
  op_stack : node_stack t' = node_stack t ++ [length (nodes t)];
  op_parent nd : nodes t' !! length (nodes t) = Some nd -> parent nd = active_node_id t;
}.

Definition dispatch_same t t' : Prop := tree_wf t' /\ nodes t' = nodes t /\ node_stack t' = node_stack t.

Lemma stack_in_range t : tree_wf t -> Forall (fun id => id < length (nodes t)) (node_stack t).
Proof.
  intros Hwf. destruct (active_node_id t) as [p|] eqn:E; [by eapply path_in_range, (wf_stack _ Hwf)|].
  unfold active_node_id in E. apply last_None in E. rewrite E. constructor.
Qed.

Lemma active_in_range t p : tree_wf t -> active_node_id t = Some p -> p < length (nodes t).
Proof.
  intros Hwf E. pose proof (stack_in_range t Hwf) as Hf. rewrite Forall_elem in Hf. apply (Hf p). by apply last_Some_elem_of.
Qed.

Lemma active_same t t' : node_stack t' = node_stack t -> active_node_id t' = active_node_id t.
Proof. unfold active_node_id. by intros ->. Qed.

Lemma placed_extend ns ns' lo a i nd : ns `prefix_of` ns' -> placed ns lo a i nd -> placed ns' lo a i nd.
Proof. intros Hp [?|(p & path & ? & ? & Hpath & ?)]; [by left|]. right. exists p, path. split_and!; try done. by eapply path_extend. Qed.

Lemma lookup_prefix_inv ns ns' i nd : ns `prefix_of` ns' -> i < length ns -> ns' !! i = Some nd -> ns !! i = Some nd.
Proof. intros [k ->] Hi. by rewrite lookup_app_l. Qed.

Lemma dispatch_grown_refl t : tree_wf t -> dispatch_grown t t.
Proof. intros Hwf. split; try done; [by apply stack_in_range|]. intros i nd Hi Hnd%lookup_lt_Some. lia. Qed.

Lemma dispatch_grown_trans t1 t2 t3 : dispatch_grown t1 t2 -> dispatch_grown t2 t3 -> dispatch_grown t1 t3.
Proof.
  intros [Hw1 Hp1 Hs1 Ho1 Hl1] [Hw2 Hp2 Hs2 Ho2 Hl2]. split; try done; [by etransitivity|congruence|]. intros i nd Hi Hnd.
  destruct (decide (i < length (nodes t2))) as [Hlt|Hge].
  - apply (placed_extend (nodes t2)); [done|]. apply Hl1; [done|]. by eapply lookup_prefix_inv.
  - destruct (Hl2 i nd ltac:(lia) Hnd) as [E|(p & path & ? & ? & ? & ?)]; [left; by rewrite E; apply active_same|].
    right. exists p, path. apply prefix_length in Hp1. split_and!; try done. lia.
Qed.

(** Every new node is below the node that was active. *)
Lemma grown_below t t' a : tree_wf t -> dispatch_grown t t' -> active_node_id t = Some a -> length (nodes t) = S a ->
  forall i, a <= i -> i < length (nodes t') -> exists path, path_to (nodes t') i path /\ a ∈ path.
Proof.
  intros Hwf [Hw Hp Hs Ho Hl] Ha Hlen i. induction (lt_wf i) as [i _ IH]. intros Hai Hi.
  destruct (path_exists (nodes t') i (wf_parents _ Hw) Hi) as [path Hpath]. exists path. split; [done|].
  destruct (decide (i = a)) as [->|Hne]; [by apply last_Some_elem_of, (path_last _ _ _ Hpath)|].
  destruct (lookup_lt_is_Some_2 _ _ Hi) as [nd Hnd].
  assert (Hpar : exists p, parent nd = Some p /\ a <= p).
  { destruct (Hl i nd ltac:(lia) Hnd) as [E|(p & ? & ? & ? & _)]; [exists a; by rewrite E|exists p; split; [done|lia]]. }
  destruct Hpar as (p & Epar & Hap). assert (p < i) by (by eapply (wf_parents _ Hw)).
  destruct (IH p ltac:(lia) Hap ltac:(lia)) as (path' & Hpath' & Hin).
  rewrite (path_functional _ _ _ _ Hpath (path_child _ _ _ _ _ Hnd Epar Hpath')). apply elem_of_app. by left.
Qed.

Lemma dispatch_close_ok t t' t'' : dispatch_opened t t' -> dispatch_grown t' t'' ->
  exists t3, pop_node t'' = Ok t3 /\ dispatch_grown t t3 /\ length (nodes t3) = length (nodes t'') /\
    forall lo hi, preordered (nodes t'') lo hi -> preordered (nodes t3) lo hi.
Proof.
  intros [Ho Hw1 Hlen Hp1 Hs1 Hpar] Hg. pose proof Hg as [Hw2 Hp2 Hs2 _ Hl2]. rewrite Hs1 in Hs2.
  destruct (pop_node_ok t'' _ _ Hw2 Hs2) as (t3 & E & Hw3 & Hs3 & Hn3 & _). exists t3. split; [done|]. split; [|by rewrite Hn3].
  split; try done; [rewrite Hn3; by etransitivity|]. rewrite Hn3. intros i nd Hi Hnd.
  assert (Ha : active_node_id t' = Some (length (nodes t))) by (unfold active_node_id; by rewrite Hs1, last_snoc).
  destruct (decide (i = length (nodes t))) as [->|Hne].
  - left. apply Hpar. eapply lookup_prefix_inv; [done|lia|done].
  - right. destruct (Hl2 i nd ltac:(lia) Hnd) as [E'|(p & path & ? & ? & ? & ?)]; [|exists p, path; split_and!; try done; lia].
    apply lookup_lt_Some in Hnd. destruct (grown_below t' t'' _ Hw1 Hg Ha Hlen (i - 1)) as (path & Hpath & Hin); [lia..|].
    exists (length (nodes t)), path. by rewrite E', Ha.
Qed.

Lemma dispatch_grown_range t t' : dispatch_grown t t' -> preordered (nodes t') (length (nodes t)) (length (nodes t')).
Proof.
  intros [Hw Hp Hs Ho Hl] i nd p Hi Hnd Hpar Hlo. destruct (Hl i nd ltac:(lia) Hnd) as [E|(p' & path & E & _ & Hpath & Hin)].
  - rewrite Hpar in E. symmetry in E. unfold active_node_id in E. apply last_Some_elem_of in E. rewrite Forall_elem in Ho. specialize (Ho _ E). lia.
  - exists path. split; [done|]. congruence.
Qed.

Lemma dispatch_range_grown t t' lo hi : preordered (nodes t) lo hi -> hi <= length (nodes t) -> dispatch_grown t t' -> preordered (nodes t') lo hi.
Proof.
  intros Hr Hhi [Hw Hp Hs Ho Hl] i nd p Hi Hnd Hpar Hlo.
  destruct (Hr i nd p Hi) as (path & Hpath & Hin); [eapply lookup_prefix_inv; [done|lia|done]|done..|].
  exists path. split; [by eapply path_extend|done].
Qed.

Lemma dispatch_truncate_grown t t' : dispatch_grown t t' -> exists t'', truncate t' (length (nodes t)) = Ok t'' /\ dispatch_same t t''.
Proof.
  intros [Hw Hp Hs Ho Hl]. pose proof (prefix_length _ _ Hp) as Hlen.
  destruct (truncate_ok t' (length (nodes t)) Hw Hlen) as (t'' & H1 & H2 & H3 & H4 & _); [by rewrite Hs|].
  exists t''. destruct Hp as [k Hk]. rewrite Hk, take_app_length in H3. split; [done|]. split; [done|]. split; [done|congruence].
Qed.

Lemma dispatch_same_grown t0 t t' : dispatch_grown t0 t -> dispatch_same t t' -> dispatch_grown t0 t'.
Proof. intros [Hw Hp Hs Ho Hl] (Hw' & Hn & Hs'). split; try done; rewrite ?Hn; [done|congruence|done]. Qed.

(** ** Opening a node *)

Lemma opened_update t t1 t2 nd nd' : dispatch_opened t t1 -> updates t1 t2 (length (nodes t)) nd' ->
  nodes t1 !! length (nodes t) = Some nd -> parent nd' = parent nd -> dispatch_opened t t2 /\ nodes t2 !! length (nodes t) = Some nd'.
Proof.
  intros [Ho Hw Hl Hp Hs Hpar] [Hw2 Hs2 Hn2] Hnd Epar.
  assert (Hnd' : nodes t2 !! length (nodes t) = Some nd') by (rewrite Hn2; apply list_lookup_insert_eq; lia). split; [|done]. split; try done.
  - rewrite Hn2, length_insert. lia.
  - rewrite Hn2. destruct Hp as [k Hk]. rewrite Hk. exists (<[0 := nd']> k). rewrite <- (Nat.add_0_r (length (nodes t))). by rewrite insert_app_r.
  - congruence.
  - intros nd2 Hnd2. rewrite Hnd' in Hnd2. injection Hnd2 as <-. rewrite Epar. by apply Hpar.
Qed.

Lemma dispatch_open_ok t view foc : tree_wf t -> exists t', tree_open t view foc = Ok t' /\ dispatch_opened t t'.
Proof.
  intros Hwf. unfold tree_open. cbn [tree_push_node dispatch_frame_tree]. destruct (push_node_wf t Hwf) as (Hw1 & Hp1 & Hl1 & Hs1 & Ha1 & Hnd1 & _).
  destruct (push_node t) as [t1 id]. cbn [fst] in *. set (n := length (nodes t)) in *. set (nd1 := mkDispatchNode _ _ _ _ _ _ _) in Hnd1.
  assert (Hop1 : dispatch_opened t t1).
  { split; try done; [by apply stack_in_range|]. intros nd Hnd. fold n in Hnd. rewrite Hnd1 in Hnd. by injection Hnd as <-. }
  assert (Hv : exists t2 nd2, match view with Some v => tree_set_view_id t1 v | None => Ok t1 end = Ok t2 /\ dispatch_opened t t2 /\
    nodes t2 !! n = Some nd2 /\ focus_id nd2 = None).
  { destruct view as [v|]; [|by exists t1, nd1].
    destruct (set_view_id_ok t1 _ _ _ Hw1 Hs1 Hnd1 v eq_refl) as (t2 & E & _ & [[_ ->]|(_ & Hup & _)]); [by exists t1, nd1|].
    destruct (opened_update _ _ _ _ _ Hop1 Hup Hnd1 eq_refl) as [Hop2 Hnd2]. by eexists t2, _. }
  destruct Hv as (t2 & nd2 & E2 & Hop2 & Hnd2 & Hf2). rewrite E2. cbn [obind].
  destruct foc as [f|]; [|by exists t2]. destruct (set_focus_id_ok t2 _ _ _ (op_wf _ _ Hop2) (op_stack _ _ Hop2) Hnd2 f Hf2) as (t3 & E3 & Hup3 & _).
  exists t3. split; [exact E3|]. by destruct (opened_update _ _ _ _ _ Hop2 Hup3 Hnd2 eq_refl).
Qed.

(** ** Taking over a subtree *)

Section Reuse.
Context (t source t' : Tree) (lo hi : nat).
Context (Hsrc : tree_wf source) (Hpre : preordered (nodes source) lo hi).
Context (Hm : forall p, p ∈ moved (nodes source) lo hi -> moved_ok lo (node_stack t) (length (nodes t)) (nodes t') p.1 p.2).

Lemma reused_node i nd : lo <= i < hi -> nodes source !! i = Some nd ->
  moved_ok lo (node_stack t) (length (nodes t)) (nodes t') i nd.
Proof using Hm. intros Hi Hnd. apply (Hm (i, nd)). by apply moved_elem. Qed.

Lemma reused_path k path p : path_to (nodes source) k path -> p ∈ path -> lo <= p -> k < hi ->
  exists path', path_to (nodes t') (shift lo (length (nodes t)) k) path' /\ shift lo (length (nodes t)) p ∈ path'.
Proof using Hm Hsrc.
  intros Hpath. induction Hpath as [k nd Hnd Hpar|k nd q path Hnd Hpar Hpath IH]; intros Hin Hp Hk.
  - apply list_elem_of_singleton in Hin as ->. destruct (reused_node k nd ltac:(lia) Hnd) as (v & path' & _ & Hpath' & _).
    exists path'. split; [done|]. by eapply last_Some_elem_of, path_last.
  - apply elem_of_app in Hin as [Hin| ->%list_elem_of_singleton].
    + pose proof (path_le _ _ _ _ (wf_parents _ Hsrc) Hpath Hin) as Hle. assert (q < k) by (by eapply (wf_parents _ Hsrc)).
      destruct (IH Hin Hp ltac:(lia)) as (path' & Hpath' & Hin'). destruct (reused_node k nd ltac:(lia) Hnd) as (v & _ & Hnd' & _).
      exists (path' ++ [shift lo (length (nodes t)) k]). split; [|apply elem_of_app; by left]. eapply path_child; [exact Hnd'| |done].
      cbn [parent moved_node]. unfold new_parent. rewrite Hpar. by destruct (Nat.leb_spec lo q); [|lia].
    + destruct (reused_node k nd ltac:(lia) Hnd) as (v & path' & _ & Hpath' & _). exists path'. split; [done|]. by eapply last_Some_elem_of, path_last.
Qed.

Lemma reused_placed i nd' : length (nodes t') = length (nodes t) + (hi - lo) -> hi <= length (nodes source) ->
  length (nodes t) <= i -> nodes t' !! i = Some nd' -> placed (nodes t') (length (nodes t)) (active_node_id t) i nd'.
Proof using Hm Hsrc Hpre.
  intros Hlen Hhi Hi Hnd'. pose proof (lookup_lt_Some _ _ _ Hnd') as Hlt. set (j := lo + (i - length (nodes t))).
  destruct (lookup_lt_is_Some_2 (nodes source) j) as [nd Hnd]; [lia|].
  destruct (reused_node j nd ltac:(lia) Hnd) as (v & _ & Hmoved & _). replace (shift lo (length (nodes t)) j) with i in Hmoved by (unfold shift; lia).
  rewrite Hnd' in Hmoved. injection Hmoved as ->. unfold placed. cbn [parent moved_node]. unfold new_parent.
  destruct (parent nd) as [p|] eqn:Hpar; [|by left]. destruct (Nat.leb_spec lo p); [|by left]. right.
  assert (p < j) by (by eapply (wf_parents _ Hsrc)).
  destruct (Hpre j nd p ltac:(lia) Hnd Hpar ltac:(lia)) as (path & Hpath & Hin).
  destruct (reused_path (j - 1) path p Hpath Hin ltac:(lia) ltac:(lia)) as (path' & Hpath' & Hin').
  exists (shift lo (length (nodes t)) p), path'. split_and!; try done; [unfold shift; lia|].
  by replace (shift lo (length (nodes t)) (j - 1)) with (i - 1) in Hpath' by (unfold shift; lia).
Qed.
End Reuse.

(** The nodes of the source have lost their listeners. *)
Lemma reuse_source t source lo hi foc t' source' r :
  tree_wf source -> reuse_subtree t (lo, hi) source foc = Ok (t', source', r) ->
  (forall i, nodes source' !! i = emptied lo hi i <$> nodes source !! i) -> tree_wf source' /\
  forall lo' hi', preordered (nodes source) lo' hi' -> preordered (nodes source') lo' hi'.
Proof.
  intros Hwf E Hn. assert (Es : source' = with_nodes source (nodes source')).
  { unfold reuse_subtree in E. destruct (reuse_nodes _ _ _ _ _) as [[[[t1 st] c] em]| |]; try done. cbn [obind] in E.
    destruct (pop_nodes t1 st); try done. cbn [obind] in E. by injection E as _ <- _. }
  clear E. generalize dependent (nodes source'). intros ns' Hn ->. cbn [nodes with_nodes].
  split; [by apply (emptied_wf source (with_nodes source ns') lo hi)|]. intros lo' hi' Hr i nd p Hi Hnd Hpar Hlo.
  rewrite Hn in Hnd. apply fmap_Some in Hnd as (nd0 & Hnd0 & ->).
  destruct (Hr i nd0 p Hi Hnd0) as (path & Hpath & Hin); [|done|]; [unfold emptied in Hpar; by destruct (_ && _)|].
  exists path. split; [|done]. eapply path_transfer; [|exact Hpath]. intros j ndj _ Hj. exists (emptied lo hi j ndj). rewrite Hn, Hj.
  split; [done|]. unfold emptied. by destruct (_ && _).
Qed.

Lemma dispatch_reuse_ok t source lo hi foc :
  tree_wf t -> tree_wf source -> preordered (nodes source) lo hi -> hi <= length (nodes source) ->
  exists t' source' r, reuse_subtree t (lo, hi) source foc = Ok (t', source', r) /\ dispatch_grown t t' /\ tree_wf source' /\
    length (nodes source') = length (nodes source) /\ (forall lo' hi', preordered (nodes source) lo' hi' -> preordered (nodes source') lo' hi') /\
    length (nodes t') = length (nodes t) + (hi - lo) /\ forall i, lo <= i < hi -> refresh_node_id r i = Ok (length (nodes t) + (i - lo)).
Proof.
  intros Hwf Hsrc Hpre Hhi.
  destruct (reuse_subtree_ok t source lo hi foc Hwf Hsrc Hpre) as (t' & source' & r & E & Hw & Hs & Hp & Hl & Hr & Hn & Hm & _).
  pose proof (emptied_lookup (nodes source) lo hi) as He. cbn zeta in He. rewrite moved_length in Hl.
  assert (Hlen : length (nodes t') = length (nodes t) + (hi - lo)) by lia.
  destruct (reuse_source t source lo hi foc t' source' r Hsrc E) as [Hw' Hr']; [intros i; rewrite Hn; apply He|].
  exists t', source', r. split_and!; try done.
  - split; try done; [by apply stack_in_range|]. intros i nd Hi Hnd. by apply (reused_placed t source t' lo hi).
  - rewrite Hn, !length_app, length_map, length_take, length_drop, moved_length. lia.
  - intros i Hi. rewrite Hr. unfold refresh_node_id. cbn [old_range new_range fst]. destruct (Nat.ltb_spec i lo); [lia|]. f_equal. lia.
Qed.

#[export] Program Instance dispatch_frame_tree_laws : FrameTreeLaws Tree ReusedSubtree := {|
  tree_ok := tree_wf;
  tree_grown := dispatch_grown;
  tree_opened := dispatch_opened;
  tree_same := dispatch_same;
  tree_range t lo hi := preordered (nodes t) lo hi;
  tree_clear_ok := clear_wf;
  tree_grown_refl := dispatch_grown_refl;
  tree_grown_trans := dispatch_grown_trans;
  tree_grown_ok := gr_wf;
  tree_grown_range := dispatch_grown_range;
  tree_range_grown := dispatch_range_grown;
  tree_truncate_grown := dispatch_truncate_grown;
  tree_same_grown := dispatch_same_grown;
  tree_close_ok := dispatch_close_ok;
  tree_reuse_range := dispatch_reuse_ok;
|}.
Next Obligation. intros t t' Hg. apply prefix_length, gr_prefix, Hg. Qed.
Next Obligation. intros t t' Hg. apply active_same, gr_stack, Hg. Qed.
Next Obligation.
  intros t view foc Hwf. destruct (dispatch_open_ok t view foc Hwf) as (t' & E & Hop). exists t'. destruct Hop as [? Hw Hl ? Hs ?].
  split_and!; try done. cbn. unfold active_node_id. rewrite Hs. apply last_snoc.
Qed.
End Dispatch.
