(* ===== verification/FrameParts.v ===== *)
(** * FrameParts: the scene, the tab stops, the entities and the text of a frame

    The instances of the classes of Frame for the components, with the laws of the caches of
    lines; and a small window to compute with. *)

From Stdlib Require Import NArith ZArith String.
From S2P Require Import Geometry.
From stdpp Require Import base list option numbers gmap.
From S2P Require Import Prelude Sorting Hashing Text Actions KeyContext Keystroke Keymap DispatchTree DispatchInvariant DispatchReuse.
From S2P Require Import LineLayout LineCache SumTree Cursor TabStop Scene Geometry EntityMap EntityLife Frame DispatchFrame.

#[local] Set Warnings "-register-all,-clear-no-such-hyp".

#[export] Instance scene_frame_scene {Paint : Type} `{UnstableSort} : FrameScene (Scene (Paint := Paint)) := {|
  frame_scene_default := scene_default;
  frame_scene_len := scene_len;
  frame_scene_clear := scene_clear;
  frame_scene_replay := scene_replay;
  frame_scene_finish := scene_finish;
|}.

#[export] Instance tab_frame_tabs : FrameTabs TabStopMap := {|
  tabs_default := tab_default;
  tabs_paint_index := TabStop.paint_index;
  tabs_clear := tab_clear;
  tabs_replay m start end_ prev := let! ops := slice_range (insertion_history prev) start end_ in replay m ops;
  tabs_begin_group := begin_group;
  tabs_end_group := end_group;
|}.

#[export] Instance cache_frame_text : FrameText (Shared * LineLayoutCache) LineLayoutIndex := {|
  text_index_default := mkIndex 0 0 0;
  text_layout_index := layout_index;
  text_reuse_layouts := reuse_layouts;
  text_truncate_layouts := truncate_layouts;
  text_finish_frame := finish_frame;
|}.

#[export] Instance entity_frame_app {Value : Type} `{SlotKeys Slots} : FrameApp (EntityMap (Value := Value) (Slots := Slots)) EntityMap.EntityId := {|
  cx_accessed := accessed_entities;
  cx_extend_accessed := extend_accessed;
  cx_clear_accessed := clear_accessed;
|}.

(** ** The caches of lines *)

Section Lines.
Implicit Types (st : LineCache.Shared * LineLayoutCache) (i j : LineLayoutIndex).

(** Fonts are never taken back, and while there are no new ones the lines of this frame are
    added to and those of the last are kept. *)
Definition lines_grown st st' : Prop :=
  font_generation st.1 <= font_generation st'.1 /\
  (font_generation st.1 = font_generation st'.1 -> cached_font_generation st.2 = font_generation st.1 ->
    cached_font_generation st'.2 = font_generation st.1 /\
    used_lines (previous_frame st'.2) = used_lines (previous_frame st.2) /\
    used_wrapped_lines (previous_frame st'.2) = used_wrapped_lines (previous_frame st.2) /\
    used_lines (current_frame st.2) `prefix_of` used_lines (current_frame st'.2) /\
    used_wrapped_lines (current_frame st.2) `prefix_of` used_wrapped_lines (current_frame st'.2)).

(** A range of the last frame; those of old fonts are not used. *)
Definition lines_range st i j : Prop :=
  index_generation i <= font_generation st.1 /\ index_generation j <= font_generation st.1 /\
  (index_generation i = font_generation st.1 -> index_generation j = font_generation st.1 ->
    cached_font_generation st.2 = font_generation st.1 /\
    lines_index i <= lines_index j <= length (used_lines (previous_frame st.2)) /\
    wrapped_lines_index i <= wrapped_lines_index j <= length (used_wrapped_lines (previous_frame st.2))).

Lemma lines_grown_refl st : lines_grown st st.
Proof. by split_and!. Qed.

Lemma lines_grown_trans st1 st2 st3 : lines_grown st1 st2 -> lines_grown st2 st3 -> lines_grown st1 st3.
Proof.
  intros [Hg1 H1] [Hg2 H2]. split; [lia|]. intros Hg Hc. destruct (H1 ltac:(lia) Hc) as (Hc2 & Hp & Hpw & Hu & Hw).
  destruct (H2 ltac:(lia) ltac:(lia)) as (Hc3 & Hp2 & Hpw2 & Hu2 & Hw2). split_and!; [lia|congruence..| |]; by etransitivity.
Qed.

(** Clearing is for new fonts. *)
Lemma lines_clear st : let st' := clear_if_font_generation_changed st in
  font_generation st'.1 = font_generation st.1 /\ cached_font_generation st'.2 = font_generation st.1 /\ lines_grown st st'.
Proof.
  destruct st as [s c]. unfold clear_if_font_generation_changed. cbn [fst snd].
  destruct (Nat.eqb_spec (cached_font_generation c) (font_generation s)) as [E|E]; [split_and!; [done|done|apply lines_grown_refl]|].
  split_and!; [done|done|]. split; [done|]. cbn. lia.
Qed.

Lemma lines_index_ok st : let (st', i) := layout_index st in
  st' = clear_if_font_generation_changed st /\ index_generation i = font_generation st'.1 /\
  lines_index i = length (used_lines (current_frame st'.2)) /\ wrapped_lines_index i = length (used_wrapped_lines (current_frame st'.2)).
Proof. unfold layout_index. by destruct (clear_if_font_generation_changed st). Qed.

Lemma lines_index_grown st : lines_grown st (layout_index st).1.
Proof. pose proof (lines_index_ok st) as Hi. destruct (layout_index st) as [st' i]. destruct Hi as [-> _]. apply lines_clear. Qed.

Lemma lines_range_grown st st' i j : lines_range st i j -> lines_grown st st' -> lines_range st' i j.
Proof.
  intros (Hi & Hj & Hr) [Hg Hs]. split; [lia|]. split; [lia|]. intros Ei Ej. destruct (Hr ltac:(lia) ltac:(lia)) as (Hc & Hl & Hw).
  destruct (Hs ltac:(lia) Hc) as (Hc' & -> & -> & _). split; [lia|done].
Qed.

Lemma slice_kept {A} (v : list A) (i j : nat) : i <= j <= length v -> LineCache.slice v i j = Ok (take (j - i) (drop i v)).
Proof. intros Hij. unfold LineCache.slice. by rewrite (proj2 (Nat.leb_le i j)), (proj2 (Nat.leb_le j (length v))) by lia. Qed.

Lemma lines_reuse_grown st i j : lines_range st i j -> exists st', reuse_layouts st i j = Ok st' /\ lines_grown st st'.
Proof.
  intros Hr. destruct (lines_clear st) as (Hg & Hc & Hgr). pose proof (lines_range_grown _ _ _ _ Hr Hgr) as (Hi & Hj & Hs).
  unfold reuse_layouts. destruct (clear_if_font_generation_changed st) as [s c]. cbn [fst snd] in *.
  destruct (Nat.eqb_spec (index_generation i) (font_generation s)) as [Ei|_]; [|by exists (s, c)].
  destruct (Nat.eqb_spec (index_generation j) (font_generation s)) as [Ej|_]; [|by exists (s, c)]. cbn [andb negb].
  destruct (Hs Ei Ej) as (_ & Hl & Hw). rewrite !slice_kept by done. cbn [obind].
  destruct (foldl reuse_key (lines _, _) _) as [pl fl], (foldl reuse_key (wrapped_lines _, _) _) as [pw fw].
  eexists. split; [done|]. eapply lines_grown_trans; [exact Hgr|]. split; [done|]. intros _ _. cbn. split_and!; [lia|done|done| |]; by eexists.
Qed.

Lemma lines_truncate_grown st st' : lines_grown (layout_index st).1 st' ->
  lines_grown st (truncate_layouts st' (layout_index st).2).
Proof.
  pose proof (lines_index_ok st) as Hi. destruct (layout_index st) as [st1 i]. destruct Hi as (-> & Hig & Hil & Hiw). cbn [fst snd].
  destruct (lines_clear st) as (Hg & Hc & Hgr). set (st1 := clear_if_font_generation_changed st) in *.
  intros Hgr'. eapply lines_grown_trans; [exact Hgr|]. destruct (lines_clear st') as (Hg' & Hc' & Hgr2).
  pose proof (lines_grown_trans _ _ _ Hgr' Hgr2) as Hgr3. unfold truncate_layouts. destruct (clear_if_font_generation_changed st') as [s c]. cbn [fst snd] in *.
  destruct (Nat.eqb_spec (index_generation i) (font_generation s)) as [Ei|_]; [|done]. cbn [negb].
  destruct Hgr3 as [Hle Hsame]. split; [done|]. intros Hgen Hcached. destruct (Hsame Hgen Hcached) as (H1 & H2 & H3 & [k1 H4] & [k2 H5]).
  cbn. rewrite Hil, Hiw. cbn in H4, H5. rewrite H4, H5, !take_app_length. by split_and!.
Qed.

Lemma lines_range_recorded st st' st'' : lines_grown (layout_index st).1 st' -> lines_grown (layout_index st').1 st'' ->
  lines_range (finish_frame st'') (layout_index st).2 (layout_index st').2.
Proof.
  pose proof (lines_index_ok st) as Hi. destruct (layout_index st) as [st1 i]. destruct Hi as (-> & Hig & Hil & Hiw).
  pose proof (lines_index_ok st') as Hj. destruct (layout_index st') as [st2 j]. destruct Hj as (-> & Hjg & Hjl & Hjw). cbn [fst snd].
  destruct (lines_clear st) as (Hg1 & Hc1 & _), (lines_clear st') as (Hg2 & Hc2 & Hgr2), (lines_clear st'') as (Hg3 & Hc3 & Hgr3).
  intros Ha Hb. pose proof (lines_grown_trans _ _ _ Hb Hgr3) as Hb'. pose proof (lines_grown_trans _ _ _ Ha Hgr2) as Ha'.
  unfold finish_frame. destruct (clear_if_font_generation_changed st'') as [s c]. cbn [fst snd] in *.
  destruct Ha' as [Hle1 Hs1], Hb' as [Hle2 Hs2]. cbn [fst] in *. split; [cbn; lia|]. split; [cbn; lia|]. cbn. intros Ei Ej.
  destruct (Hs1 ltac:(lia) ltac:(lia)) as (_ & _ & _ & P1%prefix_length & P2%prefix_length), (Hs2 ltac:(lia) ltac:(lia)) as (H1 & _ & _ & P3%prefix_length & P4%prefix_length).
  cbn in P3, P4, H1. split; [lia|]. lia.
Qed.

(** The lines used since the place was recorded are dropped. *)
Lemma lines_truncate_index st st' : lines_grown (layout_index st).1 st' -> font_generation st'.1 = font_generation st.1 ->
  (layout_index (truncate_layouts st' (layout_index st).2)).2 = (layout_index st).2.
Proof.
  pose proof (lines_index_ok st) as Hi. destruct (layout_index st) as [st1 i]. destruct Hi as (-> & Hig & Hil & Hiw). cbn [fst snd].
  destruct (lines_clear st) as (Hg & Hc & _), (lines_clear st') as (Hg' & Hc' & Hgr). intros Hgr' Hfonts.
  destruct (lines_grown_trans _ _ _ Hgr' Hgr) as [_ Hs]. unfold truncate_layouts.
  destruct (clear_if_font_generation_changed st') as [s c]. cbn [fst snd] in *.
  rewrite (proj2 (Nat.eqb_eq (index_generation i) (font_generation s))) by lia. cbn [negb].
  destruct (Hs ltac:(lia) ltac:(lia)) as (Hc2 & _ & _ & [k1 H1] & [k2 H2]). cbn in H1, H2. rewrite Hil, Hiw, H1, H2, !take_app_length.
  set (st1 := clear_if_font_generation_changed st) in *. clearbody st1. unfold layout_index, clear_if_font_generation_changed. cbn [fst snd cached_font_generation].
  rewrite (proj2 (Nat.eqb_eq (cached_font_generation c) (font_generation s))) by lia. cbn [fst snd current_frame used_lines used_wrapped_lines].
  rewrite <- Hil, <- Hiw. destruct i. cbn in Hig |- *. f_equal. lia.
Qed.

#[export] Instance cache_frame_text_laws : FrameTextLaws (LineCache.Shared * LineLayoutCache) LineLayoutIndex := {|
  text_grown := lines_grown;
  text_range := lines_range;
  text_grown_refl := lines_grown_refl;
  text_grown_trans := lines_grown_trans;
  text_index_grown := lines_index_grown;
  text_truncate_grown := lines_truncate_grown;
  text_range_recorded := lines_range_recorded;
  text_range_grown := lines_range_grown;
  text_reuse_grown := lines_reuse_grown;
  text_fonts st := font_generation st.1;
  text_truncate_index := lines_truncate_index;
|}.
End Lines.

(** ** A window *)

Module TestFrame.
#[local] Existing Instance stable_sort.
#[local] Existing Instance test_action_trait.

Definition Tree : Type := DispatchTree (Action := N) (Json := nat) (Error := unit) (Schema := unit)
  (KeyListener := N) (ModifiersChangedListener := N) (ActionListener := N).
Definition Primitives : Type := Scene (Paint := unit).
#[export] Existing Instance EntityLife.counter_keys.
Definition Entities : Type := EntityMap (Value := N) (Slots := EntityMap.EntityId).
Definition Lines : Type := LineCache.Shared * LineLayoutCache.

#[export] Instance test_frame_tree : FrameTree Tree ReusedSubtree := dispatch_frame_tree (Action := N).
#[export] Instance test_frame_laws : FrameTreeLaws Tree ReusedSubtree := dispatch_frame_tree_laws (Action := N).
#[export] Instance test_frame_scene : FrameScene Primitives := scene_frame_scene.

(** Elements, listeners and handlers are numbers. *)
Definition TestFrame : Type :=
  Frame.Frame (Tree := Tree) (Scn := Primitives) (Tabs := TabStopMap) (TextIndex := LineLayoutIndex) (StateKey := nat) (ElementState := nat)
    (Element := nat) (MouseListener := nat) (InputHandler := nat) (Tooltip := nat) (ElementId := nat) (TextStyle := nat) (CursorStyle := nat).
Definition TestWindow : Type :=
  Window (Tree := Tree) (Scn := Primitives) (Tabs := TabStopMap) (Text := Lines) (TextIndex := LineLayoutIndex) (Cx := Entities) (Layout := unit) (StateKey := nat)
    (ElementState := nat) (Element := nat) (View := nat) (MouseListener := nat) (InputHandler := nat) (Tooltip := nat) (ElementId := nat) (TextStyle := nat)
    (CursorStyle := nat).

Definition test_lines : Lines := let s := LineCache.mkShared (mkGlobal 1 0 ∅ ∅ 0) 0 in (s, cache_new s).

Definition empty_frame : TestFrame := frame_new test_tree.

Definition test_window : TestWindow :=
  mkWindow empty_frame empty_frame (Some 2%N) 1 0 [] [] [] [] [7%N] (mkSize 100 100) (mkPoint 15 15) hit_test_default None true None None test_lines None true
    true ∅ ∅ false map_new tt None None None false NotDrawing.

(** A hitbox that blocks hovering over an ordinary one, and one that the mouse is not in. *)
Definition boxed_window : TestWindow :=
  let (w, _) := insert_hitbox (mkBounds (mkPoint 0 0) (mkSize 30 30)) HitNormal test_window in
  let (w, _) := insert_hitbox (mkBounds (mkPoint 10 10) (mkSize 30 30)) BlockMouseExceptScroll w in
  let (w, _) := insert_hitbox (mkBounds (mkPoint 50 50) (mkSize 30 30)) BlockMouse w in w.

Example test_hit : hit_test (hitboxes (next_frame boxed_window)) (mkPoint 15 15) = mkHitTest [2; 1]%Z 1.
Proof. by vm_compute. Qed.
End TestFrame.
