(* ===== verification/FrameHover.v ===== *)
(** * FrameHover: which hitboxes the mouse is over

    The theorem on [Frame::hit_test], and the order in which the listeners of the mouse are
    called. *)

From Stdlib Require Import NArith ZArith.
From S2P Require Import Geometry Scene.
From stdpp Require Import base list option numbers gmap.
From S2P Require Import Prelude Sorting Geometry Frame FrameParts.

#[local] Set Warnings "-register-all,-clear-no-such-hyp".

(** ** Hit testing *)

Definition under (p : Point) (h : Hitbox) : bool := contains (intersect (hitbox_bounds h) (mask_bounds (hitbox_mask h))) p.

Definition blocks (h : Hitbox) : bool := bool_decide (behavior h = BlockMouse).
Definition blocks_hover (h : Hitbox) : bool := negb (bool_decide (behavior h = HitNormal)).

(** The elements up to the first that satisfies [f], with it. *)
Fixpoint up_to {A} (f : A -> bool) (l : list A) : list A :=
  match l with
  | [] => []
  | a :: l => a :: (if f a then [] else up_to f l)
  end.

Lemma hit_test_loop_ids p hs found count :
  (hit_test_loop p hs found count).1 = found ++ map hitbox_id (up_to blocks (List.filter (under p) hs)).
Proof.
  revert found count. induction hs as [|h hs IH]; intros found count; cbn [hit_test_loop List.filter]; [by rewrite app_nil_r|].
  fold (under p h). destruct (under p h); [|apply IH]. cbn [up_to map]. fold (blocks h). destruct (blocks h); [done|]. rewrite IH. by rewrite <- app_assoc.
Qed.

Lemma hit_test_loop_counted p hs found n : (hit_test_loop p hs found (Some n)).2 = Some n.
Proof.
  revert found. induction hs as [|h hs IH]; intros found; [done|]. cbn [hit_test_loop]. destruct (contains _ _); [|apply IH].
  by destruct (bool_decide (behavior h = BlockMouse)).
Qed.

Lemma hit_test_loop_hovered p hs found :
  let t := hit_test_loop p hs found None in
  take (default (length t.1) t.2) t.1 = found ++ map hitbox_id (up_to blocks_hover (List.filter (under p) hs)).
Proof.
  cbn zeta. revert found. induction hs as [|h hs IH]; intros found; cbn [hit_test_loop List.filter]; [cbn; by rewrite firstn_all, app_nil_r|].
  fold (under p h). destruct (under p h); [|apply IH]. cbn [up_to map]. unfold blocks_hover at 1. destruct (behavior h) eqn:E; cbn [negb bool_decide decide_rel].
  - rewrite (bool_decide_eq_true_2 (HitNormal = HitNormal)), (bool_decide_eq_false_2 (HitNormal = BlockMouse)),
      (bool_decide_eq_false_2 (HitNormal = BlockMouseExceptScroll)) by done. cbn [negb]. rewrite IH. by rewrite <- app_assoc.
  - rewrite (bool_decide_eq_true_2 (BlockMouse = BlockMouse)), (bool_decide_eq_false_2 (BlockMouse = HitNormal)),
      (bool_decide_eq_false_2 (BlockMouse = BlockMouseExceptScroll)) by done. cbn [fst snd default negb]. by rewrite firstn_all.
  - rewrite (bool_decide_eq_true_2 (BlockMouseExceptScroll = BlockMouseExceptScroll)), (bool_decide_eq_false_2 (BlockMouseExceptScroll = HitNormal)),
      (bool_decide_eq_false_2 (BlockMouseExceptScroll = BlockMouse)) by done. cbn [negb].
    rewrite hit_test_loop_ids, hit_test_loop_counted. cbn [default]. unfold id. by rewrite take_app_length.
Qed.

Lemma hit_test_ids hs p : ids (hit_test hs p) = map hitbox_id (up_to blocks (List.filter (under p) (rev hs))).
Proof.
  unfold hit_test. pose proof (hit_test_loop_ids p (rev hs) [] None) as Hi. by destruct (hit_test_loop p (rev hs) [] None) as [found count].
Qed.

Lemma hit_test_hovered hs p :
  take (hover_hitbox_count (hit_test hs p)) (ids (hit_test hs p)) = map hitbox_id (up_to blocks_hover (List.filter (under p) (rev hs))).
Proof.
  unfold hit_test. pose proof (hit_test_loop_hovered p (rev hs) []) as Hi. cbn zeta in Hi. by destruct (hit_test_loop p (rev hs) [] None) as [found count].
Qed.

Lemma up_to_app_elem {A} (f g : A -> bool) (l1 l2 : list A) (a : A) : g a = true -> a ∉ l1 ->
  a ∈ up_to f (List.filter g (l1 ++ a :: l2)) <-> Forall (fun b => g b = true -> f b = false) l1.
Proof.
  intros Ha. induction l1 as [|b l1 IH]; cbn [app List.filter].
  - intros _. rewrite Ha. split; [done|]. intros _. by left.
  - intros [Hne Hn]%not_elem_of_cons. specialize (IH Hn). destruct (g b) eqn:Eg.
    + cbn [up_to]. rewrite elem_of_cons. destruct (f b) eqn:Ef.
      * split; [intros [->|H]; [done|by apply elem_of_nil in H]|]. intros [H _]%Forall_cons. by rewrite H in Ef.
      * rewrite IH, Forall_cons. split; [by intros [->|Hf]|]. intros [_ Hf]. by right.
    + rewrite IH, Forall_cons. split; [intros Hf; split; [congruence|done]|by intros []].
Qed.

(** No hitbox over the number [i] that the position is in satisfies [f]. *)
Definition above (hs : list Hitbox) (p : Point) (i : nat) (f : Hitbox -> bool) : Prop :=
  forall j h, i < j -> hs !! j = Some h -> under p h = true -> f h = false.

Lemma above_iff hs p i f : above hs p i f <-> Forall (fun h => under p h = true -> f h = false) (rev (drop (S i) hs)).
Proof.
  rewrite Forall_forall. split.
  - intros Ha h Hin. apply list_elem_of_In, in_rev, list_elem_of_In, list_elem_of_lookup in Hin as [j Hj]. rewrite lookup_drop in Hj.
    apply (Ha (S i + j)); [lia|done].
  - intros Ha j h Hlt Hj. apply Ha, list_elem_of_In, in_rev. rewrite rev_involutive. apply list_elem_of_In, list_elem_of_lookup.
    exists (j - S i). rewrite lookup_drop. by replace (S i + (j - S i)) with j by lia.
Qed.

Lemma listed_iff hs p i h f : NoDup (map hitbox_id hs) -> hs !! i = Some h ->
  hitbox_id h ∈ map hitbox_id (up_to f (List.filter (under p) (rev hs))) <-> under p h = true /\ above hs p i f.
Proof.
  intros Hnd Hi. rewrite above_iff. assert (Hrev : rev hs = rev (drop (S i) hs) ++ h :: rev (take i hs)).
  { rewrite <- (take_drop_middle _ _ _ Hi) at 1. rewrite rev_app_distr. cbn [rev]. by rewrite <- app_assoc. }
  assert (Hsub : forall l h', h' ∈ up_to f l -> h' ∈ l).
  { intros l. induction l as [|b l IH]; [done|]. cbn [up_to]. intros h' [->|Hin]%elem_of_cons; [by left|]. right. destruct (f b); [by apply elem_of_nil in Hin|by apply IH]. }
  assert (Hin : hitbox_id h ∈ map hitbox_id (up_to f (List.filter (under p) (rev hs))) <-> h ∈ up_to f (List.filter (under p) (rev hs))).
  { rewrite list_elem_of_In, in_map_iff. split; [|intros Hin; exists h; split; [done|by apply list_elem_of_In]].
    intros (h' & E & Hin). apply list_elem_of_In in Hin. enough (h' = h) as <- by done. pose proof (Hsub _ _ Hin) as Hf.
    apply list_elem_of_In, filter_In in Hf as [Hf _]. apply in_rev in Hf. apply list_elem_of_In, list_elem_of_lookup in Hf as [j Hj].
    assert (i = j) as ->; [|congruence]. apply (NoDup_lookup _ i j (hitbox_id h) Hnd); rewrite list_lookup_fmap; [by rewrite Hi|rewrite Hj; cbn; by rewrite E]. }
  rewrite Hin. destruct (under p h) eqn:Hu.
  - rewrite Hrev, up_to_app_elem; [naive_solver|done|]. intros Hd. apply NoDup_fmap_1 in Hnd.
    apply list_elem_of_In, in_rev, list_elem_of_In, list_elem_of_lookup in Hd as [j Hj]. rewrite lookup_drop in Hj.
    pose proof (NoDup_lookup _ _ _ _ Hnd Hi Hj). lia.
  - split; [|by intros []]. intros Hf%Hsub. apply list_elem_of_In, filter_In in Hf as [_ Hf]. congruence.
Qed.

(** C23: of hitboxes with identifiers of their own, one is in the hit test of a position, and
    so gets scroll events, if the position is in its bounds within its content mask and no
    hitbox inserted after it that the position is in blocks the mouse; and it is hovered if
    none of those blocks anything. *)
Theorem hit_test_correct (hs : list Hitbox) (p : Point) (i : nat) (h : Hitbox) :
  NoDup (map hitbox_id hs) -> hs !! i = Some h ->
  let t := hit_test hs p in
  (hitbox_id h ∈ ids t <-> under p h = true /\ above hs p i blocks) /\
  (hitbox_id h ∈ take (hover_hitbox_count t) (ids t) <-> under p h = true /\ above hs p i blocks_hover).
Proof.
  intros Hnd Hi t. unfold t. rewrite hit_test_hovered, hit_test_ids. split; by apply listed_iff.
Qed.

(** ** The listeners of the mouse *)

Section Mouse.
Context {Tree Reused Scn Tabs Text TextIndex Cx Layout : Type}.
Context {StateKey ElementState : Type} `{!EqDecision StateKey, !Countable StateKey}.
Context {Element View MouseListener InputHandler Tooltip ElementId TextStyle CursorStyle Event : Type}.

Abbreviation Win := (Window (Tree := Tree) (Scn := Scn) (Tabs := Tabs) (Text := Text) (TextIndex := TextIndex) (Cx := Cx) (Layout := Layout) (StateKey := StateKey)
  (ElementState := ElementState) (Element := Element) (View := View) (MouseListener := MouseListener) (InputHandler := InputHandler) (Tooltip := Tooltip)
  (ElementId := ElementId) (TextStyle := TextStyle) (CursorStyle := CursorStyle)).
Context (mouse_kind : Event -> MouseKind) (call_listener : MouseListener -> Event -> MousePhase -> Win -> outcome (Win * MouseListener)).

(** The calls of an event in order: every listener from the back of the frame to its front,
    and then from the front to the back. *)
Definition mouse_order (n : nat) : list (nat * MousePhase) :=
  map (fun i => (i, MouseCapture)) (seq 0 n) ++ map (fun i => (i, MouseBubble)) (rev (seq 0 n)).

(** A call, unless the event has been stopped. *)
Definition call_one (e : Event) (st : Win * list (option MouseListener)) (c : nat * MousePhase) : outcome (Win * list (option MouseListener)) :=
  let (w, ls) := st in
  if propagate_event w then
    let! l := index ls c.1 in
    let! l := unwrap l in
    let! (w, l) := call_listener l e c.2 w in
    Ok (w, <[c.1 := Some l]> ls)
  else Ok (w, ls).

Lemma calls_stopped e cs w ls : propagate_event w = false -> ofold (call_one e) cs (w, ls) = Ok (w, ls).
Proof using. intros Hw. induction cs as [|c cs IH]; [done|]. cbn [ofold]. unfold call_one at 1. rewrite Hw. cbn [obind]. exact IH. Qed.

Lemma call_listeners_forward e phase ls : forall w pre, propagate_event w = true ->
  ofold (call_one e) (map (fun i => (i, phase)) (seq (length pre) (length ls))) (w, pre ++ ls) =
  let! (w, ls) := call_listeners call_listener e phase ls w in Ok (w, pre ++ ls).
Proof using.
  induction ls as [|l ls IH]; intros w pre Hw; [done|]. cbn [length seq map ofold call_listeners]. unfold call_one at 1. rewrite Hw. cbn [fst snd].
  rewrite (index_Ok _ _ l) by by apply list_lookup_middle. cbn [obind]. destruct l as [l|]; cbn [unwrap obind]; [|done].
  destruct (call_listener l e phase w) as [[w' l']| |]; cbn [obind]; [|done..].
  rewrite insert_app_r_alt, Nat.sub_diag by lia. cbn [list_insert insert]. destruct (propagate_event w') eqn:Hw'.
  - specialize (IH w' (pre ++ [Some l']) Hw'). rewrite length_app, <- app_assoc in IH. cbn [length app] in IH. rewrite Nat.add_1_r in IH.
    etransitivity; [exact IH|]. destruct (call_listeners _ _ _ _ _) as [[w2 ls2]| |]; cbn [obind]; [|done..]. by rewrite <- app_assoc.
  - rewrite calls_stopped by done. done.
Qed.

Lemma call_listeners_backward e phase ls : forall w post, propagate_event w = true ->
  ofold (call_one e) (map (fun i => (i, phase)) (rev (seq 0 (length ls)))) (w, ls ++ post) =
  let! (w, rls) := call_listeners call_listener e phase (rev ls) w in Ok (w, rev rls ++ post).
Proof using.
  induction ls as [|l ls IH] using rev_ind; intros w post Hw; [done|]. rewrite length_app, rev_app_distr, seq_app, rev_app_distr.
  cbn [length seq rev app map ofold call_listeners]. unfold call_one at 1. rewrite Hw. cbn [fst snd Nat.add]. rewrite <- app_assoc. cbn [app].
  rewrite (index_Ok _ _ l) by by apply list_lookup_middle. cbn [obind]. destruct l as [l|]; cbn [unwrap obind]; [|done].
  destruct (call_listener l e phase w) as [[w' l']| |]; cbn [obind]; [|done..].
  rewrite insert_app_r_alt, Nat.sub_diag by lia. cbn [list_insert insert]. destruct (propagate_event w') eqn:Hw'.
  - etransitivity; [apply IH, Hw'|]. destruct (call_listeners _ _ _ _ _) as [[w2 ls2]| |]; cbn [obind]; [|done..].
    cbn [rev]. by rewrite <- app_assoc.
  - rewrite calls_stopped by done. cbn [obind rev]. by rewrite rev_involutive, <- app_assoc.
Qed.

Lemma call_listeners_length e phase ls : forall w w' ls',
  call_listeners call_listener e phase ls w = Ok (w', ls') -> length ls' = length ls.
Proof using.
  induction ls as [|l ls IH]; intros w w' ls'; cbn [call_listeners]; [by intros [= <- <-]|].
  destruct (unwrap l) as [l0| |]; cbn [obind]; [|done..]. destruct (call_listener l0 e phase w) as [[w1 l1]| |]; cbn [obind]; [|done..].
  destruct (propagate_event w1); [|by intros [= <- <-]]. destruct (call_listeners _ _ _ _ _) as [[w2 ls2]| |] eqn:E; cbn [obind]; [|done..].
  intros [= <- <-]. cbn. f_equal. by eapply IH.
Qed.

(** The window when the listeners are called: the hit test is that of the frame shown, whose
    listeners are out of it. *)
Definition mouse_prepared (w : Win) : Win :=
  let w := set_last_input_was_keyboard false w in
  map_rendered (set_mouse_listeners []) (set_mouse_hit_test (hit_test (hitboxes (rendered_frame w)) (mouse_position w)) w).

(** C24: a mouse event is given to the listeners of the frame shown, in the capture phase in
    the order in which they were painted and then in the bubble phase in the reverse order,
    until one stops it, which skips all that would follow, in both phases; hovering is then
    that of the position of the mouse in the frame shown.  Afterwards the listeners are put
    back, as their calls left them, something that is dragged is let go by the release of a
    button, and so is the pointer. *)
Theorem mouse_dispatch_correct (e : Event) (w : Win) :
  propagate_event w = true ->
  let ls := mouse_listeners (rendered_frame w) in
  dispatch_mouse_event mouse_kind call_listener e w =
    let! (w, ls) := ofold (call_one e) (mouse_order (length ls)) (mouse_prepared w, ls) in
    Ok (after_listeners mouse_kind e (map_rendered (set_mouse_listeners ls) w)).
Proof using.
  intros Hw ls. unfold dispatch_mouse_event. set (t := hit_test _ _).
  set (w1 := if bool_decide _ then _ else _).
  assert (Hw1 : map_rendered (set_mouse_listeners []) w1 = mouse_prepared w).
  { unfold mouse_prepared. subst w1. destruct (bool_decide_reflect (t = mouse_hit_test (set_last_input_was_keyboard false w))) as [E|_]; [|done].
    cbn [rendered_frame mouse_position set_last_input_was_keyboard] in *. fold t. rewrite E. by destruct w. }
  assert (Hls : mouse_listeners (rendered_frame w1) = ls) by (subst w1 ls; by destruct (bool_decide _)).
  rewrite Hls, Hw1. assert (Hp : propagate_event (mouse_prepared w) = true) by done. generalize dependent (mouse_prepared w). intros w2 _ Hp.
  unfold mouse_order. rewrite ofold_app. pose proof (call_listeners_forward e MouseCapture ls w2 [] Hp) as Hf. cbn [length app] in Hf. rewrite Hf.
  destruct (call_listeners call_listener e MouseCapture ls w2) as [[w3 ls3]| |] eqn:E3; cbn [obind]; [|done..]. apply call_listeners_length in E3. rewrite <- E3.
  destruct (propagate_event w3) eqn:Hp3.
  - pose proof (call_listeners_backward e MouseBubble ls3 w3 [] Hp3) as Hb. rewrite app_nil_r in Hb. rewrite Hb.
    destruct (call_listeners _ _ _ _ _) as [[w4 ls4]| |]; cbn [obind]; [|done..]. by rewrite app_nil_r.
  - by rewrite calls_stopped.
Qed.
End Mouse.

(** ** Witnesses *)

Module TestHover.
Import TestFrame.

Lemma hit_test_correct_witness :
  let hs := hitboxes (next_frame boxed_window) in
  exists h, hs !! 0 = Some h /\ NoDup (map hitbox_id hs) /\
  hitbox_id h ∈ ids (hit_test hs (mkPoint 15 15)) /\ hitbox_id h ∉ take 1 (ids (hit_test hs (mkPoint 15 15))).
Proof.
  assert (Hnd : NoDup (map hitbox_id (hitboxes (next_frame boxed_window)))) by (apply (bool_decide_unpack _); by vm_compute).
  exists (mkHitbox 1 (mkBounds (mkPoint 0 0) (mkSize 30 30)) (mkMask (mkBounds (mkPoint 0 0) (mkSize 100 100))) HitNormal).
  split; [by vm_compute|]. split; [done|]. destruct (hit_test_correct _ (mkPoint 15 15) 0 _ Hnd eq_refl) as [H1 H2]. split.
  - apply H1. split; [by vm_compute|]. intros [|[|[|j]]] h Hj; [lia| | |by destruct j]; intros [= <-]; by vm_compute.
  - intros Hin. apply H2 in Hin as [_ Ha]. specialize (Ha 1 _ ltac:(lia) eq_refl eq_refl). by vm_compute in Ha.
Defined.

Definition released (_ : unit) : MouseKind := MouseUp.

(** A listener counts its calls from a multiple of ten, and the second call of 20 stops the
    event. *)
Definition count_call (l : nat) (_ : unit) (_ : MousePhase) (w : TestWindow) : outcome (TestWindow * nat) :=
  Ok (set_propagate_event (negb (l =? 21)) w, S l).

Definition listening : TestWindow := map_rendered (set_mouse_listeners [Some 10; Some 20; Some 30]) boxed_window.

Example test_mouse :
  match dispatch_mouse_event released count_call tt listening with
  | Ok w => mouse_listeners (rendered_frame w) = [Some 11; Some 22; Some 32] /\ propagate_event w = false
  | _ => False
  end.
Proof. by vm_compute. Qed.

Lemma mouse_dispatch_correct_witness :
  let ls := mouse_listeners (rendered_frame listening) in
  propagate_event listening = true /\
  match ofold (call_one count_call tt) (mouse_order (length ls)) (mouse_prepared listening, ls) with
  | Ok (w, ls) => ls = [Some 11; Some 22; Some 32] /\ dispatch_mouse_event released count_call tt listening = Ok (after_listeners released tt (map_rendered (set_mouse_listeners ls) w))
  | _ => False
  end.
Proof.
  intros ls. split; [by vm_compute|]. pose proof (mouse_dispatch_correct released count_call tt listening eq_refl) as E. cbn zeta in E. fold ls in E.
  assert (Hls : match ofold (call_one count_call tt) (mouse_order (length ls)) (mouse_prepared listening, ls) with
                | Ok (_, ls) => bool_decide (ls = [Some 11; Some 22; Some 32]) | _ => false end = true) by by vm_compute.
  destruct (ofold _ _ _) as [[w ls']| |]; [|done..]. split; [by apply bool_decide_eq_true in Hls|exact E].
Defined.
End TestHover.
