(* ===== verification/FrameStates.v ===== *)
(** * FrameStates: the states that elements keep from frame to frame

    [with_element_state] moves the state of an element from the frame shown to the next one,
    and the end of a frame moves those of the elements that were taken over without being
    drawn.  The theorem is that all of this is one map, of which the end of every frame
    drops what was not asked for. *)

From Stdlib Require Import NArith ZArith.
From S2P Require Import Geometry Scene.
From stdpp Require Import base list option numbers gmap.
From S2P Require Import Prelude Sorting Geometry Frame FrameParts.

#[local] Set Warnings "-register-all,-clear-no-such-hyp".

Section States.
Context {Tree Reused Scn Tabs Text TextIndex Cx Layout : Type}.
Context `{FrameTree Tree Reused} `{FrameScene Scn} `{FrameTabs Tabs}.
Context {StateKey ElementState : Type} `{!EqDecision StateKey, !Countable StateKey}.
Context {Element View MouseListener InputHandler Tooltip ElementId TextStyle CursorStyle : Type}.

Abbreviation Win := (Window (Tree := Tree) (Scn := Scn) (Tabs := Tabs) (Text := Text) (TextIndex := TextIndex) (Cx := Cx) (Layout := Layout) (StateKey := StateKey)
  (ElementState := ElementState) (Element := Element) (View := View) (MouseListener := MouseListener) (InputHandler := InputHandler) (Tooltip := Tooltip)
  (ElementId := ElementId) (TextStyle := TextStyle) (CursorStyle := CursorStyle)).

(** ** What a frame does with the states *)

(** A call of [with_element_state] with the calls inside it, or keys taken over from the
    frame shown, as [reuse_prepaint] and [reuse_paint] do. *)
Inductive Script :=
  | ScriptEnd
  | ScriptAccess (key : StateKey) (update : option ElementState -> ElementState) (inner rest : Script)
  | ScriptReuse (keys : list StateKey) (rest : Script).

Fixpoint run_script (sc : Script) (w : Win) : outcome Win :=
  match sc with
  | ScriptEnd => Ok w
  | ScriptAccess k u inner rest =>
      let! (w, _) := with_element_state k (fun s w => let! w := run_script inner w in Ok (w, (tt, u s))) w in
      run_script rest w
  | ScriptReuse ks rest => run_script rest (map_next (fun n => set_accessed_element_states (accessed_element_states n ++ ks) n) w)
  end.

(** The end of a frame, as in [draw]. *)
Definition end_frame (w : Win) : Win :=
  let (n, p) := frame_finish (next_frame w) (rendered_frame w) in
  set_next_frame (frame_clear p) (set_rendered_frame n w).

Definition run_frame (w : Win) (sc : Script) : outcome Win := let! w := run_script sc w in Ok (end_frame w).

(** ** One map *)

Abbreviation States := (gmap StateKey ElementState).

(** Each access updates the state of its key, after the accesses inside it. *)
Fixpoint script_states (sc : Script) (m : States) : States :=
  match sc with
  | ScriptEnd => m
  | ScriptAccess k u inner rest => script_states rest (<[k := u (m !! k)]> (script_states inner m))
  | ScriptReuse _ rest => script_states rest m
  end.

(** The keys whose states are asked for. *)
Fixpoint script_calls (sc : Script) : list StateKey :=
  match sc with
  | ScriptEnd => []
  | ScriptAccess k _ inner rest => k :: script_calls inner ++ script_calls rest
  | ScriptReuse _ rest => script_calls rest
  end.

(** No state is asked for in a call that has it. *)
Fixpoint not_reentrant (sc : Script) : Prop :=
  match sc with
  | ScriptEnd => True
  | ScriptAccess k _ inner rest => k ∉ script_calls inner /\ not_reentrant inner /\ not_reentrant rest
  | ScriptReuse _ rest => not_reentrant rest
  end.

(** While a state is lent it is not in the map. *)
Fixpoint lent_states (sc : Script) (m : States) : States :=
  match sc with
  | ScriptEnd => m
  | ScriptAccess k u inner rest => lent_states rest (<[k := u (m !! k)]> (lent_states inner (delete k m)))
  | ScriptReuse _ rest => lent_states rest m
  end.

Lemma lent_delete sc k : k ∉ script_calls sc -> forall m, lent_states sc (delete k m) = delete k (lent_states sc m).
Proof using.
  induction sc as [|k' u inner IHi rest IHr|ks rest IHr]; cbn [script_calls lent_states]; intros Hk m; [done| |by apply IHr].
  apply not_elem_of_cons in Hk as [Hne Hk]. apply not_elem_of_app in Hk as [Hk1 Hk2].
  rewrite lookup_delete_ne, delete_delete, IHi, <- delete_insert_ne by done. by apply IHr.
Qed.

Lemma lent_sequential sc : not_reentrant sc -> forall m, lent_states sc m = script_states sc m.
Proof using.
  induction sc as [|k u inner IHi rest IHr|ks rest IHr]; cbn [not_reentrant lent_states script_states]; [done| |done].
  intros (Hk & Hi & Hr) m. by rewrite lent_delete, insert_delete_eq, IHi, IHr.
Qed.

Fixpoint script_keys (sc : Script) : list StateKey :=
  match sc with
  | ScriptEnd => []
  | ScriptAccess k _ inner rest => k :: script_keys inner ++ script_keys rest
  | ScriptReuse ks rest => ks ++ script_keys rest
  end.

Definition frame_states (m : States) (sc : Script) : States := filter (fun e => e.1 ∈ script_keys sc) (script_states sc m).

(** ** The two maps of the frames are one *)

Abbreviation next_states w := (element_states (next_frame w)).
Abbreviation shown_states w := (element_states (rendered_frame w)).
Abbreviation accessed w := (accessed_element_states (next_frame w)).

Definition held (w : Win) (k : StateKey) : option (option ElementState) :=
  match next_states w !! k with Some b => Some b | None => shown_states w !! k end.

Record states_ok (w : Win) (m : States) : Prop := mkStatesOk {
  so_held : forall k, held w k = option_map Some (m !! k);
  so_apart : forall k, next_states w !! k = None \/ shown_states w !! k = None;
  so_accessed : forall k, is_Some (next_states w !! k) -> k ∈ accessed w;
}.

Definition access_key (k : StateKey) (w : Win) : Win :=
  map_next (fun n => set_accessed_element_states (accessed_element_states n ++ [k]) n) w.

Lemma take_state_ok k w m : states_ok w m ->
  let (w', b) := take_state k w in b = option_map Some (m !! k) /\ states_ok w' (delete k m) /\ accessed w' = accessed w /\
  shown_states w' !! k = None /\ (forall k', shown_states w !! k' = None -> shown_states w' !! k' = None).
Proof using.
  intros [Hh Ha Hk]. unfold take_state. pose proof (Hh k) as Hhk. unfold held in Hhk. destruct (next_states w !! k) as [b|] eqn:En.
  - split_and!; [done| |done| |done]; [|destruct (Ha k) as [E|E]; [congruence|exact E]]. split.
    + intros k'. unfold held. cbn. destruct (decide (k' = k)) as [->|Hne].
      * rewrite !lookup_delete_eq. destruct (Ha k) as [E|E]; [congruence|exact E].
      * rewrite !lookup_delete_ne by done. apply Hh.
    + intros k'. cbn. destruct (decide (k' = k)) as [->|Hne]; [rewrite lookup_delete_eq; by left|rewrite lookup_delete_ne by done; apply Ha].
    + intros k'. cbn. destruct (decide (k' = k)) as [->|Hne]; [rewrite lookup_delete_eq; by intros []|rewrite lookup_delete_ne by done; apply Hk].
  - destruct (shown_states w !! k) as [b|] eqn:Es.
    + split_and!; [done| |done|cbn; by rewrite lookup_delete_eq|]; [|intros k' E; cbn; destruct (decide (k' = k)) as [->|Hne]; by rewrite ?lookup_delete_eq, ?lookup_delete_ne]. split.
      * intros k'. unfold held. cbn. destruct (decide (k' = k)) as [->|Hne]; [by rewrite En, !lookup_delete_eq|].
        rewrite !lookup_delete_ne by done. apply Hh.
      * intros k'. cbn. destruct (decide (k' = k)) as [->|Hne]; [by left|rewrite lookup_delete_ne by done; apply Ha].
      * apply Hk.
    + split_and!; [done| |done|done|done]. assert (m !! k = None) by (by destruct (m !! k)). by rewrite delete_id.
Qed.

Lemma put_state_ok k s w m : states_ok w m -> shown_states w !! k = None -> k ∈ accessed w -> states_ok (put_state k s w) (<[k := s]> m).
Proof using.
  intros [Hh Ha Hk] Hm Hacc. split.
  - intros k'. unfold held. cbn. destruct (decide (k' = k)) as [->|Hne]; [by rewrite !lookup_insert_eq|]. rewrite !lookup_insert_ne by done. apply Hh.
  - intros k'. cbn. destruct (decide (k' = k)) as [->|Hne]; [|rewrite lookup_insert_ne by done; apply Ha].
    by right.
  - intros k'. cbn. destruct (decide (k' = k)) as [->|Hne]; [done|rewrite lookup_insert_ne by done; apply Hk].
Qed.

(** What a script leaves: states as in the one map, the keys accessed, and nothing more in
    the frame shown. *)
Lemma run_script_ok sc : forall w m, states_ok w m ->
  exists w', run_script sc w = Ok w' /\ states_ok w' (lent_states sc m) /\ accessed w' = accessed w ++ script_keys sc /\
  (forall k, shown_states w !! k = None -> shown_states w' !! k = None).
Proof using.
  induction sc as [|k u inner IHi rest IHr|ks rest IHr]; intros w m Hw; cbn [run_script lent_states script_keys].
  - exists w. by rewrite app_nil_r.
  - unfold with_element_state. fold (access_key k w).
    assert (Hw1 : states_ok (access_key k w) m) by (destruct Hw as [Hh Ha Hk]; split; [done|done|]; intros k' Hk'; apply elem_of_app; left; by apply Hk).
    pose proof (take_state_ok k _ _ Hw1) as Ht. destruct (take_state k (access_key k w)) as [w2 b]. destruct Ht as (-> & Hw2 & Hacc2 & Hnone & Hmono).
    destruct (IHi w2 (delete k m) Hw2) as (w3 & H3 & Hw3 & Hacc3 & Hmono3).
    assert (Hput : states_ok (put_state k (u (m !! k)) w3) (<[k := u (m !! k)]> (lent_states inner (delete k m)))).
    { apply put_state_ok; [done|by apply Hmono3|]. rewrite Hacc3, Hacc2. apply elem_of_app. left. apply elem_of_app. right. by left. }
    destruct (IHr _ _ Hput) as (w4 & H4 & Hw4 & Hacc4 & Hmono4). exists w4. split_and!; [|done| |].
    + destruct (m !! k) as [s|]; cbn [option_map unwrap obind]; rewrite H3; cbn [obind]; exact H4.
    + rewrite Hacc4. change (accessed (put_state k (u (m !! k)) w3)) with (accessed w3). rewrite Hacc3, Hacc2. cbn. by rewrite <- !app_assoc.
    + intros k' Hk'. apply Hmono4. change (shown_states (put_state k (u (m !! k)) w3)) with (shown_states w3). by apply Hmono3, Hmono.
  - destruct (IHr (map_next (fun n => set_accessed_element_states (accessed_element_states n ++ ks) n) w) m) as (w' & E1 & H2 & H3 & H4).
    { destruct Hw as [Hh Ha Hk]; split; [done|done|]; intros k' Hk'; apply elem_of_app; left; by apply Hk. }
    exists w'. split_and!; [done|done| |done]. rewrite H3. cbn. by rewrite <- app_assoc.
Qed.

Lemma keep_states_lookup ks k : forall p n : gmap StateKey (option ElementState),
  n !! k = None \/ p !! k = None ->
  (foldl keep_state (p, n) ks).2 !! k = match n !! k with Some b => Some b | None => if bool_decide (k ∈ ks) then p !! k else None end.
Proof using.
  induction ks as [|k0 ks IH]; intros p n Ha; cbn [foldl].
  - rewrite bool_decide_eq_false_2 by apply not_elem_of_nil. cbn. by destruct (n !! k).
  - unfold keep_state at 2. destruct (p !! k0) as [b|] eqn:Ep.
    + destruct (decide (k = k0)) as [->|Hne].
      * rewrite IH by (right; by rewrite lookup_delete_eq). rewrite lookup_insert_eq, bool_decide_eq_true_2 by (by left).
        destruct Ha as [->|E]; [done|congruence].
      * rewrite IH by by rewrite lookup_insert_ne, lookup_delete_ne. rewrite lookup_insert_ne, lookup_delete_ne by done.
        destruct (n !! k); [done|]. rewrite (bool_decide_ext (k ∈ k0 :: ks) (k ∈ ks)); [done|]. rewrite elem_of_cons. naive_solver.
    + rewrite IH by done. destruct (n !! k); [done|]. destruct (decide (k = k0)) as [->|Hne].
      * rewrite (bool_decide_eq_true_2 (k0 ∈ k0 :: ks)) by (by left). rewrite Ep. by destruct (bool_decide _).
      * rewrite (bool_decide_ext (k ∈ k0 :: ks) (k ∈ ks)); [done|]. rewrite elem_of_cons. naive_solver.
Qed.

(** Between frames the next one holds no states. *)
Definition frame_ready (w : Win) (m : States) : Prop :=
  next_states w = ∅ /\ accessed w = [] /\ shown_states w = Some <$> m.

Lemma run_frame_ok w m sc : frame_ready w m -> not_reentrant sc -> exists w', run_frame w sc = Ok w' /\ frame_ready w' (frame_states m sc).
Proof using.
  intros (Hn & Hacc & Hs) Hre. assert (Hw : states_ok w m).
  { split; unfold held; rewrite ?Hn.
    - intros k. rewrite lookup_empty, Hs, lookup_fmap. by destruct (m !! k).
    - intros k. left. apply lookup_empty.
    - intros k. rewrite lookup_empty. by intros []. }
  destruct (run_script_ok sc w m Hw) as (w1 & E1 & Hw1 & Hacc1 & _). rewrite lent_sequential in Hw1 by done.
  destruct Hw1 as [Hh Ha Hk]. exists (end_frame w1). unfold run_frame. rewrite E1. cbn [obind].
  split; [done|]. rewrite Hacc in Hacc1. cbn [app] in Hacc1. unfold end_frame, frame_finish. pose proof (fun k => keep_states_lookup (accessed w1) k (shown_states w1) (next_states w1)) as Hl.
  destruct (foldl keep_state _ _) as [p n] eqn:Ef. cbn [snd] in Hl. split_and!; [done|done|]. apply map_eq. intros k. cbn. rewrite (Hl k) by done.
  unfold frame_states. rewrite lookup_fmap, map_lookup_filter. pose proof (Hh k) as Hhk. unfold held in Hhk. rewrite Hacc1.
  destruct (next_states w1 !! k) as [b|] eqn:En.
  - destruct (script_states sc m !! k) as [s|]; [|done]. cbn in *. rewrite option_guard_True; [done|]. rewrite <- Hacc1. apply Hk. by rewrite En.
  - case_bool_decide as Hin.
    + rewrite Hhk. destruct (script_states sc m !! k) as [s|]; [|done]. cbn. by rewrite option_guard_True.
    + destruct (script_states sc m !! k) as [s|]; [|done]. cbn. by rewrite option_guard_False.
Qed.

(** C22: whatever elements do with their states in a number of frames, with parts taken over
    from the last frame, and with calls inside calls, but none for a state inside a call that
    has it (whose doc forbids it; [TestStates.reentrant_call] shows what it does), nothing
    panics, and the frame shown at the end holds the states of one map, which each access
    updates, starting from the state of before if there is one, and from which the end of a
    frame drops the states neither accessed nor taken over in it: a state lives as long as its
    element is met in every frame. *)
Theorem element_states_refine (frames : list Script) (w : Win) (m : States) :
  frame_ready w m -> Forall not_reentrant frames ->
  exists w', ofold run_frame frames w = Ok w' /\ frame_ready w' (foldl frame_states m frames).
Proof using.
  intros Hw Hre. revert w m Hw. induction Hre as [|sc frames Hsc _ IH]; intros w m Hw; [by exists w|]. cbn [ofold foldl].
  destruct (run_frame_ok w m sc Hw Hsc) as (w1 & -> & Hw1). cbn [obind]. by apply IH.
Qed.
End States.

(** ** Witness *)

Module TestStates.
Import TestFrame.

Definition count_visits (s : option nat) : nat := S (default 0 s).

(** The element 1 draws the element 2 inside it; then it is drawn alone while 2 is taken
    over; and then 2 is no longer met. *)
Definition three_frames : list (Script (StateKey := nat) (ElementState := nat)) :=
  [ScriptAccess 1 count_visits (ScriptAccess 2 count_visits ScriptEnd ScriptEnd) ScriptEnd;
   ScriptAccess 1 count_visits ScriptEnd (ScriptReuse [2] ScriptEnd);
   ScriptAccess 1 count_visits ScriptEnd ScriptEnd].

Lemma element_states_refine_witness :
  exists w, ofold run_frame (take 2 three_frames) test_window = Ok w /\ element_states (rendered_frame w) = {[1 := Some 2; 2 := Some 1]} /\
  exists w', ofold run_frame three_frames test_window = Ok w' /\ element_states (rendered_frame w') = {[1 := Some 3]}.
Proof.
  assert (Hr : frame_ready test_window ∅) by (split_and!; by vm_compute).
  assert (Hre : Forall not_reentrant three_frames) by (repeat constructor; apply (bool_decide_eq_true_1 (_ ∉ _)); by vm_compute).
  destruct (element_states_refine (take 2 three_frames) test_window ∅ Hr (Forall_take _ 2 _ Hre)) as (w & E & _ & _ & Hs).
  destruct (element_states_refine three_frames test_window ∅ Hr Hre) as (w' & E' & _ & _ & Hs').
  exists w. split; [done|]. split; [rewrite Hs; by vm_compute|]. exists w'. split; [done|]. rewrite Hs'. by vm_compute.
Defined.

(** A call for the state of the call around it is given none, and what it leaves is
    overwritten. *)
Example reentrant_call :
  let visit := ScriptAccess 1 count_visits ScriptEnd ScriptEnd in
  let reenter := ScriptAccess 1 count_visits (ScriptAccess 1 (fun s => 10 * count_visits s) ScriptEnd ScriptEnd) ScriptEnd in
  match ofold run_frame [visit; visit; reenter] test_window with Ok w => element_states (rendered_frame w) | _ => ∅ end = {[1 := Some 3]}.
Proof. by vm_compute. Qed.
End TestStates.
