(* ===== verification/FrameReuse.v ===== *)
(** * FrameReuse: what a frame takes over from the last one

    A range of a frame that is recorded around prepainting keeps its content while the frame
    grows, is still there when the frame is shown, and can be appended to the next frame;
    and what a failed transaction has left is gone. *)

From Stdlib Require Import NArith ZArith.
From S2P Require Import Geometry Scene.
From stdpp Require Import base list option numbers gmap.
From S2P Require Import Prelude Sorting Geometry Frame FrameParts.

#[local] Set Warnings "-register-all,-clear-no-such-hyp".

(** ** Slices *)

Lemma slice_range_Some {A} (l : list A) a b x : slice_range l a b = Ok x <-> a <= b <= length l /\ x = take (b - a) (drop a l).
Proof.
  unfold slice_range. destruct (Nat.leb_spec a b), (Nat.leb_spec b (length l)); cbn [andb]; (split; [intros E; try discriminate E|intros [? ->]]); try lia; try done.
  by injection E as <-.
Qed.

Lemma slice_range_prefix {A} (l l' : list A) a b x : slice_range l a b = Ok x -> l `prefix_of` l' -> slice_range l' a b = Ok x.
Proof.
  rewrite !slice_range_Some. intros [Hab ->] [k ->]. rewrite length_app. split; [lia|].
  rewrite drop_app_le by lia. rewrite take_app_le; [done|]. rewrite length_drop. lia.
Qed.

Lemma slice_range_end {A} (l x : list A) : slice_range (l ++ x) (length l) (length (l ++ x)) = Ok x.
Proof. apply slice_range_Some. rewrite length_app. split; [lia|]. rewrite drop_app_length, firstn_all2; [done|lia]. Qed.

(** A range apart from one that has been taken. *)
Lemma slice_range_taken {A} (l : list (option A)) s e taken left a b x :
  take_range l s e = Ok (taken, left) -> slice_range l a b = Ok x -> b <= s \/ e <= a -> slice_range left a b = Ok x.
Proof.
  unfold take_range. destruct (slice_range l s e) as [t| |] eqn:Es; cbn [obind]; try done. intros [= -> <-].
  apply slice_range_Some in Es as [Hse ->]. rewrite !slice_range_Some. intros [Hab ->] Hd.
  set (t := take (e - s) (drop s l)). assert (Ht : length t = e - s) by (unfold t; rewrite length_take, length_drop; lia).
  split; [rewrite !length_app, length_map, length_take, length_drop; lia|].
  destruct (decide (b <= s)) as [Hbs|Hbs].
  - rewrite drop_app_le by (rewrite length_take; lia). rewrite take_app_le by (rewrite length_drop, length_take; lia).
    rewrite skipn_firstn_comm, take_take. f_equal. lia.
  - assert (e <= a \/ b = a /\ a < e) as [Hea|[-> _]] by lia; [|by rewrite Nat.sub_diag].
    rewrite app_assoc, drop_app_ge by (rewrite length_app, length_map, length_take; lia).
    rewrite length_app, length_map, length_take, drop_drop. do 2 f_equal. lia.
Qed.

Section Reuse.
Context {Tree Reused Scn Tabs Text TextIndex Cx Layout : Type}.
Context `{FrameTreeLaws Tree Reused} `{FrameScene Scn} `{FrameTabs Tabs} `{FrameTextLaws Text TextIndex}.
Context {StateKey ElementState : Type} `{!EqDecision StateKey, !Countable StateKey}.
Context {Element WinView MouseListener InputHandler Tooltip ElementId TextStyle CursorStyle : Type}.

Abbreviation Win := (Window (Tree := Tree) (Scn := Scn) (Tabs := Tabs) (Text := Text) (TextIndex := TextIndex) (Cx := Cx) (Layout := Layout) (StateKey := StateKey)
  (ElementState := ElementState) (Element := Element) (View := WinView) (MouseListener := MouseListener) (InputHandler := InputHandler) (Tooltip := Tooltip)
  (ElementId := ElementId) (TextStyle := TextStyle) (CursorStyle := CursorStyle)).
Abbreviation Frm := (Frame.Frame (Tree := Tree) (Scn := Scn) (Tabs := Tabs) (TextIndex := TextIndex) (StateKey := StateKey)
  (ElementState := ElementState) (Element := Element) (MouseListener := MouseListener) (InputHandler := InputHandler) (Tooltip := Tooltip)
  (ElementId := ElementId) (TextStyle := TextStyle) (CursorStyle := CursorStyle)).
Abbreviation Draw := (DeferredDraw (TextIndex := TextIndex) (Element := Element) (ElementId := ElementId) (TextStyle := TextStyle)).
Abbreviation Range := (PrepaintStateIndex (TextIndex := TextIndex) * PrepaintStateIndex (TextIndex := TextIndex))%type.

Implicit Types (w : Win) (f : Frm) (r : Range).

(** ** Contents *)

(** A deferred draw as it is taken over: without its element, the node counted from [base]. *)
Definition draw_from (base : nat) (d : Draw) : Draw :=
  mkDeferred (draw_view d) (draw_priority d) (parent_node d - base) (draw_id_stack d) (draw_style_stack d) None (draw_offset d)
    (draw_prepaint_range d) (draw_paint_range d).

(** What prepainting leaves in a frame. *)
Record Content := mkContent {
  c_hitboxes : list Hitbox;
  c_tooltips : list (option (TooltipRequest (Tooltip := Tooltip)));
  c_keys : list StateKey;
  c_draws : list Draw;
  c_nodes : nat;
}.

Abbreviation tree w := (dispatch_tree (next_frame w)).

Definition draws_within (lo hi : nat) (ds : list Draw) : Prop := Forall (fun d => lo <= parent_node d < hi) ds.

(** A range of a frame with its content; the text is that of the window. *)
Record laid f r (c : Content) : Prop := mkLaid {
  la_hitboxes : slice_range (hitboxes f) (hitboxes_index r.1) (hitboxes_index r.2) = Ok (c_hitboxes c);
  la_tooltips : slice_range (tooltip_requests f) (tooltips_index r.1) (tooltips_index r.2) = Ok (c_tooltips c);
  la_keys : slice_range (accessed_element_states f) (prepaint_accessed_index r.1) (prepaint_accessed_index r.2) = Ok (c_keys c);
  la_draws : exists ds, slice_range (deferred_draws f) (deferred_draws_index r.1) (deferred_draws_index r.2) = Ok ds /\
    map (draw_from (dispatch_tree_index r.1)) ds = c_draws c /\ draws_within (dispatch_tree_index r.1) (dispatch_tree_index r.2) ds;
  la_range : tree_range (dispatch_tree f) (dispatch_tree_index r.1) (dispatch_tree_index r.2);
  la_nodes : dispatch_tree_index r.2 = dispatch_tree_index r.1 + c_nodes c;
  la_tree : dispatch_tree_index r.2 <= tree_len (dispatch_tree f);
}.

(** The next frame has grown. *)
Record grows w w' : Prop := mkGrows {
  gw_hitboxes : hitboxes (next_frame w) `prefix_of` hitboxes (next_frame w');
  gw_tooltips : tooltip_requests (next_frame w) `prefix_of` tooltip_requests (next_frame w');
  gw_keys : accessed_element_states (next_frame w) `prefix_of` accessed_element_states (next_frame w');
  gw_draws : deferred_draws (next_frame w) `prefix_of` deferred_draws (next_frame w');
  gw_tree : tree_grown (tree w) (tree w');
  gw_text : text_grown (text_system w) (text_system w');
}.

(** It has grown by a content. *)
Record added w w' (c : Content) : Prop := mkAdded {
  ad_hitboxes : hitboxes (next_frame w') = hitboxes (next_frame w) ++ c_hitboxes c;
  ad_tooltips : tooltip_requests (next_frame w') = tooltip_requests (next_frame w) ++ c_tooltips c;
  ad_keys : accessed_element_states (next_frame w') = accessed_element_states (next_frame w) ++ c_keys c;
  ad_draws : exists ds, deferred_draws (next_frame w') = deferred_draws (next_frame w) ++ ds /\
    map (draw_from (tree_len (tree w))) ds = c_draws c /\ draws_within (tree_len (tree w)) (tree_len (tree w')) ds;
  ad_nodes : tree_len (tree w') = tree_len (tree w) + c_nodes c;
  ad_tree : tree_grown (tree w) (tree w');
  ad_text : text_grown (text_system w) (text_system w');
}.

Lemma added_grows w w' c : added w w' c -> grows w w'.
Proof using.
  intros [Hh Ht Hk (ds & Hd & _) _ Htr Hx]. split; try done; rewrite ?Hh, ?Ht, ?Hk, ?Hd; by eexists.
Qed.

Lemma grows_refl w : tree_ok (tree w) -> grows w w.
Proof using. intros Ht. split; try done; [by apply tree_grown_refl|apply text_grown_refl]. Qed.

Lemma grows_trans w1 w2 w3 : grows w1 w2 -> grows w2 w3 -> grows w1 w3.
Proof using.
  intros [] []. split; [by etransitivity..|by eapply tree_grown_trans|by eapply text_grown_trans].
Qed.

Lemma laid_grows w w' r c : laid (next_frame w) r c -> grows w w' -> laid (next_frame w') r c.
Proof using.
  intros [Hh Ht Hk (ds & Hd & Hm & Hw) Hr Hn Htr] Hg. split.
  - by eapply slice_range_prefix; [done|apply Hg].
  - by eapply slice_range_prefix; [done|apply Hg].
  - by eapply slice_range_prefix; [done|apply Hg].
  - exists ds. split; [|done]. by eapply slice_range_prefix; [done|apply Hg].
  - by eapply tree_range_grown, Hg.
  - done.
  - pose proof (tree_grown_len _ _ (gw_tree _ _ Hg)). lia.
Qed.

(** ** Recording *)

Lemma prepaint_index_ok w : let (w', i) := prepaint_index w in
  w' = set_text_system (text_layout_index (text_system w)).1 w /\ hitboxes_index i = length (hitboxes (next_frame w)) /\
  tooltips_index i = length (tooltip_requests (next_frame w)) /\ deferred_draws_index i = length (deferred_draws (next_frame w)) /\
  dispatch_tree_index i = tree_len (tree w) /\ prepaint_accessed_index i = length (accessed_element_states (next_frame w)) /\
  prepaint_line_index i = (text_layout_index (text_system w)).2.
Proof using. unfold prepaint_index. by destruct (text_layout_index (text_system w)). Qed.

Lemma prepaint_index_grows w : tree_ok (tree w) -> grows w (prepaint_index w).1.
Proof using.
  intros Ht. pose proof (prepaint_index_ok w) as Hi. destruct (prepaint_index w) as [w' i]. destruct Hi as (-> & _). cbn [fst].
  split; try done; [by apply tree_grown_refl|apply text_index_grown].
Qed.

(** The range around what has been added. *)
Lemma laid_recorded w w' c : added (prepaint_index w).1 w' c -> laid (next_frame (prepaint_index w').1) ((prepaint_index w).2, (prepaint_index w').2) c.
Proof using.
  pose proof (prepaint_index_ok w) as Hi. destruct (prepaint_index w) as [w1 i]. destruct Hi as (-> & Eh & Et & Ed & En & Ek & _).
  pose proof (prepaint_index_ok w') as Hj. destruct (prepaint_index w') as [w2 j]. destruct Hj as (-> & Fh & Ft & Fd & Fn & Fk & _). cbn [fst snd].
  intros [Hh Ht Hk (ds & Hd & Hm & Hw) Hn Htr Hx]. cbn [next_frame set_text_system] in *.
  split; cbn [fst snd next_frame set_text_system]; rewrite ?Eh, ?Et, ?Ed, ?En, ?Ek, ?Fh, ?Ft, ?Fd, ?Fn, ?Fk, ?Hh, ?Ht, ?Hk.
  - apply slice_range_end.
  - apply slice_range_end.
  - apply slice_range_end.
  - exists ds. rewrite Hd. split; [apply slice_range_end|done].
  - by apply tree_grown_range.
  - done.
  - done.
Qed.

(** ** Taking over *)

(** What the frame shown keeps when a range is taken over. *)
Record left_shown r w w' : Prop := mkLeftShown {
  ls_hitboxes : hitboxes (rendered_frame w') = hitboxes (rendered_frame w);
  ls_keys : accessed_element_states (rendered_frame w') = accessed_element_states (rendered_frame w);
  ls_draws : deferred_draws (rendered_frame w') = deferred_draws (rendered_frame w);
  ls_states : element_states (rendered_frame w') = element_states (rendered_frame w);
  ls_tooltips : exists taken,
    take_range (tooltip_requests (rendered_frame w)) (tooltips_index r.1) (tooltips_index r.2) = Ok (taken, tooltip_requests (rendered_frame w'));
  ls_tree : tree_ok (dispatch_tree (rendered_frame w'));
  ls_len : tree_len (dispatch_tree (rendered_frame w')) = tree_len (dispatch_tree (rendered_frame w));
  ls_range lo hi : tree_range (dispatch_tree (rendered_frame w)) lo hi -> tree_range (dispatch_tree (rendered_frame w')) lo hi;
}.

(** Two ranges that share no tooltip. *)
Definition apart r r' : Prop := tooltips_index r.2 <= tooltips_index r'.1 \/ tooltips_index r'.2 <= tooltips_index r.1.

Lemma laid_left r r' c w w' : laid (rendered_frame w) r' c -> left_shown r w w' -> apart r r' -> laid (rendered_frame w') r' c.
Proof using.
  intros [Hh Ht Hk Hd Hr Hn Htr] [Lh Lk Ld _ (taken & Lt) _ Ll Lr] Ha. split; rewrite ?Lh, ?Lk, ?Ld, ?Ll; try done; [|by apply Lr].
  eapply slice_range_taken; [exact Lt|exact Ht|]. unfold apart in Ha. lia.
Qed.

(** What a draw becomes. *)
Definition draw_moved (lo base : nat) (d : Draw) : Draw :=
  mkDeferred (draw_view d) (draw_priority d) (base + (parent_node d - lo)) (draw_id_stack d) (draw_style_stack d) None (draw_offset d)
    (draw_prepaint_range d) (draw_paint_range d).

Lemma reused_draws (x : Reused) lo hi base ds : (forall i, lo <= i < hi -> reused_node_id x i = Ok (base + (i - lo))) ->
  draws_within lo hi ds -> traverse (reused_draw x) ds = Ok (map (draw_moved lo base) ds).
Proof using.
  intros Hx Hds. apply traverse_Ok. eapply Forall_impl; [exact Hds|]. intros d Hd. unfold reused_draw. by rewrite Hx.
Qed.

Lemma moved_draws lo hi base n ds : hi = lo + n -> draws_within lo hi ds ->
  map (draw_from base) (map (draw_moved lo base) ds) = map (draw_from lo) ds /\ draws_within base (base + n) (map (draw_moved lo base) ds).
Proof using.
  intros -> Hds. split.
  - rewrite map_map. apply map_ext. intros d. unfold draw_from, draw_moved. cbn. f_equal. lia.
  - unfold draws_within in *. induction Hds as [|d ds Hd Hds IH]; constructor; [cbn; lia|done].
Qed.

(** The stacks and the rest of the state that elements only change for their children; and
    what drawing does not change at all, but for views that are rendered. *)
Definition place w :=
  (content_mask_stack w, viewport_size w, text_style_stack w, element_id_stack w, element_offset_stack w, rendered_entity_stack w).
Definition mode w := (dirty_views w, refreshing w).

Lemma reuse_prepaint_ok r c w :
  laid (rendered_frame w) r c -> text_range (text_system w) (prepaint_line_index r.1) (prepaint_line_index r.2) ->
  tree_ok (tree w) -> tree_ok (dispatch_tree (rendered_frame w)) ->
  exists w', reuse_prepaint r w = Ok w' /\ added w w' c /\ left_shown r w w' /\ place w' = place w /\ mode w' = mode w /\
    element_states (next_frame w') = element_states (next_frame w).
Proof using.
  destruct r as [i j]. intros [Hh Ht Hk (ds & Hd & Hm & Hw) Hr Hn Htr] Hx Hok Hok'. cbn [fst snd] in *. unfold reuse_prepaint.
  destruct (text_reuse_grown _ _ _ Hx) as (text & Etext & Hgrown).
  destruct (tree_reuse_range (tree w) (dispatch_tree (rendered_frame w)) _ _ (win_focus w) Hok Hok' Hr Htr)
    as (t & source & x & Ereuse & Hg & Hsrc & Hlen & Hranges & Hlen' & Hids).
  unfold take_range. rewrite Hh, Ht, Hk, Hd, Etext, Ereuse. cbn [obind].
  rewrite (reused_draws x _ _ (tree_len (tree w)) ds Hids Hw). cbn [obind].
  destruct (moved_draws _ _ (tree_len (tree w)) (c_nodes c) ds Hn Hw) as [Hm' Hw'].
  assert (Hn' : tree_len t = tree_len (tree w) + c_nodes c) by lia. eexists. split; [reflexivity|]. split_and!; try done.
  - split; try done. exists (map (draw_moved (dispatch_tree_index i) (tree_len (tree w))) ds). split; [done|]. split; [by rewrite Hm'|].
    cbn. by rewrite Hn'.
  - split; try done. exists (c_tooltips c). unfold take_range. cbn. by rewrite Ht.
Qed.

(** ** Transactions *)

Lemma take_prefix {A} (l l' : list A) : l `prefix_of` l' -> take (length l) l' = l.
Proof using. intros [k ->]. apply take_app_length. Qed.

(** C26: code that fails in a transaction, and that closed the nodes of the dispatch tree it
    opened, leaves nothing: the hitboxes, the tooltips, the deferred draws and the accessed
    states of the next frame are those of before, and so are the nodes of the dispatch tree,
    its open nodes, and the places in the caches of lines; what a transaction that succeeds
    did is kept.  The code only adds to what is in the frame, and no font is added while it
    runs.  The states of elements and the frame shown are left as the code leaves them. *)
Theorem transact_correct {T U} (f : Win -> outcome (Win * (T + U))) w w' x :
  f (prepaint_index w).1 = Ok (w', x) -> grows (prepaint_index w).1 w' -> text_fonts (text_system w') = text_fonts (text_system w) ->
  match x with
  | inl _ => transact f w = Ok (w', x)
  | inr _ => exists w'', transact f w = Ok (w'', x) /\
      hitboxes (next_frame w'') = hitboxes (next_frame w) /\ tooltip_requests (next_frame w'') = tooltip_requests (next_frame w) /\
      deferred_draws (next_frame w'') = deferred_draws (next_frame w) /\
      accessed_element_states (next_frame w'') = accessed_element_states (next_frame w) /\
      tree_same (tree w) (tree w'') /\ text_grown (text_system w) (text_system w'') /\
      (text_layout_index (text_system w'')).2 = (text_layout_index (text_system w)).2 /\
      rendered_frame w'' = rendered_frame w' /\ element_states (next_frame w'') = element_states (next_frame w')
  end.
Proof using.
  unfold transact. pose proof (prepaint_index_ok w) as Hi. destruct (prepaint_index w) as [w1 i].
  destruct Hi as (-> & Eh & Et & Ed & En & Ek & El). cbn [fst snd]. intros -> [Hh Ht Hk Hd Htr Hx] Hf. cbn [obind next_frame text_system set_text_system] in *.
  destruct x as [x|x]; [done|]. destruct (tree_truncate_grown _ _ Htr) as (t & E & Hs). rewrite En, E. cbn [obind].
  eexists. split; [reflexivity|]. cbn. rewrite Eh, Et, Ed, Ek, El, !take_prefix by done. split_and!; try done.
  - by apply text_truncate_grown.
  - by apply text_truncate_index.
Qed.
End Reuse.

(** ** Witness, and what a transaction does not undo *)

Module TestReuse.
Import TestFrame.

(** A hitbox and a tooltip, and failure. *)
Definition failing (w : TestWindow) : outcome (TestWindow * (unit + unit)) :=
  let (w, _) := insert_hitbox (mkBounds (mkPoint 0 0) (mkSize 30 30)) HitNormal w in
  let (w, _) := set_tooltip 5 w in
  Ok (w, inr tt).

Lemma transact_correct_witness :
  exists w, transact failing boxed_window = Ok (w, inr tt) /\ length (hitboxes (next_frame w)) = 3 /\ tooltip_requests (next_frame w) = [].
Proof.
  assert (Ht : tree_ok (dispatch_tree (next_frame boxed_window))) by apply DispatchInvariant.tree_new_wf.
  assert (Hg : grows (prepaint_index boxed_window).1 (set_tooltip 5 (insert_hitbox (mkBounds (mkPoint 0 0) (mkSize 30 30)) HitNormal
    (prepaint_index boxed_window).1).1).1).
  { split; first [done|by eexists|by apply tree_grown_refl|apply text_grown_refl]. }
  destruct (transact_correct failing boxed_window _ (inr tt) eq_refl Hg eq_refl) as (w & E & Hh & Htt & _).
  exists w. split; [done|]. rewrite Hh, Htt. split; by vm_compute.
Defined.

(** The frame shown has a tooltip.  What a transaction takes over is not given back when it
    fails: when the range is taken over again, the tooltip is gone. *)
Definition tipped : TestWindow := map_rendered (set_tooltip_requests [Some (mkTooltip 0 5)]) test_window.

Definition tip_range : PrepaintStateIndex (TextIndex := LineCache.LineLayoutIndex) * PrepaintStateIndex (TextIndex := LineCache.LineLayoutIndex) :=
  (mkPrepaintIndex 0 0 0 0 0 (LineCache.mkIndex 0 0 0), mkPrepaintIndex 0 1 0 0 0 (LineCache.mkIndex 0 0 0)).

Definition tooltips_after (w : outcome TestWindow) : outcome (list (option nat)) :=
  let! w := w in Ok (map (option_map tooltip) (tooltip_requests (next_frame w))).

Example transact_loses_tooltip :
  tooltips_after (reuse_prepaint tip_range tipped) = Ok [Some 5] /\
  tooltips_after (let! (w, _) := transact (fun w => let! w := reuse_prepaint tip_range w in Ok (w, inr tt : unit + unit)) tipped in
                  reuse_prepaint tip_range w) = Ok [None].
Proof. by vm_compute. Qed.
End TestReuse.
