(* ===== verification/Drawable.v ===== *)
(** * Drawable: elements as they are drawn, [crates/gpui/src/element.rs], and views, [crates/gpui/src/view.rs]

    An element is laid out, prepainted and painted, in this order and once each; [Drawable]
    holds it with the phase that it is in, and a node of the dispatch tree is open while it is
    prepainted.  A view that is cached keeps the ranges of what it left in the last frame and
    takes them over while nothing it depends on has changed.  The layout engine, which is
    that of a library, the elements that a view renders and the refinement of text styles are
    parameters.  The nodes of accessibility and the inspector are left out. *)

From Stdlib Require Import NArith ZArith.
From S2P Require Import Geometry Scene.
From stdpp Require Import base list option numbers gmap.
From S2P Require Import Prelude Sorting Geometry Frame.

#[local] Set Warnings "-register-all,-clear-no-such-hyp".

Section Drawable.
Context {Tree Reused Scn Tabs Text TextIndex Cx Layout : Type}.
Context `{FrameTree Tree Reused} `{FrameScene Scn} `{FrameTabs Tabs} `{FrameText Text TextIndex} `{FrameApp Cx Tracked} `{FrameLayout Layout LayoutId}.
Context {StateKey ElementState : Type} `{!EqDecision StateKey, !Countable StateKey}.
Context {AnyElement WinView MouseListener InputHandler Tooltip ElementId TextStyle CursorStyle : Type}.

Abbreviation Win := (Window (Tree := Tree) (Scn := Scn) (Tabs := Tabs) (Text := Text) (TextIndex := TextIndex) (Cx := Cx) (Layout := Layout) (StateKey := StateKey)
  (ElementState := ElementState) (Element := AnyElement) (View := WinView) (MouseListener := MouseListener) (InputHandler := InputHandler) (Tooltip := Tooltip)
  (ElementId := ElementId) (TextStyle := TextStyle) (CursorStyle := CursorStyle)).
Abbreviation GlobalElementId := (list ElementId).

Implicit Types (w : Win).

(** ** The phases of an element *)

Context {AvailableSpace : Type} `{!EqDecision AvailableSpace}.
(** Layout, which measures elements. *)
Class ComputeLayout := { compute_layout : LayoutId -> AvailableSpace -> Win -> outcome Win }.
Context `{!ComputeLayout}.

(** The trait [Element]. *)
Class ElementOps (E RequestLayoutState PrepaintState : Type) := {
  element_id : E -> option ElementId;
  element_request_layout : E -> option GlobalElementId -> Win -> outcome (Win * (E * LayoutId * RequestLayoutState));
  element_prepaint : E -> option GlobalElementId -> Bounds -> RequestLayoutState -> Win -> outcome (Win * (E * RequestLayoutState * PrepaintState));
  element_paint : E -> option GlobalElementId -> Bounds -> RequestLayoutState -> PrepaintState -> Win ->
    outcome (Win * (E * RequestLayoutState * PrepaintState));
}.

(** The trait [ElementObject]. *)
Class ElementObject (O : Type) := {
  object_request_layout : O -> Win -> outcome (Win * (O * LayoutId));
  object_prepaint : O -> Win -> outcome (Win * O);
  object_paint : O -> Win -> outcome (Win * O);
  object_layout_as_root : O -> AvailableSpace -> Win -> outcome (Win * (O * Size));
}.

Section Phases.
Context `{ElementOps E RequestLayoutState PrepaintState}.

Inductive ElementDrawPhase :=
  | Start
  | RequestLayout (layout_id : LayoutId) (global_id : option GlobalElementId) (request_layout : RequestLayoutState)
  | LayoutComputed (layout_id : LayoutId) (global_id : option GlobalElementId) (available_space : AvailableSpace) (request_layout : RequestLayoutState)
  | Prepaint (node_id : NodeId) (global_id : option GlobalElementId) (bounds : Bounds) (request_layout : RequestLayoutState) (prepaint : PrepaintState)
  | Painted.

Record Drawable := mkDrawable { element : E; phase : ElementDrawPhase }.

Definition drawable_new (e : E) : Drawable := mkDrawable e Start.

Definition push_element_id (id : option ElementId) w : Win :=
  match id with Some i => set_element_id_stack (element_id_stack w ++ [i]) w | None => w end.
Definition pop_element_id (global_id : option GlobalElementId) w : Win :=
  match global_id with Some _ => set_element_id_stack (removelast (element_id_stack w)) w | None => w end.

Definition request_layout (d : Drawable) w : outcome (Win * (Drawable * LayoutId)) :=
  match phase d with
  | Start =>
      let w := push_element_id (element_id (element d)) w in
      let global_id := option_map (fun _ => element_id_stack w) (element_id (element d)) in
      let! (w, (e, layout_id, state)) := element_request_layout (element d) global_id w in
      Ok (pop_element_id global_id w, (mkDrawable e (RequestLayout layout_id global_id state), layout_id))
  | _ => Panic
  end.

Definition prepaint_laid_out (e : E) (layout_id : LayoutId) (global_id : option GlobalElementId) (state : RequestLayoutState) w :
    outcome (Win * Drawable) :=
  let (w, bounds) := layout_bounds layout_id (push_element_id (element_id e) w) in
  let (tree, node_id) := tree_push_node (dispatch_tree (next_frame w)) in
  let! (w, (e, state, prepaint)) := element_prepaint e global_id bounds state (map_next (set_dispatch_tree tree) w) in
  let! tree := tree_pop_node (dispatch_tree (next_frame w)) in
  Ok (pop_element_id global_id (map_next (set_dispatch_tree tree) w), mkDrawable e (Prepaint node_id global_id bounds state prepaint)).

Definition prepaint (d : Drawable) w : outcome (Win * Drawable) :=
  match phase d with
  | RequestLayout layout_id global_id state | LayoutComputed layout_id global_id _ state => prepaint_laid_out (element d) layout_id global_id state w
  | _ => Panic
  end.

Definition paint (d : Drawable) w : outcome (Win * (Drawable * (RequestLayoutState * PrepaintState))) :=
  match phase d with
  | Prepaint node_id global_id bounds state prepaint =>
      let w := push_element_id (element_id (element d)) w in
      let! tree := tree_set_active_node (dispatch_tree (next_frame w)) node_id in
      let! (w, (e, state, prepaint)) := element_paint (element d) global_id bounds state prepaint (map_next (set_dispatch_tree tree) w) in
      Ok (pop_element_id global_id w, (mkDrawable e Painted, (state, prepaint)))
  | _ => Panic
  end.

(** The layout is computed again only for another space. *)
Definition layout_as_root (d : Drawable) (available_space : AvailableSpace) w : outcome (Win * (Drawable * Size)) :=
  let! (w, d) :=
    match phase d with
    | Start => let! (w, (d, _)) := request_layout d w in Ok (w, d)
    | _ => Ok (w, d)
    end in
  let! (w, (layout_id, phase)) :=
    match phase d with
    | RequestLayout layout_id global_id state =>
        let! w := compute_layout layout_id available_space w in
        Ok (w, (layout_id, LayoutComputed layout_id global_id available_space state))
    | LayoutComputed layout_id global_id prev_available_space state =>
        let! w := if bool_decide (available_space = prev_available_space) then Ok w else compute_layout layout_id available_space w in
        Ok (w, (layout_id, LayoutComputed layout_id global_id available_space state))
    | _ => Panic
    end in
  let (w, b) := layout_bounds layout_id w in
  Ok (w, (mkDrawable (element d) phase, size b)).

#[export] Instance drawable_object : ElementObject Drawable := {|
  object_request_layout := request_layout;
  object_prepaint := prepaint;
  object_paint d w := let! (w, (d, _)) := paint d w in Ok (w, d);
  object_layout_as_root := layout_as_root;
|}.
End Phases.

(** ** Elements of any type *)

Section AnyElement.
Context `{!ElementObject AnyElement}.

Class FocusHandles (FocusHandle : Type) := { focus_handle_for_id : FocusId -> Cx -> option FocusHandle }.
Context `{FocusHandles FocusHandle}.

(** A handle is returned where the element is the first that is focused. *)
Definition any_prepaint (e : AnyElement) w : outcome (Win * (AnyElement * option FocusHandle)) :=
  let focus_assigned := match focus (next_frame w) with Some _ => true | None => false end in
  let! (w, e) := object_prepaint e w in
  Ok (w, (e, match focus (next_frame w) with
             | Some id => if focus_assigned then None else focus_handle_for_id id (cx w)
             | None => None
             end)).

Definition any_prepaint_at (e : AnyElement) (origin : Point) w : outcome (Win * (AnyElement * option FocusHandle)) :=
  with_absolute_element_offset origin (any_prepaint e) w.

Definition any_prepaint_as_root (e : AnyElement) (origin : Point) (available_space : AvailableSpace) w :
    outcome (Win * (AnyElement * option FocusHandle)) :=
  let! (w, (e, _)) := object_layout_as_root e available_space w in
  with_absolute_element_offset origin (any_prepaint e) w.

#[export] Instance any_element_ops : ElementOps AnyElement unit unit := {|
  element_id _ := None;
  element_request_layout e _ w := let! (w, (e, layout_id)) := object_request_layout e w in Ok (w, (e, layout_id, tt));
  element_prepaint e _ _ state w := let! (w, (e, _)) := any_prepaint e w in Ok (w, (e, state, tt));
  element_paint e _ _ state p w := let! (w, e) := object_paint e w in Ok (w, (e, state, p));
|}.

(** ** Views *)

Class TextStyles (ComputedTextStyle : Type) := {
  text_style_default : ComputedTextStyle;
  text_style_refine : ComputedTextStyle -> TextStyle -> ComputedTextStyle;
}.
Context `{TextStyles ComputedTextStyle} `{!EqDecision ComputedTextStyle}.

Definition text_style w : ComputedTextStyle := foldl text_style_refine text_style_default (text_style_stack w).

Record ViewCacheKey := mkViewKey {
  key_bounds : Bounds;
  key_content_mask : ContentMask;
  key_text_style : ComputedTextStyle;
}.

Record AnyViewState := mkViewState {
  prepaint_range : PrepaintStateIndex (TextIndex := TextIndex) * PrepaintStateIndex (TextIndex := TextIndex);
  paint_range : PaintIndex (TextIndex := TextIndex) * PaintIndex (TextIndex := TextIndex);
  cache_key : ViewCacheKey;
  accessed_entities : gset Tracked;
}.

(** The layout of an element without children, a size as the space for one, and whether the
    inspector is at work. *)
Class ViewLayout (Style : Type) := {
  request_leaf_layout : Style -> Win -> Win * LayoutId;
  space_of : Size -> AvailableSpace;
  is_inspector_picking : Win -> bool;
}.
Context `{ViewLayout Style}.

(** [ElementId::View]; the key of a view's state, and the state in its box. *)
Class ViewKeys := {
  view_element_id : EntityId -> ElementId;
  view_state_key : GlobalElementId -> StateKey;
  box_state : AnyViewState -> ElementState;
  unbox_state : ElementState -> option AnyViewState;
}.
Context `{!ViewKeys}.

Record AnyView := mkAnyView {
  entity : EntityId;
  render : Win -> outcome (Win * AnyElement);
  cached_style : option Style;
}.

Definition cached (v : AnyView) (style : Style) : AnyView := mkAnyView (entity v) (render v) (Some style).

Definition view_eq (v v' : AnyView) : bool := (entity v =? entity v')%N.

(** A view that is not a cached one, [impl Element for Entity<V>]; its rendering is that of the
    entity. *)
#[export] Instance entity_ops (render : EntityId -> Win -> outcome (Win * AnyElement)) : ElementOps EntityId AnyElement unit := {|
  element_id e := Some (view_element_id e);
  element_request_layout id _ w :=
    let! (w, e) := render id w in
    let! (w, (e, layout_id)) := with_rendered_view id (object_request_layout e) w in
    Ok (w, (id, layout_id, e));
  element_prepaint id _ _ e w :=
    let! w := set_view_id id w in
    let! (w, (e, _)) := with_rendered_view id (any_prepaint e) w in
    Ok (w, (id, e, tt));
  element_paint id _ _ e p w := let! (w, e) := with_rendered_view id (object_paint e) w in Ok (w, (id, e, p));
|}.

Definition view_request_layout (v : AnyView) (_ : option GlobalElementId) w : outcome (Win * (AnyView * LayoutId * option AnyElement)) :=
  with_rendered_view (entity v) (fun w =>
    let uncached :=
      let! (w, e) := render v w in
      let! (w, (e, layout_id)) := object_request_layout e w in
      Ok (w, (v, layout_id, Some e)) in
    match cached_style v with
    | Some style =>
        if is_inspector_picking w then uncached
        else let (w, layout_id) := request_leaf_layout style w in Ok (w, (v, layout_id, None))
    | None => uncached
    end) w.

(** Nothing that the view depends on has changed. *)
Definition can_reuse (id : EntityId) (s : AnyViewState) (bounds : Bounds) w : bool :=
  bool_decide (key_bounds (cache_key s) = bounds) && bool_decide (key_content_mask (cache_key s) = content_mask w) &&
  bool_decide (key_text_style (cache_key s) = text_style w) && negb (bool_decide (id ∈ dirty_views w)) && negb (refreshing w).

(** [detect_accessed_entities] *)
Definition detect_accessed_entities {R} (callback : Win -> outcome (Win * R)) w : outcome (Win * (R * gset Tracked)) :=
  let accessed_entities_start := cx_accessed (cx w) in
  let! (w, r) := callback w in
  Ok (w, (r, cx_accessed (cx w) ∖ accessed_entities_start)).

(** The view is rendered anew, and all that is cached below it. *)
Definition render_view (v : AnyView) (bounds : Bounds) w : outcome (Win * (option AnyElement * ElementState)) :=
  let mask := content_mask w in
  let style := text_style w in
  let refreshing_before := refreshing w in
  let (w, prepaint_start) := prepaint_index (set_refreshing true w) in
  let! (w, (e, accessed)) :=
    detect_accessed_entities (fun w =>
      let! (w, e) := render v w in
      let! (w, (e, _)) := object_layout_as_root e (space_of (size bounds)) w in
      let! (w, (e, _)) := any_prepaint_at e (origin bounds) w in
      Ok (w, e)) w in
  let (w, prepaint_end) := prepaint_index w in
  Ok (set_refreshing refreshing_before w,
      (Some e, box_state (mkViewState (prepaint_start, prepaint_end) (paint_index_default, paint_index_default) (mkViewKey bounds mask style) accessed))).

(** What it left in the last frame is taken over. *)
Definition reuse_view (s : AnyViewState) w : outcome (Win * (option AnyElement * ElementState)) :=
  let (w, prepaint_start) := prepaint_index w in
  let! w := reuse_prepaint (prepaint_range s) w in
  let (w, prepaint_end) := prepaint_index (set_cx (cx_extend_accessed (cx w) (accessed_entities s)) w) in
  Ok (w, (None, box_state (mkViewState (prepaint_start, prepaint_end) (paint_range s) (cache_key s) (accessed_entities s)))).

Definition view_prepaint (v : AnyView) (global_id : option GlobalElementId) (bounds : Bounds) (e : option AnyElement) w :
    outcome (Win * (AnyView * option AnyElement * option AnyElement)) :=
  let! w := set_view_id (entity v) w in
  let! (w, p) :=
    with_rendered_view (entity v) (fun w =>
      match e with
      | Some e => let! (w, (e, _)) := any_prepaint e w in Ok (w, Some e)
      | None =>
          let! id := unwrap global_id in
          with_element_state (view_state_key id) (fun state w =>
            match state with
            | Some s =>
                let! s := unwrap (unbox_state s) in
                if can_reuse (entity v) s bounds w then reuse_view s w else render_view v bounds w
            | None => render_view v bounds w
            end) w
      end) w in
  Ok (w, (v, None, p)).

Definition paint_cached (e : option AnyElement) (state : option ElementState) w : outcome (Win * (option AnyElement * ElementState)) :=
  let! s := unwrap state in
  let! s := unwrap (unbox_state s) in
  let (w, paint_start) := paint_index w in
  let! (w, e) :=
    match e with
    | Some e =>
        let refreshing_before := refreshing w in
        let! (w, e) := object_paint e (set_refreshing true w) in
        Ok (set_refreshing refreshing_before w, Some e)
    | None => let! w := reuse_paint (paint_range s) w in Ok (w, None)
    end in
  let (w, paint_end) := paint_index w in
  Ok (w, (e, box_state (mkViewState (prepaint_range s) (paint_start, paint_end) (cache_key s) (accessed_entities s)))).

Definition view_paint (v : AnyView) (global_id : option GlobalElementId) (_ : Bounds) (state : option AnyElement) (e : option AnyElement) w :
    outcome (Win * (AnyView * option AnyElement * option AnyElement)) :=
  let! (w, e) :=
    with_rendered_view (entity v) (fun w =>
      let uncached := let! e := unwrap e in let! (w, e) := object_paint e w in Ok (w, Some e) in
      match cached_style v with
      | Some _ =>
          if is_inspector_picking w then uncached
          else let! id := unwrap global_id in with_element_state (view_state_key id) (paint_cached e) w
      | None => uncached
      end) w in
  Ok (w, (v, state, e)).

#[export] Instance any_view_ops : ElementOps AnyView (option AnyElement) (option AnyElement) := {|
  element_id v := Some (view_element_id (entity v));
  element_request_layout := view_request_layout;
  element_prepaint := view_prepaint;
  element_paint := view_paint;
|}.
End AnyElement.
End Drawable.
