(* ===== verification/FrameDraw.v ===== *)
(** * FrameDraw: drawing a frame, [crates/gpui/src/window.rs]

    A frame is drawn from the root view: it is laid out and prepainted, then the draws that
    were deferred, in rounds, and what is over all; then everything is painted, the states
    and the text of the frame are settled, and the frame is shown.  The view of a window, of a
    prompt or of what is dragged is of an abstract type with the element that it makes. *)

From Stdlib Require Import NArith ZArith.
From S2P Require Import Geometry Scene.
From stdpp Require Import base list option numbers gmap.
From S2P Require Import Prelude Sorting Geometry Frame Drawable.

#[local] Set Warnings "-register-all,-clear-no-such-hyp".

(** ** Where a tooltip goes *)

(** Right of and below the mouse, or on the other side where it would
    not fit, or at the edge. *)
Definition place_tooltip (mouse_position : Point) (s viewport : Size) : Bounds :=
  let b := mkBounds (point_add mouse_position (mkPoint 1 1)) s in
  let window_bounds := mkBounds (mkPoint 0 0) viewport in
  let b :=
    if (right_ b >? right_ window_bounds)%Z then
      let new_x := (px mouse_position - width (size b) - 1)%Z in
      let x := if (new_x >=? 0)%Z then new_x else Z.max 0 (px (origin b) - right_ b - right_ window_bounds) in
      mkBounds (mkPoint x (py (origin b))) (size b)
    else b in
  if (bottom b >? bottom window_bounds)%Z then
    let new_y := (py mouse_position - height (size b) - 1)%Z in
    let y := if (new_y >=? 0)%Z then new_y else Z.max 0 (py (origin b) - bottom b - bottom window_bounds) in
    mkBounds (mkPoint (px (origin b)) y) (size b)
  else b.

Section Draw.
Context {Tree Reused Scn Tabs Text TextIndex Cx Layout : Type}.
Context `{FrameTree Tree Reused} `{FrameScene Scn} `{FrameTabs Tabs} `{FrameText Text TextIndex} `{FrameApp Cx Tracked} `{FrameLayout Layout LayoutId}.
Context {StateKey ElementState : Type} `{!EqDecision StateKey, !Countable StateKey}.
Context {AnyElement WinView MouseListener InputHandler Tooltip ElementId TextStyle CursorStyle : Type}.

Abbreviation Win := (Window (Tree := Tree) (Scn := Scn) (Tabs := Tabs) (Text := Text) (TextIndex := TextIndex) (Cx := Cx) (Layout := Layout) (StateKey := StateKey)
  (ElementState := ElementState) (Element := AnyElement) (View := WinView) (MouseListener := MouseListener) (InputHandler := InputHandler) (Tooltip := Tooltip)
  (ElementId := ElementId) (TextStyle := TextStyle) (CursorStyle := CursorStyle)).
Abbreviation Deferred := (DeferredDraw (TextIndex := TextIndex) (Element := AnyElement) (ElementId := ElementId) (TextStyle := TextStyle)).

Implicit Types (w : Win).

Context {AvailableSpace FocusHandle : Type}.
Context `{!ElementObject (Tree := Tree) (Scn := Scn) (Tabs := Tabs) (Text := Text) (TextIndex := TextIndex) (Cx := Cx) (Layout := Layout)
  (LayoutId := LayoutId) (StateKey := StateKey) (ElementState := ElementState) (AnyElement := AnyElement) (WinView := WinView) (MouseListener := MouseListener)
  (InputHandler := InputHandler) (Tooltip := Tooltip) (ElementId := ElementId) (TextStyle := TextStyle) (CursorStyle := CursorStyle)
  (AvailableSpace := AvailableSpace) AnyElement}.
Context `{!FocusHandles (Cx := Cx) FocusHandle}.

(** [into_any], the spaces, and [AnyTooltip]. *)
Class DrawParts := {
  view_into_any : WinView -> AnyElement;
  root_space : Size -> AvailableSpace;
  min_size_space : AvailableSpace;
  tooltip_view : Tooltip -> WinView;
  tooltip_position : Tooltip -> Point;
  tooltip_check_visible : Tooltip -> Bounds -> Win -> outcome (Win * bool);
}.
Context `{!DrawParts}.

(** ** Deferred draws *)

Definition update_draw (ix : nat) (g : Deferred -> Deferred) w : Win :=
  map_next (fun n => set_deferred_draws (alter g ix (deferred_draws n)) n) w.

(** One deferred draw; the stacks are those of the place it was deferred from. *)
Definition prepaint_deferred (ix : nat) w : outcome Win :=
  let! d := index (deferred_draws (next_frame w)) ix in
  let w := update_draw ix (with_draw_element None) (set_text_style_stack (draw_style_stack d) (set_element_id_stack (draw_id_stack d) w)) in
  let! tree := tree_set_active_node (dispatch_tree (next_frame w)) (parent_node d) in
  let (w, prepaint_start) := prepaint_index (map_next (set_dispatch_tree tree) w) in
  let! w :=
    match draw_element d with
    | Some e =>
        let! (w, (e, _)) := with_rendered_view (draw_view d) (with_absolute_element_offset (draw_offset d) (any_prepaint e)) w in
        let! _ := index (deferred_draws (next_frame w)) ix in
        Ok (update_draw ix (with_draw_element (Some e)) w)
    | None => reuse_prepaint (draw_prepaint_range d) w
    end in
  let (w, prepaint_end) := prepaint_index w in
  let! _ := index (deferred_draws (next_frame w)) ix in
  Ok (update_draw ix (with_prepaint_range (prepaint_start, prepaint_end)) w).

Definition priority_of w (ix : nat) : nat :=
  match deferred_draws (next_frame w) !! ix with Some d => draw_priority d | None => 0 end.

(** A round takes the draws deferred in the last one, by priority; at most ten rounds. *)
Fixpoint prepaint_rounds (depth_left round_start : nat) w : outcome Win :=
  let round_end := length (deferred_draws (next_frame w)) in
  if round_start =? round_end then Ok w
  else
    match depth_left with
    | 0 => Panic
    | S depth_left =>
        let! w := ofold (fun w ix => prepaint_deferred ix w) (sort_by_key (priority_of w) (seq round_start (round_end - round_start))) w in
        prepaint_rounds depth_left round_end (set_text_style_stack [] (set_element_id_stack [] w))
    end.

Definition prepaint_deferred_draws w : outcome Win :=
  match element_id_stack w with
  | [] => prepaint_rounds 10 0 w
  | _ => Panic
  end.

(** The draws are out of the frame while they are painted. *)
Definition paint_deferred (st : Win * list Deferred) (ix : nat) : outcome (Win * list Deferred) :=
  let (w, draws) := st in
  let! d := index draws ix in
  let w := set_element_id_stack (draw_id_stack d) w in
  let! tree := tree_set_active_node (dispatch_tree (next_frame w)) (parent_node d) in
  let (w, paint_start) := paint_index (map_next (set_dispatch_tree tree) w) in
  let! (w, d) :=
    match draw_element d with
    | Some e =>
        let! (w, e) := with_rendered_view (draw_view d) (object_paint e) w in Ok (w, with_draw_element (Some e) d)
    | None => let! w := reuse_paint (draw_paint_range d) w in Ok (w, d)
    end in
  let (w, paint_end) := paint_index w in
  Ok (w, <[ix := with_paint_range (paint_start, paint_end) d]> draws).

Definition paint_deferred_draws (indices : list nat) w : outcome Win :=
  match element_id_stack w with
  | [] =>
      let! (w, draws) := ofold paint_deferred indices (map_next (set_deferred_draws []) w, deferred_draws (next_frame w)) in
      Ok (set_element_id_stack [] (map_next (set_deferred_draws draws) w))
  | _ => Panic
  end.

(** ** Tooltips *)

(** The requests from the last to the first, until one is visible. *)
Fixpoint tooltip_loop (n : nat) w : outcome (Win * option AnyElement) :=
  match n with
  | 0 => Ok (w, None)
  | S n =>
      match tooltip_requests (next_frame w) !! n with
      | Some (Some r) =>
          let! (w, (e, s)) := object_layout_as_root (view_into_any (tooltip_view (tooltip r))) min_size_space w in
          let b := place_tooltip (tooltip_position (tooltip r)) s (viewport_size w) in
          let! (w, is_visible) := tooltip_check_visible (tooltip r) b w in
          if is_visible : bool then
            let! (w, (e, _)) := with_absolute_element_offset (origin b) (any_prepaint e) w in
            Ok (set_tooltip_bounds (Some (mkTooltipBounds (tooltip_id r) b)) w, Some e)
          else tooltip_loop n w
      | _ => tooltip_loop n w
      end
  end.

Definition prepaint_tooltip w : outcome (Win * option AnyElement) := tooltip_loop (length (tooltip_requests (next_frame w))) w.

(** ** The roots *)

Definition stretch (id : LayoutId) w : Win := set_layout_engine (engine_stretch (layout_engine w) id (viewport_size w)) w.

(** A view that fills the window. *)
Definition prepaint_root (v : WinView) w : outcome (Win * AnyElement) :=
  let! (w, (e, id)) := object_request_layout (view_into_any v) w in
  let w := stretch id w in
  let! (w, (e, _)) := any_prepaint_as_root e (mkPoint 0 0) (root_space (viewport_size w)) w in
  Ok (w, e).

(** What is drawn over all: a prompt, what is dragged, or a tooltip. *)
Definition prepaint_overlay w : outcome (Win * option AnyElement) :=
  match prompt w with
  | Some p =>
      let! (w, e) := prepaint_root p (set_prompt None w) in Ok (set_prompt (Some p) w, Some e)
  | None =>
      match active_drag w with
      | Some d =>
          let w := set_active_drag None w in
          let offset := point_sub (mouse_position w) (cursor_offset d) in
          let! (w, (e, _)) := any_prepaint_as_root (view_into_any (drag_view d)) offset min_size_space w in
          Ok (set_active_drag (Some d) w, Some e)
      | None => prepaint_tooltip w
      end
  end.

Definition draw_roots w : outcome Win :=
  let w := set_tooltip_bounds None (set_draw_phase PrepaintPhase w) in
  let! root_view := unwrap (root w) in
  let! (w, root_element) := prepaint_root root_view w in
  let! w := prepaint_deferred_draws w in
  let! (w, overlay) := prepaint_overlay w in
  let w := set_mouse_hit_test (hit_test (hitboxes (next_frame w)) (mouse_position w)) w in
  let! (w, _) := object_paint root_element (set_draw_phase PaintPhase w) in
  let! w := paint_deferred_draws (sort_by_key (priority_of w) (seq 0 (length (deferred_draws (next_frame w))))) w in
  match overlay with
  | Some e => let! (w, _) := object_paint e w in Ok w
  | None => Ok w
  end.

(** ** The frame *)

(** The last slot of a list of options that is empty, or full. *)
Fixpoint fill_last_empty {A} (a : A) (v : list (option A)) : list (option A) * bool :=
  match v with
  | [] => ([], false)
  | x :: v =>
      let (v, filled) := fill_last_empty a v in
      if filled then (x :: v, true) else match x with None => (Some a :: v, true) | Some _ => (x :: v, false) end
  end.

Fixpoint take_last_full {A} (v : list (option A)) : list (option A) * option A :=
  match v with
  | [] => ([], None)
  | x :: v =>
      match take_last_full v with
      | (v, Some a) => (x :: v, Some a)
      | (v, None) => match x with Some a => (None :: v, Some a) | None => (x :: v, None) end
      end
  end.

(** The input handler that the platform was given comes back to the frame shown. *)
Definition restore_input_handler w : Win :=
  match platform_input_handler w with
  | Some h =>
      let (v, filled) := fill_last_empty h (input_handlers (rendered_frame w)) in
      set_platform_input_handler None
        (map_rendered (set_input_handlers (if filled then v else input_handlers (rendered_frame w) ++ [Some h])) w)
  | None => w
  end.

Definition give_input_handler w : Win :=
  match take_last_full (input_handlers (next_frame w)) with
  | (v, Some h) => set_platform_input_handler (Some h) (map_next (set_input_handlers v) w)
  | (_, None) => w
  end.

(** [WindowFocusEvent] *)
Record FocusEvent := mkFocusEvent { previous_focus_path : list FocusId; current_focus_path : list FocusId }.

Definition is_focus_in (e : FocusEvent) (id : FocusId) : bool :=
  negb (bool_decide (id ∈ previous_focus_path e)) && bool_decide (id ∈ current_focus_path e).

Definition is_focus_out (e : FocusEvent) (id : FocusId) : bool :=
  bool_decide (id ∈ previous_focus_path e) && negb (bool_decide (id ∈ current_focus_path e)).

(** What the listeners of focus are told after a frame: whether the focus was lost, and the
    event. *)
Definition focus_changes (previous_path current_path : list FocusId) (previous_active current_active : bool) : bool * option FocusEvent :=
  if bool_decide (previous_path <> current_path) || negb (Bool.eqb previous_active current_active) then
    (bool_decide (previous_path <> []) && bool_decide (current_path = []),
     Some (mkFocusEvent (if previous_active then previous_path else []) (if current_active then current_path else [])))
  else (false, None).

(** The views from [view_id] up to the root are dirty; where one was, those above it are. *)
Fixpoint mark_dirty (views : list EntityId) (dirty : gset EntityId) : gset EntityId :=
  match views with
  | [] => dirty
  | v :: views => if bool_decide (v ∈ dirty) then dirty else mark_dirty views ({[v]} ∪ dirty)
  end.

Definition mark_view_dirty (view_id : EntityId) w : outcome Win :=
  let! path := tree_view_path (dispatch_tree (rendered_frame w)) view_id in
  Ok (set_dirty_views (mark_dirty (rev path) (dirty_views w)) w).

(** The set is drained in some order. *)
Definition invalidate_entities w : outcome Win :=
  ofold (fun w v => mark_view_dirty v w) (elements (invalidated_views w)) (set_invalidated_views ∅ w).

(** [draw], without the listeners of focus: the event that they get is returned. *)
Definition draw w : outcome (Win * (bool * option FocusEvent)) :=
  let! w := invalidate_entities w in
  let w := set_requested_autoscroll None (set_dirty false (set_cx (cx_clear_accessed (cx w)) w)) in
  let! w := draw_roots (restore_input_handler w) in
  let w := give_input_handler (map_next (set_window_active (active w)) (set_dirty_views ∅ w)) in
  let w := set_text_system (text_finish_frame (text_system w)) (set_layout_engine (engine_clear (layout_engine w)) w) in
  let (n, p) := frame_finish (next_frame w) (rendered_frame w) in
  let! previous_path := focus_path p in
  let w := set_next_frame (frame_clear p) (set_rendered_frame n (set_draw_phase FocusPhase w)) in
  let! current_path := focus_path n in
  Ok (set_draw_phase NotDrawing (set_refreshing false w), focus_changes previous_path current_path (window_active p) (window_active n)).
End Draw.

(** ** Tooltips are in the window *)

(** A tooltip on one axis, of the width [s] in a window of the width [v]. *)
Lemma place_axis (m s v : Z) :
  (0 <= m <= v -> 0 <= s <= v ->
   let p := if m + 1 + s >? v then if m - s - 1 >=? 0 then m - s - 1 else Z.max 0 (m + 1 - (m + 1 + s) - v) else m + 1 in
   0 <= p /\ p + s <= v /\ (p <= m <= p + s -> m + 1 + s > v /\ m - s - 1 < 0 /\ p = 0))%Z.
Proof. intros Hm Hs. destruct (Z.gtb_spec (m + 1 + s) v), (Z.geb_spec (m - s - 1) 0); lia. Qed.

(** A tooltip that is no larger than the window is placed inside it, and over the mouse only
    where it fits on neither side of it; it is then at the edge of the window. *)
Theorem tooltip_in_window (mouse : Point) (s viewport : Size) :
  (0 <= px mouse <= width viewport -> 0 <= py mouse <= height viewport -> 0 <= width s <= width viewport -> 0 <= height s <= height viewport ->
   let b := place_tooltip mouse s viewport in
   size b = s /\ 0 <= px (origin b) /\ right_ b <= width viewport /\ 0 <= py (origin b) /\ bottom b <= height viewport /\
   (px (origin b) <= px mouse <= right_ b -> px (origin b) = 0) /\ (py (origin b) <= py mouse <= bottom b -> py (origin b) = 0))%Z.
Proof.
  intros Hx Hy Hw Hh. unfold place_tooltip, right_, bottom, point_add. cbn zeta. cbn [origin size px py width height].
  generalize (place_axis _ _ _ Hx Hw), (place_axis _ _ _ Hy Hh). cbn zeta. rewrite !Z.add_0_l.
  destruct (px mouse + 1 + width s >? width viewport)%Z; cbn [origin size px py width height];
    destruct (py mouse + 1 + height s >? height viewport)%Z; cbn [origin size px py width height];
    intros Px Py; split_and!; try done; lia.
Qed.

(** A tooltip of 80 pixels 45 pixels from the left of a window of 100 is put at its left edge;
    sliding it by what is over would put it at 20. *)
Example tooltip_at_the_edge : place_tooltip (mkPoint 45 0) (mkSize 80 10) (mkSize 100 100) = mkBounds (mkPoint 0 1) (mkSize 80 10).
Proof. reflexivity. Qed.

