(* ===== verification/Anchored.v ===== *)
(** * Anchored: elements that avoid the edges of the window, [crates/gpui/src/elements/anchored.rs]

    Menus and popovers are placed by one of their corners; where they would leave the
    window, they are anchored by another corner, or moved to the edge.  On whole pixels the
    rounding of the offset changes nothing. *)

From Stdlib Require Import NArith ZArith.
From S2P Require Import Geometry Scene.
From stdpp Require Import base list option numbers gmap.
From S2P Require Import Prelude Geometry Frame Drawable.

#[local] Set Warnings "-register-all,-clear-no-such-hyp".

Inductive AnchoredFitMode := SnapToWindow | SnapToWindowWithMargin (edges : Edges) | SwitchAnchor.
Inductive AnchoredPositionMode := WindowPosition | LocalPosition.

(** [get_position_and_bounds] *)
Definition get_position_and_bounds (mode : AnchoredPositionMode) (anchor_position : option Point) (anchor_corner : Corner)
    (s : Size) (bounds : Bounds) (offset : option Point) : Point * Bounds :=
  let offset := default (mkPoint 0 0) offset in
  match mode with
  | WindowPosition =>
      let anchor_position := default (origin bounds) anchor_position in
      (anchor_position, from_corner_and_size anchor_corner (point_add anchor_position offset) s)
  | LocalPosition =>
      let anchor_position := default (mkPoint 0 0) anchor_position in
      (anchor_position, from_corner_and_size anchor_corner (point_add (point_add (origin bounds) anchor_position) offset) s)
  end.

(** Whether bounds are over an edge of the limits, to the sides and up or down. *)
Definition overflows_x (b limits : Bounds) : bool := ((left_ b <? left_ limits) || (right_ b >? right_ limits))%Z.
Definition overflows_y (b limits : Bounds) : bool := ((top b <? top limits) || (bottom b >? bottom limits))%Z.

(** Another corner is taken on each axis where that helps. *)
Definition switch_anchor (anchor_corner : Corner) (o : Point) (s : Size) (limits desired : Bounds) : Bounds :=
  let (anchor_corner, desired) :=
    if overflows_x desired limits then
      let switched := from_corner_and_size (other_side_corner_along anchor_corner Horizontal) o s in
      if negb (overflows_x switched limits) then (other_side_corner_along anchor_corner Horizontal, switched)
      else (anchor_corner, desired)
    else (anchor_corner, desired) in
  if overflows_y desired limits then
    let switched := from_corner_and_size (other_side_corner_along anchor_corner Vertical) o s in
    if negb (overflows_y switched limits) then switched else desired
  else desired.

Definition fit_edges (mode : AnchoredFitMode) (client_inset : option Z) : Edges :=
  let inset := default 0%Z client_inset in
  let edges := match mode with SnapToWindowWithMargin edges => edges | _ => mkEdges 0 0 0 0 end in
  mkEdges (top_edge edges + inset) (right_edge edges + inset) (bottom_edge edges + inset) (left_edge edges + inset).

Definition move_x (b : Bounds) (x : Z) : Bounds := mkBounds (mkPoint x (py (origin b))) (size b).
Definition move_y (b : Bounds) (y : Z) : Bounds := mkBounds (mkPoint (px (origin b)) y) (size b).

(** To the edges, the left and the top one last. *)
Definition snap_to_edges (edges : Edges) (limits desired : Bounds) : Bounds :=
  let d := desired in
  let d := if (right_ d >? right_ limits)%Z then move_x d (px (origin d) - (right_ d - right_ limits + right_edge edges)) else d in
  let d := if (left_ d <? left_ limits)%Z then move_x d (px (origin limits) + left_edge edges) else d in
  let d := if (bottom d >? bottom limits)%Z then move_y d (py (origin d) - (bottom d - bottom limits + bottom_edge edges)) else d in
  if (top d <? top limits)%Z then move_y d (py (origin limits) + top_edge edges) else d.

Section Anchored.
Context {Tree Reused Scn Tabs Text TextIndex Cx Layout : Type}.
Context `{FrameTree Tree Reused} `{FrameScene Scn} `{FrameTabs Tabs} `{FrameText Text TextIndex} `{FrameApp Cx Tracked} `{FrameLayout Layout LayoutId}.
Context {StateKey ElementState : Type} `{!EqDecision StateKey, !Countable StateKey}.
Context {AnyElement WinView MouseListener InputHandler Tooltip ElementId TextStyle CursorStyle : Type}.

Abbreviation Win := (Window (Tree := Tree) (Scn := Scn) (Tabs := Tabs) (Text := Text) (TextIndex := TextIndex) (Cx := Cx) (Layout := Layout) (StateKey := StateKey)
  (ElementState := ElementState) (Element := AnyElement) (View := WinView) (MouseListener := MouseListener) (InputHandler := InputHandler) (Tooltip := Tooltip)
  (ElementId := ElementId) (TextStyle := TextStyle) (CursorStyle := CursorStyle)).

Implicit Types (w : Win).

Context {AvailableSpace FocusHandle : Type}.
Context `{!ElementObject (Tree := Tree) (Scn := Scn) (Tabs := Tabs) (Text := Text) (TextIndex := TextIndex) (Cx := Cx) (Layout := Layout)
  (LayoutId := LayoutId) (StateKey := StateKey) (ElementState := ElementState) (AnyElement := AnyElement) (WinView := WinView) (MouseListener := MouseListener)
  (InputHandler := InputHandler) (Tooltip := Tooltip) (ElementId := ElementId) (TextStyle := TextStyle) (CursorStyle := CursorStyle)
  (AvailableSpace := AvailableSpace) AnyElement}.
Context `{!FocusHandles (Cx := Cx) FocusHandle}.

Record Anchored := mkAnchored {
  children : list AnyElement;
  anchor_corner : Corner;
  fit_mode : AnchoredFitMode;
  anchor_position : option Point;
  position_mode : AnchoredPositionMode;
  offset : option Point;
}.

(** The builders. *)
Definition anchored : Anchored := mkAnchored [] TopLeft SwitchAnchor None WindowPosition None.
Definition with_anchor (c : Corner) (a : Anchored) : Anchored := mkAnchored (children a) c (fit_mode a) (anchor_position a) (position_mode a) (offset a).
Definition with_position (p : Point) (a : Anchored) : Anchored := mkAnchored (children a) (anchor_corner a) (fit_mode a) (Some p) (position_mode a) (offset a).
Definition with_offset (p : Point) (a : Anchored) : Anchored := mkAnchored (children a) (anchor_corner a) (fit_mode a) (anchor_position a) (position_mode a) (Some p).
Definition with_position_mode (m : AnchoredPositionMode) (a : Anchored) : Anchored := mkAnchored (children a) (anchor_corner a) (fit_mode a) (anchor_position a) m (offset a).
Definition with_fit_mode (m : AnchoredFitMode) (a : Anchored) : Anchored := mkAnchored (children a) (anchor_corner a) m (anchor_position a) (position_mode a) (offset a).
Definition snap_to_window : Anchored -> Anchored := with_fit_mode SnapToWindow.
Definition snap_to_window_with_margin (edges : Edges) : Anchored -> Anchored := with_fit_mode (SnapToWindowWithMargin edges).
Definition extend_children (es : list AnyElement) (a : Anchored) : Anchored :=
  mkAnchored (children a ++ es) (anchor_corner a) (fit_mode a) (anchor_position a) (position_mode a) (offset a).

(** Where the children go, in the coordinates of the window. *)
Definition anchored_bounds (a : Anchored) (s : Size) (bounds : Bounds) (viewport : Size) (client_inset : option Z) : Bounds :=
  let (o, desired) := get_position_and_bounds (position_mode a) (anchor_position a) (anchor_corner a) s bounds (offset a) in
  let limits := mkBounds (mkPoint 0 0) viewport in
  let desired := match fit_mode a with SwitchAnchor => switch_anchor (anchor_corner a) o s limits desired | _ => desired end in
  snap_to_edges (fit_edges (fit_mode a) client_inset) limits desired.

(** The bounds of the children together. *)
Fixpoint children_bounds (acc : Bounds) (ids : list LayoutId) w : Win * Bounds :=
  match ids with
  | [] => (w, acc)
  | id :: ids => let (w, b) := layout_bounds id w in children_bounds (union acc b) ids w
  end.

(** [prepaint_all]: each child, with the elements as they are left. *)
Fixpoint prepaint_children (es : list AnyElement) w : outcome (Win * list AnyElement) :=
  match es with
  | [] => Ok (w, [])
  | e :: es =>
      let! (w, (e, _)) := any_prepaint e w in
      let! (w, es) := prepaint_children es w in
      Ok (w, e :: es)
  end.

Fixpoint paint_children (es : list AnyElement) w : outcome (Win * list AnyElement) :=
  match es with
  | [] => Ok (w, [])
  | e :: es =>
      let! (w, e) := object_paint e w in
      let! (w, es) := paint_children es w in
      Ok (w, e :: es)
  end.

Definition with_children (es : list AnyElement) (a : Anchored) : Anchored :=
  mkAnchored es (anchor_corner a) (fit_mode a) (anchor_position a) (position_mode a) (offset a).

Definition anchored_prepaint (a : Anchored) (client_inset : option Z) (bounds : Bounds) (child_layout_ids : list LayoutId) w : outcome (Win * Anchored) :=
  match child_layout_ids with
  | [] => Ok (w, a)
  | id :: ids =>
      let (w, first) := layout_bounds id w in
      let (w, b) := children_bounds first ids w in
      let desired := anchored_bounds a (size b) bounds (viewport_size w) client_inset in
      let! (w, es) := with_element_offset (point_sub (origin desired) (origin bounds)) (prepaint_children (children a)) w in
      Ok (w, with_children es a)
  end.

Definition anchored_paint (a : Anchored) w : outcome (Win * Anchored) :=
  let! (w, es) := paint_children (children a) w in Ok (w, with_children es a).
End Anchored.

(** ** In the window *)

(** On one axis: [d] is where it was to go, [s] its size, [v] that of the window. *)
Lemma snap_axis (d s v e f : Z) :
  (0 <= e -> 0 <= f -> 0 <= s -> s + e + f <= v ->
   let d1 := if d + s >? v then d - (d + s - v + f) else d in
   let d2 := if d1 <? 0 then e else d1 in
   0 <= d2 /\ d2 + s <= v /\ (0 <= d -> d + s <= v -> d2 = d))%Z.
Proof.
  intros He Hf Hs Hv. cbn zeta. destruct (Z.gtb_spec (d + s) v).
  - destruct (Z.ltb_spec (d - (d + s - v + f)) 0); lia.
  - destruct (Z.ltb_spec d 0); lia.
Qed.

Definition inside (b : Bounds) (viewport : Size) : Prop :=
  (0 <= px (origin b) /\ px (origin b) + width (size b) <= width viewport /\
   0 <= py (origin b) /\ py (origin b) + height (size b) <= height viewport)%Z.

Lemma snap_inside edges d viewport :
  (0 <= left_edge edges -> 0 <= right_edge edges -> 0 <= top_edge edges -> 0 <= bottom_edge edges ->
   0 <= width (size d) -> 0 <= height (size d) ->
   width (size d) + left_edge edges + right_edge edges <= width viewport ->
   height (size d) + top_edge edges + bottom_edge edges <= height viewport ->
   let b := snap_to_edges edges (mkBounds (mkPoint 0 0) viewport) d in
   size b = size d /\ inside b viewport /\ (inside d viewport -> b = d))%Z.
Proof.
  intros Hl Hr Ht Hb Hw Hh Hx Hy. destruct d as [[x y] [w h]], viewport as [vw vh], edges as [te re be le]. cbn in *.
  generalize (snap_axis x w vw le re Hl Hr Hw Hx), (snap_axis y h vh te be Ht Hb Hh Hy). cbn zeta.
  unfold snap_to_edges, move_x, move_y, left_, right_, top, bottom, inside. cbn [origin size px py width height left_edge right_edge top_edge bottom_edge].
  rewrite !Z.add_0_l. destruct (x + w >? vw)%Z; cbn [origin size px py width height];
    match goal with |- context [(?z <? 0)%Z] => destruct (z <? 0)%Z end; cbn [origin size px py width height];
    (destruct (y + h >? vh)%Z; cbn [origin size px py width height];
      match goal with |- context [(?z <? 0)%Z] => destruct (z <? 0)%Z end; cbn [origin size px py width height];
      intros Px Py; split_and!; try done; try lia; intros; f_equal; f_equal; lia).
Qed.

Lemma overflows_x_spec b viewport :
  overflows_x b (mkBounds (mkPoint 0 0) viewport) = negb (bool_decide (0 <= px (origin b) /\ px (origin b) + width (size b) <= width viewport)%Z).
Proof.
  unfold overflows_x, left_, right_. cbn [origin px size]. rewrite Z.add_0_l. destruct (Z.ltb_spec (px (origin b)) 0), (Z.gtb_spec (px (origin b) + width (size b)) (width viewport));
    case_bool_decide; cbn; try done; lia.
Qed.

Lemma overflows_y_spec b viewport :
  overflows_y b (mkBounds (mkPoint 0 0) viewport) = negb (bool_decide (0 <= py (origin b) /\ py (origin b) + height (size b) <= height viewport)%Z).
Proof.
  unfold overflows_y, top, bottom. cbn [origin py size]. rewrite Z.add_0_l. destruct (Z.ltb_spec (py (origin b)) 0), (Z.gtb_spec (py (origin b) + height (size b)) (height viewport));
    case_bool_decide; cbn; try done; lia.
Qed.

(** A corner that keeps the element in the window is found if there is one. *)
Lemma switch_finds c o s viewport c0 :
  inside (from_corner_and_size c0 o s) viewport ->
  let b := switch_anchor c o s (mkBounds (mkPoint 0 0) viewport) (from_corner_and_size c o s) in
  inside b viewport /\ exists c', b = from_corner_and_size c' o s.
Proof.
  destruct o as [x y], s as [w h], viewport as [vw vh]. unfold switch_anchor. rewrite !overflows_x_spec.
  intros Hc. cbn zeta. destruct c0, c; cbn in Hc |- *;
    rewrite ?overflows_y_spec; cbn in *; unfold inside in *; cbn in *;
    repeat (case_bool_decide; cbn in *; rewrite ?overflows_y_spec; cbn in *; try lia);
    (split; [lia|]);
    first [by exists TopLeft|by exists TopRight|by exists BottomLeft|by exists BottomRight].
Qed.

(** Let the element with its margins be no larger than the window.  It keeps its size and is
    in the window; where it is wanted is left if that is in the window; and an element that
    may switch its corner, at a position of the window, is at this position with one of its
    corners if one keeps it in the window. *)
Theorem anchored_in_window {AnyElement} (a : Anchored (AnyElement := AnyElement)) (s : Size) (bounds : Bounds) (viewport : Size) (client_inset : option Z) :
  let edges := fit_edges (fit_mode a) client_inset in
  let (o, desired) := get_position_and_bounds (position_mode a) (anchor_position a) (anchor_corner a) s bounds (offset a) in
  let b := anchored_bounds a s bounds viewport client_inset in
  (0 <= left_edge edges -> 0 <= right_edge edges -> 0 <= top_edge edges -> 0 <= bottom_edge edges -> 0 <= width s -> 0 <= height s ->
   width s + left_edge edges + right_edge edges <= width viewport -> height s + top_edge edges + bottom_edge edges <= height viewport ->
   size b = s /\ inside b viewport /\ (inside desired viewport -> b = desired) /\
   (fit_mode a = SwitchAnchor -> position_mode a = WindowPosition -> offset a = None ->
    forall c, inside (from_corner_and_size c o s) viewport -> exists c', b = from_corner_and_size c' o s))%Z.
Proof.
  cbn zeta. unfold anchored_bounds. destruct (get_position_and_bounds _ _ _ _ _ _) as [o desired] eqn:E. intros Hl Hr Ht Hb Hw Hh Hx Hy.
  assert (Es : size desired = s) by (unfold get_position_and_bounds in E; destruct (position_mode a); injection E as <- <-; done).
  set (limits := mkBounds (mkPoint 0 0) viewport). set (d := match fit_mode a with SwitchAnchor => _ | _ => desired end).
  assert (Ed : size d = s).
  { subst d. destruct (fit_mode a); [done|done|]. unfold switch_anchor.
    repeat match goal with |- context [if ?b then _ else _] => destruct b end; done. }
  assert (Hd : inside desired viewport -> d = desired).
  { intros Hi. subst d. destruct (fit_mode a); [done|done|]. unfold switch_anchor, inside in *. unfold limits. rewrite overflows_x_spec, bool_decide_true by lia.
    cbn [negb]. by rewrite overflows_y_spec, bool_decide_true by lia. }
  rewrite <- Ed in Hw, Hh, Hx, Hy. destruct (snap_inside (fit_edges (fit_mode a) client_inset) d viewport Hl Hr Ht Hb Hw Hh Hx Hy) as (H1 & H2 & H3).
  split; [exact (eq_trans H1 Ed)|]. split; [exact H2|]. split; [intros Hi; rewrite <- (Hd Hi); apply H3; by rewrite (Hd Hi)|].
  intros Ef Ep Eo c Hc. unfold get_position_and_bounds in E. rewrite Ep, Eo in E. cbn in E.
  assert (E' : o = default (origin bounds) (anchor_position a) /\ desired = from_corner_and_size (anchor_corner a) o s).
  { injection E as <- <-. split; [done|]. f_equal. destruct (default _ _) as [x y]. unfold point_add. cbn. f_equal; lia. }
  destruct E' as [_ E']. destruct (switch_finds (anchor_corner a) o s viewport c Hc) as [Hin [c' Ec]]. exists c'.
  subst d. rewrite Ef in *. rewrite <- E' in Ec, Hin. rewrite <- Ec. by apply H3.
Qed.

Lemma anchored_in_window_witness :
  anchored_bounds (with_position (mkPoint 90 95) (anchored (AnyElement := unit))) (mkSize 30 20) (mkBounds (mkPoint 0 0) (mkSize 0 0)) (mkSize 100 100) None
    = mkBounds (mkPoint 60 75) (mkSize 30 20) /\
  inside (mkBounds (mkPoint 60 75) (mkSize 30 20)) (mkSize 100 100).
Proof.
  set (a := with_position (mkPoint 90 95) (anchored (AnyElement := unit))). set (b := mkBounds (mkPoint 0 0) (mkSize 0 0)).
  pose proof (anchored_in_window a (mkSize 30 20) b (mkSize 100 100) None) as H. cbn in H.
  destruct H as (_ & Hi & _); [lia..|]. split; [reflexivity|exact Hi].
Defined.

(** An element that is placed in its parent, at 300, or with an offset, is switched at its
    position taken as one of the window, without the offset. *)
Example switched_without_parent :
  let parent := mkBounds (mkPoint 300 0) (mkSize 50 50) in
  anchored_bounds (with_position_mode LocalPosition (with_position (mkPoint 50 0) (anchored (AnyElement := unit)))) (mkSize 40 10) parent (mkSize 360 100) None
    = mkBounds (mkPoint 10 0) (mkSize 40 10) /\
  anchored_bounds (with_offset (mkPoint (-10) 0) (with_position (mkPoint 350 0) (anchored (AnyElement := unit)))) (mkSize 40 10) parent (mkSize 360 100) None
    = mkBounds (mkPoint 310 0) (mkSize 40 10).
Proof. vm_compute. auto. Qed.
