(* ===== verification/Tooltips.v ===== *)
(** * Tooltips: when they show and hide, [crates/gpui/src/elements/div.rs]

    The tooltip of an element is absent, waits to be shown, is visible, or waits to be hidden;
    the waiting states hold a task with a timer, and dropping the state drops the task.  The
    mouse listeners of the element move between the states, and so does the callback that the
    window calls while it prepaints tooltips. *)

From Stdlib Require Import NArith ZArith.
From stdpp Require Import base list option numbers gmap relations.
From S2P Require Import Prelude Geometry.

#[local] Set Warnings "-register-all,-clear-no-such-hyp".

Definition default_tooltip_show_delay : N := 500.
Definition hoverable_tooltip_hide_delay : N := 500.

Inductive TooltipTask := ShowTask | HideTask.

Section Tooltips.
(** The rest of the window and the application, where the mouse is, and the views of
    tooltips. *)
Context {E View : Type}.
(** The closures that an element registers: whether the mouse is over it, from its hitbox and
    from its bounds; whether the mouse is over the tooltip that the last frame showed; and the
    builder of the tooltip, which says whether it can be hovered. *)
Context (check_is_hovered check_is_hovered_during_prepaint tooltip_hovered : E -> bool).
Context (mouse_position : E -> Point) (build_tooltip : E -> E * option (View * bool)) (show_delay : N).

(** [hoverable] is captured by [check_visible_and_update]. *)
Record AnyTooltip := mkTooltip { view : View; at_position : Point; hoverable : bool }.

Inductive ActiveTooltip :=
  | WaitingForShow (task : N)
  | Visible (tooltip : AnyTooltip) (is_hoverable : bool)
  | WaitingForHide (tooltip : AnyTooltip) (task : N).

(** The tooltip of an element and the window: the clock and the tasks that wait, with the time
    at which they go on, in milliseconds; how often the window was refreshed and the view of
    the element notified. *)
Record TooltipState := mkState {
  active_tooltip : option ActiveTooltip;
  env : E;
  now : N;
  next_task : N;
  timers : gmap N (N * TooltipTask);
  refreshed : nat;
  notified : nat;
}.

Implicit Types (w : TooltipState).

Definition set_active a w := mkState a (env w) (now w) (next_task w) (timers w) (refreshed w) (notified w).
Definition set_env e w := mkState (active_tooltip w) e (now w) (next_task w) (timers w) (refreshed w) (notified w).
Definition set_timers t w := mkState (active_tooltip w) (env w) (now w) (next_task w) t (refreshed w) (notified w).
Definition refresh w := mkState (active_tooltip w) (env w) (now w) (next_task w) (timers w) (S (refreshed w)) (notified w).
Definition notify w := mkState (active_tooltip w) (env w) (now w) (next_task w) (timers w) (refreshed w) (S (notified w)).

(** The task that a state holds. *)
Definition task_of (a : ActiveTooltip) : option N :=
  match a with WaitingForShow t => Some t | Visible _ _ => None | WaitingForHide _ t => Some t end.

(** Replacing the state drops the task of the old one. *)
Definition replace_active (a : option ActiveTooltip) w : TooltipState :=
  match active_tooltip w ≫= task_of with
  | Some t => set_active a (set_timers (delete t (timers w)) w)
  | None => set_active a w
  end.

(** [Window::spawn] of a task that begins with a timer. *)
Definition spawn (delay : N) (k : TooltipTask) w : TooltipState * N :=
  let t := next_task w in
  (mkState (active_tooltip w) (env w) (now w) (t + 1)%N (<[t := ((now w + delay)%N, k)]> (timers w)) (refreshed w) (notified w), t).

Definition clear_active_tooltip w : TooltipState :=
  match active_tooltip w with
  | None => w
  | Some (WaitingForShow _) => replace_active None w
  | Some (Visible _ _) => refresh (replace_active None w)
  | Some (WaitingForHide _ _) => refresh (replace_active None w)
  end.

Definition clear_active_tooltip_if_not_hoverable w : TooltipState :=
  let should_clear :=
    match active_tooltip w with
    | Some (Visible _ is_hoverable) => negb is_hoverable
    | _ => false
    end in
  if should_clear then refresh (replace_active None w) else w.

(** The tooltip that the window is asked to show. *)
Definition tooltip_request w : option AnyTooltip :=
  match active_tooltip w with
  | None | Some (WaitingForShow _) => None
  | Some (Visible t _) | Some (WaitingForHide t _) => Some t
  end.

(** [None] if the frame before showed no tooltip of the element. *)
Definition over_tooltip (has_id : bool) w : bool := has_id && tooltip_hovered (env w).

(** The listeners of [MouseDownEvent] and [ScrollWheelEvent]. *)
Definition tooltip_mouse_down (has_id : bool) w : TooltipState :=
  if negb (over_tooltip has_id w) then clear_active_tooltip_if_not_hoverable w else w.
Definition tooltip_scroll_wheel (has_id : bool) w : TooltipState :=
  if negb (over_tooltip has_id w) then clear_active_tooltip_if_not_hoverable w else w.

Inductive TooltipPhase := TooltipCapture | TooltipBubble.
Inductive MoveAction := NoMove | CancelShow | ScheduleShow | CheckVisible.

Definition move_action (phase : TooltipPhase) (has_id : bool) w : MoveAction :=
  match active_tooltip w with
  | None =>
      match check_is_hovered (env w), phase with true, TooltipBubble => ScheduleShow | _, _ => NoMove end
  | Some (WaitingForShow _) => if check_is_hovered (env w) then NoMove else CancelShow
  | Some (Visible _ is_hoverable) =>
      match phase with
      | TooltipCapture =>
          if negb (check_is_hovered (env w)) && (negb is_hoverable || negb (over_tooltip has_id w)) then CheckVisible else NoMove
      | TooltipBubble => NoMove
      end
  | Some (WaitingForHide _ _) =>
      match phase with
      | TooltipCapture => if check_is_hovered (env w) || over_tooltip has_id w then CheckVisible else NoMove
      | TooltipBubble => NoMove
      end
  end.

Definition handle_tooltip_mouse_move (phase : TooltipPhase) (has_id : bool) w : TooltipState :=
  match move_action phase has_id w with
  | NoMove => w
  | CancelShow => replace_active None w
  | ScheduleShow => let (w, t) := spawn show_delay ShowTask w in replace_active (Some (WaitingForShow t)) w
  | CheckVisible => notify w
  end.

Inductive CheckAction := NoCheck | Hide | ScheduleHide (tooltip : AnyTooltip) | CancelHide (tooltip : AnyTooltip).

Definition check_action (tooltip_is_hoverable : bool) (tooltip_bounds : Bounds) w : CheckAction :=
  let is_hovered := check_is_hovered_during_prepaint (env w) || (tooltip_is_hoverable && contains tooltip_bounds (mouse_position (env w))) in
  match active_tooltip w with
  | Some (Visible t _) =>
      if is_hovered then NoCheck else if tooltip_is_hoverable then ScheduleHide t else Hide
  | Some (WaitingForHide t _) => if is_hovered then CancelHide t else NoCheck
  | None | Some (WaitingForShow _) => NoCheck
  end.

(** Whether the tooltip is still to be shown. *)
Definition handle_tooltip_check_visible_and_update (tooltip_is_hoverable : bool) (tooltip_bounds : Bounds) w : TooltipState * bool :=
  let w :=
    match check_action tooltip_is_hoverable tooltip_bounds w with
    | NoCheck => w
    | Hide => clear_active_tooltip w
    | ScheduleHide t =>
        let (w, task) := spawn hoverable_tooltip_hide_delay HideTask w in replace_active (Some (WaitingForHide t task)) w
    | CancelHide t => replace_active (Some (Visible t true)) w
    end in
  (w, bool_decide (is_Some (active_tooltip w))).

(** What a task does when its timer is over. *)
Definition show w : TooltipState :=
  let (e, built) := build_tooltip (env w) in
  let w := set_env e w in
  let new_tooltip := (fun '(v, h) => Visible (mkTooltip v (mouse_position (env w)) h) h) <$> built in
  refresh (replace_active new_tooltip w).

Definition hide w : TooltipState :=
  match active_tooltip w with Some _ => refresh (replace_active None w) | None => w end.

Definition fire (task : N) w : TooltipState :=
  match timers w !! task with
  | Some (_, ShowTask) => show (set_timers (delete task (timers w)) w)
  | Some (_, HideTask) => hide (set_timers (delete task (timers w)) w)
  | None => w
  end.

(** ** Runs *)

(** The events that reach the tooltip of an element, in any order; in between the mouse and
    the application change, and time passes, but not beyond a timer that is over.  With
    [over], the mouse is over the element whenever it moves, and no task goes on. *)
Inductive tooltip_step (over : bool) w : TooltipState -> Prop :=
  | step_move phase has_id : (over = true -> check_is_hovered (env w) = true) -> tooltip_step over w (handle_tooltip_mouse_move phase has_id w)
  | step_down has_id : tooltip_step over w (tooltip_mouse_down has_id w)
  | step_scroll has_id : tooltip_step over w (tooltip_scroll_wheel has_id w)
  | step_check h b : tooltip_step over w (handle_tooltip_check_visible_and_update h b w).1
  | step_fire task d k : over = false -> timers w !! task = Some (d, k) -> (d <= now w)%N -> tooltip_step over w (fire task w)
  | step_env e : tooltip_step over w (set_env e w)
  | step_time t : map_Forall (fun _ x => (now w + t <= fst x)%N) (timers w) ->
      tooltip_step over w (mkState (active_tooltip w) (env w) (now w + t)%N (next_task w) (timers w) (refreshed w) (notified w)).

(** The only task is that of a waiting state; it goes on within the delay from now. *)
Definition tidy w : Prop :=
  match active_tooltip w with
  | None | Some (Visible _ _) => timers w = ∅
  | Some (WaitingForShow t) => exists d, timers w = {[t := (d, ShowTask)]} /\ (now w <= d <= now w + show_delay)%N
  | Some (WaitingForHide _ t) => exists d, timers w = {[t := (d, HideTask)]} /\ (now w <= d <= now w + hoverable_tooltip_hide_delay)%N
  end.

Lemma replace_timers a w : tidy w -> timers (replace_active a w) = ∅.
Proof.
  unfold tidy, replace_active. destruct (active_tooltip w) as [[t|t h|t task]|]; cbn; try done;
    intros (d & -> & _); apply delete_singleton_eq.
Qed.

Lemma replace_active_is a w : active_tooltip (replace_active a w) = a.
Proof. unfold replace_active. by destruct (_ ≫= _). Qed.

Lemma replace_kept a w :
  now (replace_active a w) = now w /\ env (replace_active a w) = env w /\ next_task (replace_active a w) = next_task w.
Proof. unfold replace_active. by destruct (_ ≫= _). Qed.

(** A state without a task. *)
Lemma replace_tidy a w : tidy w -> a ≫= task_of = None -> tidy (replace_active a w).
Proof.
  intros Hw Ha. pose proof (replace_timers a w Hw) as Em. unfold tidy. rewrite replace_active_is.
  destruct a as [[]|]; done.
Qed.

Lemma refresh_tidy w : tidy w -> tidy (refresh w).
Proof. done. Qed.

(** A state with a task that was just spawned. *)
Lemma spawned_timers w delay k (a : N -> ActiveTooltip) :
  active_tooltip w ≫= task_of = None -> timers w = ∅ ->
  let (w', t) := spawn delay k w in
  active_tooltip (replace_active (Some (a t)) w') = Some (a t) /\
  timers (replace_active (Some (a t)) w') = {[t := ((now w + delay)%N, k)]} /\ now (replace_active (Some (a t)) w') = now w /\ env (replace_active (Some (a t)) w') = env w.
Proof.
  intros Ha Em. cbn [spawn]. destruct (replace_kept (Some (a (next_task w))) (fst (spawn delay k w))) as (En & Ee & _).
  cbn [spawn fst] in *. rewrite replace_active_is, En, Ee. split; [done|]. split; [|done].
  unfold replace_active. cbn. rewrite Ha. cbn. by rewrite Em, insert_empty.
Qed.

Lemma schedule_show_ok w :
  active_tooltip w = None -> timers w = ∅ ->
  let w' := let (w, t) := spawn show_delay ShowTask w in replace_active (Some (WaitingForShow t)) w in
  active_tooltip w' = Some (WaitingForShow (next_task w)) /\ timers w' = {[next_task w := ((now w + show_delay)%N, ShowTask)]} /\
  now w' = now w /\ env w' = env w.
Proof.
  intros Ha Em. pose proof (spawned_timers w show_delay ShowTask WaitingForShow) as H. rewrite Ha in H. by apply H.
Qed.

Lemma move_tidy phase has_id w : tidy w -> tidy (handle_tooltip_mouse_move phase has_id w).
Proof.
  intros Hw. unfold handle_tooltip_mouse_move. destruct (move_action phase has_id w) eqn:Ea; [done|by apply replace_tidy| |done].
  assert (Ha : active_tooltip w = None).
  { revert Ea. unfold move_action. destruct (active_tooltip w) as [[]|]; [..|done]; repeat case_match; discriminate. }
  assert (Em : timers w = ∅) by (unfold tidy in Hw; by rewrite Ha in Hw).
  destruct (schedule_show_ok w Ha Em) as (Ha' & Em' & En & _). cbn zeta in *. unfold tidy. rewrite Ha'.
  eexists. split; [exact Em'|]. rewrite En. lia.
Qed.

Lemma clear_tidy w : tidy w -> tidy (clear_active_tooltip_if_not_hoverable w).
Proof. intros Hw. unfold clear_active_tooltip_if_not_hoverable. case_match; [|done]. by apply refresh_tidy, replace_tidy. Qed.

Lemma schedule_hide_ok t h w :
  active_tooltip w = Some (Visible t h) -> timers w = ∅ ->
  let w' := let (w, task) := spawn hoverable_tooltip_hide_delay HideTask w in replace_active (Some (WaitingForHide t task)) w in
  active_tooltip w' = Some (WaitingForHide t (next_task w)) /\
  timers w' = {[next_task w := ((now w + hoverable_tooltip_hide_delay)%N, HideTask)]} /\ now w' = now w /\ env w' = env w.
Proof.
  intros Ha Em. pose proof (spawned_timers w hoverable_tooltip_hide_delay HideTask (WaitingForHide t)) as H. rewrite Ha in H. by apply H.
Qed.

Lemma check_tidy h b w : tidy w -> tidy (handle_tooltip_check_visible_and_update h b w).1.
Proof.
  intros Hw. unfold handle_tooltip_check_visible_and_update. cbn [fst].
  destruct (check_action h b w) as [| |t|t] eqn:Ea; [done| | |by apply replace_tidy].
  - unfold clear_active_tooltip. destruct (active_tooltip w) as [[]|]; try done; try apply refresh_tidy; by apply replace_tidy.
  - assert (Ha : exists h', active_tooltip w = Some (Visible t h')).
    { revert Ea. unfold check_action. destruct (active_tooltip w) as [[|t' h'|]|]; repeat case_match; try discriminate. intros [= <-]. by eexists. }
    destruct Ha as [h' Ha]. assert (Em : timers w = ∅) by (unfold tidy in Hw; by rewrite Ha in Hw).
    destruct (schedule_hide_ok t h' w Ha Em) as (Ha' & Em' & En & _). cbn zeta in *. unfold tidy. rewrite Ha'.
    eexists. split; [exact Em'|]. rewrite En. lia.
Qed.

(** A task that goes on is the one held, of its kind. *)
Lemma fire_held task d k w :
  tidy w -> timers w !! task = Some (d, k) ->
  timers (fire task w) = ∅ /\
  match k with
  | ShowTask => active_tooltip w = Some (WaitingForShow task) /\ active_tooltip (fire task w) =
      (let (e, built) := build_tooltip (env w) in (fun '(v, h) => Visible (mkTooltip v (mouse_position e) h) h) <$> built)
  | HideTask => (exists t, active_tooltip w = Some (WaitingForHide t task)) /\ active_tooltip (fire task w) = None
  end /\ refreshed (fire task w) = S (refreshed w).
Proof.
  intros Hw Hd. unfold fire. rewrite Hd. unfold tidy in Hw.
  destruct (active_tooltip w) as [[t|t h|t task']|] eqn:Ha; try (rewrite Hw, lookup_empty in Hd; discriminate Hd);
    destruct Hw as (d' & Em & _); rewrite Em in Hd; apply lookup_singleton_Some in Hd as [<- [= <- <-]].
  - unfold show. cbn. destruct (build_tooltip (env w)) as [e built]. cbn. rewrite replace_active_is.
    unfold replace_active. cbn. rewrite Ha. cbn. by rewrite Em, !delete_singleton_eq, delete_empty.
  - unfold hide, replace_active. cbn. rewrite Ha. cbn. rewrite Em, !delete_singleton_eq, delete_empty. repeat split. by eexists.
Qed.

Lemma tooltip_step_tidy over w w' : tooltip_step over w w' -> tidy w -> tidy w'.
Proof.
  intros [phase i _|i|i|h b|task d k _ Hd _|e|t Ht] Hw.
  - by apply move_tidy.
  - unfold tooltip_mouse_down. case_match; [by apply clear_tidy|done].
  - unfold tooltip_scroll_wheel. case_match; [by apply clear_tidy|done].
  - by apply check_tidy.
  - destruct (fire_held task d k w Hw Hd) as (Em & Hk & _). unfold tidy.
    destruct k; destruct Hk as [_ ->]; [|done]. destruct (build_tooltip (env w)) as [e [[v h]|]]; exact Em.
  - exact Hw.
  - unfold tidy in *. cbn. destruct (active_tooltip w) as [[]|]; try done;
      destruct Hw as (d & Em & Hd); exists d; split; try done;
      (eapply (map_Forall_lookup_1 _ _ _ (d, _)) in Ht; [|rewrite Em; apply lookup_singleton_eq]); cbn in Ht; lia.
Qed.

Lemma steps_tidy over w w' : rtc (tooltip_step over) w w' -> tidy w -> tidy w'.
Proof. induction 1 as [|w1 w2 w3 Hs _ IH]; [done|]. intros Hw. by apply IH, (tooltip_step_tidy over w1). Qed.

(** A tooltip that waits to be shown keeps waiting while the mouse stays over the element. *)
Definition waits (task d : N) w : Prop :=
  active_tooltip w = Some (WaitingForShow task) /\ timers w = {[task := (d, ShowTask)]}.

Lemma step_waits task d w w' : tooltip_step true w w' -> waits task d w -> waits task d w'.
Proof.
  intros Hs [Ha Em]. destruct Hs as [phase i Ho|i|i|h b|task' d' k Ho _ _|e|t Ht]; try done.
  - unfold handle_tooltip_mouse_move, move_action. rewrite Ha, (Ho eq_refl). done.
  - unfold tooltip_mouse_down, clear_active_tooltip_if_not_hoverable. rewrite Ha. by case_match.
  - unfold tooltip_scroll_wheel, clear_active_tooltip_if_not_hoverable. rewrite Ha. by case_match.
  - unfold handle_tooltip_check_visible_and_update, check_action. rewrite Ha. done.
Qed.

Lemma steps_wait task d w w' : rtc (tooltip_step true) w w' -> waits task d w -> waits task d w'.
Proof. induction 1 as [|w1 w2 w3 Hs _ IH]; [done|]. intros Hw. by apply IH, (step_waits task d w1). Qed.

(** The mouse is over the element, or over its tooltip when that can be hovered. *)
Definition over_either (h : bool) (b : Bounds) w : bool :=
  check_is_hovered_during_prepaint (env w) || (h && contains b (mouse_position (env w))).

(** What prepainting makes of a tooltip, and whether it is still shown. *)
Definition checked (h : bool) (b : Bounds) w (w' : TooltipState) (still : bool) : Prop :=
  match active_tooltip w with
  | Some (Visible t _) =>
      if over_either h b w then w' = w /\ still = true
      else if h then active_tooltip w' = Some (WaitingForHide t (next_task w)) /\
                timers w' = {[next_task w := ((now w + hoverable_tooltip_hide_delay)%N, HideTask)]} /\ still = true
      else active_tooltip w' = None /\ timers w' = ∅ /\ still = false
  | Some (WaitingForHide t _) =>
      if over_either h b w then active_tooltip w' = Some (Visible t true) /\ timers w' = ∅ /\ still = true else w' = w /\ still = true
  | a => w' = w /\ still = bool_decide (is_Some a)
  end.

Lemma check_cases h b w :
  tidy w -> let (w', still) := handle_tooltip_check_visible_and_update h b w in checked h b w w' still.
Proof.
  intros Hw. unfold handle_tooltip_check_visible_and_update, check_action, checked.
  change (check_is_hovered_during_prepaint (env w) || _) with (over_either h b w).
  destruct (active_tooltip w) as [[task|t h'|t task]|] eqn:Ha; try (rewrite Ha; done); destruct (over_either h b w); try (by rewrite Ha).
  - assert (Em : timers w = ∅) by (unfold tidy in Hw; by rewrite Ha in Hw). destruct h.
    + destruct (schedule_hide_ok t h' w Ha Em) as (Ha' & Em' & _). cbn zeta in *. by rewrite Ha', Em'.
    + unfold clear_active_tooltip. rewrite Ha. cbn. by rewrite replace_active_is, replace_timers.
  - rewrite replace_active_is. split; [done|]. split; [by apply replace_timers|done].
Qed.

(** What a move of the mouse makes of a tooltip; and whether the view is to be drawn again, so
    that prepainting looks at the tooltip. *)
Definition moved (phase : TooltipPhase) (has_id : bool) w (w' : TooltipState) : Prop :=
  let hovered := check_is_hovered (env w) in
  match active_tooltip w with
  | None => active_tooltip w' = match phase with TooltipBubble => if hovered then Some (WaitingForShow (next_task w)) else None | TooltipCapture => None end
  | Some (WaitingForShow t) => active_tooltip w' = (if hovered then Some (WaitingForShow t) else None)
  | Some (Visible t h) =>
      active_tooltip w' = Some (Visible t h) /\
      (phase = TooltipCapture -> notified w' = notified w + (if hovered || (h && over_tooltip has_id w) then 0 else 1))
  | Some (WaitingForHide t task) =>
      active_tooltip w' = Some (WaitingForHide t task) /\
      (phase = TooltipCapture -> notified w' = notified w + (if hovered || over_tooltip has_id w then 1 else 0))
  end.

Lemma move_cases phase has_id w : tidy w -> moved phase has_id w (handle_tooltip_mouse_move phase has_id w).
Proof.
  intros Hw. unfold moved, handle_tooltip_mouse_move, move_action.
  destruct (active_tooltip w) as [[task|t h|t task]|] eqn:Ha.
  - destruct (check_is_hovered (env w)); [done|]. apply replace_active_is.
  - destruct phase; [|by split; [|done]]. destruct (check_is_hovered (env w)), h, (over_tooltip has_id w); cbn; rewrite ?Ha; split; try done; intros _; lia.
  - destruct phase; [|by split; [|done]]. destruct (check_is_hovered (env w)), (over_tooltip has_id w); cbn; rewrite ?Ha; split; try done; intros _; lia.
  - destruct (check_is_hovered (env w)), phase; try done.
    assert (Em : timers w = ∅) by (unfold tidy in Hw; by rewrite Ha in Hw). by destruct (schedule_show_ok w Ha Em).
Qed.

(** A press or a turn of the wheel away from the tooltip ends one that cannot be hovered. *)
Lemma press_cases has_id w :
  active_tooltip (tooltip_mouse_down has_id w) =
    match active_tooltip w with
    | Some (Visible t false) => if over_tooltip has_id w then Some (Visible t false) else None
    | a => a
    end.
Proof.
  unfold tooltip_mouse_down, clear_active_tooltip_if_not_hoverable.
  destruct (active_tooltip w) as [[task|t [] |t task]|] eqn:Ha, (over_tooltip has_id w); cbn; rewrite ?Ha; try done. apply replace_active_is.
Qed.

(** C36: from an element without a tooltip, whatever events reach it in whatever order, a task
    waits exactly while the tooltip waits to be shown or hidden, within its delay from now.
    The mouse moving over the element starts the delay, and while it stays there nothing
    restarts or cancels it, so that when it is over the tooltip of the builder is visible; if
    the mouse moves elsewhere before that, the delay is cancelled.  When the window prepaints,
    a visible tooltip stays as it is while the mouse is over the element, or over the tooltip
    if that can be hovered; otherwise one that cannot be hovered is gone, and one that can is
    to be hidden after a delay: it is visible again when the window prepaints with the mouse
    back over either of the two, and gone when the delay is over before that.  A move that
    may change this has the view drawn, and so prepainted, again; a press or a turn of the
    wheel ends only a tooltip that cannot be hovered, and not from over it. *)
Theorem tooltip_correct w0 w :
  active_tooltip w0 = None -> timers w0 = ∅ -> rtc (tooltip_step false) w0 w ->
  tidy w /\
  (forall has_id w', active_tooltip w = None -> check_is_hovered (env w) = true ->
     rtc (tooltip_step true) (handle_tooltip_mouse_move TooltipBubble has_id w) w' ->
     timers w' = {[next_task w := ((now w + show_delay)%N, ShowTask)]} /\ (now w' <= now w + show_delay)%N /\
     let (e, built) := build_tooltip (env w') in
     active_tooltip (fire (next_task w) w') = (fun '(v, h) => Visible (mkTooltip v (mouse_position e) h) h) <$> built) /\
  (forall h b, let (w', still) := handle_tooltip_check_visible_and_update h b w in checked h b w w' still) /\
  (forall phase has_id, moved phase has_id w (handle_tooltip_mouse_move phase has_id w)) /\
  (forall has_id, tooltip_scroll_wheel has_id w = tooltip_mouse_down has_id w /\
     active_tooltip (tooltip_mouse_down has_id w) =
       match active_tooltip w with
       | Some (Visible t false) => if over_tooltip has_id w then Some (Visible t false) else None
       | a => a
       end) /\
  (forall task d, timers w !! task = Some (d, HideTask) ->
     (exists t, active_tooltip w = Some (WaitingForHide t task)) /\ active_tooltip (fire task w) = None /\ timers (fire task w) = ∅).
Proof.
  intros Ha Em Hs. assert (Hw : tidy w) by (apply (steps_tidy _ _ _ Hs); unfold tidy; by rewrite Ha).
  clear Hs Ha Em w0. split; [exact Hw|]. split; [|split; [intros h b; by apply check_cases|split; [intros; by apply move_cases|]]].
  - intros i w' Ha Hh Hs. assert (Em : timers w = ∅) by (unfold tidy in Hw; by rewrite Ha in Hw).
    assert (Hw1 : tidy (handle_tooltip_mouse_move TooltipBubble i w)) by by apply move_tidy.
    assert (Hwait : waits (next_task w) (now w + show_delay) (handle_tooltip_mouse_move TooltipBubble i w)).
    { unfold handle_tooltip_mouse_move, move_action. rewrite Ha, Hh. destruct (schedule_show_ok w Ha Em) as (Ha' & Em' & _). done. }
    destruct (steps_wait _ _ _ _ Hs Hwait) as [Ha' Em']. pose proof (steps_tidy _ _ _ Hs Hw1) as Hw'.
    split; [exact Em'|]. split.
    + unfold tidy in Hw'. rewrite Ha' in Hw'. destruct Hw' as (d & Ed & Hd). rewrite Em' in Ed.
      apply map_singleton_inj in Ed as [_ [= <-]]. lia.
    + destruct (fire_held (next_task w) (now w + show_delay) ShowTask w' Hw') as (_ & [_ Ef] & _); [rewrite Em'; apply lookup_singleton_eq|].
      destruct (build_tooltip (env w')) as [e built]. exact Ef.
  - split; [intros i; split; [done|apply press_cases]|].
    intros task d Hd. destruct (fire_held task d HideTask w Hw Hd) as (Em & [Ht Ef] & _). done.
Qed.

End Tooltips.

(** ** Witness *)

Module TestTooltips.

(** The mouse is over the element, or not, or over the tooltip. *)
Inductive Mouse := OverElement | Away | OverTooltip.
Definition over_element (m : Mouse) : bool := match m with OverElement => true | _ => false end.
Definition over_tip (m : Mouse) : bool := match m with OverTooltip => true | _ => false end.
Definition at_ (m : Mouse) : Point := match m with OverElement => mkPoint 5 5 | Away => mkPoint 90 90 | OverTooltip => mkPoint 25 25 end.
Definition build (m : Mouse) : Mouse * option (nat * bool) := (m, Some (7, true)).
Definition tip_bounds : Bounds := mkBounds (mkPoint 20 20) (mkSize 10 10).

Abbreviation S0 := (mkState (View := nat) None OverElement 0%N 0%N ∅ 0 0).
Abbreviation move := (handle_tooltip_mouse_move (View := nat) over_element over_tip 500 TooltipBubble false).
Abbreviation check := (handle_tooltip_check_visible_and_update (View := nat) over_element at_).
Definition later (t : N) (w : TooltipState (E := Mouse) (View := nat)) : TooltipState :=
  mkState (active_tooltip w) (env w) (now w + t)%N (next_task w) (timers w) (refreshed w) (notified w).

(** Shown after half a second; the mouse leaves, and comes to the tooltip in time; it leaves
    for good. *)
Definition shown := fire at_ build 0 (later 500 (move S0)).
Definition left_once := (check true tip_bounds (set_env Away shown)).1.
Definition came_back := (check true tip_bounds (set_env OverTooltip (later 300 left_once))).1.
Definition left_again := (check true tip_bounds (set_env Away came_back)).1.
Definition gone := fire at_ build 2 (later 500 left_again).

Example life_of_tooltip :
  map active_tooltip [shown; left_once; came_back; left_again; gone] =
    (let t := mkTooltip 7 (mkPoint 5 5) true in
     [Some (Visible t true); Some (WaitingForHide t 1%N); Some (Visible t true); Some (WaitingForHide t 2%N); None]) /\
  timers gone = ∅.
Proof. by vm_compute. Qed.

(** A mouse button that is pressed while a tooltip waits does not keep it from being shown. *)
Example press_does_not_cancel :
  active_tooltip (tooltip_mouse_down over_tip false (move S0)) = Some (WaitingForShow 0%N).
Proof. by vm_compute. Qed.

Lemma away_reached :
  rtc (tooltip_step over_element over_element over_tip at_ build 500 false) S0 (set_env Away (later 100 (move S0))).
Proof.
  eapply rtc_l; [by apply (step_move _ _ _ _ _ _ _ _ TooltipBubble false)|].
  eapply rtc_l; [apply (step_time _ _ _ _ _ _ _ _ 100%N)|]; [|eapply rtc_l; [apply (step_env _ _ _ _ _ _ _ _ Away)|apply rtc_refl]].
  change (timers _) with ({[0%N := (500%N, ShowTask)]} : gmap N (N * TooltipTask)). apply map_Forall_singleton. vm_compute. discriminate.
Qed.

Lemma tooltip_correct_witness :
  tidy 500 (set_env Away (later 100 (move S0))) /\ tidy 500 S0 /\
  timers (move S0) = {[0%N := (500%N, ShowTask)]}.
Proof.
  split; [by apply (tooltip_correct over_element over_element over_tip at_ build 500 S0); [..|exact away_reached]|].
  destruct (tooltip_correct over_element over_element over_tip at_ build 500 S0 S0) as (Ht & Hs & _); [done..|].
  split; [exact Ht|]. apply (Hs false (move S0)); [done..|apply rtc_refl].
Defined.

End TestTooltips.
