(* ===== verification/Scroll.v ===== *)
(** * Scrolling: [crates/gpui/src/elements/div.rs] and [OngoingScroll] of [interactive.rs]

    The offset of a scrollable element, which the wheel, the client's handle and the items that
    are scrolled to move, and which every frame clamps to what the content allows.  A pixel is
    the unit of lengths, so that rounding the maximal offset to two decimals does nothing. *)

From Stdlib Require Import NArith ZArith.
From stdpp Require Import base list option numbers.
From S2P Require Import Prelude Geometry.

#[local] Set Warnings "-register-all,-clear-no-such-hyp".

Open Scope Z_scope.

Inductive Overflow := OverflowVisible | OverflowClip | OverflowHidden | OverflowScroll.
#[global] Instance Overflow_eq_dec : EqDecision Overflow.
Proof. solve_decision. Defined.

Inductive TouchPhase := Started | Moved | Ended.

(** ** Deltas of the wheel *)

(** Lines are whole. *)
Inductive ScrollDelta := PixelsDelta (p : Point) | LinesDelta (p : Point).

Definition precise (d : ScrollDelta) : bool := match d with PixelsDelta _ => true | LinesDelta _ => false end.

Definition pixel_delta (line_height : Z) (d : ScrollDelta) : Point :=
  match d with PixelsDelta p => p | LinesDelta p => mkPoint (line_height * px p) (line_height * py p) end.

(** [f32::signum]. *)
Definition signum (z : Z) : Z := if z <? 0 then -1 else 1.

Definition coalesce_points (a b : Point) : Point :=
  mkPoint (if signum (px a) =? signum (px b) then px a + px b else px b)
    (if signum (py a) =? signum (py b) then py a + py b else py b).

Definition coalesce (d other : ScrollDelta) : ScrollDelta :=
  match d, other with
  | PixelsDelta a, PixelsDelta b => PixelsDelta (coalesce_points a b)
  | LinesDelta a, LinesDelta b => LinesDelta (coalesce_points a b)
  | _, _ => other
  end.

Definition scroll_event_separation : N := 28.
Definition unlock_lower_bound : Z := 6.

Record OngoingScroll := mkOngoing { last_event : option N; scroll_axis : option Axis }.

Definition ongoing_default : OngoingScroll := mkOngoing None None.

Definition unlocked (axis : option Axis) (x y : Z) : option Axis :=
  match axis with
  | Some Vertical => if (y <? x) && (19 * y <=? 10 * x) then None else axis
  | Some Horizontal => if (x <? y) && (19 * x <=? 10 * y) then None else axis
  | None => axis
  end.

(** [now] is an argument; the factor 1.9 is written with whole numbers. *)
Definition filter_at (delta : Point) (phase : TouchPhase) (now : N) (s : OngoingScroll) : OngoingScroll * Point :=
  match phase with
  | Ended => (ongoing_default, delta)
  | _ =>
      let x := Z.abs (px delta) in
      let y := Z.abs (py delta) in
      if (x =? 0) && (y =? 0) then (match phase with Started => ongoing_default | _ => s end, delta)
      else
        let starts_new_gesture :=
          match phase with
          | Started => true
          | _ => match last_event s with None => true | Some l => (scroll_event_separation <=? now - l)%N end
          end in
        let axis :=
          if starts_new_gesture then (if x <=? y then Some Vertical else Some Horizontal)
          else if unlock_lower_bound <=? Z.max x y then unlocked (scroll_axis s) x y
          else scroll_axis s in
        (mkOngoing (Some now) axis,
         match axis with Some Vertical => mkPoint 0 (py delta) | Some Horizontal => mkPoint (px delta) 0 | None => delta end)
  end.

(** ** The state of a scrollable element *)

Inductive ItemStrategy := FirstVisible | ToTop.
Record ScrollActiveItem := mkActive { index : nat; strategy : ItemStrategy }.

(** The overflow of the two axes. *)
Record Overflows := mkOverflows { overflow_x : Overflow; overflow_y : Overflow }.

(** The offset and the ongoing scroll, which are cells of their own, are kept here. *)
Record ScrollHandleState := mkHandle {
  offset : Point;
  ongoing_scroll : OngoingScroll;
  handle_bounds : Bounds;
  max_offset : Size;
  child_bounds : list Bounds;
  scroll_to_bottom_flag : bool;
  handle_overflow : Overflows;
  active_item : option ScrollActiveItem;
}.

Definition zero_point : Point := mkPoint 0 0.
Definition zero_size : Size := mkSize 0 0.

Definition handle_default : ScrollHandleState :=
  mkHandle zero_point ongoing_default (mkBounds zero_point zero_size) zero_size [] false (mkOverflows OverflowVisible OverflowVisible) None.

Implicit Types (h : ScrollHandleState).

Definition set_offset (p : Point) h := mkHandle p (ongoing_scroll h) (handle_bounds h) (max_offset h) (child_bounds h) (scroll_to_bottom_flag h) (handle_overflow h) (active_item h).
Definition set_ongoing o h := mkHandle (offset h) o (handle_bounds h) (max_offset h) (child_bounds h) (scroll_to_bottom_flag h) (handle_overflow h) (active_item h).
Definition set_child_bounds bs h := mkHandle (offset h) (ongoing_scroll h) (handle_bounds h) (max_offset h) bs (scroll_to_bottom_flag h) (handle_overflow h) (active_item h).
Definition set_active_item a h := mkHandle (offset h) (ongoing_scroll h) (handle_bounds h) (max_offset h) (child_bounds h) (scroll_to_bottom_flag h) (handle_overflow h) a.
Definition scroll_to_bottom h := mkHandle (offset h) (ongoing_scroll h) (handle_bounds h) (max_offset h) (child_bounds h) true (handle_overflow h) (active_item h).

Definition scroll_to_item (ix : nat) h := set_active_item (Some (mkActive ix FirstVisible)) h.
Definition scroll_to_top_of_item (ix : nat) h := set_active_item (Some (mkActive ix ToTop)) h.
Definition bounds_for_item (ix : nat) h : option Bounds := child_bounds h !! ix.
Definition children_count h : nat := length (child_bounds h).

(** An element that does not scroll, one that keeps its offset in its state, and one with a
    handle. *)
Inductive Scroller :=
  | NotScrollable
  | Untracked (own_offset : Point) (own_ongoing : OngoingScroll)
  | Tracked (h : ScrollHandleState).

Definition scroller_offset (s : Scroller) : option Point :=
  match s with NotScrollable => None | Untracked o _ => Some o | Tracked h => Some (offset h) end.

(** ** The children of a frame *)

(** [f32::MAX]. *)
Definition pixels_max : Z := (2 ^ 24 - 1) * 2 ^ 104.

(** What [Div::prepaint] measures. *)
Definition content_size (bounds : Bounds) (children : list Bounds) : Size :=
  match children with
  | [] => size bounds
  | _ =>
      let '(child_min, child_max) :=
        foldl (fun '(lo, hi) c => (point_min lo (origin c), point_max hi (bottom_right c))) (mkPoint pixels_max pixels_max, zero_point) children in
      mkSize (px child_max - px child_min) (py child_max - py child_min)
  end.

Definition vertical_offset (strategy : ItemStrategy) (overflow : Overflow) (view b : Bounds) (y : Z) : Z :=
  match strategy with
  | FirstVisible =>
      if bool_decide (overflow = OverflowScroll) then
        if top b + y <? top view then top view - top b
        else if bottom b + y >? bottom view then bottom view - bottom b
        else y
      else y
  | ToTop => top view - top b
  end.

Definition horizontal_offset (overflow : Overflow) (view b : Bounds) (x : Z) : Z :=
  if bool_decide (overflow = OverflowScroll) then
    if left_ b + x <? left_ view then left_ view - left_ b
    else if right_ b + x >? right_ view then right_ view - right_ b
    else x
  else x.

Definition scroll_to_active_item h : ScrollHandleState :=
  match active_item h with
  | None => h
  | Some a =>
      match child_bounds h !! index a with
      | Some b =>
          let y := vertical_offset (strategy a) (overflow_y (handle_overflow h)) (handle_bounds h) b (py (offset h)) in
          let x := horizontal_offset (overflow_x (handle_overflow h)) (handle_bounds h) b (px (offset h)) in
          set_active_item None (set_offset (mkPoint x y) h)
      | None => h
      end
  end.

(** [Ord::clamp], which panics if the bounds are the wrong way round. *)
Definition clamp (lo hi z : Z) : outcome Z := if lo <=? hi then Ok (Z.max lo (Z.min hi z)) else Panic.

Definition scroll_max_of (content : Size) (padding : Edges) (bounds : Bounds) : Size :=
  let padded := mkSize (width content + (left_edge padding + right_edge padding)) (height content + (top_edge padding + bottom_edge padding)) in
  size_max (mkSize (width padded - width (size bounds)) (height padded - height (size bounds))) zero_size.

Definition clamped (scroll_max : Size) (to_bottom : bool) (o : Point) : outcome Point :=
  (let! x := clamp (- width scroll_max) 0 (px o) in
  let! y := if to_bottom then Ok (- height scroll_max) else clamp (- height scroll_max) 0 (py o) in
  Ok (mkPoint x y))%rust.

(** [content] is what [Div::prepaint] measured, [padding] is snapped to the device's pixels. *)
Definition clamp_scroll_position (content : Size) (padding : Edges) (overflow : Overflows) (bounds : Bounds) (s : Scroller) : outcome (Scroller * Point) :=
  (let scroll_max := scroll_max_of content padding bounds in
  match s with
  | NotScrollable => Ok (s, zero_point)
  | Untracked o ongoing =>
      let! o := clamped scroll_max false o in
      Ok (Untracked o ongoing, o)
  | Tracked h =>
      let! o := clamped scroll_max (scroll_to_bottom_flag h) (offset h) in
      Ok (Tracked (mkHandle o (ongoing_scroll h) bounds scroll_max (child_bounds h) false overflow (active_item h)), o)
  end)%rust.

(** [Div::prepaint], up to the children, which are prepainted at the offset returned. *)
Definition div_prepaint (children : list Bounds) (padding : Edges) (overflow : Overflows) (bounds : Bounds) (s : Scroller) : outcome (Scroller * Point) :=
  let s :=
    match s with
    | Tracked h => Tracked (scroll_to_active_item (match children with [] => h | _ => set_child_bounds children h end))
    | _ => s
    end in
  clamp_scroll_position (content_size bounds children) padding overflow bounds s.

(** ** The wheel *)

Definition is_scroll (o : Overflow) : bool := bool_decide (o = OverflowScroll).

Definition axis_delta (own other : Overflow) (restrict : bool) (d d_other : Z) : Z :=
  if is_scroll own then
    if negb (d =? 0) then d
    else if negb restrict && negb (is_scroll other) then d_other
    else 0
  else 0.

(** The two deltas, one of which is dropped unless both may scroll at once. *)
Definition wheel_deltas (overflow : Overflows) (allow_concurrent restrict : bool) (delta : Point) : Z * Z :=
  let dx := axis_delta (overflow_x overflow) (overflow_y overflow) restrict (px delta) (py delta) in
  let dy := axis_delta (overflow_y overflow) (overflow_x overflow) restrict (py delta) (px delta) in
  if negb allow_concurrent && negb (dx =? 0) && negb (dy =? 0) then
    if Z.abs dx >? Z.abs dy then (dx, 0) else (0, dy)
  else (dx, dy).

(** The listener, in the bubble phase and over the element: the offset and the ongoing scroll,
    and whether the view is notified. *)
Definition wheel (overflow : Overflows) (allow_concurrent restrict : bool) (line_height : Z) (d : ScrollDelta) (phase : TouchPhase) (now : N)
    (o : Point) (ongoing : OngoingScroll) : Point * OngoingScroll * bool :=
  let delta := pixel_delta line_height d in
  let '(ongoing, delta) := if restrict && precise d then filter_at delta phase now ongoing else (ongoing, delta) in
  let (dx, dy) := wheel_deltas overflow allow_concurrent restrict delta in
  let o' := mkPoint (px o + dx) (py o + dy) in
  (o', ongoing, negb ((px o' =? px o) && (py o' =? py o))).

Definition scroll_wheel (overflow : Overflows) (allow_concurrent restrict : bool) (line_height : Z) (d : ScrollDelta) (phase : TouchPhase) (now : N) (s : Scroller) : Scroller * bool :=
  match s with
  | NotScrollable => (s, false)
  | Untracked o g =>
      let '(o, g, notified) := wheel overflow allow_concurrent restrict line_height d phase now o g in (Untracked o g, notified)
  | Tracked h =>
      let '(o, g, notified) := wheel overflow allow_concurrent restrict line_height d phase now (offset h) (ongoing_scroll h) in
      (Tracked (set_ongoing g (set_offset o h)), notified)
  end.

(** ** Which items are in view *)

(** [slice::binary_search_by] with a comparison that is [Lt] on a prefix, [Gt] on a suffix and
    [Eq] between: an element between, if there is one, or where one could be inserted. *)
Class BinarySearch := binary_search_by : forall {A : Type}, (A -> comparison) -> list A -> nat + nat.
Class BinarySearchLaws `{BinarySearch} : Prop := {
  search_bounds : forall A (f : A -> comparison) l,
    match binary_search_by f l with inl i => (i < length l)%nat | inr i => (i <= length l)%nat end;
  search_parts : forall A (f : A -> comparison) l m r,
    Forall (fun a => f a = Lt) l -> Forall (fun a => f a = Eq) m -> Forall (fun a => f a = Gt) r ->
    match binary_search_by f (l ++ m ++ r) with
    | inl i => (length l <= i < length l + length m)%nat
    | inr i => m = [] /\ i = length l
    end;
}.

Definition against (line : Z) (b : Bounds) : comparison :=
  if line <? top b then Gt else if line >? bottom b then Lt else Eq.

Section Views.
Context `{BinarySearch}.

(** The item at a height of the content. *)
Definition item_at (line : Z) h : nat :=
  match binary_search_by (against line) (child_bounds h) with
  | inl ix => ix
  | inr ix => Nat.min ix (length (child_bounds h) - 1)
  end.

Definition top_item h : nat := item_at (top (handle_bounds h) - py (offset h)) h.
Definition bottom_item h : nat := item_at (bottom (handle_bounds h) - py (offset h)) h.

Definition logical_scroll_top h : nat * Z :=
  let ix := top_item h in
  match child_bounds h !! ix with
  | Some b => (ix, top b + py (offset h) - top (handle_bounds h))
  | None => (ix, 0)
  end.

Definition logical_scroll_bottom h : nat * Z :=
  let ix := bottom_item h in
  match child_bounds h !! ix with
  | Some b => (ix, bottom b + py (offset h) - bottom (handle_bounds h))
  | None => (ix, 0)
  end.

Context `{!BinarySearchLaws}.

(** Items from top to bottom. *)
Fixpoint stacked (y : Z) (bs : list Bounds) : Prop :=
  match bs with
  | [] => True
  | b :: bs => y <= top b /\ 0 < height (size b) /\ stacked (bottom b) bs
  end.

(** The edges, from the origin and the size. *)
Lemma bottom_eq b : bottom b = top b + height (size b).
Proof. done. Qed.

Lemma stacked_from y bs b : stacked y bs -> b ∈ bs -> y <= top b /\ top b < bottom b.
Proof.
  revert y. induction bs as [|c bs IH]; intros y Hs Hb; [by apply elem_of_nil in Hb|]. cbn in Hs. destruct Hs as (Hy & Hh & Hs).
  apply elem_of_cons in Hb as [->|Hb]; [rewrite bottom_eq; lia|]. destruct (IH _ Hs Hb). rewrite (bottom_eq c) in *. lia.
Qed.

(** The items above a line, those it meets, and those below. *)
Lemma stacked_parts line y bs :
  stacked y bs -> exists l m r, bs = l ++ m ++ r /\ Forall (fun b => against line b = Lt) l /\
    Forall (fun b => against line b = Eq) m /\ Forall (fun b => against line b = Gt) r.
Proof.
  revert y. induction bs as [|b bs IH]; intros y Hs; [by exists [], [], []|]. cbn in Hs. destruct Hs as (Hy & Hh & Hs).
  destruct (IH _ Hs) as (l & m & r & -> & Hl & Hm & Hr).
  assert (Hab : Forall (fun c => bottom b <= top c) (l ++ m ++ r)) by (apply list.Forall_forall; intros c Hc; apply (stacked_from _ _ _ Hs Hc)).
  assert (Hgt : against line b = Gt -> Forall (fun c => against line c = Gt) (l ++ m ++ r)).
  { intros Hb. eapply list.Forall_impl; [exact Hab|]. cbn beta. intros c Hc. pose proof (bottom_eq b). revert Hb. unfold against.
    destruct (Z.ltb_spec line (top b)), (Z.ltb_spec line (top c)); intros; try done; try lia; by destruct (line >? bottom b). }
  assert (Heq : against line b = Eq -> Forall (fun c => against line c <> Lt) (l ++ m ++ r)).
  { intros Hb. pose proof (proj1 (list.Forall_forall _ _) Hab) as Hab'. apply list.Forall_forall. intros c Hc. specialize (Hab' c Hc). cbn beta in Hab'.
    destruct (stacked_from _ _ _ Hs Hc) as [_ Hcb]. revert Hb. unfold against.
    rewrite !Z.gtb_ltb. destruct (Z.ltb_spec line (top b)), (Z.ltb_spec (bottom b) line), (Z.ltb_spec line (top c)), (Z.ltb_spec (bottom c) line); intros; try done; exfalso; lia. }
  destruct (against line b) eqn:Eb.
  - assert (l = []) as -> by (specialize (Heq eq_refl); destruct l as [|c l]; [done|]; inversion_clear Heq as [|?? Hc _]; inversion_clear Hl; contradiction).
    exists [], (b :: m), r. repeat constructor; done.
  - exists (b :: l), m, r. repeat constructor; done.
  - exists [], [], (b :: l ++ m ++ r). repeat constructor; [done|]. by apply Hgt.
Qed.

(** The item found is the one that the line meets; if the line is between two, the one below;
    and at the end, the last. *)
Lemma item_at_correct line y h b :
  stacked y (child_bounds h) -> child_bounds h !! item_at line h = Some b ->
  (top b <= line <= bottom b) \/
  (forall i c, child_bounds h !! i = Some c ->
     if (i <? item_at line h)%nat then bottom c < line else line < top c \/ (S (item_at line h) = length (child_bounds h) /\ bottom c < line)).
Proof.
  intros Hs. destruct (stacked_parts line y (child_bounds h) Hs) as (l & m & r & E & Hl & Hm & Hr).
  pose proof (search_parts _ (against line) l m r Hl Hm Hr) as Hp. unfold item_at. rewrite E.
  destruct (binary_search_by (against line) (l ++ m ++ r)) as [i|i].
  - intros Hb. left. assert (Hbm : b ∈ m).
    { rewrite lookup_app_r in Hb by lia. rewrite lookup_app_l in Hb by lia. by eapply list_elem_of_lookup_2. }
    pose proof (proj1 (list.Forall_forall _ _) Hm b Hbm) as Hc. cbn in Hc. revert Hc. unfold against. rewrite Z.gtb_ltb.
    destruct (Z.ltb_spec line (top b)), (Z.ltb_spec (bottom b) line); intros; try done; lia.
  - destruct Hp as [-> ->]. cbn [app]. intros _. right. intros i c Hc.
    assert (Hlt : forall c, c ∈ l -> bottom c < line).
    { intros c' Hc'. pose proof (proj1 (list.Forall_forall _ _) Hl c' Hc') as Ha. cbn in Ha. revert Ha. unfold against. rewrite Z.gtb_ltb.
      destruct (Z.ltb_spec line (top c')), (Z.ltb_spec (bottom c') line); done || lia. }
    apply lookup_app_Some in Hc as [Hc|[Hi Hc]].
    + pose proof (lookup_lt_Some _ _ _ Hc). pose proof (Hlt c (list_elem_of_lookup_2 _ _ _ Hc)).
      rewrite length_app. destruct (Nat.ltb_spec i (length l `min` (length l + length r - 1))); [done|]. right. lia.
    + pose proof (lookup_lt_Some _ _ _ Hc). rewrite length_app. destruct (Nat.ltb_spec i (length l `min` (length l + length r - 1))); [lia|].
      left. pose proof (proj1 (list.Forall_forall _ _) Hr c (list_elem_of_lookup_2 _ _ _ Hc)) as Ha. cbn in Ha. revert Ha. unfold against.
      destruct (Z.ltb_spec line (top c)); [done|]. by destruct (_ >? _).
Qed.
End Views.

(** ** A frame *)

Lemma clamp_ok lo hi z : lo <= hi -> exists z', clamp lo hi z = Ok z' /\ lo <= z' <= hi /\ (lo <= z <= hi -> z' = z).
Proof. intros Hle. unfold clamp. destruct (Z.leb_spec lo hi); [|lia]. eexists. split; [done|]. lia. Qed.

Lemma scroll_max_eq content padding b :
  scroll_max_of content padding b =
  mkSize (Z.max 0 (width content + left_edge padding + right_edge padding - width (size b)))
    (Z.max 0 (height content + top_edge padding + bottom_edge padding - height (size b))).
Proof.
  unfold scroll_max_of, size_max. cbn. f_equal; match goal with |- context [?a >=? 0] => destruct (Z.geb_spec a 0) end; lia.
Qed.

Definition in_range (m : Size) (o : Point) : Prop := - width m <= px o <= 0 /\ - height m <= py o <= 0.

Lemma scroll_max_pos content padding b : 0 <= width (scroll_max_of content padding b) /\ 0 <= height (scroll_max_of content padding b).
Proof. rewrite scroll_max_eq. cbn. lia. Qed.

Lemma clamped_ok m to_bottom o :
  0 <= width m -> 0 <= height m ->
  exists o', clamped m to_bottom o = Ok o' /\ in_range m o' /\ (to_bottom = true -> py o' = - height m) /\
    (to_bottom = false -> clamp (- height m) 0 (py o) = Ok (py o')) /\
    (to_bottom = false -> in_range m o -> o' = o) /\ clamp (- width m) 0 (px o) = Ok (px o').
Proof.
  intros Hw Hh. unfold clamped, in_range. destruct (clamp_ok (- width m) 0 (px o)) as (x & -> & Hx & Hkx); [lia|]. cbn.
  destruct to_bottom; cbn.
  - eexists. split; [done|]. cbn. repeat split; try done; lia.
  - destruct (clamp_ok (- height m) 0 (py o)) as (y & -> & Hy & Hky); [lia|]. cbn. eexists. split; [done|]. cbn.
    repeat split; try done; try lia. intros _ [H1 H2]. rewrite Hkx, Hky by done. by destruct o.
Qed.

(** The children are in what is measured. *)
Lemma content_fold children lo hi :
  let '(lo', hi') := foldl (fun '(lo, hi) c => (point_min lo (origin c), point_max hi (bottom_right c))) (lo, hi) children in
  (px lo' <= px lo /\ py lo' <= py lo /\ px hi <= px hi' /\ py hi <= py hi') /\
  forall c, c ∈ children -> px lo' <= left_ c /\ py lo' <= top c /\ right_ c <= px hi' /\ bottom c <= py hi'.
Proof.
  revert lo hi. induction children as [|d children IH]; intros lo hi; cbn [foldl].
  - split; [lia|]. intros c Hc. by apply elem_of_nil in Hc.
  - specialize (IH (point_min lo (origin d)) (point_max hi (bottom_right d))). destruct (foldl _ _ children) as [lo' hi'].
    rewrite point_min_spec, point_max_spec in IH. cbn [px py bottom_right] in IH. destruct IH as [Hb Hc].
    split; [lia|]. intros c [->|Hin]%elem_of_cons; [|by apply Hc]. unfold left_, top, right_, bottom. lia.
Qed.

Lemma content_height b children c d : c ∈ children -> d ∈ children -> bottom c - top d <= height (content_size b children).
Proof.
  intros Hc Hd. unfold content_size. destruct children as [|e children]; [by apply elem_of_nil in Hc|].
  pose proof (content_fold (e :: children) (mkPoint pixels_max pixels_max) zero_point) as Hf.
  destruct (foldl _ _ (e :: children)) as [lo hi]. destruct Hf as [_ Hf]. cbn.
  destruct (Hf c Hc) as (_ & _ & _ & ?), (Hf d Hd) as (_ & ? & _). lia.
Qed.

Lemma content_width b children c d : c ∈ children -> d ∈ children -> right_ c - left_ d <= width (content_size b children).
Proof.
  intros Hc Hd. unfold content_size. destruct children as [|e children]; [by apply elem_of_nil in Hc|].
  pose proof (content_fold (e :: children) (mkPoint pixels_max pixels_max) zero_point) as Hf.
  destruct (foldl _ _ (e :: children)) as [lo hi]. destruct Hf as [_ Hf]. cbn.
  destruct (Hf c Hc) as (_ & _ & ? & _), (Hf d Hd) as (? & _). lia.
Qed.

(** Prepainting never panics, and the offset is in the range of the new content. *)
Lemma clamp_position_ok content padding overflow b s :
  exists s' o, clamp_scroll_position content padding overflow b s = Ok (s', o) /\
    (s = NotScrollable \/ in_range (scroll_max_of content padding b) o /\ scroller_offset s' = Some o) /\
    clamp_scroll_position content padding overflow b s' = Ok (s', o).
Proof.
  destruct (scroll_max_pos content padding b) as [Hw Hh]. destruct s as [|p g|h]; unfold clamp_scroll_position.
  - exists NotScrollable, zero_point. auto.
  - destruct (clamped_ok (scroll_max_of content padding b) false p Hw Hh) as (o & -> & Hr & _). exists (Untracked o g), o.
    split; [done|]. split; [by right|].
    destruct (clamped_ok (scroll_max_of content padding b) false o Hw Hh) as (o' & -> & _ & _ & _ & Ho & _). by rewrite (Ho eq_refl Hr).
  - destruct (clamped_ok (scroll_max_of content padding b) (scroll_to_bottom_flag h) (offset h) Hw Hh) as (o & -> & Hr & _). cbn [obind].
    eexists _, o. split; [done|]. split; [by right|]. cbn.
    destruct (clamped_ok (scroll_max_of content padding b) false o Hw Hh) as (o' & -> & _ & _ & _ & Ho & _). by rewrite (Ho eq_refl Hr).
Qed.

(** What is between [a] and [b] is between [lo] and [hi] when it is moved by [o]. *)
Definition shown (lo hi a b o : Z) : Prop := lo <= a + o /\ b + o <= hi.

(** An item that is scrolled to is in view, if it fits; one that is in view is not moved. *)
Lemma vertical_offset_in_view view b y :
  height (size b) <= height (size view) ->
  let y' := vertical_offset FirstVisible OverflowScroll view b y in
  shown (top view) (bottom view) (top b) (bottom b) y' /\ (shown (top view) (bottom view) (top b) (bottom b) y -> y' = y).
Proof.
  intros Hh. unfold vertical_offset, shown. rewrite bool_decide_true, Z.gtb_ltb by done. pose proof (bottom_eq b). pose proof (bottom_eq view).
  destruct (Z.ltb_spec (top b + y) (top view)), (Z.ltb_spec (bottom view) (bottom b + y)); lia.
Qed.

Lemma horizontal_offset_in_view view b x :
  width (size b) <= width (size view) ->
  let x' := horizontal_offset OverflowScroll view b x in
  shown (left_ view) (right_ view) (left_ b) (right_ b) x' /\ (shown (left_ view) (right_ view) (left_ b) (right_ b) x -> x' = x).
Proof.
  intros Hw. unfold horizontal_offset, shown. rewrite bool_decide_true, Z.gtb_ltb by done. assert (right_ b = left_ b + width (size b)) by done.
  assert (right_ view = left_ view + width (size view)) by done.
  destruct (Z.ltb_spec (left_ b + x) (left_ view)), (Z.ltb_spec (right_ view) (right_ b + x)); lia.
Qed.

(** A child that is no higher than the element and not above it, where the content begins in
    the padding at the latest; and the same across. *)
Definition fits_y (padding : Edges) (bounds : Bounds) (children : list Bounds) (c : Bounds) : Prop :=
  height (size c) <= height (size bounds) /\ top bounds <= top c /\
  exists d, d ∈ children /\ top d <= top bounds + (top_edge padding + bottom_edge padding).
Definition fits_x (padding : Edges) (bounds : Bounds) (children : list Bounds) (c : Bounds) : Prop :=
  width (size c) <= width (size bounds) /\ left_ bounds <= left_ c /\
  exists d, d ∈ children /\ left_ d <= left_ bounds + (left_edge padding + right_edge padding).

(** An offset that is forced into the range. *)
Definition into_range (m o : Z) : Z := Z.max (- m) (Z.min 0 o).

Lemma clamp_into_range m o : 0 <= m -> clamp (- m) 0 o = Ok (into_range m o).
Proof. intros Hm. unfold clamp. by destruct (Z.leb_spec (- m) 0); [|lia]. Qed.

(** Clamping keeps a child in view. *)
Lemma into_range_shown content p1 p2 view lo a b d o :
  b - d <= content -> d <= lo + (p1 + p2) -> lo <= a -> shown lo (lo + view) a b o ->
  shown lo (lo + view) a b (into_range (Z.max 0 (content + p1 + p2 - view)) o).
Proof. unfold shown, into_range. lia. Qed.

(** What happens to the item that is scrolled to, before the offset is clamped. *)
Lemma scroll_to_active_ok children c ix st h :
  children !! ix = Some c -> active_item h = Some (mkActive ix st) ->
  let h' := scroll_to_active_item (match children with [] => h | _ => set_child_bounds children h end) in
  active_item h' = None /\ scroll_to_bottom_flag h' = scroll_to_bottom_flag h /\
  offset h' = mkPoint (horizontal_offset (overflow_x (handle_overflow h)) (handle_bounds h) c (px (offset h)))
                (vertical_offset st (overflow_y (handle_overflow h)) (handle_bounds h) c (py (offset h))).
Proof.
  intros Hc Ha. destruct children as [|d children]; [done|]. unfold scroll_to_active_item.
  cbn [set_child_bounds active_item child_bounds handle_overflow handle_bounds offset]. rewrite Ha. cbn [index strategy]. by rewrite Hc.
Qed.

(** The offset that clamping gives a handle. *)
Lemma clamped_handle content padding overflow bounds h s' o :
  clamp_scroll_position content padding overflow bounds (Tracked h) = Ok (s', o) ->
  let m := scroll_max_of content padding bounds in
  (exists h', s' = Tracked h' /\ active_item h' = active_item h /\ scroll_to_bottom_flag h' = false) /\
  px o = into_range (width m) (px (offset h)) /\
  py o = (if scroll_to_bottom_flag h then - height m else into_range (height m) (py (offset h))).
Proof.
  intros E m. unfold clamp_scroll_position, clamped in E. fold m in E. destruct (scroll_max_pos content padding bounds) as [Hw Hh]. fold m in Hw, Hh.
  rewrite clamp_into_range in E by done. cbn [obind] in E. destruct (scroll_to_bottom_flag h); [|rewrite clamp_into_range in E by done];
    injection E as <- <-; split; [by eexists| |by eexists|]; done.
Qed.

(** An item that was found is not asked for again. *)
Lemma settled children padding overflow bounds s s' o :
  clamp_scroll_position (content_size bounds children) padding overflow bounds
    (match s with
     | Tracked h => Tracked (scroll_to_active_item (match children with [] => h | _ => set_child_bounds children h end))
     | _ => s
     end) = Ok (s', o) ->
  s' = match s' with
       | Tracked h => Tracked (scroll_to_active_item (match children with [] => h | _ => set_child_bounds children h end))
       | _ => s'
       end.
Proof.
  destruct s as [|p g|h]; unfold clamp_scroll_position.
  - by intros [= <- _].
  - by destruct (clamped _ _ p); intros [= <- _].
  - set (h1 := match children with [] => h | _ => _ end). destruct (clamped _ _ _) as [p| |]; [|discriminate..]. intros [= <- _]. f_equal.
    assert (Hb : children = [] \/ child_bounds (scroll_to_active_item h1) = children).
    { unfold h1, scroll_to_active_item. destruct children; [by left|right]. cbn. by destruct (active_item h); [destruct (_ !! _)|]. }
    assert (Ha : scroll_to_active_item h1 = h1 \/ active_item (scroll_to_active_item h1) = None).
    { unfold scroll_to_active_item. destruct (active_item h1); [destruct (_ !! _)|]; auto. }
    assert (Hn : active_item (scroll_to_active_item h1) = None \/ exists a, active_item (scroll_to_active_item h1) = Some a /\ child_bounds (scroll_to_active_item h1) !! index a = None).
    { unfold scroll_to_active_item. destruct (active_item h1) as [a|] eqn:Ea; [|by left]. destruct (_ !! _) eqn:El; [by left|]. right. by exists a. }
    set (h2 := scroll_to_active_item h1) in *. clearbody h2.
    replace (match children with [] => _ | _ => set_child_bounds _ _ end) with
      (mkHandle p (ongoing_scroll h2) bounds (scroll_max_of (content_size bounds children) padding bounds) (child_bounds h2) false overflow (active_item h2)).
    + unfold scroll_to_active_item. cbn. destruct Hn as [->|(x & -> & ->)]; done.
    + destruct Hb as [->|Hb]; [done|]. destruct children; [done|]. unfold set_child_bounds. cbn. by rewrite Hb.
Qed.

(** Where an item that was asked for ends up. *)
Lemma asked_item children padding overflow bounds h s' o ix st c :
  div_prepaint children padding overflow bounds (Tracked h) = Ok (s', o) ->
  children !! ix = Some c -> active_item h = Some (mkActive ix st) -> handle_bounds h = bounds ->
  let m := scroll_max_of (content_size bounds children) padding bounds in
  (exists h', s' = Tracked h' /\ active_item h' = None) /\
  (scroll_to_bottom_flag h = false ->
   match st with
   | FirstVisible =>
       overflow_y (handle_overflow h) = OverflowScroll -> fits_y padding bounds children c ->
       shown (top bounds) (bottom bounds) (top c) (bottom c) (py o) /\
       (shown (top bounds) (bottom bounds) (top c) (bottom c) (py (offset h)) -> py o = into_range (height m) (py (offset h)))
   | ToTop => py o = into_range (height m) (top bounds - top c)
   end) /\
  (overflow_x (handle_overflow h) = OverflowScroll -> fits_x padding bounds children c ->
   shown (left_ bounds) (right_ bounds) (left_ c) (right_ c) (px o) /\
   (shown (left_ bounds) (right_ bounds) (left_ c) (right_ c) (px (offset h)) -> px o = into_range (width m) (px (offset h)))).
Proof.
  intros E Hc Ha Hb m. unfold div_prepaint in E. pose proof (list_elem_of_lookup_2 _ _ _ Hc) as Hin.
  destruct (scroll_to_active_ok children c ix st h Hc Ha) as (Ha' & Hf' & Ho'). apply clamped_handle in E as ((h' & -> & Hn & _) & Hx & Hy).
  fold m in Hx, Hy. rewrite Ha' in Hn. rewrite Ho', Hb in Hx, Hy. cbn [px py] in Hx, Hy. rewrite Hf' in Hy. clear Ho' Ha' Hf'.
  pose proof (scroll_max_eq (content_size bounds children) padding bounds) as Em. fold m in Em.
  split; [by eexists|]. split.
  - intros Hf. rewrite Hf in Hy. destruct st; [|exact Hy]. intros Hs (Hh & Ht & d & Hd & Hp). rewrite Hs in Hy.
    destruct (vertical_offset_in_view bounds c (py (offset h)) Hh) as [Hv Hk]. rewrite Hy. split; [|intros Hsh; by rewrite Hk].
    rewrite Em. cbn [height]. exact (into_range_shown _ _ _ _ _ _ _ _ _ (content_height bounds children c d Hin Hd) Hp Ht Hv).
  - intros Hs (Hw & Hl & d & Hd & Hp). rewrite Hs in Hx.
    destruct (horizontal_offset_in_view bounds c (px (offset h)) Hw) as [Hv Hk]. rewrite Hx. split; [|intros Hsh; by rewrite Hk].
    rewrite Em. cbn [width]. exact (into_range_shown _ _ _ _ _ _ _ _ _ (content_width bounds children c d Hin Hd) Hp Hl Hv).
Qed.

(** Without one, the offset is only forced into the range. *)
Lemma nothing_asked children padding overflow bounds h s' o :
  div_prepaint children padding overflow bounds (Tracked h) = Ok (s', o) -> active_item h = None ->
  let m := scroll_max_of (content_size bounds children) padding bounds in
  px o = into_range (width m) (px (offset h)) /\
  py o = (if scroll_to_bottom_flag h then - height m else into_range (height m) (py (offset h))).
Proof.
  intros E Ha m. unfold div_prepaint in E. apply clamped_handle in E as (_ & Hx & Hy). revert Hx Hy. unfold scroll_to_active_item.
  destruct children; cbn [set_child_bounds active_item]; by rewrite Ha.
Qed.

(** C37: prepainting an element never panics; its offset ends up between nothing and what the
    content overflows by, in both directions, and another prepainting with the same content
    does not move it.  A handle that no item is asked of keeps its offset as far as the range
    allows, or goes to the bottom if that was asked for.  An item that was asked for, when the
    bounds are those of the frame before, is not asked for again.  Asked for at the top, it is
    as near to the top as the range allows; asked to be visible, it is in view vertically, and
    the offset is kept if it was in view already, as far as the range allows; and the same
    horizontally however it was asked for.  For the vertical part the bottom must not have
    been asked for at once; an item is brought into view along an axis if the style of the
    frame before scrolls along it, the item is not larger than the element there and does not
    begin before it, and the content begins in the padding at the latest. *)
Theorem scroll_prepaint_correct children padding overflow bounds s :
  let m := scroll_max_of (content_size bounds children) padding bounds in
  exists s' o, div_prepaint children padding overflow bounds s = Ok (s', o) /\
    (s = NotScrollable \/ in_range m o /\ scroller_offset s' = Some o) /\
    div_prepaint children padding overflow bounds s' = Ok (s', o) /\
    (forall h, s = Tracked h -> active_item h = None ->
       px o = into_range (width m) (px (offset h)) /\
       py o = (if scroll_to_bottom_flag h then - height m else into_range (height m) (py (offset h)))) /\
    (forall h ix st c, s = Tracked h -> children !! ix = Some c -> active_item h = Some (mkActive ix st) -> handle_bounds h = bounds ->
       (exists h', s' = Tracked h' /\ active_item h' = None) /\
       (scroll_to_bottom_flag h = false ->
        match st with
        | FirstVisible =>
            overflow_y (handle_overflow h) = OverflowScroll -> fits_y padding bounds children c ->
            shown (top bounds) (bottom bounds) (top c) (bottom c) (py o) /\
            (shown (top bounds) (bottom bounds) (top c) (bottom c) (py (offset h)) -> py o = into_range (height m) (py (offset h)))
        | ToTop => py o = into_range (height m) (top bounds - top c)
        end) /\
       (overflow_x (handle_overflow h) = OverflowScroll -> fits_x padding bounds children c ->
        shown (left_ bounds) (right_ bounds) (left_ c) (right_ c) (px o) /\
        (shown (left_ bounds) (right_ bounds) (left_ c) (right_ c) (px (offset h)) -> px o = into_range (width m) (px (offset h))))).
Proof.
  intros m.
  assert (Hp : exists s' o, div_prepaint children padding overflow bounds s = Ok (s', o) /\ (s = NotScrollable \/ in_range m o /\ scroller_offset s' = Some o) /\
    div_prepaint children padding overflow bounds s' = Ok (s', o)).
  { unfold div_prepaint. set (s1 := match s with Tracked h => Tracked (scroll_to_active_item _) | _ => s end).
    destruct (clamp_position_ok (content_size bounds children) padding overflow bounds s1) as (s' & o & E & Hr & E').
    exists s', o. split; [exact E|]. split; [destruct Hr as [Hn|Hr]; [left; by destruct s|by right]|].
    replace (match s' with Tracked h => Tracked (scroll_to_active_item _) | _ => s' end) with s'; [exact E'|].
    apply (settled _ _ _ _ _ _ _ E). }
  destruct Hp as (s' & o & E & Hr & E'). exists s', o. split_and!; [exact E|exact Hr|exact E'|..].
  - intros h -> Ha. by eapply nothing_asked.
  - intros h ix st c -> Hc Ha Hb. by eapply asked_item.
Qed.

(** ** Gestures and the wheel *)

(** A gesture that is restricted to an axis moves along it only, and the axis of a gesture that
    starts is the one it moves more along. *)
Lemma filter_at_axis delta phase now s :
  phase <> Ended -> (px delta <> 0 \/ py delta <> 0) ->
  let (s', d) := filter_at delta phase now s in
  last_event s' = Some now /\
  match scroll_axis s' with
  | Some Vertical => d = mkPoint 0 (py delta)
  | Some Horizontal => d = mkPoint (px delta) 0
  | None => d = delta /\ phase = Moved
  end /\
  (phase = Started -> scroll_axis s' = Some (if Z.abs (px delta) <=? Z.abs (py delta) then Vertical else Horizontal)).
Proof.
  intros Hp Hd. assert (E : (Z.abs (px delta) =? 0) && (Z.abs (py delta) =? 0) = false).
  { apply andb_false_iff. rewrite !Z.eqb_neq. lia. }
  destruct phase; [| |done]; cbn zeta beta iota delta [filter_at]; rewrite E; cbn.
  - destruct (Z.abs (px delta) <=? Z.abs (py delta)); auto.
  - destruct (match last_event s with None => _ | Some _ => _ end); [destruct (Z.abs (px delta) <=? Z.abs (py delta)); (split; [done|]; by split)|].
    split; [done|]. split; [|done]. by destruct (if unlock_lower_bound <=? _ then _ else _) as [[]|].
Qed.

(** Until the other axis wins clearly, the axis of a gesture stays. *)
Lemma filter_at_locked delta now l axis :
  (now - l < scroll_event_separation)%N ->
  match axis with
  | Vertical => 10 * Z.abs (px delta) < 19 * Z.abs (py delta)
  | Horizontal => 10 * Z.abs (py delta) < 19 * Z.abs (px delta)
  end ->
  scroll_axis (filter_at delta Moved now (mkOngoing (Some l) (Some axis))).1 = Some axis.
Proof.
  intros Hn Hd. cbn zeta beta iota delta [filter_at]. destruct ((Z.abs (px delta) =? 0) && _); [done|]. cbn [last_event scroll_axis].
  destruct (N.leb_spec scroll_event_separation (now - l)); [lia|]. destruct (_ <=? _); [|done].
  unfold unlocked. destruct axis; (match goal with |- context [?a <=? ?b] => destruct (Z.leb_spec a b) end; [lia|]); by rewrite andb_false_r.
Qed.

(** The wheel moves an axis only if the element scrolls along it; only both if it may, and by
    what it was turned by. *)
Lemma wheel_deltas_axes overflow allow restrict delta :
  let (dx, dy) := wheel_deltas overflow allow restrict delta in
  (overflow_x overflow <> OverflowScroll -> dx = 0) /\ (overflow_y overflow <> OverflowScroll -> dy = 0) /\
  (allow = false -> dx = 0 \/ dy = 0) /\ (dx = 0 \/ dx = px delta \/ dx = py delta) /\ (dy = 0 \/ dy = py delta \/ dy = px delta).
Proof.
  assert (Ha : forall own other d d', (own <> OverflowScroll -> axis_delta own other restrict d d' = 0) /\
    (axis_delta own other restrict d d' = 0 \/ axis_delta own other restrict d d' = d \/ axis_delta own other restrict d d' = d')).
  { intros own other d d'. unfold axis_delta, is_scroll. case_bool_decide; [|auto]. destruct (negb (d =? 0)); [by split; [|auto]|].
    by destruct (_ && _); split; auto. }
  unfold wheel_deltas. destruct (Ha (overflow_x overflow) (overflow_y overflow) (px delta) (py delta)) as [Hx Hx'].
  destruct (Ha (overflow_y overflow) (overflow_x overflow) (py delta) (px delta)) as [Hy Hy'].
  set (dx := axis_delta _ _ _ (px delta) _) in *. set (dy := axis_delta _ _ _ (py delta) _) in *. clearbody dx dy.
  destruct allow; cbn; [by auto 6|]. destruct (Z.eqb_spec dx 0), (Z.eqb_spec dy 0); cbn; auto 8.
  destruct (_ >? _); auto 8.
Qed.

(** ** Anchors *)

(** [ScrollAnchor]: the origin of its element, as it would be without scrolling, is noted while
    it is prepainted; the handle is moved in the next frame. *)
Definition anchor_origin (bounds : Bounds) (element_offset : Point) : Point := point_sub (origin bounds) element_offset.
Definition anchor_scroll_to (last_origin : Point) h : ScrollHandleState := set_offset (point_sub (origin (handle_bounds h)) last_origin) h.

(** ** Tests and witness *)

Module TestScroll.

(** A search from the start. *)
#[local] Instance linear : BinarySearch := fun A f l =>
  (fix go i l := match l with [] => inr i | a :: l => match f a with Eq => inl i | Lt => go (S i) l | Gt => inr i end end) 0%nat l.

Definition view : Bounds := mkBounds (mkPoint 0 10) (mkSize 100 50).
Definition item (i : Z) : Bounds := mkBounds (mkPoint 0 (10 + 30 * i)) (mkSize 100 30).
Definition items : list Bounds := map item [0; 1; 2; 3].
Definition no_padding : Edges := mkEdges 0 0 0 0.
Definition vertical : Overflows := mkOverflows OverflowVisible OverflowScroll.
Definition frame (s : Scroller) : Scroller * Point :=
  match div_prepaint items no_padding vertical view s with Ok r => r | _ => (s, zero_point) end.
Definition tracked (s : Scroller) : ScrollHandleState := match s with Tracked h => h | _ => handle_default end.
Definition prepainted : ScrollHandleState := tracked (frame (Tracked handle_default)).1.

Example scrolled_to_item :
  let '(s, o) := frame (Tracked (scroll_to_item 2 prepainted)) in
  o = mkPoint 0 (-40) /\ max_offset (tracked s) = mkSize 0 70 /\ top_item (tracked s) = 1%nat /\ logical_scroll_top (tracked s) = (1%nat, -10).
Proof. by vm_compute. Qed.

(** Before the first frame the handle has neither the style nor the bounds of the element: an
    item that is asked for is forgotten without a scroll. *)
Example first_request_lost :
  let '(s, o) := frame (Tracked (scroll_to_item 2 handle_default)) in
  o = zero_point /\ active_item (tracked s) = None.
Proof. by vm_compute. Qed.

Example axis_locked :
  let '(g, d1) := filter_at (mkPoint 1 10) Started 0 ongoing_default in
  let '(g, d2) := filter_at (mkPoint 8 9) Moved 10 g in
  let '(g, d3) := filter_at (mkPoint 20 9) Moved 20 g in
  (d1, d2, d3) = (mkPoint 0 10, mkPoint 0 9, mkPoint 20 9).
Proof. by vm_compute. Qed.

Lemma item_fits : fits_y no_padding view items (item 2).
Proof.
  split; [done|]. split; [done|]. exists (item 0). split; [by apply (list_elem_of_lookup_2 _ 0%nat)|done].
Qed.

Lemma scroll_prepaint_correct_witness :
  exists s' o, div_prepaint items no_padding vertical view (Tracked (scroll_to_item 2 prepainted)) = Ok (s', o) /\
    shown (top view) (bottom view) (top (item 2)) (bottom (item 2)) (py o).
Proof.
  destruct (scroll_prepaint_correct items no_padding vertical view (Tracked (scroll_to_item 2 prepainted))) as (s' & o & E & _ & _ & _ & Hi).
  exists s', o. split; [exact E|].
  destruct (Hi (scroll_to_item 2 prepainted) 2%nat FirstVisible (item 2)) as (_ & H1 & _); [reflexivity..|]. by apply H1; [reflexivity..|exact item_fits].
Defined.

End TestScroll.
