(* ===== verification/UniformList.v ===== *)
(** * Uniform lists: [crates/gpui/src/elements/uniform_list.rs]

    A list whose items have the height of the one that is measured: only the items in view are
    rendered, at multiples of the height, and the offset follows from the item that was asked
    for.  The scrolling is that of [Scroll]; styles are given by their borders and padding.
    Indices are integers; the unit of lengths is such that divisions by a height are those of
    integers, and halves are rounded. *)

From Stdlib Require Import NArith ZArith.
From stdpp Require Import base list option numbers.
From S2P Require Import Prelude Geometry Scroll.

#[local] Set Warnings "-register-all,-clear-no-such-hyp".

Open Scope Z_scope.

Inductive UniformStrategy := AtTop | AtCenter | AtBottom.

Record DeferredScrollToItem := mkDeferred { item_index : Z; deferred_strategy : UniformStrategy; deferred_offset : Z; scroll_strict : bool }.

Record ItemSize := mkItemSize { item_size : Size; contents_size : Size }.

Record UniformListScrollState := mkUniform {
  base_handle : ScrollHandleState;
  deferred_scroll_to_item : option DeferredScrollToItem;
  last_item_size : option ItemSize;
  flipped : bool;
}.

Implicit Types (s : UniformListScrollState).

Definition uniform_new : UniformListScrollState := mkUniform handle_default None None false.

Definition defer_scroll (d : DeferredScrollToItem) s := mkUniform (base_handle s) (Some d) (last_item_size s) (flipped s).
Definition uniform_scroll_to_item (ix : Z) (st : UniformStrategy) := defer_scroll (mkDeferred ix st 0 false).
Definition scroll_to_item_strict (ix : Z) (st : UniformStrategy) := defer_scroll (mkDeferred ix st 0 true).
Definition scroll_to_item_with_offset (ix : Z) (st : UniformStrategy) (o : Z) := defer_scroll (mkDeferred ix st o false).
Definition scroll_to_item_strict_with_offset (ix : Z) (st : UniformStrategy) (o : Z) := defer_scroll (mkDeferred ix st o true).

Definition is_scrollable s : bool :=
  match last_item_size s with Some z => height (contents_size z) >? height (item_size z) | None => false end.

Definition is_scrolled_to_end s : option bool :=
  if height (max_offset (base_handle s)) <=? 0 then None
  else Some (- py (offset (base_handle s)) >=? height (max_offset (base_handle s))).

(** [Pixels::MIN]. *)
Definition pixels_min : Z := - pixels_max.

(** The builder [y_flipped], on the state of the handle. *)
Definition y_flipped (v : bool) s : UniformListScrollState :=
  let o := offset (base_handle s) in
  match last_item_size s with
  | Some z =>
      if negb (Bool.eqb (flipped s) v) then
        mkUniform (set_offset (mkPoint (px o) (- (py o + height (contents_size z) - height (item_size z)))) (base_handle s))
          (deferred_scroll_to_item s) (last_item_size s) v
      else s
  | None =>
      if v then mkUniform (set_offset (mkPoint (px o) pixels_min) (base_handle s)) (deferred_scroll_to_item s) (last_item_size s) v else s
  end.

(** ** The element *)

Section UniformList.
Context {Item : Type}.

(** The number of items and what the client renders; the size of the item that is measured. *)
Record UniformList := mkList {
  item_count : Z;
  render_items : Z * Z -> list Item;
  measured : Size;
  can_scroll_horizontally : bool;
  scroll_handle : option UniformListScrollState;
}.

Implicit Types (l : UniformList).

(** [measure_item]. *)
Definition measure_item l : Size :=
  if item_count l =? 0 then zero_size else measured l.

Inductive UniformSpace := Definite (z : Z) | Indefinite.

(** The size asked for, if the list's size is inferred from its items. *)
Definition inferred_size (known_width : option Z) (available_width available_height : UniformSpace) l : Size :=
  let desired_height := height (measure_item l) * item_count l in
  mkSize (default (match available_width with Definite x => x | Indefinite => width (measure_item l) end) known_width)
    (match available_height with Definite h => Z.min desired_height h | Indefinite => desired_height end).

Definition padded_bounds (bounds : Bounds) (border padding : Edges) : Bounds :=
  from_corners (point_add (origin bounds) (mkPoint (left_edge border + left_edge padding) (top_edge border + top_edge padding)))
    (point_sub (bottom_right bounds) (mkPoint (right_edge border + right_edge padding) (bottom_edge border + bottom_edge padding))).

(** The bounds inside the closure, with the vertical padding. *)
Definition list_bounds (bounds : Bounds) (border padding : Edges) : Bounds :=
  from_corners (point_add (origin bounds) (mkPoint (left_edge border + left_edge padding) (top_edge border)))
    (point_sub (bottom_right bounds) (mkPoint (right_edge border + right_edge padding) (bottom_edge border))).

Definition list_content_size (padded : Bounds) (padding : Edges) l : Size :=
  mkSize (if can_scroll_horizontally l then Z.max (width (size padded)) (width (measure_item l)) else width (size padded))
    (height (measure_item l) * item_count l + top_edge padding + bottom_edge padding).

(** The offset is brought back into what the content allows. *)
Definition limit_offset (content_width content_height : Z) (lb : Bounds) (can_scroll_x : bool) (o : Point) : Point :=
  let min_vertical_scroll_offset := height (size lb) - content_height in
  mkPoint (if can_scroll_x && negb (px o =? 0) && (content_width <=? width (size lb)) then 0 else px o)
    (if negb (py o =? 0) && (py o <? min_vertical_scroll_offset) then min_vertical_scroll_offset else py o).

(** [max(0).min(room).max(0)]. *)
Definition limit_top (room z : Z) : Z := Z.max 0 (Z.min room (Z.max 0 z)).

(** The vertical offset for an item that was asked for. *)
Definition offset_for_item (count item_height list_height content_height : Z) (padding : Edges) (is_flipped : bool) (d : DeferredScrollToItem) (y : Z) : Z :=
  let ix := if is_flipped then Z.max 0 (count - (item_index d + 1)) else item_index d in
  let item_top := item_height * ix + top_edge padding in
  let item_bottom := item_top + item_height in
  let scroll_top := - y in
  let offset_pixels := item_height * deferred_offset d in
  let '(y, scrolled_to_top) :=
    if item_top <? scroll_top + top_edge padding + offset_pixels then (- item_top + top_edge padding + offset_pixels, true)
    else if item_bottom >? scroll_top + list_height - bottom_edge padding then (- (item_bottom - list_height) - bottom_edge padding, true)
    else (y, false) in
  if scroll_strict d || (scrolled_to_top && ((item_top <? scroll_top + offset_pixels) || (item_bottom >? scroll_top + list_height))) then
    match deferred_strategy d with
    | AtTop => - limit_top (content_height - list_height) (item_top - offset_pixels)
    | AtCenter =>
        let viewport_center := offset_pixels + half (list_height - offset_pixels) in
        - limit_top (content_height - list_height) (item_top + half item_height - viewport_center)
    | AtBottom => - limit_top (content_height - list_height) (item_bottom - list_height + offset_pixels)
    end
  else y.

(** [usize::MAX], and casts of a quotient to [usize], which saturate; by zero the quotient is
    infinite or not a number. *)
Definition usize_max : Z := 2 ^ 64 - 1.
Definition as_usize (z : Z) : Z := Z.min usize_max (Z.max 0 z).
Definition quotient_floor (a b : Z) : Z := if b =? 0 then (if 0 <? a then usize_max else 0) else as_usize (a / b).
Definition quotient_ceil (a b : Z) : Z := if b =? 0 then (if 0 <? a then usize_max else 0) else as_usize (- (- a / b)).

Definition visible_range (count item_height list_height : Z) (padding : Edges) (y : Z) : Z * Z :=
  (quotient_floor (- (y + top_edge padding)) item_height, Z.min (quotient_ceil (- y + list_height) item_height) count).

(** The items rendered, with their positions in the list. *)
Definition visible_items l (is_flipped : bool) (range : Z * Z) : list (Item * Z) :=
  let items :=
    if is_flipped then rev (render_items l (Z.max 0 (item_count l - snd range), Z.max 0 (item_count l - fst range)))
    else render_items l range in
  zip items (seqZ (fst range) (snd range - fst range)).

(** What a frame draws: the items and where. *)
Definition draw_items l (is_flipped : bool) (lb : Bounds) (padding : Edges) (o : Point) : list (Item * Point) :=
  let range := visible_range (item_count l) (height (measure_item l)) (height (size lb)) padding (py o) in
  map (fun '(x, ix) =>
    (x, point_add (origin lb)
          (mkPoint (if can_scroll_horizontally l then px o + left_edge padding else px o)
             (height (measure_item l) * ix + py o + top_edge padding)))) (visible_items l is_flipped range).

(** The closure in [prepaint]: the offset, which is the one that is kept, and the items drawn. *)
Definition place_items (d : option DeferredScrollToItem) (bounds : Bounds) (border padding : Edges) l (is_flipped : bool) (o : Point) : Point * list (Item * Point) :=
  if item_count l >? 0 then
    let lb := list_bounds bounds border padding in
    let content := list_content_size (padded_bounds bounds border padding) padding l in
    let content_height := height content in
    let o := limit_offset (width content + left_edge padding + right_edge padding) content_height lb (can_scroll_horizontally l) o in
    let o :=
      match d with
      | Some d => mkPoint (px o) (offset_for_item (item_count l) (height (measure_item l)) (height (size lb)) content_height padding is_flipped d (py o))
      | None => o
      end in
    (o, draw_items l is_flipped lb padding o)
  else (o, []).

Definition scroller_of l (s : Scroller) : Scroller := match scroll_handle l with Some u => Tracked (base_handle u) | None => s end.

(** [prepaint]: [s] is what the element keeps if it has no handle. *)
Definition uniform_prepaint (overflow : Overflows) (bounds : Bounds) (border padding : Edges) l (s : Scroller) :
    outcome (UniformList * Scroller * list (Item * Point)) :=
  (let padded := padded_bounds bounds border padding in
  let content := list_content_size padded padding l in
  let d := scroll_handle l ≫= deferred_scroll_to_item in
  let is_flipped := match scroll_handle l with Some u => flipped u | None => false end in
  let! (s, o) := clamp_scroll_position content padding overflow bounds (scroller_of l s) in
  let (o, drawn) := place_items d bounds border padding l is_flipped o in
  match scroll_handle l, s with
  | Some u, Tracked h =>
      Ok (mkList (item_count l) (render_items l) (measured l) (can_scroll_horizontally l)
            (Some (mkUniform (set_offset o h) None (Some (mkItemSize (size padded) content)) (flipped u))), Tracked (set_offset o h), drawn)
  | None, Tracked h => Ok (l, Tracked (set_offset o h), drawn)
  | _, Untracked _ g => Ok (l, Untracked o g, drawn)
  | _, NotScrollable => Panic
  end)%rust.

(** ** What a frame shows *)

(** The client renders what it is asked for. *)
Context (item : Z -> Item).
Definition renders l : Prop := forall a b, render_items l (a, b) = map item (seqZ a (b - a)).

Lemma quotient_floor_eq a b : 0 < b -> a < usize_max -> quotient_floor a b = Z.max 0 (a / b).
Proof.
  intros Hb Ha. unfold quotient_floor, as_usize. destruct (Z.eqb_spec b 0); [lia|].
  assert (a / b <= Z.max 0 a) by (apply Z.div_le_upper_bound; [done|]; nia). assert (0 < usize_max) by done. lia.
Qed.

Lemma quotient_ceil_spec a b i : 0 < b -> a < usize_max -> 0 <= i -> i * b < a -> i < quotient_ceil a b.
Proof.
  intros Hb Ha Hi Hlt. unfold quotient_ceil, as_usize. destruct (Z.eqb_spec b 0); [lia|].
  assert (- a / b < - i) by (apply Z.div_lt_upper_bound; [done|]; nia). assert (i < usize_max) by nia. lia.
Qed.

(** Every item whose place meets the view is in the range. *)
Lemma in_range_visible count h lh padding y i :
  0 < h -> 0 <= i < count -> 0 <= top_edge padding -> - (y + top_edge padding) < usize_max -> - y + lh < usize_max ->
  0 < (i + 1) * h + y + top_edge padding -> i * h + y + top_edge padding < lh ->
  fst (visible_range count h lh padding y) <= i < snd (visible_range count h lh padding y).
Proof.
  intros Hh Hi Hp H1 H2 Hlo Hhi. cbn [visible_range fst snd]. split.
  - rewrite quotient_floor_eq by done. apply Z.max_lub; [lia|]. apply Z.lt_succ_r, Z.div_lt_upper_bound; [done|]. nia.
  - apply Z.min_glb_lt; [|lia]. apply quotient_ceil_spec; [done..|lia|]. nia.
Qed.

(** The range lies in the list. *)
Lemma range_start_pos count h lh padding y : 0 <= fst (visible_range count h lh padding y).
Proof. cbn. unfold quotient_floor, as_usize. destruct (_ =? 0); [destruct (0 <? _); [done|lia]|]. assert (0 < usize_max) by done. lia. Qed.

Lemma rev_seqZ (k : nat) m a :
  rev (seqZ m (Z.of_nat k)) = map (fun i => m + Z.of_nat k - 1 - (i - a)) (seqZ a (Z.of_nat k)).
Proof.
  revert a. induction k as [|k IH]; intros a; [done|]. replace (Z.of_nat (S k)) with (Z.of_nat k + 1) by lia.
  rewrite (seqZ_app m), rev_app_distr, (seqZ_cons (m + Z.of_nat k) 1), seqZ_nil, (seqZ_cons a) by lia. cbn [rev app map].
  replace (Z.pred (Z.of_nat k + 1)) with (Z.of_nat k) by lia. rewrite (IH (Z.succ a)). f_equal; [lia|].
  apply map_ext. intros i. lia.
Qed.

Lemma zip_map {A B} (f : A -> B) xs : zip (map f xs) xs = map (fun x => (f x, x)) xs.
Proof. induction xs as [|x xs IH]; cbn; [done|]. by rewrite IH. Qed.

(** Position [i] shows the item of that index, or the one as far from the other end. *)
Lemma visible_items_eq l (fl : bool) a b :
  renders l -> 0 <= a -> b <= item_count l ->
  visible_items l fl (a, b) = map (fun i => (item (if fl then item_count l - 1 - i else i), i)) (seqZ a (b - a)).
Proof.
  intros Hr Ha Hb. unfold visible_items. cbn [fst snd]. rewrite !Hr. destruct fl; [|apply zip_map].
  destruct (Z.leb_spec a b); cycle 1.
  { by rewrite (seqZ_nil a), zip_with_nil_r by lia. }
  rewrite !Z.max_r by lia. replace (item_count l - a - (item_count l - b)) with (Z.of_nat (Z.to_nat (b - a))) by lia.
  replace (b - a) with (Z.of_nat (Z.to_nat (b - a))) at 2 3 by lia.
  rewrite <- map_rev, (rev_seqZ _ _ a), map_map, zip_map. apply map_ext. intros i. do 2 f_equal. lia.
Qed.

(** ** Where the offset goes *)

Definition within (room y : Z) : Prop := - room <= y <= 0.

Lemma limit_offset_within cw content_height lb cx o :
  height (size lb) <= content_height -> py o <= 0 ->
  within (content_height - height (size lb)) (py (limit_offset cw content_height lb cx o)).
Proof.
  intros Hc Hy. unfold within, limit_offset. cbn. destruct (Z.eqb_spec (py o) 0), (Z.ltb_spec (py o) (height (size lb) - content_height)); cbn; lia.
Qed.

Lemma limit_top_within room z : 0 <= room -> within room (- limit_top room z).
Proof. unfold within, limit_top. lia. Qed.

(** The offset stays in range, and the item that was asked for is in view, if it fits. *)
Lemma offset_for_item_in_view count h lh padding (fl : bool) d y :
  let content := h * count + top_edge padding + bottom_edge padding in
  let ix := if fl then count - (item_index d + 1) else item_index d in
  0 < h -> 0 <= item_index d < count -> 0 <= top_edge padding -> 0 <= bottom_edge padding ->
  lh <= content -> deferred_offset d = 0 -> within (content - lh) y ->
  let y' := offset_for_item count h lh content padding fl d y in
  within (content - lh) y' /\
  (h + top_edge padding <= lh -> h + bottom_edge padding <= lh ->
   0 <= h * ix + top_edge padding + y' /\ h * ix + top_edge padding + h + y' <= lh).
Proof.
  intros content ix Hh Hi Hpt Hpb Hc Ho Hy. unfold offset_for_item. rewrite Ho, Z.mul_0_r.
  assert (Hix : (if fl then Z.max 0 (count - (item_index d + 1)) else item_index d) = ix) by (unfold ix; destruct fl; lia).
  rewrite Hix. assert (Hixb : 0 <= ix < count) by (unfold ix; destruct fl; lia). clear Hix Ho Hi. clearbody ix.
  assert (Hit : 0 <= h * ix /\ h * ix + h <= h * count) by nia. unfold within in *.
  set (t := h * ix) in *. set (hc := h * count) in *. clearbody t hc. clear Hixb.
  rewrite !Z.gtb_ltb, !Z.add_0_r, !Z.sub_0_r. unfold limit_top, half. subst content.
  pose proof (Z.quot_div_nonneg h 2). pose proof (Z.quot_div_nonneg lh 2).
  destruct (scroll_strict d), (deferred_strategy d); cbn [orb];
    repeat match goal with |- context [?a <? ?b] => destruct (Z.ltb_spec a b) end; cbn [andb orb];
    (split; [lia|intros F1 F2; split; Z.to_euclidean_division_equations; lia]).
Qed.

(** Where position [i] is drawn. *)
Definition place_of l (lb : Bounds) (padding : Edges) (o : Point) (i : Z) : Z :=
  top lb + (height (measured l) * i + py o + top_edge padding).
Definition shown_at l (is_flipped : bool) (i : Z) : Item := item (if is_flipped then item_count l - 1 - i else i).

(** The items drawn are the list's, each in its place, and all that are in view. *)
Lemma draw_items_correct l (fl : bool) lb padding o :
  renders l -> 0 < height (measured l) -> 0 < item_count l -> 0 <= top_edge padding ->
  - (py o + top_edge padding) < usize_max -> - py o + height (size lb) < usize_max ->
  (forall x p, (x, p) ∈ draw_items l fl lb padding o -> exists i, 0 <= i < item_count l /\ x = shown_at l fl i /\ py p = place_of l lb padding o i) /\
  (forall i, 0 <= i < item_count l -> top lb < place_of l lb padding o i + height (measured l) -> place_of l lb padding o i < bottom lb ->
     exists p, (shown_at l fl i, p) ∈ draw_items l fl lb padding o /\ py p = place_of l lb padding o i).
Proof.
  intros Hr Hh Hn Hp H1 H2. unfold draw_items.
  assert (Em : measure_item l = measured l) by (unfold measure_item; destruct (Z.eqb_spec (item_count l) 0); [lia|done]). rewrite Em.
  set (r := visible_range _ _ _ _ _).
  assert (Ha : 0 <= fst r) by apply range_start_pos. assert (Hb : snd r <= item_count l) by (cbn; lia).
  rewrite (surjective_pairing r), (visible_items_eq l fl _ _ Hr Ha Hb), map_map. split.
  - intros x p (i & [= -> ->] & Hi)%list_elem_of_fmap. apply elem_of_seqZ in Hi. exists i. split; [lia|]. done.
  - intros i Hi Hlo Hhi. eexists. split.
    + apply list_elem_of_fmap. exists i. split; [reflexivity|]. apply elem_of_seqZ.
      pose proof (bottom_eq lb). unfold place_of in *.
      pose proof (in_range_visible (item_count l) (height (measured l)) (height (size lb)) padding (py o) i Hh Hi Hp H1 H2) as Hv.
      fold r in Hv. enough (fst r <= i < snd r) by lia. apply Hv; lia.
    + done.
Qed.

(** An item of the list is asked for, without an offset in items, or none is. *)
Definition asks_ok l (d : option DeferredScrollToItem) : Prop :=
  match d with Some d => deferred_offset d = 0 /\ 0 <= item_index d < item_count l | None => True end.

(** The part of a frame after the offset was clamped. *)
Lemma place_items_correct d bounds border padding l (fl : bool) o0 :
  let lb := list_bounds bounds border padding in
  let h := height (measured l) in
  let content := h * item_count l + top_edge padding + bottom_edge padding in
  renders l -> 0 < h -> 0 < item_count l -> 0 <= top_edge padding -> 0 <= bottom_edge padding ->
  0 <= height (size lb) <= content -> content < usize_max -> py o0 <= 0 -> asks_ok l d ->
  let (o, drawn) := place_items d bounds border padding l fl o0 in
  within (content - height (size lb)) (py o) /\ drawn = draw_items l fl lb padding o /\
  (forall d', d = Some d' ->
     h + top_edge padding <= height (size lb) -> h + bottom_edge padding <= height (size lb) ->
     let ix := if fl then item_count l - (item_index d' + 1) else item_index d' in
     top lb <= place_of l lb padding o ix /\ place_of l lb padding o ix + h <= bottom lb).
Proof.
  intros lb h content Hr Hh Hn Hpt Hpb Hc Hmax Ho0 Hd. unfold place_items.
  assert (Em : measure_item l = measured l) by (unfold measure_item; destruct (Z.eqb_spec (item_count l) 0); [lia|done]).
  replace (item_count l >? 0) with true by lia. set (cs := list_content_size _ padding l).
  assert (Ecs : height cs = content) by (unfold cs, list_content_size; cbn; by rewrite Em).
  rewrite Ecs, Em. fold lb h. set (o1 := limit_offset _ content lb _ o0).
  assert (H1 : within (content - height (size lb)) (py o1)) by (apply limit_offset_within; lia).
  destruct d as [d|]; cycle 1.
  - split; [exact H1|]. split; [done|]. intros d' [=].
  - destruct Hd as [Hd Hi]. pose proof (bottom_eq lb).
    destruct (offset_for_item_in_view (item_count l) h (height (size lb)) padding fl d (py o1) Hh Hi Hpt Hpb) as [Hy V]; [apply Hc|exact Hd|exact H1|].
    split; [exact Hy|]. split; [done|]. intros d' [= <-] F1 F2. destruct (V F1 F2) as [V1 V2].
    fold content in V1, V2. unfold place_of. cbn [py]. fold h. lia.
Qed.

(** C38: a list with a handle, with items of a positive height whose renderer gives what it is
    asked for, no negative padding, and content that overflows it, is prepainted without a
    panic; the offset stays between the first and the last item; what is drawn are items of
    the list, in their places, flipped or not, and every item whose place meets the view is
    drawn.  The item that was asked for, by whatever strategy, is drawn whole, if it fits with
    either padding, and is not asked for again.  This is for an item of the list that is asked
    for without an offset: with an offset, which keeps room for so many items before it, the
    item may be out of view. *)
Theorem uniform_list_correct overflow bounds border padding l u (s : Scroller) :
  let lb := list_bounds bounds border padding in
  let h := height (measured l) in
  let content := h * item_count l + top_edge padding + bottom_edge padding in
  renders l -> scroll_handle l = Some u -> 0 < h -> 0 < item_count l -> 0 <= top_edge padding -> 0 <= bottom_edge padding ->
  0 <= height (size lb) <= content -> content < usize_max -> asks_ok l (deferred_scroll_to_item u) ->
  exists l' u' drawn, uniform_prepaint overflow bounds border padding l s = Ok (l', Tracked (base_handle u'), drawn) /\
    scroll_handle l' = Some u' /\ deferred_scroll_to_item u' = None /\ flipped u' = flipped u /\
    let o := offset (base_handle u') in
    - (content - height (size lb)) <= py o <= 0 /\
    (forall x p, (x, p) ∈ drawn -> exists i, 0 <= i < item_count l /\ x = shown_at l (flipped u) i /\ py p = place_of l lb padding o i) /\
    (forall i, 0 <= i < item_count l -> top lb < place_of l lb padding o i + h -> place_of l lb padding o i < bottom lb ->
       exists p, (shown_at l (flipped u) i, p) ∈ drawn /\ py p = place_of l lb padding o i) /\
    (forall d, deferred_scroll_to_item u = Some d ->
       h + top_edge padding <= height (size lb) -> h + bottom_edge padding <= height (size lb) ->
       exists p, (item (item_index d), p) ∈ drawn /\ top lb <= py p /\ py p + h <= bottom lb).
Proof.
  intros lb h content Hr Eu Hh Hn Hpt Hpb Hc Hmax Ha. unfold uniform_prepaint, scroller_of. rewrite Eu. cbn [option_bind mbind].
  set (cs := list_content_size _ padding l). unfold clamp_scroll_position.
  destruct (scroll_max_pos cs padding bounds) as [Hw Hhm].
  destruct (clamped_ok (scroll_max_of cs padding bounds) (scroll_to_bottom_flag (base_handle u)) (offset (base_handle u)) Hw Hhm) as (o0 & -> & [_ Ho0] & _).
  cbn [obind]. pose proof (place_items_correct (deferred_scroll_to_item u) bounds border padding l (flipped u) o0 Hr Hh Hn Hpt Hpb Hc Hmax (proj2 Ho0) Ha) as Hp.
  destruct (place_items _ _ _ _ _ _ _) as [o drawn]. fold lb h content in Hp. destruct Hp as (Hin & -> & Hd). eexists _, (mkUniform _ _ _ _), _.
  cbn [base_handle]. split; [reflexivity|]. cbn [scroll_handle base_handle deferred_scroll_to_item flipped set_offset offset].
  do 3 (split; [done|]). split; [exact Hin|]. unfold within in Hin.
  destruct (draw_items_correct l (flipped u) lb padding o Hr Hh Hn Hpt) as [Hd1 Hd2]; [lia..|]. split; [exact Hd1|]. split; [exact Hd2|].
  intros d Ed F1 F2. rewrite Ed in Ha. destruct Ha as [_ Hi]. destruct (Hd d Ed F1 F2) as [V1 V2]. pose proof (bottom_eq lb).
  destruct (Hd2 (if flipped u then item_count l - (item_index d + 1) else item_index d)) as (p & Hp & Ep).
  - destruct (flipped u); lia.
  - fold h. lia.
  - lia.
  - exists p. rewrite Ep. split; [|by split].
    replace (item (item_index d)) with (shown_at l (flipped u) (if flipped u then item_count l - (item_index d + 1) else item_index d)); [done|].
    unfold shown_at. f_equal. destruct (flipped u); lia.
Qed.

End UniformList.

(** ** Flipping *)

(** Flipping a list that was laid out twice puts the offset back. *)
Lemma flip_twice u z : last_item_size u = Some z -> y_flipped (flipped u) (y_flipped (negb (flipped u)) u) = u.
Proof.
  destruct u as [[[x y] g b m cs t ov a] d z' f]. intros [= ->]. unfold y_flipped, set_offset. cbn.
  destruct f; cbn; do 3 f_equal; lia.
Qed.

(** ** Tests and witness *)

Module TestUniform.

Definition list_of (n : Z) (u : UniformListScrollState) : UniformList (Item := Z) :=
  mkList n (fun r => seqZ (fst r) (snd r - fst r)) (mkSize 100 20) false (Some u).
Definition view : Bounds := mkBounds (mkPoint 0 0) (mkSize 100 50).
Definition edges (z : Z) : Edges := mkEdges z z z z.
Definition vertical : Overflows := mkOverflows OverflowVisible OverflowScroll.
Definition frame (padding n : Z) (u : UniformListScrollState) : UniformListScrollState * list (Z * Point) :=
  match uniform_prepaint vertical view (edges 0) (edges padding) (list_of n u) NotScrollable with
  | Ok (l, _, drawn) => (default u (scroll_handle l), drawn)
  | _ => (u, [])
  end.
Definition y_of (u : UniformListScrollState) : Z := py (offset (base_handle u)).

Example centered :
  let (u, drawn) := frame 0 10 (uniform_scroll_to_item 5 AtCenter uniform_new) in
  y_of u = -85 /\ drawn = [(4, mkPoint 0 (-5)); (5, mkPoint 0 15); (6, mkPoint 0 35)].
Proof. by vm_compute. Qed.

(** Flipped from the start, the list begins at its end, item 0 at the bottom. *)
Example flipped_list :
  let (u, drawn) := frame 0 10 (y_flipped true uniform_new) in
  y_of u = -150 /\ drawn = [(2, mkPoint 0 (-10)); (1, mkPoint 0 10); (0, mkPoint 0 30)].
Proof. by vm_compute. Qed.

(** The vertical padding is counted twice in the maximal offset, so that a list that is
    scrolled as far as it goes is not reported as scrolled to its end. *)
Example padding_counted_twice :
  let (u, _) := frame 5 10 (scroll_to_item_strict 9 AtBottom uniform_new) in
  let (u, _) := frame 5 10 (mkUniform (set_offset (mkPoint 0 (-1000)) (base_handle u)) None None false) in
  y_of u = -160 /\ height (max_offset (base_handle u)) = 170 /\ is_scrolled_to_end u = Some false.
Proof. by vm_compute. Qed.

(** For the same reason a list that fits may be scrolled, which moves its items down. *)
Example fitting_list_moves_down :
  let (u, drawn) := frame 4 2 (mkUniform (set_offset (mkPoint 0 (-1)) handle_default) None None false) in
  y_of u = 2 /\ drawn = [(0, mkPoint 4 6); (1, mkPoint 4 26)].
Proof. by vm_compute. Qed.

Lemma uniform_list_correct_witness :
  exists l' u' drawn, uniform_prepaint vertical view (edges 0) (edges 0) (list_of 10 (uniform_scroll_to_item 5 AtCenter uniform_new)) NotScrollable =
      Ok (l', Tracked (base_handle u'), drawn) /\
    deferred_scroll_to_item u' = None /\ exists p, (5, p) ∈ drawn /\ 0 <= py p /\ py p + 20 <= 50.
Proof.
  destruct (uniform_list_correct (fun i => i) vertical view (edges 0) (edges 0) (list_of 10 (uniform_scroll_to_item 5 AtCenter uniform_new))
    (uniform_scroll_to_item 5 AtCenter uniform_new) NotScrollable) as (l' & u' & drawn & E & _ & Ed & _ & _ & _ & _ & Hd);
    [intros a b; by rewrite map_id|reflexivity|done|done|done|done|by vm_compute|done|by vm_compute|].
  exists l', u', drawn. split; [exact E|]. split; [exact Ed|]. apply (Hd (mkDeferred 5 AtCenter 0 false)); done.
Defined.

End TestUniform.
