(* ===== verification/Clicks.v ===== *)
(** * Clicks, drags and hovering: [crates/gpui/src/elements/div.rs], [interactive.rs]

    The listeners that an element with an id registers in every frame for the mouse, over cells
    that outlive the frame: the press that is pending, whether the element is active, and
    whether it was hovered.  Whether the mouse is over the element, which the hit test says, is
    an argument of a listener. *)

From Stdlib Require Import ZArith.
From stdpp Require Import base list option numbers.
From S2P Require Import Prelude Geometry.

#[local] Set Warnings "-register-all,-clear-no-such-hyp".

Open Scope Z_scope.

Inductive NavigationDirection := NavigateBack | NavigateForward.
Inductive MouseButton := LeftButton | RightButton | MiddleButton | NavigateButton (d : NavigationDirection).
#[global] Instance MouseButton_eq_dec : EqDecision MouseButton.
Proof. intros x y. unfold Decision. decide equality. decide equality. Defined.

Inductive KeyboardButton := EnterKey | SpaceKey.

Section Clicks.
(** Modifiers; the values dragged, with their types, and the views of drags. *)
Context {Modifiers Value View : Type} (no_modifiers : Modifiers) (value_type : Value -> N).
(** The rest of the window and the application, which the client changes. *)
Context {C : Type}.

Record MouseDownEvent := mkDown { down_button : MouseButton; down_position : Point; down_modifiers : Modifiers; down_click_count : nat; first_mouse : bool }.
Record MouseUpEvent := mkUp { up_button : MouseButton; up_position : Point; up_modifiers : Modifiers; up_click_count : nat }.

Inductive ClickEvent :=
  | MouseClick (down : MouseDownEvent) (up : MouseUpEvent)
  | KeyboardClick (button : KeyboardButton) (bounds : Bounds).

Definition click_modifiers (e : ClickEvent) : Modifiers := match e with KeyboardClick _ _ => no_modifiers | MouseClick _ u => up_modifiers u end.
Definition click_position (e : ClickEvent) : Point := match e with KeyboardClick _ b => bottom_left b | MouseClick _ u => up_position u end.
Definition click_mouse_position (e : ClickEvent) : option Point := match e with KeyboardClick _ _ => None | MouseClick _ u => Some (up_position u) end.
Definition is_right_click (e : ClickEvent) : bool :=
  match e with KeyboardClick _ _ => false | MouseClick d u => bool_decide (down_button d = RightButton) && bool_decide (up_button u = RightButton) end.
Definition standard_click (e : ClickEvent) : bool :=
  match e with KeyboardClick _ _ => true | MouseClick d u => bool_decide (down_button d = LeftButton) && bool_decide (up_button u = LeftButton) end.
Definition first_focus (e : ClickEvent) : bool := match e with KeyboardClick _ _ => false | MouseClick d _ => first_mouse d end.
Definition click_count (e : ClickEvent) : nat := match e with KeyboardClick _ _ => 1 | MouseClick _ u => up_click_count u end.
Definition is_keyboard (e : ClickEvent) : bool := match e with KeyboardClick _ _ => true | MouseClick _ _ => false end.

Record AnyDrag := mkDrag { drag_view : View; drag_value : Value; cursor_offset : Point }.

Record World := mkWorld {
  client : C;
  active_drag : option AnyDrag;
  propagate_event : bool;
  default_prevented : bool;
  refreshed : nat;
}.

Implicit Types (w : World).

Definition set_active_drag d w := mkWorld (client w) d (propagate_event w) (default_prevented w) (refreshed w).
Definition stop_propagation w := mkWorld (client w) (active_drag w) false (default_prevented w) (refreshed w).
Definition refresh w := mkWorld (client w) (active_drag w) (propagate_event w) (default_prevented w) (S (refreshed w)).
Definition has_active_drag w : bool := bool_decide (is_Some (active_drag w)).

(** What the element is built with in every frame. *)
Record Interactivity := mkInteractivity {
  click_listeners : list (ClickEvent -> World -> World);
  drag_listener : option (Value * (Value -> Point -> World -> World * View));
  drop_listeners : list (N * (Value -> World -> World));
  can_drop_predicate : option (Value -> World -> World * bool);
  hover_listener : bool -> World -> World;
}.

Record ElementClickedState := mkClicked { group_clicked : bool; element_clicked : bool }.
Definition clicked_default : ElementClickedState := mkClicked false false.
Definition is_clicked (c : ElementClickedState) : bool := group_clicked c || element_clicked c.

(** The cells, and what the closures of a frame keep: the drag listener until it is called, and
    the press that the capture phase of a release hands to its bubble phase. *)
Record Element := mkElement {
  pending_mouse_down : option MouseDownEvent;
  clicked_state : ElementClickedState;
  hover_state : bool;
  drag_left : option (Value * (Value -> Point -> World -> World * View));
  captured_mouse_down : option MouseDownEvent;
}.

Implicit Types (e : Element) (i : Interactivity).

Definition set_pending p e := mkElement p (clicked_state e) (hover_state e) (drag_left e) (captured_mouse_down e).
Definition set_clicked c e := mkElement (pending_mouse_down e) c (hover_state e) (drag_left e) (captured_mouse_down e).
Definition set_hover h e := mkElement (pending_mouse_down e) (clicked_state e) h (drag_left e) (captured_mouse_down e).
Definition set_drag_left d e := mkElement (pending_mouse_down e) (clicked_state e) (hover_state e) d (captured_mouse_down e).
Definition set_captured c e := mkElement (pending_mouse_down e) (clicked_state e) (hover_state e) (drag_left e) c.

Definition element_new : Element := mkElement None clicked_default false None None.

(** The listeners are registered anew. *)
Definition paint i e : Element := set_captured None (set_drag_left (drag_listener i) e).

Inductive ClickPhase := ClickCapture | ClickBubble.

(** ** Presses *)

Definition on_mouse_down (phase : ClickPhase) (d : MouseDownEvent) (hovered : bool) e w : Element * World :=
  match phase with
  | ClickBubble =>
      if bool_decide (down_button d = LeftButton) && hovered then (set_pending (Some d) e, refresh w) else (e, w)
  | ClickCapture => (e, w)
  end.

(** ** Drags *)

(** Whether the distance is above [DRAG_THRESHOLD], squared. *)
Definition drag_threshold : Z := 2.
Definition beyond_threshold (p q : Point) : bool :=
  (px p - px q) * (px p - px q) + (py p - py q) * (py p - py q) >? drag_threshold * drag_threshold.

Definition on_mouse_move (phase : ClickPhase) (position hitbox_origin : Point) e w : Element * World :=
  match phase with
  | ClickCapture => (e, w)
  | ClickBubble =>
      match pending_mouse_down e, drag_left e with
      | Some d, Some (v, f) =>
          if negb (has_active_drag w) && beyond_threshold position (down_position d) then
            let e := set_clicked clicked_default (set_drag_left None e) in
            let offset := point_sub position hitbox_origin in
            let (w, view) := f v offset w in
            (set_pending None e, stop_propagation (refresh (set_active_drag (Some (mkDrag view v offset)) w)))
          else (e, w)
      | _, _ => (e, w)
      end
  end.

(** The loop over the listeners; the drag is taken by each that takes its type. *)
Fixpoint drop_on (ty : N) i (ls : list (N * (Value -> World -> World))) w : outcome World :=
  match ls with
  | [] => Ok w
  | (t, f) :: ls =>
      if bool_decide (t = ty) then
        match active_drag w with
        | None => Panic
        | Some drag =>
            let w := set_active_drag None w in
            let (w, can_drop) := match can_drop_predicate i with Some p => p (drag_value drag) w | None => (w, true) end in
            let w := if can_drop : bool then stop_propagation (refresh (f (drag_value drag) w)) else w in
            drop_on ty i ls w
        end
      else drop_on ty i ls w
  end.

Definition on_drop (phase : ClickPhase) (hovered : bool) i w : outcome World :=
  match active_drag w, phase with
  | Some drag, ClickBubble => if hovered then drop_on (value_type (drag_value drag)) i (drop_listeners i) w else Ok w
  | _, _ => Ok w
  end.

(** ** Clicks *)

Definition call_click_listeners i (c : ClickEvent) w : World := foldl (fun w f => f c w) w (click_listeners i).

(** The click that is made, if any. *)
Definition on_mouse_up (phase : ClickPhase) (u : MouseUpEvent) (hovered : bool) i e w : Element * World * option ClickEvent :=
  match phase with
  | ClickCapture =>
      match pending_mouse_down e with
      | Some d =>
          if hovered then (set_captured (Some d) (set_pending None e), refresh w, None)
          else (set_pending None e, refresh w, None)
      | None => (e, w, None)
      end
  | ClickBubble =>
      match captured_mouse_down e with
      | Some d =>
          let c := MouseClick d u in
          (set_captured None e, call_click_listeners i c w, Some c)
      | None => (e, w, None)
      end
  end.

(** Enter and space, while the element is focused; [key] is the key and whether modifiers were
    held. *)
Definition on_key_up (phase : ClickPhase) (key : option KeyboardButton) (modified : bool) (hitbox : Bounds) i w : World :=
  match phase, key with
  | ClickBubble, Some k =>
      if negb (default_prevented w) && negb modified then call_click_listeners i (KeyboardClick k hitbox) w else w
  | _, _ => w
  end.

(** ** The active state *)

(** One of two listeners is registered in a frame. *)
Definition on_active_mouse_up (phase : ClickPhase) e w : Element * World :=
  match phase with ClickCapture => (set_clicked clicked_default e, refresh w) | ClickBubble => (e, w) end.

Definition on_active_mouse_down (phase : ClickPhase) (group_hovered element_hovered : bool) e w : Element * World :=
  match phase with
  | ClickBubble =>
      if negb (default_prevented w) && (group_hovered || element_hovered) then
        (set_clicked (mkClicked group_hovered element_hovered) e, refresh w)
      else (e, w)
  | ClickCapture => (e, w)
  end.

(** ** Hovering *)

Definition update_hover i (is_hovered : bool) e w : Element * World :=
  if Bool.eqb is_hovered (hover_state e) then (e, w) else (set_hover is_hovered e, hover_listener i is_hovered w).

(** What painting defers: a call of [update_hover], without a press that is pending. *)
Definition paint_hover (hovered : bool) e w : option bool :=
  match pending_mouse_down e with
  | None =>
      let is_hovered := negb (has_active_drag w) && hovered in
      if Bool.eqb is_hovered (hover_state e) then None else Some is_hovered
  | Some _ => None
  end.

Definition hover_mouse_move (phase : ClickPhase) (hovered : bool) i e w : Element * World :=
  match phase with
  | ClickBubble =>
      update_hover i (match pending_mouse_down e with None => negb (has_active_drag w) && hovered | Some _ => false end) e w
  | ClickCapture => (e, w)
  end.

Definition hover_mouse_exit (phase : ClickPhase) i e w : Element * World :=
  match phase with ClickBubble => update_hover i false e w | ClickCapture => (e, w) end.

(** ** Runs *)

(** What reaches an element: events, whose bubble phase reaches its listeners or is cut off;
    frames; and other code. *)
Inductive Input :=
  | Press (d : MouseDownEvent) (hovered reached : bool)
  | Move (position hitbox_origin : Point) (reached : bool)
  | Release (u : MouseUpEvent) (hovered reached : bool)
  | Paint (i : Interactivity)
  | Other (f : World -> World).

Definition step (x : Input) i e w : Interactivity * Element * World * option ClickEvent :=
  match x with
  | Press d hovered reached =>
      let (e, w) := on_mouse_down ClickCapture d hovered e w in
      let (e, w) := if reached then on_mouse_down ClickBubble d hovered e w else (e, w) in (i, e, w, None)
  | Move p o reached =>
      let (e, w) := on_mouse_move ClickCapture p o e w in
      let (e, w) := if reached then on_mouse_move ClickBubble p o e w else (e, w) in (i, e, w, None)
  | Release u hovered reached =>
      let '(e, w, _) := on_mouse_up ClickCapture u hovered i e w in
      let '(e, w, c) := if reached then on_mouse_up ClickBubble u hovered i e w else (e, w, None) in (i, e, w, c)
  | Paint i => (i, paint i e, w, None)
  | Other f => (i, e, f w, None)
  end.

(** The clicks made at each input. *)
Fixpoint run (xs : list Input) i e w : list (option ClickEvent) :=
  match xs with
  | [] => []
  | x :: xs => let '(i, e, w, c) := step x i e w in c :: run xs i e w
  end.

(** The element and the world after the inputs. *)
Fixpoint after (xs : list Input) i e w : Interactivity * Element * World :=
  match xs with
  | [] => (i, e, w)
  | x :: xs => let '(i, e, w, _) := step x i e w in after xs i e w
  end.

Definition with_click_listeners (ls : list (ClickEvent -> World -> World)) i : Interactivity :=
  mkInteractivity ls (drag_listener i) (drop_listeners i) (can_drop_predicate i) (hover_listener i).

(** The calls of click listeners at an input: a click that is made goes to those of the frame,
    in order; without a click what happens does not depend on them. *)
Definition listeners_called (x : Input) (c : option ClickEvent) i e w (w' : World) : Prop :=
  match c with
  | Some c => w' = foldl (fun w f => f c w) (refresh w) (click_listeners i)
  | None => forall ls, (step x (with_click_listeners ls i) e w).1.2 = w'
  end.

(** The refresh that a release asks for comes before the next release, if it was cut off. *)
Fixpoint framed (cut : bool) (xs : list Input) : bool :=
  match xs with
  | [] => true
  | Release _ _ reached :: xs => negb cut && framed (negb reached) xs
  | Paint _ :: xs => framed false xs
  | _ :: xs => framed cut xs
  end.

(** A press on the element. *)
Definition presses (x : Input) (d : MouseDownEvent) : Prop := x = Press d true true /\ down_button d = LeftButton.

(** Neither a press on the element nor a release. *)
Definition quiet (x : Input) : Prop :=
  match x with
  | Press d hovered reached => ~ (down_button d = LeftButton /\ hovered = true /\ reached = true)
  | Release _ _ _ => False
  | _ => True
  end.

(** The last press of what is past, with nothing but quiet after it. *)
Definition held (past : list Input) (d : MouseDownEvent) : Prop :=
  exists before x after, past = before ++ x :: after /\ presses x d /\ Forall quiet after.

Definition not_draggable (x : Input) : Prop := match x with Paint i => drag_listener i = None | _ => True end.

(** [p] is pending, or it was dragged. *)
Record tracks (past : list Input) (cut : bool) (e : Element) : Prop := mkTracks {
  tracks_held : forall d, pending_mouse_down e = Some d -> held past d;
  tracks_all : Forall not_draggable past -> drag_left e = None /\ forall d, held past d -> pending_mouse_down e = Some d;
  tracks_captured : cut = false -> captured_mouse_down e = None;
}.

Lemma held_quiet past x d : quiet x -> held past d -> held (past ++ [x]) d.
Proof.
  intros Hx (b & y & a & -> & Hp & Ha). exists b, y, (a ++ [x]). split; [by rewrite <- app_assoc|]. split; [done|].
  apply Forall_app. split; [done|]. by constructor.
Qed.

Lemma held_press past x d : presses x d -> held (past ++ [x]) d.
Proof. intros Hp. exists past, x, []. split; [done|]. by split; [|constructor]. Qed.

Lemma held_inv past x d : held (past ++ [x]) d -> presses x d \/ (quiet x /\ held past d).
Proof.
  intros (b & y & a & E & Hp & Ha). destruct a as [|z a _] using rev_ind.
  - apply app_inj_tail in E as [_ ->]. by left.
  - rewrite app_comm_cons, app_assoc in E. apply app_inj_tail in E as [-> ->]. apply Forall_app in Ha as [Ha Hz].
    right. split; [by inversion Hz|]. by exists b, y, a.
Qed.

Lemma press_not_quiet x d : presses x d -> ~ quiet x.
Proof. intros [-> Hl] Hq. by apply Hq. Qed.

(** An input that moves nothing. *)
Lemma tracks_quiet past cut e x :
  quiet x -> (forall i, x <> Paint i) -> (forall d, ~ presses x d) -> tracks past cut e -> tracks (past ++ [x]) cut e.
Proof.
  intros Hq Hp Hn [Hh Ha Hc]. constructor; [|intros Hd|exact Hc].
  - intros d Hd. by apply held_quiet, Hh.
  - apply Forall_app in Hd as [Hd _]. destruct (Ha Hd) as [Hl Hd']. split; [exact Hl|].
    intros d [Hx|[_ Hx]]%held_inv; [by apply Hn in Hx|by apply Hd'].
Qed.

(** Nothing is pending, and nothing is held. *)
Lemma tracks_none past cut e x :
  (forall d, ~ held (past ++ [x]) d) \/ ~ Forall not_draggable past -> pending_mouse_down e = None ->
  (Forall not_draggable past -> drag_left e = None) -> (cut = false -> captured_mouse_down e = None) -> tracks (past ++ [x]) cut e.
Proof.
  intros Hn He Hl Hc. constructor; [by rewrite He|intros Hd|exact Hc]. apply Forall_app in Hd as [Hd _].
  split; [by apply Hl|]. destruct Hn as [Hn|Hn]; [|done]. intros d Hx. by apply Hn in Hx.
Qed.

Lemma release_not_held past u h r d : ~ held (past ++ [Release u h r]) d.
Proof. intros [[Hx _]|[Hq _]]%held_inv; done. Qed.

Lemma step_press past cut i e w d h r :
  tracks past cut e ->
  let '(_, e', _, c) := step (Press d h r) i e w in tracks (past ++ [Press d h r]) cut e' /\ c = None.
Proof.
  intros Ht. cbn [step on_mouse_down]. destruct (decide (down_button d = LeftButton /\ h = true /\ r = true)) as [(Hb & -> & ->)|Hn].
  - rewrite bool_decide_true by done. cbn. split; [|done]. destruct Ht as [Hh Ha Hc]. constructor; cbn; [|intros Hd|exact Hc].
    + intros d' [= <-]. by apply held_press.
    + apply Forall_app in Hd as [Hd _]. split; [by apply Ha|].
      intros d' [[[= ->] _]|[Hq _]]%held_inv; [done|]. by destruct Hq.
  - assert (E : (if r then (if bool_decide (down_button d = LeftButton) && h then (set_pending (Some d) e, refresh w) else (e, w)) else (e, w)) = (e, w)).
    { destruct r; [|done]. case_bool_decide; [|done]. destruct h; [|done]. by destruct Hn. }
    rewrite E. split; [|done]. apply tracks_quiet; [done|done| |done]. intros d' [[= -> -> ->] Hb]. by apply Hn.
Qed.

Lemma step_move past cut i e w p o r :
  tracks past cut e -> let '(_, e', _, c) := step (Move p o r) i e w in tracks (past ++ [Move p o r]) cut e' /\ c = None.
Proof.
  intros Ht. assert (Hq : tracks (past ++ [Move p o r]) cut e) by (apply tracks_quiet; [done..|by intros d [? _]|done]).
  cbn [step on_mouse_move]. destruct r; [|done]. destruct (pending_mouse_down e) as [d|] eqn:Ep; [|done].
  destruct (drag_left e) as [[v f]|] eqn:El; [|done]. destruct (_ && _); [|done]. destruct (f v _ w) as [w' view]. split; [|done].
  apply tracks_none; [right; intros Hd|done|done|apply Ht]. destruct (tracks_all _ _ _ Ht Hd) as [Hl _]. by rewrite El in Hl.
Qed.

(** A release ends what is held; over the element, and not cut off, it makes the click. *)
Lemma step_release past i e w u h r :
  tracks past false e ->
  let '(_, e', _, c) := step (Release u h r) i e w in
  tracks (past ++ [Release u h r]) (negb r) e' /\
  c = (if h && r then (fun d => MouseClick d u) <$> pending_mouse_down e else None).
Proof.
  intros [Hh Ha Hc]. specialize (Hc eq_refl). cbn [step on_mouse_up].
  assert (Hn : forall d, ~ held (past ++ [Release u h r]) d) by (intros d; apply release_not_held).
  destruct (pending_mouse_down e) as [d|] eqn:Ep; destruct h, r; cbn; rewrite ?Hc; (split; [|done]);
    (apply tracks_none; [by left|done|intros Hd; by apply Ha|done]).
Qed.

(** The clicks of what is to come, in terms of what is past. *)
Definition clicks_at (past xs : list Input) (k : nat) (c : ClickEvent) : Prop :=
  exists d u, c = MouseClick d u /\ xs !! k = Some (Release u true true) /\ held (past ++ take k xs) d.

Lemma clicks_later past x xs k c : clicks_at past (x :: xs) (S k) c <-> clicks_at (past ++ [x]) xs k c.
Proof. unfold clicks_at. cbn. by rewrite <- app_assoc. Qed.

Lemma no_click_now past x xs c : (forall u, x <> Release u true true) -> ~ clicks_at past (x :: xs) 0 c.
Proof. intros Hx (d & u & _ & [= ->] & _). by apply (Hx u). Qed.

Lemma run_clicks xs : forall past cut i e w,
  framed cut xs = true -> tracks past cut e ->
  forall k c, (run xs i e w !! k = Some (Some c) -> clicks_at past xs k c) /\
    (Forall not_draggable (past ++ xs) -> clicks_at past xs k c -> run xs i e w !! k = Some (Some c)).
Proof.
  induction xs as [|x xs IH]; intros past cut i e w Hf Ht k c.
  { cbn [run]. split; [by rewrite lookup_nil|]. intros _ (d & u & _ & Hx & _). by rewrite lookup_nil in Hx. }
  assert (Hstep : forall i' e' w' c' cut', step x i e w = (i', e', w', c') -> framed cut' xs = true -> tracks (past ++ [x]) cut' e' ->
    (c' = Some c -> clicks_at past (x :: xs) 0 c) -> (Forall not_draggable past -> clicks_at past (x :: xs) 0 c -> c' = Some c) ->
    (run (x :: xs) i e w !! k = Some (Some c) -> clicks_at past (x :: xs) k c) /\
    (Forall not_draggable (past ++ x :: xs) -> clicks_at past (x :: xs) k c -> run (x :: xs) i e w !! k = Some (Some c))).
  { intros i' e' w' c' cut' Es Hf' Ht' H1 H2. cbn [run]. rewrite Es. destruct k as [|k]; cbn [lookup list_lookup].
    - split; [intros [= Hc]; by apply H1|]. intros Hd Hc. f_equal. apply H2; [|done]. by apply Forall_app in Hd as [Hd _].
    - rewrite clicks_later. destruct (IH (past ++ [x]) cut' i' e' w' Hf' Ht' k c) as [IH1 IH2]. split; [exact IH1|].
      intros Hd. apply IH2. by rewrite <- app_assoc. }
  destruct x as [d h r|p o r|u h r|i2|f]; cbn [framed] in Hf.
  - pose proof (step_press past cut i e w d h r Ht) as Hs. destruct (step _ i e w) as [[[i' e'] w'] c']. destruct Hs as [Ht' ->].
    eapply Hstep; [done|exact Hf|exact Ht'|done|]. intros _ Hc. by apply no_click_now in Hc.
  - pose proof (step_move past cut i e w p o r Ht) as Hs. destruct (step _ i e w) as [[[i' e'] w'] c']. destruct Hs as [Ht' ->].
    eapply Hstep; [done|exact Hf|exact Ht'|done|]. intros _ Hc. by apply no_click_now in Hc.
  - apply andb_prop in Hf as [Hcut Hf]. destruct cut; [done|].
    pose proof (step_release past i e w u h r Ht) as Hs. destruct (step _ i e w) as [[[i' e'] w'] c']. destruct Hs as [Ht' Ec].
    eapply Hstep; [done|exact Hf|exact Ht'| |].
    + intros Hc. rewrite Ec in Hc. destruct h, r; try done. cbn in Hc. destruct (pending_mouse_down e) as [d|] eqn:Ep; [|done].
      injection Hc as <-. exists d, u. split; [done|]. split; [done|]. cbn. rewrite app_nil_r. by apply (tracks_held _ _ _ Ht).
    + intros Hd (d & u' & -> & [= -> -> ->] & Hh). cbn in Hh, Ec. rewrite app_nil_r in Hh.
      destruct (tracks_all _ _ _ Ht Hd) as [_ Ha]. rewrite Ec, (Ha d Hh). done.
  - eapply Hstep; [reflexivity|exact Hf| |done|].
    + destruct Ht as [Hh Ha Hc]. constructor; [|intros Hd|done].
      * intros d Hd. by apply held_quiet, Hh.
      * apply Forall_app in Hd as [Hd Hi]. inversion_clear Hi as [|?? Hi' _]. split; [exact Hi'|].
        intros d [[Hx _]|[_ Hx]]%held_inv; [done|by apply Ha].
    + intros _ Hc. by apply no_click_now in Hc.
  - eapply Hstep; [reflexivity|exact Hf| |done|].
    + apply tracks_quiet; [done|done| |done]. by intros d [? _].
    + intros _ Hc. by apply no_click_now in Hc.
Qed.

(** *** The calls *)

(** Past a frame, no press is left for the bubble phase of a release. *)
Lemma step_captured x xs cut i e w :
  framed cut (x :: xs) = true -> (cut = false -> captured_mouse_down e = None) ->
  let '(_, e', _, _) := step x i e w in exists cut', framed cut' xs = true /\ (cut' = false -> captured_mouse_down e' = None).
Proof.
  intros Hf Hc. destruct x as [d h r|p o r|u h r|i2|f]; cbn [framed] in Hf; cbn [step on_mouse_down on_mouse_move on_mouse_up].
  - destruct r; [case_bool_decide; [destruct h|]|]; by exists cut.
  - destruct r; [|by exists cut]. destruct (pending_mouse_down e); [|by exists cut]. destruct (drag_left e) as [[v g]|]; [|by exists cut].
    destruct (_ && _); [|by exists cut]. destruct (g v _ w). by exists cut.
  - apply andb_prop in Hf as [Hcut Hf]. destruct cut; [done|]. specialize (Hc eq_refl).
    destruct (pending_mouse_down e), h, r; cbn; rewrite ?Hc; cbn; by eexists.
  - by exists false.
  - by exists cut.
Qed.

Lemma step_calls x xs cut i e w :
  framed cut (x :: xs) = true -> (cut = false -> captured_mouse_down e = None) ->
  let '(_, _, w', c) := step x i e w in listeners_called x c i e w w'.
Proof.
  intros Hf Hc. destruct x as [d h r|p o r|u h r|i2|f]; cbn [framed] in Hf; unfold listeners_called; cbn [step].
  - destruct (on_mouse_down ClickCapture _ _ e w) as [e1 w1]. destruct r; [|done]. by destruct (on_mouse_down ClickBubble _ _ _ _).
  - destruct (on_mouse_move ClickCapture _ _ e w) as [e1 w1]. destruct r; [|done]. by destruct (on_mouse_move ClickBubble _ _ _ _).
  - apply andb_prop in Hf as [Hcut Hf]. destruct cut; [done|]. specialize (Hc eq_refl). cbn [on_mouse_up].
    destruct (pending_mouse_down e), h, r; cbn; rewrite ?Hc; cbn; reflexivity.
  - done.
  - done.
Qed.

Lemma run_calls xs : forall cut i e w k x,
  framed cut xs = true -> (cut = false -> captured_mouse_down e = None) -> xs !! k = Some x ->
  let '(i1, e1, w1) := after (take k xs) i e w in
  let '(_, _, w2) := after (take (S k) xs) i e w in
  exists c, run xs i e w !! k = Some c /\ listeners_called x c i1 e1 w1 w2.
Proof.
  induction xs as [|y xs IH]; intros cut i e w k x Hf Hc Hx; [done|].
  pose proof (step_calls y xs cut i e w Hf Hc) as Hs. pose proof (step_captured y xs cut i e w Hf Hc) as Hn.
  cbn [run]. destruct k as [|k].
  - cbn in Hx. injection Hx as <-. cbn [after take]. destruct (step y i e w) as [[[i' e'] w'] c]. cbn. by exists c.
  - cbn in Hx. change (take (S (S k)) (y :: xs)) with (y :: take (S k) xs). rewrite firstn_cons. cbn [after]. destruct (step y i e w) as [[[i' e'] w'] c]. destruct Hn as (cut' & Hf' & Hc'). by apply (IH cut').
Qed.


(** A click that is made is never one of the right button. *)
Lemma never_right_click d u : down_button d = LeftButton -> is_right_click (MouseClick d u) = false.
Proof. intros Hd. cbn. by rewrite Hd. Qed.

(** ** Hovering *)

(** The listener is told of changes only. *)
Lemma update_hover_changes i h e w :
  let (e', w') := update_hover i h e w in
  hover_state e' = h /\ w' = (if Bool.eqb h (hover_state e) then w else hover_listener i h w).
Proof. unfold update_hover. destruct (Bool.eqb h (hover_state e)) eqn:E; cbn; [|done]. by apply eqb_prop in E. Qed.

(** ** Drops *)

(** A drop calls the only listener of its type, once, and ends the drag. *)
Lemma drop_once ty i l1 f l2 drag w :
  Forall (fun x => fst x <> ty) (l1 ++ l2) -> active_drag w = Some drag -> can_drop_predicate i = None ->
  drop_on ty i (l1 ++ (ty, f) :: l2) w = Ok (stop_propagation (refresh (f (drag_value drag) (set_active_drag None w)))).
Proof.
  intros [H1 H2]%Forall_app Hd Hp. assert (Hskip : forall l w, Forall (fun x => fst x <> ty) l -> drop_on ty i l w = Ok w).
  { induction l as [|[t g] l IH]; intros w0 Hl; [done|]. inversion_clear Hl. cbn. rewrite bool_decide_false by done. by apply IH. }
  induction l1 as [|[t g] l1 IH]; cbn [app drop_on].
  - rewrite bool_decide_true, Hd, Hp by done. by apply Hskip.
  - inversion_clear H1. rewrite bool_decide_false by done. by apply IH.
Qed.

(** With a second listener of the type, the drag is gone when its turn comes. *)
Lemma drop_twice_panics ty i f g l drag w :
  active_drag w = Some drag -> can_drop_predicate i = None ->
  active_drag (f (drag_value drag) (set_active_drag None w)) = None ->
  drop_on ty i ((ty, f) :: (ty, g) :: l) w = Panic.
Proof. intros Hd Hp Hf. cbn. by rewrite !bool_decide_true, Hd, Hp; cbn; rewrite ?Hf. Qed.

End Clicks.

(** ** Tests and witness *)

Module TestClicks.

Abbreviation TWorld := (World (Value := N) (View := nat) (C := list nat)).
Abbreviation TInput := (Input (Modifiers := unit) (Value := N) (View := nat) (C := list nat)).
Definition w0 : TWorld := mkWorld [] None true false 0.
Definition note (n : nat) (w : TWorld) : TWorld := mkWorld (client w ++ [n]) (active_drag w) (propagate_event w) (default_prevented w) (refreshed w).
Definition button : Interactivity (Modifiers := unit) (Value := N) (View := nat) (C := list nat) := mkInteractivity [fun _ => note 1] None [] None (fun _ w => w).
Definition card : Interactivity (Modifiers := unit) (Value := N) (View := nat) (C := list nat) :=
  mkInteractivity [fun _ => note 1] (Some (7%N, fun _ _ w => (note 2 w, 0%nat))) [] None (fun _ w => w).
Definition down (b : MouseButton) (x : Z) := mkDown (Modifiers := unit) b (mkPoint x 0) tt 1 false.
Definition up (b : MouseButton) (x : Z) := mkUp (Modifiers := unit) b (mkPoint x 0) tt 1.
Definition clicks_of (i : Interactivity) (xs : list TInput) := omap id (run (Paint i :: xs) i element_new w0).

Example clicked : clicks_of button [Press (down LeftButton 0) true true; Move (mkPoint 9 0) (mkPoint 0 0) true; Paint button; Release (up LeftButton 9) true true] =
  [MouseClick (down LeftButton 0) (up LeftButton 9)].
Proof. by vm_compute. Qed.

(** A drag that began makes no click; one that moved too little does. *)
Example dragged :
  clicks_of card [Press (down LeftButton 0) true true; Move (mkPoint 3 0) (mkPoint 0 0) true; Paint card; Release (up LeftButton 3) true true] = [] /\
  clicks_of card [Press (down LeftButton 0) true true; Move (mkPoint 2 0) (mkPoint 0 0) true; Paint card; Release (up LeftButton 2) true true] =
    [MouseClick (down LeftButton 0) (up LeftButton 2)].
Proof. by vm_compute. Qed.

(** The release of any button makes the click. *)
Example other_button_clicks : clicks_of button [Press (down LeftButton 0) true true; Press (down RightButton 0) true true; Release (up RightButton 0) true true] =
  [MouseClick (down LeftButton 0) (up RightButton 0)].
Proof. by vm_compute. Qed.

(** A release that was cut off hands its press to the next, wherever that is. *)
Example stale_press : clicks_of button [Press (down LeftButton 0) true true; Release (up LeftButton 0) true false; Release (up RightButton 90) false true] =
  [MouseClick (down LeftButton 0) (up RightButton 90)].
Proof. by vm_compute. Qed.

(** Two listeners for drops of one type. *)
Example second_drop_panics :
  on_drop (fun v => v) ClickBubble true
    (mkInteractivity (Modifiers := unit) (View := nat) [] None [(7%N, fun _ => note 1); (7%N, fun _ => note 2)] None (fun _ w => w))
    (set_active_drag (Some (mkDrag 0%nat 7%N (mkPoint 0 0))) w0) = Panic.
Proof. by vm_compute. Qed.


End TestClicks.
