(* ===== verification/Accessibility.v ===== *)
(** * Accessibility: the tree for assistive technology, [crates/gpui/src/window/a11y.rs]

    While a frame is prepainted, elements with a role push a node, prepaint their children
    and pop it ([element.rs]); at the end the nodes are the update that AccessKit is sent,
    which panics on trees that are not well formed.  Requests of assistive technology go to
    the listeners of a node, or are done by the window ([window.rs]).

    The nodes are those of AccessKit: a class with the lists of children. *)

From Stdlib Require Import NArith ZArith.
From stdpp Require Import base list option numbers gmap.
From S2P Require Import Prelude Geometry.

#[local] Set Warnings "-register-all,-clear-no-such-hyp".

Abbreviation NodeId := N.
Definition root_node_id : NodeId := 0%N.

Class A11yNodes (Node : Type) := {
  window_node : Node;
  node_children : Node -> list NodeId;
  push_child : NodeId -> Node -> Node;
  set_children : list NodeId -> Node -> Node;
}.

Class A11yNodesLaws (Node : Type) `{A11yNodes Node} : Prop := {
  window_children : node_children window_node = [];
  push_child_children : forall id n, node_children (push_child id n) = node_children n ++ [id];
  set_children_children : forall ids n, node_children (set_children ids n) = ids;
}.

Section Accessibility.
Context `{A11yNodes Node}.

Record A11yNodeBuilder := mkBuilder {
  ids_stack : list NodeId;
  nodes_stack : list Node;
  all_nodes : list (NodeId * Node);
  seen_ids : gset NodeId;
  focus : NodeId;
}.

Implicit Types (b : A11yNodeBuilder).

Definition builder_new : A11yNodeBuilder := mkBuilder [] [] [] ∅ root_node_id.

(** Whether the node was pushed. *)
Definition push (id : NodeId) (node : Node) b : A11yNodeBuilder * bool :=
  if bool_decide (id ∈ seen_ids b) then (b, false)
  else
    (mkBuilder (ids_stack b ++ [id]) (alter (push_child id) (length (nodes_stack b) - 1) (nodes_stack b) ++ [node]) (all_nodes b)
       ({[id]} ∪ seen_ids b) (focus b), true).

(** [SmallVec::pop]. *)
Definition vec_pop {A} (l : list A) : list A * option A := (removelast l, list.last l).

Definition pop b : A11yNodeBuilder :=
  let (ids, id) := vec_pop (ids_stack b) in
  match id with
  | Some id =>
      let (ns, n) := vec_pop (nodes_stack b) in
      mkBuilder ids ns (match n with Some n => all_nodes b ++ [(id, n)] | None => all_nodes b end) (seen_ids b) (focus b)
  | None => mkBuilder ids (removelast (nodes_stack b)) (all_nodes b) (seen_ids b) (focus b)
  end.

Definition begin_nodes (_ : A11yNodeBuilder) : A11yNodeBuilder := mkBuilder [root_node_id] [window_node] [] ∅ root_node_id.

Definition has_node (id : NodeId) b : bool := (id =? root_node_id)%N || bool_decide (id ∈ seen_ids b).

Definition set_focus (id : NodeId) b : A11yNodeBuilder := mkBuilder (ids_stack b) (nodes_stack b) (all_nodes b) (seen_ids b) id.

(** The tree is always that of the root. *)
Record TreeUpdate := mkUpdate { update_nodes : list (NodeId * Node); update_focus : NodeId }.

(** The ids of the nodes of an update. *)
Definition node_ids (u : TreeUpdate) : gset NodeId := list_to_set (map fst (update_nodes u)).

Definition repair_node (ids : gset NodeId) (x : NodeId * Node) : NodeId * Node :=
  let (id, n) := x in
  if existsb (fun c => negb (bool_decide (c ∈ ids))) (node_children n)
  then (id, set_children (List.filter (fun c => bool_decide (c ∈ ids)) (node_children n)) n)
  else (id, n).

Definition repair_tree_update (u : TreeUpdate) : TreeUpdate :=
  let ids := node_ids u in
  mkUpdate (map (repair_node ids) (update_nodes u)) (if bool_decide (update_focus u ∈ ids) then update_focus u else root_node_id).

(** The loop that pops what is left; [n] bounds the stack. *)
Fixpoint pop_all (n : nat) b : A11yNodeBuilder :=
  match n with
  | 0 => b
  | S n => match ids_stack b with [] => b | _ :: _ => pop_all n (pop b) end
  end.

Definition finalize b : A11yNodeBuilder * TreeUpdate :=
  let b := pop_all (length (ids_stack b)) b in
  (mkBuilder (ids_stack b) (nodes_stack b) [] (seen_ids b) (focus b), repair_tree_update (mkUpdate (all_nodes b) (focus b))).

(** ** The elements of a frame *)

(** An element that is prepainted: its node, if it has an identity and a role; whether it
    sets the focus of the tree; and what it prepaints inside. *)
Inductive Elem := mkElem (node : option (NodeId * Node)) (focused : bool) (kids : list Elem).

(** What [Drawable::prepaint] does around an element, and [Interactivity::prepaint] where the
    element is focused. *)
Fixpoint prepaint_elem (e : Elem) b : A11yNodeBuilder :=
  let '(mkElem node focused kids) := e in
  let inside b := foldl (fun b k => prepaint_elem k b) b kids in
  match node with
  | Some (id, n) =>
      let (b, pushed) := push id n b in
      let b := if focused && has_node id b then set_focus id b else b in
      if pushed then pop (inside b) else inside b
  | None => inside b
  end.

(** ** A window's state *)

Section State.
Context {FocusId Listener Action Json : Type} `{!EqDecision Action}.
(** [debug::tree_update_to_json]. *)
Context (tree_update_to_json : TreeUpdate -> Json).

Record A11y := mkA11y {
  force_disabled : bool;
  active_flag : bool;
  active_this_frame : bool;
  nodes : A11yNodeBuilder;
  focus_ids : gmap NodeId FocusId;
  node_bounds : gmap NodeId Bounds;
  action_listeners : gmap NodeId (list (Action * Listener));
  debug_tree_json : option Json;
}.

Implicit Types (a : A11y).

Definition a11y_new (flag disabled : bool) : A11y := mkA11y disabled flag false builder_new ∅ ∅ ∅ None.

Definition is_enabled a : bool := negb (force_disabled a).
Definition is_active a : bool := active_this_frame a.

Definition sync_active_flag a : A11y :=
  mkA11y (force_disabled a) (active_flag a) (is_enabled a && active_flag a) (nodes a) (focus_ids a) (node_bounds a) (action_listeners a) (debug_tree_json a).

Definition begin_frame a : A11y :=
  mkA11y (force_disabled a) (active_flag a) (active_this_frame a) (begin_nodes (nodes a)) ∅ ∅ ∅ (debug_tree_json a).

Definition end_frame a : A11y * TreeUpdate :=
  let (b, u) := finalize (nodes a) in
  (mkA11y (force_disabled a) (active_flag a) (active_this_frame a) b (focus_ids a) (node_bounds a) (action_listeners a) (Some (tree_update_to_json u)), u).

Definition with_nodes (b : A11yNodeBuilder) a : A11y :=
  mkA11y (force_disabled a) (active_flag a) (active_this_frame a) b (focus_ids a) (node_bounds a) (action_listeners a) (debug_tree_json a).
Definition with_action_listeners l a : A11y :=
  mkA11y (force_disabled a) (active_flag a) (active_this_frame a) (nodes a) (focus_ids a) (node_bounds a) l (debug_tree_json a).
Definition with_active_flag v a : A11y :=
  mkA11y (force_disabled a) v (active_this_frame a) (nodes a) (focus_ids a) (node_bounds a) (action_listeners a) (debug_tree_json a).

Definition on_a11y_action (id : NodeId) (action : Action) (l : Listener) a : A11y :=
  with_action_listeners (<[id := default [] (action_listeners a !! id) ++ [(action, l)]]> (action_listeners a)) a.

(** What [draw_roots] does around the frame that is drawn, in which the flag may change; the
    update is sent if the flag is still set. *)
Definition draw_tree (forest : list Elem) (flag : bool) a : A11y * option TreeUpdate :=
  let a := sync_active_flag a in
  let a := if is_active a then begin_frame a else a in
  let active_start_of_frame := is_active a in
  let a := if active_start_of_frame then with_nodes (foldl (fun b e => prepaint_elem e b) (nodes a) forest) a else a in
  let a := sync_active_flag (with_active_flag flag a) in
  if active_start_of_frame then
    let (a, u) := end_frame a in (a, if is_active a then Some u else None)
  else (a, None).

(** *** Requests *)

(** The window, with what it does for a request without a listener. *)
Context {W ActionData : Type} (get_a11y : W -> A11y) (set_a11y : A11y -> W -> W).
Context (call_listener : Listener -> option ActionData -> W -> W) (mouse_down mouse_up : Point -> W -> W).
Context (focus_handle_exists : FocusId -> W -> bool) (window_focus : FocusId -> W -> W) (window_blur : W -> W).
Context (Click Focus Blur : Action).

Fixpoint call_matching (action : Action) (data : option ActionData) (ls : list (Action * Listener)) (w : W) (matched : bool) : W * bool :=
  match ls with
  | [] => (w, matched)
  | (action', l) :: ls =>
      if bool_decide (action' = action) then call_matching action data ls (call_listener l data w) true
      else call_matching action data ls w matched
  end.

Definition default_action (target : NodeId) (action : Action) (w : W) : W :=
  if bool_decide (action = Click) then
    match node_bounds (get_a11y w) !! target with
    | Some b => mouse_up (center b) (mouse_down (center b) w)
    | None => w
    end
  else if bool_decide (action = Focus) then
    match focus_ids (get_a11y w) !! target with
    | Some f => if focus_handle_exists f w then window_focus f w else w
    | None => w
    end
  else if bool_decide (action = Blur) then window_blur w
  else w.

(** The listeners are out of the map while they are called. *)
Definition handle_a11y_action (target : NodeId) (action : Action) (data : option ActionData) (w : W) : W :=
  match action_listeners (get_a11y w) !! target with
  | Some ls =>
      let w := set_a11y (with_action_listeners (delete target (action_listeners (get_a11y w))) (get_a11y w)) w in
      let (w, matched) := call_matching action data ls w false in
      let w := set_a11y (with_action_listeners (<[target := ls]> (action_listeners (get_a11y w))) (get_a11y w)) w in
      if matched then w else default_action target action w
  | None => default_action target action w
  end.
End State.

(** ** Well-formed trees *)

(** What AccessKit needs of an update, as a tree is: the ids are unique, every node but the
    root is the child of exactly one node and every child is a node, children come before
    their parents, and the focus is a node. *)
Definition children_of (l : list (NodeId * Node)) : list NodeId := concat (map (fun x => node_children x.2) l).
Definition children_first (l : list (NodeId * Node)) : Prop :=
  forall pre x post c, l = pre ++ x :: post -> c ∈ node_children x.2 -> c ∈ map fst pre.

Record tree_valid (u : TreeUpdate) : Prop := mkValid {
  valid_unique : NoDup (map fst (update_nodes u));
  valid_parents : map fst (update_nodes u) ≡ₚ root_node_id :: children_of (update_nodes u);
  valid_order : children_first (update_nodes u);
  valid_focus : update_focus u ∈ map fst (update_nodes u);
}.

(** Elements whose ids are not the root's, and whose nodes come without children. *)
Inductive elem_ok : Elem -> Prop :=
  | elem_ok_intro node focused kids :
      match node with Some (id, n) => id <> root_node_id /\ node_children n = [] | None => True end ->
      Forall elem_ok kids -> elem_ok (mkElem node focused kids).

(** The nodes of elements with different ids: children before parents, and the children of a
    node are the nodes closest below it. *)
Fixpoint top_ids (e : Elem) : list NodeId :=
  let '(mkElem node _ kids) := e in
  match node with Some (id, _) => [id] | None => flat_map top_ids kids end.
Definition push_children (ids : list NodeId) (n : Node) : Node := foldl (fun n c => push_child c n) n ids.
Fixpoint post_order (e : Elem) : list (NodeId * Node) :=
  let '(mkElem node _ kids) := e in
  match node with
  | Some (id, n) => flat_map post_order kids ++ [(id, push_children (flat_map top_ids kids) n)]
  | None => flat_map post_order kids
  end.

Lemma Elem_rect' (P : Elem -> Prop) : (forall node f kids, Forall P kids -> P (mkElem node f kids)) -> forall e, P e.
Proof.
  intros Hk. fix IH 1. intros [node f kids]. apply Hk.
  induction kids as [|k kids IHk]; constructor; [apply IH | apply IHk].
Qed.

Context `{!A11yNodesLaws Node}.

(** What the nodes of a stack may have as children: nodes that are done, and the next of the
    stack. *)
Definition open_children (done : list NodeId) (n : Node) (next : option NodeId) : Prop :=
  forall c, c ∈ node_children n -> c ∈ done \/ next = Some c.

Record builder_ok (b : A11yNodeBuilder) : Prop := mkOk {
  ok_unique : NoDup (map fst (all_nodes b) ++ ids_stack b);
  ok_parents : map fst (all_nodes b) ++ ids_stack b ≡ₚ
               root_node_id :: children_of (all_nodes b) ++ concat (map node_children (nodes_stack b));
  ok_order : children_first (all_nodes b);
  ok_open : Forall2 (open_children (map fst (all_nodes b))) (nodes_stack b) (map Some (tail (ids_stack b)) ++ [None]);
  ok_root : exists ids, ids_stack b = root_node_id :: ids;
  ok_seen : forall id, id ∈ seen_ids b <-> id ∈ map fst (all_nodes b) ++ ids_stack b /\ id <> root_node_id;
  ok_focus : focus b ∈ map fst (all_nodes b) ++ ids_stack b;
}.

Lemma children_first_snoc l x :
  children_first l -> (forall c, c ∈ node_children x.2 -> c ∈ map fst l) -> children_first (l ++ [x]).
Proof.
  intros Hl Hx pre y post c E Hc. destruct post as [|z post _] using rev_ind.
  - apply app_inj_tail in E as [-> ->]. by apply Hx.
  - rewrite app_comm_cons, app_assoc in E. apply app_inj_tail in E as [-> _]. by eapply Hl.
Qed.

Lemma children_of_snoc l x : children_of (l ++ [x]) = children_of l ++ node_children x.2.
Proof. unfold children_of. rewrite map_app, concat_app. cbn. by rewrite app_nil_r. Qed.

Lemma begin_nodes_ok b : builder_ok (begin_nodes b).
Proof.
  constructor; cbn.
  - repeat constructor. set_solver.
  - by rewrite window_children.
  - intros [] ??? E; discriminate E.
  - constructor; [|constructor]. intros c Hc. rewrite window_children in Hc. set_solver.
  - by eexists.
  - set_solver.
  - set_solver.
Qed.

Lemma ids_length b : builder_ok b -> length (nodes_stack b) = length (ids_stack b).
Proof.
  intros Hb. destruct (ok_root _ Hb) as [ids E]. rewrite (Forall2_length _ _ _ (ok_open _ Hb)), E.
  cbn. rewrite length_app, length_map. cbn. lia.
Qed.

(** The stacks of a builder. *)
Lemma stacks b : builder_ok b -> exists ns n, nodes_stack b = ns ++ [n].
Proof.
  intros Hb. pose proof (ids_length _ Hb) as El. destruct (ok_root _ Hb) as [ids E]. rewrite E in El.
  destruct (nodes_stack b) as [|n ns _] using rev_ind; [discriminate|]. by eexists _, _.
Qed.

(** ** The builder keeps it so *)

Lemma alter_last {A} (f : A -> A) l x : alter f (length (l ++ [x]) - 1) (l ++ [x]) = l ++ [f x].
Proof.
  rewrite length_app. cbn. replace (length l + 1 - 1) with (length l) by lia.
  induction l as [|y l IH]; cbn; [done | by f_equal].
Qed.

Lemma push_node_ok id n b b' :
  id <> root_node_id -> node_children n = [] -> builder_ok b -> push id n b = (b', true) ->
  builder_ok b' /\ ids_stack b' = ids_stack b ++ [id].
Proof.
  intros Hr Hn Hb. unfold push. case_bool_decide as Hs; intros [= <-]. split; [|done].
  destruct (stacks _ Hb) as (ns & m & En). destruct (ok_root _ Hb) as [ids Ei].
  rewrite (ok_seen _ Hb) in Hs.
  pose proof (ok_open _ Hb) as Ho. pose proof (ok_parents _ Hb) as Hp. rewrite En in *. rewrite Ei in *.
  constructor; cbn [ids_stack nodes_stack all_nodes seen_ids focus]; rewrite ?alter_last.
  - rewrite app_assoc. apply NoDup_app. split_and!.
    + pose proof (ok_unique _ Hb) as Hu. by rewrite Ei in Hu.
    + set_solver.
    + apply NoDup_singleton.
  - rewrite app_assoc, Hp, !map_app, !concat_app. cbn. rewrite push_child_children, Hn, !app_nil_r, !app_assoc. done.
  - apply (ok_order _ Hb).
  - cbn. cbn in Ho. apply Forall2_app; [|constructor; [|constructor]].
    + apply Forall2_app_inv in Ho as [Ho1 Ho2]; [|apply Forall2_length in Ho; rewrite !length_app in Ho; cbn in Ho; lia].
      rewrite map_app. apply Forall2_app; [done|]. constructor; [|constructor].
      inversion_clear Ho2 as [|???? Hm _]. intros c. rewrite push_child_children, elem_of_app, list_elem_of_singleton.
      intros [Hc| ->]; [|by right]. destruct (Hm c Hc) as [|E]; [by left | discriminate].
    + intros c. rewrite Hn. set_solver.
  - by eexists.
  - intros c. rewrite elem_of_union, elem_of_singleton, (ok_seen _ Hb), Ei. set_solver.
  - pose proof (ok_focus _ Hb) as Hf. rewrite Ei in Hf. set_solver.
Qed.

(** Moving the top of the stack to the nodes that are done. *)
Lemma done_ok ids ns all ids' ns' id n :
  ids = ids' ++ [id] -> ns = ns' ++ [n] ->
  map fst all ++ ids ≡ₚ root_node_id :: children_of all ++ concat (map node_children ns) ->
  map fst (all ++ [(id, n)]) ++ ids' ≡ₚ root_node_id :: children_of (all ++ [(id, n)]) ++ concat (map node_children ns').
Proof.
  intros -> ->. rewrite children_of_snoc, !map_app, concat_app. cbn. rewrite !app_nil_r, <- !app_assoc. intros Hp.
  rewrite (Permutation_app_comm [id]), (Permutation_app_comm (node_children n)). done.
Qed.

Lemma pop_eq b ids id ns n :
  ids_stack b = ids ++ [id] -> nodes_stack b = ns ++ [n] ->
  pop b = mkBuilder ids ns (all_nodes b ++ [(id, n)]) (seen_ids b) (focus b).
Proof. intros Ei En. unfold pop, vec_pop. by rewrite Ei, En, !last_snoc, !removelast_last. Qed.

Lemma open_weaken done done' n next : done ⊆ done' -> open_children done n next -> open_children done' n next.
Proof. intros Hd Hn c Hc. destruct (Hn c Hc); [left; by apply Hd | by right]. Qed.

Lemma open_done done id ns (nexts : list (option NodeId)) :
  Forall2 (open_children done) ns (nexts ++ [Some id]) -> Forall2 (open_children (done ++ [id])) ns (nexts ++ [None]).
Proof.
  intros (ns1 & ns2 & H1 & H2 & ->)%Forall2_app_inv_r. apply Forall2_app.
  - eapply Forall2_impl; [exact H1|]. intros n next. apply open_weaken. set_solver.
  - inversion_clear H2 as [|n ? l ? Hn Hl]. inversion_clear Hl. constructor; [|constructor].
    intros c Hc. left. destruct (Hn c Hc) as [|[= ->]]; set_solver.
Qed.

Lemma pop_ok id ids b :
  builder_ok b -> ids_stack b = ids ++ [id] -> ids <> [] -> builder_ok (pop b) /\ ids_stack (pop b) = ids.
Proof.
  intros Hb Ei Hne. destruct (stacks _ Hb) as (ns & n & En). rewrite (pop_eq _ _ _ _ _ Ei En). split; [|done].
  destruct (ok_root _ Hb) as [ids' Er]. destruct ids as [|r ids]; [done|]. rewrite Ei in Er. injection Er as -> Er.
  pose proof (ok_open _ Hb) as Ho. rewrite Ei, En in Ho. cbn in Ho.
  apply Forall2_app_inv in Ho as [Ho1 Ho2]; [|apply Forall2_length in Ho; rewrite !length_app in Ho; cbn in Ho; lia].
  inversion_clear Ho2 as [|???? Hn _].
  assert (Hel : forall c, c ∈ map fst (all_nodes b ++ [(id, n)]) ++ root_node_id :: ids <-> c ∈ map fst (all_nodes b) ++ ids_stack b)
    by (intros c; rewrite Ei, map_app; set_solver).
  constructor; cbn [ids_stack nodes_stack all_nodes seen_ids focus].
  - pose proof (ok_unique _ Hb) as Hu. rewrite Ei in Hu. rewrite map_app. cbn [map fst].
    rewrite <- app_assoc, (Permutation_app_comm [id]). done.
  - apply (done_ok _ _ _ _ _ _ _ Ei En). apply Hb.
  - apply children_first_snoc; [apply Hb|]. intros c Hc. by destruct (Hn c Hc).
  - cbn. rewrite map_app in Ho1. cbn in Ho1. rewrite map_app. by apply open_done.
  - by eexists.
  - intros c. by rewrite (ok_seen _ Hb), Hel.
  - rewrite Hel. apply (ok_focus _ Hb).
Qed.

Lemma set_focus_ok id b : builder_ok b -> has_node id b = true -> builder_ok (set_focus id b).
Proof.
  intros Hb. unfold has_node. rewrite orb_true_iff, N.eqb_eq, bool_decide_eq_true, (ok_seen _ Hb). intros Hid.
  destruct Hb as [Hu Hp Ho Hop Hr Hs _]. split; cbn [set_focus focus all_nodes ids_stack nodes_stack seen_ids]; try done.
  destruct Hid as [->|[Hid _]]; [|done]. destruct Hr as [ids ->]. set_solver.
Qed.

Definition keeps (f : A11yNodeBuilder -> A11yNodeBuilder) : Prop :=
  forall b, builder_ok b -> builder_ok (f b) /\ ids_stack (f b) = ids_stack b.

Lemma foldl_keeps {A} (f : A -> A11yNodeBuilder -> A11yNodeBuilder) l :
  Forall (fun x => keeps (f x)) l -> keeps (fun b => foldl (fun b x => f x b) b l).
Proof.
  induction 1 as [|x l Hx Hl IH]; intros b Hb; cbn [foldl]; [done|].
  destruct (Hx b Hb) as [Hb' E']. destruct (IH _ Hb') as [Hb'' ->]. done.
Qed.

Lemma prepaint_elem_ok e : elem_ok e -> keeps (prepaint_elem e).
Proof.
  induction e as [node f kids IH] using Elem_rect'. intros He. inversion_clear He as [??? Hn Hk].
  assert (Hin : keeps (fun b => foldl (fun b k => prepaint_elem k b) b kids)).
  { apply foldl_keeps. rewrite Forall_forall in *. eauto. }
  intros b Hb. cbn [prepaint_elem]. destruct node as [[id n]|]; [|by apply Hin]. destruct Hn as [Hr Hc].
  assert (Hf : forall b, builder_ok b ->
    builder_ok (if f && has_node id b then set_focus id b else b) /\
    ids_stack (if f && has_node id b then set_focus id b else b) = ids_stack b).
  { intros b0 Hb0. destruct (f && has_node id b0) eqn:E; [|done]. apply andb_prop in E as [_ E].
    split; [by apply set_focus_ok | done]. }
  destruct (push id n b) as [b1 pushed] eqn:Ep. destruct pushed.
  - destruct (push_node_ok _ _ _ _ Hr Hc Hb Ep) as [Hb1 E1]. destruct (Hf _ Hb1) as [Hb2 E2].
    destruct (Hin _ Hb2) as [Hb3 E3]. rewrite E2, E1 in E3. apply (pop_ok id _ _ Hb3 E3).
    by destruct (ok_root _ Hb) as [? ->].
  - assert (b1 = b) as -> by (unfold push in Ep; case_bool_decide; by injection Ep).
    destruct (Hf _ Hb) as [Hb2 E2]. destruct (Hin _ Hb2) as [Hb3 E3]. by rewrite E3, E2.
Qed.

(** A frame is begun, the elements are prepainted and the tree is finalized. *)
Definition tree_of (forest : list Elem) (b : A11yNodeBuilder) : TreeUpdate :=
  (finalize (foldl (fun b e => prepaint_elem e b) (begin_nodes b) forest)).2.

(** The root is what is left, and becomes the last node. *)
Lemma finalize_eq b :
  builder_ok b -> ids_stack b = [root_node_id] ->
  exists n, nodes_stack b = [n] /\ finalize b = (mkBuilder [] [] [] (seen_ids b) (focus b), repair_tree_update (mkUpdate (all_nodes b ++ [(root_node_id, n)]) (focus b))).
Proof.
  intros Hb Ei. destruct (stacks _ Hb) as (ns & n & En).
  assert (ns = []) as -> by (pose proof (ids_length _ Hb) as El; rewrite Ei, En, length_app in El; cbn in El; apply length_zero_iff_nil; lia).
  exists n. split; [done|]. unfold finalize. rewrite Ei. cbn [length pop_all]. rewrite Ei.
  by rewrite (pop_eq b [] root_node_id [] n Ei En).
Qed.

(** A valid tree is not repaired. *)
Lemma repair_valid u : tree_valid u -> repair_tree_update u = u.
Proof.
  intros Hu. unfold repair_tree_update. rewrite bool_decide_true by (unfold node_ids; rewrite elem_of_list_to_set; apply Hu).
  destruct u as [l f]; cbn. f_equal. etrans; [|apply map_id]. apply map_ext_in. intros [id n] Hx. cbn.
  destruct (existsb _ _) eqn:E; [|done]. apply existsb_exists in E as (c & Hc & E). exfalso.
  rewrite negb_true_iff, bool_decide_eq_false in E. apply E. unfold node_ids. rewrite elem_of_list_to_set.
  rewrite (valid_parents _ Hu). apply list_elem_of_further. cbn. unfold children_of. rewrite list_elem_of_In, in_concat.
  exists (node_children n). split; [|done]. apply in_map_iff. by exists (id, n).
Qed.

Lemma all_valid b n :
  builder_ok b -> ids_stack b = [root_node_id] -> nodes_stack b = [n] -> tree_valid (mkUpdate (all_nodes b ++ [(root_node_id, n)]) (focus b)).
Proof.
  intros Hb Ei En.
  assert (E : map fst (all_nodes b ++ [(root_node_id, n)]) = map fst (all_nodes b) ++ ids_stack b) by (by rewrite map_app, Ei).
  constructor; cbn [update_nodes update_focus]; rewrite ?E.
  - apply (ok_unique _ Hb).
  - rewrite (ok_parents _ Hb), En, children_of_snoc. cbn. by rewrite app_nil_r.
  - apply children_first_snoc; [apply Hb|]. intros c Hc. pose proof (ok_open _ Hb) as Ho. rewrite Ei, En in Ho.
    inversion_clear Ho as [|???? Hn _]. by destruct (Hn c Hc).
  - apply (ok_focus _ Hb).
Qed.

(** ** The tree is that of the elements *)

Fixpoint elem_ids (e : Elem) : list NodeId :=
  let '(mkElem node _ kids) := e in
  match node with Some (id, _) => id :: flat_map elem_ids kids | None => flat_map elem_ids kids end.

(** What prepainting adds: nodes that are done, and children of the node on top. *)
Definition adds (f : A11yNodeBuilder -> A11yNodeBuilder) (ids tops : list NodeId) (post : list (NodeId * Node)) : Prop :=
  forall b ns n, NoDup ids -> (forall id, id ∈ ids -> id ∉ seen_ids b) -> nodes_stack b = ns ++ [n] ->
    ids_stack (f b) = ids_stack b /\ nodes_stack (f b) = ns ++ [push_children tops n] /\
    all_nodes (f b) = all_nodes b ++ post /\ seen_ids (f b) = list_to_set ids ∪ seen_ids b.

Lemma push_children_app l1 l2 n : push_children (l1 ++ l2) n = push_children l2 (push_children l1 n).
Proof. apply foldl_app. Qed.

Lemma adds_foldl kids :
  Forall (fun k => adds (prepaint_elem k) (elem_ids k) (top_ids k) (post_order k)) kids ->
  adds (fun b => foldl (fun b k => prepaint_elem k b) b kids) (flat_map elem_ids kids) (flat_map top_ids kids) (flat_map post_order kids).
Proof.
  induction 1 as [|k kids Hk _ IH]; intros b ns n Hd Hs En; cbn [foldl flat_map] in *.
  - rewrite app_nil_r. split_and!; [done | done | done | set_solver].
  - apply NoDup_app in Hd as (Hd1 & Hd & Hd2).
    destruct (Hk b ns n Hd1) as (E1 & E2 & E3 & E4); [set_solver | done |].
    destruct (IH (prepaint_elem k b) ns (push_children (top_ids k) n) Hd2) as (-> & -> & -> & ->); [|done|].
    + intros id Hid. rewrite E4. set_solver.
    + rewrite E1, E3, E4, push_children_app, app_assoc. split_and!; [done | done | done |].
      rewrite list_to_set_app_L. set_solver.
Qed.

Lemma adds_elem e : adds (prepaint_elem e) (elem_ids e) (top_ids e) (post_order e).
Proof.
  induction e as [node f kids IH] using Elem_rect'. apply adds_foldl in IH. destruct node as [[id m]|]; [|exact IH].
  intros b ns n Hd Hs En. cbn [elem_ids top_ids post_order prepaint_elem] in *.
  apply NoDup_cons in Hd as [Hi Hd]. unfold push. rewrite bool_decide_false by set_solver.
  set (b1 := mkBuilder _ _ _ _ _). set (b2 := if _ && _ then _ else b1).
  assert (E : ids_stack b2 = ids_stack b1 /\ nodes_stack b2 = nodes_stack b1 /\ all_nodes b2 = all_nodes b1 /\ seen_ids b2 = seen_ids b1)
    by (unfold b2; by destruct (_ && _)).
  destruct E as (E1 & E2 & E3 & E4).
  destruct (IH b2 (ns ++ [push_child id n]) m Hd) as (F1 & F2 & F3 & F4).
  - intros c Hc. rewrite E4. cbn. set_solver.
  - rewrite E2. cbn. by rewrite En, alter_last.
  - rewrite E1 in F1. cbn in F1. rewrite (pop_eq _ _ _ _ _ F1 F2). cbn.
    rewrite F3, F4, E3, E4, app_assoc. cbn. split_and!; [done | done | done | set_solver].
Qed.

(** C25: if no element of a frame has the id of the root, 0 (which the builder does not refuse:
    [TestA11y.root_id_taken]), nor a node that has children before it is pushed, the tree that
    AccessKit is sent is well formed, and the builder's defensive repair finds nothing to do;
    so it is when an id was used before, whose later node is discarded, as release builds do
    (debug builds assert that there is none).  If the ids differ, the tree is that of the
    elements: after the nodes of the elements inside it, each element's node has as children the
    nodes closest below it, and the last node is the root. *)
Theorem a11y_tree_correct forest b :
  Forall elem_ok forest ->
  tree_valid (tree_of forest b) /\
  update_focus (tree_of forest b) = focus (foldl (fun b e => prepaint_elem e b) (begin_nodes b) forest) /\
  (NoDup (flat_map elem_ids forest) ->
   update_nodes (tree_of forest b) =
     flat_map post_order forest ++ [(root_node_id, push_children (flat_map top_ids forest) window_node)]).
Proof.
  intros Hf. set (b' := foldl _ _ _).
  assert (Hk : builder_ok b' /\ ids_stack b' = ids_stack (begin_nodes b)).
  { apply (foldl_keeps prepaint_elem forest); [|apply begin_nodes_ok]. eapply Forall_impl; [exact Hf | apply prepaint_elem_ok]. }
  destruct Hk as [Hb Ei]. destruct (finalize_eq _ Hb Ei) as (n & En & E).
  pose proof (all_valid _ _ Hb Ei En) as Hv. unfold tree_of. fold b'. rewrite E. cbn [snd]. rewrite (repair_valid _ Hv).
  split; [exact Hv|]. split; [done|]. intros Hd. cbn [update_nodes].
  assert (Ha : Forall (fun k => adds (prepaint_elem k) (elem_ids k) (top_ids k) (post_order k)) forest)
    by (apply Forall_forall; intros; apply adds_elem).
  destruct (adds_foldl _ Ha (begin_nodes b) [] window_node Hd) as (_ & F2 & F3 & _); [set_solver | done |].
  fold b' in F2, F3. rewrite F3. rewrite En in F2. injection F2 as ->. done.
Qed.

(** ** Requests *)

(** A request for a node whose listeners take the action calls them in order, and nothing else. *)
Lemma call_matching_correct {W Listener Action ActionData} `{!EqDecision Action}
    (call_listener : Listener -> option ActionData -> W -> W) action data (ls : list (Action * Listener)) w m :
  call_matching call_listener action data ls w m =
  let ls' := List.filter (fun x => bool_decide (x.1 = action)) ls in
  (foldl (fun w x => call_listener x.2 data w) w ls', m || negb (bool_decide (ls' = []))).
Proof.
  revert w m. induction ls as [|[a l] ls IH]; intros w m; cbn; [by rewrite orb_false_r|].
  case_bool_decide; rewrite IH; cbn; [|done]. by rewrite orb_true_r.
Qed.

End Accessibility.

(** ** A frame with an id that is used twice *)
Module TestA11y.

#[local] Instance list_nodes : A11yNodes (list NodeId) :=
  {| window_node := []; node_children n := n; push_child c n := n ++ [c]; set_children ids _ := ids |}.
#[local] Instance list_nodes_laws : A11yNodesLaws (list NodeId).
Proof. done. Qed.

Definition forest : list (Elem (Node := list NodeId)) :=
  [mkElem (Some (1%N, [])) false [mkElem None false [mkElem (Some (2%N, [])) true []]]; mkElem (Some (3%N, [])) false [mkElem (Some (2%N, [])) false []]].

Example duplicate_discarded :
  update_nodes (tree_of forest builder_new) = [(2%N, []); (1%N, [2%N]); (3%N, []); (0%N, [1%N; 3%N])] /\
  update_focus (tree_of forest builder_new) = 2%N.
Proof. by vm_compute. Qed.

(** The root's id is not among those seen, so that a node may take it; repair does not find
    the id that occurs twice. *)
Example root_id_taken :
  map fst (update_nodes (tree_of [mkElem (Some (0%N, [] : list NodeId)) false []] builder_new)) = [0%N; 0%N].
Proof. by vm_compute. Qed.

Lemma forest_ok : Forall elem_ok forest.
Proof. repeat (constructor; [try done|]); repeat constructor; done. Qed.

(** Without the second use. *)
Definition forest_distinct : list (Elem (Node := list NodeId)) :=
  [mkElem (Some (1%N, [])) false [mkElem None false [mkElem (Some (2%N, [])) true []]]; mkElem (Some (3%N, [])) false []].

Lemma forest_distinct_ok : Forall elem_ok forest_distinct.
Proof. repeat (constructor; [try done|]); repeat constructor; done. Qed.

Lemma a11y_tree_correct_witness :
  tree_valid (tree_of forest builder_new) /\
  update_nodes (tree_of forest_distinct builder_new) = [(2%N, []); (1%N, [2%N]); (3%N, []); (0%N, [1%N; 3%N])].
Proof.
  split; [apply (a11y_tree_correct forest builder_new); exact forest_ok|].
  destruct (a11y_tree_correct forest_distinct builder_new forest_distinct_ok) as (_ & _ & E).
  rewrite E; [reflexivity | by apply (bool_decide_unpack _)].
Defined.

End TestA11y.
