(* ===== verification/WindowKeys.v ===== *)
(** * WindowKeys: the keys of a window, [crates/gpui/src/window.rs]

    A key event is resolved with the dispatch tree of the frame shown.  Keystrokes that may
    begin a binding are kept as the pending input of the window, with a timeout that an
    entity can pause; when it is over they are replayed.  Actions go from the root to the
    focused node and back.

    The callbacks of the client are functions to lists of operations on the window, the
    public ones that have to do with keys ([Op]): they may read all of the window, and the
    theorems quantify over them.  They do not draw the window or dispatch keystrokes
    themselves.  A drawing is a function to the tree it leaves.  The tasks of the timeouts
    are a map from the tasks alive to the times they wait for; dropping a task removes it.
    Durations and instants are in nanoseconds. *)

From Stdlib Require Import NArith String.
From stdpp Require Import base list option numbers gmap.
From S2P Require Import Prelude Text Actions KeyContext Keystroke Keymap DispatchTree DispatchInvariant DispatchKeys.

#[local] Set Warnings "-register-all,-clear-no-such-hyp".

(** ** Timeouts *)

Inductive PendingInputTimeoutState := Running (started_at task : N) | Paused (owner_id : N).

Record PendingInputTimeout := mkTimeout {
  duration : N;
  remaining : N;
  timeout_state : PendingInputTimeoutState;
}.

Record PendingInputTimeoutStatus := mkStatus {
  status_duration : N;
  status_remaining : N;
  started_at : option N;
  paused : bool;
}.

(** [PENDING_INPUT_TIMEOUT], a second. *)
Definition pending_input_timeout : N := 1000000000.

Definition is_paused (t : PendingInputTimeout) : bool := match timeout_state t with Paused _ => true | Running _ _ => false end.

(** With the task that is dropped, and whether the timeout changed. *)
Definition timeout_pause (owner now : N) (t : PendingInputTimeout) : PendingInputTimeout * option N * bool :=
  match timeout_state t with
  | Running s task => (mkTimeout (duration t) (remaining t - (now - s)) (Paused owner), Some task, true)
  | Paused _ => (t, None, false)
  end.

Definition pause_owner_id (t : PendingInputTimeout) : option N :=
  match timeout_state t with Running _ _ => None | Paused owner => Some owner end.

Definition timeout_resume (owner s task : N) (t : PendingInputTimeout) : PendingInputTimeout * option N * bool :=
  match timeout_state t with
  | Paused owner' => if (owner' =? owner)%N then (mkTimeout (duration t) (remaining t) (Running s task), None, true) else (t, Some task, false)
  | Running _ _ => (t, Some task, false)
  end.

Definition reset_duration (d : N) (t : PendingInputTimeout) : PendingInputTimeout := mkTimeout d d (timeout_state t).

Definition timeout_status (t : PendingInputTimeout) : PendingInputTimeoutStatus :=
  match timeout_state t with
  | Running s _ => mkStatus (duration t) (remaining t) (Some s) false
  | Paused _ => mkStatus (duration t) (remaining t) None true
  end.

Definition remaining_at (now : N) (st : PendingInputTimeoutStatus) : N :=
  match started_at st with Some s => status_remaining st - (now - s) | None => status_remaining st end.

Record PendingInput := mkPending {
  pending_keystrokes : list Keystroke;
  pending_focus : option N;
  timeout : option PendingInputTimeout;
}.

Definition pending_default : PendingInput := mkPending [] None None.

Record ModifierState := mkModifierState { pending_modifiers : Modifiers; saw_other_input : bool }.

Inductive KeyEvent :=
  | KeyDown (keystroke : Keystroke) (is_held prefer_character_input : bool)
  | KeyUp (keystroke : Keystroke)
  | ModifiersChanged (m : Modifiers).

Inductive KeyPhase := KeyCapture | KeyBubble.
Inductive InputPreference := KeyBindings | CharacterInput.

(** ** The window *)

Section Keys.
Context `{ActionTrait Action} (os : Os).
Context {Json Error Schema : Type}.
Context {KeyListener ModifiersChangedListener ActionListener GlobalListener InputHandler X : Type}.

Abbreviation Tree := (DispatchTree (Action := Action) (Json := Json) (Error := Error) (Schema := Schema)
  (KeyListener := KeyListener) (ModifiersChangedListener := ModifiersChangedListener) (ActionListener := ActionListener)).
Abbreviation Node := (DispatchNode (KeyListener := KeyListener) (ModifiersChangedListener := ModifiersChangedListener) (ActionListener := ActionListener)).

(** What is deferred to the end of the cycle of effects: telling the observers of pending
    input, or an action. *)
Inductive Deferred := DeferPendingChanged | DeferAction (focus_id : option N) (a : Action).

Record Window := mkWindow {
  rendered_tree : Tree;
  focus : option N;
  focus_enabled : bool;
  pending_input : option PendingInput;
  pending_modifier : ModifierState;
  propagate_event : bool;
  last_input_was_keyboard : bool;
  dirty : bool;
  input_handler : option InputHandler;
  global_action_listeners : gmap N (list GlobalListener);
  now : N;
  timers : gmap N N;
  next_task : N;
  deferred : list Deferred;
  client : X;
}.

Implicit Types (w : Window).

Definition set_rendered_tree v w : Window := mkWindow v (focus w) (focus_enabled w) (pending_input w) (pending_modifier w) (propagate_event w) (last_input_was_keyboard w) (dirty w) (input_handler w) (global_action_listeners w) (now w) (timers w) (next_task w) (deferred w) (client w).
Definition set_focus v w : Window := mkWindow (rendered_tree w) v (focus_enabled w) (pending_input w) (pending_modifier w) (propagate_event w) (last_input_was_keyboard w) (dirty w) (input_handler w) (global_action_listeners w) (now w) (timers w) (next_task w) (deferred w) (client w).
Definition set_focus_enabled v w : Window := mkWindow (rendered_tree w) (focus w) v (pending_input w) (pending_modifier w) (propagate_event w) (last_input_was_keyboard w) (dirty w) (input_handler w) (global_action_listeners w) (now w) (timers w) (next_task w) (deferred w) (client w).
Definition set_pending_input v w : Window := mkWindow (rendered_tree w) (focus w) (focus_enabled w) v (pending_modifier w) (propagate_event w) (last_input_was_keyboard w) (dirty w) (input_handler w) (global_action_listeners w) (now w) (timers w) (next_task w) (deferred w) (client w).
Definition set_pending_modifier v w : Window := mkWindow (rendered_tree w) (focus w) (focus_enabled w) (pending_input w) v (propagate_event w) (last_input_was_keyboard w) (dirty w) (input_handler w) (global_action_listeners w) (now w) (timers w) (next_task w) (deferred w) (client w).
Definition set_propagate_event v w : Window := mkWindow (rendered_tree w) (focus w) (focus_enabled w) (pending_input w) (pending_modifier w) v (last_input_was_keyboard w) (dirty w) (input_handler w) (global_action_listeners w) (now w) (timers w) (next_task w) (deferred w) (client w).
Definition set_last_input_was_keyboard v w : Window := mkWindow (rendered_tree w) (focus w) (focus_enabled w) (pending_input w) (pending_modifier w) (propagate_event w) v (dirty w) (input_handler w) (global_action_listeners w) (now w) (timers w) (next_task w) (deferred w) (client w).
Definition set_dirty v w : Window := mkWindow (rendered_tree w) (focus w) (focus_enabled w) (pending_input w) (pending_modifier w) (propagate_event w) (last_input_was_keyboard w) v (input_handler w) (global_action_listeners w) (now w) (timers w) (next_task w) (deferred w) (client w).
Definition set_input_handler v w : Window := mkWindow (rendered_tree w) (focus w) (focus_enabled w) (pending_input w) (pending_modifier w) (propagate_event w) (last_input_was_keyboard w) (dirty w) v (global_action_listeners w) (now w) (timers w) (next_task w) (deferred w) (client w).
Definition set_global_action_listeners v w : Window := mkWindow (rendered_tree w) (focus w) (focus_enabled w) (pending_input w) (pending_modifier w) (propagate_event w) (last_input_was_keyboard w) (dirty w) (input_handler w) v (now w) (timers w) (next_task w) (deferred w) (client w).
Definition set_now v w : Window := mkWindow (rendered_tree w) (focus w) (focus_enabled w) (pending_input w) (pending_modifier w) (propagate_event w) (last_input_was_keyboard w) (dirty w) (input_handler w) (global_action_listeners w) v (timers w) (next_task w) (deferred w) (client w).
Definition set_timers v w : Window := mkWindow (rendered_tree w) (focus w) (focus_enabled w) (pending_input w) (pending_modifier w) (propagate_event w) (last_input_was_keyboard w) (dirty w) (input_handler w) (global_action_listeners w) (now w) v (next_task w) (deferred w) (client w).
Definition set_next_task v w : Window := mkWindow (rendered_tree w) (focus w) (focus_enabled w) (pending_input w) (pending_modifier w) (propagate_event w) (last_input_was_keyboard w) (dirty w) (input_handler w) (global_action_listeners w) (now w) (timers w) v (deferred w) (client w).
Definition set_deferred v w : Window := mkWindow (rendered_tree w) (focus w) (focus_enabled w) (pending_input w) (pending_modifier w) (propagate_event w) (last_input_was_keyboard w) (dirty w) (input_handler w) (global_action_listeners w) (now w) (timers w) (next_task w) v (client w).
Definition set_client v w : Window := mkWindow (rendered_tree w) (focus w) (focus_enabled w) (pending_input w) (pending_modifier w) (propagate_event w) (last_input_was_keyboard w) (dirty w) (input_handler w) (global_action_listeners w) (now w) (timers w) (next_task w) (deferred w) v.

(** ** Pending input *)

Definition refresh w : Window := set_dirty true w.
Definition defer (d : Deferred) w : Window := set_deferred (deferred w ++ [d]) w.

Definition drop_task (task : option N) w : Window :=
  match task with Some task => set_timers (delete task (timers w)) w | None => w end.

Definition timeout_task (t : PendingInputTimeout) : option N :=
  match timeout_state t with Running _ task => Some task | Paused _ => None end.

(** A timeout goes out of scope. *)
Definition drop_timeout (t : option PendingInputTimeout) w : Window := drop_task (t ≫= timeout_task) w.

(** [pending_input.take()], the input dropped. *)
Definition drop_pending w : Window := drop_timeout (pending_input w ≫= timeout) (set_pending_input None w).

Definition clear_pending_keystrokes w : Window :=
  match pending_input w with
  | Some _ => defer DeferPendingChanged (drop_pending w)
  | None => w
  end.

(** [start_pending_input_timeout]: the task it spawns is [fire] below. *)
Definition start_pending_input_timeout (left : N) w : Window * (N * N) :=
  let task := next_task w in
  (set_next_task (task + 1)%N (set_timers (<[task := (now w + left)%N]> (timers w)) w), (now w, task)).

Definition new_pending_input_timeout (d : N) w : Window * PendingInputTimeout :=
  let (w, started) := start_pending_input_timeout d w in
  (w, mkTimeout d d (Running started.1 started.2)).

(** The pending input that can still complete a binding. *)
Definition live_pending w : option PendingInput :=
  match pending_input w with
  | Some p => if bool_decide (pending_focus p = focus w) then Some p else None
  | None => None
  end.

(** [pending_input()]: the keystrokes and the status of the timeout. *)
Definition pending_status w : option (list Keystroke * option PendingInputTimeoutStatus) :=
  (fun p => (pending_keystrokes p, timeout_status <$> timeout p)) <$> live_pending w.

Definition has_pending_keystrokes w : bool := bool_decide (is_Some (pending_status w)).

Definition set_pending_timeout (t : PendingInputTimeout) (p : PendingInput) w : Window :=
  set_pending_input (Some (mkPending (pending_keystrokes p) (pending_focus p) (Some t))) w.

(** The subscription to the release of the owner is that of the pause. *)
Definition resume_pending_input_timeout (owner : N) w : Window * bool :=
  match live_pending w with
  | Some p =>
      match timeout p with
      | Some t =>
          if bool_decide (pause_owner_id t = Some owner) then
            let (w, started) := start_pending_input_timeout (remaining t) w in
            let '(t, dropped, changed) := timeout_resume owner started.1 started.2 t in
            let w := drop_task dropped (set_pending_timeout t p w) in
            (if changed : bool then defer DeferPendingChanged w else w, changed)
          else (w, false)
      | None => (w, false)
      end
  | None => (w, false)
  end.

Definition set_pending_input_timeout_paused (owner : N) (pause : bool) w : Window * bool :=
  if pause then
    match live_pending w with
    | Some p =>
        match timeout p with
        | Some t =>
            if is_paused t then (w, false)
            else
              let '(t, dropped, changed) := timeout_pause owner (now w) t in
              let w := drop_task dropped (set_pending_timeout t p w) in
              (if changed : bool then defer DeferPendingChanged w else w, changed)
        | None => (w, false)
        end
    | None => (w, false)
    end
  else resume_pending_input_timeout owner w.

(** ** Focus *)

Definition focus_handle (id : N) w : Window :=
  if negb (focus_enabled w) || bool_decide (focus w = Some id) then w
  else refresh (drop_pending (set_focus (Some id) w)).

Definition blur w : Window :=
  let w := clear_pending_keystrokes w in
  if focus_enabled w then refresh (set_focus None w) else w.

Definition disable_focus w : Window := set_focus_enabled false (blur w).

(** [dispatch_action] of the window, deferred. *)
Definition dispatch_action (a : Action) w : Window := defer (DeferAction (focus w) a) w.

(** ** The client *)

(** What callbacks do to a window; time may pass in them. *)
Inductive Op :=
  | OpPropagate (b : bool)
  | OpRefresh
  | OpFocus (id : N)
  | OpBlur
  | OpDisableFocus
  | OpClearPending
  | OpPause (owner : N)
  | OpResume (owner : N)
  | OpOnAction (ty : N) (l : GlobalListener)
  | OpDispatchAction (a : Action)
  | OpWait (d : N)
  | OpSet (x : X).

Definition run_op w (o : Op) : Window :=
  match o with
  | OpPropagate b => set_propagate_event b w
  | OpRefresh => refresh w
  | OpFocus id => focus_handle id w
  | OpBlur => blur w
  | OpDisableFocus => disable_focus w
  | OpClearPending => clear_pending_keystrokes w
  | OpPause owner => (set_pending_input_timeout_paused owner true w).1
  | OpResume owner => (set_pending_input_timeout_paused owner false w).1
  | OpOnAction ty l => set_global_action_listeners (<[ty := default [] (global_action_listeners w !! ty) ++ [l]]> (global_action_listeners w)) w
  | OpDispatchAction a => dispatch_action a w
  | OpWait d => set_now (now w + d)%N w
  | OpSet x => set_client x w
  end.

Definition run_ops (ops : list Op) w : Window := foldl run_op w ops.

(** The code of the client: its listeners, the observers of keystrokes and of pending
    input, the input handler, and drawing. *)
Class Client := {
  key_code : KeyListener -> KeyEvent -> KeyPhase -> Window -> list Op;
  modifiers_code : ModifiersChangedListener -> Modifiers -> Window -> list Op;
  action_code : ActionListener -> Action -> KeyPhase -> Window -> list Op;
  global_code : GlobalListener -> Action -> KeyPhase -> Window -> list Op;
  interceptors_code : Keystroke -> InputPreference -> list KeyContext -> Window -> list Op;
  observers_code : Keystroke -> InputPreference -> option Action -> list KeyContext -> Window -> list Op;
  pending_observers_code : Window -> list Op;
  accepts_text_input : InputHandler -> Window -> list Op * bool;
  dispatch_input : InputHandler -> str -> Window -> list Op;
  draw_tree : Window -> Tree;
}.
Context `{!Client}.

Definition pending_input_changed w : Window := run_ops (pending_observers_code w) w.

Definition dispatch_keystroke_interceptors (k : Keystroke) (pref : InputPreference) (contexts : list KeyContext) w : Window :=
  run_ops (interceptors_code k pref contexts w) w.
Definition dispatch_keystroke_observers (k : Keystroke) (pref : InputPreference) (a : option Action) (contexts : list KeyContext) w : Window :=
  run_ops (observers_code k pref a contexts w) w.

(** ** Along the path of the focus *)

Definition focus_node_id_in_rendered_frame w (focus_id : option N) : nat :=
  match focus_id ≫= focusable_node_id (rendered_tree w) with
  | Some id => id
  | None => root_node_id (rendered_tree w)
  end.

(** The path of the focused node. *)
Definition focused_path w : outcome (list nat) := dispatch_path (rendered_tree w) (focus_node_id_in_rendered_frame w (focus w)).

Definition window_context_stack w : outcome (list KeyContext) :=
  let! path := focused_path w in contexts_along (rendered_tree w) path.

(** Calls that one after another may stop, by not propagating the event; and whether one
    did. *)
Fixpoint call_until {L} (call : L -> Window -> Window) (ls : list L) w : Window * bool :=
  match ls with
  | [] => (w, false)
  | l :: ls =>
      let w := call l w in
      if propagate_event w then call_until call ls w else (w, true)
  end.

Fixpoint along_path (f : Node -> Window -> Window * bool) (path : list nat) w : outcome (Window * bool) :=
  match path with
  | [] => Ok (w, false)
  | id :: path =>
      let! nd := node (rendered_tree w) id in
      match f nd w with
      | (w, true) => Ok (w, true)
      | (w, false) => along_path f path w
      end
  end.

Definition call_key_listeners (e : KeyEvent) (phase : KeyPhase) (nd : Node) w : Window * bool :=
  call_until (fun l w => run_ops (key_code l e phase w) w) (key_listeners nd) w.

Definition dispatch_key_down_up_event (e : KeyEvent) (path : list nat) w : outcome Window :=
  let! (w, stopped) := along_path (call_key_listeners e KeyCapture) path w in
  if stopped : bool then Ok w
  else let! (w, _) := along_path (call_key_listeners e KeyBubble) (rev path) w in Ok w.

Definition dispatch_modifiers_changed_event (e : KeyEvent) (path : list nat) w : outcome Window :=
  match e with
  | ModifiersChanged m =>
      let! (w, _) := along_path (fun nd => call_until (fun l w => run_ops (modifiers_code l m w) w) (modifiers_changed_listeners nd)) (rev path) w in
      Ok w
  | _ => Ok w
  end.

(** *** Actions *)

(** The listeners of a node that are for actions of the type. *)
Definition call_action_listeners (a : Action) (phase : KeyPhase) (nd : Node) w : Window * bool :=
  call_until (fun l w =>
    let w := match phase with KeyBubble => set_propagate_event false w | KeyCapture => w end in
    run_ops (action_code (listener l) a phase w) w)
    (List.filter (fun l => (action_type l =? type_id a)%N) (action_listeners nd)) w.

(** The listeners are out of the map while they are called; those added then come last. *)
Definition call_global_listeners (a : Action) (phase : KeyPhase) w : Window :=
  match global_action_listeners w !! type_id a with
  | None => w
  | Some ls =>
      let w := set_global_action_listeners (delete (type_id a) (global_action_listeners w)) w in
      let (w, _) :=
        call_until (fun l w =>
          let w := match phase with KeyBubble => set_propagate_event false w | KeyCapture => w end in
          run_ops (global_code l a phase w) w)
          (match phase with KeyCapture => ls | KeyBubble => rev ls end) w in
      set_global_action_listeners (<[type_id a := ls ++ default [] (global_action_listeners w !! type_id a)]> (global_action_listeners w)) w
  end.

Definition dispatch_action_on_node (node_id : nat) (a : Action) w : outcome Window :=
  let! path := dispatch_path (rendered_tree w) node_id in
  let w := call_global_listeners a KeyCapture (set_propagate_event true w) in
  if propagate_event w then
    let! (w, stopped) := along_path (call_action_listeners a KeyCapture) path w in
    if stopped : bool then Ok w
    else
      let! (w, stopped) := along_path (call_action_listeners a KeyBubble) (rev path) w in
      if stopped : bool then Ok w else Ok (call_global_listeners a KeyBubble w)
  else Ok w.

(** The bindings of a keystroke until one is handled: whether one was. *)
Fixpoint dispatch_bindings (node_id : nat) (k : Keystroke) (contexts : list KeyContext) (bs : list (KeyBinding Action)) w : outcome (Window * bool) :=
  match bs with
  | [] => Ok (w, false)
  | b :: bs =>
      let! w := dispatch_action_on_node node_id (action b) w in
      if propagate_event w then dispatch_bindings node_id k contexts bs w
      else Ok (dispatch_keystroke_observers k KeyBindings (Some (action b)) contexts w, true)
  end.

(** ** Replaying *)

(** One keystroke: its bindings, or else the listeners for keys and the input handler. *)
Definition replay_one (node_id : nat) (path : list nat) w (r : Replay (Action := Action)) : outcome Window :=
  let k := replay_keystroke r in
  let! (w, handled) := dispatch_bindings node_id k [] (replay_bindings r) (set_propagate_event true w) in
  if handled : bool then Ok w
  else
    let! w := dispatch_key_down_up_event (KeyDown k false true) path w in
    if propagate_event w then
      match key_char k, input_handler w with
      | Some input, Some h =>
          let w := set_input_handler None w in
          Ok (set_input_handler (Some h) (run_ops (dispatch_input h input w) w))
      | _, _ => Ok w
      end
    else Ok w.

Definition replay_pending_input (replays : list (Replay (Action := Action))) w : outcome Window :=
  let node_id := focus_node_id_in_rendered_frame w (focus w) in
  let! path := dispatch_path (rendered_tree w) node_id in
  ofold (replay_one node_id path) replays w.

(** What the task of a timeout does when its time is over. *)
Definition fire (task : N) w : outcome Window :=
  let w := set_timers (delete task (timers w)) w in
  match pending_input w with
  | Some p =>
      let w := set_pending_input None w in
      if bool_decide (pending_focus p = focus w) then
        let! path := focused_path w in
        let! to_replay := flush_dispatch os (rendered_tree w) (pending_keystrokes p) path in
        let! w := replay_pending_input to_replay (pending_input_changed w) in
        Ok (drop_timeout (timeout p) w)
      else Ok (drop_timeout (timeout p) w)
  | None => Ok w
  end.

(** ** Key events *)

(** A modifier that is pressed and released alone is a keystroke. *)
Definition modifier_key (m : Modifiers) : option str :=
  if shift m then Some (lit "shift")
  else if control m then Some (lit "control")
  else if alt m then Some (lit "alt")
  else if platform m then Some (lit "platform")
  else if function m then Some (lit "function")
  else None.

Definition modifiers_keystroke (m : Modifiers) (s : ModifierState) : option Keystroke :=
  if ((number_of_modifiers m =? 0) && (number_of_modifiers (pending_modifiers s) =? 1))%N && negb (saw_other_input s) then
    (fun key => mkKeystroke modifiers_none key None) <$> modifier_key (pending_modifiers s)
  else None.

Definition next_modifier_state (m : Modifiers) (s : ModifierState) : ModifierState :=
  mkModifierState m
    (if ((number_of_modifiers (pending_modifiers s) =? 0) && (number_of_modifiers m =? 1))%N then false
     else if (1 <? number_of_modifiers m)%N then true
     else saw_other_input s).

(** The keystroke of an event, and the modifiers that are pending after it. *)
Definition event_keystroke (e : KeyEvent) w : Window * option Keystroke :=
  match e with
  | ModifiersChanged m =>
      (set_pending_modifier (next_modifier_state m (pending_modifier w)) w, modifiers_keystroke m (pending_modifier w))
  | KeyDown k _ _ => (set_pending_modifier (mkModifierState (pending_modifiers (pending_modifier w)) true) w, Some k)
  | KeyUp _ => (w, None)
  end.

Definition input_preference (e : KeyEvent) w : Window * InputPreference :=
  match e, input_handler w with
  | KeyDown _ _ true, Some h =>
      let w := set_input_handler None w in
      let (ops, accepts) := accepts_text_input h w in
      (set_input_handler (Some h) (run_ops ops w), if accepts : bool then CharacterInput else KeyBindings)
  | _, _ => (w, KeyBindings)
  end.

Definition finish_dispatch_key_event (e : KeyEvent) (k : option Keystroke) (pref : InputPreference) (path : list nat) (contexts : list KeyContext) w :
    outcome Window :=
  let! w := dispatch_key_down_up_event e path w in
  if propagate_event w then
    let! w := dispatch_modifiers_changed_event e path w in
    if propagate_event w then
      Ok (match k with Some k => dispatch_keystroke_observers k pref None contexts w | None => w end)
    else Ok w
  else Ok w.

(** The pending input to which a keystroke is added. *)
Definition take_pending w : Window * PendingInput :=
  let p := default pending_default (pending_input w) in
  let w := set_pending_input None w in
  if bool_decide (is_Some (pending_focus p)) && negb (bool_decide (pending_focus p = focus w)) then
    (drop_timeout (timeout p) w, pending_default)
  else (w, p).

(** Keystrokes are kept: a timeout that is paused stays so, any other starts anew. *)
Definition keep_pending (keystrokes : list Keystroke) (previous_timeout : option PendingInputTimeout) w : Window :=
  let (w, t) :=
    match previous_timeout with
    | Some t =>
        if is_paused t then (w, reset_duration pending_input_timeout t)
        else new_pending_input_timeout pending_input_timeout (drop_timeout previous_timeout w)
    | None => new_pending_input_timeout pending_input_timeout w
    end in
  set_propagate_event false (pending_input_changed (set_pending_input (Some (mkPending keystrokes (focus w) (Some t))) w)).

(** The bindings that a keystroke completed, unless text is to be entered; or else the
    listeners. *)
Definition dispatch_resolved (e : KeyEvent) (node_id : nat) (path : list nat) (k : Keystroke) (r : DispatchResult (Action := Action)) w : outcome Window :=
  let (w, pref) := input_preference e w in
  let! (w, handled) :=
    match pref with
    | KeyBindings => dispatch_bindings node_id k (result_context_stack r) (result_bindings r) w
    | CharacterInput => Ok (w, false)
    end in
  let! w :=
    if handled : bool then Ok w
    else finish_dispatch_key_event e (Some k) pref path (result_context_stack r) w in
  Ok (pending_input_changed w).

Definition dispatch_keystroke_event (e : KeyEvent) (node_id : nat) (path : list nat) (k : Keystroke) w : outcome Window :=
  let (w, currently_pending) := take_pending w in
  let! r := dispatch_key os (rendered_tree w) (pending_keystrokes currently_pending) k path in
  let! w :=
    match to_replay r with
    | [] => Ok w
    | replays => let! w := replay_pending_input replays w in Ok (set_propagate_event true w)
    end in
  match result_pending r with
  | [] => let! w := dispatch_resolved e node_id path k r w in Ok (drop_timeout (timeout currently_pending) w)
  | keystrokes => Ok (keep_pending keystrokes (timeout currently_pending) w)
  end.

Definition dispatch_key_event (e : KeyEvent) w : outcome Window :=
  let w := set_last_input_was_keyboard true w in
  let w := if dirty w then set_dirty false (set_rendered_tree (draw_tree w) w) else w in
  let node_id := focus_node_id_in_rendered_frame w (focus w) in
  let! path := dispatch_path (rendered_tree w) node_id in
  let (w, k) := event_keystroke e w in
  match k with
  | None =>
      let! contexts := window_context_stack w in
      finish_dispatch_key_event e None KeyBindings path contexts w
  | Some k =>
      let (w, pref) := input_preference e w in
      let! contexts := window_context_stack w in
      let w := dispatch_keystroke_interceptors k pref contexts (set_propagate_event true w) in
      if propagate_event w then dispatch_keystroke_event e node_id path k w
      else
        let! contexts := window_context_stack w in
        finish_dispatch_key_event e (Some k) pref path contexts w
  end.

(** [dispatch_event], for keys. *)
Definition dispatch_event (e : KeyEvent) w : outcome Window := dispatch_key_event e (set_propagate_event true w).

(** What was deferred first is run. *)
Definition run_deferred w : outcome Window :=
  match deferred w with
  | [] => Ok w
  | d :: ds =>
      let w := set_deferred ds w in
      match d with
      | DeferPendingChanged => Ok (pending_input_changed w)
      | DeferAction focus_id a => dispatch_action_on_node (focus_node_id_in_rendered_frame w focus_id) a w
      end
  end.
End Keys.
