(* ===== verification/WindowTimers.v ===== *)
(** * WindowTimers: the pending input of a window is timed

    Between events, a window has a task alive exactly when it has pending input whose timeout
    runs, and it is the task of that timeout: keystrokes are never left pending for longer
    than the timeout, and no task of an older timeout ever takes them. *)

From Stdlib Require Import NArith String.
From stdpp Require Import base list option numbers gmap relations.
From S2P Require Import Prelude Text Actions KeyContext Keystroke Keymap DispatchTree DispatchInvariant DispatchReuse DispatchKeys WindowKeys.

#[local] Set Warnings "-register-all,-clear-no-such-hyp".

Section Timers.
Context `{ActionTrait Action} (os : Os).
Context {Json Error Schema : Type}.
Context {KeyListener ModifiersChangedListener ActionListener GlobalListener InputHandler X : Type}.

Abbreviation Tree := (DispatchTree (Action := Action) (Json := Json) (Error := Error) (Schema := Schema)
  (KeyListener := KeyListener) (ModifiersChangedListener := ModifiersChangedListener) (ActionListener := ActionListener)).
Abbreviation Win := (Window (Action := Action) (Json := Json) (Error := Error) (Schema := Schema) (KeyListener := KeyListener)
  (ModifiersChangedListener := ModifiersChangedListener) (ActionListener := ActionListener) (GlobalListener := GlobalListener)
  (InputHandler := InputHandler) (X := X)).
Context `{!Client (Action := Action) (Json := Json) (Error := Error) (Schema := Schema) (KeyListener := KeyListener)
  (ModifiersChangedListener := ModifiersChangedListener) (ActionListener := ActionListener) (GlobalListener := GlobalListener)
  (InputHandler := InputHandler) (X := X)}.

Implicit Types (w : Win).

(** A tree that was drawn has a root. *)
Definition tree_ok (t : Tree) : Prop := tree_wf t /\ nodes t <> [].

(** ** The invariant *)

(** The tasks of a timeout, with the times they wait for. *)
Definition tasks_of (o : option PendingInputTimeout) : gmap N N :=
  match o with
  | Some t => match timeout_state t with Running s task => {[task := (s + remaining t)%N]} | Paused _ => ∅ end
  | None => ∅
  end.

(** A timeout that the window, or a handler that is at work, holds. *)
Definition timeout_ok w (t : PendingInputTimeout) : Prop :=
  (remaining t <= pending_input_timeout)%N /\
  match timeout_state t with Running s task => (s <= now w)%N /\ (task < next_task w)%N | Paused _ => True end.

Definition pending_ok w (p : PendingInput) : Prop :=
  pending_keystrokes p <> [] /\ exists t, timeout p = Some t /\ timeout_ok w t.

(** The handler of a key event holds the timeout of the input it took. *)
Record held (h : option PendingInputTimeout) w : Prop := mkHeld {
  held_pending : h <> None -> pending_input w = None;
  held_timers : timers w = tasks_of (match h with Some _ => h | None => pending_input w ≫= timeout end);
  held_ok : forall t, h = Some t -> timeout_ok w t;
  held_input : forall p, pending_input w = Some p -> pending_ok w p;
}.

Definition timed w : Prop := held None w.

(** What the code of the client keeps: the tree, and the invariant; and it makes no pending
    input. *)
Record calm w w' : Prop := mkCalm {
  calm_tree : rendered_tree w' = rendered_tree w;
  calm_none : pending_input w = None -> pending_input w' = None;
  calm_held : forall h, held h w -> held h w';
}.

#[export] Instance calm_refl : Reflexive calm.
Proof. by split. Qed.

#[export] Instance calm_trans : Transitive calm.
Proof. intros w1 w2 w3 [T1 N1 H1] [T2 N2 H2]. split; [congruence|auto|auto]. Qed.

(** Whatever has nothing to do with pending input. *)
Lemma calm_other w w' :
  rendered_tree w' = rendered_tree w -> pending_input w' = pending_input w -> timers w' = timers w ->
  (now w <= now w')%N -> next_task w' = next_task w -> calm w w'.
Proof.
  intros Et Ep Em Hn Ek.
  assert (Ht : forall t, timeout_ok w t -> timeout_ok w' t).
  { intros t [Hr Hs]. split; [done|]. destruct (timeout_state t); [|done]. rewrite Ek. split; [lia|apply Hs]. }
  split; [done|by rewrite Ep|]. intros h [Hp Hm Ho Hi]. split; rewrite ?Ep, ?Em; auto.
  intros p Ep'. destruct (Hi p Ep') as [Hk (t & E & Hok)]. split; [done|]. exists t. auto.
Qed.

Ltac calm_same := apply calm_other; [done|done|done|first [apply N.le_refl|cbn; lia]|done].

(** ** Operations on the pending input *)

(** Dropping a timeout leaves no task of it. *)
Lemma drop_timeout_timers o w : timers w = tasks_of o -> timers (drop_timeout o w) = ∅.
Proof.
  intros E. unfold drop_timeout, drop_task. destruct o as [t|]; cbn; [|done]. unfold timeout_task, tasks_of in *.
  destruct (timeout_state t) as [s task|owner]; cbn; [|done]. rewrite E. apply delete_singleton_eq.
Qed.

(** A drop of a task that changes nothing else. *)
Lemma drop_timeout_same o w :
  rendered_tree (drop_timeout o w) = rendered_tree w /\ pending_input (drop_timeout o w) = pending_input w /\
  now (drop_timeout o w) = now w /\ next_task (drop_timeout o w) = next_task w.
Proof. unfold drop_timeout, drop_task. by destruct (o ≫= timeout_task). Qed.

(** The window is left with no pending input and no task. *)
Lemma idle_timed w : pending_input w = None -> timers w = ∅ -> timed w.
Proof. intros Ep Et. split; [done|by rewrite Ep|done|by rewrite Ep]. Qed.

Lemma dropped_timed h w : held h w -> pending_input w = None -> timed (drop_timeout h w).
Proof.
  intros [_ Ht _ _] Ep. destruct (drop_timeout_same h w) as (_ & Ep' & _). apply idle_timed; [congruence|].
  apply drop_timeout_timers. rewrite Ht, Ep. by destruct h.
Qed.

Lemma drop_pending_calm w : calm w (drop_pending w).
Proof.
  destruct (pending_input w) as [p|] eqn:Ep.
  - unfold drop_pending. rewrite Ep. set (w1 := set_pending_input None w). destruct (drop_timeout_same (timeout p) w1) as (Et & En & _).
    split; [done|done|]. intros h Hh. destruct h as [t|]; [by rewrite (held_pending _ _ Hh) in Ep|]. apply dropped_timed; [|done].
    assert (Hp := held_input _ _ Hh p Ep). split; [done| | |done].
    + cbn. rewrite (held_timers _ _ Hh), Ep. cbn. by destruct (timeout p).
    + intros t E. cbn in E. destruct Hp as (_ & t' & E' & Hok). assert (t' = t) as -> by congruence. exact Hok.
  - unfold drop_pending. rewrite Ep. change (calm w (set_pending_input None w)). by calm_same.
Qed.

(** The timeout of the pending input is another one. *)
Lemma set_timeout_timed p t w w' :
  timed w -> pending_input w = Some p -> timeout_ok w' t -> timers w' = tasks_of (Some t) ->
  pending_input w' = Some (mkPending (pending_keystrokes p) (pending_focus p) (Some t)) -> timed w'.
Proof.
  intros Hw Ep Ht Hm Ep'. destruct (held_input _ _ Hw p Ep) as [Hk _]. split; [done|by rewrite Ep'|done|].
  intros p' E. rewrite Ep' in E. injection E as <-. split; [done|]. by exists t.
Qed.

Lemma live_pending_some w p : live_pending w = Some p -> pending_input w = Some p.
Proof. unfold live_pending. destruct (pending_input w) as [p'|]; [|done]. by case_bool_decide. Qed.

(** An operation that only runs on pending input. *)
Lemma pending_calm w w' p :
  pending_input w = Some p -> rendered_tree w' = rendered_tree w -> (timed w -> timed w') -> calm w w'.
Proof.
  intros Ep Et Hw. split; [done|by rewrite Ep|]. intros [t|] Hh; [by rewrite (held_pending _ _ Hh) in Ep|]. by apply Hw.
Qed.

Lemma pause_calm owner w : calm w (set_pending_input_timeout_paused owner true w).1.
Proof.
  unfold set_pending_input_timeout_paused. destruct (live_pending w) as [p|] eqn:Ep; [|done]. apply live_pending_some in Ep.
  destruct (timeout p) as [t|] eqn:Et; [|done]. destruct (is_paused t) eqn:Epa; [done|].
  unfold timeout_pause. destruct (timeout_state t) as [s task|] eqn:Es; [|by unfold is_paused in Epa; rewrite Es in Epa]. cbn.
  eapply pending_calm; [done..|]. intros Hw. destruct (held_input _ _ Hw p Ep) as (_ & t' & Et' & Hr & Hs). assert (t' = t) as -> by congruence.
  eapply (set_timeout_timed p); [done|done| | |reflexivity].
  - split; [cbn; lia|done].
  - cbn. rewrite (held_timers _ _ Hw), Ep. cbn. rewrite Et. cbn. rewrite Es. apply delete_singleton_eq.
Qed.

Lemma resume_calm owner w : calm w (resume_pending_input_timeout owner w).1.
Proof.
  unfold resume_pending_input_timeout. destruct (live_pending w) as [p|] eqn:Ep; [|done]. apply live_pending_some in Ep.
  destruct (timeout p) as [t|] eqn:Et; [|done]. case_bool_decide as Eo; [|done].
  unfold pause_owner_id in Eo. destruct (timeout_state t) as [|owner'] eqn:Es; [done|]. injection Eo as ->.
  unfold timeout_resume. cbn. rewrite Es, N.eqb_refl. cbn.
  eapply pending_calm; [done..|]. intros Hw. destruct (held_input _ _ Hw p Ep) as (_ & t' & Et' & Hr & _). assert (t' = t) as -> by congruence.
  eapply (set_timeout_timed p); [done|done| | |reflexivity].
  - split; [done|]. cbn. lia.
  - cbn. rewrite (held_timers _ _ Hw), Ep. cbn. rewrite Et. cbn. rewrite Es. apply insert_empty.
Qed.

Lemma clear_calm w : calm w (clear_pending_keystrokes w).
Proof.
  unfold clear_pending_keystrokes. destruct (pending_input w); [|done]. transitivity (drop_pending w); [apply drop_pending_calm|by calm_same].
Qed.

Lemma blur_calm w : calm w (blur w).
Proof.
  unfold blur. transitivity (clear_pending_keystrokes w); [apply clear_calm|]. destruct (focus_enabled _); [|done]. by calm_same.
Qed.

Lemma run_op_calm w o : calm w (run_op w o).
Proof.
  destruct o; cbn [run_op]; try by calm_same.
  - unfold focus_handle. destruct (_ || _); [done|]. transitivity (set_focus (Some id) w); [by calm_same|].
    transitivity (drop_pending (set_focus (Some id) w)); [apply drop_pending_calm|by calm_same].
  - apply blur_calm.
  - transitivity (blur w); [apply blur_calm|by calm_same].
  - apply clear_calm.
  - apply pause_calm.
  - apply resume_calm.
Qed.

Lemma run_ops_calm ops w : calm w (run_ops ops w).
Proof. revert w. induction ops as [|o ops IH]; intros w; [done|]. cbn. etransitivity; [apply run_op_calm|apply IH]. Qed.

(** ** The calls of the client *)

Lemma call_until_calm {L} (call : L -> Win -> Win) (ls : list L) w :
  (forall l w, calm w (call l w)) -> calm w (call_until call ls w).1.
Proof.
  intros Hc. revert w. induction ls as [|l ls IH]; intros w; [done|]. cbn. destruct (propagate_event (call l w)); [|by apply Hc].
  etransitivity; [apply Hc|apply IH].
Qed.

(** The code of a computation that returns, and is calm. *)
Definition returns {R} (m : outcome (Win * R)) w : Prop := exists w' r, m = Ok (w', r) /\ calm w w'.
Definition returns_window (m : outcome Win) w : Prop := exists w', m = Ok w' /\ calm w w'.

Definition in_tree w (path : list nat) : Prop := Forall (fun id => id < length (nodes (rendered_tree w))) path.

Lemma in_tree_calm w w' path : calm w w' -> in_tree w path -> in_tree w' path.
Proof. intros [E _ _] Hp. unfold in_tree. by rewrite E. Qed.

Lemma along_path_ok f path w :
  (forall nd w, calm w (f nd w).1) -> in_tree w path -> returns (along_path f path w) w.
Proof.
  intros Hf. revert w. induction path as [|id path IH]; intros w Hp; [by exists w, false|].
  apply Forall_cons in Hp as [Hid Hp]. apply lookup_lt_is_Some_2 in Hid as [nd Hnd].
  cbn [along_path]. unfold node, index. rewrite Hnd. cbn [unwrap obind]. pose proof (Hf nd w) as Hc. destruct (f nd w) as [w1 []] eqn:E; [by exists w1, true|].
  destruct (IH w1) as (w' & r & Er & Hr); [by apply (in_tree_calm w)|]. exists w', r. split; [done|]. by transitivity w1.
Qed.

Lemma tree_ok_calm w w' : calm w w' -> tree_ok (rendered_tree w) -> tree_ok (rendered_tree w').
Proof. intros [E _ _] Ht. by rewrite E. Qed.

Lemma root_in_range w : tree_ok (rendered_tree w) -> 0 < length (nodes (rendered_tree w)).
Proof. intros [_ Hn]. destruct (nodes _); [done|]. cbn. lia. Qed.

Lemma focus_node_in_range w f : tree_ok (rendered_tree w) -> focus_node_id_in_rendered_frame w f < length (nodes (rendered_tree w)).
Proof.
  intros Ht. unfold focus_node_id_in_rendered_frame, root_node_id. destruct f as [f|]; cbn; [|by apply root_in_range].
  unfold focusable_node_id. destruct (focusable_node_ids _ !! f) as [id|] eqn:E; [|by apply root_in_range].
  apply (wf_focus _ (proj1 Ht)) in E. unfold field in E. destruct (nodes _ !! id) eqn:En; [|done]. by eapply lookup_lt_Some.
Qed.

Lemma path_ok w id :
  tree_ok (rendered_tree w) -> id < length (nodes (rendered_tree w)) ->
  exists path, dispatch_path (rendered_tree w) id = Ok path /\ in_tree w path.
Proof.
  intros [Hwf _] Hid. destruct (path_exists _ _ (wf_parents _ Hwf) Hid) as [path Hp]. exists path. split; [by apply dispatch_path_ok|].
  by eapply path_in_range.
Qed.

Lemma in_tree_rev w path : in_tree w path -> in_tree w (rev path).
Proof. unfold in_tree. rewrite !Forall_forall. intros Hp id Hid. apply Hp. by apply list_elem_of_In, in_rev, list_elem_of_In. Qed.

Lemma contexts_ok w path : in_tree w path -> exists contexts, contexts_along (rendered_tree w) path = Ok contexts.
Proof.
  induction path as [|id path IH]; intros Hp; [by exists []|]. apply Forall_cons in Hp as [Hid Hp]. apply lookup_lt_is_Some_2 in Hid as [nd Hnd].
  cbn. unfold node, index. rewrite Hnd. cbn. destruct (IH Hp) as [l ->]. by eexists.
Qed.

(** Two calls along the path, the second if the first did not stop. *)
Lemma key_listeners_ok e path w : in_tree w path -> returns_window (dispatch_key_down_up_event e path w) w.
Proof.
  intros Hp. assert (Hf : forall phase nd w, calm w (call_key_listeners e phase nd w).1).
  { intros phase nd w1. apply call_until_calm. intros l w2. apply run_ops_calm. }
  unfold dispatch_key_down_up_event. destruct (along_path_ok _ path w (Hf KeyCapture) Hp) as (w1 & b & -> & H1). cbn [obind]. destruct b; [by exists w1|].
  destruct (along_path_ok _ (rev path) w1 (Hf KeyBubble)) as (w2 & b & -> & H2); [by apply (in_tree_calm w), in_tree_rev|].
  exists w2. split; [done|]. by transitivity w1.
Qed.

Lemma modifiers_listeners_ok e path w : in_tree w path -> returns_window (dispatch_modifiers_changed_event e path w) w.
Proof.
  intros Hp. destruct e as [| |m]; [by exists w..|]. cbn [dispatch_modifiers_changed_event].
  set (f := fun nd => call_until _ _). destruct (along_path_ok f (rev path) w) as (w1 & b & -> & H1); [|by apply in_tree_rev|by exists w1].
  intros nd w1. apply call_until_calm. intros l w2. apply run_ops_calm.
Qed.

Lemma global_listeners_calm a phase w : calm w (call_global_listeners a phase w).
Proof.
  unfold call_global_listeners. destruct (_ !! type_id a) as [ls|]; [|done]. set (w1 := set_global_action_listeners (delete _ _) w).
  assert (H1 : calm w w1) by calm_same. match goal with |- context [call_until ?c ?l w1] => set (call := c); set (l' := l) end.
  assert (H2 : calm w1 (call_until call l' w1).1).
  { apply call_until_calm. intros l w2. subst call. cbn beta. transitivity (match phase with KeyBubble => set_propagate_event false w2 | KeyCapture => w2 end); [destruct phase; [done|calm_same]|]. apply run_ops_calm. }
  destruct (call_until call l' w1) as [w2 b]. cbn in H2. transitivity w1; [done|]. transitivity w2; [done|]. by calm_same.
Qed.

Lemma action_on_node_ok id a w :
  tree_ok (rendered_tree w) -> id < length (nodes (rendered_tree w)) -> returns_window (dispatch_action_on_node id a w) w.
Proof.
  intros Ht Hid. destruct (path_ok w id Ht Hid) as (path & E & Hp). unfold dispatch_action_on_node. rewrite E. cbn [obind].
  set (w1 := call_global_listeners a KeyCapture _). assert (H1 : calm w w1) by (etransitivity; [|apply global_listeners_calm]; calm_same).
  destruct (propagate_event w1); [|by exists w1].
  assert (Hf : forall phase nd w, calm w (call_action_listeners a phase nd w).1).
  { intros phase nd w2. apply call_until_calm. intros l w3. cbn beta. transitivity (match phase with KeyBubble => set_propagate_event false w3 | KeyCapture => w3 end); [destruct phase; [done|calm_same]|]. apply run_ops_calm. }
  destruct (along_path_ok _ path w1 (Hf KeyCapture)) as (w2 & b & -> & H2); [by apply (in_tree_calm w)|]. cbn [obind].
  assert (H12 : calm w w2) by by transitivity w1. destruct b; [by exists w2|].
  destruct (along_path_ok _ (rev path) w2 (Hf KeyBubble)) as (w3 & b & -> & H3); [by apply (in_tree_calm w), in_tree_rev|]. cbn [obind].
  assert (H13 : calm w w3) by by transitivity w2. destruct b; [by exists w3|]. eexists. split; [done|]. etransitivity; [exact H13|apply global_listeners_calm].
Qed.

Lemma bindings_ok id k contexts bs : forall w,
  tree_ok (rendered_tree w) -> id < length (nodes (rendered_tree w)) -> returns (dispatch_bindings id k contexts bs w) w.
Proof.
  induction bs as [|b bs IH]; intros w Ht Hid; [by exists w, false|]. cbn [dispatch_bindings].
  destruct (action_on_node_ok id (action b) w Ht Hid) as (w1 & -> & H1). cbn [obind]. destruct (propagate_event w1).
  - destruct (IH w1) as (w2 & r & E & H2); [by eapply tree_ok_calm|by rewrite (calm_tree _ _ H1)|]. exists w2, r. split; [done|]. by transitivity w1.
  - eexists _, true. split; [done|]. etransitivity; [exact H1|apply run_ops_calm].
Qed.

(** ** Key events return *)

Lemma replay_one_ok id path w r :
  tree_ok (rendered_tree w) -> id < length (nodes (rendered_tree w)) -> in_tree w path -> returns_window (replay_one id path w r) w.
Proof.
  intros Ht Hid Hp. unfold replay_one. set (w0 := set_propagate_event true w). assert (H0 : calm w w0) by calm_same.
  destruct (bindings_ok id (replay_keystroke r) [] (replay_bindings r) w0 Ht Hid) as (w1 & b & -> & H1). cbn [obind].
  assert (H01 : calm w w1) by by transitivity w0. destruct b; [by exists w1|].
  destruct (key_listeners_ok (KeyDown (replay_keystroke r) false true) path w1) as (w2 & -> & H2); [by apply (in_tree_calm w)|]. cbn [obind].
  assert (H02 : calm w w2) by by transitivity w1. destruct (propagate_event w2); [|by exists w2].
  destruct (key_char (replay_keystroke r)) as [input|]; [|by exists w2]. destruct (input_handler w2) as [h|]; [|by exists w2].
  eexists. split; [done|]. transitivity w2; [done|]. transitivity (set_input_handler None w2); [calm_same|].
  etransitivity; [apply run_ops_calm|calm_same].
Qed.

Lemma replays_ok rs w : tree_ok (rendered_tree w) -> returns_window (replay_pending_input rs w) w.
Proof.
  intros Ht. unfold replay_pending_input. set (id := focus_node_id_in_rendered_frame w (focus w)).
  assert (Hid : id < length (nodes (rendered_tree w))) by by apply focus_node_in_range.
  destruct (path_ok w id Ht Hid) as (path & -> & Hp). cbn [obind]. generalize dependent w. intros w Ht id Hid Hp. clearbody id.
  revert w Ht Hid Hp. induction rs as [|r rs IH]; intros w Ht Hid Hp; [by exists w|]. cbn [ofold].
  destruct (replay_one_ok id path w r Ht Hid Hp) as (w1 & -> & H1). cbn [obind].
  destruct (IH w1) as (w2 & E & H2); [by eapply tree_ok_calm|by rewrite (calm_tree _ _ H1)|by apply (in_tree_calm w)|]. exists w2. split; [done|]. by transitivity w1.
Qed.

Lemma input_preference_calm e w : calm w (input_preference e w).1.
Proof.
  unfold input_preference. destruct e as [k held []| |]; try done. destruct (input_handler w) as [h|]; [|done].
  destruct (accepts_text_input h _) as [ops b]. cbn. transitivity (set_input_handler None w); [calm_same|].
  etransitivity; [apply run_ops_calm|calm_same].
Qed.

Lemma finish_key_ok e k pref path contexts w : in_tree w path -> returns_window (finish_dispatch_key_event e k pref path contexts w) w.
Proof.
  intros Hp. unfold finish_dispatch_key_event. destruct (key_listeners_ok e path w Hp) as (w1 & -> & H1). cbn [obind].
  destruct (propagate_event w1); [|by exists w1].
  destruct (modifiers_listeners_ok e path w1) as (w2 & -> & H2); [by apply (in_tree_calm w)|]. cbn [obind].
  assert (H12 : calm w w2) by by transitivity w1. destruct (propagate_event w2); [|by exists w2]. destruct k; [|by exists w2].
  eexists. split; [done|]. etransitivity; [exact H12|apply run_ops_calm].
Qed.

Lemma resolved_ok e id path k r w :
  tree_ok (rendered_tree w) -> id < length (nodes (rendered_tree w)) -> in_tree w path -> returns_window (dispatch_resolved e id path k r w) w.
Proof.
  intros Ht Hid Hp. unfold dispatch_resolved. pose proof (input_preference_calm e w) as H1. destruct (input_preference e w) as [w1 pref]. cbn in H1.
  assert (Hb : returns (match pref with
    | KeyBindings => dispatch_bindings id k (result_context_stack r) (result_bindings r) w1
    | CharacterInput => Ok (w1, false) end) w1).
  { destruct pref; [|by exists w1, false]. apply bindings_ok; [by eapply tree_ok_calm|by rewrite (calm_tree _ _ H1)]. }
  destruct Hb as (w2 & b & -> & H2). cbn [obind]. assert (H12 : calm w w2) by by transitivity w1.
  assert (Hw : returns_window (if b then Ok w2 else finish_dispatch_key_event e (Some k) pref path (result_context_stack r) w2) w2).
  { destruct b; [by exists w2|]. by apply finish_key_ok, (in_tree_calm w). }
  destruct Hw as (w3 & -> & H3). cbn [obind]. eexists. split; [done|]. transitivity w2; [done|]. transitivity w3; [done|]. apply run_ops_calm.
Qed.

(** ** Taking the pending input, and keeping it *)

(** The tree stays, and so does the invariant between events. *)
Definition steps w w' : Prop := rendered_tree w' = rendered_tree w /\ timed w'.

Lemma take_pending_ok w :
  timed w -> let (w', p) := take_pending w in
  rendered_tree w' = rendered_tree w /\ pending_input w' = None /\ held (timeout p) w'.
Proof.
  intros Hw. unfold take_pending. set (w1 := set_pending_input None w).
  assert (Hh : held (timeout (default pending_default (pending_input w))) w1).
  { destruct (pending_input w) as [p|] eqn:Ep; cbn.
    - destruct (held_input _ _ Hw p Ep) as (_ & t & Et & Ht). rewrite Et. split; [done| |by intros ? [= <-]|done].
      cbn. rewrite (held_timers _ _ Hw), Ep. cbn. by rewrite Et.
    - apply idle_timed; [done|]. cbn. by rewrite (held_timers _ _ Hw), Ep. }
  destruct (_ && _); [|done]. destruct (drop_timeout_same (timeout (default pending_default (pending_input w))) w1) as (Et & Ep & _).
  split; [done|]. split; [by rewrite Ep|]. by apply dropped_timed.
Qed.

Lemma start_ok d w w1 t :
  pending_input w = None -> timers w = ∅ -> new_pending_input_timeout d w = (w1, t) -> (d <= pending_input_timeout)%N ->
  rendered_tree w1 = rendered_tree w /\ pending_input w1 = None /\ held (Some t) w1.
Proof.
  intros Ep Et [= <- <-] Hd. split; [done|]. split; [done|]. split; [done| | |cbn; by rewrite Ep].
  - cbn. by rewrite Et, insert_empty.
  - intros t [= <-]. split; [done|]. cbn. lia.
Qed.

Lemma keep_pending_ok ks h w :
  ks <> [] -> pending_input w = None -> held h w -> steps w (keep_pending ks h w).
Proof.
  intros Hk Ep Hh. unfold keep_pending.
  assert (Hs : forall w1 t, rendered_tree w1 = rendered_tree w -> pending_input w1 = None -> held (Some t) w1 ->
    steps w (set_propagate_event false (pending_input_changed (set_pending_input (Some (mkPending ks (focus w1) (Some t))) w1)))).
  { intros w1 t Et1 Ep1 H1. set (w2 := set_pending_input _ w1).
    assert (H2 : timed w2).
    { destruct H1 as [_ Hm Ho _]. split; [done|done|done|]. intros p [= <-]. split; [done|]. exists t. split; [done|]. by apply Ho. }
    assert (Hc : calm w2 (set_propagate_event false (pending_input_changed w2))) by (etransitivity; [apply run_ops_calm|calm_same]).
    split; [by rewrite (calm_tree _ _ Hc)|]. by apply (calm_held _ _ Hc). }
  destruct h as [t|].
  - destruct (is_paused t) eqn:Epa.
    + apply Hs; [done|done|]. destruct Hh as [Hp Hm Ho Hi]. unfold is_paused in Epa. unfold tasks_of in Hm. destruct t as [d r s]. cbn in *.
      destruct s as [|owner]; [done|]. split; [done|done|intros t [= <-]; by split|done].
    + destruct (drop_timeout_same (Some t) w) as (Et & Ep' & _).
      destruct (new_pending_input_timeout _ _) as [w1 t1] eqn:E1. apply start_ok in E1 as (Et1 & Ep1 & H1); [|by rewrite Ep'| |done].
      * apply Hs; [by rewrite Et1|done|done].
      * apply drop_timeout_timers. by rewrite (held_timers _ _ Hh).
  - destruct (new_pending_input_timeout _ _) as [w1 t1] eqn:E1. apply start_ok in E1 as (Et1 & Ep1 & H1); [|done| |done].
    + by apply Hs.
    + by rewrite (held_timers _ _ Hh), Ep.
Qed.

Lemma keystroke_event_ok e id path k w :
  timed w -> tree_ok (rendered_tree w) -> id < length (nodes (rendered_tree w)) -> in_tree w path ->
  exists w', dispatch_keystroke_event os e id path k w = Ok w' /\ steps w w'.
Proof.
  intros Hw Ht Hid Hp. unfold dispatch_keystroke_event. pose proof (take_pending_ok w Hw) as H1. destruct (take_pending w) as [w1 p].
  destruct H1 as (Et1 & Ep1 & Hh1). assert (Hp1 : in_tree w1 path) by (unfold in_tree; by rewrite Et1).
  destruct (contexts_ok w1 path Hp1) as [contexts Hc]. unfold dispatch_key.
  destruct (dispatch_loop_ok os _ path contexts Hc k (S (length (pending_keystrokes p))) (pending_keystrokes p)) as (r & rest & -> & _); [lia|].
  cbn [obind]. rewrite <- Et1 in Ht, Hid.
  set (m := match to_replay r with [] => _ | _ => _ end). assert (Hm : returns_window m w1).
  { subst m. destruct (to_replay r) as [|x xs]; [by exists w1|]. destruct (replays_ok (x :: xs) w1 Ht) as (w2 & -> & H2). cbn [obind].
    eexists. split; [done|]. transitivity w2; [done|calm_same]. }
  destruct Hm as (w2 & -> & H2). cbn [obind]. pose proof (calm_none _ _ H2 Ep1) as Ep2. pose proof (calm_held _ _ H2 _ Hh1) as Hh2.
  assert (Et2 : rendered_tree w2 = rendered_tree w) by (by rewrite (calm_tree _ _ H2)).
  destruct (result_pending r) as [|k' ks].
  - destruct (resolved_ok e id path k r w2) as (w3 & -> & H3); [by eapply tree_ok_calm|by rewrite (calm_tree _ _ H2)|by apply (in_tree_calm w1)|].
    cbn [obind]. eexists. split; [done|]. destruct (drop_timeout_same (timeout p) w3) as (Et3 & _).
    split; [by rewrite Et3, (calm_tree _ _ H3)|]. apply dropped_timed; [by apply (calm_held _ _ H3)|by apply (calm_none _ _ H3)].
  - eexists. split; [done|]. destruct (keep_pending_ok (k' :: ks) (timeout p) w2) as [Et3 H3]; [done..|]. by split; [rewrite Et3|].
Qed.

Lemma event_keystroke_calm e w : calm w (event_keystroke e w).1.
Proof. destruct e; cbn; [calm_same|done|calm_same]. Qed.

(** What drawing leaves has a root. *)
Context (Hdraw : forall w, tree_ok (draw_tree w)).

Lemma key_event_ok e w :
  timed w -> tree_ok (rendered_tree w) ->
  exists w', dispatch_event os e w = Ok w' /\ timed w' /\ tree_ok (rendered_tree w').
Proof using Hdraw.
  intros Hw Ht. unfold dispatch_event, dispatch_key_event. set (w0 := set_last_input_was_keyboard true _).
  assert (H0 : timed w0 /\ tree_ok (rendered_tree w0)) by (split; [|done]; by apply (calm_held w); [calm_same|]).
  set (w1 := if dirty w0 then _ else _). assert (H1 : timed w1 /\ tree_ok (rendered_tree w1)).
  { subst w1. destruct (dirty w0); [|done]. split; [|cbn; apply Hdraw]. destruct H0 as [[Hp Hm Ho Hi] _]. by split. }
  clearbody w1. clear w0 H0 Hw Ht w. destruct H1 as [Hw Ht]. set (id := focus_node_id_in_rendered_frame w1 (focus w1)).
  assert (Hid : id < length (nodes (rendered_tree w1))) by by apply focus_node_in_range.
  destruct (path_ok w1 id Ht Hid) as (path & -> & Hp). cbn [obind]. clearbody id.
  pose proof (event_keystroke_calm e w1) as H2. destruct (event_keystroke e w1) as [w2 o]. cbn in H2.
  assert (Hend : forall w3 m, calm w1 w3 -> returns_window m w3 -> exists w', m = Ok w' /\ timed w' /\ tree_ok (rendered_tree w')).
  { intros w3 m H3 (w' & E & H'). exists w'. assert (Hc : calm w1 w') by by transitivity w3. split; [done|].
    split; [by apply (calm_held _ _ Hc)|by apply (tree_ok_calm _ _ Hc)]. }
  assert (Hctx : forall w3, calm w1 w3 -> exists contexts, window_context_stack w3 = Ok contexts).
  { intros w3 H3. unfold window_context_stack, focused_path.
    destruct (path_ok w3 (focus_node_id_in_rendered_frame w3 (focus w3))) as (path3 & -> & Hp3);
      [by apply (tree_ok_calm _ _ H3)|by apply focus_node_in_range, (tree_ok_calm _ _ H3)|]. cbn [obind]. by apply contexts_ok. }
  destruct o as [k|].
  - pose proof (input_preference_calm e w2) as H3. destruct (input_preference e w2) as [w3 pref]. cbn in H3.
    assert (H13 : calm w1 w3) by by transitivity w2. destruct (Hctx w3 H13) as [contexts ->]. cbn [obind].
    set (w4 := dispatch_keystroke_interceptors _ _ _ _). assert (H4 : calm w1 w4).
    { transitivity w3; [done|]. transitivity (set_propagate_event true w3); [calm_same|]. apply run_ops_calm. }
    destruct (propagate_event w4).
    + destruct (keystroke_event_ok e id path k w4) as (w' & -> & Et & Hw'); [by apply (calm_held _ _ H4)|by apply (tree_ok_calm _ _ H4)|by rewrite (calm_tree _ _ H4)|by apply (in_tree_calm w1)|].
      exists w'. split; [done|]. split; [done|]. rewrite Et. by apply (tree_ok_calm _ _ H4).
    + destruct (Hctx w4 H4) as [contexts' ->]. cbn [obind]. eapply Hend; [exact H4|]. by apply finish_key_ok, (in_tree_calm w1).
  - destruct (Hctx w2 H2) as [contexts ->]. cbn [obind]. eapply Hend; [exact H2|]. by apply finish_key_ok, (in_tree_calm w1).
Qed.

(** ** The input is replayed *)

(** The replays, each of which is done: a binding of it handles the keystroke, or a listener
    for keys stops it, or it is typed, if it types something and there is a handler. *)
Inductive replayed (id : nat) (path : list nat) : list (Replay (Action := Action)) -> Win -> Win -> Prop :=
  | replayed_end w : replayed id path [] w w
  | replayed_bound r rs w w1 w2 :
      dispatch_bindings id (replay_keystroke r) [] (replay_bindings r) (set_propagate_event true w) = Ok (w1, true) ->
      replayed id path rs w1 w2 -> replayed id path (r :: rs) w w2
  | replayed_stopped r rs w w1 w2 w3 :
      dispatch_bindings id (replay_keystroke r) [] (replay_bindings r) (set_propagate_event true w) = Ok (w1, false) ->
      dispatch_key_down_up_event (KeyDown (replay_keystroke r) false true) path w1 = Ok w2 -> propagate_event w2 = false ->
      replayed id path rs w2 w3 -> replayed id path (r :: rs) w w3
  | replayed_typed r rs w w1 w2 w3 w4 :
      dispatch_bindings id (replay_keystroke r) [] (replay_bindings r) (set_propagate_event true w) = Ok (w1, false) ->
      dispatch_key_down_up_event (KeyDown (replay_keystroke r) false true) path w1 = Ok w2 -> propagate_event w2 = true ->
      w3 = match key_char (replay_keystroke r), input_handler w2 with
           | Some input, Some h => set_input_handler (Some h) (run_ops (dispatch_input h input (set_input_handler None w2)) (set_input_handler None w2))
           | _, _ => w2
           end ->
      replayed id path rs w3 w4 -> replayed id path (r :: rs) w w4.

Lemma replayed_ok id path rs w w' : ofold (replay_one id path) rs w = Ok w' -> replayed id path rs w w'.
Proof.
  revert w. induction rs as [|r rs IH]; intros w E; [injection E as <-; constructor|]. cbn [ofold] in E.
  destruct (replay_one id path w r) as [w3| |] eqn:E1; [|done..]. cbn [obind] in E. apply IH in E. unfold replay_one in E1.
  destruct (dispatch_bindings _ _ _ _ _) as [[w1 []]| |] eqn:Eb; [| |done..]; cbn [obind] in E1.
  { injection E1 as <-. by eapply replayed_bound. }
  destruct (dispatch_key_down_up_event _ _ w1) as [w2| |] eqn:Ek; [|done..]. cbn [obind] in E1. destruct (propagate_event w2) eqn:Ep.
  - eapply replayed_typed; [done..| |exact E]. destruct (key_char _); [destruct (input_handler w2)|]; by injection E1 as <-.
  - injection E1 as <-. by eapply replayed_stopped.
Qed.

(** The end of the timeout of the pending input [p]: the input was that of the node that has
    the focus, and is cut into replays, which are all done; or the focus has moved. *)
Definition input_replayed (p : PendingInput) w w' : Prop :=
  let w1 := set_pending_input None w in
  if bool_decide (pending_focus p = focus w) then
    exists path contexts rs path' w2,
      focused_path w1 = Ok path /\ contexts_along (rendered_tree w) path = Ok contexts /\
      segmented os (rendered_tree w) contexts (fun _ => True) (pending_keystrokes p) rs [] /\
      focused_path (pending_input_changed w1) = Ok path' /\
      replayed (focus_node_id_in_rendered_frame (pending_input_changed w1) (focus (pending_input_changed w1))) path' rs (pending_input_changed w1) w2 /\
      w' = drop_timeout (timeout p) w2
  else w' = drop_timeout (timeout p) w1.

Lemma fire_ok task d w :
  timed w -> tree_ok (rendered_tree w) -> timers w !! task = Some d ->
  exists p w', pending_input w = Some p /\ fire os task w = Ok w' /\ input_replayed p (set_timers ∅ w) w' /\
    pending_input w' = None /\ timers w' = ∅ /\ tree_ok (rendered_tree w').
Proof.
  intros Hw Ht Hd. unfold fire. set (w1 := set_timers _ w). change (pending_input w1) with (pending_input w).
  destruct (pending_input w) as [p|] eqn:Ep; [|by rewrite (held_timers _ _ Hw), Ep in Hd].
  destruct (held_input _ _ Hw p Ep) as (Hk & t & Et & Hok).
  assert (E1 : timers w1 = ∅).
  { cbn. rewrite (held_timers _ _ Hw), Ep in *. cbn in *. rewrite Et in *. cbn in *. destruct (timeout_state t) as [s task'|]; [|done].
    apply lookup_singleton_Some in Hd as [-> _]. apply delete_singleton_eq. }
  set (w2 := set_pending_input None w1). assert (H2 : timed w2) by by apply idle_timed.
  assert (Hdrop : forall w3, calm w2 w3 -> pending_input (drop_timeout (timeout p) w3) = None /\ timers (drop_timeout (timeout p) w3) = ∅ /\
    tree_ok (rendered_tree (drop_timeout (timeout p) w3))).
  { intros w3 H3. destruct (drop_timeout_same (timeout p) w3) as (Et3 & Ep3 & _). assert (En : pending_input w3 = None) by by apply (calm_none _ _ H3).
    rewrite Ep3, Et3, En. split; [done|]. split; [|by rewrite (calm_tree _ _ H3)].
    pose proof (held_timers _ _ (calm_held _ _ H3 _ H2)) as Em. rewrite En in Em. cbn in Em. unfold drop_timeout, drop_task.
    destruct (timeout p ≫= timeout_task); [|done]. cbn. by rewrite Em, delete_empty. }
  assert (Ew : set_timers ∅ w = w1) by (unfold w1; f_equal; symmetry; exact E1). exists p. change (focus w2) with (focus w). unfold input_replayed. rewrite Ew. fold w2.
  change (focus w1) with (focus w). case_bool_decide as Ef; [|eexists; split; [done|split; [done|split; [done|by apply Hdrop]]]].
  unfold focused_path at 1. destruct (path_ok w2 (focus_node_id_in_rendered_frame w2 (focus w2)) Ht) as (path & Epath & Hp); [by apply focus_node_in_range|]. rewrite Epath.
  cbn [obind]. destruct (contexts_ok w2 path Hp) as [contexts Hc]. unfold flush_dispatch.
  destruct (flush_loop_ok os _ path contexts Hc (S (length (pending_keystrokes p))) _ Hk) as (rs & -> & Hseg); [lia|]. cbn [obind].
  assert (H3 : calm w2 (pending_input_changed w2)) by apply run_ops_calm.
  destruct (replays_ok rs (pending_input_changed w2)) as (w4 & E4 & H4); [by apply (tree_ok_calm _ _ H3)|]. rewrite E4. cbn [obind].
  eexists. split; [done|]. split; [done|]. split; [|apply Hdrop; by transitivity (pending_input_changed w2)].
  unfold replay_pending_input in E4. destruct (dispatch_path (rendered_tree (pending_input_changed w2)) _) as [path'| |] eqn:Ep'; [|done..]. cbn [obind] in E4.
  exists path, contexts, rs, path', w4. split; [exact Epath|]. split; [exact Hc|]. split; [exact Hseg|]. split; [exact Ep'|]. by split; [apply replayed_ok|].
Qed.

Lemma deferred_ok w : tree_ok (rendered_tree w) -> returns_window (run_deferred w) w.
Proof.
  intros Ht. unfold run_deferred. destruct (deferred w) as [|[|f a] ds]; [by exists w| |]; set (w1 := set_deferred ds w); assert (H1 : calm w w1) by calm_same.
  - eexists. split; [done|]. etransitivity; [exact H1|apply run_ops_calm].
  - destruct (action_on_node_ok (focus_node_id_in_rendered_frame w1 f) a w1) as (w2 & -> & H2); [by apply (tree_ok_calm _ _ H1)|by apply focus_node_in_range|].
    exists w2. split; [done|]. by transitivity w1.
Qed.

(** ** What can happen to a window *)

(** Key events, the end of a timeout, what was deferred, and other code of the client, in
    which time passes. *)
Inductive window_step w : Win -> Prop :=
  | step_key e w' : dispatch_event os e w = Ok w' -> window_step w w'
  | step_fire task d w' : timers w !! task = Some d -> (d <= now w)%N -> fire os task w = Ok w' -> window_step w w'
  | step_deferred w' : run_deferred w = Ok w' -> window_step w w'
  | step_client ops : window_step w (run_ops ops w).

Lemma window_step_ok w w' : window_step w w' -> timed w -> tree_ok (rendered_tree w) -> timed w' /\ tree_ok (rendered_tree w').
Proof using Hdraw.
  intros Hs Hw Ht. destruct Hs as [e w' E|task d w' Hd _ E|w' E|ops].
  - destruct (key_event_ok e w Hw Ht) as (w1 & E1 & H1). by assert (w1 = w') as <- by congruence.
  - destruct (fire_ok task d w Hw Ht Hd) as (p & w1 & _ & E1 & _ & Ep & Em & Ht1). assert (w1 = w') as <- by congruence. split; [by apply idle_timed|done].
  - destruct (deferred_ok w Ht) as (w1 & E1 & H1). assert (w1 = w') as <- by congruence.
    split; [by apply (calm_held _ _ H1)|by apply (tree_ok_calm _ _ H1)].
  - pose proof (run_ops_calm ops w) as H1. split; [by apply (calm_held _ _ H1)|by apply (tree_ok_calm _ _ H1)].
Qed.

Lemma keys_steps es w w' : ofold (fun w e => dispatch_event os e w) es w = Ok w' -> rtc window_step w w'.
Proof.
  revert w. induction es as [|e es IH]; intros w E; [injection E as ->; apply rtc_refl|]. cbn [ofold] in E.
  destruct (dispatch_event os e w) as [w1| |] eqn:E1; [|discriminate E..]. eapply rtc_l; [by eapply step_key|by apply IH].
Qed.

(** C20: whatever keys are typed, whenever timeouts end and whatever the callbacks of the client
    do in between (they may move the focus, clear the input, pause and resume its timeout,
    dispatch actions and let time pass, but not draw the window or dispatch keystrokes of
    their own: a key event draws the window, and a draw leaves a dispatch tree with a root), a window
    without pending input has no task waiting; one with pending input, of one keystroke at
    least, has a timeout that is either paused, without a task, or runs, and then has the only
    task, which ends within a second from now.  No key event panics, nor does the end of a
    timeout, when there is pending input: if the focus has not moved since, all of its
    keystrokes are cut into the longest prefixes that are bound, and each of these is replayed,
    in order, to its bindings, else to the listeners for keys, else to the input handler; if
    the focus has moved, nothing is replayed.  Nothing is pending after it. *)
Theorem pending_input_timed w0 w :
  timers w0 = ∅ -> pending_input w0 = None -> tree_ok (rendered_tree w0) -> rtc window_step w0 w ->
  match pending_input w with
  | None => timers w = ∅
  | Some p => pending_keystrokes p <> [] /\ exists t, timeout p = Some t /\
      match timeout_state t with
      | Paused _ => timers w = ∅
      | Running _ task => exists d, timers w = {[task := d]} /\ (d <= now w + pending_input_timeout)%N
      end
  end /\
  (forall e, exists w', dispatch_event os e w = Ok w') /\
  (forall task d, timers w !! task = Some d -> exists p w', pending_input w = Some p /\ fire os task w = Ok w' /\
     input_replayed p (set_timers ∅ w) w' /\ pending_input w' = None /\ timers w' = ∅).
Proof using Hdraw.
  intros Em Ep Ht Hs. assert (Hw : timed w /\ tree_ok (rendered_tree w)).
  { pose proof (idle_timed w0 Ep Em) as Hw. clear Em Ep. induction Hs as [|w1 w2 w3 Hs _ IH]; [done|]. apply IH; by eapply window_step_ok. }
  clear Hs Em Ep Ht w0. destruct Hw as [Hw Ht]. split; [|split].
  - pose proof (held_timers _ _ Hw) as Em. destruct (pending_input w) as [p|] eqn:Ep; [|done].
    destruct (held_input _ _ Hw p Ep) as (Hk & t & Et & Hr & Hst). split; [done|]. exists t. split; [done|]. cbn in Em. rewrite Et in Em. cbn in Em.
    destruct (timeout_state t) as [s task|]; [|done]. eexists. split; [exact Em|]. lia.
  - intros e. destruct (key_event_ok e w Hw Ht) as (w' & E & _). by exists w'.
  - intros task d Hd. destruct (fire_ok task d w Hw Ht Hd) as (p & w' & Ep & E & Hr & Ep' & Em & _). by exists p, w'.
Qed.
End Timers.

(** ** Witness *)

Module TestTimers.
#[local] Existing Instance Keymap.test_action.

Abbreviation TestWindow := (Window (Action := N) (Json := nat) (Error := unit) (Schema := unit) (KeyListener := N) (ModifiersChangedListener := N)
  (ActionListener := N) (GlobalListener := N) (InputHandler := N) (X := list N)).

(** A root that listens to the actions 1 and 2. *)
Definition root_tree : TestTree :=
  mkDispatchTree [] [] []
    [mkDispatchNode [] [mkDispatchActionListener 1%N 0%N; mkDispatchActionListener 2%N 0%N] [] None None None None] ∅ ∅
    (keymap_new [binding "a" 2 None; binding "a b c" 1 None]) test_registry.

Lemma root_tree_ok : tree_ok root_tree.
Proof.
  split; [|done]. split; [|done|done|done|intros f id; cbn; by rewrite lookup_empty|intros v id; cbn; by rewrite lookup_empty].
  intros [|id] nd p; [by intros [= <-]|by destruct id].
Qed.

(** The listeners note the actions. *)
#[local] Instance test_client : Client (Action := N) (Json := nat) (Error := unit) (Schema := unit) (KeyListener := N) (ModifiersChangedListener := N)
    (ActionListener := N) (GlobalListener := N) (InputHandler := N) (X := list N) := {|
  key_code _ _ _ _ := [];
  modifiers_code _ _ _ := [];
  action_code _ a phase w := match phase with KeyBubble => [OpSet (client w ++ [a])] | KeyCapture => [] end;
  global_code _ _ _ _ := [];
  interceptors_code _ _ _ _ := [];
  observers_code _ _ _ _ _ := [];
  pending_observers_code _ := [];
  accepts_text_input _ _ := ([], false);
  dispatch_input _ _ _ := [];
  draw_tree _ := root_tree;
|}.

Definition window_at_rest : TestWindow :=
  mkWindow root_tree None true None (mkModifierState modifiers_none false) true false false None ∅ 0 ∅ 0 [] [].

Definition press (s : String.string) : KeyEvent := KeyDown (key_of s) false false.
Arguments press s%_string_scope.

(** "a b" is pending for a second, and then "a" is replayed; with "c" it is the action 1. *)
Definition typed_ab : outcome TestWindow := ofold (fun w e => dispatch_event Linux e w) [press "a"; press "b"] window_at_rest.
Example replayed_in_time :
  (let! w := typed_ab in Ok (length (pending_keystrokes (default pending_default (pending_input w))), map_to_list (timers w))) = Ok (2, [(1%N, pending_input_timeout)]) /\
  (let! w := typed_ab in let! w := fire Linux 1 w in Ok (client w, pending_keystrokes <$> pending_input w)) = Ok ([2%N], None) /\
  (let! w := typed_ab in let! w := dispatch_event Linux (press "c") w in Ok (client w, map_to_list (timers w))) = Ok ([1%N], []).
Proof. vm_compute. auto. Qed.

Definition first_timer (o : outcome TestWindow) : option N := match o with Ok w => timers w !! 1%N | _ => None end.

Lemma typed_ab_timer : first_timer typed_ab = Some pending_input_timeout.
Proof. vm_compute. reflexivity. Qed.

Lemma first_timer_ok o : first_timer o = Some pending_input_timeout -> exists w, o = Ok w /\ timers w !! 1%N = Some pending_input_timeout.
Proof. destruct o as [w| |]; [|done..]. intros E. by exists w. Qed.

Lemma typed_ab_steps w : typed_ab = Ok w -> rtc (window_step Linux) window_at_rest w.
Proof. apply keys_steps. Qed.

Lemma typed_ab_ok : exists w, typed_ab = Ok w /\ rtc (window_step Linux) window_at_rest w /\ timers w !! 1%N = Some pending_input_timeout.
Proof.
  destruct (first_timer_ok _ typed_ab_timer) as (w & E & Em). exists w. split; [exact E|]. split; [exact (typed_ab_steps w E)|exact Em].
Qed.

Lemma pending_input_timed_witness :
  exists w w', typed_ab = Ok w /\ is_Some (timers w !! 1%N) /\ fire Linux 1 w = Ok w' /\ pending_input w' = None /\ timers w' = ∅.
Proof.
  destruct typed_ab_ok as (w & E & Hs & Em).
  destruct (pending_input_timed (Client0 := test_client) Linux (fun _ => root_tree_ok) window_at_rest w eq_refl eq_refl root_tree_ok Hs) as (_ & _ & Hf).
  destruct (Hf _ _ Em) as (p & w' & _ & Ef & _ & Hw'). exists w, w'. split; [exact E|]. split; [by rewrite Em|]. split; [exact Ef|exact Hw'].
Defined.

(** An interceptor stops the key; two listeners of the root are for it. *)
Definition listening_tree : TestTree := mkDispatchTree [] [] [] [mkDispatchNode [1%N; 2%N] [] [] None None None None] ∅ ∅ (keymap_new []) test_registry.

Definition intercepting_client : Client (Action := N) (Json := nat) (Error := unit) (Schema := unit) (KeyListener := N) (ModifiersChangedListener := N)
    (ActionListener := N) (GlobalListener := N) (InputHandler := N) (X := list N) := {|
  key_code l _ _ w := [OpSet (client w ++ [l])];
  modifiers_code _ _ _ := [];
  action_code _ _ _ _ := [];
  global_code _ _ _ _ := [];
  interceptors_code _ _ _ _ := [OpPropagate false];
  observers_code _ _ _ _ _ := [];
  pending_observers_code _ := [];
  accepts_text_input _ _ := ([], false);
  dispatch_input _ _ _ := [];
  draw_tree _ := listening_tree;
|}.

(** The first listener for keys is called all the same. *)
Example intercepted_key :
  (let! w := dispatch_event (H0 := intercepting_client) Linux (press "a") (set_rendered_tree listening_tree window_at_rest) in Ok (client w)) = Ok [1%N].
Proof. vm_compute. reflexivity. Qed.

(** Shift pressed and released alone is a keystroke, but not around another key. *)
Example lone_modifier :
  let shift := mkModifiers false false true false false in
  let alone := (event_keystroke (ModifiersChanged shift) window_at_rest).1 in
  let around := (event_keystroke (press "a") alone).1 in
  (key <$> (event_keystroke (ModifiersChanged modifiers_none) alone).2) = Some (lit "shift") /\
  (event_keystroke (ModifiersChanged modifiers_none) around).2 = None.
Proof. vm_compute. auto. Qed.
End TestTimers.
