(* ===== verification/ThreadedDispatcher.v ===== *)
(** * The threaded dispatcher, [crates/gpui/src/platform/threaded_dispatcher.rs]

    Worker threads that take tasks from a queue with priorities, a thread for timers, and the
    main thread, which runs its own tasks and waits until the others are idle.  Threads
    interleave between the sections in which they hold a lock: a step of the relation is one
    such section.  Tasks are opaque; what they and other threads dispatch are steps of their
    own, at any time.  A task may panic: on a worker that ends its thread, once the guard has
    counted the task; on the main thread the call that runs it ends. *)

From Stdlib Require Import NArith.
From stdpp Require Import base list option numbers relations.
From S2P Require Import Prelude.

#[local] Set Warnings "-register-all,-clear-no-such-hyp".

Inductive TaskPriority := HighPriority | MediumPriority | LowPriority.

Section Dispatcher.
(** Tasks that are ready to run. *)
Context {Runnable : Type}.

(** ** The queue *)

Record BackgroundQueue := mkQueue { high : list Runnable; normal : list Runnable; low : list Runnable }.

Definition queue_push (p : TaskPriority) (r : Runnable) (q : BackgroundQueue) : BackgroundQueue :=
  match p with
  | HighPriority => mkQueue (high q ++ [r]) (normal q) (low q)
  | MediumPriority => mkQueue (high q) (normal q ++ [r]) (low q)
  | LowPriority => mkQueue (high q) (normal q) (low q ++ [r])
  end.

(** [None] where the thread waits. *)
Definition queue_pop (q : BackgroundQueue) : option (Runnable * BackgroundQueue) :=
  match high q, normal q, low q with
  | r :: h, n, l => Some (r, mkQueue h n l)
  | [], r :: n, l => Some (r, mkQueue [] n l)
  | [], [], r :: l => Some (r, mkQueue [] [] l)
  | [], [], [] => None
  end.

Definition queue_len (q : BackgroundQueue) : nat := length (high q) + length (normal q) + length (low q).

(** ** Tasks in flight *)

Definition increment (inflight : nat) : nat := S inflight.
Definition decrement (inflight : nat) : outcome nat := match inflight with 0 => Panic | S n => Ok n end.

(** ** Timers *)

Record TimerEntry := mkTimer { due : N; sequence : N; timer_runnable : Runnable }.

(** [Ord] is reversed, so that the greatest entry is the first that is due. *)
Definition timer_cmp (a b : TimerEntry) : comparison :=
  match (due b ?= due a)%N with Eq => (sequence b ?= sequence a)%N | c => c end.

(** [BinaryHeap::peek] and [pop]: the greatest entry. *)
Fixpoint heap_pop (h : list TimerEntry) : option (TimerEntry * list TimerEntry) :=
  match h with
  | [] => None
  | e :: h =>
      match heap_pop h with
      | None => Some (e, [])
      | Some (m, h') => match timer_cmp e m with Lt => Some (m, e :: h') | _ => Some (e, m :: h') end
      end
  end.
Definition heap_peek (h : list TimerEntry) : option TimerEntry := fst <$> heap_pop h.

(** ** The threads *)

(** The main thread: outside the dispatcher; in the loop of [run_until_idle] ([idle]) or of
    [run_until]; holding the lock of the count, before and after it looked at its queue;
    waiting, perhaps until the next timer. *)
Inductive MainThread :=
  | Outside
  | Looping (idle : bool)
  | Locked (idle : bool) (deadline : option N)
  | Checked (idle : bool) (deadline : option N)
  | Waiting (idle : bool) (deadline : option N).

Record Dispatcher := mkDispatcher {
  background : BackgroundQueue;
  main : list Runnable;
  timers : list TimerEntry;
  next_sequence : N;
  inflight : nat;
  main_thread : MainThread;
  (** Counted but not yet in the queue. *)
  dispatching : list (TaskPriority * Runnable);
  (** Taken by the timer thread, not yet counted. *)
  popped : option Runnable;
  (** Run by the workers, whose guards count. *)
  running : list Runnable;
  (** Calls of [notify] that are still to come. *)
  notices : nat;
  now : N;
  (** The worker threads that have not ended. *)
  workers : nat;
}.

Implicit Types (s : Dispatcher).

(** With the number of workers, which [new] takes from the machine, two at least. *)
Definition dispatcher_new (worker_count : nat) : Dispatcher := mkDispatcher (mkQueue [] [] []) [] [] 0 0 Outside [] None [] 0 0 worker_count.

Definition set_main_thread m s := mkDispatcher (background s) (main s) (timers s) (next_sequence s) (inflight s) m (dispatching s) (popped s) (running s) (notices s) (now s) (workers s).
Definition set_main q s := mkDispatcher (background s) q (timers s) (next_sequence s) (inflight s) (main_thread s) (dispatching s) (popped s) (running s) (notices s) (now s) (workers s).
Definition add_notice s := mkDispatcher (background s) (main s) (timers s) (next_sequence s) (inflight s) (main_thread s) (dispatching s) (popped s) (running s) (S (notices s)) (now s) (workers s).

(** [Condvar::notify_all]: the main thread is the only one that waits for it. *)
Definition wake (m : MainThread) : MainThread := match m with Waiting idle _ => Looping idle | _ => m end.

(** Whether the main thread holds the lock of the count. *)
Definition holds_count (m : MainThread) : bool := match m with Locked _ _ | Checked _ _ => true | _ => false end.

(** *** Dispatching *)

(** [dispatch] counts, pushes and notifies. *)
Definition dispatch_count (p : TaskPriority) (r : Runnable) s : Dispatcher :=
  mkDispatcher (background s) (main s) (timers s) (next_sequence s) (increment (inflight s)) (main_thread s) (dispatching s ++ [(p, r)]) (popped s) (running s) (notices s) (now s) (workers s).
Definition dispatch_push (i : nat) (p : TaskPriority) (r : Runnable) s : Dispatcher :=
  mkDispatcher (queue_push p r (background s)) (main s) (timers s) (next_sequence s) (inflight s) (main_thread s) (delete i (dispatching s)) (popped s) (running s) (S (notices s)) (now s) (workers s).
Definition idle_notify s : Dispatcher :=
  mkDispatcher (background s) (main s) (timers s) (next_sequence s) (inflight s) (wake (main_thread s)) (dispatching s) (popped s) (running s) (pred (notices s)) (now s) (workers s).

(** [dispatch_on_main_thread], before it notifies. *)
Definition dispatch_on_main_thread (r : Runnable) s : Dispatcher := add_notice (set_main (main s ++ [r]) s).

(** [dispatch_after], before it notifies; the number wraps. *)
Definition dispatch_after (d : N) (r : Runnable) s : Dispatcher :=
  mkDispatcher (background s) (main s) (timers s ++ [mkTimer (now s + d) (next_sequence s) r]) ((next_sequence s + 1) mod 2 ^ 64)%N (inflight s)
    (main_thread s) (dispatching s) (popped s) (running s) (S (notices s)) (now s) (workers s).

(** Counting, before it notifies; dropping the entries. *)
Definition cancel_pending_timers s : Dispatcher * nat :=
  (mkDispatcher (background s) (main s) [] (next_sequence s) (inflight s) (main_thread s) (dispatching s) (popped s) (running s) (notices s) (now s) (workers s),
   length (timers s)).

(** *** The workers *)

Definition worker_take (r : Runnable) (q : BackgroundQueue) s : Dispatcher :=
  mkDispatcher q (main s) (timers s) (next_sequence s) (inflight s) (main_thread s) (dispatching s) (popped s) (running s ++ [r]) (notices s) (now s) (workers s).

(** The guard of a task that has run is dropped: it counts down and notifies under the lock. *)
Definition worker_done (i : nat) s : outcome Dispatcher :=
  (let! n := decrement (inflight s) in
  Ok (mkDispatcher (background s) (main s) (timers s) (next_sequence s) n (wake (main_thread s)) (dispatching s) (popped s) (delete i (running s)) (notices s) (now s) (workers s)))%rust.

(** A task that panics: unwinding drops the guard, and the thread ends. *)
Definition worker_panicked (i : nat) s : outcome Dispatcher :=
  (let! s := worker_done i s in
  Ok (mkDispatcher (background s) (main s) (timers s) (next_sequence s) (inflight s) (main_thread s) (dispatching s) (popped s) (running s) (notices s) (now s)
        (workers s - 1)))%rust.

(** *** The timer thread *)

Definition timer_take (e : TimerEntry) (h : list TimerEntry) s : Dispatcher :=
  mkDispatcher (background s) (main s) h (next_sequence s) (inflight s) (main_thread s) (dispatching s) (Some (timer_runnable e)) (running s) (notices s) (now s) (workers s).
Definition timer_count (r : Runnable) s : Dispatcher :=
  mkDispatcher (background s) (main s) (timers s) (next_sequence s) (increment (inflight s)) (main_thread s) (dispatching s ++ [(MediumPriority, r)]) None (running s) (notices s) (now s) (workers s).

(** *** The main thread *)

Definition run_one_main_task s : Dispatcher * bool :=
  match main s with [] => (s, false) | _ :: q => (set_main q s, true) end.

Definition next_timer_deadline s : option N := due <$> heap_peek (timers s).
Definition has_due_timer s : bool := match next_timer_deadline s with Some d => (d <=? now s)%N | None => false end.

(** One round of a loop, to the lock of the count; with a timer that is due [run_until_idle]
    waits for a millisecond at most, and starts again. *)
Definition main_round (idle : bool) s : Dispatcher :=
  let (s, ran) := run_one_main_task s in
  if ran then s
  else if idle && has_due_timer s then s
  else set_main_thread (Locked idle (if idle then None else next_timer_deadline s)) s.

Definition main_check (idle : bool) (deadline : option N) s : Dispatcher :=
  match main s with [] => set_main_thread (Checked idle deadline) s | _ :: _ => set_main_thread (Looping idle) s end.

(** It returns, if it waits for idleness and nothing is in flight, or waits. *)
Definition main_wait (idle : bool) (deadline : option N) s : Dispatcher :=
  if idle && (inflight s =? 0) then set_main_thread Outside s else set_main_thread (Waiting idle deadline) s.

(** The tasks that were queued when it began; a task that is run leaves the queue. *)
Fixpoint run_ready (n : nat) s (ran_any : bool) : Dispatcher * bool :=
  match n with
  | 0 => (s, ran_any)
  | S n => let (s, ran) := run_one_main_task s in if ran then run_ready n s true else (s, ran_any)
  end.
Definition run_ready_main_tasks s : Dispatcher * bool := run_ready (length (main s)) s false.

(** ** Interleavings *)

(** Steps that carry on with background work that is in flight. *)
Inductive work_step s : Dispatcher -> Prop :=
  | step_push i p r : dispatching s !! i = Some (p, r) -> work_step s (dispatch_push i p r s)
  | step_take r q : length (running s) < workers s -> queue_pop (background s) = Some (r, q) -> work_step s (worker_take r q s)
  | step_done i r s' : running s !! i = Some r -> holds_count (main_thread s) = false -> worker_done i s = Ok s' -> work_step s s'
  | step_panicked i r s' : running s !! i = Some r -> holds_count (main_thread s) = false -> worker_panicked i s = Ok s' -> work_step s s'.

Inductive dispatcher_step s : Dispatcher -> Prop :=
  | step_work s' : work_step s s' -> dispatcher_step s s'
  | step_count p r : holds_count (main_thread s) = false -> dispatcher_step s (dispatch_count p r s)
  | step_notify : 0 < notices s -> dispatcher_step s (idle_notify s)
  | step_main r : dispatcher_step s (dispatch_on_main_thread r s)
  | step_after d r : dispatcher_step s (dispatch_after d r s)
  | step_cancel : dispatcher_step s (fst (cancel_pending_timers s))
  | step_timer_take e h : popped s = None -> heap_pop (timers s) = Some (e, h) -> (due e <= now s)%N -> dispatcher_step s (timer_take e h s)
  | step_timer_count r : popped s = Some r -> holds_count (main_thread s) = false -> dispatcher_step s (timer_count r s)
  | step_call idle : main_thread s = Outside -> dispatcher_step s (set_main_thread (Looping idle) s)
  | step_ready : main_thread s = Looping false -> dispatcher_step s (set_main_thread Outside s)
  | step_ready_locked d : main_thread s = Locked false d -> dispatcher_step s (set_main_thread (Looping false) s)
  | step_round idle : main_thread s = Looping idle -> dispatcher_step s (main_round idle s)
  | step_check idle d : main_thread s = Locked idle d -> dispatcher_step s (main_check idle d s)
  | step_wait idle d : main_thread s = Checked idle d -> dispatcher_step s (main_wait idle d s)
  | step_timeout idle d : main_thread s = Waiting idle (Some d) -> (d <= now s)%N -> dispatcher_step s (set_main_thread (Looping idle) s)
  | step_main_panicked idle r q : main_thread s = Looping idle -> main s = r :: q -> dispatcher_step s (set_main_thread Outside (set_main q s))
  | step_ready_panicked d : main_thread s = Locked false d -> dispatcher_step s (set_main_thread Outside s)
  | step_ready_tasks : main_thread s = Outside -> dispatcher_step s (fst (run_ready_main_tasks s))
  | step_ready_task_panicked n : main_thread s = Outside -> n <= length (main s) -> dispatcher_step s (fst (run_ready n s false))
  | step_time t : dispatcher_step s (mkDispatcher (background s) (main s) (timers s) (next_sequence s) (inflight s) (main_thread s) (dispatching s) (popped s) (running s) (notices s) (now s + t)%N (workers s)).

(** ** What is in flight *)

Record accounted s : Prop := mkAccounted {
  acc_inflight : inflight s = length (dispatching s) + queue_len (background s) + length (running s);
  acc_waiting : forall d, main_thread s = Waiting true d -> 0 < inflight s;
  acc_workers : length (running s) <= workers s;
}.

(** The steps of background work that are left. *)
Definition work_left s : nat := 3 * length (dispatching s) + 2 * queue_len (background s) + length (running s).

Lemma queue_push_len p r q : queue_len (queue_push p r q) = S (queue_len q).
Proof. unfold queue_len. destruct p; cbn; rewrite length_app; cbn; lia. Qed.

Lemma queue_pop_len q r q' : queue_pop q = Some (r, q') -> queue_len q = S (queue_len q').
Proof. unfold queue_len, queue_pop. destruct (high q), (normal q), (low q); intros [= <- <-]; cbn; lia. Qed.

Lemma queue_pop_some q : 0 < queue_len q -> exists r q', queue_pop q = Some (r, q').
Proof. unfold queue_len, queue_pop. destruct (high q), (normal q), (low q); cbn; [lia|..]; eauto. Qed.

Lemma delete_len {A} (l : list A) i x : l !! i = Some x -> length l = S (length (delete i l)).
Proof. intros Hx. pose proof (lookup_lt_Some _ _ _ Hx). rewrite length_delete by by eexists. lia. Qed.

(** A task is taken before those of lower priority, and the tasks of one in turn. *)
Lemma queue_pop_order q r q' :
  queue_pop q = Some (r, q') ->
  (high q = r :: high q' /\ normal q' = normal q /\ low q' = low q) \/
  (high q = [] /\ high q' = [] /\ normal q = r :: normal q' /\ low q' = low q) \/
  (high q = [] /\ normal q = [] /\ high q' = [] /\ normal q' = [] /\ low q = r :: low q').
Proof. unfold queue_pop. destruct (high q), (normal q), (low q); intros [= <- <-]; cbn; auto 10. Qed.

(** ** Timers *)

Lemma timer_cmp_not_lt a b : timer_cmp a b <> Lt <-> (due a < due b)%N \/ (due a = due b /\ (sequence a <= sequence b)%N).
Proof.
  unfold timer_cmp. destruct (N.compare_spec (due b) (due a)) as [E|E|E]; [destruct (N.compare_spec (sequence b) (sequence a))|..];
    split; intros X; try lia; done.
Qed.

(** The entry that is popped is the first due, and of those the one dispatched first. *)
Lemma heap_pop_first h e h' :
  heap_pop h = Some (e, h') -> e :: h' ≡ₚ h /\ Forall (fun x => timer_cmp e x <> Lt) h'.
Proof.
  revert e h'. induction h as [|x h IH]; intros e h'; [done|]. cbn. destruct (heap_pop h) as [[m h1]|] eqn:Eh; cycle 1.
  { intros [= <- <-]. destruct h as [|y h]; [by split|]. cbn in Eh. destruct (heap_pop h) as [[? ?]|]; [|done]. by destruct (timer_cmp _ _). }
  destruct (IH m h1 eq_refl) as [Hp Hf]. destruct (timer_cmp x m) eqn:Ec; intros [= <- <-].
  1,3: split; [by rewrite Hp|]; constructor; [by rewrite Ec|]; eapply Forall_impl; [exact Hf|]; intros y; rewrite !timer_cmp_not_lt;
    assert (Hx : timer_cmp x m <> Lt) by (by rewrite Ec); rewrite timer_cmp_not_lt in Hx; lia.
  split; [by rewrite Permutation_swap, Hp|]. constructor; [|done]. rewrite timer_cmp_not_lt.
  assert (Hx : ~ timer_cmp x m <> Lt) by (rewrite Ec; auto). rewrite timer_cmp_not_lt in Hx. lia.
Qed.

(** ** The invariant *)

Lemma wake_not_waiting m idle d : wake m <> Waiting idle d.
Proof. by destruct m. Qed.

Lemma worker_done_ok i r s s' : accounted s -> running s !! i = Some r -> worker_done i s = Ok s' ->
  inflight s' = inflight s - 1 /\ running s' = delete i (running s) /\ background s' = background s /\ dispatching s' = dispatching s /\
  main_thread s' = wake (main_thread s) /\ workers s' = workers s /\ notices s' = notices s /\ main s' = main s.
Proof. intros [Hi _ _] Hr. unfold worker_done, decrement. destruct (inflight s) as [|n] eqn:E; [done|]. intros [= <-]. cbn. split_and!; try done. lia. Qed.

Lemma work_ok s s' :
  accounted s -> work_step s s' ->
  accounted s' /\ work_left s' < work_left s /\ (main_thread s' = main_thread s \/ main_thread s' = wake (main_thread s)).
Proof.
  intros Ha Hs. pose proof Ha as [Hi Hw Hk]. destruct Hs as [i p r Hd|r q Hl Hq|i r s' Hr Hh Hs|i r s' Hr Hh Hs].
  - pose proof (delete_len _ _ _ Hd) as El. split; [constructor; cbn|split; [unfold work_left; cbn|by left]]; rewrite ?queue_push_len; [lia|exact Hw|lia|lia].
  - pose proof (queue_pop_len _ _ _ Hq) as El.
    split; [constructor; cbn|split; [unfold work_left; cbn|by left]]; rewrite ?length_app; cbn; [lia|exact Hw|lia|lia].
  - pose proof (delete_len _ _ _ Hr) as El. destruct (worker_done_ok i r s s' Ha Hr Hs) as (E1 & E2 & E3 & E4 & E5 & E6 & _).
    split; [constructor|split; [unfold work_left|by right]]; rewrite ?E1, ?E2, ?E3, ?E4, ?E5, ?E6; [lia|intros d Hd; by apply wake_not_waiting in Hd|lia|lia].
  - pose proof (delete_len _ _ _ Hr) as El. unfold worker_panicked in Hs. destruct (worker_done i s) as [s1| |] eqn:Hs1; [|done..]. injection Hs as <-.
    destruct (worker_done_ok i r s s1 Ha Hr Hs1) as (E1 & E2 & E3 & E4 & E5 & E6 & _).
    split; [constructor|split; [unfold work_left|by right]]; cbn; rewrite ?E1, ?E2, ?E3, ?E4, ?E5, ?E6; [lia|intros d Hd; by apply wake_not_waiting in Hd|lia|lia].
Qed.

Lemma round_ok idle s : accounted s -> main_thread s = Looping idle -> accounted (main_round idle s).
Proof.
  intros [Hi Hw Hk] Hm. unfold main_round, run_one_main_task. destruct (main s); [|by constructor; cbn; [|by rewrite Hm|]].
  destruct (_ && _); [by constructor|]. by constructor.
Qed.

Lemma run_ready_ok n s b : accounted s -> accounted (fst (run_ready n s b)).
Proof.
  revert s b. induction n as [|n IH]; intros s b Hs; [done|]. cbn [run_ready]. unfold run_one_main_task.
  destruct (main s); [done|]. apply IH. destruct Hs. by constructor.
Qed.

Lemma dispatcher_step_ok s s' : accounted s -> dispatcher_step s s' -> accounted s'.
Proof.
  intros Hs Hst. pose proof Hs as [Hi Hw Hk].
  destruct Hst as [s' Hs'|p r Hh| |r|d r| |e h _ _ _|r _ Hh|idle Hm|Hm|d Hm|idle Hm|idle d Hm|idle d Hm|idle d Hm _|idle r q Hm _|d Hm|Hm|n Hm _|t].
  - by apply (work_ok s).
  - constructor; cbn; [rewrite length_app; cbn; unfold increment; lia| |done]. unfold increment. lia.
  - constructor; cbn; [done| |done]. intros d Hd. by apply wake_not_waiting in Hd.
  - by constructor.
  - by constructor.
  - by constructor.
  - by constructor.
  - constructor; cbn; [rewrite length_app; cbn; unfold increment; lia| |done]. unfold increment. lia.
  - by constructor.
  - by constructor.
  - by constructor.
  - by apply round_ok.
  - unfold main_check. destruct (main s); by constructor.
  - unfold main_wait. destruct (idle && (inflight s =? 0)) eqn:E; constructor; cbn; try done.
    intros d' [= -> _]. cbn in E. apply Nat.eqb_neq in E. lia.
  - by constructor.
  - by constructor.
  - by constructor.
  - by apply run_ready_ok.
  - by apply run_ready_ok.
  - by constructor.
Qed.

Lemma reachable_ok n s : rtc dispatcher_step (dispatcher_new n) s -> accounted s.
Proof.
  assert (Hn : accounted (dispatcher_new n)) by (constructor; cbn; [done|done|lia]). revert Hn. generalize (dispatcher_new n). intros s0 Hn Hs.
  induction Hs as [|s1 s2 s3 Hs _ IH]; [done|]. by apply IH, (dispatcher_step_ok s1).
Qed.

(** *** Notifications *)

(** What is queued, with a notification that follows. *)
Inductive announces s : Dispatcher -> Prop :=
  | announce_push i p r : dispatching s !! i = Some (p, r) -> announces s (dispatch_push i p r s)
  | announce_main r : announces s (dispatch_on_main_thread r s)
  | announce_after d r : announces s (dispatch_after d r s).

Lemma announces_notice s s' : announces s s' -> 0 < notices s' /\ main_thread s' = main_thread s.
Proof. intros []; cbn; split; lia || done. Qed.

(** A notification that is to come comes while the main thread waits. *)
Lemma step_notices idle d s s' : accounted s ->
  main_thread s = Waiting idle d -> main_thread s' = Waiting idle d -> dispatcher_step s s' -> notices s <= notices s'.
Proof.
  intros Ha Hm Hm' Hs. destruct Hs as [s' Hs'|p r Hh| |r|d' r| |e h _ _ _|r _ Hh|idle' E|E|d' E|idle' E|idle' d' E|idle' d' E|idle' d' E _|idle' r q E _|d' E|E|n E _|t];
    try congruence; cbn; try lia.
  - destruct Hs' as [i p r Hd|r q Hl Hq|i r s' Hr Hh Hs|i r s' Hr Hh Hs]; cbn; try lia.
    + destruct (worker_done_ok i r s s' Ha Hr Hs) as (_ & _ & _ & _ & E & _). by rewrite E, Hm in Hm'.
    + unfold worker_panicked in Hs. destruct (worker_done i s) as [s1| |] eqn:Hs1; [|done..]. injection Hs as <-.
      destruct (worker_done_ok i r s s1 Ha Hr Hs1) as (_ & _ & _ & _ & E & _). cbn in Hm'. by rewrite E, Hm in Hm'.
  - cbn in Hm'. by rewrite Hm in Hm'.
Qed.

Lemma announced_wakes s s1 s2 idle d : accounted s -> main_thread s = Waiting idle d -> announces s s1 ->
  rtc (fun a b => dispatcher_step a b /\ main_thread b = Waiting idle d) s1 s2 ->
  dispatcher_step s2 (idle_notify s2) /\ main_thread (idle_notify s2) = Looping idle.
Proof.
  intros Ha Hm Hn Hr. destruct (announces_notice s s1 Hn) as [Hp Hm1]. rewrite Hm in Hm1.
  assert (Ha1 : accounted s1).
  { destruct Hn as [i p r Hd|r|d' r]; apply (dispatcher_step_ok s); try done; [apply step_work; by apply step_push|apply step_main|apply step_after]. }
  assert (H2 : 0 < notices s2 /\ main_thread s2 = Waiting idle d).
  { clear Hn Hm. induction Hr as [|a b c [Hs Hb] _ IH]; [done|]. apply IH; [|done|by apply (dispatcher_step_ok a)].
    pose proof (step_notices idle d a b Ha1 Hm1 Hb Hs). lia. }
  destruct H2 as [H2 E]. split; [by apply step_notify|]. cbn. by rewrite E.
Qed.

(** Background work goes on, and ends a wait for idleness. *)
Lemma waiting_progress s d : accounted s -> main_thread s = Waiting true d ->
  0 < work_left s /\ (0 < workers s -> exists s', work_step s s') /\
  forall s', work_step s s' -> work_left s' < work_left s /\
    main_thread s' = (if length (running s') <? length (running s) then Looping true else Waiting true d).
Proof.
  intros Ha Hm. pose proof Ha as [Hi Hw _]. specialize (Hw d Hm). split_and!.
  - unfold work_left. lia.
  - intros Hc. destruct (dispatching s) as [|[p r] l] eqn:Ed; [|eexists; eapply (step_push s 0 p r); by rewrite Ed].
    destruct (running s) as [|r l] eqn:Er.
    + destruct (queue_pop_some (background s)) as (r & q & Hq); [cbn in Hi; lia|]. eexists. eapply (step_take s r q); [by rewrite Er|done].
    + destruct (worker_done 0 s) as [s'| |] eqn:E; [exists s'; eapply (step_done s 0 r); [by rewrite Er|by rewrite Hm|done]|..];
        unfold worker_done, decrement in E; destruct (inflight s); [lia|done|lia|done].
  - intros s' Hs'. destruct (work_ok s s' Ha Hs') as (_ & Hl & _). split; [exact Hl|].
    destruct Hs' as [i p r Hd|r q _ Hq|i r s' Hr Hh Hs|i r s' Hr Hh Hs].
    + rewrite (proj2 (Nat.ltb_ge _ _)); [exact Hm|done].
    + rewrite (proj2 (Nat.ltb_ge _ _)); [exact Hm|]. cbn. rewrite length_app. lia.
    + pose proof (delete_len _ _ _ Hr) as El. destruct (worker_done_ok i r s s' Ha Hr Hs) as (_ & E2 & _ & _ & E5 & _).
      rewrite E2, E5, Hm, (proj2 (Nat.ltb_lt _ _)); [done|lia].
    + pose proof (delete_len _ _ _ Hr) as El. unfold worker_panicked in Hs. destruct (worker_done i s) as [s1| |] eqn:Hs1; [|done..]. injection Hs as <-.
      destruct (worker_done_ok i r s s1 Ha Hr Hs1) as (_ & E2 & _ & _ & E5 & _).
      rewrite (proj2 (Nat.ltb_lt _ _)); [cbn; by rewrite E5, Hm|cbn; rewrite E2; lia].
Qed.

(** C34: however the threads interleave, and whichever tasks panic, the count is that of the
    tasks that are dispatched, queued or run, so that it never falls below zero, and when
    [run_until_idle] finds it zero there are none.  While that waits there is work in flight;
    as long as a worker is left, that work can always go on, each of its steps leaves less to
    do, and when a task is done, or panics, the wait ends.  And whatever is queued while the
    main thread waits, for a worker, a timer or the main thread itself, has a notification
    to come until the wait has ended, and that notification ends it. *)
Theorem run_until_idle_correct n s :
  rtc dispatcher_step (dispatcher_new n) s ->
  inflight s = length (dispatching s) + queue_len (background s) + length (running s) /\
  (forall i r, running s !! i = Some r -> exists s', worker_done i s = Ok s') /\
  (forall d, main_thread s = Checked true d -> main_thread (main_wait true d s) = Outside ->
     dispatching s = [] /\ queue_len (background s) = 0 /\ running s = []) /\
  (forall d, main_thread s = Waiting true d ->
     0 < work_left s /\ (0 < workers s -> exists s', work_step s s') /\
     forall s', work_step s s' -> work_left s' < work_left s /\
       main_thread s' = (if length (running s') <? length (running s) then Looping true else Waiting true d)) /\
  (forall idle d s1 s2, main_thread s = Waiting idle d -> announces s s1 ->
     rtc (fun a b => dispatcher_step a b /\ main_thread b = Waiting idle d) s1 s2 ->
     dispatcher_step s2 (idle_notify s2) /\ main_thread (idle_notify s2) = Looping idle).
Proof.
  intros Hs. pose proof (reachable_ok n s Hs) as Ha. split_and!; [apply Ha|..].
  - intros i r Hr. pose proof (delete_len _ _ _ Hr). destruct Ha as [Hi _ _]. unfold worker_done, decrement. destruct (inflight s) as [|k]; [lia|]. by eexists.
  - intros d _. unfold main_wait. cbn [andb]. destruct (Nat.eqb_spec (inflight s) 0) as [E|]; [|done]. intros _. destruct Ha as [Hi _ _].
    split; [|split]; [apply length_zero_iff_nil| |apply length_zero_iff_nil]; lia.
  - intros d Hm. by apply waiting_progress.
  - intros idle d s1 s2 Hm Hn Hr. by apply (announced_wakes s s1 s2 idle d).
Qed.

(** ** A wakeup that is lost *)

(** [run_until] waits with a task in its queue, and nothing in the dispatcher is under way. *)
Definition asleep (q : list Runnable) s : Prop :=
  main s = q /\ q <> [] /\ main_thread s = Waiting false None /\ notices s = 0 /\ inflight s = 0 /\ dispatching s = [] /\ running s = [] /\
  queue_len (background s) = 0 /\ timers s = [] /\ popped s = None.

(** Then nothing happens until a thread dispatches more. *)
Lemma asleep_stays q s s' :
  asleep q s -> dispatcher_step s s' ->
  asleep q s' \/ (exists p r, s' = dispatch_count p r s) \/ (exists r, s' = dispatch_on_main_thread r s) \/ exists d r, s' = dispatch_after d r s.
Proof.
  intros (Hq & Hne & Hm & Hn & Hi & Hd & Hr & Hb & Ht & Hp) Hs.
  destruct Hs as [s' Hs'|p r Hh|Hn'|r|d r| |e h _ Hh _|r Hp' Hh|idle Hm'|Hm'|d Hm'|idle Hm'|idle d Hm'|idle d Hm'|idle d Hm' _|idle r q' Hm' _|d Hm'|Hm'|n Hm' _|t];
    try congruence; try lia; eauto 6.
  - exfalso. destruct Hs' as [i p r Hd'|r q' _ Hq'|i r s' Hr' _ _|i r s' Hr' _ _].
    + by rewrite Hd in Hd'.
    + apply queue_pop_len in Hq'. lia.
    + by rewrite Hr in Hr'.
    + by rewrite Hr in Hr'.
  - left. done.
  - by rewrite Ht in Hh.
  - left. done.
Qed.
End Dispatcher.

(** ** Tests and witness *)

Module TestDispatcher.

Abbreviation TD := (Dispatcher (Runnable := nat)).
Abbreviation dstep := (dispatcher_step (Runnable := nat)).
Abbreviation new2 := (dispatcher_new 2 : TD).

Definition with_main_thread (m : MainThread) : TD := set_main_thread m new2.

Lemma looping idle : rtc dstep new2 (with_main_thread (Looping idle)).
Proof. apply rtc_once. by apply step_call. Qed.

Lemma locked idle : rtc dstep new2 (with_main_thread (Locked idle None)).
Proof. eapply rtc_r; [apply (looping idle)|]. replace (with_main_thread (Locked idle None)) with (main_round idle (with_main_thread (Looping idle))) by (by destruct idle). by apply step_round. Qed.

Lemma checked idle : rtc dstep new2 (with_main_thread (Checked idle None)).
Proof. eapply rtc_r; [apply (locked idle)|]. by apply (step_check (with_main_thread (Locked idle None)) idle None). Qed.

(** A task is queued for the main thread after it looked and before it waits: the notification
    finds nobody waiting, and the task is not run. *)
Definition slept : TD := main_wait false None (idle_notify (dispatch_on_main_thread 7 (with_main_thread (Checked false None)))).

Example wakeup_lost : rtc dstep new2 slept /\ asleep [7] slept.
Proof.
  split; [|by vm_compute].
  eapply rtc_r; [eapply rtc_r; [eapply rtc_r; [apply (checked false)|]|]|].
  - apply (step_main _ 7).
  - apply step_notify. vm_compute. lia.
  - by apply (step_wait _ false None).
Qed.

(** A timer that was due is in the hands of its thread, counted nowhere, when
    [run_until_idle] returns. *)
Definition due_timer : TD := dispatch_after 0 7 new2.
Definition timer_taken : TD := timer_take (mkTimer 0 0 7) [] due_timer.
Definition returned : TD := main_wait true None (main_check true None (main_round true (set_main_thread (Looping true) timer_taken))).

Example due_timer_not_awaited : rtc dstep new2 returned /\ main_thread returned = Outside /\ popped returned = Some 7.
Proof.
  split; [|by vm_compute].
  eapply rtc_r; [eapply rtc_r; [eapply rtc_r; [eapply rtc_r; [eapply rtc_r; [eapply rtc_r; [apply rtc_refl|]|]|]|]|]|].
  - apply (step_after _ 0 7).
  - apply (step_timer_take due_timer (mkTimer 0 0 7) []); [done|done|vm_compute; discriminate].
  - by apply (step_call timer_taken true).
  - by apply step_round.
  - by apply (step_check _ true None).
  - by apply (step_wait _ true None).
Qed.

(** The first due is popped first, and of those due at once the one dispatched first. *)
Example timers_in_order :
  (timer_runnable ∘ fst) <$> heap_pop (timers (dispatch_after 5 2 (dispatch_after 5 1 (dispatch_after 9 0 new2)))) = Some 1.
Proof. by vm_compute. Qed.

(** A task that is counted while the main thread waits for it. *)
Definition waiting : TD := main_wait true None (set_main_thread (Checked true None) (dispatch_count HighPriority 7 new2)).

Lemma waiting_reached : rtc dstep new2 waiting.
Proof.
  eapply rtc_r; [eapply rtc_r; [eapply rtc_r; [eapply rtc_r; [eapply rtc_r; [apply rtc_refl|]|]|]|]|].
  - by apply (step_count _ HighPriority 7).
  - by apply (step_call _ true).
  - by apply step_round.
  - by apply (step_check _ true None).
  - by apply (step_wait _ true None).
Qed.

(** A task that panics ends a worker; with none left the next task is never taken, and
    [run_until_idle] waits for it for ever. *)
Definition lone : TD := dispatcher_new 1.
Definition panicked : outcome TD := worker_panicked 0 (worker_take 7 (mkQueue [] [] []) (dispatch_push 0 LowPriority 7 (dispatch_count LowPriority 7 lone))).
Definition stuck_at (s : TD) : TD := main_wait true None (set_main_thread (Checked true None) (idle_notify (dispatch_push 0 LowPriority 8 (dispatch_count LowPriority 8 (idle_notify s))))).

Example no_worker_left :
  exists s, panicked = Ok s /\ rtc dstep lone s /\ workers s = 0 /\
    main_thread (stuck_at s) = Waiting true None /\ queue_len (background (stuck_at s)) = 1 /\ forall s', ~ work_step (stuck_at s) s'.
Proof.
  destruct panicked as [s| |] eqn:E; [|vm_compute in E; done..]. exists s. split; [done|]. split_and!.
  - eapply rtc_r; [eapply rtc_r; [eapply rtc_r; [eapply rtc_r; [apply rtc_refl|]|]|]|].
    + by apply (step_count _ LowPriority 7).
    + apply step_work. by apply (step_push _ 0 LowPriority 7).
    + apply step_work. apply (step_take _ 7 (mkQueue [] [] [])); [vm_compute; lia|done].
    + apply step_work. by eapply (step_panicked _ 0 7).
  - vm_compute in E. by injection E as <-.
  - vm_compute in E. by injection E as <-.
  - vm_compute in E. by injection E as <-.
  - vm_compute in E. injection E as <-. intros s' Hs. inversion Hs as [i p r Hd|r q Hl _|i r s1 Hr|i r s1 Hr]; cbn in *; try lia; done.
Qed.

Lemma run_until_idle_correct_witness :
  inflight waiting = 1 /\ (exists s', work_step waiting s') /\ main_thread (idle_notify (dispatch_on_main_thread 9 waiting)) = Looping true.
Proof.
  destruct (run_until_idle_correct 2 waiting waiting_reached) as (Hi & _ & _ & Hw & Hn).
  split; [exact Hi|]. split; [apply (Hw None); [reflexivity|vm_compute; lia]|].
  apply (Hn true None (dispatch_on_main_thread 9 waiting) (dispatch_on_main_thread 9 waiting)); [reflexivity|constructor|constructor].
Defined.

End TestDispatcher.
