(* ===== verification/ViewCache.v ===== *)
(** * ViewCache: cached views over frames

    Views that are cached keep what they left in a frame, and leave the same in the next one
    without being rendered, unless they are dirty; in any number of frames, in any order, and
    with other elements drawn between them. *)

From Stdlib Require Import NArith ZArith.
From S2P Require Import Geometry Scene.
From stdpp Require Import base list option numbers gmap.
From S2P Require Import Prelude Sorting EntityMap LineLayout LineCache TabStop DispatchReuse DispatchFrame Geometry Frame FrameParts FrameStates FrameReuse Drawable.

#[local] Set Warnings "-register-all,-clear-no-such-hyp".

Section Views.
Context {Tree Reused Scn Tabs Text TextIndex Cx Layout : Type}.
Context `{FrameTreeLaws Tree Reused} `{FrameScene Scn} `{FrameTabs Tabs} `{FrameTextLaws Text TextIndex} `{FrameApp Cx Tracked} `{FrameLayout Layout LayoutId}.
Context {StateKey ElementState : Type} `{!EqDecision StateKey, !Countable StateKey}.
Context {AnyElement WinView MouseListener InputHandler Tooltip ElementId TextStyle CursorStyle : Type}.

Abbreviation Win := (Window (Tree := Tree) (Scn := Scn) (Tabs := Tabs) (Text := Text) (TextIndex := TextIndex) (Cx := Cx) (Layout := Layout) (StateKey := StateKey)
  (ElementState := ElementState) (Element := AnyElement) (View := WinView) (MouseListener := MouseListener) (InputHandler := InputHandler) (Tooltip := Tooltip)
  (ElementId := ElementId) (TextStyle := TextStyle) (CursorStyle := CursorStyle)).
Abbreviation Range := (PrepaintStateIndex (TextIndex := TextIndex) * PrepaintStateIndex (TextIndex := TextIndex))%type.
Abbreviation Contents := (Content (TextIndex := TextIndex) (StateKey := StateKey) (Element := AnyElement) (Tooltip := Tooltip) (ElementId := ElementId)
  (TextStyle := TextStyle)).

(** The parameters of views. *)
Context {AvailableSpace FocusHandle ComputedTextStyle Style : Type} `{!EqDecision ComputedTextStyle}.
Context `{!ElementObject (Tree := Tree) (Scn := Scn) (Tabs := Tabs) (Text := Text) (TextIndex := TextIndex) (Cx := Cx) (Layout := Layout)
  (LayoutId := LayoutId) (StateKey := StateKey) (ElementState := ElementState) (AnyElement := AnyElement) (WinView := WinView) (MouseListener := MouseListener)
  (InputHandler := InputHandler) (Tooltip := Tooltip) (ElementId := ElementId) (TextStyle := TextStyle) (CursorStyle := CursorStyle)
  (AvailableSpace := AvailableSpace) AnyElement}.
Context `{!FocusHandles (Cx := Cx) FocusHandle} `{!TextStyles (TextStyle := TextStyle) ComputedTextStyle}.
Context `{!ViewLayout (Tree := Tree) (Scn := Scn) (Tabs := Tabs) (Text := Text) (TextIndex := TextIndex) (Cx := Cx) (Layout := Layout)
  (LayoutId := LayoutId) (StateKey := StateKey) (ElementState := ElementState) (AnyElement := AnyElement) (WinView := WinView) (MouseListener := MouseListener)
  (InputHandler := InputHandler) (Tooltip := Tooltip) (ElementId := ElementId) (TextStyle := TextStyle) (CursorStyle := CursorStyle)
  (AvailableSpace := AvailableSpace) Style}.
Abbreviation ViewState := (AnyViewState (TextIndex := TextIndex) (Tracked := Tracked) (ComputedTextStyle := ComputedTextStyle)).
Context `{!ViewKeys (TextIndex := TextIndex) (Tracked := Tracked) (StateKey := StateKey) (ElementState := ElementState) (ElementId := ElementId)
  (ComputedTextStyle := ComputedTextStyle)}.
Abbreviation View := (AnyView (Tree := Tree) (Scn := Scn) (Tabs := Tabs) (Text := Text) (TextIndex := TextIndex) (Cx := Cx) (Layout := Layout)
  (StateKey := StateKey) (ElementState := ElementState) (AnyElement := AnyElement) (WinView := WinView) (MouseListener := MouseListener) (InputHandler := InputHandler)
  (Tooltip := Tooltip) (ElementId := ElementId) (TextStyle := TextStyle) (CursorStyle := CursorStyle) (Style := Style)).

(** The identifiers of the elements around the views. *)
Context (stack : list ElementId).

Definition state_key (id : EntityId) : StateKey := view_state_key (stack ++ [view_element_id id]).

Context (state_key_inj : Inj (=) (=) state_key) (unbox_box : forall s, unbox_state (box_state s) = Some s).

Implicit Types (w : Win) (s : ViewState) (c : Contents) (r : Range).

Abbreviation next_states w := (element_states (next_frame w)).
Abbreviation shown_states w := (element_states (rendered_frame w)).
Abbreviation accessed w := (accessed_element_states (next_frame w)).
Abbreviation tree w := (dispatch_tree (next_frame w)).

(** ** Drawing *)

(** The effect of drawing anything: the next frame grows, and the frame shown keeps the
    ranges [spare] and the views of the place their states. *)
Record drawn (spare : Range -> Prop) w w' : Prop := mkDrawn {
  dr_grows : grows w w';
  dr_place : place w' = place w;
  dr_mode : mode w' = mode w;
  dr_shown r c : spare r -> laid (rendered_frame w) r c -> laid (rendered_frame w') r c;
  dr_tree : tree_ok (dispatch_tree (rendered_frame w)) -> tree_ok (dispatch_tree (rendered_frame w'));
  dr_next_states id : next_states w' !! state_key id = next_states w !! state_key id;
  dr_shown_states id : shown_states w' !! state_key id = shown_states w !! state_key id;
  dr_accessed id : state_key id ∈ accessed w' -> state_key id ∈ accessed w;
}.

Lemma drawn_refl spare w : tree_ok (tree w) -> drawn spare w w.
Proof using. intros Ht. split; try done. by apply grows_refl. Qed.

Lemma drawn_trans spare w1 w2 w3 : drawn spare w1 w2 -> drawn spare w2 w3 -> drawn spare w1 w3.
Proof using.
  intros A B. split.
  - eapply grows_trans; [apply A|apply B].
  - by rewrite (dr_place _ _ _ B), (dr_place _ _ _ A).
  - by rewrite (dr_mode _ _ _ B), (dr_mode _ _ _ A).
  - intros r c Hs Hr. by apply B, A.
  - intros Ht. by apply B, A.
  - intros id. by rewrite (dr_next_states _ _ _ B), (dr_next_states _ _ _ A).
  - intros id. by rewrite (dr_shown_states _ _ _ B), (dr_shown_states _ _ _ A).
  - intros id Hin. by apply A, B.
Qed.

Lemma drawn_weaken (spare spare' : Range -> Prop) w w' : (forall r, spare' r -> spare r) -> drawn spare w w' -> drawn spare' w w'.
Proof using. intros Hs []. split; auto. Qed.

Lemma drawn_set_cx spare w w' x : drawn spare w w' -> drawn spare w (set_cx x w').
Proof using. intros [[] ]. split; [by split|done..]. Qed.

Lemma drawn_set_refreshing spare w w' b : drawn spare (set_refreshing b w) w' -> drawn spare w (set_refreshing (refreshing w) w').
Proof using. intros [[] ? Hm]. split; try done. unfold mode in *. cbn in *. by injection Hm as -> _. Qed.

(** The text of a range that has been recorded. *)
Definition recorded r w : Prop :=
  exists t t', prepaint_line_index r.1 = (text_layout_index t).2 /\ text_grown (text_layout_index t).1 t' /\
    prepaint_line_index r.2 = (text_layout_index t').2 /\ text_grown (text_layout_index t').1 (text_system w).

Lemma recorded_grows r w w' : recorded r w -> text_grown (text_system w) (text_system w') -> recorded r w'.
Proof using. intros (t & t' & H1' & H2' & H3' & H4') Hg. exists t, t'. split_and!; try done. by eapply text_grown_trans. Qed.

(** The range around code that adds a content. *)
Lemma recorded_range w w' c : tree_ok (tree w) -> tree_ok (tree w') -> added (prepaint_index w).1 w' c ->
  let r := ((prepaint_index w).2, (prepaint_index w').2) in
  laid (next_frame (prepaint_index w').1) r c /\ recorded r (prepaint_index w').1 /\ grows w (prepaint_index w').1.
Proof using.
  intros Ht Ht' Ha r. split; [by apply laid_recorded|]. split.
  - unfold r. pose proof (prepaint_index_ok w) as Hi. pose proof (prepaint_index_ok w') as Hj.
    destruct (prepaint_index w) as [w1 i], (prepaint_index w') as [w2 j]. cbn [fst snd] in *.
    destruct Hi as (-> & _ & _ & _ & _ & _ & Ei), Hj as (-> & _ & _ & _ & _ & _ & Ej).
    exists (text_system w), (text_system w'). cbn [fst snd]. rewrite Ei, Ej. split_and!; try done; [apply Ha|apply text_grown_refl].
  - eapply grows_trans; [by apply prepaint_index_grows|]. eapply grows_trans; [by eapply added_grows|by apply prepaint_index_grows].
Qed.

Lemma index_drawn spare w : tree_ok (tree w) -> drawn spare w (prepaint_index w).1.
Proof using.
  intros Ht. pose proof (prepaint_index_grows w Ht) as Hg. pose proof (prepaint_index_ok w) as Hi. destruct (prepaint_index w) as [w' i].
  destruct Hi as (-> & _). by split.
Qed.

(** ** One frame *)

(** The place that the views are drawn in, and a view's bounds there; and whether the frame
    refreshes everything. *)
Section Frame.
Context (mask : ContentMask) (style : ComputedTextStyle) (offset : Point) (bounds_of : EntityId -> Bounds) (fresh : bool).

(** ** What a view does to its state *)

Definition key_of (id : EntityId) : ViewCacheKey (ComputedTextStyle := ComputedTextStyle) := mkViewKey (bounds_of id) mask style.

(** Inside the view [id]. *)
Definition inside (id : EntityId) w : Prop :=
  content_mask w = mask /\ text_style w = style /\ element_id_stack w = stack ++ [view_element_id id].

Lemma inside_place id w w' : place w' = place w -> inside id w -> inside id w'.
Proof using. unfold place, inside, content_mask, text_style. by intros [= -> -> -> -> _ _]. Qed.

(** No state of a view of this place is asked for. *)
Definition keys_free c : Prop := forall id, state_key id ∉ c_keys c.

(** The state that a view is left with, and the content that it stands for. *)
Record core (spare : Range -> Prop) (id : EntityId) w w' s c : Prop := mkCore {
  co_drawn : drawn spare w w';
  co_laid : laid (next_frame w') (prepaint_range s) c;
  co_recorded : recorded (prepaint_range s) w';
  co_key : cache_key s = key_of id;
  co_start : tooltips_index (prepaint_range s).1 = length (tooltip_requests (next_frame w));
  co_free : keys_free c;
}.

Lemma reuse_drawn r c w w' : added w w' c -> left_shown r w w' -> place w' = place w -> mode w' = mode w ->
  next_states w' = next_states w -> keys_free c -> drawn (apart r) w w'.
Proof using.
  intros Ha Hl Hp Hm Hs Hf. split; try done.
  - by eapply added_grows.
  - intros r' c' Hap Hr. by eapply laid_left.
  - intros _. apply Hl.
  - intros id. by rewrite Hs.
  - intros id. by rewrite (ls_states _ _ _ Hl).
  - intros id. rewrite (ad_keys _ _ _ Ha), elem_of_app. intros [?|Hin]; [done|]. by apply Hf in Hin.
Qed.

Lemma reuse_view_ok id s c w :
  laid (rendered_frame w) (prepaint_range s) c -> text_range (text_system w) (prepaint_line_index (prepaint_range s).1) (prepaint_line_index (prepaint_range s).2) ->
  tree_ok (tree w) -> tree_ok (dispatch_tree (rendered_frame w)) -> cache_key s = key_of id -> keys_free c ->
  exists w' s', reuse_view s w = Ok (w', (None, box_state s')) /\ core (apart (prepaint_range s)) id w w' s' c.
Proof using.
  intros Hr Hx Ht Ht' Hk Hf. unfold reuse_view.
  pose proof (index_drawn (apart (prepaint_range s)) w Ht) as Hd. pose proof (prepaint_index_ok w) as Hi.
  pose proof (fun w' Ht' => recorded_range w w' c Ht Ht') as Hrec. destruct (prepaint_index w) as [w1 i]. cbn [fst snd] in *.
  destruct Hi as (Ew1 & _ & Ei & _).
  destruct (reuse_prepaint_ok (prepaint_range s) c w1) as (w2 & E & Ha & Hl & Hp & Hm & Hs); [by subst w1|exact (text_range_grown _ _ _ _ Hx (gw_text _ _ (dr_grows _ _ _ Hd)))|by subst w1|by subst w1|].
  rewrite E. cbn [obind]. set (w3 := set_cx _ w2).
  assert (Ha3 : added w1 w3 c) by (destruct Ha; by split). assert (Ht3 : tree_ok (tree w3)) by apply (tree_grown_ok _ _ (ad_tree _ _ _ Ha)).
  specialize (Hrec w3 Ht3 Ha3) as (Hlaid & Hrd & _). pose proof (index_drawn (apart (prepaint_range s)) w3 Ht3) as Hd3.
  destruct (prepaint_index w3) as [w4 j]. cbn [fst snd] in *. eexists _, _. split; [reflexivity|].
  assert (Hd2 : drawn (apart (prepaint_range s)) w1 w3) by (apply drawn_set_cx; by eapply reuse_drawn).
  split; try done. eapply drawn_trans; [exact Hd|]. by eapply drawn_trans.
Qed.

(** What a view renders. *)
Definition view_code (v : View) w : outcome (Win * AnyElement) :=
  let! (w, e) := render v w in
  let! (w, (e, _)) := object_layout_as_root e (space_of (size (bounds_of (entity v)))) w in
  let! (w, (e, _)) := any_prepaint_at e (origin (bounds_of (entity v))) w in
  Ok (w, e).

(** It is drawn without the states of the views of this place. *)
Definition renders (v : View) : Prop :=
  forall w, tree_ok (tree w) -> tree_ok (dispatch_tree (rendered_frame w)) -> inside (entity v) w ->
    exists w' e c, view_code v w = Ok (w', e) /\ added w w' c /\ drawn (fun _ => True) w w' /\ keys_free c.

Lemma render_view_ok v w : renders v ->
  tree_ok (tree w) -> tree_ok (dispatch_tree (rendered_frame w)) -> inside (entity v) w ->
  exists w' e s' c, render_view v (bounds_of (entity v)) w = Ok (w', (Some e, box_state s')) /\ core (fun _ => True) (entity v) w w' s' c.
Proof using.
  intros Hv Ht Ht' Hin. unfold render_view. set (w0 := set_refreshing true w).
  pose proof (index_drawn (fun _ => True) w0 Ht) as Hd. pose proof (prepaint_index_ok w0) as Hi.
  pose proof (fun w' c Ht' => recorded_range w0 w' c Ht Ht') as Hrec. destruct (prepaint_index w0) as [w1 i]. cbn [fst snd] in *.
  destruct Hi as (Ew1 & _ & Ei & _).
  destruct (Hv w1) as (w2 & e & c & E & Ha & Hd2 & Hf); [by subst w1|by subst w1|by subst w1|].
  unfold detect_accessed_entities. unfold view_code in E. rewrite E. cbn [obind].
  assert (Ht2 : tree_ok (tree w2)) by apply (tree_grown_ok _ _ (ad_tree _ _ _ Ha)).
  specialize (Hrec w2 c Ht2 Ha) as (Hlaid & Hrd & _). pose proof (index_drawn (fun _ => True) w2 Ht2) as Hd3.
  destruct (prepaint_index w2) as [w4 j]. cbn [fst snd] in *. eexists _, e, _, c. split; [reflexivity|].
  destruct Hin as (Emask & Estyle & _). split; cbn; try done; [|by rewrite Emask, Estyle].
  eapply drawn_set_refreshing, drawn_trans; [by eapply drawn_trans|done].
Qed.

(** ** Frames *)

Definition placed w : Prop := content_mask w = mask /\ text_style w = style /\ element_id_stack w = stack /\ element_offset w = offset.

Lemma placed_place w w' : place w' = place w -> placed w -> placed w'.
Proof using. unfold place, placed, content_mask, text_style, element_offset. by intros [= -> -> -> -> -> _]. Qed.

Abbreviation Kept := (gmap EntityId (ViewState * Contents)).

Definition kept_state (m : Kept) (id : EntityId) : option (option ElementState) := (fun e => Some (box_state e.1)) <$> m !! id.

(** A frame that is being drawn: the views that have been drawn in the last frame and not yet
    in this one, and those drawn in this one. *)
Record frame_inv (pend done : Kept) w : Prop := mkFrameInv {
  fi_disjoint id : pend !! id = None \/ done !! id = None;
  fi_tree : tree_ok (tree w);
  fi_shown_tree : tree_ok (dispatch_tree (rendered_frame w));
  fi_placed : placed w;
  fi_refreshing : refreshing w = fresh;
  fi_next id : next_states w !! state_key id = kept_state done id;
  fi_shown id : shown_states w !! state_key id = kept_state pend id;
  fi_accessed id : state_key id ∈ accessed w <-> is_Some (done !! id);
  fi_pend id s c : pend !! id = Some (s, c) -> laid (rendered_frame w) (prepaint_range s) c /\
    text_range (text_system w) (prepaint_line_index (prepaint_range s).1) (prepaint_line_index (prepaint_range s).2) /\ keys_free c;
  fi_done id s c : done !! id = Some (s, c) -> laid (next_frame w) (prepaint_range s) c /\ recorded (prepaint_range s) w /\
    cache_key s = key_of id /\ keys_free c;
  fi_pend_apart id id' s s' c c' : id <> id' -> pend !! id = Some (s, c) -> pend !! id' = Some (s', c') ->
    apart (prepaint_range s) (prepaint_range s');
  fi_done_apart id id' s s' c c' : id <> id' -> done !! id = Some (s, c) -> done !! id' = Some (s', c') ->
    apart (prepaint_range s) (prepaint_range s');
}.

(** Other elements. *)
Definition other (code : Win -> outcome Win) : Prop :=
  forall w, tree_ok (tree w) -> tree_ok (dispatch_tree (rendered_frame w)) -> placed w ->
    exists w', code w = Ok w' /\ drawn (fun _ => True) w w'.

Lemma drawn_inv pend done w w' : frame_inv pend done w -> drawn (fun _ => True) w w' -> frame_inv pend done w'.
Proof using.
  intros [] [Hg Hp Hm Hs Ht Hn Hss Ha]. split; try done.
  - apply (tree_grown_ok _ _ (gw_tree _ _ Hg)).
  - by apply Ht.
  - by eapply placed_place.
  - by injection Hm as _ ->.
  - intros id. by rewrite Hn.
  - intros id. by rewrite Hss.
  - intros id. rewrite <- fi_accessed0. split; [apply Ha|]. intros Hin. destruct (gw_keys _ _ Hg) as [k ->]. apply elem_of_app. by left.
  - intros id s c Hid. destruct (fi_pend0 id s c Hid) as (? & ? & ?). split_and!; [by apply Hs| |done].
    eapply text_range_grown; [done|apply Hg].
  - intros id s c Hid. destruct (fi_done0 id s c Hid) as (? & ? & ? & ?). split_and!; [by eapply laid_grows| |done|done].
    eapply recorded_grows; [done|apply Hg].
Qed.

(** *** A view *)

Definition draw_view (v : View) (layout : LayoutId) w : outcome Win :=
  let! (w, _) := prepaint (AvailableSpace := AvailableSpace) (mkDrawable v (RequestLayout layout (Some (element_id_stack w ++ [view_element_id (entity v)])) None)) w in Ok w.

(** The layout gives the view its bounds. *)
Definition lays_out (layout : LayoutId) (id : EntityId) : Prop :=
  forall w, placed w -> (layout_bounds layout (push_element_id (Some (view_element_id id)) w)).2 = bounds_of id.

(** The window inside the view: the node is open, the stacks are the view's, its key is
    accessed and its state taken out. *)
Definition entered (v : View) (l : Layout) (t : Tree) w : Win :=
  access_key (state_key (entity v))
    (set_rendered_entity_stack (rendered_entity_stack w ++ [entity v])
      (map_next (set_dispatch_tree t) (set_layout_engine l (push_element_id (Some (view_element_id (entity v))) w)))).

Definition taken (v : View) w : Win :=
  map_rendered (fun n => set_element_states (delete (state_key (entity v)) (element_states n)) n) w.

(** The window when the view is left. *)
Definition leave (v : View) s (t : Tree) w : Win :=
  let w := put_state (state_key (entity v)) (box_state s) w in
  let w := map_next (set_dispatch_tree t) (set_rendered_entity_stack (removelast (rendered_entity_stack w)) w) in
  set_element_id_stack (removelast (element_id_stack w)) w.

(** What is done inside. *)
Definition view_inner (v : View) (o : option ViewState) (b : Bounds) w : outcome (Win * (option AnyElement * ElementState)) :=
  match o with
  | Some s => if can_reuse (entity v) s b w then reuse_view s w else render_view v b w
  | None => render_view v b w
  end.

Lemma draw_view_step v layout w o e s t w' t' :
  placed w -> lays_out layout (entity v) -> tree_open (tree w) (Some (entity v)) None = Ok t ->
  next_states w !! state_key (entity v) = None ->
  shown_states w !! state_key (entity v) = (fun s => Some (box_state s)) <$> o ->
  let w1 := entered v (layout_bounds layout (push_element_id (Some (view_element_id (entity v))) w)).1.(layout_engine) t w in
  view_inner v o (bounds_of (entity v)) (match o with Some _ => taken v w1 | None => w1 end) = Ok (w', (e, box_state s)) ->
  tree_pop_node (tree w') = Ok t' ->
  draw_view v layout w = Ok (leave v s t' w').
Proof using unbox_box.
  intros (Em & Es & Ek & Eo) Hl Ht Hn Hsh. specialize (Hl w ltac:(done)).
  unfold draw_view, prepaint, prepaint_laid_out. cbn [phase element any_view_ops element_id element_prepaint].
  unfold layout_bounds in *. set (wp := push_element_id _ w) in *. destruct (engine_bounds (layout_engine wp) layout) as [l b0]. cbn [fst snd] in *.
  set (b := mkBounds _ _) in *. intros Hin Hpop. change (layout_engine (set_layout_engine l wp)) with l in Hin. set (w1 := entered v l t w) in *.
  unfold tree_open in Ht. change (tree (set_layout_engine l wp)) with (tree w). destruct (tree_push_node (tree w)) as [t0 id0].
  destruct (tree_set_view_id t0 (entity v)) as [t1| |] eqn:Ev; cbn [obind] in Ht; [|done..]. injection Ht as ->.
  unfold view_prepaint, set_view_id. change (tree (map_next (set_dispatch_tree t0) (set_layout_engine l wp))) with t0. rewrite Ev.
  cbn [obind unwrap]. unfold with_rendered_view, with_element_state. rewrite Ek.
  match goal with |- context [take_state ?k ?x] => change (take_state k x) with (take_state (state_key (entity v)) w1) end.
  assert (Hts : take_state (state_key (entity v)) w1 =
    (match o with Some _ => taken v w1 | None => w1 end, (fun s => Some (box_state s)) <$> o)).
  { unfold take_state. change (next_states w1) with (next_states w). change (shown_states w1) with (shown_states w). rewrite Hn, Hsh. by destruct o. }
  rewrite Hts, <- Hl in *. destruct o as [s0|]; cbn [fmap option_fmap option_map unwrap obind view_inner] in *.
  - rewrite unbox_box. cbn [unwrap obind]. rewrite Hin. cbn [obind].
    match goal with |- context [tree_pop_node ?x] => change x with (tree w') end. rewrite Hpop. reflexivity.
  - rewrite Hin. cbn [obind].
    match goal with |- context [tree_pop_node ?x] => change x with (tree w') end. rewrite Hpop. reflexivity.
Qed.

(** The ranges that the last drawing of the view does not overlap. *)
Definition spared (pend : Kept) (id : EntityId) r : Prop := forall s c, pend !! id = Some (s, c) -> apart (prepaint_range s) r.

Lemma core_weaken (spare spare' : Range -> Prop) id w w' s c : (forall r, spare' r -> spare r) -> core spare id w w' s c -> core spare' id w w' s c.
Proof using. intros Hs [Hd]. split; try done. by eapply drawn_weaken. Qed.

Lemma can_reuse_spec id s w : inside id w -> refreshing w = fresh ->
  can_reuse id s (bounds_of id) w = true <-> cache_key s = key_of id /\ id ∉ dirty_views w /\ fresh = false.
Proof using.
  intros (Hm & Hs & _) Hr. unfold can_reuse, key_of. rewrite Hr, Hm, Hs, !andb_true_iff, !negb_true_iff, !bool_decide_eq_true, bool_decide_eq_false.
  destruct (cache_key s) as [b m t]. cbn. split; [by intros [[[[-> ->] ->] ?] ?]|]. intros ([= -> -> ->] & ? & ?). done.
Qed.

Lemma view_inner_ok v pend w : renders v ->
  tree_ok (tree w) -> tree_ok (dispatch_tree (rendered_frame w)) -> inside (entity v) w -> refreshing w = fresh ->
  (forall s c, pend !! entity v = Some (s, c) -> laid (rendered_frame w) (prepaint_range s) c /\
    text_range (text_system w) (prepaint_line_index (prepaint_range s).1) (prepaint_line_index (prepaint_range s).2) /\ keys_free c) ->
  exists w' e s c, view_inner v (fst <$> pend !! entity v) (bounds_of (entity v)) w = Ok (w', (e, box_state s)) /\
    core (spared pend (entity v)) (entity v) w w' s c /\
    (entity v ∉ dirty_views w -> fresh = false -> forall s0 c0, pend !! entity v = Some (s0, c0) -> cache_key s0 = key_of (entity v) -> c = c0).
Proof using.
  intros Hv Ht Ht' Hin Href Hp.
  assert (Hmiss : exists w' e s c, render_view v (bounds_of (entity v)) w = Ok (w', (e, box_state s)) /\ core (spared pend (entity v)) (entity v) w w' s c).
  { destruct (render_view_ok v w Hv Ht Ht' Hin) as (w' & e & s & c & E & Hc). exists w', (Some e), s, c. split; [done|]. eapply core_weaken; [|exact Hc]. done. }
  destruct (pend !! entity v) as [[s0 c0]|] eqn:Epend; cbn [fmap option_fmap option_map fst view_inner].
  - destruct (Hp s0 c0 eq_refl) as (Hr & Hx & Hf). pose proof (can_reuse_spec (entity v) s0 w Hin Href) as Hcan.
    destruct (can_reuse _ s0 _ w).
    + destruct (proj1 Hcan eq_refl) as (Hk & _ & _).
      destruct (reuse_view_ok (entity v) s0 c0 w Hr Hx Ht Ht' Hk Hf) as (w' & s & E & Hc). exists w', None, s, c0. split; [done|].
      split; [|by intros _ _ ? ? [= _ ->]]. eapply core_weaken; [|exact Hc]. intros r Hs. by eapply Hs.
    + destruct Hmiss as (w' & e & s & c & E & Hc). exists w', e, s, c. split; [done|]. split; [done|].
      intros Hd Hfresh ? ? [= <- <-] Hk. by discriminate (proj2 Hcan (conj Hk (conj Hd Hfresh))).
  - destruct Hmiss as (w' & e & s & c & E & Hc). by exists w', e, s, c.
Qed.

(** The window inside a view and after it. *)
Section Leave.
Context (pend done : Kept) (v : View) (l : Layout) (t t' : Tree) (w w5 w6 : Win) (s : ViewState) (c : Contents).
Context (Hi : frame_inv pend done w) (Hdone : done !! entity v = None).
Context (E5 : w5 = match pend !! entity v with Some _ => taken v (entered v l t w) | None => entered v l t w end).
Context (Hc : core (spared pend (entity v)) (entity v) w5 w6 s c).
Context (Hg' : tree_grown (tree w) t') (Hr' : forall lo hi, tree_range (tree w6) lo hi -> tree_range t' lo hi) (Hlen' : tree_len t' = tree_len (tree w6)).

Let w7 : Win := leave v s t' w6.

Lemma left_grows : grows w w7.
Proof using Hi E5 Hc Hg'.
  pose proof (dr_grows _ _ _ (co_drawn _ _ _ _ _ _ Hc)) as Hg.
  assert (Hw : grows w5 w6 -> hitboxes (next_frame w) `prefix_of` hitboxes (next_frame w6) /\
    tooltip_requests (next_frame w) `prefix_of` tooltip_requests (next_frame w6) /\
    accessed w ++ [state_key (entity v)] `prefix_of` accessed w6 /\ deferred_draws (next_frame w) `prefix_of` deferred_draws (next_frame w6) /\
    text_grown (text_system w) (text_system w6)).
  { rewrite E5. destruct (pend !! entity v); by intros []. }
  destruct (Hw Hg) as (? & ? & ? & ? & ?). split; try done. change (accessed w7) with (accessed w6). etransitivity; [|done]. by eexists.
Qed.

Lemma left_accessed id : state_key id ∈ accessed w7 <-> state_key id ∈ accessed w \/ id = entity v.
Proof using state_key_inj E5 Hc.
  change (accessed w7) with (accessed w6).
  assert (Ha : accessed w5 = accessed w ++ [state_key (entity v)]) by (rewrite E5; by destruct (pend !! entity v)).
  assert (Hin : state_key id ∈ accessed w5 <-> state_key id ∈ accessed w \/ id = entity v).
  { rewrite Ha, elem_of_app, list_elem_of_singleton. split; (intros [?|E]; [by left|right]); [by apply state_key_inj|by rewrite E]. }
  rewrite <- Hin. split; [apply Hc|]. destruct (gw_keys _ _ (dr_grows _ _ _ (co_drawn _ _ _ _ _ _ Hc))) as [k ->]. intros ?. apply elem_of_app. by left.
Qed.

Lemma left_next id : next_states w7 !! state_key id = kept_state (<[entity v := (s, c)]> done) id.
Proof using state_key_inj Hi E5 Hc.
  change (next_states w7) with (<[state_key (entity v) := Some (box_state s)]> (next_states w6)). unfold kept_state.
  destruct (decide (id = entity v)) as [->|Hne]; [by rewrite !lookup_insert_eq|].
  rewrite !lookup_insert_ne by (try done; intros E%state_key_inj; by apply Hne). rewrite (dr_next_states _ _ _ (co_drawn _ _ _ _ _ _ Hc)).
  assert (E : next_states w5 = next_states w) by (rewrite E5; by destruct (pend !! entity v)). rewrite E. apply (fi_next _ _ _ Hi).
Qed.

Lemma left_shown_states id : shown_states w7 !! state_key id = kept_state (delete (entity v) pend) id.
Proof using state_key_inj Hi E5 Hc.
  change (shown_states w7) with (shown_states w6). rewrite (dr_shown_states _ _ _ (co_drawn _ _ _ _ _ _ Hc)).
  pose proof (fi_shown _ _ _ Hi) as Hs. unfold kept_state in *. rewrite E5. destruct (pend !! entity v) as [e|] eqn:Ep.
  - change (shown_states (taken v (entered v l t w))) with (delete (state_key (entity v)) (shown_states w)).
    destruct (decide (id = entity v)) as [->|Hne]; [by rewrite !lookup_delete_eq|].
    rewrite !lookup_delete_ne by (try done; intros E%state_key_inj; by apply Hne). apply Hs.
  - change (shown_states (entered v l t w)) with (shown_states w). rewrite Hs. by rewrite delete_id.
Qed.

Lemma left_placed : placed w7 /\ refreshing w7 = fresh.
Proof using Hi E5 Hc.
  pose proof (dr_place _ _ _ (co_drawn _ _ _ _ _ _ Hc)) as Hp. pose proof (dr_mode _ _ _ (co_drawn _ _ _ _ _ _ Hc)) as Hm.
  destruct (fi_placed _ _ _ Hi) as (Em & Es & Ek & Eo). pose proof (fi_refreshing _ _ _ Hi) as Hr.
  assert (E : place w6 = (content_mask_stack w, viewport_size w, text_style_stack w, element_id_stack w ++ [view_element_id (entity v)],
    element_offset_stack w, rendered_entity_stack w ++ [entity v]) /\ mode w6 = mode w).
  { rewrite Hp, Hm, E5. by destruct (pend !! entity v). }
  destruct E as [Ep Emode]. unfold place, mode in *. injection Ep as P1 P2 P3 P4 P5 _. injection Emode as _ M2. split; [|by rewrite <- Hr].
  unfold placed, content_mask, text_style, element_offset in *. cbn. rewrite P1, P2, P3, P4, P5, removelast_last. by split_and!.
Qed.

(** The invariant after a view whose inside is done. *)
Lemma left_inv : frame_inv (delete (entity v) pend) (<[entity v := (s, c)]> done) w7.
Proof using state_key_inj Hi Hdone E5 Hc Hg' Hr' Hlen'.
  pose proof left_grows as Hg. destruct left_placed as [Hp Hr]. destruct Hc as [Hd Hl Hrec Hk Hstart Hf].
  assert (Htext : text_grown (text_system w) (text_system w6)) by apply (gw_text _ _ Hg).
  assert (Hlaid : laid (next_frame w7) (prepaint_range s) c) by (destruct Hl; split; try done; cbn; [by apply Hr'|by rewrite Hlen']).
  assert (Hapart : forall id s0 c0, done !! id = Some (s0, c0) -> apart (prepaint_range s0) (prepaint_range s)).
  { intros id s0 c0 Hid. destruct (fi_done _ _ _ Hi _ _ _ Hid) as (Hl0 & _). left. rewrite Hstart.
    destruct (proj1 (slice_range_Some _ _ _ _) (la_tooltips _ _ _ Hl0)) as [? _]. rewrite E5. destruct (pend !! entity v); cbn; lia. }
  split; try done.
  - intros id. destruct (decide (id = entity v)) as [->|Hne]; [left; apply lookup_delete_eq|].
    rewrite lookup_delete_ne, lookup_insert_ne by done. apply Hi.
  - apply (tree_grown_ok _ _ Hg').
  - apply Hd. rewrite E5. destruct (pend !! entity v); apply Hi.
  - apply left_next.
  - apply left_shown_states.
  - intros id. rewrite left_accessed, (fi_accessed _ _ _ Hi). destruct (decide (id = entity v)) as [->|Hne].
    + rewrite lookup_insert_eq. split; [done|by right].
    + rewrite lookup_insert_ne by done. naive_solver.
  - intros id s0 c0. destruct (decide (id = entity v)) as [->|Hne]; [by rewrite lookup_delete_eq|]. rewrite lookup_delete_ne by done. intros Hid.
    destruct (fi_pend _ _ _ Hi _ _ _ Hid) as (Hl0 & Hx & ?). split_and!; [|by eapply text_range_grown|done].
    enough (laid (rendered_frame w6) (prepaint_range s0) c0) by done. apply Hd.
    + intros s1 c1 Hv. by apply (fi_pend_apart _ _ _ Hi (entity v) id s1 s0 c1 c0).
    + rewrite E5. destruct (pend !! entity v); destruct Hl0; by split.
  - intros id s0 c0. destruct (decide (id = entity v)) as [->|Hne]; [rewrite lookup_insert_eq; by intros [= <- <-]|].
    rewrite lookup_insert_ne by done. intros Hid. destruct (fi_done _ _ _ Hi _ _ _ Hid) as (Hl0 & Hx & ? & ?).
    split_and!; [by eapply laid_grows|by eapply recorded_grows|done|done].
  - intros id id' s0 s1 c0 c1 Hne Hid Hid'. apply lookup_delete_Some in Hid as [_ Hid], Hid' as [_ Hid']. by eapply (fi_pend_apart _ _ _ Hi id id').
  - intros id id' s0 s1 c0 c1 Hne Hid Hid'. apply lookup_insert_Some in Hid as [[<- [= <- <-]]|[_ Hid]], Hid' as [[<- [= <- <-]]|[_ Hid']]; try done.
    + destruct (Hapart _ _ _ Hid'); [by right|by left].
    + by eapply Hapart.
    + by eapply (fi_done_apart _ _ _ Hi id id').
Qed.
End Leave.

(** A view that has not been drawn in this frame is drawn, and leaves what it left in the
    last one, unless it is dirty. *)
Lemma draw_view_ok pend done v layout w :
  frame_inv pend done w -> done !! entity v = None -> renders v -> lays_out layout (entity v) ->
  exists w' s c, draw_view v layout w = Ok w' /\ frame_inv (delete (entity v) pend) (<[entity v := (s, c)]> done) w' /\
    mode w' = mode w /\ cache_key s = key_of (entity v) /\
    (entity v ∉ dirty_views w -> fresh = false -> forall s0 c0, pend !! entity v = Some (s0, c0) -> cache_key s0 = key_of (entity v) -> c = c0).
Proof using state_key_inj unbox_box.
  intros Hi Hdone Hv Hl. destruct (tree_open_ok (tree w) (Some (entity v)) None (fi_tree _ _ _ Hi)) as (t & Et & Hop & Ht & _ & _).
  pose proof (fun e s w' t' => draw_view_step v layout w (fst <$> pend !! entity v) e s t w' t' (fi_placed _ _ _ Hi) Hl Et) as Hstep. cbn zeta in Hstep.
  set (l := layout_engine _) in Hstep. set (w5 := match fst <$> pend !! entity v with Some _ => _ | None => _ end) in Hstep.
  assert (E5 : w5 = match pend !! entity v with Some _ => taken v (entered v l t w) | None => entered v l t w end) by (subst w5; by destruct (pend !! entity v)).
  assert (Hw5 : tree w5 = t /\ dispatch_tree (rendered_frame w5) = dispatch_tree (rendered_frame w) /\ text_system w5 = text_system w /\ inside (entity v) w5 /\
    mode w5 = mode w /\ forall r c, laid (rendered_frame w) r c -> laid (rendered_frame w5) r c).
  { destruct (fi_placed _ _ _ Hi) as (Em & Es & Ek & _). rewrite E5. unfold inside. destruct (pend !! entity v); split_and!; try done; try (intros r c []; by split); cbn; by rewrite Ek. }
  destruct Hw5 as (Et5 & Er5 & Ex5 & Hin5 & Hm5 & Hl5).
  destruct (view_inner_ok v pend w5 Hv) as (w6 & e & s & c & Einner & Hcore & Hsame); [by rewrite Et5|rewrite Er5; apply Hi|done| | |].
  { unfold mode in Hm5. injection Hm5 as _ ->. apply Hi. }
  { intros s0 c0 Hp. rewrite Ex5. destruct (fi_pend _ _ _ Hi _ _ _ Hp) as (? & ? & ?). split_and!; try done. by apply Hl5. }
  rewrite <- Et5 in Hop. destruct (tree_close_ok _ _ _ Hop (gw_tree _ _ (dr_grows _ _ _ (co_drawn _ _ _ _ _ _ Hcore)))) as (t' & Epop & Hg' & Hlen' & Hr').
  exists (leave v s t' w6), s, c. split_and!.
  - eapply Hstep; [by rewrite (fi_next _ _ _ Hi); unfold kept_state; rewrite Hdone| |exact Einner|done].
    rewrite (fi_shown _ _ _ Hi). unfold kept_state. by destruct (pend !! entity v) as [[? ?]|].
  - by eapply left_inv.
  - etransitivity; [|exact Hm5]. apply (dr_mode _ _ _ (co_drawn _ _ _ _ _ _ Hcore)).
  - apply Hcore.
  - intros Hd. apply Hsame. unfold mode in Hm5. by injection Hm5 as -> _.
Qed.

(** *** The whole frame *)

Inductive Item :=
  | Other (code : Win -> outcome Win)
  | CachedView (v : View) (layout : LayoutId).

Definition run_item w (it : Item) : outcome Win := match it with Other code => code w | CachedView v layout => draw_view v layout w end.

Definition item_ok (it : Item) : Prop := match it with Other code => other code | CachedView v layout => renders v /\ lays_out layout (entity v) end.

Definition views_of (items : list Item) : list EntityId :=
  omap (fun it => match it with Other _ => None | CachedView v _ => Some (entity v) end) items.

Lemma run_items_ok items : forall pend done w,
  frame_inv pend done w -> NoDup (views_of items) -> (forall id, id ∈ views_of items -> done !! id = None) -> Forall item_ok items ->
  exists w' pend' done', ofold run_item items w = Ok w' /\ frame_inv pend' done' w' /\
    (forall id, is_Some (done' !! id) <-> is_Some (done !! id) \/ id ∈ views_of items) /\
    (forall id e, done !! id = Some e -> done' !! id = Some e) /\
    (forall id s c s0 c0, id ∈ views_of items -> id ∉ dirty_views w -> fresh = false -> pend !! id = Some (s0, c0) -> done' !! id = Some (s, c) ->
       cache_key s0 = cache_key s -> c = c0).
Proof using state_key_inj unbox_box.
  induction items as [|[code|v layout] items IH]; intros pend done w Hi Hnd Hdone Hok; cbn [ofold run_item views_of omap list_omap] in *.
  - exists w, pend, done. split_and!; try done; [|by intros ? ? ? ? ? ?%elem_of_nil]. intros id. split; [by left|]. by intros [?|?%elem_of_nil].
  - apply Forall_cons in Hok as [Hother Hok]. destruct (Hother w) as (w1 & E1 & Hd); [apply Hi..|]. rewrite E1. cbn [obind].
    destruct (IH pend done w1 (drawn_inv _ _ _ _ Hi Hd) Hnd Hdone Hok) as (w' & pend' & done' & E & Hi' & Hdom & Hmono & Hsame).
    exists w', pend', done'. split_and!; try done. intros id s c s0 c0 Hin Hdirty. apply Hsame; [done|].
    pose proof (dr_mode _ _ _ Hd) as Hm. unfold mode in Hm. by injection Hm as -> _.
  - apply Forall_cons in Hok as [[Hv Hl] Hok]. apply NoDup_cons in Hnd as [Hni Hnd]. fold (views_of items) in *.
    destruct (draw_view_ok pend done v layout w Hi) as (w1 & s1 & c1 & E1 & Hi1 & Hm & Hk1 & Hc1); [apply Hdone; by left|done..|].
    rewrite E1. cbn [obind]. destruct (IH _ _ w1 Hi1 Hnd) as (w' & pend' & done' & E & Hi' & Hdom & Hmono & Hsame); [|done|].
    { intros id Hin. rewrite lookup_insert_ne by (by intros <-). apply Hdone. by right. }
    assert (Ev : done' !! entity v = Some (s1, c1)) by (apply Hmono, lookup_insert_eq).
    exists w', pend', done'. split_and!; try done.
    + intros id. rewrite Hdom, elem_of_cons. destruct (decide (id = entity v)) as [->|Hne]; [rewrite lookup_insert_eq; naive_solver|].
      rewrite lookup_insert_ne by done. naive_solver.
    + intros id e Hid. apply Hmono. rewrite lookup_insert_ne; [done|]. intros <-. rewrite Hdone in Hid; [done|by left].
    + intros id s c s0 c0 Hin Hdirty Hfresh Hp Hd Hk. unfold mode in Hm. injection Hm as Hm _. destruct (decide (id = entity v)) as [->|Hne].
      * rewrite Ev in Hd. injection Hd as <- <-. eapply Hc1; [done..|]. by rewrite Hk.
      * apply elem_of_cons in Hin as [?|Hin]; [done|]. eapply (Hsame id s c s0 c0); [done|by rewrite Hm|done| |done|done]. by rewrite lookup_delete_ne.
Qed.

(** The end of a frame, as in [draw]: the frame is shown, and the next one is empty. *)
Definition finish_draw w : Win := end_frame (set_text_system (text_finish_frame (text_system w)) (set_dirty_views ∅ w)).

Lemma finish_draw_ok pend done w : frame_inv pend done w -> frame_inv done ∅ (finish_draw w).
Proof using state_key_inj.
  intros Hi. pose proof (fun id => keep_states_lookup (accessed w) (state_key id) (shown_states w) (next_states w)) as Hl.
  unfold finish_draw, end_frame, frame_finish. cbn [next_frame rendered_frame set_text_system set_dirty_views].
  destruct (foldl keep_state _ _) as [p n] eqn:Ef. cbn [snd] in Hl.
  assert (Hlaid : forall r c, laid (next_frame w) r c -> laid (set_scene (frame_scene_finish (scene (next_frame w))) (set_element_states n (next_frame w))) r c).
  { intros r c []. by split. }
  split; try done; try apply Hi.
  - intros id. right. apply lookup_empty.
  - apply tree_clear_ok.
  - intros id. cbn. rewrite Hl.
    + rewrite (fi_next _ _ _ Hi). unfold kept_state. destruct (done !! id) as [e|] eqn:Ed; [done|]. cbn.
      rewrite bool_decide_eq_false_2; [done|]. rewrite (fi_accessed _ _ _ Hi), Ed. by intros [].
    + rewrite (fi_next _ _ _ Hi), (fi_shown _ _ _ Hi). unfold kept_state. destruct (fi_disjoint _ _ _ Hi id) as [->| ->]; [by right|by left].
  - intros id. rewrite lookup_empty. split; [by intros ?%elem_of_nil|by intros []].
  - intros id s c Hid. destruct (fi_done _ _ _ Hi _ _ _ Hid) as (Hr & (t & t1 & E1 & G1 & E2 & G2) & Hk & Hf).
    split_and!; [by apply Hlaid| |done]. cbn. rewrite E1, E2. by apply text_range_recorded.
Qed.

(** Code that leads from anywhere to the place of the views: it may draw elements around
    them, and sets the stacks. *)
Record enters w w' : Prop := mkEnters {
  en_grows : grows w w';
  en_placed : placed w';
  en_refreshing : refreshing w' = fresh;
  en_dirty : dirty_views w' = dirty_views w;
  en_shown r c : laid (rendered_frame w) r c -> laid (rendered_frame w') r c;
  en_tree : tree_ok (dispatch_tree (rendered_frame w)) -> tree_ok (dispatch_tree (rendered_frame w'));
  en_next_states id : next_states w' !! state_key id = next_states w !! state_key id;
  en_shown_states id : shown_states w' !! state_key id = shown_states w !! state_key id;
  en_accessed id : state_key id ∈ accessed w' -> state_key id ∈ accessed w;
}.
End Frame.

(** From a place to another, between frames. *)
Lemma enters_inv mask style offset bounds_of fresh mask' style' offset' bounds_of' fresh' m w w' :
  frame_inv mask style offset bounds_of fresh m ∅ w -> enters mask' style' offset' fresh' w w' ->
  frame_inv mask' style' offset' bounds_of' fresh' m ∅ w'.
Proof using.
  intros [] [Hg Hp Hr _ Hs Ht Hn Hss Ha]. split; try done.
  - apply (tree_grown_ok _ _ (gw_tree _ _ Hg)).
  - by apply Ht.
  - intros id. by rewrite Hn.
  - intros id. by rewrite Hss.
  - intros id. rewrite lookup_empty. split; [|by intros []]. intros Hin%Ha. apply fi_accessed0 in Hin as [? E]. by rewrite lookup_empty in E.
  - intros id s c Hid. destruct (fi_pend0 id s c Hid) as (? & ? & ?). split_and!; [by apply Hs| |done]. eapply text_range_grown; [done|apply Hg].
Qed.

(** ** Frame after frame *)

(** A frame: where its views are, what leads there, the views that are dirty, and what is
    drawn there. *)
Record FramePlan := mkPlan {
  plan_mask : ContentMask;
  plan_style : ComputedTextStyle;
  plan_offset : Point;
  plan_bounds : EntityId -> Bounds;
  plan_fresh : bool;
  plan_enter : Win -> outcome Win;
  plan_dirty : gset EntityId;
  plan_items : list Item;
}.

Definition run_plan w (p : FramePlan) : outcome Win :=
  let! w := plan_enter p (set_dirty_views (plan_dirty p) w) in
  let! w := ofold run_item (plan_items p) w in
  Ok (finish_draw w).

Definition plan_inv (p : FramePlan) := frame_inv (plan_mask p) (plan_style p) (plan_offset p) (plan_bounds p) (plan_fresh p).

Record plan_ok (p : FramePlan) : Prop := mkPlanOk {
  po_once : NoDup (views_of (plan_items p));
  po_items : Forall (item_ok (plan_mask p) (plan_style p) (plan_offset p) (plan_bounds p)) (plan_items p);
  po_enter w : tree_ok (tree w) -> tree_ok (dispatch_tree (rendered_frame w)) ->
    exists w', plan_enter p w = Ok w' /\ enters (plan_mask p) (plan_style p) (plan_offset p) (plan_fresh p) w w';
}.

Abbreviation Keyed := (ViewCacheKey (ComputedTextStyle := ComputedTextStyle) * Contents)%type.

(** The contents of cached views that the frame shown holds, each in a range of its own, with
    the bounds, the mask and the text style that they were drawn with. *)
Definition shows w (cs : gmap EntityId Keyed) : Prop :=
  exists mask style offset bounds_of fresh m,
    frame_inv mask style offset bounds_of fresh m ∅ w /\ cs = (fun e => (cache_key e.1, e.2)) <$> m.

(** From frame to frame, a view keeps its content that is not dirty and is drawn with the
    bounds, the mask and the text style of before, unless everything is refreshed. *)
Fixpoint replayed (cs : gmap EntityId Keyed) (plans : list FramePlan) (trace : list (gmap EntityId Keyed)) : Prop :=
  match plans, trace with
  | [], [] => True
  | p :: plans, cs' :: trace =>
      dom cs' = list_to_set (C := gset EntityId) (views_of (plan_items p)) /\
      (forall id k c, cs' !! id = Some (k, c) -> k = mkViewKey (plan_bounds p id) (plan_mask p) (plan_style p)) /\
      (forall id k c c', id ∉ plan_dirty p -> plan_fresh p = false -> cs !! id = Some (k, c) -> cs' !! id = Some (k, c') -> c' = c) /\
      replayed cs' plans trace
  | _, _ => False
  end.

Lemma run_plan_ok p w cs : shows w cs -> plan_ok p ->
  exists w' cs', run_plan w p = Ok w' /\ shows w' cs' /\ replayed cs [p] [cs'].
Proof using state_key_inj unbox_box.
  intros (mask & style & offset & bounds_of & fresh & m & Hi & ->) [Hnd Hok Hent]. unfold run_plan.
  assert (Hi0 : frame_inv mask style offset bounds_of fresh m ∅ (set_dirty_views (plan_dirty p) w)) by (destruct Hi; by split).
  destruct (Hent (set_dirty_views (plan_dirty p) w)) as (w1 & -> & He); [apply Hi0..|]. cbn [obind].
  pose proof (enters_inv _ _ _ _ _ _ _ _ (plan_bounds p) _ _ _ _ Hi0 He) as Hi1.
  destruct (run_items_ok _ _ _ _ _ (plan_items p) m ∅ w1 Hi1 Hnd) as (w' & pend & dn & E & Hi' & Hdom & _ & Hsame); [|done|].
  { intros id _. apply lookup_empty. }
  rewrite E. cbn [obind]. exists (finish_draw w'), ((fun e => (cache_key e.1, e.2)) <$> dn). split; [done|]. split.
  { exists (plan_mask p), (plan_style p), (plan_offset p), (plan_bounds p), (plan_fresh p), dn. split; [by eapply finish_draw_ok|done]. }
  split_and!; [| | |done].
  - apply set_eq. intros id. rewrite dom_fmap, elem_of_dom, elem_of_list_to_set, Hdom, lookup_empty. split; [by intros [[]|?]|by right].
  - intros id k c. rewrite lookup_fmap. destruct (dn !! id) as [[s1 c1]|] eqn:E1; [|done]. intros [= <- <-].
    by destruct (fi_done _ _ _ _ _ _ _ _ Hi' _ _ _ E1) as (_ & _ & Hk & _).
  - intros id k c c' Hd Hf. rewrite !lookup_fmap. destruct (m !! id) as [[s0 c0]|] eqn:E0; [|done]. destruct (dn !! id) as [[s1 c1]|] eqn:E1; [|done].
    cbn. intros [= <- <-] [= Hk <-]. eapply (Hsame id s1 c1 s0 c0); [|by rewrite (en_dirty _ _ _ _ _ _ He)|done|done|done|done].
    destruct (proj1 (Hdom id)) as [[? E']|]; [by rewrite E1| |done]. by rewrite lookup_empty in E'.
Qed.

End Views.

(** ** Witness *)

Module TestViews.
Import TestFrame.

(** An element with a hitbox of its bounds; a layout is its own identifier. *)
Record Leaf := mkLeaf { leaf_bounds : Bounds }.

Definition TestElement : Type := Drawable (LayoutId := Bounds) (ElementId := N) (AvailableSpace := Size) (E := Leaf) (RequestLayoutState := unit)
  (PrepaintState := unit).
Definition TestState : Type := AnyViewState (TextIndex := LineLayoutIndex) (Tracked := EntityMap.EntityId) (ComputedTextStyle := unit).
Definition Win : Type :=
  Window (Tree := Tree) (Scn := Primitives) (Tabs := TabStopMap) (Text := Lines) (TextIndex := LineLayoutIndex) (Cx := Entities) (Layout := unit)
    (StateKey := list N) (ElementState := TestState) (Element := TestElement) (View := nat) (MouseListener := nat) (InputHandler := nat) (Tooltip := nat)
    (ElementId := N) (TextStyle := nat) (CursorStyle := nat).

#[local] Instance test_layout : FrameLayout unit Bounds := {| engine_clear l := l; engine_stretch l _ _ := l; engine_bounds l b := (l, b) |}.
#[local] Instance test_handles : FocusHandles (Cx := Entities) N := {| focus_handle_for_id id _ := Some id |}.
#[local] Instance test_styles : TextStyles (TextStyle := nat) unit := {| text_style_default := tt; text_style_refine s _ := s |}.
#[local] Instance test_keys : ViewKeys (TextIndex := LineLayoutIndex) (Tracked := EntityMap.EntityId) (StateKey := list N) (ElementState := TestState)
  (ElementId := N) (ComputedTextStyle := unit) :=
  {| view_element_id id := id; view_state_key ids := ids; box_state s := s; unbox_state s := Some s |}.

#[local] Instance leaf_ops : ElementOps (Tree := Tree) (Scn := Primitives) (Tabs := TabStopMap) (Text := Lines) (TextIndex := LineLayoutIndex) (Cx := Entities)
  (Layout := unit) (LayoutId := Bounds) (StateKey := list N) (ElementState := TestState) (AnyElement := TestElement) (WinView := nat) (MouseListener := nat)
  (InputHandler := nat) (Tooltip := nat) (ElementId := N) (TextStyle := nat) (CursorStyle := nat) Leaf unit unit := {|
  element_id _ := None;
  element_request_layout e _ w := Ok (w, (e, leaf_bounds e, tt));
  element_prepaint e _ b st w := Ok ((insert_hitbox b HitNormal w).1, (e, st, tt));
  element_paint e _ _ st p w := Ok (w, (e, st, p));
|}.

#[local] Instance test_compute : ComputeLayout (Tree := Tree) (Scn := Primitives) (Tabs := TabStopMap) (Text := Lines) (TextIndex := LineLayoutIndex)
  (Cx := Entities) (Layout := unit) (LayoutId := Bounds) (StateKey := list N) (ElementState := TestState) (AnyElement := TestElement) (WinView := nat) (MouseListener := nat)
  (InputHandler := nat) (Tooltip := nat) (ElementId := N) (TextStyle := nat) (CursorStyle := nat) (AvailableSpace := Size) :=
  {| compute_layout _ _ w := Ok w |}.

#[local] Instance test_view_layout : ViewLayout (Tree := Tree) (Scn := Primitives) (Tabs := TabStopMap) (Text := Lines) (TextIndex := LineLayoutIndex)
  (Cx := Entities) (Layout := unit) (LayoutId := Bounds) (StateKey := list N) (ElementState := TestState) (AnyElement := TestElement) (WinView := nat) (MouseListener := nat)
  (InputHandler := nat) (Tooltip := nat) (ElementId := N) (TextStyle := nat) (CursorStyle := nat) (AvailableSpace := Size) unit :=
  {| request_leaf_layout _ w := (w, mkBounds (mkPoint 0 0) (mkSize 0 0)); space_of s := s; is_inspector_picking _ := false |}.

Abbreviation TestView := (AnyView (Tree := Tree) (Scn := Primitives) (Tabs := TabStopMap) (Text := Lines) (TextIndex := LineLayoutIndex) (Cx := Entities)
  (Layout := unit) (StateKey := list N) (ElementState := TestState) (AnyElement := TestElement) (WinView := nat) (MouseListener := nat) (InputHandler := nat)
  (Tooltip := nat) (ElementId := N) (TextStyle := nat) (CursorStyle := nat) (Style := unit)).

Definition empty_window : Win :=
  let f := frame_new test_tree in
  mkWindow f f None 1 0 [] [] [] [] [] (mkSize 100 100) (mkPoint 15 15) hit_test_default None true None None test_lines None true true ∅ ∅ false map_new tt None None None false NotDrawing.

(** A view that renders one such element, of ten pixels. *)
Definition ten (id : EntityId) : Bounds := mkBounds (mkPoint (10 * Z.of_N id) 0) (mkSize 10 10).
Definition test_view (id : EntityId) : TestView := mkAnyView id (fun w => Ok (w, drawable_new (mkLeaf (mkBounds (mkPoint 0 0) (mkSize 10 10))))) (Some tt).

(** What the element leaves: a node with a hitbox. *)
Definition leaf_content (h : Hitbox) : Content (TextIndex := LineLayoutIndex) (StateKey := list N) (Element := TestElement) (Tooltip := nat)
    (ElementId := N) (TextStyle := nat) := mkContent [h] [] [] [] 1.

Lemma leaf_prepaint (w : Win) (b : Bounds) :
  tree_ok (dispatch_tree (next_frame w)) ->
  exists w' e h, prepaint (mkDrawable (mkLeaf b) (LayoutComputed b None (mkSize 10 10) tt)) w = Ok (w', e) /\
    added w w' (leaf_content h) /\ rendered_frame w' = rendered_frame w /\ element_states (next_frame w') = element_states (next_frame w) /\
    place w' = place w /\ mode w' = mode w.
Proof.
  intros Ht. destruct (tree_open_ok (dispatch_tree (next_frame w)) None None Ht) as (t & Et & Hop & Htok & _ & Hlen).
  destruct (tree_close_ok _ _ _ Hop (tree_grown_refl _ Htok)) as (t' & Epop & Hg & Hlen' & _).
  unfold prepaint. cbn [phase element]. unfold prepaint_laid_out. cbn [element_id leaf_ops push_element_id]. unfold layout_bounds. cbn [engine_bounds test_layout].
  match goal with |- context [tree_push_node ?x] => change x with (dispatch_tree (next_frame w)) end.
  unfold tree_open in Et. destruct (tree_push_node (dispatch_tree (next_frame w))) as [t0 id0]. cbn [obind] in Et. injection Et as ->.
  cbn [element_prepaint leaf_ops obind]. match goal with |- context [tree_pop_node ?x] => change x with t end. rewrite Epop. cbn [obind].
  eexists _, _, (mkHitbox (next_hitbox_id w) _ _ HitNormal). split; [reflexivity|]. split_and!; try done. split; cbn [leaf_content c_hitboxes c_tooltips c_keys c_draws c_nodes];
    rewrite ?app_nil_r; try done.
  - exists []. rewrite app_nil_r. split_and!; try done. constructor.
  - etransitivity; [exact Hlen'|]. rewrite Hlen. symmetry. apply Nat.add_1_r.
Qed.

Lemma leaf_drawn (w w' : Win) h : added w w' (leaf_content h) -> rendered_frame w' = rendered_frame w ->
  element_states (next_frame w') = element_states (next_frame w) -> place w' = place w -> mode w' = mode w ->
  drawn [] (fun _ => True) w w'.
Proof.
  intros Ha Hr Hs Hp Hm. split; try done; rewrite ?Hr, ?Hs; try done; [by eapply added_grows|].
  intros id. rewrite (ad_keys _ _ _ Ha). cbn. by rewrite app_nil_r.
Qed.

Definition window_mask : ContentMask := mkMask (mkBounds (mkPoint 0 0) (mkSize 100 100)).
Definition half_mask : ContentMask := mkMask (mkBounds (mkPoint 0 0) (mkSize 50 100)).

Lemma test_view_renders mask id : renders [] mask tt ten (test_view id).
Proof.
  intros w Ht Ht' Hin. unfold view_code. cbn [render test_view obind object_layout_as_root drawable_object drawable_new layout_as_root phase request_layout element
    element_id leaf_ops push_element_id element_request_layout option_map pop_element_id compute_layout test_compute].
  unfold layout_bounds. cbn [engine_bounds test_layout obind]. unfold any_prepaint_at, with_absolute_element_offset, any_prepaint.
  cbn [object_prepaint drawable_object leaf_bounds].
  set (wi := set_element_offset_stack _ _).
  destruct (leaf_prepaint wi (mkBounds (mkPoint 0 0) (mkSize 10 10)) Ht) as (w' & e & h & E & Ha & Hr & Hs & Hp & Hm).
  change (space_of _) with (mkSize 10 10). rewrite E. cbn [obind]. eexists _, e, (leaf_content h). split; [reflexivity|].
  set (wf := set_element_offset_stack _ w'). assert (Haf : added w wf (leaf_content h)) by (destruct Ha; by split).
  split; [done|]. split; [|intros ? ?%elem_of_nil; done]. eapply leaf_drawn; try done.
  unfold place in *. injection Hp as P1 P2 P3 P4 P5 P6. unfold wf. cbn in P5 |- *. by rewrite P1, P2, P3, P4, P5, P6, removelast_last.
Qed.

(** Other elements: a hitbox. *)
Definition backdrop (w : Win) : outcome Win := Ok (insert_hitbox (mkBounds (mkPoint 0 0) (mkSize 50 50)) BlockMouse w).1.

Lemma backdrop_other mask : other [] mask tt (mkPoint 0 0) backdrop.
Proof.
  intros w Ht Ht' _. eexists. split; [reflexivity|]. split; try done. split; first [done|by eexists|by apply tree_grown_refl|apply text_grown_refl].
Qed.

Abbreviation TestItem := (Item (Tree := Tree) (Scn := Primitives) (Tabs := TabStopMap) (Text := Lines) (TextIndex := LineLayoutIndex)
    (Cx := Entities) (Layout := unit) (LayoutId := Bounds) (StateKey := list N) (ElementState := TestState) (AnyElement := TestElement) (WinView := nat)
    (MouseListener := nat) (InputHandler := nat) (Tooltip := nat) (ElementId := N) (TextStyle := nat) (CursorStyle := nat) (Style := unit)).

Definition view_item (id : EntityId) : TestItem :=
  CachedView (test_view id) (ten id).

(** The place of the views: within a mask, at the origin. *)
Definition test_enter (mask : ContentMask) (fresh : bool) (w : Win) : outcome Win :=
  Ok (set_refreshing fresh (set_element_id_stack [] (set_text_style_stack [] (set_element_offset_stack [] (set_content_mask_stack [mask] w))))).

Definition test_plan (mask : ContentMask) (fresh : bool) (dirty : gset EntityId) (items : list TestItem) :=
  mkPlan mask tt (mkPoint 0 0) ten fresh (test_enter mask fresh) dirty items.

(** Five frames: the views 1 and 2, the same in the other order with something between, the
    view 1 again, which is dirty, with the view 2, the same with another mask, and all
    refreshed. *)
Definition test_plans :=
  [test_plan window_mask false ∅ [view_item 1; view_item 2]; test_plan window_mask false ∅ [view_item 2; Other backdrop; view_item 1];
   test_plan window_mask false {[1%N]} [view_item 1; view_item 2]; test_plan half_mask false ∅ [view_item 1; view_item 2];
   test_plan half_mask true ∅ [view_item 1; view_item 2]].

Lemma test_enters mask fresh (w : Win) : tree_ok (dispatch_tree (next_frame w)) ->
  exists w', test_enter mask fresh w = Ok w' /\ enters [] mask tt (mkPoint 0 0) fresh w w'.
Proof.
  intros Ht. eexists. split; [reflexivity|]. split; try done. split; first [done|by apply tree_grown_refl|apply text_grown_refl].
Qed.

Lemma view_item_ok mask id : item_ok [] mask tt (mkPoint 0 0) ten (view_item id).
Proof.
  split; [apply test_view_renders|]. intros w (_ & _ & _ & Eo). change (mkBounds (point_add (origin (ten id)) (element_offset w)) (size (ten id)) = ten id).
  rewrite Eo. unfold ten, point_add. cbn [origin size px py]. f_equal. f_equal. apply Z.add_0_r.
Qed.

Lemma test_plans_ok : Forall (plan_ok []) test_plans.
Proof.
  repeat apply Forall_cons_2; try apply Forall_nil_2; (split; [apply (bool_decide_unpack _); by vm_compute| |intros w Ht _; by apply test_enters]);
    repeat apply Forall_cons_2; try apply Forall_nil_2; first [apply view_item_ok|apply backdrop_other].
Qed.

Lemma empty_shows : shows [] empty_window ∅.
Proof.
  exists window_mask, tt, (mkPoint 0 0), ten, false, ∅. split; [|by rewrite fmap_empty]. split; try done; try (apply DispatchInvariant.tree_new_wf).
  - intros id. by left.
  - intros id. split; [by intros ?%elem_of_nil|by intros [? E]].
Qed.

Lemma test_key_inj : Inj (=) (=) (state_key (TextIndex := LineLayoutIndex) (Tracked := EntityMap.EntityId) (ElementState := TestState)
  (ComputedTextStyle := unit) (StateKey := list N) (ElementId := N) []).
Proof. intros a b E. unfold state_key in E. cbn in E. by injection E. Qed.

(** The identifiers of the hitboxes shown after each frame. *)
Definition shown_hitboxes (plans : list _) : list Z :=
  match ofold run_plan plans empty_window with Ok w => map hitbox_id (hitboxes (rendered_frame w)) | _ => [] end.

Example test_views : map (fun n => shown_hitboxes (take n test_plans)) [1; 2; 3; 4; 5] = [[1; 2]; [2; 3; 1]; [4; 2]; [5; 6]; [7; 8]]%Z.
Proof. by vm_compute. Qed.

Lemma shown_result plans w l : shown_hitboxes plans = l -> ofold run_plan plans empty_window = Ok w -> map hitbox_id (hitboxes (rendered_frame w)) = l.
Proof. unfold shown_hitboxes. intros <- ->. done. Qed.

Lemma test_views_result : shown_hitboxes test_plans = [7; 8]%Z.
Proof. by vm_compute. Qed.

End TestViews.
