(* ===== verification/Arena.v ===== *)
(** * The element arena: [crates/gpui/src/arena.rs]

    Elements of a frame are allocated in chunks by bumping a pointer and are dropped all
    at once.  A box keeps a raw pointer and a shared flag, which the arena clears when it
    is cleared, so that a use after that panics.

    Addresses are natural numbers below 2^64; the flags are a store of cells.  The chunks
    come from the global allocator: a class, with the law that a new block is not null,
    ends within the address space and does not overlap the live ones.  The memory of an
    element is its value: what is read at an address is what was last written there. *)

From Stdlib Require Import NArith ZArith.
From stdpp Require Import base list option numbers sorting.
From S2P Require Import Prelude.

#[local] Set Warnings "-register-all,-clear-no-such-hyp".

#[local] Open Scope N_scope.

Definition usize_limit : N := 2 ^ 64.
Definition isize_max : N := 2 ^ 63 - 1.

(** [usize::checked_add] *)
Definition checked_add (a b : N) : option N := if a + b <? usize_limit then Some (a + b) else None.

(** [pointer::align_offset] of a pointer to bytes. *)
Definition align_offset (addr align : N) : N := (align - addr mod align) mod align.

(** [alloc::Layout]: the alignment is a power of two. *)
Record Layout := mkLayout { size : N; align : N }.

Record Chunk := mkChunk { start : N; end_ : N; offset : N }.

(** [alloc::alloc] next to the live chunks; [None] if it returns null. *)
Class Allocator := alloc_block : list Chunk -> N -> option N.

Class AllocatorLaws `{Allocator} : Prop := {
  block_bounds cs n base : alloc_block cs n = Some base -> 0 < base /\ base + n < usize_limit;
  block_fresh cs n base c : alloc_block cs n = Some base -> c ∈ cs -> base + n <= start c \/ end_ c <= base;
}.

Section Arena.
Context `{Allocator} {Value : Type}.

(** [Chunk::new]: a size over [isize::MAX] and a null block end the program. *)
Definition chunk_new (cs : list Chunk) (chunk_size : N) : outcome Chunk :=
  if isize_max <? chunk_size then Panic
  else match alloc_block cs chunk_size with
       | None => Panic
       | Some start => Ok (mkChunk start (start + chunk_size) start)
       end.

(** [Chunk::allocate]: the chunk and the pointer. *)
Definition allocate (c : Chunk) (layout : Layout) : option (Chunk * N) :=
  match checked_add (offset c) (align_offset (offset c) (align layout)) with
  | None => None
  | Some aligned_addr =>
      match checked_add aligned_addr (size layout) with
      | None => None
      | Some next_addr =>
          if next_addr <=? end_ c then
            if aligned_addr =? 0 then None else Some (mkChunk (start c) (end_ c) next_addr, aligned_addr)
          else None
      end
  end.

Definition reset (c : Chunk) : Chunk := mkChunk (start c) (end_ c) (start c).

(** [ArenaElement], with the layout of its type and its memory. *)
Record ArenaElement := mkArenaElement {
  el_ptr : N;
  el_layout : Layout;
  el_value : Value;
}.

(** [valid] is an index of [cells], which the boxes share. *)
Record Arena := mkArena {
  chunks : list Chunk;
  elements : list ArenaElement;
  valid : nat;
  cells : list bool;
  current_chunk_index : nat;
  chunk_size : N;
  scope_depth : N;
}.

(** [ArenaBox<T>], with the layout of [T]. *)
Record ArenaBox := mkArenaBox {
  ptr : N;
  box_layout : Layout;
  box_valid : nat;
}.

Implicit Types (a : Arena) (b : ArenaBox) (c : Chunk) (e : ArenaElement).

Definition arena_new (chunk_size : N) : outcome Arena :=
  if chunk_size =? 0 then Panic
  else let! c := chunk_new [] chunk_size in Ok (mkArena [c] [] 0 [true] 0 chunk_size 0).

(** [capacity] wraps in release builds. *)
Definition capacity a : N := (N.of_nat (length (chunks a)) * chunk_size a) mod usize_limit.

Definition with_depth a (n : N) : Arena :=
  mkArena (chunks a) (elements a) (valid a) (cells a) (current_chunk_index a) (chunk_size a) n.

Definition begin_scope a : outcome Arena :=
  let! n := unwrap (checked_add (scope_depth a) 1) in Ok (with_depth a n).

Definition end_scope a : outcome Arena :=
  if scope_depth a =? 0 then Panic else Ok (with_depth a (scope_depth a - 1)).

Definition has_active_scope a : bool := 0 <? scope_depth a.

(** The loop of [force_clear]. *)
Fixpoint reset_chunks (cs : list Chunk) (ixs : list nat) : outcome (list Chunk) :=
  match ixs with
  | [] => Ok cs
  | ix :: ixs => let! c := index cs ix in reset_chunks (<[ix := reset c]> cs) ixs
  end.

(** [force_clear]: the arena, and the elements it drops, in order. *)
Definition force_clear a : outcome (Arena * list ArenaElement) :=
  let cells := <[valid a := false]> (cells a) in
  let! cs := reset_chunks (chunks a) (seq 0 (S (current_chunk_index a))) in
  Ok (mkArena cs [] (length cells) (cells ++ [true]) 0 (chunk_size a) (scope_depth a), elements a).

Definition clear a : outcome (Arena * list ArenaElement) :=
  if scope_depth a =? 0 then force_clear a else Ok (a, []).

(** The chunk to allocate in after the current one. *)
Definition next_chunk a : outcome (list Chunk * nat) :=
  let ix := S (current_chunk_index a) in
  if (length (chunks a) <=? ix)%nat then
    let! c := chunk_new (chunks a) (chunk_size a) in
    if (ix =? length (chunks a))%nat then Ok (chunks a ++ [c], ix) else Panic
  else Ok (chunks a, ix).

(** Writing the value and keeping the element. *)
Definition push_element a (cs : list Chunk) (ix : nat) (p : N) (layout : Layout) (v : Value) : Arena * option ArenaBox :=
  (mkArena cs (elements a ++ [mkArenaElement p layout v]) (valid a) (cells a) ix (chunk_size a) (scope_depth a),
   Some (mkArenaBox p layout (valid a))).

(** [alloc] of a value that [f] makes; no box is the panic of a chunk that is too small,
    which leaves the arena as it is then. *)
Definition alloc a (layout : Layout) (v : Value) : outcome (Arena * option ArenaBox) :=
  let! c := index (chunks a) (current_chunk_index a) in
  match allocate c layout with
  | Some (c, p) => Ok (push_element a (<[current_chunk_index a := c]> (chunks a)) (current_chunk_index a) p layout v)
  | None =>
      let! (cs, ix) := next_chunk a in
      let! c := index cs ix in
      match allocate c layout with
      | Some (c, p) => Ok (push_element a (<[ix := c]> cs) ix p layout v)
      | None => Ok (mkArena cs (elements a) (valid a) (cells a) ix (chunk_size a) (scope_depth a), None)
      end
  end.

(** ** Boxes *)

Definition validate a b : outcome unit :=
  match cells a !! box_valid b with Some true => Ok tt | _ => Panic end.

(** The element at the address whose bytes a non-empty value shares. *)
Definition covers (p : N) e : bool := (el_ptr e =? p) && (0 <? size (el_layout e)).

(** Reading a value of a type: the last one written at the address.  An empty type has no
    bytes. *)
Definition load (els : list ArenaElement) (p : N) (layout : Layout) : option Value :=
  if size layout =? 0 then None else option_map el_value (List.find (covers p) (rev els)).

Definition store (els : list ArenaElement) (p : N) (layout : Layout) (v : Value) : list ArenaElement :=
  if size layout =? 0 then els
  else map (fun e => if covers p e then mkArenaElement (el_ptr e) (el_layout e) v else e) els.

(** [Deref] and an assignment through [DerefMut]. *)
Definition deref a b : outcome (option Value) :=
  let! _ := validate a b in Ok (load (elements a) (ptr b) (box_layout b)).

Definition deref_mut a b (v : Value) : outcome Arena :=
  let! _ := validate a b in
  Ok (mkArena (chunks a) (store (elements a) (ptr b) (box_layout b) v) (valid a) (cells a) (current_chunk_index a) (chunk_size a)
        (scope_depth a)).

(** [map] with a function that gives the address and the layout of a part. *)
Definition box_map a b (f : N -> N * Layout) : outcome ArenaBox :=
  let! _ := validate a b in let (p, layout) := f (ptr b) in Ok (mkArenaBox p layout (box_valid b)).

(** ** Alignment *)

Definition align_up (addr al : N) : N := addr + align_offset addr al.

Lemma align_up_spec addr al :
  0 < al -> align_up addr al mod al = 0 /\ addr <= align_up addr al < addr + al.
Proof.
  intros Hal. unfold align_up, align_offset. pose proof (N.mod_lt addr al ltac:(lia)) as Hm.
  pose proof (N.div_mod addr al ltac:(lia)) as Hdiv.
  generalize dependent (addr mod al). generalize (addr / al). intros q m Hdiv Hm.
  destruct (N.eq_dec m 0) as [Hz|Hz].
  - rewrite Hz, N.sub_0_r, N.Div0.mod_same, N.add_0_r. subst. rewrite N.add_0_r, N.mul_comm, N.Div0.mod_mul. split; [done|lia].
  - rewrite (N.mod_small (al - m) al) by lia. split; [|lia].
    assert (E : addr + (al - m) = (q + 1) * al) by lia. rewrite E. apply N.Div0.mod_mul.
Qed.

(** No aligned address is skipped. *)
Lemma align_up_least addr al p : 0 < al -> addr <= p -> p mod al = 0 -> align_up addr al <= p.
Proof.
  intros Hal Hp Hmod. destruct (align_up_spec addr al Hal) as [Hu [Hlo Hhi]].
  destruct (N.le_gt_cases (align_up addr al) p) as [|Hgt]; [done|]. exfalso.
  pose proof (N.div_mod p al ltac:(lia)) as Ep. pose proof (N.div_mod (align_up addr al) al ltac:(lia)) as Eu.
  rewrite Hmod in Ep. rewrite Hu in Eu. assert (p / al < align_up addr al / al) by nia.
  assert (al * (p / al + 1) <= al * (align_up addr al / al)) by (apply N.mul_le_mono_l; lia). lia.
Qed.

(** ** Chunks *)

Record chunk_wf (n : N) c : Prop := mkChunkWf {
  ch_start : 0 < start c;
  ch_offset : start c <= offset c <= end_ c;
  ch_end : end_ c = start c + n;
  ch_limit : end_ c < usize_limit;
}.

Lemma allocate_spec n c layout :
  chunk_wf n c -> 0 < align layout ->
  allocate c layout =
  let p := align_up (offset c) (align layout) in
  if p + size layout <=? end_ c then Some (mkChunk (start c) (end_ c) (p + size layout), p) else None.
Proof.
  intros [Hs Ho He Hl] Hal. unfold allocate, checked_add. fold (align_up (offset c) (align layout)).
  destruct (align_up_spec (offset c) (align layout) Hal) as [_ [Hlo _]].
  set (p := align_up (offset c) (align layout)) in *. cbn zeta.
  destruct (N.leb_spec (p + size layout) (end_ c)) as [Hle|Hgt].
  - rewrite (proj2 (N.ltb_lt p usize_limit)) by lia. rewrite (proj2 (N.ltb_lt _ usize_limit)) by lia.
    rewrite (proj2 (N.leb_le _ _) Hle). by destruct (N.eqb_spec p 0); [lia|].
  - destruct (p <? usize_limit); [|done]. destruct (p + size layout <? usize_limit); [|done].
    by rewrite (proj2 (N.leb_gt _ _)).
Qed.

Lemma allocate_ok n c layout c' p :
  chunk_wf n c -> 0 < align layout -> allocate c layout = Some (c', p) ->
  chunk_wf n c' /\ start c' = start c /\ end_ c' = end_ c /\ offset c' = p + size layout /\ offset c <= p /\
  p mod align layout = 0.
Proof.
  intros Hc Hal Ha. rewrite (allocate_spec n c layout Hc Hal) in Ha. cbn zeta in Ha.
  destruct (align_up_spec (offset c) (align layout) Hal) as [Hm [Hlo _]]. destruct Hc as [Hs Ho He Hl].
  destruct (N.leb_spec (align_up (offset c) (align layout) + size layout) (end_ c)); [|done]. injection Ha as <- <-.
  cbn. split_and!; try done. split; cbn; lia.
Qed.

(** What fits at any alignment of the start fits a new chunk. *)
Lemma allocate_fits n c layout :
  chunk_wf n c -> 0 < align layout -> offset c = start c -> size layout + (align layout - 1) <= n ->
  exists r, allocate c layout = Some r.
Proof.
  intros Hc Hal Ho Hn. rewrite (allocate_spec n c layout Hc Hal). cbn zeta.
  destruct (align_up_spec (offset c) (align layout) Hal) as [_ [_ Hhi]]. destruct Hc as [Hs _ He _].
  destruct (N.leb_spec (align_up (offset c) (align layout) + size layout) (end_ c)); [by eexists|lia].
Qed.

Context `{!AllocatorLaws}.

Lemma chunk_new_ok cs n c :
  chunk_new cs n = Ok c ->
  chunk_wf n c /\ offset c = start c /\ forall c', c' ∈ cs -> end_ c <= start c' \/ end_ c' <= start c.
Proof.
  unfold chunk_new. destruct (isize_max <? n); [done|]. destruct (alloc_block cs n) as [base|] eqn:E; [|done].
  intros [= <-]. destruct (block_bounds cs n base E) as [Hpos Hl]. split; [|split; [done|]].
  - split; cbn; lia.
  - intros c' Hc'. apply (block_fresh cs n base c' E Hc').
Qed.

(** ** The invariant *)

Definition disjoint_chunks (cs : list Chunk) : Prop :=
  forall i j c c', i <> j -> cs !! i = Some c -> cs !! j = Some c' -> end_ c <= start c' \/ end_ c' <= start c.

Definition disjoint_elements e e' : Prop :=
  el_ptr e + size (el_layout e) <= el_ptr e' \/ el_ptr e' + size (el_layout e') <= el_ptr e.

(** The element lies in an allocated part of a chunk. *)
Definition placed (cs : list Chunk) (current : nat) e : Prop :=
  exists ix c, (ix <= current)%nat /\ cs !! ix = Some c /\ start c <= el_ptr e /\ el_ptr e + size (el_layout e) <= offset c /\
    0 < align (el_layout e) /\ el_ptr e mod align (el_layout e) = 0.

Record arena_wf a : Prop := mkArenaWf {
  aw_current : (current_chunk_index a < length (chunks a))%nat;
  aw_chunks : Forall (chunk_wf (chunk_size a)) (chunks a);
  aw_disjoint : disjoint_chunks (chunks a);
  aw_unused ix c : (current_chunk_index a < ix)%nat -> chunks a !! ix = Some c -> offset c = start c;
  aw_placed e : e ∈ elements a -> placed (chunks a) (current_chunk_index a) e;
  aw_elements i j e e' : (i < j)%nat -> elements a !! i = Some e -> elements a !! j = Some e' -> disjoint_elements e e';
  aw_cells i : cells a !! i = Some true <-> i = valid a;
}.

(** Chunk by chunk the same blocks. *)
Definition same_blocks (cs cs' : list Chunk) : Prop :=
  forall i c, cs !! i = Some c -> exists c', cs' !! i = Some c' /\ start c' = start c /\ end_ c' = end_ c.

Lemma insert_disjoint cs ix c c' :
  disjoint_chunks cs -> cs !! ix = Some c -> start c' = start c -> end_ c' = end_ c -> disjoint_chunks (<[ix := c']> cs).
Proof.
  intros Hd Hc Hs He. assert (Hl : forall i d, <[ix := c']> cs !! i = Some d -> exists d', cs !! i = Some d' /\ start d = start d' /\ end_ d = end_ d').
  { intros i d Hi. destruct (decide (ix = i)) as [<-|Hne].
    - rewrite list_lookup_insert_eq in Hi by (by eapply lookup_lt_Some). injection Hi as <-. eauto.
    - rewrite list_lookup_insert_ne in Hi by done. eauto. }
  intros i j d d' Hne Hi Hj. destruct (Hl i d Hi) as (e & Hi' & -> & ->), (Hl j d' Hj) as (e' & Hj' & -> & ->). by apply (Hd i j).
Qed.

(** Allocating in the chunk [ix], the current one or the next. *)
Lemma push_wf a cs ix c c' p layout v :
  arena_wf a -> (current_chunk_index a <= ix)%nat -> chunks a `prefix_of` cs -> (ix < length cs)%nat ->
  Forall (chunk_wf (chunk_size a)) cs -> disjoint_chunks cs ->
  (forall j d, (current_chunk_index a < j)%nat -> cs !! j = Some d -> offset d = start d) ->
  cs !! ix = Some c -> 0 < align layout -> allocate c layout = Some (c', p) ->
  arena_wf (push_element a (<[ix := c']> cs) ix p layout v).1.
Proof.
  intros Hwf Hix Hpre Hlt Hall Hdis Hunused Hc Hal Ha.
  assert (Hcwf : chunk_wf (chunk_size a) c) by (rewrite Forall_elem in Hall; apply Hall; by eapply list_elem_of_lookup_2).
  destruct (allocate_ok _ c layout c' p Hcwf Hal Ha) as (Hcwf' & Hs & He & Ho & Hlo & Hm).
  assert (Hold : forall e, e ∈ elements a -> placed cs ix e /\ (el_ptr e + size (el_layout e) <= p \/ p + size layout <= el_ptr e)).
  { intros e Hin. destruct (aw_placed _ Hwf e Hin) as (j & d & Hj & Hd & H1 & H2 & H3 & H4).
    pose proof (prefix_lookup_Some _ _ _ _ Hd Hpre) as Hd'. split; [exists j, d; split; [lia|]; done|].
    destruct (decide (j = ix)) as [->|Hne]; [assert (d = c) as -> by congruence; left; lia|].
    destruct (Hdis j ix d c Hne Hd' Hc) as [Hb|Hb].
    - left. rewrite Forall_elem in Hall. destruct (Hall d) as [_ ? _ _]; [by eapply list_elem_of_lookup_2|].
      destruct Hcwf as [_ ? _ _]. lia.
    - right. destruct Hcwf' as [_ ? _ _]. lia. }
  assert (Hplaced : forall e, placed cs ix e -> placed (<[ix := c']> cs) ix e).
  { intros e (j & d & Hj & Hd & H1 & H2 & H3). destruct (decide (j = ix)) as [->|Hne].
    - assert (d = c) as -> by congruence. exists ix, c'. rewrite list_lookup_insert_eq by done. rewrite Hs. split_and!; try done; lia.
    - exists j, d. rewrite list_lookup_insert_ne by done. done. }
  split; cbn [push_element fst chunks elements valid cells current_chunk_index chunk_size].
  - by rewrite length_insert.
  - by apply Forall_insert.
  - by eapply insert_disjoint.
  - intros j d Hj Hd. rewrite list_lookup_insert_ne in Hd by lia. apply (Hunused j d); [lia|done].
  - intros e [Hin|Hin%list_elem_of_singleton]%elem_of_app; [destruct (Hold e Hin) as [? _]; by apply Hplaced|]. subst e.
    exists ix, c'. rewrite list_lookup_insert_eq by done. cbn. destruct Hcwf as [_ ? _ _]. split_and!; try done; lia.
  - intros i j e e' Hij Hi Hj. apply lookup_app_Some in Hj as [Hj|[Hge Hj]].
    + apply lookup_lt_Some in Hj as Hjl. rewrite lookup_app_l in Hi by lia. exact (aw_elements _ Hwf i j e e' Hij Hi Hj).
    + apply list_lookup_singleton_Some in Hj as [Hj <-]. rewrite lookup_app_l in Hi by lia.
      apply list_elem_of_lookup_2, Hold in Hi as [_ Hi]. exact Hi.
  - apply (aw_cells _ Hwf).
Qed.

Lemma chunk_new_total cs n : chunk_new cs n = Panic \/ exists c, chunk_new cs n = Ok c.
Proof. unfold chunk_new. destruct (isize_max <? n); [by left|]. destruct (alloc_block cs n); [right; by eexists|by left]. Qed.

Lemma next_chunk_ok a :
  arena_wf a ->
  (next_chunk a = Panic /\ chunk_new (chunks a) (chunk_size a) = Panic) \/
  exists cs c, next_chunk a = Ok (cs, S (current_chunk_index a)) /\ cs !! S (current_chunk_index a) = Some c /\
    offset c = start c /\ chunks a `prefix_of` cs /\ Forall (chunk_wf (chunk_size a)) cs /\ disjoint_chunks cs /\
    (forall j d, (current_chunk_index a < j)%nat -> cs !! j = Some d -> offset d = start d).
Proof.
  intros Hwf. unfold next_chunk. pose proof (aw_current _ Hwf) as Hcur.
  destruct (Nat.leb_spec (length (chunks a)) (S (current_chunk_index a))) as [Hle|Hgt].
  - destruct (chunk_new_total (chunks a) (chunk_size a)) as [->|[c Hc]]; [by left|]. rewrite Hc. cbn [obind].
    destruct (Nat.eqb_spec (S (current_chunk_index a)) (length (chunks a))) as [Heq|]; [|lia]. right.
    destruct (chunk_new_ok _ _ _ Hc) as (Hcwf & Ho & Hdis).
    exists (chunks a ++ [c]), c. split; [done|]. split; [by rewrite Heq; apply list_lookup_middle|]. split; [done|].
    split; [by eexists|]. split; [apply Forall_snoc; split; [apply (aw_chunks _ Hwf)|done]|]. split.
    + intros i j d d' Hne Hi Hj. apply lookup_app_Some in Hi as [Hi|[Hi1 Hi]], Hj as [Hj|[Hj1 Hj]].
      * by apply (aw_disjoint _ Hwf i j).
      * apply list_lookup_singleton_Some in Hj as [_ <-]. apply list_elem_of_lookup_2, Hdis in Hi. tauto.
      * apply list_lookup_singleton_Some in Hi as [_ <-]. apply list_elem_of_lookup_2, Hdis in Hj. tauto.
      * apply list_lookup_singleton_Some in Hi as [Hi _], Hj as [Hj _]. lia.
    + intros j d Hj Hd. apply lookup_app_Some in Hd as [Hd|[_ Hd]]; [by apply (aw_unused _ Hwf j)|].
      by apply list_lookup_singleton_Some in Hd as [_ <-].
  - destruct (lookup_lt_is_Some_2 _ _ Hgt) as [c Hc]. right. exists (chunks a), c. split; [done|]. split; [done|].
    split; [by apply (aw_unused _ Hwf (S (current_chunk_index a))); [lia|]|]. split; [done|].
    split; [apply (aw_chunks _ Hwf)|]. split; [apply (aw_disjoint _ Hwf)|apply (aw_unused _ Hwf)].
Qed.

(** What a successful allocation adds. *)
Definition allocated a a' (layout : Layout) (v : Value) b : Prop :=
  elements a' = elements a ++ [mkArenaElement (ptr b) layout v] /\ box_layout b = layout /\ box_valid b = valid a.

Lemma alloc_ok a layout v :
  arena_wf a -> 0 < align layout ->
  (alloc a layout v = Panic /\ chunk_new (chunks a) (chunk_size a) = Panic) \/
  exists a' o, alloc a layout v = Ok (a', o) /\ arena_wf a' /\ valid a' = valid a /\ cells a' = cells a /\
    scope_depth a' = scope_depth a /\
    match o with
    | Some b => allocated a a' layout v b
    | None => elements a' = elements a /\ chunk_size a < size layout + (align layout - 1)
    end.
Proof.
  intros Hwf Hal. unfold alloc. destruct (lookup_lt_is_Some_2 _ _ (aw_current _ Hwf)) as [c Hc].
  rewrite (index_Ok _ _ _ Hc). cbn [obind]. destruct (allocate c layout) as [[c' p]|] eqn:Ha.
  - right. eexists _, _. split; [reflexivity|]. split; [|done].
    exact (push_wf a (chunks a) (current_chunk_index a) c c' p layout v Hwf (le_n _) (reflexivity (chunks a)) (aw_current _ Hwf)
      (aw_chunks _ Hwf) (aw_disjoint _ Hwf) (aw_unused _ Hwf) Hc Hal Ha).
  - destruct (next_chunk_ok a Hwf) as [[-> Hn]|(cs & d & -> & Hd & Ho & Hpre & Hall & Hdis & Hun)]; [by left|].
    cbn [obind]. rewrite (index_Ok _ _ _ Hd). cbn [obind]. right. destruct (allocate d layout) as [[d' p]|] eqn:Ha'.
    + eexists _, _. split; [reflexivity|]. split; [|done].
      apply (push_wf a cs (S (current_chunk_index a)) d d' p layout v Hwf); [lia|done|by eapply lookup_lt_Some|done..].
    + eexists _, _. split; [reflexivity|]. split; [|split; [done|split; [done|split; [done|split; [done|]]]]].
      * split; cbn [chunks elements valid cells current_chunk_index chunk_size]; try done.
        -- by eapply lookup_lt_Some.
        -- intros j e Hj. apply Hun. lia.
        -- intros e He. destruct (aw_placed _ Hwf e He) as (ix & f & Hix & Hf & Hrest). exists ix, f. split; [lia|].
           split; [by eapply prefix_lookup_Some|done].
        -- apply (aw_elements _ Hwf).
        -- apply (aw_cells _ Hwf).
      * destruct (N.lt_ge_cases (chunk_size a) (size layout + (align layout - 1))) as [|Hge]; [done|]. exfalso.
        rewrite Forall_elem in Hall. destruct (allocate_fits (chunk_size a) d layout) as [r Hr]; try done; [|congruence].
        apply Hall. by eapply list_elem_of_lookup_2.
Qed.

(** *** Clearing *)

Lemma reset_chunks_ok ixs : forall cs,
  Forall (fun i => (i < length cs)%nat) ixs ->
  exists cs', reset_chunks cs ixs = Ok cs' /\ forall j, cs' !! j = if decide (j ∈ ixs) then reset <$> cs !! j else cs !! j.
Proof.
  induction ixs as [|ix ixs IH]; intros cs Hall; cbn [reset_chunks].
  - exists cs. split; [done|]. intros j. by rewrite decide_False by apply not_elem_of_nil.
  - apply Forall_cons_iff in Hall as [Hix Hall]. destruct (lookup_lt_is_Some_2 _ _ Hix) as [c Hc].
    rewrite (index_Ok _ _ _ Hc). cbn [obind]. destruct (IH (<[ix := reset c]> cs)) as (cs' & -> & Hl).
    { eapply Forall_weaken; [|exact Hall]. cbn beta. intros i. by rewrite length_insert. }
    exists cs'. split; [done|]. intros j. rewrite Hl. destruct (decide (ix = j)) as [<-|Hne].
    + rewrite list_lookup_insert_eq by done. rewrite (decide_True (P := ix ∈ ix :: ixs)) by (apply elem_of_cons; by left).
      rewrite Hc. cbn. by destruct (decide _).
    + rewrite list_lookup_insert_ne by done. destruct (decide (j ∈ ixs)) as [Hin|Hin].
      * rewrite decide_True; [done|]. apply elem_of_cons. by right.
      * rewrite decide_False; [done|]. intros [->|?]%elem_of_cons; done.
Qed.

Lemma force_clear_ok a :
  arena_wf a ->
  exists a', force_clear a = Ok (a', elements a) /\ arena_wf a' /\ elements a' = [] /\ valid a' = length (cells a) /\
    cells a' = <[valid a := false]> (cells a) ++ [true] /\ scope_depth a' = scope_depth a /\ chunk_size a' = chunk_size a.
Proof.
  intros Hwf. unfold force_clear. destruct (reset_chunks_ok (seq 0 (S (current_chunk_index a))) (chunks a)) as (cs & -> & Hl).
  { apply Forall_elem. intros i Hi%list_elem_of_In%in_seq. pose proof (aw_current _ Hwf). lia. }
  cbn [obind]. eexists. split; [reflexivity|]. cbn [chunks elements valid cells current_chunk_index chunk_size scope_depth].
  rewrite length_insert. split; [|done]. pose proof (aw_chunks _ Hwf) as Hall. rewrite Forall_elem in Hall.
  assert (Hc : forall i c, cs !! i = Some c -> exists c0, chunks a !! i = Some c0 /\ c = reset c0).
  { intros i c Hi. rewrite Hl in Hi. destruct (decide (i ∈ seq 0 (S (current_chunk_index a)))) as [Hin|Hin].
    - destruct (chunks a !! i) as [c0|]; [|done]. injection Hi as <-. eauto.
    - exists c. split; [done|]. rewrite list_elem_of_In, in_seq in Hin. pose proof (aw_unused _ Hwf i c ltac:(lia) Hi) as Ho.
      unfold reset. destruct c as [st en off]. cbn in *. by subst. }
  split; cbn [chunks elements valid cells current_chunk_index chunk_size].
  - pose proof (aw_current _ Hwf). destruct (lookup_lt_is_Some_2 (chunks a) 0) as [c0 Hc0]; [lia|].
    apply lookup_lt_Some with (reset c0). rewrite Hl, decide_True; [by rewrite Hc0|]. apply list_elem_of_In, in_seq. lia.
  - apply Forall_elem. intros c Hin. apply list_elem_of_lookup in Hin as [i Hi]. apply Hc in Hi as (c0 & Hi & ->).
    destruct (Hall c0) as [H1 H2 H3 H4]; [by eapply list_elem_of_lookup_2|]. split; cbn; lia.
  - intros i j c c' Hne Hi Hj. apply Hc in Hi as (d & Hi & ->), Hj as (d' & Hj & ->). by apply (aw_disjoint _ Hwf i j d d').
  - intros i c _ Hi. by apply Hc in Hi as (c0 & _ & ->).
  - intros e He. by apply elem_of_nil in He.
  - done.
  - pose proof (proj2 (aw_cells _ Hwf (valid a)) eq_refl) as Hv. apply lookup_lt_Some in Hv.
    intros i. rewrite lookup_app_Some, list_lookup_singleton_Some, length_insert. split.
    + intros [Hi|(Hge & Hi & _)]; [|lia]. exfalso. destruct (decide (valid a = i)) as [<-|Hne].
      * by rewrite list_lookup_insert_eq in Hi.
      * rewrite list_lookup_insert_ne in Hi by done. by apply (aw_cells _ Hwf) in Hi.
    + intros ->. right. split; [lia|]. by rewrite Nat.sub_diag.
Qed.

Lemma arena_new_ok n a : arena_new n = Ok a -> arena_wf a /\ elements a = [] /\ scope_depth a = 0 /\ chunk_size a = n.
Proof.
  unfold arena_new. destruct (n =? 0); [done|]. destruct (chunk_new_total [] n) as [->|[c Hc]]; [done|]. rewrite Hc. cbn [obind].
  intros [= <-]. split; [|done]. destruct (chunk_new_ok _ _ _ Hc) as (Hcwf & Ho & _).
  split; cbn [chunks elements valid cells current_chunk_index chunk_size].
  - simpl. lia.
  - by constructor.
  - intros i j d d' Hne Hi Hj. apply list_lookup_singleton_Some in Hi as [-> _], Hj as [-> _]. done.
  - intros i d Hi Hd. by apply list_lookup_singleton_Some in Hd as [_ <-].
  - intros e He. by apply elem_of_nil in He.
  - done.
  - intros [|i]; simpl; [done|]. split; [by destruct i|done].
Qed.

(** ** Boxes and what they read *)

(** A program's arena, the boxes it was given with the last value it wrote through each,
    every allocation so far, and the elements dropped so far. *)
Record Program := mkProgram {
  arena : Arena;
  boxes : list (ArenaBox * Value);
  allocations : list (N * Layout);
  drops : list ArenaElement;
}.

Inductive arena_op :=
| Alloc (layout : Layout) (v : Value)
| Write (i : nat) (v : Value)
| Clear
| BeginScope
| EndScope.

Implicit Types (g : Program).

Definition run_arena_op g (op : arena_op) : outcome Program :=
  match op with
  | Alloc layout v =>
      let! (a, o) := alloc (arena g) layout v in
      Ok (match o with
          | Some b => mkProgram a (boxes g ++ [(b, v)]) (allocations g ++ [(ptr b, layout)]) (drops g)
          | None => mkProgram a (boxes g) (allocations g) (drops g)
          end)
  | Write i v =>
      let! (b, _) := index (boxes g) i in
      let! a := deref_mut (arena g) b v in
      Ok (mkProgram a (<[i := (b, v)]> (boxes g)) (allocations g) (drops g))
  | Clear =>
      let! (a, dropped) := clear (arena g) in
      Ok (mkProgram a (boxes g) (allocations g) (drops g ++ dropped))
  | BeginScope => let! a := begin_scope (arena g) in Ok (mkProgram a (boxes g) (allocations g) (drops g))
  | EndScope => let! a := end_scope (arena g) in Ok (mkProgram a (boxes g) (allocations g) (drops g))
  end.

Definition op_aligned (op : arena_op) : Prop := match op with Alloc layout _ => 0 < align layout | _ => True end.

Inductive reached (n : N) : Program -> Prop :=
| reached_new a : arena_new n = Ok a -> reached n (mkProgram a [] [] [])
| reached_step g op g' : reached n g -> op_aligned op -> run_arena_op g op = Ok g' -> reached n g'.

Definition key e : N * Layout := (el_ptr e, el_layout e).

(** A box whose flag is the arena's has an element, no other box has it, and it holds the
    value. *)
Definition owns a (k : nat) b (v : Value) : Prop :=
  exists e, elements a !! k = Some e /\ el_ptr e = ptr b /\ el_layout e = box_layout b /\ (0 < size (box_layout b) -> el_value e = v).

Record program_wf (n : N) g : Prop := mkProgramWf {
  pw_arena : arena_wf (arena g);
  pw_size : chunk_size (arena g) = n;
  pw_box b v : (b, v) ∈ boxes g -> (box_valid b < length (cells (arena g)))%nat;
  pw_live i b v : boxes g !! i = Some (b, v) -> box_valid b = valid (arena g) ->
    exists k, owns (arena g) k b v /\
      forall j b' v', boxes g !! j = Some (b', v') -> box_valid b' = valid (arena g) ->
        0 < size (box_layout b) -> 0 < size (box_layout b') -> ptr b = ptr b' -> i = j;
  pw_log : allocations g = map key (drops g ++ elements (arena g));
}.

(** Elements that are not empty have different addresses. *)
Lemma element_unique a i j e e' :
  arena_wf a -> elements a !! i = Some e -> elements a !! j = Some e' -> el_ptr e = el_ptr e' ->
  0 < size (el_layout e) -> 0 < size (el_layout e') -> i = j.
Proof.
  intros Hwf Hi Hj Hp H1 H2. destruct (lt_eq_lt_dec i j) as [[Hlt|]|Hgt]; [|done|]; exfalso.
  - destruct (aw_elements _ Hwf i j e e' Hlt Hi Hj); lia.
  - destruct (aw_elements _ Hwf j i e' e Hgt Hj Hi); lia.
Qed.

Lemma covers_spec p e : covers p e = true <-> el_ptr e = p /\ 0 < size (el_layout e).
Proof. unfold covers. by rewrite andb_true_iff, N.eqb_eq, N.ltb_lt. Qed.

(** A box that owns an element reads its value. *)
Lemma load_ok a k b v :
  arena_wf a -> owns a k b v -> 0 < size (box_layout b) -> load (elements a) (ptr b) (box_layout b) = Some v.
Proof.
  intros Hwf (e & Hk & Hp & Hl & Hv) Hs. unfold load. destruct (N.eqb_spec (size (box_layout b)) 0); [lia|].
  destruct (List.find (covers (ptr b)) (rev (elements a))) as [e'|] eqn:E.
  - apply find_some in E as [Hin [Hp' Hs']%covers_spec].
    rewrite <- in_rev, <- list_elem_of_In in Hin. apply list_elem_of_lookup in Hin as [j Hj].
    assert (k = j) as <- by (apply (element_unique a k j e e'); try done; [congruence|by rewrite Hl]).
    simpl. assert (e' = e) as -> by congruence. by rewrite Hv.
  - exfalso. assert (Hin : In e (rev (elements a))) by (rewrite <- in_rev, <- list_elem_of_In; by eapply list_elem_of_lookup_2).
    pose proof (find_none _ _ E e Hin) as Hn. assert (covers (ptr b) e = true) by (apply covers_spec; by rewrite Hl). congruence.
Qed.

Definition stored (p : N) (v : Value) e : ArenaElement :=
  if covers p e then mkArenaElement (el_ptr e) (el_layout e) v else e.

Lemma stored_key p v e : key (stored p v e) = key e.
Proof. unfold stored. by destruct (covers p e). Qed.

Lemma store_lookup els p layout v k :
  store els p layout v !! k = (if size layout =? 0 then fun e => e else stored p v) <$> els !! k.
Proof.
  unfold store. destruct (size layout =? 0); [by destruct (els !! k)|].
  change (map ?f els) with (f <$> els). by rewrite list_lookup_fmap.
Qed.

Lemma store_key els p layout v k e :
  store els p layout v !! k = Some e -> exists e0, els !! k = Some e0 /\ el_ptr e = el_ptr e0 /\ el_layout e = el_layout e0.
Proof.
  rewrite store_lookup. destruct (els !! k) as [e0|]; [|done]. intros [= <-]. exists e0. split; [done|].
  destruct (size layout =? 0); [done|]. pose proof (stored_key p v e0) as [= -> ->]. done.
Qed.

Lemma store_keys els p layout v : map key (store els p layout v) = map key els.
Proof. unfold store. destruct (size layout =? 0); [done|]. rewrite map_map. apply map_ext. intros e. apply stored_key. Qed.

Lemma store_wf a p layout v :
  arena_wf a ->
  arena_wf (mkArena (chunks a) (store (elements a) p layout v) (valid a) (cells a) (current_chunk_index a) (chunk_size a) (scope_depth a)).
Proof.
  intros Hwf. split; cbn [chunks elements valid cells current_chunk_index chunk_size]; try apply Hwf.
  - intros e He. apply list_elem_of_lookup in He as [k Hk]. apply store_key in Hk as (e0 & Hk & Hp & Hl).
    destruct (aw_placed _ Hwf e0) as (ix & c & Hrest); [by eapply list_elem_of_lookup_2|]. exists ix, c. by rewrite Hp, Hl.
  - intros i j e e' Hij Hi Hj. apply store_key in Hi as (e0 & Hi & Hp & Hl), Hj as (e1 & Hj & Hp' & Hl').
    unfold disjoint_elements. rewrite Hp, Hl, Hp', Hl'. exact (aw_elements _ Hwf i j e0 e1 Hij Hi Hj).
Qed.

Lemma validate_ok a b : arena_wf a -> validate a b = if (box_valid b =? valid a)%nat then Ok tt else Panic.
Proof.
  intros Hwf. unfold validate. pose proof (aw_cells _ Hwf (box_valid b)) as Hc.
  destruct (Nat.eqb_spec (box_valid b) (valid a)) as [E|E].
  - by rewrite (proj2 Hc E).
  - destruct (cells a !! box_valid b) as [[]|]; [|done..]. exfalso. tauto.
Qed.

Lemma valid_in_cells a : arena_wf a -> (valid a < length (cells a))%nat.
Proof. intros Hwf. eapply lookup_lt_Some, (aw_cells _ Hwf (valid a)). done. Qed.

(** ** Every step *)

Lemma owns_extend a a' k b v : elements a `prefix_of` elements a' -> owns a k b v -> owns a' k b v.
Proof. intros Hp (e & Hk & Hrest). exists e. split; [by eapply prefix_lookup_Some|done]. Qed.

Lemma alloc_wf n g a layout v b :
  program_wf n g -> arena_wf a -> chunk_size a = n -> valid a = valid (arena g) -> cells a = cells (arena g) ->
  allocated (arena g) a layout v b ->
  program_wf n (mkProgram a (boxes g ++ [(b, v)]) (allocations g ++ [(ptr b, layout)]) (drops g)).
Proof.
  intros [Hwf Hn Hbox Hlive Hlog] Ha Hsize Hv Hc (He & Hl & Hb).
  assert (Hnew : owns a (length (elements (arena g))) b v).
  { exists (mkArenaElement (ptr b) layout v). rewrite He. split; [by apply list_lookup_middle|]. by split_and!. }
  assert (Hold : forall i b' v', boxes g !! i = Some (b', v') -> box_valid b' = valid a ->
    0 < size (box_layout b) -> 0 < size (box_layout b') -> ptr b <> ptr b').
  { intros i b' v' Hi Hvi H1 H2 Hp. rewrite Hv in Hvi. destruct (Hlive i b' v' Hi Hvi) as (k & (e & Hk & Hpe & Hle & _) & _).
    assert (Hk' : elements a !! k = Some e) by (rewrite He; by apply lookup_app_l_Some).
    destruct Hnew as (e' & Hk'' & Hpe' & Hle' & _). apply lookup_lt_Some in Hk as Hlt.
    assert (length (elements (arena g)) = k); [|lia].
    eapply (element_unique a _ k e' e); try done; [congruence|by rewrite Hle'|by rewrite Hle]. }
  split; cbn [arena boxes allocations drops].
  - done.
  - done.
  - intros b' v' [Hin|[= -> ->]%list_elem_of_singleton]%elem_of_app; rewrite Hc; [by eapply Hbox|]. rewrite Hb. by apply valid_in_cells.
  - intros i b1 v1 Hi Hv1. apply lookup_app_Some in Hi as [Hi|[Hge Hi]].
    + rewrite Hv in Hv1. destruct (Hlive i b1 v1 Hi Hv1) as (k & Hown & Huniq). exists k.
      split; [eapply owns_extend; [|exact Hown]; rewrite He; by eexists|]. intros j b2 v2 Hj Hv2 H1 H2 Hp.
      apply lookup_app_Some in Hj as [Hj|[Hgej Hj]]; [rewrite Hv in Hv2; by eapply Huniq|].
      apply list_lookup_singleton_Some in Hj as [_ [= <- <-]]. exfalso. by apply (Hold i b1 v1 Hi); rewrite ?Hv.
    + apply list_lookup_singleton_Some in Hi as [Hi [= <- <-]]. exists (length (elements (arena g))). split; [done|].
      intros j b2 v2 Hj Hv2 H1 H2 Hp. apply lookup_app_Some in Hj as [Hj|[Hgej Hj]]; [exfalso; by apply (Hold j b2 v2 Hj)|].
      apply list_lookup_singleton_Some in Hj as [Hj _]. lia.
  - rewrite Hlog, He, app_assoc, (map_app key (_ ++ _)). done.
Qed.

Lemma write_program_wf n g i b v v' :
  program_wf n g -> boxes g !! i = Some (b, v') -> box_valid b = valid (arena g) ->
  let a := arena g in
  program_wf n (mkProgram (mkArena (chunks a) (store (elements a) (ptr b) (box_layout b) v) (valid a) (cells a)
    (current_chunk_index a) (chunk_size a) (scope_depth a)) (<[i := (b, v)]> (boxes g)) (allocations g) (drops g)).
Proof.
  intros [Hwf Hn Hbox Hlive Hlog] Hi Hvb a. subst a.
  assert (Hboxes : forall j b1 v1, <[i := (b, v)]> (boxes g) !! j = Some (b1, v1) ->
    exists v2, boxes g !! j = Some (b1, v2) /\ (i = j /\ b1 = b /\ v1 = v \/ i <> j /\ v1 = v2)).
  { intros j b1 v1 Hj. destruct (decide (i = j)) as [<-|Hne].
    - rewrite list_lookup_insert_eq in Hj by (by eapply lookup_lt_Some). injection Hj as <- <-. eauto 10.
    - rewrite list_lookup_insert_ne in Hj by done. eauto 10. }
  split; cbn [arena boxes allocations drops elements valid cells chunk_size].
  - by apply store_wf.
  - done.
  - intros b1 v1 Hin. apply list_elem_of_lookup in Hin as [j Hj]. apply Hboxes in Hj as (v2 & Hj & _).
    eapply Hbox. by eapply list_elem_of_lookup_2.
  - intros j b1 v1 Hj Hv1. apply Hboxes in Hj as (v2 & Hj & Hcase).
    destruct (Hlive j b1 v2 Hj Hv1) as (k & (e & Hk & Hp & Hl & He) & Huniq). exists k. split.
    + eexists. cbn [elements]. rewrite store_lookup, Hk. split; [reflexivity|].
      destruct (N.eqb_spec (size (box_layout b)) 0) as [Hz|Hz].
      * split; [done|]. split; [done|]. intros Hs. destruct Hcase as [(<- & -> & ->)|(_ & ->)]; [lia|by apply He].
      * unfold stored. destruct (covers (ptr b) e) eqn:Hcov; cbn [el_ptr el_layout el_value].
        -- apply covers_spec in Hcov as [Hpe Hs]. split; [done|]. split; [done|]. intros Hs1.
           destruct Hcase as [(_ & _ & ->)|(Hne & _)]; [done|]. exfalso. apply Hne. symmetry.
           apply (Huniq i b v' Hi Hvb Hs1); [lia|congruence].
        -- split; [done|]. split; [done|]. intros Hs1. destruct Hcase as [(<- & -> & ->)|(_ & ->)]; [|by apply He].
           exfalso. apply not_true_iff_false in Hcov. apply Hcov, covers_spec. by rewrite Hl.
    + intros j' b2 v3 Hj' Hv2. apply Hboxes in Hj' as (v4 & Hj' & _). by eapply Huniq.
  - by rewrite Hlog, !map_app, store_keys.
Qed.

Lemma clear_program_wf n g a :
  program_wf n g -> arena_wf a -> elements a = [] -> valid a = length (cells (arena g)) ->
  cells a = <[valid (arena g) := false]> (cells (arena g)) ++ [true] -> chunk_size a = chunk_size (arena g) ->
  program_wf n (mkProgram a (boxes g) (allocations g) (drops g ++ elements (arena g))).
Proof.
  intros [Hwf Hn Hbox Hlive Hlog] Ha He Hv Hc Hs. split; cbn [arena boxes allocations drops].
  - done.
  - congruence.
  - intros b v Hin%Hbox. rewrite Hc, length_app, length_insert. lia.
  - intros i b v Hi Hvb. apply list_elem_of_lookup_2, Hbox in Hi. lia.
  - by rewrite He, app_nil_r.
Qed.

Lemma depth_wf n g k : program_wf n g -> program_wf n (mkProgram (with_depth (arena g) k) (boxes g) (allocations g) (drops g)).
Proof. intros [[] Hn Hbox Hlive Hlog]. split; [by split|done..]. Qed.

Lemma alloc_chunk_size a layout v a' o : alloc a layout v = Ok (a', o) -> chunk_size a' = chunk_size a.
Proof.
  unfold alloc. destruct (index (chunks a) (current_chunk_index a)) as [c| |]; cbn [obind]; [|done..].
  destruct (allocate c layout) as [[c' p]|]; [by intros [= <- _]|].
  destruct (next_chunk a) as [[cs ix]| |]; cbn [obind]; [|done..]. destruct (index cs ix) as [d| |]; cbn [obind]; [|done..].
  destruct (allocate d layout) as [[d' p]|]; by intros [= <- _].
Qed.

Lemma run_program_wf n g op g' : program_wf n g -> op_aligned op -> run_arena_op g op = Ok g' -> program_wf n g'.
Proof.
  intros Hg Hop. pose proof (pw_arena _ _ Hg) as Hwf. destruct op as [layout v|i v| | |]; cbn [run_arena_op op_aligned] in *.
  - destruct (alloc_ok (arena g) layout v Hwf Hop) as [[-> _]|(a & o & E & Ha & Hv & Hc & _ & Ho)]; [done|].
    pose proof (alloc_chunk_size _ _ _ _ _ E) as Hs. rewrite E. cbn [obind]. intros [= <-]. destruct o as [b|].
    + apply alloc_wf; try done. rewrite Hs. apply Hg.
    + destruct Ho as [He _]. destruct Hg as [_ Hn Hbox Hlive Hlog]. split; cbn [arena boxes allocations drops]; try done.
      * congruence.
      * by rewrite Hc.
      * rewrite Hv. intros i b v' Hi Hvb. destruct (Hlive i b v' Hi Hvb) as (k & (e & Hk & Hrest) & Huniq). exists k.
        split; [|done]. exists e. by rewrite He.
      * by rewrite He.
  - destruct (boxes g !! i) as [[b v']|] eqn:Hi; [|by unfold index; rewrite Hi]. rewrite (index_Ok _ _ _ Hi). cbn [obind].
    unfold deref_mut. rewrite (validate_ok _ _ Hwf). destruct (Nat.eqb_spec (box_valid b) (valid (arena g))) as [Hvb|]; [|done].
    cbn [obind]. intros [= <-]. by apply (write_program_wf n g i b v v').
  - unfold clear. destruct (scope_depth (arena g) =? 0).
    + destruct (force_clear_ok (arena g) Hwf) as (a & -> & Ha & He & Hv & Hc & _ & Hs). cbn [obind]. intros [= <-].
      by apply clear_program_wf.
    + cbn [obind]. intros [= <-]. rewrite app_nil_r. by destruct g.
  - unfold begin_scope. destruct (checked_add _ _); [|done]. intros [= <-]. by apply depth_wf.
  - unfold end_scope. destruct (scope_depth (arena g) =? 0); [done|]. intros [= <-]. by apply depth_wf.
Qed.

Lemma reached_wf n g : reached n g -> program_wf n g.
Proof.
  induction 1 as [a Ha|g op g' _ IH Hop Hrun]; [|by eapply run_program_wf].
  destruct (arena_new_ok n a Ha) as (Hwf & He & _ & Hs). split; cbn [arena boxes allocations drops]; try done.
  - intros b v Hin. by apply elem_of_nil in Hin.
  - by rewrite He.
Qed.

(** ** The contract *)

(** C31: Bounds: every element is aligned and lies in an allocated part of a chunk, below its
    end and so in the address space; elements do not overlap, nor do chunks.  [alloc]
    panics only if the global allocator fails, and refuses a value only if the value,
    at the worst alignment, does not fit a chunk.  Every element allocated is dropped
    once or still alive, in the order of allocation. *)
Theorem arena_bounds n g (Hg : reached n g) :
  (forall e, e ∈ elements (arena g) ->
     el_ptr e mod align (el_layout e) = 0 /\
     exists c, c ∈ chunks (arena g) /\ start c <= el_ptr e /\ el_ptr e + size (el_layout e) <= offset c /\ offset c <= end_ c /\
       end_ c = start c + n /\ end_ c < usize_limit) /\
  (forall i j e e', (i < j)%nat -> elements (arena g) !! i = Some e -> elements (arena g) !! j = Some e' -> disjoint_elements e e') /\
  disjoint_chunks (chunks (arena g)) /\
  (forall layout v, 0 < align layout ->
     (alloc (arena g) layout v = Panic /\ chunk_new (chunks (arena g)) n = Panic) \/
     (exists a b, alloc (arena g) layout v = Ok (a, Some b) /\ allocated (arena g) a layout v b) \/
     (exists a, alloc (arena g) layout v = Ok (a, None) /\ elements a = elements (arena g) /\ n < size layout + (align layout - 1))) /\
  allocations g = map key (drops g ++ elements (arena g)).
Proof.
  destruct (reached_wf n g Hg) as [Hwf Hn _ _ Hlog]. split; [|split; [apply (aw_elements _ Hwf)|split; [apply (aw_disjoint _ Hwf)|split; [|done]]]].
  - intros e He. destruct (aw_placed _ Hwf e He) as (ix & c & _ & Hc & H1 & H2 & _ & H3). split; [done|]. exists c.
    apply list_elem_of_lookup_2 in Hc. pose proof (aw_chunks _ Hwf) as Hall. rewrite Forall_elem in Hall.
    destruct (Hall c Hc) as [_ [_ Ho] Hend Hlim]. rewrite Hn in Hend. by split_and!.
  - intros layout v Hal. rewrite <- Hn. destruct (alloc_ok (arena g) layout v Hwf Hal) as [?|(a & [b|] & E & _ & _ & _ & _ & Ho)]; [by left|right; left|right; right].
    + by exists a, b.
    + exists a. destruct Ho. done.
Qed.

(** C32: A box can be used exactly until the arena is cleared: if its flag is the arena's,
    reading through it gives the last value written through it (a value of an empty type
    has no bytes), whatever was written through the other boxes; otherwise the read and
    the write panic, and never touch memory that was reused.  A clear within a scope
    changes nothing; another one ends every box there is. *)
Theorem arena_boxes_correct n g i b v (Hg : reached n g) (Hb : boxes g !! i = Some (b, v)) :
  (box_valid b = valid (arena g) ->
     deref (arena g) b = Ok (if size (box_layout b) =? 0 then None else Some v) /\ forall v', exists a, deref_mut (arena g) b v' = Ok a) /\
  (box_valid b <> valid (arena g) -> deref (arena g) b = Panic /\ forall v', deref_mut (arena g) b v' = Panic) /\
  (has_active_scope (arena g) = true -> clear (arena g) = Ok (arena g, [])) /\
  (has_active_scope (arena g) = false -> exists a, clear (arena g) = Ok (a, elements (arena g)) /\ box_valid b <> valid a).
Proof.
  destruct (reached_wf n g Hg) as [Hwf Hn Hbox Hlive _]. unfold deref, deref_mut. rewrite (validate_ok _ _ Hwf).
  split; [|split; [|split]].
  - intros Hv. rewrite (proj2 (Nat.eqb_eq _ _) Hv). cbn [obind]. split; [|by eexists].
    destruct (N.eqb_spec (size (box_layout b)) 0) as [Hz|Hz].
    + unfold load. by rewrite (proj2 (N.eqb_eq _ _) Hz).
    + destruct (Hlive i b v Hb Hv) as (k & Hown & _). rewrite (load_ok _ k b v Hwf Hown); [done|lia].
  - intros Hv. by rewrite (proj2 (Nat.eqb_neq _ _) Hv).
  - unfold has_active_scope, clear. intros Hs%N.ltb_lt. by destruct (N.eqb_spec (scope_depth (arena g)) 0); [lia|].
  - unfold has_active_scope, clear. intros Hs%N.ltb_ge. destruct (N.eqb_spec (scope_depth (arena g)) 0); [|lia].
    destruct (force_clear_ok (arena g) Hwf) as (a & -> & _ & _ & Hv & _). exists a. split; [done|].
    apply list_elem_of_lookup_2, Hbox in Hb. lia.
Qed.
End Arena.

(** ** Tests and witnesses *)

Section Tests.
(** Blocks from the address 3 on, one after the other. *)
#[local] Instance bump_allocator : Allocator := fun cs n =>
  let base := fold_right (fun c b => N.max (end_ c) b) 3 cs in
  if base + n <? usize_limit then Some base else None.

#[local] Instance bump_allocator_laws : AllocatorLaws.
Proof.
  assert (Hmax : forall cs, 3 <= fold_right (fun c b => N.max (end_ c) b) 3 cs /\
    forall c, c ∈ cs -> end_ c <= fold_right (fun c b => N.max (end_ c) b) 3 cs).
  { induction cs as [|c cs [IH1 IH2]]; cbn [fold_right].
    - split; [lia|]. intros c Hc. by apply elem_of_nil in Hc.
    - split; [lia|]. intros d [->|Hd]%elem_of_cons; [lia|]. specialize (IH2 d Hd). lia. }
  split; unfold alloc_block, bump_allocator; intros cs n base.
  - destruct (N.ltb_spec (fold_right (fun c b => N.max (end_ c) b) 3 cs + n) usize_limit); [|done]. intros [= <-].
    destruct (Hmax cs). lia.
  - intros c. destruct (N.ltb_spec (fold_right (fun c b => N.max (end_ c) b) 3 cs + n) usize_limit); [|done]. intros [= <-] Hc.
    right. by apply Hmax.
Qed.

Definition run_arena (n : N) (ops : list (arena_op (Value := N))) : outcome (Program (Value := N)) :=
  let! a := arena_new n in ofold run_arena_op ops (mkProgram a [] [] []).

Definition word : Layout := mkLayout 8 8.

(** Words are aligned, spill to a second chunk, and are dropped in order; a box of an empty
    type shares the address of the next one. *)
Example test_arena :
  match run_arena 24 [Alloc word 1; Alloc (mkLayout 0 1) 0; Alloc word 2; Alloc word 3; Write 2 9] with
  | Ok g => (map (fun p => (ptr p.1, deref (arena g) p.1)) (boxes g), length (chunks (arena g)))
            = ([(8, Ok (Some 1)); (16, Ok None); (16, Ok (Some 9)); (32, Ok (Some 3))], 2%nat)
  | _ => False
  end /\
  match run_arena 24 [Alloc word 1; BeginScope; Clear; EndScope; Alloc word 2; Clear; Alloc word 3] with
  | Ok g => (map (fun p => deref (arena g) p.1) (boxes g), map el_value (drops g)) = ([Panic; Panic; Ok (Some 3)], [1; 2])
  | _ => False
  end.
Proof. vm_compute. done. Qed.

Lemma run_reached n (ops : list (arena_op (Value := N))) : forall g g',
  reached n g -> Forall op_aligned ops -> ofold run_arena_op ops g = Ok g' -> reached n g'.
Proof.
  induction ops as [|op ops IH]; intros g g' Hg Hal; cbn [ofold]; [by intros [= <-]|].
  apply Forall_cons_iff in Hal as [Hop Hal]. destruct (run_arena_op g op) as [g1| |] eqn:E; cbn [obind]; [|done..].
  apply IH; [|done]. by eapply reached_step.
Qed.

Definition cleared_ops : list (arena_op (Value := N)) := [Alloc word 1; Clear; Alloc word 2; Alloc word 3].

Lemma arena_bounds_witness :
  exists g e, run_arena 24 cleared_ops = Ok g /\ e ∈ elements (arena g) /\ el_ptr e mod 8 = 0.
Proof.
  destruct (run_arena 24 cleared_ops) as [g| |] eqn:E; [|vm_compute in E; discriminate E..].
  assert (Hg : reached 24 g).
  { unfold run_arena in E. destruct (arena_new 24) as [a| |] eqn:Ea; [|discriminate E..].
    apply (run_reached 24 cleared_ops _ g (reached_new 24 a Ea)); [|exact E]. repeat constructor; cbn; lia. }
  destruct (arena_bounds 24 g Hg) as [Hb _]. vm_compute in E. injection E as <-.
  eexists _, (mkArenaElement 8 word 2). split; [reflexivity|].
  assert (Hin : mkArenaElement 8 word 2 ∈ [mkArenaElement 8 word 2; mkArenaElement 16 word 3]) by (apply elem_of_cons; left; reflexivity).
  split; [exact Hin|]. apply (Hb (mkArenaElement 8 word 2)). exact Hin.
Defined.

Lemma arena_boxes_correct_witness :
  exists g b0 b1, run_arena 24 cleared_ops = Ok g /\ deref (arena g) b0 = Panic /\ deref (arena g) b1 = Ok (Some 2).
Proof.
  destruct (run_arena 24 cleared_ops) as [g| |] eqn:E; [|vm_compute in E; discriminate E..].
  assert (Hg : reached 24 g).
  { unfold run_arena in E. destruct (arena_new 24) as [a| |] eqn:Ea; [|discriminate E..].
    apply (run_reached 24 cleared_ops _ g (reached_new 24 a Ea)); [|exact E]. repeat constructor; cbn; lia. }
  exists g, (mkArenaBox 8 word 0), (mkArenaBox 8 word 1). split; [reflexivity|].
  destruct (arena_boxes_correct 24 g 0 (mkArenaBox 8 word 0) 1 Hg) as (_ & H0 & _); [vm_compute in E; injection E as <-; reflexivity|].
  destruct (arena_boxes_correct 24 g 1 (mkArenaBox 8 word 1) 2 Hg) as (H1 & _); [vm_compute in E; injection E as <-; reflexivity|].
  split.
  - apply H0. vm_compute in E. injection E as <-. vm_compute. discriminate.
  - apply H1. vm_compute in E. injection E as <-. vm_compute. reflexivity.
Defined.
End Tests.
