(* ===== verification/ListState.v ===== *)
(** * The list element: [crates/gpui/src/elements/list.rs]

    [ListState] keeps the items of a list, measured or not, in a [SumTree] whose
    summaries add up counts and heights, and the scroll position as an index and an
    offset into that item.  This file holds the definitions: the items and their
    summary, the state with every operation of [ListState] and [StateInner] (edits,
    remeasuring, scrolling, the scrollbar), the layout of a frame and the prepainting
    of the element.  The theorems are in ListItems, ListScroll and ListLayout.

    Pixels are integers.  The fraction of a pending scroll is the exact quotient and
    its product with a height is rounded down.  During one call, rendering, measuring
    and prepainting an element and the focus of the window are functions: parameters.
    The state is passed through the calls; the code borrows it from a [RefCell] for
    the duration of each. *)

From stdpp Require Import base list option numbers.
From S2P Require Import Prelude Geometry SumTree Cursor CursorSeek.

#[local] Set Warnings "-register-all".

Local Open Scope Z_scope.

(** ** Data *)

(** [Count] and [Height]: the dimensions of a list. *)
Record Count := mkCount { count_of : nat }.
Record Height := mkHeight { height_of : Z }.

Record ListItemSummary := mkListItemSummary {
  count : nat;
  rendered_count : nat;
  unrendered_count : nat;
  total_height : Z;
  has_focus_handles : bool;
  has_unknown_height : bool;
}.

Inductive ListAlignment := AlignTop | AlignBottom.

Inductive FollowMode := FollowNormal | FollowTail.

Inductive FollowState := StateNormal | StateTail (is_following : bool).

Definition is_following (f : FollowState) : bool :=
  match f with StateTail true => true | _ => false end.

Definition has_stopped_following (f : FollowState) : bool :=
  match f with StateTail false => true | _ => false end.

Definition start_following (f : FollowState) : FollowState :=
  match f with StateTail false => StateTail true | _ => f end.

Definition stop_following (f : FollowState) : FollowState :=
  match f with StateTail true => StateTail false | _ => f end.

Inductive ListSizingBehavior := SizingInfer | SizingAuto.

Inductive ListMeasuringBehavior := Measure (has_measured : bool) | Visible.

Definition measuring_reset (m : ListMeasuringBehavior) : ListMeasuringBehavior :=
  match m with Measure _ => Measure false | Visible => Visible end.

Record ListOffset := mkListOffset { item_ix : nat; offset_in_item : Z }.

(** A quotient between 0 and 1. *)
Record Fraction := mkFraction { numerator : Z; denominator : Z }.

(** [(offset / height).clamp(0.0, 1.0)], for a positive height *)
Definition fraction_of (offset h : Z) : Fraction := mkFraction (Z.min (Z.max offset 0) h) h.

Definition fraction_zero : Fraction := mkFraction 0 1.

(** [height * fraction] *)
Definition times_fraction (h : Z) (f : Fraction) : Z := h * numerator f / denominator f.

Record PendingScrollFraction := mkPendingFraction { pending_item_ix : nat; fraction : Fraction }.

Inductive PendingScroll :=
| Absolute (ix : nat) (offset : Z)
| Proportional (p : PendingScrollFraction).

Inductive ScrollAnchor := AnchorAbsolute | AnchorProportional.

Definition size_default : Size := mkSize 0 0.
Definition bounds_default : Bounds := mkBounds (mkPoint 0 0) size_default.
Definition edges_default : Edges := mkEdges 0 0 0 0.

(** The checked subtraction of [usize]. *)
Definition usize_sub (a b : nat) : outcome nat := if (b <=? a)%nat then Ok (a - b)%nat else Panic.

(** [Range::contains] *)
Definition range_contains (start end_ ix : nat) : bool := ((start <=? ix) && (ix <? end_))%nat.

Section Items.
Context {FocusHandle : Type}.

Inductive ListItem :=
| Unmeasured (size_hint : option Size) (focus_handle : option FocusHandle)
| Measured (size : Size) (focus_handle : option FocusHandle).

Definition item_size (i : ListItem) : option Size :=
  match i with Measured s _ => Some s | Unmeasured _ _ => None end.

Definition size_hint (i : ListItem) : option Size :=
  match i with Measured s _ => Some s | Unmeasured h _ => h end.

Definition focus_handle (i : ListItem) : option FocusHandle :=
  match i with Unmeasured _ f | Measured _ f => f end.

(** [ListItem::contains_focused], given which handles the window has focused. *)
Definition contains_focused (focused : FocusHandle -> bool) (i : ListItem) : bool :=
  match focus_handle i with Some h => focused h | None => false end.

(** The item as it is when its size is forgotten. *)
Definition unmeasured (i : ListItem) : ListItem := Unmeasured (size_hint i) (focus_handle i).

Definition item_summary (i : ListItem) : ListItemSummary :=
  match i with
  | Unmeasured h f =>
      mkListItemSummary 1 0 1 (match h with Some s => height s | None => 0 end) (bool_decide (is_Some f))
        (bool_decide (h = None))
  | Measured s f => mkListItemSummary 1 1 0 (height s) (bool_decide (is_Some f)) false
  end.

#[export] Instance list_item : Item unit ListItem ListItemSummary := { summary _ i := item_summary i }.
End Items.

Arguments ListItem : clear implicits.

#[export] Instance list_item_summary : Summary unit ListItemSummary := {
  zero _ := mkListItemSummary 0 0 0 0 false false;
  add_summary _ a b :=
    mkListItemSummary (count a + count b) (rendered_count a + rendered_count b)
      (unrendered_count a + unrendered_count b) (total_height a + total_height b)
      (has_focus_handles a || has_focus_handles b) (has_unknown_height a || has_unknown_height b);
}.

#[export] Instance count_dimension : Dimension unit ListItemSummary Count := {
  dim_zero _ := mkCount 0;
  dim_add_summary _ d s := mkCount (count_of d + count s);
}.

#[export] Instance height_dimension : Dimension unit ListItemSummary Height := {
  dim_zero _ := mkHeight 0;
  dim_add_summary _ d s := mkHeight (height_of d + total_height s);
}.

(** [impl SeekTarget<ListItemSummary> for Count], [for Height]; a count among counts
    and among the dimensions that start with one. *)
#[export] Instance count_in_summary : SeekTarget unit ListItemSummary Count := {
  target_cmp _ t d := Nat.compare (count_of t) (count d);
}.

#[export] Instance height_in_summary : SeekTarget unit ListItemSummary Height := {
  target_cmp _ t d := Z.compare (height_of t) (total_height d);
}.

#[export] Instance count_in_count : SeekTarget unit Count Count := {
  target_cmp _ t d := Nat.compare (count_of t) (count_of d);
}.

#[export] Instance count_in_dimensions : SeekTarget unit (Count * Height) Count := {
  target_cmp cx t d := target_cmp cx t d.1;
}.

(** ** The state *)

Section State.
Context {FocusHandle Handler : Type}.
Abbreviation item_tree := (tree (ListItem FocusHandle) ListItemSummary).

Record StateInner := mkStateInner {
  last_layout_bounds : option Bounds;
  last_padding : option Edges;
  items : item_tree;
  scroll_position : option ListOffset;
  alignment : ListAlignment;
  overdraw : Z;
  was_reset : bool;
  scroll_handler : option Handler;
  scrollbar_drag_start_height : option Z;
  measuring_behavior : ListMeasuringBehavior;
  pending_scroll : option PendingScroll;
  follow_state : FollowState;
}.
Implicit Types s : StateInner.

Definition with_items s (t : item_tree) : StateInner :=
  mkStateInner (last_layout_bounds s) (last_padding s) t (scroll_position s) (alignment s) (overdraw s)
    (was_reset s) (scroll_handler s) (scrollbar_drag_start_height s) (measuring_behavior s) (pending_scroll s)
    (follow_state s).

Definition with_scroll s (o : option ListOffset) : StateInner :=
  mkStateInner (last_layout_bounds s) (last_padding s) (items s) o (alignment s) (overdraw s)
    (was_reset s) (scroll_handler s) (scrollbar_drag_start_height s) (measuring_behavior s) (pending_scroll s)
    (follow_state s).

Definition with_pending s (p : option PendingScroll) : StateInner :=
  mkStateInner (last_layout_bounds s) (last_padding s) (items s) (scroll_position s) (alignment s) (overdraw s)
    (was_reset s) (scroll_handler s) (scrollbar_drag_start_height s) (measuring_behavior s) p (follow_state s).

Definition with_follow s (f : FollowState) : StateInner :=
  mkStateInner (last_layout_bounds s) (last_padding s) (items s) (scroll_position s) (alignment s) (overdraw s)
    (was_reset s) (scroll_handler s) (scrollbar_drag_start_height s) (measuring_behavior s) (pending_scroll s) f.

Definition with_measuring s (m : ListMeasuringBehavior) : StateInner :=
  mkStateInner (last_layout_bounds s) (last_padding s) (items s) (scroll_position s) (alignment s) (overdraw s)
    (was_reset s) (scroll_handler s) (scrollbar_drag_start_height s) m (pending_scroll s) (follow_state s).

Definition with_drag s (h : option Z) : StateInner :=
  mkStateInner (last_layout_bounds s) (last_padding s) (items s) (scroll_position s) (alignment s) (overdraw s)
    (was_reset s) (scroll_handler s) h (measuring_behavior s) (pending_scroll s) (follow_state s).

Definition with_reset s (r : bool) : StateInner :=
  mkStateInner (last_layout_bounds s) (last_padding s) (items s) (scroll_position s) (alignment s) (overdraw s)
    r (scroll_handler s) (scrollbar_drag_start_height s) (measuring_behavior s) (pending_scroll s) (follow_state s).

Definition with_layout s (b : option Bounds) (p : option Edges) : StateInner :=
  mkStateInner b p (items s) (scroll_position s) (alignment s) (overdraw s)
    (was_reset s) (scroll_handler s) (scrollbar_drag_start_height s) (measuring_behavior s) (pending_scroll s)
    (follow_state s).

Definition set_scroll_handler s (h : Handler) : StateInner :=
  mkStateInner (last_layout_bounds s) (last_padding s) (items s) (scroll_position s) (alignment s) (overdraw s)
    (was_reset s) (Some h) (scrollbar_drag_start_height s) (measuring_behavior s) (pending_scroll s) (follow_state s).

(** [state.items.cursor::<D>(())] *)
Definition count_cursor (t : item_tree) : Cursor (ListItem FocusHandle) ListItemSummary Count := cursor_new tt t.
Definition summary_cursor (t : item_tree) : Cursor (ListItem FocusHandle) ListItemSummary ListItemSummary :=
  cursor_new tt t.
Definition dimensions_cursor (t : item_tree) : Cursor (ListItem FocusHandle) ListItemSummary (Count * Height) :=
  cursor_new tt t.

Definition item_count s : nat := count (node_summary (items s)).

(** *** Edits of the items *)

Definition splice_focusable s (start end_ : nat) (focus_handles : list (option FocusHandle)) : outcome StateInner :=
  let! (old_items, new_items) := slice tt (count_cursor (items s)) (mkCount start) Right in
  let! (old_items, _) := seek_forward tt old_items (mkCount end_) Right in
  let spliced_count := length focus_handles in
  let! new_items := SumTree.extend tt new_items (map (Unmeasured None) focus_handles) in
  let! (_, rest) := suffix tt old_items in
  let! new_items := append tt new_items rest in
  let s := with_items s new_items in
  match scroll_position s with
  | Some o =>
      if range_contains start end_ (item_ix o) then Ok (with_scroll s (Some (mkListOffset start 0)))
      else if (end_ <=? item_ix o)%nat then
        let! removed := usize_sub end_ start in
        let! ix := usize_sub (item_ix o) removed in
        Ok (with_scroll s (Some (mkListOffset (ix + spliced_count) (offset_in_item o))))
      else Ok s
  | None => Ok s
  end.

Definition splice s (start end_ count : nat) : outcome StateInner :=
  splice_focusable s start end_ (repeat None count).

Definition list_new (item_count : nat) (a : ListAlignment) (overdraw : Z) : outcome StateInner :=
  splice (mkStateInner None None (SumTree.new tt) None a overdraw false None None Visible None StateNormal)
    0 0 item_count.

Definition measure_all s : StateInner := with_measuring s (Measure false).

Definition reset s (element_count : nat) : outcome StateInner :=
  let s := with_reset s true in
  let s := with_measuring s (measuring_reset (measuring_behavior s)) in
  let s := with_scroll s None in
  let s := with_pending s None in
  let s := with_drag s None in
  let old_count := item_count s in
  splice s 0 old_count element_count.

(** What [apply_uniform_item_height] makes of an item. *)
Definition with_hint (hint : Size) (i : ListItem FocusHandle) : ListItem FocusHandle :=
  Unmeasured (Some (match size_hint i with Some s => s | None => hint end)) (focus_handle i).

Definition apply_uniform_item_height s (h : Z) : outcome StateInner :=
  let hint := mkSize 0 h in
  let! l := iter_collect (items s) in
  let! t := SumTree.extend tt (SumTree.new tt) (map (with_hint hint) l) in
  Ok (with_items s t).

Definition reset_with_uniform_height s (element_count : nat) (h : Z) : outcome StateInner :=
  let! s := reset s element_count in
  apply_uniform_item_height s h.

(** The pending scroll that [remeasure_items_with_scroll_anchor] records. *)
Definition anchor_scroll s (a : ScrollAnchor) (scroll_top : ListOffset) : outcome (option PendingScroll) :=
  match a with
  | AnchorAbsolute => Ok (Some (Absolute (item_ix scroll_top) (offset_in_item scroll_top)))
  | AnchorProportional =>
      let! (c, _) := seek tt (count_cursor (items s)) (mkCount (item_ix scroll_top)) Right in
      let! o := item c in
      Ok (match o with
          | Some i =>
              match item_size i with
              | Some sz =>
                  let f := if height sz >? 0 then fraction_of (offset_in_item scroll_top) (height sz)
                           else fraction_zero in
                  Some (Proportional (mkPendingFraction (item_ix scroll_top) f))
              | None => pending_scroll s
              end
          | None => pending_scroll s
          end)
  end.

Definition remeasure_items_with_scroll_anchor s (start end_ : nat) (a : ScrollAnchor) : outcome StateInner :=
  let! s := (match scroll_position s with
             | Some scroll_top =>
                 if range_contains start end_ (item_ix scroll_top) then
                   let! p := anchor_scroll s a scroll_top in Ok (with_pending s p)
                 else Ok s
             | None => Ok s
             end) in
  let! (c, new_items) := slice tt (count_cursor (items s)) (mkCount start) Right in
  let! (c, invalidated) := slice tt c (mkCount end_) Right in
  let! l := iter_collect invalidated in
  let! new_items := SumTree.extend tt new_items (map unmeasured l) in
  let! (_, rest) := suffix tt c in
  let! new_items := append tt new_items rest in
  let s := with_items s new_items in
  Ok (with_measuring s (measuring_reset (measuring_behavior s))).

Definition remeasure_items s (start end_ : nat) : outcome StateInner :=
  remeasure_items_with_scroll_anchor s start end_ AnchorAbsolute.

Definition remeasure s : outcome StateInner :=
  remeasure_items_with_scroll_anchor s 0 (item_count s) AnchorProportional.

(** *** The scroll position *)

Definition logical_scroll_top s : ListOffset :=
  match scroll_position s with
  | Some o => o
  | None => match alignment s with
            | AlignTop => mkListOffset 0 0
            | AlignBottom => mkListOffset (item_count s) 0
            end
  end.

Definition scroll_top s (o : ListOffset) : outcome Z :=
  let! (c, _) := seek tt (summary_cursor (items s)) (mkCount (item_ix o)) Right in
  Ok (total_height (start c) + offset_in_item o).

Definition rebase_pending_scroll s (o : ListOffset) : outcome StateInner :=
  match pending_scroll s with
  | None => Ok s
  | Some pending =>
      let s := with_pending s None in
      if (item_count s <=? item_ix o)%nat then Ok s
      else
        let! p := (match pending with
                   | Absolute _ _ => Ok (Some (Absolute (item_ix o) (offset_in_item o)))
                   | Proportional _ =>
                       let! (c, _) := seek tt (count_cursor (items s)) (mkCount (item_ix o)) Right in
                       let! i := item c in
                       Ok (match i with
                           | Some i =>
                               match size_hint i with
                               | Some sz =>
                                   if height sz >? 0 then
                                     Some (Proportional (mkPendingFraction (item_ix o)
                                             (fraction_of (offset_in_item o) (height sz))))
                                   else None
                               | None => None
                               end
                           | None => None
                           end)
                   end) in
        Ok (with_pending s p)
  end.

(** [rebase_pending_scroll] and the assignment of the position, as every caller
    combines them. *)
Definition set_scroll_top s (o : ListOffset) : outcome StateInner :=
  let! s := rebase_pending_scroll s o in
  Ok (with_scroll s (Some o)).

(** The position past the last item. *)
Definition end_offset s : ListOffset := mkListOffset (item_count s) 0.

Definition scroll_by s (distance : Z) : outcome StateInner :=
  if distance =? 0 then Ok s
  else
    let current_offset := logical_scroll_top s in
    let s := if distance <? 0 then with_follow s (stop_following (follow_state s)) else s in
    let! (c, _) := seek tt (summary_cursor (items s)) (mkCount (item_ix current_offset)) Right in
    let start_pixel_offset := total_height (start c) + offset_in_item current_offset in
    let new_pixel_offset := Z.max (start_pixel_offset + distance) 0 in
    let! (c, _) := (if new_pixel_offset >? start_pixel_offset
                    then seek_forward tt c (mkHeight new_pixel_offset) Right
                    else seek tt c (mkHeight new_pixel_offset) Right) in
    set_scroll_top s (mkListOffset (count (start c)) (new_pixel_offset - total_height (start c))).

Definition scroll_to_end s : StateInner :=
  let s := with_pending s None in
  with_scroll s (Some (end_offset s)).

Definition set_follow_mode s (mode : FollowMode) : StateInner :=
  match mode with
  | FollowNormal => with_follow s StateNormal
  | FollowTail =>
      let s := with_follow s (StateTail true) in
      let s := with_pending s None in
      with_scroll s (Some (end_offset s))
  end.

Definition set_follow_tail s (follow : bool) : StateInner :=
  set_follow_mode s (if follow then FollowTail else FollowNormal).

Definition is_following_tail s : bool := is_following (follow_state s).

Definition scroll_to s (o : ListOffset) : outcome StateInner :=
  let item_count := item_count s in
  let o := if (item_count <=? item_ix o)%nat then mkListOffset item_count 0 else o in
  let s := if (item_ix o <? item_count)%nat then with_follow s (stop_following (follow_state s)) else s in
  set_scroll_top s o.

Definition scroll_to_reveal_item s (ix : nat) : outcome StateInner :=
  let o := logical_scroll_top s in
  let h := match last_layout_bounds s with Some b => height (size b) | None => 0 end in
  let padding := match last_padding s with Some p => p | None => edges_default end in
  let! o := (if (ix <=? item_ix o)%nat then Ok (mkListOffset ix 0)
             else
               let! (c, _) := seek tt (summary_cursor (items s)) (mkCount (ix + 1)) Right in
               let bottom := total_height (start c) + top_edge padding in
               let goal_top := Z.max 0 (bottom - h + bottom_edge padding) in
               let! (c, _) := seek tt c (mkHeight goal_top) Left in
               let start_ix := count (start c) in
               let start_item_top := total_height (start c) in
               Ok (if (item_ix o <=? start_ix)%nat then mkListOffset start_ix (goal_top - start_item_top) else o)) in
  set_scroll_top s o.

(** *** Reading positions *)

Definition max_scroll_offset s : Z :=
  let bounds := match last_layout_bounds s with Some b => b | None => bounds_default end in
  let h := match scrollbar_drag_start_height s with
           | Some h => h
           | None => total_height (node_summary (items s))
           end in
  Z.max (h - height (size bounds)) 0.

Definition is_scrolled_to_end s : outcome (option bool) :=
  match last_layout_bounds s with
  | None => Ok None
  | Some bounds =>
      let summary := node_summary (items s) in
      if has_unknown_height summary then Ok None
      else
        let padding := match last_padding s with Some p => p | None => edges_default end in
        let content_height := total_height summary + top_edge padding + bottom_edge padding in
        let scroll_max := Z.max (content_height - height (size bounds)) 0 in
        if scroll_max <=? 0 then Ok None
        else let! y := scroll_top s (logical_scroll_top s) in Ok (Some (y >=? scroll_max))
  end.

Definition bounds_for_item s (ix : nat) : outcome (option Bounds) :=
  let bounds := match last_layout_bounds s with Some b => b | None => bounds_default end in
  let o := logical_scroll_top s in
  if (ix <? item_ix o)%nat then Ok None
  else
    let! (c, _) := seek tt (dimensions_cursor (items s)) (mkCount (item_ix o)) Right in
    let scroll_top := height_of (start c).2 + offset_in_item o in
    let! (c, _) := seek_forward tt c (mkCount ix) Right in
    let! i := item c in
    match i with
    | Some (Measured sz _) =>
        let top_ := height_of (start c).2 in
        if (count_of (start c).1 =? ix)%nat then
          let top_ := top bounds + top_ - scroll_top in
          Ok (Some (from_corners (mkPoint (left_ bounds) top_) (mkPoint (right_ bounds) (top_ + height sz))))
        else Ok None
    | _ => Ok None
    end.

Definition viewport_bounds s : Bounds :=
  match last_layout_bounds s with Some b => b | None => bounds_default end.

Definition item_is_above_viewport s (ix : nat) : outcome (option bool) :=
  let v := viewport_bounds s in
  if height (size v) =? 0 then Ok None
  else if (ix <? item_ix (logical_scroll_top s))%nat then Ok (Some true)
  else let! b := bounds_for_item s ix in
       Ok (option_map (fun b => bottom b <=? top v) b).

Definition item_is_below_viewport s (ix : nat) : outcome (option bool) :=
  let v := viewport_bounds s in
  if height (size v) =? 0 then Ok None
  else if (ix <? item_ix (logical_scroll_top s))%nat then Ok (Some false)
  else let! b := bounds_for_item s ix in
       Ok (option_map (fun b => top b >=? bottom v) b).

(** *** The scrollbar *)

Definition scrollbar_drag_started s : StateInner :=
  with_drag s (Some (total_height (node_summary (items s)))).

Definition scrollbar_drag_ended s : StateInner := with_drag s None.

Definition is_scrollbar_dragging s : bool := bool_decide (is_Some (scrollbar_drag_start_height s)).

Definition max_offset_for_scrollbar s : Size := mkSize 0 (max_scroll_offset s).

Definition scroll_px_offset_for_scrollbar s : outcome Point :=
  match scroll_position s, alignment s with
  | None, AlignBottom => Ok (mkPoint 0 (- max_scroll_offset s))
  | _, _ =>
      let o := logical_scroll_top s in
      let! (_, summary) := cursor_summary (O := ListItemSummary) tt (summary_cursor (items s))
                             (mkCount (item_ix o)) Right in
      Ok (mkPoint 0 (- (total_height summary + offset_in_item o)))
  end.

(** The index and offset of a distance from the top of the list. *)
Definition offset_at (t : item_tree) (y : Z) : outcome ListOffset :=
  let! (c, _) := seek tt (summary_cursor t) (mkHeight y) Right in
  Ok (mkListOffset (count (start c)) (y - total_height (start c))).

Definition set_offset_from_scrollbar s (point : Point) : outcome StateInner :=
  match last_layout_bounds s with
  | None => Ok s
  | Some bounds =>
      let h := height (size bounds) in
      let padding := match last_padding s with Some p => p | None => edges_default end in
      let content_height := match scrollbar_drag_start_height s with
                            | Some h => h
                            | None => total_height (node_summary (items s))
                            end in
      let scroll_max := Z.max (content_height + top_edge padding + bottom_edge padding - h) 0 in
      let new_scroll_top := Z.min (Z.max (- py point) 0) scroll_max in
      let dragged_to_end := (scroll_max >? 0) && (new_scroll_top >=? Z.max (scroll_max - 1) 0) in
      if dragged_to_end && match follow_state s with StateTail _ => true | StateNormal => false end then
        let s := with_follow s (StateTail true) in
        let s := with_pending s None in
        Ok (with_scroll s (Some (end_offset s)))
      else
        let s := with_follow s (stop_following (follow_state s)) in
        if match alignment s with AlignBottom => new_scroll_top =? scroll_max | AlignTop => false end then
          Ok (with_scroll (with_pending s None) None)
        else
          let! o := offset_at (items s) new_scroll_top in
          set_scroll_top s o
  end.

(** *** Scroll events *)

Record ListScrollEvent := mkListScrollEvent {
  visible_start : nat;
  visible_end : nat;
  event_count : nat;
  is_scrolled : bool;
  event_following_tail : bool;
}.

Definition visible_range (t : item_tree) (h : Z) (o : ListOffset) : outcome (nat * nat) :=
  let! (c, _) := seek tt (summary_cursor t) (mkCount (item_ix o)) Right in
  let start_y := total_height (start c) + offset_in_item o in
  let! (c, _) := seek_forward tt c (mkHeight (start_y + h)) Left in
  Ok (item_ix o, (count (start c) + 1)%nat).

(** [StateInner::scroll]: the state, and the event for the handler if there is one. *)
Definition scroll s (o : ListOffset) (h : Z) (delta : Point) : outcome (StateInner * option (Handler * ListScrollEvent)) :=
  if was_reset s then Ok (s, None)
  else
    let padding := match last_padding s with Some p => p | None => edges_default end in
    let scroll_max := Z.max (total_height (node_summary (items s)) + top_edge padding + bottom_edge padding - h) 0 in
    let! y := scroll_top s o in
    let new_scroll_top := Z.min (Z.max (y - py delta) 0) scroll_max in
    let! scroll_top_after_event := offset_at (items s) new_scroll_top in
    let! s := (if match alignment s with AlignBottom => new_scroll_top =? scroll_max | AlignTop => false end then
                 Ok (with_scroll (with_pending s None) None)
               else set_scroll_top s scroll_top_after_event) in
    let s := if py delta >? 0 then with_follow s (stop_following (follow_state s)) else s in
    match scroll_handler s with
    | Some handler =>
        let! (a, b) := visible_range (items s) h scroll_top_after_event in
        Ok (s, Some (handler, mkListScrollEvent a b (item_count s) (bool_decide (is_Some (scroll_position s)))
                                (is_following (follow_state s))))
    | None => Ok (s, None)
    end.

(** ** The layout of a frame *)

Section Layout.
Context {Element : Type}.
Variable render_item : nat -> Element.
(** [layout_as_root], given the available width, if it is definite. *)
Variable layout_as_root : Element -> option Z -> Size.
(** The handles the window has focused. *)
Variable focused : FocusHandle -> bool.
(** The bounds that prepainting an element at a point asks to scroll to, if any. *)
Variable prepaint_at : Element -> Point -> option Bounds.

Definition measure (available_width : option Z) (ix : nat) : Size := layout_as_root (render_item ix) available_width.

Fixpoint measure_items (available_width : Z) (ix : nat) (l : list (ListItem FocusHandle)) : list (ListItem FocusHandle) :=
  match l with
  | [] => []
  | i :: l =>
      let sz := match item_size i with Some sz => sz | None => measure (Some available_width) ix end in
      Measured sz (focus_handle i) :: measure_items available_width (S ix) l
  end.

Definition layout_all_items s (available_width : Z) : outcome StateInner :=
  match measuring_behavior s with
  | Visible | Measure true => Ok s
  | Measure false =>
      let s := with_measuring s (Measure true) in
      let! l := iter_collect (items s) in
      let! t := from_iter tt (measure_items available_width 0 l) in
      Ok (with_items s t)
  end.

Record ItemLayout := mkItemLayout { layout_index : nat; element : Element; layout_size : Size }.

Record LayoutItemsResponse := mkLayoutItemsResponse {
  max_item_width : Z;
  response_scroll_top : ListOffset;
  item_layouts : list ItemLayout;
}.

(** The local variables of [layout_items], and the state it changes. *)
Record Layout := mkLayout {
  layout_state : StateInner;
  measured_items : list (ListItem FocusHandle);
  layouts : list ItemLayout;
  rendered_height : Z;
  max_width : Z;
  layout_scroll_top : ListOffset;
  rendered_focused_item : bool;
}.

(** The pending scroll, applied to the first item when it has been measured. *)
Definition apply_pending_scroll s (o : ListOffset) (element_size : Size) : StateInner * ListOffset :=
  match pending_scroll s with
  | None => (s, o)
  | Some pending =>
      let s := with_pending s None in
      match pending with
      | Absolute ix offset =>
          if (ix =? item_ix o)%nat then
            let o := mkListOffset (item_ix o) (Z.min offset (height element_size)) in (with_scroll s (Some o), o)
          else (s, o)
      | Proportional p =>
          if (pending_item_ix p =? item_ix o)%nat then
            let o := mkListOffset (item_ix o) (times_fraction (height element_size) (fraction p)) in
            (with_scroll s (Some o), o)
          else (s, o)
      end
  end.

(** The body of the first loop, after its [break]. *)
Definition layout_item (available_width : option Z) (available_height : Z) (ix : nat) (i : ListItem FocusHandle)
    (l : Layout) : outcome Layout :=
  let visible_height := rendered_height l - offset_in_item (layout_scroll_top l) in
  let sz := item_size i in
  let '(l, sz) :=
    if (visible_height <? available_height) || bool_decide (sz = None) then
      let item_index := (item_ix (layout_scroll_top l) + ix)%nat in
      let element := render_item item_index in
      let element_size := layout_as_root element available_width in
      let (s, o) := if (ix =? 0)%nat then apply_pending_scroll (layout_state l) (layout_scroll_top l) element_size
                    else (layout_state l, layout_scroll_top l) in
      if visible_height <? available_height then
        (mkLayout s (measured_items l) (layouts l ++ [mkItemLayout item_index element element_size])
           (rendered_height l) (max_width l) o (rendered_focused_item l || contains_focused focused i), Some element_size)
      else
        (mkLayout s (measured_items l) (layouts l) (rendered_height l) (max_width l) o (rendered_focused_item l),
         Some element_size)
    else (l, sz) in
  let! sz := unwrap sz in
  Ok (mkLayout (layout_state l) (measured_items l ++ [Measured sz (focus_handle i)]) (layouts l)
        (rendered_height l + height sz) (Z.max (max_width l) (width sz)) (layout_scroll_top l) (rendered_focused_item l)).

(** The first loop: the items from the scroll top on. *)
Fixpoint layout_after (fuel : nat) (available_width : option Z) (available_height : Z)
    (c : Cursor (ListItem FocusHandle) ListItemSummary Count) (ix : nat) (l : Layout) : outcome Layout :=
  match fuel with
  | O => OutOfFuel
  | S fuel =>
      let! (c, o) := cursor_iter_next tt c in
      match o with
      | None => Ok l
      | Some i =>
          let visible_height := rendered_height l - offset_in_item (layout_scroll_top l) in
          if visible_height >=? available_height + overdraw (layout_state l) then Ok l
          else let! l := layout_item available_width available_height ix i l in
               layout_after fuel available_width available_height c (S ix) l
      end
  end.

(** The second: items before the scroll top, while the viewport is not full. *)
Fixpoint layout_before (fuel : nat) (available_width : option Z) (available_height : Z)
    (c : Cursor (ListItem FocusHandle) ListItemSummary Count) (l : Layout)
    : outcome (Cursor (ListItem FocusHandle) ListItemSummary Count * Layout) :=
  if rendered_height l <? available_height then
    match fuel with
    | O => OutOfFuel
    | S fuel =>
        let! c := cursor_prev tt c in
        let! o := item c in
        match o with
        | None => Ok (c, l)
        | Some i =>
            let item_index := count_of (start c) in
            let element := render_item item_index in
            let element_size := layout_as_root element available_width in
            layout_before fuel available_width available_height c
              (mkLayout (layout_state l) (Measured element_size (focus_handle i) :: measured_items l)
                 (mkItemLayout item_index element element_size :: layouts l)
                 (rendered_height l + height element_size) (max_width l) (layout_scroll_top l)
                 (rendered_focused_item l || contains_focused focused i))
        end
    end
  else Ok (c, l).

(** The third: the items in the leading overdraw. *)
Fixpoint layout_leading (fuel : nat) (available_width : option Z)
    (c : Cursor (ListItem FocusHandle) ListItemSummary Count) (overdraw leading_overdraw : Z)
    (measured : list (ListItem FocusHandle))
    : outcome (Cursor (ListItem FocusHandle) ListItemSummary Count * list (ListItem FocusHandle)) :=
  if leading_overdraw <? overdraw then
    match fuel with
    | O => OutOfFuel
    | S fuel =>
        let! c := cursor_prev tt c in
        let! o := item c in
        match o with
        | None => Ok (c, measured)
        | Some i =>
            let sz := match i with
                      | Measured sz _ => sz
                      | Unmeasured _ _ => measure available_width (count_of (start c))
                      end in
            layout_leading fuel available_width c overdraw (leading_overdraw + height sz)
              (Measured sz (focus_handle i) :: measured)
        end
    end
  else Ok (c, measured).

(** The last: the first item with the focus, among those with a focus handle. *)
Fixpoint find_focused (fuel : nat) (fc : FilterCursor (T := ListItem FocusHandle) (S := ListItemSummary) (D := Count))
    : outcome (option nat) :=
  match fuel with
  | O => OutOfFuel
  | S fuel =>
      let! o := filter_item fc in
      match o with
      | None => Ok None
      | Some i =>
          if contains_focused focused i then Ok (Some (count_of (filter_start fc)))
          else let! fc := filter_next tt fc in find_focused fuel fc
      end
  end.

(** The adjustment of the scroll top after the second loop. *)
Definition fill_viewport (available_height : Z) (c : Cursor (ListItem FocusHandle) ListItemSummary Count) (l : Layout)
    : Layout :=
  let o := mkListOffset (count_of (start c)) (rendered_height l - available_height) in
  let '(s, o) :=
    match alignment (layout_state l) with
    | AlignTop => let o := mkListOffset (item_ix o) (Z.max (offset_in_item o) 0) in
                  (with_scroll (layout_state l) (Some o), o)
    | AlignBottom => (with_scroll (layout_state l) None, o)
    end in
  mkLayout s (measured_items l) (layouts l) (rendered_height l) (max_width l) o (rendered_focused_item l).

(** The items with the measured ones put in their place. *)
Definition replace_measured (old_items : item_tree) (first : nat) (measured : list (ListItem FocusHandle))
    : outcome item_tree :=
  let! (c, new_items) := slice tt (count_cursor old_items) (mkCount first) Right in
  let! new_items := SumTree.extend tt new_items measured in
  let! (c, _) := seek tt c (mkCount (first + length measured)) Right in
  let! (_, rest) := suffix tt c in
  append tt new_items rest.

(** Following the tail again, once the end is in sight. *)
Definition resume_following s (o : ListOffset) (available_height : Z) : outcome StateInner :=
  if has_stopped_following (follow_state s) then
    let padding := match last_padding s with Some p => p | None => edges_default end in
    let total_height := total_height (node_summary (items s)) + top_edge padding + bottom_edge padding in
    let! scroll_offset := scroll_top s o in
    if scroll_offset + available_height >=? total_height - 1 then
      Ok (with_follow s (start_following (follow_state s)))
    else Ok s
  else Ok s.

(** The layout of the focused item, if it is off screen. *)
Definition focused_layout (available_width : option Z) (t : item_tree) : outcome (list ItemLayout) :=
  let! fc := filter_next tt (filter_new tt t has_focus_handles) in
  let! o := find_focused (length (to_list t) + 1) fc in
  Ok (match o with
      | Some ix => let element := render_item ix in [mkItemLayout ix element (layout_as_root element available_width)]
      | None => []
      end).

(** [layout_items] up to the new items. *)
Definition layout_measured s (available_width : option Z) (available_height : Z) (padding : Edges)
    : outcome (StateInner * Layout) :=
  let old_items := items s in
  let fuel := (length (to_list old_items) + 1)%nat in
  let o := logical_scroll_top s in
  let '(s, o) := if is_following (follow_state s) then (with_scroll s (Some (end_offset s)), end_offset s) else (s, o) in
  let! (c, _) := seek tt (count_cursor old_items) (mkCount (item_ix o)) Right in
  let! l := layout_after fuel available_width available_height c 0 (mkLayout s [] [] (top_edge padding) 0 o false) in
  let l := mkLayout (layout_state l) (measured_items l) (layouts l) (rendered_height l + bottom_edge padding)
             (max_width l) (layout_scroll_top l) (rendered_focused_item l) in
  let! (c, _) := seek tt (count_cursor old_items) (mkCount (item_ix (layout_scroll_top l))) Right in
  let! (c, l) := (if rendered_height l - offset_in_item (layout_scroll_top l) <? available_height then
                    let! (c, l) := layout_before fuel available_width available_height c l in
                    Ok (c, fill_viewport available_height c l)
                  else Ok (c, l)) in
  let o := layout_scroll_top l in
  let! (c, measured) := layout_leading fuel available_width c (overdraw (layout_state l)) (offset_in_item o)
                          (measured_items l) in
  let! new_items := replace_measured old_items (count_of (start c)) measured in
  Ok (with_items (layout_state l) new_items, l).

Definition layout_items s (available_width : option Z) (available_height : Z) (padding : Edges)
    : outcome (StateInner * LayoutItemsResponse) :=
  let! (s, l) := layout_measured s available_width available_height padding in
  let! s := resume_following s (layout_scroll_top l) available_height in
  let! extra := (if rendered_focused_item l then Ok [] else focused_layout available_width (items s)) in
  Ok (s, mkLayoutItemsResponse (max_width l) (layout_scroll_top l) (layouts l ++ extra)).

(** *** Prepainting *)

(** The loop of [prepaint_items] that scrolls up to show the bottom of an element. *)
Fixpoint scroll_up_to_fit (fuel : nat) (width : Z) (c : Cursor (ListItem FocusHandle) ListItemSummary Count) (h : Z)
    : outcome (Cursor (ListItem FocusHandle) ListItemSummary Count * Z) :=
  if h >? 0 then
    match fuel with
    | O => OutOfFuel
    | S fuel =>
        let! c := cursor_prev tt c in
        let! o := item c in
        match o with
        | None => Ok (c, h)
        | Some i =>
            let sz := match item_size i with
                      | Some sz => sz
                      | None => measure (Some width) (count_of (start c))
                      end in
            scroll_up_to_fit fuel width c (h - height sz)
        end
    end
  else Ok (c, h).

(** The loop of [prepaint_items] over the layouts: the position to scroll to, if an
    element asks for one. *)
Fixpoint prepaint_layouts s (bounds : Bounds) (padding : Edges) (autoscroll : bool) (ls : list ItemLayout)
    (item_origin : Point) : outcome (option ListOffset) :=
  match ls with
  | [] => Ok None
  | it :: ls =>
      let continue := prepaint_layouts s bounds padding autoscroll ls
                        (mkPoint (px item_origin) (py item_origin + height (layout_size it))) in
      match prepaint_at (element it) item_origin with
      | Some autoscroll_bounds =>
          if autoscroll then
            if top autoscroll_bounds <? top bounds then
              Ok (Some (mkListOffset (layout_index it) (top autoscroll_bounds - py item_origin)))
            else if bottom autoscroll_bounds >? bottom bounds then
              let! (c, _) := seek tt (count_cursor (items s)) (mkCount (layout_index it)) Right in
              let h := height (size bounds) - top_edge padding - bottom_edge padding in
              let h := h - (bottom autoscroll_bounds - py item_origin) in
              let! (c, h) := scroll_up_to_fit (length (to_list (items s)) + 1) (width (size bounds)) c h in
              Ok (Some (mkListOffset (count_of (start c)) (if h <? 0 then - h else 0)))
            else continue
          else continue
      | None => continue
      end
  end.

(** [prepaint_items]: [inr] is the position that an element asks to scroll to. *)
Definition prepaint_items s (bounds : Bounds) (padding : Edges) (autoscroll : bool)
    : outcome (StateInner * (LayoutItemsResponse + ListOffset)) :=
  let! s := (match measuring_behavior s with
             | Measure false => layout_all_items s (width (size bounds))
             | _ => Ok s
             end) in
  let! (s, r) := layout_items s (Some (width (size bounds))) (height (size bounds)) padding in
  if height (size bounds) >? top_edge padding + bottom_edge padding then
    let item_origin := point_add (origin bounds) (mkPoint 0 (top_edge padding)) in
    let item_origin := mkPoint (px item_origin) (py item_origin - offset_in_item (response_scroll_top r)) in
    let! o := prepaint_layouts s bounds padding autoscroll (item_layouts r) item_origin in
    match o with
    | Some o => Ok (s, inr o)
    | None => Ok (s, inl r)
    end
  else Ok (s, inl (mkLayoutItemsResponse (max_item_width r) (response_scroll_top r) [])).

(** The first part of [List::prepaint]: a new width invalidates the sizes. *)
Definition invalidate_sizes s (bounds : Bounds) : outcome StateInner :=
  if match last_layout_bounds s with
     | None => true
     | Some last_bounds => negb (width (size last_bounds) =? width (size bounds))
     end then
    let! l := iter_collect (items s) in
    let! t := from_iter tt (map unmeasured l) in
    let s := with_items s t in
    Ok (with_measuring s (measuring_reset (measuring_behavior s)))
  else Ok s.

(** [List::prepaint], given the bounds and the padding in pixels. *)
Definition list_prepaint s (bounds : Bounds) (padding : Edges) : outcome (StateInner * LayoutItemsResponse) :=
  let s := with_reset s false in
  let! s := invalidate_sizes s bounds in
  let! (s, r) := prepaint_items s bounds padding true in
  let! (s, layout) := (match r with
                       | inl layout => Ok (s, layout)
                       | inr autoscroll_request =>
                           let s := with_scroll s (Some autoscroll_request) in
                           let! (s, r) := prepaint_items s bounds padding false in
                           match r with inl layout => Ok (s, layout) | inr _ => Panic end
                       end) in
  Ok (with_layout s (Some bounds) (Some padding), layout).

(** *** Requesting a layout *)

(** [List::request_layout], given the padding in pixels: a list whose size is inferred lays
    out its items, without a width and in the height of the last frame; the greatest width
    of an element and the height of the items are for [inferred_list_size]. *)
Definition list_request_layout (sizing_behavior : ListSizingBehavior) s (padding : Edges) : outcome (StateInner * option (Z * Z)) :=
  match sizing_behavior with
  | SizingInfer =>
      let available_height := match last_layout_bounds s with Some last_bounds => height (size last_bounds) | None => overdraw s end in
      let! (s, layout_response) := layout_items s None available_height padding in
      Ok (s, Some (max_item_width layout_response, total_height (node_summary (items s))))
  | SizingAuto => Ok (s, None)
  end.
End Layout.
End State.

(** What the closure makes of the two; a definite space is [Some]. *)
Definition inferred_list_size (max_element_width items_height : Z) (known_width available_width available_height : option Z) : Size :=
  mkSize (match known_width with Some w => w | None => match available_width with Some x => x | None => max_element_width end end)
    (match available_height with Some h => Z.min items_height h | None => items_height end).
