(* ===== verification/ListItems.v ===== *)
(** * The items of a list: seeks by count and by height, and the edits

    The first part is what the cursors of ListState compute: a seek by count lands on
    the item of that index, a seek by height on the item at that distance from the
    top.  The second shows that every operation that replaces items acts on the
    flattened list the way its name says, and keeps the state well formed. *)

From stdpp Require Import base list option numbers.
From S2P Require Import Prelude Geometry SumTree Cursor CursorSeek CursorMove ListState.

Local Open Scope Z_scope.

#[export] Instance list_item_summary_laws : SummaryLaws unit ListItemSummary.
Proof.
  split; intros; simpl; [f_equal; try lia; by rewrite orb_assoc|by destruct a].
Qed.

#[export] Instance count_dimension_laws : DimensionLaws unit ListItemSummary Count.
Proof. split. intros. simpl. f_equal. lia. Qed.

#[export] Instance height_dimension_laws : DimensionLaws unit ListItemSummary Height.
Proof. split. intros. simpl. f_equal. lia. Qed.

Section Positions.
Context {FocusHandle : Type}.
Abbreviation item_tree := (tree (ListItem FocusHandle) ListItemSummary).
Implicit Types (l : list (ListItem FocusHandle)) (t : item_tree).

(** The height an item contributes: measured or hinted, else zero. *)
Definition item_height (i : ListItem FocusHandle) : Z := total_height (item_summary i).

Definition heights l : Z := foldr (fun i h => item_height i + h) 0 l.

Lemma heights_cons i l : heights (i :: l) = item_height i + heights l.
Proof. done. Qed.

Lemma heights_app l l' : heights (l ++ l') = heights l + heights l'.
Proof. induction l as [|i l IH]; [done|]. cbn [app]. rewrite !heights_cons, IH. lia. Qed.

Lemma heights_take_S l n i : l !! n = Some i -> heights (take (S n) l) = heights (take n l) + item_height i.
Proof. intros H. rewrite (take_S_r _ _ _ H), heights_app. cbn. lia. Qed.

Lemma heights_split l n : heights l = heights (take n l) + heights (drop n l).
Proof. by rewrite <- heights_app, take_drop. Qed.

(** Heights are not negative. *)
Definition sized (i : ListItem FocusHandle) : Prop := match size_hint i with Some sz => 0 <= height sz | None => True end.

Lemma sized_height i : sized i -> 0 <= item_height i.
Proof. by destruct i as [[sz|] f|sz f]. Qed.

Lemma heights_nonneg l : Forall sized l -> 0 <= heights l.
Proof. induction 1 as [|i l Hi _ IH]; [done|]. rewrite heights_cons. pose proof (sized_height i Hi). lia. Qed.

Lemma heights_take_mono l n m : Forall sized l -> (n <= m)%nat -> heights (take n l) <= heights (take m l).
Proof.
  intros Hl Hnm. rewrite (heights_split (take m l) n), take_take, Nat.min_l by done.
  pose proof (heights_nonneg (drop n (take m l)) (Forall_drop _ _ _ (Forall_take _ _ _ Hl))). lia.
Qed.

(** ** Positions *)

Lemma dim_items_cons {D} `{!Dimension unit ListItemSummary D} (d : D) i l :
  dim_items tt d (i :: l) = dim_items tt (dim_add_summary tt d (item_summary i)) l.
Proof. done. Qed.

Lemma item_summary_count (i : ListItem FocusHandle) : count (item_summary i) = 1%nat.
Proof. by destruct i. Qed.

Lemma count_items d l : count_of (dim_items tt d l) = (count_of d + length l)%nat.
Proof.
  revert d. induction l as [|i l IH]; intros d; [cbn; lia|].
  rewrite dim_items_cons, IH. cbn [dim_add_summary count_dimension count_of length]. rewrite item_summary_count. lia.
Qed.

Lemma height_items d l : height_of (dim_items tt d l) = height_of d + heights l.
Proof.
  revert d. induction l as [|i l IH]; intros d; [cbn; lia|].
  rewrite dim_items_cons, IH. cbn [dim_add_summary height_dimension height_of]. rewrite heights_cons. unfold item_height. lia.
Qed.

Lemma summary_items (d : ListItemSummary) l :
  count (dim_items tt d l) = (count d + length l)%nat /\ total_height (dim_items tt d l) = total_height d + heights l.
Proof.
  revert d. induction l as [|i l IH]; intros d; [cbn; lia|].
  rewrite dim_items_cons. destruct (IH (dim_add_summary tt d (item_summary i))) as [-> ->].
  cbn [dim_add_summary summary_dimension add_summary list_item_summary count total_height length].
  rewrite item_summary_count, heights_cons. unfold item_height. lia.
Qed.

Lemma pair_items (d : Count * Height) l :
  dim_items tt d l = (dim_items tt d.1 l, dim_items tt d.2 l).
Proof.
  revert d. induction l as [|i l IH]; intros [d1 d2]; [done|].
  change (dim_items tt (d1, d2) (i :: l)) with (dim_items tt (dim_add_summary tt (d1, d2) (summary tt i)) l).
  rewrite IH. done.
Qed.

Lemma count_reached l n : (n <= length l)%nat -> position_at tt l n = mkCount n.
Proof.
  intros H. unfold position_at. pose proof (count_items (dim_zero tt) (take n l)) as E.
  destruct (dim_items tt (dim_zero tt) (take n l)) as [m]. cbn in E. rewrite length_take_le in E by done. congruence.
Qed.

Lemma summary_position l n :
  (n <= length l)%nat ->
  count (position_at tt l n : ListItemSummary) = n /\
  total_height (position_at tt l n : ListItemSummary) = heights (take n l).
Proof.
  intros H. unfold position_at. destruct (summary_items (dim_zero tt) (take n l)) as [-> ->].
  rewrite length_take_le by done. cbn. lia.
Qed.

Lemma pair_position l n :
  (n <= length l)%nat -> position_at tt l n = (mkCount n, mkHeight (heights (take n l))).
Proof.
  intros H. pose proof (count_reached l n H) as E. unfold position_at in *. rewrite pair_items. f_equal; [exact E|].
  pose proof (height_items (dim_zero tt) (take n l)) as E'. change (height_of (dim_zero tt)) with 0 in E'.
  rewrite Z.add_0_l in E'. rewrite <- E'. 
  cbn [snd dim_zero prod_dimension]. by destruct (dim_items (D := Height) tt (dim_zero tt) (take n l)).
Qed.

(** ** Seeking an index

    The dimensions in which a cursor over a list can look for a [Count]. *)
Class CountDimension (D : Type) `{Dimension unit ListItemSummary D, SeekTarget unit D Count} : Prop :=
  count_cmp : forall l n m, (m <= length l)%nat ->
    target_cmp tt (mkCount n) (position_at tt l m : D) = Nat.compare n m.

#[export] Instance count_count : CountDimension Count.
Proof. intros l n m H. by rewrite count_reached. Qed.

#[export] Instance summary_count : CountDimension ListItemSummary.
Proof. intros l n m H. cbn. by destruct (summary_position l m H) as [-> _]. Qed.

#[export] Instance pair_count : CountDimension (Count * Height).
Proof. intros l n m H. by rewrite pair_position. Qed.

Section Counting.
Context {D : Type} `{!Dimension unit ListItemSummary D, !DimensionLaws unit ListItemSummary D,
  !SeekTarget unit D Count, !CountDimension D}.
Implicit Types c : Cursor (ListItem FocusHandle) ListItemSummary D.

Lemma lands_count l i0 n i :
  lands (D := D) tt (mkCount n) Right l i0 i -> (i0 <= n)%nat \/ i0 = length l -> i = Nat.min (Nat.max i0 n) (length l).
Proof.
  intros ([Hle Hle'] & Hp & Hstop) Hn. unfold passes in *.
  destruct (decide (i = length l)) as [->|Hne].
  - destruct Hp as [->|Hp]; [lia|]. rewrite count_cmp in Hp by lia. destruct (Nat.compare_spec n (length l)); (lia || done).
  - specialize (Hstop ltac:(lia)). rewrite count_cmp in Hstop by lia.
    destruct (Nat.compare_spec n (S i)); [done| |done].
    destruct Hp as [->|Hp]; [lia|]. rewrite count_cmp in Hp by lia. destruct (Nat.compare_spec n i); (lia || done).
Qed.

Lemma seek_count t c n :
  wf_tree tt t -> (node_height t < STACK_CAPACITY)%nat -> c_tree c = t ->
  exists c' b, seek tt c (mkCount n) Right = Ok (c', b) /\ cursor_at tt t c' (Nat.min n (length (to_list t))).
Proof.
  intros Hw Hh Hc. destruct (seek_ok tt t c (mkCount n) Right Hw Hh Hc) as (c' & i & E & Hat & Hl).
  - pose proof (count_cmp (D := D) (to_list t) n 0) as E. change (position_at tt (to_list t) 0) with (dim_zero tt : D) in E.
    rewrite E by lia. by destruct n.
  - apply lands_count in Hl; [|lia]. rewrite Nat.max_0_l in Hl. subst i. eauto.
Qed.

Lemma seek_forward_count t c i n :
  wf_tree tt t -> (node_height t < STACK_CAPACITY)%nat -> cursor_ready tt t c i -> (i <= n)%nat ->
  (i <= length (to_list t))%nat ->
  exists c' b, seek_forward tt c (mkCount n) Right = Ok (c', b) /\ cursor_at tt t c' (Nat.min n (length (to_list t))).
Proof.
  intros Hw Hh Hc Hn Hi. destruct (seek_forward_panics_iff_backward tt t c i (mkCount n) Right Hw Hh Hc) as [_ Hok].
  destruct Hok as (c' & j & E & Hat & Hl).
  - rewrite count_cmp by done. destruct (Nat.compare_spec n i); (lia || done).
  - apply lands_count in Hl; [|lia]. rewrite Nat.max_r in Hl by done. subst j. eauto.
Qed.

Lemma seek_forward_count_back t c i n :
  wf_tree tt t -> (node_height t < STACK_CAPACITY)%nat -> cursor_ready tt t c i -> (n < i)%nat ->
  (i <= length (to_list t))%nat -> seek_forward tt c (mkCount n) Right = Panic.
Proof.
  intros Hw Hh Hc Hn Hi. apply (seek_forward_panics_iff_backward tt t c i (mkCount n) Right Hw Hh Hc).
  rewrite count_cmp by done. by apply Nat.compare_lt_iff.
Qed.

Lemma slice_count t c i n :
  wf_tree tt t -> (node_height t < STACK_CAPACITY)%nat -> cursor_ready tt t c i -> (i <= n)%nat ->
  (i <= length (to_list t))%nat ->
  exists c' t', slice tt c (mkCount n) Right = Ok (c', t') /\ cursor_at tt t c' (Nat.min n (length (to_list t))) /\
    summarized tt t' /\ to_list t' = drop i (take n (to_list t)).
Proof.
  intros Hw Hh Hc Hn Hi. destruct (slice_summarized_ok tt t c i (mkCount n) Right Hw Hh Hc) as (c' & t' & j & E & Hat & Hl & Hs & Hi').
  - rewrite count_cmp by done. destruct (Nat.compare_spec n i); (lia || done).
  - apply lands_count in Hl; [|lia]. rewrite Nat.max_r in Hl by done. subst j. exists c', t'. split_and!; try done.
    rewrite Hi'. destruct (Nat.min_spec n (length (to_list t))) as [[? ->]|[? ->]]; [done|]. by rewrite !take_ge by lia.
Qed.
End Counting.

(** ** Seeking a height *)

Lemma lands_height bias l i0 y i :
  Forall sized l -> lands (D := ListItemSummary) tt (mkHeight y) bias l i0 i ->
  (i0 <= i <= length l)%nat /\ (i = i0 \/ heights (take i l) <= y) /\
  (bias = Left -> i = i0 \/ heights (take i l) < y) /\
  ((i < length l)%nat -> match bias with Left => y <= heights (take (S i) l) | Right => y < heights (take (S i) l) end).
Proof.
  intros Hs ([Hle Hle'] & Hp & Hstop). unfold passes in *. cbn in Hp, Hstop.
  assert (Hpos : forall m, (m <= length l)%nat -> total_height (position_at tt l m : ListItemSummary) = heights (take m l))
    by (intros m Hm; by apply summary_position).
  split; [done|]. split; [|split].
  - destruct Hp as [->|Hp]; [by left|right]. rewrite Hpos in Hp by done.
    destruct (Z.compare_spec y (heights (take i l))); (lia || done).
  - intros ->. destruct Hp as [->|Hp]; [by left|right]. rewrite Hpos in Hp by done.
    destruct (Z.compare_spec y (heights (take i l))); (lia || done).
  - intros Hlt. specialize (Hstop Hlt). rewrite Hpos in Hstop by lia.
    destruct (Z.compare_spec y (heights (take (S i) l))), bias; (lia || done).
Qed.

Lemma seek_height t (c : Cursor _ _ ListItemSummary) bias y :
  wf_tree tt t -> (node_height t < STACK_CAPACITY)%nat -> Forall sized (to_list t) -> c_tree c = t -> 0 <= y ->
  exists c' b i, seek tt c (mkHeight y) bias = Ok (c', b) /\ cursor_at tt t c' i /\
    lands (D := ListItemSummary) tt (mkHeight y) bias (to_list t) 0 i.
Proof.
  intros Hw Hh Hs Hc Hy. destruct (seek_ok tt t c (mkHeight y) bias Hw Hh Hc) as (c' & i & E & Hat & Hl); [|by eauto 10].
  cbn. destruct (Z.compare_spec y 0); (lia || done).
Qed.

Lemma seek_forward_height t (c : Cursor _ _ ListItemSummary) i bias y :
  wf_tree tt t -> (node_height t < STACK_CAPACITY)%nat -> cursor_at tt t c i -> heights (take i (to_list t)) <= y ->
  exists c' b j, seek_forward tt c (mkHeight y) bias = Ok (c', b) /\ cursor_at tt t c' j /\
    lands (D := ListItemSummary) tt (mkHeight y) bias (to_list t) i j.
Proof.
  intros Hw Hh Hc Hy.
  destruct (seek_forward_panics_iff_backward tt t c i (mkHeight y) bias Hw Hh (or_introl Hc)) as [_ Hok].
  destruct Hok as (c' & j & E & Hat & Hl); [|by eauto 10]. cbn.
  destruct (summary_position (to_list t) i (cursor_at_bound tt _ _ _ Hc)) as [_ ->].
  destruct (Z.compare_spec y (heights (take i (to_list t)))); (lia || done).
Qed.

(** The start of a cursor of summaries. *)
Lemma summary_start t (c : Cursor _ _ ListItemSummary) i :
  cursor_at tt t c i -> count (start c) = i /\ total_height (start c) = heights (take i (to_list t)).
Proof.
  intros Hc. rewrite (cursor_at_start tt _ _ _ Hc). by apply summary_position, (cursor_at_bound tt _ _ _ Hc).
Qed.

Lemma count_start t (c : Cursor _ _ Count) i : cursor_at tt t c i -> count_of (start c) = i.
Proof.
  intros Hc. by rewrite (cursor_at_start tt _ _ _ Hc), count_reached by apply (cursor_at_bound tt _ _ _ Hc).
Qed.
End Positions.

(** ** The state *)

Section Edits.
Context {FocusHandle Handler : Type}.
Implicit Types (s : @StateInner FocusHandle Handler) (l : list (ListItem FocusHandle)).

Definition items_of s : list (ListItem FocusHandle) := to_list (items s).

(** A pending scroll restores an offset that is not negative. *)
Definition pending_ok (p : PendingScroll) : Prop :=
  match p with
  | Absolute _ offset => 0 <= offset
  | Proportional p => 0 <= numerator (fraction p) <= denominator (fraction p) /\ 0 < denominator (fraction p)
  end.

(** What holds of a state between calls: the summary of the items is up to date,
    heights and offsets are not negative, and the scroll position is in the list. *)
Record list_wf s : Prop := {
  lw_items : summarized tt (items s);
  lw_sized : Forall sized (items_of s);
  lw_scroll : forall o, scroll_position s = Some o -> (item_ix o <= length (items_of s))%nat /\ 0 <= offset_in_item o;
  lw_pending : forall p, pending_scroll s = Some p -> pending_ok p;
}.

(** The depth of the tree is within the stack of a cursor. *)
Definition list_ready s : Prop := (node_height (items s) < STACK_CAPACITY)%nat.

Lemma node_summary_items s :
  list_wf s -> node_summary (items s) = dim_items tt (dim_zero tt : ListItemSummary) (items_of s).
Proof.
  intros [[_ E] _ _ _]. rewrite E. unfold items_summary, SumTree.sum. rewrite <- dim_items_map. done.
Qed.

Lemma item_count_ok s : list_wf s -> item_count s = length (items_of s).
Proof. intros H. unfold item_count. rewrite node_summary_items by done. by destruct (summary_items (dim_zero tt) (items_of s)). Qed.

Lemma total_height_ok s : list_wf s -> total_height (node_summary (items s)) = heights (items_of s).
Proof. intros H. rewrite node_summary_items by done. by destruct (summary_items (dim_zero tt) (items_of s)). Qed.

Lemma unknown_height_ok s :
  list_wf s -> has_unknown_height (node_summary (items s)) = existsb (fun i => has_unknown_height (item_summary i)) (items_of s).
Proof.
  intros H. rewrite node_summary_items by done.
  assert (forall l (d : ListItemSummary), has_unknown_height (dim_items tt d l) =
            has_unknown_height d || existsb (fun i => has_unknown_height (item_summary i)) l) as ->; [|done].
  induction l as [|i l IH]; intros d; [by rewrite orb_false_r|]. rewrite dim_items_cons, IH. cbn. by rewrite orb_assoc.
Qed.

Lemma logical_scroll_top_ok s :
  list_wf s -> (item_ix (logical_scroll_top s) <= length (items_of s))%nat /\ 0 <= offset_in_item (logical_scroll_top s).
Proof.
  intros H. unfold logical_scroll_top. destruct (scroll_position s) as [o|] eqn:E; [by apply lw_scroll|].
  destruct (alignment s); cbn; rewrite ?item_count_ok by done; lia.
Qed.

(** Replacing the items in a range of the tree, as [splice] and the others do. *)
Lemma replace_range s (start end_ : nat) l c t (Hw : list_wf s) (Hr : list_ready s) :
  cursor_at tt (items s) (c : Cursor _ _ Count) (Nat.min end_ (length (items_of s))) ->
  summarized tt t -> to_list t = take start (items_of s) -> Forall sized l ->
  exists t1 c' t2 t', SumTree.extend tt t l = Ok t1 /\ suffix tt c = Ok (c', t2) /\ append tt t1 t2 = Ok t' /\
    summarized tt t' /\ to_list t' = take start (items_of s) ++ l ++ drop end_ (items_of s) /\ Forall sized (to_list t').
Proof.
  intros Hc Ht Hi Hl.
  destruct (extend_summarized tt t l Ht) as (t1 & E1 & H1 & Hi1).
  destruct (suffix_summarized_ok tt (items s) c _ (proj1 (lw_items s Hw)) Hr (or_introl Hc)) as (c' & t2 & E2 & _ & H2 & Hi2).
  destruct (append_summarized tt t1 t2 H1 H2) as (t' & E3 & H3 & Hi3).
  exists t1, c', t2, t'. split_and!; try done.
  - rewrite Hi3, Hi1, Hi2, Hi, <- app_assoc. do 2 f_equal. unfold items_of.
    destruct (Nat.min_spec end_ (length (to_list (items s)))) as [[? ->]|[? ->]]; [done|]. by rewrite !drop_ge by lia.
  - rewrite Hi3, Hi1, Hi2, Hi. pose proof (lw_sized s Hw). rewrite !Forall_app. split_and!; [by apply Forall_take|done|].
    by apply Forall_drop.
Qed.

Lemma unmeasured_sized l : Forall sized l -> Forall sized (map unmeasured l).
Proof. induction 1 as [|i l Hi _ IH]; constructor; [exact Hi|done]. Qed.

Lemma new_sized (hs : list (option FocusHandle)) : Forall sized (map (Unmeasured None) hs).
Proof. induction hs; by constructor. Qed.

Lemma spliced_length l (start end_ : nat) l' :
  (start <= end_)%nat ->
  (length (take start l ++ l' ++ drop end_ l) =
     Nat.min start (length l) + length l' + (length l - end_))%nat.
Proof. intros H. rewrite !length_app, length_take, length_drop. lia. Qed.

(** The scroll position of a list after [splice_focusable]. *)
Definition spliced_offset (start end_ n : nat) (o : ListOffset) : ListOffset :=
  if range_contains start end_ (item_ix o) then mkListOffset start 0
  else if (end_ <=? item_ix o)%nat then mkListOffset (item_ix o - (end_ - start) + n) (offset_in_item o)
  else o.

Lemma range_contains_spec start end_ ix :
  range_contains start end_ ix = true <-> (start <= ix < end_)%nat.
Proof. unfold range_contains. rewrite andb_true_iff, Nat.leb_le, Nat.ltb_lt. lia. Qed.

Lemma splice_ok s (start end_ : nat) hs (Hw : list_wf s) (Hr : list_ready s) :
  (start <= end_)%nat ->
  exists t, splice_focusable s start end_ hs =
      Ok (with_scroll (with_items s t) (spliced_offset start end_ (length hs) <$> scroll_position s)) /\
    summarized tt t /\ to_list t = take start (items_of s) ++ map (Unmeasured None) hs ++ drop end_ (items_of s) /\
    Forall sized (to_list t).
Proof.
  intros Hse. unfold splice_focusable. pose proof (proj1 (lw_items s Hw)) as Hi.
  destruct (slice_count (D := Count) (items s) (count_cursor (items s)) 0 start Hi Hr)
    as (c1 & t1 & -> & Hc1 & Ht1 & Hl1); [right; done|lia|lia|]. cbn [obind].
  destruct (seek_forward_count (items s) c1 _ end_ Hi Hr (or_introl Hc1)) as (c2 & b & -> & Hc2); [lia|lia|]. cbn [obind].
  destruct (replace_range s start end_ (map (Unmeasured None) hs) c2 t1 Hw Hr Hc2 Ht1 Hl1 (new_sized hs))
    as (t2 & c3 & t3 & t' & -> & -> & Happ & Hs & Hl & Hsz). cbn [obind]. rewrite Happ. cbn [obind].
  exists t'. split; [|done]. cbn [scroll_position with_items].
  destruct (scroll_position s) as [o|] eqn:Eo; [|by destruct s; cbn in *; subst].
  cbn [fmap option_fmap option_map]. unfold spliced_offset. destruct (range_contains start end_ (item_ix o)) eqn:Er; [done|].
  destruct (Nat.leb_spec end_ (item_ix o)) as [He|He].
  - unfold usize_sub. rewrite (proj2 (Nat.leb_le start end_)) by done. cbn [obind].
    rewrite (proj2 (Nat.leb_le _ _)) by lia. done.
  - by destruct s; cbn in *; subst.
Qed.

Lemma splice_wf s (start end_ : nat) hs t :
  list_wf s -> (start <= end_)%nat -> summarized tt t -> Forall sized (to_list t) ->
  to_list t = take start (items_of s) ++ map (Unmeasured None) hs ++ drop end_ (items_of s) ->
  list_wf (with_scroll (with_items s t) (spliced_offset start end_ (length hs) <$> scroll_position s)).
Proof.
  intros Hw Hse Ht Hsz Hl. split; cbn [items scroll_position pending_scroll with_scroll with_items]; [done|exact Hsz| |apply Hw].
  intros o Ho. unfold items_of. cbn [items with_scroll with_items]. rewrite Hl, spliced_length, length_map by done.
  destruct (scroll_position s) as [o'|] eqn:Eo; [|done]. destruct (lw_scroll s Hw o' Eo) as [Hix Hoff].
  cbn in Ho. simplify_eq. unfold spliced_offset. destruct (range_contains _ _ _) eqn:Er.
  - apply range_contains_spec in Er. cbn. lia.
  - assert (~ (start <= item_ix o' < end_)%nat) by (rewrite <- range_contains_spec; congruence).
    destruct (Nat.leb_spec end_ (item_ix o')); cbn; lia.
Qed.

(** The item at the scroll position is the one that was there, unless it was replaced. *)
Lemma spliced_item s (start end_ : nat) hs o :
  list_wf s -> (start <= end_)%nat -> (start <= length (items_of s))%nat -> scroll_position s = Some o ->
  range_contains start end_ (item_ix o) = false ->
  let o' := spliced_offset start end_ (length hs) o in
  (take start (items_of s) ++ map (Unmeasured None) hs ++ drop end_ (items_of s)) !! item_ix o' = items_of s !! item_ix o /\
  offset_in_item o' = offset_in_item o.
Proof.
  intros Hw Hse Hlen Ho Er o'. destruct (lw_scroll s Hw o Ho) as [Hix _]. subst o'. unfold spliced_offset. rewrite Er.
  assert (~ (start <= item_ix o < end_)%nat) by (rewrite <- range_contains_spec; congruence).
  destruct (Nat.leb_spec end_ (item_ix o)) as [He|He]; cbn [item_ix offset_in_item]; (split; [|done]).
  - rewrite lookup_app_r by (rewrite length_take; lia). rewrite length_take, Nat.min_l by lia.
    rewrite lookup_app_r by (rewrite length_map; lia). rewrite length_map, lookup_drop. f_equal. lia.
  - rewrite lookup_app_l by (rewrite length_take; lia). by rewrite lookup_take_lt by lia.
Qed.

(** C39: [splice_focusable] replaces exactly the items of the range (clamped to the
    list) by unmeasured items with the given focus handles, never panicking, and keeps
    the state well formed: the scroll position stays on the same item at the same
    offset, moving with it when items before it are replaced, and goes to the start of
    the range when its item is replaced.  A range that ends before its start, within
    the list, panics. *)
Theorem list_splice_correct s start end_ hs (Hw : list_wf s) (Hr : list_ready s) :
  if (start <=? end_)%nat then
    exists s', splice_focusable s start end_ hs = Ok s' /\ list_wf s' /\
      s' = with_scroll (with_items s (items s')) (scroll_position s') /\
      items_of s' = take start (items_of s) ++ map (Unmeasured None) hs ++ drop end_ (items_of s) /\
      match scroll_position s with
      | None => scroll_position s' = None
      | Some o =>
          exists o', scroll_position s' = Some o' /\
            if range_contains start end_ (item_ix o) then o' = mkListOffset start 0
            else offset_in_item o' = offset_in_item o /\
              ((start <= length (items_of s))%nat -> items_of s' !! item_ix o' = items_of s !! item_ix o)
      end
  else (end_ < length (items_of s))%nat -> splice_focusable s start end_ hs = Panic.
Proof.
  destruct (Nat.leb_spec start end_) as [Hse|Hse].
  - destruct (splice_ok s start end_ hs Hw Hr Hse) as (t & E & Ht & Hl & Hsz).
    eexists. split; [exact E|]. split; [by apply splice_wf|]. split; [done|]. split; [exact Hl|].
    destruct (scroll_position s) as [o|] eqn:Eo; [|done]. eexists. split; [done|].
    destruct (range_contains start end_ (item_ix o)) eqn:Er; [unfold spliced_offset; by rewrite Er|].
    split; [unfold spliced_offset; rewrite Er; by destruct (_ <=? _)%nat|]. intros Hlen.
    unfold items_of at 1. cbn [items with_scroll with_items]. rewrite Hl. by apply spliced_item.
  - intros He. unfold splice_focusable. pose proof (proj1 (lw_items s Hw)) as Hi.
    destruct (slice_count (D := Count) (items s) (count_cursor (items s)) 0 start Hi Hr)
      as (c1 & t1 & -> & Hc1 & _); [right; done|lia|lia|]. cbn [obind]. unfold items_of in He.
    by rewrite (seek_forward_count_back (items s) c1 _ end_ Hi Hr (or_introl Hc1)) by lia.
Qed.
(** ** Forgetting sizes *)

(** The heights before every item. *)
Definition same_heights l l' : Prop := forall n, heights (take n l) = heights (take n l').

Lemma unmeasured_heights l : heights (map unmeasured l) = heights l.
Proof. induction l as [|i l IH]; [done|]. cbn [map]. rewrite !heights_cons, IH. by destruct i as [[?|] ?|]. Qed.

Lemma same_heights_unmeasured l l1 l2 : same_heights (l1 ++ map unmeasured l ++ l2) (l1 ++ l ++ l2).
Proof.
  intros n. rewrite !take_app, !heights_app, <- fmap_take, !length_fmap.
  do 2 f_equal. apply unmeasured_heights.
Qed.

Lemma middle_split l (start end_ : nat) :
  (start <= end_)%nat -> take start l ++ take (end_ - start) (drop start l) ++ drop end_ l = l.
Proof.
  intros H. replace end_ with (start + (end_ - start))%nat at 2 by lia.
  by rewrite <- drop_drop, take_drop, take_drop.
Qed.

(** The pending scroll a remeasurement leaves. *)
Definition anchored s (start end_ : nat) (a : ScrollAnchor) : option PendingScroll :=
  match scroll_position s with
  | Some o =>
      if range_contains start end_ (item_ix o) then
        match a with
        | AnchorAbsolute => Some (Absolute (item_ix o) (offset_in_item o))
        | AnchorProportional =>
            match items_of s !! item_ix o with
            | Some (Measured sz _) =>
                Some (Proportional (mkPendingFraction (item_ix o)
                  (if height sz >? 0 then fraction_of (offset_in_item o) (height sz) else fraction_zero)))
            | _ => pending_scroll s
            end
        end
      else pending_scroll s
  | None => pending_scroll s
  end.

Lemma fraction_ok o h : 0 < h -> let f := fraction_of o h in 0 <= numerator f <= denominator f /\ 0 < denominator f.
Proof. intros H. unfold fraction_of. cbn. lia. Qed.

Lemma anchored_ok s start end_ a p : list_wf s -> anchored s start end_ a = Some p -> pending_ok p.
Proof.
  intros Hw. unfold anchored. pose proof (lw_pending s Hw p) as Hp.
  destruct (scroll_position s) as [o|] eqn:Eo; [|done]. destruct (lw_scroll s Hw o Eo) as [_ Hoff].
  destruct (range_contains _ _ _); [|done]. destruct a; [by intros [= <-]|].
  destruct (items_of s !! item_ix o) as [[|sz f]|]; [done| |done]. intros [= <-]. cbn.
  destruct (Z.gtb_spec (height sz) 0) as [Hh|Hh]; [by apply fraction_ok|cbn; lia].
Qed.

Lemma anchor_scroll_ok s o a :
  list_wf s -> list_ready s -> (item_ix o <= length (items_of s))%nat ->
  anchor_scroll s a o = Ok (match a with
    | AnchorAbsolute => Some (Absolute (item_ix o) (offset_in_item o))
    | AnchorProportional =>
        match items_of s !! item_ix o with
        | Some (Measured sz _) =>
            Some (Proportional (mkPendingFraction (item_ix o)
              (if height sz >? 0 then fraction_of (offset_in_item o) (height sz) else fraction_zero)))
        | _ => pending_scroll s
        end
    end).
Proof.
  intros Hw Hr Hix. destruct a; [done|]. cbn [anchor_scroll].
  destruct (seek_count (D := Count) (items s) (count_cursor (items s)) (item_ix o) (proj1 (lw_items s Hw)) Hr eq_refl)
    as (c & b & -> & Hc). cbn [obind]. rewrite (cursor_at_item tt _ _ _ Hc). cbn [obind].
  unfold items_of in *. rewrite Nat.min_l by done. by destruct (to_list (items s) !! item_ix o) as [[]|].
Qed.

(** The iterator over the items whose size is forgotten fits in its stack. *)
Definition slice_ready s (start end_ : nat) : Prop :=
  forall c t c' t', slice tt (count_cursor (items s)) (mkCount start) Right = Ok (c, t) ->
    slice tt c (mkCount end_) Right = Ok (c', t') -> (node_height t' < STACK_CAPACITY)%nat.

Lemma with_pending_wf s p : list_wf s -> (forall q, p = Some q -> pending_ok q) -> list_wf (with_pending s p).
Proof. intros [? ? ? ?] Hp. split; [done..|exact Hp]. Qed.

Lemma with_measuring_wf s m : list_wf s -> list_wf (with_measuring s m).
Proof. by intros [? ? ? ?]. Qed.

(** Replacing the items by others, as many and with heights that are not negative. *)
Lemma with_items_wf s t :
  list_wf s -> summarized tt t -> Forall sized (to_list t) -> length (to_list t) = length (items_of s) ->
  list_wf (with_items s t).
Proof.
  intros [? ? Hs ?] Ht Hsz Hlen. split; [done|done| |done]. intros o Ho. destruct (Hs o Ho). unfold items_of.
  cbn [items with_items]. by rewrite Hlen.
Qed.

Lemma remeasure_ok s start end_ a (Hw : list_wf s) (Hr : list_ready s) (Hd : slice_ready s start end_) :
  (start <= end_)%nat ->
  exists t, remeasure_items_with_scroll_anchor s start end_ a =
      Ok (with_measuring (with_items (with_pending s (anchored s start end_ a)) t) (measuring_reset (measuring_behavior s))) /\
    summarized tt t /\ Forall sized (to_list t) /\
    to_list t = take start (items_of s) ++ map unmeasured (take (end_ - start) (drop start (items_of s))) ++
                drop end_ (items_of s).
Proof.
  intros Hse. unfold remeasure_items_with_scroll_anchor. pose proof (proj1 (lw_items s Hw)) as Hi.
  assert (Ha : (match scroll_position s with
                | Some scroll_top =>
                    if range_contains start end_ (item_ix scroll_top) then
                      let! p := anchor_scroll s a scroll_top in Ok (with_pending s p)
                    else Ok s
                | None => Ok s
                end) = Ok (with_pending s (anchored s start end_ a))).
  { unfold anchored. destruct (scroll_position s) as [o|] eqn:Eo; [|by destruct s].
    destruct (range_contains _ _ _); [|by destruct s].
    rewrite anchor_scroll_ok by (done || by apply lw_scroll). by destruct a. }
  rewrite Ha. cbn [obind items with_pending]. clear Ha.
  destruct (slice_count (D := Count) (items s) (count_cursor (items s)) 0 start Hi Hr)
    as (c1 & t1 & E1 & Hc1 & Ht1 & Hl1); [right; done|lia|lia|]. rewrite E1. cbn [obind].
  destruct (slice_count (D := Count) (items s) c1 _ end_ Hi Hr (or_introl Hc1)) as (c2 & t2 & E2 & Hc2 & Ht2 & Hl2); [lia|lia|].
  rewrite E2. cbn [obind]. rewrite (iter_collect_ok tt t2 (proj1 Ht2) (Hd _ _ _ _ E1 E2)). cbn [obind].
  assert (Hmid : to_list t2 = take (end_ - start) (drop start (items_of s))).
  { rewrite Hl2. unfold items_of. rewrite <- skipn_firstn_comm.
    destruct (Nat.min_spec start (length (to_list (items s)))) as [[? ->]|[? ->]]; [done|].
    by rewrite !drop_ge by (rewrite length_take; lia). }
  assert (Hsz2 : Forall sized (map unmeasured (to_list t2))).
  { apply unmeasured_sized. rewrite Hmid. apply Forall_take, Forall_drop, Hw. }
  destruct (replace_range s start end_ _ c2 t1 Hw Hr Hc2 Ht1 Hl1 Hsz2)
    as (t3 & c3 & t4 & t' & -> & -> & Happ & Hs & Hl & Hsz). cbn [obind]. rewrite Happ. cbn [obind].
  exists t'. split; [done|]. split; [done|]. split; [done|]. by rewrite Hl, Hmid.
Qed.
(** Remeasuring a range forgets exactly the sizes of its items: they become
    unmeasured with their old size as a hint and keep their focus handles, so that the
    distance of every item from the top stays the same, and the other items are not
    touched.  The scroll position does not move; when its item is in the range, the
    pending scroll will restore its offset, or its fraction of a measured item. *)
Theorem list_remeasure_correct s start end_ a
    (Hw : list_wf s) (Hr : list_ready s) (Hd : slice_ready s start end_) (Hse : (start <= end_)%nat) :
  exists s', remeasure_items_with_scroll_anchor s start end_ a = Ok s' /\ list_wf s' /\
    items_of s' = take start (items_of s) ++ map unmeasured (take (end_ - start) (drop start (items_of s))) ++
                  drop end_ (items_of s) /\
    (forall n, heights (take n (items_of s')) = heights (take n (items_of s))) /\
    map focus_handle (items_of s') = map focus_handle (items_of s) /\
    scroll_position s' = scroll_position s /\ pending_scroll s' = anchored s start end_ a.
Proof.
  destruct (remeasure_ok s start end_ a Hw Hr Hd Hse) as (t & E & Ht & Hsz & Hl).
  eexists. split; [exact E|].
  assert (Hlen : length (to_list t) = length (items_of s)).
  { rewrite Hl, !length_app, length_map, <- !length_app, middle_split by done. done. }
  split.
  { apply with_measuring_wf, with_items_wf; [|done..]. apply with_pending_wf; [done|]. intros q. by apply anchored_ok. }
  split; [exact Hl|]. unfold items_of at 1 3. cbn [items with_measuring with_items]. split; [|split; [|done]].
  - intros n. rewrite Hl, (same_heights_unmeasured _ _ _ n). by rewrite middle_split.
  - rewrite Hl, !map_app, map_map. change (fun x => focus_handle (unmeasured x)) with (@focus_handle FocusHandle).
    by rewrite <- !map_app, middle_split.
Qed.

(** *** Resetting *)

(** The trees that [from_iter] builds fit in the stack of a cursor. *)
Definition few (n : nat) : Prop := (N.of_nat n <= 12 ^ 16)%N.

Lemma from_iter_few l :
  few (length l) -> exists t, from_iter tt l = Ok t /\ summarized tt t /\ to_list t = l /\ (node_height t < STACK_CAPACITY)%nat.
Proof.
  intros Hn. destruct (from_iter_summarized (Cx := unit) tt l) as (t & E & Ht & Hl). exists t. split_and!; try done.
  destruct (from_iter_ok (Cx := unit) tt l) as (t' & E' & _ & _ & Hd). assert (t' = t) as -> by congruence.
  enough (node_height t <= 15)%nat by (unfold STACK_CAPACITY; lia). apply Hd.
  change (length l <= 12 ^ 16)%nat. rewrite <- (Nat2N.id (12 ^ 16)), Nat2N.inj_pow. unfold few in Hn. lia.
Qed.

Lemma wf_empty_height (t : tree (ListItem FocusHandle) ListItemSummary) :
  wf_tree tt t -> to_list t = [] -> is_empty t = true /\ node_height t = 0%nat.
Proof.
  intros [[x ->]|[h Hn]] He; [done|]. by apply wf_node_nonempty in Hn.
Qed.

(** Appending to or by an empty tree adds no level. *)
Lemma append_empty_height (t1 t2 t : tree (ListItem FocusHandle) ListItemSummary) :
  wf_tree tt t1 -> wf_tree tt t2 -> append tt t1 t2 = Ok t -> to_list t1 = [] \/ to_list t2 = [] ->
  (node_height t <= Nat.max (node_height t1) (node_height t2))%nat.
Proof.
  intros H1 H2 E He. destruct (append_tree_ok tt t1 t2 H1 H2) as (t' & E' & _ & _ & Hc). rewrite E' in E. simplify_eq.
  destruct Hc as [[_ ->]|[[_ ->]|(h & h' & Hh & Hh' & _)]]; [lia|lia|].
  apply wf_node_nonempty in Hh, Hh'. by destruct He.
Qed.

(** Replacing all items. *)
Lemma splice_all_ready s hs :
  list_wf s -> list_ready s -> few (length hs) ->
  forall t, splice_focusable s 0 (length (items_of s)) hs =
      Ok (with_scroll (with_items s t) (spliced_offset 0 (length (items_of s)) (length hs) <$> scroll_position s)) ->
  scroll_position s = None -> (node_height t < STACK_CAPACITY)%nat.
Proof.
  intros Hw Hr Hn t. unfold splice_focusable. pose proof (proj1 (lw_items s Hw)) as Hi.
  destruct (slice_count (D := Count) (items s) (count_cursor (items s)) 0 0 Hi Hr)
    as (c1 & t1 & -> & Hc1 & Ht1 & Hl1); [right; done|lia|lia|]. cbn [obind].
  destruct (seek_forward_count (items s) c1 _ (length (items_of s)) Hi Hr (or_introl Hc1)) as (c2 & b & -> & Hc2); [lia|lia|].
  cbn [obind]. unfold SumTree.extend.
  destruct (from_iter_few (map (Unmeasured None) hs)) as (t2 & -> & Ht2 & Hl2 & Hh2); [by rewrite length_map|]. cbn [obind].
  destruct (append_summarized tt t1 t2 Ht1 Ht2) as (t3 & E3 & Ht3 & Hl3). rewrite E3. cbn [obind].
  destruct (suffix_summarized_ok tt (items s) c2 _ Hi Hr (or_introl Hc2)) as (c3 & t4 & -> & _ & Ht4 & Hl4). cbn [obind].
  destruct (append_summarized tt t3 t4 Ht3 Ht4) as (t5 & E5 & Ht5 & Hl5). rewrite E5. cbn [obind].
  cbn [scroll_position with_items]. intros E Hs. rewrite Hs in E. destruct s; cbn in *. simplify_eq.
  assert (He1 : to_list t1 = []) by (by rewrite Hl1, drop_0).
  assert (He4 : to_list t4 = []) by (rewrite Hl4; apply drop_ge; unfold items_of; cbn; lia).
  pose proof (append_empty_height _ _ _ (proj1 Ht1) (proj1 Ht2) E3 (or_introl He1)).
  pose proof (append_empty_height _ _ _ (proj1 Ht3) (proj1 Ht4) E5 (or_intror He4)).
  destruct (wf_empty_height _ (proj1 Ht1) He1). destruct (wf_empty_height _ (proj1 Ht4) He4). lia.
Qed.

Lemma splice_all s n :
  list_wf s -> list_ready s -> few n -> scroll_position s = None ->
  exists t, splice s 0 (length (items_of s)) n = Ok (with_items s t) /\ summarized tt t /\ Forall sized (to_list t) /\
    (node_height t < STACK_CAPACITY)%nat /\ to_list t = repeat (Unmeasured None None) n.
Proof.
  intros Hw Hr Hn Hs. destruct (splice_ok s 0 (length (items_of s)) (repeat None n) Hw Hr) as (t & E & Ht & Hl & Hsz); [lia|].
  exists t. split; [|split; [done|split; [done|split]]].
  - unfold splice. rewrite E, Hs. by destruct s; cbn in *; subst.
  - eapply splice_all_ready; [exact Hw|exact Hr| |exact E|done]. by rewrite repeat_length.
  - rewrite Hl, take_0, drop_ge, app_nil_r by lia. cbn [app]. clear. induction n; [done|]. cbn. by f_equal.
Qed.

Lemma reset_ok s n :
  list_wf s -> list_ready s -> few n ->
  exists t, reset s n =
      Ok (with_items (with_drag (with_pending (with_scroll (with_measuring (with_reset s true)
            (measuring_reset (measuring_behavior s))) None) None) None) t) /\
    summarized tt t /\ Forall sized (to_list t) /\ (node_height t < STACK_CAPACITY)%nat /\
    to_list t = repeat (Unmeasured None None) n.
Proof.
  intros Hw Hr Hn. unfold reset. cbn [measuring_behavior with_reset].
  set (s0 := with_drag _ _). assert (Hw0 : list_wf s0) by (destruct Hw; by split).
  rewrite item_count_ok by done. by apply (splice_all s0 n).
Qed.

Lemma uniform_ok s h :
  list_wf s -> list_ready s ->
  exists t, apply_uniform_item_height s h = Ok (with_items s t) /\ summarized tt t /\
    to_list t = map (with_hint (mkSize 0 h)) (items_of s).
Proof.
  intros Hw Hr. unfold apply_uniform_item_height.
  rewrite (iter_collect_ok tt (items s) (proj1 (lw_items s Hw)) Hr). cbn [obind].
  destruct (extend_summarized (Cx := unit) tt (SumTree.new tt) (map (with_hint (mkSize 0 h)) (items_of s)) (summarized_new tt))
    as (t & E & Ht & Hl). unfold items_of in E. rewrite E. exists t. split; [done|]. split; [done|exact Hl].
Qed.

Lemma uniform_sized l h : 0 <= h -> Forall sized l -> Forall sized (map (with_hint (mkSize 0 h)) l).
Proof.
  intros Hh. induction 1 as [|i l Hi _ IH]; constructor; [|done]. unfold sized in *. cbn.
  destruct (size_hint i); [exact Hi|exact Hh].
Qed.

Lemma uniform_wf s t h :
  list_wf s -> 0 <= h -> summarized tt t -> to_list t = map (with_hint (mkSize 0 h)) (items_of s) -> list_wf (with_items s t).
Proof.
  intros Hw Hh Ht Hl. apply with_items_wf; [done|done| |by rewrite Hl, length_map].
  rewrite Hl. apply uniform_sized; [done|apply Hw].
Qed.

Lemma uniform_known l h : existsb (fun i => has_unknown_height (item_summary i)) (map (with_hint (FocusHandle := FocusHandle) (mkSize 0 h)) l) = false.
Proof. induction l as [|i l IH]; [done|]. cbn [map existsb]. by rewrite IH. Qed.

Lemma uniform_heights n h :
  heights (map (with_hint (mkSize 0 h)) (repeat (Unmeasured (FocusHandle := FocusHandle) None None) n)) = Z.of_nat n * h.
Proof. induction n as [|n IH]; [done|]. cbn [repeat map]. rewrite heights_cons, IH. unfold item_height. cbn. lia. Qed.

(** [reset] leaves a list of the given number of unmeasured items, without scroll
    position, pending scroll or scrollbar drag, and drops scroll events until the next
    paint; [apply_uniform_item_height] gives every item a hint and keeps the sizes it
    knows, so that no height is unknown; both together make the list exactly as high as
    its items, before any is measured. *)
Theorem list_reset_correct s n h (Hw : list_wf s) (Hr : list_ready s) (Hn : few n) (Hh : 0 <= h) :
  (exists s', reset s n = Ok s' /\ list_wf s' /\ list_ready s' /\ items_of s' = repeat (Unmeasured None None) n /\
     item_count s' = n /\ scroll_position s' = None /\ pending_scroll s' = None /\
     scrollbar_drag_start_height s' = None /\ was_reset s' = true) /\
  (exists s', apply_uniform_item_height s h = Ok s' /\ list_wf s' /\ items_of s' = map (with_hint (mkSize 0 h)) (items_of s) /\
     scroll_position s' = scroll_position s /\ has_unknown_height (node_summary (items s')) = false) /\
  (exists s', reset_with_uniform_height s n h = Ok s' /\ list_wf s' /\
     has_unknown_height (node_summary (items s')) = false /\
     total_height (node_summary (items s')) = Z.of_nat n * h).
Proof.
  destruct (reset_ok s n Hw Hr Hn) as (t & Er & Ht & Hsz & Hready & Hl).
  assert (Hwr : exists s', reset s n = Ok s' /\ list_wf s' /\ list_ready s' /\ items_of s' = repeat (Unmeasured None None) n /\
     scroll_position s' = None /\ pending_scroll s' = None /\ scrollbar_drag_start_height s' = None /\ was_reset s' = true).
  { eexists. split; [exact Er|]. by split. }
  assert (Hu : forall s, list_wf s -> list_ready s -> exists s', apply_uniform_item_height s h = Ok s' /\ list_wf s' /\
     items_of s' = map (with_hint (mkSize 0 h)) (items_of s) /\ scroll_position s' = scroll_position s /\
     has_unknown_height (node_summary (items s')) = false).
  { intros s0 Hw0 Hr0. destruct (uniform_ok s0 h Hw0 Hr0) as (t' & E & Ht' & Hl'). pose proof (uniform_wf s0 t' h Hw0 Hh Ht' Hl').
    eexists. split; [exact E|]. split; [done|]. split; [exact Hl'|]. split; [done|].
    rewrite unknown_height_ok by done. unfold items_of. cbn [items with_items]. rewrite Hl'. apply uniform_known. }
  destruct Hwr as (s1 & E1 & Hw1 & Hr1 & Hl1 & Hs1 & Hp1 & Hd1 & Hb1).
  split; [|split; [by apply Hu|]].
  - exists s1. rewrite item_count_ok, Hl1, repeat_length by done. by split_and!.
  - unfold reset_with_uniform_height. rewrite E1. cbn [obind]. destruct (Hu s1 Hw1 Hr1) as (s2 & E2 & Hw2 & Hl2 & _ & Hk2).
    exists s2. split_and!; [done|done|done|]. by rewrite total_height_ok, Hl2, Hl1, uniform_heights by done.
Qed.
(** A new list. *)
Lemma list_new_ok n a (overdraw : Z) :
  few n -> exists s, list_new n a overdraw = Ok s /\ list_wf s /\ list_ready s /\ items_of s = repeat (Unmeasured None None) n /\
    scroll_position s = None.
Proof.
  intros Hn. unfold list_new.
  set (s0 := mkStateInner _ _ _ _ _ _ _ _ _ _ _ _ : @StateInner FocusHandle Handler).
  assert (Hw0 : list_wf s0) by (split; [apply summarized_new|constructor|done..]).
  assert (Hr0 : list_ready s0) by (unfold list_ready, STACK_CAPACITY; cbn; lia).
  destruct (splice_all s0 n Hw0 Hr0 Hn eq_refl) as (t & E & Ht & Hsz & Hr & Hl).
  eexists. split; [exact E|]. by split_and!; [split|..].
Qed.
End Edits.

(** ** Concrete runs *)
Module TestList.
Definition sample_new : @StateInner nat unit :=
  match list_new 20 AlignTop 30 with Ok s => s | _ => mkStateInner None None (SumTree.new tt) None AlignTop 0 false None None Visible None StateNormal end.

(** The list scrolled into its seventh item. *)
Definition sample : @StateInner nat unit := with_scroll sample_new (Some (mkListOffset 6 5)).

Lemma sample_new_ok :
  list_wf sample_new /\ list_ready sample_new /\ items_of sample_new = repeat (Unmeasured None None) 20.
Proof.
  destruct (list_new_ok (FocusHandle := nat) (Handler := unit) 20 AlignTop 30) as (s & E & Hw & Hr & Hl & _);
    [unfold few; lia|]. unfold sample_new. by rewrite E.
Qed.

Lemma sample_ok : list_wf sample /\ list_ready sample /\ items_of sample = repeat (Unmeasured None None) 20.
Proof.
  destruct sample_new_ok as (Hw & Hr & Hl). split; [|by split]. destruct Hw as [H1 H2 _ H4]. split; [done|done| |done].
  intros o [= <-]. change (items_of sample) with (items_of sample_new). rewrite Hl. cbn. lia.
Qed.

Lemma list_splice_correct_witness :
  (exists s', splice_focusable sample 2 4 [Some 7%nat; None; None] = Ok s' /\ scroll_position s' = Some (mkListOffset 7 5)) /\
  splice_focusable sample 4 2 [] = Panic.
Proof.
  destruct sample_ok as (Hw & Hr & Hl). split.
  - destruct (list_splice_correct sample 2 4 [Some 7%nat; None; None] Hw Hr) as (s' & E & _). exists s'. split; [exact E|].
    assert (E' : splice_focusable sample 2 4 [Some 7%nat; None; None] = Ok s') by exact E. vm_compute in E'.
    injection E' as <-. reflexivity.
  - apply (list_splice_correct sample 4 2 [] Hw Hr). rewrite Hl. cbn. lia.
Defined.

Lemma sample_slice_ready : slice_ready sample 5 10.
Proof.
  intros c t c' t' E1 E2. vm_compute in E1. injection E1 as <- <-. vm_compute in E2. injection E2 as <- <-.
  unfold STACK_CAPACITY. cbn. lia.
Qed.

Lemma list_remeasure_correct_witness :
  exists s', remeasure_items sample 5 10 = Ok s' /\ scroll_position s' = Some (mkListOffset 6 5) /\
    pending_scroll s' = Some (Absolute 6 5).
Proof.
  destruct sample_ok as (Hw & Hr & _).
  destruct (list_remeasure_correct sample 5 10 AnchorAbsolute Hw Hr sample_slice_ready) as (s' & E & _ & _ & _ & _ & Hs & Hp);
    [lia|]. exists s'. split; [exact E|]. split; [exact Hs|exact Hp].
Defined.

Lemma list_reset_correct_witness :
  exists s', reset_with_uniform_height sample 50 20 = Ok s' /\ total_height (node_summary (items s')) = 1000.
Proof.
  destruct sample_ok as (Hw & Hr & _). destruct (list_reset_correct sample 50 20 Hw Hr) as (_ & _ & s' & E & _ & _ & Hh);
    [unfold few; lia|lia|]. exists s'. split; [exact E|exact Hh].
Defined.
End TestList.
