(* ===== verification/ListScroll.v ===== *)
(** * Scrolling a list

    A position, an index and an offset into that item, is read as a distance in pixels
    from the top of the items.  The theorems show where every way of scrolling puts
    the list: by a distance, to an item, by the scrollbar and by the wheel, and what
    the list reports of its position. *)

From stdpp Require Import base list option numbers.
From S2P Require Import Prelude Geometry SumTree Cursor CursorSeek CursorMove ListState ListItems.

Local Open Scope Z_scope.

Section Scroll.
Context {FocusHandle Handler : Type}.
Implicit Types (s : @StateInner FocusHandle Handler) (l : list (ListItem FocusHandle)) (o : ListOffset).

(** The distance of a position from the top. *)
Definition pixel l o : Z := heights (take (item_ix o) l) + offset_in_item o.

(** [o] is the position of the distance [y]: in the item that covers it, or past the
    last item. *)
Definition located l (y : Z) o : Prop :=
  (item_ix o <= length l)%nat /\ 0 <= offset_in_item o /\ pixel l o = y /\
  ((item_ix o < length l)%nat -> y < heights (take (S (item_ix o)) l)).

Lemma located_offset l y o i :
  located l y o -> l !! item_ix o = Some i -> 0 <= offset_in_item o < item_height i.
Proof.
  intros (Hix & H0 & <- & Hlt) Hi. specialize (Hlt (lookup_lt_Some _ _ _ Hi)).
  rewrite (heights_take_S _ _ _ Hi) in Hlt. unfold pixel in Hlt. lia.
Qed.

(** Where a seek for a height with the bias right lands. *)
Lemma landed_located l i0 i y :
  Forall sized l -> lands (D := ListItemSummary) tt (mkHeight y) Right l i0 i -> heights (take i0 l) <= y ->
  located l y (mkListOffset i (y - heights (take i l))).
Proof.
  intros Hs Hl Hy. destruct (lands_height Right l i0 y i Hs Hl) as (Hle & Hp & _ & Hstop).
  unfold located, pixel. cbn [item_ix offset_in_item]. split; [lia|]. split; [destruct Hp; subst; lia|]. split; [lia|exact Hstop].
Qed.

Lemma offset_at_ok s (y : Z) :
  list_wf s -> list_ready s -> 0 <= y -> exists o, offset_at (items s) y = Ok o /\ located (items_of s) y o.
Proof.
  intros Hw Hr Hy. unfold offset_at.
  destruct (seek_height (items s) (summary_cursor (items s)) Right y (proj1 (lw_items s Hw)) Hr (lw_sized s Hw) eq_refl Hy)
    as (c & b & i & -> & Hc & Hl). cbn [obind]. destruct (summary_start _ _ _ Hc) as [-> ->].
  eexists. split; [done|]. apply landed_located with 0%nat; [apply Hw|exact Hl|done].
Qed.

Lemma scroll_top_ok s o :
  list_wf s -> list_ready s -> (item_ix o <= length (items_of s))%nat -> scroll_top s o = Ok (pixel (items_of s) o).
Proof.
  intros Hw Hr Hix. unfold scroll_top.
  destruct (seek_count (D := ListItemSummary) (items s) (summary_cursor (items s)) (item_ix o) (proj1 (lw_items s Hw)) Hr eq_refl)
    as (c & b & -> & Hc). cbn [obind]. destruct (summary_start _ _ _ Hc) as [_ ->].
  fold (items_of s). by rewrite Nat.min_l by done.
Qed.

(** The pending scroll after the list is scrolled to [o]: it restores [o] instead. *)
Definition rebased s o : option PendingScroll :=
  match pending_scroll s with
  | None => None
  | Some pending =>
      if (length (items_of s) <=? item_ix o)%nat then None
      else match pending with
           | Absolute _ _ => Some (Absolute (item_ix o) (offset_in_item o))
           | Proportional _ =>
               match items_of s !! item_ix o with
               | Some i =>
                   match size_hint i with
                   | Some sz => if height sz >? 0 then
                                  Some (Proportional (mkPendingFraction (item_ix o)
                                          (fraction_of (offset_in_item o) (height sz))))
                                else None
                   | None => None
                   end
               | None => None
               end
           end
  end.

Lemma set_scroll_top_ok s o :
  list_wf s -> list_ready s -> set_scroll_top s o = Ok (with_scroll (with_pending s (rebased s o)) (Some o)).
Proof.
  intros Hw Hr. unfold set_scroll_top, rebase_pending_scroll, rebased.
  destruct (pending_scroll s) as [p|] eqn:Ep; [|by destruct s; cbn in *; subst].
  change (item_count (with_pending s None)) with (item_count s). rewrite item_count_ok by done.
  destruct (Nat.leb_spec (length (items_of s)) (item_ix o)) as [Hle|Hlt]; [done|].
  destruct p as [|p]; [done|]. cbn [items with_pending].
  destruct (seek_count (D := Count) (items s) (count_cursor (items s)) (item_ix o) (proj1 (lw_items s Hw)) Hr eq_refl)
    as (c & b & -> & Hc). cbn [obind]. rewrite (cursor_at_item tt _ _ _ Hc). cbn [obind].
  fold (items_of s). by rewrite Nat.min_l by lia.
Qed.

Lemma rebased_ok s o p : 0 <= offset_in_item o -> rebased s o = Some p -> pending_ok p.
Proof.
  unfold rebased. intros Ho. destruct (pending_scroll s) as [q|]; [|done]. destruct (_ <=? _)%nat; [done|].
  destruct q; [by intros [= <-]|]. destruct (_ !! _) as [i|]; [|done]. destruct (size_hint i) as [sz|]; [|done].
  destruct (Z.gtb_spec (height sz) 0); [|done]. intros [= <-]. by apply fraction_ok.
Qed.

Lemma with_scroll_wf s o p :
  list_wf s -> (item_ix o <= length (items_of s))%nat -> 0 <= offset_in_item o -> p = rebased s o \/ p = None ->
  list_wf (with_scroll (with_pending s p) (Some o)).
Proof.
  intros [? ? ? ?] Hix Ho Hp. split; [done|done|by intros ? [= <-]|]. intros q. cbn.
  destruct Hp as [->| ->]; [by apply rebased_ok|done].
Qed.

Lemma with_follow_wf s f : list_wf s -> list_wf (with_follow s f).
Proof. by intros [? ? ? ?]. Qed.

Lemma with_layout_wf s b p : list_wf s -> list_wf (with_layout s b p).
Proof. by intros [? ? ? ?]. Qed.

Lemma set_scroll_handler_wf s h : list_wf s -> list_wf (set_scroll_handler s h).
Proof. by intros [? ? ? ?]. Qed.

Lemma scroll_end_wf s : list_wf s -> list_wf (with_scroll (with_pending s None) None).
Proof. intros [? ? ? ?]. by split. Qed.

(** ** Scrolling by a distance, and to a position *)

Lemma scroll_by_ok s d (Hw : list_wf s) (Hr : list_ready s) :
  d <> 0 ->
  exists o, located (items_of s) (Z.max 0 (pixel (items_of s) (logical_scroll_top s) + d)) o /\
    let s1 := if d <? 0 then with_follow s (stop_following (follow_state s)) else s in
    scroll_by s d = Ok (with_scroll (with_pending s1 (rebased s1 o)) (Some o)).
Proof.
  intros Hd. unfold scroll_by. rewrite (proj2 (Z.eqb_neq d 0) Hd).
  set (o := logical_scroll_top s). destruct (logical_scroll_top_ok s Hw) as [Hix Hoff]. fold o in Hix, Hoff.
  set (s1 := if d <? 0 then _ else s).
  assert (Hi : items s1 = items s) by (unfold s1; by destruct (d <? 0)).
  assert (Hw1 : list_wf s1) by (unfold s1; destruct (d <? 0); [by apply with_follow_wf|done]).
  assert (Hr1 : list_ready s1) by (unfold list_ready; by rewrite Hi). rewrite Hi.
  destruct (seek_count (D := ListItemSummary) (items s) (summary_cursor (items s)) (item_ix o) (proj1 (lw_items s Hw)) Hr eq_refl)
    as (c & b & -> & Hc). cbn [obind]. fold (items_of s) in Hc. rewrite Nat.min_l in Hc by done.
  destruct (summary_start _ _ _ Hc) as [_ ->]. fold (items_of s). fold (pixel (items_of s) o). cbv zeta.
  rewrite (Z.max_comm _ 0). set (y := Z.max 0 (pixel (items_of s) o + d)).
  assert (Hseek : exists c' b' i i0,
    (if y >? pixel (items_of s) o then seek_forward tt c (mkHeight y) Right else seek tt c (mkHeight y) Right) = Ok (c', b') /\
    cursor_at tt (items s) c' i /\ lands (D := ListItemSummary) tt (mkHeight y) Right (items_of s) i0 i /\
    heights (take i0 (items_of s)) <= y).
  { destruct (Z.gtb_spec y (pixel (items_of s) o)) as [Hy|Hy].
    - assert (heights (take (item_ix o) (items_of s)) <= y) by (unfold pixel in Hy; lia).
      destruct (seek_forward_height (items s) c (item_ix o) Right y (proj1 (lw_items s Hw)) Hr Hc) as (c' & b' & j & E & Hc' & Hl);
        [done|]. by exists c', b', j, (item_ix o).
    - destruct (seek_height (items s) c Right y (proj1 (lw_items s Hw)) Hr (lw_sized s Hw)) as (c' & b' & i & E & Hc' & Hl);
        [by destruct Hc as (-> & _)|unfold y; lia|]. exists c', b', i, 0%nat. split_and!; [done..|]. rewrite take_0. change (0 <= y). unfold y. lia. }
  destruct Hseek as (c' & b' & i & i0 & -> & Hc' & Hl & Hy). cbn [obind]. destruct (summary_start _ _ _ Hc') as [-> ->].
  exists (mkListOffset i (y - heights (take i (items_of s)))). split; [by apply landed_located with i0; [apply Hw|..]|].
  by rewrite set_scroll_top_ok.
Qed.

(** Scrolling by a distance moves the position, measured in pixels from the top, by
    exactly that distance, except that it stops at the top; the new position names the
    item that covers it, so that the offset is within that item (or past the last
    one).  Scrolling up stops following the tail, a distance of zero changes nothing,
    and a pending scroll is anchored to the new position. *)
Theorem list_scroll_by_correct s d (Hw : list_wf s) (Hr : list_ready s) :
  exists s', scroll_by s d = Ok s' /\ list_wf s' /\ items s' = items s /\
    follow_state s' = (if d <? 0 then stop_following (follow_state s) else follow_state s) /\
    if d =? 0 then s' = s
    else exists o, scroll_position s' = Some o /\ pending_scroll s' = rebased s o /\
      located (items_of s) (Z.max 0 (pixel (items_of s) (logical_scroll_top s) + d)) o.
Proof.
  destruct (Z.eqb_spec d 0) as [->|Hd]; [by exists s|].
  destruct (scroll_by_ok s d Hw Hr Hd) as (o & Ho & E). eexists. split; [exact E|]. destruct Ho as (Hix & Hoff & Ho).
  split; [|split; [by destruct (d <? 0)|split; [by destruct (d <? 0)|]]].
  - destruct (d <? 0); [apply (with_scroll_wf (with_follow s _)); [by apply with_follow_wf|..]|apply with_scroll_wf]; auto.
  - exists o. split; [done|]. split; [by destruct (d <? 0)|by split].
Qed.

(** [scroll_to] goes to the given position, or past the last item when the index
    is not in the list, and stops following the tail unless it went to the end;
    [scroll_to_end] and [set_follow_tail] go past the last item, the latter following the
    tail. *)
Theorem list_scroll_to_correct s o (Hw : list_wf s) (Hr : list_ready s) (Ho : 0 <= offset_in_item o) :
  (exists s', scroll_to s o = Ok s' /\ list_wf s' /\ items s' = items s /\
     if (item_ix o <? length (items_of s))%nat then
       scroll_position s' = Some o /\ pending_scroll s' = rebased s o /\ is_following_tail s' = false
     else scroll_position s' = Some (mkListOffset (length (items_of s)) 0) /\ pending_scroll s' = None /\
          follow_state s' = follow_state s) /\
  scroll_position (scroll_to_end s) = Some (mkListOffset (length (items_of s)) 0) /\ list_wf (scroll_to_end s) /\
  list_wf (set_follow_tail s true) /\ is_following_tail (set_follow_tail s true) = true /\
  scroll_position (set_follow_tail s true) = Some (mkListOffset (length (items_of s)) 0) /\
  is_following_tail (set_follow_tail s false) = false /\ scroll_position (set_follow_tail s false) = scroll_position s.
Proof.
  assert (Hend : list_wf (with_scroll (with_pending s None) (Some (end_offset s)))).
  { apply with_scroll_wf; [done|cbn; by rewrite item_count_ok|done|by right]. }
  assert (He : end_offset s = mkListOffset (length (items_of s)) 0) by (unfold end_offset; by rewrite item_count_ok).
  split; [|split; [by rewrite <- He|split; [exact Hend|split]]].
  - unfold scroll_to. rewrite item_count_ok by done.
    destruct (Nat.leb_spec (length (items_of s)) (item_ix o)) as [Hle|Hlt].
    + cbn [item_ix]. rewrite Nat.ltb_irrefl, set_scroll_top_ok by done.
      rewrite (proj2 (Nat.ltb_ge (item_ix o) (length (items_of s)))) by done.
      eexists. split; [done|]. split; [apply with_scroll_wf; cbn; [done|lia|lia|by left]|].
      split; [done|]. split; [done|]. split; [|done]. cbn. unfold rebased. cbn [item_ix].
      destruct (pending_scroll s); [|done]. by rewrite Nat.leb_refl.
    + rewrite (proj2 (Nat.ltb_lt (item_ix o) (length (items_of s)))) by done. set (s1 := with_follow s _).
      assert (Hw1 : list_wf s1) by by apply with_follow_wf. rewrite set_scroll_top_ok by done.
      eexists. split; [done|]. split; [by apply with_scroll_wf; [|apply Nat.lt_le_incl| |left]|].
      split; [done|]. split; [done|]. split; [done|]. unfold is_following_tail. cbn. by destruct (follow_state s) as [|[]].
  - destruct Hend. by split.
  - split; [done|]. split; [cbn; by rewrite <- He|by split].
Qed.
(** ** The scrollbar and the wheel *)

Definition padding_of s : Edges := match last_padding s with Some p => p | None => edges_default end.

(** How far the list can scroll in a viewport of the given height, when the items are as
    high as [content]. *)
Definition scroll_limit s (content viewport : Z) : Z :=
  Z.max (content + top_edge (padding_of s) + bottom_edge (padding_of s) - viewport) 0.

(** The height of the items, frozen while the scrollbar is dragged. *)
Definition dragged_height s : Z :=
  match scrollbar_drag_start_height s with Some h => h | None => heights (items_of s) end.

Definition clamp (y limit : Z) : Z := Z.min (Z.max y 0) limit.

Lemma scroll_px_offset_ok s :
  list_wf s -> list_ready s ->
  scroll_px_offset_for_scrollbar s =
    Ok (mkPoint 0 (match scroll_position s, alignment s with
                   | None, AlignBottom => - max_scroll_offset s
                   | _, _ => - pixel (items_of s) (logical_scroll_top s)
                   end)).
Proof.
  intros Hw Hr. unfold scroll_px_offset_for_scrollbar. set (o := logical_scroll_top s).
  destruct (logical_scroll_top_ok s Hw) as [Hix _]. fold o in Hix.
  assert (E : (let! (_, summary) := cursor_summary (O := ListItemSummary) tt (summary_cursor (items s)) (mkCount (item_ix o)) Right in
               Ok (mkPoint 0 (- (total_height summary + offset_in_item o)))) = Ok (mkPoint 0 (- pixel (items_of s) o))).
  { unfold cursor_summary. pose proof (proj1 (lw_items s Hw)) as Hi.
    destruct (seek_internal_ok tt (mkCount (item_ix o)) Right (items s) (summary_cursor (items s)) 0
      (mkSummaryAgg (dim_zero tt : ListItemSummary)) []) as (c & a & i & -> & _ & Hl & Ha);
      [done|done|right; done|done|cbn; by destruct (item_ix o)|].
    apply (lands_count (D := ListItemSummary)) in Hl; [|lia]. rewrite Nat.max_0_l, Nat.min_l in Hl by done. subst i.
    cbn [obind]. cbn in Ha. rewrite Ha, app_nil_r, drop_0. fold (items_of s).
    destruct (summary_items (dim_zero tt) (take (item_ix o) (items_of s))) as [_ E].
    unfold pixel. change (total_height (dim_zero tt : ListItemSummary)) with 0 in E. rewrite Z.add_0_l in E. by rewrite <- E. }
  destruct (scroll_position s), (alignment s); (exact E || done).
Qed.

(** Whether dragging the scrollbar to [y] means following the tail again. *)
Definition drags_to_tail s (y limit : Z) : bool :=
  (limit >? 0) && (clamp y limit >=? Z.max (limit - 1) 0) &&
  match follow_state s with StateTail _ => true | StateNormal => false end.

(** Dragging the scrollbar to a distance puts the list at that distance, clamped to
    what it can scroll, and reading the scrollbar gives that distance back: the height
    frozen at the start of a drag is the one that counts.  A list that was set to follow
    the tail follows it again when it is dragged within a pixel of the end, and a list
    aligned at the bottom is pinned to the end there.  Before the first layout nothing
    happens. *)
Theorem list_scrollbar_roundtrip s p (Hw : list_wf s) (Hr : list_ready s) :
  exists s', set_offset_from_scrollbar s p = Ok s' /\ list_wf s' /\ items s' = items s /\
    match last_layout_bounds s with
    | None => s' = s
    | Some bounds =>
        let limit := scroll_limit s (dragged_height s) (height (size bounds)) in
        let y := clamp (- py p) limit in
        if drags_to_tail s (- py p) limit then
          is_following_tail s' = true /\ scroll_position s' = Some (mkListOffset (length (items_of s)) 0)
        else is_following_tail s' = false /\
          if match alignment s with AlignBottom => y =? limit | AlignTop => false end then
            scroll_position s' = None /\ scroll_px_offset_for_scrollbar s' = Ok (mkPoint 0 (- max_scroll_offset s))
          else exists o, scroll_position s' = Some o /\ located (items_of s) y o /\
                 scroll_px_offset_for_scrollbar s' = Ok (mkPoint 0 (- y))
    end.
Proof.
  unfold set_offset_from_scrollbar. destruct (last_layout_bounds s) as [bounds|] eqn:Eb; [|by exists s].
  fold (padding_of s). rewrite total_height_ok by done. fold (dragged_height s).
  fold (scroll_limit s (dragged_height s) (height (size bounds))). cbv zeta.
  set (limit := scroll_limit s (dragged_height s) (height (size bounds))).
  fold (clamp (- py p) limit). fold (drags_to_tail s (- py p) limit).
  assert (Hy : 0 <= clamp (- py p) limit) by (unfold clamp, limit, scroll_limit; lia).
  destruct (drags_to_tail s (- py p) limit).
  { eexists. split; [done|]. split.
    - apply (with_scroll_wf (with_follow s (StateTail true))); [by apply with_follow_wf| |done|by right].
      cbn. change (item_count _) with (item_count s). by rewrite item_count_ok.
    - split; [done|]. split; [done|]. cbn. unfold end_offset. change (item_count _) with (item_count s). by rewrite item_count_ok. }
  set (s1 := with_follow s (stop_following (follow_state s))).
  assert (Hw1 : list_wf s1) by by apply with_follow_wf. assert (Hr1 : list_ready s1) by done.
  assert (Hf : is_following_tail s1 = false) by (unfold is_following_tail; cbn; by destruct (follow_state s) as [|[]]).
  change (alignment s1) with (alignment s). change (items s1) with (items s).
  destruct (match alignment s with AlignBottom => _ | AlignTop => _ end) eqn:Ea.
  - eexists. split; [done|]. assert (Hw2 := scroll_end_wf s1 Hw1). split; [done|]. split; [done|]. split; [exact Hf|].
    split; [done|]. rewrite scroll_px_offset_ok by done. cbn [scroll_position with_scroll alignment with_pending].
    by destruct (alignment s1) eqn:Ea'; [change (alignment s = AlignTop) in Ea'; rewrite Ea' in Ea|].
  - destruct (offset_at_ok s _ Hw Hr Hy) as (o & -> & Ho). cbn [obind]. rewrite set_scroll_top_ok by done.
    eexists. split; [done|]. pose proof Ho as (Hix & Hoff & Hpx & _).
    assert (Hw2 : list_wf (with_scroll (with_pending s1 (rebased s1 o)) (Some o))) by (apply with_scroll_wf; auto).
    split; [done|]. split; [done|]. split; [exact Hf|]. exists o. split; [done|]. split; [done|].
    rewrite scroll_px_offset_ok by done. change (items_of (with_scroll _ _)) with (items_of s).
    change (logical_scroll_top (with_scroll _ _)) with o. cbn [scroll_position with_scroll]. by rewrite Hpx.
Qed.

(** The range of visible items: [first] up to and with the item that the bottom of the
    viewport is in. *)
Definition range_to l (y : Z) (first end_ : nat) : Prop :=
  exists j, end_ = S j /\ (first <= j <= length l)%nat /\ (j = first \/ heights (take j l) < y) /\
    ((j < length l)%nat -> y <= heights (take (S j) l)).

Lemma visible_range_ok s o (h : Z) :
  list_wf s -> list_ready s -> (item_ix o <= length (items_of s))%nat -> 0 <= offset_in_item o -> 0 <= h ->
  exists end_, visible_range (items s) h o = Ok (item_ix o, end_) /\
    range_to (items_of s) (pixel (items_of s) o + h) (item_ix o) end_.
Proof.
  intros Hw Hr Hix Ho Hh. unfold visible_range.
  destruct (seek_count (D := ListItemSummary) (items s) (summary_cursor (items s)) (item_ix o) (proj1 (lw_items s Hw)) Hr eq_refl)
    as (c & b & -> & Hc). cbn [obind]. fold (items_of s) in Hc. rewrite Nat.min_l in Hc by done.
  destruct (summary_start _ _ _ Hc) as [_ ->]. fold (items_of s). fold (pixel (items_of s) o).
  destruct (seek_forward_height (items s) c (item_ix o) Left (pixel (items_of s) o + h) (proj1 (lw_items s Hw)) Hr Hc)
    as (c' & b' & j & -> & Hc' & Hl); [fold (items_of s); unfold pixel; lia|]. cbn [obind].
  destruct (summary_start _ _ _ Hc') as [-> _]. eexists. split; [done|]. exists j.
  destruct (lands_height Left (items_of s) (item_ix o) _ j (lw_sized s Hw) Hl) as (Hle & _ & Hp & Hstop).
  split; [lia|]. split; [lia|]. split; [by apply Hp|exact Hstop].
Qed.

(** A scroll event moves the list by its delta, clamped to what the list can
    scroll; scrolling up stops following the tail, a list aligned at the bottom is pinned
    to the end when it gets there, and the handler, if any, is told the range of
    visible items, from the item at the top to the one at the bottom of the viewport.
    After a reset the event is dropped. *)
Theorem list_scroll_event_correct s o h delta
    (Hw : list_wf s) (Hr : list_ready s) (Hix : (item_ix o <= length (items_of s))%nat) (Hh : 0 <= h) :
  exists s' event, scroll s o h delta = Ok (s', event) /\ list_wf s' /\ items s' = items s /\
    if was_reset s then s' = s /\ event = None
    else
      let limit := scroll_limit s (heights (items_of s)) h in
      let y := clamp (pixel (items_of s) o - py delta) limit in
      (exists o', located (items_of s) y o' /\
        scroll_position s' = (if match alignment s with AlignBottom => y =? limit | AlignTop => false end
                              then None else Some o') /\
        match scroll_handler s with
        | None => event = None
        | Some handler =>
            exists end_, range_to (items_of s) (y + h) (item_ix o') end_ /\
              event = Some (handler, mkListScrollEvent (item_ix o') end_ (length (items_of s))
                        (bool_decide (is_Some (scroll_position s'))) (is_following_tail s'))
        end) /\
      follow_state s' = (if py delta >? 0 then stop_following (follow_state s) else follow_state s).
Proof.
  unfold scroll. destruct (was_reset s); [by exists s, None|].
  rewrite total_height_ok by done. fold (padding_of s). fold (scroll_limit s (heights (items_of s)) h). cbv zeta.
  rewrite scroll_top_ok by done. cbn [obind]. set (limit := scroll_limit _ _ _). fold (clamp (pixel (items_of s) o - py delta) limit).
  set (y := clamp _ limit). assert (Hy : 0 <= y) by (unfold y, clamp, limit, scroll_limit; lia).
  destruct (offset_at_ok s y Hw Hr Hy) as (o' & -> & Ho). cbn [obind]. pose proof Ho as (Hix' & Hoff & Hpx & _).
  set (pinned := match alignment s with AlignBottom => _ | AlignTop => _ end).
  assert (Hs1 : exists s1, (if pinned then Ok (with_scroll (with_pending s None) None) else set_scroll_top s o') = Ok s1 /\
    list_wf s1 /\ items s1 = items s /\ follow_state s1 = follow_state s /\ scroll_handler s1 = scroll_handler s /\
    scroll_position s1 = if pinned then None else Some o').
  { destruct pinned; [eexists; split; [done|]; split; [by apply scroll_end_wf|done]|].
    rewrite set_scroll_top_ok by done. eexists. split; [done|]. split; [by apply with_scroll_wf; [..|left]|done]. }
  destruct Hs1 as (s1 & -> & Hw1 & Hi1 & Hf1 & Hh1 & Hp1). cbn [obind].
  set (s2 := if py delta >? 0 then with_follow s1 _ else s1).
  assert (Hs2 : list_wf s2 /\ items s2 = items s /\ scroll_handler s2 = scroll_handler s /\
    scroll_position s2 = (if pinned then None else Some o') /\
    follow_state s2 = if py delta >? 0 then stop_following (follow_state s) else follow_state s).
  { unfold s2. destruct (py delta >? 0); [|by split_and!]. split; [by apply with_follow_wf|]. cbn. by rewrite Hf1. }
  destruct Hs2 as (Hw2 & Hi2 & Hh2 & Hp2 & Hf2). rewrite Hh2.
  destruct (scroll_handler s) as [handler|]; [|exists s2, None; split_and!; [done|done|done| |done]; exists o'; by split_and!].
  rewrite Hi2. destruct (visible_range_ok s o' h Hw Hr Hix' Hoff Hh) as (end_ & -> & Hrange). cbn [obind].
  rewrite item_count_ok by done. unfold items_of at 1. rewrite Hi2.
  eexists _, _. split; [done|]. split; [done|]. split; [done|]. split; [|done]. exists o'. split; [done|]. split; [done|].
  exists end_. split; [by rewrite <- Hpx|]. done.
Qed.
(** ** Showing an item *)

Definition viewport_height s : Z := match last_layout_bounds s with Some b => height (size b) | None => 0 end.

(** The position of the last layout is within the item it names. *)
Definition offset_inside l o : Prop :=
  (item_ix o < length l)%nat -> pixel l o <= heights (take (S (item_ix o)) l).

Lemma reveal_ok s ix (Hw : list_wf s) (Hr : list_ready s) :
  (ix < length (items_of s))%nat ->
  let o := logical_scroll_top s in
  let goal := Z.max 0 (heights (take (S ix) (items_of s)) + top_edge (padding_of s) - viewport_height s +
                       bottom_edge (padding_of s)) in
  exists o', scroll_to_reveal_item s ix = set_scroll_top s o' /\ (item_ix o' <= length (items_of s))%nat /\
    0 <= offset_in_item o' /\
    if (ix <=? item_ix o)%nat then o' = mkListOffset ix 0
    else pixel (items_of s) o' = goal \/ o' = o /\ goal <= heights (take (item_ix o) (items_of s)).
Proof.
  intros Hix o goal. destruct (logical_scroll_top_ok s Hw) as [Ho Hoff]. fold o in Ho, Hoff. unfold scroll_to_reveal_item.
  fold o. destruct (Nat.leb_spec ix (item_ix o)) as [Hle|Hgt]; cbn [obind]; [eexists; split; [done|]; cbn; split_and!; [lia|lia|done]|].
  destruct (seek_count (D := ListItemSummary) (items s) (summary_cursor (items s)) (ix + 1) (proj1 (lw_items s Hw)) Hr eq_refl)
    as (c & b & -> & Hc). cbn [obind]. fold (items_of s) in Hc. rewrite Nat.min_l, Nat.add_1_r in Hc by lia.
  destruct (summary_start _ _ _ Hc) as [_ ->]. fold (items_of s). cbv zeta. fold (padding_of s). fold (viewport_height s). fold goal.
  destruct (seek_height (items s) c Left goal (proj1 (lw_items s Hw)) Hr (lw_sized s Hw)) as (c' & b' & j & -> & Hc' & Hl);
    [by destruct Hc as (-> & _)|unfold goal; lia|]. cbn [obind]. destruct (summary_start _ _ _ Hc') as [-> ->].
  fold (items_of s) in Hl |- *. destruct (lands_height Left (items_of s) 0 _ j (lw_sized s Hw) Hl) as (Hlej & Hp & _ & Hstop).
  assert (Hj : heights (take j (items_of s)) <= goal).
  { destruct Hp as [->|Hp]; [|done]. rewrite take_0. change (0 <= goal). unfold goal. lia. }
  destruct (Nat.leb_spec (item_ix o) j) as [Hoj|Hoj]; (eexists; split; [done|]).
  - unfold pixel. cbn [item_ix offset_in_item]. split; [lia|]. split; [lia|]. left. lia.
  - split; [done|]. split; [done|]. right. split; [done|]. specialize (Hstop ltac:(lia)).
    pose proof (heights_take_mono (items_of s) (S j) (item_ix o) (lw_sized s Hw) ltac:(lia)). lia.
Qed.

(** Revealing an item leaves it in view: an item at or above the scroll top
    is put at the top of the viewport; after revealing a later item its bottom, with the
    padding, is not below the viewport and, when the item fits, its top is not above
    it. *)
Theorem list_reveal_correct s ix (Hw : list_wf s) (Hr : list_ready s) (Hix : (ix < length (items_of s))%nat)
    (Ho : offset_inside (items_of s) (logical_scroll_top s)) :
  exists s' o, scroll_to_reveal_item s ix = Ok s' /\ list_wf s' /\ items s' = items s /\ scroll_position s' = Some o /\
    pending_scroll s' = rebased s o /\
    let y := pixel (items_of s) o in
    let item_top := heights (take ix (items_of s)) in
    let item_bottom := heights (take (S ix) (items_of s)) in
    if (ix <=? item_ix (logical_scroll_top s))%nat then y = item_top
    else item_bottom + top_edge (padding_of s) + bottom_edge (padding_of s) <= y + viewport_height s /\
         (item_bottom - item_top + top_edge (padding_of s) + bottom_edge (padding_of s) <= viewport_height s -> y <= item_top).
Proof.
  destruct (reveal_ok s ix Hw Hr Hix) as (o & E & Hlen & Hoff & Hcase). rewrite set_scroll_top_ok in E by done.
  eexists _, o. split; [exact E|]. split; [by apply with_scroll_wf; [..|left]|]. split; [done|]. split; [done|]. split; [done|].
  cbv zeta. destruct (Nat.leb_spec ix (item_ix (logical_scroll_top s))) as [Hle|Hgt].
  - subst o. unfold pixel. cbn [item_ix offset_in_item]. lia.
  - assert (H0 : 0 <= heights (take ix (items_of s))) by apply heights_nonneg, Forall_take, Hw.
    destruct Hcase as [->|[-> Hg]]; [lia|].
    specialize (Ho ltac:(lia)). pose proof (heights_take_mono (items_of s) (S (item_ix (logical_scroll_top s))) ix
      (lw_sized s Hw) ltac:(lia)). unfold pixel in *. destruct (logical_scroll_top_ok s Hw) as [_ ?]. lia.
Qed.

(** ** What the list reports of its items *)

(** The bounds of an item in the last viewport. *)
Definition item_bounds s ix (sz : Size) : Bounds :=
  let y := top (viewport_bounds s) + heights (take ix (items_of s)) - pixel (items_of s) (logical_scroll_top s) in
  mkBounds (mkPoint (left_ (viewport_bounds s)) y) (mkSize (width (size (viewport_bounds s))) (height sz)).

Lemma bounds_for_item_ok s ix (Hw : list_wf s) (Hr : list_ready s) :
  bounds_for_item s ix =
    Ok (if (ix <? item_ix (logical_scroll_top s))%nat then None
        else match items_of s !! ix with
             | Some (Measured sz _) => Some (item_bounds s ix sz)
             | _ => None
             end).
Proof.
  unfold bounds_for_item. set (o := logical_scroll_top s). destruct (logical_scroll_top_ok s Hw) as [Hix Hoff]. fold o in Hix, Hoff.
  destruct (Nat.ltb_spec ix (item_ix o)) as [Hlt|Hge]; [done|].
  destruct (seek_count (D := Count * Height) (items s) (dimensions_cursor (items s)) (item_ix o) (proj1 (lw_items s Hw)) Hr eq_refl)
    as (c & b & -> & Hc). cbn [obind]. fold (items_of s) in Hc. rewrite Nat.min_l in Hc by done.
  destruct (seek_forward_count (D := Count * Height) (items s) c (item_ix o) ix (proj1 (lw_items s Hw)) Hr (or_introl Hc))
    as (c' & b' & -> & Hc'); [done|done|]. cbn [obind]. fold (items_of s) in Hc'.
  rewrite (cursor_at_item tt _ _ _ Hc'), (cursor_at_start tt _ _ _ Hc), (cursor_at_start tt _ _ _ Hc'). cbn [obind].
  fold (items_of s). rewrite !pair_position by lia. cbn [fst snd height_of count_of].
  destruct (decide (ix < length (items_of s))%nat) as [Hlen|Hlen].
  - rewrite Nat.min_l by lia. destruct (items_of s !! ix) as [[|sz f]|]; [done| |done]. rewrite Nat.eqb_refl.
    do 2 f_equal. unfold item_bounds, from_corners, viewport_bounds, pixel, right_, left_. fold o. cbn [px py].
    destruct (last_layout_bounds s); f_equal; f_equal; cbn [origin size width]; lia.
  - rewrite Nat.min_r by lia. by rewrite !lookup_ge_None_2 by lia.
Qed.

(** [bounds_for_item] gives, for the measured items from the scroll top on and no
    others, the bounds at their distance from it in the last viewport; the two tests tell
    whether those bounds are above or below the viewport, items before the scroll
    top counting as above; [is_scrolled_to_end] compares the position with what the list
    can scroll, and is unknown when a height is, or when the content fits. *)
Theorem list_bounds_correct s ix (Hw : list_wf s) (Hr : list_ready s) :
  let before := (ix <? item_ix (logical_scroll_top s))%nat in
  let measured := match items_of s !! ix with Some (Measured sz _) => Some (item_bounds s ix sz) | _ => None end in
  bounds_for_item s ix = Ok (if before then None else measured) /\
  (viewport_height s <> 0 ->
     item_is_above_viewport s ix =
       Ok (if before then Some true else option_map (fun b => bottom b <=? top (viewport_bounds s)) measured) /\
     item_is_below_viewport s ix =
       Ok (if before then Some false else option_map (fun b => top b >=? bottom (viewport_bounds s)) measured)) /\
  is_scrolled_to_end s = Ok
    (match last_layout_bounds s with
     | None => None
     | Some b =>
         let limit := scroll_limit s (heights (items_of s)) (height (size b)) in
         if existsb (fun i => has_unknown_height (item_summary i)) (items_of s) || (limit <=? 0) then None
         else Some (pixel (items_of s) (logical_scroll_top s) >=? limit)
     end).
Proof.
  intros before measured. pose proof (bounds_for_item_ok s ix Hw Hr) as E. fold before measured in E. split; [exact E|]. split.
  - intros Hv. unfold item_is_above_viewport, item_is_below_viewport.
    assert ((height (size (viewport_bounds s)) =? 0) = false) as ->.
    { apply Z.eqb_neq. unfold viewport_height in Hv. unfold viewport_bounds. by destruct (last_layout_bounds s). }
    fold before. rewrite E. by destruct before.
  - unfold is_scrolled_to_end. destruct (last_layout_bounds s) as [b|]; [|done].
    rewrite unknown_height_ok, total_height_ok by done. fold (padding_of s). fold (scroll_limit s (heights (items_of s)) (height (size b))).
    cbv zeta. destruct (existsb _ _); [done|]. cbn [orb]. destruct (_ <=? 0); [done|].
    by rewrite scroll_top_ok by (done || by apply logical_scroll_top_ok).
Qed.
End Scroll.

(** ** Concrete runs *)
Module TestScroll.
Import TestList.

(** Twenty items of height 10 in a viewport of height 55, scrolled into the seventh. *)
Definition scrolled : @StateInner nat unit :=
  match apply_uniform_item_height sample 10 with
  | Ok s => set_scroll_handler (with_layout s (Some (mkBounds (mkPoint 0 0) (mkSize 100 55))) (Some (mkEdges 2 0 3 0))) tt
  | _ => sample
  end.

Lemma scrolled_ok :
  list_wf scrolled /\ list_ready scrolled /\ items_of scrolled = repeat (Unmeasured (Some (mkSize 0 10)) None) 20.
Proof.
  destruct sample_ok as (Hw & Hr & Hl). destruct (uniform_ok sample 10 Hw Hr) as (t & E & Ht & Hi).
  pose proof (uniform_wf sample t 10 Hw ltac:(lia) Ht Hi) as Hw'.
  split; [|split; [vm_compute; lia|vm_compute; reflexivity]].
  unfold scrolled. rewrite E. by apply set_scroll_handler_wf, with_layout_wf.
Qed.

Lemma list_scroll_by_correct_witness :
  exists s' o, scroll_by scrolled 42 = Ok s' /\ scroll_position s' = Some o /\ pixel (items_of scrolled) o = 107.
Proof.
  destruct scrolled_ok as (Hw & Hr & Hl). destruct (list_scroll_by_correct scrolled 42 Hw Hr) as (s' & E & _ & _ & _ & o & Hp & _ & Ho).
  exists s', o. split; [exact E|]. split; [exact Hp|]. destruct Ho as (_ & _ & -> & _). vm_compute. reflexivity.
Defined.

Lemma list_scroll_to_correct_witness :
  exists s', scroll_to scrolled (mkListOffset 25 3) = Ok s' /\ scroll_position s' = Some (mkListOffset 20 0).
Proof.
  destruct scrolled_ok as (Hw & Hr & Hl).
  destruct (list_scroll_to_correct scrolled (mkListOffset 25 3) Hw Hr ltac:(cbn; lia)) as ((s' & E & _ & _ & H) & _).
  exists s'. split; [exact E|]. rewrite Hl in H. apply H.
Defined.

Lemma list_scrollbar_roundtrip_witness :
  exists s', set_offset_from_scrollbar scrolled (mkPoint 0 (-30)) = Ok s' /\ list_wf s' /\
    scroll_px_offset_for_scrollbar s' = Ok (mkPoint 0 (-30)).
Proof.
  destruct scrolled_ok as (Hw & Hr & Hl).
  destruct (list_scrollbar_roundtrip scrolled (mkPoint 0 (-30)) Hw Hr) as (s' & E & Hw' & _). exists s'. split; [exact E|].
  split; [exact Hw'|]. vm_compute in E. injection E as <-. vm_compute. reflexivity.
Defined.

Lemma list_scroll_event_correct_witness :
  exists s' event, scroll scrolled (mkListOffset 6 5) 55 (mkPoint 0 12) = Ok (s', event) /\ list_wf s'.
Proof.
  destruct scrolled_ok as (Hw & Hr & Hl).
  destruct (list_scroll_event_correct scrolled (mkListOffset 6 5) 55 (mkPoint 0 12) Hw Hr) as (s' & event & E & Hw' & _);
    [rewrite Hl; cbn; lia|lia|]. exists s', event. split; [exact E|exact Hw'].
Defined.

Lemma list_reveal_correct_witness :
  exists s' o, scroll_to_reveal_item scrolled 15 = Ok s' /\ scroll_position s' = Some o /\
    160 + 5 <= pixel (items_of scrolled) o + 55.
Proof.
  destruct scrolled_ok as (Hw & Hr & Hl).
  destruct (list_reveal_correct scrolled 15 Hw Hr) as (s' & o & E & _ & _ & Hp & _ & H).
  - rewrite Hl. cbn. lia.
  - intros _. rewrite Hl. vm_compute. discriminate.
  - exists s', o. split; [exact E|]. split; [exact Hp|]. rewrite Hl in *. cbv zeta in H.
    change (15 <=? item_ix (logical_scroll_top scrolled))%nat with false in H. cbn iota in H. destruct H as [H _].
    change (heights (take 16 (repeat (Unmeasured (Some (mkSize 0 10)) None) 20))) with 160 in H.
    change (viewport_height scrolled) with 55 in H. change (top_edge (padding_of scrolled)) with 2 in H.
    change (bottom_edge (padding_of scrolled)) with 3 in H. lia.
Defined.

Lemma list_bounds_correct_witness : item_is_above_viewport scrolled 3 = Ok (Some true).
Proof.
  destruct scrolled_ok as (Hw & Hr & Hl). destruct (list_bounds_correct scrolled 3 Hw Hr) as (_ & H & _).
  destruct H as [-> _]; [vm_compute; discriminate|]. reflexivity.
Defined.

(** When the items end above the bottom of the viewport, the visible range that the
    handler is told reaches one past the items. *)
Example visible_range_past_the_items :
  visible_range (items scrolled) 300 (mkListOffset 0 0) = Ok (0, 21)%nat /\ item_count scrolled = 20%nat.
Proof. split; vm_compute; reflexivity. Qed.

(** [max_offset_for_scrollbar] leaves out the padding, over which the list scrolls. *)
Example scrollbar_without_padding :
  max_scroll_offset scrolled = 145 /\
  exists s, set_offset_from_scrollbar scrolled (mkPoint 0 (-1000)) = Ok s /\
    scroll_px_offset_for_scrollbar s = Ok (mkPoint 0 (-150)).
Proof. split; [vm_compute; reflexivity|]. eexists. split; vm_compute; reflexivity. Qed.
End TestScroll.
