(* ===== verification/ListLayout.v ===== *)
(** * The layout of a list

    One frame of a list renders and measures the items from the scroll top on, goes
    back when they do not fill the viewport, measures the overdraw on both sides, and
    puts the measured items in place of the old ones.  The theorems show that the
    frame covers the viewport whenever the list is long enough, that the items only
    gain sizes, and where it leaves the scroll position. *)

From stdpp Require Import base list option numbers.
From S2P Require Import Prelude Geometry SumTree Cursor CursorSeek CursorMove ListState ListItems ListScroll.

Local Open Scope Z_scope.

(** ** Cursors that move back *)

Section Back.
Context {FocusHandle : Type}.
Implicit Types (t : tree (ListItem FocusHandle) ListItemSummary) (c : Cursor (ListItem FocusHandle) ListItemSummary Count).

(** The cursor is on item [k], or before the first item, for [k = 0]. *)
Definition at_or_before t c (k : nat) : Prop := cursor_at tt t c k \/ k = 0%nat /\ cursor_before tt t c.

Lemma before_item t c : cursor_before tt t c -> item c = Ok None.
Proof. intros (_ & Hd & _ & Hs & _). unfold item, assert_did_seek. by rewrite Hd, Hs. Qed.

Lemma at_or_before_start t c k : at_or_before t c k -> count_of (start c) = k.
Proof. intros [Hc|[-> Hc]]; [by apply (count_start t)|]. unfold start. by destruct Hc as (_ & _ & -> & _). Qed.

Lemma prev_step t c k :
  wf_tree tt t -> (node_height t < STACK_CAPACITY)%nat -> at_or_before t c k ->
  exists c', cursor_prev tt c = Ok c' /\ item c' = Ok (match k with O => None | S j => to_list t !! j end) /\
    at_or_before t c' (pred k).
Proof.
  intros Hw Hh Hc.
  assert (Hs : prev_start tt t c k /\ (k <= length (to_list t))%nat).
  { destruct Hc as [Hc|[-> Hc]]; [split; [by left|by apply (cursor_at_bound tt) in Hc]|]. split; [|lia]. right. by right. }
  destruct (prev_ok tt t c k Hw Hh (proj1 Hs) (proj2 Hs)) as (c' & E & Hl). exists c'. split; [done|].
  destruct k as [|j]; cbn in Hl |- *.
  - destruct Hl as [Hb|[He Hc']]; [split; [by apply (before_item t)|by right]|].
    split; [|by left]. by rewrite (cursor_at_item tt _ _ _ Hc'), He.
  - split; [by apply (cursor_at_item tt)|by left].
Qed.

Lemma iter_next_step t c k :
  wf_tree tt t -> (node_height t < STACK_CAPACITY)%nat -> cursor_at tt t c k ->
  exists c', cursor_iter_next tt c = Ok (c', to_list t !! k) /\ (is_Some (to_list t !! k) -> cursor_at tt t c' (S k)).
Proof.
  intros Hw Hh Hc. unfold cursor_iter_next. assert (did_seek c = true) as -> by apply Hc. cbn [obind].
  rewrite (cursor_at_item tt _ _ _ Hc). cbn [obind]. destruct (to_list t !! k) as [i|] eqn:Ei.
  - destruct (next_ok tt t c (Nat.min (S k) (length (to_list t))) Hw Hh) as (c' & -> & Hc'); [left; by exists k|]. cbn [obind].
    exists c'. split; [done|]. intros _. apply lookup_lt_Some in Ei. by rewrite Nat.min_l in Hc' by lia.
  - exists c. split; [done|]. by intros [? ?].
Qed.
End Back.

Section Layout.
Context {FocusHandle Handler Element : Type}.
Variable render_item : nat -> Element.
Variable layout_as_root : Element -> option Z -> Size.
Variable focused : FocusHandle -> bool.
Hypothesis heights_measured : forall e w, 0 <= height (layout_as_root e w).
Implicit Types (s : @StateInner FocusHandle Handler) (l ms : list (ListItem FocusHandle)) (o : ListOffset).

Local Abbreviation Layout := (@Layout FocusHandle Handler Element).
Local Abbreviation measured_size := (measure render_item layout_as_root).

(** ** What a frame makes of the items *)

(** The item of index [ix], measured in this frame or before. *)
Definition measured_as (w : option Z) (ix : nat) (i i' : ListItem FocusHandle) : Prop :=
  exists sz, i' = Measured sz (focus_handle i) /\ (sz = measured_size w ix \/ item_size i = Some sz).

(** [ms] are the items of [l] from index [k] on, measured. *)
Definition measured_from (w : option Z) l (k : nat) ms : Prop :=
  forall j i', ms !! j = Some i' -> exists i, l !! (k + j)%nat = Some i /\ measured_as w (k + j) i i'.

Definition layout_of (w : option Z) (ix : nat) : ItemLayout :=
  mkItemLayout ix (render_item ix) (measured_size w ix).

(** The layouts of [v] items from [k] on, which are the first of the measured ones. *)
Definition shown (w : option Z) (k v : nat) ms (ls : list ItemLayout) : Prop :=
  ls = map (layout_of w) (seq k v) /\ (v <= length ms)%nat /\
  forall j, (j < v)%nat -> exists f, ms !! j = Some (Measured (measured_size w (k + j)) f).

(** The changes of the first loop to the state: the pending scroll is taken, and the
    position follows what it restores. *)
Definition settled s o s' o' : Prop :=
  exists p q, s' = with_scroll (with_pending s p) q /\ (p = pending_scroll s \/ p = None) /\
    (q = scroll_position s /\ o' = o \/ q = Some o').

Lemma measured_size_nonneg w ix : 0 <= height (measured_size w ix).
Proof. apply heights_measured. Qed.

Lemma measured_from_nil w l k : measured_from w l k [].
Proof. intros j i' H. by rewrite lookup_nil in H. Qed.

Lemma measured_from_snoc w l k ms i i' :
  measured_from w l k ms -> l !! (k + length ms)%nat = Some i -> measured_as w (k + length ms) i i' ->
  measured_from w l k (ms ++ [i']).
Proof.
  intros Hm Hi Hi' j x Hx. apply lookup_app_Some in Hx as [Hx|[Hj Hx]]; [by apply Hm|].
  apply list_lookup_singleton_Some in Hx as [Hj' <-]. assert (j = length ms) as -> by lia. eauto.
Qed.

Lemma measured_from_cons w l k ms i i' :
  measured_from w l (S k) ms -> l !! k = Some i -> measured_as w k i i' -> measured_from w l k (i' :: ms).
Proof.
  intros Hm Hi Hi' [|j] x Hx; cbn in Hx; [simplify_eq; rewrite Nat.add_0_r; eauto|].
  rewrite Nat.add_succ_r, <- Nat.add_succ_l. by apply Hm.
Qed.

Lemma measured_from_sized w l k ms : Forall sized l -> measured_from w l k ms -> Forall sized ms.
Proof.
  intros Hl Hm. apply Forall_lookup. intros j i' Hj. destruct (Hm j i' Hj) as (i & Hi & sz & -> & Hsz).
  unfold sized. cbn. destruct Hsz as [->|Hsz]; [apply measured_size_nonneg|].
  pose proof (proj1 (Forall_lookup _ _) Hl _ _ Hi) as H. destruct i; [done|]. cbn in *. by simplify_eq.
Qed.

Lemma shown_snoc w k ms ls f :
  shown w k (length ms) ms ls ->
  shown w k (S (length ms)) (ms ++ [Measured (measured_size w (k + length ms)) f]) (ls ++ [layout_of w (k + length ms)]).
Proof.
  intros (-> & _ & Hs). split; [|split; [rewrite length_app; cbn; lia|]].
  - rewrite seq_S, map_app. done.
  - intros j Hj. destruct (decide (j = length ms)) as [->|Hne].
    + exists f. by rewrite lookup_app_r, Nat.sub_diag by lia.
    + destruct (Hs j ltac:(lia)) as [f' Hf]. exists f'. by apply lookup_app_l_Some.
Qed.

Lemma shown_more w k v ms ls i : shown w k v ms ls -> shown w k v (ms ++ [i]) ls.
Proof.
  intros (-> & Hv & Hs). split; [done|]. split; [rewrite length_app; lia|]. intros j Hj. destruct (Hs j Hj) as [f Hf]. exists f.
  by apply lookup_app_l_Some.
Qed.

Lemma shown_cons w k v ms ls f :
  shown w (S k) v ms ls -> shown w k (S v) (Measured (measured_size w k) f :: ms) (layout_of w k :: ls).
Proof.
  intros (-> & Hv & Hs). split; [done|]. split; [cbn; lia|]. intros [|j] Hj; [exists f; by rewrite Nat.add_0_r|].
  destruct (Hs j ltac:(lia)) as [f' Hf]. exists f'. by rewrite Nat.add_succ_r, <- Nat.add_succ_l.
Qed.

(** ** The first loop *)

Section After.
Variables (s : @StateInner FocusHandle Handler) (w : option Z) (available_height : Z) (top_ : Z) (o : ListOffset).
Hypothesis Hw : list_wf s.
Hypothesis Hr : list_ready s.
Hypothesis Htop : top_ < available_height.
Hypothesis Hoff : 0 <= offset_in_item o.
Hypothesis Hix : (item_ix o <= length (items_of s))%nat.
Local Abbreviation L := (items_of s).
Local Abbreviation k := (item_ix o).

(** After the items [k .. k + length measured) of the list. *)
Record after_inv (y : Layout) : Prop := {
  ai_bound : (k + length (measured_items y) <= length L)%nat;
  ai_measured : measured_from w L k (measured_items y);
  ai_rendered : rendered_height y = top_ + heights (measured_items y);
  ai_shown : exists v, shown w k v (measured_items y) (layouts y) /\
    rendered_focused_item y = existsb (contains_focused focused) (take v (drop k L)) /\
    (v = length (measured_items y) \/
     available_height <= top_ + heights (take v (measured_items y)) - offset_in_item (layout_scroll_top y));
  ai_scroll : item_ix (layout_scroll_top y) = k /\ 0 <= offset_in_item (layout_scroll_top y);
  ai_first : measured_items y = [] -> layout_scroll_top y = o /\ layout_state y = s;
  ai_state : settled s o (layout_state y) (layout_scroll_top y);
}.

Lemma apply_pending_ok sz :
  0 <= height sz ->
  let (s', o') := apply_pending_scroll s o sz in
  item_ix o' = k /\ 0 <= offset_in_item o' /\ settled s o s' o'.
Proof.
  intros Hsz. unfold apply_pending_scroll. pose proof (lw_pending s Hw) as Hp.
  assert (H0 : forall p, p = pending_scroll s \/ p = None -> settled s o (with_pending s p) o).
  { intros p Hpp. exists p, (scroll_position s). split; [by destruct s|]. by auto. }
  destruct (pending_scroll s) as [[ix offset|p]|] eqn:Ep.
  - destruct (Nat.eqb_spec ix k); [|by split; [|split; [|apply H0; right]]]. split; [done|].
    specialize (Hp _ eq_refl). cbn in Hp |- *. split; [lia|]. eexists None, _. split; [done|]. auto.
  - destruct (Nat.eqb_spec (pending_item_ix p) k); [|by split; [|split; [|apply H0; right]]]. split; [done|].
    destruct (Hp _ eq_refl) as [[Hn _] Hd]. cbn [offset_in_item]. split.
    + unfold times_fraction. apply Z.div_pos; [by apply Z.mul_nonneg_nonneg|done].
    + eexists None, _. split; [done|]. auto.
  - split; [done|]. split; [done|]. specialize (H0 None (or_introl eq_refl)). by destruct s; cbn in *; subst.
Qed.

Lemma visible_all y v :
  after_inv y -> shown w k v (measured_items y) (layouts y) ->
  (v = length (measured_items y) \/
   available_height <= top_ + heights (take v (measured_items y)) - offset_in_item (layout_scroll_top y)) ->
  rendered_height y - offset_in_item (layout_scroll_top y) < available_height -> v = length (measured_items y).
Proof.
  intros Hy (_ & Hv & _) [->|Ha] Hvis; [done|]. rewrite (ai_rendered y Hy) in Hvis.
  pose proof (heights_take_mono (measured_items y) v (length (measured_items y))
    (measured_from_sized _ _ _ _ (lw_sized s Hw) (ai_measured y Hy)) Hv) as H. rewrite firstn_all in H. lia.
Qed.

Lemma take_drop_snoc v (i : ListItem FocusHandle) :
  L !! (k + v)%nat = Some i -> take (S v) (drop k L) = take v (drop k L) ++ [i].
Proof. intros H. apply take_S_r. by rewrite lookup_drop. Qed.

Lemma layout_item_ok y i :
  after_inv y -> L !! (k + length (measured_items y))%nat = Some i ->
  exists y', layout_item render_item layout_as_root focused w available_height (length (measured_items y)) i y = Ok y' /\
    after_inv y' /\ length (measured_items y') = S (length (measured_items y)) /\
    overdraw (layout_state y') = overdraw (layout_state y).
Proof.
  intros Hy Hi. pose proof Hy as [Hb Hm Hren (v & Hsh & Hfoc & Hv) [Hk Ho] Hfirst Hst]. unfold layout_item.
  set (n := length (measured_items y)) in *. pose proof (lookup_lt_Some _ _ _ Hi) as Hlt.
  destruct (Z.ltb_spec (rendered_height y - offset_in_item (layout_scroll_top y)) available_height) as [Hvis|Hvis].
  - assert (v = n) as -> by (eapply visible_all; eauto). cbn [orb]. rewrite Hk.
    change (layout_as_root (render_item (k + n)) w) with (measured_size w (k + n)).
    set (sz := measured_size w (k + n)). assert (Hsz : 0 <= height sz) by apply measured_size_nonneg.
    assert (Hp : exists s' o', (if (n =? 0)%nat then apply_pending_scroll (layout_state y) (layout_scroll_top y) sz
                                else (layout_state y, layout_scroll_top y)) = (s', o') /\
      item_ix o' = k /\ 0 <= offset_in_item o' /\ settled s o s' o').
    { destruct (Nat.eqb_spec n 0) as [Hn|Hn]; [|by exists (layout_state y), (layout_scroll_top y)].
      apply nil_length_inv in Hn. destruct (Hfirst Hn) as [-> ->].
      pose proof (apply_pending_ok sz Hsz) as H. destruct (apply_pending_scroll s o sz) as [s' o']. by exists s', o'. }
    destruct Hp as (s' & o' & -> & Hk' & Ho' & Hst'). cbn [unwrap obind]. eexists. split; [done|].
    split; [|split; [cbn; rewrite length_app; cbn; lia|]].
    + split; cbn [measured_items rendered_height layouts layout_scroll_top layout_state rendered_focused_item].
      * rewrite length_app. cbn. fold n. lia.
      * eapply measured_from_snoc; [done|exact Hi|]. exists sz. auto.
      * rewrite Hren, heights_app. cbn. unfold item_height. cbn. lia.
      * exists (S n). split; [by apply shown_snoc|]. split; [|left; rewrite length_app; cbn; lia].
        rewrite Hfoc, (take_drop_snoc n i Hi), existsb_app. cbn. by rewrite orb_false_r.
      * done.
      * intros E. by apply app_nil in E as [_ ?].
      * done.
    + cbn. destruct Hst as (? & ? & -> & _), Hst' as (? & ? & -> & _). done.
  - assert (Hn : (0 < n)%nat).
    { destruct (decide (n = 0%nat)) as [Hn|]; [|lia]. apply nil_length_inv in Hn. destruct (Hfirst Hn) as [E _].
      rewrite E, Hren, Hn in Hvis. change (heights []) with 0 in Hvis. lia. }
    assert (Hmeas : exists sz, (sz = measured_size w (k + n) \/ item_size i = Some sz) /\
      (let '(l, sz) :=
         if false || bool_decide (item_size i = None) then
           let item_index := (item_ix (layout_scroll_top y) + n)%nat in
           let element := render_item item_index in
           let element_size := layout_as_root element w in
           let (s, o) := if (n =? 0)%nat then apply_pending_scroll (layout_state y) (layout_scroll_top y) element_size
                         else (layout_state y, layout_scroll_top y) in
           (mkLayout s (measured_items y) (layouts y) (rendered_height y) (max_width y) o (rendered_focused_item y),
            Some element_size)
         else (y, item_size i) in (l, sz)) = (y, Some sz)).
    { rewrite (proj2 (Nat.eqb_neq n 0)) by lia. cbn [orb]. destruct (item_size i) as [sz|] eqn:Es.
      - rewrite bool_decide_false by done. exists sz. auto.
      - rewrite bool_decide_true by done. exists (measured_size w (k + n)). split; [by left|]. rewrite Hk. by destruct y. }
    destruct Hmeas as (sz & Hsz & E). destruct (if false || _ then _ else _) as [y1 osz]. simplify_eq. cbn [unwrap obind].
    eexists. split; [done|]. split; [|split; [cbn; rewrite length_app; cbn; lia|done]].
    assert (Hvn : (v <= n)%nat) by apply Hsh.
    split; cbn [measured_items rendered_height layouts layout_scroll_top layout_state rendered_focused_item].
    + rewrite length_app. cbn. fold n. lia.
    + eapply measured_from_snoc; [done|exact Hi|]. exists sz. auto.
    + rewrite Hren, heights_app. cbn. unfold item_height. cbn. lia.
    + exists v. split; [by apply shown_more|]. split; [done|]. right. rewrite take_app_le by done.
      destruct Hv as [->|Hv]; [|done]. unfold n. rewrite firstn_all. lia.
    + done.
    + intros E'. by apply app_nil in E' as [_ ?].
    + done.
Qed.
Lemma layout_after_ok fuel c y :
  after_inv y -> cursor_at tt (items s) c (k + length (measured_items y)) -> overdraw (layout_state y) = overdraw s ->
  (length L < k + length (measured_items y) + fuel)%nat ->
  exists y', layout_after render_item layout_as_root focused fuel w available_height c (length (measured_items y)) y = Ok y' /\
    after_inv y' /\
    ((k + length (measured_items y'))%nat = length L \/
     available_height + overdraw s <= rendered_height y' - offset_in_item (layout_scroll_top y')).
Proof.
  revert c y. induction fuel as [|fuel IH]; intros c y Hy Hc Hover Hf; [pose proof (ai_bound y Hy); lia|].
  cbn [layout_after]. destruct (iter_next_step (items s) c _ (proj1 (lw_items s Hw)) Hr Hc) as (c' & -> & Hc').
  cbn [obind]. fold L in Hc' |- *. destruct (L !! (k + length (measured_items y))%nat) as [i|] eqn:Ei.
  - rewrite Hover. destruct (Z.geb_spec (rendered_height y - offset_in_item (layout_scroll_top y)) (available_height + overdraw s)).
    { exists y. split; [done|]. split; [done|]. right. lia. }
    destruct (layout_item_ok y i Hy Ei) as (y' & -> & Hy' & Hlen & Hover'). cbn [obind]. rewrite <- Hlen.
    apply IH; [done| |by rewrite Hover'|lia]. rewrite Hlen, Nat.add_succ_r. by apply Hc'.
  - exists y. split; [done|]. split; [done|]. left. apply lookup_ge_None in Ei. pose proof (ai_bound y Hy). lia.
Qed.
End After.

(** ** The second loop *)

Section Before.
Variables (s : @StateInner FocusHandle Handler) (w : option Z) (available_height : Z) (extra : Z).
Hypothesis Hw : list_wf s.
Hypothesis Hr : list_ready s.
Local Abbreviation L := (items_of s).

(** All items from [k] to the end are laid out; [extra] is the padding. *)
Record before_inv (k : nat) (y : Layout) : Prop := {
  bi_end : (k + length (measured_items y))%nat = length L;
  bi_measured : measured_from w L k (measured_items y);
  bi_rendered : rendered_height y = extra + heights (measured_items y);
  bi_shown : shown w k (length (measured_items y)) (measured_items y) (layouts y);
  bi_focused : rendered_focused_item y = existsb (contains_focused focused) (drop k L);
}.

Lemma layout_before_ok fuel c k y :
  before_inv k y -> at_or_before (items s) c k -> (k < fuel)%nat ->
  exists c' y' k', layout_before render_item layout_as_root focused fuel w available_height c y = Ok (c', y') /\
    before_inv k' y' /\ at_or_before (items s) c' k' /\ (k' <= k)%nat /\
    (available_height <= rendered_height y' \/ k' = 0%nat) /\
    layout_state y' = layout_state y /\ layout_scroll_top y' = layout_scroll_top y.
Proof.
  revert c k y. induction fuel as [|fuel IH]; intros c k y Hy Hc Hf; [lia|].
  cbn [layout_before]. destruct (Z.ltb_spec (rendered_height y) available_height) as [Hlt|Hge].
  2: { exists c, y, k. split_and!; try done. by left. }
  destruct (prev_step (items s) c k (proj1 (lw_items s Hw)) Hr Hc) as (c' & -> & Hi & Hc'). cbn [obind]. rewrite Hi. cbn [obind].
  destruct k as [|k].
  { exists c', y, 0%nat. split_and!; try done. by right. }
  fold L. pose proof (bi_end _ _ Hy) as Hend. destruct (lookup_lt_is_Some_2 L k ltac:(lia)) as [i Ei]. rewrite Ei.
  cbn [pred] in Hc'. rewrite (at_or_before_start _ _ _ Hc').
  change (layout_as_root (render_item k) w) with (measured_size w k).
  destruct Hy as [_ Hm Hren Hsh Hfoc].
  set (y1 := mkLayout _ _ _ _ _ _ _). assert (Hy1 : before_inv k y1).
  { split; unfold y1; cbn [measured_items rendered_height layouts rendered_focused_item].
    - cbn. lia.
    - eapply measured_from_cons; [exact Hm|exact Ei|]. exists (measured_size w k). auto.
    - rewrite heights_cons, Hren. unfold item_height. cbn. lia.
    - by apply shown_cons.
    - rewrite Hfoc, (drop_S _ _ _ Ei). cbn. apply orb_comm. }
  destruct (IH c' k y1 Hy1 Hc' ltac:(lia)) as (c2 & y2 & k2 & E & ? & ? & ? & ? & ? & ?).
  exists c2, y2, k2. split; [exact E|]. split_and!; try done. lia.
Qed.

(** ** The third loop *)

Lemma layout_leading_ok fuel c k over leading ms :
  measured_from w L k ms -> at_or_before (items s) c k -> (k + length ms <= length L)%nat -> (k < fuel)%nat ->
  exists c' ms' k', layout_leading render_item layout_as_root fuel w c over leading ms = Ok (c', ms') /\
    at_or_before (items s) c' k' /\ measured_from w L k' ms' /\ (k' <= k)%nat /\
    exists pre, ms' = pre ++ ms /\ (k' + length pre)%nat = k.
Proof.
  revert c k leading ms. induction fuel as [|fuel IH]; intros c k leading ms Hm Hc Hb Hf; [lia|].
  cbn [layout_leading]. destruct (leading <? over).
  2: { exists c, ms, k. split_and!; try done. exists []. split; [done|cbn; lia]. }
  destruct (prev_step (items s) c k (proj1 (lw_items s Hw)) Hr Hc) as (c' & -> & Hi & Hc'). cbn [obind]. rewrite Hi. cbn [obind].
  destruct k as [|k].
  { exists c', ms, 0%nat. split_and!; try done. by exists []. }
  fold L. destruct (lookup_lt_is_Some_2 L k ltac:(lia)) as [i Ei]. rewrite Ei. cbn [pred] in Hc'.
  rewrite (at_or_before_start _ _ _ Hc'). set (sz := match i with Unmeasured _ _ => _ | Measured sz _ => sz end).
  assert (Hm1 : measured_from w L k (Measured sz (focus_handle i) :: ms)).
  { eapply measured_from_cons; [exact Hm|exact Ei|]. exists sz. split; [done|]. unfold sz. by destruct i; [left|right]. }
  destruct (IH c' k (leading + height sz) _ Hm1 Hc' ltac:(cbn; lia) ltac:(lia)) as (c2 & ms2 & k2 & E & Hc2 & Hm2 & Hk2 & pre & -> & Hpre).
  exists c2, (pre ++ Measured sz (focus_handle i) :: ms), k2. split; [exact E|]. split; [done|]. split; [done|]. split; [lia|].
  exists (pre ++ [Measured sz (focus_handle i)]). rewrite <- app_assoc. split; [done|]. rewrite length_app. cbn. lia.
Qed.

(** ** The new items *)

(** [l'] is [l] with some items measured. *)
Definition measured_into l l' : Prop :=
  length l' = length l /\
  forall ix i, l !! ix = Some i -> exists i', l' !! ix = Some i' /\ (i' = i \/ measured_as w ix i i').

Lemma replaced_measured k ms :
  measured_from w L k ms -> (k + length ms <= length L)%nat ->
  measured_into L (take k L ++ ms ++ drop (k + length ms) L).
Proof.
  intros Hm Hb. split; [rewrite !length_app, length_take, length_drop; lia|]. intros ix i Hi.
  destruct (decide (ix < k)%nat) as [Hlt|Hge].
  - exists i. split; [|by left]. rewrite lookup_app_l by (rewrite length_take; lia). by rewrite lookup_take_lt.
  - rewrite lookup_app_r by (rewrite length_take; lia). rewrite length_take, Nat.min_l by lia.
    destruct (decide (ix - k < length ms)%nat) as [Hlt'|Hge'].
    + destruct (lookup_lt_is_Some_2 ms (ix - k) Hlt') as [i' Hi']. exists i'. split; [by apply lookup_app_l_Some|]. right.
      destruct (Hm _ _ Hi') as (i0 & Hi0 & Has). replace (k + (ix - k))%nat with ix in * by lia. by simplify_eq.
    + exists i. split; [|by left]. rewrite lookup_app_r, lookup_drop by lia. rewrite <- Hi. f_equal. lia.
Qed.

Lemma measured_into_handles l l' : measured_into l l' -> map focus_handle l' = map focus_handle l.
Proof.
  intros [Hlen H]. apply list_eq. intros ix. change map with (@fmap list _). rewrite !list_lookup_fmap.
  destruct (l !! ix) as [i|] eqn:Ei.
  - destruct (H ix i Ei) as (i' & -> & [->|(sz & -> & _)]); done.
  - apply lookup_ge_None in Ei. by rewrite lookup_ge_None_2 by lia.
Qed.

Lemma replace_measured_ok k ms :
  measured_from w L k ms -> (k + length ms <= length L)%nat ->
  exists t, replace_measured (items s) k ms = Ok t /\ summarized tt t /\ Forall sized (to_list t) /\
    to_list t = take k L ++ ms ++ drop (k + length ms) L.
Proof.
  intros Hm Hb. unfold replace_measured. pose proof (proj1 (lw_items s Hw)) as Hi.
  destruct (slice_count (D := Count) (items s) (count_cursor (items s)) 0 k Hi Hr)
    as (c1 & t1 & -> & Hc1 & Ht1 & Hl1); [right; done|lia|lia|]. cbn [obind].
  destruct (extend_summarized tt t1 ms Ht1) as (t2 & E2 & Ht2 & Hl2). rewrite E2. cbn [obind].
  destruct (seek_count (D := Count) (items s) c1 (k + length ms) Hi Hr) as (c2 & b & -> & Hc2); [by apply Hc1|]. cbn [obind].
  destruct (replace_range s k (k + length ms) ms c2 t1 Hw Hr Hc2 Ht1 Hl1) as (t2' & c3 & t3 & t' & E2' & -> & Happ & Hs & Hl & Hsz).
  { by apply measured_from_sized with w L k; [apply Hw|]. }
  assert (t2' = t2) as -> by congruence. cbn [obind]. exists t'. done.
Qed.
End Before.

(** ** The focused item *)

(** The first item that contains the focus. *)
Definition first_focused l (r : option nat) : Prop :=
  match r with
  | Some ix => exists i, l !! ix = Some i /\ contains_focused focused i = true /\
                 forall j i', (j < ix)%nat -> l !! j = Some i' -> contains_focused focused i' = false
  | None => forall j i', l !! j = Some i' -> contains_focused focused i' = false
  end.

Lemma focus_filter_sound : filter_sound (T := ListItem FocusHandle) tt has_focus_handles.
Proof.
  intros l Hne Hf. unfold items_summary, SumTree.sum in Hf.
  assert (Hd : forall l' (d : ListItemSummary), has_focus_handles (fold_left (add_summary tt) (map (summary tt) l') d) = false ->
    has_focus_handles d = false /\ Forall (fun i => has_focus_handles (item_summary i) = false) l').
  { induction l' as [|i l' IH]; intros d H; [done|]. cbn [map fold_left] in H. destruct (IH _ H) as [H1 H2].
    cbn in H1. apply orb_false_iff in H1 as [? ?]. split; [done|]. by constructor. }
  destruct (Hd _ _ Hf) as [_ H]. exact H.
Qed.
Lemma first_match_rejected l j i :
  (j < first_match tt has_focus_handles l)%nat -> l !! j = Some i -> contains_focused focused i = false.
Proof.
  revert j. induction l as [|x l IH]; intros [|j] Hj Hi; [done|done| |].
  - cbn in Hi. simplify_eq. cbn in Hj. unfold accepts in Hj. cbn in Hj.
    unfold contains_focused. destruct i as [? [?|]|? [?|]]; cbn in Hj |- *; (done || lia).
  - cbn in Hi, Hj. destruct (accepts tt has_focus_handles x); [lia|]. apply (IH j); [lia|done].
Qed.

Lemma find_focused_ok t fuel c j :
  wf_tree tt t -> (node_height t < STACK_CAPACITY)%nat -> cursor_at tt t c j -> (length (to_list t) < j + fuel)%nat ->
  (forall j' i, (j' < j)%nat -> to_list t !! j' = Some i -> contains_focused focused i = false) ->
  exists r, find_focused focused fuel (mkFilterCursor c has_focus_handles) = Ok r /\ first_focused (to_list t) r.
Proof.
  intros Hw Hh. revert c j. induction fuel as [|fuel IH]; intros c j Hc Hf Hb; [apply (cursor_at_bound tt) in Hc; lia|].
  cbn [find_focused]. unfold filter_item, filter_start. cbn [fc_cursor]. rewrite (cursor_at_item tt _ _ _ Hc). cbn [obind].
  destruct (to_list t !! j) as [i|] eqn:Ei.
  - destruct (contains_focused focused i) eqn:Efoc.
    { exists (Some j). rewrite (count_start _ _ _ Hc). split; [done|]. exists i. split_and!; [done|done|]. eauto. }
    assert (Hlt : (j < length (to_list t))%nat) by by apply lookup_lt_Some in Ei.
    assert (Hn : next_start tt t c (S j)) by (left; exists j; split; [done|lia]).
    unfold filter_next. cbn [fc_filter_node fc_cursor].
    destruct (search_forward_ok tt has_focus_handles t c (S j) Hw Hh focus_filter_sound Hn) as (c' & -> & Hc'). cbn [obind].
    apply (IH c' _ Hc'); [lia|]. intros j' i' Hj' Hi'.
    destruct (decide (j' < j)%nat) as [|Hge]; [eauto|]. destruct (decide (j' = j)) as [->|]; [by simplify_eq|].
    apply (first_match_rejected (drop (S j) (to_list t)) (j' - S j)); [lia|].
    rewrite lookup_drop, <- Hi'. f_equal. lia.
  - exists None. split; [done|]. intros j' i' Hi'. apply (Hb j'); [|done]. apply lookup_lt_Some in Hi'.
    apply lookup_ge_None in Ei. lia.
Qed.

Lemma focused_layout_ok w t :
  wf_tree tt t -> (node_height t < STACK_CAPACITY)%nat ->
  exists q, first_focused (to_list t) q /\
    focused_layout render_item layout_as_root focused w t = Ok (match q with Some ix => [layout_of w ix] | None => [] end).
Proof.
  intros Hw Hh. unfold focused_layout, filter_next, filter_new. cbn [fc_filter_node fc_cursor].
  assert (Hn : next_start tt t (cursor_new tt t : Cursor _ _ Count) 0) by (right; split; [done|by right]).
  destruct (search_forward_ok tt has_focus_handles t _ 0 Hw Hh focus_filter_sound Hn) as (c' & -> & Hc'). cbn [obind].
  rewrite drop_0 in Hc'.
  destruct (find_focused_ok t (length (to_list t) + 1) c' _ Hw Hh Hc') as (q & -> & Hq); [lia| |].
  { intros j i Hj. apply first_match_rejected. lia. }
  exists q. split; [done|]. cbn [obind]. by destruct q.
Qed.

(** ** The frame *)

Lemma settled_wf s o s' o' :
  list_wf s -> settled s o s' o' -> (item_ix o' <= length (items_of s))%nat -> 0 <= offset_in_item o' -> list_wf s'.
Proof.
  intros [H1 H2 H3 H4] (p & q & -> & Hp & Hq) Hix Ho. split; [done|done| |].
  - intros o1. cbn. destruct Hq as [[-> _]| ->]; [apply H3|]. by intros [= <-].
  - intros p1. cbn. destruct Hp as [->| ->]; [apply H4|done].
Qed.

Lemma with_position_wf s q :
  list_wf s -> (forall o, q = Some o -> (item_ix o <= length (items_of s))%nat /\ 0 <= offset_in_item o) ->
  list_wf (with_scroll s q).
Proof. by intros [? ? ? ?] Hq. Qed.

(** The state at the start of a frame: following the tail goes to the end. *)
Definition frame_start s : StateInner := if is_following (follow_state s) then with_scroll s (Some (end_offset s)) else s.

Lemma frame_start_wf s : list_wf s -> list_wf (frame_start s).
Proof.
  intros Hw. unfold frame_start. destruct (is_following _); [|done]. apply with_position_wf; [done|]. intros o [= <-].
  unfold end_offset. cbn. by rewrite item_count_ok.
Qed.

(** What holds when the visible items, [v] of them, have been laid out; [y] is the
    layout with [measured_items] from [item_ix (layout_scroll_top y)] on. *)
Record visible s w (available_height : Z) (padding : Edges) (v : nat) (y : Layout) : Prop := {
  vi_wf : list_wf (layout_state y);
  vi_same : items (layout_state y) = items s /\ follow_state (layout_state y) = follow_state s /\
    last_padding (layout_state y) = last_padding s /\ overdraw (layout_state y) = overdraw s;
  vi_bound : (item_ix (layout_scroll_top y) + length (measured_items y) <= length (items_of s))%nat;
  vi_measured : measured_from w (items_of s) (item_ix (layout_scroll_top y)) (measured_items y);
  vi_shown : shown w (item_ix (layout_scroll_top y)) v (measured_items y) (layouts y);
  vi_focused : rendered_focused_item y =
    existsb (contains_focused focused) (take v (drop (item_ix (layout_scroll_top y)) (items_of s)));
  vi_below : (item_ix (layout_scroll_top y) + v)%nat = length (items_of s) \/
    available_height <= top_edge padding + heights (take v (measured_items y)) - offset_in_item (layout_scroll_top y);
  vi_full : available_height <= top_edge padding + heights (take v (measured_items y)) + bottom_edge padding
                                - offset_in_item (layout_scroll_top y) \/
    item_ix (layout_scroll_top y) = 0%nat /\ v = length (items_of s);
  vi_tail : is_following (follow_state s) = true -> top_edge padding + bottom_edge padding < available_height ->
    (item_ix (layout_scroll_top y) + v)%nat = length (items_of s);
  vi_up : (item_ix (layout_scroll_top y) <= item_ix (logical_scroll_top (frame_start s)))%nat;
  vi_top : alignment s = AlignTop ->
    logical_scroll_top (layout_state y) = layout_scroll_top y /\ 0 <= offset_in_item (layout_scroll_top y);
}.

(** The phase of [layout_items] between the first loop and the third. *)
Definition fill_phase (fuel : nat) w (available_height : Z) (c : Cursor (ListItem FocusHandle) ListItemSummary Count)
    (y : Layout) :=
  if rendered_height y - offset_in_item (layout_scroll_top y) <? available_height then
    let! (c, l) := layout_before render_item layout_as_root focused fuel w available_height c y in
    Ok (c, fill_viewport available_height c l)
  else Ok (c, y).

Lemma settled_same s o s' o' :
  settled s o s' o' -> items s' = items s /\ follow_state s' = follow_state s /\ last_padding s' = last_padding s /\
    overdraw s' = overdraw s /\ alignment s' = alignment s.
Proof. by intros (p & q & -> & _). Qed.

Lemma fill_viewport_ok s w avail padding k y c :
  list_wf s -> 0 <= top_edge padding -> 0 <= bottom_edge padding ->
  list_wf (layout_state y) -> items (layout_state y) = items s -> follow_state (layout_state y) = follow_state s ->
  last_padding (layout_state y) = last_padding s -> overdraw (layout_state y) = overdraw s ->
  alignment (layout_state y) = alignment s ->
  before_inv s w (top_edge padding + bottom_edge padding) k y -> at_or_before (items s) c k ->
  (k <= item_ix (logical_scroll_top (frame_start s)))%nat ->
  avail <= rendered_height y \/ k = 0%nat ->
  visible s w avail padding (length (measured_items y)) (fill_viewport avail c y) /\
  item_ix (layout_scroll_top (fill_viewport avail c y)) = k.
Proof.
  intros Hw Hpt Hpb Hwy Hi Hf Hl Ho Ha [Hend Hm Hren Hsh Hfoc] Hc Hk Hfull. unfold fill_viewport.
  rewrite (at_or_before_start _ _ _ Hc), Ha. cbn [item_ix offset_in_item].
  assert (Hlen : length (items_of (layout_state y)) = length (items_of s)) by (unfold items_of; by rewrite Hi).
  assert (Hcov : forall off, off = rendered_height y - avail \/ off = Z.max (rendered_height y - avail) 0 ->
    avail <= top_edge padding + heights (take (length (measured_items y)) (measured_items y)) + bottom_edge padding - off \/
    k = 0%nat /\ length (measured_items y) = length (items_of s)).
  { intros off Hoff. rewrite firstn_all. destruct Hfull as [Hfull| ->]; [left; lia|right; split; [done|lia]]. }
  destruct (alignment s) eqn:Ea; (split; [|done]);
    (split; cbn [layout_state layout_scroll_top measured_items layouts rendered_focused_item item_ix offset_in_item];
     [apply with_position_wf; [done|by intros ? [= <-]; cbn; rewrite ?Hlen; lia]|done|lia|done|done| |by left| |by intros|done|]).
  all: try (rewrite Hfoc; f_equal; symmetry; apply take_ge; rewrite length_drop; lia).
  - destruct (Hcov _ (or_intror eq_refl)); [left; lia|by right].
  - intros _. split; [done|lia].
  - destruct (Hcov _ (or_introl eq_refl)); [left; lia|by right].
  - congruence.
Qed.

Lemma fill_phase_ok s w avail padding y c :
  let s1 := frame_start s in
  let o := logical_scroll_top s1 in
  list_wf s -> list_ready s -> 0 <= top_edge padding < avail -> 0 <= bottom_edge padding -> 0 <= overdraw s ->
  after_inv s1 w avail (top_edge padding) o y ->
  (item_ix o + length (measured_items y))%nat = length (items_of s) \/
    avail + overdraw s <= rendered_height y - offset_in_item (layout_scroll_top y) ->
  cursor_at tt (items s) c (item_ix o) ->
  let y1 := mkLayout (layout_state y) (measured_items y) (layouts y) (rendered_height y + bottom_edge padding)
              (max_width y) (layout_scroll_top y) (rendered_focused_item y) in
  exists c' y' v, fill_phase (length (items_of s) + 1) w avail c y1 = Ok (c', y') /\ visible s w avail padding v y' /\
    at_or_before (items s) c' (item_ix (layout_scroll_top y')).
Proof.
  intros s1 o Hw Hr Hpt Hpb Hover Hy Hstop Hc y1.
  assert (Hw1 : list_wf s1) by by apply frame_start_wf.
  assert (Hs1 : items s1 = items s /\ follow_state s1 = follow_state s /\ last_padding s1 = last_padding s /\
    overdraw s1 = overdraw s /\ alignment s1 = alignment s) by (unfold s1, frame_start; by destruct (is_following _)).
  destruct Hs1 as (Ei & Ef & El & Eo & Ea). pose proof Hy as [Hb Hm Hren (v & Hsh & Hfoc & Hv) [Hk Hoff] _ Hst].
  pose proof (settled_same _ _ _ _ Hst) as (Ei' & Ef' & El' & Eo' & Ea').
  assert (Hwy : list_wf (layout_state y)).
  { eapply settled_wf; [exact Hw1|exact Hst| |done]. rewrite Hk. unfold o. by apply logical_scroll_top_ok. }
  assert (EL : items_of s1 = items_of s) by (unfold items_of; by rewrite Ei). rewrite EL in *.
  assert (Hnn : 0 <= heights (measured_items y)) by (eapply heights_nonneg, measured_from_sized; [apply Hw|exact Hm]).
  unfold fill_phase. change (rendered_height y1) with (rendered_height y + bottom_edge padding).
  change (layout_scroll_top y1) with (layout_scroll_top y).
  destruct (Z.ltb_spec (rendered_height y + bottom_edge padding - offset_in_item (layout_scroll_top y)) avail) as [Hlt|Hge].
  - assert (Hend : (item_ix o + length (measured_items y))%nat = length (items_of s)) by (destruct Hstop; [done|lia]).
    assert (v = length (measured_items y)) as ->.
    { apply (visible_all s1 w avail (top_edge padding) o Hw1 (proj1 (logical_scroll_top_ok s1 Hw1)) y v Hy Hsh Hv). lia. }
    assert (Hbi : before_inv s w (top_edge padding + bottom_edge padding) (item_ix o) y1).
    { split; unfold y1; cbn [measured_items rendered_height layouts rendered_focused_item]; [done|done|lia|done|]. rewrite Hfoc. f_equal. apply take_ge. rewrite length_drop. lia. }
    destruct (layout_before_ok s w avail _ Hw Hr (length (items_of s) + 1) c (item_ix o) y1 Hbi (or_introl Hc))
      as (c' & y' & k' & -> & Hbi' & Hc' & Hk' & Hfull & Est & Eso); [lia|]. cbn [obind].
    destruct (fill_viewport_ok s w avail padding k' y' c') as [Hvis Hkk]; try done; try lia.
    all: try (rewrite Est; cbn [layout_state y1]; congruence).
    eexists _, _, _. split; [done|]. split; [exact Hvis|]. by rewrite Hkk.
  - exists c, y1, v. split; [done|]. split; [|left; unfold y1; cbn; by rewrite Hk].
    assert (Hvn : (v <= length (measured_items y))%nat) by apply Hsh.
    unfold y1. split; cbn [layout_state layout_scroll_top measured_items layouts rendered_focused_item]; rewrite ?Hk.
    + done.
    + by rewrite Ei', Ef', El', Eo', Ei, Ef, El, Eo.
    + done.
    + done.
    + done.
    + done.
    + destruct Hv as [->|Hv]; [|by right]. destruct Hstop as [Hs|Hs]; [by left|right]. rewrite firstn_all. lia.
    + left. destruct Hv as [->|Hv]; [rewrite firstn_all; lia|lia].
    + intros Hfol Hpads. unfold o, s1, frame_start in *. rewrite Hfol in *. cbn in Hk, Hb, Hoff.
      unfold end_offset in *. cbn in *. rewrite item_count_ok in * by done. lia.
    + done.
    + intros Hat. split; [|done]. destruct Hst as (p & q & Es & _ & Hq). rewrite Es. unfold logical_scroll_top. cbn.
      destruct Hq as [[-> ->]| ->]; [|done]. unfold o, logical_scroll_top. by rewrite Ea.
Qed.
(** The state when following the tail resumes: the end is at most a pixel below. *)
Definition resumed s o (available_height : Z) : bool :=
  has_stopped_following (follow_state s) &&
  (pixel (items_of s) o + available_height >=?
     heights (items_of s) + top_edge (padding_of s) + bottom_edge (padding_of s) - 1).

Lemma resume_following_ok s o avail :
  list_wf s -> list_ready s -> (item_ix o <= length (items_of s))%nat ->
  resume_following s o avail = Ok (if resumed s o avail then with_follow s (StateTail true) else s).
Proof.
  intros Hw Hr Hix. unfold resume_following, resumed. destruct (follow_state s) as [|[]] eqn:Ef; [done|done|].
  cbn [has_stopped_following andb start_following]. rewrite total_height_ok, scroll_top_ok by done. cbn [obind].
  fold (padding_of s). by destruct (_ >=? _).
Qed.

(** The frame [r] of [s] leaves the state [s']; [v] items are visible. *)
Record frame s w (available_height : Z) (padding : Edges) s' (r : LayoutItemsResponse (Element := Element)) (v : nat) : Prop := {
  fr_wf : list_wf s';
  fr_items : measured_into w (items_of s) (items_of s');
  fr_layouts : exists extra,
    item_layouts r = map (layout_of w) (seq (item_ix (response_scroll_top r)) v) ++ extra /\
    if existsb (contains_focused focused) (take v (drop (item_ix (response_scroll_top r)) (items_of s))) then extra = []
    else exists q, first_focused (items_of s') q /\ extra = match q with Some ix => [layout_of w ix] | None => [] end;
  fr_sizes : forall ix, (item_ix (response_scroll_top r) <= ix < item_ix (response_scroll_top r) + v)%nat ->
    exists f, items_of s' !! ix = Some (Measured (measured_size w ix) f);
  fr_bound : (item_ix (response_scroll_top r) + v <= length (items_of s))%nat;
  fr_below : (item_ix (response_scroll_top r) + v)%nat = length (items_of s) \/
    available_height <= top_edge padding + heights (take v (drop (item_ix (response_scroll_top r)) (items_of s')))
                        - offset_in_item (response_scroll_top r);
  fr_full : available_height <= top_edge padding + heights (take v (drop (item_ix (response_scroll_top r)) (items_of s')))
                                + bottom_edge padding - offset_in_item (response_scroll_top r) \/
    item_ix (response_scroll_top r) = 0%nat /\ v = length (items_of s);
  fr_tail : is_following (follow_state s) = true -> top_edge padding + bottom_edge padding < available_height ->
    (item_ix (response_scroll_top r) + v)%nat = length (items_of s);
  fr_up : (item_ix (response_scroll_top r) <= item_ix (logical_scroll_top (frame_start s)))%nat;
  fr_top : alignment s = AlignTop ->
    logical_scroll_top s' = response_scroll_top r /\ 0 <= offset_in_item (response_scroll_top r);
  fr_follow : follow_state s' =
    if resumed (with_items s (items s')) (response_scroll_top r) available_height then StateTail true else follow_state s;
}.

Lemma drop_replaced k' pre ms l k v :
  (k' + length pre)%nat = k -> (k' <= length l)%nat -> (v <= length ms)%nat ->
  take v (drop k (take k' l ++ (pre ++ ms) ++ drop (k' + length (pre ++ ms)) l)) = take v ms.
Proof.
  intros Hk Hl Hv. rewrite drop_app_ge by (rewrite length_take; lia). rewrite length_take, Nat.min_l by done.
  rewrite <- app_assoc, drop_app_ge by lia. replace (k - k' - length pre)%nat with 0%nat by lia. rewrite drop_0.
  by rewrite take_app_le.
Qed.

(** The focused item exists or not, whether or not a cursor can look for it. *)
Lemma first_focused_exists l : exists q, first_focused l q.
Proof.
  destruct (list_find (fun i => contains_focused focused i = true) l) as [[ix i]|] eqn:Ef.
  - exists (Some ix). apply list_find_Some in Ef as (Hx & Hc & Hn). exists i. split_and!; [done|done|].
    intros j i' Hj Hi'. specialize (Hn j i' Hi' Hj). by destruct (contains_focused focused i').
  - exists None. intros j i' Hj. apply list_find_None in Ef.
    pose proof (proj1 (Forall_lookup _ _) Ef _ _ Hj) as H. cbn in H. by destruct (contains_focused focused i').
Qed.

Lemma focused_layout_total w t :
  wf_tree tt t -> exists q, first_focused (to_list t) q /\ ((node_height t < STACK_CAPACITY)%nat ->
    focused_layout render_item layout_as_root focused w t = Ok (match q with Some ix => [layout_of w ix] | None => [] end)).
Proof.
  intros Hw. destruct (decide (node_height t < STACK_CAPACITY)%nat) as [Hr|Hr].
  - destruct (focused_layout_ok w t Hw Hr) as (q & Hq & E). by exists q.
  - destruct (first_focused_exists (to_list t)) as [q Hq]. by exists q.
Qed.

(** The state and the response when the layout [y] is done and its items are in [t]. *)
Definition frame_end (available_height : Z) (y : Layout) (t : tree (ListItem FocusHandle) ListItemSummary) : StateInner :=
  let s := with_items (layout_state y) t in
  if resumed s (layout_scroll_top y) available_height then with_follow s (StateTail true) else s.

Definition frame_response w (y : Layout) (q : option nat) : LayoutItemsResponse :=
  mkLayoutItemsResponse (max_width y) (layout_scroll_top y)
    (layouts y ++ if rendered_focused_item y then [] else match q with Some ix => [layout_of w ix] | None => [] end).

Lemma frame_end_items avail y t : items (frame_end avail y t) = t.
Proof. unfold frame_end. by destruct (resumed _ _ _). Qed.

Lemma frame_end_wf s w avail padding v y t :
  visible s w avail padding v y -> summarized tt t -> Forall sized (to_list t) ->
  length (to_list t) = length (items_of s) ->
  list_wf (with_items (layout_state y) t) /\ list_wf (frame_end avail y t).
Proof.
  intros Hvis Ht Hsz Hlen. assert (H : list_wf (with_items (layout_state y) t)).
  { apply with_items_wf; [apply Hvis|done|done|]. unfold items_of. by rewrite (proj1 (vi_same _ _ _ _ _ _ Hvis)). }
  split; [done|]. unfold frame_end. destruct (resumed _ _ _); [by apply with_follow_wf|done].
Qed.

Lemma frame_end_ok s w avail padding v y k' pre ms t q :
  list_wf s -> visible s w avail padding v y ->
  measured_from w (items_of s) k' ms -> (k' + length ms <= length (items_of s))%nat ->
  ms = pre ++ measured_items y -> (k' + length pre)%nat = item_ix (layout_scroll_top y) ->
  summarized tt t -> Forall sized (to_list t) ->
  to_list t = take k' (items_of s) ++ ms ++ drop (k' + length ms) (items_of s) -> first_focused (to_list t) q ->
  frame s w avail padding (frame_end avail y t) (frame_response w y q) v.
Proof.
  intros Hw Hvis Hm Hb Hms Hpre Ht Hsz Hlt Hq.
  pose proof (replaced_measured s w k' ms Hm Hb) as Hinto. rewrite <- Hlt in Hinto.
  destruct (frame_end_wf s w avail padding v y t Hvis Ht Hsz (proj1 Hinto)) as [Hw2 Hw'].
  pose proof Hvis as [Hwy (Ei & Ef & El & Eo) Hby Hmy Hsh Hfoc Hbel Hfull Htail Hup Htop].
  assert (Hvn : (v <= length (measured_items y))%nat) by apply Hsh.
  assert (HL : items_of (frame_end avail y t) = to_list t) by (unfold items_of; by rewrite frame_end_items).
  assert (Htake : take v (drop (item_ix (layout_scroll_top y)) (to_list t)) = take v (measured_items y)).
  { rewrite Hlt, Hms. apply drop_replaced; [done|lia|done]. }
  split; unfold frame_response; cbn [response_scroll_top item_layouts]; rewrite ?HL, ?Htake; try done.
  - eexists. destruct Hsh as (-> & _ & _). split; [done|]. rewrite Hfoc. destruct (existsb _ _); [done|]. by exists q.
  - intros ix Hx. destruct Hsh as (_ & _ & Hs).
    destruct (Hs (ix - item_ix (layout_scroll_top y))%nat ltac:(lia)) as [f Hf]. exists f.
    replace (item_ix (layout_scroll_top y) + (ix - item_ix (layout_scroll_top y)))%nat with ix in Hf by lia.
    rewrite <- (lookup_take_lt _ v), <- Htake, lookup_take_lt, lookup_drop in Hf by lia. rewrite <- Hf. f_equal. lia.
  - lia.
  - intros Ha. destruct (Htop Ha) as [Hlog Hpos]. split; [|done]. rewrite <- Hlog. unfold logical_scroll_top.
    assert (scroll_position (frame_end avail y t) = scroll_position (layout_state y) /\
            alignment (frame_end avail y t) = alignment (layout_state y)) as [-> ->]
      by (unfold frame_end; by destruct (resumed _ _ _)).
    destruct (scroll_position (layout_state y)); [done|]. destruct (alignment (layout_state y)); [done|].
    rewrite !item_count_ok, HL by done. unfold items_of. rewrite Ei. f_equal. apply Hinto.
  - assert (resumed (with_items s (items (frame_end avail y t))) (layout_scroll_top y) avail =
            resumed (with_items (layout_state y) t) (layout_scroll_top y) avail) as ->.
    { rewrite frame_end_items. unfold resumed, padding_of, items_of. cbn [items with_items follow_state last_padding].
      by rewrite Ef, El. }
    unfold frame_end. destruct (resumed _ _ avail); [done|]. by rewrite <- Ef.
Qed.

(** The first loop from the start of a frame. *)
Lemma frame_after_ok s w avail padding :
  let s1 := frame_start s in
  let o := logical_scroll_top s1 in
  list_wf s -> list_ready s -> 0 <= top_edge padding < avail ->
  exists c y, seek tt (count_cursor (items s)) (mkCount (item_ix o)) Right = Ok c /\
    cursor_at tt (items s) c.1 (item_ix o) /\
    layout_after render_item layout_as_root focused (length (items_of s) + 1) w avail c.1 0
      (mkLayout s1 [] [] (top_edge padding) 0 o false) = Ok y /\
    after_inv s1 w avail (top_edge padding) o y /\
    ((item_ix o + length (measured_items y))%nat = length (items_of s) \/
     avail + overdraw s <= rendered_height y - offset_in_item (layout_scroll_top y)).
Proof.
  intros s1 o Hw Hr Hpt. assert (Hw1 : list_wf s1) by by apply frame_start_wf.
  assert (Ei : items s1 = items s) by (unfold s1, frame_start; by destruct (is_following _)).
  assert (EL : items_of s1 = items_of s) by (unfold items_of; by rewrite Ei).
  assert (Eov : overdraw s1 = overdraw s) by (unfold s1, frame_start; by destruct (is_following _)).
  destruct (logical_scroll_top_ok s1 Hw1) as [Hix Hoff]. fold o in Hix, Hoff.
  assert (Hr1 : list_ready s1) by (unfold list_ready; by rewrite Ei).
  destruct (seek_count (D := Count) (items s) (count_cursor (items s)) (item_ix o) (proj1 (lw_items s Hw)) Hr eq_refl)
    as (c & b & Ec & Hc). fold (items_of s) in Hc. rewrite <- EL, Nat.min_l in Hc by done.
  set (y0 := mkLayout s1 [] [] (top_edge padding) 0 o false : Layout).
  assert (Hy0 : after_inv s1 w avail (top_edge padding) o y0).
  { split; unfold y0; cbn [measured_items rendered_height layouts rendered_focused_item layout_scroll_top layout_state length].
    - lia.
    - apply measured_from_nil.
    - change (heights []) with 0. lia.
    - exists 0%nat. split; [split_and!; [done|cbn; lia|intros; lia]|]. split; [done|by left].
    - done.
    - done.
    - exists (pending_scroll s1), (scroll_position s1). split; [by destruct s1|]. auto. }
  destruct (layout_after_ok s1 w avail (top_edge padding) o Hw1 Hr1 (proj2 Hpt) Hoff Hix (length (items_of s) + 1) c y0 Hy0)
    as (y & Ey & Hy & Hstop); [by rewrite Ei, Nat.add_0_r|done|rewrite EL; cbn; lia|]. rewrite EL, Eov in Hstop.
  exists (c, b), y. cbn [fst]. rewrite EL in *. by split_and!.
Qed.

(** The list that a frame leaves can be traversed: its tree is not too deep.  The depth
    depends on how the items are shared among the nodes. *)
Definition frame_ready s w (available_height : Z) (padding : Edges) : Prop :=
  forall s' y, layout_measured render_item layout_as_root focused s w available_height padding = Ok (s', y) -> list_ready s'.

Lemma layout_items_ok s w avail padding :
  list_wf s -> list_ready s -> frame_ready s w avail padding ->
  0 <= top_edge padding < avail -> 0 <= bottom_edge padding -> 0 <= overdraw s ->
  exists s' r v, layout_items render_item layout_as_root focused s w avail padding = Ok (s', r) /\
    frame s w avail padding s' r v /\ list_ready s' /\ overdraw s' = overdraw s.
Proof.
  intros Hw Hr Hr' Hpt Hpb Hover.
  destruct (frame_after_ok s w avail padding Hw Hr Hpt) as (c & y & Es & Hc & Ey & Hy & Hstop).
  destruct (fill_phase_ok s w avail padding y c.1 Hw Hr Hpt Hpb Hover Hy Hstop Hc) as (c3 & y3 & v & E3 & Hvis & Hc3).
  destruct (layout_leading_ok s w Hw Hr (length (items_of s) + 1) c3 _ (overdraw (layout_state y3))
    (offset_in_item (layout_scroll_top y3)) (measured_items y3) (vi_measured _ _ _ _ _ _ Hvis) Hc3 (vi_bound _ _ _ _ _ _ Hvis))
    as (c4 & ms & k' & E4 & Hc4 & Hm4 & Hk' & pre & Hms & Hpre); [pose proof (vi_bound _ _ _ _ _ _ Hvis); lia|].
  assert (Hb4 : (k' + length ms <= length (items_of s))%nat).
  { pose proof (vi_bound _ _ _ _ _ _ Hvis). rewrite Hms, length_app. lia. }
  destruct (replace_measured_ok s w Hw Hr k' ms Hm4 Hb4) as (t & E5 & Ht & Hsz & Hlt).
  destruct (focused_layout_total w t (proj1 Ht)) as (q & Hq & Eq).
  assert (Hlen : length (to_list t) = length (items_of s)).
  { rewrite Hlt. apply (replaced_measured s w k' ms Hm4 Hb4). }
  destruct (frame_end_wf s w avail padding v y3 t Hvis Ht Hsz Hlen) as [Hw2 _].
  exists (frame_end avail y3 t), (frame_response w y3 q), v.
  assert (Hov : overdraw (frame_end avail y3 t) = overdraw s).
  { rewrite <- (proj2 (proj2 (proj2 (vi_same _ _ _ _ _ _ Hvis)))). unfold frame_end. by destruct (resumed _ _ _). }
  enough (layout_items render_item layout_as_root focused s w avail padding = Ok (frame_end avail y3 t, frame_response w y3 q) /\
    list_ready (frame_end avail y3 t)) as [E Hre] by (split; [exact E|split; [by eapply frame_end_ok|split; [exact Hre|exact Hov]]]).
  assert (Em : layout_measured render_item layout_as_root focused s w avail padding = Ok (with_items (layout_state y3) t, y3)).
  { unfold layout_measured.
    assert ((if is_following (follow_state s) then (with_scroll s (Some (end_offset s)), end_offset s) else (s, logical_scroll_top s))
      = (frame_start s, logical_scroll_top (frame_start s))) as -> by (unfold frame_start; by destruct (is_following _)).
    rewrite Es. destruct c as [c b]. cbn [fst] in *. cbn [obind]. fold (items_of s). rewrite Ey. cbn [obind layout_scroll_top].
    rewrite (proj1 (ai_scroll _ _ _ _ _ _ Hy)), Es. cbn [obind].
    match type of E3 with fill_phase _ _ _ _ ?y1 = _ => set (y1' := y1) in * end.
    unfold fill_phase in E3. change (rendered_height y1') with (rendered_height y + bottom_edge padding) in *.
    change (layout_scroll_top y1') with (layout_scroll_top y) in *.
    rewrite E3. cbn [obind]. rewrite E4. cbn [obind]. rewrite (at_or_before_start _ _ _ Hc4), E5. cbn [obind]. reflexivity. }
  specialize (Hr' _ _ Em). unfold layout_items. rewrite Em. cbn [obind]. rewrite resume_following_ok; [|done|done|].
  2: { unfold items_of. cbn [items with_items]. rewrite Hlen. pose proof (vi_bound _ _ _ _ _ _ Hvis). lia. }
  fold (frame_end avail y3 t). cbn [obind]. unfold list_ready. rewrite frame_end_items. split; [|exact Hr']. unfold frame_response.
  destruct (rendered_focused_item y3); [done|]. by rewrite (Eq Hr').
Qed.

(** The layout of a frame never panics, its loops end, and it only adds sizes to
    the list: as many items with the same focus handles, each as it was or measured, in
    this frame or with the size it had.  What is laid out is a run of consecutive items
    from the scroll top on, with the sizes measured in this frame, which are also those
    recorded in the list.  The run reaches the end of the list or fills the viewport
    below the scroll top, and, with the padding, it fills the viewport unless the whole
    list is laid out. *)
Theorem list_layout_correct s w avail padding
    (Hw : list_wf s) (Hr : list_ready s) (Hd : frame_ready s w avail padding) (Hpt : 0 <= top_edge padding < avail) (Hpb : 0 <= bottom_edge padding)
    (Hover : 0 <= overdraw s) :
  exists s' r v, layout_items render_item layout_as_root focused s w avail padding = Ok (s', r) /\
    list_wf s' /\ measured_into w (items_of s) (items_of s') /\
    map focus_handle (items_of s') = map focus_handle (items_of s) /\
    let first := item_ix (response_scroll_top r) in
    let y := offset_in_item (response_scroll_top r) in
    let shown_height := heights (take v (drop first (items_of s'))) in
    take v (item_layouts r) = map (layout_of w) (seq first v) /\ (first + v <= length (items_of s))%nat /\
    (forall ix, (first <= ix < first + v)%nat -> exists f, items_of s' !! ix = Some (Measured (measured_size w ix) f)) /\
    ((first + v)%nat = length (items_of s) \/ avail <= top_edge padding + shown_height - y) /\
    (avail <= top_edge padding + shown_height + bottom_edge padding - y \/ first = 0%nat /\ v = length (items_of s)).
Proof.
  destruct (layout_items_ok s w avail padding Hw Hr Hd Hpt Hpb Hover) as (s' & r & v & E & Hf & _). exists s', r, v.
  destruct Hf as [? Hin (extra & Hl & _) ? ? ? ? ? ? ? ?]. split; [done|]. split; [done|]. split; [done|].
  split; [by apply (measured_into_handles w)|]. cbv zeta. split; [|by split_and!].
  rewrite Hl. rewrite take_app_le by by rewrite length_map, length_seq. by rewrite take_ge by by rewrite length_map, length_seq.
Qed.

(** Where a frame leaves the scroll position: it never moves down, except that a
    list that follows its tail is laid out up to its last item; in a list aligned at the
    top the position recorded is the one laid out, and its offset is not negative.  A list
    that stopped following the tail follows it again exactly when the end of the measured
    content is at most one pixel below the viewport. *)
Theorem list_layout_scroll s w avail padding
    (Hw : list_wf s) (Hr : list_ready s) (Hd : frame_ready s w avail padding) (Hpt : 0 <= top_edge padding) (Hpb : 0 <= bottom_edge padding)
    (Hfit : top_edge padding + bottom_edge padding < avail) (Hover : 0 <= overdraw s) :
  exists s' r v, layout_items render_item layout_as_root focused s w avail padding = Ok (s', r) /\
    take v (item_layouts r) = map (layout_of w) (seq (item_ix (response_scroll_top r)) v) /\
    (if is_following (follow_state s) then (item_ix (response_scroll_top r) + v)%nat = length (items_of s)
     else (item_ix (response_scroll_top r) <= item_ix (logical_scroll_top s))%nat) /\
    (alignment s = AlignTop -> logical_scroll_top s' = response_scroll_top r /\ 0 <= offset_in_item (response_scroll_top r)) /\
    follow_state s' =
      (if has_stopped_following (follow_state s) &&
          (pixel (items_of s') (response_scroll_top r) + avail >=?
             heights (items_of s') + top_edge (padding_of s) + bottom_edge (padding_of s) - 1)
       then StateTail true else follow_state s).
Proof.
  destruct (layout_items_ok s w avail padding Hw Hr Hd ltac:(lia) Hpb Hover) as (s' & r & v & E & Hf & _). exists s', r, v.
  destruct Hf as [? ? (extra & Hl & _) ? ? ? ? Htail Hup ? Hfol]. split; [done|]. split; [|split; [|split; [done|exact Hfol]]].
  - rewrite Hl. rewrite take_app_le by by rewrite length_map, length_seq. by rewrite take_ge by by rewrite length_map, length_seq.
  - unfold frame_start in Hup. destruct (is_following (follow_state s)); [by apply Htail|done].
Qed.

(** The element with the focus is always laid out: when no visible item contains
    the focus, the layout ends with the first item of the list that does, if there is one,
    and with nothing else; when a visible item does, only the visible items are laid
    out. *)
Theorem list_layout_focus s w avail padding
    (Hw : list_wf s) (Hr : list_ready s) (Hd : frame_ready s w avail padding) (Hpt : 0 <= top_edge padding < avail) (Hpb : 0 <= bottom_edge padding)
    (Hover : 0 <= overdraw s) :
  exists s' r v, layout_items render_item layout_as_root focused s w avail padding = Ok (s', r) /\
    let visible_layouts := map (layout_of w) (seq (item_ix (response_scroll_top r)) v) in
    if existsb (contains_focused focused) (take v (drop (item_ix (response_scroll_top r)) (items_of s)))
    then item_layouts r = visible_layouts
    else (exists ix, first_focused (items_of s) (Some ix) /\ item_layouts r = visible_layouts ++ [layout_of w ix]) \/
         (first_focused (items_of s) None /\ item_layouts r = visible_layouts).
Proof.
  destruct (layout_items_ok s w avail padding Hw Hr Hd Hpt Hpb Hover) as (s' & r & v & E & Hf & _). exists s', r, v. split; [done|].
  destruct Hf as [_ Hin (extra & Hl & Hex) _ _ _ _ _ _ _ _]. rewrite Hl. cbv zeta.
  destruct (existsb _ _); [by rewrite Hex, app_nil_r|]. destruct Hex as (q & Hq & ->).
  assert (Hsame : forall j i', items_of s' !! j = Some i' -> exists i, items_of s !! j = Some i /\ focus_handle i = focus_handle i').
  { intros j i' Hj. apply lookup_lt_Some in Hj as Hlt. rewrite (proj1 Hin) in Hlt.
    destruct (lookup_lt_is_Some_2 _ _ Hlt) as [i Hi]. exists i. split; [done|].
    destruct (proj2 Hin j i Hi) as (i0 & Hi0 & Hcase). rewrite Hj in Hi0. simplify_eq.
    destruct Hcase as [->|(sz & -> & _)]; done. }
  assert (Hq' : first_focused (items_of s) q).
  { destruct q as [ix|]; cbn in Hq |- *.
    - destruct Hq as (i' & Hi' & Hc & Hn). destruct (Hsame ix i' Hi') as (i & Hi & Ef). exists i.
      split; [done|]. split; [unfold contains_focused in *; by rewrite Ef|]. intros j i0 Hj Hi0.
      destruct (proj2 Hin j i0 Hi0) as (i1 & Hi1 & Hcase). specialize (Hn j i1 Hj Hi1).
      destruct Hcase as [->|(sz & -> & _)]; [done|]. exact Hn.
    - intros j i Hi. destruct (proj2 Hin j i Hi) as (i1 & Hi1 & Hcase). specialize (Hq j i1 Hi1).
      destruct Hcase as [->|(sz & -> & _)]; [done|]. exact Hq. }
  destruct q as [ix|]; [left; by exists ix|right; by rewrite app_nil_r].
Qed.
End Layout.

(** ** Instances *)

Module TestLayout.
Import TestList TestScroll.

(** Every item is twenty pixels high, and renders as its index. *)
Definition render (ix : nat) : nat := ix.
Definition layout_element (e : nat) (w : option Z) : Size := mkSize 100 20.
Definition no_focus (f : nat) : bool := false.
Definition padding : Edges := mkEdges 2 0 3 0.

Lemma element_heights e w : 0 <= height (layout_element e w).
Proof. cbn. lia. Qed.

Lemma scrolled_frame_ready : frame_ready render layout_element no_focus scrolled (Some 100) 55 padding.
Proof. intros s' y E. vm_compute in E. injection E as <- <-. unfold list_ready, STACK_CAPACITY. cbn. lia. Qed.

Lemma list_layout_correct_witness :
  exists s' r v, layout_items render layout_element no_focus scrolled (Some 100) 55 padding = Ok (s', r) /\ list_wf s' /\
    map focus_handle (items_of s') = repeat None 20 /\
    take v (item_layouts r) = map (layout_of render layout_element (Some 100)) (seq (item_ix (response_scroll_top r)) v).
Proof.
  destruct scrolled_ok as (Hw & Hr & Hl).
  destruct (list_layout_correct render layout_element no_focus element_heights scrolled (Some 100) 55 padding Hw Hr
    scrolled_frame_ready) as (s' & r & v & E & Hw' & _ & Hf & H); [cbn; lia|cbn; lia|vm_compute; discriminate|].
  exists s', r, v. split; [exact E|]. split; [exact Hw'|]. split; [rewrite Hf, Hl; reflexivity|exact (proj1 H)].
Defined.

Lemma list_layout_scroll_witness :
  exists s' r, layout_items render layout_element no_focus scrolled (Some 100) 55 padding = Ok (s', r) /\
    logical_scroll_top s' = response_scroll_top r /\ (item_ix (response_scroll_top r) <= 6)%nat.
Proof.
  destruct scrolled_ok as (Hw & Hr & Hl).
  destruct (list_layout_scroll render layout_element no_focus element_heights scrolled (Some 100) 55 padding Hw Hr
    scrolled_frame_ready) as (s' & r & v & E & _ & Hup & Ht & _); [cbn; lia|cbn; lia|cbn; lia|vm_compute; discriminate|].
  exists s', r. split; [exact E|]. split; [exact (proj1 (Ht eq_refl))|exact Hup].
Defined.

Lemma list_layout_focus_witness :
  exists s' r v, layout_items render layout_element no_focus scrolled (Some 100) 55 padding = Ok (s', r) /\
    item_layouts r = map (layout_of render layout_element (Some 100)) (seq (item_ix (response_scroll_top r)) v).
Proof.
  destruct scrolled_ok as (Hw & Hr & Hl).
  destruct (list_layout_focus render layout_element no_focus element_heights scrolled (Some 100) 55 padding Hw Hr
    scrolled_frame_ready) as (s' & r & v & E & H); [cbn; lia|cbn; lia|vm_compute; discriminate|].
  exists s', r, v. split; [exact E|]. cbv zeta in H. destruct (existsb _ _) in H; [exact H|].
  destruct H as [(ix & (i & Hi & Hc & _) & _)|[_ H]]; [exfalso|exact H].
  rewrite Hl in Hi. apply list_elem_of_lookup_2, list_elem_of_In, repeat_spec in Hi. subst i. discriminate Hc.
Defined.
End TestLayout.
