(* ===== verification/ListPrepaint.v ===== *)
(** * The prepainting of a list

    Prepainting a list lays it out, gives the visible elements their places, and when
    one of them asks to be scrolled into view lays the list out a second time at a
    position that shows it.  The theorems show that the position does show it, and that
    the whole handler returns, keeps the items, and forgets their sizes when the width of
    the list changes. *)

From stdpp Require Import base list option numbers.
From S2P Require Import Prelude Geometry SumTree Cursor CursorSeek CursorMove ListState ListItems ListScroll ListLayout.

Local Open Scope Z_scope.

Section Prepaint.
Context {FocusHandle Handler Element : Type}.
Variable render_item : nat -> Element.
Variable layout_as_root : Element -> option Z -> Size.
Variable focused : FocusHandle -> bool.
Implicit Types (s : @StateInner FocusHandle Handler) (l : list (ListItem FocusHandle)) (o : ListOffset).

Local Abbreviation measured_size := (measure render_item layout_as_root).

(** ** Showing the element that asks for it *)

(** The height of an item as [prepaint_items] takes it: known, or measured for it. *)
Definition height_at w l (ix : nat) : Z :=
  match l !! ix with
  | Some i => height (match item_size i with Some sz => sz | None => measured_size (Some w) ix end)
  | None => 0
  end.

(** The height of the items from [k'] up to [k]. *)
Definition gap w l (k' k : nat) : Z := foldr (fun ix h => height_at w l ix + h) 0 (seq k' (k - k')).

Lemma gap_snoc w l k' k : (k' <= k)%nat -> gap w l k' (S k) = gap w l k' k + height_at w l k.
Proof.
  intros H. unfold gap. rewrite Nat.sub_succ_l, seq_S, foldr_app by done. replace (k' + (k - k'))%nat with k by lia. cbn.
  rewrite Z.add_0_r. generalize (seq k' (k - k')). intros ks. induction ks as [|x ks IH]; cbn; [lia|]. rewrite IH. lia.
Qed.

Lemma scroll_up_to_fit_ok s fuel w c k h :
  list_wf s -> list_ready s -> at_or_before (items s) c k -> (k <= length (items_of s))%nat -> (k < fuel)%nat ->
  exists c' h' k', scroll_up_to_fit render_item layout_as_root fuel w c h = Ok (c', h') /\ at_or_before (items s) c' k' /\
    (k' <= k)%nat /\ h' = h - gap w (items_of s) k' k /\ (h' <= 0 \/ k' = 0%nat).
Proof.
  intros Hw Hr. revert c k h. induction fuel as [|fuel IH]; intros c k h Hc Hk Hf; [lia|].
  cbn [scroll_up_to_fit]. destruct (Z.gtb_spec h 0) as [Hh|Hh].
  2: { exists c, h, k. split_and!; try done; [|by left]. unfold gap. rewrite Nat.sub_diag. cbn. lia. }
  destruct (prev_step (items s) c k (proj1 (lw_items s Hw)) Hr Hc) as (c' & -> & Hi & Hc'). cbn [obind]. rewrite Hi. cbn [obind].
  destruct k as [|k].
  { exists c', h, 0%nat. split_and!; try done; [|by right]. unfold gap. cbn. lia. }
  fold (items_of s). destruct (lookup_lt_is_Some_2 (items_of s) k ltac:(lia)) as [i Ei]. rewrite Ei.
  cbn [pred] in Hc'. rewrite (at_or_before_start _ _ _ Hc').
  destruct (IH c' k (h - height_at w (items_of s) k) Hc' ltac:(lia) ltac:(lia)) as (c2 & h2 & k2 & E & Hc2 & Hk2 & Hh2 & Hend).
  exists c2, h2, k2. split; [unfold height_at in E; rewrite Ei in E; exact E|]. split; [done|]. split; [lia|].
  split; [|done]. rewrite Hh2, gap_snoc by done. lia.
Qed.

Variable prepaint_at : Element -> Point -> option Bounds.

(** The first element that asks for bounds that are not within the viewport, the point
    where it is prepainted, and the bounds. *)
Fixpoint first_request (bounds : Bounds) (ls : list ItemLayout) (p : Point) : option (ItemLayout * Point * Bounds) :=
  match ls with
  | [] => None
  | it :: ls =>
      let rest := first_request bounds ls (mkPoint (px p) (py p + height (layout_size it))) in
      match prepaint_at (element it) p with
      | Some b => if (top b <? top bounds) || (bottom b >? bottom bounds) then Some (it, p, b) else rest
      | None => rest
      end
  end.

(** The position that brings the bounds [b] of an element at [p] into the viewport. *)
Definition brings_into_view s (bounds : Bounds) (padding : Edges) (it : @ItemLayout Element) (p : Point) (b : Bounds) o : Prop :=
  if top b <? top bounds then o = mkListOffset (layout_index it) (top b - py p)
  else
    let room := height (size bounds) - top_edge padding - bottom_edge padding in
    let above := gap (width (size bounds)) (items_of s) (item_ix o) (layout_index it) in
    (item_ix o <= layout_index it)%nat /\ 0 <= offset_in_item o /\
    (above - offset_in_item o + (bottom b - py p) = room \/
     o = mkListOffset 0 0 /\ above + (bottom b - py p) <= room).

Lemma prepaint_layouts_ok s bounds padding (autoscroll : bool) ls p :
  list_wf s -> list_ready s -> Forall (fun it => (layout_index it <= length (items_of s))%nat) ls ->
  exists r, prepaint_layouts render_item layout_as_root prepaint_at s bounds padding autoscroll ls p = Ok r /\
    match (if autoscroll then first_request bounds ls p else None) with
    | None => r = None
    | Some (it, q, b) => it ∈ ls /\ exists o, r = Some o /\ brings_into_view s bounds padding it q b o
    end.
Proof.
  intros Hw Hr Hls. revert p. induction Hls as [|it ls Hit Hls IH]; intros p; [exists None; by destruct autoscroll|].
  cbn [prepaint_layouts first_request].
  set (p' := mkPoint (px p) (py p + height (layout_size it))).
  assert (Hrest : exists r, prepaint_layouts render_item layout_as_root prepaint_at s bounds padding autoscroll ls p' = Ok r /\
    match (if autoscroll then first_request bounds ls p' else None) with
    | None => r = None
    | Some (it', q, b) => it' ∈ it :: ls /\ exists o, r = Some o /\ brings_into_view s bounds padding it' q b o
    end).
  { destruct (IH p') as (r & E & H). exists r. split; [done|]. destruct (if autoscroll then _ else _) as [[[it' q] b]|]; [|done].
    destruct H as [Hin H]. split; [by apply elem_of_cons; right|done]. }
  destruct (prepaint_at (element it) p) as [b|] eqn:Eb; [|exact Hrest]. destruct autoscroll; [|exact Hrest].
  destruct (Z.ltb_spec (top b) (top bounds)) as [Ht|Ht]; cbn [orb].
  - eexists. split; [done|]. split; [by apply elem_of_cons; left|]. eexists. split; [done|]. unfold brings_into_view.
    by rewrite (proj2 (Z.ltb_lt _ _) Ht).
  - destruct (Z.gtb_spec (bottom b) (bottom bounds)) as [Hb|Hb]; [|exact Hrest].
    destruct (seek_count (D := Count) (items s) (count_cursor (items s)) (layout_index it) (proj1 (lw_items s Hw)) Hr eq_refl)
      as (c & f & -> & Hc). cbn [obind]. fold (items_of s) in Hc |- *. rewrite Nat.min_l in Hc by done.
    destruct (scroll_up_to_fit_ok s (length (items_of s) + 1) (width (size bounds)) c (layout_index it)
      (height (size bounds) - top_edge padding - bottom_edge padding - (bottom b - py p)) Hw Hr (or_introl Hc) Hit)
      as (c' & h' & k' & -> & Hc' & Hk' & Hh' & Hend); [lia|]. cbn [obind].
    eexists. split; [done|]. split; [by apply elem_of_cons; left|]. eexists. split; [done|]. unfold brings_into_view.
    rewrite (proj2 (Z.ltb_ge _ _) Ht), (at_or_before_start _ _ _ Hc'). cbn [item_ix offset_in_item].
    split; [done|]. split; [destruct (Z.ltb_spec h' 0); lia|].
    destruct (Z.ltb_spec h' 0) as [Hneg|Hpos]; [left; lia|]. destruct (decide (h' = 0)) as [Hz|Hz]; [left; lia|right].
    destruct Hend as [?| ->]; [lia|]. split; [done|lia].
Qed.

(** Prepainting the visible elements finds the first that asks to be scrolled into
    view and is not, and answers with a position that shows it: when its top is above
    the viewport, that top at the top of the viewport; when its bottom is below, that
    bottom at the bottom of the padded viewport, or the start of the list if all that
    is above fits.  Without autoscroll no request is answered. *)
Theorem list_autoscroll_correct s bounds padding ls p (Hw : list_wf s) (Hr : list_ready s)
    (Hls : Forall (fun it => (layout_index it <= length (items_of s))%nat) ls) :
  (exists r, prepaint_layouts render_item layout_as_root prepaint_at s bounds padding true ls p = Ok r /\
     match first_request bounds ls p with
     | None => r = None
     | Some (it, q, b) => it ∈ ls /\ exists o, r = Some o /\ brings_into_view s bounds padding it q b o
     end) /\
  prepaint_layouts render_item layout_as_root prepaint_at s bounds padding false ls p = Ok None.
Proof.
  split; [exact (prepaint_layouts_ok s bounds padding true ls p Hw Hr Hls)|].
  by destruct (prepaint_layouts_ok s bounds padding false ls p Hw Hr Hls) as (r & -> & ->).
Qed.

(** ** The whole handler *)

Variable heights_measured : forall e w, 0 <= height (layout_as_root e w).
Variable asks_below : forall e p b, prepaint_at e p = Some b -> py p <= top b.

Local Abbreviation measured_into := (@measured_into FocusHandle Element render_item layout_as_root).
Local Abbreviation frame_ready := (@frame_ready FocusHandle Handler Element render_item layout_as_root focused).
Local Abbreviation layout_of := (@layout_of Element render_item layout_as_root).

Lemma measured_into_refl w l : measured_into w l l.
Proof. split; [done|]. intros ix i Hi. exists i. auto. Qed.

Lemma measured_into_trans w l1 l2 l3 : measured_into w l1 l2 -> measured_into w l2 l3 -> measured_into w l1 l3.
Proof.
  intros [H1 H2] [H3 H4]. split; [congruence|]. intros ix i Hi. destruct (H2 ix i Hi) as (i2 & Hi2 & Hc).
  destruct (H4 ix i2 Hi2) as (i3 & Hi3 & Hc'). exists i3. split; [done|]. destruct Hc as [->|(sz & -> & Hsz)]; [done|].
  right. destruct Hc' as [->|(sz' & -> & Hsz')]; [by exists sz|]. exists sz'. split; [done|].
  destruct Hsz' as [->|Hsz']; [by left|]. cbn in Hsz'. by simplify_eq.
Qed.

Lemma measure_items_lookup w k l ix :
  measure_items render_item layout_as_root w k l !! ix =
  (fun i => Measured (match item_size i with Some sz => sz | None => measured_size (Some w) (k + ix) end) (focus_handle i)) <$> l !! ix.
Proof.
  revert k ix. induction l as [|i l IH]; intros k [|ix]; [done|done|by rewrite Nat.add_0_r|]. cbn.
  by rewrite IH, Nat.add_succ_r.
Qed.

Lemma measure_items_into w l : measured_into (Some w) l (measure_items render_item layout_as_root w 0 l).
Proof.
  split.
  - generalize 0%nat. induction l as [|i l IH]; intros k; cbn; [done|]. by rewrite IH.
  - intros ix i Hi. rewrite measure_items_lookup, Hi. eexists. split; [done|]. right. eexists. split; [done|].
    destruct (item_size i); auto.
Qed.

Lemma measured_into_sized w l l' : Forall sized l -> measured_into w l l' -> Forall sized l'.
Proof.
  intros Hl [Hlen H]. apply Forall_lookup. intros ix i' Hi'. apply lookup_lt_Some in Hi' as Hlt. rewrite Hlen in Hlt.
  destruct (lookup_lt_is_Some_2 l ix Hlt) as [i Hi]. pose proof (proj1 (Forall_lookup _ _) Hl _ _ Hi) as Hs.
  destruct (H ix i Hi) as (i2 & Hi2 & Hc). simplify_eq. destruct Hc as [->|(sz & -> & [->|Hsz])]; [done|apply heights_measured|].
  destruct i as [h f|sz0 f]; [done|]. cbn in Hsz. by simplify_eq.
Qed.

Lemma layout_all_ok s w :
  list_wf s -> list_ready s -> few (length (items_of s)) ->
  exists s', layout_all_items render_item layout_as_root s w = Ok s' /\ list_wf s' /\ list_ready s' /\
    measured_into (Some w) (items_of s) (items_of s') /\ overdraw s' = overdraw s /\
    (measuring_behavior s = Measure false -> measuring_behavior s' = Measure true /\
       items_of s' = measure_items render_item layout_as_root w 0 (items_of s)).
Proof.
  intros Hw Hr Hn. unfold layout_all_items.
  destruct (measuring_behavior s) as [[]|] eqn:Em.
  - exists s. split_and!; try done. apply measured_into_refl.
  - change (items (with_measuring s (Measure true))) with (items s).
    rewrite (iter_collect_ok tt (items s) (proj1 (lw_items s Hw)) Hr). cbn [obind]. fold (items_of s).
    pose proof (measure_items_into w (items_of s)) as Hm.
    destruct (from_iter_few (measure_items render_item layout_as_root w 0 (items_of s))) as (t & -> & Ht & Hl & Hh);
      [by rewrite (proj1 Hm)|]. cbn [obind].
    exists (with_items (with_measuring s (Measure true)) t). split; [done|].
    split; [apply with_items_wf; [by apply with_measuring_wf|done| |]|].
    + rewrite Hl. by eapply measured_into_sized; [apply Hw|].
    + rewrite Hl. apply Hm.
    + split; [exact Hh|]. split; [unfold items_of at 2; cbn [items with_items]; by rewrite Hl|]. split; [done|].
      intros _. split; [done|]. exact Hl.
  - exists s. split_and!; try done. apply measured_into_refl.
Qed.

(** The [v] items from [o] on are shown: their sizes are those measured in this frame,
    and they reach the end of the list or fill the viewport below [o]. *)
Definition shows s (w available_height : Z) (padding : Edges) o (v : nat) : Prop :=
  let first := item_ix o in
  (first + v <= length (items_of s))%nat /\
  (forall ix, (first <= ix < first + v)%nat -> exists f, items_of s !! ix = Some (Measured (measured_size (Some w) ix) f)) /\
  ((first + v)%nat = length (items_of s) \/
   available_height <= top_edge padding + heights (take v (drop first (items_of s))) - offset_in_item o).

Lemma measure_first_ok s w :
  (match measuring_behavior s with Measure false => layout_all_items render_item layout_as_root s w | _ => Ok s end) =
  layout_all_items render_item layout_as_root s w.
Proof. unfold layout_all_items. by destruct (measuring_behavior s) as [[]|]. Qed.

(** The layouts of the first [v] items from the scroll top, or of none when the padding
    leaves no room. *)
Definition presents (w available_height : Z) (padding : Edges) (r : LayoutItemsResponse) (v : nat) : Prop :=
  if available_height >? top_edge padding + bottom_edge padding then
    take v (item_layouts r) = map (layout_of (Some w)) (seq (item_ix (response_scroll_top r)) v)
  else item_layouts r = [].

Lemma first_focused_bound l ix : first_focused focused l (Some ix) -> (ix < length l)%nat.
Proof. intros (i & Hi & _). by apply lookup_lt_Some in Hi. Qed.

Lemma layouts_within s' w r v (n : nat) :
  (exists extra, item_layouts r = map (layout_of w) (seq (item_ix (response_scroll_top r)) v) ++ extra /\
     ((extra = [] \/ exists q, first_focused focused (items_of (Handler := Handler) s') q /\
        extra = match q with Some ix => [layout_of w ix] | None => [] end))) ->
  (item_ix (response_scroll_top r) + v <= n)%nat -> length (items_of s') = n ->
  Forall (fun it => (layout_index it <= n)%nat) (item_layouts r).
Proof.
  intros (extra & -> & He) Hb Hn. apply Forall_app. split.
  - apply Forall_forall. intros it Hit. apply in_map_iff in Hit. destruct Hit as (ix & <- & Hix). cbn.
    apply in_seq in Hix. lia.
  - destruct He as [->|(q & Hq & ->)]; [done|]. destruct q as [ix|]; [|done]. constructor; [|done]. cbn.
    apply first_focused_bound in Hq. lia.
Qed.

Lemma request_bounds s bounds padding it p b o e :
  brings_into_view s bounds padding it p b o -> prepaint_at e p = Some b -> (layout_index it <= length (items_of s))%nat ->
  (item_ix o <= length (items_of s))%nat /\ 0 <= offset_in_item o.
Proof.
  unfold brings_into_view. intros H Ha Hit. destruct (top b <? top bounds).
  - rewrite H. cbn. pose proof (asks_below _ _ _ Ha). lia.
  - destruct H as (H1 & H2 & _). lia.
Qed.

Lemma first_request_asked bounds ls p it q b :
  first_request bounds ls p = Some (it, q, b) -> prepaint_at (element it) q = Some b.
Proof.
  revert p. induction ls as [|it0 ls IH]; intros p; cbn; [done|]. destruct (prepaint_at (element it0) p) eqn:E; [|by apply IH].
  destruct (_ || _); [by intros [= <- <- <-]|by apply IH].
Qed.

Lemma prepaint_items_ok s bounds padding (autoscroll : bool) :
  let avail := height (size bounds) in
  let w := width (size bounds) in
  list_wf s -> list_ready s -> few (length (items_of s)) ->
  (forall s1, layout_all_items render_item layout_as_root s w = Ok s1 -> frame_ready s1 (Some w) avail padding) ->
  0 <= top_edge padding < avail -> 0 <= bottom_edge padding -> 0 <= overdraw s ->
  exists s' r, prepaint_items render_item layout_as_root focused prepaint_at s bounds padding autoscroll = Ok (s', r) /\
    list_wf s' /\ list_ready s' /\ overdraw s' = overdraw s /\ measured_into (Some w) (items_of s) (items_of s') /\
    match r with
    | inl r => exists v, shows s' w avail padding (response_scroll_top r) v /\ presents w avail padding r v
    | inr o => autoscroll = true /\ (item_ix o <= length (items_of s'))%nat /\ 0 <= offset_in_item o
    end.
Proof.
  intros avail w Hw Hr Hn Hd Hpt Hpb Hover. unfold prepaint_items. fold w avail. rewrite measure_first_ok.
  destruct (layout_all_ok s w Hw Hr Hn) as (s1 & E1 & Hw1 & Hr1 & Hm1 & Ho1 & _). rewrite E1. cbn [obind].
  destruct (layout_items_ok render_item layout_as_root focused heights_measured s1 (Some w) avail padding Hw1 Hr1 (Hd _ E1) Hpt Hpb
    ltac:(lia)) as (s2 & r & v & E2 & Hf & Hr2 & Ho2). rewrite E2. cbn [obind].
  destruct Hf as [Hw2 Hm2 Hl Hsz Hb Hbelow _ _ _ _ _]. pose proof (proj1 Hm2) as Hlen.
  pose proof (measured_into_trans _ _ _ _ Hm1 Hm2) as Hm.
  assert (Hshow : shows s2 w avail padding (response_scroll_top r) v) by (unfold shows; rewrite Hlen; by split_and!).
  unfold presents. destruct (avail >? _) eqn:Eroom.
  2: { exists s2. eexists. split; [reflexivity|]. split; [exact Hw2|]. split; [exact Hr2|]. split; [congruence|]. split; [exact Hm|]. by exists v. }
  assert (Hpres : take v (item_layouts r) = map (layout_of (Some w)) (seq (item_ix (response_scroll_top r)) v)).
  { destruct Hl as (extra & -> & _). by rewrite take_app_le, take_ge by by rewrite length_map, length_seq. }
  assert (Hin : Forall (fun it => (layout_index it <= length (items_of s2))%nat) (item_layouts r)).
  { apply (layouts_within s2 (Some w) r v); [|by rewrite Hlen|done]. destruct Hl as (extra & Hl & He). exists extra.
    split; [done|]. destruct (existsb _ _); [by left|by right]. }
  set (p0 := mkPoint _ (_ - offset_in_item _)).
  destruct (prepaint_layouts_ok s2 bounds padding autoscroll (item_layouts r) p0 Hw2 Hr2 Hin) as (o & Eo & Ho).
  unfold p0 in Eo |- *. rewrite Eo. cbn [obind]. clear Eo. fold p0 in Ho.
  destruct (if autoscroll then _ else _) as [[[it q] b]|] eqn:Ereq.
  - destruct Ho as (Hit & o' & -> & Ho). exists s2. eexists. split; [reflexivity|]. split; [exact Hw2|]. split; [exact Hr2|]. split; [congruence|]. split; [exact Hm|].
    destruct autoscroll; [|done]. split; [done|]. eapply request_bounds; [exact Ho|by eapply first_request_asked|].
    apply list_elem_of_In in Hit. exact (proj1 (Forall_forall _ _) Hin _ Hit).
  - subst o. exists s2. eexists. split; [reflexivity|]. split; [exact Hw2|]. split; [exact Hr2|]. split; [congruence|]. split; [exact Hm|]. by exists v.
Qed.

(** The items whose sizes are still of use at the width of the new bounds. *)
Definition still_sized s (bounds : Bounds) : list (ListItem FocusHandle) :=
  if bool_decide (option_map (fun b => width (size b)) (last_layout_bounds s) = Some (width (size bounds)))
  then items_of s else map unmeasured (items_of s).

Lemma invalidate_ok s bounds :
  list_wf s -> list_ready s -> few (length (items_of s)) ->
  exists s', invalidate_sizes s bounds = Ok s' /\ list_wf s' /\ list_ready s' /\ items_of s' = still_sized s bounds /\
    overdraw s' = overdraw s.
Proof.
  intros Hw Hr Hn. unfold invalidate_sizes, still_sized.
  assert (Hkeep : forall b : bool, b = bool_decide (option_map (fun b => width (size b)) (last_layout_bounds s) = Some (width (size bounds))) ->
    match last_layout_bounds s with
    | None => true
    | Some last_bounds => negb (width (size last_bounds) =? width (size bounds))
    end = negb b).
  { intros b ->. destruct (last_layout_bounds s) as [lb|]; cbn; [|done].
    destruct (Z.eqb_spec (width (size lb)) (width (size bounds))); case_bool_decide; cbn; congruence. }
  rewrite (Hkeep _ eq_refl). clear Hkeep. destruct (bool_decide _); cbn [negb]; [by exists s|].
  rewrite (iter_collect_ok tt (items s) (proj1 (lw_items s Hw)) Hr). cbn [obind]. fold (items_of s).
  destruct (from_iter_few (map unmeasured (items_of s))) as (t & -> & Ht & Hl & Hh); [by rewrite length_map|]. cbn [obind].
  eexists. split; [reflexivity|]. split.
  - apply with_measuring_wf, with_items_wf; [done|done| |by rewrite Hl, length_map]. rewrite Hl.
    pose proof (lw_sized s Hw) as Hs. clear - Hs. induction Hs as [|i l Hi _ IH]; constructor; [|done].
    unfold sized, unmeasured in *. by destruct i.
  - split; [exact Hh|]. split; [exact Hl|done].
Qed.

Lemma still_sized_handles s bounds : map focus_handle (still_sized s bounds) = map focus_handle (items_of s).
Proof.
  unfold still_sized. case_bool_decide; [done|]. rewrite map_map. apply map_ext. by intros [? ?|? ?].
Qed.

(** What the two layouts of a prepaint leave can be traversed. *)
Definition prepaint_ready s (bounds : Bounds) (padding : Edges) : Prop :=
  let w := width (size bounds) in
  let avail := height (size bounds) in
  forall s1, invalidate_sizes (with_reset s false) bounds = Ok s1 ->
    (forall s2, layout_all_items render_item layout_as_root s1 w = Ok s2 -> frame_ready s2 (Some w) avail padding) /\
    (forall s2 o s3, prepaint_items render_item layout_as_root focused prepaint_at s1 bounds padding true = Ok (s2, inr o) ->
       layout_all_items render_item layout_as_root (with_scroll s2 (Some o)) w = Ok s3 -> frame_ready s3 (Some w) avail padding).

(** Requesting the layout of a list whose size is inferred returns, and measures items without
    a width; nothing else of the list changes but its scroll position.  The height is that of
    all items. *)
Lemma list_request_layout_ok s padding :
  let avail := match last_layout_bounds s with Some b => height (size b) | None => overdraw s end in
  list_wf s -> list_ready s -> frame_ready s None avail padding -> 0 <= top_edge padding < avail -> 0 <= bottom_edge padding -> 0 <= overdraw s ->
  exists s' max_width, list_request_layout render_item layout_as_root focused SizingInfer s padding = Ok (s', Some (max_width, heights (items_of s'))) /\
    list_wf s' /\ list_ready s' /\ measured_into None (items_of s) (items_of s').
Proof.
  intros avail Hw Hr Hd Hpt Hpb Hover. unfold list_request_layout. fold avail.
  destruct (layout_items_ok render_item layout_as_root focused heights_measured s None avail padding Hw Hr Hd Hpt Hpb Hover) as (s' & r & v & -> & Hf & Hr' & _).
  cbn [obind]. exists s', (max_item_width r). rewrite total_height_ok by apply Hf. split; [done|]. split; [apply Hf|]. split; [done|apply Hf].
Qed.

(** C40: Prepainting a list never panics, with or without a request to scroll an element
    into view: its loops end, the layout that answers a request makes none, and the list is
    left with the bounds and the padding of the frame, and as many items with the same focus
    handles.  If there was no frame of the same width before, all sizes are forgotten;
    otherwise those in the list stay as they are, also those that [request_layout] measured
    without a width.  Each item is then measured in this frame, at its width, or has the size
    that was not forgotten, or none; and the items shown are measured in this frame, and fill
    the viewport or end the list.  This is for lists that are not too long or too deep to be
    traversed, before and in the frame, for elements of no negative height that ask for bounds
    that are not above themselves, and for padding and overdraw that are not negative, with
    less padding at the top than the list is high. *)
Theorem list_prepaint_correct s bounds padding (Hw : list_wf s) (Hr : list_ready s) (Hn : few (length (items_of s)))
    (Hd : prepaint_ready s bounds padding) (Hpt : 0 <= top_edge padding < height (size bounds))
    (Hpb : 0 <= bottom_edge padding) (Hover : 0 <= overdraw s) :
  exists s' r v, list_prepaint render_item layout_as_root focused prepaint_at s bounds padding = Ok (s', r) /\
    list_wf s' /\ last_layout_bounds s' = Some bounds /\ last_padding s' = Some padding /\
    map focus_handle (items_of s') = map focus_handle (items_of s) /\
    measured_into (Some (width (size bounds))) (still_sized s bounds) (items_of s') /\
    shows s' (width (size bounds)) (height (size bounds)) padding (response_scroll_top r) v /\
    presents (width (size bounds)) (height (size bounds)) padding r v.
Proof.
  assert (Hdone : forall s2 r v,
    list_wf s2 -> measured_into (Some (width (size bounds))) (still_sized s bounds) (items_of s2) ->
    shows s2 (width (size bounds)) (height (size bounds)) padding (response_scroll_top r) v ->
    presents (width (size bounds)) (height (size bounds)) padding r v ->
    exists s' r' v', Ok (with_layout s2 (Some bounds) (Some padding), r) = Ok (s', r') /\
      list_wf s' /\ last_layout_bounds s' = Some bounds /\ last_padding s' = Some padding /\
      map focus_handle (items_of s') = map focus_handle (items_of s) /\
      measured_into (Some (width (size bounds))) (still_sized s bounds) (items_of s') /\
      shows s' (width (size bounds)) (height (size bounds)) padding (response_scroll_top r') v' /\
      presents (width (size bounds)) (height (size bounds)) padding r' v').
  { intros s2 r v Hw2 Hm Hs Hp. exists (with_layout s2 (Some bounds) (Some padding)), r, v. split; [done|].
    split; [by apply with_layout_wf|]. split; [done|]. split; [done|].
    split; [|by split]. rewrite <- (still_sized_handles s bounds). exact (measured_into_handles render_item layout_as_root _ _ _ Hm). }
  assert (Hw0 : list_wf (with_reset s false)) by by destruct Hw.
  destruct (invalidate_ok (with_reset s false) bounds Hw0 Hr Hn) as (s1 & E1 & Hw1 & Hr1 & Hi1 & Ho1).
  change (still_sized (with_reset s false) bounds) with (still_sized s bounds) in Hi1.
  change (overdraw (with_reset s false)) with (overdraw s) in Ho1.
  destruct (Hd s1 E1) as [Hd1 Hd2]. unfold list_prepaint. rewrite E1. cbn [obind].
  assert (Hn1 : few (length (items_of s1))).
  { by rewrite Hi1, <- (length_map focus_handle), still_sized_handles, length_map. }
  destruct (prepaint_items_ok s1 bounds padding true Hw1 Hr1 Hn1 Hd1 Hpt Hpb ltac:(lia))
    as (s2 & r & E2 & Hw2 & Hr2 & Ho2 & Hm2 & Hres). rewrite E2. cbn [obind]. rewrite Hi1 in Hm2.
  destruct r as [r|o]; [destruct Hres as (v & Hs & Hp); cbn [obind]; by apply (Hdone s2 r v)|].
  destruct Hres as (_ & Hix & Ho).
  assert (Hw3 : list_wf (with_scroll s2 (Some o))) by (destruct Hw2; split; [done|done|by intros ? [= <-]|done]).
  assert (Hn3 : few (length (items_of (with_scroll s2 (Some o))))).
  { change (items_of (with_scroll s2 (Some o))) with (items_of s2). rewrite (proj1 Hm2), <- Hi1. done. }
  destruct (prepaint_items_ok (with_scroll s2 (Some o)) bounds padding false Hw3 Hr2 Hn3 (fun s3 => Hd2 s2 o s3 E2) Hpt Hpb)
    as (s4 & r & E4 & Hw4 & _ & _ & Hm4 & Hres); [cbn; lia|]. rewrite E4. cbn [obind].
  destruct r as [r|o']; [|by destruct Hres]. destruct Hres as (v & Hs & Hp). cbn [obind].
  apply (Hdone s4 r v); [done| |done|done]. by eapply measured_into_trans.
Qed.

End Prepaint.

Module TestPrepaint.
Import TestList TestScroll TestLayout.

(** The element of item 8 asks to be shown. *)
Definition ask (e : nat) (p : Point) : option Bounds := if (e =? 8)%nat then Some (mkBounds p (mkSize 100 20)) else None.

Lemma list_autoscroll_correct_witness :
  exists o, prepaint_layouts render layout_element ask scrolled (mkBounds (mkPoint 0 0) (mkSize 100 55)) padding true
    (map (layout_of render layout_element (Some 100)) [6; 7; 8]%nat) (mkPoint 0 (-3)) = Ok (Some o) /\
    (item_ix o <= 8)%nat /\ 0 <= offset_in_item o.
Proof.
  destruct scrolled_ok as (Hw & Hr & Hl).
  destruct (list_autoscroll_correct render layout_element ask scrolled (mkBounds (mkPoint 0 0) (mkSize 100 55)) padding
    (map (layout_of render layout_element (Some 100)) [6; 7; 8]%nat) (mkPoint 0 (-3)) Hw Hr) as ((r & E & H) & _).
  - rewrite Hl. repeat constructor; cbn; lia.
  - change (first_request _ _ _ _) with (Some (layout_of render layout_element (Some 100) 8%nat, mkPoint 0 37, mkBounds (mkPoint 0 37) (mkSize 100 20))) in H.
    destruct H as (_ & o & -> & Hb). exists o. split; [exact E|]. unfold brings_into_view in Hb.
    change (37 <? 0) with false in Hb. cbn iota in Hb. destruct Hb as (H1 & H2 & _). split; [exact H1|exact H2].
Defined.

Definition viewport : Bounds := mkBounds (mkPoint 0 0) (mkSize 100 55).

Lemma scrolled_prepaint_ready : prepaint_ready render layout_element no_focus ask scrolled viewport padding.
Proof.
  intros s1 E1. vm_compute in E1. injection E1 as <-. split.
  - intros s2 E2 s3 y E3. vm_compute in E2. injection E2 as <-. vm_compute in E3. injection E3 as <- <-.
    unfold list_ready, STACK_CAPACITY. cbn. lia.
  - intros s2 o s3 E2 E3 s4 y E4. vm_compute in E2. injection E2 as <- <-. vm_compute in E3. injection E3 as <-.
    vm_compute in E4. injection E4 as <- <-. unfold list_ready, STACK_CAPACITY. cbn. lia.
Qed.

Lemma asks_below_origin e p b : ask e p = Some b -> py p <= top b.
Proof. unfold ask. destruct (e =? 8)%nat; [intros [= <-]; reflexivity|discriminate]. Qed.

(** An element that is higher when it is given a width. *)
Definition wrapping (e : nat) (w : option Z) : Size := mkSize 100 (match w with Some _ => 20 | None => 10 end).

(** A list that was shown at this width and then filled with new items: the sizes that
    [request_layout] measures without a width are still there after prepainting. *)
Definition shown_before : @StateInner nat unit := with_layout sample_new (Some (mkBounds (mkPoint 0 0) (mkSize 100 25))) (Some padding).

Definition sizes_after_frame : outcome (list (option Z)) :=
  (let! (s, _) := list_request_layout render wrapping no_focus SizingInfer shown_before padding in
  let! (s, _) := list_prepaint render wrapping no_focus ask s (mkBounds (mkPoint 0 0) (mkSize 100 25)) padding in
  Ok (map (fun i => option_map height (item_size i)) (take 4 (items_of s))))%rust.

Example sizes_without_width : sizes_after_frame = Ok [Some 20; Some 20; Some 10; Some 10].
Proof. by vm_compute. Qed.

Lemma list_prepaint_correct_witness :
  exists s' r v, list_prepaint render layout_element no_focus ask scrolled viewport padding = Ok (s', r) /\
    list_wf s' /\ last_layout_bounds s' = Some viewport /\
    take v (item_layouts r) = map (layout_of render layout_element (Some 100)) (seq (item_ix (response_scroll_top r)) v).
Proof.
  destruct scrolled_ok as (Hw & Hr & Hl).
  destruct (list_prepaint_correct render layout_element no_focus ask element_heights asks_below_origin scrolled viewport padding
    Hw Hr) as (s' & r & v & E & Hw' & Hb & _ & _ & _ & _ & Hp).
  - rewrite Hl. vm_compute. discriminate.
  - exact scrolled_prepaint_ready.
  - cbn. lia.
  - cbn. lia.
  - vm_compute. discriminate.
  - exists s', r, v. split; [exact E|]. split; [exact Hw'|]. split; [exact Hb|exact Hp].
Defined.
End TestPrepaint.
